(* ===== verification/_CoqProject ===== *)
-Q . S2P
Prelude.v
Words.v
Status.v
Registers.v
ProcStreams.v
Processor.v
CmdInternal.v
CmdArith.v
CmdLogic.v
CmdFlow.v
CmdMulDiv.v
CmdStack.v
CmdString.v
CmdBits.v
CmdMove.v
ProcessorInit.v
DecTypes.v
DecStreams.v
DecUtils.v
DecPrefix.v
DecAddress.v
DecLink.v
DecWalk.v
DecParser.v
DecCore.v
MemStreams.v
DecTables.v
Execution.v
StackWalk.v
Lists.v
Stack.v
State.v
Exec.v
Operands.v
Rules.v
ArithProofs.v
Loops.v
LogicProofs.v
RegisterProofs.v
Sample.v
FlowProofs.v
MulDivProofs.v
Invariant.v
StackProofs.v
StringProofs.v
BitProofs.v
DecSample.v
DecHoare.v
DecWalkProofs.v
DecLinkProofs.v
DecCacheProofs.v
DecTryProofs.v
DecPrefixProofs.v
DecDecodeProofs.v
DecCommandProofs.v
DecBufferProofs.v
CopyStreams.v
DecModes.v
DecFarProofs.v
DecProperties.v
Fetch.v
ExecutionProofs.v
StackWalkProofs.v
ExecutionProperties.v
StackWalkProperties.v
Analyze.v
AnalyzeOwnerProofs.v
AnalyzeSaveProofs.v
AnalyzeProofs.v
AnalyzeWalkProofs.v
AnalyzeProperties.v
PeFile.v
PeProofs.v
PeRelocProofs.v
PeExportProofs.v
PeProperties.v
ListProofs.v
Properties.v
Witnesses.v
