(* ===== verification/Prelude.v ===== *)
(** * diana_core: a verified model of the disassembler and the instruction emulator

    diana_core (under src/src/diana_core/diana_core) is an x86 and amd64 disassembler with an
    emulator for the integer instruction set on top of it.  This development models the decoder,
    from the bytes of a stream to a linked instruction, the emulator in diana_processor/, the static
    analyzer, the loader of PE files, and the containers they come with, as executable definitions, and
    proves what they do.

    ** The program and its parts

    The decoder (diana_core.c, diana_core_parsers.c, diana_core_utils.c, diana_operands.c,
    diana_tables_*.c) reads bytes through a callback, [DianaReadStream].  It keeps up to seven of
    them in a cache, works through the prefixes, tries the opcode tables with each mandatory
    prefix, walks the tables, and links the operands, which reads the ModRM, SIB, displacement and
    immediate bytes.  The result is a [DianaParserResult]: a command and up to six operands.  The
    opcode tables are generated (diana_gen.c); [Diana_Init] completes them.

    The processor (diana_processor_core.c) keeps the registers in one byte vector, addressed
    through a table of offsets and sizes so that AL, AX, EAX and RAX share storage, a flags word,
    the decoder's context, a memory stream with read and write callbacks, and state bits through
    which a handler talks to the loop that runs it.  [DianaProcessor_ExecOnce] decodes the next
    instruction through the memory stream and calls its handler, [Diana_Call_<mnemonic>], by way
    of [Call] or, for a repetition prefix, of [CallWithRep].  A handler reads its operands
    (DI_MEM_GET_DEST, DI_MEM_GET_SRC), updates the flags and writes the result (DI_MEM_SET_DEST,
    which also computes PF, SF and ZF when DI_UPDATE_FLAGS_PSZ asks for it).

    The static analyzer (diana_analyze.c) decodes from an offset on, follows every jump and call, and
    tries the addresses that instructions take as code, as questionable routes.  It collects the
    instructions and the references between them in a [Diana_InstructionsOwner]; a route that turns
    out to be no code is rolled back.  Its observer gives the stream and says what an address is.
    diana_list.c and diana_stack.c are its containers.

    The loader (diana_pe.c) reads the headers of a PE file from a stream, copies the sections to where
    they are in memory through a stream that can be written, moves the places that the relocations name,
    and binds the imports; in a mapped module it looks up exports.

    ** How the model corresponds to the code

    Common to all parts:
    - Prelude: the outcome of a C function and the monad of state and errors.  [Ok] is DI_SUCCESS,
      [Err c] another status, returned at once as DI_CHECK does, and [Crash] what C gives no
      meaning to (a division that traps, an access outside of a table or of the memory).  On [Err]
      and [Crash] the state keeps what was written before.
    - Words: C integers are [Z] with the wrap-around written out ([u8] .. [u64], [s8] .. [s64]);
      byte vectors are lists with little-endian loads and stores.
    - Status, Registers: DI_* codes, flag masks, the register enumeration and the calls that
      register the registers (diana_core.h, diana_processor_core_impl.h, impl_init.h).

    The processor:
    - ProcStreams: diana_processor_streams.c.  The stream interface is the class [RandomStream];
      [RandomStreamOk] states what the processor relies on, and [DianaRandomMemoryStream] is
      proved to keep it.  Every theorem about instructions is proved for any such stream.
    - Processor: diana_processor_core_impl.c, diana_processor_specific.h and the accessors of
      diana_proc_gen.h.  The state is the record [DianaProcessor]; [MP T A] is the monad on it.
    - CmdInternal, CmdArith, CmdLogic, CmdFlow, CmdMulDiv, CmdStack, CmdString, CmdMove,
      CmdBits: the handlers, one definition each, under the names of the C functions
      (diana_processor_cmd_*.c, diana_processor_commands.c).  CmdString holds [Call] and
      [CallWithRep] of diana_processor_core.c; ProcessorInit: DianaProcessor_Init with the
      allocator as an oracle, and the table of DianaProcessor_OnGroup, which command has which handler.

    The decoder, as it is built with DIANA_NO_ARM:
    - DecTypes: operand and command descriptions, the opcode tables as trees, the context, the
      result, and the state [DecState] one call works on; DecStreams: the callback as the class
      [DianaReadStream], the counting proxy of [Diana_ParseCmd] and the proxy over the cache.
    - DecUtils, DecPrefix: contexts, the cache, legacy, REX, VEX and EVEX prefixes.
    - DecAddress, DecLink: ModRM and SIB addressing, and [Diana_LinkOperands].
    - DecWalk: the walk through the tables; DecParser: mandatory prefixes and their tries, VEX and
      EVEX commands; DecCore: [Diana_ParseCmdEx] and [Diana_ParseCmd]; DecTables: [Diana_Init].
    - MemStreams: streams over a buffer and [Diana_ParseCmdOnBuffer]; CopyStreams: copying and
      filling of streams (both diana_streams.c).

    The composition: Execution has the [Machine], a processor with the decoder's context and
    result, the stream [ProcessorReadStream] that makes the processor an instance of
    [DianaReadStream], and [DianaProcessor_ExecOnce].  The processor's own record of an instruction
    (Processor.v) is a view of the decoder's (DecTypes.v), with the fields that handlers use.

    The stack analysis: StackWalk has the effect of an instruction on the stack pointer
    (diana_analyze2.c), the targets of calls and jumps, and the two walks over a stack
    (diana_processor_core.c).  The walk decodes from a stream of its own over the processor's memory,
    and calls an observer, which is an argument and may change the processor.

    The static analyzer, as it is built with DIANA_NO_ARM: Analyze (diana_analyze.c) has the owner
    [Diana_InstructionsOwner], the [DianaAnalyzeSession] of one analysis with the monad [A] on it, the
    references and routes an instruction adds ([SaveNewRoute], [SaveDataAccess],
    [AnalyzeAndConstructInstruction]), the rollback ([RollbackCurrentRoute]), the loop over the routes
    ([routes_loop] in [Diana_AnalyzeCodeImpl]) and the entry points.  A pointer to an instruction is
    an index, and its lists of references are lists of indices.  The stream is the class
    [DianaMovableReadStream], which the stream over memory implements; the observer and DIANA_MALLOC
    are arguments.

    PE files: PeFile (diana_pe.c, diana_pe_defs.h) has the headers as records that are read from their
    bytes, [DianaPeFile_Init], [DianaPeFile_MapEx] from one stream to another, both classes,
    [DianaPeFile_Relocate] and [DianaPeFile_GetProcAddressEx], where the mapped module is a list of bytes
    and a pointer into it an offset.

    The containers: Lists (diana_list.c) over any state that has a memory of nodes, the class
    [NodeMemory]; Stack (diana_stack.c) on top of it.

    [pDianaContext] of a handler is the processor's own context.  Where the sixteen conditions
    occur three times in the code (cmovcc, jcc, setcc), the model has the condition once.  What the
    program gets from elsewhere is an argument of the definitions: the generated tables and
    [Diana_GetNopInfo], DIANA_MALLOC, observers, fire points, the provider of custom commands and
    the handlers of floating point and SIMD commands.

    ** The theorems

    DecProperties, CopyStreams, ExecutionProperties, AnalyzeProperties, PeProperties,
    StackWalkProperties, ListProofs and Properties list them, each numbered; each is applied to a concrete input (for
    those of Properties in Witnesses), for the decoder and the analyzer with the part of the opcode
    tables in DecSample, for instructions with the machines of Sample.  The files between carry the
    lemmas.

    The processor:
    - State, Exec, Operands, Rules: the well-formedness of a processor [wf], the flags
      word bit by bit, and one execution rule per accessor, stated over [tw f b s] (state [s]
      with flags [f], and [b] for a pending PSZ update) so that a handler is executed by rewriting.
    - ArithProofs, LogicProofs, MulDivProofs, FlowProofs: the result and the flags of
      the arithmetic, logic, shift, rotation, multiplication, division and conditional
      instructions.  Loops relates the 128-bit routines and the bit-by-bit loops to plain
      arithmetic.  BitProofs does so for the bit scans
      and counts, pdep and pext, and the byte swaps.
    - RegisterProofs: the registers of the architecture as parts of the sixteen 64-bit ones
      ([register_parts]), that the table of the code has this layout, how a store to one register changes
      every other, and what DianaProcessor_Init leaves.
    - Invariant: every handler keeps the processor ready for the next one.
    - StackProofs, StringProofs: push/pop, pusha/popa, call/ret as round trips; string
      instructions, and repetition: it ends, fills and copies.

    The decoder:
    - DecHoare: [holds], a logic of invariants for the decoder's programs, and the reading of the stream.
    - DecWalkProofs: the walk is a depth-first search, and what it can find.
    - DecLinkProofs, DecCacheProofs, DecPrefixProofs: every byte of the stream is
      taken once and in order, through the proxies, the cache and the virtual prefixes, and no
      access leaves the cache, the tables or the operands.
    - DecTryProofs, DecDecodeProofs, DecCommandProofs: the same for a try, for [Diana_ParseCmdEx]
      and for [Diana_ParseCmd], which is ready for the next instruction after each one.
    - DecBufferProofs: decoding of a buffer; DecModes: what of the context no call changes;
      DecFarProofs: no operand decoded in 64-bit mode is a far pointer, as the tables allow none there.

    The composition: Fetch shows that the stream of the processor keeps the laws of the decoder's
    interface, ExecutionProofs that processor, context and place of reading stay in step with RIP,
    whatever the instructions do.

    The stack analysis: StackWalkProofs shows that the walk only reads between two calls of the
    observer, and what it reports; StackWalkProperties compares the differences with the handlers
    and the walk over EBP frames with the chain in memory.

    The static analyzer: AnalyzeOwnerProofs has [owner_ok], the bookkeeping of the owner, and that each
    operation keeps it; AnalyzeSaveProofs has [triple], a logic of programs with a postcondition for
    success and for errors, and what leaves the valid instructions alone; AnalyzeProofs the routes that
    are still to be followed, through the analysis of one instruction; AnalyzeWalkProofs the rollback
    and the loop.  AnalyzeProperties: an analysis ends and keeps the owner right, a rollback takes back
    the route and nothing else, a scan analyzes every aligned offset of the range in turn and what it finds
    was decoded.

    PE files: PeProofs has [pe_headers], what a file with these headers is, and [image], what its memory
    is to hold; PeRelocProofs the targets of a directory of relocations ([targets]) and that moving them
    composes; PeExportProofs the binary search over the sorted names.  PeProperties: the headers are read
    if and only if the file has them, mapping gives the image or an error, relocations move their targets
    and nothing else, moving twice is moving once, an export is found if and only if it is there.

    The containers: ListProofs relates the lists in memory to sequences of addresses, and the blocks of
    a stack to the sequence of items.

    ** Fuel

    - [rep_loop], the endless loop of the repetition prefixes, is left after at most as many rounds
      as the counter register says, so more fuel than RCX is enough; [repetition_terminates] proves
      this together with the independence of the result from the fuel, and
      [DianaProcessor_ExecOnce] takes this much.
    - [walk], the loop of [Diana_ParseCmdImpl], has the size of the tables as fuel ([walk_fuel]);
      [table_walk_is_search] proves that it is enough.
    - The loop over prefixes counts down the code's own limit, DI_MAX_PREFIXES_COUNT, and returns
      the code's error there.
    - The walks over lists have fuel from their caller; the theorems hold for any that is not less
      than the length.  [Diana_Stack_Push], [Diana_Stack_Clear] and [Diana_Stack_Free] take the
      number of blocks or of items.
    - [copy_loop] and [memset_loop] have fuel from their caller; one more than the number of bytes is
      enough for any page that is not empty.  [frame_loop], the walk over EBP frames, has no bound in
      the code: with a chain that ends, one more than its length is enough, and with a cycle no fuel
      is, which is proved.  [walk_loop] and [function_diff_loop] count down the code's own limit.
    - [routes_loop] has fuel from its caller; (maxSize + 1) * (maxOffset + 1) is enough, as every route
      starts at an instruction of its own and goes forward ([analysis_ends]).  [scan_loop] needs one
      more than maxOffset.
    - [relocate_blocks] has fuel from its caller; one more than the number of blocks is enough for a
      directory that is well formed, and with a block of size 0 or 1 none is, which is proved.
      [search_names] has 34 rounds ([search_fuel]) for a range of 32 bits that is halved.
    All other loops of the code have constant bounds and are structural recursions over them.

    ** Not modelled

    The FPU, MMX, SSE, AVX and cryptographic handlers (over the vendored softfloat), the
    registration of fire points, of the PE files the imports, the enumeration of the exports, the thread
    local callbacks and the PDB identity, the ELF and PDB readers, the analyzers on top of both, the patchers, the ARM front end
    and the ARM branches of the analyzer with its landing pads, the freeing of the analyzer's owner, the
    text output and the C++ application on top.  Debug breaks (Diana_FatalBreak) are empty in a release build and
    in the model.  Memory operands are limited to the sizes of the integer instructions.  The head
    of a list is given by value to a walk over it, so that an observer cannot change the head. *)

From Stdlib Require Import ZArith Lia List Bool.
Import ListNotations.
Local Open Scope Z_scope.

Declare Scope diana_scope.
Delimit Scope diana_scope with diana.

(** ** Outcomes of a C function

    Almost every function of diana_core returns an [int] status: [DI_SUCCESS] is 0 and the
    macro [DI_CHECK] returns any other value to the caller.  [Ok a] is a return with
    [DI_SUCCESS] (with the values of the out parameters), [Err code] a return with another
    status, and [Crash] marks a step the C standard gives no meaning to (a division that traps
    on the host, an access outside of a fixed table). *)

Inductive outcome (A : Type) : Type :=
| Ok (a : A)
| Err (code : Z)
| Crash.

Arguments Ok {A} a.
Arguments Err {A} code.
Arguments Crash {A}.

(** ** The state and error monad of the development

    The state survives an error: a handler that fails half way leaves behind what it has
    already written, as the C code does. *)

Definition M (St A : Type) : Type := St -> outcome A * St.

Section Monad.
Context {St : Type}.

Definition ret {A} (a : A) : M St A := fun s => (Ok a, s).

Definition bind {A B} (m : M St A) (f : A -> M St B) : M St B :=
  fun s =>
    match m s with
    | (Ok a, s') => f a s'
    | (Err c, s') => (Err c, s')
    | (Crash, s') => (Crash, s')
    end.

Definition fail {A} (code : Z) : M St A := fun s => (Err code, s).
Definition crash {A} : M St A := fun s => (Crash, s).
Definition gets {A} (f : St -> A) : M St A := fun s => (Ok (f s), s).
Definition modify (f : St -> St) : M St unit := fun s => (Ok tt, f s).
Definition when (b : bool) (m : M St unit) : M St unit := if b then m else ret tt.
End Monad.

Notation "'let!' x ':=' m 'in' k" := (bind m (fun x => k))
  (at level 200, x pattern, m at level 100, k at level 200, right associativity) : diana_scope.
Notation "m ';;;' k" := (bind m (fun _ => k))
  (at level 199, k at level 200, right associativity) : diana_scope.

(** ** Rules of the monad: they drive the symbolic execution of the handlers. *)

Section MonadLemmas.
Context {St A B : Type}.

Lemma bind_run (m : M St A) (f : A -> M St B) s a s' :
  m s = (Ok a, s') -> bind m f s = f a s'.
Proof. unfold bind. now intros ->. Qed.

Lemma bind_err (m : M St A) (f : A -> M St B) s c s' :
  m s = (Err c, s') -> bind m f s = (Err c, s').
Proof. unfold bind. now intros ->. Qed.

Lemma bind_crash (m : M St A) (f : A -> M St B) s s' :
  m s = (Crash, s') -> bind m f s = (Crash, s').
Proof. unfold bind. now intros ->. Qed.

Lemma bind_ret (a : A) (f : A -> M St B) s : bind (ret a) f s = f a s.
Proof. reflexivity. Qed.

Lemma bind_gets (g : St -> A) (f : A -> M St B) s : bind (gets g) f s = f (g s) s.
Proof. reflexivity. Qed.

Lemma bind_modify (g : St -> St) (f : unit -> M St B) s : bind (modify g) f s = f tt (g s).
Proof. reflexivity. Qed.

Lemma bind_fail (c : Z) (f : A -> M St B) s : bind (fail c) f s = (Err c, s).
Proof. reflexivity. Qed.

Lemma bind_bind {C} (m : M St C) (g : C -> M St A) (f : A -> M St B) s :
  bind (bind m g) f s = bind m (fun x => bind (g x) f) s.
Proof. unfold bind. destruct (m s) as [[c| |] s']; reflexivity. Qed.

(** An [Ok] result of a sequence comes from [Ok] results of its parts. *)
Lemma bind_ok_inv (m : M St A) (f : A -> M St B) s b s' :
  bind m f s = (Ok b, s') -> exists a s1, m s = (Ok a, s1) /\ f a s1 = (Ok b, s').
Proof.
  unfold bind. destruct (m s) as [[a| |] s1]; intros E; try discriminate. now exists a, s1.
Qed.
End MonadLemmas.

Create HintDb diana discriminated.
Create Rewrite HintDb diana_monad.
#[export] Hint Rewrite @bind_ret @bind_gets @bind_modify @bind_fail @bind_bind : diana_monad.

(** [mrun E] takes one step of a handler: the step [E] says its first action makes. *)
Ltac mrun E := erewrite (bind_run _ _ _ _ _ E).

(** [mred] takes the steps that are decided by the monad's rules alone. *)
Ltac mred := repeat (rewrite bind_ret || rewrite bind_gets || rewrite bind_modify
                     || rewrite bind_fail || rewrite bind_bind).

(** ** Lists *)

Section Lists.
Context {A : Type}.

Lemma nth_app_left (l l' : list A) i d :
  (i < length l)%nat -> nth i (l ++ l') d = nth i l d.
Proof. apply app_nth1. Qed.

Lemma nth_firstn_lt (l : list A) n i d :
  (i < n)%nat -> nth i (firstn n l) d = nth i l d.
Proof.
  revert l i. induction n as [|n IH]; intros [|a l] [|i] H; cbn; try lia; auto.
  apply IH. lia.
Qed.

Lemma nth_skipn_add (l : list A) n i d : nth i (skipn n l) d = nth (n + i) l d.
Proof. revert l. induction n as [|n IH]; intros [|a l]; cbn; auto. now destruct i. Qed.

Lemma skipn_app_exact (l l' : list A) n : n = length l -> skipn n (l ++ l') = l'.
Proof. intros ->. rewrite skipn_app, skipn_all, Nat.sub_diag. reflexivity. Qed.

Lemma firstn_app_exact (l l' : list A) n : n = length l -> firstn n (l ++ l') = l.
Proof. intros ->. rewrite firstn_app, firstn_all, Nat.sub_diag. apply app_nil_r. Qed.

Lemma list_ext_nth (l l' : list A) d :
  length l = length l' -> (forall i, (i < length l)%nat -> nth i l d = nth i l' d) -> l = l'.
Proof. intros HL H. eapply nth_ext; eauto. Qed.
End Lists.

(** ** Options *)

Definition option_or {A} (o : option A) (d : A) : A :=
  match o with Some a => a | None => d end.

(** ** Z comparisons: [zcases] splits on the Boolean comparisons of the goal. *)
Ltac zcases :=
  repeat match goal with
  | |- context [?a =? ?b] => destruct (Z.eqb_spec a b)
  | |- context [?a <? ?b] => destruct (Z.ltb_spec a b)
  | |- context [?a <=? ?b] => destruct (Z.leb_spec a b)
  end.
