(* ===== verification/Words.v ===== *)
(** Machine words: C integer conversions at their widths, bits of an integer, and little-endian
    byte strings.  A [w]-bit unsigned value is a [Z] between 0 and [2^w - 1]; every C operation
    that can leave the range is followed by the conversion the C type implies. *)

From Stdlib Require Import ZArith Lia List Bool.
Import ListNotations.
From S2P Require Import Prelude.
Local Open Scope Z_scope.

(** ** Conversions to the fixed-width types ([DI_CHAR], [DI_UINT16], [DI_UINT32], [OPERAND_SIZE]) *)

Definition u8 (x : Z) : Z := x mod 0x100.
Definition u16 (x : Z) : Z := x mod 0x10000.
Definition u32 (x : Z) : Z := x mod 0x100000000.
Definition u64 (x : Z) : Z := x mod 0x10000000000000000.

(** ** Conversions to the signed types (two's complement) *)

Definition s8 (x : Z) : Z := let y := u8 x in if y <? 0x80 then y else y - 0x100.
Definition s16 (x : Z) : Z := let y := u16 x in if y <? 0x8000 then y else y - 0x10000.
Definition s32 (x : Z) : Z := let y := u32 x in if y <? 0x80000000 then y else y - 0x100000000.
Definition s64 (x : Z) : Z :=
  let y := u64 x in if y <? 0x8000000000000000 then y else y - 0x10000000000000000.

(** The number of values of an operand of [n] bytes, and the weight of its sign bit. *)
Definition modulus (n : Z) : Z := 2 ^ (8 * n).
Definition half (n : Z) : Z := 2 ^ (8 * n - 1).

(** The value of an [n]-byte pattern read as a two's complement number. *)
Definition signed (n x : Z) : Z := if x <? half n then x else x - modulus n.

(** The operand sizes of the integer instructions. *)
Definition opsize (n : Z) : Prop := n = 1 \/ n = 2 \/ n = 4 \/ n = 8.

Ltac opsize_cases H :=
  let E := fresh "E" in
  destruct H as [E | [E | [E | E]]]; subst.

Ltac unfold_words :=
  unfold u8, u16, u32, u64, s8, s16, s32, s64, signed, modulus, half in *.

Ltac wsimp :=
  change (modulus 1) with 0x100 in *; change (modulus 2) with 0x10000 in *;
  change (modulus 4) with 0x100000000 in *; change (modulus 8) with 0x10000000000000000 in *;
  change (half 1) with 0x80 in *; change (half 2) with 0x8000 in *;
  change (half 4) with 0x80000000 in *; change (half 8) with 0x8000000000000000 in *.

(** [word_lia] decides linear facts about words: it opens the conversions and hands the modulo
    constraints to [lia]. *)
Ltac word_lia :=
  unfold_words; wsimp; Z.div_mod_to_equations; lia.

Lemma modulus_half n : 1 <= n -> modulus n = 2 * half n.
Proof.
  intros H. unfold modulus, half. replace (8 * n) with (1 + (8 * n - 1)) at 1 by lia.
  rewrite Z.pow_add_r by lia. reflexivity.
Qed.

Lemma half_pos n : 1 <= n -> 0 < half n.
Proof. intros H. apply Z.pow_pos_nonneg; lia. Qed.

Lemma modulus_pos n : 0 <= n -> 0 < modulus n.
Proof. intros H. apply Z.pow_pos_nonneg; lia. Qed.

Lemma opsize_pos n : opsize n -> 1 <= n <= 8.
Proof. unfold opsize. lia. Qed.

Lemma u64_range x : 0 <= u64 x < 0x10000000000000000.
Proof. apply Z.mod_pos_bound. lia. Qed.

Lemma u64_small x : 0 <= x < 0x10000000000000000 -> u64 x = x.
Proof. apply Z.mod_small. Qed.

Lemma u32_small x : 0 <= x < 2 ^ 32 -> u32 x = x.
Proof. apply Z.mod_small. Qed.

Lemma s32_range x : - 2 ^ 31 <= s32 x < 2 ^ 31.
Proof. unfold s32, u32. pose proof (Z.mod_pos_bound x 0x100000000 eq_refl). zcases; lia. Qed.

Lemma s32_small x : - 2 ^ 31 <= x < 2 ^ 31 -> s32 x = x.
Proof.
  intros H. unfold s32, u32. destruct (Z_lt_dec x 0).
  - rewrite <- (Z_mod_plus_full x 1), Z.mod_small by lia. zcases; lia.
  - rewrite Z.mod_small by lia. zcases; lia.
Qed.

Lemma modulus_divides n : opsize n -> (modulus n | 0x10000000000000000).
Proof.
  intros H. opsize_cases H; wsimp.
  - exists (2 ^ 56). reflexivity.
  - exists (2 ^ 48). reflexivity.
  - exists (2 ^ 32). reflexivity.
  - exists 1. reflexivity.
Qed.

(** Truncating after a 64-bit wrap-around is truncating. *)
Lemma u64_mod n x : opsize n -> u64 x mod modulus n = x mod modulus n.
Proof.
  intros H. unfold u64. destruct (modulus_divides n H) as [k Hk]. rewrite Hk, (Z.mul_comm k).
  pose proof (opsize_pos n H). pose proof (modulus_pos n ltac:(lia)).
  rewrite Z.rem_mul_r; [|lia|nia]. rewrite Z.mul_comm, Z.mod_add by lia.
  apply Z.mod_mod. lia.
Qed.

Lemma signed_range n x : 1 <= n -> 0 <= x < modulus n -> - half n <= signed n x < half n.
Proof.
  intros Hn Hx. unfold signed. rewrite (modulus_half n Hn) in *. pose proof (half_pos n Hn).
  destruct (Z.ltb_spec x (half n)); lia.
Qed.

Lemma signed_mod n x : 1 <= n -> 0 <= x < modulus n -> signed n x mod modulus n = x.
Proof.
  intros Hn Hx. unfold signed. destruct (Z.ltb_spec x (half n)).
  - apply Z.mod_small. lia.
  - symmetry. apply Z.mod_unique with (-1); lia.
Qed.

(** ** Single bits *)

(** The mask of one bit keeps that bit. *)
Lemma land_range x n : 0 <= n -> 0 <= Z.land x (2 ^ n - 1) < 2 ^ n.
Proof.
  intros Hn. replace (2 ^ n - 1) with (Z.ones n) by (rewrite Z.ones_equiv; lia).
  rewrite Z.land_ones by lia. apply Z.mod_pos_bound. lia.
Qed.

Lemma lor_range x y n (Hn : 0 <= n) (Hx : 0 <= x < 2 ^ n) (Hy : 0 <= y < 2 ^ n) : 0 <= Z.lor x y < 2 ^ n.
Proof.
  split; [apply Z.lor_nonneg; lia|].
  destruct (Z.eq_dec (Z.lor x y) 0) as [->|N]; [lia|].
  apply Z.log2_lt_pow2; [pose proof (proj2 (Z.lor_nonneg x y)); lia|]. rewrite Z.log2_lor by lia.
  apply Z.max_lub_lt; (destruct (Z.eq_dec x 0), (Z.eq_dec y 0); subst; cbn [Z.log2];
    try (apply Z.log2_lt_pow2; lia); try lia).
  all: cbn in *; destruct (Z.eq_dec n 0); subst; cbn in *; lia.
Qed.

Lemma land_pow2 x k : 0 <= k -> Z.land x (2 ^ k) = if Z.testbit x k then 2 ^ k else 0.
Proof.
  intros Hk. apply Z.bits_inj'. intros i Hi. rewrite Z.land_spec, Z.pow2_bits_eqb by lia.
  destruct (Z.eqb_spec k i) as [->|N].
  - destruct (Z.testbit x i); [rewrite Z.pow2_bits_true by lia|rewrite Z.bits_0]; reflexivity.
  - rewrite andb_false_r. destruct (Z.testbit x k); [|now rewrite Z.bits_0].
    now rewrite Z.pow2_bits_false.
Qed.

(** The top bit of a [k+1]-bit number compares it with [2^k]. *)
Lemma testbit_top x k : 0 <= k -> 0 <= x < 2 ^ (k + 1) -> Z.testbit x k = (2 ^ k <=? x).
Proof.
  intros Hk Hx. rewrite Z.pow_add_r in Hx by lia. change (2 ^ 1) with 2 in Hx.
  destruct (Z.leb_spec (2 ^ k) x) as [H|H].
  - replace x with ((x - 2 ^ k) + 1 * 2 ^ k) by lia.
    assert (D : (x - 2 ^ k + 1 * 2 ^ k) / 2 ^ k = 1).
    { rewrite Z.div_add by lia. rewrite Z.div_small by lia. lia. }
    now apply Z.testbit_true; [lia|]; rewrite D.
  - apply Z.testbit_false; [lia|]. now rewrite Z.div_small by lia.
Qed.

Lemma testbit_mod_lt x k i : 0 <= i < k -> Z.testbit (x mod 2 ^ k) i = Z.testbit x i.
Proof. intros H. apply Z.mod_pow2_bits_low. lia. Qed.

Lemma testbit_ge x k i : 0 <= x < 2 ^ k -> 0 <= k <= i -> Z.testbit x i = false.
Proof.
  intros Hx Hk. rewrite <- (Z.mod_small x (2 ^ k)) by lia. apply Z.mod_pow2_bits_high. lia.
Qed.

(** [Z.testbit] of a sum of a multiple of [2^k] and a [k]-bit part. *)
Lemma testbit_high_part a b k i :
  0 <= k <= i -> 0 <= b < 2 ^ k -> Z.testbit (a * 2 ^ k + b) i = Z.testbit a (i - k).
Proof.
  intros Hk Hb. replace i with ((i - k) + k) at 1 by lia.
  rewrite <- Z.div_pow2_bits by lia. rewrite Z.add_comm, Z.div_add by lia.
  now rewrite (Z.div_small b) by lia.
Qed.

Lemma testbit_low_part a b k i :
  0 <= i < k -> Z.testbit (a * 2 ^ k + b) i = Z.testbit b i.
Proof.
  intros H. rewrite <- (Z.mod_pow2_bits_low _ k) by lia.
  rewrite Z.add_comm, Z.mod_add by lia. apply Z.mod_pow2_bits_low. lia.
Qed.

Lemma b2z_testbit0 x : Z.b2z (Z.testbit x 0) = x mod 2.
Proof. rewrite Z.bit0_mod. reflexivity. Qed.

(** ** Little-endian byte strings *)

Definition byte_ok (b : Z) : Prop := 0 <= b < 256.

(** The [n] low bytes of a value, the least significant first (the host is little-endian). *)
Fixpoint le_encode (n : nat) (v : Z) : list Z :=
  match n with
  | O => []
  | S n => v mod 256 :: le_encode n (v / 256)
  end.

Fixpoint le_decode (bs : list Z) : Z :=
  match bs with
  | [] => 0
  | b :: bs => b + 256 * le_decode bs
  end.

Lemma le_encode_length n v : length (le_encode n v) = n.
Proof. revert v. induction n; intros; cbn; auto. Qed.

Lemma pow256_S n : 2 ^ (8 * Z.of_nat (S n)) = 256 * 2 ^ (8 * Z.of_nat n).
Proof.
  replace (8 * Z.of_nat (S n)) with (8 + 8 * Z.of_nat n) by lia.
  rewrite Z.pow_add_r by lia. reflexivity.
Qed.

Lemma le_decode_encode n v : le_decode (le_encode n v) = v mod 2 ^ (8 * Z.of_nat n).
Proof.
  revert v. induction n as [|n IH]; intros v; cbn [le_encode le_decode].
  - now rewrite Z.mod_1_r.
  - rewrite IH, pow256_S, Z.rem_mul_r; [reflexivity|lia|apply Z.pow_pos_nonneg; lia].
Qed.

Lemma le_encode_ok n v : Forall byte_ok (le_encode n v).
Proof.
  revert v. induction n as [|n IH]; intros v; cbn; constructor; auto.
  apply Z.mod_pos_bound. lia.
Qed.

Lemma le_decode_range bs : Forall byte_ok bs -> 0 <= le_decode bs < 2 ^ (8 * Z.of_nat (length bs)).
Proof.
  induction 1 as [|b bs Hb _ IH]; [cbn; lia|].
  unfold byte_ok in Hb. cbn [le_decode length]. rewrite pow256_S. lia.
Qed.

Lemma le_encode_decode bs : Forall byte_ok bs -> le_encode (length bs) (le_decode bs) = bs.
Proof.
  induction 1 as [|b bs Hb H IH]; cbn [length le_encode le_decode]; [reflexivity|].
  unfold byte_ok in Hb. rewrite (Z.mul_comm 256). f_equal.
  - rewrite Z.mod_add by lia. apply Z.mod_small. lia.
  - rewrite Z.div_add by lia. rewrite Z.div_small by lia. exact IH.
Qed.

(** Only the low bytes of the value reach memory. *)
Lemma le_encode_mod n v : le_encode n (v mod 2 ^ (8 * Z.of_nat n)) = le_encode n v.
Proof.
  rewrite <- le_decode_encode. rewrite <- (le_encode_length n v) at 1.
  apply le_encode_decode, le_encode_ok.
Qed.

Lemma le_encode_nth n v i d :
  (i < n)%nat -> nth i (le_encode n v) d = (v / 2 ^ (8 * Z.of_nat i)) mod 256.
Proof.
  revert v i. induction n as [|n IH]; intros v [|i] H; cbn [le_encode nth]; try lia.
  - now rewrite Z.div_1_r.
  - rewrite IH by lia. rewrite pow256_S, Z.div_div; [reflexivity|lia|apply Z.pow_pos_nonneg; lia].
Qed.

(** ** Buffers: a memory block as the list of its bytes *)

(** [n] bytes of the buffer from [off] on, as [memcpy] reads them. *)
Definition buf_bytes (buf : list Z) (off n : Z) : list Z :=
  firstn (Z.to_nat n) (skipn (Z.to_nat off) buf).

(** The buffer after [bs] was copied over it at [off]. *)
Definition buf_update (buf : list Z) (off : Z) (bs : list Z) : list Z :=
  firstn (Z.to_nat off) buf ++ bs ++ skipn (Z.to_nat off + length bs) buf.

(** The little-endian integer of [n] bytes at [off], and a store of one. *)
Definition buf_load (buf : list Z) (off n : Z) : Z := le_decode (buf_bytes buf off n).
Definition buf_store (buf : list Z) (off n v : Z) : list Z :=
  buf_update buf off (le_encode (Z.to_nat n) v).

Lemma buf_update_length buf off bs :
  0 <= off -> off + Z.of_nat (length bs) <= Z.of_nat (length buf) ->
  length (buf_update buf off bs) = length buf.
Proof.
  intros H0 H. unfold buf_update. rewrite !length_app, length_firstn, length_skipn. lia.
Qed.

Lemma buf_store_length buf off n v :
  0 <= off -> 0 <= n -> off + n <= Z.of_nat (length buf) ->
  length (buf_store buf off n v) = length buf.
Proof. intros. apply buf_update_length; rewrite ?le_encode_length; lia. Qed.

Lemma buf_update_nth buf off bs i d :
  0 <= off -> off + Z.of_nat (length bs) <= Z.of_nat (length buf) ->
  nth i (buf_update buf off bs) d =
  if (off <=? Z.of_nat i) && (Z.of_nat i <? off + Z.of_nat (length bs))
  then nth (i - Z.to_nat off) bs d else nth i buf d.
Proof.
  intros H0 H. unfold buf_update.
  destruct (Z.leb_spec off (Z.of_nat i)) as [L|L]; cbn [andb].
  - rewrite app_nth2 by (rewrite length_firstn; lia).
    rewrite length_firstn, Nat.min_l by lia.
    destruct (Z.ltb_spec (Z.of_nat i) (off + Z.of_nat (length bs))) as [R|R].
    + now rewrite app_nth1 by lia.
    + rewrite app_nth2 by lia. rewrite nth_skipn_add. f_equal. lia.
  - rewrite app_nth1 by (rewrite length_firstn; lia). apply nth_firstn_lt. lia.
Qed.

Lemma buf_bytes_length buf off n :
  0 <= off -> 0 <= n -> off + n <= Z.of_nat (length buf) ->
  length (buf_bytes buf off n) = Z.to_nat n.
Proof. intros. unfold buf_bytes. rewrite length_firstn, length_skipn. lia. Qed.

Lemma buf_bytes_ok buf off n : Forall byte_ok buf -> Forall byte_ok (buf_bytes buf off n).
Proof.
  intros H. unfold buf_bytes. rewrite Forall_forall in *. intros x Hx.
  apply H. rewrite <- (firstn_skipn (Z.to_nat off) buf). apply in_or_app. right.
  rewrite <- (firstn_skipn (Z.to_nat n) (skipn (Z.to_nat off) buf)). apply in_or_app. now left.
Qed.

Lemma buf_update_ok buf off bs :
  Forall byte_ok buf -> Forall byte_ok bs -> Forall byte_ok (buf_update buf off bs).
Proof.
  intros H1 H2. unfold buf_update. rewrite Forall_forall in *. intros x Hx.
  rewrite !in_app_iff in Hx. destruct Hx as [Hx|[Hx|Hx]]; auto; apply H1.
  - rewrite <- (firstn_skipn (Z.to_nat off) buf). apply in_or_app. now left.
  - rewrite <- (firstn_skipn (Z.to_nat off + length bs) buf). apply in_or_app. now right.
Qed.

Lemma buf_bytes_nth buf off n i d :
  (i < Z.to_nat n)%nat -> nth i (buf_bytes buf off n) d = nth (Z.to_nat off + i) buf d.
Proof. intros H. unfold buf_bytes. rewrite nth_firstn_lt by lia. apply nth_skipn_add. Qed.

(** Two buffers that agree on a range give the same bytes there. *)
Lemma buf_bytes_ext buf buf' off n :
  0 <= off -> 0 <= n -> length buf = length buf' -> off + n <= Z.of_nat (length buf) ->
  (forall i, off <= Z.of_nat i < off + n -> nth i buf 0 = nth i buf' 0) ->
  buf_bytes buf off n = buf_bytes buf' off n.
Proof.
  intros H0 Hn HL HB H. apply (list_ext_nth _ _ 0).
  - rewrite !buf_bytes_length; lia.
  - intros i Hi. rewrite buf_bytes_length in Hi by lia.
    rewrite !buf_bytes_nth by lia. apply H. lia.
Qed.

(** A load after a store at the same place gives the stored bytes back. *)
Lemma buf_load_store_same buf off n v :
  0 <= off -> 0 <= n -> off + n <= Z.of_nat (length buf) ->
  buf_load (buf_store buf off n v) off n = v mod 2 ^ (8 * n).
Proof.
  intros H0 Hn HB. unfold buf_load.
  replace (buf_bytes (buf_store buf off n v) off n) with (le_encode (Z.to_nat n) v).
  { rewrite le_decode_encode. now rewrite Z2Nat.id by lia. }
  apply (list_ext_nth _ _ 0).
  - rewrite le_encode_length, buf_bytes_length; try lia. rewrite buf_store_length; lia.
  - intros i Hi. rewrite le_encode_length in Hi. rewrite buf_bytes_nth by lia.
    unfold buf_store. rewrite buf_update_nth by (rewrite ?le_encode_length; lia).
    rewrite le_encode_length.
    destruct (Z.leb_spec off (Z.of_nat (Z.to_nat off + i))); [|lia].
    destruct (Z.ltb_spec (Z.of_nat (Z.to_nat off + i)) (off + Z.of_nat (Z.to_nat n))); [|lia].
    cbn [andb]. f_equal. lia.
Qed.

(** A load from bytes the store does not touch is unchanged. *)
Lemma buf_load_store_disjoint buf off n v off' n' :
  0 <= off -> 0 <= n -> off + n <= Z.of_nat (length buf) ->
  0 <= off' -> 0 <= n' -> off' + n' <= Z.of_nat (length buf) ->
  off' + n' <= off \/ off + n <= off' ->
  buf_load (buf_store buf off n v) off' n' = buf_load buf off' n'.
Proof.
  intros H0 Hn HB H0' Hn' HB' HD. unfold buf_load. f_equal.
  apply buf_bytes_ext; try lia; try (rewrite buf_store_length; lia).
  intros i Hi. unfold buf_store. rewrite buf_update_nth by (rewrite ?le_encode_length; lia).
  rewrite le_encode_length.
  destruct (Z.leb_spec off (Z.of_nat i)); destruct (Z.ltb_spec (Z.of_nat i) (off + Z.of_nat (Z.to_nat n)));
    cbn [andb]; auto; lia.
Qed.

Lemma buf_load_range buf off n :
  Forall byte_ok buf -> 0 <= off -> 0 <= n -> off + n <= Z.of_nat (length buf) ->
  0 <= buf_load buf off n < 2 ^ (8 * n).
Proof.
  intros H H0 Hn HB. unfold buf_load.
  pose proof (le_decode_range _ (buf_bytes_ok buf off n H)) as R.
  rewrite buf_bytes_length in R by lia. now rewrite Z2Nat.id in R by lia.
Qed.

Lemma buf_bytes_split l a x y : 0 <= a -> 0 <= x -> 0 <= y -> a + x + y <= Z.of_nat (length l) ->
  buf_bytes l a (x + y) = buf_bytes l a x ++ buf_bytes l (a + x) y.
Proof.
  intros. apply (list_ext_nth _ _ 0).
  - rewrite length_app, !buf_bytes_length; lia.
  - intros i Hi. rewrite buf_bytes_length in Hi by lia. rewrite buf_bytes_nth by lia.
    destruct (Nat.lt_ge_cases i (Z.to_nat x)) as [Hx|Hx].
    + rewrite app_nth1 by (rewrite buf_bytes_length; lia). now rewrite buf_bytes_nth by lia.
    + rewrite app_nth2 by (rewrite buf_bytes_length; lia). rewrite buf_bytes_length by lia.
      rewrite buf_bytes_nth by lia. f_equal. lia.
Qed.

#[export] Hint Resolve u64_range opsize_pos le_encode_ok buf_bytes_ok buf_update_ok : diana.
