(* ===== verification/Status.v ===== *)
(** Status codes, sizes, prefixes and flag masks of diana_core.h and of
    diana_processor_core_impl.h that the processor model uses. *)

From Stdlib Require Import ZArith.
From S2P Require Import Prelude.
Local Open Scope Z_scope.

(** ** Status codes *)
Definition DI_END : Z := 1.
Definition DI_SUCCESS : Z := 0.
Definition DI_ERROR : Z := -1.
Definition DI_OUT_OF_MEMORY : Z := -2.
Definition DI_DIVISION_BY_ZERO : Z := -3.
Definition DI_UNSUPPORTED_COMMAND : Z := -4.
Definition DI_DIVISION_OVERFLOW : Z := -5.
Definition DI_INVALID_OPCODE : Z := -10.
Definition DI_END_OF_STREAM : Z := -11.
Definition DI_INTERRUPT : Z := -13.
Definition DI_PARTIAL_READ_WRITE : Z := -14.
Definition DI_OVERFLOW : Z := -16.

(** ** Address and operand sizes *)
Definition DIANA_MODE64 : Z := 8.
Definition DIANA_MODE32 : Z := 4.
Definition DIANA_MODE16 : Z := 2.

(** ** Prefixes of an instruction *)
Definition DI_PREFIX_NONE : Z := 0.
Definition DI_PREFIX_LOCK : Z := 1.
Definition DI_PREFIX_REP : Z := 2.
Definition DI_PREFIX_REPN : Z := 3.

Definition DI_REX_HAS_FLAG_W (X : Z) : bool := negb (Z.land X 0x8 =? 0).

(** ** Flags of a command *)
Definition DI_FLAG_CMD_AMD64_SIGN_EXTENDS : Z := 0x80.
Definition DI_FLAG_CMD_PUSH_SEG : Z := 0x100.
Definition DI_FLAG_CMD_PREFIX_LOCK : Z := 0x800.

(** ** RFLAGS *)
Definition DI_FLAG_CF : Z := 0x1.
Definition DI_FLAG_1 : Z := 0x2.
Definition DI_FLAG_PF : Z := 0x4.
Definition DI_FLAG_3 : Z := 0x8.
Definition DI_FLAG_AF : Z := 0x10.
Definition DI_FLAG_5 : Z := 0x20.
Definition DI_FLAG_ZF : Z := 0x40.
Definition DI_FLAG_SF : Z := 0x80.
Definition DI_FLAG_TF : Z := 0x100.
Definition DI_FLAG_IF : Z := 0x200.
Definition DI_FLAG_DF : Z := 0x400.
Definition DI_FLAG_OF : Z := 0x800.
Definition DI_FLAG_15 : Z := 0x8000.
Definition DI_FLAG_ID : Z := 0x200000.

(** ** State bits of the processor *)
Definition DI_PROC_STATE_TEMP_RIP_IS_VALID : Z := 0x1.
Definition DI_PROC_STATE_RIP_CHANGED : Z := 0x2.
Definition DI_PROC_STATE_UPDATE_FLAGS_PSZ : Z := 0x4.
Definition DI_PROC_STATE_CMD_USES_NORMAL_REP : Z := 0x8.

(** ** x87 *)
Definition DI_FPU_SW_TOP : Z := 0x3800.
Definition DI_FPU_SW_SUMMARY : Z := 0x80.
Definition DI_MXCSR_DEFAULT : Z := 0x1f80.
Definition DI_REG_INIT_VALUE : Z := 4096.
