(* ===== verification/Registers.v ===== *)
(** The registers of the x86 processor model: the enumeration [DianaUnifiedRegister] of
    diana_core.h (its x86 block), the sizes of diana_processor_impl_init.h, and the sequence of
    registrations that lays the registers out in one vector, sub-registers over their parents. *)

From Stdlib Require Import ZArith List.
Import ListNotations.
From S2P Require Import Prelude.
Local Open Scope Z_scope.

(** ** [DianaUnifiedRegister]: a C enumeration, the code does arithmetic on its values *)

Definition reg_none : Z := 0.
Definition reg_AL : Z := 1.
Definition reg_CL : Z := 2.
Definition reg_DL : Z := 3.
Definition reg_BL : Z := 4.
Definition reg_AH : Z := 5.
Definition reg_CH : Z := 6.
Definition reg_DH : Z := 7.
Definition reg_BH : Z := 8.
Definition reg_AX : Z := 9.
Definition reg_CX : Z := 10.
Definition reg_DX : Z := 11.
Definition reg_BX : Z := 12.
Definition reg_SP : Z := 13.
Definition reg_BP : Z := 14.
Definition reg_SI : Z := 15.
Definition reg_DI : Z := 16.
Definition reg_EAX : Z := 17.
Definition reg_ECX : Z := 18.
Definition reg_EDX : Z := 19.
Definition reg_EBX : Z := 20.
Definition reg_ESP : Z := 21.
Definition reg_EBP : Z := 22.
Definition reg_ESI : Z := 23.
Definition reg_EDI : Z := 24.
Definition reg_ES : Z := 25.
Definition reg_CS : Z := 26.
Definition reg_SS : Z := 27.
Definition reg_DS : Z := 28.
Definition reg_FS : Z := 29.
Definition reg_GS : Z := 30.
Definition reg_CR0 : Z := 31.
Definition reg_CR1 : Z := 32.
Definition reg_CR2 : Z := 33.
Definition reg_CR3 : Z := 34.
Definition reg_CR4 : Z := 35.
Definition reg_CR5 : Z := 36.
Definition reg_CR6 : Z := 37.
Definition reg_CR7 : Z := 38.
Definition reg_DR0 : Z := 39.
Definition reg_DR1 : Z := 40.
Definition reg_DR2 : Z := 41.
Definition reg_DR3 : Z := 42.
Definition reg_DR4 : Z := 43.
Definition reg_DR5 : Z := 44.
Definition reg_DR6 : Z := 45.
Definition reg_DR7 : Z := 46.
Definition reg_TR0 : Z := 47.
Definition reg_TR1 : Z := 48.
Definition reg_TR2 : Z := 49.
Definition reg_TR3 : Z := 50.
Definition reg_TR4 : Z := 51.
Definition reg_TR5 : Z := 52.
Definition reg_TR6 : Z := 53.
Definition reg_TR7 : Z := 54.
Definition reg_IP : Z := 55.
Definition reg_RAX : Z := 56.
Definition reg_RCX : Z := 57.
Definition reg_RDX : Z := 58.
Definition reg_RBX : Z := 59.
Definition reg_RSP : Z := 60.
Definition reg_RBP : Z := 61.
Definition reg_RSI : Z := 62.
Definition reg_RDI : Z := 63.
Definition reg_SIL : Z := 64.
Definition reg_DIL : Z := 65.
Definition reg_BPL : Z := 66.
Definition reg_SPL : Z := 67.
Definition reg_R8 : Z := 68.
Definition reg_R9 : Z := 69.
Definition reg_R10 : Z := 70.
Definition reg_R11 : Z := 71.
Definition reg_R12 : Z := 72.
Definition reg_R13 : Z := 73.
Definition reg_R14 : Z := 74.
Definition reg_R15 : Z := 75.
Definition reg_R8D : Z := 76.
Definition reg_R9D : Z := 77.
Definition reg_R10D : Z := 78.
Definition reg_R11D : Z := 79.
Definition reg_R12D : Z := 80.
Definition reg_R13D : Z := 81.
Definition reg_R14D : Z := 82.
Definition reg_R15D : Z := 83.
Definition reg_R8W : Z := 84.
Definition reg_R9W : Z := 85.
Definition reg_R10W : Z := 86.
Definition reg_R11W : Z := 87.
Definition reg_R12W : Z := 88.
Definition reg_R13W : Z := 89.
Definition reg_R14W : Z := 90.
Definition reg_R15W : Z := 91.
Definition reg_R8B : Z := 92.
Definition reg_R9B : Z := 93.
Definition reg_R10B : Z := 94.
Definition reg_R11B : Z := 95.
Definition reg_R12B : Z := 96.
Definition reg_R13B : Z := 97.
Definition reg_R14B : Z := 98.
Definition reg_R15B : Z := 99.
Definition reg_RIP : Z := 100.
Definition reg_MM0 : Z := 101.
Definition reg_MM1 : Z := 102.
Definition reg_MM2 : Z := 103.
Definition reg_MM3 : Z := 104.
Definition reg_MM4 : Z := 105.
Definition reg_MM5 : Z := 106.
Definition reg_MM6 : Z := 107.
Definition reg_MM7 : Z := 108.
Definition reg_MM_Internal0 : Z := 109.
Definition reg_MM_Internal1 : Z := 110.
Definition reg_MM_Internal2 : Z := 111.
Definition reg_MM_Internal3 : Z := 112.
Definition reg_MM_Internal4 : Z := 113.
Definition reg_MM_Internal5 : Z := 114.
Definition reg_MM_Internal6 : Z := 115.
Definition reg_MM_Internal7 : Z := 116.
Definition reg_XMM0 : Z := 117.
Definition reg_XMM1 : Z := 118.
Definition reg_XMM2 : Z := 119.
Definition reg_XMM3 : Z := 120.
Definition reg_XMM4 : Z := 121.
Definition reg_XMM5 : Z := 122.
Definition reg_XMM6 : Z := 123.
Definition reg_XMM7 : Z := 124.
Definition reg_XMM8 : Z := 125.
Definition reg_XMM9 : Z := 126.
Definition reg_XMM10 : Z := 127.
Definition reg_XMM11 : Z := 128.
Definition reg_XMM12 : Z := 129.
Definition reg_XMM13 : Z := 130.
Definition reg_XMM14 : Z := 131.
Definition reg_XMM15 : Z := 132.
Definition reg_YMM0 : Z := 133.
Definition reg_YMM1 : Z := 134.
Definition reg_YMM2 : Z := 135.
Definition reg_YMM3 : Z := 136.
Definition reg_YMM4 : Z := 137.
Definition reg_YMM5 : Z := 138.
Definition reg_YMM6 : Z := 139.
Definition reg_YMM7 : Z := 140.
Definition reg_YMM8 : Z := 141.
Definition reg_YMM9 : Z := 142.
Definition reg_YMM10 : Z := 143.
Definition reg_YMM11 : Z := 144.
Definition reg_YMM12 : Z := 145.
Definition reg_YMM13 : Z := 146.
Definition reg_YMM14 : Z := 147.
Definition reg_YMM15 : Z := 148.
Definition reg_fpu_ST0 : Z := 149.
Definition reg_fpu_ST1 : Z := 150.
Definition reg_fpu_ST2 : Z := 151.
Definition reg_fpu_ST3 : Z := 152.
Definition reg_fpu_ST4 : Z := 153.
Definition reg_fpu_ST5 : Z := 154.
Definition reg_fpu_ST6 : Z := 155.
Definition reg_fpu_ST7 : Z := 156.
Definition reg_CR8 : Z := 157.
Definition reg_CR9 : Z := 158.
Definition reg_CR10 : Z := 159.
Definition reg_CR11 : Z := 160.
Definition reg_CR12 : Z := 161.
Definition reg_CR13 : Z := 162.
Definition reg_CR14 : Z := 163.
Definition reg_CR15 : Z := 164.
Definition reg_DR8 : Z := 165.
Definition reg_DR9 : Z := 166.
Definition reg_DR10 : Z := 167.
Definition reg_DR11 : Z := 168.
Definition reg_DR12 : Z := 169.
Definition reg_DR13 : Z := 170.
Definition reg_DR14 : Z := 171.
Definition reg_DR15 : Z := 172.
Definition reg_ZMM0 : Z := 173.
Definition reg_ZMM1 : Z := 174.
Definition reg_ZMM2 : Z := 175.
Definition reg_ZMM3 : Z := 176.
Definition reg_ZMM4 : Z := 177.
Definition reg_ZMM5 : Z := 178.
Definition reg_ZMM6 : Z := 179.
Definition reg_ZMM7 : Z := 180.
Definition reg_ZMM8 : Z := 181.
Definition reg_ZMM9 : Z := 182.
Definition reg_ZMM10 : Z := 183.
Definition reg_ZMM11 : Z := 184.
Definition reg_ZMM12 : Z := 185.
Definition reg_ZMM13 : Z := 186.
Definition reg_ZMM14 : Z := 187.
Definition reg_ZMM15 : Z := 188.
Definition reg_ZMM16 : Z := 189.
Definition reg_ZMM17 : Z := 190.
Definition reg_ZMM18 : Z := 191.
Definition reg_ZMM19 : Z := 192.
Definition reg_ZMM20 : Z := 193.
Definition reg_ZMM21 : Z := 194.
Definition reg_ZMM22 : Z := 195.
Definition reg_ZMM23 : Z := 196.
Definition reg_ZMM24 : Z := 197.
Definition reg_ZMM25 : Z := 198.
Definition reg_ZMM26 : Z := 199.
Definition reg_ZMM27 : Z := 200.
Definition reg_ZMM28 : Z := 201.
Definition reg_ZMM29 : Z := 202.
Definition reg_ZMM30 : Z := 203.
Definition reg_ZMM31 : Z := 204.
Definition reg_XMM16 : Z := 205.
Definition reg_XMM17 : Z := 206.
Definition reg_XMM18 : Z := 207.
Definition reg_XMM19 : Z := 208.
Definition reg_XMM20 : Z := 209.
Definition reg_XMM21 : Z := 210.
Definition reg_XMM22 : Z := 211.
Definition reg_XMM23 : Z := 212.
Definition reg_XMM24 : Z := 213.
Definition reg_XMM25 : Z := 214.
Definition reg_XMM26 : Z := 215.
Definition reg_XMM27 : Z := 216.
Definition reg_XMM28 : Z := 217.
Definition reg_XMM29 : Z := 218.
Definition reg_XMM30 : Z := 219.
Definition reg_XMM31 : Z := 220.
Definition reg_YMM16 : Z := 221.
Definition reg_YMM17 : Z := 222.
Definition reg_YMM18 : Z := 223.
Definition reg_YMM19 : Z := 224.
Definition reg_YMM20 : Z := 225.
Definition reg_YMM21 : Z := 226.
Definition reg_YMM22 : Z := 227.
Definition reg_YMM23 : Z := 228.
Definition reg_YMM24 : Z := 229.
Definition reg_YMM25 : Z := 230.
Definition reg_YMM26 : Z := 231.
Definition reg_YMM27 : Z := 232.
Definition reg_YMM28 : Z := 233.
Definition reg_YMM29 : Z := 234.
Definition reg_YMM30 : Z := 235.
Definition reg_YMM31 : Z := 236.
Definition reg_K0 : Z := 237.
Definition reg_K1 : Z := 238.
Definition reg_K2 : Z := 239.
Definition reg_K3 : Z := 240.
Definition reg_K4 : Z := 241.
Definition reg_K5 : Z := 242.
Definition reg_K6 : Z := 243.
Definition reg_K7 : Z := 244.
Definition count_of_DianaUnifiedRegister : Z := 245.

(** ** The [SIZE_reg_*] macros, in bytes *)

Definition SIZE_table : list (Z * Z) := [
  (reg_IP, 4); (reg_AL, 1); (reg_CL, 1); (reg_DL, 1); (reg_BL, 1);
  (reg_AH, 1); (reg_CH, 1); (reg_DH, 1); (reg_BH, 1); (reg_AX, 2);
  (reg_CX, 2); (reg_DX, 2); (reg_BX, 2); (reg_SP, 2); (reg_BP, 2);
  (reg_SI, 2); (reg_DI, 2); (reg_EAX, 4); (reg_ECX, 4); (reg_EDX, 4);
  (reg_EBX, 4); (reg_ESP, 4); (reg_EBP, 4); (reg_ESI, 4); (reg_EDI, 4);
  (reg_ES, 2); (reg_CS, 2); (reg_SS, 2); (reg_DS, 2); (reg_FS, 2);
  (reg_GS, 2); (reg_CR0, 4); (reg_CR1, 4); (reg_CR2, 4); (reg_CR3, 4);
  (reg_CR4, 4); (reg_CR5, 4); (reg_CR6, 4); (reg_CR7, 4); (reg_DR0, 4);
  (reg_DR1, 4); (reg_DR2, 4); (reg_DR3, 4); (reg_DR4, 4); (reg_DR5, 4);
  (reg_DR6, 4); (reg_DR7, 4); (reg_TR0, 4); (reg_TR1, 4); (reg_TR2, 4);
  (reg_TR3, 4); (reg_TR4, 4); (reg_TR5, 4); (reg_TR6, 4); (reg_TR7, 4);
  (reg_RAX, 8); (reg_RCX, 8); (reg_RDX, 8); (reg_RBX, 8); (reg_RSP, 8);
  (reg_RBP, 8); (reg_RSI, 8); (reg_RDI, 8); (reg_R8, 8); (reg_R9, 8);
  (reg_R10, 8); (reg_R11, 8); (reg_R12, 8); (reg_R13, 8); (reg_R14, 8);
  (reg_R15, 8); (reg_RIP, 8); (reg_MM0, 8); (reg_MM1, 8); (reg_MM2, 8);
  (reg_MM3, 8); (reg_MM4, 8); (reg_MM5, 8); (reg_MM6, 8); (reg_MM7, 8);
  (reg_MM_Internal0, 10); (reg_MM_Internal1, 10); (reg_MM_Internal2, 10); (reg_MM_Internal3, 10); (reg_MM_Internal4, 10);
  (reg_MM_Internal5, 10); (reg_MM_Internal6, 10); (reg_MM_Internal7, 10); (reg_XMM0, 16); (reg_XMM1, 16);
  (reg_XMM2, 16); (reg_XMM3, 16); (reg_XMM4, 16); (reg_XMM5, 16); (reg_XMM6, 16);
  (reg_XMM7, 16); (reg_XMM8, 16); (reg_XMM9, 16); (reg_XMM10, 16); (reg_XMM11, 16);
  (reg_XMM12, 16); (reg_XMM13, 16); (reg_XMM14, 16); (reg_XMM15, 16); (reg_YMM0, 32);
  (reg_YMM1, 32); (reg_YMM2, 32); (reg_YMM3, 32); (reg_YMM4, 32); (reg_YMM5, 32);
  (reg_YMM6, 32); (reg_YMM7, 32); (reg_YMM8, 32); (reg_YMM9, 32); (reg_YMM10, 32);
  (reg_YMM11, 32); (reg_YMM12, 32); (reg_YMM13, 32); (reg_YMM14, 32); (reg_YMM15, 32);
  (reg_ZMM0, 64); (reg_ZMM1, 64); (reg_ZMM2, 64); (reg_ZMM3, 64); (reg_ZMM4, 64);
  (reg_ZMM5, 64); (reg_ZMM6, 64); (reg_ZMM7, 64); (reg_ZMM8, 64); (reg_ZMM9, 64);
  (reg_ZMM10, 64); (reg_ZMM11, 64); (reg_ZMM12, 64); (reg_ZMM13, 64); (reg_ZMM14, 64);
  (reg_ZMM15, 64); (reg_ZMM16, 64); (reg_ZMM17, 64); (reg_ZMM18, 64); (reg_ZMM19, 64);
  (reg_ZMM20, 64); (reg_ZMM21, 64); (reg_ZMM22, 64); (reg_ZMM23, 64); (reg_ZMM24, 64);
  (reg_ZMM25, 64); (reg_ZMM26, 64); (reg_ZMM27, 64); (reg_ZMM28, 64); (reg_ZMM29, 64);
  (reg_ZMM30, 64); (reg_ZMM31, 64); (reg_YMM16, 32); (reg_YMM17, 32); (reg_YMM18, 32);
  (reg_YMM19, 32); (reg_YMM20, 32); (reg_YMM21, 32); (reg_YMM22, 32); (reg_YMM23, 32);
  (reg_YMM24, 32); (reg_YMM25, 32); (reg_YMM26, 32); (reg_YMM27, 32); (reg_YMM28, 32);
  (reg_YMM29, 32); (reg_YMM30, 32); (reg_YMM31, 32); (reg_XMM16, 16); (reg_XMM17, 16);
  (reg_XMM18, 16); (reg_XMM19, 16); (reg_XMM20, 16); (reg_XMM21, 16); (reg_XMM22, 16);
  (reg_XMM23, 16); (reg_XMM24, 16); (reg_XMM25, 16); (reg_XMM26, 16); (reg_XMM27, 16);
  (reg_XMM28, 16); (reg_XMM29, 16); (reg_XMM30, 16); (reg_XMM31, 16); (reg_K0, 8);
  (reg_K1, 8); (reg_K2, 8); (reg_K3, 8); (reg_K4, 8); (reg_K5, 8);
  (reg_K6, 8); (reg_K7, 8); (reg_fpu_ST0, 8); (reg_fpu_ST1, 8); (reg_fpu_ST2, 8);
  (reg_fpu_ST3, 8); (reg_fpu_ST4, 8); (reg_fpu_ST5, 8); (reg_fpu_ST6, 8); (reg_fpu_ST7, 8);
  (reg_R8D, 4); (reg_R9D, 4); (reg_R10D, 4); (reg_R11D, 4); (reg_R12D, 4);
  (reg_R13D, 4); (reg_R14D, 4); (reg_R15D, 4); (reg_R8W, 2); (reg_R9W, 2);
  (reg_R10W, 2); (reg_R11W, 2); (reg_R12W, 2); (reg_R13W, 2); (reg_R14W, 2);
  (reg_R15W, 2); (reg_R8B, 1); (reg_R9B, 1); (reg_R10B, 1); (reg_R11B, 1);
  (reg_R12B, 1); (reg_R13B, 1); (reg_R14B, 1); (reg_R15B, 1); (reg_SIL, 1);
  (reg_DIL, 1); (reg_BPL, 1); (reg_SPL, 1)].

(** [SIZE_##Name]: every name the registrations below use has its macro. *)
Definition SIZE_of (reg : Z) : Z :=
  match find (fun p => Z.eqb (fst p) reg) SIZE_table with
  | Some p => snd p
  | None => 0
  end.

(** ** The registrations of [DianaProcessor_InitProcessorImpl], in their order *)

Inductive RegisterCall : Type :=
| REGISTER_REGISTER (reg : Z)
| REGISTER_SUB_REGISTER (reg parentReg offset : Z).

Definition registrations : list RegisterCall := [
  REGISTER_REGISTER reg_RAX;
  REGISTER_REGISTER reg_RCX;
  REGISTER_REGISTER reg_RDX;
  REGISTER_REGISTER reg_RBX;
  REGISTER_REGISTER reg_RSP;
  REGISTER_REGISTER reg_RBP;
  REGISTER_REGISTER reg_RSI;
  REGISTER_REGISTER reg_RDI;
  REGISTER_REGISTER reg_R8;
  REGISTER_REGISTER reg_R9;
  REGISTER_REGISTER reg_R10;
  REGISTER_REGISTER reg_R11;
  REGISTER_REGISTER reg_R12;
  REGISTER_REGISTER reg_R13;
  REGISTER_REGISTER reg_R14;
  REGISTER_REGISTER reg_R15;
  REGISTER_REGISTER reg_RIP;
  REGISTER_REGISTER reg_ZMM0;
  REGISTER_REGISTER reg_ZMM1;
  REGISTER_REGISTER reg_ZMM2;
  REGISTER_REGISTER reg_ZMM3;
  REGISTER_REGISTER reg_ZMM4;
  REGISTER_REGISTER reg_ZMM5;
  REGISTER_REGISTER reg_ZMM6;
  REGISTER_REGISTER reg_ZMM7;
  REGISTER_REGISTER reg_ZMM8;
  REGISTER_REGISTER reg_ZMM9;
  REGISTER_REGISTER reg_ZMM10;
  REGISTER_REGISTER reg_ZMM11;
  REGISTER_REGISTER reg_ZMM12;
  REGISTER_REGISTER reg_ZMM13;
  REGISTER_REGISTER reg_ZMM14;
  REGISTER_REGISTER reg_ZMM15;
  REGISTER_REGISTER reg_ZMM16;
  REGISTER_REGISTER reg_ZMM17;
  REGISTER_REGISTER reg_ZMM18;
  REGISTER_REGISTER reg_ZMM19;
  REGISTER_REGISTER reg_ZMM20;
  REGISTER_REGISTER reg_ZMM21;
  REGISTER_REGISTER reg_ZMM22;
  REGISTER_REGISTER reg_ZMM23;
  REGISTER_REGISTER reg_ZMM24;
  REGISTER_REGISTER reg_ZMM25;
  REGISTER_REGISTER reg_ZMM26;
  REGISTER_REGISTER reg_ZMM27;
  REGISTER_REGISTER reg_ZMM28;
  REGISTER_REGISTER reg_ZMM29;
  REGISTER_REGISTER reg_ZMM30;
  REGISTER_REGISTER reg_ZMM31;
  REGISTER_SUB_REGISTER reg_YMM0 reg_ZMM0 0;
  REGISTER_SUB_REGISTER reg_YMM1 reg_ZMM1 0;
  REGISTER_SUB_REGISTER reg_YMM2 reg_ZMM2 0;
  REGISTER_SUB_REGISTER reg_YMM3 reg_ZMM3 0;
  REGISTER_SUB_REGISTER reg_YMM4 reg_ZMM4 0;
  REGISTER_SUB_REGISTER reg_YMM5 reg_ZMM5 0;
  REGISTER_SUB_REGISTER reg_YMM6 reg_ZMM6 0;
  REGISTER_SUB_REGISTER reg_YMM7 reg_ZMM7 0;
  REGISTER_SUB_REGISTER reg_YMM8 reg_ZMM8 0;
  REGISTER_SUB_REGISTER reg_YMM9 reg_ZMM9 0;
  REGISTER_SUB_REGISTER reg_YMM10 reg_ZMM10 0;
  REGISTER_SUB_REGISTER reg_YMM11 reg_ZMM11 0;
  REGISTER_SUB_REGISTER reg_YMM12 reg_ZMM12 0;
  REGISTER_SUB_REGISTER reg_YMM13 reg_ZMM13 0;
  REGISTER_SUB_REGISTER reg_YMM14 reg_ZMM14 0;
  REGISTER_SUB_REGISTER reg_YMM15 reg_ZMM15 0;
  REGISTER_SUB_REGISTER reg_YMM16 reg_ZMM16 0;
  REGISTER_SUB_REGISTER reg_YMM17 reg_ZMM17 0;
  REGISTER_SUB_REGISTER reg_YMM18 reg_ZMM18 0;
  REGISTER_SUB_REGISTER reg_YMM19 reg_ZMM19 0;
  REGISTER_SUB_REGISTER reg_YMM20 reg_ZMM20 0;
  REGISTER_SUB_REGISTER reg_YMM21 reg_ZMM21 0;
  REGISTER_SUB_REGISTER reg_YMM22 reg_ZMM22 0;
  REGISTER_SUB_REGISTER reg_YMM23 reg_ZMM23 0;
  REGISTER_SUB_REGISTER reg_YMM24 reg_ZMM24 0;
  REGISTER_SUB_REGISTER reg_YMM25 reg_ZMM25 0;
  REGISTER_SUB_REGISTER reg_YMM26 reg_ZMM26 0;
  REGISTER_SUB_REGISTER reg_YMM27 reg_ZMM27 0;
  REGISTER_SUB_REGISTER reg_YMM28 reg_ZMM28 0;
  REGISTER_SUB_REGISTER reg_YMM29 reg_ZMM29 0;
  REGISTER_SUB_REGISTER reg_YMM30 reg_ZMM30 0;
  REGISTER_SUB_REGISTER reg_YMM31 reg_ZMM31 0;
  REGISTER_SUB_REGISTER reg_XMM0 reg_YMM0 0;
  REGISTER_SUB_REGISTER reg_XMM1 reg_YMM1 0;
  REGISTER_SUB_REGISTER reg_XMM2 reg_YMM2 0;
  REGISTER_SUB_REGISTER reg_XMM3 reg_YMM3 0;
  REGISTER_SUB_REGISTER reg_XMM4 reg_YMM4 0;
  REGISTER_SUB_REGISTER reg_XMM5 reg_YMM5 0;
  REGISTER_SUB_REGISTER reg_XMM6 reg_YMM6 0;
  REGISTER_SUB_REGISTER reg_XMM7 reg_YMM7 0;
  REGISTER_SUB_REGISTER reg_XMM8 reg_YMM8 0;
  REGISTER_SUB_REGISTER reg_XMM9 reg_YMM9 0;
  REGISTER_SUB_REGISTER reg_XMM10 reg_YMM10 0;
  REGISTER_SUB_REGISTER reg_XMM11 reg_YMM11 0;
  REGISTER_SUB_REGISTER reg_XMM12 reg_YMM12 0;
  REGISTER_SUB_REGISTER reg_XMM13 reg_YMM13 0;
  REGISTER_SUB_REGISTER reg_XMM14 reg_YMM14 0;
  REGISTER_SUB_REGISTER reg_XMM15 reg_YMM15 0;
  REGISTER_SUB_REGISTER reg_XMM16 reg_YMM16 0;
  REGISTER_SUB_REGISTER reg_XMM17 reg_YMM17 0;
  REGISTER_SUB_REGISTER reg_XMM18 reg_YMM18 0;
  REGISTER_SUB_REGISTER reg_XMM19 reg_YMM19 0;
  REGISTER_SUB_REGISTER reg_XMM20 reg_YMM20 0;
  REGISTER_SUB_REGISTER reg_XMM21 reg_YMM21 0;
  REGISTER_SUB_REGISTER reg_XMM22 reg_YMM22 0;
  REGISTER_SUB_REGISTER reg_XMM23 reg_YMM23 0;
  REGISTER_SUB_REGISTER reg_XMM24 reg_YMM24 0;
  REGISTER_SUB_REGISTER reg_XMM25 reg_YMM25 0;
  REGISTER_SUB_REGISTER reg_XMM26 reg_YMM26 0;
  REGISTER_SUB_REGISTER reg_XMM27 reg_YMM27 0;
  REGISTER_SUB_REGISTER reg_XMM28 reg_YMM28 0;
  REGISTER_SUB_REGISTER reg_XMM29 reg_YMM29 0;
  REGISTER_SUB_REGISTER reg_XMM30 reg_YMM30 0;
  REGISTER_SUB_REGISTER reg_XMM31 reg_YMM31 0;
  REGISTER_REGISTER reg_K0;
  REGISTER_REGISTER reg_K1;
  REGISTER_REGISTER reg_K2;
  REGISTER_REGISTER reg_K3;
  REGISTER_REGISTER reg_K4;
  REGISTER_REGISTER reg_K5;
  REGISTER_REGISTER reg_K6;
  REGISTER_REGISTER reg_K7;
  REGISTER_REGISTER reg_MM_Internal0;
  REGISTER_REGISTER reg_MM_Internal1;
  REGISTER_REGISTER reg_MM_Internal2;
  REGISTER_REGISTER reg_MM_Internal3;
  REGISTER_REGISTER reg_MM_Internal4;
  REGISTER_REGISTER reg_MM_Internal5;
  REGISTER_REGISTER reg_MM_Internal6;
  REGISTER_REGISTER reg_MM_Internal7;
  REGISTER_SUB_REGISTER reg_MM0 reg_MM_Internal0 0;
  REGISTER_SUB_REGISTER reg_MM1 reg_MM_Internal1 0;
  REGISTER_SUB_REGISTER reg_MM2 reg_MM_Internal2 0;
  REGISTER_SUB_REGISTER reg_MM3 reg_MM_Internal3 0;
  REGISTER_SUB_REGISTER reg_MM4 reg_MM_Internal4 0;
  REGISTER_SUB_REGISTER reg_MM5 reg_MM_Internal5 0;
  REGISTER_SUB_REGISTER reg_MM6 reg_MM_Internal6 0;
  REGISTER_SUB_REGISTER reg_MM7 reg_MM_Internal7 0;
  REGISTER_SUB_REGISTER reg_R8D reg_R8 0;
  REGISTER_SUB_REGISTER reg_R9D reg_R9 0;
  REGISTER_SUB_REGISTER reg_R10D reg_R10 0;
  REGISTER_SUB_REGISTER reg_R11D reg_R11 0;
  REGISTER_SUB_REGISTER reg_R12D reg_R12 0;
  REGISTER_SUB_REGISTER reg_R13D reg_R13 0;
  REGISTER_SUB_REGISTER reg_R14D reg_R14 0;
  REGISTER_SUB_REGISTER reg_R15D reg_R15 0;
  REGISTER_SUB_REGISTER reg_R8W reg_R8 0;
  REGISTER_SUB_REGISTER reg_R9W reg_R9 0;
  REGISTER_SUB_REGISTER reg_R10W reg_R10 0;
  REGISTER_SUB_REGISTER reg_R11W reg_R11 0;
  REGISTER_SUB_REGISTER reg_R12W reg_R12 0;
  REGISTER_SUB_REGISTER reg_R13W reg_R13 0;
  REGISTER_SUB_REGISTER reg_R14W reg_R14 0;
  REGISTER_SUB_REGISTER reg_R15W reg_R15 0;
  REGISTER_SUB_REGISTER reg_R8B reg_R8 0;
  REGISTER_SUB_REGISTER reg_R9B reg_R9 0;
  REGISTER_SUB_REGISTER reg_R10B reg_R10 0;
  REGISTER_SUB_REGISTER reg_R11B reg_R11 0;
  REGISTER_SUB_REGISTER reg_R12B reg_R12 0;
  REGISTER_SUB_REGISTER reg_R13B reg_R13 0;
  REGISTER_SUB_REGISTER reg_R14B reg_R14 0;
  REGISTER_SUB_REGISTER reg_R15B reg_R15 0;
  REGISTER_SUB_REGISTER reg_SIL reg_RSI 0;
  REGISTER_SUB_REGISTER reg_DIL reg_RDI 0;
  REGISTER_SUB_REGISTER reg_BPL reg_RBP 0;
  REGISTER_SUB_REGISTER reg_SPL reg_RSP 0;
  REGISTER_REGISTER reg_ES;
  REGISTER_REGISTER reg_CS;
  REGISTER_REGISTER reg_SS;
  REGISTER_REGISTER reg_DS;
  REGISTER_REGISTER reg_FS;
  REGISTER_REGISTER reg_GS;
  REGISTER_REGISTER reg_CR0;
  REGISTER_REGISTER reg_CR1;
  REGISTER_REGISTER reg_CR2;
  REGISTER_REGISTER reg_CR3;
  REGISTER_REGISTER reg_CR4;
  REGISTER_REGISTER reg_CR5;
  REGISTER_REGISTER reg_CR6;
  REGISTER_REGISTER reg_CR7;
  REGISTER_REGISTER reg_DR0;
  REGISTER_REGISTER reg_DR1;
  REGISTER_REGISTER reg_DR2;
  REGISTER_REGISTER reg_DR3;
  REGISTER_REGISTER reg_DR4;
  REGISTER_REGISTER reg_DR5;
  REGISTER_REGISTER reg_DR6;
  REGISTER_REGISTER reg_DR7;
  REGISTER_REGISTER reg_TR0;
  REGISTER_REGISTER reg_TR1;
  REGISTER_REGISTER reg_TR2;
  REGISTER_REGISTER reg_TR3;
  REGISTER_REGISTER reg_TR4;
  REGISTER_REGISTER reg_TR5;
  REGISTER_REGISTER reg_TR6;
  REGISTER_REGISTER reg_TR7;
  REGISTER_SUB_REGISTER reg_IP reg_RIP 0;
  REGISTER_SUB_REGISTER reg_SP reg_RSP 0;
  REGISTER_SUB_REGISTER reg_BP reg_RBP 0;
  REGISTER_SUB_REGISTER reg_SI reg_RSI 0;
  REGISTER_SUB_REGISTER reg_DI reg_RDI 0;
  REGISTER_SUB_REGISTER reg_EAX reg_RAX 0;
  REGISTER_SUB_REGISTER reg_ECX reg_RCX 0;
  REGISTER_SUB_REGISTER reg_EDX reg_RDX 0;
  REGISTER_SUB_REGISTER reg_EBX reg_RBX 0;
  REGISTER_SUB_REGISTER reg_ESP reg_RSP 0;
  REGISTER_SUB_REGISTER reg_EBP reg_RBP 0;
  REGISTER_SUB_REGISTER reg_ESI reg_RSI 0;
  REGISTER_SUB_REGISTER reg_EDI reg_RDI 0;
  REGISTER_SUB_REGISTER reg_AX reg_EAX 0;
  REGISTER_SUB_REGISTER reg_CX reg_ECX 0;
  REGISTER_SUB_REGISTER reg_DX reg_EDX 0;
  REGISTER_SUB_REGISTER reg_BX reg_EBX 0;
  REGISTER_SUB_REGISTER reg_AL reg_AX 0;
  REGISTER_SUB_REGISTER reg_CL reg_CX 0;
  REGISTER_SUB_REGISTER reg_DL reg_DX 0;
  REGISTER_SUB_REGISTER reg_BL reg_BX 0;
  REGISTER_SUB_REGISTER reg_AH reg_AX 1;
  REGISTER_SUB_REGISTER reg_CH reg_CX 1;
  REGISTER_SUB_REGISTER reg_DH reg_DX 1;
  REGISTER_SUB_REGISTER reg_BH reg_BX 1].
