(* ===== verification/ProcStreams.v ===== *)
(** Memory of the emulated processor: the interface [DianaRandomReadWriteStream] of
    diana_processor_streams.h as a class, its laws, and the implementation over one buffer,
    [DianaRandomMemoryStream] of diana_processor_streams.c, which is proved to obey them. *)

From Stdlib Require Import ZArith Lia List Bool.
Import ListNotations.
From S2P Require Import Prelude Words Status.
Local Open Scope Z_scope.

(** ** The interface

    [pReadFnc this selector offset size segReg] gives the status, the bytes delivered (their
    number is [*readed]) and the stream afterwards; [pWriteFnc this selector offset bytes segReg]
    the status, [*wrote] and the stream.  The processor the C callbacks also receive is not
    passed: [DianaRandomMemoryStream] does not look at it. *)

Class RandomStream (T : Type) := {
  pReadFnc : T -> Z -> Z -> Z -> Z -> Z * list Z * T;
  pWriteFnc : T -> Z -> Z -> list Z -> Z -> Z * Z * T
}.

(** ** What the processor relies on

    A stream behaves as a partial map from positions to bytes: [linear] resolves a selector and
    an offset to a position, [cell] reads one position. *)

Class RandomStreamOk (T : Type) `{RandomStream T} := {
  stream_wf : T -> Prop;
  linear : T -> Z -> Z -> Z;
  cell : T -> Z -> option Z;
  cell_byte : forall t p b, stream_wf t -> cell t p = Some b -> byte_ok b;
  linear_add : forall t sel off k, linear t sel (off + k) = u64 (linear t sel off + k);
  cell_word : forall t p, stream_wf t -> cell t p <> None -> 0 <= p < 0x10000000000000000;
  read_mapped : forall t sel off seg bs,
    stream_wf t -> bs <> [] ->
    (forall i, (i < length bs)%nat -> cell t (linear t sel off + Z.of_nat i) = Some (nth i bs 0)) ->
    pReadFnc t sel off (Z.of_nat (length bs)) seg = (DI_SUCCESS, bs, t);
  read_unmapped : forall t sel off seg n i,
    stream_wf t -> 0 <= i < n -> cell t (linear t sel off + i) = None ->
    match pReadFnc t sel off n seg with
    | (st, bs, t') => t' = t /\ (st <> DI_SUCCESS \/ Z.of_nat (length bs) <> n)
    end;
  read_keeps : forall t sel off seg n,
    stream_wf t ->
    match pReadFnc t sel off n seg with
    | (_, bs, t') => stream_wf t' /\ Forall byte_ok bs /\ Z.of_nat (length bs) <= Z.max 0 n
    end;
  write_keeps : forall t sel off seg bs,
    stream_wf t -> Forall byte_ok bs -> stream_wf (snd (pWriteFnc t sel off bs seg));
  write_mapped : forall t sel off seg bs,
    stream_wf t -> bs <> [] -> Forall byte_ok bs ->
    (forall i, (i < length bs)%nat -> cell t (linear t sel off + Z.of_nat i) <> None) ->
    exists t',
      pWriteFnc t sel off bs seg = (DI_SUCCESS, Z.of_nat (length bs), t') /\
      stream_wf t' /\
      (forall sel' off', linear t' sel' off' = linear t sel' off') /\
      (forall p, cell t' p =
         if (linear t sel off <=? p) && (p <? linear t sel off + Z.of_nat (length bs))
         then Some (nth (Z.to_nat (p - linear t sel off)) bs 0) else cell t p)
}.

(** ** [DianaRandomMemoryStream] *)

Record DianaRandomMemoryStream : Type := mkDianaRandomMemoryStream {
  pBuffer : list Z;
  bufferSize : Z;
  segmentSize : Z
}.

Definition with_pBuffer (f : list Z -> list Z) (t : DianaRandomMemoryStream) :=
  {| pBuffer := f (pBuffer t); bufferSize := bufferSize t; segmentSize := segmentSize t |}.

(** Gives the status, the bytes copied to the caller's buffer (for a read), [*readed] and the
    stream.  [data] is the caller's buffer. *)
Definition MemoryRandomStream_ReadWrite (pThis : DianaRandomMemoryStream)
    (selector offset_in : Z) (data : list Z) (iBufferSize : Z) (bWrite : bool)
    : Z * list Z * Z * DianaRandomMemoryStream :=
  let segmentOffset := u64 (selector * segmentSize pThis) in
  let offset := u64 (segmentOffset + offset_in) in
  if bufferSize pThis <? offset then (DI_ERROR, [], 0, pThis)
  else
    let sizeToGive := bufferSize pThis - offset in
    let sizeToGive := if iBufferSize <? sizeToGive then iBufferSize else sizeToGive in
    if bWrite then
      (DI_SUCCESS, [], sizeToGive,
       with_pBuffer (fun buf => buf_update buf offset (firstn (Z.to_nat sizeToGive) data)) pThis)
    else (DI_SUCCESS, buf_bytes (pBuffer pThis) offset sizeToGive, sizeToGive, pThis).

Definition MemoryRandomStream_Read (pThis : DianaRandomMemoryStream)
    (selector offset iBufferSize segReg : Z) : Z * list Z * DianaRandomMemoryStream :=
  match MemoryRandomStream_ReadWrite pThis selector offset [] iBufferSize false with
  | (st, bs, _, t) => (st, bs, t)
  end.

Definition MemoryRandomStream_Write (pThis : DianaRandomMemoryStream)
    (selector offset : Z) (data : list Z) (segReg : Z) : Z * Z * DianaRandomMemoryStream :=
  match MemoryRandomStream_ReadWrite pThis selector offset data (Z.of_nat (length data)) true with
  | (st, _, wrote, t) => (st, wrote, t)
  end.

Definition Diana_InitRandomMemoryStream (buffer : list Z) (size segSize : Z)
    : DianaRandomMemoryStream :=
  {| pBuffer := buffer; bufferSize := size; segmentSize := segSize |}.

#[export] Instance DianaRandomMemoryStream_stream : RandomStream DianaRandomMemoryStream := {
  pReadFnc := MemoryRandomStream_Read;
  pWriteFnc := MemoryRandomStream_Write
}.

(** The caller gave the real size of the buffer. *)
Definition memory_stream_wf (t : DianaRandomMemoryStream) : Prop :=
  bufferSize t = Z.of_nat (length (pBuffer t)) /\
  bufferSize t < 0x10000000000000000 /\
  Forall byte_ok (pBuffer t).

Definition memory_linear (t : DianaRandomMemoryStream) (sel off : Z) : Z :=
  u64 (u64 (sel * segmentSize t) + off).

Definition memory_cell (t : DianaRandomMemoryStream) (p : Z) : option Z :=
  if (0 <=? p) && (p <? bufferSize t) then Some (nth (Z.to_nat p) (pBuffer t) 0) else None.

Lemma memory_cell_some t p b :
  memory_cell t p = Some b <-> 0 <= p < bufferSize t /\ b = nth (Z.to_nat p) (pBuffer t) 0.
Proof.
  unfold memory_cell.
  destruct (Z.leb_spec 0 p), (Z.ltb_spec p (bufferSize t)); cbn [andb]; split;
    intros E; try discriminate; try lia.
  - inversion E. split; [lia|reflexivity].
  - now destruct E as [_ ->].
Qed.

(** The size the stream gives: what is left of the buffer, at most what was asked for. *)
Lemma MemoryRandomStream_Read_eq t sel off n seg :
  memory_stream_wf t -> 0 <= n -> memory_linear t sel off <= bufferSize t ->
  MemoryRandomStream_Read t sel off n seg =
  (DI_SUCCESS,
   buf_bytes (pBuffer t) (memory_linear t sel off)
     (Z.min n (bufferSize t - memory_linear t sel off)), t).
Proof.
  intros W Hn HL. unfold MemoryRandomStream_Read, MemoryRandomStream_ReadWrite.
  fold (memory_linear t sel off).
  destruct (Z.ltb_spec (bufferSize t) (memory_linear t sel off)); [lia|]. cbn zeta iota.
  destruct (Z.ltb_spec n (bufferSize t - memory_linear t sel off)).
  - now rewrite Z.min_l by lia.
  - now rewrite Z.min_r by lia.
Qed.

Lemma memory_linear_range t sel off : 0 <= memory_linear t sel off.
Proof. unfold memory_linear. pose proof (u64_range (u64 (sel * segmentSize t) + off)). lia. Qed.

(** A range of mapped cells lies inside the buffer. *)
Lemma memory_cells_inside t p n :
  0 < n -> (forall i, 0 <= i < n -> memory_cell t (p + i) <> None) ->
  0 <= p /\ p + n <= bufferSize t.
Proof.
  intros Hn H.
  assert (F : forall q, memory_cell t q <> None -> 0 <= q < bufferSize t).
  { intros q Hq. destruct (memory_cell t q) eqn:E; [|congruence].
    apply memory_cell_some in E. lia. }
  pose proof (F _ (H 0 ltac:(lia))). pose proof (F _ (H (n - 1) ltac:(lia))). lia.
Qed.

Lemma memory_read_mapped t sel off seg bs :
  memory_stream_wf t -> bs <> [] ->
  (forall i, (i < length bs)%nat ->
     memory_cell t (memory_linear t sel off + Z.of_nat i) = Some (nth i bs 0)) ->
  MemoryRandomStream_Read t sel off (Z.of_nat (length bs)) seg = (DI_SUCCESS, bs, t).
Proof.
  intros W NE H. pose proof W as (HB & HL & HO).
  assert (LP : 0 < Z.of_nat (length bs)) by (destruct bs; [congruence|cbn; lia]).
  destruct (memory_cells_inside t (memory_linear t sel off) (Z.of_nat (length bs)))
    as [H0 H1]; [lia| |].
  { intros i Hi. specialize (H (Z.to_nat i) ltac:(lia)). rewrite Z2Nat.id in H by lia. congruence. }
  rewrite MemoryRandomStream_Read_eq by (auto; lia). rewrite Z.min_l by lia.
  do 2 f_equal. apply (list_ext_nth _ _ 0).
  - rewrite buf_bytes_length; lia.
  - intros i Hi. rewrite buf_bytes_length in Hi by lia. rewrite buf_bytes_nth by lia.
    specialize (H i ltac:(lia)). apply memory_cell_some in H. destruct H as [_ ->].
    f_equal. lia.
Qed.

Lemma memory_read_unmapped t sel off seg n i :
  memory_stream_wf t -> 0 <= i < n -> memory_cell t (memory_linear t sel off + i) = None ->
  match MemoryRandomStream_Read t sel off n seg with
  | (st, bs, t') => t' = t /\ (st <> DI_SUCCESS \/ Z.of_nat (length bs) <> n)
  end.
Proof.
  intros W Hi Hc. pose proof W as (HB & _ & _). pose proof (memory_linear_range t sel off).
  destruct (Z_lt_le_dec (bufferSize t) (memory_linear t sel off)) as [L|L].
  - unfold MemoryRandomStream_Read, MemoryRandomStream_ReadWrite.
    fold (memory_linear t sel off).
    destruct (Z.ltb_spec (bufferSize t) (memory_linear t sel off)); [|lia].
    split; [reflexivity|left; discriminate].
  - rewrite MemoryRandomStream_Read_eq by (auto; lia). split; [reflexivity|right].
    rewrite buf_bytes_length by lia. rewrite Z2Nat.id by lia.
    assert (bufferSize t <= memory_linear t sel off + i); [|lia].
    revert Hc. unfold memory_cell.
    destruct (Z.leb_spec 0 (memory_linear t sel off + i)),
      (Z.ltb_spec (memory_linear t sel off + i) (bufferSize t)); cbn [andb]; try discriminate; lia.
Qed.

Lemma memory_write_mapped t sel off seg bs :
  memory_stream_wf t -> bs <> [] -> Forall byte_ok bs ->
  (forall i, (i < length bs)%nat -> memory_cell t (memory_linear t sel off + Z.of_nat i) <> None) ->
  exists t',
    MemoryRandomStream_Write t sel off bs seg = (DI_SUCCESS, Z.of_nat (length bs), t') /\
    memory_stream_wf t' /\
    (forall sel' off', memory_linear t' sel' off' = memory_linear t sel' off') /\
    (forall p, memory_cell t' p =
       if (memory_linear t sel off <=? p) && (p <? memory_linear t sel off + Z.of_nat (length bs))
       then Some (nth (Z.to_nat (p - memory_linear t sel off)) bs 0) else memory_cell t p).
Proof.
  intros W NE OK H. pose proof W as (HB & HL & HO).
  assert (LP : 0 < Z.of_nat (length bs)) by (destruct bs; [congruence|cbn; lia]).
  destruct (memory_cells_inside t (memory_linear t sel off) (Z.of_nat (length bs)))
    as [H0 H1]; [lia| |].
  { intros i Hi. specialize (H (Z.to_nat i) ltac:(lia)). now rewrite Z2Nat.id in H by lia. }
  unfold MemoryRandomStream_Write, MemoryRandomStream_ReadWrite.
  fold (memory_linear t sel off).
  destruct (Z.ltb_spec (bufferSize t) (memory_linear t sel off)); [lia|]. cbn zeta iota.
  replace (if Z.of_nat (length bs) <? bufferSize t - memory_linear t sel off
           then Z.of_nat (length bs) else bufferSize t - memory_linear t sel off)
    with (Z.of_nat (length bs))
    by (destruct (Z.ltb_spec (Z.of_nat (length bs)) (bufferSize t - memory_linear t sel off)); lia).
  rewrite Nat2Z.id, firstn_all.
  eexists. split; [reflexivity|].
  assert (LB : length (buf_update (pBuffer t) (memory_linear t sel off) bs) = length (pBuffer t))
    by (apply buf_update_length; lia).
  split; [|split].
  - unfold memory_stream_wf. cbn. rewrite LB. auto with diana.
  - reflexivity.
  - intros p. unfold memory_cell at 1. cbn [with_pBuffer bufferSize pBuffer].
    destruct (Z.leb_spec 0 p) as [P0|P0], (Z.ltb_spec p (bufferSize t)) as [P1|P1]; cbn [andb].
    2,3,4: destruct (Z.leb_spec (memory_linear t sel off) p),
             (Z.ltb_spec p (memory_linear t sel off + Z.of_nat (length bs))); cbn [andb];
           try lia; unfold memory_cell;
           destruct (Z.leb_spec 0 p), (Z.ltb_spec p (bufferSize t)); cbn [andb]; reflexivity || lia.
    rewrite buf_update_nth by lia. rewrite Z2Nat.id by lia.
    destruct (Z.leb_spec (memory_linear t sel off) p),
      (Z.ltb_spec p (memory_linear t sel off + Z.of_nat (length bs))); cbn [andb];
      try (unfold memory_cell; destruct (Z.leb_spec 0 p), (Z.ltb_spec p (bufferSize t));
           cbn [andb]; reflexivity || lia).
    do 2 f_equal. lia.
Qed.

Lemma memory_read_keeps t sel off seg n :
  memory_stream_wf t ->
  match MemoryRandomStream_Read t sel off n seg with
  | (_, bs, t') => memory_stream_wf t' /\ Forall byte_ok bs /\ Z.of_nat (length bs) <= Z.max 0 n
  end.
Proof.
  intros W. pose proof W as (HB & _ & HO).
  unfold MemoryRandomStream_Read, MemoryRandomStream_ReadWrite. fold (memory_linear t sel off).
  destruct (_ <? memory_linear t sel off); [cbn; split; [exact W|split; [constructor|lia]]|].
  cbn zeta iota. set (k := if _ <? _ then _ else _).
  assert (Hk : k <= n)
    by (unfold k; destruct (Z.ltb_spec n (bufferSize t - memory_linear t sel off)); lia).
  split; [exact W|]. split; [now apply buf_bytes_ok|].
  unfold buf_bytes. rewrite length_firstn. lia.
Qed.

Lemma memory_write_keeps t sel off seg bs :
  memory_stream_wf t -> Forall byte_ok bs ->
  memory_stream_wf (snd (MemoryRandomStream_Write t sel off bs seg)).
Proof.
  intros W OK. pose proof W as (HB & HL & HO). pose proof (memory_linear_range t sel off).
  unfold MemoryRandomStream_Write, MemoryRandomStream_ReadWrite. fold (memory_linear t sel off).
  destruct (Z.ltb_spec (bufferSize t) (memory_linear t sel off)); [exact W|]. cbn zeta iota.
  set (k := if _ <? _ then _ else _).
  assert (Hk : k <= bufferSize t - memory_linear t sel off)
    by (unfold k; destruct (Z.ltb_spec (Z.of_nat (length bs)) (bufferSize t - memory_linear t sel off)); lia).
  assert (Lk : Z.of_nat (length (firstn (Z.to_nat k) bs)) <= Z.max 0 k)
    by (rewrite length_firstn; lia).
  cbn [snd]. unfold memory_stream_wf. cbn [pBuffer bufferSize with_pBuffer].
  rewrite buf_update_length by lia. split; [exact HB|]. split; [exact HL|].
  apply buf_update_ok; [exact HO|]. rewrite Forall_forall in *. intros x Hx. apply OK.
  rewrite <- (firstn_skipn (Z.to_nat k) bs). apply in_or_app. now left.
Qed.

Lemma memory_cell_byte t p b :
  memory_stream_wf t -> memory_cell t p = Some b -> byte_ok b.
Proof.
  intros (HB & _ & HO) H. apply memory_cell_some in H. destruct H as [R ->].
  rewrite Forall_forall in HO. apply HO, nth_In. lia.
Qed.

Lemma memory_linear_add t sel off k :
  memory_linear t sel (off + k) = u64 (memory_linear t sel off + k).
Proof.
  unfold memory_linear. set (base := u64 (_ * _)). unfold u64.
  rewrite Z.add_mod_idemp_l by lia. f_equal. lia.
Qed.

Lemma memory_cell_word t p :
  memory_stream_wf t -> memory_cell t p <> None -> 0 <= p < 0x10000000000000000.
Proof.
  intros (_ & HL & _). unfold memory_cell.
  destruct (Z.leb_spec 0 p), (Z.ltb_spec p (bufferSize t)); cbn [andb]; intros N; [lia|now destruct N..].
Qed.

#[export] Instance DianaRandomMemoryStream_ok : RandomStreamOk DianaRandomMemoryStream := {
  stream_wf := memory_stream_wf;
  linear := memory_linear;
  cell := memory_cell;
  cell_byte := memory_cell_byte;
  linear_add := memory_linear_add;
  cell_word := memory_cell_word;
  read_mapped := memory_read_mapped;
  read_unmapped := memory_read_unmapped;
  read_keeps := memory_read_keeps;
  write_keeps := memory_write_keeps;
  write_mapped := memory_write_mapped
}.

(** ** Writing and reading back *)

Lemma memory_cell_inside t p : 0 <= p < bufferSize t -> memory_cell t p <> None.
Proof.
  intros Hp. unfold memory_cell.
  destruct (Z.leb_spec 0 p), (Z.ltb_spec p (bufferSize t)); cbn [andb]; congruence || lia.
Qed.

Lemma memory_write_read t sel off seg seg' bs :
  memory_stream_wf t -> bs <> [] -> Forall byte_ok bs ->
  (memory_linear t sel off + Z.of_nat (length bs) <= bufferSize t ->
   exists t',
     MemoryRandomStream_Write t sel off bs seg = (DI_SUCCESS, Z.of_nat (length bs), t') /\
     MemoryRandomStream_Read t' sel off (Z.of_nat (length bs)) seg' = (DI_SUCCESS, bs, t')) /\
  (bufferSize t < memory_linear t sel off + Z.of_nat (length bs) ->
   match MemoryRandomStream_Read t sel off (Z.of_nat (length bs)) seg with
   | (st, got, t') => t' = t /\ (st <> DI_SUCCESS \/ Z.of_nat (length got) <> Z.of_nat (length bs))
   end).
Proof.
  intros W NE OK. pose proof (memory_linear_range t sel off) as HL.
  assert (LP : 0 < Z.of_nat (length bs)) by (destruct bs; [congruence|cbn; lia]). split.
  - intros Hin. destruct (memory_write_mapped t sel off seg bs W NE OK) as (t' & E & W' & L & C).
    { intros i Hi. apply memory_cell_inside. lia. }
    exists t'. split; [exact E|]. apply memory_read_mapped; auto. intros i Hi.
    rewrite L, C.
    destruct (Z.leb_spec (memory_linear t sel off) (memory_linear t sel off + Z.of_nat i)),
      (Z.ltb_spec (memory_linear t sel off + Z.of_nat i) (memory_linear t sel off + Z.of_nat (length bs)));
      cbn [andb]; try lia.
    do 2 f_equal. lia.
  - intros Hout. apply (memory_read_unmapped t sel off seg _ (Z.of_nat (length bs) - 1) W); [lia|].
    unfold memory_cell. destruct (Z.ltb_spec (memory_linear t sel off + (Z.of_nat (length bs) - 1)) (bufferSize t));
      [lia|]. now rewrite andb_false_r.
Qed.
