(* ===== verification/Processor.v ===== *)
(** The processor: its state ([struct _dianaProcessor]), the register vector, the flags, the
    memory and operand accesses of diana_processor_core_impl.c, diana_processor_specific.h and
    diana_processor_impl_init.h.

    The model is of the release build: [Diana_FatalBreak] does nothing there, and control goes
    on to the statement after it. *)

From Stdlib Require Import ZArith Lia List Bool.
Import ListNotations.
From S2P Require Import Prelude Words Status Registers ProcStreams.
Local Open Scope Z_scope.
Local Open Scope diana_scope.

(** ** Decoded instructions *)

Record DianaRegInfo : Type := mkDianaRegInfo { m_size : Z; m_offset : Z }.

Record DianaRmIndex : Type := mkDianaRmIndex {
  seg_reg : Z; reg : Z; indexed_reg : Z; index : Z; dispSize : Z; dispValue : Z
}.

(** [DianaValueType] with the member of the union [DianaOperandValue] it selects; the ARM
    operand kinds never reach the x86 processor. *)
Inductive DianaOperandValue : Type :=
| diana_none
| diana_register (recognizedRegister : Z)
| diana_index (rmIndex : DianaRmIndex)
| diana_imm (imm : Z)
| diana_call_ptr (segment address : Z)
| diana_rel (rel : Z)
| diana_memory (m_index : DianaRmIndex)
| diana_reserved_reg.

Record DianaLinkedOperand : Type := mkDianaLinkedOperand {
  value : DianaOperandValue; usedSize : Z; usedAddressSize : Z
}.

Definition no_operand : DianaLinkedOperand := mkDianaLinkedOperand diana_none 0 0.

(** [pInfo_flags] is [pInfo->m_flags], [commandId] is [pInfo->m_pGroupInfo->m_commandId]. *)
Record DianaParserResult : Type := mkDianaParserResult {
  pInfo_flags : Z;
  commandId : Z;
  linkedOperands : list DianaLinkedOperand;
  iLinkedOpCount : Z;
  iPrefix : Z;
  iFullCmdSize : Z
}.

Record DianaContext : Type := mkDianaContext {
  iMainMode_opsize : Z;
  iCurrentCmd_opsize : Z;
  iMainMode_addressSize : Z;
  iCurrentCmd_addressSize : Z;
  currentCmd_sreg : Z;
  iAMD64Mode : Z;
  iRexPrefix : Z
}.

Record DianaFPU : Type := mkDianaFPU { controlWord : Z; statusWord : Z; registerFlags : list Z }.

Record DianaProcessRandom : Type := mkDianaProcessRandom { state : Z; inc : Z }.

(** ** The state of the processor

    [m_registersVectorSize] is the length of [m_pRegistersVector]; the fire points, the custom
    command provider and the allocator are callbacks of the embedding program and are left out. *)

Record DianaProcessor (T : Type) : Type := mkDianaProcessor {
  m_iLastRegistersOffset : Z;
  m_pRegistersVector : list Z;
  m_registers : list DianaRegInfo;
  m_pMemoryStream : T;
  m_flags : Z;
  m_context : DianaContext;
  m_result : DianaParserResult;
  m_stateFlags : Z;
  m_stateFlagsToRemove : Z;
  m_tempRIP : Z;
  m_fpu : DianaFPU;
  m_options : Z;
  m_initialDianaMode : Z;
  m_lastCallRIP : Z;
  m_lastCallRSP : Z;
  m_random : DianaProcessRandom;
  m_mxcsr : Z;
  m_pkru : Z
}.

Arguments mkDianaProcessor {T}.
Arguments m_iLastRegistersOffset {T}.
Arguments m_pRegistersVector {T}.
Arguments m_registers {T}.
Arguments m_pMemoryStream {T}.
Arguments m_flags {T}.
Arguments m_context {T}.
Arguments m_result {T}.
Arguments m_stateFlags {T}.
Arguments m_stateFlagsToRemove {T}.
Arguments m_tempRIP {T}.
Arguments m_fpu {T}.
Arguments m_options {T}.
Arguments m_initialDianaMode {T}.
Arguments m_lastCallRIP {T}.
Arguments m_lastCallRSP {T}.
Arguments m_random {T}.
Arguments m_mxcsr {T}.
Arguments m_pkru {T}.

(** ** Field updates: [with_f g s] replaces the field [f] of [s] by [g] of its value *)

Section Updates.
Context {T : Type}.
Implicit Type s : DianaProcessor T.

Definition with_iLastRegistersOffset f s : DianaProcessor T :=
  mkDianaProcessor
  (f (m_iLastRegistersOffset s)) (m_pRegistersVector s) (m_registers s)
  (m_pMemoryStream s) (m_flags s) (m_context s) (m_result s) (m_stateFlags s)
  (m_stateFlagsToRemove s) (m_tempRIP s) (m_fpu s) (m_options s) (m_initialDianaMode
  s) (m_lastCallRIP s) (m_lastCallRSP s) (m_random s) (m_mxcsr s) (m_pkru s).
Definition with_pRegistersVector f s : DianaProcessor T :=
  mkDianaProcessor
  (m_iLastRegistersOffset s) (f (m_pRegistersVector s)) (m_registers s)
  (m_pMemoryStream s) (m_flags s) (m_context s) (m_result s) (m_stateFlags s)
  (m_stateFlagsToRemove s) (m_tempRIP s) (m_fpu s) (m_options s) (m_initialDianaMode
  s) (m_lastCallRIP s) (m_lastCallRSP s) (m_random s) (m_mxcsr s) (m_pkru s).
Definition with_registers f s : DianaProcessor T :=
  mkDianaProcessor
  (m_iLastRegistersOffset s) (m_pRegistersVector s) (f (m_registers s))
  (m_pMemoryStream s) (m_flags s) (m_context s) (m_result s) (m_stateFlags s)
  (m_stateFlagsToRemove s) (m_tempRIP s) (m_fpu s) (m_options s) (m_initialDianaMode
  s) (m_lastCallRIP s) (m_lastCallRSP s) (m_random s) (m_mxcsr s) (m_pkru s).
Definition with_pMemoryStream f s : DianaProcessor T :=
  mkDianaProcessor
  (m_iLastRegistersOffset s) (m_pRegistersVector s) (m_registers s) (f
  (m_pMemoryStream s)) (m_flags s) (m_context s) (m_result s) (m_stateFlags s)
  (m_stateFlagsToRemove s) (m_tempRIP s) (m_fpu s) (m_options s) (m_initialDianaMode
  s) (m_lastCallRIP s) (m_lastCallRSP s) (m_random s) (m_mxcsr s) (m_pkru s).
Definition with_flags f s : DianaProcessor T :=
  mkDianaProcessor
  (m_iLastRegistersOffset s) (m_pRegistersVector s) (m_registers s) (m_pMemoryStream
  s) (f (m_flags s)) (m_context s) (m_result s) (m_stateFlags s) (m_stateFlagsToRemove
  s) (m_tempRIP s) (m_fpu s) (m_options s) (m_initialDianaMode s) (m_lastCallRIP s)
  (m_lastCallRSP s) (m_random s) (m_mxcsr s) (m_pkru s).
Definition with_context f s : DianaProcessor T :=
  mkDianaProcessor
  (m_iLastRegistersOffset s) (m_pRegistersVector s) (m_registers s) (m_pMemoryStream
  s) (m_flags s) (f (m_context s)) (m_result s) (m_stateFlags s) (m_stateFlagsToRemove
  s) (m_tempRIP s) (m_fpu s) (m_options s) (m_initialDianaMode s) (m_lastCallRIP s)
  (m_lastCallRSP s) (m_random s) (m_mxcsr s) (m_pkru s).
Definition with_result f s : DianaProcessor T :=
  mkDianaProcessor
  (m_iLastRegistersOffset s) (m_pRegistersVector s) (m_registers s) (m_pMemoryStream
  s) (m_flags s) (m_context s) (f (m_result s)) (m_stateFlags s) (m_stateFlagsToRemove
  s) (m_tempRIP s) (m_fpu s) (m_options s) (m_initialDianaMode s) (m_lastCallRIP s)
  (m_lastCallRSP s) (m_random s) (m_mxcsr s) (m_pkru s).
Definition with_stateFlags f s : DianaProcessor T :=
  mkDianaProcessor
  (m_iLastRegistersOffset s) (m_pRegistersVector s) (m_registers s) (m_pMemoryStream
  s) (m_flags s) (m_context s) (m_result s) (f (m_stateFlags s)) (m_stateFlagsToRemove
  s) (m_tempRIP s) (m_fpu s) (m_options s) (m_initialDianaMode s) (m_lastCallRIP s)
  (m_lastCallRSP s) (m_random s) (m_mxcsr s) (m_pkru s).
Definition with_stateFlagsToRemove f s : DianaProcessor T :=
  mkDianaProcessor
  (m_iLastRegistersOffset s) (m_pRegistersVector s) (m_registers s) (m_pMemoryStream
  s) (m_flags s) (m_context s) (m_result s) (m_stateFlags s) (f (m_stateFlagsToRemove
  s)) (m_tempRIP s) (m_fpu s) (m_options s) (m_initialDianaMode s) (m_lastCallRIP s)
  (m_lastCallRSP s) (m_random s) (m_mxcsr s) (m_pkru s).
Definition with_tempRIP f s : DianaProcessor T :=
  mkDianaProcessor
  (m_iLastRegistersOffset s) (m_pRegistersVector s) (m_registers s) (m_pMemoryStream
  s) (m_flags s) (m_context s) (m_result s) (m_stateFlags s) (m_stateFlagsToRemove s)
  (f (m_tempRIP s)) (m_fpu s) (m_options s) (m_initialDianaMode s) (m_lastCallRIP s)
  (m_lastCallRSP s) (m_random s) (m_mxcsr s) (m_pkru s).
Definition with_fpu f s : DianaProcessor T :=
  mkDianaProcessor
  (m_iLastRegistersOffset s) (m_pRegistersVector s) (m_registers s) (m_pMemoryStream
  s) (m_flags s) (m_context s) (m_result s) (m_stateFlags s) (m_stateFlagsToRemove s)
  (m_tempRIP s) (f (m_fpu s)) (m_options s) (m_initialDianaMode s) (m_lastCallRIP s)
  (m_lastCallRSP s) (m_random s) (m_mxcsr s) (m_pkru s).
Definition with_options f s : DianaProcessor T :=
  mkDianaProcessor
  (m_iLastRegistersOffset s) (m_pRegistersVector s) (m_registers s) (m_pMemoryStream
  s) (m_flags s) (m_context s) (m_result s) (m_stateFlags s) (m_stateFlagsToRemove s)
  (m_tempRIP s) (m_fpu s) (f (m_options s)) (m_initialDianaMode s) (m_lastCallRIP s)
  (m_lastCallRSP s) (m_random s) (m_mxcsr s) (m_pkru s).
Definition with_initialDianaMode f s : DianaProcessor T :=
  mkDianaProcessor
  (m_iLastRegistersOffset s) (m_pRegistersVector s) (m_registers s) (m_pMemoryStream
  s) (m_flags s) (m_context s) (m_result s) (m_stateFlags s) (m_stateFlagsToRemove s)
  (m_tempRIP s) (m_fpu s) (m_options s) (f (m_initialDianaMode s)) (m_lastCallRIP s)
  (m_lastCallRSP s) (m_random s) (m_mxcsr s) (m_pkru s).
Definition with_lastCallRIP f s : DianaProcessor T :=
  mkDianaProcessor
  (m_iLastRegistersOffset s) (m_pRegistersVector s) (m_registers s) (m_pMemoryStream
  s) (m_flags s) (m_context s) (m_result s) (m_stateFlags s) (m_stateFlagsToRemove s)
  (m_tempRIP s) (m_fpu s) (m_options s) (m_initialDianaMode s) (f (m_lastCallRIP s))
  (m_lastCallRSP s) (m_random s) (m_mxcsr s) (m_pkru s).
Definition with_lastCallRSP f s : DianaProcessor T :=
  mkDianaProcessor
  (m_iLastRegistersOffset s) (m_pRegistersVector s) (m_registers s) (m_pMemoryStream
  s) (m_flags s) (m_context s) (m_result s) (m_stateFlags s) (m_stateFlagsToRemove s)
  (m_tempRIP s) (m_fpu s) (m_options s) (m_initialDianaMode s) (m_lastCallRIP s) (f
  (m_lastCallRSP s)) (m_random s) (m_mxcsr s) (m_pkru s).
Definition with_random f s : DianaProcessor T :=
  mkDianaProcessor
  (m_iLastRegistersOffset s) (m_pRegistersVector s) (m_registers s) (m_pMemoryStream
  s) (m_flags s) (m_context s) (m_result s) (m_stateFlags s) (m_stateFlagsToRemove s)
  (m_tempRIP s) (m_fpu s) (m_options s) (m_initialDianaMode s) (m_lastCallRIP s)
  (m_lastCallRSP s) (f (m_random s)) (m_mxcsr s) (m_pkru s).
Definition with_mxcsr f s : DianaProcessor T :=
  mkDianaProcessor
  (m_iLastRegistersOffset s) (m_pRegistersVector s) (m_registers s) (m_pMemoryStream
  s) (m_flags s) (m_context s) (m_result s) (m_stateFlags s) (m_stateFlagsToRemove s)
  (m_tempRIP s) (m_fpu s) (m_options s) (m_initialDianaMode s) (m_lastCallRIP s)
  (m_lastCallRSP s) (m_random s) (f (m_mxcsr s)) (m_pkru s).
Definition with_pkru f s : DianaProcessor T :=
  mkDianaProcessor
  (m_iLastRegistersOffset s) (m_pRegistersVector s) (m_registers s) (m_pMemoryStream
  s) (m_flags s) (m_context s) (m_result s) (m_stateFlags s) (m_stateFlagsToRemove s)
  (m_tempRIP s) (m_fpu s) (m_options s) (m_initialDianaMode s) (m_lastCallRIP s)
  (m_lastCallRSP s) (m_random s) (m_mxcsr s) (f (m_pkru s)).
End Updates.

Definition with_opsize (n : Z) (c : DianaContext) : DianaContext :=
  mkDianaContext (iMainMode_opsize c) n (iMainMode_addressSize c) (iCurrentCmd_addressSize c)
    (currentCmd_sreg c) (iAMD64Mode c) (iRexPrefix c).

Definition with_linkedOperands (f : list DianaLinkedOperand -> list DianaLinkedOperand)
    (r : DianaParserResult) : DianaParserResult :=
  mkDianaParserResult (pInfo_flags r) (commandId r) (f (linkedOperands r)) (iLinkedOpCount r)
    (iPrefix r) (iFullCmdSize r).

(** [linkedOperands + opNumber] *)
Definition linked_op (r : DianaParserResult) (opNumber : Z) : DianaLinkedOperand :=
  nth (Z.to_nat opNumber) (linkedOperands r) no_operand.

(** ** Tables built by [DianaProcessor_ProcImplInit] *)

(** [GetSetBitsCount]: the number of set bits among the low eight. *)
Fixpoint GetSetBitsCount_loop (n : nat) (value mask count : Z) : Z :=
  match n with
  | O => count
  | S n =>
      GetSetBitsCount_loop n value (Z.shiftl mask 1)
        (if Z.land value mask =? 0 then count else count + 1)
  end.

Definition GetSetBitsCount (value : Z) : Z := GetSetBitsCount_loop 8 value 1 0.

Definition g_diana_parityBuffer : list Z :=
  1 :: map (fun i => if GetSetBitsCount (Z.of_nat i) mod 2 =? 0 then 1 else 0) (seq 1 255).

Definition IsParity (value : Z) : Z := nth (Z.to_nat value) g_diana_parityBuffer 0.

Definition g_maskBuffer : list Z :=
  [0x80; 0x8000; 0x800000; 0x80000000; 0x8000000000; 0x800000000000; 0x80000000000000;
   0x8000000000000000].

(** The operand sizes are 1 to 8; an index outside of the table is undefined in C and 0 here. *)
Definition DianaProcessor_GetSignMask (sizeInBytes : Z) : Z :=
  nth (Z.to_nat (sizeInBytes - 1)) g_maskBuffer 0.

Definition DianaProcessor_GetSignMaskSpecifyBit (sizeInBits : Z) : Z :=
  Z.shiftr (nth (Z.to_nat (sizeInBits / 8)) g_maskBuffer 0) (7 - sizeInBits mod 8).

Definition DianaProcessor_CutValue (value size : Z) : Z :=
  if size =? 1 then u8 value
  else if size =? 2 then u16 value
  else if size =? 4 then u32 value
  else if size =? 8 then value
  else 0.

(** [DianaProcessor_SignExtend]; [None] is [DI_ERROR]. *)
Definition DianaProcessor_SignExtend (variable size newSize : Z) : option Z :=
  if size =? newSize then Some variable
  else
    let extended :=
      if size =? 1 then Some (u64 (s8 variable))
      else if size =? 2 then Some (u64 (s16 variable))
      else if size =? 4 then Some (u64 (s32 variable))
      else if size =? 8 then Some variable
      else None in
    match extended with
    | Some v => Some (DianaProcessor_CutValue v newSize)
    | None => None
    end.

(** [DianaProcessor_Query64RegisterFor32]; [None] is [DI_ERROR]. *)
Definition DianaProcessor_Query64RegisterFor32 (registerIn : Z) : option Z :=
  if (reg_EAX <=? registerIn) && (registerIn <=? reg_EDI) then
    Some (reg_RAX - reg_EAX + registerIn)
  else if (reg_R8D <=? registerIn) && (registerIn <=? reg_R15D) then
    Some (reg_R8 - reg_R8D + registerIn)
  else None.

Definition DianaProcessor_QueryRaxRegister (size : Z) : option Z :=
  if size =? DIANA_MODE64 then Some reg_RAX
  else if size =? DIANA_MODE32 then Some reg_EAX
  else if size =? DIANA_MODE16 then Some reg_AX
  else if size =? 1 then Some reg_AL
  else None.

Definition DianaProcessor_QueryRdxRegister (size : Z) : option Z :=
  if size =? DIANA_MODE64 then Some reg_RDX
  else if size =? DIANA_MODE32 then Some reg_EDX
  else if size =? DIANA_MODE16 then Some reg_DX
  else if size =? 1 then Some reg_DL
  else None.

Definition DianaProcessor_QueryRcxRegister (size : Z) : option Z :=
  if size =? DIANA_MODE64 then Some reg_RCX
  else if size =? DIANA_MODE32 then Some reg_ECX
  else if size =? DIANA_MODE16 then Some reg_CX
  else if size =? 1 then Some reg_CL
  else None.

(** [X & mask] as a C condition. *)
Definition has (X mask : Z) : bool := negb (Z.land X mask =? 0).

Section Access.
Context {T : Type} `{RandomStream T}.

Notation MP A := (M (DianaProcessor T) A).

(** [DI_CHECK] of a helper whose status is an option here. *)
Definition check_option {A} (o : option A) : MP A :=
  match o with Some a => ret a | None => fail DI_ERROR end.

Definition context {A} (f : DianaContext -> A) : MP A := gets (fun s => f (m_context s)).
Definition result {A} (f : DianaParserResult -> A) : MP A := gets (fun s => f (m_result s)).

(** *** Registers *)

Definition Diana_FPU_GetStackTop (s : DianaProcessor T) : Z :=
  Z.land (Z.shiftr (Z.land (statusWord (m_fpu s)) DI_FPU_SW_TOP) 11) 7.

(** The slots of [m_registers] that no registration fills keep the 0xFF of the [memset]. *)
Definition no_register : DianaRegInfo := mkDianaRegInfo (-1) (-1).

Definition register_slot (s : DianaProcessor T) (reg : Z) : DianaRegInfo :=
  nth (Z.to_nat reg) (m_registers s) no_register.

Definition DianaProcessor_FPU_QueryReg (s : DianaProcessor T) (reg : Z) : DianaRegInfo :=
  let index := Z.rem (reg_fpu_ST0 + 16 - reg - Diana_FPU_GetStackTop s - 1) 8 in
  register_slot s (reg_MM_Internal0 + index).

Definition DianaProcessor_FPU_QueryReg_MM (s : DianaProcessor T) (reg : Z) : DianaRegInfo :=
  let index := Z.rem (reg_MM0 + 16 - reg - 1) 8 in
  register_slot s (reg_MM0 + index).

Definition DianaProcessor_QueryReg (s : DianaProcessor T) (reg : Z) : DianaRegInfo :=
  if (reg_fpu_ST0 <=? reg) && (reg <=? reg_fpu_ST7) then DianaProcessor_FPU_QueryReg s reg
  else if (reg_MM0 <=? reg) && (reg <=? reg_MM7) then DianaProcessor_FPU_QueryReg_MM s reg
  else register_slot s reg.

Definition DianaProcessor_GetValueEx (pReg : DianaRegInfo) (size : Z) : MP Z :=
  gets (fun s =>
    if (size =? 1) || (size =? 2) || (size =? 4) || (size =? 8)
    then buf_load (m_pRegistersVector s) (m_offset pReg) size
    else 0).

Definition DianaProcessor_GetValue (pReg : DianaRegInfo) : MP Z :=
  DianaProcessor_GetValueEx pReg (m_size pReg).

(** *** Flags *)

Definition DianaProcessor_QueryFlag (flag : Z) : MP Z :=
  gets (fun s => if has (m_flags s) flag then 1 else 0).
Definition DianaProcessor_SetFlag (flag : Z) : MP unit :=
  modify (with_flags (fun f => Z.lor f flag)).
Definition DianaProcessor_ClearFlag (flag : Z) : MP unit :=
  modify (with_flags (fun f => Z.land f (u64 (Z.lnot flag)))).

Definition GET_FLAG_CF := DianaProcessor_QueryFlag DI_FLAG_CF.
Definition SET_FLAG_CF := DianaProcessor_SetFlag DI_FLAG_CF.
Definition CLEAR_FLAG_CF := DianaProcessor_ClearFlag DI_FLAG_CF.
Definition GET_FLAG_PF := DianaProcessor_QueryFlag DI_FLAG_PF.
Definition SET_FLAG_PF := DianaProcessor_SetFlag DI_FLAG_PF.
Definition CLEAR_FLAG_PF := DianaProcessor_ClearFlag DI_FLAG_PF.
Definition GET_FLAG_AF := DianaProcessor_QueryFlag DI_FLAG_AF.
Definition SET_FLAG_AF := DianaProcessor_SetFlag DI_FLAG_AF.
Definition CLEAR_FLAG_AF := DianaProcessor_ClearFlag DI_FLAG_AF.
Definition GET_FLAG_ZF := DianaProcessor_QueryFlag DI_FLAG_ZF.
Definition SET_FLAG_ZF := DianaProcessor_SetFlag DI_FLAG_ZF.
Definition CLEAR_FLAG_ZF := DianaProcessor_ClearFlag DI_FLAG_ZF.
Definition GET_FLAG_SF := DianaProcessor_QueryFlag DI_FLAG_SF.
Definition SET_FLAG_SF := DianaProcessor_SetFlag DI_FLAG_SF.
Definition CLEAR_FLAG_SF := DianaProcessor_ClearFlag DI_FLAG_SF.
Definition GET_FLAG_DF := DianaProcessor_QueryFlag DI_FLAG_DF.
Definition SET_FLAG_DF := DianaProcessor_SetFlag DI_FLAG_DF.
Definition CLEAR_FLAG_DF := DianaProcessor_ClearFlag DI_FLAG_DF.
Definition SET_FLAG_IF := DianaProcessor_SetFlag DI_FLAG_IF.
Definition CLEAR_FLAG_IF := DianaProcessor_ClearFlag DI_FLAG_IF.
Definition GET_FLAG_OF := DianaProcessor_QueryFlag DI_FLAG_OF.
Definition SET_FLAG_OF := DianaProcessor_SetFlag DI_FLAG_OF.
Definition CLEAR_FLAG_OF := DianaProcessor_ClearFlag DI_FLAG_OF.

Definition set_stateFlags (mask : Z) : MP unit :=
  modify (with_stateFlags (fun f => Z.lor f mask)).
Definition clear_stateFlags (mask : Z) : MP unit :=
  modify (with_stateFlags (fun f => Z.land f (Z.lnot mask))).

(** The macro [UPDATE_PSZ]: PF, SF and ZF of a result, when the handler asked for them. *)
Definition UPDATE_PSZ (X highMask : Z) : MP unit :=
  let! stateFlags := gets m_stateFlags in
  when (has stateFlags DI_PROC_STATE_UPDATE_FLAGS_PSZ)
    (CLEAR_FLAG_PF ;;; CLEAR_FLAG_SF ;;; CLEAR_FLAG_ZF ;;;
     if negb (X =? 0) then
       when (has X highMask) SET_FLAG_SF ;;;
       when (negb (IsParity (u8 X) =? 0)) SET_FLAG_PF
     else SET_FLAG_ZF ;;; SET_FLAG_PF).

Definition DianaProcessor_UpdatePSZ (value opSize : Z) : MP unit :=
  set_stateFlags DI_PROC_STATE_UPDATE_FLAGS_PSZ ;;;
  (if opSize =? 1 then UPDATE_PSZ (u8 value) 0x80
   else if opSize =? 2 then UPDATE_PSZ (u16 value) 0x8000
   else if opSize =? 4 then UPDATE_PSZ (u32 value) 0x80000000
   else if opSize =? 8 then UPDATE_PSZ value 0x8000000000000000
   else ret tt) ;;;
  clear_stateFlags DI_PROC_STATE_UPDATE_FLAGS_PSZ.

Definition store_register (offset size value : Z) : MP unit :=
  modify (with_pRegistersVector (fun v => buf_store v offset size value)).

Definition DianaProcessor_SetValueEx (regId : Z) (pReg : DianaRegInfo) (value size : Z)
    : MP unit :=
  when ((regId =? reg_RIP) || (regId =? reg_IP)) (set_stateFlags DI_PROC_STATE_RIP_CHANGED) ;;;
  if size =? 1 then
    store_register (m_offset pReg) 1 value ;;; UPDATE_PSZ (u8 value) 0x80
  else if size =? 2 then
    store_register (m_offset pReg) 2 value ;;; UPDATE_PSZ (u16 value) 0x8000
  else if size =? 4 then
    let! amd64 := context iAMD64Mode in
    (if negb (amd64 =? 0) &&
        (((reg_EAX <=? regId) && (regId <=? reg_EDI)) ||
         ((reg_R8D <=? regId) && (regId <=? reg_R15D)))
     then store_register (m_offset pReg) 8 (u32 value)
     else store_register (m_offset pReg) 4 value) ;;;
    UPDATE_PSZ (u32 value) 0x80000000
  else if size =? 8 then
    store_register (m_offset pReg) 8 value ;;; UPDATE_PSZ (u64 value) 0x8000000000000000
  else ret tt.

Definition DianaProcessor_SetValue (regId : Z) (pReg : DianaRegInfo) (value : Z) : MP unit :=
  DianaProcessor_SetValueEx regId pReg value (m_size pReg).

(** The macros [GET_REG_xx], [SET_REG_xx(Y)], [GET_REG_xx2(Size)] and [SET_REG_xx2(Y, Size)]. *)
Definition GET_REG (reg : Z) : MP Z :=
  let! pReg := gets (fun s => DianaProcessor_QueryReg s reg) in DianaProcessor_GetValue pReg.
Definition SET_REG (reg Y : Z) : MP unit :=
  let! pReg := gets (fun s => DianaProcessor_QueryReg s reg) in
  DianaProcessor_SetValue reg pReg Y.
Definition GET_REG2 (reg Size : Z) : MP Z :=
  let! pReg := gets (fun s => DianaProcessor_QueryReg s reg) in
  DianaProcessor_GetValueEx pReg Size.
Definition SET_REG2 (reg Y Size : Z) : MP unit :=
  let! pReg := gets (fun s => DianaProcessor_QueryReg s reg) in
  DianaProcessor_SetValueEx reg pReg Y Size.

(** The macro [DI_UPDATE_FLAGS_PSZ(X)]; a failing [X] leaves the state bit to [Call]. *)
Definition DI_UPDATE_FLAGS_PSZ (X : MP unit) : MP unit :=
  set_stateFlags DI_PROC_STATE_UPDATE_FLAGS_PSZ ;;;
  modify (with_stateFlagsToRemove (fun f => Z.lor f DI_PROC_STATE_UPDATE_FLAGS_PSZ)) ;;;
  X ;;;
  clear_stateFlags DI_PROC_STATE_UPDATE_FLAGS_PSZ.

(** *** Memory *)

(** [DianaProcessor_GetMemValue]: the status and [*pResult], which is cleared first and then
    holds whatever bytes the stream delivered, also when the call fails. *)
Definition DianaProcessor_GetMemValue_out (selector offset size segReg : Z) : MP (Z * Z) :=
  fun s =>
    match pReadFnc (m_pMemoryStream s) selector offset size segReg with
    | (status, bs, t) =>
        (Ok (if negb (status =? DI_SUCCESS) then status
             else if negb (Z.of_nat (length bs) =? size) then DI_ERROR
             else status, le_decode bs),
         with_pMemoryStream (fun _ => t) s)
    end.

(** [DI_CHECK(DianaProcessor_GetMemValue(..., &local, ...))] *)
Definition DianaProcessor_GetMemValue (selector offset size segReg : Z) : MP Z :=
  let! (status, v) := DianaProcessor_GetMemValue_out selector offset size segReg in
  if status =? DI_SUCCESS then ret v else fail status.

Definition DianaProcessor_SetMemValue (selector offset size v segReg : Z) : MP unit :=
  fun s =>
    match pWriteFnc (m_pMemoryStream s) selector offset (le_encode (Z.to_nat size) v) segReg with
    | (status, wrote, t) =>
        (if negb (status =? DI_SUCCESS) then Err status
         else if negb (wrote =? size) then Err DI_ERROR
         else Ok tt,
         with_pMemoryStream (fun _ => t) s)
    end.

(** *** Addresses *)

Definition DianaProcessor_CalcIndex (pIndex : DianaRmIndex) : MP (Z * Z) :=
  let! r := (if negb (reg pIndex =? reg_none) then GET_REG (reg pIndex) else ret 0) in
  let! indexedReg :=
    (if negb (indexed_reg pIndex =? reg_none) then GET_REG (indexed_reg pIndex) else ret 0) in
  let! amd64 := context iAMD64Mode in
  let! fullSize := result iFullCmdSize in
  let r := if negb (amd64 =? 0) && (reg pIndex =? reg_RIP) then u64 (r + fullSize) else r in
  let address := u64 (r + indexedReg * index pIndex + dispValue pIndex) in
  let! addressSize := context iCurrentCmd_addressSize in
  let! address :=
    (if addressSize =? 8 then ret address
     else if addressSize =? 4 then ret (Z.land address 0xFFFFFFFF)
     else fail DI_ERROR) in
  let! selector := GET_REG (seg_reg pIndex) in
  ret (selector, address).

(** *** Operands *)

Definition Diana_ProcessorSetGetOperand_register (recognizedRegister pResult : Z) (bSet : bool)
    : MP Z :=
  if bSet then
    SET_REG recognizedRegister pResult ;;;
    let! amd64 := context iAMD64Mode in
    match DianaProcessor_Query64RegisterFor32 recognizedRegister with
    | Some reg64 =>
        when (negb (amd64 =? 0))
          (let! pReg64 := gets (fun s => DianaProcessor_QueryReg s reg64) in
           store_register (m_offset pReg64 + 4) 4 0)
    | None => ret tt
    end ;;;
    ret pResult
  else GET_REG recognizedRegister.

Definition Diana_ProcessorSetGetOperand_index (usedSize pResult : Z) (bSet : bool)
    (pRmIndex : DianaRmIndex) : MP Z :=
  let! (selector, address) := DianaProcessor_CalcIndex pRmIndex in
  if bSet then
    let! stateFlags := gets m_stateFlags in
    when (has stateFlags DI_PROC_STATE_UPDATE_FLAGS_PSZ)
      (DianaProcessor_UpdatePSZ pResult usedSize) ;;;
    DianaProcessor_SetMemValue selector address usedSize pResult (seg_reg pRmIndex) ;;;
    ret pResult
  else DianaProcessor_GetMemValue selector address usedSize (seg_reg pRmIndex).

Definition Diana_ProcessorSetGetOperand_imm (imm pResult : Z) (bSet : bool) : MP Z :=
  if bSet then fail DI_ERROR else ret imm.

(** Gives [*pResult] and [*pSizeOfOperand]. *)
Definition DianaProcessor_SetGetOperand (opNumber pResult : Z) (bSet : bool) : MP (Z * Z) :=
  let! r := result (fun r => r) in
  let pLinkedOp := linked_op r opNumber in
  if (iLinkedOpCount r <=? opNumber) || (opNumber <? 0) then fail DI_ERROR
  else
    let! v :=
      match value pLinkedOp with
      | diana_register recognizedRegister =>
          Diana_ProcessorSetGetOperand_register recognizedRegister pResult bSet
      | diana_index rmIndex =>
          Diana_ProcessorSetGetOperand_index (usedSize pLinkedOp) pResult bSet rmIndex
      | diana_imm imm => Diana_ProcessorSetGetOperand_imm imm pResult bSet
      | diana_memory m_index =>
          Diana_ProcessorSetGetOperand_index (usedSize pLinkedOp) pResult bSet m_index
      | _ => fail DI_ERROR
      end in
    ret (v, usedSize pLinkedOp).

Definition DianaProcessor_GetOperandSize (opNumber : Z) : MP Z :=
  let! r := result (fun r => r) in
  if (iLinkedOpCount r <=? opNumber) || (opNumber <? 0) then fail DI_ERROR
  else ret (usedSize (linked_op r opNumber)).

(** The macros [DI_MEM_GET(variable, number)] and [DI_MEM_SET(variable, number)]. *)
Definition DI_MEM_GET (number : Z) : MP (Z * Z) := DianaProcessor_SetGetOperand number 0 false.
Definition DI_MEM_SET (number v : Z) : MP unit :=
  DianaProcessor_SetGetOperand number v true ;;; ret tt.

Definition DI_MEM_GET_DEST := DI_MEM_GET 0.
Definition DI_MEM_SET_DEST := DI_MEM_SET 0.
Definition DI_MEM_GET_SRC := DI_MEM_GET 1.
Definition DI_MEM_SET_SRC := DI_MEM_SET 1.
Definition DI_MEM_GET_SRC2 := DI_MEM_GET 2.

Definition DI_SIGN_EXTEND (v size newSize : Z) : MP Z :=
  check_option (DianaProcessor_SignExtend v size newSize).

(** *** Carry, overflow and auxiliary flags of additions and subtractions *)

Definition set_OF_same (oldValue newValue operand opSize : Z) : MP unit :=
  let mask := DianaProcessor_GetSignMask opSize in
  when (Z.land oldValue mask =? Z.land operand mask)
    (when (negb (Z.land oldValue mask =? Z.land newValue mask)) SET_FLAG_OF).

Definition set_OF_differ (oldValue newValue operand opSize : Z) : MP unit :=
  let mask := DianaProcessor_GetSignMask opSize in
  when (negb (Z.land oldValue mask =? Z.land operand mask))
    (when (negb (Z.land oldValue mask =? Z.land newValue mask)) SET_FLAG_OF).

Definition DianaProcessor_SetCOA_Add (oldValue newValue operand opSize flags : Z) : MP unit :=
  when (has flags DI_FLAG_OF) (set_OF_same oldValue newValue operand opSize) ;;;
  when (has flags DI_FLAG_AF)
    (when (Z.land (u32 newValue) 0xF <? Z.land (u32 oldValue) 0xF) SET_FLAG_AF) ;;;
  when (has flags DI_FLAG_CF)
    (when (DianaProcessor_CutValue newValue opSize <? oldValue) SET_FLAG_CF).

Definition DianaProcessor_SetCOA_AddCF (oldValue newValue operand opSize flags : Z) : MP unit :=
  when (has flags DI_FLAG_OF) (set_OF_same oldValue newValue operand opSize) ;;;
  when (has flags DI_FLAG_AF)
    (when (Z.land (u32 newValue) 0xF <=? Z.land (u32 oldValue) 0xF) SET_FLAG_AF) ;;;
  when (has flags DI_FLAG_CF)
    (when (DianaProcessor_CutValue newValue opSize <=? oldValue) SET_FLAG_CF).

Definition DianaProcessor_SetCOA_Sub (oldValue newValue operand opSize flags : Z) : MP unit :=
  when (has flags DI_FLAG_OF) (set_OF_differ oldValue newValue operand opSize) ;;;
  when (has flags DI_FLAG_AF)
    (when (Z.land (u32 oldValue) 0xF <? Z.land (u32 newValue) 0xF) SET_FLAG_AF) ;;;
  when (has flags DI_FLAG_CF)
    (when (oldValue <? DianaProcessor_CutValue newValue opSize) SET_FLAG_CF).

Definition DianaProcessor_SetCOA_SubCF (oldValue newValue operand opSize flags : Z) : MP unit :=
  when (has flags DI_FLAG_OF) (set_OF_differ oldValue newValue operand opSize) ;;;
  when (has flags DI_FLAG_AF)
    (when (Z.land (u32 oldValue) 0xF <=? Z.land (u32 newValue) 0xF) SET_FLAG_AF) ;;;
  when (has flags DI_FLAG_CF)
    (when (oldValue <=? DianaProcessor_CutValue newValue opSize) SET_FLAG_CF).

(** The macros [DI_START_UPDATE_COA_FLAGS] and [DI_START_UPDATE_OA_FLAGS] clear the flags; the
    old destination value is a binding of the handler. *)
Definition DI_START_UPDATE_COA_FLAGS : MP unit := CLEAR_FLAG_AF ;;; CLEAR_FLAG_OF ;;; CLEAR_FLAG_CF.
Definition DI_START_UPDATE_OA_FLAGS : MP unit := CLEAR_FLAG_AF ;;; CLEAR_FLAG_OF.

Definition COA : Z := Z.lor (Z.lor DI_FLAG_CF DI_FLAG_OF) DI_FLAG_AF.
Definition OA : Z := Z.lor DI_FLAG_OF DI_FLAG_AF.

(** *** Address operands *)

Definition Diana_QueryAddress (argument : Z) : MP (Z * Z * Z) :=
  let! r := result (fun r => r) in
  if iLinkedOpCount r <=? argument then fail DI_ERROR
  else
    match value (linked_op r argument) with
    | diana_index pIndex | diana_memory pIndex =>
        let! (selector, address) := DianaProcessor_CalcIndex pIndex in
        ret (selector, address, seg_reg pIndex)
    | _ => fail DI_ERROR
    end.

Definition Diana_ProcessorGetOperand_index_ex (usedSize : Z) (pRmIndex : DianaRmIndex)
    : MP (Z * Z) :=
  let! (selector, address) := DianaProcessor_CalcIndex pRmIndex in
  let! v := DianaProcessor_GetMemValue selector address usedSize (seg_reg pRmIndex) in
  ret (address, v).

Definition Diana_ProcessorGetOperand_index_ex2 (usedSize : Z) (pRmIndex : DianaRmIndex)
    : MP (Z * Z * Z) :=
  let! (selector, address) := DianaProcessor_CalcIndex pRmIndex in
  let! v := DianaProcessor_GetMemValue selector address usedSize (seg_reg pRmIndex) in
  ret (address, v, selector).

Definition DianaProcessor_CmdUsesNormalRep : MP unit :=
  set_stateFlags DI_PROC_STATE_CMD_USES_NORMAL_REP.

Definition DianaProcessor_SetOptions (optionsToSet optionsToRemove : Z) : MP unit :=
  modify (with_options (fun o => Z.land (Z.lor o optionsToSet) (Z.lnot optionsToRemove))).

Definition DianaProcessor_SetResetDefaultFlags : MP unit :=
  DianaProcessor_SetFlag DI_FLAG_1 ;;;
  DianaProcessor_SetFlag DI_FLAG_ID ;;;
  DianaProcessor_SetFlag DI_FLAG_IF ;;;
  DianaProcessor_ClearFlag DI_FLAG_3 ;;;
  DianaProcessor_ClearFlag DI_FLAG_5 ;;;
  DianaProcessor_ClearFlag DI_FLAG_15.
End Access.

Notation MP T A := (M (DianaProcessor T) A).
