(* ===== verification/CmdInternal.v ===== *)
(** diana_processor_cmd_internal.c: 128-bit products and quotients, the stack, zero extension of
    32-bit results, relative jumps, the string instructions' registers, and returns. *)

From Stdlib Require Import ZArith Lia List Bool.
Import ListNotations.
From S2P Require Import Prelude Words Status Registers ProcStreams Processor.
Local Open Scope Z_scope.
Local Open Scope diana_scope.

(** ** 128-bit arithmetic: a pair [(low, high)] of 64-bit words *)

Definition add128 (plow phigh a b : Z) : Z * Z :=
  let plow := u64 (plow + a) in
  let phigh := if plow <? a then u64 (phigh + 1) else phigh in
  (plow, u64 (phigh + b)).

Definition neg128 (plow phigh : Z) : Z * Z :=
  let plow := u64 (Z.lnot plow) in
  let phigh := u64 (Z.lnot phigh) in
  add128 plow phigh 1 0.

Definition mul64 (a b : Z) : Z * Z :=
  let a0 := u32 a in
  let a1 := u32 (Z.shiftr a 32) in
  let b0 := u32 b in
  let b1 := u32 (Z.shiftr b 32) in
  let v := u64 (a0 * b0) in
  let (plow, phigh) := (v, 0) in
  let v := u64 (a0 * b1) in
  let (plow, phigh) := add128 plow phigh (u64 (Z.shiftl v 32)) (Z.shiftr v 32) in
  let v := u64 (a1 * b0) in
  let (plow, phigh) := add128 plow phigh (u64 (Z.shiftl v 32)) (Z.shiftr v 32) in
  let v := u64 (a1 * b1) in
  (plow, u64 (phigh + v)).

(** [a] and [b] are signed.  [-a] of the least value wraps around, as two's complement does. *)
Definition imul64 (a b : Z) : Z * Z :=
  let sa := a <? 0 in
  let a := if sa then s64 (- a) else a in
  let sb := b <? 0 in
  let b := if sb then s64 (- b) else b in
  let (plow, phigh) := mul64 (u64 a) (u64 b) in
  if xorb sa sb then neg128 plow phigh else (plow, phigh).

(** The loop of [div64]: one quotient bit per iteration, the remainder in [a1]. *)
Fixpoint div64_loop (n : nat) (a0 a1 b : Z) : Z * Z :=
  match n with
  | O => (a0, a1)
  | S n =>
      let ab := Z.shiftr a1 63 in
      let a1 := Z.lor (u64 (Z.shiftl a1 1)) (Z.shiftr a0 63) in
      let (a1, qb) :=
        if negb (ab =? 0) || (b <=? a1) then (u64 (a1 - b), 1) else (a1, 0) in
      div64_loop n (Z.lor (u64 (Z.shiftl a0 1)) qb) a1 b
  end.

(** The quotient and the remainder of [phigh:plow] by [b]; [Err 1] is the return of 1 on
    overflow, [Crash] the division by zero of the host. *)
Definition div64 (plow phigh b : Z) : outcome (Z * Z) :=
  if phigh =? 0 then
    if b =? 0 then Crash else Ok (plow / b, plow mod b)
  else if b <=? phigh then Err 1
  else Ok (div64_loop 64 plow phigh b).

(** [b] is signed. *)
Definition idiv64 (plow phigh b : Z) : outcome (Z * Z) :=
  let sa := s64 phigh <? 0 in
  let (plow, phigh) := if sa then neg128 plow phigh else (plow, phigh) in
  let sb := b <? 0 in
  let b := if sb then s64 (- b) else b in
  match div64 plow phigh (u64 b) with
  | Ok (plow, phigh) =>
      let rem := if sa then u64 (- phigh) else phigh in
      if xorb sa sb then
        if 0x8000000000000000 <? plow then Err 1 else Ok (u64 (- plow), rem)
      else
        if 0x8000000000000000 <=? plow then Err 1 else Ok (plow, rem)
  | Err c => Err c
  | Crash => Crash
  end.

Section Internal.
Context {T : Type} `{RandomStream T}.

(** ** The stack *)

Definition diana_internal_push (v : Z) : MP T unit :=
  let! addressSize := context iCurrentCmd_addressSize in
  let! opsize := context iCurrentCmd_opsize in
  let! rsp := GET_REG2 reg_RSP addressSize in
  if rsp <? opsize then fail DI_ERROR
  else
    let rsp := rsp - opsize in
    let! ss := GET_REG reg_SS in
    DianaProcessor_SetMemValue ss rsp opsize v reg_SS ;;;
    SET_REG2 reg_RSP rsp addressSize.

Definition diana_internal_pop : MP T Z :=
  let! addressSize := context iCurrentCmd_addressSize in
  let! opsize := context iCurrentCmd_opsize in
  let! rsp := GET_REG2 reg_RSP addressSize in
  let! ss := GET_REG reg_SS in
  let! v := DianaProcessor_GetMemValue ss rsp opsize reg_SS in
  SET_REG2 reg_RSP (u64 (rsp + opsize)) addressSize ;;;
  ret v.

(** ** Zero and sign extension of results in 64-bit mode; give [*pDest] *)

Definition is_register (v : DianaOperandValue) : option Z :=
  match v with diana_register r => Some r | _ => None end.

Definition Di_CheckZeroExtends_operand (operand : Z) (dest src_size : Z) : MP T Z :=
  let! amd64 := context iAMD64Mode in
  let! opsize := context iCurrentCmd_opsize in
  let! r := result (fun r => r) in
  if amd64 =? 0 then ret dest
  else if src_size =? 8 then ret dest
  else if opsize =? 8 then
    if has (pInfo_flags r) DI_FLAG_CMD_AMD64_SIGN_EXTENDS
    then DI_SIGN_EXTEND dest src_size 8
    else ret dest
  else if opsize =? 4 then
    match is_register (value (linked_op r operand)) with
    | Some recognizedRegister =>
        match DianaProcessor_Query64RegisterFor32 recognizedRegister with
        | Some reg64 => SET_REG reg64 0 ;;; ret dest
        | None => ret dest
        end
    | None => ret dest
    end
  else ret dest.

Definition Di_CheckZeroExtends (dest src_size : Z) : MP T Z :=
  Di_CheckZeroExtends_operand 0 dest src_size.

(** The second operand decides ([xchg [mem], r32]). *)
Definition Di_CheckZeroExtends2 (dest src_size : Z) : MP T Z :=
  Di_CheckZeroExtends_operand 1 dest src_size.

Definition Di_ClearUpperHalf : MP T unit :=
  let! amd64 := context iAMD64Mode in
  let! opsize := context iCurrentCmd_opsize in
  let! r := result (fun r => r) in
  match is_register (value (linked_op r 0)) with
  | Some recognizedRegister =>
      if (amd64 =? 0) || negb (opsize =? 4) || (iLinkedOpCount r =? 0) then ret tt
      else
        match DianaProcessor_Query64RegisterFor32 recognizedRegister with
        | Some reg64 =>
            let! v := GET_REG reg64 in SET_REG reg64 (Z.land v 0xFFFFFFFF)
        | None => ret tt
        end
  | None => ret tt
  end.

(** ** Relative jumps *)

Definition Diana_Call_jcc (opCount relOp : Z) : MP T unit :=
  let! r := result (fun r => r) in
  if negb (iLinkedOpCount r =? opCount) then fail DI_ERROR
  else
    match value (linked_op r relOp) with
    | diana_rel rel =>
        let! opsize := context iCurrentCmd_opsize in
        let! rip := GET_REG2 reg_RIP opsize in
        let! mainAddressSize := context iMainMode_addressSize in
        SET_REG2 reg_RIP (u64 (rip + rel + iFullCmdSize r)) mainAddressSize
    | _ => fail DI_ERROR
    end.

(** ** String instructions *)

Definition zero_index : DianaRmIndex := mkDianaRmIndex 0 0 0 0 0 0.
Definition index_of (segReg r : Z) : DianaRmIndex := mkDianaRmIndex segReg r 0 0 0 0.

(** [bSrc] says that [pSrcIndex] is not null; gives the two indexes. *)
Definition Di_PrepareSIDI_regs (bSrc : bool) : MP T (DianaRmIndex * DianaRmIndex) :=
  let! r := result (fun r => r) in
  let! addressSize := context iCurrentCmd_addressSize in
  if negb (iLinkedOpCount r =? if bSrc then 2 else 1) then fail DI_ERROR
  else if addressSize =? DIANA_MODE64 then
    ret (if bSrc then index_of reg_DS reg_RSI else zero_index, index_of reg_ES reg_RDI)
  else if addressSize =? DIANA_MODE32 then
    ret (if bSrc then index_of reg_DS reg_ESI else zero_index, index_of reg_ES reg_EDI)
  else if addressSize =? DIANA_MODE16 then
    ret (if bSrc then index_of reg_DS reg_SI else zero_index, index_of reg_ES reg_DI)
  else fail DI_ERROR.

(** The new [*pSrcRegAddress] and [*pDestRegAddress]. *)
Definition Di_UpdateSIDI (srcRegAddress destRegAddress : Z) : MP T (Z * Z) :=
  let! df := GET_FLAG_DF in
  let! usedSize := result (fun r => usedSize (linked_op r 0)) in
  if negb (df =? 0) then ret (u64 (srcRegAddress - usedSize), u64 (destRegAddress - usedSize))
  else ret (u64 (srcRegAddress + usedSize), u64 (destRegAddress + usedSize)).

(** ** Returns *)

Definition Diana_Call_internal_ret (bPopCS : bool) : MP T unit :=
  let! r := result (fun r => r) in
  let! dropBytes :=
    (if iLinkedOpCount r =? 1 then
       DI_MEM_GET_DEST ;;;
       match value (linked_op r 0) with
       | diana_imm imm => ret imm
       | _ => fail DI_ERROR
       end
     else if negb (iLinkedOpCount r =? 0) then fail DI_ERROR
     else ret 0) in
  let! opsize := context iCurrentCmd_opsize in
  let! rsp := GET_REG reg_RSP in
  let! ss := GET_REG reg_SS in
  let! newRIP := DianaProcessor_GetMemValue ss rsp opsize reg_SS in
  let rsp := u64 (rsp + opsize) in
  let! (newCs, rsp) :=
    (if bPopCS then
       let! ss := GET_REG reg_SS in
       let! newCs := DianaProcessor_GetMemValue ss rsp opsize reg_SS in
       ret (newCs, u64 (rsp + opsize))
     else ret (0, rsp)) in
  let rsp := u64 (rsp + dropBytes) in
  SET_REG reg_RSP rsp ;;;
  SET_REG reg_RIP newRIP ;;;
  when bPopCS (SET_REG reg_CS newCs).
End Internal.
