(* ===== verification/CmdArith.v ===== *)
(** Additions, subtractions and comparisons: the handlers of diana_processor_cmd_a.c (except
    [and]), [cmp], [cmpxchg], [cbw] and [cwd] of diana_processor_cmd_c.c, [daa], [das] and [dec] of
    diana_processor_cmd_d.c, [neg] of diana_processor_cmd_n.c, [sub] and [sbb] of
    diana_processor_cmd_s2.c, [inc] and [xadd] of diana_processor_commands.c. *)

From Stdlib Require Import ZArith Lia List Bool.
Import ListNotations.
From S2P Require Import Prelude Words Status Registers ProcStreams Processor CmdInternal.
Local Open Scope Z_scope.
Local Open Scope diana_scope.

Section Arith.
Context {T : Type} `{RandomStream T}.

(** ** Binary additions and subtractions *)

Definition Diana_Call_add : MP T unit :=
  let! (dest, dest_size) := DI_MEM_GET_DEST in
  let! (src, src_size) := DI_MEM_GET_SRC in
  let! src := DI_SIGN_EXTEND src src_size dest_size in
  DI_START_UPDATE_COA_FLAGS ;;;
  let oldDestValue := dest in
  let dest := u64 (dest + src) in
  let! dest := Di_CheckZeroExtends dest src_size in
  DianaProcessor_SetCOA_Add oldDestValue dest src dest_size COA ;;;
  DI_UPDATE_FLAGS_PSZ (DI_MEM_SET_DEST dest).

Definition Diana_Call_adc : MP T unit :=
  let! (dest, dest_size) := DI_MEM_GET_DEST in
  let! (src, src_size) := DI_MEM_GET_SRC in
  let! src := DI_SIGN_EXTEND src src_size dest_size in
  let! cfValue := GET_FLAG_CF in
  DI_START_UPDATE_COA_FLAGS ;;;
  let oldDestValue := dest in
  let dest := u64 (dest + u64 (src + cfValue)) in
  let! dest := Di_CheckZeroExtends dest src_size in
  (if cfValue =? 0
   then DianaProcessor_SetCOA_Add oldDestValue dest src dest_size COA
   else DianaProcessor_SetCOA_AddCF oldDestValue dest src dest_size COA) ;;;
  DI_UPDATE_FLAGS_PSZ (DI_MEM_SET_DEST dest).

Definition Diana_Call_sub : MP T unit :=
  let! (dest, dest_size) := DI_MEM_GET_DEST in
  let! (src, src_size) := DI_MEM_GET_SRC in
  let! src := DI_SIGN_EXTEND src src_size dest_size in
  DI_START_UPDATE_COA_FLAGS ;;;
  let oldDestValue := dest in
  let dest := u64 (dest - src) in
  let! dest := Di_CheckZeroExtends dest src_size in
  DianaProcessor_SetCOA_Sub oldDestValue dest src dest_size COA ;;;
  DI_UPDATE_FLAGS_PSZ (DI_MEM_SET_DEST dest).

Definition Diana_Call_sbb : MP T unit :=
  let! (dest, dest_size) := DI_MEM_GET_DEST in
  let! (src, src_size) := DI_MEM_GET_SRC in
  let! src := DI_SIGN_EXTEND src src_size dest_size in
  let! cfValue := GET_FLAG_CF in
  DI_START_UPDATE_COA_FLAGS ;;;
  let oldDestValue := dest in
  let dest := u64 (dest - u64 (src + cfValue)) in
  let! dest := Di_CheckZeroExtends dest src_size in
  (if cfValue =? 0
   then DianaProcessor_SetCOA_Sub oldDestValue dest src dest_size COA
   else DianaProcessor_SetCOA_SubCF oldDestValue dest src dest_size COA) ;;;
  DI_UPDATE_FLAGS_PSZ (DI_MEM_SET_DEST dest).

Definition Diana_Call_cmp : MP T unit :=
  let! (dest, dest_size) := DI_MEM_GET_DEST in
  let! (src, src_size) := DI_MEM_GET_SRC in
  let! src := DI_SIGN_EXTEND src src_size dest_size in
  DI_START_UPDATE_COA_FLAGS ;;;
  let oldDestValue := dest in
  let dest := u64 (dest - src) in
  DianaProcessor_SetCOA_Sub oldDestValue dest src dest_size COA ;;;
  let! usedSize := result (fun r => usedSize (linked_op r 0)) in
  DianaProcessor_UpdatePSZ dest usedSize.

Definition Diana_Call_neg : MP T unit :=
  let! (src, src_size) := DI_MEM_GET_DEST in
  let dest_size := src_size in
  let dest := 0 in
  DI_START_UPDATE_OA_FLAGS ;;;
  let oldDestValue := dest in
  let dest := u64 (dest - src) in
  DianaProcessor_SetCOA_Sub oldDestValue dest src dest_size OA ;;;
  DI_UPDATE_FLAGS_PSZ (DI_MEM_SET_DEST dest) ;;;
  CLEAR_FLAG_CF ;;;
  when (negb (src =? 0)) SET_FLAG_CF.

Definition Diana_Call_inc : MP T unit :=
  let! (dest, dest_size) := DI_MEM_GET_DEST in
  let src := 1 in
  DI_START_UPDATE_OA_FLAGS ;;;
  let oldDestValue := dest in
  let dest := u64 (dest + src) in
  DianaProcessor_SetCOA_Add oldDestValue dest src dest_size OA ;;;
  DI_UPDATE_FLAGS_PSZ (DI_MEM_SET_DEST dest).

Definition Diana_Call_dec : MP T unit :=
  let! (dest, dest_size) := DI_MEM_GET_DEST in
  let src := 1 in
  DI_START_UPDATE_OA_FLAGS ;;;
  let oldDestValue := dest in
  let dest := u64 (dest - src) in
  DianaProcessor_SetCOA_Sub oldDestValue dest src dest_size OA ;;;
  DI_UPDATE_FLAGS_PSZ (DI_MEM_SET_DEST dest).

Definition Diana_Call_xadd : MP T unit :=
  let! (dest, dest_size) := DI_MEM_GET_DEST in
  let! (src, src_size) := DI_MEM_GET_SRC in
  let temp := dest in
  let addend := src in
  DI_START_UPDATE_COA_FLAGS ;;;
  let oldDestValue := dest in
  let dest := u64 (dest + src) in
  let src := temp in
  let! dest := Di_CheckZeroExtends dest src_size in
  let! src := Di_CheckZeroExtends2 src dest_size in
  DianaProcessor_SetCOA_Add oldDestValue dest addend dest_size COA ;;;
  DI_MEM_SET_SRC src ;;;
  DI_UPDATE_FLAGS_PSZ (DI_MEM_SET_DEST dest).

Definition Diana_Call_cmpxchg : MP T unit :=
  let! (dest, dest_size) := DI_MEM_GET_DEST in
  let! (src, src_size) := DI_MEM_GET_SRC in
  let! usedReg := check_option (DianaProcessor_QueryRaxRegister src_size) in
  let! usedRegValue := GET_REG usedReg in
  let usedRegValue_saved := usedRegValue in
  let usedRegValue_size := dest_size in
  DI_START_UPDATE_COA_FLAGS ;;;
  let oldDestValue := usedRegValue in
  let usedRegValue := u64 (usedRegValue - dest) in
  DianaProcessor_SetCOA_Sub oldDestValue usedRegValue dest usedRegValue_size COA ;;;
  DianaProcessor_UpdatePSZ usedRegValue dest_size ;;;
  if usedRegValue_saved =? dest then
    let! dest := Di_CheckZeroExtends src src_size in
    DI_MEM_SET_DEST dest ;;;
    SET_FLAG_ZF
  else
    SET_REG usedReg dest ;;;
    CLEAR_FLAG_ZF.

(** [Diana_Call_cmpxchg8b_impl] and [Diana_Call_cmpxchg16b_impl] *)

Definition Diana_Call_cmpxchg8b_impl : MP T unit :=
  let! r := result (fun r => r) in
  match value (linked_op r 0) with
  | diana_index rmIndex =>
      if negb (iLinkedOpCount r =? 1) then fail DI_ERROR
      else
        let! (selector, address) := DianaProcessor_CalcIndex rmIndex in
        let! mem := DianaProcessor_GetMemValue selector address 8 (seg_reg rmIndex) in
        let mem_l := u32 mem in
        let mem_h := Z.shiftr mem 32 in
        let! eax := GET_REG reg_EAX in
        let! edx := GET_REG reg_EDX in
        if negb (mem_l =? eax) || negb (mem_h =? edx) then
          CLEAR_FLAG_ZF ;;;
          SET_REG reg_EDX mem_h ;;;
          SET_REG reg_EAX mem_l
        else
          SET_FLAG_ZF ;;;
          let! ebx := GET_REG reg_EBX in
          let! ecx := GET_REG reg_ECX in
          let mem := u32 ebx + 0x100000000 * u32 ecx in
          DianaProcessor_SetMemValue selector address 8 mem (seg_reg rmIndex)
  | _ => fail DI_ERROR
  end.

Definition Diana_Call_cmpxchg16b_impl : MP T unit :=
  let! r := result (fun r => r) in
  match value (linked_op r 0) with
  | diana_index rmIndex =>
      if negb (iLinkedOpCount r =? 1) then fail DI_ERROR
      else
        let! (selector, address) := DianaProcessor_CalcIndex rmIndex in
        let! low := DianaProcessor_GetMemValue selector address 8 (seg_reg rmIndex) in
        let! high := DianaProcessor_GetMemValue selector (u64 (address + 8)) 8 (seg_reg rmIndex) in
        let! rax := GET_REG reg_RAX in
        let! rdx := GET_REG reg_RDX in
        if negb (low =? rax) || negb (high =? rdx) then
          CLEAR_FLAG_ZF ;;;
          SET_REG reg_RDX high ;;;
          SET_REG reg_RAX low
        else
          SET_FLAG_ZF ;;;
          let! low := GET_REG reg_RBX in
          let! high := GET_REG reg_RCX in
          DianaProcessor_SetMemValue selector address 8 low (seg_reg rmIndex) ;;;
          DianaProcessor_SetMemValue selector (u64 (address + 8)) 8 high (seg_reg rmIndex)
  | _ => fail DI_ERROR
  end.

Definition Diana_Call_cmpxchg16b : MP T unit :=
  let! opsize := context iCurrentCmd_opsize in
  if negb (opsize =? DIANA_MODE64) then Diana_Call_cmpxchg8b_impl
  else Diana_Call_cmpxchg16b_impl.

(** ** Sign extension of the accumulator *)

Definition Diana_Call_cbw : MP T unit :=
  let! opsize := context iCurrentCmd_opsize in
  if opsize =? DIANA_MODE64 then
    let! r := GET_REG reg_EAX in
    let! r := check_option (DianaProcessor_SignExtend r 4 8) in
    SET_REG reg_RAX r
  else if opsize =? DIANA_MODE32 then
    let! r := GET_REG reg_AX in
    let! r := check_option (DianaProcessor_SignExtend r 2 4) in
    SET_REG reg_RAX r
  else if opsize =? DIANA_MODE16 then
    let! r := GET_REG reg_AL in
    let! r := check_option (DianaProcessor_SignExtend r 1 2) in
    SET_REG reg_AX r
  else fail DI_ERROR.

Definition Diana_Call_cwd : MP T unit :=
  let! opsize := context iCurrentCmd_opsize in
  let! amd64 := context iAMD64Mode in
  let! usedReg := check_option (DianaProcessor_QueryRaxRegister opsize) in
  let! usedDestReg := check_option (DianaProcessor_QueryRdxRegister opsize) in
  let! usedRegValue := GET_REG usedReg in
  if has usedRegValue (DianaProcessor_GetSignMask opsize) then
    if negb (amd64 =? 0) && (opsize =? 4) then SET_REG reg_RDX 0x00000000FFFFFFFF
    else SET_REG usedDestReg 0xFFFFFFFFFFFFFFFF
  else SET_REG usedDestReg 0.

(** ** Decimal adjustments *)

Definition Diana_Call_aaa : MP T unit :=
  let! al := GET_REG reg_AL in
  let! af := GET_FLAG_AF in
  (if (9 <? Z.land al 0x0F) || negb (af =? 0) then
     let! ax := GET_REG reg_AX in
     SET_REG reg_AX (u64 (ax + 6)) ;;;
     let! ah := GET_REG reg_AH in
     SET_REG reg_AH (u64 (ah + 1)) ;;;
     SET_FLAG_AF ;;;
     SET_FLAG_CF
   else
     CLEAR_FLAG_AF ;;;
     CLEAR_FLAG_CF) ;;;
  let! al := GET_REG reg_AL in
  SET_REG reg_AL (Z.land al 0x0F) ;;;
  let! ax := GET_REG reg_AX in
  DianaProcessor_UpdatePSZ ax 2 ;;;
  CLEAR_FLAG_OF ;;;
  CLEAR_FLAG_SF.

Definition Diana_Call_aas : MP T unit :=
  let! al := GET_REG reg_AL in
  let! af := GET_FLAG_AF in
  (if (9 <? Z.land al 0xF) || negb (af =? 0) then
     let! ax := GET_REG reg_AX in
     SET_REG reg_AX (u64 (ax - 6)) ;;;
     let! ah := GET_REG reg_AH in
     SET_REG reg_AH (u64 (ah - 1)) ;;;
     SET_FLAG_AF ;;;
     SET_FLAG_CF
   else
     CLEAR_FLAG_AF ;;;
     CLEAR_FLAG_CF) ;;;
  let! al := GET_REG reg_AL in
  SET_REG reg_AL (Z.land al 0x0F) ;;;
  let! ax := GET_REG reg_AX in
  DianaProcessor_UpdatePSZ ax 2 ;;;
  CLEAR_FLAG_OF ;;;
  CLEAR_FLAG_SF.

Definition Diana_Call_aad : MP T unit :=
  let! (src, _) := DI_MEM_GET_DEST in
  let! ax := GET_REG reg_AX in
  let ax := u16 ax in
  let l := u8 ax in
  let h := Z.shiftr ax 8 in
  let l := u8 (h * u8 src + l) in
  let h := 0 in
  SET_REG reg_AH h ;;;
  DI_UPDATE_FLAGS_PSZ (SET_REG reg_AL l).

(** A source above 255 whose low byte is 0 passes the check and divides by 0 on the host. *)
Definition Diana_Call_aam : MP T unit :=
  let! (src, _) := DI_MEM_GET_DEST in
  let! ax := GET_REG reg_AX in
  let ax := u16 ax in
  let l := u8 ax in
  if src =? 0 then fail DI_DIVISION_BY_ZERO
  else if u8 src =? 0 then crash
  else
    let h := u8 (l / u8 src) in
    let l := u8 (l mod u8 src) in
    SET_REG reg_AH h ;;;
    DI_UPDATE_FLAGS_PSZ (SET_REG reg_AL l).

(** The first [tmpCF] of the source is always overwritten. *)
Definition Diana_Call_daa : MP T unit :=
  let! al := GET_REG reg_AL in
  let al := u8 al in
  let tmpAL := al in
  let! af := GET_FLAG_AF in
  let! al :=
    (if (0x09 <? Z.land tmpAL 0x0F) || negb (af =? 0)
     then SET_FLAG_AF ;;; ret (u8 (al + 0x06))
     else CLEAR_FLAG_AF ;;; ret al) in
  let! cf := GET_FLAG_CF in
  let! (al, tmpCF) :=
    (if (0x99 <? tmpAL) || negb (cf =? 0) then ret (u8 (al + 0x60), true)
     else ret (al, false)) in
  DI_UPDATE_FLAGS_PSZ (SET_REG reg_AL al) ;;;
  CLEAR_FLAG_OF ;;;
  if tmpCF : bool then SET_FLAG_CF else CLEAR_FLAG_CF.

Definition Diana_Call_das : MP T unit :=
  let! al := GET_REG reg_AL in
  let al := u8 al in
  let oldal := al in
  let! af := GET_FLAG_AF in
  let! cf := GET_FLAG_CF in
  let! (al, tmpCF) :=
    (if (0x09 <? Z.land al 0x0F) || negb (af =? 0)
     then SET_FLAG_AF ;;; ret (u8 (al - 6), (al <? 0x06) || negb (cf =? 0))
     else CLEAR_FLAG_AF ;;; ret (al, false)) in
  let! (al, tmpCF) :=
    (if (0x99 <? oldal) || negb (cf =? 0) then ret (u8 (al - 0x60), true)
     else ret (al, tmpCF)) in
  DI_UPDATE_FLAGS_PSZ (SET_REG reg_AL al) ;;;
  CLEAR_FLAG_OF ;;;
  if tmpCF : bool then SET_FLAG_CF else CLEAR_FLAG_CF.
End Arith.
