(* ===== verification/CmdLogic.v ===== *)
(** Bitwise operations, shifts and rotations: [and] of diana_processor_cmd_a.c, [not] of
    diana_processor_cmd_n.c, [or], [xor] and [test] of diana_processor_commands.c, the shifts of
    diana_processor_cmd_s2.c and the rotations of diana_processor_cmd_r.c.

    The shifts and rotations go bit by bit; the count of each loop is bounded by 63, so the loops
    recurse on it. *)

From Stdlib Require Import ZArith Lia List Bool.
Import ListNotations.
From S2P Require Import Prelude Words Status Registers ProcStreams Processor CmdInternal.
Local Open Scope Z_scope.
Local Open Scope diana_scope.

Section Logic.
Context {T : Type} `{RandomStream T}.

(** ** Bitwise operations *)

Definition Diana_Call_and : MP T unit :=
  let! (dest, dest_size) := DI_MEM_GET_DEST in
  let! (src, src_size) := DI_MEM_GET_SRC in
  let! src := DI_SIGN_EXTEND src src_size dest_size in
  let dest := Z.land dest src in
  let! dest := Di_CheckZeroExtends dest src_size in
  CLEAR_FLAG_CF ;;;
  CLEAR_FLAG_OF ;;;
  DI_UPDATE_FLAGS_PSZ (DI_MEM_SET_DEST dest) ;;;
  CLEAR_FLAG_AF.

Definition Diana_Call_or : MP T unit :=
  let! (dest, dest_size) := DI_MEM_GET_DEST in
  let! (src, src_size) := DI_MEM_GET_SRC in
  let! src := DI_SIGN_EXTEND src src_size dest_size in
  let dest := Z.lor dest src in
  let! dest := Di_CheckZeroExtends dest src_size in
  CLEAR_FLAG_CF ;;;
  CLEAR_FLAG_OF ;;;
  DI_UPDATE_FLAGS_PSZ (DI_MEM_SET_DEST dest) ;;;
  CLEAR_FLAG_AF.

Definition Diana_Call_xor : MP T unit :=
  let! (dest, dest_size) := DI_MEM_GET_DEST in
  let! (src, src_size) := DI_MEM_GET_SRC in
  let! src := DI_SIGN_EXTEND src src_size dest_size in
  CLEAR_FLAG_CF ;;;
  CLEAR_FLAG_OF ;;;
  let dest := Z.lxor dest src in
  let! dest := Di_CheckZeroExtends dest src_size in
  DI_UPDATE_FLAGS_PSZ (DI_MEM_SET_DEST dest).

Definition Diana_Call_test : MP T unit :=
  let! (dest, dest_size) := DI_MEM_GET_DEST in
  let! (src, src_size) := DI_MEM_GET_SRC in
  let dest := Z.land dest src in
  CLEAR_FLAG_CF ;;;
  CLEAR_FLAG_OF ;;;
  let! usedSize := result (fun r => usedSize (linked_op r 0)) in
  DianaProcessor_UpdatePSZ dest usedSize ;;;
  CLEAR_FLAG_AF.

Definition Diana_Call_not : MP T unit :=
  let! (dest, dest_size) := DI_MEM_GET_DEST in
  let dest := u64 (Z.lnot dest) in
  Di_ClearUpperHalf ;;;
  DI_MEM_SET_DEST dest.

(** ** Counts *)

(** [src &= 0x3F] under REX.W, [src &= 0x1F] otherwise *)
Definition shift_count (src : Z) : MP T Z :=
  let! amd64 := context iAMD64Mode in
  let! rex := context iRexPrefix in
  ret (if (amd64 =? 1) && DI_REX_HAS_FLAG_W rex then Z.land src 0x3F else Z.land src 0x1F).

(** The switch of [rcl] and [rcr]; other sizes are an error. *)
Definition rotate_carry_count (src dest_size : Z) : MP T Z :=
  if dest_size =? 1 then ret (Z.land src 0x1F mod 9)
  else if dest_size =? 2 then ret (Z.land src 0x1F mod 17)
  else if dest_size =? 4 then ret (Z.land src 0x1F)
  else if dest_size =? 8 then ret (Z.land src 0x3F)
  else fail DI_ERROR.

(** The early return of a count of zero: the destination is written back. *)
Definition write_back (dest src_size : Z) : MP T unit :=
  let! dest := Di_CheckZeroExtends dest src_size in DI_MEM_SET_DEST dest.

(** ** Shifts *)

Fixpoint shl_loop (n : nat) (signMask dest : Z) : MP T Z :=
  match n with
  | O => ret dest
  | S n =>
      CLEAR_FLAG_CF ;;;
      when (has dest signMask) SET_FLAG_CF ;;;
      shl_loop n signMask (u64 (Z.shiftl dest 1))
  end.

Definition Diana_Call_shl : MP T unit :=
  let! (src, src_size) := DI_MEM_GET_SRC in
  let! (dest, dest_size) := DI_MEM_GET_DEST in
  let! src := shift_count src in
  if src =? 0 then write_back dest src_size
  else
    let signMask := DianaProcessor_GetSignMask dest_size in
    CLEAR_FLAG_OF ;;;
    let! dest := shl_loop (Z.to_nat src) signMask dest in
    when (src =? 1)
      (let tmp := if has signMask dest then 1 else 0 in
       let! cf := GET_FLAG_CF in
       when (negb (Z.lxor cf tmp =? 0)) SET_FLAG_OF) ;;;
    let! dest := Di_CheckZeroExtends dest src_size in
    DI_UPDATE_FLAGS_PSZ (DI_MEM_SET_DEST dest).

(** [shr] and [sar]: the bits of [high] enter at the top. *)
Fixpoint shr_loop (n : nat) (high dest : Z) : MP T Z :=
  match n with
  | O => ret dest
  | S n =>
      CLEAR_FLAG_CF ;;;
      when (has dest 1) SET_FLAG_CF ;;;
      shr_loop n high (Z.lor (Z.shiftr dest 1) high)
  end.

Definition Diana_Call_shr : MP T unit :=
  let! (src, src_size) := DI_MEM_GET_SRC in
  let! (dest, dest_size) := DI_MEM_GET_DEST in
  let original := dest in
  let! src := shift_count src in
  if src =? 0 then write_back dest src_size
  else
    CLEAR_FLAG_OF ;;;
    let! dest := shr_loop (Z.to_nat src) 0 dest in
    when (src =? 1)
      (when (has original (DianaProcessor_GetSignMask dest_size)) SET_FLAG_OF) ;;;
    let! dest := Di_CheckZeroExtends dest src_size in
    DI_UPDATE_FLAGS_PSZ (DI_MEM_SET_DEST dest).

Definition Diana_Call_sar : MP T unit :=
  let! (src, src_size) := DI_MEM_GET_SRC in
  let! (dest, dest_size) := DI_MEM_GET_DEST in
  let! src := shift_count src in
  if src =? 0 then write_back dest src_size
  else
    let signMask := DianaProcessor_GetSignMask dest_size in
    let prevSign := Z.land signMask dest in
    CLEAR_FLAG_OF ;;;
    let! dest := shr_loop (Z.to_nat src) prevSign dest in
    let! dest := Di_CheckZeroExtends dest src_size in
    DI_UPDATE_FLAGS_PSZ (DI_MEM_SET_DEST dest).

(** [src1] and its size change when a 16-bit [shld] goes past 16 bits. *)
Fixpoint shld_loop (n : nat) (i signMask dest_size dest src1 src1_size : Z) : MP T (Z * Z) :=
  match n with
  | O => ret (dest, src1_size)
  | S n =>
      let! (src1, src1_size) :=
        (if (dest_size =? 2) && (0 <? i) && (i mod 16 =? 0) then DI_MEM_GET_DEST
         else ret (src1, src1_size)) in
      CLEAR_FLAG_CF ;;;
      when (has dest signMask) SET_FLAG_CF ;;;
      let lastBit := if has src1 signMask then 1 else 0 in
      shld_loop n (i + 1) signMask dest_size
        (u64 (u64 (Z.shiftl dest 1) + lastBit)) (u64 (Z.shiftl src1 1)) src1_size
  end.

Definition Diana_Call_shld : MP T unit :=
  let! (src2, src2_size) := DI_MEM_GET_SRC2 in
  let! (src1, src1_size) := DI_MEM_GET_SRC in
  let! (dest, dest_size) := DI_MEM_GET_DEST in
  let! src2 := shift_count src2 in
  if src2 =? 0 then write_back dest src1_size
  else
    let signMask := DianaProcessor_GetSignMask dest_size in
    let prevSign := Z.land signMask dest in
    CLEAR_FLAG_OF ;;;
    let! (dest, src1_size) :=
      shld_loop (Z.to_nat src2) 0 signMask dest_size dest src1 src1_size in
    when (src2 =? 1) (when (negb (Z.land signMask dest =? prevSign)) SET_FLAG_OF) ;;;
    let! dest := Di_CheckZeroExtends dest src1_size in
    DI_UPDATE_FLAGS_PSZ (DI_MEM_SET_DEST dest).

(** The loop of [shrd] touches no flag; gives [dest] and the last [lastBit]. *)
Fixpoint shrd_loop (n : nat) (signMask dest src1 lastBit : Z) : Z * Z :=
  match n with
  | O => (dest, lastBit)
  | S n =>
      let lastBit := if has dest 1 then signMask else 0 in
      let dest := Z.shiftr dest 1 in
      let dest := if has src1 1 then Z.lor dest signMask else dest in
      shrd_loop n signMask dest (u64 (Z.shiftr src1 1 + lastBit)) lastBit
  end.

Definition Diana_Call_shrd : MP T unit :=
  let! (src2, src2_size) := DI_MEM_GET_SRC2 in
  let! (src1, src1_size) := DI_MEM_GET_SRC in
  let! (dest, dest_size) := DI_MEM_GET_DEST in
  let! src2 := shift_count src2 in
  if src2 =? 0 then write_back dest src1_size
  else
    let original := dest in
    let signMask := DianaProcessor_GetSignMask dest_size in
    CLEAR_FLAG_OF ;;;
    CLEAR_FLAG_CF ;;;
    let (dest, lastBit) := shrd_loop (Z.to_nat src2) signMask dest src1 0 in
    when (negb (lastBit =? 0)) SET_FLAG_CF ;;;
    when (src2 =? 1)
      (when (negb (Z.land signMask dest =? Z.land signMask original)) SET_FLAG_OF) ;;;
    let! dest := Di_CheckZeroExtends dest src1_size in
    DI_UPDATE_FLAGS_PSZ (DI_MEM_SET_DEST dest).

(** ** Rotations *)

Fixpoint rol_loop (n : nat) (signMask dest : Z) : Z :=
  match n with
  | O => dest
  | S n =>
      let lastBit := if has signMask dest then 1 else 0 in
      rol_loop n signMask (u64 (u64 (Z.shiftl dest 1) + lastBit))
  end.

Definition Diana_Call_rol : MP T unit :=
  let! (src, src_size) := DI_MEM_GET_SRC in
  let! (dest, dest_size) := DI_MEM_GET_DEST in
  let! src := shift_count src in
  if src =? 0 then write_back dest src_size
  else
    let signMask := DianaProcessor_GetSignMask dest_size in
    CLEAR_FLAG_OF ;;;
    let dest := rol_loop (Z.to_nat src) signMask dest in
    CLEAR_FLAG_CF ;;;
    when (has dest 1) SET_FLAG_CF ;;;
    when (src =? 1)
      (let tmp := if has signMask dest then 1 else 0 in
       when (negb (Z.lxor (Z.land dest 1) tmp =? 0)) SET_FLAG_OF) ;;;
    let! dest := Di_CheckZeroExtends dest src_size in
    DI_MEM_SET_DEST dest.

Fixpoint ror_loop (n : nat) (signMask dest : Z) : Z :=
  match n with
  | O => dest
  | S n =>
      let lastBit := if has dest 1 then signMask else 0 in
      ror_loop n signMask (Z.lor (Z.shiftr dest 1) lastBit)
  end.

Definition Diana_Call_ror : MP T unit :=
  let! (src, src_size) := DI_MEM_GET_SRC in
  let! (dest, dest_size) := DI_MEM_GET_DEST in
  let! src := shift_count src in
  if src =? 0 then write_back dest src_size
  else
    let signMask := DianaProcessor_GetSignMask dest_size in
    CLEAR_FLAG_OF ;;;
    let dest := ror_loop (Z.to_nat src) signMask dest in
    CLEAR_FLAG_CF ;;;
    when (has dest signMask) SET_FLAG_CF ;;;
    when (src =? 1)
      (let tmp := if has dest signMask then 1 else 0 in
       let tmp2 := if has dest (Z.shiftr signMask 1) then 1 else 0 in
       when (negb (Z.lxor tmp tmp2 =? 0)) SET_FLAG_OF) ;;;
    let! dest := Di_CheckZeroExtends dest src_size in
    DI_MEM_SET_DEST dest.

Fixpoint rcl_loop (n : nat) (signMask dest : Z) : MP T Z :=
  match n with
  | O => ret dest
  | S n =>
      let! cf := GET_FLAG_CF in
      let lastBit := if negb (cf =? 0) then 1 else 0 in
      (if has signMask dest then SET_FLAG_CF else CLEAR_FLAG_CF) ;;;
      rcl_loop n signMask (u64 (u64 (Z.shiftl dest 1) + lastBit))
  end.

Definition Diana_Call_rcl : MP T unit :=
  let! (src, src_size) := DI_MEM_GET_SRC in
  let! (dest, dest_size) := DI_MEM_GET_DEST in
  let! src := rotate_carry_count src dest_size in
  if src =? 0 then write_back dest src_size
  else
    let signMask := DianaProcessor_GetSignMask dest_size in
    CLEAR_FLAG_OF ;;;
    let! dest := rcl_loop (Z.to_nat src) signMask dest in
    when (src =? 1)
      (let tmp := if has signMask dest then 1 else 0 in
       let! cf := GET_FLAG_CF in
       when (negb (Z.lxor cf tmp =? 0)) SET_FLAG_OF) ;;;
    let! dest := Di_CheckZeroExtends dest src_size in
    DI_MEM_SET_DEST dest.

Fixpoint rcr_loop (n : nat) (signMask dest : Z) : MP T Z :=
  match n with
  | O => ret dest
  | S n =>
      let! cf := GET_FLAG_CF in
      let lastBit := if negb (cf =? 0) then signMask else 0 in
      (if has dest 1 then SET_FLAG_CF else CLEAR_FLAG_CF) ;;;
      rcr_loop n signMask (Z.lor (Z.shiftr dest 1) lastBit)
  end.

Definition Diana_Call_rcr : MP T unit :=
  let! (src, src_size) := DI_MEM_GET_SRC in
  let! (dest, dest_size) := DI_MEM_GET_DEST in
  let! src := rotate_carry_count src dest_size in
  if src =? 0 then write_back dest src_size
  else
    let signMask := DianaProcessor_GetSignMask dest_size in
    CLEAR_FLAG_OF ;;;
    when (src =? 1)
      (let tmp := if has signMask dest then 1 else 0 in
       let! cf := GET_FLAG_CF in
       when (negb (Z.lxor cf tmp =? 0)) SET_FLAG_OF) ;;;
    let! dest := rcr_loop (Z.to_nat src) signMask dest in
    let! dest := Di_CheckZeroExtends dest src_size in
    DI_MEM_SET_DEST dest.
End Logic.
