(* ===== verification/CmdFlow.v ===== *)
(** Conditions and control flow: the conditional moves of diana_processor_cmd_c.c, the
    conditional jumps and [jmp] of diana_processor_cmd_j.c, [setcc] of diana_processor_cmd_s.c,
    [call], the loops of diana_processor_cmd_l.c, [ret] and [retf]. *)

From Stdlib Require Import ZArith Lia List Bool.
Import ListNotations.
From S2P Require Import Prelude Words Status Registers ProcStreams Processor CmdInternal.
Local Open Scope Z_scope.
Local Open Scope diana_scope.

Section Flow.
Context {T : Type} `{RandomStream T}.

(** ** Conditions

    The C code writes the condition out in each of the three handlers of a suffix; the three
    texts are the same. *)

Definition cond_a : MP T bool :=
  let! cf := GET_FLAG_CF in let! zf := GET_FLAG_ZF in ret ((cf =? 0) && (zf =? 0)).
Definition cond_ae : MP T bool := let! cf := GET_FLAG_CF in ret (cf =? 0).
Definition cond_b : MP T bool := let! cf := GET_FLAG_CF in ret (negb (cf =? 0)).
Definition cond_be : MP T bool :=
  let! cf := GET_FLAG_CF in let! zf := GET_FLAG_ZF in ret (negb (cf =? 0) || negb (zf =? 0)).
Definition cond_e : MP T bool := let! zf := GET_FLAG_ZF in ret (negb (zf =? 0)).
Definition cond_g : MP T bool :=
  let! sf := GET_FLAG_SF in let! ovf := GET_FLAG_OF in let! zf := GET_FLAG_ZF in
  ret ((sf =? ovf) && (zf =? 0)).
Definition cond_ge : MP T bool :=
  let! sf := GET_FLAG_SF in let! ovf := GET_FLAG_OF in ret (sf =? ovf).
Definition cond_l : MP T bool :=
  let! sf := GET_FLAG_SF in let! ovf := GET_FLAG_OF in ret (negb (sf =? ovf)).
Definition cond_le : MP T bool :=
  let! zf := GET_FLAG_ZF in let! sf := GET_FLAG_SF in let! ovf := GET_FLAG_OF in
  ret (negb (zf =? 0) || negb (sf =? ovf)).
Definition cond_ne : MP T bool := let! zf := GET_FLAG_ZF in ret (zf =? 0).
Definition cond_no : MP T bool := let! ovf := GET_FLAG_OF in ret (ovf =? 0).
Definition cond_np : MP T bool := let! pf := GET_FLAG_PF in ret (pf =? 0).
Definition cond_ns : MP T bool := let! sf := GET_FLAG_SF in ret (sf =? 0).
Definition cond_o : MP T bool := let! ovf := GET_FLAG_OF in ret (negb (ovf =? 0)).
Definition cond_p : MP T bool := let! pf := GET_FLAG_PF in ret (negb (pf =? 0)).
Definition cond_s : MP T bool := let! sf := GET_FLAG_SF in ret (negb (sf =? 0)).

(** ** Conditional moves *)

Definition cmov (cond : MP T bool) : MP T unit :=
  let! (src, _) := DI_MEM_GET_SRC in
  Di_ClearUpperHalf ;;;
  let! c := cond in
  when c (DI_MEM_SET_DEST src).

Definition Diana_Call_cmova : MP T unit := cmov cond_a.
Definition Diana_Call_cmovae : MP T unit := cmov cond_ae.
Definition Diana_Call_cmovb : MP T unit := cmov cond_b.
Definition Diana_Call_cmovbe : MP T unit := cmov cond_be.
Definition Diana_Call_cmove : MP T unit := cmov cond_e.
Definition Diana_Call_cmovg : MP T unit := cmov cond_g.
Definition Diana_Call_cmovge : MP T unit := cmov cond_ge.
Definition Diana_Call_cmovl : MP T unit := cmov cond_l.
Definition Diana_Call_cmovle : MP T unit := cmov cond_le.
Definition Diana_Call_cmovne : MP T unit := cmov cond_ne.
Definition Diana_Call_cmovno : MP T unit := cmov cond_no.
Definition Diana_Call_cmovnp : MP T unit := cmov cond_np.
Definition Diana_Call_cmovns : MP T unit := cmov cond_ns.
Definition Diana_Call_cmovo : MP T unit := cmov cond_o.
Definition Diana_Call_cmovp : MP T unit := cmov cond_p.
Definition Diana_Call_cmovs : MP T unit := cmov cond_s.

(** ** Conditional jumps *)

Definition jump_if (cond : MP T bool) : MP T unit :=
  let! c := cond in when c (Diana_Call_jcc 1 0).

Definition Diana_Call_ja : MP T unit := jump_if cond_a.
Definition Diana_Call_jae : MP T unit := jump_if cond_ae.
Definition Diana_Call_jb : MP T unit := jump_if cond_b.
Definition Diana_Call_jbe : MP T unit := jump_if cond_be.
Definition Diana_Call_je : MP T unit := jump_if cond_e.
Definition Diana_Call_jg : MP T unit := jump_if cond_g.
Definition Diana_Call_jge : MP T unit := jump_if cond_ge.
Definition Diana_Call_jl : MP T unit := jump_if cond_l.
Definition Diana_Call_jle : MP T unit := jump_if cond_le.
Definition Diana_Call_jne : MP T unit := jump_if cond_ne.
Definition Diana_Call_jno : MP T unit := jump_if cond_no.
Definition Diana_Call_jnp : MP T unit := jump_if cond_np.
Definition Diana_Call_jns : MP T unit := jump_if cond_ns.
Definition Diana_Call_jo : MP T unit := jump_if cond_o.
Definition Diana_Call_jp : MP T unit := jump_if cond_p.
Definition Diana_Call_js : MP T unit := jump_if cond_s.

(** ** [setcc] *)

Definition Diana_Call_setcc (op : Z) : MP T unit :=
  let! _ := DI_MEM_GET_DEST in DI_MEM_SET_DEST op.

Definition set_if (cond : MP T bool) : MP T unit :=
  let! c := cond in if c : bool then Diana_Call_setcc 1 else Diana_Call_setcc 0.

Definition Diana_Call_seta : MP T unit := set_if cond_a.
Definition Diana_Call_setae : MP T unit := set_if cond_ae.
Definition Diana_Call_setb : MP T unit := set_if cond_b.
Definition Diana_Call_setbe : MP T unit := set_if cond_be.
Definition Diana_Call_sete : MP T unit := set_if cond_e.
Definition Diana_Call_setg : MP T unit := set_if cond_g.
Definition Diana_Call_setge : MP T unit := set_if cond_ge.
Definition Diana_Call_setl : MP T unit := set_if cond_l.
Definition Diana_Call_setle : MP T unit := set_if cond_le.
Definition Diana_Call_setne : MP T unit := set_if cond_ne.
Definition Diana_Call_setno : MP T unit := set_if cond_no.
Definition Diana_Call_setnp : MP T unit := set_if cond_np.
Definition Diana_Call_setns : MP T unit := set_if cond_ns.
Definition Diana_Call_seto : MP T unit := set_if cond_o.
Definition Diana_Call_setp : MP T unit := set_if cond_p.
Definition Diana_Call_sets : MP T unit := set_if cond_s.

(** ** Jumps on the counter *)

Definition Diana_Call_loop : MP T unit :=
  let! addressSize := context iCurrentCmd_addressSize in
  let! rcx := GET_REG2 reg_RCX addressSize in
  let rcx := u64 (rcx - 1) in
  SET_REG2 reg_RCX rcx addressSize ;;;
  when (negb (rcx =? 0)) (Diana_Call_jcc 1 0).

Definition Diana_Call_loope : MP T unit :=
  let! addressSize := context iCurrentCmd_addressSize in
  let! rcx := GET_REG2 reg_RCX addressSize in
  let rcx := u64 (rcx - 1) in
  SET_REG2 reg_RCX rcx addressSize ;;;
  let! zf := GET_FLAG_ZF in
  when (negb (rcx =? 0) && negb (zf =? 0)) (Diana_Call_jcc 1 0).

Definition Diana_Call_loopne : MP T unit :=
  let! addressSize := context iCurrentCmd_addressSize in
  let! rcx := GET_REG2 reg_RCX addressSize in
  let rcx := u64 (rcx - 1) in
  SET_REG2 reg_RCX rcx addressSize ;;;
  let! zf := GET_FLAG_ZF in
  when (negb (rcx =? 0) && (zf =? 0)) (Diana_Call_jcc 1 0).

Definition Diana_Call_jecxz : MP T unit :=
  let! (dest, _) := DI_MEM_GET_DEST in
  when (dest =? 0) (Diana_Call_jcc 2 1).

(** ** Targets of [call] and [jmp]: the new RIP, and the new segment of a far transfer *)

Definition far_target (opNumber : Z) (pIndex : DianaRmIndex) : MP T (Z * option Z) :=
  let! r := result (fun r => r) in
  let! (memSelector, memAddress) := DianaProcessor_CalcIndex pIndex in
  let! newSegment := DianaProcessor_GetMemValue memSelector memAddress 2 (seg_reg pIndex) in
  let! newRIP :=
    DianaProcessor_GetMemValue memSelector (u64 (memAddress + 2))
      (usedAddressSize (linked_op r opNumber)) (seg_reg pIndex) in
  ret (newRIP, Some newSegment).

Definition Diana_Call_call : MP T unit :=
  let! rsp := GET_REG reg_RSP in
  let! r := result (fun r => r) in
  if negb (iLinkedOpCount r =? 1) then fail DI_ERROR
  else
    let! (newRIP, newSegment) :=
      match value (linked_op r 0) with
      | diana_rel rel =>
          let! rip := GET_REG reg_RIP in ret (u64 (rip + rel + iFullCmdSize r), None)
      | diana_index _ | diana_register _ =>
          let! (newRIP, _) := DI_MEM_GET_DEST in ret (newRIP, None)
      | diana_memory pIndex => far_target 0 pIndex
      | diana_call_ptr segment address => ret (address, Some segment)
      | _ => fail DI_ERROR
      end in
    let! mainOpsize := context iMainMode_opsize in
    let! opsize := context iCurrentCmd_opsize in
    let! rsp :=
      match newSegment with
      | Some _ =>
          if mainOpsize =? DIANA_MODE16 then
            let! oldCS := GET_REG reg_CS in
            let! ss := GET_REG reg_SS in
            DianaProcessor_SetMemValue ss (u64 (rsp - opsize)) opsize oldCS reg_SS ;;;
            ret (u64 (rsp - opsize))
          else ret rsp
      | None => ret rsp
      end in
    let! rip := GET_REG reg_RIP in
    let retRIP := u64 (rip + iFullCmdSize r) in
    let! ss := GET_REG reg_SS in
    DianaProcessor_SetMemValue ss (u64 (rsp - opsize)) opsize retRIP reg_SS ;;;
    let rsp := u64 (rsp - opsize) in
    modify (with_lastCallRIP (fun _ => newRIP)) ;;;
    modify (with_lastCallRSP (fun _ => rsp)) ;;;
    SET_REG reg_RSP rsp ;;;
    SET_REG reg_RIP newRIP ;;;
    match newSegment with
    | Some segment => SET_REG reg_CS segment
    | None => ret tt
    end.

Definition Diana_Call_jmp : MP T unit :=
  let! r := result (fun r => r) in
  if negb (iLinkedOpCount r =? 1) then fail DI_ERROR
  else
    let! (newRIP, newSegment) :=
      match value (linked_op r 0) with
      | diana_rel rel =>
          let! opsize := context iCurrentCmd_opsize in
          let! rip := GET_REG2 reg_RIP opsize in
          ret (u64 (rip + rel + iFullCmdSize r), None)
      | diana_index _ | diana_register _ =>
          let! (newRIP, _) := DI_MEM_GET_DEST in ret (newRIP, None)
      | diana_memory pIndex => far_target 0 pIndex
      | diana_call_ptr segment address => ret (address, Some segment)
      | _ => fail DI_ERROR
      end in
    SET_REG reg_RIP newRIP ;;;
    match newSegment with
    | Some segment => SET_REG reg_CS segment
    | None => ret tt
    end.

Definition Diana_Call_ret : MP T unit := Diana_Call_internal_ret false.
Definition Diana_Call_retf : MP T unit := Diana_Call_internal_ret true.
End Flow.
