(* ===== verification/CmdMulDiv.v ===== *)
(** Multiplications and divisions: [mul] of diana_processor_cmd_m.c, [imul] of
    diana_processor_cmd_imul.c, [div] of diana_processor_cmd_d.c, [idiv] of
    diana_processor_cmd_i.c. *)

From Stdlib Require Import ZArith Lia List Bool.
Import ListNotations.
From S2P Require Import Prelude Words Status Registers ProcStreams Processor CmdInternal.
Local Open Scope Z_scope.
Local Open Scope diana_scope.

Section MulDiv.
Context {T : Type} `{RandomStream T}.

Definition set_CF_OF : MP T unit := SET_FLAG_CF ;;; SET_FLAG_OF.

(** ** Unsigned multiplication *)

Definition Diana_Call_mul8 (argument : Z) : MP T unit :=
  let! al := GET_REG reg_AL in
  let arg1 := u16 al in
  let arg2 := u16 argument in
  let r := u16 (arg1 * arg2) in
  when (negb (Z.shiftr r 8 =? 0)) set_CF_OF ;;;
  SET_REG reg_AX r.

Definition Diana_Call_mul16 (argument : Z) : MP T unit :=
  let! ax := GET_REG reg_AX in
  let arg1 := u32 ax in
  let arg2 := u32 argument in
  let r := u32 (arg1 * arg2) in
  when (negb (Z.shiftr r 16 =? 0)) set_CF_OF ;;;
  SET_REG reg_AX (u16 r) ;;;
  SET_REG reg_DX (Z.shiftr r 16).

Definition Diana_Call_mul32 (argument : Z) : MP T unit :=
  let! eax := GET_REG reg_EAX in
  let arg1 := u64 eax in
  let arg2 := u64 argument in
  let r := u64 (arg1 * arg2) in
  when (negb (Z.shiftr r 32 =? 0)) set_CF_OF ;;;
  SET_REG reg_EAX (u32 r) ;;;
  SET_REG reg_EDX (Z.shiftr r 32).

Definition Diana_Call_mul64 (argument : Z) : MP T unit :=
  let! rax := GET_REG reg_RAX in
  let (r0, r1) := mul64 rax argument in
  when (negb (r1 =? 0)) set_CF_OF ;;;
  SET_REG reg_RAX r0 ;;;
  SET_REG reg_RDX r1.

Definition Diana_Call_mul : MP T unit :=
  let! (argument, _) := DI_MEM_GET_DEST in
  CLEAR_FLAG_CF ;;;
  CLEAR_FLAG_OF ;;;
  let! usedSize := result (fun r => usedSize (linked_op r 0)) in
  if usedSize =? DIANA_MODE64 then Diana_Call_mul64 argument
  else if usedSize =? DIANA_MODE32 then Diana_Call_mul32 argument
  else if usedSize =? DIANA_MODE16 then Diana_Call_mul16 argument
  else if usedSize =? 1 then Diana_Call_mul8 argument
  else fail DI_ERROR.

(** ** Signed multiplication *)

Definition Diana_Call_imul8 (pArgument : Z) : MP T unit :=
  let! al := GET_REG reg_AL in
  let arg1 := s8 al in
  let arg2 := s8 pArgument in
  let r := s16 (arg1 * arg2) in
  when (negb (s8 r =? r)) set_CF_OF ;;;
  SET_REG reg_AX (u64 r).

Definition Diana_Call_imul16 (pArgument : Z) : MP T unit :=
  let! ax := GET_REG reg_AX in
  let arg1 := s16 ax in
  let arg2 := s16 pArgument in
  let r := s32 (arg1 * arg2) in
  when (negb (s16 r =? r)) set_CF_OF ;;;
  SET_REG reg_AX (u64 (s16 r)) ;;;
  SET_REG reg_DX (u64 (Z.shiftr r 16)).

Definition Diana_Call_imul32 (pArgument : Z) : MP T unit :=
  let! eax := GET_REG reg_EAX in
  let arg1 := s32 eax in
  let arg2 := s32 pArgument in
  let r := s64 (arg1 * arg2) in
  when (negb (s32 r =? r)) set_CF_OF ;;;
  SET_REG reg_EAX (u64 (s32 r)) ;;;
  SET_REG reg_EDX (u64 (Z.shiftr r 32)).

(** CF and OF when the high half is not the sign of the low one *)
Definition Diana_Call_imul64 (pArgument : Z) : MP T unit :=
  let! rax := GET_REG reg_RAX in
  let arg1 := s64 rax in
  let arg2 := s64 pArgument in
  let (r0, r1) := imul64 arg1 arg2 in
  when (negb (s64 r1 =? Z.shiftr (s64 r0) 63)) set_CF_OF ;;;
  SET_REG reg_RAX r0 ;;;
  SET_REG reg_RDX r1.

Definition Diana_Call_imul_1 : MP T unit :=
  let! (argument, _) := DI_MEM_GET_DEST in
  let! usedSize := result (fun r => usedSize (linked_op r 0)) in
  if usedSize =? DIANA_MODE64 then Diana_Call_imul64 argument
  else if usedSize =? DIANA_MODE32 then Diana_Call_imul32 argument
  else if usedSize =? DIANA_MODE16 then Diana_Call_imul16 argument
  else if usedSize =? 1 then Diana_Call_imul8 argument
  else fail DI_ERROR.

(** Gives [*op3].  The 64-bit product of the signed arguments wraps around. *)
Definition Diana_Call_imul_impl (op1 op2 op1Size op2Size : Z) : MP T Z :=
  let! op1 := check_option (DianaProcessor_SignExtend op1 op1Size 8) in
  let! op2 := check_option (DianaProcessor_SignExtend op2 op2Size 8) in
  let arg1 := s64 op1 in
  let arg2 := s64 op2 in
  let r := s64 (arg1 * arg2) in
  let! usedSize := result (fun r => usedSize (linked_op r 0)) in
  if usedSize =? DIANA_MODE64 then
    let (r0, r1) := imul64 arg1 arg2 in
    when (negb (s64 r1 =? Z.shiftr (s64 r0) 63)) set_CF_OF ;;;
    ret r0
  else if usedSize =? DIANA_MODE32 then
    when (negb (s32 r =? r)) set_CF_OF ;;; ret (u64 r)
  else if usedSize =? DIANA_MODE16 then
    when (negb (s16 r =? r)) set_CF_OF ;;; ret (u64 r)
  else if usedSize =? 1 then
    when (negb (s8 r =? r)) set_CF_OF ;;; ret (u64 r)
  else fail DI_ERROR.

Definition Diana_Call_imul_2 : MP T unit :=
  let! (dest, dest_size) := DI_MEM_GET_DEST in
  let! (src, src_size) := DI_MEM_GET_SRC in
  let! dest := Diana_Call_imul_impl src dest src_size dest_size in
  DI_MEM_SET_DEST dest.

Definition Diana_Call_imul_3 : MP T unit :=
  let! (dest, dest_size) := DI_MEM_GET_DEST in
  let! (src1, src1_size) := DI_MEM_GET_SRC in
  let! (src2, src2_size) := DI_MEM_GET_SRC2 in
  let! dest := Diana_Call_imul_impl src1 src2 src1_size src2_size in
  DI_MEM_SET_DEST dest.

Definition Diana_Call_imul : MP T unit :=
  CLEAR_FLAG_CF ;;;
  CLEAR_FLAG_OF ;;;
  let! count := result iLinkedOpCount in
  if count =? 1 then Diana_Call_imul_1
  else if count =? 2 then Diana_Call_imul_2
  else if count =? 3 then Diana_Call_imul_3
  else fail DI_UNSUPPORTED_COMMAND.

(** ** Unsigned division *)

Definition Diana_Call_div8 (pDivisor : Z) : MP T unit :=
  let! ax := GET_REG reg_AX in
  let src := u16 ax in
  let divisor := u8 pDivisor in
  if divisor =? 0 then fail DI_DIVISION_BY_ZERO
  else
    let quotient := u16 (src / divisor) in
    let remainder := u8 (src mod divisor) in
    if 0xFF <? quotient then fail DI_DIVISION_BY_ZERO
    else SET_REG reg_AL quotient ;;; SET_REG reg_AH remainder.

Definition Diana_Call_div16 (pDivisor : Z) : MP T unit :=
  let divisor := u16 pDivisor in
  if divisor =? 0 then fail DI_DIVISION_BY_ZERO
  else
    let! dx := GET_REG reg_DX in
    let! ax := GET_REG reg_AX in
    let src := u16 ax + 0x10000 * u16 dx in
    let quotient := src / divisor in
    let remainder := u16 (src mod divisor) in
    if 0xFFFF <? quotient then fail DI_DIVISION_OVERFLOW
    else SET_REG reg_AX quotient ;;; SET_REG reg_DX remainder.

Definition Diana_Call_div32 (pDivisor : Z) : MP T unit :=
  let divisor := u32 pDivisor in
  if divisor =? 0 then fail DI_DIVISION_BY_ZERO
  else
    let! edx := GET_REG reg_EDX in
    let! eax := GET_REG reg_EAX in
    let src := u32 eax + 0x100000000 * u32 edx in
    let quotient := src / divisor in
    let remainder := u32 (src mod divisor) in
    if 0xFFFFFFFF <? quotient then fail DI_DIVISION_OVERFLOW
    else SET_REG reg_EAX quotient ;;; SET_REG reg_EDX remainder.

Definition Diana_Call_div64 (pDivisor : Z) : MP T unit :=
  let! r0 := GET_REG reg_RAX in
  let! r1 := GET_REG reg_RDX in
  let divisor := pDivisor in
  if divisor =? 0 then fail DI_DIVISION_BY_ZERO
  else
    match div64 r0 r1 divisor with
    | Ok (quotient, remainder) =>
        SET_REG reg_RAX quotient ;;; SET_REG reg_RDX remainder
    | Err _ => fail DI_DIVISION_BY_ZERO
    | Crash => crash
    end.

Definition Diana_Call_div : MP T unit :=
  let! (divisor, _) := DI_MEM_GET_DEST in
  let! usedSize := result (fun r => usedSize (linked_op r 0)) in
  if usedSize =? DIANA_MODE64 then Diana_Call_div64 divisor
  else if usedSize =? DIANA_MODE32 then Diana_Call_div32 divisor
  else if usedSize =? DIANA_MODE16 then Diana_Call_div16 divisor
  else if usedSize =? 1 then Diana_Call_div8 divisor
  else fail DI_ERROR.

(** ** Signed division: [Z.quot] and [Z.rem] round towards zero, as C does.  The quotient of the
    least value by [-1] does not fit in the C type: the host traps ([crash]). *)

Definition Diana_Call_idiv8 (pDivisor : Z) : MP T unit :=
  let! ax := GET_REG reg_AX in
  let src := s16 ax in
  let divisor := s8 pDivisor in
  if divisor =? 0 then fail DI_DIVISION_BY_ZERO
  else
    let quotient := s16 (Z.quot src divisor) in
    let remainder := s8 (Z.rem src divisor) in
    if (0xFF <? quotient) || (quotient <? -0xFF) then fail DI_DIVISION_BY_ZERO
    else SET_REG reg_AL (u64 quotient) ;;; SET_REG reg_AH (u64 remainder).

Definition Diana_Call_idiv16 (pDivisor : Z) : MP T unit :=
  let divisor := s16 pDivisor in
  if divisor =? 0 then fail DI_DIVISION_BY_ZERO
  else
    let! dx := GET_REG reg_DX in
    let! ax := GET_REG reg_AX in
    let src := s32 (u16 ax + 0x10000 * u16 dx) in
    if (src =? - 0x80000000) && (divisor =? -1) then crash
    else
      let quotient := Z.quot src divisor in
      let remainder := s16 (Z.rem src divisor) in
      if (0xFFFF <? quotient) || (quotient <? -0xFFFF) then fail DI_DIVISION_OVERFLOW
      else SET_REG reg_AX (u64 quotient) ;;; SET_REG reg_DX (u64 remainder).

Definition Diana_Call_idiv32 (pDivisor : Z) : MP T unit :=
  let divisor := s32 pDivisor in
  if divisor =? 0 then fail DI_DIVISION_BY_ZERO
  else
    let! edx := GET_REG reg_EDX in
    let! eax := GET_REG reg_EAX in
    let src := s64 (u32 eax + 0x100000000 * u32 edx) in
    if (src =? - 0x8000000000000000) && (divisor =? -1) then crash
    else
      let quotient := Z.quot src divisor in
      let remainder := s32 (Z.rem src divisor) in
      if (0xFFFFFFFF <? quotient) || (quotient <? -0xFFFFFFFF) then fail DI_DIVISION_OVERFLOW
      else SET_REG reg_EAX (u64 quotient) ;;; SET_REG reg_EDX (u64 remainder).

Definition Diana_Call_idiv64 (pDivisor : Z) : MP T unit :=
  let! r0 := GET_REG reg_RAX in
  let! r1 := GET_REG reg_RDX in
  let divisor := s64 pDivisor in
  if divisor =? 0 then fail DI_DIVISION_BY_ZERO
  else
    match idiv64 r0 r1 divisor with
    | Ok (quotient, remainder) =>
        SET_REG reg_RAX quotient ;;; SET_REG reg_RDX remainder
    | Err _ => fail DI_DIVISION_BY_ZERO
    | Crash => crash
    end.

Definition Diana_Call_idiv : MP T unit :=
  let! (divisor, _) := DI_MEM_GET_DEST in
  let! usedSize := result (fun r => usedSize (linked_op r 0)) in
  if usedSize =? DIANA_MODE64 then Diana_Call_idiv64 divisor
  else if usedSize =? DIANA_MODE32 then Diana_Call_idiv32 divisor
  else if usedSize =? DIANA_MODE16 then Diana_Call_idiv16 divisor
  else if usedSize =? 1 then Diana_Call_idiv8 divisor
  else fail DI_ERROR.
End MulDiv.
