(* ===== verification/CmdStack.v ===== *)
(** The stack instructions of diana_processor_cmd_p.c, [leave] of diana_processor_cmd_l.c and
    [enter] of diana_processor_commands.c. *)

From Stdlib Require Import ZArith Lia List Bool.
Import ListNotations.
From S2P Require Import Prelude Words Status Registers ProcStreams Processor CmdInternal.
Local Open Scope Z_scope.
Local Open Scope diana_scope.

Section StackCommands.
Context {T : Type} `{RandomStream T}.

Definition Diana_Call_push : MP T unit :=
  let! (src, src_size) := DI_MEM_GET_DEST in
  let! r := result (fun r => r) in
  let! addressSize := context iCurrentCmd_addressSize in
  let! opsize := context iCurrentCmd_opsize in
  if has (pInfo_flags r) DI_FLAG_CMD_PUSH_SEG then
    let! rsp := GET_REG2 reg_RSP addressSize in
    if rsp <? opsize then fail DI_ERROR
    else
      let rsp := rsp - opsize in
      let! ss := GET_REG reg_SS in
      DianaProcessor_SetMemValue ss rsp 2 src reg_SS ;;;
      SET_REG2 reg_RSP rsp addressSize
  else
    let! src :=
      (if usedSize (linked_op r 0) =? 1
       then check_option (DianaProcessor_SignExtend src 1 opsize) else ret src) in
    let! src :=
      (if (opsize =? 8) && has (pInfo_flags r) DI_FLAG_CMD_AMD64_SIGN_EXTENDS
       then check_option (DianaProcessor_SignExtend src src_size 8) else ret src) in
    diana_internal_push src.

Definition Diana_Call_pushf : MP T unit :=
  let! opsize := context iCurrentCmd_opsize in
  let! rsp := GET_REG reg_RSP in
  if rsp <? opsize then fail DI_ERROR
  else
    let! ss := GET_REG reg_SS in
    let! flags := gets m_flags in
    DianaProcessor_SetMemValue ss (rsp - opsize) opsize flags reg_SS ;;;
    SET_REG reg_RSP (rsp - opsize).

Definition Diana_Call_pop : MP T unit :=
  let! _ := DI_MEM_GET_DEST in
  let! dest := diana_internal_pop in
  DI_MEM_SET_DEST dest.

Definition Diana_Call_popa32 : MP T unit :=
  let! dest := diana_internal_pop in
  SET_REG reg_EDI dest ;;;
  let! dest := diana_internal_pop in
  SET_REG reg_ESI dest ;;;
  let! dest := diana_internal_pop in
  SET_REG reg_EBP dest ;;;
  let! _ := diana_internal_pop in
  let! dest := diana_internal_pop in
  SET_REG reg_EBX dest ;;;
  let! dest := diana_internal_pop in
  SET_REG reg_EDX dest ;;;
  let! dest := diana_internal_pop in
  SET_REG reg_ECX dest ;;;
  let! dest := diana_internal_pop in
  SET_REG reg_EAX dest.

Definition Diana_Call_popa16 : MP T unit :=
  let! dest := diana_internal_pop in
  SET_REG reg_DI dest ;;;
  let! dest := diana_internal_pop in
  SET_REG reg_SI dest ;;;
  let! dest := diana_internal_pop in
  SET_REG reg_BP dest ;;;
  let! _ := diana_internal_pop in
  let! dest := diana_internal_pop in
  SET_REG reg_BX dest ;;;
  let! dest := diana_internal_pop in
  SET_REG reg_DX dest ;;;
  let! dest := diana_internal_pop in
  SET_REG reg_CX dest ;;;
  let! dest := diana_internal_pop in
  SET_REG reg_AX dest.

Definition Diana_Call_popa : MP T unit :=
  let! opsize := context iCurrentCmd_opsize in
  if opsize =? DIANA_MODE64 then fail DI_UNSUPPORTED_COMMAND
  else if opsize =? DIANA_MODE32 then Diana_Call_popa32
  else if opsize =? DIANA_MODE16 then Diana_Call_popa16
  else fail DI_ERROR.

(** [diana_internal_pop(pCallContext, &pCallContext->m_flags.value)]: the destination is the
    flags word, which [DianaProcessor_GetMemValue] clears before it reads. *)
Definition diana_internal_pop_flags : MP T unit :=
  let! addressSize := context iCurrentCmd_addressSize in
  let! opsize := context iCurrentCmd_opsize in
  let! rsp := GET_REG2 reg_RSP addressSize in
  let! ss := GET_REG reg_SS in
  modify (with_flags (fun _ => 0)) ;;;
  let! (status, v) := DianaProcessor_GetMemValue_out ss rsp opsize reg_SS in
  modify (with_flags (fun _ => v)) ;;;
  if negb (status =? DI_SUCCESS) then fail status
  else SET_REG2 reg_RSP (u64 (rsp + opsize)) addressSize.

Definition Diana_Call_popf : MP T unit :=
  let! amd64 := context iAMD64Mode in
  if negb (amd64 =? 0) then
    diana_internal_pop_flags ;;;
    DianaProcessor_SetResetDefaultFlags
  else
    let! opsize := context iCurrentCmd_opsize in
    if opsize =? DIANA_MODE32 then
      let! dest := diana_internal_pop in
      modify (with_flags (fun f => Z.shiftl (Z.shiftr f 32) 32 + u32 dest)) ;;;
      DianaProcessor_SetResetDefaultFlags
    else if opsize =? DIANA_MODE16 then
      let! dest := diana_internal_pop in
      modify (with_flags (fun f => Z.shiftl (Z.shiftr f 16) 16 + u16 dest)) ;;;
      DianaProcessor_SetResetDefaultFlags
    else fail DI_ERROR.

Definition Diana_Call_pusha32 : MP T unit :=
  let! esp := GET_REG reg_ESP in
  let! dest := GET_REG reg_EAX in
  diana_internal_push dest ;;;
  let! dest := GET_REG reg_ECX in
  diana_internal_push dest ;;;
  let! dest := GET_REG reg_EDX in
  diana_internal_push dest ;;;
  let! dest := GET_REG reg_EBX in
  diana_internal_push dest ;;;
  diana_internal_push esp ;;;
  let! dest := GET_REG reg_EBP in
  diana_internal_push dest ;;;
  let! dest := GET_REG reg_ESI in
  diana_internal_push dest ;;;
  let! dest := GET_REG reg_EDI in
  diana_internal_push dest.

Definition Diana_Call_pusha16 : MP T unit :=
  let! sp := GET_REG reg_SP in
  let! dest := GET_REG reg_AX in
  diana_internal_push dest ;;;
  let! dest := GET_REG reg_CX in
  diana_internal_push dest ;;;
  let! dest := GET_REG reg_DX in
  diana_internal_push dest ;;;
  let! dest := GET_REG reg_BX in
  diana_internal_push dest ;;;
  diana_internal_push sp ;;;
  let! dest := GET_REG reg_BP in
  diana_internal_push dest ;;;
  let! dest := GET_REG reg_SI in
  diana_internal_push dest ;;;
  let! dest := GET_REG reg_DI in
  diana_internal_push dest.

Definition Diana_Call_pusha : MP T unit :=
  let! opsize := context iCurrentCmd_opsize in
  if opsize =? DIANA_MODE64 then fail DI_UNSUPPORTED_COMMAND
  else if opsize =? DIANA_MODE32 then Diana_Call_pusha32
  else if opsize =? DIANA_MODE16 then Diana_Call_pusha16
  else fail DI_ERROR.

Definition Diana_Call_leave : MP T unit :=
  let! addressSize := context iCurrentCmd_addressSize in
  let! opsize := context iCurrentCmd_opsize in
  let! rbp := GET_REG reg_RBP in
  SET_REG2 reg_RSP rbp addressSize ;;;
  let! v := diana_internal_pop in
  SET_REG2 reg_RBP v opsize.

(** The frames of [enter]: [n] is [op2 - 1] at first. *)
Fixpoint enter_loop (n : nat) (selector tmp opsize : Z) : MP T unit :=
  match n with
  | O => ret tt
  | S n =>
      let! v := DianaProcessor_GetMemValue selector tmp opsize reg_SS in
      diana_internal_push v ;;;
      enter_loop n selector (u64 (tmp - opsize)) opsize
  end.

Definition Diana_Call_enter : MP T unit :=
  let! (op1, _) := DI_MEM_GET_DEST in
  let! (op2, _) := DI_MEM_GET_SRC in
  let! amd64 := context iAMD64Mode in
  when (negb (amd64 =? 0)) (modify (with_context (with_opsize 8))) ;;;
  let! opsize := context iCurrentCmd_opsize in
  let! rbp := GET_REG2 reg_RBP opsize in
  diana_internal_push rbp ;;;
  let! tempRBP := GET_REG2 reg_RSP opsize in
  let op2 := Z.land op2 0x1F in
  when (0 <? op2)
    (let! selector := GET_REG reg_SS in
     enter_loop (Z.to_nat (op2 - 1)) selector (u64 (rbp - opsize)) opsize ;;;
     diana_internal_push tempRBP) ;;;
  SET_REG2 reg_RBP tempRBP opsize ;;;
  let! rsp := GET_REG2 reg_RSP opsize in
  SET_REG2 reg_RSP (u64 (rsp - op1)) opsize.

Definition Diana_Call_pause : MP T unit := ret tt.
End StackCommands.
