(* ===== verification/CmdString.v ===== *)
(** String instructions and their repetition: [cmps] of diana_processor_cmd_c.c, [lods] of
    diana_processor_cmd_l.c, [movs] of diana_processor_cmd_m.c, [scas] and [stos] of
    diana_processor_cmd_s2.c, [Call] and [CallWithRep] of diana_processor_core.c. *)

From Stdlib Require Import ZArith Lia List Bool.
Import ListNotations.
From S2P Require Import Prelude Words Status Registers ProcStreams Processor CmdInternal.
Local Open Scope Z_scope.
Local Open Scope diana_scope.

(** The members of the enumeration of diana_commands.h that [CallWithRep] looks for. *)
Definition diana_cmd_cmps : Z := 369.
Definition diana_cmd_ins : Z := 382.
Definition diana_cmd_lods : Z := 416.
Definition diana_cmd_movs : Z := 424.
Definition diana_cmd_outs : Z := 432.
Definition diana_cmd_scas : Z := 448.
Definition diana_cmd_stos : Z := 476.

Section StringCommands.
Context {T : Type} `{RandomStream T}.

Definition dest_usedSize : MP T Z := result (fun r => usedSize (linked_op r 0)).

Definition Diana_Call_movs : MP T unit :=
  DianaProcessor_CmdUsesNormalRep ;;;
  let! (srcIndex, destIndex) := Di_PrepareSIDI_regs true in
  let! usedSize := dest_usedSize in
  let! (srcRegAddress, src) := Diana_ProcessorGetOperand_index_ex usedSize srcIndex in
  let! (selector, destRegAddress) := DianaProcessor_CalcIndex destIndex in
  DianaProcessor_SetMemValue selector destRegAddress usedSize src (seg_reg destIndex) ;;;
  let! (srcRegAddress, destRegAddress) := Di_UpdateSIDI srcRegAddress destRegAddress in
  SET_REG (reg srcIndex) srcRegAddress ;;;
  SET_REG (reg destIndex) destRegAddress.

Definition Diana_Call_cmps : MP T unit :=
  let! (srcIndex, destIndex) := Di_PrepareSIDI_regs true in
  let! usedSize := dest_usedSize in
  let! (srcRegAddress, src) := Diana_ProcessorGetOperand_index_ex usedSize srcIndex in
  let! (destRegAddress, dest) := Diana_ProcessorGetOperand_index_ex usedSize destIndex in
  let! (srcRegAddress, destRegAddress) := Di_UpdateSIDI srcRegAddress destRegAddress in
  DI_START_UPDATE_COA_FLAGS ;;;
  let oldDestValue := src in
  let src := u64 (src - dest) in
  DianaProcessor_SetCOA_Sub oldDestValue src dest usedSize COA ;;;
  SET_REG (reg srcIndex) srcRegAddress ;;;
  SET_REG (reg destIndex) destRegAddress ;;;
  DianaProcessor_UpdatePSZ src usedSize.

Definition Diana_Call_scas : MP T unit :=
  let! usedSize := dest_usedSize in
  let! src := GET_REG2 reg_RAX usedSize in
  let! (_, destIndex) := Di_PrepareSIDI_regs false in
  let! (destRegAddress, dest) := Diana_ProcessorGetOperand_index_ex usedSize destIndex in
  let! (_, destRegAddress) := Di_UpdateSIDI 0 destRegAddress in
  DI_START_UPDATE_COA_FLAGS ;;;
  let oldDestValue := src in
  let src := u64 (src - dest) in
  DianaProcessor_SetCOA_Sub oldDestValue src dest usedSize COA ;;;
  SET_REG (reg destIndex) destRegAddress ;;;
  DianaProcessor_UpdatePSZ src usedSize.

(** The old destination is read first, so the store needs a readable destination too. *)
Definition Diana_Call_stos : MP T unit :=
  DianaProcessor_CmdUsesNormalRep ;;;
  let! usedSize := dest_usedSize in
  let! src := GET_REG2 reg_RAX usedSize in
  let! (_, destIndex) := Di_PrepareSIDI_regs false in
  let! (destRegAddress, _, destSelectorValue) :=
    Diana_ProcessorGetOperand_index_ex2 usedSize destIndex in
  DianaProcessor_SetMemValue destSelectorValue destRegAddress usedSize src (seg_reg destIndex) ;;;
  let! (_, destRegAddress) := Di_UpdateSIDI 0 destRegAddress in
  SET_REG (reg destIndex) destRegAddress.

Definition Diana_Call_lods : MP T unit :=
  DianaProcessor_CmdUsesNormalRep ;;;
  let! addressSize := context iCurrentCmd_addressSize in
  let! sreg := context currentCmd_sreg in
  let! usedSize := dest_usedSize in
  let! rsi := GET_REG2 reg_RSI addressSize in
  let! selector := GET_REG sreg in
  let! v := DianaProcessor_GetMemValue selector rsi usedSize sreg in
  SET_REG2 reg_RAX v usedSize ;;;
  let! df := GET_FLAG_DF in
  let rsi := if negb (df =? 0) then u64 (rsi - usedSize) else u64 (rsi + usedSize) in
  SET_REG2 reg_RSI rsi addressSize.

(** ** [Call]: the state bits a failing handler left are removed also then *)

Definition Call {A} (pCommand : MP T A) : MP T A :=
  fun s =>
    let (res, s) := pCommand s in
    (res,
     with_stateFlagsToRemove (fun _ => 0)
       (with_stateFlags (fun f => Z.land f (Z.lnot (m_stateFlagsToRemove s))) s)).

(** ** [CallWithRep]

    [rep_loop fuel] is the endless loop of the source, left after [fuel] rounds with [None];
    [rep_fuel] below, the value of the counter, is enough of it. *)

Fixpoint rep_loop (fuel : nat) (pCommand : MP T unit) (usedReg : Z) (bRepn : bool)
    : MP T (option unit) :=
  match fuel with
  | O => ret None
  | S fuel =>
      let! counter := GET_REG usedReg in
      if counter =? 0 then ret (Some tt)
      else
        Call pCommand ;;;
        let! stateFlags := gets m_stateFlags in
        if has stateFlags DI_PROC_STATE_RIP_CHANGED then ret (Some tt)
        else
          let! rcx := GET_REG reg_RCX in
          SET_REG reg_RCX (u64 (rcx - 1)) ;;;
          let! zf := GET_FLAG_ZF in
          let! stateFlags := gets m_stateFlags in
          if bRepn then
            if negb (zf =? 0) then ret (Some tt) else rep_loop fuel pCommand usedReg bRepn
          else if negb (has stateFlags DI_PROC_STATE_CMD_USES_NORMAL_REP) then
            if zf =? 0 then ret (Some tt) else rep_loop fuel pCommand usedReg bRepn
          else rep_loop fuel pCommand usedReg bRepn
  end.

Definition is_string_command (command : Z) : bool :=
  (command =? diana_cmd_ins) || (command =? diana_cmd_lods) || (command =? diana_cmd_movs) ||
  (command =? diana_cmd_outs) || (command =? diana_cmd_stos) || (command =? diana_cmd_cmps) ||
  (command =? diana_cmd_scas).

Definition CallWithRep (fuel : nat) (pCommand : MP T unit) (bRepn : bool) : MP T (option unit) :=
  let! command := result commandId in
  if negb (is_string_command command) then Call pCommand ;;; ret (Some tt)
  else
    let! addressSize := context iCurrentCmd_addressSize in
    if addressSize =? DIANA_MODE64 then rep_loop fuel pCommand reg_RCX bRepn
    else if addressSize =? DIANA_MODE32 then rep_loop fuel pCommand reg_ECX bRepn
    else if addressSize =? DIANA_MODE16 then rep_loop fuel pCommand reg_CX bRepn
    else fail DI_ERROR.
End StringCommands.
