(* ===== verification/CmdBits.v ===== *)
(** Bits of a word: diana_processor_cmd_b.c (bit scans, bit tests, [bswap]) and the general
    register extensions of diana_processor_cmd_ext.c (POPCNT, LZCNT, TZCNT, BMI1, BMI2, CRC32,
    MOVBE, ADX). *)

From Stdlib Require Import ZArith Lia List Bool.
Import ListNotations.
From S2P Require Import Prelude Words Status Registers ProcStreams Processor CmdInternal.
Local Open Scope Z_scope.
Local Open Scope diana_scope.

(** ** Loops *)

(** [for(i = 0; i<64 && !(mask & src); ++i, mask<<=1)]; [n] is [64 - i]. *)
Fixpoint bsf_loop (n : nat) (i mask src : Z) : Z :=
  match n with
  | O => i
  | S n => if has mask src then i else bsf_loop n (i + 1) (u64 (Z.shiftl mask 1)) src
  end.

(** [for(i = 63; i>=0 && !(mask & src); --i, mask>>=1)]; [n] is [i + 1]. *)
Fixpoint bsr_loop (n : nat) (i mask src : Z) : Z :=
  match n with
  | O => i
  | S n => if has mask src then i else bsr_loop n (i - 1) (Z.shiftr mask 1) src
  end.

(** [for (; value; value &= value - 1) ++count]: a round clears a bit, 64 rounds are enough. *)
Fixpoint popcnt_loop (n : nat) (value count : Z) : Z :=
  match n with
  | O => count
  | S n =>
      if value =? 0 then count
      else popcnt_loop n (Z.land value (u64 (value - 1))) (count + 1)
  end.

(** The loops of [Di_CountZeros]; [n] is [bits - count]. *)
Fixpoint lzcnt_loop (n : nat) (count value bit : Z) : Z :=
  match n with
  | O => count
  | S n => if has value bit then count else lzcnt_loop n (count + 1) value (Z.shiftr bit 1)
  end.

Fixpoint tzcnt_loop (n : nat) (count value : Z) : Z :=
  match n with
  | O => count
  | S n => if has (Z.shiftr value count) 1 then count else tzcnt_loop n (count + 1) value
  end.

(** The loop of [Di_BitsDepositExtract]; [n] is the number of bits left. *)
Fixpoint deposit_extract_loop (n : nat) (deposit : bool) (bit k src mask r : Z) : Z :=
  match n with
  | O => r
  | S n =>
      if has mask bit then
        let r :=
          if deposit then (if has src k then Z.lor r bit else r)
          else (if has src bit then Z.lor r k else r) in
        deposit_extract_loop n deposit (u64 (Z.shiftl bit 1)) (u64 (Z.shiftl k 1)) src mask r
      else deposit_extract_loop n deposit (u64 (Z.shiftl bit 1)) k src mask r
  end.

Fixpoint crc32_bits (n : nat) (crc : Z) : Z :=
  match n with
  | O => crc
  | S n => crc32_bits n (Z.lxor (Z.shiftr crc 1) (Z.land 0x82F63B78 (u32 (0 - Z.land crc 1))))
  end.

(** [i] counts the bytes done. *)
Fixpoint crc32_loop (n : nat) (i crc src : Z) : Z :=
  match n with
  | O => crc
  | S n =>
      crc32_loop n (i + 1)
        (crc32_bits 8 (Z.lxor crc (u32 (Z.land (Z.shiftr src (i * 8)) 0xff)))) src
  end.

Fixpoint movbe_loop (n : nat) (i src dest dest_size : Z) : Z :=
  match n with
  | O => dest
  | S n =>
      movbe_loop n (i + 1) src
        (Z.lor dest
           (u64 (Z.shiftl (Z.land (Z.shiftr src (i * 8)) 0xff) ((dest_size - 1 - i) * 8))))
        dest_size
  end.

(** ** [bswap] *)

Definition bswap32 (dest : Z) : Z :=
  let b0 := Z.land dest 0xFF in let dest := Z.shiftr dest 8 in
  let b1 := Z.land dest 0xFF in let dest := Z.shiftr dest 8 in
  let b2 := Z.land dest 0xFF in let dest := Z.shiftr dest 8 in
  Z.lor dest (Z.lor (Z.lor (Z.shiftl b0 24) (Z.shiftl b1 16)) (Z.shiftl b2 8)).

Definition bswap64 (dest : Z) : Z :=
  let b0 := Z.land dest 0xFF in let dest := Z.shiftr dest 8 in
  let b1 := Z.land dest 0xFF in let dest := Z.shiftr dest 8 in
  let b2 := Z.land dest 0xFF in let dest := Z.shiftr dest 8 in
  let b3 := Z.land dest 0xFF in let dest := Z.shiftr dest 8 in
  let b4 := Z.land dest 0xFF in let dest := Z.shiftr dest 8 in
  let b5 := Z.land dest 0xFF in let dest := Z.shiftr dest 8 in
  let b6 := Z.land dest 0xFF in let dest := Z.shiftr dest 8 in
  Z.lor dest
    (Z.lor (Z.lor (Z.lor (Z.lor (Z.lor (Z.lor
      (Z.shiftl b0 56) (Z.shiftl b1 48)) (Z.shiftl b2 40)) (Z.shiftl b3 32))
      (Z.shiftl b4 24)) (Z.shiftl b5 16)) (Z.shiftl b6 8)).

(** ** Helpers of the extensions *)

Definition Di_SizeMask (size : Z) : Z :=
  if 8 <=? size then 0xFFFFFFFFFFFFFFFF else Z.shiftl 1 (size * 8) - 1.

Inductive DiBlsOperation : Type := DI_BLSI | DI_BLSMSK | DI_BLSR.
Inductive DiShiftOperation : Type := DI_SARX | DI_SHLX | DI_SHRX.

Section Bits.
Context {T : Type} `{RandomStream T}.

(** ** Bit scans *)

Definition Diana_Call_bsf : MP T unit :=
  let! _ := DI_MEM_GET_DEST in
  let! (src, _) := DI_MEM_GET_SRC in
  CLEAR_FLAG_ZF ;;;
  if src =? 0 then SET_FLAG_ZF
  else DI_MEM_SET_DEST (bsf_loop 64 0 1 src).

Definition Diana_Call_bsr : MP T unit :=
  let! _ := DI_MEM_GET_DEST in
  let! (src, _) := DI_MEM_GET_SRC in
  CLEAR_FLAG_ZF ;;;
  if src =? 0 then SET_FLAG_ZF
  else DI_MEM_SET_DEST (u64 (bsr_loop 64 63 0x8000000000000000 src)).

(** ** Bit tests *)

Definition add_disp (delta : Z) (i : DianaRmIndex) : DianaRmIndex :=
  mkDianaRmIndex (seg_reg i) (reg i) (indexed_reg i) (index i) (dispSize i)
    (u64 (dispValue i + delta)).

(** [pOperands[0].value.rmIndex.dispValue += delta] *)
Definition move_first_operand (delta : Z) (ops : list DianaLinkedOperand)
    : list DianaLinkedOperand :=
  match ops with
  | op :: ops =>
      match value op with
      | diana_index i =>
          mkDianaLinkedOperand (diana_index (add_disp delta i)) (usedSize op) (usedAddressSize op)
          :: ops
      | _ => op :: ops
      end
  | [] => []
  end.

(** The displacement of the bit string's part that has bit [offset]. *)
Definition bit_string_delta (v size : Z) : Z :=
  let bits := size * 8 in
  let offset := if size =? 2 then s16 v else if size =? 4 then s32 v else s64 v in
  let offset := if offset <? 0 then s64 (offset - (bits - 1)) else offset in
  u64 (Z.quot offset bits * size).

Definition Di_BitStringAddress (size : Z) : MP T unit :=
  let! r := result (fun r => r) in
  match value (linked_op r 0), value (linked_op r 1) with
  | diana_index _, diana_register recognizedRegister =>
      if negb (iLinkedOpCount r =? 2) then ret tt
      else
        let! v := GET_REG recognizedRegister in
        modify (with_result (with_linkedOperands (move_first_operand (bit_string_delta v size))))
  | _, _ => ret tt
  end.

(** The switch on the operand size: the bit in the operand. *)
Definition bit_in_operand (src : Z) : MP T Z :=
  let! opsize := context iCurrentCmd_opsize in
  if opsize =? 2 then ret (src mod 16)
  else if opsize =? 4 then ret (src mod 32)
  else if opsize =? 8 then ret (src mod 64)
  else fail DI_ERROR.

Definition Diana_Call_bt : MP T unit :=
  let! opsize := context iCurrentCmd_opsize in
  Di_BitStringAddress opsize ;;;
  let! (dest, _) := DI_MEM_GET_DEST in
  let! (src, _) := DI_MEM_GET_SRC in
  CLEAR_FLAG_CF ;;;
  let! src := bit_in_operand src in
  let temp := DianaProcessor_GetSignMaskSpecifyBit src in
  when (has dest temp) SET_FLAG_CF.

Definition Diana_Call_btc : MP T unit :=
  let! opsize := context iCurrentCmd_opsize in
  Di_BitStringAddress opsize ;;;
  let! (dest, _) := DI_MEM_GET_DEST in
  let! (src, src_size) := DI_MEM_GET_SRC in
  CLEAR_FLAG_CF ;;;
  let! src := bit_in_operand src in
  let temp := DianaProcessor_GetSignMaskSpecifyBit src in
  let! dest :=
    (if has dest temp then SET_FLAG_CF ;;; ret (Z.land dest (u64 (Z.lnot temp)))
     else ret (Z.lor dest temp)) in
  let! dest := Di_CheckZeroExtends dest src_size in
  DI_MEM_SET_DEST dest.

Definition Diana_Call_btr : MP T unit :=
  let! opsize := context iCurrentCmd_opsize in
  Di_BitStringAddress opsize ;;;
  let! (dest, _) := DI_MEM_GET_DEST in
  let! (src, src_size) := DI_MEM_GET_SRC in
  CLEAR_FLAG_CF ;;;
  let! src := bit_in_operand src in
  let temp := DianaProcessor_GetSignMaskSpecifyBit src in
  let! dest :=
    (if has dest temp then SET_FLAG_CF ;;; ret (Z.land dest (u64 (Z.lnot temp)))
     else ret dest) in
  let! dest := Di_CheckZeroExtends dest src_size in
  DI_MEM_SET_DEST dest.

Definition Diana_Call_bts : MP T unit :=
  let! opsize := context iCurrentCmd_opsize in
  Di_BitStringAddress opsize ;;;
  let! (dest, _) := DI_MEM_GET_DEST in
  let! (src, src_size) := DI_MEM_GET_SRC in
  CLEAR_FLAG_CF ;;;
  let! src := bit_in_operand src in
  let temp := DianaProcessor_GetSignMaskSpecifyBit src in
  let! dest :=
    (if has dest temp then SET_FLAG_CF ;;; ret dest else ret (Z.lor dest temp)) in
  let! dest := Di_CheckZeroExtends dest src_size in
  DI_MEM_SET_DEST dest.

Definition Diana_Call_bswap : MP T unit :=
  let! (dest, dest_size) := DI_MEM_GET_DEST in
  let! dest :=
    (if dest_size =? 2 then ret 0
     else if dest_size =? 4 then ret (bswap32 dest)
     else if dest_size =? 8 then ret (bswap64 dest)
     else fail DI_ERROR) in
  let! dest := Di_CheckZeroExtends dest dest_size in
  DI_MEM_SET_DEST dest.

(** ** Counts *)

Definition Di_SetZFSF (v size : Z) : MP T unit :=
  CLEAR_FLAG_ZF ;;;
  CLEAR_FLAG_SF ;;;
  let v := Z.land v (Di_SizeMask size) in
  when (v =? 0) SET_FLAG_ZF ;;;
  when (has v (DianaProcessor_GetSignMask size)) SET_FLAG_SF.

Definition DI_EXT_ARITH_FLAGS_CLEAR : MP T unit :=
  CLEAR_FLAG_CF ;;; CLEAR_FLAG_PF ;;; CLEAR_FLAG_AF ;;; CLEAR_FLAG_ZF ;;; CLEAR_FLAG_SF ;;;
  CLEAR_FLAG_OF.

Definition Diana_Call_popcnt : MP T unit :=
  let! _ := DI_MEM_GET_DEST in
  let! (src, src_size) := DI_MEM_GET_SRC in
  let v := Z.land src (Di_SizeMask src_size) in
  let count := popcnt_loop 64 v 0 in
  DI_EXT_ARITH_FLAGS_CLEAR ;;;
  when (Z.land src (Di_SizeMask src_size) =? 0) SET_FLAG_ZF ;;;
  DI_MEM_SET_DEST count.

Definition Di_CountZeros (leading : bool) : MP T unit :=
  let! _ := DI_MEM_GET_DEST in
  let! (src, src_size) := DI_MEM_GET_SRC in
  let bits := src_size * 8 in
  let v := Z.land src (Di_SizeMask src_size) in
  let count :=
    if leading then lzcnt_loop (Z.to_nat bits) 0 v (u64 (Z.shiftl 1 (bits - 1)))
    else tzcnt_loop (Z.to_nat bits) 0 v in
  CLEAR_FLAG_CF ;;;
  CLEAR_FLAG_ZF ;;;
  when (v =? 0) SET_FLAG_CF ;;;
  when (count =? 0) SET_FLAG_ZF ;;;
  DI_MEM_SET_DEST count.

Definition Diana_Call_lzcnt : MP T unit := Di_CountZeros true.
Definition Diana_Call_tzcnt : MP T unit := Di_CountZeros false.

(** ** BMI1 *)

Definition Diana_Call_andn : MP T unit :=
  let! (dest, dest_size) := DI_MEM_GET_DEST in
  let! (src1, _) := DI_MEM_GET 1 in
  let! (src2, _) := DI_MEM_GET 2 in
  let dest := Z.land (Z.land (u64 (Z.lnot src1)) src2) (Di_SizeMask dest_size) in
  Di_SetZFSF dest dest_size ;;;
  CLEAR_FLAG_CF ;;;
  CLEAR_FLAG_OF ;;;
  DI_MEM_SET_DEST dest.

Definition Diana_Call_bextr : MP T unit :=
  let! (_, dest_size) := DI_MEM_GET_DEST in
  let! (src, _) := DI_MEM_GET 1 in
  let! (control, _) := DI_MEM_GET 2 in
  let bits := dest_size * 8 in
  let start := Z.land control 0xff in
  let length := Z.land (Z.shiftr control 8) 0xff in
  let src := Z.land src (Di_SizeMask dest_size) in
  let dest := if start <? bits then Z.shiftr src start else 0 in
  let dest := if length <? bits then Z.land dest (u64 (Z.shiftl 1 length) - 1) else dest in
  Di_SetZFSF dest dest_size ;;;
  CLEAR_FLAG_CF ;;;
  CLEAR_FLAG_OF ;;;
  DI_MEM_SET_DEST dest.

Definition Di_Bls (operation : DiBlsOperation) : MP T unit :=
  let! (_, dest_size) := DI_MEM_GET_DEST in
  let! (src, _) := DI_MEM_GET 1 in
  let mask := Di_SizeMask dest_size in
  let src := Z.land src mask in
  let dest :=
    match operation with
    | DI_BLSI => Z.land (u64 (0 - src)) src
    | DI_BLSMSK => Z.lxor (u64 (src - 1)) src
    | DI_BLSR => Z.land (u64 (src - 1)) src
    end in
  let dest := Z.land dest mask in
  Di_SetZFSF dest dest_size ;;;
  CLEAR_FLAG_OF ;;;
  CLEAR_FLAG_CF ;;;
  when (match operation with DI_BLSI => negb (src =? 0) | _ => src =? 0 end) SET_FLAG_CF ;;;
  match operation with DI_BLSMSK => CLEAR_FLAG_ZF | _ => ret tt end ;;;
  DI_MEM_SET_DEST dest.

Definition Diana_Call_blsi : MP T unit := Di_Bls DI_BLSI.
Definition Diana_Call_blsmsk : MP T unit := Di_Bls DI_BLSMSK.
Definition Diana_Call_blsr : MP T unit := Di_Bls DI_BLSR.

(** ** BMI2 *)

Definition Diana_Call_bzhi : MP T unit :=
  let! (_, dest_size) := DI_MEM_GET_DEST in
  let! (src, _) := DI_MEM_GET 1 in
  let! (control, _) := DI_MEM_GET 2 in
  let bits := dest_size * 8 in
  let index := Z.land control 0xff in
  let dest := Z.land src (Di_SizeMask dest_size) in
  let dest := if index <? bits then Z.land dest (u64 (Z.shiftl 1 index) - 1) else dest in
  Di_SetZFSF dest dest_size ;;;
  CLEAR_FLAG_OF ;;;
  CLEAR_FLAG_CF ;;;
  when (bits - 1 <? index) SET_FLAG_CF ;;;
  DI_MEM_SET_DEST dest.

(** The two halves of the product of [mulx], [(low, high)] *)
Definition mulx64 (a b : Z) : Z * Z :=
  let aLow := Z.land a 0xffffffff in let aHigh := Z.shiftr a 32 in
  let bLow := Z.land b 0xffffffff in let bHigh := Z.shiftr b 32 in
  let ll := u64 (aLow * bLow) in let lh := u64 (aLow * bHigh) in
  let hl := u64 (aHigh * bLow) in let hh := u64 (aHigh * bHigh) in
  let middle := u64 (Z.shiftr ll 32 + Z.land lh 0xffffffff + Z.land hl 0xffffffff) in
  (Z.lor (u64 (Z.shiftl middle 32)) (Z.land ll 0xffffffff),
   u64 (hh + Z.shiftr lh 32 + Z.shiftr hl 32 + Z.shiftr middle 32)).

Definition mulx32 (a b : Z) : Z * Z :=
  let product := u64 (u32 a * u32 b) in
  (Z.land product 0xffffffff, Z.shiftr product 32).

Definition Diana_Call_mulx : MP T unit :=
  let! (_, high_dest_size) := DI_MEM_GET 0 in
  let! _ := DI_MEM_GET 1 in
  let! (src, _) := DI_MEM_GET 2 in
  let! (low, high) :=
    (if high_dest_size =? 8 then let! a := GET_REG reg_RDX in ret (mulx64 a src)
     else let! a := GET_REG reg_EDX in ret (mulx32 a src)) in
  DI_MEM_SET 1 low ;;;
  DI_MEM_SET 0 high.

Definition Di_BitsDepositExtract (deposit : bool) : MP T unit :=
  let! (_, dest_size) := DI_MEM_GET_DEST in
  let! (src, _) := DI_MEM_GET 1 in
  let! (mask, _) := DI_MEM_GET 2 in
  let mask := Z.land mask (Di_SizeMask dest_size) in
  DI_MEM_SET_DEST (deposit_extract_loop (Z.to_nat (dest_size * 8)) deposit 1 1 src mask 0).

Definition Diana_Call_pdep : MP T unit := Di_BitsDepositExtract true.
Definition Diana_Call_pext : MP T unit := Di_BitsDepositExtract false.

Definition Diana_Call_rorx : MP T unit :=
  let! (_, dest_size) := DI_MEM_GET_DEST in
  let! (src, _) := DI_MEM_GET 1 in
  let! (imm, _) := DI_MEM_GET 2 in
  let bits := dest_size * 8 in
  let count := Z.land (u32 imm) (bits - 1) in
  let src := Z.land src (Di_SizeMask dest_size) in
  let dest :=
    if negb (count =? 0)
    then Z.land (Z.lor (Z.shiftr src count) (u64 (Z.shiftl src (bits - count))))
           (Di_SizeMask dest_size)
    else src in
  DI_MEM_SET_DEST dest.

Definition shiftx (operation : DiShiftOperation) (src count size : Z) : Z :=
  Z.land
    match operation with
    | DI_SHLX => u64 (Z.shiftl src count)
    | DI_SHRX => Z.shiftr src count
    | DI_SARX =>
        if negb (count =? 0) && has src (DianaProcessor_GetSignMask size)
        then Z.lor (Z.shiftr src count)
               (Z.land (Di_SizeMask size) (u64 (Z.lnot (Z.shiftr (Di_SizeMask size) count))))
        else Z.shiftr src count
    end (Di_SizeMask size).

Definition Di_ShiftX (operation : DiShiftOperation) : MP T unit :=
  let! (_, dest_size) := DI_MEM_GET_DEST in
  let! (src, _) := DI_MEM_GET 1 in
  let! (shift, _) := DI_MEM_GET 2 in
  let bits := dest_size * 8 in
  let count := Z.land (u32 shift) (bits - 1) in
  let src := Z.land src (Di_SizeMask dest_size) in
  DI_MEM_SET_DEST (shiftx operation src count dest_size).

Definition Diana_Call_sarx : MP T unit := Di_ShiftX DI_SARX.
Definition Diana_Call_shlx : MP T unit := Di_ShiftX DI_SHLX.
Definition Diana_Call_shrx : MP T unit := Di_ShiftX DI_SHRX.

(** ** CRC32, MOVBE, ADX *)

Definition Diana_Call_crc32 : MP T unit :=
  let! (dest, _) := DI_MEM_GET_DEST in
  let! (src, src_size) := DI_MEM_GET_SRC in
  DI_MEM_SET_DEST (crc32_loop (Z.to_nat src_size) 0 (u32 dest) src).

Definition Diana_Call_movbe : MP T unit :=
  let! (_, dest_size) := DI_MEM_GET_DEST in
  let! (src, _) := DI_MEM_GET_SRC in
  DI_MEM_SET_DEST (movbe_loop (Z.to_nat dest_size) 0 src 0 dest_size).

Definition Di_AddCarry (overflowFlag : bool) : MP T unit :=
  let! (dest, dest_size) := DI_MEM_GET_DEST in
  let! (src, _) := DI_MEM_GET_SRC in
  let mask := Di_SizeMask dest_size in
  let dest := Z.land dest mask in
  let src := Z.land src mask in
  let! carry := (if overflowFlag then GET_FLAG_OF else GET_FLAG_CF) in
  let carry := if negb (carry =? 0) then 1 else 0 in
  let sum := Z.land (u64 (dest + src + carry)) mask in
  let carry := (sum <? dest) || (negb (carry =? 0) && (sum =? dest)) in
  (if overflowFlag then CLEAR_FLAG_OF ;;; when carry SET_FLAG_OF
   else CLEAR_FLAG_CF ;;; when carry SET_FLAG_CF) ;;;
  DI_MEM_SET_DEST sum.

Definition Diana_Call_adcx : MP T unit := Di_AddCarry false.
Definition Diana_Call_adox : MP T unit := Di_AddCarry true.

Definition Diana_Call_endbr32 : MP T unit := ret tt.
Definition Diana_Call_endbr64 : MP T unit := ret tt.
End Bits.
