(* ===== verification/CmdMove.v ===== *)
(** The moves (diana_processor_cmd_m.c and others) and the remaining handlers of
    diana_processor_commands.c. *)

From Stdlib Require Import ZArith Lia List Bool.
Import ListNotations.
From S2P Require Import Prelude Words Status Registers ProcStreams Processor CmdInternal.
Local Open Scope Z_scope.
Local Open Scope diana_scope.

Section Move.
Context {T : Type} `{RandomStream T}.

Definition Diana_Call_mov : MP T unit :=
  let! _ := DianaProcessor_GetOperandSize 0 in
  let! (src, src_size) := DI_MEM_GET_SRC in
  let dest := src in
  let! dest := Di_CheckZeroExtends dest src_size in
  DI_MEM_SET_DEST dest.

Definition Diana_Call_movsx : MP T unit :=
  let! (dest, dest_size) := DI_MEM_GET_DEST in
  let! (src, src_size) := DI_MEM_GET_SRC in
  let! src := DI_SIGN_EXTEND src src_size dest_size in
  DI_MEM_SET_DEST src.

Definition Diana_Call_movzx : MP T unit :=
  let! (dest, dest_size) := DI_MEM_GET_DEST in
  let! (src, src_size) := DI_MEM_GET_SRC in
  let! dest := Di_CheckZeroExtends src src_size in
  DI_MEM_SET_DEST dest.

Definition Diana_Call_movsxd : MP T unit :=
  let! (dest, dest_size) := DI_MEM_GET_DEST in
  let! (src, src_size) := DI_MEM_GET_SRC in
  let! src := DI_SIGN_EXTEND src src_size dest_size in
  let! opsize := context iCurrentCmd_opsize in
  let dest :=
    if opsize =? DIANA_MODE16
    then Z.lor (Z.land dest (u64 (Z.lnot 0xFFFF))) (Z.land src 0xFFFF)
    else src in
  Di_ClearUpperHalf ;;;
  DI_MEM_SET_DEST dest.

(** The source is not read: its size is the 0 of the declaration. *)
Definition Diana_Call_lea : MP T unit :=
  let! _ := DI_MEM_GET_DEST in
  let! r := result (fun r => r) in
  match value (linked_op r 1) with
  | diana_index pIndex =>
      let! (_, memAddress) := DianaProcessor_CalcIndex pIndex in
      let! dest := Di_CheckZeroExtends memAddress 0 in
      DI_MEM_SET_DEST dest
  | _ => fail DI_ERROR
  end.

Definition Diana_Call_lXs_impl (segRegId : Z) : MP T unit :=
  let! (dest, dest_size) := DI_MEM_GET_DEST in
  let! (selector, address, segReg) := Diana_QueryAddress 1 in
  let! offset_value := DianaProcessor_GetMemValue selector address dest_size segReg in
  let! seg_value := DianaProcessor_GetMemValue selector (u64 (address + dest_size)) 2 segReg in
  DI_MEM_SET_DEST offset_value ;;;
  SET_REG segRegId seg_value.

Definition Diana_Call_lfs : MP T unit := Diana_Call_lXs_impl reg_FS.
Definition Diana_Call_lgs : MP T unit := Diana_Call_lXs_impl reg_GS.
Definition Diana_Call_lss : MP T unit := Diana_Call_lXs_impl reg_SS.
Definition Diana_Call_lds : MP T unit := Diana_Call_lXs_impl reg_DS.
Definition Diana_Call_les : MP T unit := Diana_Call_lXs_impl reg_ES.

Definition Diana_Call_xchg : MP T unit :=
  let! (dest, dest_size) := DI_MEM_GET_DEST in
  let! (src, src_size) := DI_MEM_GET_SRC in
  let temp := dest in
  let dest := src in
  let src := temp in
  let! dest := Di_CheckZeroExtends dest src_size in
  let! src := Di_CheckZeroExtends2 src dest_size in
  DI_MEM_SET_DEST dest ;;;
  DI_MEM_SET_SRC src.

Definition Diana_Call_xlat : MP T unit :=
  let! addressSize := context iCurrentCmd_addressSize in
  let! dest := GET_REG2 reg_RBX addressSize in
  let! al := GET_REG reg_AL in
  let dest := u64 (dest + al) in
  let! ds := GET_REG reg_DS in
  let! r := DianaProcessor_GetMemValue ds dest 1 reg_DS in
  SET_REG reg_AL r.

Definition Diana_Call_smsw : MP T unit :=
  let! r := result (fun r => r) in
  match value (linked_op r 0) with
  | diana_index _ =>
      let! _ := DI_MEM_GET_DEST in
      let! cr0 := GET_REG reg_CR0 in
      DI_MEM_SET_DEST (Z.land cr0 0xFFFF)
  | diana_register _ =>
      let! (src_dest, _) := DI_MEM_GET_DEST in
      let! cr0 := GET_REG reg_CR0 in
      DI_MEM_SET_DEST (Z.lor (Z.land src_dest (u64 (Z.lnot 0xFFFF))) (Z.land cr0 0xFFFF))
  | _ => fail DI_ERROR
  end.
End Move.

(** ** The pcg32 generator *)

Definition DianaProcessRandom_Init : DianaProcessRandom :=
  mkDianaProcessRandom 0xa35221fd4245c 0xdfdf343112.

Definition DianaProcessRandom_Generate32 (pRandom : DianaProcessRandom)
    : Z * DianaProcessRandom :=
  let oldstate := state pRandom in
  let next := u64 (oldstate * 6364136223846793005 + Z.lor (inc pRandom) 1) in
  let xorshifted := u32 (Z.shiftr (Z.lxor (Z.shiftr oldstate 18) oldstate) 27) in
  let rot := u32 (Z.shiftr oldstate 59) in
  (Z.lor (Z.shiftr xorshifted rot) (u32 (Z.shiftl xorshifted (Z.land (u32 (0 - rot)) 31))),
   mkDianaProcessRandom next (inc pRandom)).

(** The high half is drawn first. *)
Definition DianaProcessRandom_Generate (pRandom : DianaProcessRandom) : Z * DianaProcessRandom :=
  let (h, pRandom) := DianaProcessRandom_Generate32 pRandom in
  let (l, pRandom) := DianaProcessRandom_Generate32 pRandom in
  (l + 0x100000000 * h, pRandom).

Section Misc.
Context {T : Type} `{RandomStream T}.

Definition Diana_Call_clc : MP T unit := CLEAR_FLAG_CF.
Definition Diana_Call_cld : MP T unit := CLEAR_FLAG_DF.
Definition Diana_Call_cli : MP T unit := CLEAR_FLAG_IF.
Definition Diana_Call_stc : MP T unit := SET_FLAG_CF.
Definition Diana_Call_std : MP T unit := SET_FLAG_DF.
Definition Diana_Call_sti : MP T unit := SET_FLAG_IF.

Definition Diana_Call_cmc : MP T unit :=
  let! cf := GET_FLAG_CF in
  if negb (cf =? 0) then CLEAR_FLAG_CF else SET_FLAG_CF.

Definition Diana_Call_lahf : MP T unit :=
  let! ah := gets (fun s => u8 (m_flags s)) in SET_REG reg_AH ah.

(** The low byte of the flags, then the bits the processor fixes. *)
Definition Diana_Call_sahf : MP T unit :=
  let! ah := GET_REG reg_AH in
  modify (with_flags (fun f => Z.shiftl (Z.shiftr f 8) 8 + u8 ah)) ;;;
  DianaProcessor_SetResetDefaultFlags.

Definition Diana_Call_cpuid : MP T unit :=
  let! eaxValue := GET_REG reg_EAX in
  SET_REG reg_EAX 0 ;;;
  SET_REG reg_EBX 0 ;;;
  SET_REG reg_ECX 0 ;;;
  SET_REG reg_EDX 0 ;;;
  if eaxValue =? 0 then
    SET_REG reg_EAX 0x00000001 ;;;
    SET_REG reg_EBX 0x756E6547 ;;;
    SET_REG reg_ECX 0x6C65746E ;;;
    SET_REG reg_EDX 0x49656E69
  else if eaxValue =? 1 then
    SET_REG reg_EAX 0x000306A9 ;;;
    SET_REG reg_EBX 0x03100800 ;;;
    SET_REG reg_ECX 0x7FBAE3BF ;;;
    SET_REG reg_EDX 0xBFEBFBFF
  else if eaxValue =? 0x80000000 then SET_REG reg_EAX 0x80000001
  else if eaxValue =? 0x80000001 then SET_REG reg_EDX 0x28100000
  else ret tt.

Definition Diana_Call_rdrand : MP T unit :=
  let! dest := gets (fun s => fst (DianaProcessRandom_Generate (m_random s))) in
  modify (with_random (fun r => snd (DianaProcessRandom_Generate r))) ;;;
  DI_MEM_SET_DEST dest.

Definition Diana_Call_rdseed : MP T unit :=
  let! dest := gets (fun s => fst (DianaProcessRandom_Generate (m_random s))) in
  modify (with_random (fun r => snd (DianaProcessRandom_Generate r))) ;;;
  DI_MEM_SET_DEST dest.

Definition Diana_Call_int : MP T unit := ret tt.
Definition Diana_Call_nop : MP T unit := ret tt.
Definition Diana_Call_hint_nop : MP T unit := ret tt.
Definition Diana_Call_do_nothing : MP T unit := ret tt.
End Misc.
