(* ===== verification/ProcessorInit.v ===== *)
(** What is set up at start: the vector of registers (diana_processor_impl_init.h) and the table that
    gives every integer command its handler ([DianaProcessor_OnGroup]). *)

From Stdlib Require Import ZArith Lia List Bool.
Import ListNotations.
From S2P Require Import Prelude Words Status Registers ProcStreams Processor CmdMove.
From S2P Require Import CmdInternal CmdArith.
From S2P Require Import CmdLogic CmdFlow CmdMulDiv CmdStack CmdString CmdBits.
Local Open Scope Z_scope.
Local Open Scope diana_scope.

Definition Diana_InitContext (Mode : Z) : DianaContext :=
  if Mode =? DIANA_MODE64 then
    {| iMainMode_opsize := DIANA_MODE32; iCurrentCmd_opsize := DIANA_MODE32;
       iMainMode_addressSize := DIANA_MODE64; iCurrentCmd_addressSize := DIANA_MODE64;
       currentCmd_sreg := reg_DS; iAMD64Mode := 1; iRexPrefix := 0 |}
  else
    {| iMainMode_opsize := Mode; iCurrentCmd_opsize := Mode;
       iMainMode_addressSize := Mode; iCurrentCmd_addressSize := Mode;
       currentCmd_sreg := reg_DS; iAMD64Mode := 0; iRexPrefix := 0 |}.

(** What [malloc] delivers: the bytes of a fresh block of the size asked for, or [None]. *)
Definition allocator : Type := Z -> option (list Z).

Section Init.
Context {T : Type}.
Variable m_alloc : allocator.

(** [m_registers[reg]]; a register outside of the table does not occur. *)
Definition set_register_slot (r : Z) (info : DianaRegInfo) : MP T unit :=
  modify (with_registers (fun l =>
    firstn (Z.to_nat r) l ++ [info] ++ skipn (S (Z.to_nat r)) l)).

Definition Diana_RegisterSubRegister (r size parentReg offset : Z) : MP T unit :=
  let! parentOffset := gets (fun s => m_offset (register_slot s parentReg)) in
  set_register_slot r (mkDianaRegInfo size (parentOffset + offset)).

(** The vector grows when the register does not fit. *)
Definition Diana_RegisterRegister (r size : Z) : MP T unit :=
  let! last := gets m_iLastRegistersOffset in
  let! vectorSize := gets (fun s => Z.of_nat (length (m_pRegistersVector s))) in
  (if vectorSize <? last + size then
     let newSize := (last + size) * 2 in
     match m_alloc newSize with
     | Some block =>
         modify (with_pRegistersVector (fun v => v ++ skipn (length v) block))
     | None => fail DI_OUT_OF_MEMORY
     end
   else ret tt) ;;;
  set_register_slot r (mkDianaRegInfo size last) ;;;
  modify (with_iLastRegistersOffset (fun o => o + size)).

(** The macros [REGISTER_REGISTER] and [REGISTER_SUB_REGISTER] drop the status. *)
Definition register_call (c : RegisterCall) (s : DianaProcessor T) : DianaProcessor T :=
  match c with
  | REGISTER_REGISTER r => snd (Diana_RegisterRegister r (SIZE_of r) s)
  | REGISTER_SUB_REGISTER r parentReg offset =>
      snd (Diana_RegisterSubRegister r (SIZE_of r) parentReg offset s)
  end.

Definition DianaProcessor_ResetFPU : MP T unit :=
  modify (with_fpu (fun _ => {| controlWord := 0x037F; statusWord := 0;
                                registerFlags := repeat 0 8 |})).

Definition DianaProcessor_InitProcessorImpl : MP T unit :=
  DianaProcessor_SetResetDefaultFlags ;;;
  DianaProcessor_ResetFPU ;;;
  modify (with_mxcsr (fun _ => DI_MXCSR_DEFAULT)) ;;;
  modify (with_pkru (fun _ => 0)) ;;;
  match m_alloc DI_REG_INIT_VALUE with
  | None => fail DI_OUT_OF_MEMORY
  | Some block =>
      modify (with_pRegistersVector (fun _ => block)) ;;;
      modify (fun s => fold_left (fun s c => register_call c s) registrations s) ;;;
      modify (with_pRegistersVector (fun v => map (fun _ => 0) v))
  end.

(** The [memset]s of [DianaProcessor_Init]: the registers are -1, all else is 0. *)
Definition zeroed_processor (pMemoryStream : T) : DianaProcessor T :=
  {| m_iLastRegistersOffset := 0;
     m_pRegistersVector := [];
     m_registers := repeat no_register (Z.to_nat count_of_DianaUnifiedRegister);
     m_pMemoryStream := pMemoryStream;
     m_flags := 0;
     m_context := mkDianaContext 0 0 0 0 0 0 0;
     m_result := mkDianaParserResult 0 0 [] 0 0 0;
     m_stateFlags := 0;
     m_stateFlagsToRemove := 0;
     m_tempRIP := 0;
     m_fpu := {| controlWord := 0; statusWord := 0; registerFlags := repeat 0 8 |};
     m_options := 0;
     m_initialDianaMode := 0;
     m_lastCallRIP := 0;
     m_lastCallRSP := 0;
     m_random := mkDianaProcessRandom 0 0;
     m_mxcsr := 0;
     m_pkru := 0 |}.

Definition DianaProcessor_Init (pMemoryStream : T) (mode : Z) : outcome unit * DianaProcessor T :=
  let init : MP T unit :=
    modify (with_context (fun _ => Diana_InitContext mode)) ;;;
    modify (with_initialDianaMode (fun _ => mode)) ;;;
    modify (with_random (fun _ => DianaProcessRandom_Init)) ;;;
    DianaProcessor_InitProcessorImpl in
  init (zeroed_processor pMemoryStream).
End Init.

(** A [malloc] that always succeeds. *)
Definition plenty : allocator := fun n => Some (repeat 0xCD (Z.to_nat n)).

Section Table.
Context {T : Type} `{RandomStream T}.

Definition integer_commands : list (Z * MP T unit) :=
  [(330, Diana_Call_aaa); (331, Diana_Call_aad); (332, Diana_Call_aam); (333, Diana_Call_aas);
   (334, Diana_Call_adc); (335, Diana_Call_add); (336, Diana_Call_and); (339, Diana_Call_bsf);
   (340, Diana_Call_bsr); (341, Diana_Call_bt); (342, Diana_Call_btc); (343, Diana_Call_btr);
   (344, Diana_Call_bts); (345, Diana_Call_call); (346, Diana_Call_cbw); (347, Diana_Call_clc);
   (348, Diana_Call_cld); (349, Diana_Call_cli); (351, Diana_Call_cmc); (352, Diana_Call_cmova);
   (353, Diana_Call_cmovae); (354, Diana_Call_cmovb); (355, Diana_Call_cmovbe);
   (356, Diana_Call_cmove); (357, Diana_Call_cmovg); (358, Diana_Call_cmovge);
   (359, Diana_Call_cmovl); (360, Diana_Call_cmovle); (361, Diana_Call_cmovne);
   (362, Diana_Call_cmovno); (363, Diana_Call_cmovnp); (364, Diana_Call_cmovns);
   (365, Diana_Call_cmovo); (366, Diana_Call_cmovp); (367, Diana_Call_cmovs);
   (368, Diana_Call_cmp); (369, Diana_Call_cmps); (370, Diana_Call_cmpxchg);
   (278, Diana_Call_cmpxchg16b); (279, Diana_Call_cpuid); (372, Diana_Call_daa);
   (373, Diana_Call_das); (374, Diana_Call_dec); (375, Diana_Call_div); (378, Diana_Call_idiv);
   (379, Diana_Call_imul); (381, Diana_Call_inc); (386, Diana_Call_ja); (387, Diana_Call_jae);
   (388, Diana_Call_jb); (389, Diana_Call_jbe); (390, Diana_Call_je); (392, Diana_Call_jg);
   (393, Diana_Call_jge); (394, Diana_Call_jl); (395, Diana_Call_jle); (397, Diana_Call_jne);
   (398, Diana_Call_jno); (399, Diana_Call_jnp); (400, Diana_Call_jns); (401, Diana_Call_jo);
   (402, Diana_Call_jp); (403, Diana_Call_js); (391, Diana_Call_jecxz); (396, Diana_Call_jmp);
   (404, Diana_Call_lahf); (407, Diana_Call_lea); (408, Diana_Call_leave);
   (416, Diana_Call_lods); (410, Diana_Call_lfs); (412, Diana_Call_lgs); (421, Diana_Call_lss);
   (406, Diana_Call_lds); (409, Diana_Call_les); (417, Diana_Call_loop);
   (418, Diana_Call_loope); (419, Diana_Call_loopne); (423, Diana_Call_mov);
   (424, Diana_Call_movs); (425, Diana_Call_movsx); (295, Diana_Call_movsxd);
   (426, Diana_Call_movzx); (427, Diana_Call_mul); (428, Diana_Call_neg); (429, Diana_Call_not);
   (1, Diana_Call_nop); (329, Diana_Call_hint_nop); (430, Diana_Call_or);
   (436, Diana_Call_push); (438, Diana_Call_pushf); (435, Diana_Call_popf);
   (433, Diana_Call_pop); (434, Diana_Call_popa); (437, Diana_Call_pusha);
   (297, Diana_Call_pause); (439, Diana_Call_rcl); (440, Diana_Call_rcr); (443, Diana_Call_rol);
   (444, Diana_Call_ror); (491, Diana_Call_rdrand); (490, Diana_Call_rdseed);
   (445, Diana_Call_sahf); (466, Diana_Call_shl); (446, Diana_Call_sar); (447, Diana_Call_sbb);
   (473, Diana_Call_stc); (475, Diana_Call_sti); (474, Diana_Call_std); (467, Diana_Call_shld);
   (468, Diana_Call_shr); (469, Diana_Call_shrd); (448, Diana_Call_scas);
   (476, Diana_Call_stos); (449, Diana_Call_seta); (450, Diana_Call_setae);
   (451, Diana_Call_setb); (452, Diana_Call_setbe); (453, Diana_Call_sete);
   (454, Diana_Call_setg); (455, Diana_Call_setge); (456, Diana_Call_setl);
   (457, Diana_Call_setle); (458, Diana_Call_setne); (459, Diana_Call_setno);
   (460, Diana_Call_setnp); (461, Diana_Call_setns); (462, Diana_Call_seto);
   (463, Diana_Call_setp); (464, Diana_Call_sets); (472, Diana_Call_smsw);
   (376, Diana_Call_enter); (371, Diana_Call_cwd); (484, Diana_Call_xor);
   (481, Diana_Call_xadd); (482, Diana_Call_xchg); (483, Diana_Call_xlat);
   (479, Diana_Call_test); (478, Diana_Call_sub); (441, Diana_Call_ret); (442, Diana_Call_retf);
   (296, Diana_Call_bswap); (307, Diana_Call_do_nothing); (308, Diana_Call_do_nothing);
   (309, Diana_Call_do_nothing); (310, Diana_Call_do_nothing); (311, Diana_Call_do_nothing);
   (312, Diana_Call_do_nothing); (975, Diana_Call_mov); (976, Diana_Call_mov);
   (964, Diana_Call_do_nothing); (972, Diana_Call_do_nothing); (970, Diana_Call_do_nothing);
   (971, Diana_Call_do_nothing); (982, Diana_Call_do_nothing); (623, Diana_Call_endbr32);
   (624, Diana_Call_endbr64); (627, Diana_Call_popcnt); (625, Diana_Call_lzcnt);
   (628, Diana_Call_tzcnt); (601, Diana_Call_andn); (602, Diana_Call_bextr);
   (605, Diana_Call_blsi); (604, Diana_Call_blsmsk); (603, Diana_Call_blsr);
   (606, Diana_Call_bzhi); (607, Diana_Call_mulx); (608, Diana_Call_pdep);
   (609, Diana_Call_pext); (610, Diana_Call_rorx); (611, Diana_Call_sarx);
   (613, Diana_Call_shlx); (612, Diana_Call_shrx); (622, Diana_Call_crc32);
   (626, Diana_Call_movbe); (620, Diana_Call_adcx); (621, Diana_Call_adox)].

(** [DI_PROC_REGISTER_COMMAND]: the tag of a group is the handler of its command; without one the
    tag stays null. *)
Definition command_tag (other_commands : Z -> option (MP T unit)) (commandId : Z) : option (MP T unit) :=
  match find (fun '(id, _) => id =? commandId) integer_commands with
  | Some (_, handler) => Some handler
  | None => other_commands commandId
  end.
End Table.
