(* ===== verification/DecTypes.v ===== *)
(** The data of the x86 decoder: the operand and command descriptions of diana_core.h and
    diana_gen.h, the opcode tables as trees, the decoder's context, its result, and the state one
    call of [Diana_ParseCmd] works on, with the accesses to it.

    The processor's own view of a decoded instruction is in Processor.v; the records here have
    every field the decoder reads or writes. *)

From Stdlib Require Import ZArith Lia List Bool.
Import ListNotations.
From S2P Require Import Prelude Words Status Registers.
Local Open Scope Z_scope.
Local Open Scope diana_scope.

(** ** Constants *)

Definition DI_CHAR_NULL : Z := 0xFF.
Definition DI_FULL_CHAR_NULL : Z := 0xFFFFFFFF.
Definition DI_INVALID_INPUT : Z := -9.
Definition DI_NOT_FOUND : Z := -17.
Definition DI_UNSUPPORTED : Z := -18.

Definition DI_MAX_OPERANDS_COUNT : Z := 6.
Definition DI_MAX_OPCODE_COUNT : Z := 4.
Definition DI_CACHE_RESERVED : Z := 2.
Definition DI_CACHE_SIZE : Z := DI_MAX_OPCODE_COUNT + 1 + DI_CACHE_RESERVED.
Definition DI_MAX_INSTRUCTION_SIZE : Z := 15.
Definition DI_MAX_PREFIXES_COUNT : Z := 14.
Definition DI_MAX_INSTRUCTION_SIZE_ALIGNED : Z := 16.
Definition DI_PROXY_BYTES_SIZE : Z := 32.
Definition DI_MAX_LINES_COUNT : Z := 8.
Definition MAX_IMM : Z := 2.

Definition DIANA_ARCH_X86 : Z := 0.
Definition DIANA_ARCH_AARCH64 : Z := 1.
Definition DIANA_ARCH_ARM32 : Z := 2.
Definition DIANA_ARCH_THUMB : Z := 3.

Definition DI_FLAG_CMD_SUPPORTS_IMM64 : Z := 0x1.
Definition DI_FLAG_CMD_AMD_DEFAULT_OPSIZE_64 : Z := 0x2.
Definition DI_FLAG_CMD_FPU_I : Z := 0x8.
Definition DI_FLAG_CMD_IGNORE_REX_PREFIX : Z := 0x10.
Definition DI_FLAG_CMD_I386 : Z := 0x20.
Definition DI_FLAG_CMD_AMD64 : Z := 0x40.
Definition DI_FLAG_CMD_POSTBYTE_USED : Z := 0x1000.
Definition DI_FLAG_CMD_REGISTER_AS_OPCODE : Z := 0x2000.
Definition DI_FLAG_CMD_HAS32BIT_ANALOG : Z := 0x4000.
Definition DI_FLAG_CMD_IS_TRUE_PREFIX : Z := 0x8000.
Definition DI_FLAG_CMD_TEST_MODE_ONLY : Z := 0x10000.
Definition DI_FLAG_CMD_VEX_ENCODED : Z := 0x40000.
Definition DI_VEX_GET_NDS (flags : Z) : Z := Z.land (Z.shiftr flags 25) 0x3.

Definition DI_VEX_PREFIX_PRESENT : Z := 1.
Definition DI_VEX_PREFIX_W : Z := 2.

Definition DIANA_BASE_GEN_OBJECT_CMD : Z := 0x01.
Definition DIANA_BASE_GEN_OBJECT_LINE : Z := 0x02.
Definition DIANA_BASE_GEN_OBJECT_INDEX : Z := 0x03.
Definition DIANA_BASE_GEN_OBJECT_THE_SAME_OPCODE : Z := 0x01.
Definition DIANA_BASE_GEN_OBJECT_VEX_W1 : Z := 0x08.
Definition DIANA_BASE_GEN_OBJECT_PREFIX_NO_66 : Z := 0x10.
Definition DIANA_BASE_GEN_OBJECT_PREFIX_NO_F2 : Z := 0x20.
Definition DIANA_BASE_GEN_OBJECT_PREFIX_NO_F3 : Z := 0x40.
Definition DIANA_BASE_GEN_OBJECT_VEX_W0 : Z := 0x80.
Definition DIANA_BASE_GEN_OBJECT_EVEX : Z := 0x100.

Definition DI_EVEX_VL_128 : Z := 0.
Definition DI_EVEX_VL_256 : Z := 1.
Definition DI_EVEX_VL_512 : Z := 2.
Definition DI_EVEX_VL_LIG : Z := 3.
Definition DI_EVEX_VL_MASK : Z := 3.
Definition DI_EVEX_MASK : Z := 0x4.
Definition DI_EVEX_ZEROING : Z := 0x8.
Definition DI_EVEX_MASK_REQUIRED : Z := 0x10.
Definition DI_EVEX_BCST_SHIFT : Z := 5.
Definition DI_EVEX_BCST_MASK : Z := 0x60.
Definition DI_EVEX_ER : Z := 0x80.
Definition DI_EVEX_SAE : Z := 0x100.
Definition DI_EVEX_N_SHIFT : Z := 9.
Definition DI_EVEX_N_MASK : Z := 0xE00.
Definition DI_EVEX_B_IGNORED : Z := 0x1000.
Definition DI_EVEX_DISTINCT : Z := 0x2000.

Definition DI_EVEX_PREFIX_PRESENT : Z := 1.
Definition DI_EVEX_PREFIX_R1 : Z := 2.
Definition DI_EVEX_PREFIX_V1 : Z := 4.
Definition DI_EVEX_PREFIX_X : Z := 8.
Definition DI_EVEX_PREFIX_B : Z := 16.
Definition DI_EVEX_PREFIX_Z : Z := 32.

Definition DIANA_EVEX_ROUND_SAE : Z := 1.
Definition DIANA_EVEX_ROUND_RN : Z := 2.

Definition DI_REX_PREFIX_START : Z := 0x40.
Definition DI_REX_PREFIX_END : Z := 0x4F.
Definition DI_REX_HAS_FLAG_R (X : Z) : bool := negb (Z.land X 0x4 =? 0).
Definition DI_REX_HAS_FLAG_X (X : Z) : bool := negb (Z.land X 0x2 =? 0).
Definition DI_REX_HAS_FLAG_B (X : Z) : bool := negb (Z.land X 0x1 =? 0).

Definition DIANA_HAS_ADDRESS_SIZE_PREFIX : Z := 1.
Definition DIANA_HAS_OPERAND_SIZE_PREFIX : Z := 2.
Definition DIANA_INVALID_STATE : Z := 4.

(** [x & m] as a condition. *)
Definition has_flag (x m : Z) : bool := negb (Z.land x m =? 0).

(** ** Commands ([DianaCommandId]), those the decoder singles out *)

Definition diana_cmd_cmpxchg16b : Z := 278.
Definition diana_cmd_in : Z := 380.
Definition diana_cmd_ins : Z := 382.
Definition diana_cmd_out : Z := 431.
Definition diana_cmd_outs : Z := 432.
Definition diana_cmd_ret : Z := 441.
Definition diana_cmd_retf : Z := 442.
Definition diana_cmd_iret : Z := 385.
Definition diana_cmd_leave : Z := 408.
Definition diana_cmd_call : Z := 345.
Definition diana_cmd_loop : Z := 417.
Definition diana_cmd_loope : Z := 418.
Definition diana_cmd_loopne : Z := 419.
Definition diana_cmd_jmp : Z := 396.
Definition diana_cmd_ja : Z := 386.
Definition diana_cmd_jae : Z := 387.
Definition diana_cmd_jb : Z := 388.
Definition diana_cmd_jbe : Z := 389.
Definition diana_cmd_je : Z := 390.
Definition diana_cmd_jg : Z := 392.
Definition diana_cmd_jge : Z := 393.
Definition diana_cmd_jl : Z := 394.
Definition diana_cmd_jle : Z := 395.
Definition diana_cmd_jne : Z := 397.
Definition diana_cmd_jno : Z := 398.
Definition diana_cmd_jnp : Z := 399.
Definition diana_cmd_jns : Z := 400.
Definition diana_cmd_jo : Z := 401.
Definition diana_cmd_jp : Z := 402.
Definition diana_cmd_js : Z := 403.
Definition diana_cmd_jecxz : Z := 391.
Definition diana_cmd_les : Z := 409.
Definition diana_cmd_lds : Z := 406.
Definition diana_cmd_into : Z := 384.
Definition diana_cmd_pop : Z := 433.
Definition diana_cmd_popf : Z := 435.
Definition diana_cmd_push : Z := 436.
Definition diana_cmd_pushf : Z := 438.
Definition diana_cmd_nop : Z := 1.

(** ** Operand and command descriptions *)

Inductive DianaOperands_type : Type :=
| diana_orNone | diana_orRegMem | diana_orRegistry | diana_orMemory | diana_orSreg
| diana_orImmediate | diana_orOffset | diana_orEAX | diana_orRel | diana_orRel16x32
| diana_orMemory16x32 | diana_orPtr | diana_orDX | diana_orCL | diana_orAnyCR | diana_orDR6or7
| diana_orTR6or7 | diana_orECX | diana_orEsDi | diana_orESI_ptr | diana_orRegMMX
| diana_orRegXMM | diana_orMemoryXMM | diana_orMemoryMMX | diana_orRegistry32
| diana_orReg32mem16 | diana_orFPU_ST | diana_orFPU_ST0 | diana_orFPU_STi
| diana_orReg16_32_64_mem16 | diana_orRegMem_exact | diana_orMemory_exact | diana_orRegYMM
| diana_orMemoryYMM | diana_orMemOnly | diana_orXMM0 | diana_orRegIs4 | diana_orVSIB
| diana_orRegZMM | diana_orMemoryZMM | diana_orRegK | diana_orMemoryK.

Scheme Boolean Equality for DianaOperands_type.

Definition is_type (t u : DianaOperands_type) : bool := DianaOperands_type_beq t u.

(** [m_sreg_type]: 0 none, 1..6 ES CS SS DS FS GS. *)
Record DianaOperandInfo : Type := mkDianaOperandInfo {
  m_type : DianaOperands_type;
  m_size : Z;
  m_size2 : Z;
  m_value : Z;
  m_sreg_type : Z
}.

(** The functions a [Diana_PrefixFnc] pointer can hold. *)
Inductive Diana_PrefixFnc : Type :=
| fn_Lock | fn_Rep | fn_Repn | fn_CS | fn_SS | fn_DS | fn_ES | fn_FS | fn_GS
| fn_OpSize | fn_AddrSize | fn_Rex | fn_Normal | fn_Nope.

(** [m_pGroupInfo] is the command of the group, [m_evex] the attributes in front of an EVEX
    entry ([DianaEvexCmdInfo]). *)
Record DianaCmdInfo : Type := mkDianaCmdInfo {
  m_parent_flags : Z;
  m_extension : Z;
  m_extension_mask : Z;
  m_extension_deny_mask : Z;
  m_lGroupId : Z;
  m_flags : Z;
  m_iCSIPExtensionSizeInBytes : Z;
  m_iImmediateOperandSizeInBytes : Z;
  m_iImmediateOperandSizeInBytes2 : Z;
  m_linkedPrefixFnc : option Diana_PrefixFnc;
  m_pGroupInfo : option Z;
  m_operands : list DianaOperandInfo;
  m_evex : Z
}.

Definition m_operandCount (i : DianaCmdInfo) : Z := Z.of_nat (length (m_operands i)).

(** ** The opcode tables: commands, lines of (opcode, entry) pairs, index lines of 256 entries *)

Inductive DianaBaseGenObject : Type :=
| CmdObject (info : DianaCmdInfo)
| LineObject (flags : Z) (keys : list (Z * option DianaBaseGenObject))
| IndexObject (flags : Z) (keys : list (option DianaBaseGenObject)).

(** ** Decoded operands *)

Record DianaRmIndex : Type := mkDianaRmIndex {
  seg_reg : Z;
  reg : Z;
  indexed_reg : Z;
  index : Z;
  dispSize : Z;
  dispValue : Z
}.
Definition with_seg_reg f (s : DianaRmIndex) : DianaRmIndex :=
  mkDianaRmIndex (f (seg_reg s)) (reg s) (indexed_reg s) (index s) (dispSize s) (dispValue s).
Definition with_reg f (s : DianaRmIndex) : DianaRmIndex :=
  mkDianaRmIndex (seg_reg s) (f (reg s)) (indexed_reg s) (index s) (dispSize s) (dispValue s).
Definition with_indexed_reg f (s : DianaRmIndex) : DianaRmIndex :=
  mkDianaRmIndex (seg_reg s) (reg s) (f (indexed_reg s)) (index s) (dispSize s) (dispValue s).
Definition with_index f (s : DianaRmIndex) : DianaRmIndex :=
  mkDianaRmIndex (seg_reg s) (reg s) (indexed_reg s) (f (index s)) (dispSize s) (dispValue s).
Definition with_dispSize f (s : DianaRmIndex) : DianaRmIndex :=
  mkDianaRmIndex (seg_reg s) (reg s) (indexed_reg s) (index s) (f (dispSize s)) (dispValue s).
Definition with_dispValue f (s : DianaRmIndex) : DianaRmIndex :=
  mkDianaRmIndex (seg_reg s) (reg s) (indexed_reg s) (index s) (dispSize s) (f (dispValue s)).

(** [DianaValueType] with the member of the union [DianaOperandValue] it selects. *)
Inductive DianaOperandValue : Type :=
| diana_none
| diana_register (recognizedRegister : Z)
| diana_index (rmIndex : DianaRmIndex)
| diana_imm (imm : Z)
| diana_call_ptr (m_segment m_address m_segment_size m_address_size : Z)
| diana_rel (m_size m_value : Z)
| diana_memory (m_index : DianaRmIndex)
| diana_reserved_reg.

Record DianaLinkedOperand : Type := mkDianaLinkedOperand {
  op_pInfo : option DianaOperandInfo;
  value : DianaOperandValue;
  iOffset : Z;
  usedSize : Z;
  usedAddressSize : Z
}.
Definition with_op_pInfo f (s : DianaLinkedOperand) : DianaLinkedOperand :=
  mkDianaLinkedOperand (f (op_pInfo s)) (value s) (iOffset s) (usedSize s) (usedAddressSize s).
Definition with_value f (s : DianaLinkedOperand) : DianaLinkedOperand :=
  mkDianaLinkedOperand (op_pInfo s) (f (value s)) (iOffset s) (usedSize s) (usedAddressSize s).
Definition with_iOffset f (s : DianaLinkedOperand) : DianaLinkedOperand :=
  mkDianaLinkedOperand (op_pInfo s) (value s) (f (iOffset s)) (usedSize s) (usedAddressSize s).
Definition with_usedSize f (s : DianaLinkedOperand) : DianaLinkedOperand :=
  mkDianaLinkedOperand (op_pInfo s) (value s) (iOffset s) (f (usedSize s)) (usedAddressSize s).
Definition with_usedAddressSize f (s : DianaLinkedOperand) : DianaLinkedOperand :=
  mkDianaLinkedOperand (op_pInfo s) (value s) (iOffset s) (usedSize s) (f (usedAddressSize s)).

Definition no_operand : DianaLinkedOperand := mkDianaLinkedOperand None diana_none 0 0 0.

Record DianaEvexInfo : Type := mkDianaEvexInfo {
  isEvex : Z;
  mask : Z;
  zeroing : Z;
  broadcast : Z;
  rounding : Z;
  vectorSize : Z;
  disp8Scale : Z
}.
Definition with_isEvex f (s : DianaEvexInfo) : DianaEvexInfo :=
  mkDianaEvexInfo (f (isEvex s)) (mask s) (zeroing s) (broadcast s) (rounding s) (vectorSize s)
    (disp8Scale s).
Definition with_mask f (s : DianaEvexInfo) : DianaEvexInfo :=
  mkDianaEvexInfo (isEvex s) (f (mask s)) (zeroing s) (broadcast s) (rounding s) (vectorSize s)
    (disp8Scale s).
Definition with_zeroing f (s : DianaEvexInfo) : DianaEvexInfo :=
  mkDianaEvexInfo (isEvex s) (mask s) (f (zeroing s)) (broadcast s) (rounding s) (vectorSize s)
    (disp8Scale s).
Definition with_broadcast f (s : DianaEvexInfo) : DianaEvexInfo :=
  mkDianaEvexInfo (isEvex s) (mask s) (zeroing s) (f (broadcast s)) (rounding s) (vectorSize s)
    (disp8Scale s).
Definition with_rounding f (s : DianaEvexInfo) : DianaEvexInfo :=
  mkDianaEvexInfo (isEvex s) (mask s) (zeroing s) (broadcast s) (f (rounding s)) (vectorSize s)
    (disp8Scale s).
Definition with_vectorSize f (s : DianaEvexInfo) : DianaEvexInfo :=
  mkDianaEvexInfo (isEvex s) (mask s) (zeroing s) (broadcast s) (rounding s) (f (vectorSize s))
    (disp8Scale s).
Definition with_disp8Scale f (s : DianaEvexInfo) : DianaEvexInfo :=
  mkDianaEvexInfo (isEvex s) (mask s) (zeroing s) (broadcast s) (rounding s) (vectorSize s)
    (f (disp8Scale s)).

Definition no_evex : DianaEvexInfo := mkDianaEvexInfo 0 0 0 0 0 0 0.

(** ** The result of a call *)

Record DianaParserResult : Type := mkDianaParserResult {
  pInfo : option DianaCmdInfo;
  linkedOperands : list DianaLinkedOperand;
  iLinkedOpCount : Z;
  r_iPrefix : Z;
  r_iRexPrefix : Z;
  iFullCmdSize : Z;
  bytes : list Z;
  bytesCount : Z;
  iOperandSize : Z;
  evex : DianaEvexInfo
}.
Definition with_pInfo f (s : DianaParserResult) : DianaParserResult :=
  mkDianaParserResult (f (pInfo s)) (linkedOperands s) (iLinkedOpCount s) (r_iPrefix s)
    (r_iRexPrefix s) (iFullCmdSize s) (bytes s) (bytesCount s) (iOperandSize s) (evex s).
Definition with_linkedOperands f (s : DianaParserResult) : DianaParserResult :=
  mkDianaParserResult (pInfo s) (f (linkedOperands s)) (iLinkedOpCount s) (r_iPrefix s)
    (r_iRexPrefix s) (iFullCmdSize s) (bytes s) (bytesCount s) (iOperandSize s) (evex s).
Definition with_iLinkedOpCount f (s : DianaParserResult) : DianaParserResult :=
  mkDianaParserResult (pInfo s) (linkedOperands s) (f (iLinkedOpCount s)) (r_iPrefix s)
    (r_iRexPrefix s) (iFullCmdSize s) (bytes s) (bytesCount s) (iOperandSize s) (evex s).
Definition with_r_iPrefix f (s : DianaParserResult) : DianaParserResult :=
  mkDianaParserResult (pInfo s) (linkedOperands s) (iLinkedOpCount s) (f (r_iPrefix s))
    (r_iRexPrefix s) (iFullCmdSize s) (bytes s) (bytesCount s) (iOperandSize s) (evex s).
Definition with_r_iRexPrefix f (s : DianaParserResult) : DianaParserResult :=
  mkDianaParserResult (pInfo s) (linkedOperands s) (iLinkedOpCount s) (r_iPrefix s)
    (f (r_iRexPrefix s)) (iFullCmdSize s) (bytes s) (bytesCount s) (iOperandSize s) (evex s).
Definition with_iFullCmdSize f (s : DianaParserResult) : DianaParserResult :=
  mkDianaParserResult (pInfo s) (linkedOperands s) (iLinkedOpCount s) (r_iPrefix s)
    (r_iRexPrefix s) (f (iFullCmdSize s)) (bytes s) (bytesCount s) (iOperandSize s) (evex s).
Definition with_bytes f (s : DianaParserResult) : DianaParserResult :=
  mkDianaParserResult (pInfo s) (linkedOperands s) (iLinkedOpCount s) (r_iPrefix s)
    (r_iRexPrefix s) (iFullCmdSize s) (f (bytes s)) (bytesCount s) (iOperandSize s) (evex s).
Definition with_bytesCount f (s : DianaParserResult) : DianaParserResult :=
  mkDianaParserResult (pInfo s) (linkedOperands s) (iLinkedOpCount s) (r_iPrefix s)
    (r_iRexPrefix s) (iFullCmdSize s) (bytes s) (f (bytesCount s)) (iOperandSize s) (evex s).
Definition with_iOperandSize f (s : DianaParserResult) : DianaParserResult :=
  mkDianaParserResult (pInfo s) (linkedOperands s) (iLinkedOpCount s) (r_iPrefix s)
    (r_iRexPrefix s) (iFullCmdSize s) (bytes s) (bytesCount s) (f (iOperandSize s)) (evex s).
Definition with_evex f (s : DianaParserResult) : DianaParserResult :=
  mkDianaParserResult (pInfo s) (linkedOperands s) (iLinkedOpCount s) (r_iPrefix s)
    (r_iRexPrefix s) (iFullCmdSize s) (bytes s) (bytesCount s) (iOperandSize s) (f (evex s)).

(** [DIANA_MEMSET(pResult, 0, sizeof(DianaParserResult))] *)
Definition zero_result : DianaParserResult :=
  mkDianaParserResult None (repeat no_operand 6) 0 0 0 0 (repeat 0 16) 0 0 no_evex.

(** ** The context

    [prefixes] holds the first [prefixesCount] elements of the array. *)

Record DianaPrefixInfo : Type := mkDianaPrefixInfo {
  linkedPrefixFnc : option Diana_PrefixFnc; prefix : Z
}.

Record DianaContext : Type := mkDianaContext {
  iMainMode_opsize : Z;
  iCurrentCmd_opsize : Z;
  iMainMode_addressSize : Z;
  iCurrentCmd_addressSize : Z;
  mainMode_sreg : Z;
  currentCmd_sreg : Z;
  iPrefix : Z;
  iSizePrefixes : Z;
  iAMD64Mode : Z;
  iRexPrefix : Z;
  iRexPrefixValue : Z;
  cache : list Z;
  cacheSize : Z;
  cacheIt : Z;
  lastPrefixBeforeRex : Z;
  prefixes : list DianaPrefixInfo;
  testMode : Z;
  iVexPrefix : Z;
  iVexVVVV : Z;
  iArch : Z;
  iEvexPrefix : Z;
  iEvexAAA : Z;
  iEvexLL : Z
}.
Definition with_iMainMode_opsize f (s : DianaContext) : DianaContext :=
  mkDianaContext (f (iMainMode_opsize s)) (iCurrentCmd_opsize s) (iMainMode_addressSize s)
    (iCurrentCmd_addressSize s) (mainMode_sreg s) (currentCmd_sreg s) (iPrefix s)
    (iSizePrefixes s) (iAMD64Mode s) (iRexPrefix s) (iRexPrefixValue s) (cache s) (cacheSize s)
    (cacheIt s) (lastPrefixBeforeRex s) (prefixes s) (testMode s) (iVexPrefix s) (iVexVVVV s)
    (iArch s) (iEvexPrefix s) (iEvexAAA s) (iEvexLL s).
Definition with_iCurrentCmd_opsize f (s : DianaContext) : DianaContext :=
  mkDianaContext (iMainMode_opsize s) (f (iCurrentCmd_opsize s)) (iMainMode_addressSize s)
    (iCurrentCmd_addressSize s) (mainMode_sreg s) (currentCmd_sreg s) (iPrefix s)
    (iSizePrefixes s) (iAMD64Mode s) (iRexPrefix s) (iRexPrefixValue s) (cache s) (cacheSize s)
    (cacheIt s) (lastPrefixBeforeRex s) (prefixes s) (testMode s) (iVexPrefix s) (iVexVVVV s)
    (iArch s) (iEvexPrefix s) (iEvexAAA s) (iEvexLL s).
Definition with_iMainMode_addressSize f (s : DianaContext) : DianaContext :=
  mkDianaContext (iMainMode_opsize s) (iCurrentCmd_opsize s) (f (iMainMode_addressSize s))
    (iCurrentCmd_addressSize s) (mainMode_sreg s) (currentCmd_sreg s) (iPrefix s)
    (iSizePrefixes s) (iAMD64Mode s) (iRexPrefix s) (iRexPrefixValue s) (cache s) (cacheSize s)
    (cacheIt s) (lastPrefixBeforeRex s) (prefixes s) (testMode s) (iVexPrefix s) (iVexVVVV s)
    (iArch s) (iEvexPrefix s) (iEvexAAA s) (iEvexLL s).
Definition with_iCurrentCmd_addressSize f (s : DianaContext) : DianaContext :=
  mkDianaContext (iMainMode_opsize s) (iCurrentCmd_opsize s) (iMainMode_addressSize s)
    (f (iCurrentCmd_addressSize s)) (mainMode_sreg s) (currentCmd_sreg s) (iPrefix s)
    (iSizePrefixes s) (iAMD64Mode s) (iRexPrefix s) (iRexPrefixValue s) (cache s) (cacheSize s)
    (cacheIt s) (lastPrefixBeforeRex s) (prefixes s) (testMode s) (iVexPrefix s) (iVexVVVV s)
    (iArch s) (iEvexPrefix s) (iEvexAAA s) (iEvexLL s).
Definition with_mainMode_sreg f (s : DianaContext) : DianaContext :=
  mkDianaContext (iMainMode_opsize s) (iCurrentCmd_opsize s) (iMainMode_addressSize s)
    (iCurrentCmd_addressSize s) (f (mainMode_sreg s)) (currentCmd_sreg s) (iPrefix s)
    (iSizePrefixes s) (iAMD64Mode s) (iRexPrefix s) (iRexPrefixValue s) (cache s) (cacheSize s)
    (cacheIt s) (lastPrefixBeforeRex s) (prefixes s) (testMode s) (iVexPrefix s) (iVexVVVV s)
    (iArch s) (iEvexPrefix s) (iEvexAAA s) (iEvexLL s).
Definition with_currentCmd_sreg f (s : DianaContext) : DianaContext :=
  mkDianaContext (iMainMode_opsize s) (iCurrentCmd_opsize s) (iMainMode_addressSize s)
    (iCurrentCmd_addressSize s) (mainMode_sreg s) (f (currentCmd_sreg s)) (iPrefix s)
    (iSizePrefixes s) (iAMD64Mode s) (iRexPrefix s) (iRexPrefixValue s) (cache s) (cacheSize s)
    (cacheIt s) (lastPrefixBeforeRex s) (prefixes s) (testMode s) (iVexPrefix s) (iVexVVVV s)
    (iArch s) (iEvexPrefix s) (iEvexAAA s) (iEvexLL s).
Definition with_iPrefix f (s : DianaContext) : DianaContext :=
  mkDianaContext (iMainMode_opsize s) (iCurrentCmd_opsize s) (iMainMode_addressSize s)
    (iCurrentCmd_addressSize s) (mainMode_sreg s) (currentCmd_sreg s) (f (iPrefix s))
    (iSizePrefixes s) (iAMD64Mode s) (iRexPrefix s) (iRexPrefixValue s) (cache s) (cacheSize s)
    (cacheIt s) (lastPrefixBeforeRex s) (prefixes s) (testMode s) (iVexPrefix s) (iVexVVVV s)
    (iArch s) (iEvexPrefix s) (iEvexAAA s) (iEvexLL s).
Definition with_iSizePrefixes f (s : DianaContext) : DianaContext :=
  mkDianaContext (iMainMode_opsize s) (iCurrentCmd_opsize s) (iMainMode_addressSize s)
    (iCurrentCmd_addressSize s) (mainMode_sreg s) (currentCmd_sreg s) (iPrefix s)
    (f (iSizePrefixes s)) (iAMD64Mode s) (iRexPrefix s) (iRexPrefixValue s) (cache s)
    (cacheSize s) (cacheIt s) (lastPrefixBeforeRex s) (prefixes s) (testMode s) (iVexPrefix s)
    (iVexVVVV s) (iArch s) (iEvexPrefix s) (iEvexAAA s) (iEvexLL s).
Definition with_iAMD64Mode f (s : DianaContext) : DianaContext :=
  mkDianaContext (iMainMode_opsize s) (iCurrentCmd_opsize s) (iMainMode_addressSize s)
    (iCurrentCmd_addressSize s) (mainMode_sreg s) (currentCmd_sreg s) (iPrefix s)
    (iSizePrefixes s) (f (iAMD64Mode s)) (iRexPrefix s) (iRexPrefixValue s) (cache s)
    (cacheSize s) (cacheIt s) (lastPrefixBeforeRex s) (prefixes s) (testMode s) (iVexPrefix s)
    (iVexVVVV s) (iArch s) (iEvexPrefix s) (iEvexAAA s) (iEvexLL s).
Definition with_iRexPrefix f (s : DianaContext) : DianaContext :=
  mkDianaContext (iMainMode_opsize s) (iCurrentCmd_opsize s) (iMainMode_addressSize s)
    (iCurrentCmd_addressSize s) (mainMode_sreg s) (currentCmd_sreg s) (iPrefix s)
    (iSizePrefixes s) (iAMD64Mode s) (f (iRexPrefix s)) (iRexPrefixValue s) (cache s)
    (cacheSize s) (cacheIt s) (lastPrefixBeforeRex s) (prefixes s) (testMode s) (iVexPrefix s)
    (iVexVVVV s) (iArch s) (iEvexPrefix s) (iEvexAAA s) (iEvexLL s).
Definition with_iRexPrefixValue f (s : DianaContext) : DianaContext :=
  mkDianaContext (iMainMode_opsize s) (iCurrentCmd_opsize s) (iMainMode_addressSize s)
    (iCurrentCmd_addressSize s) (mainMode_sreg s) (currentCmd_sreg s) (iPrefix s)
    (iSizePrefixes s) (iAMD64Mode s) (iRexPrefix s) (f (iRexPrefixValue s)) (cache s)
    (cacheSize s) (cacheIt s) (lastPrefixBeforeRex s) (prefixes s) (testMode s) (iVexPrefix s)
    (iVexVVVV s) (iArch s) (iEvexPrefix s) (iEvexAAA s) (iEvexLL s).
Definition with_cache f (s : DianaContext) : DianaContext :=
  mkDianaContext (iMainMode_opsize s) (iCurrentCmd_opsize s) (iMainMode_addressSize s)
    (iCurrentCmd_addressSize s) (mainMode_sreg s) (currentCmd_sreg s) (iPrefix s)
    (iSizePrefixes s) (iAMD64Mode s) (iRexPrefix s) (iRexPrefixValue s) (f (cache s))
    (cacheSize s) (cacheIt s) (lastPrefixBeforeRex s) (prefixes s) (testMode s) (iVexPrefix s)
    (iVexVVVV s) (iArch s) (iEvexPrefix s) (iEvexAAA s) (iEvexLL s).
Definition with_cacheSize f (s : DianaContext) : DianaContext :=
  mkDianaContext (iMainMode_opsize s) (iCurrentCmd_opsize s) (iMainMode_addressSize s)
    (iCurrentCmd_addressSize s) (mainMode_sreg s) (currentCmd_sreg s) (iPrefix s)
    (iSizePrefixes s) (iAMD64Mode s) (iRexPrefix s) (iRexPrefixValue s) (cache s)
    (f (cacheSize s)) (cacheIt s) (lastPrefixBeforeRex s) (prefixes s) (testMode s) (iVexPrefix s)
    (iVexVVVV s) (iArch s) (iEvexPrefix s) (iEvexAAA s) (iEvexLL s).
Definition with_cacheIt f (s : DianaContext) : DianaContext :=
  mkDianaContext (iMainMode_opsize s) (iCurrentCmd_opsize s) (iMainMode_addressSize s)
    (iCurrentCmd_addressSize s) (mainMode_sreg s) (currentCmd_sreg s) (iPrefix s)
    (iSizePrefixes s) (iAMD64Mode s) (iRexPrefix s) (iRexPrefixValue s) (cache s) (cacheSize s)
    (f (cacheIt s)) (lastPrefixBeforeRex s) (prefixes s) (testMode s) (iVexPrefix s) (iVexVVVV s)
    (iArch s) (iEvexPrefix s) (iEvexAAA s) (iEvexLL s).
Definition with_lastPrefixBeforeRex f (s : DianaContext) : DianaContext :=
  mkDianaContext (iMainMode_opsize s) (iCurrentCmd_opsize s) (iMainMode_addressSize s)
    (iCurrentCmd_addressSize s) (mainMode_sreg s) (currentCmd_sreg s) (iPrefix s)
    (iSizePrefixes s) (iAMD64Mode s) (iRexPrefix s) (iRexPrefixValue s) (cache s) (cacheSize s)
    (cacheIt s) (f (lastPrefixBeforeRex s)) (prefixes s) (testMode s) (iVexPrefix s) (iVexVVVV s)
    (iArch s) (iEvexPrefix s) (iEvexAAA s) (iEvexLL s).
Definition with_prefixes f (s : DianaContext) : DianaContext :=
  mkDianaContext (iMainMode_opsize s) (iCurrentCmd_opsize s) (iMainMode_addressSize s)
    (iCurrentCmd_addressSize s) (mainMode_sreg s) (currentCmd_sreg s) (iPrefix s)
    (iSizePrefixes s) (iAMD64Mode s) (iRexPrefix s) (iRexPrefixValue s) (cache s) (cacheSize s)
    (cacheIt s) (lastPrefixBeforeRex s) (f (prefixes s)) (testMode s) (iVexPrefix s) (iVexVVVV s)
    (iArch s) (iEvexPrefix s) (iEvexAAA s) (iEvexLL s).
Definition with_testMode f (s : DianaContext) : DianaContext :=
  mkDianaContext (iMainMode_opsize s) (iCurrentCmd_opsize s) (iMainMode_addressSize s)
    (iCurrentCmd_addressSize s) (mainMode_sreg s) (currentCmd_sreg s) (iPrefix s)
    (iSizePrefixes s) (iAMD64Mode s) (iRexPrefix s) (iRexPrefixValue s) (cache s) (cacheSize s)
    (cacheIt s) (lastPrefixBeforeRex s) (prefixes s) (f (testMode s)) (iVexPrefix s) (iVexVVVV s)
    (iArch s) (iEvexPrefix s) (iEvexAAA s) (iEvexLL s).
Definition with_iVexPrefix f (s : DianaContext) : DianaContext :=
  mkDianaContext (iMainMode_opsize s) (iCurrentCmd_opsize s) (iMainMode_addressSize s)
    (iCurrentCmd_addressSize s) (mainMode_sreg s) (currentCmd_sreg s) (iPrefix s)
    (iSizePrefixes s) (iAMD64Mode s) (iRexPrefix s) (iRexPrefixValue s) (cache s) (cacheSize s)
    (cacheIt s) (lastPrefixBeforeRex s) (prefixes s) (testMode s) (f (iVexPrefix s)) (iVexVVVV s)
    (iArch s) (iEvexPrefix s) (iEvexAAA s) (iEvexLL s).
Definition with_iVexVVVV f (s : DianaContext) : DianaContext :=
  mkDianaContext (iMainMode_opsize s) (iCurrentCmd_opsize s) (iMainMode_addressSize s)
    (iCurrentCmd_addressSize s) (mainMode_sreg s) (currentCmd_sreg s) (iPrefix s)
    (iSizePrefixes s) (iAMD64Mode s) (iRexPrefix s) (iRexPrefixValue s) (cache s) (cacheSize s)
    (cacheIt s) (lastPrefixBeforeRex s) (prefixes s) (testMode s) (iVexPrefix s) (f (iVexVVVV s))
    (iArch s) (iEvexPrefix s) (iEvexAAA s) (iEvexLL s).
Definition with_iArch f (s : DianaContext) : DianaContext :=
  mkDianaContext (iMainMode_opsize s) (iCurrentCmd_opsize s) (iMainMode_addressSize s)
    (iCurrentCmd_addressSize s) (mainMode_sreg s) (currentCmd_sreg s) (iPrefix s)
    (iSizePrefixes s) (iAMD64Mode s) (iRexPrefix s) (iRexPrefixValue s) (cache s) (cacheSize s)
    (cacheIt s) (lastPrefixBeforeRex s) (prefixes s) (testMode s) (iVexPrefix s) (iVexVVVV s)
    (f (iArch s)) (iEvexPrefix s) (iEvexAAA s) (iEvexLL s).
Definition with_iEvexPrefix f (s : DianaContext) : DianaContext :=
  mkDianaContext (iMainMode_opsize s) (iCurrentCmd_opsize s) (iMainMode_addressSize s)
    (iCurrentCmd_addressSize s) (mainMode_sreg s) (currentCmd_sreg s) (iPrefix s)
    (iSizePrefixes s) (iAMD64Mode s) (iRexPrefix s) (iRexPrefixValue s) (cache s) (cacheSize s)
    (cacheIt s) (lastPrefixBeforeRex s) (prefixes s) (testMode s) (iVexPrefix s) (iVexVVVV s)
    (iArch s) (f (iEvexPrefix s)) (iEvexAAA s) (iEvexLL s).
Definition with_iEvexAAA f (s : DianaContext) : DianaContext :=
  mkDianaContext (iMainMode_opsize s) (iCurrentCmd_opsize s) (iMainMode_addressSize s)
    (iCurrentCmd_addressSize s) (mainMode_sreg s) (currentCmd_sreg s) (iPrefix s)
    (iSizePrefixes s) (iAMD64Mode s) (iRexPrefix s) (iRexPrefixValue s) (cache s) (cacheSize s)
    (cacheIt s) (lastPrefixBeforeRex s) (prefixes s) (testMode s) (iVexPrefix s) (iVexVVVV s)
    (iArch s) (iEvexPrefix s) (f (iEvexAAA s)) (iEvexLL s).
Definition with_iEvexLL f (s : DianaContext) : DianaContext :=
  mkDianaContext (iMainMode_opsize s) (iCurrentCmd_opsize s) (iMainMode_addressSize s)
    (iCurrentCmd_addressSize s) (mainMode_sreg s) (currentCmd_sreg s) (iPrefix s)
    (iSizePrefixes s) (iAMD64Mode s) (iRexPrefix s) (iRexPrefixValue s) (cache s) (cacheSize s)
    (cacheIt s) (lastPrefixBeforeRex s) (prefixes s) (testMode s) (iVexPrefix s) (iVexVVVV s)
    (iArch s) (iEvexPrefix s) (iEvexAAA s) (f (iEvexLL s)).

Definition prefixesCount (c : DianaContext) : Z := Z.of_nat (length (prefixes c)).

(** ** The stream proxy of diana_stream_proxy.c; [m_pBuffer] is an offset in the cache. *)

Record DianaStreamProxy : Type := mkDianaStreamProxy {
  m_pBuffer : Z;
  begin : Z;
  tail_size : Z
}.
Definition with_m_pBuffer f (s : DianaStreamProxy) : DianaStreamProxy :=
  mkDianaStreamProxy (f (m_pBuffer s)) (begin s) (tail_size s).
Definition with_begin f (s : DianaStreamProxy) : DianaStreamProxy :=
  mkDianaStreamProxy (m_pBuffer s) (f (begin s)) (tail_size s).
Definition with_tail_size f (s : DianaStreamProxy) : DianaStreamProxy :=
  mkDianaStreamProxy (m_pBuffer s) (begin s) (f (tail_size s)).

(** ** The state of one call *)

Record DecState (T : Type) : Type := mkDecState {
  pContext : DianaContext;
  pResult : DianaParserResult;
  readStream : T;
  m_iReadSize : Z;
  m_lastBytes : list Z;
  cmdProxy : DianaStreamProxy
}.
Arguments mkDecState {T}.
Arguments pContext {T}.
Arguments pResult {T}.
Arguments readStream {T}.
Arguments m_iReadSize {T}.
Arguments m_lastBytes {T}.
Arguments cmdProxy {T}.

Section Updates.
Context {T : Type}.

Definition with_pContext f (s : DecState T) : DecState T :=
  mkDecState (f (pContext s)) (pResult s) (readStream s) (m_iReadSize s) (m_lastBytes s)
    (cmdProxy s).
Definition with_pResult f (s : DecState T) : DecState T :=
  mkDecState (pContext s) (f (pResult s)) (readStream s) (m_iReadSize s) (m_lastBytes s)
    (cmdProxy s).
Definition with_readStream f (s : DecState T) : DecState T :=
  mkDecState (pContext s) (pResult s) (f (readStream s)) (m_iReadSize s) (m_lastBytes s)
    (cmdProxy s).
Definition with_m_iReadSize f (s : DecState T) : DecState T :=
  mkDecState (pContext s) (pResult s) (readStream s) (f (m_iReadSize s)) (m_lastBytes s)
    (cmdProxy s).
Definition with_m_lastBytes f (s : DecState T) : DecState T :=
  mkDecState (pContext s) (pResult s) (readStream s) (m_iReadSize s) (f (m_lastBytes s))
    (cmdProxy s).
Definition with_cmdProxy f (s : DecState T) : DecState T :=
  mkDecState (pContext s) (pResult s) (readStream s) (m_iReadSize s) (m_lastBytes s)
    (f (cmdProxy s)).
End Updates.
