(* ===== verification/DecStreams.v ===== *)
(** How the decoder gets its bytes: the interface [DianaReadStream] as a class with its laws, the
    counting and recording proxy of [Diana_ParseCmd] (diana_core.c), the proxy over the cache
    (diana_stream_proxy.c) and [DianaReadValueAsLong] (diana_operands.c). *)

From Stdlib Require Import ZArith Lia List Bool.
Import ListNotations.
From S2P Require Import Prelude Words Status Registers DecTypes.
Local Open Scope Z_scope.
Local Open Scope diana_scope.

(** ** Fixed buffers: an access outside of the buffer has no result *)

Definition mem_read (l : list Z) (off n : Z) : option (list Z) :=
  if (0 <=? off) && (0 <=? n) && (off + n <=? Z.of_nat (length l))
  then Some (buf_bytes l off n) else None.

Definition mem_write (l : list Z) (off : Z) (src : list Z) : option (list Z) :=
  if (0 <=? off) && (off + Z.of_nat (length src) <=? Z.of_nat (length l))
  then Some (buf_update l off src) else None.

(** ** The interface: [DianaRead this n] gives the status, the bytes delivered (their number is
    [*readBytes]) and the stream afterwards. *)

Class DianaReadStream (T : Type) := { DianaRead : T -> Z -> Z * list Z * T }.

(** A stream that is well formed is a list of bytes still to come; a read that succeeds delivers some of the next
    ones, at most [n]; one that fails delivers none. *)
Class DianaReadStreamOk (T : Type) `{DianaReadStream T} := {
  content : T -> list Z;
  stream_ok : T -> Prop;
  content_ok : forall t, stream_ok t -> Forall byte_ok (content t);
  read_spec : forall t n st bs t', stream_ok t -> 0 < n -> DianaRead t n = (st, bs, t') ->
    content t = bs ++ content t' /\ Z.of_nat (length bs) <= n /\ (st <> DI_SUCCESS -> bs = []) /\
    stream_ok t'
}.

Section Decoder.
Context {T : Type} `{DianaReadStream T}.

(** ** The monad of the decoder *)

Definition D (A : Type) : Type := M (DecState T) A.

Definition context {A} (f : DianaContext -> A) : D A := gets (fun s => f (pContext s)).
Definition set_context (g : DianaContext -> DianaContext) : D unit := modify (with_pContext g).
Definition result {A} (f : DianaParserResult -> A) : D A := gets (fun s => f (pResult s)).
Definition set_result (g : DianaParserResult -> DianaParserResult) : D unit :=
  modify (with_pResult g).

Definition some_or_crash {A} (o : option A) : D A :=
  match o with Some a => ret a | None => crash end.

(** The status of a call, for the places that look at it: [Ok tt] is [DI_SUCCESS]. *)
Definition status_of (m : D unit) : D Z := fun s =>
  match m s with
  | (Ok _, s') => (Ok DI_SUCCESS, s')
  | (Err c, s') => (Ok c, s')
  | (Crash, s') => (Crash, s')
  end.

(** [return code;] *)
Definition return_status (code : Z) : D unit :=
  if code =? DI_SUCCESS then ret tt else fail code.

(** ** The cache *)

Definition cache_byte (i : Z) : D Z :=
  let! c := context cache in
  let! bs := some_or_crash (mem_read c i 1) in ret (nth 0 bs 0).

Definition cache_store (i : Z) (bs : list Z) : D unit :=
  let! c := context cache in
  let! c' := some_or_crash (mem_write c i bs) in set_context (with_cache (fun _ => c')).

(** [memmove(cache + dst, cache + src, n)] *)
Definition cache_move (dst src n : Z) : D unit :=
  let! c := context cache in
  let! bs := some_or_crash (mem_read c src n) in cache_store dst bs.

(** ** [DianaProxyReadStream]: counts and records what is read from the original stream

    [m_bytesCount] is the length of [m_lastBytes]. *)

Definition DianaProxyReadStream_AddBytes (bs : list Z) (s : DecState T) : DecState T :=
  if DI_PROXY_BYTES_SIZE <=? Z.of_nat (length (m_lastBytes s)) + Z.of_nat (length bs) then s
  else with_m_lastBytes (fun l => l ++ bs) s.

Definition ProxyDianaReadFnc (iBufferSize : Z) : D (Z * list Z) := fun s =>
  match DianaRead (readStream s) iBufferSize with
  | (iRes, bs, t) =>
      let s1 := with_readStream (fun _ => t) s in
      if iRes =? DI_SUCCESS
      then (Ok (iRes, bs),
            with_m_iReadSize (fun n => n + Z.of_nat (length bs))
              (DianaProxyReadStream_AddBytes bs s1))
      else (Ok (iRes, bs), s1)
  end.

(** [pReadFnc(readStream, cache + off, n, &bytesRead)]: the status and [bytesRead]. *)
Definition read_into_cache (off n : Z) : D (Z * Z) :=
  let! (iResult, bs) := ProxyDianaReadFnc n in
  cache_store off bs ;;; ret (iResult, Z.of_nat (length bs)).

(** ** [DianaStreamProxy]: the rest of the cache first, then the stream *)

Definition Diana_InitStreamProxy (pBuffer readBytes : Z) : D unit :=
  modify (with_cmdProxy (fun _ => mkDianaStreamProxy pBuffer 0 readBytes)).

Definition StreamProxy_Read (iBufferSize : Z) : D (Z * list Z) :=
  let! p := gets cmdProxy in
  let! c := context cache in
  if negb (tail_size p =? 0) then
    if iBufferSize <=? tail_size p then
      let! bs := some_or_crash (mem_read c (m_pBuffer p + begin p) iBufferSize) in
      modify (with_cmdProxy (fun p =>
        with_begin (fun b => b + iBufferSize) (with_tail_size (fun t => t - iBufferSize) p))) ;;;
      ret (DI_SUCCESS, bs)
    else
      let! bs := some_or_crash (mem_read c (m_pBuffer p + begin p) (tail_size p)) in
      let! (iRes, more) := ProxyDianaReadFnc (iBufferSize - tail_size p) in
      modify (with_cmdProxy (with_tail_size (fun _ => 0))) ;;;
      ret (iRes, bs ++ more)
  else ProxyDianaReadFnc iBufferSize.

(** Sign extension of an [n]-byte value as [DianaReadValueAsLong] does it. *)
Definition extend_sign (iValueSize v : Z) : Z :=
  if iValueSize =? 1 then if has_flag v 0x80 then u64 (v - 1 - 0xFF) else v
  else if iValueSize =? 2 then if has_flag v 0x8000 then u64 (v - 1 - 0xFFFF) else v
  else if iValueSize =? 4 then if has_flag v 0x80000000 then u64 (v - 1 - 0xFFFFFFFF) else v
  else if has_flag v 0x8000000000000000 then u64 (v - 1 - 0xFFFFFFFFFFFFFFFF) else v.

Definition DianaReadValueAsLong (iValueSize : Z) (iSigned : bool) : D Z :=
  if negb ((iValueSize =? 1) || (iValueSize =? 2) || (iValueSize =? 4) || (iValueSize =? 8))
  then fail DI_ERROR
  else
    let! (iRes, buffer) := StreamProxy_Read iValueSize in
    if negb (iRes =? DI_SUCCESS) then fail iRes
    else if negb (Z.of_nat (length buffer) =? iValueSize) then fail DI_ERROR
    else
      let v := le_decode buffer in
      ret (if iSigned then extend_sign iValueSize v else v).

End Decoder.

Arguments D T A : clear implicits.
