(* ===== verification/DecUtils.v ===== *)
(** diana_core_utils.c and the part of diana_core.c around the context: register numbers, legacy,
    REX, VEX and EVEX prefixes, the instruction cache. *)

From Stdlib Require Import ZArith Lia List Bool.
Import ListNotations.
From S2P Require Import Prelude Words Status Registers DecTypes DecStreams.
Local Open Scope Z_scope.
Local Open Scope diana_scope.

(** ** Registers *)

Definition g_diana_regsAmd8 : list Z := [reg_SPL; reg_BPL; reg_SIL; reg_DIL].

Definition g_regs : list (list Z) :=
  [[reg_AL; reg_CL; reg_DL; reg_BL; reg_AH; reg_CH; reg_DH; reg_BH;
    reg_R8B; reg_R9B; reg_R10B; reg_R11B; reg_R12B; reg_R13B; reg_R14B; reg_R15B];
   [reg_AX; reg_CX; reg_DX; reg_BX; reg_SP; reg_BP; reg_SI; reg_DI;
    reg_R8W; reg_R9W; reg_R10W; reg_R11W; reg_R12W; reg_R13W; reg_R14W; reg_R15W];
   [reg_EAX; reg_ECX; reg_EDX; reg_EBX; reg_ESP; reg_EBP; reg_ESI; reg_EDI;
    reg_R8D; reg_R9D; reg_R10D; reg_R11D; reg_R12D; reg_R13D; reg_R14D; reg_R15D];
   [reg_RAX; reg_RCX; reg_RDX; reg_RBX; reg_RSP; reg_RBP; reg_RSI; reg_RDI;
    reg_R8; reg_R9; reg_R10; reg_R11; reg_R12; reg_R13; reg_R14; reg_R15]].

(** [table3[0]] *)
Definition table3_MMX : list Z :=
  [reg_MM0; reg_MM1; reg_MM2; reg_MM3; reg_MM4; reg_MM5; reg_MM6; reg_MM7;
   reg_MM0; reg_MM1; reg_MM2; reg_MM3; reg_MM4; reg_MM5; reg_MM6; reg_MM7].

(** An element of a table; the index is within it. *)
Definition element (l : list Z) (i : Z) : Z := nth (Z.to_nat i) l 0.

(** The recognisers give the register, or no register for [DI_ERROR]. *)
Definition DianaRecognizeMMX (regId : Z) : option Z :=
  if regId <? 16 then Some (element table3_MMX regId) else None.

Definition Diana_VectorRegister (size number : Z) : Z :=
  if (number <? 0) || (31 <? number) then reg_none
  else if size =? 16 then
    (if number <? 16 then reg_XMM0 + number else reg_XMM16 + number - 16)
  else if size =? 32 then
    (if number <? 16 then reg_YMM0 + number else reg_YMM16 + number - 16)
  else if size =? 64 then reg_ZMM0 + number
  else reg_none.

(** The number and [*pSize]. *)
Definition Diana_VectorRegisterNumber (reg : Z) : Z * Z :=
  if (reg_XMM0 <=? reg) && (reg <=? reg_XMM15) then (reg - reg_XMM0, 16)
  else if (reg_XMM16 <=? reg) && (reg <=? reg_XMM31) then (reg - reg_XMM16 + 16, 16)
  else if (reg_YMM0 <=? reg) && (reg <=? reg_YMM15) then (reg - reg_YMM0, 32)
  else if (reg_YMM16 <=? reg) && (reg <=? reg_YMM31) then (reg - reg_YMM16 + 16, 32)
  else if (reg_ZMM0 <=? reg) && (reg <=? reg_ZMM31) then (reg - reg_ZMM0, 64)
  else (-1, 0).

Definition DianaRecognizeXMM (regId : Z) : option Z :=
  if u8 regId <? 32 then Some (Diana_VectorRegister 16 (u8 regId)) else None.
Definition DianaRecognizeYMM (regId : Z) : option Z :=
  if u8 regId <? 32 then Some (Diana_VectorRegister 32 (u8 regId)) else None.

Definition DianaRecognizeCommonReg (iOpSize regId isRexPrefix : Z) : option Z :=
  let pick (iIndex : Z) :=
    if regId <? 16 then
      if negb (isRexPrefix =? 0) && (iIndex =? 0) && (4 <=? regId) && (regId <? 8)
      then Some (element g_diana_regsAmd8 (regId - 4))
      else Some (element (nth (Z.to_nat iIndex) g_regs []) regId)
    else None in
  if iOpSize =? 8 then pick 3
  else if iOpSize =? 4 then pick 2
  else if iOpSize =? 2 then pick 1
  else if iOpSize =? 1 then pick 0
  else None.

(** ** ModRM and SIB bytes *)

Definition Diana_DispatchSIB (sib : Z) : Z * Z * Z :=
  (Z.shiftr (Z.land sib 0xC0) 6, Z.shiftr (Z.land sib 0x38) 3, Z.land sib 7).
Definition Diana_GetReg (postbyte : Z) : Z := Z.shiftr (Z.land postbyte 0x38) 3.
Definition Diana_GetRm (postbyte : Z) : Z := Z.land postbyte 7.
Definition Diana_GetMod (postbyte : Z) : Z := Z.shiftr (Z.land postbyte 0xC0) 6.

(** ** The descriptions of the prefixes ([Diana_InitUtils]) *)

Definition prefix_info (fnc : Diana_PrefixFnc) : DianaCmdInfo :=
  mkDianaCmdInfo 0 0 0 0 0 DI_FLAG_CMD_IS_TRUE_PREFIX 0 0 0 (Some fnc) None [] 0.

Definition g_rexInfo : DianaCmdInfo := prefix_info fn_Rex.
Definition g_Diana_Rep : DianaCmdInfo := prefix_info fn_Rep.
Definition g_Diana_Repn : DianaCmdInfo := prefix_info fn_Repn.
Definition g_Diana_Lock : DianaCmdInfo := prefix_info fn_Lock.
Definition g_Diana_OpSize : DianaCmdInfo := prefix_info fn_OpSize.
Definition g_Diana_AddrSize : DianaCmdInfo := prefix_info fn_AddrSize.
Definition g_Diana_CS : DianaCmdInfo := prefix_info fn_CS.
Definition g_Diana_SS : DianaCmdInfo := prefix_info fn_SS.
Definition g_Diana_DS : DianaCmdInfo := prefix_info fn_DS.
Definition g_Diana_ES : DianaCmdInfo := prefix_info fn_ES.
Definition g_Diana_FS : DianaCmdInfo := prefix_info fn_FS.
Definition g_Diana_GS : DianaCmdInfo := prefix_info fn_GS.

(** [Di_ProcessCustomPrefix]: the result ([nopFlags]), [*pbPrefixFound] and what it stores in
    [pResult->pInfo] when [pResult] is not null. *)
Definition Di_ProcessCustomPrefix (value : Z) : Z * bool * option DianaCmdInfo :=
  if value =? 0xF3 then (1, true, Some g_Diana_Rep)
  else if value =? 0xF2 then (1, true, Some g_Diana_Repn)
  else if value =? 0xF0 then (1, true, Some g_Diana_Lock)
  else if value =? 0x2E then (1, true, Some g_Diana_CS)
  else if value =? 0x36 then (1, true, Some g_Diana_SS)
  else if value =? 0x3E then (1, true, Some g_Diana_DS)
  else if value =? 0x26 then (1, true, Some g_Diana_ES)
  else if value =? 0x64 then (1, true, Some g_Diana_FS)
  else if value =? 0x65 then (1, true, Some g_Diana_GS)
  else if value =? 0x66 then (0, true, Some g_Diana_OpSize)
  else if value =? 0x67 then (0, true, Some g_Diana_AddrSize)
  else (1, false, None).

(** ** What a prefix does to the context *)

Definition no_rex (c : DianaContext) : DianaContext := with_iRexPrefix (fun _ => 0) c.

Definition Diana_Lock (c : DianaContext) := no_rex (with_iPrefix (fun _ => DI_PREFIX_LOCK) c).
Definition Diana_Rep (c : DianaContext) := no_rex (with_iPrefix (fun _ => DI_PREFIX_REP) c).
Definition Diana_Repn (c : DianaContext) := no_rex (with_iPrefix (fun _ => DI_PREFIX_REPN) c).

(** CS, SS, DS and ES: in 64-bit mode an FS or GS override before stays. *)
Definition old_segment (sreg : Z) (c : DianaContext) : DianaContext :=
  no_rex
    (if (iAMD64Mode c =? 0) ||
        (negb (currentCmd_sreg c =? reg_FS) && negb (currentCmd_sreg c =? reg_GS))
     then with_currentCmd_sreg (fun _ => sreg) c else c).
Definition Diana_CS := old_segment reg_CS.
Definition Diana_SS := old_segment reg_SS.
Definition Diana_DS := old_segment reg_DS.
Definition Diana_ES := old_segment reg_ES.
Definition Diana_FS (c : DianaContext) := no_rex (with_currentCmd_sreg (fun _ => reg_FS) c).
Definition Diana_GS (c : DianaContext) := no_rex (with_currentCmd_sreg (fun _ => reg_GS) c).

Definition Diana_OpSize (c0 : DianaContext) : DianaContext :=
  let c := no_rex c0 in
  if has_flag (iSizePrefixes c) DIANA_HAS_OPERAND_SIZE_PREFIX then c
  else
    let c := with_iSizePrefixes (fun x => Z.lor x DIANA_HAS_OPERAND_SIZE_PREFIX) c in
    if iCurrentCmd_opsize c =? 8
    then with_iSizePrefixes (fun x => Z.lor x DIANA_INVALID_STATE) c
    else with_iCurrentCmd_opsize (fun _ => 6 - iMainMode_opsize c) c.

Definition Diana_AddrSize (c0 : DianaContext) : DianaContext :=
  let c := no_rex c0 in
  if has_flag (iSizePrefixes c) DIANA_HAS_ADDRESS_SIZE_PREFIX then c
  else
    let c := with_iSizePrefixes (fun x => Z.lor x DIANA_HAS_ADDRESS_SIZE_PREFIX) c in
    if iCurrentCmd_addressSize c =? 8
    then with_iCurrentCmd_addressSize (fun _ => 4) c
    else with_iCurrentCmd_addressSize (fun _ => 6 - iMainMode_addressSize c) c.

Definition Diana_Rex (c0 : DianaContext) : DianaContext :=
  let c := with_iRexPrefix (fun _ => iRexPrefixValue c0) c0 in
  if DI_REX_HAS_FLAG_W (iRexPrefix c) then with_iCurrentCmd_opsize (fun _ => 8) c else c.

(** [Diana_Normal] (diana_core.c) *)
Definition Diana_Normal (c : DianaContext) : DianaContext :=
  mkDianaContext (iMainMode_opsize c) (iMainMode_opsize c)
    (iMainMode_addressSize c) (iMainMode_addressSize c)
    (mainMode_sreg c) (mainMode_sreg c) 0 0 (iAMD64Mode c) 0 0
    (cache c) (cacheSize c) (cacheIt c) DI_FULL_CHAR_NULL [] (testMode c)
    (iVexPrefix c) (iVexVVVV c) (iArch c) (iEvexPrefix c) (iEvexAAA c) (iEvexLL c).

Definition Diana_ResetPrefixes := Diana_Normal.

(** A call through a [Diana_PrefixFnc]; [Diana_Nope] does nothing in the release build. *)
Definition call_prefix (f : Diana_PrefixFnc) : DianaContext -> DianaContext :=
  match f with
  | fn_Lock => Diana_Lock | fn_Rep => Diana_Rep | fn_Repn => Diana_Repn
  | fn_CS => Diana_CS | fn_SS => Diana_SS | fn_DS => Diana_DS | fn_ES => Diana_ES
  | fn_FS => Diana_FS | fn_GS => Diana_GS
  | fn_OpSize => Diana_OpSize | fn_AddrSize => Diana_AddrSize | fn_Rex => Diana_Rex
  | fn_Normal => Diana_Normal | fn_Nope => fun c => c
  end.

(** ** Contexts *)

Definition Diana_InitContext (Mode : Z) : DianaContext :=
  let '(op, addr, amd) :=
    if Mode =? DIANA_MODE64 then (DIANA_MODE32, DIANA_MODE64, 1) else (Mode, Mode, 0) in
  mkDianaContext op op addr addr reg_DS reg_DS 0 0 amd 0 0
    (repeat 0 7) 0 DI_CACHE_RESERVED 0 [] 0 0 0 DIANA_ARCH_X86 0 0 0.

Definition Diana_InitContextEx (Mode arch : Z) : DianaContext :=
  with_iArch (fun _ => arch) (Diana_InitContext Mode).

Definition Diana_InitContextWithTestMode (Mode : Z) : DianaContext :=
  with_testMode (fun _ => 1) (Diana_InitContext Mode).

Definition Diana_ClearCache (c : DianaContext) : DianaContext :=
  with_cacheSize (fun _ => 0) (with_cacheIt (fun _ => DI_CACHE_RESERVED) c).

Definition Diana_CacheEatOneSafe (c : DianaContext) : DianaContext :=
  if (cacheSize c =? 0) || (DI_CACHE_SIZE <=? cacheIt c) then c
  else with_cacheSize (fun n => n - 1) (with_cacheIt (fun i => i + 1) c).
