(* ===== verification/DecPrefix.v ===== *)
(** The instruction cache and the prefixes with their effects on it: [Diana_ReadCache],
    [Diana_CacheEatOne], the REX, VEX and EVEX prefixes (diana_core_utils.c) and the list of the
    prefixes of an instruction ([Diana_InsertPrefix], diana_core_parsers.c). *)

From Stdlib Require Import ZArith Lia List Bool.
Import ListNotations.
From S2P Require Import Prelude Words Status Registers DecTypes DecStreams DecUtils.
Local Open Scope Z_scope.
Local Open Scope diana_scope.

Section Prefix.
Context {T : Type} `{DianaReadStream T}.

(** ** The cache *)

Definition Diana_CacheEatOne : D T Z :=
  let! it := context cacheIt in
  let! data := cache_byte it in
  set_context (fun c => with_cacheSize (fun n => n - 1) (with_cacheIt (fun i => i + 1) c)) ;;;
  ret data.

Definition Diana_ReadCache (bOptimize : bool) : D T unit :=
  when bOptimize (
    let! it := context cacheIt in
    let! size := context cacheSize in
    cache_move DI_CACHE_RESERVED it size ;;;
    set_context (with_cacheIt (fun _ => DI_CACHE_RESERVED))) ;;;
  let! it := context cacheIt in
  when (DI_CACHE_SIZE <=? it) (set_context (with_cacheIt (fun _ => DI_CACHE_RESERVED))) ;;;
  let! it := context cacheIt in
  let! size := context cacheSize in
  when (it + size <? DI_CACHE_SIZE) (
    let! (iResult, bytesRead) := read_into_cache (it + size) (DI_CACHE_SIZE - size - it) in
    if iResult =? DI_END then ret tt
    else if negb (iResult =? DI_SUCCESS) then fail iResult
    else set_context (with_cacheSize (fun n => n + bytesRead))) ;;;
  let! size := context cacheSize in
  if size =? 0 then fail DI_END else ret tt.

(** The read that tops up the cache after a VEX or EVEX prefix; its status is not looked at. *)
Definition top_up : D T unit :=
  let! it := context cacheIt in
  let! size := context cacheSize in
  when (it + size <? DI_CACHE_SIZE) (
    let! (_, bytesRead) := read_into_cache (it + size) (DI_CACHE_SIZE - size - it) in
    set_context (with_cacheSize (fun n => n + bytesRead))).

(** The bytes left after the prefix go to [cache + 2], the virtual prefix to [cache] and
    [cache + 1]. *)
Definition put_virtual_prefix (first selectorByte cacheIt cacheSize : Z) : D T unit :=
  cache_move DI_CACHE_RESERVED cacheIt cacheSize ;;;
  cache_store 0 [first] ;;;
  cache_store 1 [selectorByte] ;;;
  set_context (fun c =>
    with_cacheSize (fun _ => cacheSize + DI_CACHE_RESERVED) (with_cacheIt (fun _ => 0) c)).

(** ** REX *)

Definition is_rex (value : Z) : bool :=
  (DI_REX_PREFIX_START <=? value) && (value <=? DI_REX_PREFIX_END).

(** Gives [*pbPrefixFound]; the status is always 0. *)
Definition Di_ProcessRexPrefix (value : Z) : D T bool :=
  let! amd := context iAMD64Mode in
  if negb (amd =? 0) && is_rex value then
    set_context (with_iRexPrefixValue (fun _ => value)) ;;;
    set_result (with_pInfo (fun _ => Some g_rexInfo)) ;;;
    ret true
  else ret false.

(** ** The list of prefixes *)

Fixpoint find_prefix (p : Z) (l : list DianaPrefixInfo) (i : nat) : option nat :=
  match l with
  | [] => None
  | x :: l' => if prefix x =? p then Some i else find_prefix p l' (S i)
  end.

Definition remove_at {A} (i : nat) (l : list A) : list A := firstn i l ++ skipn (S i) l.

Definition insert_prefix (p : Z) (fnc : option Diana_PrefixFnc) (isRex : bool) (c : DianaContext)
    : DianaContext :=
  let c1 :=
    match find_prefix p (prefixes c) 0 with
    | Some i =>
        let c' := with_prefixes (remove_at i) c in
        let last := lastPrefixBeforeRex c' in
        if negb (last =? DI_FULL_CHAR_NULL) && (prefixesCount c' <=? last)
        then with_lastPrefixBeforeRex (fun _ =>
               if prefixesCount c' =? 0 then DI_FULL_CHAR_NULL else prefixesCount c' - 1) c'
        else c'
    | None => c
    end in
  let i := prefixesCount c1 in
  let c2 := with_prefixes (fun l => l ++ [mkDianaPrefixInfo fnc p]) c1 in
  if isRex then c2 else with_lastPrefixBeforeRex (fun _ => i) c2.

Definition Diana_InsertPrefix (p : Z) (fnc : option Diana_PrefixFnc) (isRex : bool) : D T unit :=
  let! n := context prefixesCount in
  if DI_MAX_PREFIXES_COUNT <=? n then fail DI_ERROR
  else set_context (insert_prefix p fnc isRex).

(** ** VEX *)

(** [(~b >> k) & 1] *)
Definition inverted_bit (b k : Z) : Z := Z.land (Z.shiftr (Z.lnot b) k) 1.

(** The reads of the three-byte form until two bytes are in the cache; gives the new size, or no
    size when the stream ends.  Two reads are enough, each one that goes on delivers a byte. *)
Fixpoint vex_fill (fuel : nat) (cacheIt cacheSize : Z) : D T (option Z) :=
  if negb (cacheSize <? 2) then ret (Some cacheSize)
  else
    match fuel with
    | O => crash
    | S fuel' =>
        let! (iResult, bytesRead) := read_into_cache (cacheIt + cacheSize) (2 - cacheSize) in
        if negb (iResult =? DI_SUCCESS) then fail iResult
        else if bytesRead =? 0 then
          set_context (with_cacheSize (fun _ => cacheSize)) ;;; ret None
        else vex_fill fuel' cacheIt (cacheSize + bytesRead)
    end.

(** The fields of a VEX prefix, the opcode position and the bytes after it. *)
Record VexFields : Type := mkVexFields {
  vex_R : Z; vex_X : Z; vex_B : Z; vex_W : Z; vex_L : Z; vex_pp : Z; vex_map : Z;
  vex_it : Z; vex_size : Z
}.

(** [mmmmm]: 0F, 0F 38, 0F 3A; the other maps are reserved. *)
Definition vex_map_select (mmmmm : Z) : option Z :=
  if mmmmm =? 1 then Some 0 else if mmmmm =? 2 then Some 1 else if mmmmm =? 3 then Some 2 else None.

Definition vex_two_byte : D T (option VexFields) :=
  let! it := context cacheIt in
  let! size0 := context cacheSize in
  let! amd := context iAMD64Mode in
  let! size :=
    (if size0 <? 1 then
       let! (iResult, bytesRead) := read_into_cache (it + size0) 1 in
       if negb (iResult =? DI_SUCCESS) then fail iResult else ret (size0 + bytesRead)
     else ret size0) in
  if size <? 1 then fail DI_END_OF_STREAM
  else
    let! b2 := cache_byte it in
    if (amd =? 0) && negb (Z.land b2 0xC0 =? 0xC0) then
      set_context (with_cacheSize (fun _ => size)) ;;; ret None
    else
      set_context (with_iVexVVVV (fun _ => Z.land (Z.shiftr (Z.lnot b2) 3) 0xF)) ;;;
      ret (Some (mkVexFields (inverted_bit b2 7) 0 0 0 (Z.land (Z.shiftr b2 2) 1)
                   (Z.land b2 3) 0 (it + 1) (size - 1))).

Definition vex_three_byte : D T (option VexFields) :=
  let! it := context cacheIt in
  let! size0 := context cacheSize in
  let! amd := context iAMD64Mode in
  let! filled := vex_fill 2 it size0 in
  match filled with
  | None => if amd =? 0 then ret None else fail DI_END_OF_STREAM
  | Some size =>
      let! b2 := cache_byte it in
      let! b3 := cache_byte (it + 1) in
      if (amd =? 0) && negb (Z.land b2 0xC0 =? 0xC0) then
        set_context (with_cacheSize (fun _ => size)) ;;; ret None
      else
        match vex_map_select (Z.land b2 0x1F) with
        | None => set_context (with_cacheSize (fun _ => size)) ;;; fail DI_ERROR
        | Some map =>
            set_context (with_iVexVVVV (fun _ => Z.land (Z.shiftr (Z.lnot b3) 3) 0xF)) ;;;
            ret (Some (mkVexFields (inverted_bit b2 7) (inverted_bit b2 6) (inverted_bit b2 5)
                         (Z.land (Z.shiftr b3 7) 1) (Z.land (Z.shiftr b3 2) 1)
                         (Z.land b3 3) map (it + 2) (size - 2)))
        end
  end.

Definition rex_of (W R X B : Z) : Z :=
  u8 (Z.lor (Z.lor (Z.lor (Z.lor 0x40 (Z.shiftl W 3)) (Z.shiftl R 2)) (Z.shiftl X 1)) B).

(** Gives [*pbVexFound]. *)
Definition Di_ProcessVexPrefix (firstByte : Z) : D T bool :=
  let! fields := (if firstByte =? 0xC5 then vex_two_byte else vex_three_byte) in
  match fields with
  | None => ret false
  | Some v =>
      let! amd := context iAMD64Mode in
      set_context (with_iVexPrefix (fun _ =>
        Z.lor DI_VEX_PREFIX_PRESENT (if vex_W v =? 0 then 0 else DI_VEX_PREFIX_W))) ;;;
      let '(R, X, B, W) :=
        if amd =? 0 then (0, 0, 0, 0) else (vex_R v, vex_X v, vex_B v, vex_W v) in
      set_context (with_iRexPrefix (fun _ => rex_of W R X B)) ;;;
      when (negb (W =? 0)) (set_context (with_iCurrentCmd_opsize (fun _ => 8))) ;;;
      let selectorByte :=
        u8 (Z.lor (Z.lor (Z.shiftl (vex_pp v) 3) (Z.shiftl (vex_map v) 1)) (vex_L v)) in
      put_virtual_prefix 0xC5 selectorByte (vex_it v) (vex_size v) ;;;
      top_up ;;;
      ret true
  end.

(** ** EVEX *)

(** The reads until P0, P1, P2, the opcode and the ModRM byte are in the cache. *)
Fixpoint evex_fill (fuel : nat) (cacheIt cacheSize : Z) : D T Z :=
  if negb ((cacheSize <? 5) && (cacheIt + cacheSize <? DI_CACHE_SIZE)) then ret cacheSize
  else
    match fuel with
    | O => crash
    | S fuel' =>
        let! (iResult, bytesRead) := read_into_cache (cacheIt + cacheSize) (5 - cacheSize) in
        if negb (iResult =? DI_SUCCESS) then fail iResult
        else if bytesRead =? 0 then ret cacheSize
        else evex_fill fuel' cacheIt (cacheSize + bytesRead)
    end.

Definition flag_if (c : bool) (m : Z) : Z := if c then m else 0.

(** After the three payload bytes are known to be there and well formed. *)
Definition evex_apply (p0 p1 p2 it size : Z) : D T bool :=
  let! amd := context iAMD64Mode in
  let map := Z.land p0 7 in
  let W := Z.land (Z.shiftr p1 7) 1 in
  let pp := Z.land p1 3 in
  let z := Z.land (Z.shiftr p2 7) 1 in
  let LL := Z.land (Z.shiftr p2 5) 3 in
  let b := Z.land (Z.shiftr p2 4) 1 in
  let V1 := inverted_bit p2 3 in
  set_context (fun c =>
    with_iEvexLL (fun _ => LL) (with_iEvexAAA (fun _ => Z.land p2 7)
      (with_iVexPrefix (fun _ => Z.lor DI_VEX_PREFIX_PRESENT (flag_if (negb (W =? 0)) DI_VEX_PREFIX_W))
        (with_iVexVVVV (fun _ => Z.land (Z.shiftr (Z.lnot p1) 3) 0xF) c)))) ;;;
  if (amd =? 0) && negb (V1 =? 0) then
    set_context (with_cacheSize (fun _ => size)) ;;; fail DI_ERROR
  else
    let '(R, X, B, R1) :=
      if amd =? 0 then (0, 0, 0, 0)
      else (inverted_bit p0 7, inverted_bit p0 6, inverted_bit p0 5, inverted_bit p0 4) in
    let W64 := negb (amd =? 0) && negb (W =? 0) in
    set_context (fun c =>
      with_iRexPrefix (fun _ => rex_of (Z.b2z W64) R X B)
        (with_iEvexPrefix (fun _ =>
          Z.lor (Z.lor (Z.lor (Z.lor (Z.lor DI_EVEX_PREFIX_PRESENT
            (flag_if (negb (R1 =? 0)) DI_EVEX_PREFIX_R1)) (flag_if (negb (V1 =? 0)) DI_EVEX_PREFIX_V1))
            (flag_if (negb (X =? 0)) DI_EVEX_PREFIX_X)) (flag_if (negb (b =? 0)) DI_EVEX_PREFIX_B))
            (flag_if (negb (z =? 0)) DI_EVEX_PREFIX_Z)) c)) ;;;
    when W64 (set_context (with_iCurrentCmd_opsize (fun _ => 8))) ;;;
    let! pathLL :=
      (if negb (b =? 0) && (5 <=? size) then
         let! modrm := cache_byte (it + 4) in
         ret (if Z.land modrm 0xC0 =? 0xC0 then 2 else LL)
       else ret LL) in
    let selectorByte :=
      u8 (Z.lor (Z.lor (Z.lor (Z.shiftl W 7) (Z.shiftl pathLL 5)) (Z.shiftl map 2)) pp) in
    put_virtual_prefix 0x62 selectorByte (it + 3) (size - 3) ;;;
    top_up ;;;
    ret true.

(** Gives [*pbEvexFound]. *)
Definition Di_ProcessEvexPrefix : D T bool :=
  let! it := context cacheIt in
  let! size0 := context cacheSize in
  let! amd := context iAMD64Mode in
  let! size := evex_fill 5 it size0 in
  let! is_bound :=
    (if size <? 1 then ret true
     else if amd =? 0 then let! b := cache_byte it in ret (negb (Z.land b 0xC0 =? 0xC0))
     else ret false) in
  if is_bound then
    set_context (with_cacheSize (fun _ => size)) ;;;
    if negb (amd =? 0) && (size <? 1) then fail DI_END_OF_STREAM else ret false
  else if size <? 4 then
    set_context (with_cacheSize (fun _ => size)) ;;; fail DI_END_OF_STREAM
  else
    let! p0 := cache_byte it in
    let! p1 := cache_byte (it + 1) in
    let! p2 := cache_byte (it + 2) in
    let map := Z.land p0 7 in
    if has_flag p0 0x08 || negb (has_flag p1 0x04) || (map =? 0) || (map =? 4) || (map =? 7) then
      set_context (with_cacheSize (fun _ => size)) ;;; fail DI_ERROR
    else evex_apply p0 p1 p2 it size.
End Prefix.
