(* ===== verification/DecAddress.v ===== *)
(** The addressing forms: diana_tables_common.c (mod 11), diana_tables_16.c and diana_tables_32.c
    (ModRM, SIB), with the registers of diana_operands.c they use. *)

From Stdlib Require Import ZArith Lia List Bool.
Import ListNotations.
From S2P Require Import Prelude Words Status Registers DecTypes DecStreams DecUtils.
Local Open Scope Z_scope.
Local Open Scope diana_scope.

(** ** Special registers (diana_operands.c) *)

Definition Diana_GetDI (reg : Z) : option Z :=
  if reg =? 8 then Some reg_RDI else if reg =? 4 then Some reg_EDI
  else if reg =? 2 then Some reg_DI else None.
Definition Diana_GetSI (reg : Z) : option Z :=
  if reg =? 8 then Some reg_RSI else if reg =? 4 then Some reg_ESI
  else if reg =? 2 then Some reg_SI else None.

Definition g_sregs : list Z := [reg_ES; reg_CS; reg_SS; reg_DS; reg_FS; reg_GS].
Definition g_cregs : list Z :=
  [reg_CR0; reg_CR1; reg_CR2; reg_CR3; reg_CR4; reg_CR5; reg_CR6; reg_CR7;
   reg_CR8; reg_CR9; reg_CR10; reg_CR11; reg_CR12; reg_CR13; reg_CR14; reg_CR15].
Definition g_dregs : list Z :=
  [reg_DR0; reg_DR1; reg_DR2; reg_DR3; reg_DR4; reg_DR5; reg_DR6; reg_DR7;
   reg_DR8; reg_DR9; reg_DR10; reg_DR11; reg_DR12; reg_DR13; reg_DR14; reg_DR15].
Definition g_tregs : list Z :=
  [reg_TR0; reg_TR1; reg_TR2; reg_TR3; reg_TR4; reg_TR5; reg_TR6; reg_TR7].

Definition Diana_RecognizeSreg (reg : Z) : option Z :=
  if reg <? 0 then None else if 6 <=? reg then None else Some (element g_sregs reg).
Definition Diana_RecognizeCreg (reg : Z) : option Z :=
  if reg <? 0 then None else if 16 <=? reg then None else Some (element g_cregs reg).
Definition Diana_RecognizeDreg (reg : Z) : option Z :=
  if reg <? 0 then None else if 16 <=? reg then None else Some (element g_dregs reg).
Definition Diana_RecognizeTreg (reg : Z) : option Z :=
  if reg <? 0 then None else if 8 <=? reg then None else Some (element g_tregs reg).

(** ** ModRM fields with the REX bits (diana_operands.c, diana_tables_32.c) *)

Definition rex_active (c : DianaContext) : bool :=
  negb (iAMD64Mode c =? 0) && negb (iRexPrefix c =? 0).

Definition Diana_GetReg2 (c : DianaContext) (postByte : Z) : Z :=
  if rex_active c && DI_REX_HAS_FLAG_R (iRexPrefix c)
  then Z.lor (Diana_GetReg postByte) 0x08 else Diana_GetReg postByte.

Definition Diana_GetRm2 (c : DianaContext) (postByte : Z) : Z :=
  if rex_active c && DI_REX_HAS_FLAG_B (iRexPrefix c)
  then Z.lor (Diana_GetRm postByte) 0x08 else Diana_GetRm postByte.

Definition Diana_DispatchSIB2 (c : DianaContext) (sib : Z) : Z * Z * Z :=
  let '(ss, index, base) := Diana_DispatchSIB sib in
  (ss,
   (if rex_active c && DI_REX_HAS_FLAG_X (iRexPrefix c) then Z.lor index 0x8 else index),
   (if rex_active c && DI_REX_HAS_FLAG_B (iRexPrefix c) then Z.lor base 0x8 else base)).

(** ** mod 11: a register *)

(** EAX, AX, AL, RAX and so on: the columns of [table2]. *)
Definition table2 : list (list Z) :=
  [[reg_EAX; reg_AX; reg_AL; reg_RAX];
   [reg_ECX; reg_CX; reg_CL; reg_RCX];
   [reg_EDX; reg_DX; reg_DL; reg_RDX];
   [reg_EBX; reg_BX; reg_BL; reg_RBX];
   [reg_ESP; reg_SP; reg_AH; reg_RSP];
   [reg_EBP; reg_BP; reg_CH; reg_RBP];
   [reg_ESI; reg_SI; reg_DH; reg_RSI];
   [reg_EDI; reg_DI; reg_BH; reg_RDI];
   [reg_R8D; reg_R8W; reg_R8B; reg_R8];
   [reg_R9D; reg_R9W; reg_R9B; reg_R9];
   [reg_R10D; reg_R10W; reg_R10B; reg_R10];
   [reg_R11D; reg_R11W; reg_R11B; reg_R11];
   [reg_R12D; reg_R12W; reg_R12B; reg_R12];
   [reg_R13D; reg_R13W; reg_R13B; reg_R13];
   [reg_R14D; reg_R14W; reg_R14B; reg_R14];
   [reg_R15D; reg_R15W; reg_R15B; reg_R15]].

(** An element of a fixed table, outside of which the code reads what it finds. *)
Definition table_get {A} (l : list A) (i : Z) : option A :=
  if i <? 0 then None else nth_error l (Z.to_nat i).

(** The outcome of a recogniser: the register, [DI_ERROR], or an access outside of a table. *)
Definition reg_or_error (o : option Z) : outcome Z :=
  match o with Some r => Ok r | None => Err DI_ERROR end.

(** [Diana_DispatchMod3]: the register and the new [pInfo->usedSize]. *)
Definition Diana_DispatchMod3 (t : DianaOperands_type) (usedSize rm iRegSizeInBytes isRexPrefix : Z)
    : outcome Z * Z :=
  if is_type t diana_orMemoryMMX then (reg_or_error (DianaRecognizeMMX (u8 rm)), 8)
  else if is_type t diana_orMemoryXMM then (reg_or_error (DianaRecognizeXMM (u8 rm)), 16)
  else if is_type t diana_orMemoryYMM then (reg_or_error (DianaRecognizeYMM (u8 rm)), 32)
  else if is_type t diana_orMemoryZMM then
    let r := Diana_VectorRegister 64 rm in
    ((if r =? reg_none then Err DI_ERROR else Ok r), 64)
  else if is_type t diana_orMemoryK then (Ok (reg_K0 + Z.land rm 7), 8)
  else
    let pick (iIndex : Z) :=
      match table_get table2 rm with
      | None => Crash
      | Some regs =>
          if negb (isRexPrefix =? 0) && (iIndex =? 2) && (4 <=? rm) && (rm <? 8)
          then Ok (element g_diana_regsAmd8 (rm - 4)) else Ok (element regs iIndex)
      end in
    ((if iRegSizeInBytes =? 8 then pick 3
      else if iRegSizeInBytes =? 4 then pick 0
      else if iRegSizeInBytes =? 2 then pick 1
      else if iRegSizeInBytes =? 1 then pick 2
      else Err DI_ERROR), usedSize).

(** ** 16-bit addresses *)

(** [g_table1] of diana_tables_16.c: reg1, reg2, dispSize for mod 00, 01, 10. *)
Definition g_table16 : list (list (Z * Z * Z)) :=
  [[(reg_BX, reg_SI, 0); (reg_BX, reg_DI, 0); (reg_BP, reg_SI, 0); (reg_BP, reg_DI, 0);
    (reg_SI, reg_none, 0); (reg_DI, reg_none, 0); (reg_none, reg_none, 2); (reg_BX, reg_none, 0)];
   [(reg_BX, reg_SI, 1); (reg_BX, reg_DI, 1); (reg_BP, reg_SI, 1); (reg_BP, reg_DI, 1);
    (reg_SI, reg_none, 1); (reg_DI, reg_none, 1); (reg_BP, reg_none, 1); (reg_BX, reg_none, 1)];
   [(reg_BX, reg_SI, 2); (reg_BX, reg_DI, 2); (reg_BP, reg_SI, 2); (reg_BP, reg_DI, 2);
    (reg_SI, reg_none, 2); (reg_DI, reg_none, 2); (reg_BP, reg_none, 2); (reg_BX, reg_none, 2)]].

Definition modrm_entry {A} (table : list (list A)) (mod_ rm : Z) : option A :=
  match table_get table mod_ with Some row => table_get row rm | None => None end.

(** Both readers give the operand's value and its [usedSize]. *)
Definition Diana_ReadIndexStructure16 (c : DianaContext) (t : DianaOperands_type)
    (usedSize iOpSize postByte : Z) : outcome (DianaOperandValue * Z) :=
  let mod_ := Diana_GetMod postByte in
  let rm := Diana_GetRm postByte in
  if mod_ =? 3 then
    match Diana_DispatchMod3 t usedSize rm iOpSize (iRexPrefix c) with
    | (Ok r, used) => Ok (diana_register r, used)
    | (Err code, _) => Err code
    | (Crash, _) => Crash
    end
  else if 3 <? mod_ then Err DI_ERROR
  else
    match modrm_entry g_table16 mod_ rm with
    | None => Crash
    | Some (reg1, reg2, disp) =>
        Ok (diana_index (mkDianaRmIndex reg_none reg2 reg1 (if reg1 =? reg_none then 0 else 1) disp 0),
            usedSize)
    end.

(** ** 32- and 64-bit addresses *)

(** [DianaEntry32]: the register, the displacement size and [iHasSIB]; the other members of
    [index] are zero in both tables. *)
Definition plain (r disp : Z) : Z * Z * bool := (r, disp, false).
Definition sib (r disp : Z) : Z * Z * bool := (r, disp, true).

(** [g_table1] of diana_tables_32.c *)
Definition g_table32 : list (list (Z * Z * bool)) :=
  [[plain reg_EAX 0; plain reg_ECX 0; plain reg_EDX 0; plain reg_EBX 0; sib reg_none 0;
     plain reg_none 4; plain reg_ESI 0; plain reg_EDI 0; plain reg_R8D 0; plain reg_R9D 0;
     plain reg_R10D 0; plain reg_R11D 0; sib reg_R12D 0; plain reg_none 4; plain reg_R14D 0;
     plain reg_R15D 0];
    [plain reg_EAX 1; plain reg_ECX 1; plain reg_EDX 1; plain reg_EBX 1; sib reg_none 1;
     plain reg_EBP 1; plain reg_ESI 1; plain reg_EDI 1; plain reg_R8D 1; plain reg_R9D 1;
     plain reg_R10D 1; plain reg_R11D 1; sib reg_R12D 1; plain reg_R13D 1; plain reg_R14D 1;
     plain reg_R15D 1];
    [plain reg_EAX 4; plain reg_ECX 4; plain reg_EDX 4; plain reg_EBX 4; sib reg_none 4;
     plain reg_EBP 4; plain reg_ESI 4; plain reg_EDI 4; plain reg_R8D 4; plain reg_R9D 4;
     plain reg_R10D 4; plain reg_R11D 4; sib reg_R12D 4; plain reg_R13D 4; plain reg_R14D 4;
     plain reg_R15D 4]].

(** [g_table2] of diana_tables_32.c *)
Definition g_table64 : list (list (Z * Z * bool)) :=
  [[plain reg_RAX 0; plain reg_RCX 0; plain reg_RDX 0; plain reg_RBX 0; sib reg_none 0;
     plain reg_none 4; plain reg_RSI 0; plain reg_RDI 0; plain reg_R8 0; plain reg_R9 0;
     plain reg_R10 0; plain reg_R11 0; sib reg_R12 0; plain reg_none 4; plain reg_R14 0;
     plain reg_R15 0];
    [plain reg_RAX 1; plain reg_RCX 1; plain reg_RDX 1; plain reg_RBX 1; sib reg_none 1;
     plain reg_RBP 1; plain reg_RSI 1; plain reg_RDI 1; plain reg_R8 1; plain reg_R9 1;
     plain reg_R10 1; plain reg_R11 1; sib reg_R12 1; plain reg_R13 1; plain reg_R14 1;
     plain reg_R15 1];
    [plain reg_RAX 4; plain reg_RCX 4; plain reg_RDX 4; plain reg_RBX 4; sib reg_none 4;
     plain reg_RBP 4; plain reg_RSI 4; plain reg_RDI 4; plain reg_R8 4; plain reg_R9 4;
     plain reg_R10 4; plain reg_R11 4; sib reg_R12 4; plain reg_R13 4; plain reg_R14 4;
     plain reg_R15 4]].

Definition disp_ss : list Z := [1; 2; 4; 8].

Section Index.
Context {T : Type} `{DianaReadStream T}.

Definition of_outcome {A} (o : outcome A) : D T A :=
  match o with Ok a => ret a | Err c => fail c | Crash => crash end.

(** [iRes = Recognize...(&r); if (iRes) return DI_ERROR;] *)
Definition or_error (o : option Z) : D T Z :=
  match o with Some r => ret r | None => fail DI_ERROR end.

(** mod 11: the EVEX bit 4 of a vector register, an opmask without the REX bits. *)
Definition mod3_rm (c : DianaContext) (t : DianaOperands_type) (rm old_true_rm : Z) : Z :=
  let rm :=
    if negb (iEvexPrefix c =? 0)
       && (is_type t diana_orMemoryXMM || is_type t diana_orMemoryYMM || is_type t diana_orMemoryZMM)
       && has_flag (iEvexPrefix c) DI_EVEX_PREFIX_X
    then Z.lor rm 0x10 else rm in
  if is_type t diana_orMemoryK then old_true_rm else rm.

(** The base of a SIB byte and the displacement size. *)
Definition sib_base (c : DianaContext) (mod_ base disp : Z) : D T (Z * Z) :=
  if (Z.land base 7 =? 5) && (mod_ =? 0) then ret (reg_none, 4)
  else if base =? 5 then
    ret ((if iCurrentCmd_addressSize c =? 8 then reg_RBP else reg_EBP), disp)
  else
    let! r := or_error (DianaRecognizeCommonReg (u8 (iCurrentCmd_addressSize c)) (u8 base) (iRexPrefix c)) in
    ret (r, disp).

(** The index of a SIB byte and its scale. *)
Definition sib_index (c : DianaContext) (vsib : bool) (m_size2 ss index : Z) : D T (Z * Z) :=
  if vsib then
    let index := if has_flag (iEvexPrefix c) DI_EVEX_PREFIX_V1 then Z.lor index 0x10 else index in
    ret (Diana_VectorRegister m_size2 index, element disp_ss ss)
  else if index =? 4 then ret (reg_none, 0)
  else
    let! r := or_error (DianaRecognizeCommonReg (u8 (iCurrentCmd_addressSize c)) (u8 index) (iRexPrefix c)) in
    ret (r, element disp_ss ss).

Definition Diana_ReadIndexStructure32 (info : DianaOperandInfo) (usedSize iOpSize postByte : Z)
    : D T (DianaOperandValue * Z) :=
  let! c := context (fun c => c) in
  let mod_ := Diana_GetMod postByte in
  let rm := Diana_GetRm2 c postByte in
  let old_true_rm := Diana_GetRm postByte in
  let t := m_type info in
  let vsib := is_type t diana_orVSIB in
  if (mod_ =? 3) && vsib then fail DI_ERROR
  else if mod_ =? 3 then
    let '(o, used) :=
      Diana_DispatchMod3 t usedSize (mod3_rm c t rm old_true_rm) iOpSize (iRexPrefix c) in
    let! r := of_outcome o in ret (diana_register r, used)
  else if 3 <? mod_ then fail DI_ERROR
  else
    let! (reg0, disp, iHasSIB) :=
      some_or_crash (modrm_entry (if iCurrentCmd_addressSize c =? 8 then g_table64 else g_table32) mod_ rm) in
    if negb iHasSIB && vsib then fail DI_ERROR
    else if negb iHasSIB then
      let r := if negb (iAMD64Mode c =? 0) && (mod_ =? 0) && (old_true_rm =? 5)
               then reg_RIP else reg0 in
      ret (diana_index (mkDianaRmIndex reg_none r reg_none 0 disp 0), usedSize)
    else
      let! (iRes, bs) := StreamProxy_Read 1 in
      if negb (iRes =? DI_SUCCESS) then fail iRes
      else if negb (Z.of_nat (length bs) =? 1) then fail DI_ERROR
      else
        let '(ss, index, base) := Diana_DispatchSIB2 c (nth 0 bs 0) in
        let! (r, disp') := sib_base c mod_ base disp in
        let! (xr, scale) := sib_index c vsib (m_size2 info) ss index in
        ret (diana_index (mkDianaRmIndex reg_none r xr scale disp' 0), usedSize).

(** [DianaGetHandler(i32BitUsed)(...)]; its callers turn every error into [DI_ERROR]. *)
Definition DianaGetHandler (i32BitUsed : bool) (info : DianaOperandInfo)
    (usedSize iOpSize postByte : Z) : D T (DianaOperandValue * Z) :=
  if i32BitUsed then Diana_ReadIndexStructure32 info usedSize iOpSize postByte
  else
    let! c := context (fun c => c) in
    of_outcome (Diana_ReadIndexStructure16 c (m_type info) usedSize iOpSize postByte).
End Index.
