(* ===== verification/DecLink.v ===== *)
(** diana_operands.c: [Diana_LinkOperands] reads the bytes after the opcode (ModRM, SIB,
    displacement, immediates) and turns the operand descriptions of the command into operands.

    An operand is stored in [linkedOperands] when it is complete; an operand that a failing call
    leaves half written in the C array is not represented. *)

From Stdlib Require Import ZArith Lia List Bool.
Import ListNotations.
From S2P Require Import Prelude Words Status Registers DecTypes DecStreams DecUtils DecAddress.
Local Open Scope Z_scope.
Local Open Scope diana_scope.

(** ** Helpers *)

Definition DIANA_VEX_VVVV_REG (c : DianaContext) : Z :=
  Z.land (iVexVVVV c) (if iAMD64Mode c =? 0 then 7 else 0xF).
Definition DIANA_EVEX_BIT4 (c : DianaContext) (flag : Z) : Z :=
  if has_flag (iEvexPrefix c) flag then 0x10 else 0.

(** [Diana_VectorTypeSize] *)
Definition Diana_VectorTypeSize (t : DianaOperands_type) : Z :=
  match t with
  | diana_orRegXMM | diana_orMemoryXMM => 16
  | diana_orRegYMM | diana_orMemoryYMM => 32
  | diana_orRegZMM | diana_orMemoryZMM => 64
  | _ => 0
  end.

(** [Diana_GetEvexAttributes(pInfo)]: the attributes' flags *)
Definition Diana_GetEvexAttributes (info : DianaCmdInfo) : option Z :=
  if has_flag (m_parent_flags info) DIANA_BASE_GEN_OBJECT_EVEX then Some (m_evex info) else None.

Definition is_segment_prefix (p : Z) : bool :=
  (p =? 0x26) || (p =? 0x2E) || (p =? 0x36) || (p =? 0x3E) || (p =? 0x64) || (p =? 0x65).

Definition is_stack_base (r : Z) : bool :=
  (r =? reg_BP) || (r =? reg_SP) || (r =? reg_EBP) || (r =? reg_ESP)
  || (r =? reg_RBP) || (r =? reg_RSP).

Definition Diana_GetMemorySegment (c : DianaContext) (i : DianaRmIndex) : Z :=
  if existsb (fun p => is_segment_prefix (prefix p)) (prefixes c) then currentCmd_sreg c
  else if is_stack_base (reg i) then reg_SS
  else if indexed_reg i =? reg_BP then reg_SS
  else currentCmd_sreg c.

(** What is fixed while the operands are linked. *)
Record LinkEnv : Type := mkLinkEnv {
  le_info : DianaCmdInfo;
  le_PostByte : Z;
  le_fpuRegCode : Z;
  le_iExtensionUsed : bool;
  le_iFullPostbyteUsed : bool;
  le_iCurOffset : Z
}.

(** The local variables the operands change; the pointers to operands are their indexes. *)
Record LinkState : Type := mkLinkState {
  ls_RegCode : Z;
  ls_iVexRegConsumed : bool;
  ls_iRegFieldUsed : bool;
  ls_iCSIPSize : Z;
  ls_pLinkedImmOp : list Z;
  ls_pLinkedIs4Op : option Z;
  ls_pLinkedDispOp : option Z;
  ls_iDispIsSigned : bool;
  ls_iEvexDisp8Scale : Z
}.

Definition with_ls_RegCode v (l : LinkState) : LinkState :=
  mkLinkState v (ls_iVexRegConsumed l) (ls_iRegFieldUsed l) (ls_iCSIPSize l) (ls_pLinkedImmOp l)
    (ls_pLinkedIs4Op l) (ls_pLinkedDispOp l) (ls_iDispIsSigned l) (ls_iEvexDisp8Scale l).
Definition with_ls_iVexRegConsumed v (l : LinkState) : LinkState :=
  mkLinkState (ls_RegCode l) v (ls_iRegFieldUsed l) (ls_iCSIPSize l) (ls_pLinkedImmOp l)
    (ls_pLinkedIs4Op l) (ls_pLinkedDispOp l) (ls_iDispIsSigned l) (ls_iEvexDisp8Scale l).
Definition with_ls_iRegFieldUsed v (l : LinkState) : LinkState :=
  mkLinkState (ls_RegCode l) (ls_iVexRegConsumed l) v (ls_iCSIPSize l) (ls_pLinkedImmOp l)
    (ls_pLinkedIs4Op l) (ls_pLinkedDispOp l) (ls_iDispIsSigned l) (ls_iEvexDisp8Scale l).
Definition with_ls_iCSIPSize v (l : LinkState) : LinkState :=
  mkLinkState (ls_RegCode l) (ls_iVexRegConsumed l) (ls_iRegFieldUsed l) v (ls_pLinkedImmOp l)
    (ls_pLinkedIs4Op l) (ls_pLinkedDispOp l) (ls_iDispIsSigned l) (ls_iEvexDisp8Scale l).
Definition with_ls_pLinkedImmOp v (l : LinkState) : LinkState :=
  mkLinkState (ls_RegCode l) (ls_iVexRegConsumed l) (ls_iRegFieldUsed l) (ls_iCSIPSize l) v
    (ls_pLinkedIs4Op l) (ls_pLinkedDispOp l) (ls_iDispIsSigned l) (ls_iEvexDisp8Scale l).
Definition with_ls_pLinkedIs4Op v (l : LinkState) : LinkState :=
  mkLinkState (ls_RegCode l) (ls_iVexRegConsumed l) (ls_iRegFieldUsed l) (ls_iCSIPSize l)
    (ls_pLinkedImmOp l) v (ls_pLinkedDispOp l) (ls_iDispIsSigned l) (ls_iEvexDisp8Scale l).
Definition with_ls_pLinkedDispOp v (l : LinkState) : LinkState :=
  mkLinkState (ls_RegCode l) (ls_iVexRegConsumed l) (ls_iRegFieldUsed l) (ls_iCSIPSize l)
    (ls_pLinkedImmOp l) (ls_pLinkedIs4Op l) v (ls_iDispIsSigned l) (ls_iEvexDisp8Scale l).
Definition with_ls_iDispIsSigned v (l : LinkState) : LinkState :=
  mkLinkState (ls_RegCode l) (ls_iVexRegConsumed l) (ls_iRegFieldUsed l) (ls_iCSIPSize l)
    (ls_pLinkedImmOp l) (ls_pLinkedIs4Op l) (ls_pLinkedDispOp l) v (ls_iEvexDisp8Scale l).
Definition with_ls_iEvexDisp8Scale v (l : LinkState) : LinkState :=
  mkLinkState (ls_RegCode l) (ls_iVexRegConsumed l) (ls_iRegFieldUsed l) (ls_iCSIPSize l)
    (ls_pLinkedImmOp l) (ls_pLinkedIs4Op l) (ls_pLinkedDispOp l) (ls_iDispIsSigned l) v.

Definition set_value (v : DianaOperandValue) (op : DianaLinkedOperand) : DianaLinkedOperand :=
  with_value (fun _ => v) op.
Definition set_used (n : Z) (op : DianaLinkedOperand) : DianaLinkedOperand :=
  with_usedSize (fun _ => n) op.

Section Link.
Context {T : Type} `{DianaReadStream T}.

(** One operand: the locals and the operand so far to the locals and the operand. *)
Definition Linker : Type := LinkState * DianaLinkedOperand -> D T (LinkState * DianaLinkedOperand).

(** [if (call) return DI_ERROR;] *)
Definition or_di_error {A} (m : D T A) : D T A := fun s =>
  match m s with
  | (Err _, s') => (Err DI_ERROR, s')
  | r => r
  end.

(** The value of a call or its status. *)
Definition attempt {A} (m : D T A) : D T (Z + A) := fun s =>
  match m s with
  | (Ok a, s') => (Ok (inr a), s')
  | (Err c, s') => (Ok (inl c), s')
  | (Crash, s') => (Crash, s')
  end.

Definition linked_operand (i : Z) : D T DianaLinkedOperand :=
  let! l := result linkedOperands in some_or_crash (table_get l i).

Definition set_operand (i : Z) (op : DianaLinkedOperand) : D T unit :=
  let! l := result linkedOperands in
  if (0 <=? i) && (i <? Z.of_nat (length l)) then
    set_result (with_linkedOperands (fun l =>
      firstn (Z.to_nat i) l ++ op :: skipn (S (Z.to_nat i)) l))
  else crash.

(** ** The operand kinds *)

(** [diana_orRegistry] *)
Definition link_registry (e : LinkEnv) (opSizeUsed : Z) : Linker := fun '(ls, op) =>
  let! c := context (fun c => c) in
  let RegCode := ls_RegCode ls in
  let nds := negb (iVexPrefix c =? 0) && negb (DI_VEX_GET_NDS (m_flags (le_info e)) =? 0) in
  let '(regToUse, ls1) :=
    if nds then
      if RegCode =? DI_CHAR_NULL then (DIANA_VEX_VVVV_REG c, ls)
      else if ls_iVexRegConsumed ls then (DIANA_VEX_VVVV_REG c, ls)
      else (RegCode, with_ls_iVexRegConsumed true ls)
    else (RegCode, ls) in
  let takes := (regToUse =? RegCode) && le_iFullPostbyteUsed e && negb (le_iExtensionUsed e) in
  if takes && has_flag (iEvexPrefix c) DI_EVEX_PREFIX_R1 then fail DI_ERROR
  else
    let ls2 := if takes then with_ls_iRegFieldUsed true ls1 else ls1 in
    let! r := or_error (DianaRecognizeCommonReg opSizeUsed regToUse (iRexPrefix c)) in
    ret (ls2, set_value (diana_register r) op).

(** The size of a memory operand of the vector kinds and of reg/mem16. *)
Definition memory_used_size (info : DianaOperandInfo) (usedSize : Z) : Z :=
  let size2_or (d : Z) := if m_size2 info =? 0 then d else m_size2 info in
  match m_type info with
  | diana_orReg16_32_64_mem16 | diana_orReg32mem16 => size2_or 2
  | diana_orMemoryXMM => size2_or 16
  | diana_orMemoryYMM => size2_or 32
  | diana_orMemoryZMM => size2_or 64
  | diana_orMemoryK => size2_or 8
  | diana_orVSIB => DecTypes.m_size info
  | diana_orMemoryMMX => size2_or 8
  | _ => usedSize
  end.

(** EVEX: the broadcast of a memory operand and N of disp8*N. *)
Definition link_evex_memory (e : LinkEnv) : Linker := fun '(ls, op) =>
  let! prefix := context iEvexPrefix in
  if prefix =? 0 then ret (ls, op)
  else
    let pEvex := Diana_GetEvexAttributes (le_info e) in
    let flags := option_or pEvex 0 in
    let bcst := Z.shiftr (Z.land flags DI_EVEX_BCST_MASK) DI_EVEX_BCST_SHIFT in
    let n := Z.shiftr (Z.land flags DI_EVEX_N_MASK) DI_EVEX_N_SHIFT in
    let! op1 :=
      (if has_flag prefix DI_EVEX_PREFIX_B && negb (bcst =? 0) then
         let vl := if Z.land flags DI_EVEX_VL_MASK =? DI_EVEX_VL_512 then 64
                   else if Z.land flags DI_EVEX_VL_MASK =? DI_EVEX_VL_256 then 32 else 16 in
         let element := Z.shiftl 1 bcst in
         set_result (with_evex (with_broadcast (fun _ => u8 (vl / element)))) ;;;
         ret (set_used element op)
       else ret op) in
    ret (with_ls_iEvexDisp8Scale (if n =? 0 then usedSize op1 else Z.shiftl 1 (n - 1)) ls, op1).

(** [diana_orRegMem] and the kinds that fall through to it; [slot] is the
    operand's place in [linkedOperands]. *)
Definition link_regmem (e : LinkEnv) (slot : Z) (info : DianaOperandInfo) (opSizeUsed addrSizeUsed : Z)
    : Linker := fun '(ls, op) =>
  let t := m_type info in
  let exact := is_type t diana_orRegMem_exact
               || (is_type t diana_orMemOnly && negb (DecTypes.m_size info =? 0)) in
  let opSize := if exact then DecTypes.m_size info else opSizeUsed in
  let op := if exact then set_used (DecTypes.m_size info) op else op in
  if is_type t diana_orVSIB && (addrSizeUsed =? 2) then fail DI_ERROR
  else
    let! (v, used) := or_di_error
      (DianaGetHandler (negb (addrSizeUsed =? 2)) info (usedSize op) opSize (u8 (le_PostByte e))) in
    match v with
    | diana_index index =>
        let! c := context (fun c => c) in
        let index := with_seg_reg (fun _ => Diana_GetMemorySegment c index) index in
        let ls := if dispSize index =? 0 then ls else with_ls_pLinkedDispOp (Some slot) ls in
        link_evex_memory e
          (ls, set_value (diana_index index) (set_used (memory_used_size info used) op))
    | _ =>
        if is_type t diana_orMemOnly || is_type t diana_orVSIB then fail DI_ERROR
        else ret (ls, set_value v (set_used used op))
    end.

(** [diana_orImmediate] *)
Definition link_immediate (slot : Z) (info : DianaOperandInfo) : Linker := fun '(ls, op) =>
  if m_value info =? DI_CHAR_NULL then
    if MAX_IMM <=? Z.of_nat (length (ls_pLinkedImmOp ls)) then fail DI_ERROR
    else ret (with_ls_pLinkedImmOp (ls_pLinkedImmOp ls ++ [slot]) ls, set_value (diana_imm 0) op)
  else ret (ls, set_value (diana_imm (m_value info)) op).

(** [diana_orEAX] *)
Definition link_eax : Linker := fun '(ls, op) =>
  let n := usedSize op in
  let! r := or_error
    (if n =? 8 then Some reg_RAX else if n =? 4 then Some reg_EAX
     else if n =? 2 then Some reg_AX else if n =? 1 then Some reg_AL else None) in
  ret (ls, set_value (diana_register r) op).

(** [diana_orECX]: the counter of jcxz has the address size. *)
Definition link_ecx (e : LinkEnv) (addrSizeUsed : Z) : Linker := fun '(ls, op) =>
  let ops := m_operands (le_info e) in
  let jcxz := (m_operandCount (le_info e) =? 2)
              && match nth_error ops 1 with
                 | Some o => is_type (m_type o) diana_orRel
                 | None => false
                 end in
  let op := if jcxz then set_used addrSizeUsed op else op in
  let n := usedSize op in
  let! r := or_error
    (if n =? 8 then Some reg_RCX else if n =? 4 then Some reg_ECX
     else if n =? 2 then Some reg_CX else if n =? 1 then Some reg_CL else None) in
  ret (ls, set_value (diana_register r) op).

(** [diana_orSreg] *)
Definition link_sreg (info : DianaOperandInfo) : Linker := fun '(ls, op) =>
  let! code :=
    (if ls_RegCode ls =? DI_CHAR_NULL then
       if m_sreg_type info =? 0 then fail DI_ERROR else ret (u8 (m_sreg_type info - 1))
     else ret (ls_RegCode ls)) in
  let! r := or_error (Diana_RecognizeSreg code) in
  ret (with_ls_RegCode code ls, set_value (diana_register r) (set_used 2 op)).

(** [diana_orOffset] *)
Definition link_offset (slot : Z) : Linker := fun '(ls, op) =>
  let! c := context (fun c => c) in
  ret (with_ls_iDispIsSigned false (with_ls_pLinkedDispOp (Some slot) ls),
       with_usedAddressSize (fun _ => iCurrentCmd_addressSize c)
         (set_value (diana_index (mkDianaRmIndex (currentCmd_sreg c) reg_none reg_none 0
                                    (u8 (iCurrentCmd_addressSize c)) 0)) op)).

(** [diana_orAnyCR], [diana_orDR6or7], [diana_orTR6or7] *)
Definition link_special (recognize : Z -> option Z) : Linker := fun '(ls, op) =>
  let! r := or_error (recognize (ls_RegCode ls)) in ret (ls, set_value (diana_register r) op).

(** [diana_orPtr] *)
Definition link_ptr (e : LinkEnv) : Linker := fun '(ls, op) =>
  if negb (m_operandCount (le_info e) =? 1) then fail DI_ERROR
  else
    let n := usedSize op in
    let! address := DianaReadValueAsLong n false in
    let! segment := DianaReadValueAsLong 2 false in
    ret (ls, with_iOffset (fun _ => le_iCurOffset e) (set_value (diana_call_ptr segment address 2 n) op)).

(** [diana_orRel], [diana_orRel16x32] *)
Definition link_rel (e : LinkEnv) : Linker := fun '(ls, op) =>
  let! c := context (fun c => c) in
  if ls_iCSIPSize ls =? DI_CHAR_NULL then fail DI_ERROR
  else
    let analog := has_flag (m_flags (le_info e)) DI_FLAG_CMD_HAS32BIT_ANALOG in
    let n := if analog && negb (ls_iCSIPSize ls =? 1) then iCurrentCmd_opsize c
             else ls_iCSIPSize ls in
    let n := if n =? 8 then 4 else n in
    let! v := DianaReadValueAsLong n true in
    ret (with_ls_iCSIPSize n ls,
         with_iOffset (fun _ => le_iCurOffset e) (set_value (diana_rel n v) op)).

(** [diana_orMemory], [diana_orMemory16x32], [diana_orMemory_exact] *)
Definition link_memory (e : LinkEnv) (slot : Z) (info : DianaOperandInfo) (opSizeUsed addrSizeUsed : Z)
    : Linker := fun '(ls, op) =>
  let exact := is_type (m_type info) diana_orMemory_exact in
  let opSize := if exact then DecTypes.m_size info else opSizeUsed in
  let op := if exact then set_used (DecTypes.m_size info) op else op in
  if le_PostByte e =? DI_FULL_CHAR_NULL then ret (ls, set_value diana_reserved_reg op)
  else
    let! (v, used) := or_di_error
      (DianaGetHandler (negb (addrSizeUsed =? 2)) info (usedSize op) opSize (u8 (le_PostByte e))) in
    match v with
    | diana_index index =>
        let! c := context (fun c => c) in
        let index := with_seg_reg (fun _ => Diana_GetMemorySegment c index) index in
        ret ((if dispSize index =? 0 then ls else with_ls_pLinkedDispOp (Some slot) ls),
             set_value (diana_memory index) (set_used used op))
    | _ => fail DI_ERROR
    end.

(** [diana_orESI_ptr], [diana_orEsDi] *)
Definition link_string (r : option Z) (segment : Z) : Linker := fun '(ls, op) =>
  let! r := or_error r in
  ret (ls, set_value (diana_index (mkDianaRmIndex segment r reg_none 0 0 0)) op).

(** [diana_orRegIs4]: read as an immediate byte first *)
Definition link_is4 (slot : Z) : Linker := fun '(ls, op) =>
  if MAX_IMM <=? Z.of_nat (length (ls_pLinkedImmOp ls)) then fail DI_ERROR
  else ret (with_ls_pLinkedIs4Op (Some slot) (with_ls_pLinkedImmOp (ls_pLinkedImmOp ls ++ [slot]) ls),
            set_value (diana_imm 0) (set_used 1 op)).

(** [diana_orRegXMM], ..., [diana_orRegistry32]: the register number comes from VEX.vvvv, from
    the reg field while it is free, else from r/m with mod 11. *)
Definition register_code (e : LinkEnv) (i : Z) (info : DianaOperandInfo) (ls : LinkState)
    : D T (LinkState * Z) :=
  let! c := context (fun c => c) in
  let t := m_type info in
  let isMMX := is_type t diana_orRegMMX in
  let isK := is_type t diana_orRegK in
  let vectorSize := Diana_VectorTypeSize t in
  let nds := DI_VEX_GET_NDS (m_flags (le_info e)) in
  let PostByte := u8 (le_PostByte e) in
  if negb (is_type t diana_orRegistry32) && negb isMMX && negb (iVexPrefix c =? 0)
     && (((nds =? 1) && (i =? 1)) || ((nds =? 3) && (i =? 2)) || ((nds =? 2) && (i =? 0)))
  then
    let code := DIANA_VEX_VVVV_REG c in
    if isK then
      if (negb (iAMD64Mode c =? 0) && has_flag code 8) || has_flag (iEvexPrefix c) DI_EVEX_PREFIX_V1
      then fail DI_ERROR else ret (ls, code)
    else ret (ls, Z.lor code (DIANA_EVEX_BIT4 c DI_EVEX_PREFIX_V1))
  else if negb (le_iExtensionUsed e) && negb (ls_iRegFieldUsed ls) then
    let code := if isMMX then Diana_GetReg PostByte else Diana_GetReg2 c PostByte in
    let ls := with_ls_iRegFieldUsed true ls in
    if isK then
      if has_flag code 8 || has_flag (iEvexPrefix c) DI_EVEX_PREFIX_R1
      then fail DI_ERROR else ret (ls, code)
    else if negb (vectorSize =? 0) then ret (ls, Z.lor code (DIANA_EVEX_BIT4 c DI_EVEX_PREFIX_R1))
    else if has_flag (iEvexPrefix c) DI_EVEX_PREFIX_R1 then fail DI_ERROR
    else ret (ls, code)
  else if negb (Diana_GetMod PostByte =? 3) then fail DI_ERROR
  else
    let code := if isMMX then Diana_GetRm PostByte else Diana_GetRm2 c PostByte in
    ret (ls, if isK then Z.land code 7
             else if negb (vectorSize =? 0) then Z.lor code (DIANA_EVEX_BIT4 c DI_EVEX_PREFIX_X)
             else code).

Definition link_vector_register (e : LinkEnv) (i : Z) (info : DianaOperandInfo) (opSizeUsed : Z)
    : Linker := fun '(ls, op) =>
  if le_PostByte e =? DI_FULL_CHAR_NULL then fail DI_ERROR
  else
    let! (ls, code) := register_code e i info ls in
    let! c := context (fun c => c) in
    let vectorSize := Diana_VectorTypeSize (m_type info) in
    match m_type info with
    | diana_orRegXMM | diana_orRegYMM | diana_orRegZMM =>
        ret (ls, set_value (diana_register (Diana_VectorRegister vectorSize code)) (set_used vectorSize op))
    | diana_orRegK =>
        ret (ls, set_value (diana_register (reg_K0 + Z.land code 7)) (set_used 8 op))
    | diana_orRegMMX =>
        ret (ls, set_value (diana_register (reg_MM0 + code)) (set_used 8 op))
    | _ =>
        let! r := or_error (DianaRecognizeCommonReg opSizeUsed code (iRexPrefix c)) in
        ret (ls, set_value (diana_register r) op)
    end.
End Link.

(** ** [Diana_LinkOperands] *)

Section LinkOperands.
Context {T : Type} `{DianaReadStream T}.

(** The operand size of an operand. *)
Definition operand_size (c : DianaContext) (cmd : DianaCmdInfo) (info : DianaOperandInfo) : Z :=
  let t := m_type info in
  let size := DecTypes.m_size info in
  let analog := has_flag (m_flags cmd) DI_FLAG_CMD_HAS32BIT_ANALOG in
  let s1 := if (size =? 0) || (analog && negb (size =? 1)) then u8 (iCurrentCmd_opsize c) else size in
  let s2 := if negb (iAMD64Mode c =? 0) && has_flag (m_flags cmd) DI_FLAG_CMD_AMD_DEFAULT_OPSIZE_64
               && (s1 =? 4) then 8 else s1 in
  let s3 := if is_type t diana_orRegistry32 then (if size =? 8 then 8 else 4) else s2 in
  if (is_type t diana_orRegistry || is_type t diana_orRegMem) && (size =? 4) && (m_size2 info =? 8)
  then (if negb (iAMD64Mode c =? 0) && DI_REX_HAS_FLAG_W (iRexPrefix c) then 8 else 4)
  else s3.

(** The switch over the operand kinds. *)
Definition link_kind (e : LinkEnv) (i slot : Z) (info : DianaOperandInfo) (opSizeUsed addrSizeUsed : Z)
    (sreg : Z) : Linker :=
  match m_type info with
  | diana_orRegistry => link_registry e opSizeUsed
  | diana_orRegMem_exact | diana_orMemOnly | diana_orReg32mem16 | diana_orReg16_32_64_mem16
  | diana_orMemoryMMX | diana_orMemoryXMM | diana_orMemoryYMM | diana_orMemoryZMM
  | diana_orMemoryK | diana_orVSIB | diana_orRegMem => link_regmem e slot info opSizeUsed addrSizeUsed
  | diana_orImmediate => link_immediate slot info
  | diana_orEAX => link_eax
  | diana_orDX => fun '(ls, op) => ret (ls, set_value (diana_register reg_DX) op)
  | diana_orECX => link_ecx e addrSizeUsed
  | diana_orSreg => link_sreg info
  | diana_orOffset => link_offset slot
  | diana_orAnyCR => link_special Diana_RecognizeCreg
  | diana_orDR6or7 => link_special Diana_RecognizeDreg
  | diana_orTR6or7 => link_special Diana_RecognizeTreg
  | diana_orPtr => link_ptr e
  | diana_orRel | diana_orRel16x32 => link_rel e
  | diana_orMemory_exact | diana_orMemory16x32 | diana_orMemory =>
      link_memory e slot info opSizeUsed addrSizeUsed
  | diana_orCL => fun '(ls, op) => ret (ls, set_value (diana_register reg_CL) op)
  | diana_orESI_ptr => link_string (Diana_GetSI addrSizeUsed) sreg
  | diana_orEsDi => link_string (Diana_GetDI addrSizeUsed) reg_ES
  | diana_orFPU_ST0 | diana_orFPU_ST =>
      fun '(ls, op) => ret (ls, set_value (diana_register reg_fpu_ST0) op)
  | diana_orFPU_STi => fun '(ls, op) =>
      if le_fpuRegCode e =? DI_CHAR_NULL then fail DI_ERROR
      else ret (ls, set_value (diana_register (reg_fpu_ST0 + le_fpuRegCode e)) op)
  | diana_orXMM0 => fun '(ls, op) => ret (ls, set_value (diana_register reg_XMM0) (set_used 16 op))
  | diana_orRegIs4 => link_is4 slot
  | diana_orRegXMM | diana_orRegYMM | diana_orRegZMM | diana_orRegK | diana_orRegMMX
  | diana_orRegistry32 => link_vector_register e i info opSizeUsed
  | diana_orNone => fun _ => fail DI_ERROR
  end.

(** [i] is the number of the description, the operand goes to the next free place. *)
Definition link_operand (e : LinkEnv) (i : Z) (info : DianaOperandInfo) (ls : LinkState)
    : D T LinkState :=
  let! c := context (fun c => c) in
  let! slot := result iLinkedOpCount in
  let opSizeUsed := operand_size c (le_info e) info in
  let addrSizeUsed := u8 (iCurrentCmd_addressSize c) in
  let op := mkDianaLinkedOperand (Some info) diana_none 0 opSizeUsed addrSizeUsed in
  let! (ls, op) := link_kind e i slot info opSizeUsed addrSizeUsed (currentCmd_sreg c) (ls, op) in
  set_operand slot op ;;;
  set_result (with_iLinkedOpCount (fun n => n + 1)) ;;;
  ret ls.

Fixpoint link_operands (e : LinkEnv) (i : Z) (infos : list DianaOperandInfo) (ls : LinkState)
    : D T LinkState :=
  match infos with
  | [] => ret ls
  | info :: infos' => let! ls := link_operand e i info ls in link_operands e (i + 1) infos' ls
  end.

(** The displacement: gives [iCurOffset]. *)
Definition set_displacement (v : Z) (op : DianaLinkedOperand) : DianaLinkedOperand :=
  match value op with
  | diana_index x => set_value (diana_index (with_dispValue (fun _ => v) x)) op
  | diana_memory x => set_value (diana_memory (with_dispValue (fun _ => v) x)) op
  | _ => op
  end.

Definition displacement_size (op : DianaLinkedOperand) : Z :=
  match value op with
  | diana_index x => dispSize x
  | diana_memory x => dispSize x
  | _ => 0
  end.

Definition link_displacement (ls : LinkState) (iCurOffset : Z) : D T Z :=
  let! prefix := context iEvexPrefix in
  let! (res, offset) :=
    match ls_pLinkedDispOp ls with
    | None => ret (inr tt, iCurOffset)
    | Some k =>
        let! op := linked_operand k in
        let op := with_iOffset (fun _ => iCurOffset) op in
        set_operand k op ;;;
        let size := displacement_size op in
        let! r := attempt (DianaReadValueAsLong size (ls_iDispIsSigned ls)) in
        match r with
        | inl code => ret (inl code, iCurOffset + size)
        | inr v =>
            let scaled := negb (prefix =? 0) && (size =? 1) && (1 <? ls_iEvexDisp8Scale ls) in
            let v := if scaled then u64 (v * ls_iEvexDisp8Scale ls) else v in
            set_operand k (set_displacement v op) ;;;
            ret (inr tt, iCurOffset + size)
        end
    end in
  when (negb (prefix =? 0))
    (set_result (with_evex (with_disp8Scale (fun _ => u8 (ls_iEvexDisp8Scale ls))))) ;;;
  match res with inl code => fail code | inr _ => ret offset end.

(** The immediates: the status is that of the last read. *)
Fixpoint link_immediates (info : DianaCmdInfo) (ops imms : list Z) (iCurOffset iRes : Z) : D T Z :=
  match ops, imms with
  | k :: ops', n :: imms' =>
      let! op := linked_operand k in
      let size := usedSize op in
      let cut := negb (n =? 1) && (size =? 8)
                 && negb (has_flag (m_flags info) DI_FLAG_CMD_SUPPORTS_IMM64) in
      let iImmUsedSize := if n =? 1 then 1 else if cut then 4 else size in
      let op := with_iOffset (fun _ => iCurOffset) (if cut then set_used 4 op else op) in
      set_operand k op ;;;
      let! r := attempt (DianaReadValueAsLong iImmUsedSize false) in
      let! iRes :=
        match r with
        | inl code => ret code
        | inr v => set_operand k (set_value (diana_imm v) op) ;;; ret DI_SUCCESS
        end in
      link_immediates info ops' imms' (iCurOffset + iImmUsedSize) iRes
  | _, _ => ret iRes
  end.

Definition imm_of (op : DianaLinkedOperand) : Z :=
  match value op with diana_imm v => v | _ => 0 end.

(** VEX is4: the register in imm8[7:4] *)
Definition link_is4_register (k : Z) : D T unit :=
  let! c := context (fun c => c) in
  let! op := linked_operand k in
  let code := Z.land (Z.shiftr (imm_of op) 4) (if iAMD64Mode c =? 0 then 7 else 0xF) in
  let size := match op_pInfo op with
              | Some info => if DecTypes.m_size info =? 32 then 32 else 16
              | None => 16
              end in
  set_operand k (set_used size
    (set_value (diana_register ((if size =? 32 then reg_YMM0 else reg_XMM0) + code)) op)).

(** The opcode byte, and the ModRM byte when the command has one: gives PostByte, RegCode,
    fpuRegCode and iCurOffset. *)
Definition read_opcode (info : DianaCmdInfo) (iPostbyteFilter : Z) : D T (Z * Z * Z * Z) :=
  let! c := context (fun c => c) in
  if negb (iPostbyteFilter =? 0) || has_flag (m_flags info) DI_FLAG_CMD_POSTBYTE_USED then
    let! (err, buffer) := StreamProxy_Read 2 in
    if negb (err =? DI_SUCCESS) then fail err
    else if negb (Z.of_nat (length buffer) =? 2) then fail DI_END_OF_STREAM
    else
      let postByte := nth 1 buffer 0 in
      let RegCode := if has_flag iPostbyteFilter 0x38 then DI_CHAR_NULL else Diana_GetReg2 c postByte in
      let special o := is_type (m_type o) diana_orAnyCR || is_type (m_type o) diana_orDR6or7
                       || is_type (m_type o) diana_orTR6or7 in
      ret (if existsb special (m_operands info) then Z.lor postByte 0xC0 else postByte,
           RegCode, DI_CHAR_NULL, 2)
  else
    let! (err, buffer) := StreamProxy_Read 1 in
    if negb (err =? DI_SUCCESS) then fail err
    else if negb (Z.of_nat (length buffer) =? 1) then fail DI_END_OF_STREAM
    else
      let b := nth 0 buffer 0 in
      if has_flag (m_flags info) DI_FLAG_CMD_REGISTER_AS_OPCODE then
        if has_flag (m_flags info) DI_FLAG_CMD_FPU_I
        then ret (DI_FULL_CHAR_NULL, DI_CHAR_NULL, Diana_GetRm b, 1)
        else ret (DI_FULL_CHAR_NULL, Diana_GetRm2 c b, DI_CHAR_NULL, 1)
      else ret (DI_FULL_CHAR_NULL, DI_CHAR_NULL, DI_CHAR_NULL, 1).

(** x87: of the REX prefix only X and B count. *)
Definition ignore_rex (info : DianaCmdInfo) (c : DianaContext) : DianaContext :=
  if negb (iRexPrefix c =? 0) && has_flag (m_flags info) DI_FLAG_CMD_IGNORE_REX_PREFIX then
    with_iRexPrefix (fun r => let r := Z.land r 0x43 in if r =? 0x40 then 0 else r) c
  else c.

(** The operand size of the command: 64 bits by default for some in 64-bit mode, at most 32 bits
    for the port instructions. *)
Definition is_port_command (cmd : Z) : bool :=
  (cmd =? diana_cmd_in) || (cmd =? diana_cmd_out) || (cmd =? diana_cmd_ins) || (cmd =? diana_cmd_outs).

Definition command_opsize (info : DianaCmdInfo) : D T unit :=
  set_context (fun c =>
    if negb (iAMD64Mode c =? 0) && has_flag (m_flags info) DI_FLAG_CMD_AMD_DEFAULT_OPSIZE_64
       && (iCurrentCmd_opsize c =? 4)
    then with_iCurrentCmd_opsize (fun _ => 8) c else c) ;;;
  let! opsize := context iCurrentCmd_opsize in
  when (opsize =? 8) (
    let! cmd := some_or_crash (m_pGroupInfo info) in
    when (is_port_command cmd) (set_context (with_iCurrentCmd_opsize (fun _ => 4)))).

Definition Diana_LinkOperands : D T unit :=
  let! pInfo := result pInfo in
  let! info := some_or_crash pInfo in
  let iPostbyteFilter := Z.lor (m_extension_deny_mask info) (m_extension_mask info) in
  set_context (ignore_rex info) ;;;
  let! (PostByte, RegCode, fpuRegCode, iCurOffset) := read_opcode info iPostbyteFilter in
  command_opsize info ;;;
  let e := mkLinkEnv info PostByte fpuRegCode (has_flag iPostbyteFilter 0x38)
             (has_flag (m_flags info) DI_FLAG_CMD_POSTBYTE_USED) iCurOffset in
  let! ls := link_operands e 0 (m_operands info)
    (mkLinkState RegCode false false (m_iCSIPExtensionSizeInBytes info) [] None None true 0) in
  let! iCurOffset := link_displacement ls iCurOffset in
  let! iRes := link_immediates info (ls_pLinkedImmOp ls)
    [m_iImmediateOperandSizeInBytes info; m_iImmediateOperandSizeInBytes2 info] iCurOffset DI_SUCCESS in
  when (iRes =? DI_SUCCESS)
    (match ls_pLinkedIs4Op ls with Some k => link_is4_register k | None => ret tt end) ;;;
  return_status iRes.
End LinkOperands.
