(* ===== verification/DecWalk.v ===== *)
(** The walk through the opcode tables: [Diana_ParseCmdImpl] of diana_core_parsers.c with its
    stack of lines, as one function over the stack with fuel [walk_fuel], the size of the tables.

    A [DianaParserContext] is the list of its states, the current one first; the list has
    [currentState + 1] elements. *)

From Stdlib Require Import ZArith Lia List Bool.
Import ListNotations.
From S2P Require Import Prelude Words Status Registers DecTypes DecStreams DecUtils.
Local Open Scope Z_scope.
Local Open Scope diana_scope.

Record DianaParserCmdKey : Type := mkDianaParserCmdKey {
  chOpcode : Z; extension : Z; has_extension : bool
}.

Record DianaParserContextState : Type := mkDianaParserContextState {
  pLine : DianaBaseGenObject; position : Z; opcodePosition : Z
}.

Definition at_position (p : Z) (st : DianaParserContextState) : DianaParserContextState :=
  mkDianaParserContextState (pLine st) p (opcodePosition st).

(** ** Matching a command *)

Definition TryMatchKey (c : DianaContext) (info : DianaCmdInfo) : bool :=
  if has_flag (m_flags info) DI_FLAG_CMD_TEST_MODE_ONLY && (testMode c =? 0) then false
  else
    let flagMask := Z.land (m_flags info) (Z.lor DI_FLAG_CMD_AMD64 DI_FLAG_CMD_I386) in
    if flagMask =? 0 then true
    else if has_flag flagMask DI_FLAG_CMD_AMD64 && (iMainMode_addressSize c =? DIANA_MODE64) then true
    else has_flag flagMask DI_FLAG_CMD_I386 && negb (iMainMode_addressSize c =? DIANA_MODE64).

Definition AreKeysGood (info : DianaCmdInfo) (k : DianaParserCmdKey) : bool :=
  let ext := m_extension info in
  let mask := m_extension_mask info in
  let deny := m_extension_deny_mask info in
  if has_flag (m_flags info) DI_FLAG_CMD_POSTBYTE_USED && negb (has_extension k) then false
  else if negb (mask =? 0)
          && (negb (has_extension k) || negb (Z.land ext mask =? Z.land mask (extension k)))
  then false
  else if negb (deny =? 0)
          && (negb (has_extension k) || (Z.land ext deny =? Z.land deny (extension k)))
  then false
  else true.

(** VEX entries only after a VEX prefix and the others only without, EVEX entries likewise, W as
    the entry asks for. *)
Definition prefix_state_good (c : DianaContext) (info : DianaCmdInfo) : bool :=
  Bool.eqb (has_flag (m_flags info) DI_FLAG_CMD_VEX_ENCODED) (negb (iVexPrefix c =? 0))
  && Bool.eqb (has_flag (m_parent_flags info) DIANA_BASE_GEN_OBJECT_EVEX) (negb (iEvexPrefix c =? 0))
  && negb (has_flag (m_parent_flags info) DIANA_BASE_GEN_OBJECT_VEX_W0
           && has_flag (iVexPrefix c) DI_VEX_PREFIX_W)
  && negb (has_flag (m_parent_flags info) DIANA_BASE_GEN_OBJECT_VEX_W1
           && negb (has_flag (iVexPrefix c) DI_VEX_PREFIX_W)).

Definition command_matches (c : DianaContext) (k : DianaParserCmdKey) (info : DianaCmdInfo) : bool :=
  TryMatchKey c info && AreKeysGood info k && prefix_state_good c info.

(** ** One key *)

(** What a key leads to: nothing, a command, or a line to go on with ([*pbRetry] when it is for
    the same opcode). *)
Inductive Dispatched : Type :=
| NoKey
| Command (info : DianaCmdInfo)
| Line (st : DianaParserContextState) (bRetry : bool).

Definition is_same_opcode (flags : Z) : bool :=
  has_flag flags DIANA_BASE_GEN_OBJECT_THE_SAME_OPCODE.

Definition dispatch_line (o : DianaBaseGenObject) (flags : Z) (bIgnoreSubLines : bool) (at_ : Z)
    : Dispatched :=
  if is_same_opcode flags then Line (mkDianaParserContextState o (-1) at_) true
  else if bIgnoreSubLines then NoKey
  else Line (mkDianaParserContextState o (-1) (at_ + 1)) false.

Definition DispatchKey (c : DianaContext) (k : DianaParserCmdKey) (o : option DianaBaseGenObject)
    (bIgnoreSubLines : bool) (at_ : Z) : Dispatched :=
  match o with
  | None => NoKey
  | Some (CmdObject info) => if command_matches c k info then Command info else NoKey
  | Some (LineObject flags keys) => dispatch_line (LineObject flags keys) flags bIgnoreSubLines at_
  | Some (IndexObject flags keys) => dispatch_line (IndexObject flags keys) flags bIgnoreSubLines at_
  end.

(** [DianaParserContext_PushOpcode]: with eight states there is no room for a ninth, but the
    guard lets it through to [states[8]]. *)
Definition PushOpcode (st : DianaParserContextState) (states : list DianaParserContextState)
    : outcome (list DianaParserContextState) :=
  let currentState := Z.of_nat (length states) - 1 in
  if DI_MAX_LINES_COUNT <=? currentState then Ok states
  else if currentState + 1 =? DI_MAX_LINES_COUNT then Crash
  else Ok (st :: states).

(** ** [FindNextCmdKey] *)

Record Found : Type := mkFound {
  f_found : bool;
  f_result : option DianaCmdInfo;
  f_states : list DianaParserContextState
}.

(** The loop over the keys of a line from position [pos] on ([keys] are the keys from there). *)
Fixpoint scan_line (c : DianaContext) (k : DianaParserCmdKey) (bIgnoreSubLines : bool) (at_ : Z)
    (st : DianaParserContextState) (below : list DianaParserContextState)
    (pos : Z) (keys : list (Z * option DianaBaseGenObject)) : outcome Found :=
  match keys with
  | [] => Ok (mkFound false None (at_position pos st :: below))
  | (opcode, o) :: keys' =>
      if negb (opcode =? chOpcode k) then scan_line c k bIgnoreSubLines at_ st below (pos + 1) keys'
      else
        match DispatchKey c k o bIgnoreSubLines at_ with
        | NoKey => scan_line c k bIgnoreSubLines at_ st below (pos + 1) keys'
        | Command info => Ok (mkFound true (Some info) (at_position pos st :: below))
        | Line new _ =>
            match PushOpcode new (at_position pos st :: below) with
            | Ok states => Ok (mkFound true None states)
            | Err code => Err code
            | Crash => Crash
            end
        end
  end.

(** The part of [FindNextCmdKey] for a [DianaCmdKeyLine]; other lines give nothing.

    A line entered from an index line for the same opcode starts at position -1: the loop reads
    [key[-1].opcode], which lies in the line's header and on a 64-bit host is the low byte of
    [m_type]; when the opcode equals it, the bytes in front of the line are taken for a pointer. *)
Definition find_in_line (c : DianaContext) (k : DianaParserCmdKey) (bIgnoreSubLines : bool) (at_ : Z)
    (st : DianaParserContextState) (below : list DianaParserContextState) : outcome Found :=
  match pLine st with
  | LineObject _ keys =>
      if position st <? 0 then
        if chOpcode k =? DIANA_BASE_GEN_OBJECT_LINE then Crash
        else scan_line c k bIgnoreSubLines at_ st below 0 keys
      else scan_line c k bIgnoreSubLines at_ st below (position st)
             (skipn (Z.to_nat (position st)) keys)
  | _ => Ok (mkFound false None (st :: below))
  end.

Definition FindNextCmdKey (c : DianaContext) (k : DianaParserCmdKey) (bIgnoreSubLines : bool)
    (at_ : Z) (states : list DianaParserContextState) : outcome Found :=
  match states with
  | [] => Crash
  | st0 :: below =>
      let st := at_position (position st0 + 1) st0 in
      match pLine st with
      | IndexObject _ keys =>
          if chOpcode k <? position st then Ok (mkFound false None (st :: below))
          else
            let st := at_position (chOpcode k) st in
            match nth_error keys (Z.to_nat (chOpcode k)) with
            | None => Crash
            | Some o =>
                match DispatchKey c k o bIgnoreSubLines at_ with
                | NoKey => Ok (mkFound false None (st :: below))
                | Command info => Ok (mkFound true (Some info) (st :: below))
                | Line new bRetry =>
                    match PushOpcode new (st :: below) with
                    | Ok states =>
                        if bRetry then
                          match states with
                          | [] => Crash
                          | top :: rest => find_in_line c k bIgnoreSubLines at_ top rest
                          end
                        else Ok (mkFound true None states)
                    | Err code => Err code
                    | Crash => Crash
                    end
                end
            end
      | _ => find_in_line c k bIgnoreSubLines at_ st below
      end
  end.

(** ** The walk *)

(** [GetKeyByAddress]: the byte at [it], and the next one when there is any; [it_end] is the end
    of the bytes in the cache. *)
Definition GetKeyByAddress (cache_ : list Z) (it it_end : Z) : outcome DianaParserCmdKey :=
  let have := negb (it_end - it - 1 =? 0) in
  match mem_read cache_ it 1, (if have then mem_read cache_ (it + 1) 1 else Some [0]) with
  | Some b, Some e => Ok (mkDianaParserCmdKey (nth 0 b 0) (nth 0 e 0) have)
  | _, _ => Crash
  end.

(** [FindNextCmdKey_Rollback]: drops the current state and goes back to the byte of the one
    before; there is none for the first. *)
Definition FindNextCmdKey_Rollback (states : list DianaParserContextState)
    : option (list DianaParserContextState * Z) :=
  match states with
  | _ :: prev :: rest => Some (prev :: rest, opcodePosition prev)
  | _ => None
  end.

(** One round of the loop: the command and its position, or the stack and position to go on
    with. *)
Definition walk_step (c : DianaContext) (it_end it : Z) (states : list DianaParserContextState)
    : outcome ((DianaCmdInfo * Z) + (list DianaParserContextState * Z)) :=
  let rollback states :=
    match FindNextCmdKey_Rollback states with
    | Some next => Ok (inr next)
    | None => Err DI_ERROR
    end in
  match GetKeyByAddress (cache c) it it_end with
  | Ok key =>
      match FindNextCmdKey c key false it states with
      | Ok f =>
          if f_found f then
            match f_result f with
            | Some info => Ok (inl (info, it))
            | None => if it + 1 <? it_end then Ok (inr (f_states f, it + 1)) else rollback (f_states f)
            end
          else rollback (f_states f)
      | Err code => Err code
      | Crash => Crash
      end
  | Err code => Err code
  | Crash => Crash
  end.

(** No result when the fuel runs out. *)
Fixpoint walk (fuel : nat) (c : DianaContext) (it_end it : Z) (states : list DianaParserContextState)
    : option (outcome (DianaCmdInfo * Z)) :=
  match fuel with
  | O => None
  | S fuel' =>
      match walk_step c it_end it states with
      | Ok (inl found) => Some (Ok found)
      | Ok (inr (states', it')) => walk fuel' c it_end it' states'
      | Err code => Some (Err code)
      | Crash => Some Crash
      end
  end.

(** The size of a table: every round of the walk drops a state or moves on in a line. *)
Fixpoint weight (o : DianaBaseGenObject) : nat :=
  let opt (k : option DianaBaseGenObject) := match k with Some o => weight o | None => 1%nat end in
  match o with
  | CmdObject _ => 1
  | LineObject _ keys =>
      2 + (fix sum (l : list (Z * option DianaBaseGenObject)) : nat :=
             match l with [] => 0 | (_, k) :: l' => opt k + sum l' end) keys
  | IndexObject _ keys =>
      2 + (fix sum (l : list (option DianaBaseGenObject)) : nat :=
             match l with [] => 0 | k :: l' => opt k + sum l' end) keys
  end%nat.

Definition walk_fuel (root : DianaBaseGenObject) : nat := weight root.

Section Impl.
Context {T : Type} `{DianaReadStream T}.

(** [Diana_ParseCmdImpl]: gives [*pOutIt]. *)
Definition Diana_ParseCmdImpl (pInitialLine : DianaBaseGenObject) : D T Z :=
  let! c := context (fun c => c) in
  let it := cacheIt c in
  let it_end := cacheIt c + cacheSize c in
  if cacheSize c =? 0 then fail DI_ERROR
  else
    match walk (walk_fuel pInitialLine) c it_end it [mkDianaParserContextState pInitialLine (-1) it] with
    | Some (Ok (info, it')) =>
        Diana_InitStreamProxy it' (it_end - it') ;;;
        set_result (with_pInfo (fun _ => Some info)) ;;;
        ret it'
    | Some (Err code) => fail code
    | Some Crash | None => crash
    end.
End Impl.
