(* ===== verification/DecParser.v ===== *)
(** diana_core_parsers.c and diana_core.c: from the prefixes to the linked operands.

    The mandatory prefixes are tried first, each try works on the cache with the prefix put in
    front of the opcode and is undone when it fails. *)

From Stdlib Require Import ZArith Lia List Bool.
Import ListNotations.
From S2P Require Import Prelude Words Status Registers DecTypes DecStreams DecUtils DecPrefix.
From S2P Require Import DecAddress DecLink DecWalk.
Local Open Scope Z_scope.
Local Open Scope diana_scope.

(** [ApplyPrefixes]: every prefix but the one at [iToExclude], in order. *)
Fixpoint apply_prefixes (l : list DianaPrefixInfo) (i iToExclude : Z) (c : DianaContext)
    : option DianaContext :=
  match l with
  | [] => Some c
  | p :: l' =>
      if i =? iToExclude then apply_prefixes l' (i + 1) iToExclude c
      else
        match linkedPrefixFnc p with
        | Some f => apply_prefixes l' (i + 1) iToExclude (call_prefix f c)
        | None => None
        end
  end.

Definition IsVEXPrefix (data : Z) : bool := (data =? 0xC4) || (data =? 0xC5).

(** The first member of the operand's union read as a register. *)
Definition recognized (op : DianaLinkedOperand) : Z :=
  match value op with
  | diana_register r => r
  | diana_index x => seg_reg x
  | diana_memory x => seg_reg x
  | diana_imm v => u32 v
  | diana_call_ptr segment _ _ _ => u32 segment
  | diana_rel size _ => size
  | diana_none | diana_reserved_reg => 0
  end.

Definition vector_number (r : Z) : Z := fst (Diana_VectorRegisterNumber r).

Definition is_memory_operand (op : DianaLinkedOperand) : bool :=
  match value op with diana_index _ | diana_memory _ => true | _ => false end.
Definition is_register_operand (op : DianaLinkedOperand) : bool :=
  match value op with diana_register _ => true | _ => false end.
Definition is_vsib_operand (op : DianaLinkedOperand) : bool :=
  match op_pInfo op with Some i => is_type (m_type i) diana_orVSIB | None => false end.

(** The last memory operand, -1 for none. *)
Fixpoint last_memory (ops : list DianaLinkedOperand) (i memory : Z) : Z :=
  match ops with
  | [] => memory
  | op :: ops' => last_memory ops' (i + 1) (if is_memory_operand op then i else memory)
  end.

Section Parser.
Context {T : Type} `{DianaReadStream T}.
Variable Diana_GetNopInfo : DianaCmdInfo.
Variable pInitialLine : DianaBaseGenObject.

Definition ApplyPrefixes (iToExclude : Z) : D T unit :=
  let! c := context (fun c => c) in
  let! c' := some_or_crash (apply_prefixes (prefixes c) 0 iToExclude c) in
  set_context (fun _ => c').

(** ** One try *)

(** The cache for a try: the byte that was taken out of it and the mandatory prefix go in front
    of the bytes at [cache + 2]. *)
Definition prepare_cache (dataValid : bool) (data iOriginalCacheSize iCurrentPrefix : Z) : D T unit :=
  let place it size :=
    set_context (fun c => with_cacheSize (fun _ => size) (with_cacheIt (fun _ => it) c)) in
  if iCurrentPrefix =? DI_FULL_CHAR_NULL then
    if dataValid then cache_store 1 [data] ;;; place 1 (iOriginalCacheSize + 1)
    else place DI_CACHE_RESERVED iOriginalCacheSize
  else
    let! l := context prefixes in
    let! p := some_or_crash (table_get l iCurrentPrefix) in
    if dataValid then
      cache_store 0 [prefix p] ;;; cache_store 1 [data] ;;; place 0 (iOriginalCacheSize + 2)
    else cache_store 1 [prefix p] ;;; place 1 (iOriginalCacheSize + 1).

(** The operands of the command found at [newIt]; the cache then starts after the instruction. *)
Definition link_found (newIt : Z) : D T unit :=
  let! oldTailSize := gets (fun s => tail_size (cmdProxy s)) in
  set_context (with_cacheIt (fun _ => newIt)) ;;;
  Diana_LinkOperands ;;;
  let! tail := gets (fun s => tail_size (cmdProxy s)) in
  set_context (fun c =>
    with_cacheIt (fun it => it + (oldTailSize - tail)) (with_cacheSize (fun _ => tail) c)).

(** The state the prefixes change is put back. *)
Definition restore (saved c : DianaContext) : DianaContext :=
  with_iRexPrefix (fun _ => iRexPrefix saved)
    (with_currentCmd_sreg (fun _ => currentCmd_sreg saved)
      (with_iSizePrefixes (fun _ => iSizePrefixes saved)
        (with_iPrefix (fun _ => iPrefix saved)
          (with_iCurrentCmd_addressSize (fun _ => iCurrentCmd_addressSize saved)
            (with_iCurrentCmd_opsize (fun _ => iCurrentCmd_opsize saved) c))))).

Definition undo_cache (iOriginalCacheSize : Z) : D T unit :=
  set_context (fun c =>
    with_cacheSize (fun _ => iOriginalCacheSize) (with_cacheIt (fun _ => DI_CACHE_RESERVED) c)).

(** What a try does once the walk has found a command at [newIt]. *)
Definition try_link (oldPrefixFound : bool) (newIt iCurrentPrefix : Z) : D T unit :=
  ApplyPrefixes iCurrentPrefix ;;;
  let! sizes := context iSizePrefixes in
  if has_flag sizes DIANA_INVALID_STATE then fail DI_ERROR
  else
    when oldPrefixFound (set_context (fun c =>
      with_iRexPrefixValue (fun _ => 0) (with_iRexPrefix (fun _ => 0) c))) ;;;
    link_found newIt.

Definition TryMatch (dataValid : bool) (data iOriginalCacheSize iCurrentPrefix : Z) : D T unit :=
  prepare_cache dataValid data iOriginalCacheSize iCurrentPrefix ;;;
  let! oldPrefixFound :=
    (if iCurrentPrefix =? DI_FULL_CHAR_NULL then
       let! it := context cacheIt in
       let! b := cache_byte it in
       let '(_, found, _) := Di_ProcessCustomPrefix b in ret found
     else ret false) in
  let! found := attempt (Diana_ParseCmdImpl pInitialLine) in
  match found with
  | inl code => undo_cache iOriginalCacheSize ;;; fail code
  | inr newIt =>
      let! saved := context (fun c => c) in
      let! iResult := status_of (try_link oldPrefixFound newIt iCurrentPrefix) in
      if iResult =? DI_SUCCESS then ret tt
      else
        set_context (restore saved) ;;;
        set_result (fun r => with_pInfo (fun _ => None) (with_iLinkedOpCount (fun _ => 0) r)) ;;;
        undo_cache iOriginalCacheSize ;;;
        fail iResult
  end.

(** ** VEX and EVEX instructions *)

Definition is_legacy_prefix (p : Z) : bool :=
  (p =? 0x66) || (p =? 0xF2) || (p =? 0xF3) || (p =? 0xF0).

(** [Di_CheckEvex] *)
Definition distinct_destination (ops : list DianaLinkedOperand) : bool :=
  match ops with
  | [] => true
  | dest :: sources =>
      negb (existsb (fun op => is_register_operand op
                               && (vector_number (recognized op) =? vector_number (recognized dest)))
              sources)
  end.

(** The rules about the opmask, zeroing, L'L, V' and the registers. *)
Definition evex_rules (c : DianaContext) (info : DianaCmdInfo) (flags memory : Z)
    (ops : list DianaLinkedOperand) : bool :=
  let prefix := iEvexPrefix c in
  let masked := negb (iEvexAAA c =? 0) in
  negb (masked && negb (has_flag flags DI_EVEX_MASK))
  && negb (negb masked && has_flag flags DI_EVEX_MASK_REQUIRED)
  && negb (has_flag prefix DI_EVEX_PREFIX_Z
           && (negb (has_flag flags DI_EVEX_ZEROING) || (memory =? 0) || negb masked))
  && negb ((Z.land flags DI_EVEX_VL_MASK =? DI_EVEX_VL_LIG) && (iEvexLL c =? 3)
           && negb (has_flag prefix DI_EVEX_PREFIX_B && (memory <? 0)))
  && negb ((DI_VEX_GET_NDS (m_flags info) =? 0) && negb (existsb is_vsib_operand ops)
           && has_flag prefix DI_EVEX_PREFIX_V1)
  && negb (has_flag flags DI_EVEX_DISTINCT && negb (distinct_destination ops)).

(** EVEX.b: the broadcast was set by the operands; on a register form it is the rounding. *)
Definition evex_rounding (c : DianaContext) (flags memory broadcast_ : Z) : option Z :=
  if negb (has_flag (iEvexPrefix c) DI_EVEX_PREFIX_B) then Some 0
  else if 0 <=? memory then (if broadcast_ =? 0 then None else Some 0)
  else if has_flag flags DI_EVEX_ER then Some (u8 (DIANA_EVEX_ROUND_RN + iEvexLL c))
  else if has_flag flags DI_EVEX_SAE then Some DIANA_EVEX_ROUND_SAE
  else if has_flag flags DI_EVEX_B_IGNORED then Some 0
  else None.

Definition Di_CheckEvex : D T unit :=
  let! c := context (fun c => c) in
  let! r := result (fun r => r) in
  let! info := some_or_crash (pInfo r) in
  match Diana_GetEvexAttributes info with
  | None => fail DI_ERROR
  | Some flags =>
      let ops := firstn (Z.to_nat (iLinkedOpCount r)) (linkedOperands r) in
      let memory := last_memory ops 0 (-1) in
      if negb (evex_rules c info flags memory ops) then fail DI_ERROR
      else
        let vl := Z.land flags DI_EVEX_VL_MASK in
        let size := if vl =? DI_EVEX_VL_256 then 32 else if vl =? DI_EVEX_VL_512 then 64 else 16 in
        set_result (with_evex (fun e =>
          with_vectorSize (fun _ => size)
            (with_zeroing (fun _ => if has_flag (iEvexPrefix c) DI_EVEX_PREFIX_Z then 1 else 0)
              (with_mask (fun _ => iEvexAAA c) (with_isEvex (fun _ => 1) e))))) ;;;
        match evex_rounding c flags memory (broadcast (evex r)) with
        | None => fail DI_ERROR
        | Some 0 => ret tt
        | Some rounding_ => set_result (with_evex (with_rounding (fun _ => rounding_)))
        end
  end.

(** A VEX or EVEX instruction; the virtual prefix is in the cache.  [accepts] says that the
    command found is one of the kind, [check] is what EVEX adds. *)
Definition parse_virtual (accepts : DianaCmdInfo -> bool) (check : D T unit) : D T unit :=
  let! rex := context iRexPrefix in
  let! l := context prefixes in
  if existsb (fun p => is_legacy_prefix (prefix p)) l then fail DI_ERROR
  else
    let! newIt := Diana_ParseCmdImpl pInitialLine in
    let! pInfo := result pInfo in
    let! info := some_or_crash pInfo in
    if negb (accepts info) then fail DI_ERROR
    else
      let! oldTailSize := gets (fun s => tail_size (cmdProxy s)) in
      ApplyPrefixes DI_FULL_CHAR_NULL ;;;
      let! sizes := context iSizePrefixes in
      if has_flag sizes DIANA_INVALID_STATE then fail DI_ERROR
      else
        set_context (fun c =>
          with_cacheIt (fun _ => newIt)
            (with_iCurrentCmd_opsize (fun _ => if DI_REX_HAS_FLAG_W rex then 8 else 4)
              (with_iRexPrefix (fun _ => rex) c))) ;;;
        let! iResult := status_of Diana_LinkOperands in
        let! vvvv := context iVexVVVV in
        if (iResult =? DI_SUCCESS) && (DI_VEX_GET_NDS (m_flags info) =? 0) && negb (vvvv =? 0)
        then fail DI_ERROR
        else
          let! iResult := (if iResult =? DI_SUCCESS then status_of check else ret iResult) in
          let! tail := gets (fun s => tail_size (cmdProxy s)) in
          set_context (fun c =>
            with_cacheIt (fun it => it + (oldTailSize - tail)) (with_cacheSize (fun _ => tail) c)) ;;;
          return_status iResult.

Definition parse_vex : D T unit :=
  parse_virtual (fun info => has_flag (m_flags info) DI_FLAG_CMD_VEX_ENCODED) (ret tt).

Definition Di_ParseEvexCmd : D T unit :=
  parse_virtual (fun info => has_flag (m_parent_flags info) DIANA_BASE_GEN_OBJECT_EVEX) Di_CheckEvex.
End Parser.
