(* ===== verification/DecCore.v ===== *)
(** The decoder's entry points: [Diana_ParseCmdEx] (diana_core_parsers.c) and [Diana_ParseCmd]
    (diana_core.c).  [Diana_GetNopInfo] and the opcode tables are arguments: they are generated
    data (diana_gen.c). *)

From Stdlib Require Import ZArith Lia List Bool.
Import ListNotations.
From S2P Require Import Prelude Words Status Registers DecTypes DecStreams DecUtils DecPrefix.
From S2P Require Import DecAddress DecLink DecWalk DecParser.
Local Open Scope Z_scope.
Local Open Scope diana_scope.

Section Core.
Context {T : Type} `{DianaReadStream T}.
Variable Diana_GetNopInfo : DianaCmdInfo.
Variable pInitialLine : DianaBaseGenObject.

(** ** [Diana_ParseCmdEx] *)

(** [DIANA_MEMSET(pResult, 0, ...)] and the resets before the first byte. *)
Definition reset_state : D T unit :=
  set_context (fun c =>
    with_iEvexLL (fun _ => 0) (with_iEvexAAA (fun _ => 0) (with_iEvexPrefix (fun _ => 0)
      (with_iVexVVVV (fun _ => 0) (with_iVexPrefix (fun _ => 0) (Diana_ResetPrefixes c)))))) ;;;
  set_result (fun _ => zero_result).

(** [pResult->iLinkedOpCount = 0; pResult->pInfo = Diana_GetNopInfo();] *)
Definition set_nop : D T unit :=
  set_result (fun r =>
    with_pInfo (fun _ => Some Diana_GetNopInfo) (with_iLinkedOpCount (fun _ => 0) r)).

(** How the prefix loop ends: a nop was recognised, or the first byte that is not a prefix. *)
Inductive PrefixLoop : Type :=
| LoopNop
| LoopByte (data : Z).

(** A REX byte in front of a legacy prefix is dropped. *)
Definition rex_before_prefix (data : Z) : D T bool :=
  let! amd := context iAMD64Mode in
  if negb (amd =? 0) && is_rex data then
    let! iRes := status_of (Diana_ReadCache false) in
    let! size := context cacheSize in
    if (iRes =? DI_SUCCESS) && negb (size =? 0) then
      let! it := context cacheIt in
      let! b := cache_byte it in
      let '(_, nextIsPrefix, _) := Di_ProcessCustomPrefix b in ret nextIsPrefix
    else ret false
  else ret false.

(** [n] rounds are left before [iBytesCounter] passes [DI_MAX_PREFIXES_COUNT]; [first] says that
    [iBytesCounter] is 0. *)
Fixpoint prefix_loop (n : nat) (first : bool) (nopFlags : Z) : D T PrefixLoop :=
  match n with
  | O => fail DI_ERROR
  | S n' =>
      Diana_ReadCache false ;;;
      let! data := Diana_CacheEatOne in
      if (first || (nopFlags =? 0)) && (data =? 0x90) then
        set_result (with_iFullCmdSize (fun _ => 1)) ;;; set_nop ;;; ret LoopNop
      else
        let '(flags, prefixFound, info) := Di_ProcessCustomPrefix data in
        let nopFlags := Z.lor nopFlags flags in
        match info with
        | Some i =>
            set_result (with_pInfo (fun _ => Some i)) ;;;
            Diana_InsertPrefix data (m_linkedPrefixFnc i) false ;;;
            prefix_loop n' false nopFlags
        | None =>
            let! dropped := rex_before_prefix data in
            if dropped then prefix_loop n' false nopFlags else ret (LoopByte data)
        end
  end.

(** The indexes of the last F2 or F3 and of the last 66. *)
Fixpoint mandatory_prefixes (l : list DianaPrefixInfo) (i rep size : Z) : Z * Z :=
  match l with
  | [] => (rep, size)
  | p :: l' =>
      mandatory_prefixes l' (i + 1)
        (if (prefix p =? 0xF2) || (prefix p =? 0xF3) then i else rep)
        (if prefix p =? 0x66 then i else size)
  end.

(** The tries in order, up to the first that succeeds: F2 or F3, 66, the last prefix. *)
Fixpoint first_match (tries : list Z) (dataValid : bool) (data iOriginalCacheSize : Z) : D T bool :=
  match tries with
  | [] => ret false
  | i :: tries' =>
      let! iResult := status_of (TryMatch pInitialLine dataValid data iOriginalCacheSize i) in
      if iResult =? DI_SUCCESS then ret true
      else first_match tries' dataValid data iOriginalCacheSize
  end.

Definition tries_of (rep size last : Z) : list Z :=
  (if rep =? DI_FULL_CHAR_NULL then [] else [rep]) ++
  (if size =? DI_FULL_CHAR_NULL then [] else [size]) ++
  (if (last =? DI_FULL_CHAR_NULL) || (last =? rep) || (last =? size) then [] else [last]).

(** The end of [Diana_ParseCmdEx]: legacy instructions. *)
Definition parse_legacy (dataValid : bool) (data iOriginalCacheSize : Z) : D T unit :=
  let! l := context prefixes in
  let! last := context lastPrefixBeforeRex in
  let '(rep, size) := mandatory_prefixes l 0 DI_FULL_CHAR_NULL DI_FULL_CHAR_NULL in
  let! matched := first_match (tries_of rep size last) dataValid data iOriginalCacheSize in
  if matched then ret tt
  else
    let! iResult := status_of
      (TryMatch pInitialLine dataValid data iOriginalCacheSize DI_FULL_CHAR_NULL) in
    let! n := context cacheSize in
    when (negb (iResult =? DI_SUCCESS) && negb dataValid && negb (n =? 0))
      (let! _ := Diana_CacheEatOne in ret tt) ;;;
    return_status iResult.

(** VEX, EVEX or legacy, after the prefixes and REX. *)
Definition parse_opcode (dataValid : bool) (data : Z) : D T unit :=
  let! evexFound := (if dataValid && (data =? 0x62) then Di_ProcessEvexPrefix else ret false) in
  if evexFound then Di_ParseEvexCmd pInitialLine
  else
    let! vexFound := (if dataValid && IsVEXPrefix data then Di_ProcessVexPrefix data else ret false) in
    if vexFound then parse_vex pInitialLine
    else
      let! n := context cacheSize in
      parse_legacy dataValid data n.

(** REX right before VEX or EVEX is an error. *)
Definition rex_before_vex : D T bool :=
  let! size := context cacheSize in
  if size =? 0 then ret false
  else let! it := context cacheIt in let! b := cache_byte it in ret (IsVEXPrefix b || (b =? 0x62)).

(** 90 after any prefix but F3 and REX.B is nop. *)
Definition is_nop (dataValid : bool) (data : Z) : D T bool :=
  let! c := context (fun c => c) in
  let! op := (if dataValid then ret data
              else if cacheSize c =? 0 then ret (-1) else cache_byte (cacheIt c)) in
  ret ((op =? 0x90) && negb (existsb (fun p => prefix p =? 0xF3) (prefixes c))
       && negb (has_flag (iRexPrefixValue c) 1)).

Definition Diana_ParseCmdEx : D T unit :=
  reset_state ;;;
  let! loop := prefix_loop 15 true 0 in
  match loop with
  | LoopNop => ret tt
  | LoopByte data =>
      let! amd := context iAMD64Mode in
      let! prefixFound := (if amd =? 0 then ret false else Di_ProcessRexPrefix data) in
      when prefixFound (Diana_InsertPrefix data (m_linkedPrefixFnc g_rexInfo) true) ;;;
      let dataValid := negb prefixFound in
      let! iResult := status_of (Diana_ReadCache true) in
      if negb (iResult =? DI_SUCCESS) && negb dataValid then fail iResult
      else
        let! bad := (if dataValid then ret false else rex_before_vex) in
        if bad then fail DI_ERROR
        else
          let! nop := is_nop dataValid data in
          if nop then
            when (negb dataValid) (let! _ := Diana_CacheEatOne in ret tt) ;;; set_nop
          else
            set_result (with_pInfo (fun _ => None)) ;;;
            parse_opcode dataValid data
  end.

(** ** [Diana_ParseCmd] *)

Definition command_of (r : DianaParserResult) : option Z :=
  match pInfo r with Some i => m_pGroupInfo i | None => None end.

(** 0f c7 /1: cmpxchg8b or, with REX.W, cmpxchg16b. *)
Definition fix_cmpxchg16b (r : DianaParserResult) : DianaParserResult :=
  match command_of r with
  | Some cmd =>
      if negb (iLinkedOpCount r =? 0) && (cmd =? diana_cmd_cmpxchg16b) then
        with_linkedOperands (fun l =>
          match l with
          | op :: l' => set_used (if iOperandSize r =? 8 then 16 else 8) op :: l'
          | [] => []
          end) r
      else r
  | None => r
  end.

Definition has_lock (c : DianaContext) : bool := existsb (fun p => prefix p =? 0xF0) (prefixes c).

(** An F2, F3 or 66 that makes another instruction. *)
Definition prefix_rule_broken (c : DianaContext) (info : DianaCmdInfo) : bool :=
  let rule := m_parent_flags info in
  (has_flag rule DIANA_BASE_GEN_OBJECT_PREFIX_NO_F3 && (iPrefix c =? DI_PREFIX_REP))
  || (has_flag rule DIANA_BASE_GEN_OBJECT_PREFIX_NO_F2 && (iPrefix c =? DI_PREFIX_REPN))
  || (has_flag rule DIANA_BASE_GEN_OBJECT_PREFIX_NO_66
      && has_flag (iSizePrefixes c) DIANA_HAS_OPERAND_SIZE_PREFIX).

(** The gathers: destination, index and mask are different registers. *)
Definition index_number (op : DianaLinkedOperand) : Z :=
  match value op with diana_index x => vector_number (indexed_reg x) | _ => -1 end.

Definition gather_broken (info : DianaCmdInfo) (r : DianaParserResult) : bool :=
  let vsib := match nth_error (m_operands info) 1 with
              | Some o => is_type (m_type o) diana_orVSIB
              | None => false
              end in
  match linkedOperands r with
  | op0 :: op1 :: op2 :: _ =>
      let dest := vector_number (recognized op0) in
      let index := index_number op1 in
      let mask := vector_number (recognized op2) in
      ((iLinkedOpCount r =? 3) && vsib && ((dest =? index) || (dest =? mask) || (index =? mask)))
      || ((iLinkedOpCount r =? 2) && vsib && is_register_operand op0 && (0 <=? dest) && (dest =? index))
  | _ => false
  end.

(** LOCK: a lockable instruction with a memory destination. *)
Definition lock_broken (info : DianaCmdInfo) (r : DianaParserResult) : bool :=
  negb (has_flag (m_flags info) DI_FLAG_CMD_PREFIX_LOCK) || (iLinkedOpCount r =? 0)
  || negb (match linkedOperands r with op :: _ => is_memory_operand op | [] => false end).

Definition instruction_rules (info : DianaCmdInfo) : D T unit :=
  let! c := context (fun c => c) in
  let! r := result (fun r => r) in
  if prefix_rule_broken c info then fail DI_INVALID_OPCODE
  else if gather_broken info r then fail DI_INVALID_OPCODE
  else if has_lock c && lock_broken info r then fail DI_INVALID_OPCODE
  else when (has_lock c) (set_result (with_r_iPrefix (fun _ => DI_PREFIX_LOCK))).

(** The bytes of the instruction: from the cache as it was before the call, then from the bytes
    the proxy recorded. *)
Definition copy_bytes (prevCache : list Z) (prevCacheIt iPreviousCacheSize : Z) : D T unit :=
  let! c := context (fun c => c) in
  let! r := result (fun r => r) in
  let! iReadSize := gets m_iReadSize in
  let! lastBytes := gets m_lastBytes in
  let store off src :=
    let! b := result bytes in
    let! b' := some_or_crash (mem_write b off src) in
    set_result (fun r => with_bytesCount (fun _ => off + Z.of_nat (length src)) (with_bytes (fun _ => b') r)) in
  if iFullCmdSize r <=? iPreviousCacheSize then
    let! src := some_or_crash (mem_read prevCache prevCacheIt (iFullCmdSize r)) in store 0 src
  else
    let processedBytes := iReadSize - cacheSize c in
    let! src := some_or_crash (mem_read prevCache prevCacheIt iPreviousCacheSize) in
    store 0 src ;;;
    let! src := some_or_crash (mem_read (lastBytes ++ repeat 0 (32 - length lastBytes)) 0 processedBytes) in
    store iPreviousCacheSize src.

(** After [Diana_ParseCmdEx] returned [iRes]. *)
Definition finish (iRes : Z) (prevCache : list Z) (prevCacheIt iPreviousCacheSize : Z) : D T unit :=
  let! c := context (fun c => c) in
  set_result (fun r =>
    with_iOperandSize (fun _ => iCurrentCmd_opsize c)
      (with_r_iRexPrefix (fun _ => iRexPrefix c) (with_r_iPrefix (fun _ => iPrefix c) r))) ;;;
  let! r := result (fun r => r) in
  match (if iRes =? DI_SUCCESS then pInfo r else None) with
  | Some info =>
      match m_pGroupInfo info with
      | None => when (negb (iLinkedOpCount r =? 0)) crash
      | Some _ => set_result fix_cmpxchg16b ;;; instruction_rules info
      end
  | None => ret tt
  end ;;;
  let! c := context (fun c => c) in
  let! iReadSize := gets m_iReadSize in
  let size := iPreviousCacheSize + iReadSize - cacheSize c in
  set_result (with_iFullCmdSize (fun _ => size)) ;;;
  if DI_MAX_INSTRUCTION_SIZE <? size then fail DI_ERROR
  else
    copy_bytes prevCache prevCacheIt iPreviousCacheSize ;;;
    when (negb (iRes =? DI_SUCCESS) && negb (iRes =? DI_END))
      (set_result (with_iLinkedOpCount (fun _ => 0))) ;;;
    return_status iRes.

(** As it is with DIANA_NO_ARM: only x86 is decoded. *)
Definition Diana_ParseCmd : D T unit :=
  let! c := context (fun c => c) in
  if negb (iArch c =? DIANA_ARCH_X86) then fail DI_UNSUPPORTED
  else
    set_result (fun r =>
      with_bytesCount (fun _ => 0) (with_iFullCmdSize (fun _ => 0) (with_r_iRexPrefix (fun _ => 0)
        (with_r_iPrefix (fun _ => 0) (with_iLinkedOpCount (fun _ => 0) (with_pInfo (fun _ => None) r)))))) ;;;
    let! iRes := status_of Diana_ParseCmdEx in
    finish iRes (cache c) (cacheIt c) (cacheSize c).
End Core.
