(* ===== verification/MemStreams.v ===== *)
(** Streams over a block of memory (diana_streams.c) and the decoder on a buffer
    ([Diana_ParseCmdOnBuffer]). *)

From Stdlib Require Import ZArith Lia List Bool.
Import ListNotations.
From S2P Require Import Prelude Words Status Registers DecTypes DecStreams DecUtils DecCore.
Local Open Scope Z_scope.
Local Open Scope diana_scope.

(** [translateAbsoluteAddress] of the stream: none, or the one of [DianaMemoryStream2] with its
    [absoluteModuleAddress]. *)
Record DianaMemoryStream : Type := mkDianaMemoryStream {
  pBuffer : list Z;
  bufferSize : Z;
  curSize : Z;
  addressDifference : Z;
  writable : bool;
  absoluteModuleAddress : option Z
}.

Definition with_curSize f (t : DianaMemoryStream) : DianaMemoryStream :=
  mkDianaMemoryStream (pBuffer t) (bufferSize t) (f (curSize t)) (addressDifference t) (writable t)
    (absoluteModuleAddress t).
Definition with_pBuffer f (t : DianaMemoryStream) : DianaMemoryStream :=
  mkDianaMemoryStream (f (pBuffer t)) (bufferSize t) (curSize t) (addressDifference t) (writable t)
    (absoluteModuleAddress t).

(** A status and a value that is meaningful with [DI_SUCCESS]. *)
Definition Translate (t : DianaMemoryStream) (offset : Z) : Z * Z :=
  if offset <? addressDifference t then (DI_END_OF_STREAM, 0)
  else (DI_SUCCESS, offset - addressDifference t).

Definition DianaMemoryStream2_TranslateAbsoluteAddress (absolute address : Z) : Z * Z :=
  if address <? absolute then (DI_OVERFLOW, address) else (DI_SUCCESS, address - absolute).

(** [(int)(bufferSize - off)], cut to [iBufferSize] *)
Definition size_to_give (t : DianaMemoryStream) (off iBufferSize : Z) : Z :=
  let sizeToGive := s32 (u64 (bufferSize t - off)) in
  if iBufferSize <? sizeToGive then iBufferSize else sizeToGive.

(** [MemoryStream_Read]; a negative size is a copy of the whole address space. *)
Definition MemoryStream_Read (t : DianaMemoryStream) (iBufferSize : Z) : Z * list Z * DianaMemoryStream :=
  let n := size_to_give t (curSize t) iBufferSize in
  (DI_SUCCESS, buf_bytes (pBuffer t) (curSize t) n, with_curSize (fun c => c + n) t).

#[export] Instance memory_read_stream : DianaReadStream DianaMemoryStream :=
  { DianaRead := MemoryStream_Read }.

(** The offset of a random access. *)
Definition random_offset (t : DianaMemoryStream) (offset_in : Z) (absolute : bool) : Z * Z :=
  match Translate t offset_in with
  | (st, offset) =>
      if negb (st =? DI_SUCCESS) then (st, 0)
      else
        let '(st, offset) :=
          if absolute then
            match absoluteModuleAddress t with
            | Some a => DianaMemoryStream2_TranslateAbsoluteAddress a offset
            | None => (DI_END_OF_STREAM, 0)
            end
          else (DI_SUCCESS, offset) in
        if negb (st =? DI_SUCCESS) then (st, 0)
        else if bufferSize t <=? offset then (DI_END_OF_STREAM, 0)
        else (DI_SUCCESS, offset)
  end.

(** The status and the bytes delivered. *)
Definition DianaMemoryStream_RandomRead_V (t : DianaMemoryStream) (offset_in iBufferSize : Z)
    (absolute : bool) : Z * list Z :=
  match random_offset t offset_in absolute with
  | (st, offset) =>
      if negb (st =? DI_SUCCESS) then (st, [])
      else (DI_SUCCESS, buf_bytes (pBuffer t) offset (size_to_give t offset iBufferSize))
  end.

Definition DianaMemoryStream_RandomRead (t : DianaMemoryStream) (offset_in iBufferSize : Z)
    : Z * list Z := DianaMemoryStream_RandomRead_V t offset_in iBufferSize false.

(** The status, the number of bytes written and the stream; a stream that is not writable has no
    write function. *)
Definition DianaMemoryStream_RandomWrite_V (t : DianaMemoryStream) (offset_in : Z) (bs : list Z)
    (absolute : bool) : option (Z * Z * DianaMemoryStream) :=
  if negb (writable t) then None
  else
    match random_offset t offset_in absolute with
    | (st, offset) =>
        if negb (st =? DI_SUCCESS) then Some (st, 0, t)
        else
          let n := size_to_give t offset (Z.of_nat (length bs)) in
          Some (DI_SUCCESS, n,
                with_pBuffer (fun b => buf_update b offset (firstn (Z.to_nat n) bs)) t)
    end.

Definition DianaMemoryStream_RandomReadMoveTo (t : DianaMemoryStream) (offset_in : Z)
    : Z * DianaMemoryStream :=
  match Translate t offset_in with
  | (st, offset) =>
      if negb (st =? DI_SUCCESS) then (st, t) else (DI_SUCCESS, with_curSize (fun _ => offset) t)
  end.

Definition Diana_InitMemoryStreamEx2 (buf : list Z) (size : Z) (bWritable : bool)
    (difference : Z) : DianaMemoryStream := mkDianaMemoryStream buf size 0 difference bWritable None.
Definition Diana_InitMemoryStreamEx (buf : list Z) (size : Z) (bWritable : bool) : DianaMemoryStream :=
  Diana_InitMemoryStreamEx2 buf size bWritable 0.
Definition Diana_InitMemoryStream (buf : list Z) (size : Z) : DianaMemoryStream :=
  Diana_InitMemoryStreamEx2 buf size false 0.
Definition Diana_InitMemoryStream2 (buf : list Z) (size : Z) (bWritable : bool)
    (difference absolute : Z) : DianaMemoryStream :=
  mkDianaMemoryStream buf size 0 difference bWritable (Some absolute).

(** ** The decoder on a buffer *)

Definition start {T} (c : DianaContext) (r : DianaParserResult) (stream : T) : DecState T :=
  mkDecState c r stream 0 [] (mkDianaStreamProxy 0 0 0).

Section OnBuffer.
Variable Diana_GetNopInfo : DianaCmdInfo.
Variable pInitialLine : DianaBaseGenObject.

(** The status, the result and [*sizeRead]. *)
Definition parse_on (c : DianaContext) (buf : list Z) (size : Z) (r : DianaParserResult)
    : outcome unit * DianaParserResult * Z :=
  let '(o, s) := Diana_ParseCmd Diana_GetNopInfo pInitialLine
                   (start c r (Diana_InitMemoryStream buf size)) in
  (o, pResult s, u64 (curSize (readStream s) - cacheSize (pContext s))).

Definition Diana_ParseCmdOnBufferEx (iMode iArch : Z) := parse_on (Diana_InitContextEx iMode iArch).
Definition Diana_ParseCmdOnBuffer (iMode : Z) := Diana_ParseCmdOnBufferEx iMode DIANA_ARCH_X86.
Definition Diana_ParseCmdOnBuffer_testmode (iMode : Z) := parse_on (Diana_InitContextWithTestMode iMode).
End OnBuffer.
