(* ===== verification/DecTables.v ===== *)
(** The initialisation of the opcode tables (diana_core.c, [Diana_Init]): every command gets its
    prefix function and the flags that depend on its opcode or its group.

    The state is the array of groups; the tables are trees, so that a line is reached once and
    comes back with its commands initialised. *)

From Stdlib Require Import ZArith Lia List Bool.
Import ListNotations.
From S2P Require Import Prelude Words Status Registers DecTypes.
Local Open Scope Z_scope.
Local Open Scope diana_scope.

Definition DIANA_GT_CAN_CHANGE_RIP : Z := 0x1.
Definition DIANA_GT_IS_CALL : Z := 0x2.
Definition DIANA_GT_IS_JUMP : Z := 0x4.
Definition DIANA_GT_CAN_GO_TO_THE_NEXT_INSTRUCTION : Z := 0x8.
Definition DIANA_GT_RET : Z := 0x10.

Record Diana_LinkedAdditionalGroupInfo : Type := mkLinkedInfo {
  gt_flags : Z; relArgrumentNumber : Z
}.

Definition g_infoForRets := mkLinkedInfo (Z.lor DIANA_GT_CAN_CHANGE_RIP DIANA_GT_RET) 0.
Definition g_infoForCalls :=
  mkLinkedInfo (Z.lor (Z.lor DIANA_GT_CAN_CHANGE_RIP DIANA_GT_IS_CALL)
                  DIANA_GT_CAN_GO_TO_THE_NEXT_INSTRUCTION) 0.
Definition g_infoForJmps := mkLinkedInfo (Z.lor DIANA_GT_CAN_CHANGE_RIP DIANA_GT_IS_JUMP) 0.
Definition g_infoForLoops :=
  mkLinkedInfo (Z.lor (Z.lor DIANA_GT_CAN_CHANGE_RIP DIANA_GT_IS_JUMP)
                  DIANA_GT_CAN_GO_TO_THE_NEXT_INSTRUCTION) 0.
Definition g_infoForJecxz :=
  mkLinkedInfo (Z.lor (Z.lor DIANA_GT_CAN_CHANGE_RIP DIANA_GT_IS_JUMP)
                  DIANA_GT_CAN_GO_TO_THE_NEXT_INSTRUCTION) 1.
Definition g_infoForJcc :=
  mkLinkedInfo (Z.lor (Z.lor DIANA_GT_CAN_CHANGE_RIP DIANA_GT_IS_JUMP)
                  DIANA_GT_CAN_GO_TO_THE_NEXT_INSTRUCTION) 0.

Record DianaGroupInfo : Type := mkDianaGroupInfo {
  m_commandId : Z;
  m_pLinkedInfo : option Diana_LinkedAdditionalGroupInfo
}.

Definition member (x : Z) (l : list Z) : bool := existsb (Z.eqb x) l.

(** What [InitJmps] stores in [m_pLinkedInfo]; it leaves the other commands alone. *)
Definition linked_info (cmd : Z) : option Diana_LinkedAdditionalGroupInfo :=
  if member cmd [diana_cmd_ret; diana_cmd_retf; diana_cmd_iret; diana_cmd_leave] then Some g_infoForRets
  else if cmd =? diana_cmd_call then Some g_infoForCalls
  else if member cmd [diana_cmd_loop; diana_cmd_loope; diana_cmd_loopne] then Some g_infoForLoops
  else if cmd =? diana_cmd_jmp then Some g_infoForJmps
  else if member cmd [diana_cmd_ja; diana_cmd_jae; diana_cmd_jb; diana_cmd_jbe; diana_cmd_je;
                      diana_cmd_jg; diana_cmd_jge; diana_cmd_jl; diana_cmd_jle; diana_cmd_jne;
                      diana_cmd_jno; diana_cmd_jnp; diana_cmd_jns; diana_cmd_jo; diana_cmd_jp;
                      diana_cmd_js] then Some g_infoForJcc
  else if cmd =? diana_cmd_jecxz then Some g_infoForJecxz
  else None.

Definition InitJmps (g : DianaGroupInfo) : DianaGroupInfo :=
  match linked_info (m_commandId g) with
  | Some i => mkDianaGroupInfo (m_commandId g) (Some i)
  | None => g
  end.

(** The opcodes of the root line that are not instructions of 64-bit mode. *)
Definition i386_opcodes : list Z :=
  [0x82; 0x9A; 0x06; 0x07; 0x0E; 0x16; 0x17; 0x1E; 0x1F; 0x27; 0x2F; 0x37; 0x3F; 0x60; 0x61; 0x62;
   0xC4; 0xC5; 0xD4; 0xD5; 0xD6; 0xEA; 0x40; 0x41; 0x42; 0x43; 0x44; 0x45; 0x46; 0x47; 0x48; 0x49;
   0x4A; 0x4B; 0x4C; 0x4D; 0x4E; 0x4F].

(** The flags [ProcessCmdInfo] adds. *)
Definition added_flags (on_root : bool) (opcode : Z) (g : DianaGroupInfo) : Z :=
  let cmd := m_commandId g in
  let on b flag := if b : bool then flag else 0 in
  Z.lor
    (Z.lor (on (on_root && member opcode i386_opcodes) DI_FLAG_CMD_I386)
           (on (member cmd [diana_cmd_les; diana_cmd_lds; diana_cmd_into]) DI_FLAG_CMD_I386))
    (Z.lor (on match m_pLinkedInfo g with
               | Some i => has_flag (gt_flags i) DIANA_GT_CAN_CHANGE_RIP
               | None => false
               end DI_FLAG_CMD_AMD_DEFAULT_OPSIZE_64)
           (on (member cmd [diana_cmd_pop; diana_cmd_popf; diana_cmd_push; diana_cmd_pushf])
               DI_FLAG_CMD_AMD_DEFAULT_OPSIZE_64)).

Definition with_cmd_flags (flags : Z) (fnc : Diana_PrefixFnc) (i : DianaCmdInfo) : DianaCmdInfo :=
  mkDianaCmdInfo (m_parent_flags i) (m_extension i) (m_extension_mask i) (m_extension_deny_mask i)
    (m_lGroupId i) flags (m_iCSIPExtensionSizeInBytes i) (m_iImmediateOperandSizeInBytes i)
    (m_iImmediateOperandSizeInBytes2 i) (Some fnc) (m_pGroupInfo i) (m_operands i) (m_evex i).

(** The x86 part of [Diana_GetGroupInfo]: the index in the array. *)
Definition Diana_GetGroupInfo (groups : list DianaGroupInfo) (lId : Z) : option nat :=
  if (Z.of_nat (length groups) <? lId) || (lId <? 1) then None else Some (Z.to_nat (lId - 1)).

Definition Tables (A : Type) : Type := M (list DianaGroupInfo) A.

Definition ProcessCmdInfo (on_root : bool) (i : DianaCmdInfo) (opcode : Z) : Tables DianaCmdInfo :=
  let! groups := gets (fun g => g) in
  match Diana_GetGroupInfo groups (m_lGroupId i) with
  | None => crash
  | Some k =>
      match nth_error groups k with
      | None => crash
      | Some g0 =>
          let g := InitJmps g0 in
          modify (fun groups => firstn k groups ++ g :: skipn (S k) groups) ;;;
          let fnc := if has_flag (m_flags i) DI_FLAG_CMD_IS_TRUE_PREFIX then fn_Nope else fn_Normal in
          ret (with_cmd_flags (Z.lor (m_flags i) (added_flags on_root opcode g)) fnc i)
      end
  end.

(** [Diana_InitLine] with [Diana_InitIndex] and [Diana_InitRegularLine]; a null entry of a regular
    line is read. *)
Fixpoint Diana_InitLine (on_root : bool) (o : DianaBaseGenObject) : Tables DianaBaseGenObject :=
  let entry (opcode : Z) (o : DianaBaseGenObject) : Tables DianaBaseGenObject :=
    match o with
    | CmdObject i => let! i := ProcessCmdInfo on_root i (u8 opcode) in ret (CmdObject i)
    | _ => Diana_InitLine false o
    end in
  match o with
  | CmdObject i => ret (CmdObject i)
  | LineObject flags keys =>
      let! keys :=
        (fix go (l : list (Z * option DianaBaseGenObject))
           : Tables (list (Z * option DianaBaseGenObject)) :=
           match l with
           | [] => ret []
           | (opcode, None) :: _ => crash
           | (opcode, Some o) :: l' =>
               let! o := entry opcode o in let! l' := go l' in ret ((opcode, Some o) :: l')
           end) keys in
      ret (LineObject flags keys)
  | IndexObject flags keys =>
      let! keys :=
        (fix go (i : Z) (l : list (option DianaBaseGenObject))
           : Tables (list (option DianaBaseGenObject)) :=
           match l with
           | [] => ret []
           | None :: l' => let! l' := go (i + 1) l' in ret (None :: l')
           | Some o :: l' =>
               let! o := entry i o in let! l' := go (i + 1) l' in ret (Some o :: l')
           end) 0 keys in
      ret (IndexObject flags keys)
  end.

(** [Diana_Init]: the table that [Diana_GetRootLine()] gives afterwards, and the groups. *)
Definition Diana_Init (root : DianaBaseGenObject) : Tables DianaBaseGenObject :=
  Diana_InitLine true root.
