(* ===== verification/Execution.v ===== *)
(** One instruction: [DianaProcessor_ExecOnce] of diana_processor_core.c, where the decoder reads
    its bytes through the processor's memory stream and the handler of the command runs.

    The processor of the handlers sees the decoder's context and result through [context_view] and
    [result_view], the fields that handlers use; the machine keeps both. *)

From Stdlib Require Import ZArith Lia List Bool.
Import ListNotations.
From S2P Require Import Prelude Words Status Registers ProcStreams Processor CmdInternal CmdString.
From S2P Require Import ProcessorInit.
From S2P Require DecTypes DecStreams DecUtils DecCore MemStreams.
Local Open Scope Z_scope.
Local Open Scope diana_scope.

Definition diana_cmd_maskmovq : Z := 48.
Definition DI_PROCESSOR_FPU_REGISTER_BUSY : Z := 1.

(** ** What the handlers see of an instruction *)

Definition index_view (x : DecTypes.DianaRmIndex) : DianaRmIndex :=
  mkDianaRmIndex (DecTypes.seg_reg x) (DecTypes.reg x) (DecTypes.indexed_reg x) (DecTypes.index x)
    (DecTypes.dispSize x) (DecTypes.dispValue x).

Definition value_view (v : DecTypes.DianaOperandValue) : DianaOperandValue :=
  match v with
  | DecTypes.diana_none => diana_none
  | DecTypes.diana_register r => diana_register r
  | DecTypes.diana_index x => diana_index (index_view x)
  | DecTypes.diana_imm i => diana_imm i
  | DecTypes.diana_call_ptr segment address _ _ => diana_call_ptr segment address
  | DecTypes.diana_rel _ v => diana_rel v
  | DecTypes.diana_memory x => diana_memory (index_view x)
  | DecTypes.diana_reserved_reg => diana_reserved_reg
  end.

Definition operand_view (o : DecTypes.DianaLinkedOperand) : DianaLinkedOperand :=
  mkDianaLinkedOperand (value_view (DecTypes.value o)) (DecTypes.usedSize o)
    (DecTypes.usedAddressSize o).

(** [info] is [r.pInfo] and [command] its group's command. *)
Definition result_view (info : DecTypes.DianaCmdInfo) (command : Z) (r : DecTypes.DianaParserResult)
    : DianaParserResult :=
  mkDianaParserResult (DecTypes.m_flags info) command (map operand_view (DecTypes.linkedOperands r))
    (DecTypes.iLinkedOpCount r) (DecTypes.r_iPrefix r) (DecTypes.iFullCmdSize r).

Definition context_view (c : DecTypes.DianaContext) : DianaContext :=
  mkDianaContext (DecTypes.iMainMode_opsize c) (DecTypes.iCurrentCmd_opsize c)
    (DecTypes.iMainMode_addressSize c) (DecTypes.iCurrentCmd_addressSize c)
    (DecTypes.currentCmd_sreg c) (DecTypes.iAMD64Mode c) (DecTypes.iRexPrefix c).

Section Execution.
Context {T : Type} `{RandomStream T}.

(** ** [ProcessorReadStream]: the decoder reads at [m_tempRIP] in the code segment *)

Definition register_now (p : DianaProcessor T) (r : Z) : Z :=
  match fst (GET_REG r p) with Ok v => v | _ => 0 end.

Definition ProcessorReadStream (p : DianaProcessor T) (iBufferSize : Z)
    : Z * list Z * DianaProcessor T :=
  match pReadFnc (m_pMemoryStream p) (register_now p reg_CS) (m_tempRIP p) iBufferSize reg_CS with
  | (res, bs, t) =>
      let p := with_pMemoryStream (fun _ => t) p in
      if negb (res =? DI_SUCCESS) then (res, [], p)
      else (res, bs, with_tempRIP (fun rip => u64 (rip + Z.of_nat (length bs))) p)
  end.

#[export] Instance processor_read_stream : DecStreams.DianaReadStream (DianaProcessor T) :=
  { DecStreams.DianaRead := ProcessorReadStream }.

(** ** The machine: [DianaProcessor] with the decoder's [m_context] and [m_result] *)

Record Machine : Type := mkMachine {
  processor : DianaProcessor T;
  decoder : DecTypes.DianaContext;
  decoded : DecTypes.DianaParserResult
}.

Definition with_processor f (x : Machine) : Machine :=
  mkMachine (f (processor x)) (decoder x) (decoded x).
Definition with_decoder f (x : Machine) : Machine :=
  mkMachine (processor x) (f (decoder x)) (decoded x).

Definition X (A : Type) : Type := M Machine A.

(** What a handler changes of the context is the operand size. *)
Definition opsize_back (p : DianaProcessor T) (c : DecTypes.DianaContext) : DecTypes.DianaContext :=
  DecTypes.with_iCurrentCmd_opsize (fun _ => iCurrentCmd_opsize (m_context p)) c.

Definition on_processor {A} (m : MP T A) : X A := fun x =>
  let (o, p) := m (processor x) in (o, mkMachine p (opsize_back p (decoder x)) (decoded x)).

(** ** [Diana_FPU_MmxTransition] *)

Definition is_mmx_operand (o : DianaLinkedOperand) : bool :=
  match value o with diana_register r => (reg_MM0 <=? r) && (r <=? reg_MM7) | _ => false end.

Definition operand_register (o : DianaLinkedOperand) : Z :=
  match value o with diana_register r => r | _ => reg_none end.

Definition Diana_FPU_SetStackTop (stackTop : Z) : MP T unit :=
  modify (with_fpu (fun u =>
    mkDianaFPU (controlWord u)
      (Z.lor (Z.land (statusWord u) (u16 (Z.lnot DI_FPU_SW_TOP)))
             (Z.land (Z.shiftl stackTop 11) DI_FPU_SW_TOP)) (registerFlags u))).

Definition Diana_FPU_MmxTransition : MP T unit :=
  let! r := result (fun r => r) in
  let operands := firstn (Z.to_nat (iLinkedOpCount r)) (linkedOperands r) in
  when (existsb is_mmx_operand operands) (
    Diana_FPU_SetStackTop 0 ;;;
    modify (with_fpu (fun u =>
      mkDianaFPU (controlWord u) (statusWord u)
        (map (fun f => Z.lor f DI_PROCESSOR_FPU_REGISTER_BUSY) (registerFlags u)))) ;;;
    let first := linked_op r 0 in
    when (is_mmx_operand first && negb (commandId r =? diana_cmd_maskmovq)) (
      let! pReg := gets (fun p => DianaProcessor_QueryReg p (operand_register first)) in
      store_register (m_offset pReg + 8) 2 0xFFFF)).

(** ** The step *)

(** The callbacks of the embedding program and what is not modelled: fire points with their
    addresses, the provider of custom commands, the handlers of other commands and of EVEX. *)
Variable firePoints : list (Z * (Machine -> Machine)).
Variable customProvider : option (Z -> X (option (MP T unit))).
Variable other_commands : Z -> option (MP T unit).
Variable Diana_Call_evex : MP T unit.
Variable Diana_GetNopInfo : DecTypes.DianaCmdInfo.
Variable Diana_GetRootLine : DecTypes.DianaBaseGenObject.

Definition run_fire_points (rip : Z) (x : Machine) : Machine :=
  fold_left (fun x point => if fst point =? rip then snd point x else x) firePoints x.

(** [Diana_ParseCmd(&m_context, ..., &m_readStream, &m_result)]; on success the handlers see the
    new context and result. *)
Definition decode_step : X unit := fun x =>
  let '(o, s) := DecCore.Diana_ParseCmd Diana_GetNopInfo Diana_GetRootLine
                   (MemStreams.start (decoder x) (decoded x) (processor x)) in
  (o, mkMachine (with_context (fun _ => context_view (DecTypes.pContext s)) (DecTypes.readStream s))
        (DecTypes.pContext s) (DecTypes.pResult s)).

(** [pInfo->m_pGroupInfo->m_commandId] of the result; without a group it is a null pointer. *)
Definition decoded_command : X (DecTypes.DianaCmdInfo * Z) :=
  let! r := gets decoded in
  match DecTypes.pInfo r with
  | Some info =>
      match DecTypes.m_pGroupInfo info with Some command => ret (info, command) | None => crash end
  | None => crash
  end.

(** The handler: by tag, the one for EVEX, or the custom one. *)
Definition choose_command (isEvex : bool) (command : Z) : X (option (MP T unit)) :=
  let tag := if isEvex then Some Diana_Call_evex else command_tag other_commands command in
  match customProvider with
  | None => ret tag
  | Some provider =>
      let! custom := provider command in
      ret (match custom with Some handler => Some handler | None => tag end)
  end.

(** The counter of the repetition; as many rounds are enough. *)
Definition rep_rounds (p : DianaProcessor T) : nat := S (Z.to_nat (register_now p reg_RCX)).

Definition call_with_rep (pCommand : MP T unit) (bRepn : bool) : MP T unit :=
  let! fuel := gets rep_rounds in
  let! done := CallWithRep fuel pCommand bRepn in
  match done with Some _ => ret tt | None => crash end.

(** LOCK asks for a lockable instruction with a memory operand as its destination. *)
Definition lock_allowed (r : DianaParserResult) : bool :=
  negb (Z.land (pInfo_flags r) DI_FLAG_CMD_PREFIX_LOCK =? 0) && (0 <? iLinkedOpCount r)
  && match value (linked_op r 0) with diana_index _ | diana_memory _ => true | _ => false end.

Definition call_by_prefix (pCommand : MP T unit) : MP T unit :=
  let! r := result (fun r => r) in
  if iPrefix r =? DI_PREFIX_REP then call_with_rep pCommand false
  else if iPrefix r =? DI_PREFIX_REPN then call_with_rep pCommand true
  else if iPrefix r =? DI_PREFIX_LOCK then
    if lock_allowed r then Call pCommand else fail DI_INVALID_OPCODE
  else Call pCommand.

(** After the handler: a jump, or an error, drops the bytes read ahead; otherwise RIP moves behind
    the instruction. *)
Definition finish_step (rip res : Z) : X unit :=
  when (res =? DI_SUCCESS) (on_processor Diana_FPU_MmxTransition) ;;;
  on_processor (clear_stateFlags DI_PROC_STATE_CMD_USES_NORMAL_REP) ;;;
  let! flags := gets (fun x => m_stateFlags (processor x)) in
  if has flags DI_PROC_STATE_RIP_CHANGED || negb (res =? DI_SUCCESS) then
    on_processor (clear_stateFlags DI_PROC_STATE_TEMP_RIP_IS_VALID) ;;;
    on_processor (clear_stateFlags DI_PROC_STATE_RIP_CHANGED) ;;;
    modify (with_decoder DecUtils.Diana_ClearCache) ;;;
    if res =? DI_SUCCESS then ret tt else fail res
  else
    let! size := gets (fun x => DecTypes.iFullCmdSize (decoded x)) in
    on_processor (
      let! pReg := gets (fun p => DianaProcessor_QueryReg p reg_RIP) in
      DianaProcessor_SetValue reg_none pReg (u64 (rip + size))).

(** The status of the handler as a value; a trap stays one. *)
Definition status_of_handler (m : MP T unit) : X Z := fun x =>
  match m (processor x) with
  | (Ok _, p) => (Ok DI_SUCCESS, mkMachine p (opsize_back p (decoder x)) (decoded x))
  | (Err c, p) => (Ok c, mkMachine p (opsize_back p (decoder x)) (decoded x))
  | (Crash, p) => (Crash, mkMachine p (opsize_back p (decoder x)) (decoded x))
  end.

(** The instruction that was decoded at [rip]. *)
Definition execute_step (rip : Z) : X unit :=
  let! (info, command) := decoded_command in
  modify (fun x => with_processor (with_result (fun _ => result_view info command (decoded x))) x) ;;;
  let! isEvex := gets (fun x => negb (DecTypes.isEvex (DecTypes.evex (decoded x)) =? 0)) in
  let! pCommand := choose_command isEvex command in
  match pCommand with
  | None => fail DI_UNSUPPORTED_COMMAND
  | Some handler =>
      let! res := status_of_handler (call_by_prefix handler) in
      finish_step rip res
  end.

(** The first instruction after a jump or an error is read from RIP. *)
Definition start_fetch (rip : Z) : MP T unit :=
  let! flags := gets m_stateFlags in
  when (negb (has flags DI_PROC_STATE_TEMP_RIP_IS_VALID)) (
    modify (with_tempRIP (fun _ => rip)) ;;; set_stateFlags DI_PROC_STATE_TEMP_RIP_IS_VALID) ;;;
  clear_stateFlags DI_PROC_STATE_RIP_CHANGED.

Definition DianaProcessor_ExecOnce : X unit :=
  let! rip := on_processor (GET_REG reg_RIP) in
  modify (run_fire_points rip) ;;;
  let! rip := on_processor (GET_REG reg_RIP) in
  on_processor (start_fetch rip) ;;;
  decode_step ;;;
  execute_step rip.

Definition DianaProcessor_ClearCache : X unit :=
  modify (fun x =>
    with_decoder DecUtils.Diana_ClearCache (with_processor (with_stateFlags (fun _ => 0)) x)).
End Execution.

Arguments Machine T : clear implicits.
