(* ===== verification/StackWalk.v ===== *)
(** Calls and the stack: what an instruction does to the stack pointer (diana_analyze2.c), where a
    call or a jump goes, and the walk over the return addresses of a stack (diana_processor_core.c).

    The instructions of these functions are decoded into locals, with a stream of their own over the
    memory of the processor; as in Execution.v they are seen through [context_view] and
    [result_view]. *)

From Stdlib Require Import ZArith Lia List Bool.
Import ListNotations.
From S2P Require Import Prelude Words Status Registers ProcStreams Processor DecTables Execution.
From S2P Require DecTypes DecStreams DecUtils DecCore MemStreams.
Local Open Scope Z_scope.
Local Open Scope diana_scope.

Import DecTypes(diana_cmd_push, diana_cmd_pop, diana_cmd_ret, diana_cmd_jmp, diana_cmd_leave).

Definition diana_cmd_add : Z := 335.
Definition diana_cmd_int : Z := 383.
Definition diana_cmd_mov : Z := 423.
Definition diana_cmd_popa : Z := 434.
Definition diana_cmd_pusha : Z := 437.
Definition diana_cmd_sub : Z := 478.

(** ** What an instruction does to the stack pointer *)

Definition Diana_Analyze_HasImmediateValue (pResult : DianaParserResult) : option Z :=
  let operands := firstn (Z.to_nat (iLinkedOpCount pResult)) (linkedOperands pResult) in
  fold_right (fun o found => match value o with diana_imm i => Some i | _ => found end) None operands.

Definition Diana_Analyze_IsStackRegister (reg : Z) : bool :=
  member reg [reg_ESP; reg_EBP; reg_RSP; reg_RBP; reg_BPL; reg_SPL].

Definition accesses_stack (o : DianaLinkedOperand) : bool :=
  match value o with
  | diana_register r => Diana_Analyze_IsStackRegister r
  | diana_index i => Diana_Analyze_IsStackRegister (reg i) || Diana_Analyze_IsStackRegister (reg i)
  | _ => false
  end.

Definition Diana_AnalyzeInstructionStackAccess (pResult : DianaParserResult) : bool :=
  existsb accesses_stack (firstn (Z.to_nat (iLinkedOpCount pResult)) (linkedOperands pResult)).

(** The status, [*pESPDiff] and [*pIsCall]. *)
Definition StackDiff : Type := Z * Z * bool.

Definition is_register_in (rs : list Z) (o : DianaLinkedOperand) : bool :=
  match value o with diana_register r => member r rs | _ => false end.

Definition Diana_AnalyzeInstructionStackDiff_KnownCommands (pGroupInfo : DianaGroupInfo)
    (pContext : DianaContext) (pResult : DianaParserResult) : StackDiff :=
  let opsize := iCurrentCmd_opsize pContext in
  let scan (scanMode : Z) : StackDiff :=
    if negb (iLinkedOpCount pResult =? 2) then (DI_SUCCESS, 0, false)
    else if is_register_in [reg_ESP; reg_RSP; reg_SP] (linked_op pResult 0) then
      if m_commandId pGroupInfo =? diana_cmd_mov then (DI_END, 0, false)
      else
        match value (linked_op pResult 1) with
        | diana_imm imm =>
            (DI_SUCCESS, if 0 <? scanMode then s64 imm else s64 (u64 (0 - imm)), false)
        | _ => (DI_UNSUPPORTED_COMMAND, 0, false)
        end
    else (DI_SUCCESS, 0, false) in
  let cmd := m_commandId pGroupInfo in
  if cmd =? diana_cmd_push then (DI_SUCCESS, 0 - opsize, false)
  else if cmd =? diana_cmd_pop then (DI_SUCCESS, opsize, false)
  else if cmd =? diana_cmd_pusha then (DI_SUCCESS, 0 - opsize * 8, false)
  else if cmd =? diana_cmd_popa then (DI_SUCCESS, opsize * 8, false)
  else if cmd =? diana_cmd_sub then scan (-1)
  else if cmd =? diana_cmd_add then scan 1
  else if cmd =? diana_cmd_mov then scan 0
  else (DI_SUCCESS, 0, false).

(** [pGroupInfo] is what [Diana_GetGroupInfo] gives for the instruction. *)
Definition Diana_AnalyzeInstructionStackDiff (pGroupInfo : option DianaGroupInfo)
    (pContext : DianaContext) (pResult : DianaParserResult) : StackDiff :=
  let opsize := iCurrentCmd_opsize pContext in
  match pGroupInfo with
  | None => (DI_ERROR, 0, false)
  | Some g =>
      let known := Diana_AnalyzeInstructionStackDiff_KnownCommands g pContext pResult in
      match m_pLinkedInfo g with
      | None => known
      | Some info =>
          if has (gt_flags info) DIANA_GT_IS_CALL then (DI_SUCCESS, - opsize, true)
          else if has (gt_flags info) DIANA_GT_IS_JUMP then (DI_SUCCESS, 0, false)
          else if has (gt_flags info) DIANA_GT_RET then
            (DI_SUCCESS,
             if 0 <? iLinkedOpCount pResult then
               match value (linked_op pResult 0) with
               | diana_imm imm => s64 (u64 (opsize + imm))
               | _ => opsize
               end
             else opsize, false)
          else known
      end
  end.

(** ** Where a call or a jump goes *)

Section Calls.
Context {T : Type} `{RandomStream T}.

(** A function that gets another context than the processor's own. *)
Definition with_local_context {A} (c : DianaContext) (m : MP T A) : MP T A := fun p =>
  let (o, p') := m (with_context (fun _ => c) p) in (o, with_context (fun _ => m_context p) p').

Definition no_index (i : DianaRmIndex) : bool := (indexed_reg i =? reg_none) || (index i =? 0).

(** [pLinkedInfo] is the one of the instruction's group. *)
Definition DianaProcessor_AnalyzeCallJmpInstruction
    (pLinkedInfo : option Diana_LinkedAdditionalGroupInfo) (c : DianaContext)
    (pDianaResult : DianaParserResult) (rip : Z) : MP T Z :=
  if negb (iLinkedOpCount pDianaResult =? 1) then fail DI_ERROR
  else
    match pLinkedInfo with
    | None => fail DI_ERROR
    | Some info =>
        if negb (has (gt_flags info) (Z.lor DIANA_GT_IS_CALL DIANA_GT_IS_JUMP)) then fail DI_ERROR
        else
          let next := u64 (rip + iFullCmdSize pDianaResult) in
          match value (linked_op pDianaResult 0) with
          | diana_rel m_value => ret (u64 (next + m_value))
          | diana_imm imm => ret imm
          | diana_index pIndex =>
              if (reg pIndex =? reg_RIP) && no_index pIndex then
                let! (memSelector, _) := with_local_context c (DianaProcessor_CalcIndex pIndex) in
                DianaProcessor_GetMemValue memSelector (u64 (next + dispValue pIndex))
                  (iCurrentCmd_addressSize c) (seg_reg pIndex)
              else if no_index pIndex && negb (dispSize pIndex =? 0) then
                let! (memSelector, memAddress) :=
                  with_local_context c (DianaProcessor_CalcIndex pIndex) in
                DianaProcessor_GetMemValue memSelector memAddress (iCurrentCmd_addressSize c)
                  (seg_reg pIndex)
              else if ((reg pIndex =? reg_RIP) || (indexed_reg pIndex =? reg_RIP)) &&
                      (no_index pIndex || ((reg pIndex =? reg_none) && (index pIndex =? 1))) then
                ret (u64 (next + dispValue pIndex))
              else fail DI_ERROR
          | _ => fail DI_ERROR
          end
    end.

(** The status and the bytes of [DianaProcessor_ReadMemory]. *)
Definition DianaProcessor_ReadMemory (selector offset iBufferSize segReg : Z) : MP T (Z * list Z) :=
  fun s =>
    match pReadFnc (m_pMemoryStream s) selector offset iBufferSize segReg with
    | (status, bs, t) => (Ok (status, bs), with_pMemoryStream (fun _ => t) s)
    end.

(** The seven bytes in front of a return address end in a call. *)
Definition ends_in_call (bs : list Z) : bool :=
  let p k := nth k bs 0 in
  (p 2%nat =? 0xE8)
  || ((p 1%nat =? 0xFF) && (Z.land (p 2%nat) 0xF8 =? 0x90) && negb (Z.land (p 2%nat) 7 =? 4))
  || ((p 1%nat =? 0xFF) && (p 2%nat =? 0x15))
  || ((p 4%nat =? 0xFF) && (Z.land (p 5%nat) 0xF8 =? 0x50) && negb (Z.land (p 5%nat) 7 =? 4))
  || ((p 0%nat =? 0xFF) && (p 1%nat =? 0x94))
  || ((p 3%nat =? 0xFF) && (p 4%nat =? 0x54))
  || ((p 4%nat =? 0xFF) && (p 5%nat =? 0x14))
  || ((p 5%nat =? 0xFF) &&
      ((Z.land (p 6%nat) 0xF8 =? 0xD0) ||
       ((Z.land (p 6%nat) 0xF8 =? 0x10) && negb (Z.land (p 6%nat) 7 =? 4)
        && negb (Z.land (p 6%nat) 7 =? 5)))).

Definition DianaProcessor_IsAfterCall (address : Z) : MP T bool :=
  if address <? 7 then ret false
  else
    let! cs := GET_REG reg_CS in
    let! (status, bs) := DianaProcessor_ReadMemory cs (address - 7) 7 reg_CS in
    if negb (status =? DI_SUCCESS) || negb (Z.of_nat (length bs) =? 7) then ret false
    else ret (ends_in_call bs).

(** [AnalyzeStack]: the search for a return address behind a call, in sixteen slots; [None] is the
    result 0.  A slot that cannot be read ends it with its status, which is not 0: the out
    parameters, [rip] and [rsp] here, keep their values. *)
Fixpoint analyze_stack_loop (n : nat) (ptr newRIP newRSP : Z) : MP T (option (Z * Z)) :=
  match n with
  | O => ret None
  | S n =>
      let! ss := GET_REG reg_SS in
      let! addressSize := context iCurrentCmd_addressSize in
      let! (status, v) := DianaProcessor_GetMemValue_out ss ptr addressSize reg_SS in
      if negb (status =? DI_SUCCESS) then ret (Some (newRIP, newRSP))
      else
        let! found :=
          (if negb (v =? 0) then
             let! ds := GET_REG reg_DS in
             let! (status, bs) := DianaProcessor_ReadMemory ds (u64 (v - 5)) 5 reg_DS in
             ret ((status =? DI_SUCCESS) && (Z.of_nat (length bs) =? 5) && (nth 0 bs 0 =? 0xE8))
           else ret false) in
        if found then ret (Some (u64 (v - 5), u64 (ptr + addressSize)))
        else analyze_stack_loop n (u64 (ptr + addressSize)) newRIP newRSP
  end.

Definition AnalyzeStack (currentFunctionRSP currentFunctionStackDiff newRIP newRSP : Z)
    : MP T (option (Z * Z)) :=
  analyze_stack_loop 16 (u64 (currentFunctionRSP + Z.max 0 currentFunctionStackDiff)) newRIP newRSP.
End Calls.

(** ** The walk *)

(** The conditional jumps taken and the unconditional ones, in the current function. *)
Definition DIANA_STACK_WALK_TAKEN_JUMPS : nat := 64.
Definition DIANA_STACK_WALK_JUMP_SLOTS : nat := 16.

Definition g_scanSize : nat := Z.to_nat 0x1000.

Section Walk.
Context {T : Type} `{RandomStream T}.

(** [Obs] is the type of the [pCustomContext] of the observer. *)
Context {Obs : Type}.

(** [UtilsProcessorContext], with [*pReportCount] and the observer's context. *)
Record UtilsProcessorContext : Type := mkUtilsProcessorContext {
  pCallContext : DianaProcessor T;
  streamPointer : Z;
  reportCount : Z;
  pCustomContext : Obs
}.

Definition with_pCallContext f (w : UtilsProcessorContext) : UtilsProcessorContext :=
  mkUtilsProcessorContext (f (pCallContext w)) (streamPointer w) (reportCount w) (pCustomContext w).
Definition with_streamPointer f (w : UtilsProcessorContext) : UtilsProcessorContext :=
  mkUtilsProcessorContext (pCallContext w) (f (streamPointer w)) (reportCount w) (pCustomContext w).
Definition with_reportCount f (w : UtilsProcessorContext) : UtilsProcessorContext :=
  mkUtilsProcessorContext (pCallContext w) (streamPointer w) (f (reportCount w)) (pCustomContext w).

Definition W (A : Type) : Type := M UtilsProcessorContext A.

Definition on_pCallContext {A} (m : MP T A) : W A := fun w =>
  let (o, p) := m (pCallContext w) in (o, with_pCallContext (fun _ => p) w).

(** A status tested by the caller. *)
Definition try {A} (m : MP T A) : MP T (option A) := fun p =>
  match m p with
  | (Ok a, p') => (Ok (Some a), p')
  | (Err _, p') => (Ok None, p')
  | (Crash, p') => (Crash, p')
  end.

Definition UtilsProcessorReadStream (w : UtilsProcessorContext) (iBufferSize : Z)
    : Z * list Z * UtilsProcessorContext :=
  let p := pCallContext w in
  match pReadFnc (m_pMemoryStream p) (register_now p reg_CS) (streamPointer w) iBufferSize reg_CS with
  | (res, bs, t) =>
      let w := with_pCallContext (with_pMemoryStream (fun _ => t)) w in
      if negb (res =? DI_SUCCESS) then (res, [], w)
      else (res, bs, with_streamPointer (fun a => u64 (a + Z.of_nat (length bs))) w)
  end.

#[export] Instance utils_read_stream : DecStreams.DianaReadStream UtilsProcessorContext :=
  { DecStreams.DianaRead := UtilsProcessorReadStream }.

(** The generated tables. *)
Variable Diana_GetNopInfo : DecTypes.DianaCmdInfo.
Variable Diana_GetRootLine : DecTypes.DianaBaseGenObject.
Variable groups : list DianaGroupInfo.
(** What the bytes of another member of the union say as [imm]. *)
Variable imm_of_other : DianaOperandValue -> Z.

(** What [Diana_GetGroupInfo] gives for a command. *)
Definition group_of (info : DecTypes.DianaCmdInfo) : option DianaGroupInfo :=
  match Diana_GetGroupInfo groups (DecTypes.m_lGroupId info) with
  | Some k => nth_error groups k
  | None => None
  end.

(** A decoded instruction: its group and what is used of the context and the result. *)
Record Instruction : Type := mkInstruction {
  i_group : option DianaGroupInfo;
  i_context : DianaContext;
  i_result : DianaParserResult
}.

Definition i_command (i : Instruction) : Z := commandId (i_result i).
(** [pInfo->m_pGroupInfo->m_pLinkedInfo] after [Diana_Init] *)
Definition i_linked (i : Instruction) : option Diana_LinkedAdditionalGroupInfo :=
  linked_info (i_command i).
Definition i_size (i : Instruction) : Z := iFullCmdSize (i_result i).
Definition i_addressSize (i : Instruction) : Z := iCurrentCmd_addressSize (i_context i).

(** [Diana_ParseCmd] with a context of its own; the status is tested by the caller. *)
Definition next_instruction (c : DecTypes.DianaContext)
    : W (outcome Instruction * DecTypes.DianaContext) := fun w =>
  let '(o, s) := DecCore.Diana_ParseCmd Diana_GetNopInfo Diana_GetRootLine
                   (MemStreams.start c DecTypes.zero_result w) in
  let w := DecTypes.readStream s in
  let c := DecTypes.pContext s in
  match o with
  | Ok _ =>
      match DecTypes.pInfo (DecTypes.pResult s) with
      | Some info =>
          match DecTypes.m_pGroupInfo info with
          | Some command =>
              (Ok (Ok (mkInstruction (group_of info) (context_view c)
                         (result_view info command (DecTypes.pResult s))), c), w)
          | None => (Crash, w)
          end
      | None => (Crash, w)
      end
  | Err code => (Ok (Err code, c), w)
  | Crash => (Crash, w)
  end.

Definition call_target (i : Instruction) (rip : Z) : MP T Z :=
  DianaProcessor_AnalyzeCallJmpInstruction (i_linked i) (i_context i) (i_result i) rip.

Definition is_jump (i : Instruction) : bool :=
  match i_linked i with Some l => has (gt_flags l) DIANA_GT_IS_JUMP | None => false end.

(** A far jump to the segment 0x33: 32-bit code under a 64-bit system. *)
Definition is_heavens_gate (i : Instruction) : bool :=
  (i_command i =? diana_cmd_jmp) && (iLinkedOpCount (i_result i) =? 1) &&
  match value (linked_op (i_result i) 0) with diana_call_ptr seg _ => seg =? 0x33 | _ => false end.

(** *** [DianaProcessor_QueryFunctionDiff]: what the ret of a function takes off the stack *)

Fixpoint function_diff_loop (n : nat) (c : DecTypes.DianaContext) (rip : Z) : W Z :=
  match n with
  | O => ret 0
  | S n =>
      let! (o, c) := next_instruction c in
      match o with
      | Err code => fail code
      | Crash => crash
      | Ok i =>
          let rest : W Z :=
            if is_heavens_gate i then ret 0
            else if i_command i =? diana_cmd_int then ret 0
            else if i_command i =? diana_cmd_ret then
              if iLinkedOpCount (i_result i) =? 0 then ret 0
              else if negb (iLinkedOpCount (i_result i) =? 1) then fail DI_ERROR
              else
                match value (linked_op (i_result i) 0) with
                | diana_imm imm => ret (s64 imm)
                | _ => fail DI_ERROR
                end
            else function_diff_loop n c (u64 (rip + i_size i)) in
          if is_jump i then
            let! newRIP := on_pCallContext (call_target i rip) in
            if (i_command i =? diana_cmd_jmp) || (rip <? newRIP) then
              modify (with_streamPointer (fun _ => newRIP)) ;;;
              function_diff_loop n (DecUtils.Diana_ClearCache c) newRIP
            else rest
          else rest
      end
  end.

(** It reads with a stream of its own. *)
Definition DianaProcessor_QueryFunctionDiff (rip : Z) : W Z := fun w =>
  let mode := iMainMode_addressSize (m_context (pCallContext w)) in
  let (o, w') := function_diff_loop g_scanSize (DecUtils.Diana_InitContext mode) rip
                   (with_streamPointer (fun _ => rip) w) in
  (o, with_streamPointer (fun _ => streamPointer w) w').

(** *** [DianaProcessor_QueryCurrentStack_Impl] *)

(** A place where an unconditional jump left the function, with what was known of rbp there. *)
Record JumpSlot : Type := mkJumpSlot { js_slot : Z; js_RBP : Z; js_RBPKnown : bool }.

(** The local variables of the walk; [jumpSlots] has the latest slot first. *)
Record Walk : Type := mkWalk {
  w_context : DecTypes.DianaContext;
  w_rip : Z;
  currentFunctionRSP : Z;
  currentFunctionStackDiff : Z;
  takenJumps : list Z;
  knownRBP : Z;
  isRBPKnown : bool;
  jumpSlots : list JumpSlot;
  frameBase : Z
}.

Definition with_w_context c (w : Walk) : Walk :=
  mkWalk c (w_rip w) (currentFunctionRSP w) (currentFunctionStackDiff w) (takenJumps w) (knownRBP w)
    (isRBPKnown w) (jumpSlots w) (frameBase w).
Definition with_w_rip f (w : Walk) : Walk :=
  mkWalk (w_context w) (f (w_rip w)) (currentFunctionRSP w) (currentFunctionStackDiff w)
    (takenJumps w) (knownRBP w) (isRBPKnown w) (jumpSlots w) (frameBase w).
Definition with_stack rsp diff (w : Walk) : Walk :=
  mkWalk (w_context w) (w_rip w) rsp diff (takenJumps w) (knownRBP w) (isRBPKnown w) (jumpSlots w)
    (frameBase w).
Definition with_RBP rbp known (w : Walk) : Walk :=
  mkWalk (w_context w) (w_rip w) (currentFunctionRSP w) (currentFunctionStackDiff w) (takenJumps w)
    rbp known (jumpSlots w) (frameBase w).
Definition with_jumps taken slots (w : Walk) : Walk :=
  mkWalk (w_context w) (w_rip w) (currentFunctionRSP w) (currentFunctionStackDiff w) taken
    (knownRBP w) (isRBPKnown w) slots (frameBase w).

(** [currentFunctionRSP + currentFunctionStackDiff] *)
Definition current_slot (w : Walk) : Z := u64 (currentFunctionRSP w + currentFunctionStackDiff w).

(** The walk goes on with an instruction of the function, leaves it for its caller at a return
    address in [retSlot], or can't follow it. *)
Inductive Route : Type :=
| Continue (w : Walk)
| FrameFailed (w : Walk) (retSize : Z)
| ReportReturn (w : Walk) (newRIP retSlot retSize : Z).

Definition jump_to (newRIP : Z) (w : Walk) : W Walk :=
  modify (with_streamPointer (fun _ => newRIP)) ;;;
  ret (with_w_context (DecUtils.Diana_ClearCache (w_context w)) (with_w_rip (fun _ => newRIP) w)).

(** A new function whose part of the stack starts at [rsp]. *)
Definition enter_function (rsp newRIP : Z) (w : Walk) : W Walk :=
  jump_to newRIP (mkWalk (w_context w) (w_rip w) rsp 0 [] (knownRBP w) (isRBPKnown w) [] rsp).

(** [DianaProcessor_GetMemValue] in the stack segment, [None] when it fails. *)
Definition stack_value (slot size : Z) : MP T (option Z) :=
  let! ss := GET_REG reg_SS in try (DianaProcessor_GetMemValue ss slot size reg_SS).

Definition register_is (rs : list Z) (i : Instruction) (n : Z) : bool :=
  is_register_in rs (linked_op (i_result i) n).

(** int: a return address behind a call, further up on the stack. *)
Definition walk_int (w : Walk) : W Route :=
  let! found := on_pCallContext (AnalyzeStack (currentFunctionRSP w) (currentFunctionStackDiff w) 0
                                   (currentFunctionRSP w)) in
  match found with
  | Some (newRIP, newRSP) => let! w := enter_function newRSP newRIP w in ret (Continue w)
  | None => ret (FrameFailed w 0)
  end.

(** leave, with a known rbp *)
Definition walk_leave (w : Walk) (i : Instruction) : W Route :=
  let! savedRBP := on_pCallContext (stack_value (knownRBP w) (i_addressSize i)) in
  match savedRBP with
  | None => ret (FrameFailed w 0)
  | Some savedRBP =>
      ret (Continue (with_w_rip (fun rip => u64 (rip + i_size i))
             (with_RBP savedRBP (isRBPKnown w) (with_stack (u64 (knownRBP w + i_addressSize i)) 0 w))))
  end.

(** pop rbp and mov rbp, rsp *)
Definition track_RBP (w : Walk) (i : Instruction) : W Walk :=
  let! w :=
    (if (i_command i =? diana_cmd_pop) && (iLinkedOpCount (i_result i) =? 1)
        && register_is [reg_RBP; reg_EBP] i 0 then
       let! ss := on_pCallContext (GET_REG reg_SS) in
       let! (status, savedRBP) := on_pCallContext
         (DianaProcessor_GetMemValue_out ss (current_slot w) (i_addressSize i) reg_SS) in
       ret (with_RBP savedRBP (status =? DI_SUCCESS) w)
     else ret w) in
  if (i_command i =? diana_cmd_mov) && (iLinkedOpCount (i_result i) =? 2)
     && register_is [reg_RBP; reg_EBP] i 0 && register_is [reg_RSP; reg_ESP] i 1
  then ret (with_RBP (current_slot w) true w)
  else ret w.

(** [value.imm] of the union. *)
Definition union_imm (v : DianaOperandValue) : Z :=
  match v with diana_imm imm => imm | _ => imm_of_other v end.

(** ret, or the far jump to 64-bit code *)
Definition walk_ret (w : Walk) (i : Instruction) (woW64 : bool) : W Route :=
  let! retSize :=
    (if (i_command i =? diana_cmd_ret) && (iLinkedOpCount (i_result i) =? 1) then
       ret (s32 (union_imm (value (linked_op (i_result i) 0))))
     else ret 0) in
  let retSlot := current_slot w in
  let! newRIP := on_pCallContext (stack_value retSlot (i_addressSize i)) in
  match newRIP with
  | None => ret (FrameFailed w retSize)
  | Some newRIP =>
      let! lost :=
        (if woW64 then ret false
         else if retSlot <? frameBase w then ret true
         else let! after := on_pCallContext (DianaProcessor_IsAfterCall newRIP) in ret (negb after)) in
      if lost then ret (FrameFailed w 0) else ret (ReportReturn w newRIP retSlot retSize)
  end.

Definition DianaProcessor_IsJumpTaken (taken : list Z) (rip : Z) : bool := member rip taken.

(** A jump that the walk takes. *)
Definition take_jump (w : Walk) (i : Instruction) (newRIP : Z) : W Route :=
  let w :=
    if negb (i_command i =? diana_cmd_jmp) then
      with_jumps (if (length (takenJumps w) <? DIANA_STACK_WALK_TAKEN_JUMPS)%nat
                  then w_rip w :: takenJumps w else takenJumps w) (jumpSlots w) w
    else
      with_jumps (takenJumps w)
        (if (length (jumpSlots w) <? DIANA_STACK_WALK_JUMP_SLOTS)%nat
         then mkJumpSlot (current_slot w) (knownRBP w) (isRBPKnown w) :: jumpSlots w
         else jumpSlots w) w in
  let! w := jump_to newRIP w in ret (Continue w).

(** Any other instruction: its effect on the stack, for a call the one of the ret of the function. *)
Definition walk_other (w : Walk) (i : Instruction) : W Route :=
  let '(_, diff, isCall) :=
    Diana_AnalyzeInstructionStackDiff (i_group i) (i_context i) (i_result i) in
  let! diff :=
    (if isCall then
       let! target := on_pCallContext (try (call_target i (w_rip w))) in
       match target with
       | None => ret 0
       | Some newRIP => fun u =>
           match DianaProcessor_QueryFunctionDiff newRIP u with
           | (Ok d, u') => (Ok d, u')
           | (Err _, u') => (Ok 0, u')
           | (Crash, u') => (Crash, u')
           end
       end
     else ret diff) in
  ret (Continue (with_w_rip (fun rip => u64 (rip + i_size i))
         (with_stack (currentFunctionRSP w) (s64 (currentFunctionStackDiff w + diff)) w))).

(** A jump with its target, 0 when it is not known. *)
Definition walk_jump (w : Walk) (i : Instruction) : W Route :=
  let! target := on_pCallContext (try (call_target i (w_rip w))) in
  match target with
  | None => if i_command i =? diana_cmd_jmp then ret (FrameFailed w 0) else walk_other w i
  | Some newRIP =>
      if (i_command i =? diana_cmd_jmp)
         || ((w_rip w <? newRIP) && negb (DianaProcessor_IsJumpTaken (takenJumps w) (w_rip w)))
      then take_jump w i newRIP
      else walk_other w i
  end.

(** One instruction of the walk, up to the labels. *)
Definition walk_instruction (w : Walk) : W Route :=
  let! (o, c) := next_instruction (w_context w) in
  let w := with_w_context c w in
  match o with
  | Err _ => ret (FrameFailed w 0)
  | Crash => crash
  | Ok i =>
      if i_command i =? diana_cmd_int then walk_int w
      else
        let woW64 := is_heavens_gate i in
        let w := if woW64 then with_stack (currentFunctionRSP w) 0 w else w in
        if (i_command i =? diana_cmd_leave) && isRBPKnown w then walk_leave w i
        else
          let! w := track_RBP w i in
          if woW64 || (i_command i =? diana_cmd_ret) then walk_ret w i woW64
          else if is_jump i then walk_jump w i
          else walk_other w i
  end.

(** The label [frame_failed]: a return address behind a call, where the stack is now or where a
    jump left it. *)
Fixpoint failed_frame_loop (slots : list JumpSlot) (retSlot : Z) (w : Walk) : W (option (Z * Z * Walk)) :=
  let! newRIP :=
    (if frameBase w <=? retSlot then
       let! v := on_pCallContext
         (stack_value retSlot (iCurrentCmd_addressSize (context_view (w_context w)))) in
       match v with
       | Some newRIP =>
           let! after := on_pCallContext (DianaProcessor_IsAfterCall newRIP) in
           ret (if after then Some newRIP else None)
       | None => ret None
       end
     else ret None) in
  match newRIP with
  | Some newRIP => ret (Some (newRIP, retSlot, w))
  | None =>
      match slots with
      | [] => ret None
      | s :: slots => failed_frame_loop slots (js_slot s) (with_RBP (js_RBP s) (js_RBPKnown s) w)
      end
  end.

(** The observer: the processor, the return address, and [*pbContinue] before and after. *)
Variable pObserver : Z -> bool -> W bool.

(** The label [report_return]; [None] ends the walk. *)
Definition report_return (w : Walk) (newRIP retSlot retSize : Z) : W (option Walk) :=
  modify (with_reportCount (fun n => s32 (n + 1))) ;;;
  let! continueExecution := pObserver newRIP false in
  if negb continueExecution then ret None
  else
    let addressSize := iCurrentCmd_addressSize (context_view (w_context w)) in
    let! w := enter_function (u64 (retSlot + addressSize + retSize)) newRIP w in ret (Some w).

(** One round of the loop. *)
Definition walk_step (w : Walk) : W (option Walk) :=
  let! route := walk_instruction w in
  match route with
  | Continue w => ret (Some w)
  | FrameFailed w retSize =>
      let! found := failed_frame_loop (jumpSlots w) (current_slot w) w in
      match found with
      | None => fail DI_ERROR
      | Some (newRIP, retSlot, w) => report_return w newRIP retSlot retSize
      end
  | ReportReturn w newRIP retSlot retSize => report_return w newRIP retSlot retSize
  end.

Fixpoint walk_loop (n : nat) (w : Walk) : W unit :=
  match n with
  | O => fail DI_END
  | S n =>
      let! next := walk_step w in
      match next with None => ret tt | Some w => walk_loop n w end
  end.

Definition start_walk (mode rip rsp rbp : Z) : Walk :=
  mkWalk (DecUtils.Diana_InitContext mode) rip rsp 0 [] rbp (negb (rbp =? 0)) [] rsp.

Definition DianaProcessor_QueryCurrentStack_Impl (rip rsp : Z) : W unit :=
  let! rbp := on_pCallContext (GET_REG reg_RBP) in
  let! mode := gets (fun u => iMainMode_addressSize (m_context (pCallContext u))) in
  modify (with_reportCount (fun _ => 0)) ;;;
  modify (with_streamPointer (fun _ => rip)) ;;;
  walk_loop g_scanSize (start_walk mode rip rsp rbp).

(** *** [DianaProcessor_QueryCurrentStack_EBP_32]: the chain of frames

    The loop has no bound in the code: [None] when [fuel] rounds did not end it. *)

Fixpoint frame_loop (fuel : nat) (currentEbp : Z) (continueExecution : bool) : W (option unit) :=
  match fuel with
  | O => ret None
  | S fuel =>
      let! ss := on_pCallContext (GET_REG reg_SS) in
      let! (status, frame) := on_pCallContext (DianaProcessor_ReadMemory ss currentEbp 8 reg_SS) in
      if negb (status =? DI_SUCCESS) then fail status
      else if negb (Z.of_nat (length frame) =? 8) then fail DI_ERROR
      else
        let retAddress := le_decode (skipn 4 frame) in
        let! cs := on_pCallContext (GET_REG reg_CS) in
        let! addressSize := gets (fun u => iCurrentCmd_addressSize (m_context (pCallContext u))) in
        on_pCallContext (DianaProcessor_GetMemValue cs retAddress addressSize reg_SS) ;;;
        modify (with_reportCount (fun n => s32 (n + 1))) ;;;
        let! continueExecution := pObserver retAddress continueExecution in
        if negb continueExecution then ret (Some tt)
        else frame_loop fuel (le_decode (firstn 4 frame)) continueExecution
  end.

Definition DianaProcessor_QueryCurrentStack_EBP_32 (fuel : nat) : W (option unit) :=
  let! ebp := on_pCallContext (GET_REG reg_RBP) in frame_loop fuel ebp false.

(** The status of a walk as a value; [None] when the fuel was not enough. *)
Definition walk_status (m : W (option unit)) : W (option Z) := fun u =>
  match m u with
  | (Ok (Some _), u') => (Ok (Some DI_SUCCESS), u')
  | (Ok None, u') => (Ok None, u')
  | (Err c, u') => (Ok (Some c), u')
  | (Crash, u') => (Crash, u')
  end.

Definition DianaProcessor_QueryCurrentStack (fuel : nat) : W (option unit) :=
  let walk rip rsp := (DianaProcessor_QueryCurrentStack_Impl rip rsp ;;; ret (Some tt)) in
  modify (with_reportCount (fun _ => 0)) ;;;
  let! mode := gets (fun u => iMainMode_addressSize (m_context (pCallContext u))) in
  let! result :=
    (if mode =? DIANA_MODE32 then walk_status (DianaProcessor_QueryCurrentStack_EBP_32 fuel)
     else
       let! rip := on_pCallContext (GET_REG reg_RIP) in
       let! rsp := on_pCallContext (GET_REG reg_RSP) in
       walk_status (walk rip rsp)) in
  match result with
  | None => ret None
  | Some result =>
      let! n := gets reportCount in
      let! lastCallRSP := gets (fun u => m_lastCallRSP (pCallContext u)) in
      let! lastCallRIP := gets (fun u => m_lastCallRIP (pCallContext u)) in
      let! result :=
        (if (n =? 0) && negb (lastCallRSP =? 0)
         then walk_status (walk lastCallRIP lastCallRSP) else ret (Some result)) in
      match result with
      | None => ret None
      | Some result => if result =? DI_SUCCESS then ret (Some tt) else fail result
      end
  end.
End Walk.

Arguments UtilsProcessorContext T Obs : clear implicits.
