(* ===== verification/Lists.v ===== *)
(** The intrusive lists of diana_list.c: the doubly linked [Diana_List] and the circular
    [Diana_FList_List] over nodes in memory.

    The nodes are in a finite map from addresses; 0 is the null pointer and an access through a
    pointer to no node is a crash.  The head of a list is a value the operations take and give
    back, as it is a member of the structure that owns the list. *)

From Stdlib Require Import ZArith Lia List Bool.
From stdpp Require Import gmap list.
From S2P Require Import Prelude Words.
Local Open Scope Z_scope.
Local Open Scope diana_scope.

Definition nullptr : Z := 0.

(** ** The memory of the nodes, inside of a state that has more *)

Class NodeMemory (Node St : Type) := {
  nodes : St -> gmap Z Node;
  set_nodes : gmap Z Node -> St -> St;
  nodes_set : forall h s, nodes (set_nodes h s) = h;
  set_nodes_set : forall h h' s, set_nodes h (set_nodes h' s) = set_nodes h s;
  set_nodes_nodes : forall s, set_nodes (nodes s) s = s
}.

Section Memory.
Context {Node St : Type} `{NodeMemory Node St}.

Definition load (p : Z) : M St Node := fun s =>
  match nodes s !! p with Some n => (Ok n, s) | None => (Crash, s) end.

Definition update (p : Z) (f : Node -> Node) : M St unit := fun s =>
  match nodes s !! p with
  | Some n => (Ok tt, set_nodes (<[p := f n]> (nodes s)) s)
  | None => (Crash, s)
  end.
End Memory.

(** ** [Diana_List] *)

Record Diana_ListNode : Type := mkDiana_ListNode { m_pNext : Z; m_pPrev : Z }.

Definition with_pNext (v : Z) (n : Diana_ListNode) : Diana_ListNode := mkDiana_ListNode v (m_pPrev n).
Definition with_pPrev (v : Z) (n : Diana_ListNode) : Diana_ListNode := mkDiana_ListNode (m_pNext n) v.

Record Diana_List : Type := mkDiana_List { m_pFirst : Z; m_pLast : Z; m_size : Z }.

Definition Diana_InitList : Diana_List := mkDiana_List nullptr nullptr 0.

Section Lists.
Context {St : Type} `{NodeMemory Diana_ListNode St}.

(** [pObserver(pNode, pContext, &bDone)] gives [bDone]; it may do what it wants with the state. *)
Fixpoint list_loop (fuel : nat) (pObserver : Z -> M St bool) (pNode : Z) : M St unit :=
  match fuel with
  | O => crash
  | S fuel =>
      if pNode =? nullptr then ret tt
      else
        let! n := load pNode in
        let! bDone := pObserver pNode in
        if bDone then ret tt else list_loop fuel pObserver (m_pNext n)
  end.

Definition Diana_ListForEach (fuel : nat) (pList : Diana_List) (pObserver : Z -> M St bool) : M St unit :=
  list_loop fuel pObserver (m_pFirst pList).

Definition Diana_PushBack (pList : Diana_List) (pNode : Z) : M St Diana_List :=
  update pNode (with_pNext nullptr) ;;;
  update pNode (with_pPrev nullptr) ;;;
  if negb (m_pLast pList =? nullptr) then
    update (m_pLast pList) (with_pNext pNode) ;;;
    update pNode (with_pPrev (m_pLast pList)) ;;;
    ret (mkDiana_List (m_pFirst pList) pNode (u64 (m_size pList + 1)))
  else ret (mkDiana_List pNode pNode (u64 (m_size pList + 1))).

Definition Diana_PushFront (pList : Diana_List) (pNode : Z) : M St Diana_List :=
  update pNode (with_pNext nullptr) ;;;
  update pNode (with_pPrev nullptr) ;;;
  if negb (m_pFirst pList =? nullptr) then
    update (m_pFirst pList) (with_pPrev pNode) ;;;
    update pNode (with_pNext (m_pFirst pList)) ;;;
    ret (mkDiana_List pNode (m_pLast pList) (u64 (m_size pList + 1)))
  else ret (mkDiana_List pNode pNode (u64 (m_size pList + 1))).

Definition Diana_InsertAfter (pList : Diana_List) (pNode pNodeToInsert : Z) : M St Diana_List :=
  let! n := load pNode in
  let pNextNode := m_pNext n in
  if m_pLast pList =? pNode then Diana_PushBack pList pNodeToInsert
  else
    update pNode (with_pNext pNodeToInsert) ;;;
    update pNextNode (with_pPrev pNodeToInsert) ;;;
    update pNodeToInsert (with_pNext pNextNode) ;;;
    update pNodeToInsert (with_pPrev pNode) ;;;
    ret pList.

Definition Diana_InsertBefore (pList : Diana_List) (pNode pNodeToInsert : Z) : M St Diana_List :=
  let! n := load pNode in
  let pPrevNode := m_pPrev n in
  if m_pFirst pList =? pNode then Diana_PushFront pList pNodeToInsert
  else
    update pNode (with_pPrev pNodeToInsert) ;;;
    update pPrevNode (with_pNext pNodeToInsert) ;;;
    update pNodeToInsert (with_pNext pNode) ;;;
    update pNodeToInsert (with_pPrev pPrevNode) ;;;
    ret pList.

Definition Diana_EraseNode (pList : Diana_List) (pNode : Z) : M St Diana_List :=
  let! n := load pNode in
  let pNextNode := m_pNext n in
  let! pList :=
    (if negb (pNextNode =? nullptr) then
       update pNextNode (with_pPrev (m_pPrev n)) ;;; ret pList
     else ret (mkDiana_List (m_pFirst pList) (m_pPrev n) (m_size pList))) in
  let! n := load pNode in
  let! pList :=
    (if negb (m_pPrev n =? nullptr) then
       update (m_pPrev n) (with_pNext pNextNode) ;;; ret pList
     else ret (mkDiana_List (m_pNext n) (m_pLast pList) (m_size pList))) in
  update pNode (with_pPrev nullptr) ;;;
  update pNode (with_pNext nullptr) ;;;
  ret (mkDiana_List (m_pFirst pList) (m_pLast pList) (u64 (m_size pList - 1))).
End Lists.

(** ** [Diana_FList_List]: circular, with a pointer to the last node only *)

Record Diana_FList_ListNode : Type := mkDiana_FList_ListNode { f_pNext : Z }.
Record Diana_FList_List : Type := mkDiana_FList_List { f_pLast : Z }.

Definition Diana_FList_InitList : Diana_FList_List := mkDiana_FList_List nullptr.

Section FLists.
Context {St : Type} `{NodeMemory Diana_FList_ListNode St}.

Definition set_f_pNext (p v : Z) : M St unit := update p (fun _ => mkDiana_FList_ListNode v).

(** The next pointer and the end are looked up before the call. *)
Fixpoint flist_loop (fuel : nat) (pList : Diana_FList_List) (pObserver : Z -> M St bool) (pNode : Z)
    : M St unit :=
  match fuel with
  | O => crash
  | S fuel =>
      let! n := load pNode in
      let bLast := pNode =? f_pLast pList in
      let! bDone := pObserver pNode in
      if bDone || bLast then ret tt else flist_loop fuel pList pObserver (f_pNext n)
  end.

Definition Diana_FList_ListForEach (fuel : nat) (pList : Diana_FList_List) (pObserver : Z -> M St bool)
    : M St unit :=
  if f_pLast pList =? nullptr then ret tt
  else let! n := load (f_pLast pList) in flist_loop fuel pList pObserver (f_pNext n).

Definition Diana_FList_PushBack (pList : Diana_FList_List) (pNode : Z) : M St Diana_FList_List :=
  (if negb (f_pLast pList =? nullptr) then
     let! last := load (f_pLast pList) in
     set_f_pNext pNode (f_pNext last) ;;;
     set_f_pNext (f_pLast pList) pNode
   else set_f_pNext pNode pNode) ;;;
  ret (mkDiana_FList_List pNode).

Definition Diana_FList_First (pList : Diana_FList_List) : M St Z :=
  if f_pLast pList =? nullptr then ret nullptr
  else let! last := load (f_pLast pList) in ret (f_pNext last).

Definition Diana_FList_Next (pList : Diana_FList_List) (pNode : Z) : M St Z :=
  if pNode =? f_pLast pList then ret nullptr
  else let! n := load pNode in ret (f_pNext n).
End FLists.
