(* ===== verification/Stack.v ===== *)
(** The stack of diana_stack.c: blocks of [m_minBlockSize] bytes in a [Diana_List], items of
    [m_dataSize] bytes.

    A block is its link node, which is its first member and has its address, and its bytes; the
    allocator is an argument. *)

From Stdlib Require Import ZArith Lia List Bool.
From stdpp Require Import gmap list.
From S2P Require Import Prelude Words Status Lists.
Local Open Scope Z_scope.
Local Open Scope diana_scope.

Record Diana_StackBlock : Type := mkDiana_StackBlock { m_curSizeInBytes : Z; data : list Z }.

Definition with_curSizeInBytes (f : Z -> Z) (b : Diana_StackBlock) : Diana_StackBlock :=
  mkDiana_StackBlock (f (m_curSizeInBytes b)) (data b).

Record Diana_Stack : Type := mkDiana_Stack {
  m_blockList : Diana_List;
  m_pCurrentBlock : Z;
  m_minBlockSize : Z;
  m_count : Z;
  m_dataSize : Z
}.

Definition with_pCurrentBlock (p : Z) (s : Diana_Stack) : Diana_Stack :=
  mkDiana_Stack (m_blockList s) p (m_minBlockSize s) (m_count s) (m_dataSize s).
Definition with_count (f : Z -> Z) (s : Diana_Stack) : Diana_Stack :=
  mkDiana_Stack (m_blockList s) (m_pCurrentBlock s) (m_minBlockSize s) (f (m_count s)) (m_dataSize s).
Definition with_blockList (l : Diana_List) (s : Diana_Stack) : Diana_Stack :=
  mkDiana_Stack l (m_pCurrentBlock s) (m_minBlockSize s) (m_count s) (m_dataSize s).

(** The stack, and the memory: links and blocks by address. *)
Record StackState : Type := mkStackState {
  stack : Diana_Stack;
  links : gmap Z Diana_ListNode;
  blocks : gmap Z Diana_StackBlock
}.

Definition with_stack f (s : StackState) : StackState := mkStackState (f (stack s)) (links s) (blocks s).
Definition with_links f (s : StackState) : StackState := mkStackState (stack s) (f (links s)) (blocks s).
Definition with_blocks f (s : StackState) : StackState := mkStackState (stack s) (links s) (f (blocks s)).

#[export, refine] Instance stack_nodes : NodeMemory Diana_ListNode StackState :=
  { nodes := links; set_nodes := fun h => with_links (fun _ => h) }.
Proof. all: now try intros []. Defined.

Definition K (A : Type) : Type := M StackState A.

Definition Diana_Stack_Init (minBlockSize dataSize : Z) : Diana_Stack :=
  mkDiana_Stack Diana_InitList nullptr minBlockSize 0 dataSize.

(** *** Access to a block *)

Definition block (p : Z) : K Diana_StackBlock := fun s =>
  match blocks s !! p with Some b => (Ok b, s) | None => (Crash, s) end.

(** [DIANA_MEMCPY] to [offset] of a block's bytes, and from there. *)
Definition copy_in (p offset : Z) (bytes : list Z) : K unit :=
  let! b := block p in
  if (0 <=? offset) && (offset + Z.of_nat (length bytes) <=? Z.of_nat (length (data b))) then
    modify (with_blocks (insert p (mkDiana_StackBlock (m_curSizeInBytes b) (buf_update (data b) offset bytes))))
  else crash.

Definition copy_out (p offset size : Z) : K (list Z) :=
  let! b := block p in
  if (0 <=? offset) && (offset + size <=? Z.of_nat (length (data b))) then ret (buf_bytes (data b) offset size)
  else crash.

Definition resize (p : Z) (f : Z -> Z) : K unit :=
  let! b := block p in modify (with_blocks (insert p (with_curSizeInBytes f b))).

Section Allocation.
(** [DIANA_MALLOC]: the address and the content of a new block with so many bytes behind its header,
    or none. *)
Variable DIANA_MALLOC : StackState -> Z -> option (Z * list Z).

(** The search for a block with room: [true] when the item was stored. *)
Fixpoint push_loop (fuel : nat) (pData : list Z) : K bool :=
  match fuel with
  | O => crash
  | S fuel =>
      let! st := gets stack in
      let! b := block (m_pCurrentBlock st) in
      if m_dataSize st <=? m_minBlockSize st - m_curSizeInBytes b then
        copy_in (m_pCurrentBlock st) (m_curSizeInBytes b) pData ;;;
        resize (m_pCurrentBlock st) (fun n => n + m_dataSize st) ;;;
        modify (with_stack (with_count (fun n => s32 (n + 1)))) ;;;
        ret true
      else
        let! entry := load (m_pCurrentBlock st) in
        if negb (m_pNext entry =? nullptr) then
          modify (with_stack (with_pCurrentBlock (m_pNext entry))) ;;;
          push_loop fuel pData
        else ret false
  end.

Definition push_block (pData : list Z) : K unit :=
  let! st := gets stack in
  let! pBlock := gets (fun s => DIANA_MALLOC s (m_minBlockSize st)) in
  match pBlock with
  | None => fail DI_OUT_OF_MEMORY
  | Some (pBlock, bytes) =>
      modify (with_links (insert pBlock (mkDiana_ListNode 0 0))) ;;;
      modify (with_blocks (insert pBlock (mkDiana_StackBlock 0 bytes))) ;;;
      copy_in pBlock 0 pData ;;;
      resize pBlock (fun _ => m_dataSize st) ;;;
      let! l := Diana_PushBack (m_blockList st) pBlock in
      modify (with_stack (with_blockList l)) ;;;
      modify (with_stack (with_pCurrentBlock pBlock)) ;;;
      modify (with_stack (with_count (fun n => s32 (n + 1))))
  end.

(** [pData] points to [m_dataSize] bytes; no more blocks are looked at than there are. *)
Definition Diana_Stack_Push (pData : list Z) : K unit :=
  let! current := gets (fun s => m_pCurrentBlock (stack s)) in
  let! fuel := gets (fun s => size (blocks s)) in
  let! stored := (if negb (current =? nullptr) then push_loop fuel pData else ret false) in
  if stored then ret tt else push_block pData.
End Allocation.

(** The place of the top item in the current block, or none. *)
Definition Diana_Stack_GetTopPtr : K (option Z) :=
  let! st := gets stack in
  if m_pCurrentBlock st =? nullptr then ret None
  else if m_count st =? 0 then ret None
  else
    let! b := block (m_pCurrentBlock st) in
    when (m_curSizeInBytes b <? m_dataSize st) (
      let! entry := load (m_pCurrentBlock st) in
      modify (with_stack (with_pCurrentBlock (m_pPrev entry)))) ;;;
    let! current := gets (fun s => m_pCurrentBlock (stack s)) in
    if current =? nullptr then ret None
    else let! b := block current in ret (Some (m_curSizeInBytes b - m_dataSize st)).

(** What [Pop] and [Clear] do to the sizes. *)
Definition drop_top : K unit :=
  let! st := gets stack in
  resize (m_pCurrentBlock st) (fun n => n - m_dataSize st) ;;;
  modify (with_stack (with_count (fun n => s32 (n - 1)))).

Definition Diana_Stack_Pop : K (list Z) :=
  let! pDataPlace := Diana_Stack_GetTopPtr in
  match pDataPlace with
  | None => fail DI_ERROR
  | Some place =>
      let! st := gets stack in
      let! pData := copy_out (m_pCurrentBlock st) place (m_dataSize st) in
      drop_top ;;; ret pData
  end.

Fixpoint clear_loop (fuel : nat) : K unit :=
  match fuel with
  | O => crash
  | S fuel =>
      let! pDataPlace := Diana_Stack_GetTopPtr in
      match pDataPlace with None => ret tt | Some _ => drop_top ;;; clear_loop fuel end
  end.

(** As many rounds as there are items, and one that finds none. *)
Definition Diana_Stack_Clear : K unit :=
  let! count := gets (fun s => m_count (stack s)) in clear_loop (S (Z.to_nat count)).

(** [DIANA_FREE] of a block. *)
Definition deleter (pNode : Z) : K bool :=
  modify (with_links (delete pNode)) ;;; modify (with_blocks (delete pNode)) ;;; ret false.

Definition Diana_Stack_Free : K unit :=
  let! st := gets stack in
  let! fuel := gets (fun s => S (size (blocks s))) in
  Diana_ListForEach fuel (m_blockList st) deleter.
