(* ===== verification/State.v ===== *)
(** A processor and its flags: what makes a processor well-formed, what its registers and its memory
    hold after a write, and the flags word bit by bit. *)

From Stdlib Require Import ZArith Lia List Bool.
Import ListNotations.
From S2P Require Import Prelude Words Status Registers ProcStreams Processor CmdInternal.
From S2P Require Import CmdString ProcessorInit.
Local Open Scope Z_scope.
Local Open Scope diana_scope.

(** ** The register table that initialisation builds *)

Definition register_table : list DianaRegInfo :=
  Eval vm_compute in m_registers (snd (DianaProcessor_Init plenty tt DIANA_MODE64)).

Definition reg_info (r : Z) : DianaRegInfo := nth (Z.to_nat r) register_table no_register.
Definition roff (r : Z) : Z := m_offset (reg_info r).
Definition rsize (r : Z) : Z := m_size (reg_info r).

(** The general registers of 8, 16, 32 and 64 bits. *)
Definition gprs : list Z :=
  [reg_AL; reg_CL; reg_DL; reg_BL; reg_AH; reg_CH; reg_DH; reg_BH;
   reg_AX; reg_CX; reg_DX; reg_BX; reg_SP; reg_BP; reg_SI; reg_DI;
   reg_EAX; reg_ECX; reg_EDX; reg_EBX; reg_ESP; reg_EBP; reg_ESI; reg_EDI;
   reg_RAX; reg_RCX; reg_RDX; reg_RBX; reg_RSP; reg_RBP; reg_RSI; reg_RDI;
   reg_R8; reg_R9; reg_R10; reg_R11; reg_R12; reg_R13; reg_R14; reg_R15;
   reg_R8D; reg_R9D; reg_R10D; reg_R11D; reg_R12D; reg_R13D; reg_R14D; reg_R15D;
   reg_R8W; reg_R9W; reg_R10W; reg_R11W; reg_R12W; reg_R13W; reg_R14W; reg_R15W;
   reg_R8B; reg_R9B; reg_R10B; reg_R11B; reg_R12B; reg_R13B; reg_R14B; reg_R15B;
   reg_SIL; reg_DIL; reg_BPL; reg_SPL].

Definition segments : list Z := [reg_ES; reg_CS; reg_SS; reg_DS; reg_FS; reg_GS].

(** The registers the integer instructions use. *)
Definition int_regs : list Z := gprs ++ segments ++ [reg_RIP; reg_CR0].

(** The 32-bit registers whose write clears the upper half in 64-bit mode. *)
Definition widened (r : Z) : bool :=
  ((reg_EAX <=? r) && (r <=? reg_EDI)) || ((reg_R8D <=? r) && (r <=? reg_R15D)).

Definition reg_facts (r : Z) : bool :=
  ((rsize r =? 1) || (rsize r =? 2) || (rsize r =? 4) || (rsize r =? 8)) &&
  (0 <=? roff r) && (roff r + 8 <=? 4096) &&
  negb ((reg_fpu_ST0 <=? r) && (r <=? reg_fpu_ST7)) &&
  negb ((reg_MM0 <=? r) && (r <=? reg_MM7)) &&
  (negb (widened r) || (rsize r =? 4)) &&
  match DianaProcessor_Query64RegisterFor32 r with
  | Some r64 => widened r && existsb (Z.eqb r64) gprs && (roff r64 =? roff r) && (rsize r64 =? 8)
  | None => negb (widened r)
  end &&
  match find (Z.eqb r) gprs with
  | Some _ => negb ((r =? reg_RIP) || (r =? reg_IP))
  | None => true
  end.

Lemma int_regs_facts : forallb reg_facts int_regs = true.
Proof. vm_compute. reflexivity. Qed.

(** ** The invariant *)

Section Wf.
Context {T : Type} `{RandomStreamOk T}.
Implicit Types s : DianaProcessor T.

Record wf s : Prop := {
  wf_registers : m_registers s = register_table;
  wf_length : length (m_pRegistersVector s) = 4096%nat;
  wf_bytes : Forall byte_ok (m_pRegistersVector s);
  wf_flags : 0 <= m_flags s < 0x10000000000000000;
  wf_stream : stream_wf (m_pMemoryStream s)
}.

(** Between two instructions: no state bit of a handler is left. *)
Definition idle s : Prop :=
  m_stateFlagsToRemove s = 0 /\ has (m_stateFlags s) DI_PROC_STATE_UPDATE_FLAGS_PSZ = false.
End Wf.

(** ** The flags word *)

(** The flags word with bit [k] set to [b]. *)
Definition setf (k : Z) (b : bool) (f : Z) : Z := if b then Z.setbit f k else Z.clearbit f k.

Definition CF : Z := 0.
Definition PF : Z := 2.
Definition AF : Z := 4.
Definition ZF : Z := 6.
Definition SF : Z := 7.
Definition DF : Z := 10.
Definition OF : Z := 11.

Lemma testbit_setf k b f i :
  0 <= k -> Z.testbit (setf k b f) i = if k =? i then b else Z.testbit f i.
Proof.
  intros Hk. destruct (Z.ltb_spec i 0) as [N|N].
  { destruct (Z.eqb_spec k i); [lia|]. now rewrite !Z.testbit_neg_r by lia. }
  unfold setf. destruct b.
  - rewrite Z.setbit_eqb by lia. destruct (Z.eqb_spec k i); reflexivity.
  - rewrite Z.clearbit_eqb by lia. destruct (Z.eqb_spec k i); cbn; [apply andb_false_r|apply andb_true_r].
Qed.

Definition flag_word (f : Z) : Prop := 0 <= f < 0x10000000000000000.

(** A number whose bits from [n] up are clear is below [2^n]. *)
Lemma bits_bound f n :
  0 <= n -> (forall i, n <= i -> Z.testbit f i = false) -> 0 <= f < 2 ^ n.
Proof.
  intros Hn Hb.
  assert (E : f = f mod 2 ^ n).
  { apply Z.bits_inj'. intros i Hi. destruct (Z.ltb_spec i n).
    - now rewrite Z.mod_pow2_bits_low by lia.
    - rewrite Z.mod_pow2_bits_high by lia. apply Hb. lia. }
  rewrite E. apply Z.mod_pos_bound. apply Z.pow_pos_nonneg; lia.
Qed.

Lemma flag_word_bits f i : flag_word f -> 64 <= i -> Z.testbit f i = false.
Proof. intros Hf Hi. apply (testbit_ge _ 64); [exact Hf|lia]. Qed.

Lemma flag_word_setf k b f : 0 <= k < 64 -> flag_word f -> flag_word (setf k b f).
Proof.
  intros Hk Hf. apply (bits_bound _ 64); [lia|]. intros i Hi. rewrite testbit_setf by lia.
  destruct (Z.eqb_spec k i); [lia|]. now apply flag_word_bits.
Qed.

Lemma lor_setf k f : 0 <= k -> Z.lor f (2 ^ k) = setf k true f.
Proof. intros Hk. unfold setf. now rewrite Z.setbit_spec'. Qed.

Lemma land_lnot_bits f m i :
  flag_word f -> Z.testbit (Z.land f (u64 (Z.lnot m))) i = Z.testbit f i && negb (Z.testbit m i).
Proof.
  intros Hf. destruct (Z.ltb_spec i 0) as [N|N].
  { now rewrite !Z.testbit_neg_r by lia. }
  rewrite Z.land_spec. unfold u64. change 0x10000000000000000 with (2 ^ 64).
  destruct (Z.ltb_spec i 64).
  - rewrite Z.mod_pow2_bits_low by lia. now rewrite Z.lnot_spec by lia.
  - rewrite (flag_word_bits f i Hf) by lia. reflexivity.
Qed.

Lemma land_lnot_setf k f :
  0 <= k -> flag_word f -> Z.land f (u64 (Z.lnot (2 ^ k))) = setf k false f.
Proof.
  intros Hk Hf. apply Z.bits_inj'. intros i Hi. rewrite land_lnot_bits by assumption.
  rewrite testbit_setf, Z.pow2_bits_eqb by lia.
  destruct (Z.eqb_spec k i); cbn; [apply andb_false_r|apply andb_true_r].
Qed.

Lemma has_pow2 x k : 0 <= k -> has x (2 ^ k) = Z.testbit x k.
Proof.
  intros Hk. unfold has. rewrite land_pow2 by lia.
  destruct (Z.testbit x k); [|reflexivity].
  pose proof (Z.pow_pos_nonneg 2 k ltac:(lia) Hk). destruct (Z.eqb_spec (2 ^ k) 0); [lia|reflexivity].
Qed.

Lemma has_comm x y : has x y = has y x.
Proof. unfold has. now rewrite Z.land_comm. Qed.

(** Two flags words with the same bits are equal; [flags_ext] compares them bit by bit. *)
Lemma setf_same k b f : 0 <= k -> Z.testbit f k = b -> setf k b f = f.
Proof.
  intros Hk E. apply Z.bits_inj'. intros i Hi. rewrite testbit_setf by lia.
  destruct (Z.eqb_spec k i); congruence.
Qed.

Lemma setf_setf k b c f : 0 <= k -> setf k b (setf k c f) = setf k b f.
Proof.
  intros Hk. apply Z.bits_inj'. intros i Hi. rewrite !testbit_setf by lia.
  now destruct (Z.eqb_spec k i).
Qed.

Lemma setf_comm j k b c f :
  0 <= j -> 0 <= k -> j <> k -> setf j b (setf k c f) = setf k c (setf j b f).
Proof.
  intros Hj Hk N. apply Z.bits_inj'. intros i Hi. rewrite !testbit_setf by lia.
  destruct (Z.eqb_spec k i), (Z.eqb_spec j i); congruence.
Qed.

Ltac flags_ext :=
  apply Z.bits_inj'; let i := fresh "i" in let Hi := fresh "Hi" in intros i Hi;
  repeat (rewrite testbit_setf by (unfold CF, PF, AF, ZF, SF, DF, OF; lia));
  unfold CF, PF, AF, ZF, SF, DF, OF in *;
  repeat match goal with
  | |- context [?k =? i] => destruct (Z.eqb_spec k i)
  end; try lia; try reflexivity.

#[export] Hint Resolve flag_word_setf : diana.
#[export] Hint Extern 1 (0 <= CF < 64) => (unfold CF; lia) : diana.
#[export] Hint Extern 1 (0 <= PF < 64) => (unfold PF; lia) : diana.
#[export] Hint Extern 1 (0 <= AF < 64) => (unfold AF; lia) : diana.
#[export] Hint Extern 1 (0 <= ZF < 64) => (unfold ZF; lia) : diana.
#[export] Hint Extern 1 (0 <= SF < 64) => (unfold SF; lia) : diana.
#[export] Hint Extern 1 (0 <= DF < 64) => (unfold DF; lia) : diana.
#[export] Hint Extern 1 (0 <= OF < 64) => (unfold OF; lia) : diana.

(** ** Specifications *)

(** [z] fits in a signed number of [n] bytes. *)
Definition in_signed (n z : Z) : bool := (- half n <=? z) && (z <? half n).

Definition add_CF (n d x c : Z) : bool := modulus n <=? d + x + c.
Definition add_OF (n d x c : Z) : bool := negb (in_signed n (signed n d + signed n x + c)).
Definition add_AF (d x c : Z) : bool := 16 <=? d mod 16 + x mod 16 + c.

Definition sub_CF (d x c : Z) : bool := d <? x + c.
Definition sub_OF (n d x c : Z) : bool := negb (in_signed n (signed n d - signed n x - c)).
Definition sub_AF (d x c : Z) : bool := d mod 16 <? x mod 16 + c.

(** The number of set bits among the low [n]. *)
Fixpoint popcount (n : nat) (v : Z) : Z :=
  match n with
  | O => 0
  | S n => Z.b2z (Z.testbit v (Z.of_nat n)) + popcount n v
  end.

Definition even_parity (v : Z) : bool := Z.even (popcount 8 v).
Definition is_zero (n v : Z) : bool := v mod modulus n =? 0.
Definition is_negative (n v : Z) : bool := half n <=? v mod modulus n.

(** Flags words with the arithmetic flags replaced. *)
Definition set_coa (c o a : bool) (f : Z) : Z := setf CF c (setf OF o (setf AF a f)).
Definition set_oa (o a : bool) (f : Z) : Z := setf OF o (setf AF a f).
Definition set_psz (n v : Z) (f : Z) : Z :=
  setf PF (even_parity v) (setf SF (is_negative n v) (setf ZF (is_zero n v) f)).

(** ** Sign bits *)

Lemma GetSignMask_half n : opsize n -> DianaProcessor_GetSignMask n = half n.
Proof. intros Hn. opsize_cases Hn; reflexivity. Qed.

Lemma CutValue_mod n v : opsize n -> 0 <= v < 0x10000000000000000 ->
  DianaProcessor_CutValue v n = v mod modulus n.
Proof.
  intros Hn Hv. opsize_cases Hn; try reflexivity.
  unfold DianaProcessor_CutValue. cbn. wsimp. symmetry. now apply Z.mod_small.
Qed.

Lemma sign_testbit n v : opsize n -> Z.testbit v (8 * n - 1) = is_negative n v.
Proof.
  intros Hn. pose proof (opsize_pos n Hn). unfold is_negative, half, modulus.
  rewrite <- (Z.mod_pow2_bits_low v (8 * n)) by lia.
  apply testbit_top; [lia|]. replace (8 * n - 1 + 1) with (8 * n) by lia.
  apply Z.mod_pos_bound. apply Z.pow_pos_nonneg; lia.
Qed.

Lemma land_half n v : opsize n ->
  Z.land v (half n) = if is_negative n v then half n else 0.
Proof.
  intros Hn. pose proof (opsize_pos n Hn). rewrite <- sign_testbit by assumption.
  unfold half. apply land_pow2. lia.
Qed.

Lemma has_half n v : opsize n -> has v (half n) = is_negative n v.
Proof.
  intros Hn. pose proof (opsize_pos n Hn). unfold half.
  rewrite has_pow2 by lia. now apply sign_testbit.
Qed.

(** Two values have the same masked sign when they have the same sign. *)
Lemma land_half_eqb n v w : opsize n ->
  (Z.land v (half n) =? Z.land w (half n)) = Bool.eqb (is_negative n v) (is_negative n w).
Proof.
  intros Hn. rewrite !land_half by assumption.
  pose proof (half_pos n ltac:(pose proof (opsize_pos n Hn); lia)).
  destruct (is_negative n v), (is_negative n w); cbn [Bool.eqb]; zcases; lia || reflexivity.
Qed.

Lemma is_negative_small n v : 0 <= v < modulus n -> is_negative n v = (half n <=? v).
Proof. intros Hv. unfold is_negative. now rewrite Z.mod_small. Qed.

Lemma is_negative_mod n v : 0 <= n -> is_negative n (v mod modulus n) = is_negative n v.
Proof.
  intros Hn. unfold is_negative. rewrite Z.mod_mod; [reflexivity|].
  pose proof (modulus_pos n Hn). lia.
Qed.

Lemma is_negative_u64 n v : opsize n -> is_negative n (u64 v) = is_negative n v.
Proof. intros Hn. unfold is_negative. now rewrite u64_mod. Qed.

(** ** Overflow *)

Lemma add_overflow n d x c :
  opsize n -> 0 <= d < modulus n -> 0 <= x < modulus n -> 0 <= c <= 1 ->
  Bool.eqb (is_negative n d) (is_negative n x) &&
  negb (Bool.eqb (is_negative n d) (is_negative n (d + x + c))) = add_OF n d x c.
Proof.
  intros Hn Hd Hx Hc. rewrite (is_negative_small n d), (is_negative_small n x) by assumption.
  unfold is_negative, add_OF, in_signed, signed.
  pose proof (modulus_half n ltac:(pose proof (opsize_pos n Hn); lia)) as M.
  pose proof (half_pos n ltac:(pose proof (opsize_pos n Hn); lia)) as P.
  assert (E : (d + x + c) mod modulus n =
              if modulus n <=? d + x + c then d + x + c - modulus n else d + x + c).
  { destruct (Z.leb_spec (modulus n) (d + x + c)).
    - symmetry. apply Z.mod_unique with 1; lia.
    - apply Z.mod_small. lia. }
  rewrite E. clear E. destruct (Z.leb_spec (modulus n) (d + x + c)); zcases; cbn; lia || reflexivity.
Qed.

Lemma sub_overflow n d x c :
  opsize n -> 0 <= d < modulus n -> 0 <= x < modulus n -> 0 <= c <= 1 ->
  negb (Bool.eqb (is_negative n d) (is_negative n x)) &&
  negb (Bool.eqb (is_negative n d) (is_negative n (d - x - c))) = sub_OF n d x c.
Proof.
  intros Hn Hd Hx Hc. rewrite (is_negative_small n d), (is_negative_small n x) by assumption.
  unfold is_negative, sub_OF, in_signed, signed.
  pose proof (modulus_half n ltac:(pose proof (opsize_pos n Hn); lia)) as M.
  pose proof (half_pos n ltac:(pose proof (opsize_pos n Hn); lia)) as P.
  assert (E : (d - x - c) mod modulus n =
              if d <? x + c then d - x - c + modulus n else d - x - c).
  { destruct (Z.ltb_spec d (x + c)).
    - symmetry. apply Z.mod_unique with (-1); lia.
    - apply Z.mod_small. lia. }
  rewrite E. clear E. destruct (Z.ltb_spec d (x + c)); zcases; cbn; lia || reflexivity.
Qed.

(** ** Auxiliary carry: the low four bits *)

Lemma mod_mod_mul v a b : 0 < a -> 0 < b -> (v mod (a * b)) mod a = v mod a.
Proof.
  intros Ha Hb. rewrite Z.rem_mul_r by lia. rewrite Z.mul_comm, Z.mod_add by lia.
  apply Z.mod_mod. lia.
Qed.

Lemma low_nibble v : Z.land (u32 v) 0xF = v mod 16.
Proof.
  change 0xF with (Z.ones 4). rewrite Z.land_ones by lia.
  apply (mod_mod_mul v 16 0x10000000); lia.
Qed.

Lemma u64_mod16 v : u64 v mod 16 = v mod 16.
Proof. apply (mod_mod_mul v 16 0x1000000000000000); lia. Qed.

(** ** Parity *)

Lemma IsParity_spec_all :
  forallb (fun i => IsParity (Z.of_nat i) =? Z.b2z (even_parity (Z.of_nat i))) (seq 0 256) = true.
Proof. vm_compute. reflexivity. Qed.

Lemma even_parity_u8 v : even_parity (u8 v) = even_parity v.
Proof.
  unfold even_parity. f_equal. cbn [popcount]. unfold u8. change 0x100 with (2 ^ 8).
  now rewrite !Z.mod_pow2_bits_low by lia.
Qed.

Lemma IsParity_spec v : negb (IsParity (u8 v) =? 0) = even_parity v.
Proof.
  rewrite <- (even_parity_u8 v). pose proof IsParity_spec_all as A.
  rewrite forallb_forall in A. specialize (A (Z.to_nat (u8 v))).
  assert (R : 0 <= u8 v < 256) by (apply Z.mod_pos_bound; lia).
  rewrite Z2Nat.id in A by lia. rewrite in_seq in A. specialize (A ltac:(lia)).
  apply Z.eqb_eq in A. rewrite A. now destruct (even_parity (u8 v)).
Qed.
