(* ===== verification/Exec.v ===== *)
(** Execution rules: what each accessor of the processor does to a well-formed state.  The
    theorems about instructions run a handler by rewriting with these rules. *)

From Stdlib Require Import ZArith Lia List Bool.
Import ListNotations.
From S2P Require Import Prelude Words Status Registers ProcStreams Processor CmdInternal.
From S2P Require Import CmdString ProcessorInit State.
Local Open Scope Z_scope.
Local Open Scope diana_scope.

(** ** States that differ in their flags

    [tw f b s] is [s] with the flags word [f]; [b] says that [DI_UPDATE_FLAGS_PSZ] has left its
    mark in [m_stateFlagsToRemove]. *)

Section Tweak.
Context {T : Type}.
Implicit Types s : DianaProcessor T.

Definition tw (f : Z) (b : bool) s : DianaProcessor T :=
  with_flags (fun _ => f)
    (with_stateFlagsToRemove
       (fun x => if b then Z.lor x DI_PROC_STATE_UPDATE_FLAGS_PSZ else x) s).

(** The state bit that makes the stores update PF, SF and ZF. *)
Definition pszon s : DianaProcessor T :=
  with_stateFlags (fun f => Z.lor f DI_PROC_STATE_UPDATE_FLAGS_PSZ) s.

Lemma tw_id s : tw (m_flags s) false s = s.
Proof. now destruct s. Qed.

Lemma tw_tw f b g s : tw f b (tw g false s) = tw f b s.
Proof. now destruct s. Qed.

Lemma m_flags_tw f b s : m_flags (tw f b s) = f.
Proof. reflexivity. Qed.

(** ** Flags *)

Lemma SetFlag_tw k f b s :
  0 <= k -> DianaProcessor_SetFlag (2 ^ k) (tw f b s) = (Ok tt, tw (setf k true f) b s).
Proof.
  intros Hk. unfold DianaProcessor_SetFlag, modify, tw, with_flags; cbn.
  now rewrite (lor_setf k f Hk).
Qed.

Lemma ClearFlag_tw k f b s :
  0 <= k -> flag_word f ->
  DianaProcessor_ClearFlag (2 ^ k) (tw f b s) = (Ok tt, tw (setf k false f) b s).
Proof.
  intros Hk Hf. unfold DianaProcessor_ClearFlag, modify, tw, with_flags; cbn.
  now rewrite (land_lnot_setf k f Hk Hf).
Qed.

Lemma QueryFlag_tw k f b s :
  0 <= k ->
  DianaProcessor_QueryFlag (2 ^ k) (tw f b s) = (Ok (Z.b2z (Z.testbit f k)), tw f b s).
Proof.
  intros Hk. unfold DianaProcessor_QueryFlag, gets. rewrite m_flags_tw, has_pow2 by lia.
  now destruct (Z.testbit f k).
Qed.

Lemma SET_CF_tw f b s : SET_FLAG_CF (tw f b s) = (Ok tt, tw (setf CF true f) b s).
Proof. now apply (SetFlag_tw CF). Qed.
Lemma SET_AF_tw f b s : SET_FLAG_AF (tw f b s) = (Ok tt, tw (setf AF true f) b s).
Proof. now apply (SetFlag_tw AF). Qed.
Lemma SET_OF_tw f b s : SET_FLAG_OF (tw f b s) = (Ok tt, tw (setf OF true f) b s).
Proof. now apply (SetFlag_tw OF). Qed.
Lemma SET_ZF_tw f b s : SET_FLAG_ZF (tw f b s) = (Ok tt, tw (setf ZF true f) b s).
Proof. now apply (SetFlag_tw ZF). Qed.
Lemma SET_SF_tw f b s : SET_FLAG_SF (tw f b s) = (Ok tt, tw (setf SF true f) b s).
Proof. now apply (SetFlag_tw SF). Qed.
Lemma SET_PF_tw f b s : SET_FLAG_PF (tw f b s) = (Ok tt, tw (setf PF true f) b s).
Proof. now apply (SetFlag_tw PF). Qed.

Lemma CLEAR_CF_tw f b s :
  flag_word f -> CLEAR_FLAG_CF (tw f b s) = (Ok tt, tw (setf CF false f) b s).
Proof. now apply (ClearFlag_tw CF). Qed.
Lemma CLEAR_AF_tw f b s :
  flag_word f -> CLEAR_FLAG_AF (tw f b s) = (Ok tt, tw (setf AF false f) b s).
Proof. now apply (ClearFlag_tw AF). Qed.
Lemma CLEAR_OF_tw f b s :
  flag_word f -> CLEAR_FLAG_OF (tw f b s) = (Ok tt, tw (setf OF false f) b s).
Proof. now apply (ClearFlag_tw OF). Qed.
Lemma CLEAR_ZF_tw f b s :
  flag_word f -> CLEAR_FLAG_ZF (tw f b s) = (Ok tt, tw (setf ZF false f) b s).
Proof. now apply (ClearFlag_tw ZF). Qed.
Lemma CLEAR_SF_tw f b s :
  flag_word f -> CLEAR_FLAG_SF (tw f b s) = (Ok tt, tw (setf SF false f) b s).
Proof. now apply (ClearFlag_tw SF). Qed.
Lemma CLEAR_PF_tw f b s :
  flag_word f -> CLEAR_FLAG_PF (tw f b s) = (Ok tt, tw (setf PF false f) b s).
Proof. now apply (ClearFlag_tw PF). Qed.

Lemma GET_CF_tw f b s : GET_FLAG_CF (tw f b s) = (Ok (Z.b2z (Z.testbit f CF)), tw f b s).
Proof. now apply (QueryFlag_tw CF). Qed.
Lemma GET_PF_tw f b s : GET_FLAG_PF (tw f b s) = (Ok (Z.b2z (Z.testbit f PF)), tw f b s).
Proof. now apply (QueryFlag_tw PF). Qed.
Lemma GET_AF_tw f b s : GET_FLAG_AF (tw f b s) = (Ok (Z.b2z (Z.testbit f AF)), tw f b s).
Proof. now apply (QueryFlag_tw AF). Qed.
Lemma GET_ZF_tw f b s : GET_FLAG_ZF (tw f b s) = (Ok (Z.b2z (Z.testbit f ZF)), tw f b s).
Proof. now apply (QueryFlag_tw ZF). Qed.
Lemma GET_SF_tw f b s : GET_FLAG_SF (tw f b s) = (Ok (Z.b2z (Z.testbit f SF)), tw f b s).
Proof. now apply (QueryFlag_tw SF). Qed.
Lemma GET_OF_tw f b s : GET_FLAG_OF (tw f b s) = (Ok (Z.b2z (Z.testbit f OF)), tw f b s).
Proof. now apply (QueryFlag_tw OF). Qed.
Lemma GET_DF_tw f b s : GET_FLAG_DF (tw f b s) = (Ok (Z.b2z (Z.testbit f DF)), tw f b s).
Proof. now apply (QueryFlag_tw DF). Qed.

(** A conditional flag operation. *)
Lemma when_tw c (m : MP T unit) f g b s :
  m (tw f b s) = (Ok tt, tw g b s) -> when c m (tw f b s) = (Ok tt, tw (if c then g else f) b s).
Proof. intros E. destruct c; [exact E|reflexivity]. Qed.

Lemma when_true (m : MP T unit) : when true m = m.
Proof. reflexivity. Qed.

Lemma when_false (m : MP T unit) : when false m = ret tt.
Proof. reflexivity. Qed.
End Tweak.

Lemma flag_word_if (c : bool) f g : flag_word f -> flag_word g -> flag_word (if c then f else g).
Proof. now destruct c. Qed.

Lemma flag_word_coa c o a f : flag_word f -> flag_word (set_coa c o a f).
Proof. unfold set_coa. auto 8 with diana. Qed.

Lemma flag_word_oa o a f : flag_word f -> flag_word (set_oa o a f).
Proof. unfold set_oa. auto 8 with diana. Qed.

Lemma flag_word_psz n v f : flag_word f -> flag_word (set_psz n v f).
Proof. unfold set_psz. auto 8 with diana. Qed.

Create HintDb exec.
#[export] Hint Resolve flag_word_if flag_word_coa flag_word_oa flag_word_psz : diana.
#[export] Hint Resolve SET_CF_tw SET_AF_tw SET_OF_tw SET_ZF_tw SET_SF_tw SET_PF_tw
  CLEAR_CF_tw CLEAR_AF_tw CLEAR_OF_tw CLEAR_ZF_tw CLEAR_SF_tw CLEAR_PF_tw
  GET_CF_tw GET_PF_tw GET_AF_tw GET_ZF_tw GET_SF_tw GET_OF_tw GET_DF_tw when_tw : exec.

(** [step] runs the first action of a sequence by a rule of the database [exec]; [final] the last
    one. *)
Ltac step := erewrite bind_run; [cbv beta iota zeta | solve [eauto 6 with exec diana]].
Ltac final := solve [eauto 6 with exec diana].

(** The flags a handler asks [DianaProcessor_SetCOA_*] for. *)
Ltac coa_flags :=
  change (has COA DI_FLAG_OF) with true; change (has COA DI_FLAG_AF) with true;
  change (has COA DI_FLAG_CF) with true; change (has OA DI_FLAG_OF) with true;
  change (has OA DI_FLAG_AF) with true; change (has OA DI_FLAG_CF) with false;
  rewrite ?when_true.

Section CarryRules.
Context {T : Type}.
Implicit Types s : DianaProcessor T.

Lemma START_COA_tw f b s :
  flag_word f ->
  DI_START_UPDATE_COA_FLAGS (tw f b s) = (Ok tt, tw (set_coa false false false f) b s).
Proof. intros Hf. unfold DI_START_UPDATE_COA_FLAGS, set_coa. step. step. final. Qed.

Lemma START_OA_tw f b s :
  flag_word f ->
  DI_START_UPDATE_OA_FLAGS (tw f b s) = (Ok tt, tw (set_oa false false f) b s).
Proof. intros Hf. unfold DI_START_UPDATE_OA_FLAGS, set_oa. step. final. Qed.

Lemma set_OF_same_tw old new x n f b s :
  opsize n ->
  set_OF_same old new x n (tw f b s) =
  (Ok tt, tw (if Bool.eqb (is_negative n old) (is_negative n x) &&
                 negb (Bool.eqb (is_negative n old) (is_negative n new))
              then setf OF true f else f) b s).
Proof.
  intros Hn. unfold set_OF_same. rewrite GetSignMask_half, !land_half_eqb by assumption.
  rewrite (when_tw _ _ f (if negb (Bool.eqb (is_negative n old) (is_negative n new))
                          then setf OF true f else f)) by final.
  now destruct (Bool.eqb (is_negative n old) (is_negative n x)).
Qed.

Lemma set_OF_differ_tw old new x n f b s :
  opsize n ->
  set_OF_differ old new x n (tw f b s) =
  (Ok tt, tw (if negb (Bool.eqb (is_negative n old) (is_negative n x)) &&
                 negb (Bool.eqb (is_negative n old) (is_negative n new))
              then setf OF true f else f) b s).
Proof.
  intros Hn. unfold set_OF_differ. rewrite GetSignMask_half, !land_half_eqb by assumption.
  rewrite (when_tw _ _ f (if negb (Bool.eqb (is_negative n old) (is_negative n new))
                          then setf OF true f else f)) by final.
  now destruct (Bool.eqb (is_negative n old) (is_negative n x)).
Qed.

(** ** Additions *)

Variables (n d x : Z).
Hypothesis Hn : opsize n.
Hypothesis Hd : 0 <= d < modulus n.
Hypothesis Hx : 0 <= x < modulus n.

Let n_pos : 1 <= n <= 8 := opsize_pos n Hn.

Lemma add_mod c : 0 <= c <= 1 ->
  (d + x + c) mod modulus n =
  if modulus n <=? d + x + c then d + x + c - modulus n else d + x + c.
Proof.
  intros Hc. destruct (Z.leb_spec (modulus n) (d + x + c)).
  - symmetry. apply Z.mod_unique with 1; lia.
  - apply Z.mod_small. lia.
Qed.

Lemma sub_mod c : 0 <= c <= 1 ->
  (d - x - c) mod modulus n = if d <? x + c then d - x - c + modulus n else d - x - c.
Proof.
  intros Hc. destruct (Z.ltb_spec d (x + c)).
  - symmetry. apply Z.mod_unique with (-1); lia.
  - apply Z.mod_small. lia.
Qed.

Lemma add_AF_ltb : ((d + x) mod 16 <? d mod 16) = add_AF d x 0.
Proof. unfold add_AF. rewrite Z.add_mod by lia. zcases; Z.div_mod_to_equations; lia. Qed.

Lemma add_AF_leb : ((d + x + 1) mod 16 <=? d mod 16) = add_AF d x 1.
Proof.
  unfold add_AF. rewrite <- Z.add_assoc, Z.add_mod by lia. zcases; Z.div_mod_to_equations; lia.
Qed.

Lemma sub_AF_ltb : (d mod 16 <? (d - x) mod 16) = sub_AF d x 0.
Proof. unfold sub_AF. zcases; Z.div_mod_to_equations; lia. Qed.

Lemma sub_AF_leb : (d mod 16 <=? (d - x - 1) mod 16) = sub_AF d x 1.
Proof. unfold sub_AF. zcases; Z.div_mod_to_equations; lia. Qed.

Lemma SetCOA_Add_tw f b s :
  DianaProcessor_SetCOA_Add d (u64 (d + x)) x n COA (tw (set_coa false false false f) b s) =
  (Ok tt, tw (set_coa (add_CF n d x 0) (add_OF n d x 0) (add_AF d x 0) f) b s).
Proof.
  unfold DianaProcessor_SetCOA_Add. coa_flags.
  rewrite (bind_run _ _ _ _ _ (set_OF_same_tw _ _ _ _ _ _ _ Hn)).
  rewrite is_negative_u64 by assumption.
  replace (d + x) with (d + x + 0) by lia. rewrite (add_overflow n d x 0) by (assumption || lia).
  replace (d + x + 0) with (d + x) by lia. rewrite !low_nibble, u64_mod16, add_AF_ltb. step.
  rewrite CutValue_mod, u64_mod by (assumption || apply u64_range).
  replace (d + x) with (d + x + 0) by lia.
  replace ((d + x + 0) mod modulus n <? d) with (add_CF n d x 0).
  2: { rewrite add_mod by lia. unfold add_CF. zcases; lia. }
  erewrite when_tw by final.
  destruct (add_CF n d x 0), (add_OF n d x 0), (add_AF d x 0); unfold set_coa;
    do 2 f_equal; flags_ext.
Qed.

Lemma SetCOA_AddCF_tw f b s :
  DianaProcessor_SetCOA_AddCF d (u64 (d + x + 1)) x n COA (tw (set_coa false false false f) b s) =
  (Ok tt, tw (set_coa (add_CF n d x 1) (add_OF n d x 1) (add_AF d x 1) f) b s).
Proof.
  unfold DianaProcessor_SetCOA_AddCF. coa_flags.
  rewrite (bind_run _ _ _ _ _ (set_OF_same_tw _ _ _ _ _ _ _ Hn)).
  rewrite is_negative_u64 by assumption. rewrite (add_overflow n d x 1) by (assumption || lia).
  rewrite !low_nibble, u64_mod16, add_AF_leb. step.
  rewrite CutValue_mod, u64_mod by (assumption || apply u64_range).
  replace ((d + x + 1) mod modulus n <=? d) with (add_CF n d x 1).
  2: { rewrite add_mod by lia. unfold add_CF. zcases; lia. }
  erewrite when_tw by final.
  destruct (add_CF n d x 1), (add_OF n d x 1), (add_AF d x 1); unfold set_coa;
    do 2 f_equal; flags_ext.
Qed.

(** ** Subtractions *)

Lemma SetCOA_Sub_tw f b s :
  DianaProcessor_SetCOA_Sub d (u64 (d - x)) x n COA (tw (set_coa false false false f) b s) =
  (Ok tt, tw (set_coa (sub_CF d x 0) (sub_OF n d x 0) (sub_AF d x 0) f) b s).
Proof.
  unfold DianaProcessor_SetCOA_Sub. coa_flags.
  rewrite (bind_run _ _ _ _ _ (set_OF_differ_tw _ _ _ _ _ _ _ Hn)).
  rewrite is_negative_u64 by assumption.
  replace (d - x) with (d - x - 0) by lia. rewrite (sub_overflow n d x 0) by (assumption || lia).
  replace (d - x - 0) with (d - x) by lia. rewrite !low_nibble, u64_mod16, sub_AF_ltb. step.
  rewrite CutValue_mod, u64_mod by (assumption || apply u64_range).
  replace (d - x) with (d - x - 0) by lia.
  replace (d <? (d - x - 0) mod modulus n) with (sub_CF d x 0).
  2: { rewrite sub_mod by lia. unfold sub_CF. zcases; lia. }
  erewrite when_tw by final.
  destruct (sub_CF d x 0), (sub_OF n d x 0), (sub_AF d x 0); unfold set_coa;
    do 2 f_equal; flags_ext.
Qed.

Lemma SetCOA_SubCF_tw f b s :
  DianaProcessor_SetCOA_SubCF d (u64 (d - x - 1)) x n COA (tw (set_coa false false false f) b s) =
  (Ok tt, tw (set_coa (sub_CF d x 1) (sub_OF n d x 1) (sub_AF d x 1) f) b s).
Proof.
  unfold DianaProcessor_SetCOA_SubCF. coa_flags.
  rewrite (bind_run _ _ _ _ _ (set_OF_differ_tw _ _ _ _ _ _ _ Hn)).
  rewrite is_negative_u64 by assumption. rewrite (sub_overflow n d x 1) by (assumption || lia).
  rewrite !low_nibble, u64_mod16, sub_AF_leb. step.
  rewrite CutValue_mod, u64_mod by (assumption || apply u64_range).
  replace (d <=? (d - x - 1) mod modulus n) with (sub_CF d x 1).
  2: { rewrite sub_mod by lia. unfold sub_CF. zcases; lia. }
  erewrite when_tw by final.
  destruct (sub_CF d x 1), (sub_OF n d x 1), (sub_AF d x 1); unfold set_coa;
    do 2 f_equal; flags_ext.
Qed.

(** ** Without the carry: [inc], [dec] and [neg] *)

Lemma SetOA_Add_tw f b s :
  DianaProcessor_SetCOA_Add d (u64 (d + x)) x n OA (tw (set_oa false false f) b s) =
  (Ok tt, tw (set_oa (add_OF n d x 0) (add_AF d x 0) f) b s).
Proof.
  unfold DianaProcessor_SetCOA_Add. coa_flags.
  rewrite (bind_run _ _ _ _ _ (set_OF_same_tw _ _ _ _ _ _ _ Hn)).
  rewrite is_negative_u64 by assumption.
  replace (d + x) with (d + x + 0) by lia. rewrite (add_overflow n d x 0) by (assumption || lia).
  replace (d + x + 0) with (d + x) by lia. rewrite !low_nibble, u64_mod16, add_AF_ltb. step.
  rewrite when_false. unfold ret.
  destruct (add_OF n d x 0), (add_AF d x 0); unfold set_oa; do 2 f_equal; flags_ext.
Qed.

Lemma SetOA_Sub_tw f b s :
  DianaProcessor_SetCOA_Sub d (u64 (d - x)) x n OA (tw (set_oa false false f) b s) =
  (Ok tt, tw (set_oa (sub_OF n d x 0) (sub_AF d x 0) f) b s).
Proof.
  unfold DianaProcessor_SetCOA_Sub. coa_flags.
  rewrite (bind_run _ _ _ _ _ (set_OF_differ_tw _ _ _ _ _ _ _ Hn)).
  rewrite is_negative_u64 by assumption.
  replace (d - x) with (d - x - 0) by lia. rewrite (sub_overflow n d x 0) by (assumption || lia).
  replace (d - x - 0) with (d - x) by lia. rewrite !low_nibble, u64_mod16, sub_AF_ltb. step.
  rewrite when_false. unfold ret.
  destruct (sub_OF n d x 0), (sub_AF d x 0); unfold set_oa; do 2 f_equal; flags_ext.
Qed.
End CarryRules.
