(* ===== verification/Operands.v ===== *)
(** Registers, memory and operands of a well-formed state: PF, SF and ZF of a stored result, the
    registers as windows of one vector, reads that leave the state alone, and the store of a
    result as one state transformer, [put_operand]. *)

From Stdlib Require Import ZArith Lia List Bool.
Import ListNotations.
From S2P Require Import Prelude Words Status Registers ProcStreams Processor CmdInternal.
From S2P Require Import CmdString ProcessorInit State Exec.
Local Open Scope Z_scope.
Local Open Scope diana_scope.

(** ** Buffers again: a store hides an earlier one at the same place *)

Lemma buf_store_mod buf off n v :
  0 <= n -> buf_store buf off n (v mod 2 ^ (8 * n)) = buf_store buf off n v.
Proof.
  intros Hn. unfold buf_store. f_equal. rewrite <- (Z2Nat.id n) at 2 by lia. apply le_encode_mod.
Qed.

Lemma buf_store_nth buf off n v i :
  0 <= off -> 0 <= n -> off + n <= Z.of_nat (length buf) ->
  nth i (buf_store buf off n v) 0 =
  if (off <=? Z.of_nat i) && (Z.of_nat i <? off + n)
  then (v / 2 ^ (8 * (Z.of_nat i - off))) mod 256 else nth i buf 0.
Proof.
  intros H0 Hn HB. unfold buf_store. rewrite buf_update_nth by (rewrite ?le_encode_length; lia).
  rewrite le_encode_length, Z2Nat.id by lia.
  destruct (Z.leb_spec off (Z.of_nat i)), (Z.ltb_spec (Z.of_nat i) (off + n)); cbn [andb];
    try reflexivity.
  rewrite le_encode_nth by lia. repeat f_equal. lia.
Qed.

Lemma buf_store_shadow buf off n v w :
  0 <= off -> 0 <= n -> off + n <= Z.of_nat (length buf) ->
  buf_store (buf_store buf off n w) off n v = buf_store buf off n v.
Proof.
  intros H0 Hn HB. pose proof (buf_store_length buf off n w H0 Hn HB) as L.
  apply (list_ext_nth _ _ 0); [rewrite !buf_store_length; lia|].
  intros i _. rewrite !buf_store_nth by lia.
  destruct ((off <=? Z.of_nat i) && (Z.of_nat i <? off + n)); reflexivity.
Qed.

(** Clearing the upper four bytes of a small eight-byte store changes nothing. *)
Lemma buf_store_upper_zero buf off v :
  0 <= off -> off + 8 <= Z.of_nat (length buf) -> 0 <= v < 0x100000000 ->
  buf_store (buf_store buf off 8 v) (off + 4) 4 0 = buf_store buf off 8 v.
Proof.
  intros H0 HB Hv. pose proof (buf_store_length buf off 8 v H0 ltac:(lia) HB) as L.
  apply (list_ext_nth _ _ 0); [rewrite !buf_store_length; lia|].
  intros i _. rewrite !buf_store_nth by lia.
  destruct (Z.leb_spec (off + 4) (Z.of_nat i)), (Z.ltb_spec (Z.of_nat i) (off + 4 + 4)),
    (Z.leb_spec off (Z.of_nat i)), (Z.ltb_spec (Z.of_nat i) (off + 8)); cbn [andb]; try lia.
  rewrite Z.div_0_l by (apply Z.pow_nonzero; lia). rewrite Z.mod_0_l by lia.
  rewrite Z.div_small; [reflexivity|]. split; [lia|]. apply Z.lt_le_trans with (2 ^ 32); [lia|].
  apply Z.pow_le_mono_r; lia.
Qed.

Lemma buf_store_ok buf off n v : Forall byte_ok buf -> Forall byte_ok (buf_store buf off n v).
Proof. intros Hb. apply buf_update_ok; auto with diana. Qed.

(** ** PF, SF and ZF *)

Section Psz.
Context {T : Type}.
Implicit Types s : DianaProcessor T.

Definition psz_clear s : Prop := has (m_stateFlags s) DI_PROC_STATE_UPDATE_FLAGS_PSZ = false.

Lemma pszon_set f b s :
  set_stateFlags DI_PROC_STATE_UPDATE_FLAGS_PSZ (tw f b s) = (Ok tt, tw f b (pszon s)).
Proof. reflexivity. Qed.

Lemma with_stateFlags_same f b s z :
  z = m_stateFlags s ->
  (Ok tt, tw f b (with_stateFlags (fun _ => z) s)) = (@Ok unit tt, tw f b s).
Proof. intros ->. now destruct s. Qed.

Lemma land_lnot_clear x m : Z.land x m = 0 -> Z.land x (Z.lnot m) = x.
Proof.
  intros E. rewrite <- Z.ldiff_land. rewrite <- (Z.lor_ldiff_and x m) at 2. now rewrite E, Z.lor_0_r.
Qed.

Lemma pszon_clear f b s :
  psz_clear s -> clear_stateFlags DI_PROC_STATE_UPDATE_FLAGS_PSZ (tw f b (pszon s)) = (Ok tt, tw f b s).
Proof.
  intros Hp. apply negb_false_iff, Z.eqb_eq in Hp.
  refine (with_stateFlags_same f b s
    (Z.land (Z.lor (m_stateFlags s) DI_PROC_STATE_UPDATE_FLAGS_PSZ)
            (Z.lnot DI_PROC_STATE_UPDATE_FLAGS_PSZ)) _).
  rewrite Z.land_lor_distr_l, Z.land_lnot_diag, Z.lor_0_r. now apply land_lnot_clear.
Qed.

Lemma pszon_off f b s :
  psz_clear s -> clear_stateFlags DI_PROC_STATE_UPDATE_FLAGS_PSZ (tw f b s) = (Ok tt, tw f b s).
Proof.
  intros Hp. apply negb_false_iff, Z.eqb_eq in Hp.
  refine (with_stateFlags_same f b s
    (Z.land (m_stateFlags s) (Z.lnot DI_PROC_STATE_UPDATE_FLAGS_PSZ)) _).
  now apply land_lnot_clear.
Qed.

Lemma has_pszon s : has (m_stateFlags (pszon s)) DI_PROC_STATE_UPDATE_FLAGS_PSZ = true.
Proof.
  destruct s as [? ? ? ? ? ? ? sf]. cbn. change DI_PROC_STATE_UPDATE_FLAGS_PSZ with (2 ^ 2).
  rewrite has_pow2 by lia. rewrite Z.lor_spec, Z.pow2_bits_true by lia. apply orb_true_r.
Qed.

Lemma UPDATE_PSZ_off f b s X h :
  psz_clear s -> UPDATE_PSZ X h (tw f b s) = (Ok tt, tw f b s).
Proof.
  intros Hp. unfold UPDATE_PSZ. mred. cbn. unfold psz_clear in Hp. now rewrite Hp.
Qed.

(** [X] is the result cut to [n] bytes, [half n] the mask of its sign. *)
Lemma UPDATE_PSZ_on n v f b s :
  opsize n -> flag_word f ->
  UPDATE_PSZ (v mod modulus n) (half n) (tw f b (pszon s)) =
  (Ok tt, tw (set_psz n v f) b (pszon s)).
Proof.
  intros Hn Hf. pose proof (opsize_pos n Hn) as Hp. unfold UPDATE_PSZ. mred.
  change (m_stateFlags (tw f b (pszon s))) with (m_stateFlags (pszon s)).
  rewrite has_pszon, when_true. do 3 step.
  rewrite has_half, is_negative_mod by (assumption || lia).
  assert (U : u8 (v mod modulus n) = u8 v).
  { unfold u8. opsize_cases Hn; wsimp.
    - apply Z.mod_mod. lia.
    - apply (mod_mod_mul v 0x100 0x100); lia.
    - apply (mod_mod_mul v 0x100 0x1000000); lia.
    - apply (mod_mod_mul v 0x100 0x100000000000000); lia. }
  rewrite U, IsParity_spec.
  unfold set_psz. change (v mod modulus n =? 0) with (is_zero n v).
  destruct (is_zero n v) eqn:Z0; cbn [negb].
  - apply Z.eqb_eq in Z0. step.
    assert (Nn : is_negative n v = false).
    { unfold is_negative. rewrite Z0. pose proof (half_pos n ltac:(lia)). zcases; lia || reflexivity. }
    assert (Ev : even_parity v = true).
    { rewrite <- even_parity_u8, <- U, Z0. reflexivity. }
    rewrite Nn, Ev. rewrite SET_PF_tw. do 2 f_equal. flags_ext.
  - step. erewrite when_tw by final. do 2 f_equal.
    destruct (is_negative n v), (even_parity v); flags_ext.
Qed.

Lemma UpdatePSZ_tw n v f b s :
  opsize n -> flag_word f -> psz_clear s -> 0 <= v < 0x10000000000000000 ->
  DianaProcessor_UpdatePSZ v n (tw f b s) = (Ok tt, tw (set_psz n v f) b s).
Proof.
  intros Hn Hf Hp Hv. unfold DianaProcessor_UpdatePSZ.
  rewrite (bind_run _ _ _ _ _ (pszon_set f b s)).
  assert (E : (if n =? 1 then UPDATE_PSZ (u8 v) 0x80 else if n =? 2 then UPDATE_PSZ (u16 v) 0x8000
               else if n =? 4 then UPDATE_PSZ (u32 v) 0x80000000
               else if n =? 8 then UPDATE_PSZ v 0x8000000000000000 else ret tt)
              (tw f b (pszon s)) = (Ok tt, tw (set_psz n v f) b (pszon s))).
  { opsize_cases Hn; cbn [Z.eqb Pos.eqb].
    - apply (UPDATE_PSZ_on 1); unfold opsize; auto.
    - apply (UPDATE_PSZ_on 2); unfold opsize; auto.
    - apply (UPDATE_PSZ_on 4); unfold opsize; auto.
    - rewrite <- (Z.mod_small v (modulus 8)) at 1 by exact Hv.
      apply (UPDATE_PSZ_on 8); unfold opsize; auto. }
  rewrite (bind_run _ _ _ _ _ E). now apply pszon_clear.
Qed.

(** [UpdatePSZ] of a memory operand under [DI_UPDATE_FLAGS_PSZ]: it takes the state bit away. *)
Lemma UpdatePSZ_pszon n v f b s :
  opsize n -> flag_word f -> psz_clear s -> 0 <= v < 0x10000000000000000 ->
  DianaProcessor_UpdatePSZ v n (tw f b (pszon s)) = (Ok tt, tw (set_psz n v f) b s).
Proof.
  intros Hn Hf Hp Hv. rewrite <- (UpdatePSZ_tw n v f b s) by assumption.
  unfold DianaProcessor_UpdatePSZ.
  rewrite (bind_run _ _ (tw f b s) _ _ (pszon_set f b s)).
  assert (E : set_stateFlags DI_PROC_STATE_UPDATE_FLAGS_PSZ (tw f b (pszon s)) =
              (Ok tt, tw f b (pszon s))).
  { unfold set_stateFlags, modify. f_equal. destruct s. unfold tw, pszon, with_stateFlags; cbn.
    f_equal. now rewrite <- Z.lor_assoc, Z.lor_diag. }
  now rewrite (bind_run _ _ _ _ _ E).
Qed.
End Psz.

#[export] Hint Resolve UpdatePSZ_tw : exec.

(** ** Registers *)

Section RegisterRules.
Context {T : Type} `{RandomStreamOk T}.
Implicit Types s : DianaProcessor T.

(** The low [n] bytes at register [r], and its own value. *)
Definition window s (r n : Z) : Z := buf_load (m_pRegistersVector s) (roff r) n.
Definition rval s (r : Z) : Z := window s r (rsize r).

(** What a store of [n] bytes at [r] covers: the whole 64-bit register for a 32-bit one in
    64-bit mode. *)
Definition widen s (r n : Z) : Z :=
  if (n =? 4) && negb (iAMD64Mode (m_context s) =? 0) && widened r then 8 else n.

Definition put_window (off n v : Z) s : DianaProcessor T :=
  with_pRegistersVector (fun vec => buf_store vec off n v) s.
Definition put_low (r n v : Z) s : DianaProcessor T :=
  put_window (roff r) (widen s r n) (v mod modulus n) s.
Definition put_register (r v : Z) s : DianaProcessor T := put_low r (rsize r) v s.

Record int_reg (r : Z) : Prop := {
  ir_size : opsize (rsize r);
  ir_off : 0 <= roff r;
  ir_end : roff r + 8 <= 4096;
  ir_fpu : (reg_fpu_ST0 <=? r) && (r <=? reg_fpu_ST7) = false;
  ir_mm : (reg_MM0 <=? r) && (r <=? reg_MM7) = false;
  ir_widened : widened r = true -> rsize r = 4;
  ir_query64 :
    match DianaProcessor_Query64RegisterFor32 r with
    | Some r64 => widened r = true /\ In r64 gprs /\ roff r64 = roff r /\ rsize r64 = 8
    | None => widened r = false
    end
}.

Lemma int_regs_ok r : In r int_regs -> int_reg r.
Proof.
  intros Hr. pose proof int_regs_facts as F. rewrite forallb_forall in F.
  specialize (F r Hr). unfold reg_facts in F. rewrite !andb_true_iff in F.
  destruct F as (((((((F1 & F2) & F3) & F4) & F5) & F6) & F7) & _).
  constructor.
  - rewrite !orb_true_iff, !Z.eqb_eq in F1. unfold opsize. tauto.
  - now apply Z.leb_le.
  - now apply Z.leb_le.
  - now apply negb_true_iff.
  - now apply negb_true_iff.
  - intros W. rewrite W in F6. cbn in F6. now apply Z.eqb_eq.
  - destruct (DianaProcessor_Query64RegisterFor32 r).
    + rewrite !andb_true_iff, existsb_exists, !Z.eqb_eq in F7.
      destruct F7 as (((W & y & Hy & ->%Z.eqb_eq) & E) & S8). auto.
    + now apply negb_true_iff.
Qed.

Lemma gprs_int r : In r gprs -> In r int_regs.
Proof. intros Hr. unfold int_regs. apply in_or_app. now left. Qed.

Lemma gpr_not_rip r : In r gprs -> ((r =? reg_RIP) || (r =? reg_IP)) = false.
Proof.
  intros Hr. pose proof int_regs_facts as F. rewrite forallb_forall in F.
  specialize (F r (gprs_int r Hr)). unfold reg_facts in F. rewrite !andb_true_iff in F.
  destruct F as (_ & F8).
  destruct (find (Z.eqb r) gprs) eqn:E.
  - now apply negb_true_iff in F8.
  - apply find_none with (x := r) in E; [|assumption]. now rewrite Z.eqb_refl in E.
Qed.

Lemma QueryReg_int s r : wf s -> int_reg r -> DianaProcessor_QueryReg s r = reg_info r.
Proof.
  intros W R. unfold DianaProcessor_QueryReg. rewrite (ir_fpu r R), (ir_mm r R).
  unfold register_slot. now rewrite (wf_registers s W).
Qed.

Lemma wf_tw f b s : wf s -> flag_word f -> wf (tw f b s).
Proof. intros W Hf. destruct W. now constructor. Qed.

Lemma wf_flag_word s : wf s -> flag_word (m_flags s).
Proof. apply wf_flags. Qed.

Lemma wf_pszon s : wf s -> wf (pszon s).
Proof. intros W. destruct W. now constructor. Qed.

Lemma wf_put_window off n v s :
  wf s -> 0 <= off -> 0 <= n -> off + n <= 4096 -> wf (put_window off n v s).
Proof.
  intros W H1 H2 H3. destruct W as [W1 W2 W3 W4 W5]. constructor; cbn; auto.
  - rewrite buf_store_length; lia.
  - now apply buf_store_ok.
Qed.

Lemma widen_range s r n : opsize n -> n <= widen s r n <= 8.
Proof.
  intros Hn. pose proof (opsize_pos n Hn). unfold widen.
  destruct (Z.eqb_spec n 4), (iAMD64Mode (m_context s) =? 0), (widened r); cbn; lia.
Qed.

Lemma wf_put_low r n v s : wf s -> int_reg r -> opsize n -> wf (put_low r n v s).
Proof.
  intros W R Hn. pose proof (ir_off r R). pose proof (ir_end r R).
  pose proof (widen_range s r n Hn). pose proof (opsize_pos n Hn).
  apply wf_put_window; auto; lia.
Qed.

Lemma wf_put_register r v s : wf s -> int_reg r -> wf (put_register r v s).
Proof. intros W R. apply wf_put_low; auto. apply (ir_size r R). Qed.

Lemma window_range s r n : wf s -> int_reg r -> opsize n -> 0 <= window s r n < modulus n.
Proof.
  intros W R Hn. pose proof (ir_off r R). pose proof (ir_end r R).
  pose proof (opsize_pos n Hn). pose proof (wf_length s W).
  apply buf_load_range; try lia. apply (wf_bytes s W).
Qed.

Lemma rval_range s r : wf s -> int_reg r -> 0 <= rval s r < modulus (rsize r).
Proof. intros W R. apply window_range; auto. apply (ir_size r R). Qed.

Lemma tw_put_window f b off n v s : tw f b (put_window off n v s) = put_window off n v (tw f b s).
Proof. reflexivity. Qed.

(** *** Reading *)

Lemma GetValueEx_tw r n f b s :
  opsize n ->
  DianaProcessor_GetValueEx (reg_info r) n (tw f b s) = (Ok (window s r n), tw f b s).
Proof. intros Hn. opsize_cases Hn; reflexivity. Qed.

Lemma GET_REG_tw r f b s :
  wf s -> flag_word f -> int_reg r -> GET_REG r (tw f b s) = (Ok (rval s r), tw f b s).
Proof.
  intros W Hf R. unfold GET_REG. mred.
  rewrite QueryReg_int by (auto using wf_tw). apply GetValueEx_tw. apply (ir_size r R).
Qed.

Lemma GET_REG2_tw r n f b s :
  wf s -> flag_word f -> int_reg r -> opsize n ->
  GET_REG2 r n (tw f b s) = (Ok (window s r n), tw f b s).
Proof.
  intros W Hf R Hn. unfold GET_REG2. mred.
  rewrite QueryReg_int by (auto using wf_tw). now apply GetValueEx_tw.
Qed.

(** *** Writing *)

Lemma store_register_tw off n v f b s :
  store_register off n v (tw f b s) = (Ok tt, tw f b (put_window off n v s)).
Proof. reflexivity. Qed.

Lemma put_window_mod off n v s :
  0 <= n -> put_window off n (v mod modulus n) s = put_window off n v s.
Proof. intros Hn. unfold put_window, with_pRegistersVector, modulus. now rewrite buf_store_mod. Qed.

(** The bytes that [DianaProcessor_SetValueEx] stores, before its UPDATE_PSZ. *)
Lemma SetValueEx_split r n v s f b :
  opsize n -> ((r =? reg_RIP) || (r =? reg_IP)) = false ->
  DianaProcessor_SetValueEx r (reg_info r) v n (tw f b s) =
  UPDATE_PSZ (v mod modulus n) (half n) (tw f b (put_low r n v s)).
Proof.
  intros Hn Hr. unfold DianaProcessor_SetValueEx. rewrite Hr, when_false, bind_ret.
  unfold put_low, widen. opsize_cases Hn; cbn [Z.eqb Pos.eqb andb].
  - rewrite put_window_mod by lia.
    rewrite (bind_run _ _ _ _ _ (store_register_tw _ _ _ _ _ _)). reflexivity.
  - rewrite put_window_mod by lia.
    rewrite (bind_run _ _ _ _ _ (store_register_tw _ _ _ _ _ _)). reflexivity.
  - unfold context. rewrite bind_gets. cbn [m_context tw with_flags with_stateFlagsToRemove].
    fold (widened r). destruct (negb (iAMD64Mode (m_context s) =? 0) && widened r).
    + rewrite (bind_run _ _ _ _ _ (store_register_tw _ _ _ _ _ _)). reflexivity.
    + rewrite put_window_mod by lia.
      rewrite (bind_run _ _ _ _ _ (store_register_tw _ _ _ _ _ _)). reflexivity.
  - rewrite put_window_mod by lia.
    rewrite (bind_run _ _ _ _ _ (store_register_tw _ _ _ _ _ _)). reflexivity.
Qed.

Lemma psz_clear_put_low r n v s : psz_clear s -> psz_clear (put_low r n v s).
Proof. intros P. exact P. Qed.

Lemma psz_clear_put_register r v s : psz_clear s -> psz_clear (put_register r v s).
Proof. intros P. exact P. Qed.

Lemma SetValueEx_tw r n v f b s :
  opsize n -> ((r =? reg_RIP) || (r =? reg_IP)) = false -> psz_clear s ->
  DianaProcessor_SetValueEx r (reg_info r) v n (tw f b s) = (Ok tt, tw f b (put_low r n v s)).
Proof.
  intros Hn Hr Hp. rewrite SetValueEx_split by assumption. now apply UPDATE_PSZ_off.
Qed.

Lemma put_low_pszon r n v s : put_low r n v (pszon s) = pszon (put_low r n v s).
Proof. reflexivity. Qed.

Lemma SetValueEx_pszon r n v f b s :
  opsize n -> ((r =? reg_RIP) || (r =? reg_IP)) = false -> flag_word f ->
  DianaProcessor_SetValueEx r (reg_info r) v n (tw f b (pszon s)) =
  (Ok tt, tw (set_psz n v f) b (pszon (put_low r n v s))).
Proof.
  intros Hn Hr Hf. rewrite SetValueEx_split by assumption. rewrite put_low_pszon.
  now apply UPDATE_PSZ_on.
Qed.

Lemma SET_REG_tw r v f b s :
  wf s -> flag_word f -> int_reg r -> ((r =? reg_RIP) || (r =? reg_IP)) = false -> psz_clear s ->
  SET_REG r v (tw f b s) = (Ok tt, tw f b (put_register r v s)).
Proof.
  intros W Hf R Hr Hp. unfold SET_REG. mred.
  rewrite QueryReg_int by (auto using wf_tw). apply SetValueEx_tw; auto. apply (ir_size r R).
Qed.

Lemma SET_REG2_tw r n v f b s :
  wf s -> flag_word f -> int_reg r -> opsize n ->
  ((r =? reg_RIP) || (r =? reg_IP)) = false -> psz_clear s ->
  SET_REG2 r v n (tw f b s) = (Ok tt, tw f b (put_low r n v s)).
Proof.
  intros W Hf R Hn Hr Hp. unfold SET_REG2. mred.
  rewrite QueryReg_int by (auto using wf_tw). now apply SetValueEx_tw.
Qed.

Lemma SET_REG_pszon r v f b s :
  wf s -> flag_word f -> int_reg r -> ((r =? reg_RIP) || (r =? reg_IP)) = false ->
  SET_REG r v (tw f b (pszon s)) = (Ok tt, tw (set_psz (rsize r) v f) b (pszon (put_register r v s))).
Proof.
  intros W Hf R Hr. unfold SET_REG. mred.
  rewrite QueryReg_int by (auto using wf_tw, wf_pszon). apply SetValueEx_pszon; auto.
  apply (ir_size r R).
Qed.

(** A register write hides the write to its 64-bit parent before it. *)
Lemma put_register_after r r64 v w s :
  wf s -> int_reg r -> iAMD64Mode (m_context s) <> 0 ->
  DianaProcessor_Query64RegisterFor32 r = Some r64 ->
  put_register r v (put_register r64 w s) = put_register r v s.
Proof.
  intros W R A Q. pose proof (ir_query64 r R) as Q64. rewrite Q in Q64.
  destruct Q64 as (Wd & G & O & S8). pose proof (ir_widened r R Wd) as S4.
  pose proof (ir_off r R). pose proof (ir_end r R). pose proof (wf_length s W).
  unfold put_register, put_low, widen. rewrite S4, S8, O, Wd. cbn [Z.eqb Pos.eqb andb].
  cbn [m_context put_window with_pRegistersVector].
  destruct (Z.eqb_spec (iAMD64Mode (m_context s)) 0) as [E|_]; [contradiction|]. cbn [negb andb].
  unfold put_window, with_pRegistersVector. cbn [m_pRegistersVector].
  now rewrite buf_store_shadow by lia.
Qed.

(** The second clearing of the upper half in [Diana_ProcessorSetGetOperand_register]. *)
Lemma put_upper_zero r v s :
  wf s -> int_reg r -> iAMD64Mode (m_context s) <> 0 -> widened r = true ->
  put_window (roff r + 4) 4 0 (put_register r v s) = put_register r v s.
Proof.
  intros W R A Wd. pose proof (ir_widened r R Wd) as S4.
  pose proof (ir_off r R). pose proof (ir_end r R). pose proof (wf_length s W).
  unfold put_register, put_low, widen. rewrite S4, Wd. cbn [Z.eqb Pos.eqb andb].
  destruct (Z.eqb_spec (iAMD64Mode (m_context s)) 0) as [E|_]; [contradiction|]. cbn [negb andb].
  unfold put_window, with_pRegistersVector. cbn [m_pRegistersVector].
  rewrite buf_store_upper_zero; [reflexivity|lia|lia|].
  apply Z.mod_pos_bound. reflexivity.
Qed.
End RegisterRules.

#[export] Hint Resolve int_regs_ok gprs_int gpr_not_rip ir_size wf_tw wf_flag_word wf_pszon
  wf_put_low wf_put_register psz_clear_put_low psz_clear_put_register : diana.

(** ** Addresses and memory *)

Section MemoryRules.
Context {T : Type} `{RandomStreamOk T}.
Implicit Types s : DianaProcessor T.

(** The parts of the state an address depends on. *)
Definition same_core s s' : Prop :=
  m_registers s = m_registers s' /\ m_pRegistersVector s = m_pRegistersVector s' /\
  m_context s = m_context s' /\ m_result s = m_result s' /\ m_fpu s = m_fpu s'.

Definition reg_read s (r : Z) : Z :=
  match GET_REG r s with (Ok v, _) => v | _ => 0 end.

Lemma GET_REG_gets r s : GET_REG r s = (Ok (reg_read s r), s).
Proof. reflexivity. Qed.

Lemma reg_read_core r s s' : same_core s s' -> reg_read s r = reg_read s' r.
Proof.
  intros (E1 & E2 & E3 & E4 & E5).
  unfold reg_read, GET_REG, gets, bind, DianaProcessor_GetValue, DianaProcessor_GetValueEx,
    DianaProcessor_QueryReg, DianaProcessor_FPU_QueryReg, DianaProcessor_FPU_QueryReg_MM,
    register_slot, Diana_FPU_GetStackTop, gets. now rewrite E1, E2, E5.
Qed.

Lemma CalcIndex_core idx s s' :
  same_core s s' -> DianaProcessor_CalcIndex idx s' = (fst (DianaProcessor_CalcIndex idx s), s').
Proof.
  intros C. pose proof C as (_ & _ & E3 & E4 & _).
  unfold DianaProcessor_CalcIndex, context, result.
  assert (G : forall c r t, (if c : bool then GET_REG r else ret 0) t =
                            (Ok (if c then reg_read t r else 0), t))
    by (intros [] ? ?; reflexivity).
  rewrite !(bind_run _ _ _ _ _ (G _ _ _)). rewrite !bind_gets.
  rewrite <- !(reg_read_core _ _ _ C), <- E3, <- E4.
  destruct (iCurrentCmd_addressSize (m_context s) =? 8).
  - rewrite !bind_ret, !(bind_run _ _ _ _ _ (GET_REG_gets _ _)).
    now rewrite <- (reg_read_core _ _ _ C).
  - destruct (iCurrentCmd_addressSize (m_context s) =? 4); [|reflexivity].
    rewrite !bind_ret, !(bind_run _ _ _ _ _ (GET_REG_gets _ _)).
    now rewrite <- (reg_read_core _ _ _ C).
Qed.

Lemma same_core_refl s : same_core s s.
Proof. repeat split. Qed.

Lemma same_core_tw f b s : same_core s (tw f b s).
Proof. repeat split. Qed.

Lemma same_core_pszon f b s : same_core s (tw f b (pszon s)).
Proof. repeat split. Qed.

Definition effective_address s (idx : DianaRmIndex) : option (Z * Z) :=
  match DianaProcessor_CalcIndex idx s with (Ok p, _) => Some p | _ => None end.

Lemma CalcIndex_run idx s s' p :
  effective_address s idx = Some p -> same_core s s' ->
  DianaProcessor_CalcIndex idx s' = (Ok p, s').
Proof.
  intros E C. rewrite (CalcIndex_core idx s s' C). unfold effective_address in E.
  destruct (DianaProcessor_CalcIndex idx s) as [[a| |] s1]; cbn; congruence.
Qed.

(** *** Streams *)

Definition mapped (t : T) (sel addr n : Z) : Prop :=
  forall i, 0 <= i < n -> cell t (linear t sel addr + i) <> None.

(** The bytes of a mapped range. *)
Lemma mapped_bytes t sel addr n :
  mapped t sel addr (Z.of_nat n) ->
  exists bs, length bs = n /\
    forall i, (i < n)%nat -> cell t (linear t sel addr + Z.of_nat i) = Some (nth i bs 0).
Proof.
  induction n as [|n IH]; intros M.
  - exists []. split; [reflexivity|lia].
  - destruct IH as (bs & L & B). { intros i Hi. apply M. lia. }
    destruct (cell t (linear t sel addr + Z.of_nat n)) as [c|] eqn:E.
    2: { exfalso. apply (M (Z.of_nat n)); [lia|exact E]. }
    exists (bs ++ [c]). split; [rewrite length_app; cbn; lia|].
    intros i Hi. destruct (Nat.eq_dec i n) as [->|N].
    + rewrite app_nth2 by lia. rewrite L, Nat.sub_diag. exact E.
    + rewrite app_nth1 by lia. apply B. lia.
Qed.

Lemma mapped_dec t sel addr n : mapped t sel addr (Z.of_nat n) \/
  exists i, 0 <= i < Z.of_nat n /\ cell t (linear t sel addr + i) = None.
Proof.
  induction n as [|n [IH|(i & Hi & E)]].
  - left. intros i Hi. lia.
  - destruct (cell t (linear t sel addr + Z.of_nat n)) as [c|] eqn:E.
    + left. intros i Hi. destruct (Z.eq_dec i (Z.of_nat n)) as [->|N]; [congruence|].
      apply IH. lia.
    + right. exists (Z.of_nat n). split; [lia|exact E].
  - right. exists i. split; [lia|exact E].
Qed.

(** A read that succeeds in full leaves the stream alone. *)
Lemma read_ok_same t sel off n seg bs t' :
  stream_wf t -> 0 < n -> pReadFnc t sel off n seg = (DI_SUCCESS, bs, t') ->
  Z.of_nat (length bs) = n -> t' = t /\ mapped t sel off n /\ Forall byte_ok bs.
Proof.
  intros W Hn E L. rewrite <- (Z2Nat.id n) in * by lia.
  destruct (mapped_dec t sel off (Z.to_nat n)) as [M|(i & Hi & C)].
  - destruct (mapped_bytes t sel off (Z.to_nat n) M) as (bs' & L' & B).
    rewrite <- L' in E, B.
    rewrite (read_mapped t sel off seg bs' W) in E.
    + injection E as <- <-. split; [reflexivity|]. split; [exact M|].
      rewrite Forall_forall. intros y Hy. destruct (In_nth _ _ 0 Hy) as (j & Hj & <-).
      apply (cell_byte t _ _ W (B j Hj)).
    + intros ->. cbn in L'. lia.
    + exact B.
  - pose proof (read_unmapped t sel off seg (Z.of_nat (Z.to_nat n)) i W Hi C) as U.
    rewrite E in U. destruct U as (_ & [U|U]); congruence.
Qed.

(** What a load gives: the status and the value; defined by the stream alone. *)
Definition loads (t : T) (sel addr n seg v : Z) : Prop :=
  exists bs, pReadFnc t sel addr n seg = (DI_SUCCESS, bs, t) /\
    Z.of_nat (length bs) = n /\ le_decode bs = v /\ Forall byte_ok bs.

Lemma with_stream_same s s' t :
  m_pMemoryStream s' = t -> with_pMemoryStream (fun _ => t) s' = s'.
Proof. intros <-. now destruct s'. Qed.

Lemma GetMemValue_run sel addr n seg v s :
  loads (m_pMemoryStream s) sel addr n seg v ->
  DianaProcessor_GetMemValue sel addr n seg s = (Ok v, s).
Proof.
  intros (bs & E & L & D & _).
  unfold DianaProcessor_GetMemValue, DianaProcessor_GetMemValue_out, bind. rewrite E.
  cbn [Z.eqb DI_SUCCESS negb]. rewrite L, Z.eqb_refl. cbn [negb Z.eqb DI_SUCCESS]. rewrite D.
  now rewrite (with_stream_same s) by reflexivity.
Qed.

Lemma GetMemValue_inv sel addr n seg v s s' :
  stream_wf (m_pMemoryStream s) -> 0 < n ->
  DianaProcessor_GetMemValue sel addr n seg s = (Ok v, s') ->
  loads (m_pMemoryStream s) sel addr n seg v /\ s' = s /\
  mapped (m_pMemoryStream s) sel addr n.
Proof.
  intros W Hn. unfold DianaProcessor_GetMemValue, DianaProcessor_GetMemValue_out, bind.
  destruct (pReadFnc (m_pMemoryStream s) sel addr n seg) as [[st bs] t] eqn:E.
  destruct (Z.eqb_spec st DI_SUCCESS) as [->|N]; cbn [negb].
  - destruct (Z.eqb_spec (Z.of_nat (length bs)) n) as [L|L]; cbn [negb]; [|discriminate].
    intros Ev. inversion Ev; subst v s'. clear Ev.
    destruct (read_ok_same _ _ _ _ _ _ _ W Hn E L) as (-> & M & B).
    rewrite with_stream_same with (s := s) by reflexivity. split; [|auto].
    now exists bs.
  - destruct (Z.eqb_spec st DI_SUCCESS); [congruence|discriminate].
Qed.

Lemma loads_range t sel addr n seg v : loads t sel addr n seg v -> 0 <= v < modulus n.
Proof.
  intros (bs & _ & L & <- & B). unfold modulus. rewrite <- L. now apply le_decode_range.
Qed.

(** *** Stores *)

Definition put_memory (sel addr n v seg : Z) s : DianaProcessor T :=
  with_pMemoryStream (fun t => snd (pWriteFnc t sel addr (le_encode (Z.to_nat n) v) seg)) s.

Lemma stream_store t sel addr n v seg :
  stream_wf t -> 0 < n -> mapped t sel addr n ->
  exists t', pWriteFnc t sel addr (le_encode (Z.to_nat n) v) seg = (DI_SUCCESS, n, t') /\
    stream_wf t' /\ (forall sel' off', linear t' sel' off' = linear t sel' off') /\
    forall p, cell t' p =
      if (linear t sel addr <=? p) && (p <? linear t sel addr + n)
      then Some ((v / 2 ^ (8 * (p - linear t sel addr))) mod 256) else cell t p.
Proof.
  intros W Hn M.
  destruct (write_mapped t sel addr seg (le_encode (Z.to_nat n) v) W) as (t' & E & W' & L & C).
  - intros Z0. pose proof (le_encode_length (Z.to_nat n) v) as L. rewrite Z0 in L. cbn in L. lia.
  - apply le_encode_ok.
  - rewrite le_encode_length. intros i Hi. apply M. lia.
  - rewrite le_encode_length, Z2Nat.id in E, C by lia. exists t'. split; [exact E|].
    split; [exact W'|]. split; [exact L|].
    intros p. rewrite C. destruct (Z.leb_spec (linear t sel addr) p),
      (Z.ltb_spec p (linear t sel addr + n)); cbn [andb]; try reflexivity.
    rewrite le_encode_nth by lia. repeat f_equal. lia.
Qed.

Lemma SetMemValue_run sel addr n v seg s :
  stream_wf (m_pMemoryStream s) -> 0 < n -> mapped (m_pMemoryStream s) sel addr n ->
  DianaProcessor_SetMemValue sel addr n v seg s = (Ok tt, put_memory sel addr n v seg s).
Proof.
  intros W Hn M. destruct (stream_store _ sel addr n v seg W Hn M) as (t' & E & _).
  unfold DianaProcessor_SetMemValue, put_memory, with_pMemoryStream. rewrite E.
  cbn [negb Z.eqb DI_SUCCESS snd]. now rewrite Z.eqb_refl.
Qed.

Lemma SetMemValue_tw sel addr n v seg f b s :
  stream_wf (m_pMemoryStream s) -> 0 < n -> mapped (m_pMemoryStream s) sel addr n ->
  DianaProcessor_SetMemValue sel addr n v seg (tw f b s) =
  (Ok tt, tw f b (put_memory sel addr n v seg s)).
Proof. intros W Hn M. exact (SetMemValue_run sel addr n v seg (tw f b s) W Hn M). Qed.

Lemma GetMemValue_tw sel addr n seg v f b s :
  loads (m_pMemoryStream s) sel addr n seg v ->
  DianaProcessor_GetMemValue sel addr n seg (tw f b s) = (Ok v, tw f b s).
Proof. intros L. exact (GetMemValue_run sel addr n seg v (tw f b s) L). Qed.

Lemma wf_put_memory sel addr n v seg s :
  wf s -> 0 < n -> mapped (m_pMemoryStream s) sel addr n -> wf (put_memory sel addr n v seg s).
Proof.
  intros W Hn M. destruct W as [W1 W2 W3 W4 W5].
  destruct (stream_store _ sel addr n v seg W5 Hn M) as (t' & E & W' & _).
  constructor; cbn; auto. now rewrite E.
Qed.
End MemoryRules.

(** ** Operands *)

Section OperandRules.
Context {T : Type} `{RandomStreamOk T}.
Implicit Types s : DianaProcessor T.

(** The same registers, operands and memory; flags and state bits may differ. *)
Definition same_view s s' : Prop :=
  same_core s s' /\ m_pMemoryStream s = m_pMemoryStream s'.

Lemma same_view_tw f b s : same_view s (tw f b s).
Proof. repeat split. Qed.

Definition operand s (i : Z) : option (Z * Z) :=
  match DI_MEM_GET i s with (Ok p, _) => Some p | _ => None end.

(** Operand [i] can be read: it has [n] bytes and the value [v]. *)
Definition reads s (i v n : Z) : Prop :=
  operand s i = Some (v, n) /\ opsize n /\ 0 <= v < modulus n.

Lemma DI_MEM_GET_view s s' i v n :
  wf s -> opsize n -> operand s i = Some (v, n) -> same_view s s' ->
  DI_MEM_GET i s' = (Ok (v, n), s').
Proof.
  intros W Hn. unfold operand, DI_MEM_GET, DianaProcessor_SetGetOperand, result.
  rewrite !bind_gets. intros E (C & St). pose proof C as (_ & _ & _ & Er & _). rewrite <- Er.
  destruct ((iLinkedOpCount (m_result s) <=? i) || (i <? 0)); [discriminate|].
  set (op := linked_op (m_result s) i) in *.
  assert (M : forall idx,
    (match bind (Diana_ProcessorSetGetOperand_index (usedSize op) 0 false idx)
             (fun v0 => ret (v0, usedSize op)) s with
     | (Ok p, _) => Some p | _ => None end) = Some (v, n) ->
    bind (Diana_ProcessorSetGetOperand_index (usedSize op) 0 false idx)
      (fun v0 => ret (v0, usedSize op)) s' = (Ok (v, n), s')).
  { intros idx. unfold Diana_ProcessorSetGetOperand_index. rewrite !bind_bind.
    destruct (DianaProcessor_CalcIndex idx s) as [[[sel addr]|c|] s1] eqn:EC.
    - assert (EA : effective_address s idx = Some (sel, addr))
        by (unfold effective_address; now rewrite EC).
      rewrite (bind_run _ _ _ _ _ (CalcIndex_run idx s s (sel, addr) EA (same_core_refl s))).
      rewrite (bind_run _ _ _ _ _ (CalcIndex_run idx s s' (sel, addr) EA C)).
      destruct (DianaProcessor_GetMemValue sel addr (usedSize op) (seg_reg idx) s)
        as [[a|c|] s2] eqn:EG; unfold bind at 1; rewrite EG; try discriminate.
      cbn. intros X. injection X as <- Hu.
      rewrite <- Hu in Hn. pose proof (opsize_pos _ Hn) as Hp.
      assert (U0 : 0 < usedSize op) by lia.
      destruct (GetMemValue_inv _ _ _ _ _ _ _ (wf_stream s W) U0 EG) as (L & _ & _).
      rewrite St in L. rewrite (bind_run _ _ _ _ _ (GetMemValue_run _ _ _ _ _ _ L)).
      now rewrite Hu.
    - rewrite (bind_err _ _ _ _ _ EC). discriminate.
    - rewrite (bind_crash _ _ _ _ EC). discriminate. }
  revert E. destruct (value op); try discriminate; try (now apply M).
  - unfold Diana_ProcessorSetGetOperand_register.
    rewrite !(bind_run _ _ _ _ _ (GET_REG_gets _ _)). unfold ret. intros X.
    injection X as <- <-. now rewrite (reg_read_core _ s s' C).
  - cbn. intros X. injection X as <- <-. reflexivity.
Qed.

Lemma reads_tw s i v n f b :
  wf s -> reads s i v n -> DI_MEM_GET i (tw f b s) = (Ok (v, n), tw f b s).
Proof. intros W (E & Hn & _). eapply DI_MEM_GET_view; eauto using same_view_tw. Qed.

Lemma reads_self s i v n : wf s -> reads s i v n -> DI_MEM_GET i s = (Ok (v, n), s).
Proof.
  intros W (E & Hn & _). eapply DI_MEM_GET_view; eauto. split; [apply same_core_refl|reflexivity].
Qed.

Lemma DI_MEM_GET_DEST_tw s v n f b :
  wf s -> reads s 0 v n -> DI_MEM_GET_DEST (tw f b s) = (Ok (v, n), tw f b s).
Proof. apply reads_tw. Qed.

Lemma DI_MEM_GET_SRC_tw s v n f b :
  wf s -> reads s 1 v n -> DI_MEM_GET_SRC (tw f b s) = (Ok (v, n), tw f b s).
Proof. apply reads_tw. Qed.

Lemma DI_MEM_GET_SRC2_tw s v n f b :
  wf s -> reads s 2 v n -> DI_MEM_GET_SRC2 (tw f b s) = (Ok (v, n), tw f b s).
Proof. apply reads_tw. Qed.

(** Operand [i] can be written: a general register of [n] bytes, or [n] bytes of mapped
    memory. *)
Definition writes s (i n : Z) : Prop :=
  (iLinkedOpCount (m_result s) <=? i) || (i <? 0) = false /\
  opsize n /\ usedSize (linked_op (m_result s) i) = n /\
  match value (linked_op (m_result s) i) with
  | diana_register r => In r gprs /\ rsize r = n
  | diana_index idx | diana_memory idx =>
      exists sel addr, effective_address s idx = Some (sel, addr) /\
        mapped (m_pMemoryStream s) sel addr n
  | _ => False
  end.

Definition put_operand (i v : Z) s : DianaProcessor T :=
  match value (linked_op (m_result s) i) with
  | diana_register r => put_register r v s
  | diana_index idx | diana_memory idx =>
      match effective_address s idx with
      | Some (sel, addr) =>
          put_memory sel addr (usedSize (linked_op (m_result s) i)) v (seg_reg idx) s
      | None => s
      end
  | _ => s
  end.

Lemma wf_put_operand s i v n : wf s -> writes s i n -> wf (put_operand i v s).
Proof.
  intros W (_ & Hn & U & D). unfold put_operand. pose proof (opsize_pos n Hn).
  destruct (value (linked_op (m_result s) i)); try contradiction.
  - destruct D as (G & _). auto with diana.
  - destruct D as (sel & addr & -> & M). rewrite U. apply wf_put_memory; auto. lia.
  - destruct D as (sel & addr & -> & M). rewrite U. apply wf_put_memory; auto. lia.
Qed.

(** Everything but registers and memory survives a store. *)
Lemma put_operand_keeps i v s :
  m_stateFlags (put_operand i v s) = m_stateFlags s /\
  m_stateFlagsToRemove (put_operand i v s) = m_stateFlagsToRemove s /\
  m_flags (put_operand i v s) = m_flags s.
Proof.
  unfold put_operand.
  destruct (value (linked_op (m_result s) i)); try (repeat split; reflexivity);
    destruct (effective_address s _) as [[sel addr]|]; repeat split; reflexivity.
Qed.

Lemma psz_clear_put_operand i v s : psz_clear s -> psz_clear (put_operand i v s).
Proof. unfold psz_clear. now destruct (put_operand_keeps i v s) as (-> & _). Qed.

Lemma idle_put_operand i v s : idle s -> idle (put_operand i v s).
Proof. unfold idle. now destruct (put_operand_keeps i v s) as (-> & -> & _). Qed.

Lemma idle_psz_clear s : idle s -> psz_clear s.
Proof. now intros (_ & P). Qed.

(** *** Writing a register operand *)

Lemma query64_tw (r : Z) v f b s :
  wf s -> int_reg r ->
  (let! amd64 := context iAMD64Mode in
   match DianaProcessor_Query64RegisterFor32 r with
   | Some reg64 =>
       when (negb (amd64 =? 0))
         (let! pReg64 := gets (fun s => DianaProcessor_QueryReg s reg64) in
          store_register (m_offset pReg64 + 4) 4 0)
   | None => ret tt
   end) (tw f b (put_register r v s)) = (Ok tt, tw f b (put_register r v s)).
Proof.
  intros W R. unfold context. rewrite bind_gets.
  change (m_context (tw f b (put_register r v s))) with (m_context s).
  destruct (DianaProcessor_Query64RegisterFor32 r) as [r64|] eqn:Q; [|reflexivity].
  destruct (Z.eqb_spec (iAMD64Mode (m_context s)) 0) as [E|A]; [reflexivity|].
  rewrite when_true, bind_gets.
  pose proof (ir_query64 r R) as Q64. rewrite Q in Q64. destruct Q64 as (Wd & G & O & _).
  assert (QR : DianaProcessor_QueryReg (tw f b (put_register r v s)) r64 = reg_info r64).
  { pose proof (int_regs_ok r64 (gprs_int r64 G)) as R64. unfold DianaProcessor_QueryReg.
    rewrite (ir_fpu r64 R64), (ir_mm r64 R64). unfold register_slot.
    change (m_registers (tw f b (put_register r v s))) with (m_registers s).
    now rewrite (wf_registers s W). }
  rewrite QR. fold (roff r64). rewrite O, store_register_tw. now rewrite put_upper_zero.
Qed.

Lemma SetGet_register_tw r v f b s :
  wf s -> flag_word f -> In r gprs -> psz_clear s ->
  Diana_ProcessorSetGetOperand_register r v true (tw f b s) =
  (Ok v, tw f b (put_register r v s)).
Proof.
  intros W Hf G P. unfold Diana_ProcessorSetGetOperand_register.
  rewrite (bind_run _ _ _ _ _ (SET_REG_tw r v f b s W Hf ltac:(auto with diana)
             (gpr_not_rip r G) P)).
  pose proof (query64_tw r v f b s W ltac:(auto with diana)) as Q.
  rewrite <- bind_bind. now rewrite (bind_run _ _ _ _ _ Q).
Qed.

Lemma SetGet_register_pszon r v f b s :
  wf s -> flag_word f -> In r gprs ->
  Diana_ProcessorSetGetOperand_register r v true (tw f b (pszon s)) =
  (Ok v, tw (set_psz (rsize r) v f) b (pszon (put_register r v s))).
Proof.
  intros W Hf G. unfold Diana_ProcessorSetGetOperand_register.
  rewrite (bind_run _ _ _ _ _ (SET_REG_pszon r v f b s W Hf ltac:(auto with diana)
             (gpr_not_rip r G))).
  pose proof (query64_tw r v (set_psz (rsize r) v f) b (pszon s) ltac:(auto with diana)
                ltac:(auto with diana)) as Q.
  rewrite <- bind_bind. now rewrite (bind_run _ _ _ _ _ Q).
Qed.

(** *** Writing an operand *)

Lemma DI_MEM_SET_tw i v n f b s :
  wf s -> flag_word f -> psz_clear s -> writes s i n ->
  DI_MEM_SET i v (tw f b s) = (Ok tt, tw f b (put_operand i v s)).
Proof.
  intros W Hf P (Hi & Hn & U & D). assert (Np : 0 < n) by (pose proof (opsize_pos n Hn); lia).
  unfold DI_MEM_SET, DianaProcessor_SetGetOperand, result. rewrite bind_bind, bind_gets.
  change (m_result (tw f b s)) with (m_result s). rewrite Hi. unfold put_operand.
  assert (Mem : forall idx sel addr,
    effective_address s idx = Some (sel, addr) -> mapped (m_pMemoryStream s) sel addr n ->
    Diana_ProcessorSetGetOperand_index (usedSize (linked_op (m_result s) i)) v true idx
      (tw f b s) =
    (Ok v, tw f b (put_memory sel addr (usedSize (linked_op (m_result s) i)) v (seg_reg idx) s))).
  { intros idx sel addr EA M. unfold Diana_ProcessorSetGetOperand_index.
    rewrite (bind_run _ _ _ _ _ (CalcIndex_run idx s _ _ EA (same_core_tw f b s))).
    rewrite bind_gets. change (m_stateFlags (tw f b s)) with (m_stateFlags s). rewrite P, U.
    rewrite when_false, bind_ret.
    rewrite (bind_run _ _ _ _ _
      (SetMemValue_tw _ _ _ v (seg_reg idx) _ _ s (wf_stream s W) Np M)). reflexivity. }
  destruct (value (linked_op (m_result s) i)); try contradiction.
  - destruct D as (G & _). rewrite bind_bind.
    now rewrite (bind_run _ _ _ _ _ (SetGet_register_tw _ v f b s W Hf G P)).
  - destruct D as (sel & addr & EA & M). rewrite EA, bind_bind.
    now rewrite (bind_run _ _ _ _ _ (Mem _ _ _ EA M)).
  - destruct D as (sel & addr & EA & M). rewrite EA, bind_bind.
    now rewrite (bind_run _ _ _ _ _ (Mem _ _ _ EA M)).
Qed.

(** A store with the flags PF, SF and ZF of the stored value. *)
Lemma SET_PSZ_tw i v n f b s :
  wf s -> flag_word f -> psz_clear s -> writes s i n -> 0 <= v < 0x10000000000000000 ->
  DI_UPDATE_FLAGS_PSZ (DI_MEM_SET i v) (tw f b s) =
  (Ok tt, tw (set_psz n v f) true (put_operand i v s)).
Proof.
  intros W Hf P Wr Hv. pose proof Wr as (Hi & Hn & U & D).
  assert (Np : 0 < n) by (pose proof (opsize_pos n Hn); lia).
  unfold DI_UPDATE_FLAGS_PSZ. rewrite (bind_run _ _ _ _ _ (pszon_set f b s)), bind_modify.
  assert (E0 : with_stateFlagsToRemove (fun x => Z.lor x DI_PROC_STATE_UPDATE_FLAGS_PSZ)
                 (tw f b (pszon s)) = tw f true (pszon s)).
  { unfold tw, with_flags, with_stateFlagsToRemove. cbn. f_equal.
    destruct b; [|reflexivity]. now rewrite <- Z.lor_assoc, Z.lor_diag. }
  rewrite E0. clear E0.
  unfold DI_MEM_SET, DianaProcessor_SetGetOperand, result. rewrite !bind_bind, bind_gets.
  change (m_result (tw f true (pszon s))) with (m_result s). rewrite Hi.
  pose proof (psz_clear_put_operand i v s P) as P'. unfold put_operand in *.
  assert (Mem : forall idx sel addr,
    effective_address s idx = Some (sel, addr) -> mapped (m_pMemoryStream s) sel addr n ->
    Diana_ProcessorSetGetOperand_index (usedSize (linked_op (m_result s) i)) v true idx
      (tw f true (pszon s)) =
    (Ok v, tw (set_psz n v f) true
             (put_memory sel addr (usedSize (linked_op (m_result s) i)) v (seg_reg idx) s))).
  { intros idx sel addr EA M. unfold Diana_ProcessorSetGetOperand_index.
    rewrite (bind_run _ _ _ _ _ (CalcIndex_run idx s _ _ EA (same_core_pszon f true s))).
    rewrite bind_gets. change (m_stateFlags (tw f true (pszon s))) with (m_stateFlags (pszon s)).
    rewrite has_pszon, when_true, U.
    rewrite (bind_run _ _ _ _ _ (UpdatePSZ_pszon n v f true s Hn Hf P Hv)).
    rewrite (bind_run _ _ _ _ _
      (SetMemValue_tw _ _ _ v (seg_reg idx) _ _ s (wf_stream s W) Np M)). reflexivity. }
  destruct (value (linked_op (m_result s) i)); try contradiction.
  - destruct D as (G & <-). rewrite !bind_bind.
    rewrite (bind_run _ _ _ _ _ (SetGet_register_pszon _ v f true s W Hf G)), !bind_ret.
    now apply pszon_clear.
  - destruct D as (sel & addr & EA & M). rewrite EA in *. rewrite !bind_bind.
    rewrite (bind_run _ _ _ _ _ (Mem _ _ _ EA M)), !bind_ret. now apply pszon_off.
  - destruct D as (sel & addr & EA & M). rewrite EA in *. rewrite !bind_bind.
    rewrite (bind_run _ _ _ _ _ (Mem _ _ _ EA M)), !bind_ret. now apply pszon_off.
Qed.
End OperandRules.
