(* ===== verification/Rules.v ===== *)
(** The rules that handlers share: sign extension of a short source, the clearing of a 64-bit
    parent before a 32-bit result, and [Call]. *)

From Stdlib Require Import ZArith Lia List Bool.
Import ListNotations.
From S2P Require Import Prelude Words Status Registers ProcStreams Processor CmdInternal.
From S2P Require Import CmdString ProcessorInit State Exec Operands.
Local Open Scope Z_scope.
Local Open Scope diana_scope.

(** ** Sign extension *)

(** The [m]-byte number [x] as a number of [n] bytes. *)
Definition sign_extend (m n x : Z) : Z := signed m x mod modulus n.

Lemma signed_u64 m x : opsize m -> 0 <= x < modulus m ->
  (if m =? 1 then u64 (s8 x) else if m =? 2 then u64 (s16 x)
   else if m =? 4 then u64 (s32 x) else x) = u64 (signed m x).
Proof.
  intros Hm Hx. opsize_cases Hm; cbn [Z.eqb Pos.eqb].
  4: { symmetry. apply (signed_mod 8); [lia|exact Hx]. }
  all: f_equal; unfold s8, s16, s32, u8, u16, u32, signed; wsimp; cbv zeta;
    now rewrite Z.mod_small by exact Hx.
Qed.

Lemma SignExtend_spec x m n : opsize m -> opsize n -> 0 <= x < modulus m ->
  DianaProcessor_SignExtend x m n = Some (sign_extend m n x).
Proof.
  intros Hm Hn Hx. pose proof (opsize_pos m Hm). unfold DianaProcessor_SignExtend, sign_extend.
  destruct (Z.eqb_spec m n) as [->|N]; [now rewrite signed_mod by (assumption || lia)|].
  pose proof (signed_u64 m x Hm Hx) as E.
  assert (E2 : (if m =? 1 then Some (u64 (s8 x)) else if m =? 2 then Some (u64 (s16 x))
            else if m =? 4 then Some (u64 (s32 x)) else if m =? 8 then Some x else None)
          = Some (u64 (signed m x))).
  { rewrite <- E. opsize_cases Hm; reflexivity. }
  rewrite E2, CutValue_mod, u64_mod by (assumption || apply u64_range). reflexivity.
Qed.

Lemma sign_extend_range m n x : opsize n -> 0 <= sign_extend m n x < modulus n.
Proof.
  intros Hn. apply Z.mod_pos_bound. apply modulus_pos. pose proof (opsize_pos n Hn). lia.
Qed.

Lemma sign_extend_same n x : opsize n -> 0 <= x < modulus n -> sign_extend n n x = x.
Proof. intros Hn Hx. apply signed_mod; [pose proof (opsize_pos n Hn); lia|exact Hx]. Qed.

(** Sign extension keeps the signed value. *)
Lemma signed_sign_extend m n x : opsize m -> opsize n -> m <= n -> 0 <= x < modulus m ->
  signed n (sign_extend m n x) = signed m x.
Proof.
  intros Hm Hn Hle Hx. unfold sign_extend.
  pose proof (opsize_pos m Hm). pose proof (opsize_pos n Hn).
  pose proof (signed_range m x ltac:(lia) Hx) as R.
  assert (Hh : half m <= half n) by (unfold half; apply Z.pow_le_mono_r; lia).
  pose proof (modulus_half n ltac:(lia)) as M. pose proof (half_pos m ltac:(lia)).
  unfold signed at 1. destruct (Z.ltb_spec (signed m x) 0).
  - replace (signed m x mod modulus n) with (signed m x + modulus n)
      by (apply Z.mod_unique with (-1); lia).
    destruct (Z.ltb_spec (signed m x + modulus n) (half n)); lia.
  - rewrite Z.mod_small by lia. destruct (Z.ltb_spec (signed m x) (half n)); lia.
Qed.

Lemma le_encode_modulus n v : opsize n ->
  le_encode (Z.to_nat n) (v mod modulus n) = le_encode (Z.to_nat n) v.
Proof.
  intros Hn. pose proof (opsize_pos n Hn). unfold modulus.
  replace (8 * n) with (8 * Z.of_nat (Z.to_nat n)) by lia. apply le_encode_mod.
Qed.

Section Shared.
Context {T : Type} `{RandomStreamOk T}.
Implicit Types s : DianaProcessor T.

Lemma DI_SIGN_EXTEND_run x m n s : opsize m -> opsize n -> 0 <= x < modulus m ->
  DI_SIGN_EXTEND x m n s = (Ok (sign_extend m n x), s).
Proof. intros Hm Hn Hx. unfold DI_SIGN_EXTEND. now rewrite SignExtend_spec. Qed.

(** ** Only the low bytes of a value are stored *)

Lemma put_low_mod r n v s : opsize n -> put_low r n (v mod modulus n) s = put_low r n v s.
Proof.
  intros Hn. unfold put_low. rewrite Z.mod_mod; [reflexivity|].
  pose proof (modulus_pos n ltac:(pose proof (opsize_pos n Hn); lia)). lia.
Qed.

Lemma put_memory_mod sel addr n v seg s : opsize n ->
  put_memory sel addr n (v mod modulus n) seg s = put_memory sel addr n v seg s.
Proof.
  intros Hn. unfold put_memory, with_pMemoryStream. now rewrite le_encode_modulus.
Qed.

Lemma put_operand_mod i v n s : writes s i n ->
  put_operand i (v mod modulus n) s = put_operand i v s.
Proof.
  intros (_ & Hn & U & D). unfold put_operand.
  destruct (value (linked_op (m_result s) i)); try reflexivity.
  - destruct D as (_ & <-). apply put_low_mod. exact Hn.
  - destruct (effective_address s rmIndex) as [[sel addr]|]; [|reflexivity].
    rewrite U. now apply put_memory_mod.
  - destruct (effective_address s m_index) as [[sel addr]|]; [|reflexivity].
    rewrite U. now apply put_memory_mod.
Qed.

Lemma put_operand_u64 i v n s : writes s i n -> put_operand i (u64 v) s = put_operand i v s.
Proof.
  intros W. pose proof W as (_ & Hn & _).
  rewrite <- (put_operand_mod i (u64 v) n s W), u64_mod by exact Hn. now apply put_operand_mod.
Qed.

Lemma set_psz_mod n v f : opsize n -> set_psz n (v mod modulus n) f = set_psz n v f.
Proof.
  intros Hn. pose proof (opsize_pos n Hn). unfold set_psz.
  rewrite is_negative_mod by lia. f_equal.
  - rewrite <- (even_parity_u8 (v mod modulus n)), <- (even_parity_u8 v). f_equal.
    unfold u8. opsize_cases Hn; wsimp.
    + apply Z.mod_mod. lia.
    + apply (mod_mod_mul v 0x100 0x100); lia.
    + apply (mod_mod_mul v 0x100 0x1000000); lia.
    + apply (mod_mod_mul v 0x100 0x100000000000000); lia.
  - unfold is_zero. rewrite Z.mod_mod; [reflexivity|].
    pose proof (modulus_pos n ltac:(lia)). lia.
Qed.

Lemma set_psz_u64 n v f : opsize n -> set_psz n (u64 v) f = set_psz n v f.
Proof.
  intros Hn. rewrite <- (set_psz_mod n (u64 v) f Hn), u64_mod by exact Hn. now apply set_psz_mod.
Qed.

(** ** [Di_CheckZeroExtends] *)

(** The instruction is not one of those that sign-extend their result to 64 bits, or the
    extension does nothing. *)
Definition plain_result s (m : Z) : Prop :=
  iAMD64Mode (m_context s) = 0 \/ m = 8 \/ iCurrentCmd_opsize (m_context s) <> 8 \/
  has (pInfo_flags (m_result s)) DI_FLAG_CMD_AMD64_SIGN_EXTENDS = false.

(** [s1] is [s], or [s] with the 64-bit parent of register operand [i] cleared: a store to the
    operand makes no difference between the two. *)
Record zeroed (i n : Z) s s1 : Prop := {
  z_wf : wf s1;
  z_psz : psz_clear s1;
  z_idle : idle s -> idle s1;
  z_writes : writes s1 i n;
  z_put : forall w, put_operand i w s1 = put_operand i w s
}.

Lemma zeroed_refl i n s : wf s -> psz_clear s -> writes s i n -> zeroed i n s s.
Proof. intros. constructor; auto. Qed.

Lemma CheckZeroExtends_tw i v m n f b s :
  wf s -> flag_word f -> psz_clear s -> writes s i n -> plain_result s m ->
  exists s1, Di_CheckZeroExtends_operand i v m (tw f b s) = (Ok v, tw f b s1) /\
    zeroed i n s s1.
Proof.
  intros W Hf P Wr Pl. unfold Di_CheckZeroExtends_operand, context, result. rewrite !bind_gets.
  change (m_context (tw f b s)) with (m_context s). change (m_result (tw f b s)) with (m_result s).
  assert (R : exists s1, ret v (tw f b s) = (Ok v, tw f b s1) /\ zeroed i n s s1)
    by (exists s; split; [reflexivity|now apply zeroed_refl]).
  unfold plain_result in Pl.
  destruct (Z.eqb_spec (iAMD64Mode (m_context s)) 0) as [|A]; [exact R|].
  destruct (Z.eqb_spec m 8) as [|M8]; [exact R|].
  destruct (Z.eqb_spec (iCurrentCmd_opsize (m_context s)) 8) as [O8|O8].
  { destruct (has _ _); [|exact R]. destruct Pl as [E|[E|[E|E]]]; congruence. }
  destruct (Z.eqb_spec (iCurrentCmd_opsize (m_context s)) 4) as [O4|O4]; [|exact R].
  pose proof Wr as (Hi & Hn & U & D).
  destruct (value (linked_op (m_result s) i)) eqn:V; try exact R.
  cbn [is_register].
  destruct (DianaProcessor_Query64RegisterFor32 recognizedRegister) as [r64|] eqn:Q; [|exact R].
  destruct D as (G & S4). pose proof (int_regs_ok _ (gprs_int _ G)) as IR.
  pose proof (ir_query64 _ IR) as Q64. rewrite Q in Q64. destruct Q64 as (Wd & G64 & O & S8).
  exists (put_register r64 0 s). split.
  - now rewrite (bind_run _ _ _ _ _ (SET_REG_tw r64 0 f b s W Hf ltac:(auto with diana)
                                       (gpr_not_rip r64 G64) P)).
  - constructor.
    + auto with diana.
    + exact P.
    + intros I. exact I.
    + unfold writes. change (m_result (put_register r64 0 s)) with (m_result s). rewrite V. auto.
    + intros w. unfold put_operand. change (m_result (put_register r64 0 s)) with (m_result s).
      rewrite V. now apply put_register_after.
Qed.

(** The 64-bit register whose upper half [Di_ClearUpperHalf] clears. *)
Definition upper_half_of s : option Z :=
  if (iAMD64Mode (m_context s) =? 0) || negb (iCurrentCmd_opsize (m_context s) =? 4) ||
     (iLinkedOpCount (m_result s) =? 0) then None
  else
    match value (linked_op (m_result s) 0) with
    | diana_register r => DianaProcessor_Query64RegisterFor32 r
    | _ => None
    end.

Definition clear_upper s : DianaProcessor T :=
  match upper_half_of s with
  | Some r64 => put_register r64 (Z.land (rval s r64) 0xFFFFFFFF) s
  | None => s
  end.

Lemma ClearUpperHalf_tw n f b s :
  wf s -> flag_word f -> psz_clear s -> writes s 0 n ->
  Di_ClearUpperHalf (tw f b s) = (Ok tt, tw f b (clear_upper s)) /\ zeroed 0 n s (clear_upper s).
Proof.
  intros W Hf P Wr. unfold Di_ClearUpperHalf, context, result. rewrite !bind_gets.
  change (m_context (tw f b s)) with (m_context s). change (m_result (tw f b s)) with (m_result s).
  assert (R : (Ok tt, tw f b s) = (@Ok unit tt, tw f b s) /\ zeroed 0 n s s)
    by (split; [reflexivity|now apply zeroed_refl]).
  pose proof Wr as (Hi & Hn & U & D). unfold clear_upper, upper_half_of.
  destruct (Z.eqb_spec (iAMD64Mode (m_context s)) 0) as [|A];
    [destruct (value (linked_op (m_result s) 0)); exact R|].
  destruct (negb (iCurrentCmd_opsize (m_context s) =? 4));
    [destruct (value (linked_op (m_result s) 0)); exact R|].
  destruct (iLinkedOpCount (m_result s) =? 0);
    [destruct (value (linked_op (m_result s) 0)); exact R|]. cbn [orb].
  destruct (value (linked_op (m_result s) 0)) eqn:V; cbn [is_register]; try exact R.
  destruct (DianaProcessor_Query64RegisterFor32 recognizedRegister) as [r64|] eqn:Q; [|exact R].
  destruct D as (G & S4). pose proof (int_regs_ok _ (gprs_int _ G)) as IR.
  pose proof (ir_query64 _ IR) as Q64. rewrite Q in Q64. destruct Q64 as (Wd & G64 & O & S8).
  rewrite (bind_run _ _ _ _ _ (GET_REG_tw r64 f b s W Hf ltac:(auto with diana))). split.
  - apply (SET_REG_tw r64 _ f b s W Hf ltac:(auto with diana) (gpr_not_rip r64 G64) P).
  - constructor.
    + auto with diana.
    + exact P.
    + intros I. exact I.
    + unfold writes. change (m_result (put_register r64 _ s)) with (m_result s). rewrite V. auto.
    + intros w. unfold put_operand. change (m_result (put_register r64 _ s)) with (m_result s).
      rewrite V. now apply put_register_after.
Qed.

(** ** [Call] *)

Lemma Call_tw {A} (m : MP T A) s s' a f b :
  m (tw (m_flags s) false s) = (a, tw f b s') -> idle s' ->
  Call m s = (a, with_flags (fun _ => f) s').
Proof.
  intros E (I1 & I2). rewrite tw_id in E. unfold Call. rewrite E. f_equal.
  transitivity (tw f false s'); [|now destruct s'].
  destruct s'. cbn in *. subst. unfold tw, with_flags, with_stateFlags, with_stateFlagsToRemove.
  cbn. f_equal. destruct b.
  - apply negb_false_iff, Z.eqb_eq in I2. now apply land_lnot_clear.
  - apply Z.land_m1_r.
Qed.
End Shared.
