(* ===== verification/ArithProofs.v ===== *)
(** Correctness of the additions, subtractions and comparisons of CmdArith: the result, the six
    arithmetic flags, and nothing else. *)

From Stdlib Require Import ZArith Lia List Bool.
Import ListNotations.
From S2P Require Import Prelude Words Status Registers ProcStreams Processor CmdInternal.
From S2P Require Import CmdString CmdArith ProcessorInit State Exec Operands Rules.
Local Open Scope Z_scope.
Local Open Scope diana_scope.

Section ArithProofs.
Context {T : Type} `{RandomStreamOk T}.
Implicit Types s : DianaProcessor T.

(** A two-operand instruction of [n]-byte destination [d] and [m]-byte source [x]. *)
Record binary s (d n x m : Z) : Prop := {
  bi_wf : wf s;
  bi_idle : idle s;
  bi_dest : reads s 0 d n;
  bi_src : reads s 1 x m;
  bi_writes : writes s 0 n;
  bi_plain : plain_result s m
}.

Lemma reads_size s i v n : reads s i v n -> opsize n.
Proof. now intros (_ & Hn & _). Qed.

Lemma reads_range s i v n : reads s i v n -> 0 <= v < modulus n.
Proof. now intros (_ & _ & Hv). Qed.

(** The handlers end with the flags of [dest] and its store. *)
Lemma store_result s s1 n v f b :
  zeroed 0 n s s1 -> flag_word f -> idle s ->
  DI_UPDATE_FLAGS_PSZ (DI_MEM_SET_DEST (u64 v)) (tw f b s1) =
  (Ok tt, tw (set_psz n v f) true (put_operand 0 (v mod modulus n) s)).
Proof.
  intros Zr Hf I. destruct Zr as [W P I1 Wr E]. pose proof Wr as (_ & Hn & _).
  unfold DI_MEM_SET_DEST. rewrite (SET_PSZ_tw 0 (u64 v) n f b s1 W Hf P Wr (u64_range v)).
  rewrite set_psz_u64 by exact Hn. rewrite (put_operand_u64 0 v n s1 Wr).
  rewrite <- (put_operand_mod 0 v n s1 Wr). now rewrite E.
Qed.

(** The common start of the two-operand handlers: both operands read, the source extended. *)
Lemma binary_start {A} s d n x m (k : Z -> Z -> Z -> Z -> MP T A) :
  binary s d n x m ->
  (let! (dest, dest_size) := DI_MEM_GET_DEST in
   let! (src, src_size) := DI_MEM_GET_SRC in
   let! src := DI_SIGN_EXTEND src src_size dest_size in
   k dest dest_size src src_size) (tw (m_flags s) false s) =
  k d n (sign_extend m n x) m (tw (m_flags s) false s).
Proof.
  intros [W I Rd Rx Wr Pl].
  rewrite (bind_run _ _ _ _ _ (DI_MEM_GET_DEST_tw s d n _ _ W Rd)).
  rewrite (bind_run _ _ _ _ _ (DI_MEM_GET_SRC_tw s x m _ _ W Rx)).
  now rewrite (bind_run _ _ _ _ _ (DI_SIGN_EXTEND_run x m n _ (reads_size _ _ _ _ Rx)
             (reads_size _ _ _ _ Rd) (reads_range _ _ _ _ Rx))).
Qed.

(** The common end: [coa] is a rule for the carry flags. *)
Lemma coa_end (coa : MP T unit) s s1 n v f g b :
  zeroed 0 n s s1 -> idle s -> flag_word g ->
  coa (tw f b s1) = (Ok tt, tw g b s1) ->
  (coa ;;; DI_UPDATE_FLAGS_PSZ (DI_MEM_SET_DEST (u64 v))) (tw f b s1) =
  (Ok tt, tw (set_psz n v g) true (put_operand 0 (v mod modulus n) s)).
Proof.
  intros Zr I Hg E. rewrite (bind_run _ _ _ _ _ E). now apply store_result.
Qed.

(** [add]: the destination gets the sum, CF, OF and AF the carries out of the top bit, out of
    the signed range and out of the low four bits, PF, ZF and SF describe the sum. *)
Lemma add_run s d n x m :
  binary s d n x m ->
  Call Diana_Call_add s =
  (Ok tt,
   let y := sign_extend m n x in
   with_flags
     (fun _ => set_psz n (d + y)
        (set_coa (add_CF n d y 0) (add_OF n d y 0) (add_AF d y 0) (m_flags s)))
     (put_operand 0 ((d + y) mod modulus n) s)).
Proof.
  intros B. pose proof B as [W I Rd Rx Wr Pl]. cbv zeta. set (y := sign_extend m n x).
  pose proof (reads_size _ _ _ _ Rd) as Hn. pose proof (reads_range _ _ _ _ Rd) as Hd.
  pose proof (sign_extend_range m n x Hn) as Hy. fold y in Hy.
  eapply Call_tw; [|now apply idle_put_operand].
  unfold Diana_Call_add. rewrite (binary_start s d n x m _ B). fold y.
  rewrite (bind_run _ _ _ _ _ (START_COA_tw _ _ s (wf_flag_word s W))).
  destruct (CheckZeroExtends_tw 0 (u64 (d + y)) m n
              (set_coa false false false (m_flags s)) false s) as (s1 & E & Zr);
    eauto using idle_psz_clear with diana.
  unfold Di_CheckZeroExtends. rewrite (bind_run _ _ _ _ _ E).
  eapply coa_end; eauto with diana. now apply SetCOA_Add_tw.
Qed.

Lemma sub_run s d n x m :
  binary s d n x m ->
  Call Diana_Call_sub s =
  (Ok tt,
   let y := sign_extend m n x in
   with_flags
     (fun _ => set_psz n (d - y)
        (set_coa (sub_CF d y 0) (sub_OF n d y 0) (sub_AF d y 0) (m_flags s)))
     (put_operand 0 ((d - y) mod modulus n) s)).
Proof.
  intros B. pose proof B as [W I Rd Rx Wr Pl]. cbv zeta. set (y := sign_extend m n x).
  pose proof (reads_size _ _ _ _ Rd) as Hn. pose proof (reads_range _ _ _ _ Rd) as Hd.
  pose proof (sign_extend_range m n x Hn) as Hy. fold y in Hy.
  eapply Call_tw; [|now apply idle_put_operand].
  unfold Diana_Call_sub. rewrite (binary_start s d n x m _ B). fold y.
  rewrite (bind_run _ _ _ _ _ (START_COA_tw _ _ s (wf_flag_word s W))).
  destruct (CheckZeroExtends_tw 0 (u64 (d - y)) m n
              (set_coa false false false (m_flags s)) false s) as (s1 & E & Zr);
    eauto using idle_psz_clear with diana.
  unfold Di_CheckZeroExtends. rewrite (bind_run _ _ _ _ _ E).
  eapply coa_end; eauto with diana. now apply SetCOA_Sub_tw.
Qed.

(** The carry as a number. *)
Definition carry_in (f : Z) : Z := Z.b2z (Z.testbit f CF).

Lemma u64_add_r a b : u64 (a + u64 b) = u64 (a + b).
Proof. apply Z.add_mod_idemp_r. lia. Qed.

Lemma u64_sub_r a b : u64 (a - u64 b) = u64 (a - b).
Proof. apply Zminus_mod_idemp_r. Qed.

Lemma adc_run s d n x m :
  binary s d n x m ->
  Call Diana_Call_adc s =
  (Ok tt,
   let y := sign_extend m n x in
   let c := carry_in (m_flags s) in
   with_flags
     (fun _ => set_psz n (d + y + c)
        (set_coa (add_CF n d y c) (add_OF n d y c) (add_AF d y c) (m_flags s)))
     (put_operand 0 ((d + y + c) mod modulus n) s)).
Proof.
  intros B. pose proof B as [W I Rd Rx Wr Pl]. cbv zeta. set (y := sign_extend m n x).
  pose proof (reads_size _ _ _ _ Rd) as Hn. pose proof (reads_range _ _ _ _ Rd) as Hd.
  pose proof (sign_extend_range m n x Hn) as Hy. fold y in Hy.
  eapply Call_tw; [|now apply idle_put_operand].
  unfold Diana_Call_adc. rewrite (binary_start s d n x m _ B). fold y.
  rewrite (bind_run _ _ _ _ _ (GET_CF_tw _ _ s)). fold (carry_in (m_flags s)).
  rewrite (bind_run _ _ _ _ _ (START_COA_tw _ _ s (wf_flag_word s W))).
  rewrite u64_add_r, Z.add_assoc.
  destruct (CheckZeroExtends_tw 0 (u64 (d + y + carry_in (m_flags s))) m n
              (set_coa false false false (m_flags s)) false s) as (s1 & E & Zr);
    eauto using idle_psz_clear with diana.
  unfold Di_CheckZeroExtends. rewrite (bind_run _ _ _ _ _ E).
  eapply coa_end; eauto with diana. unfold carry_in.
  destruct (Z.testbit (m_flags s) CF); cbn [Z.b2z Z.eqb].
  - now apply SetCOA_AddCF_tw.
  - rewrite Z.add_0_r. now apply SetCOA_Add_tw.
Qed.

Lemma sbb_run s d n x m :
  binary s d n x m ->
  Call Diana_Call_sbb s =
  (Ok tt,
   let y := sign_extend m n x in
   let c := carry_in (m_flags s) in
   with_flags
     (fun _ => set_psz n (d - y - c)
        (set_coa (sub_CF d y c) (sub_OF n d y c) (sub_AF d y c) (m_flags s)))
     (put_operand 0 ((d - y - c) mod modulus n) s)).
Proof.
  intros B. pose proof B as [W I Rd Rx Wr Pl]. cbv zeta. set (y := sign_extend m n x).
  pose proof (reads_size _ _ _ _ Rd) as Hn. pose proof (reads_range _ _ _ _ Rd) as Hd.
  pose proof (sign_extend_range m n x Hn) as Hy. fold y in Hy.
  eapply Call_tw; [|now apply idle_put_operand].
  unfold Diana_Call_sbb. rewrite (binary_start s d n x m _ B). fold y.
  rewrite (bind_run _ _ _ _ _ (GET_CF_tw _ _ s)). fold (carry_in (m_flags s)).
  rewrite (bind_run _ _ _ _ _ (START_COA_tw _ _ s (wf_flag_word s W))).
  rewrite u64_sub_r, Z.sub_add_distr.
  destruct (CheckZeroExtends_tw 0 (u64 (d - y - carry_in (m_flags s))) m n
              (set_coa false false false (m_flags s)) false s) as (s1 & E & Zr);
    eauto using idle_psz_clear with diana.
  unfold Di_CheckZeroExtends. rewrite (bind_run _ _ _ _ _ E).
  eapply coa_end; eauto with diana. unfold carry_in.
  destruct (Z.testbit (m_flags s) CF); cbn [Z.b2z Z.eqb].
  - now apply SetCOA_SubCF_tw.
  - rewrite Z.sub_0_r. now apply SetCOA_Sub_tw.
Qed.

(** ** [cmp]: a subtraction without its store *)

Record compares s (d n x m : Z) : Prop := {
  co_wf : wf s;
  co_idle : idle s;
  co_dest : reads s 0 d n;
  co_src : reads s 1 x m
}.

Lemma reads_usedSize s i v n : reads s i v n -> usedSize (linked_op (m_result s) i) = n.
Proof.
  intros (E & _). unfold operand, DI_MEM_GET, DianaProcessor_SetGetOperand, result in E.
  rewrite bind_gets in E.
  destruct ((iLinkedOpCount (m_result s) <=? i) || (i <? 0)); [discriminate|].
  match type of E with
  | match bind ?m ?k s with _ => _ end = _ =>
      destruct (bind m k s) as [[p| |] s'] eqn:B; try discriminate;
      destruct (bind_ok_inv m k s p s' B) as (a & s1 & _ & X)
  end.
  unfold ret in X. injection X as <- _. now injection E as _ ->.
Qed.

Lemma cmp_run s d n x m :
  compares s d n x m ->
  Call Diana_Call_cmp s =
  (Ok tt,
   let y := sign_extend m n x in
   with_flags
     (fun _ => set_psz n (d - y)
        (set_coa (sub_CF d y 0) (sub_OF n d y 0) (sub_AF d y 0) (m_flags s))) s).
Proof.
  intros [W I Rd Rx]. cbv zeta. set (y := sign_extend m n x).
  pose proof (reads_size _ _ _ _ Rd) as Hn. pose proof (reads_range _ _ _ _ Rd) as Hd.
  pose proof (sign_extend_range m n x Hn) as Hy. fold y in Hy.
  eapply (Call_tw _ _ _ _ _ false); [|exact I]. unfold Diana_Call_cmp.
  rewrite (bind_run _ _ _ _ _ (DI_MEM_GET_DEST_tw s d n _ _ W Rd)).
  rewrite (bind_run _ _ _ _ _ (DI_MEM_GET_SRC_tw s x m _ _ W Rx)).
  rewrite (bind_run _ _ _ _ _ (DI_SIGN_EXTEND_run x m n _ (reads_size _ _ _ _ Rx)
             (reads_size _ _ _ _ Rd) (reads_range _ _ _ _ Rx))). fold y.
  rewrite (bind_run _ _ _ _ _ (START_COA_tw _ _ s (wf_flag_word s W))).
  rewrite (bind_run _ _ _ _ _ (SetCOA_Sub_tw n d y Hn Hd Hy _ _ s)).
  unfold result. rewrite bind_gets.
  change (m_result (tw ?f ?b s)) with (m_result s). rewrite (reads_usedSize s 0 d n Rd).
  rewrite UpdatePSZ_tw by eauto using idle_psz_clear, u64_range with diana.
  now rewrite set_psz_u64.
Qed.

(** ** One operand *)

Record unary s (d n : Z) : Prop := {
  un_wf : wf s;
  un_idle : idle s;
  un_dest : reads s 0 d n;
  un_writes : writes s 0 n
}.

Lemma one_range n : opsize n -> 0 <= 1 < modulus n.
Proof. intros Hn. opsize_cases Hn; wsimp; lia. Qed.

Lemma inc_run s d n :
  unary s d n ->
  Call Diana_Call_inc s =
  (Ok tt,
   with_flags
     (fun _ => set_psz n (d + 1) (set_oa (add_OF n d 1 0) (add_AF d 1 0) (m_flags s)))
     (put_operand 0 ((d + 1) mod modulus n) s)).
Proof.
  intros [W I Rd Wr].
  pose proof (reads_size _ _ _ _ Rd) as Hn. pose proof (reads_range _ _ _ _ Rd) as Hd.
  eapply Call_tw; [|now apply idle_put_operand]. unfold Diana_Call_inc.
  rewrite (bind_run _ _ _ _ _ (DI_MEM_GET_DEST_tw s d n _ _ W Rd)).
  rewrite (bind_run _ _ _ _ _ (START_OA_tw _ _ s (wf_flag_word s W))).
  eapply coa_end; eauto using zeroed_refl, idle_psz_clear with diana.
  apply SetOA_Add_tw; auto using one_range.
Qed.

Lemma dec_run s d n :
  unary s d n ->
  Call Diana_Call_dec s =
  (Ok tt,
   with_flags
     (fun _ => set_psz n (d - 1) (set_oa (sub_OF n d 1 0) (sub_AF d 1 0) (m_flags s)))
     (put_operand 0 ((d - 1) mod modulus n) s)).
Proof.
  intros [W I Rd Wr].
  pose proof (reads_size _ _ _ _ Rd) as Hn. pose proof (reads_range _ _ _ _ Rd) as Hd.
  eapply Call_tw; [|now apply idle_put_operand]. unfold Diana_Call_dec.
  rewrite (bind_run _ _ _ _ _ (DI_MEM_GET_DEST_tw s d n _ _ W Rd)).
  rewrite (bind_run _ _ _ _ _ (START_OA_tw _ _ s (wf_flag_word s W))).
  eapply coa_end; eauto using zeroed_refl, idle_psz_clear with diana.
  apply SetOA_Sub_tw; auto using one_range.
Qed.

Lemma neg_run s d n :
  unary s d n ->
  Call Diana_Call_neg s =
  (Ok tt,
   with_flags
     (fun _ => set_psz n (0 - d)
        (set_coa (sub_CF 0 d 0) (sub_OF n 0 d 0) (sub_AF 0 d 0) (m_flags s)))
     (put_operand 0 ((0 - d) mod modulus n) s)).
Proof.
  intros [W I Rd Wr].
  pose proof (reads_size _ _ _ _ Rd) as Hn. pose proof (reads_range _ _ _ _ Rd) as Hd.
  assert (H0n : 0 <= 0 < modulus n) by (pose proof (one_range n Hn); lia).
  eapply Call_tw; [|now apply idle_put_operand]. unfold Diana_Call_neg.
  rewrite (bind_run _ _ _ _ _ (DI_MEM_GET_DEST_tw s d n _ _ W Rd)).
  rewrite (bind_run _ _ _ _ _ (START_OA_tw _ _ s (wf_flag_word s W))).
  rewrite (bind_run _ _ _ _ _ (SetOA_Sub_tw n 0 d Hn H0n Hd _ _ s)).
  assert (Fw : flag_word (set_oa (sub_OF n 0 d 0) (sub_AF 0 d 0) (m_flags s)))
    by eauto with diana.
  rewrite (bind_run _ _ _ _ _ (store_result s s n (0 - d) _ _
             (zeroed_refl 0 n s W (idle_psz_clear s I) Wr) Fw I)).
  rewrite (bind_run _ _ _ _ _ (CLEAR_CF_tw _ _ _ (flag_word_psz n (0 - d) _ Fw))).
  erewrite when_tw by final. do 2 f_equal. unfold set_coa, sub_CF.
  assert (E : negb (d =? 0) = (0 <? d + 0)) by (zcases; cbn; lia || reflexivity). rewrite E.
  unfold set_psz, set_oa. destruct (0 <? d + 0); flags_ext.
Qed.
End ArithProofs.
