(* ===== verification/Loops.v ===== *)
(** The loops of the arithmetic: the 128-bit routines of diana_processor_cmd_internal.c compute exact
    products and quotients, and the bit-by-bit loops of the shifts and rotations powers of two and
    rotations described bit by bit. *)

From Stdlib Require Import ZArith Lia List Bool.
Import ListNotations.
From S2P Require Import Prelude Words Status Registers ProcStreams Processor CmdInternal CmdLogic.
From S2P Require Import State Exec.
Local Open Scope Z_scope.
Local Open Scope diana_scope.

(** ** Rotations

    [rotate b c x] is the [b]-bit number [x] rotated left by [c]; a negative [c] rotates right. *)

Definition rotate (b c x : Z) : Z :=
  (x * 2 ^ (c mod b)) mod 2 ^ b + x / 2 ^ (b - c mod b).

Lemma mul_add_bits a k y i : 0 <= k -> 0 <= y < 2 ^ k ->
  Z.testbit (a * 2 ^ k + y) i = if i <? k then Z.testbit y i else Z.testbit a (i - k).
Proof.
  intros Hk Hy. destruct (Z.ltb_spec i k).
  - destruct (Z.ltb_spec i 0); [now rewrite !Z.testbit_neg_r by lia|].
    apply testbit_low_part. lia.
  - apply testbit_high_part; lia.
Qed.

Lemma rotate_split b c x : 0 < b -> 0 <= x < 2 ^ b ->
  let k := c mod b in
  rotate b c x = (x mod 2 ^ (b - k)) * 2 ^ k + x / 2 ^ (b - k) /\ 0 <= x / 2 ^ (b - k) < 2 ^ k.
Proof.
  intros Hb Hx. cbv zeta. pose proof (Z.mod_pos_bound c b Hb) as Hk. set (k := c mod b) in *.
  assert (P : 2 ^ b = 2 ^ (b - k) * 2 ^ k) by (rewrite <- Z.pow_add_r by lia; f_equal; lia).
  pose proof (Z.pow_pos_nonneg 2 k ltac:(lia) ltac:(lia)).
  pose proof (Z.pow_pos_nonneg 2 (b - k) ltac:(lia) ltac:(lia)).
  split.
  - unfold rotate. fold k. f_equal. rewrite P, Z.mul_mod_distr_r by lia. reflexivity.
  - split; [apply Z.div_pos; lia|]. apply Z.div_lt_upper_bound; [lia|]. now rewrite <- P.
Qed.

Lemma rotate_bits b c x i : 0 < b -> 0 <= x < 2 ^ b -> 0 <= i < b ->
  Z.testbit (rotate b c x) i = Z.testbit x ((i - c) mod b).
Proof.
  intros Hb Hx Hi. destruct (rotate_split b c x Hb Hx) as [-> R]. cbv zeta in R.
  pose proof (Z.mod_pos_bound c b Hb) as Hk.
  assert (E : (i - c) mod b = if i <? c mod b then i - c mod b + b else i - c mod b).
  { rewrite Zminus_mod, (Z.mod_small i) by lia. destruct (Z.ltb_spec i (c mod b)).
    - symmetry. apply Z.mod_unique with (-1); lia.
    - apply Z.mod_small. lia. }
  rewrite E, mul_add_bits by lia. destruct (Z.ltb_spec i (c mod b)).
  - rewrite Z.div_pow2_bits by lia. f_equal. lia.
  - now rewrite Z.mod_pow2_bits_low by lia.
Qed.

Lemma rotate_range b c x : 0 < b -> 0 <= x < 2 ^ b -> 0 <= rotate b c x < 2 ^ b.
Proof.
  intros Hb Hx. destruct (rotate_split b c x Hb Hx) as [-> R]. cbv zeta in R.
  pose proof (Z.mod_pos_bound c b Hb) as Hk. set (k := c mod b) in *.
  assert (P : 2 ^ b = 2 ^ (b - k) * 2 ^ k) by (rewrite <- Z.pow_add_r by lia; f_equal; lia).
  pose proof (Z.pow_pos_nonneg 2 (b - k) ltac:(lia) ltac:(lia)).
  pose proof (Z.mod_pos_bound x (2 ^ (b - k)) ltac:(lia)). nia.
Qed.

(** Two [b]-bit numbers are equal when their [b] low bits are. *)
Lemma bits_ext b x y : 0 <= b -> 0 <= x < 2 ^ b -> 0 <= y < 2 ^ b ->
  (forall i, 0 <= i < b -> Z.testbit x i = Z.testbit y i) -> x = y.
Proof.
  intros Hb Hx Hy E. apply Z.bits_inj'. intros i Hi. destruct (Z.ltb_spec i b); [now apply E|].
  now rewrite !(testbit_ge _ b) by lia.
Qed.

Lemma rotate_rotate b c d x : 0 < b -> 0 <= x < 2 ^ b ->
  rotate b c (rotate b d x) = rotate b (c + d) x.
Proof.
  intros Hb Hx. apply (bits_ext b); try lia; auto using rotate_range.
  intros i Hi. rewrite !rotate_bits; auto using rotate_range, Z.mod_pos_bound.
  f_equal. rewrite Zminus_mod_idemp_l. f_equal. lia.
Qed.

Lemma rotate_0 b x : 0 < b -> 0 <= x < 2 ^ b -> rotate b 0 x = x.
Proof.
  intros Hb Hx. apply (bits_ext b); auto using rotate_range; [lia|].
  intros i Hi. rewrite rotate_bits by lia. now rewrite Z.sub_0_r, Z.mod_small.
Qed.

(** Rotating right undoes rotating left. *)
Lemma rotate_inverse b c x : 0 < b -> 0 <= x < 2 ^ b -> rotate b (- c) (rotate b c x) = x.
Proof. intros Hb Hx. rewrite rotate_rotate by lia. rewrite Z.add_opp_diag_l. now apply rotate_0. Qed.

(** One step to the left and to the right. *)
Lemma rotate_left_1 b x : 0 < b -> 0 <= x < 2 ^ b ->
  rotate b 1 x = (2 * x + Z.b2z (Z.testbit x (b - 1))) mod 2 ^ b.
Proof.
  intros Hb Hx. apply (bits_ext b); auto using rotate_range; [lia|apply Z.mod_pos_bound; lia|].
  intros i Hi. rewrite rotate_bits by lia. rewrite Z.mod_pow2_bits_low by lia.
  destruct (Z.eq_dec i 0) as [->|N].
  - rewrite Z.add_comm, Z.add_b2z_double_bit0. f_equal. symmetry. apply Z.mod_unique with (-1); lia.
  - replace i with (Z.succ (i - 1)) at 2 by lia.
    rewrite Z.testbit_succ_r by lia. now rewrite Z.mod_small by lia.
Qed.

Lemma rotate_right_1 b x : 0 < b -> 0 <= x < 2 ^ b ->
  rotate b (-1) x = x / 2 + Z.b2z (Z.testbit x 0) * 2 ^ (b - 1).
Proof.
  intros Hb Hx.
  assert (P : 2 ^ b = 2 * 2 ^ (b - 1))
    by (rewrite <- Z.pow_succ_r by lia; f_equal; lia).
  assert (R : 0 <= x / 2 < 2 ^ (b - 1))
    by (split; [apply Z.div_pos; lia|apply Z.div_lt_upper_bound; lia]).
  assert (B : 0 <= Z.b2z (Z.testbit x 0) <= 1) by (destruct (Z.testbit x 0); cbn; lia).
  apply (bits_ext b); auto using rotate_range; [lia|nia|].
  intros i Hi. rewrite rotate_bits by lia. rewrite Z.add_comm, mul_add_bits by lia.
  destruct (Z.ltb_spec i (b - 1)).
  - change 2 with (2 ^ 1). rewrite Z.div_pow2_bits by lia. now rewrite Z.mod_small by lia.
  - replace i with (b - 1) by lia. rewrite Z.sub_diag.
    replace (b - 1 - -1) with (0 + 1 * b) by lia. rewrite Z.mod_add, Z.mod_small by lia.
    now destruct (Z.testbit x 0).
Qed.

(** ** Words that grow above the operand

    The loops keep the destination in 64 bits and only its low [8 * n] bits matter. *)

Definition low (n x : Z) : Z := x mod modulus n.

Lemma low_range n x : opsize n -> 0 <= low n x < modulus n.
Proof. intros Hn. apply Z.mod_pos_bound, modulus_pos. pose proof (opsize_pos n Hn). lia. Qed.

Lemma low_u64 n x : opsize n -> low n (u64 x) = low n x.
Proof. intros Hn. now apply u64_mod. Qed.

Lemma low_small n x : 0 <= x < modulus n -> low n x = x.
Proof. apply Z.mod_small. Qed.

Lemma low_testbit n x i : opsize n -> 0 <= i < 8 * n -> Z.testbit (low n x) i = Z.testbit x i.
Proof. intros Hn Hi. apply Z.mod_pow2_bits_low. lia. Qed.

Lemma low_double n x b : opsize n ->
  low n (u64 (u64 (Z.shiftl x 1) + b)) = (2 * low n x + b) mod modulus n.
Proof.
  intros Hn. rewrite low_u64 by assumption. unfold low.
  rewrite Z.shiftl_mul_pow2 by lia. change (2 ^ 1) with 2.
  rewrite <- (Z.add_mod_idemp_l (u64 _)), u64_mod, Z.add_mod_idemp_l.
  2, 4: pose proof (modulus_pos n ltac:(pose proof (opsize_pos n Hn); lia)); lia. 2: assumption.
  rewrite (Z.mul_comm x 2), <- (Z.add_mod_idemp_l (2 * (x mod _))), Z.mul_mod_idemp_r, Z.add_mod_idemp_l;
    try reflexivity; pose proof (modulus_pos n ltac:(pose proof (opsize_pos n Hn); lia)); lia.
Qed.

(** ** [rol] and [ror] *)

Lemma has_half_low n x : opsize n -> has (half n) x = Z.testbit (low n x) (8 * n - 1).
Proof.
  intros Hn. pose proof (opsize_pos n Hn).
  rewrite has_comm, has_half, low_testbit by (assumption || lia). symmetry. now apply sign_testbit.
Qed.

Lemma rol_loop_low n c : opsize n -> forall x,
  low n (rol_loop c (half n) x) = rotate (8 * n) (Z.of_nat c) (low n x).
Proof.
  intros Hn. pose proof (opsize_pos n Hn) as Hp.
  induction c as [|c IH]; intros x; cbn [rol_loop].
  - rewrite rotate_0; [reflexivity|lia|]. now apply low_range.
  - rewrite IH, has_half_low by assumption.
    replace (Z.of_nat (S c)) with (Z.of_nat c + 1) by lia.
    rewrite <- (rotate_rotate (8 * n) (Z.of_nat c) 1) by (try lia; now apply low_range). f_equal.
    rewrite rotate_left_1 by (try lia; now apply low_range). rewrite low_double by assumption.
    unfold modulus. destruct (Z.testbit (low n x) (8 * n - 1)); reflexivity.
Qed.

Lemma lor_disjoint a b : Z.land a b = 0 -> Z.lor a b = a + b.
Proof. intros E. rewrite <- Z.lxor_lor by assumption. symmetry. now apply Z.add_nocarry_lxor. Qed.

(** The low bit shifted out, a new bit [b] shifted in at the top. *)
Lemma shift_in_top n x b : opsize n -> 0 <= x < modulus n ->
  Z.lor (Z.shiftr x 1) (if b : bool then half n else 0) = x / 2 + Z.b2z b * half n.
Proof.
  intros Hn Hx. rewrite Z.shiftr_div_pow2 by lia. change (2 ^ 1) with 2.
  pose proof (opsize_pos n Hn). pose proof (modulus_half n ltac:(lia)) as M.
  assert (R : 0 <= x / 2 < half n)
    by (split; [apply Z.div_pos; lia|apply Z.div_lt_upper_bound; lia]).
  destruct b; cbn [Z.b2z]; [|now rewrite Z.lor_0_r, Z.mul_0_l, Z.add_0_r].
  rewrite Z.mul_1_l. apply lor_disjoint. unfold half in *.
  rewrite land_pow2 by lia. rewrite (testbit_ge _ (8 * n - 1)) by lia. reflexivity.
Qed.

Lemma has_1 x : has x 1 = Z.testbit x 0.
Proof. apply (has_pow2 x 0). lia. Qed.

Lemma ror_loop_rotate n c : opsize n -> forall x, 0 <= x < modulus n ->
  ror_loop c (half n) x = rotate (8 * n) (- Z.of_nat c) x.
Proof.
  intros Hn. pose proof (opsize_pos n Hn) as Hp.
  induction c as [|c IH]; intros x Hx; cbn [ror_loop].
  - rewrite rotate_0; [reflexivity|lia|exact Hx].
  - rewrite has_1, shift_in_top by assumption.
    assert (E : x / 2 + Z.b2z (Z.testbit x 0) * half n = rotate (8 * n) (-1) x)
      by (symmetry; apply rotate_right_1; [lia|exact Hx]).
    rewrite E, IH by (apply rotate_range; [lia|exact Hx]).
    rewrite rotate_rotate by (lia || exact Hx). f_equal. lia.
Qed.

(** ** The loops that keep CF up to date *)

Section FlagLoops.
Context {T : Type}.
Implicit Types s : DianaProcessor T.

Lemma set_CF_if (c : bool) f b s : flag_word f ->
  bind CLEAR_FLAG_CF (fun _ => when c SET_FLAG_CF) (tw f b s) =
  (Ok tt, tw (setf CF c f) b s).
Proof.
  intros Hf. step. erewrite when_tw by final. do 2 f_equal. destruct c; flags_ext.
Qed.

(** The same in the middle of a sequence. *)
Lemma set_CF_then {A} (c : bool) (k : MP T A) f b s : flag_word f ->
  (CLEAR_FLAG_CF ;;; when c SET_FLAG_CF ;;; k) (tw f b s) = k (tw (setf CF c f) b s).
Proof.
  intros Hf. rewrite <- bind_bind. now rewrite (bind_run _ _ _ _ _ (set_CF_if c f b s Hf)).
Qed.

(** CF after a loop of [c] rounds: untouched, or the last bit out. *)
Definition loop_CF (c : nat) (bit : bool) (f : Z) : Z :=
  match c with O => f | _ => setf CF bit f end.

Lemma flag_word_loop_CF c x f : flag_word f -> flag_word (loop_CF c x f).
Proof. destruct c; cbn; auto with diana. Qed.

Lemma shl_loop_tw n c : opsize n -> forall x f b s, 0 <= x -> flag_word f ->
  shl_loop c (half n) x (tw f b s) =
  (Ok (match c with O => x | _ => u64 (x * 2 ^ Z.of_nat c) end),
   tw (loop_CF c (Z.testbit x (8 * n - Z.of_nat c)) f) b s).
Proof.
  intros Hn. pose proof (opsize_pos n Hn) as Hp.
  induction c as [|c IH]; intros x f b s Hx Hf; cbn [shl_loop loop_CF]; [reflexivity|].
  rewrite set_CF_then by assumption. rewrite has_half by assumption.
  rewrite IH by (apply u64_range || auto with diana).
  rewrite Z.shiftl_mul_pow2 by lia. change (2 ^ 1) with 2.
  replace (Z.of_nat (S c)) with (Z.of_nat c + 1) by lia.
  rewrite Z.pow_add_r by lia. change (2 ^ 1) with 2.
  assert (V : match c with O => u64 (x * 2) | _ => u64 (u64 (x * 2) * 2 ^ Z.of_nat c) end =
              u64 (x * (2 ^ Z.of_nat c * 2))).
  { destruct c; [f_equal; change (2 ^ Z.of_nat 0) with 1; lia|].
    unfold u64. rewrite Z.mul_mod_idemp_l by lia. f_equal. ring. }
  rewrite V. f_equal. destruct c as [|c]; cbn [loop_CF].
  - rewrite <- sign_testbit by assumption. do 3 f_equal.
  - rewrite setf_setf by (unfold CF; lia). do 2 f_equal.
    destruct (Z.ltb_spec (8 * n - Z.of_nat (S c)) 1).
    + destruct (Z.ltb_spec (8 * n - Z.of_nat (S c)) 0).
      { now rewrite !Z.testbit_neg_r by lia. }
      replace (8 * n - Z.of_nat (S c)) with 0 by lia.
      replace (8 * n - (Z.of_nat (S c) + 1)) with (-1) by lia.
      unfold u64. change 0x10000000000000000 with (2 ^ 64).
      rewrite Z.mod_pow2_bits_low by lia. rewrite Z.mul_comm, Z.testbit_even_0.
      now rewrite Z.testbit_neg_r.
    + unfold u64. change 0x10000000000000000 with (2 ^ 64).
      rewrite Z.mod_pow2_bits_low by lia.
      replace (8 * n - Z.of_nat (S c)) with (Z.succ (8 * n - (Z.of_nat (S c) + 1))) at 1 by lia.
      rewrite Z.mul_comm. now rewrite Z.testbit_even_succ by lia.
Qed.

Lemma shr_loop_tw c : forall x f b s, flag_word f ->
  shr_loop c 0 x (tw f b s) =
  (Ok (x / 2 ^ Z.of_nat c), tw (loop_CF c (Z.testbit x (Z.of_nat c - 1)) f) b s).
Proof.
  induction c as [|c IH]; intros x f b s Hf; cbn [shr_loop loop_CF].
  { change (2 ^ Z.of_nat 0) with 1. now rewrite Z.div_1_r. }
  rewrite set_CF_then by assumption. rewrite has_1, Z.lor_0_r.
  rewrite IH by auto with diana. rewrite <- Z.shiftr_div_pow2, Z.shiftr_shiftr by lia.
  rewrite Z.shiftr_div_pow2 by lia. do 2 f_equal; [f_equal; f_equal; lia|].
  destruct c as [|c]; cbn [loop_CF]; [reflexivity|].
  rewrite setf_setf by (unfold CF; lia). rewrite Z.shiftr_spec by lia. do 2 f_equal. lia.
Qed.

(** [sar]: the operand as a signed number, divided and rounded down. *)
Lemma sar_step n x : opsize n -> - half n <= x < half n ->
  Z.lor (Z.shiftr (x mod modulus n) 1) (if x <? 0 then half n else 0) = (x / 2) mod modulus n.
Proof.
  intros Hn Hx. pose proof (opsize_pos n Hn). pose proof (modulus_half n ltac:(lia)) as M.
  pose proof (half_pos n ltac:(lia)) as Hh.
  rewrite (shift_in_top n _ (x <? 0)) by (auto; apply Z.mod_pos_bound; lia).
  assert (P2 : exists k, half n = 2 * k).
  { exists (2 ^ (8 * n - 2)). unfold half. rewrite <- Z.pow_succ_r by lia. f_equal. lia. }
  destruct P2 as [k P2].
  destruct (Z.ltb_spec x 0); cbn [Z.b2z].
  - rewrite <- (Z.mod_unique x (modulus n) (-1) (x + modulus n)) by lia.
    symmetry. rewrite M. replace (x + 2 * half n) with (x + half n * 2) by ring.
    rewrite Z.div_add by lia.
    symmetry. apply Z.mod_unique with (-1); Z.div_mod_to_equations; lia.
  - rewrite (Z.mod_small x) by lia. rewrite Z.mod_small; Z.div_mod_to_equations; lia.
Qed.

Lemma sar_loop_tw n c : opsize n -> forall x f b s, - half n <= x < half n -> flag_word f ->
  shr_loop c (if x <? 0 then half n else 0) (x mod modulus n) (tw f b s) =
  (Ok ((x / 2 ^ Z.of_nat c) mod modulus n),
   tw (loop_CF c (Z.testbit x (Z.of_nat c - 1)) f) b s).
Proof.
  intros Hn. pose proof (opsize_pos n Hn) as Hp. pose proof (half_pos n ltac:(lia)) as Hh.
  induction c as [|c IH]; intros x f b s Hx Hf; cbn [shr_loop loop_CF].
  { change (2 ^ Z.of_nat 0) with 1. now rewrite Z.div_1_r. }
  rewrite set_CF_then by assumption. rewrite has_1, sar_step by assumption.
  assert (Sg : (x <? 0) = (x / 2 <? 0)) by (zcases; Z.div_mod_to_equations; lia || reflexivity).
  rewrite Sg, IH by (auto with diana || Z.div_mod_to_equations; lia).
  rewrite Z.div_div by (try lia; apply Z.pow_pos_nonneg; lia).
  assert (E0 : Z.testbit (x mod modulus n) 0 = Z.testbit x 0)
    by (apply Z.mod_pow2_bits_low; lia).
  rewrite E0. do 2 f_equal.
  - f_equal. f_equal. rewrite <- Z.pow_succ_r by lia. f_equal. lia.
  - destruct c as [|c]; cbn [loop_CF]; [reflexivity|].
    rewrite setf_setf by (unfold CF; lia). f_equal. change 2 with (2 ^ 1).
    rewrite Z.div_pow2_bits by lia. f_equal. lia.
Qed.
End FlagLoops.

(** ** Rotations through the carry

    CF stands above the top bit of the operand. *)

Definition with_carry (n : Z) (c : bool) (x : Z) : Z := low n x + Z.b2z c * modulus n.

Lemma with_carry_range n c x : opsize n -> 0 <= with_carry n c x < 2 ^ (8 * n + 1).
Proof.
  intros Hn. pose proof (opsize_pos n Hn). pose proof (low_range n x Hn).
  rewrite Z.pow_add_r by lia. fold (modulus n). change (2 ^ 1) with 2. unfold with_carry.
  destruct c; cbn [Z.b2z]; lia.
Qed.

Lemma with_carry_low n c x : opsize n -> with_carry n c x mod modulus n = low n x.
Proof.
  intros Hn. pose proof (modulus_pos n ltac:(pose proof (opsize_pos n Hn); lia)).
  unfold with_carry. rewrite Z.mod_add by lia. apply Z.mod_small. now apply low_range.
Qed.

Lemma with_carry_top n c x : opsize n -> Z.testbit (with_carry n c x) (8 * n) = c.
Proof.
  intros Hn. pose proof (opsize_pos n Hn). unfold with_carry, modulus.
  rewrite Z.add_comm, mul_add_bits by (try lia; now apply low_range).
  rewrite Z.ltb_irrefl, Z.sub_diag. now destruct c.
Qed.

Lemma with_carry_testbit n c x i : opsize n -> 0 <= i < 8 * n ->
  Z.testbit (with_carry n c x) i = Z.testbit (low n x) i.
Proof.
  intros Hn Hi. rewrite <- (with_carry_low n c x Hn).
  unfold modulus. now rewrite Z.mod_pow2_bits_low by lia.
Qed.

Lemma rcl_step n c x : opsize n ->
  with_carry n (Z.testbit (low n x) (8 * n - 1))
    (u64 (u64 (Z.shiftl x 1) + if c : bool then 1 else 0)) =
  rotate (8 * n + 1) 1 (with_carry n c x).
Proof.
  intros Hn. pose proof (opsize_pos n Hn). pose proof (low_range n x Hn) as R.
  rewrite rotate_left_1 by (try lia; now apply with_carry_range).
  replace (8 * n + 1 - 1) with (8 * n) by lia. rewrite with_carry_top by assumption.
  unfold with_carry. rewrite low_double by assumption.
  rewrite Z.pow_add_r by lia. fold (modulus n). change (2 ^ 1) with 2.
  rewrite (testbit_top (low n x) (8 * n - 1)) by (try lia; replace (8 * n - 1 + 1) with (8 * n) by lia; exact R).
  fold (half n). pose proof (modulus_half n ltac:(lia)) as M. set (y := low n x) in *.
  assert (E : forall k, 0 <= k <= 1 ->
    (2 * y + k) mod modulus n + Z.b2z (half n <=? y) * modulus n = 2 * y + k).
  { intros k Hk. destruct (Z.leb_spec (half n) y); cbn [Z.b2z].
    - rewrite <- (Z.mod_unique (2 * y + k) (modulus n) 1 (2 * y + k - modulus n)) by lia. lia.
    - rewrite Z.mod_small by lia. lia. }
  destruct c; cbn [Z.b2z]; rewrite E by lia.
  - apply Z.mod_unique with 1; lia.
  - rewrite Z.mod_small; lia.
Qed.

Lemma rcr_step n c x : opsize n -> 0 <= x < modulus n ->
  with_carry n (Z.testbit x 0) (Z.lor (Z.shiftr x 1) (if c : bool then half n else 0)) =
  rotate (8 * n + 1) (-1) (with_carry n c x) /\
  0 <= Z.lor (Z.shiftr x 1) (if c then half n else 0) < modulus n.
Proof.
  intros Hn Hx. pose proof (opsize_pos n Hn).
  pose proof (modulus_half n ltac:(lia)) as M. pose proof (half_pos n ltac:(lia)).
  rewrite shift_in_top by assumption.
  assert (R : 0 <= x / 2 + Z.b2z c * half n < modulus n)
    by (destruct c; cbn [Z.b2z]; Z.div_mod_to_equations; lia).
  split; [|exact R].
  rewrite rotate_right_1 by (try lia; now apply with_carry_range).
  replace (8 * n + 1 - 1) with (8 * n) by lia. rewrite with_carry_testbit by (assumption || lia).
  unfold with_carry. rewrite !low_small by assumption. fold (modulus n).
  f_equal. rewrite M. replace (x + Z.b2z c * (2 * half n)) with (x + (Z.b2z c * half n) * 2) by ring.
  now rewrite Z.div_add by lia.
Qed.

Section CarryLoops.
Context {T : Type}.
Implicit Types s : DianaProcessor T.

Lemma set_CF_choice (c : bool) f b s : flag_word f ->
  (if c then SET_FLAG_CF else CLEAR_FLAG_CF) (tw f b s) = (Ok tt, tw (setf CF c f) b s).
Proof. intros Hf. destruct c; final. Qed.

Lemma b2z_negb0 (c : bool) {A} (x y : A) :
  (if negb (Z.b2z c =? 0) then x else y) = if c then x else y.
Proof. now destruct c. Qed.

Lemma rcl_loop_tw n c : opsize n -> forall x f b s, flag_word f ->
  exists y d,
    rcl_loop c (half n) x (tw f b s) = (Ok y, tw (setf CF d f) b s) /\
    with_carry n d y = rotate (8 * n + 1) (Z.of_nat c) (with_carry n (Z.testbit f CF) x).
Proof.
  intros Hn. pose proof (opsize_pos n Hn) as Hp.
  induction c as [|c IH]; intros x f b s Hf; cbn [rcl_loop].
  - exists x, (Z.testbit f CF). rewrite setf_same by (unfold CF; lia || reflexivity).
    split; [reflexivity|]. rewrite rotate_0; [reflexivity|lia|now apply with_carry_range].
  - step. rewrite (bind_run _ _ _ _ _ (set_CF_choice _ f b s Hf)).
    rewrite has_half_low by assumption. rewrite b2z_negb0.
    match goal with |- context [rcl_loop c (half n) ?x' (tw ?f' b s)] =>
      destruct (IH x' f' b s ltac:(auto with diana)) as (y & d & E & R) end.
    exists y, d. rewrite setf_setf in E by (unfold CF; lia). split; [exact E|].
    rewrite R, testbit_setf by (unfold CF; lia). rewrite Z.eqb_refl.
    rewrite (rcl_step n _ x Hn), rotate_rotate by (try lia; now apply with_carry_range).
    f_equal. lia.
Qed.

Lemma rcr_loop_tw n c : opsize n -> forall x f b s, 0 <= x < modulus n -> flag_word f ->
  exists y d,
    rcr_loop c (half n) x (tw f b s) = (Ok y, tw (setf CF d f) b s) /\ 0 <= y < modulus n /\
    with_carry n d y = rotate (8 * n + 1) (- Z.of_nat c) (with_carry n (Z.testbit f CF) x).
Proof.
  intros Hn. pose proof (opsize_pos n Hn) as Hp.
  induction c as [|c IH]; intros x f b s Hx Hf; cbn [rcr_loop].
  - exists x, (Z.testbit f CF). rewrite setf_same by (unfold CF; lia || reflexivity).
    split; [reflexivity|]. split; [exact Hx|].
    rewrite rotate_0; [reflexivity|lia|now apply with_carry_range].
  - step. rewrite (bind_run _ _ _ _ _ (set_CF_choice _ f b s Hf)).
    rewrite has_1, b2z_negb0.
    destruct (rcr_step n (Z.testbit f CF) x Hn Hx) as [E1 R1].
    match goal with |- context [rcr_loop c (half n) ?x' (tw ?f' b s)] =>
      destruct (IH x' f' b s R1 ltac:(auto with diana)) as (y & d & E & Ry & R) end.
    exists y, d. rewrite setf_setf in E by (unfold CF; lia). split; [exact E|].
    split; [exact Ry|].
    rewrite R, testbit_setf by (unfold CF; lia). rewrite Z.eqb_refl.
    rewrite E1, rotate_rotate by (try lia; now apply with_carry_range).
    f_equal. lia.
Qed.
End CarryLoops.

(** ** Double shifts *)

(** The number of [2 * n] bytes with the halves [hi] and [lo]. *)
Definition pair_of (n hi lo : Z) : Z := hi * modulus n + lo.

Lemma pair_range n hi lo : 1 <= n -> 0 <= hi < modulus n -> 0 <= lo < modulus n ->
  0 <= pair_of n hi lo < modulus n * modulus n.
Proof. intros Hn Hh Hl. unfold pair_of. nia. Qed.

(** The halves after a shift by one to the left. *)
Lemma shld_step n d x : opsize n ->
  let t := if Z.testbit (low n x) (8 * n - 1) then 1 else 0 in
  pair_of n (low n (u64 (u64 (Z.shiftl d 1) + t))) (low n (u64 (Z.shiftl x 1))) =
  (2 * pair_of n (low n d) (low n x)) mod (modulus n * modulus n).
Proof.
  intros Hn t. pose proof (opsize_pos n Hn). pose proof (low_range n x Hn) as Rx.
  pose proof (low_range n d Hn) as Rd.
  assert (Ex : low n (u64 (Z.shiftl x 1)) = (2 * low n x) mod modulus n).
  { pose proof (low_double n x 0 Hn) as E. rewrite !Z.add_0_r in E. rewrite <- E.
    now rewrite !low_u64 by assumption. }
  rewrite Ex, low_double by assumption.
  pose proof (testbit_top (low n x) (8 * n - 1)) as Tx.
  replace (8 * n - 1 + 1) with (8 * n) in Tx by lia. specialize (Tx ltac:(lia) Rx).
  fold (half n) in Tx. unfold t. rewrite Tx. clear t Tx Ex.
  pose proof (modulus_half n ltac:(lia)) as M. pose proof (half_pos n ltac:(lia)) as Hh.
  unfold pair_of. set (X := low n x) in *. set (D := low n d) in *. set (m := modulus n) in *.
  set (u := if half n <=? X then 1 else 0).
  assert (EX : (2 * X) mod m = 2 * X - u * m).
  { unfold u. destruct (Z.leb_spec (half n) X).
    - symmetry. apply Z.mod_unique with 1; lia.
    - rewrite Z.mod_small; lia. }
  assert (Hu : 0 <= u <= 1) by (unfold u; destruct (_ <=? _); lia).
  rewrite EX.
  replace (2 * (D * m + X)) with ((2 * D + u) * m + (2 * X - u * m)) by ring.
  assert (RX : 0 <= 2 * X - u * m < m) by (rewrite <- EX; apply Z.mod_pos_bound; lia).
  pose proof (Z.div_mod (2 * D + u) m ltac:(lia)) as DM.
  pose proof (Z.mod_pos_bound (2 * D + u) m ltac:(lia)) as Rm.
  apply Z.mod_unique with ((2 * D + u) / m); [left; nia|]. rewrite DM at 1. ring.
Qed.

Lemma pair_hi n hi lo : 1 <= n -> 0 <= lo < modulus n -> pair_of n hi lo / modulus n = hi.
Proof.
  intros Hn Hl. unfold pair_of. pose proof (modulus_pos n ltac:(lia)).
  rewrite Z.add_comm, Z.div_add, Z.div_small; lia.
Qed.

Lemma pair_lo n hi lo : 1 <= n -> 0 <= lo < modulus n -> pair_of n hi lo mod modulus n = lo.
Proof.
  intros Hn Hl. unfold pair_of. pose proof (modulus_pos n ltac:(lia)).
  rewrite Z.add_comm, Z.mod_add, Z.mod_small; lia.
Qed.

Lemma has_half_top n x : opsize n -> has x (half n) = Z.testbit (low n x) (8 * n - 1).
Proof. intros Hn. now rewrite has_comm, has_half_low. Qed.

Section DoubleLoops.
Context {T : Type} `{RandomStream T}.
Implicit Types s : DianaProcessor T.

(** [shld] reads its destination again after 16 rounds of a 16-bit shift; up to then it shifts
    the pair of destination and source. *)
Lemma shld_loop_tw n m c : opsize n -> forall i d x f b s,
  0 <= i -> (n <> 2 \/ i + Z.of_nat c <= 16) -> Z.of_nat c <= 8 * n -> flag_word f ->
  exists y,
    shld_loop c i (half n) n d x m (tw f b s) =
    (Ok (y, m), tw (loop_CF c (Z.testbit (low n d) (8 * n - Z.of_nat c)) f) b s) /\
    low n y = ((pair_of n (low n d) (low n x) * 2 ^ Z.of_nat c)
                 mod (modulus n * modulus n)) / modulus n /\
    (0 <= d < 0x10000000000000000 -> 0 <= y < 0x10000000000000000).
Proof.
  intros Hn. pose proof (opsize_pos n Hn) as Hp. pose proof (modulus_pos n ltac:(lia)) as Mp.
  induction c as [|c IH]; intros i d x f b s Hi Hc Hb Hf; cbn [shld_loop].
  - exists d. split; [reflexivity|]. split; [|auto].
    change (2 ^ Z.of_nat 0) with 1. rewrite Z.mul_1_r.
    rewrite Z.mod_small by (apply pair_range; try lia; now apply low_range).
    symmetry. apply pair_hi; [lia|now apply low_range].
  - assert (E0 : (n =? 2) && (0 <? i) && (i mod 16 =? 0) = false).
    { destruct Hc as [Hc|Hc].
      - destruct (Z.eqb_spec n 2); [contradiction|reflexivity].
      - destruct (Z.ltb_spec 0 i); [|now rewrite andb_false_r].
        rewrite Z.mod_small by lia. destruct (Z.eqb_spec i 0); [lia|]. apply andb_false_r. }
    rewrite E0, bind_ret. clear E0. rewrite set_CF_then by assumption.
    rewrite !has_half_top by assumption. pose proof (shld_step n d x Hn) as St. cbv zeta in St.
    match goal with |- context [shld_loop c (i + 1) _ n ?d' ?x' m (tw ?f' b s)] =>
      destruct (IH (i + 1) d' x' f' b s ltac:(lia) ltac:(lia) ltac:(lia) ltac:(auto with diana))
        as (y & E & R & U) end.
    exists y. rewrite E. split; [|split; [|intros _; apply U; apply u64_range]].
    + do 2 f_equal. destruct c as [|c]; cbn [loop_CF]; [do 2 f_equal; lia|].
      rewrite setf_setf by (unfold CF; lia). f_equal. rewrite low_double by assumption.
      unfold modulus. rewrite Z.mod_pow2_bits_low by lia.
      replace (8 * n - Z.of_nat (S c)) with (Z.succ (8 * n - (Z.of_nat (S c) + 1))) by lia.
      replace (8 * n - Z.of_nat (S (S c))) with (8 * n - (Z.of_nat (S c) + 1)) by lia.
      destruct (Z.testbit (low n x) (8 * n - 1));
        [apply (Z.testbit_succ_r _ true)|apply (Z.testbit_succ_r _ false)]; lia.
    + rewrite R, St. rewrite Z.mul_mod_idemp_l by nia. do 2 f_equal.
      replace (Z.of_nat (S c)) with (Z.of_nat c + 1) by lia.
      rewrite Z.pow_add_r by lia. change (2 ^ 1) with 2. ring.
Qed.
End DoubleLoops.

(** [shrd] rotates the pair of source and destination to the right. *)
Lemma shrd_loop_rotate n c : opsize n -> forall d x l,
  0 <= d < modulus n -> 0 <= x < modulus n ->
  exists y l', shrd_loop c (half n) d x l = (y, l') /\ 0 <= y < modulus n /\
    y = (rotate (16 * n) (- Z.of_nat c) (pair_of n x d)) mod modulus n /\
    (negb (l' =? 0) = match c with O => negb (l =? 0) | _ =>
       Z.testbit (rotate (16 * n) (- Z.of_nat c) (pair_of n x d)) (16 * n - 1) end).
Proof.
  intros Hn. pose proof (opsize_pos n Hn) as Hp. pose proof (modulus_pos n ltac:(lia)) as Mp.
  pose proof (modulus_half n ltac:(lia)) as M. pose proof (half_pos n ltac:(lia)) as Hh.
  assert (MM : 2 ^ (16 * n) = modulus n * modulus n)
    by (unfold modulus; rewrite <- Z.pow_add_r by lia; f_equal; lia).
  assert (HM : 2 ^ (16 * n - 1) = half n * modulus n)
    by (unfold modulus, half; rewrite <- Z.pow_add_r by lia; f_equal; lia).
  induction c as [|c IH]; intros d x l Hd Hx; cbn [shrd_loop].
  - exists d, l. repeat split; try lia.
    rewrite rotate_0 by (try lia; rewrite MM; apply pair_range; lia).
    symmetry. apply pair_lo; lia.
  - rewrite !has_1.
    assert (Ed : (if Z.testbit x 0 then Z.lor (Z.shiftr d 1) (half n) else Z.shiftr d 1) =
                 d / 2 + Z.b2z (Z.testbit x 0) * half n).
    { rewrite <- shift_in_top by assumption. destruct (Z.testbit x 0); [|rewrite Z.lor_0_r]; reflexivity. }
    assert (Ex : u64 (Z.shiftr x 1 + (if Z.testbit d 0 then half n else 0)) =
                 x / 2 + Z.b2z (Z.testbit d 0) * half n).
    { rewrite Z.shiftr_div_pow2 by lia. change (2 ^ 1) with 2.
      assert (B : modulus n <= modulus 8) by (unfold modulus; apply Z.pow_le_mono_r; lia).
      wsimp. rewrite u64_small by (destruct (Z.testbit d 0); Z.div_mod_to_equations; lia).
      destruct (Z.testbit d 0); cbn [Z.b2z]; lia. }
    rewrite Ed, Ex. set (d1 := d / 2 + _). set (x1 := x / 2 + _).
    assert (Hd1 : 0 <= d1 < modulus n)
      by (unfold d1; destruct (Z.testbit x 0); cbn [Z.b2z]; Z.div_mod_to_equations; lia).
    assert (Hx1 : 0 <= x1 < modulus n)
      by (unfold x1; destruct (Z.testbit d 0); cbn [Z.b2z]; Z.div_mod_to_equations; lia).
    assert (P : pair_of n x1 d1 = rotate (16 * n) (-1) (pair_of n x d)).
    { rewrite rotate_right_1 by (try lia; rewrite MM; apply pair_range; lia). rewrite HM.
      assert (B0 : Z.testbit (pair_of n x d) 0 = Z.testbit d 0).
      { rewrite <- (pair_lo n x d ltac:(lia) Hd) at 2. unfold modulus.
        now rewrite Z.mod_pow2_bits_low by lia. }
      rewrite B0. unfold pair_of, x1, d1. rewrite M.
      replace (x * (2 * half n) + d) with (d + x * half n * 2) by ring.
      rewrite Z.div_add by lia. pose proof (b2z_testbit0 x) as X0.
      pose proof (Z.div_mod x 2 ltac:(lia)) as DX. rewrite <- X0 in DX. rewrite DX at 3. ring. }
    destruct (IH d1 x1 (if Z.testbit d 0 then half n else 0) Hd1 Hx1) as (y & l' & E & Ry & Ey & El).
    exists y, l'. split; [exact E|]. split; [exact Ry|].
    assert (Rt : rotate (16 * n) (- Z.of_nat c) (rotate (16 * n) (-1) (pair_of n x d)) =
                 rotate (16 * n) (- Z.of_nat (S c)) (pair_of n x d)).
    { rewrite rotate_rotate by (try lia; rewrite MM; apply pair_range; lia). f_equal. lia. }
    rewrite P, Rt in Ey, El. split; [exact Ey|]. rewrite El. destruct c as [|c]; [|reflexivity].
    rewrite rotate_bits by (try lia; rewrite MM; apply pair_range; lia).
    replace (16 * n - 1 - - Z.of_nat 1) with (0 + 1 * (16 * n)) by lia.
    rewrite Z.mod_add, Z.mod_small by lia.
    rewrite <- (pair_lo n x d ltac:(lia) Hd) at 1. unfold modulus.
    rewrite Z.mod_pow2_bits_low by lia.
    destruct (Z.testbit (pair_of n x d) 0); [|reflexivity]. destruct (Z.eqb_spec (half n) 0); [lia|reflexivity].
Qed.

(** The base of the pairs, and the number a pair stands for. *)
Definition W64 : Z := 0x10000000000000000.
Definition word (x : Z) : Prop := 0 <= x < W64.
Definition wide (p : Z * Z) : Z := fst p + W64 * snd p.
Definition wide_words (p : Z * Z) : Prop := word (fst p) /\ word (snd p).

(** A pair read as a two's complement number. *)
Definition wide_signed (p : Z * Z) : Z := fst p + W64 * s64 (snd p).

Ltac wide_unfold := unfold wide, wide_signed, wide_words, word, W64 in *; cbn [fst snd] in *.

Lemma u64_word x : word (u64 x).
Proof. apply u64_range. Qed.

Lemma u64_eq x : word x -> u64 x = x.
Proof. apply u64_small. Qed.

(** ** Addition *)

Lemma add128_words l h a b : wide_words (add128 l h a b).
Proof. split; apply u64_word. Qed.

(** A sum below [2^128] is exact. *)
Lemma add128_exact l h a b :
  word l -> word h -> word a -> word b -> wide (l, h) + wide (a, b) < W64 * W64 ->
  wide (add128 l h a b) = wide (l, h) + wide (a, b).
Proof.
  intros Hl Hh Ha Hb S. unfold add128. wide_unfold.
  assert (E : u64 (l + a) = if 0x10000000000000000 <=? l + a then l + a - 0x10000000000000000 else l + a).
  { unfold u64. destruct (Z.leb_spec 0x10000000000000000 (l + a)).
    - symmetry. apply Z.mod_unique with 1; lia.
    - apply Z.mod_small. lia. }
  rewrite E. destruct (Z.leb_spec 0x10000000000000000 (l + a)).
  - destruct (Z.ltb_spec (l + a - 0x10000000000000000) a); [|lia].
    rewrite (u64_small (h + 1)) by lia. rewrite u64_small by lia. lia.
  - destruct (Z.ltb_spec (l + a) a); [lia|]. rewrite u64_small by lia. lia.
Qed.

(** ** Unsigned product *)

Lemma shl32_split v : word v -> wide (u64 (Z.shiftl v 32), Z.shiftr v 32) = v * 0x100000000.
Proof.
  intros Hv. wide_unfold. rewrite Z.shiftl_mul_pow2, Z.shiftr_div_pow2 by lia.
  unfold u64. change (2 ^ 32) with 0x100000000. Z.div_mod_to_equations. lia.
Qed.

Lemma shr_word v k : 0 <= k -> word v -> word (Z.shiftr v k).
Proof.
  intros Hk Hv. wide_unfold. rewrite Z.shiftr_div_pow2 by lia.
  pose proof (Z.pow_pos_nonneg 2 k ltac:(lia) Hk).
  split; [apply Z.div_pos; lia|]. apply Z.div_lt_upper_bound; nia.
Qed.

Lemma u32_split v : word v -> v = u32 v + 0x100000000 * u32 (Z.shiftr v 32).
Proof.
  intros Hv. wide_unfold. rewrite Z.shiftr_div_pow2 by lia. unfold u32.
  change (2 ^ 32) with 0x100000000. Z.div_mod_to_equations. lia.
Qed.

Lemma u32_range v : 0 <= u32 v < 0x100000000.
Proof. apply Z.mod_pos_bound. lia. Qed.

(** [mul64] is the exact product of its arguments. *)
Lemma mul64_exact a b : word a -> word b -> wide (mul64 a b) = a * b /\ wide_words (mul64 a b).
Proof.
  intros Ha Hb. unfold mul64.
  pose proof (u32_split a Ha) as Ea. pose proof (u32_split b Hb) as Eb.
  set (a0 := u32 a) in *. set (a1 := u32 (Z.shiftr a 32)) in *.
  set (b0 := u32 b) in *. set (b1 := u32 (Z.shiftr b 32)) in *.
  assert (Ra0 : 0 <= a0 < 0x100000000) by apply u32_range.
  assert (Ra1 : 0 <= a1 < 0x100000000) by apply u32_range.
  assert (Rb0 : 0 <= b0 < 0x100000000) by apply u32_range.
  assert (Rb1 : 0 <= b1 < 0x100000000) by apply u32_range.
  assert (P : forall x y, 0 <= x < 0x100000000 -> 0 <= y < 0x100000000 ->
                0 <= x * y <= 0xFFFFFFFE00000001) by (intros; nia).
  pose proof (P a0 b0 Ra0 Rb0) as P00. pose proof (P a0 b1 Ra0 Rb1) as P01.
  pose proof (P a1 b0 Ra1 Rb0) as P10. pose proof (P a1 b1 Ra1 Rb1) as P11.
  assert (AB : a * b = a0 * b0 + (a0 * b1 + a1 * b0) * 0x100000000 +
               a1 * b1 * 0x10000000000000000) by (rewrite Ea, Eb; ring).
  rewrite !(u64_small (_ * _)) by lia.
  assert (W0 : word 0) by (wide_unfold; lia).
  assert (X1 : wide (add128 (a0 * b0) 0 (u64 (Z.shiftl (a0 * b1) 32)) (Z.shiftr (a0 * b1) 32)) =
               a0 * b0 + a0 * b1 * 0x100000000).
  { rewrite add128_exact; try rewrite shl32_split;
      try apply u64_word; try apply shr_word; wide_unfold; lia. }
  pose proof (add128_words (a0 * b0) 0 (u64 (Z.shiftl (a0 * b1) 32)) (Z.shiftr (a0 * b1) 32)) as V1.
  destruct (add128 (a0 * b0) 0 _ _) as [l1 h1]. destruct V1 as [V1 V1'].
  assert (X2 : wide (add128 l1 h1 (u64 (Z.shiftl (a1 * b0) 32)) (Z.shiftr (a1 * b0) 32)) =
               a0 * b0 + (a0 * b1 + a1 * b0) * 0x100000000).
  { rewrite add128_exact; rewrite ?shl32_split, ?X1; try apply u64_word; try apply shr_word;
      wide_unfold; try lia. }
  pose proof (add128_words l1 h1 (u64 (Z.shiftl (a1 * b0) 32)) (Z.shiftr (a1 * b0) 32)) as V2.
  destruct (add128 l1 h1 _ _) as [l2 h2]. destruct V2 as [V2 V2'].
  wide_unfold. rewrite u64_small by lia. lia.
Qed.

(** ** Negation and the signed product *)

Lemma lnot_word x : word x -> u64 (Z.lnot x) = W64 - 1 - x.
Proof.
  intros Hx. wide_unfold. unfold u64, Z.lnot. symmetry. apply Z.mod_unique with (-1); lia.
Qed.

(** Two's complement negation; 0 is its own negation. *)
Lemma neg128_wide l h :
  word l -> word h ->
  wide (neg128 l h) = (if wide (l, h) =? 0 then 0 else W64 * W64 - wide (l, h)) /\
  wide_words (neg128 l h).
Proof.
  intros Hl Hh. split; [|apply add128_words]. unfold neg128. rewrite !lnot_word by assumption.
  destruct (Z.eqb_spec (wide (l, h)) 0) as [E|E].
  - wide_unfold. assert (l = 0) by lia. assert (h = 0) by lia. subst. reflexivity.
  - rewrite add128_exact; wide_unfold; lia.
Qed.

Definition sword (x : Z) : Prop := - 0x8000000000000000 <= x < 0x8000000000000000.

Lemma s64_small x : sword x -> s64 x = x.
Proof.
  intros Hx. unfold sword in Hx. unfold s64, u64. cbv zeta.
  destruct (Z.ltb_spec x 0).
  - replace (x mod 0x10000000000000000) with (x + 0x10000000000000000)
      by (apply Z.mod_unique with (-1); lia).
    destruct (Z.ltb_spec (x + 0x10000000000000000) 0x8000000000000000); lia.
  - rewrite Z.mod_small by lia. destruct (Z.ltb_spec x 0x8000000000000000); lia.
Qed.

Lemma u64_neg x : sword x -> x < 0 -> u64 x = x + W64.
Proof. intros Hx H0. unfold sword in Hx. symmetry. apply Z.mod_unique with (-1); wide_unfold; lia. Qed.

(** The C code's absolute value, the least value included. *)
Lemma abs64 x : sword x -> u64 (if x <? 0 then s64 (- x) else x) = Z.abs x.
Proof.
  intros Hx. unfold sword in Hx. destruct (Z.ltb_spec x 0).
  - destruct (Z.eq_dec x (- 0x8000000000000000)) as [->|N]; [reflexivity|].
    rewrite s64_small by (unfold sword; lia). rewrite u64_small; lia.
  - rewrite u64_small; lia.
Qed.

Lemma s64_word h : word h -> s64 h = if h <? 0x8000000000000000 then h else h - W64.
Proof. intros Hh. unfold s64. cbv zeta. rewrite u64_eq by assumption. reflexivity. Qed.

(** A pair is its two's complement value up to [2^128]. *)
Lemma wide_signed_of p v :
  wide_words p -> - (W64 * 0x8000000000000000) <= v < W64 * 0x8000000000000000 ->
  wide p = v \/ wide p = v + W64 * W64 -> wide_signed p = v.
Proof.
  destruct p as [l h]. intros [Hl Hh] Hv E. unfold wide_signed. cbn [fst snd] in *.
  rewrite s64_word by assumption.
  destruct (Z.ltb_spec h 0x8000000000000000); wide_unfold; lia.
Qed.

Lemma imul64_exact a b :
  sword a -> sword b -> wide_signed (imul64 a b) = a * b /\ wide_words (imul64 a b).
Proof.
  intros Ha Hb. unfold imul64. rewrite !abs64 by assumption.
  assert (Wa : word (Z.abs a)) by (unfold sword in Ha; wide_unfold; lia).
  assert (Wb : word (Z.abs b)) by (unfold sword in Hb; wide_unfold; lia).
  destruct (mul64_exact _ _ Wa Wb) as [E V]. destruct (mul64 (Z.abs a) (Z.abs b)) as [l h].
  rewrite <- Z.abs_mul in E. unfold sword in *.
  assert (B : - (W64 * 0x8000000000000000) <= a * b < W64 * 0x8000000000000000)
    by (wide_unfold; nia).
  assert (Sg : xorb (a <? 0) (b <? 0) = true -> a * b <= 0)
    by (destruct (Z.ltb_spec a 0), (Z.ltb_spec b 0); cbn; intros; try discriminate; nia).
  assert (Sg' : xorb (a <? 0) (b <? 0) = false -> 0 <= a * b)
    by (destruct (Z.ltb_spec a 0), (Z.ltb_spec b 0); cbn; intros; try discriminate; nia).
  destruct V as [Vl Vh]. destruct (xorb (a <? 0) (b <? 0)).
  - destruct (neg128_wide l h Vl Vh) as [En Vn]. split; [|exact Vn].
    specialize (Sg eq_refl). apply wide_signed_of; auto. rewrite En, E.
    destruct (Z.eqb_spec (Z.abs (a * b)) 0); lia.
  - split; [|now split]. specialize (Sg' eq_refl).
    apply wide_signed_of; [now split|auto|]. rewrite E. lia.
Qed.

(** ** Unsigned quotient *)

(** One step of the loop: the remainder doubled, with the top bit of the low word. *)
Lemma div64_step_a1 a0 a1 :
  word a0 -> word a1 ->
  Z.lor (u64 (Z.shiftl a1 1)) (Z.shiftr a0 63) = u64 (2 * a1 + a0 / 2 ^ 63).
Proof.
  intros H0 H1. rewrite Z.shiftr_div_pow2 by lia. rewrite Z.shiftl_mul_pow2 by lia.
  assert (T : 0 <= a0 / 2 ^ 63 <= 1).
  { wide_unfold. change (2 ^ 63) with 0x8000000000000000. Z.div_mod_to_equations. lia. }
  set (t := a0 / 2 ^ 63) in *.
  assert (E : u64 (a1 * 2 ^ 1) = 2 * (a1 mod 0x8000000000000000)).
  { unfold u64. change (2 ^ 1) with 2. rewrite (Z.mul_comm a1).
    change 0x10000000000000000 with (2 * 0x8000000000000000).
    now rewrite Z.mul_mod_distr_l by lia. }
  rewrite E. assert (E2 : u64 (2 * a1 + t) = 2 * (a1 mod 0x8000000000000000) + t).
  { unfold u64. wide_unfold. Z.div_mod_to_equations. lia. }
  rewrite E2. replace (2 * (a1 mod 0x8000000000000000)) with (Z.shiftl (a1 mod 0x8000000000000000) 1)
    by (rewrite Z.shiftl_mul_pow2 by lia; lia).
  replace t with (t mod 2 ^ 1) by (apply Z.mod_small; change (2 ^ 1) with 2; lia).
  rewrite <- Z.land_ones by lia.
  symmetry. rewrite <- Z.lxor_lor, Z.add_nocarry_lxor; auto;
    apply Z.bits_inj'; intros i Hi; rewrite Z.land_spec, Z.bits_0, Z.land_spec, Z.shiftl_spec by lia;
    destruct (Z.ltb_spec i 1);
    [rewrite Z.testbit_neg_r by lia; reflexivity
    |rewrite Z.ones_spec_high by lia; now rewrite !andb_false_r
    |rewrite Z.testbit_neg_r by lia; reflexivity
    |rewrite Z.ones_spec_high by lia; now rewrite !andb_false_r].
Qed.

(** The low word shifted left by one with the quotient bit [qb]. *)
Lemma div64_step_a0 a0 qb :
  word a0 -> 0 <= qb <= 1 ->
  Z.lor (u64 (Z.shiftl a0 1)) qb = 2 * (a0 mod 2 ^ 63) + qb.
Proof.
  intros H0 Hq. rewrite Z.shiftl_mul_pow2 by lia.
  assert (E : u64 (a0 * 2 ^ 1) = 2 * (a0 mod 2 ^ 63)).
  { unfold u64. change (2 ^ 1) with 2. rewrite (Z.mul_comm a0).
    change 0x10000000000000000 with (2 * 2 ^ 63). now rewrite Z.mul_mod_distr_l by lia. }
  rewrite E. apply Z.bits_inj'. intros i Hi. rewrite Z.lor_spec.
  replace (2 * (a0 mod 2 ^ 63)) with (a0 mod 2 ^ 63 * 2 ^ 1) by (change (2 ^ 1) with 2; lia).
  destruct (Z.ltb_spec i 1).
  - rewrite testbit_low_part by lia. replace (a0 mod 2 ^ 63 * 2 ^ 1) with (a0 mod 2 ^ 63 * 2 ^ 1 + 0) by lia.
    rewrite testbit_low_part by lia. now rewrite Z.bits_0.
  - rewrite testbit_high_part by (change (2 ^ 1) with 2; lia).
    replace (a0 mod 2 ^ 63 * 2 ^ 1) with (a0 mod 2 ^ 63 * 2 ^ 1 + 0) by lia.
    rewrite testbit_high_part by (change (2 ^ 1) with 2; lia).
    rewrite (testbit_ge qb 1 i) by (change (2 ^ 1) with 2; lia). apply orb_false_r.
Qed.

(** After [64 - n] rounds the low word holds the [n] dividend bits that are left over the
    quotient bits found; the loop ends with the quotient and the remainder. *)
Lemma div64_loop_spec n : forall l q a1 b,
  (n <= 64)%nat -> 0 <= l < 2 ^ Z.of_nat n -> 0 <= q < 2 ^ (64 - Z.of_nat n) ->
  0 <= a1 < b -> b < W64 ->
  div64_loop n (l * 2 ^ (64 - Z.of_nat n) + q) a1 b =
  (q * 2 ^ Z.of_nat n + (a1 * 2 ^ Z.of_nat n + l) / b, (a1 * 2 ^ Z.of_nat n + l) mod b).
Proof.
  induction n as [|n IH]; intros l q a1 b Hn Hl Hq Ha Hb.
  - cbn [div64_loop]. change (2 ^ Z.of_nat 0) with 1 in *. rewrite !Z.mul_1_r.
    replace l with 0 by lia. rewrite Z.add_0_r, Z.div_small, Z.mod_small by lia. f_equal; lia.
  - cbn [div64_loop].
    set (k := Z.of_nat n) in *. replace (Z.of_nat (S n)) with (k + 1) in * by lia.
    assert (Hk : 0 <= k <= 63) by lia.
    assert (P1 : 2 ^ (k + 1) = 2 * 2 ^ k) by (rewrite Z.pow_add_r by lia; change (2 ^ 1) with 2; lia).
    assert (P2 : 2 ^ (64 - k) = 2 * 2 ^ (64 - (k + 1)))
      by (replace (64 - k) with ((64 - (k + 1)) + 1) by lia; rewrite Z.pow_add_r by lia;
          change (2 ^ 1) with 2; lia).
    assert (P3 : 2 ^ k * 2 ^ (64 - (k + 1)) = 2 ^ 63) by (rewrite <- Z.pow_add_r by lia; f_equal; lia).
    set (M := 2 ^ k) in *. set (N := 2 ^ (64 - (k + 1))) in *.
    assert (HM : 0 < M) by (apply Z.pow_pos_nonneg; lia).
    assert (HN : 0 < N) by (apply Z.pow_pos_nonneg; lia).
    set (a0 := l * N + q).
    assert (Wa0 : word a0) by (unfold a0; wide_unfold; change (2 ^ 63) with 0x8000000000000000 in P3; nia).
    (* the top bit of the dividend bits that are left *)
    set (t := l / M). set (l' := l mod M).
    assert (Et : l = t * M + l') by (unfold t, l'; rewrite Z.mul_comm; apply Z.div_mod; lia).
    assert (Hl' : 0 <= l' < M) by (apply Z.mod_pos_bound; lia).
    assert (Ht : 0 <= t <= 1).
    { split; [apply Z.div_pos; lia|]. enough (t < 2) by lia. apply Z.div_lt_upper_bound; lia. }
    assert (Ea0 : a0 = t * 2 ^ 63 + (l' * N + q)) by (unfold a0; rewrite Et, <- P3; ring).
    assert (Hlow : 0 <= l' * N + q < 2 ^ 63) by (rewrite <- P3; nia).
    assert (Dt : a0 / 2 ^ 63 = t).
    { rewrite Ea0, Z.add_comm, Z.div_add, Z.div_small by lia. lia. }
    assert (Dm : a0 mod 2 ^ 63 = l' * N + q).
    { rewrite Ea0, Z.add_comm, Z.mod_add, Z.mod_small by lia. lia. }
    assert (Wa1 : word a1) by (wide_unfold; lia).
    rewrite div64_step_a1 by assumption. rewrite Dt.
    set (x := 2 * a1 + t).
    assert (Hx : 0 <= x < 2 * b) by (unfold x; lia).
    (* the comparison of the loop is the comparison of the exact double *)
    assert (Cmp : negb (Z.shiftr a1 63 =? 0) || (b <=? u64 x) = (b <=? x)).
    { rewrite Z.shiftr_div_pow2 by lia. change (2 ^ 63) with 0x8000000000000000.
      destruct (Z.ltb_spec x W64) as [L|L].
      - rewrite u64_small by (wide_unfold; lia).
        assert (D0 : a1 / 0x8000000000000000 = 0) by (apply Z.div_small; wide_unfold; lia).
        now rewrite D0.
      - assert (D1 : a1 / 0x8000000000000000 = 1)
          by (symmetry; apply Z.div_unique with (a1 - 0x8000000000000000); wide_unfold; lia).
        rewrite D1. cbn. symmetry. apply Z.leb_le. lia. }
    rewrite Cmp.
    set (qb := if b <=? x then 1 else 0).
    assert (Hqb : 0 <= qb <= 1) by (unfold qb; destruct (b <=? x); lia).
    assert (Sub : (if b <=? x then (u64 (u64 x - b), 1) else (u64 x, 0)) = (x - qb * b, qb)).
    { unfold qb. destruct (Z.leb_spec b x).
      - f_equal. unfold u64. rewrite Zminus_mod_idemp_l. rewrite Z.mod_small by (wide_unfold; lia). lia.
      - f_equal. rewrite u64_small by (wide_unfold; lia). lia. }
    rewrite Sub. cbv beta iota. rewrite div64_step_a0 by assumption. rewrite Dm.
    replace (2 * (l' * N + q) + qb) with (l' * 2 ^ (64 - k) + (2 * q + qb)) by (rewrite P2; ring).
    assert (Hr : 0 <= x - qb * b < b) by (unfold qb; destruct (Z.leb_spec b x); lia).
    rewrite IH by (auto; try lia; rewrite ?P2; nia).
    fold M. rewrite P1.
    assert (EN : a1 * (2 * M) + l = ((x - qb * b) * M + l') + (qb * M) * b).
    { unfold x. rewrite Et. ring. }
    rewrite EN, Z.div_add, Z.mod_add by lia. f_equal. ring.
Qed.

Lemma div64_exact l h b :
  word l -> word h -> 0 < b < W64 ->
  div64 l h b =
  if wide (l, h) / b <? W64 then Ok (wide (l, h) / b, wide (l, h) mod b) else Err 1.
Proof.
  intros Hl Hh Hb. unfold div64. unfold wide; cbn [fst snd].
  destruct (Z.eqb_spec h 0) as [->|Nh].
  - destruct (Z.eqb_spec b 0); [lia|]. rewrite Z.mul_0_r, Z.add_0_r.
    destruct (Z.ltb_spec (l / b) W64) as [_|L]; [reflexivity|].
    exfalso. assert (l / b <= l) by (apply Z.div_le_upper_bound; wide_unfold; nia).
    wide_unfold. lia.
  - destruct (Z.leb_spec b h) as [L|L].
    + destruct (Z.ltb_spec ((l + W64 * h) / b) W64) as [D|_]; [|reflexivity].
      exfalso. assert (W64 <= (l + W64 * h) / b); [|lia].
      apply Z.div_le_lower_bound; wide_unfold; nia.
    + assert (D : (l + W64 * h) / b < W64)
        by (apply Z.div_lt_upper_bound; wide_unfold; nia).
      destruct (Z.ltb_spec ((l + W64 * h) / b) W64); [|lia]. f_equal.
      replace l with (l * 2 ^ (64 - Z.of_nat 64) + 0) at 1
        by (change (2 ^ (64 - Z.of_nat 64)) with 1; lia).
      rewrite div64_loop_spec
        by (change (2 ^ (64 - Z.of_nat 64)) with 1; change (2 ^ Z.of_nat 64) with W64;
            wide_unfold; lia).
      change (2 ^ Z.of_nat 64) with W64. replace (h * W64 + l) with (l + W64 * h) by ring.
      now rewrite Z.mul_0_l, Z.add_0_l.
Qed.

(** ** Signed quotient: rounds towards zero, fails when the quotient is not a 64-bit number *)

Lemma wide_signed_sign l h :
  word l -> word h -> (s64 h <? 0) = (wide_signed (l, h) <? 0).
Proof.
  intros Hl Hh. unfold wide_signed. cbn [fst snd].
  destruct (Z.ltb_spec (s64 h) 0), (Z.ltb_spec (l + W64 * s64 h) 0); wide_unfold; lia.
Qed.

(** The magnitude that [idiv64] divides. *)
Lemma idiv64_abs l h p :
  word l -> word h ->
  (if s64 h <? 0 then neg128 l h else (l, h)) = p ->
  wide p = Z.abs (wide_signed (l, h)) /\ wide_words p.
Proof.
  intros Hl Hh <-. rewrite (wide_signed_sign l h Hl Hh).
  assert (R : wide (l, h) = wide_signed (l, h) \/
              wide_signed (l, h) < 0 /\ wide (l, h) = wide_signed (l, h) + W64 * W64).
  { unfold wide_signed. cbn [fst snd]. rewrite s64_word by assumption.
    destruct (Z.ltb_spec h 0x8000000000000000); wide_unfold; lia. }
  assert (P : 0 <= wide (l, h)) by (wide_unfold; lia).
  destruct (Z.ltb_spec (wide_signed (l, h)) 0) as [N|N].
  - destruct (neg128_wide l h Hl Hh) as [E V]. split; [|exact V]. rewrite E.
    destruct (Z.eqb_spec (wide (l, h)) 0) as [Z0|Z0]; [|lia].
    exfalso. assert (l = 0 /\ h = 0) as [-> ->] by (wide_unfold; lia). vm_compute in N. discriminate.
  - split; [lia|now split].
Qed.

Lemma idiv64_exact l h b :
  word l -> word h -> sword b -> b <> 0 ->
  let q := Z.quot (wide_signed (l, h)) b in
  idiv64 l h b =
  if (- 0x8000000000000000 <=? q) && (q <? 0x8000000000000000)
  then Ok (u64 q, u64 (Z.rem (wide_signed (l, h)) b)) else Err 1.
Proof.
  intros Hl Hh Hb B0. cbv zeta. unfold idiv64.
  destruct (if s64 h <? 0 then neg128 l h else (l, h)) as [l1 h1] eqn:Ep.
  destruct (idiv64_abs l h _ Hl Hh Ep) as [Ea [V1 V2]]. cbn [fst snd] in V1, V2.
  rewrite abs64 by exact Hb. unfold sword in Hb.
  rewrite div64_exact by (auto; wide_unfold; lia). rewrite Ea.
  rewrite (wide_signed_sign l h Hl Hh). set (N := wide_signed (l, h)).
  rewrite (Z.quot_div N b B0), (Z.rem_mod N b B0).
  set (Q := Z.abs N / Z.abs b). set (R := Z.abs N mod Z.abs b).
  assert (HQ : 0 <= Q) by (apply Z.div_pos; lia).
  assert (HR : 0 <= R < W64).
  { assert (0 <= R < Z.abs b) by (apply Z.mod_pos_bound; lia). wide_unfold. lia. }
  assert (ER : (if N <? 0 then u64 (- R) else R) = u64 (Z.sgn N * R)).
  { destruct (Z.ltb_spec N 0).
    - rewrite Z.sgn_neg by lia. f_equal; lia.
    - destruct (Z.eq_dec N 0) as [E0|].
      + assert (R = 0) as -> by (unfold R; rewrite E0; apply Z.mod_0_l; lia). now rewrite E0.
      + rewrite Z.sgn_pos by lia. rewrite Z.mul_1_l, u64_small by (wide_unfold; lia). reflexivity. }
  assert (EQ : Z.sgn N * Z.sgn b * Q = if xorb (N <? 0) (b <? 0) then - Q else Q).
  { destruct (Z.eq_dec N 0) as [E0|].
    - assert (Q = 0) as -> by (unfold Q; rewrite E0; apply Z.div_0_l; lia).
      destruct (xorb _ _); lia.
    - destruct (Z.ltb_spec N 0), (Z.ltb_spec b 0); cbn [xorb];
        rewrite ?(Z.sgn_neg N), ?(Z.sgn_pos N), ?(Z.sgn_neg b), ?(Z.sgn_pos b) by lia; lia. }
  rewrite EQ. clear EQ. destruct (Z.ltb_spec Q W64) as [L|L].
  - rewrite ER. destruct (xorb (N <? 0) (b <? 0)).
    + destruct (Z.ltb_spec 0x8000000000000000 Q), (Z.leb_spec (- 0x8000000000000000) (- Q)),
        (Z.ltb_spec (- Q) 0x8000000000000000); cbn [andb]; try lia; reflexivity.
    + destruct (Z.leb_spec 0x8000000000000000 Q), (Z.leb_spec (- 0x8000000000000000) Q),
        (Z.ltb_spec Q 0x8000000000000000); cbn [andb]; try lia; try reflexivity.
      now rewrite (u64_small Q) by lia.
  - destruct (xorb (N <? 0) (b <? 0)); wide_unfold.
    + destruct (Z.leb_spec (- 0x8000000000000000) (- Q)); [lia|reflexivity].
    + destruct (Z.ltb_spec Q 0x8000000000000000); [lia|]. now rewrite andb_false_r.
Qed.
