(* ===== verification/LogicProofs.v ===== *)
(** Correctness of the bitwise operations, the shifts and the rotations of CmdLogic: their results as
    powers of two and rotations, CF as the last bit out, OF for a count of one, and a count of zero. *)

From Stdlib Require Import ZArith Lia List Bool.
Import ListNotations.
From S2P Require Import Prelude Words Status Registers ProcStreams Processor CmdInternal.
From S2P Require Import CmdString CmdLogic ProcessorInit State Exec Operands Rules.
From S2P Require Import ArithProofs Loops.
Local Open Scope Z_scope.
Local Open Scope diana_scope.

(** ** Ranges of bitwise results *)

Lemma modulus_bits n x : opsize n -> (forall i, 8 * n <= i -> Z.testbit x i = false) ->
  0 <= x < modulus n.
Proof. intros Hn Hx. apply bits_bound; [pose proof (opsize_pos n Hn); lia|exact Hx]. Qed.

Section Ranges.
Variables n x y : Z.
Hypothesis Hn : opsize n.
Hypothesis Hx : 0 <= x < modulus n.
Hypothesis Hy : 0 <= y < modulus n.

Lemma high_bit z i : 0 <= z < modulus n -> 8 * n <= i -> Z.testbit z i = false.
Proof. intros Hz Hi. apply (testbit_ge _ (8 * n)); [exact Hz|]. pose proof (opsize_pos n Hn). lia. Qed.

Lemma land_modulus : 0 <= Z.land x y < modulus n.
Proof. apply modulus_bits; [exact Hn|]. intros i Hi. now rewrite Z.land_spec, !high_bit. Qed.
Lemma lor_modulus : 0 <= Z.lor x y < modulus n.
Proof. apply modulus_bits; [exact Hn|]. intros i Hi. now rewrite Z.lor_spec, !high_bit. Qed.
Lemma lxor_modulus : 0 <= Z.lxor x y < modulus n.
Proof. apply modulus_bits; [exact Hn|]. intros i Hi. now rewrite Z.lxor_spec, !high_bit. Qed.
End Ranges.

Lemma modulus_le n : opsize n -> modulus n <= 0x10000000000000000.
Proof. intros Hn. opsize_cases Hn; wsimp; lia. Qed.

Section LogicProofs.
Context {T : Type} `{RandomStreamOk T}.
Implicit Types s : DianaProcessor T.

(** A small result: its flags and its store. *)
Lemma store_small s s1 n v f b :
  zeroed 0 n s s1 -> flag_word f -> 0 <= v < 0x10000000000000000 ->
  DI_UPDATE_FLAGS_PSZ (DI_MEM_SET_DEST v) (tw f b s1) =
  (Ok tt, tw (set_psz n v f) true (put_operand 0 v s)).
Proof.
  intros Zr Hf Hv. destruct Zr as [W P I1 Wr E]. unfold DI_MEM_SET_DEST.
  rewrite (SET_PSZ_tw 0 v n f b s1 W Hf P Wr Hv). now rewrite E.
Qed.

(** A result whose flags stay. *)
Lemma store_plain s s1 n v f b :
  zeroed 0 n s s1 -> flag_word f ->
  DI_MEM_SET_DEST v (tw f b s1) = (Ok tt, tw f b (put_operand 0 v s)).
Proof.
  intros Zr Hf. destruct Zr as [W P I1 Wr E]. unfold DI_MEM_SET_DEST.
  rewrite (DI_MEM_SET_tw 0 v n f b s1 W Hf P Wr). now rewrite E.
Qed.

(** CF and OF cleared. *)
Lemma clear_CF_OF {A} (k : MP T A) f b s : flag_word f ->
  (CLEAR_FLAG_CF ;;; CLEAR_FLAG_OF ;;; k) (tw f b s) =
  k (tw (setf OF false (setf CF false f)) b s).
Proof. intros Hf. do 2 step. reflexivity. Qed.

(** ** [and], [or], [xor], [test], [not] *)

Definition logic_flags (n v f : Z) : Z := set_psz n v (set_coa false false false f).

Lemma logic_flags_eq n v f :
  setf AF false (set_psz n v (setf OF false (setf CF false f))) = logic_flags n v f.
Proof. unfold logic_flags, set_psz, set_coa. flags_ext. Qed.

Lemma and_or_end s d n x m v :
  binary s d n x m -> 0 <= v < modulus n ->
  (let! dest := Di_CheckZeroExtends v m in
   CLEAR_FLAG_CF ;;; CLEAR_FLAG_OF ;;;
   DI_UPDATE_FLAGS_PSZ (DI_MEM_SET_DEST dest) ;;; CLEAR_FLAG_AF) (tw (m_flags s) false s) =
  (Ok tt, tw (logic_flags n v (m_flags s)) true (put_operand 0 v s)).
Proof.
  intros [W I Rd Rx Wr Pl] Hv. pose proof (reads_size _ _ _ _ Rd) as Hn.
  destruct (CheckZeroExtends_tw 0 v m n (m_flags s) false s) as (s1 & E & Zr);
    eauto using idle_psz_clear with diana.
  unfold Di_CheckZeroExtends. rewrite (bind_run _ _ _ _ _ E).
  rewrite clear_CF_OF by eauto with diana.
  pose proof (modulus_le n Hn).
  rewrite (bind_run _ _ _ _ _ (store_small s s1 n v (setf OF false (setf CF false (m_flags s)))
             false Zr ltac:(eauto with diana) ltac:(lia))).
  rewrite CLEAR_AF_tw by eauto 6 with diana. now rewrite logic_flags_eq.
Qed.

Lemma and_run s d n x m :
  binary s d n x m ->
  let v := Z.land d (sign_extend m n x) in
  Call Diana_Call_and s =
  (Ok tt, with_flags (fun _ => logic_flags n v (m_flags s)) (put_operand 0 v s)).
Proof.
  intros B v. pose proof B as [W I Rd Rx Wr Pl].
  pose proof (reads_size _ _ _ _ Rd) as Hn. pose proof (reads_range _ _ _ _ Rd) as Hd.
  eapply Call_tw; [|now apply idle_put_operand].
  unfold Diana_Call_and. rewrite (binary_start s d n x m _ B).
  apply (and_or_end s d n x m v B). apply land_modulus; auto using sign_extend_range.
Qed.

Lemma or_run s d n x m :
  binary s d n x m ->
  let v := Z.lor d (sign_extend m n x) in
  Call Diana_Call_or s =
  (Ok tt, with_flags (fun _ => logic_flags n v (m_flags s)) (put_operand 0 v s)).
Proof.
  intros B v. pose proof B as [W I Rd Rx Wr Pl].
  pose proof (reads_size _ _ _ _ Rd) as Hn. pose proof (reads_range _ _ _ _ Rd) as Hd.
  eapply Call_tw; [|now apply idle_put_operand].
  unfold Diana_Call_or. rewrite (binary_start s d n x m _ B).
  apply (and_or_end s d n x m v B). apply lor_modulus; auto using sign_extend_range.
Qed.

(** [xor] leaves AF as it is. *)
Lemma xor_run s d n x m :
  binary s d n x m ->
  let v := Z.lxor d (sign_extend m n x) in
  Call Diana_Call_xor s =
  (Ok tt, with_flags (fun _ => set_psz n v (setf OF false (setf CF false (m_flags s))))
            (put_operand 0 v s)).
Proof.
  intros B v. pose proof B as [W I Rd Rx Wr Pl].
  pose proof (reads_size _ _ _ _ Rd) as Hn. pose proof (reads_range _ _ _ _ Rd) as Hd.
  eapply Call_tw; [|now apply idle_put_operand].
  unfold Diana_Call_xor. rewrite (binary_start s d n x m _ B).
  rewrite clear_CF_OF by eauto with diana. cbv zeta. fold v.
  assert (Hv : 0 <= v < modulus n) by (apply lxor_modulus; auto using sign_extend_range).
  set (f := setf OF false _).
  destruct (CheckZeroExtends_tw 0 v m n f false s) as (s1 & E & Zr);
    unfold f; eauto using idle_psz_clear with diana.
  unfold Di_CheckZeroExtends. rewrite (bind_run _ _ _ _ _ E). pose proof (modulus_le n Hn).
  apply store_small; auto; [eauto with diana|lia].
Qed.

Lemma test_run s d n x m :
  compares s d n x m ->
  let v := Z.land d x in
  Call Diana_Call_test s = (Ok tt, with_flags (fun _ => logic_flags n v (m_flags s)) s).
Proof.
  intros [W I Rd Rx] v.
  pose proof (reads_size _ _ _ _ Rd) as Hn. pose proof (reads_range _ _ _ _ Rd) as Hd.
  pose proof (reads_range _ _ _ _ Rx) as Hx. pose proof (modulus_le n Hn).
  assert (Hv : 0 <= v < modulus n).
  { apply modulus_bits; [exact Hn|]. intros i Hi. unfold v. rewrite Z.land_spec.
    now rewrite (high_bit n Hn d i Hd Hi). }
  eapply (Call_tw _ _ _ _ _ false); [|exact I]. unfold Diana_Call_test.
  rewrite (bind_run _ _ _ _ _ (DI_MEM_GET_DEST_tw s d n _ _ W Rd)).
  rewrite (bind_run _ _ _ _ _ (DI_MEM_GET_SRC_tw s x m _ _ W Rx)).
  cbv zeta. fold v. rewrite clear_CF_OF by eauto with diana.
  unfold result. rewrite bind_gets. change (m_result (tw ?f ?b s)) with (m_result s).
  rewrite (reads_usedSize s 0 d n Rd).
  rewrite (bind_run _ _ _ _ _ (UpdatePSZ_tw n v (setf OF false (setf CF false (m_flags s))) false s
             Hn ltac:(eauto with diana) (idle_psz_clear s I) ltac:(lia))).
  rewrite CLEAR_AF_tw by eauto 6 with diana. now rewrite logic_flags_eq.
Qed.

(** [not] complements every bit and leaves the flags alone. *)
Lemma not_run s d n :
  unary s d n ->
  Call Diana_Call_not s =
  (Ok tt, with_flags (fun _ => m_flags s) (put_operand 0 (modulus n - 1 - d) s)).
Proof.
  intros [W I Rd Wr]. pose proof (reads_size _ _ _ _ Rd) as Hn.
  pose proof (reads_range _ _ _ _ Rd) as Hd. pose proof (opsize_pos n Hn) as Hp.
  eapply (Call_tw _ _ _ _ _ false); [|now apply idle_put_operand]. unfold Diana_Call_not.
  rewrite (bind_run _ _ _ _ _ (DI_MEM_GET_DEST_tw s d n _ _ W Rd)).
  destruct (ClearUpperHalf_tw n (m_flags s) false s) as (E & Zr);
    eauto using idle_psz_clear with diana.
  rewrite (bind_run _ _ _ _ _ E).
  rewrite (store_plain s _ n _ _ _ Zr) by eauto with diana.
  rewrite (put_operand_u64 0 (Z.lnot d) n s Wr), <- (put_operand_mod 0 (Z.lnot d) n s Wr).
  do 3 f_equal. symmetry. apply Z.mod_unique with (-1); unfold Z.lnot; lia.
Qed.
End LogicProofs.

Section ShiftProofs.
Context {T : Type} `{RandomStreamOk T}.
Implicit Types s : DianaProcessor T.

(** The count the processor uses. *)
Definition masked_count s (x : Z) : Z :=
  if (iAMD64Mode (m_context s) =? 1) && DI_REX_HAS_FLAG_W (iRexPrefix (m_context s))
  then x mod 64 else x mod 32.

Lemma shift_count_run x f b s :
  shift_count x (tw f b s) = (Ok (masked_count s x), tw f b s).
Proof.
  unfold shift_count, masked_count, context. rewrite !bind_gets.
  change (m_context (tw f b s)) with (m_context s).
  change 0x3F with (Z.ones 6). change 0x1F with (Z.ones 5). rewrite !Z.land_ones by lia. reflexivity.
Qed.

Lemma masked_count_range s x : 0 <= masked_count s x < 64.
Proof.
  unfold masked_count. pose proof (Z.mod_pos_bound x 64 ltac:(lia)).
  pose proof (Z.mod_pos_bound x 32 ltac:(lia)). destruct (_ && _); lia.
Qed.

(** Source first, then destination, then the count. *)
Lemma shift_start {A} s d n x m (k : Z -> Z -> Z -> Z -> MP T A) :
  binary s d n x m ->
  (let! (src, src_size) := DI_MEM_GET_SRC in
   let! (dest, dest_size) := DI_MEM_GET_DEST in
   k src src_size dest dest_size) (tw (m_flags s) false s) =
  k x m d n (tw (m_flags s) false s).
Proof.
  intros [W I Rd Rx Wr Pl].
  rewrite (bind_run _ _ _ _ _ (DI_MEM_GET_SRC_tw s x m _ _ W Rx)).
  now rewrite (bind_run _ _ _ _ _ (DI_MEM_GET_DEST_tw s d n _ _ W Rd)).
Qed.

(** A count of zero writes the destination back and keeps the flags. *)
Lemma write_back_tw s d n x m :
  binary s d n x m ->
  write_back d m (tw (m_flags s) false s) = (Ok tt, tw (m_flags s) false (put_operand 0 d s)).
Proof.
  intros [W I Rd Rx Wr Pl]. unfold write_back, Di_CheckZeroExtends.
  destruct (CheckZeroExtends_tw 0 d m n (m_flags s) false s) as (s1 & E & Zr);
    eauto using idle_psz_clear with diana.
  rewrite (bind_run _ _ _ _ _ E). eapply store_plain; eauto with diana.
Qed.

(** The end of a shift. *)
Lemma shift_end s d n x m v f b :
  binary s d n x m -> flag_word f -> 0 <= v < 0x10000000000000000 ->
  (let! dest := Di_CheckZeroExtends v m in
   DI_UPDATE_FLAGS_PSZ (DI_MEM_SET_DEST dest)) (tw f b s) =
  (Ok tt, tw (set_psz n v f) true (put_operand 0 (v mod modulus n) s)).
Proof.
  intros [W I Rd Rx Wr Pl] Hf Hv.
  destruct (CheckZeroExtends_tw 0 v m n f b s) as (s1 & E & Zr);
    eauto using idle_psz_clear with diana.
  unfold Di_CheckZeroExtends. rewrite (bind_run _ _ _ _ _ E).
  rewrite (store_small s s1 n v f b Zr Hf Hv). now rewrite (put_operand_mod 0 v n s Wr).
Qed.

(** The end of a rotation: PF, SF and ZF stay. *)
Lemma rotate_end s d n x m v f b :
  binary s d n x m -> flag_word f ->
  (let! dest := Di_CheckZeroExtends v m in DI_MEM_SET_DEST dest) (tw f b s) =
  (Ok tt, tw f b (put_operand 0 (low n v) s)).
Proof.
  intros [W I Rd Rx Wr Pl] Hf.
  destruct (CheckZeroExtends_tw 0 v m n f b s) as (s1 & E & Zr);
    eauto using idle_psz_clear with diana.
  unfold Di_CheckZeroExtends. rewrite (bind_run _ _ _ _ _ E).
  rewrite (store_plain s s1 n v f b Zr Hf). unfold low. now rewrite (put_operand_mod 0 v n s Wr).
Qed.

(** OF after a count of one. *)
Lemma OF_if (c : bool) (d : bool) f b s : flag_word f ->
  when c (when d SET_FLAG_OF) (tw (setf OF false f) b s) = (Ok tt, tw (setf OF (c && d) f) b s).
Proof.
  intros Hf. destruct c; cbn [andb]; [|reflexivity]. rewrite when_true.
  erewrite when_tw by final. do 2 f_equal. destruct d; flags_ext.
Qed.

(** What the shift leaves when the count is 0, and when it is not. *)
Definition shifted s (d n c : Z) (cf ovf : bool) (v : Z) : DianaProcessor T :=
  if c =? 0 then with_flags (fun _ => m_flags s) (put_operand 0 d s)
  else with_flags (fun _ => set_psz n v (setf OF ovf (setf CF cf (m_flags s)))) (put_operand 0 v s).

Lemma shifted_call s d n c cf ovf v (m : MP T unit) :
  idle s ->
  m (tw (m_flags s) false s) =
  (Ok tt, if c =? 0 then tw (m_flags s) false (put_operand 0 d s)
          else tw (set_psz n v (setf OF ovf (setf CF cf (m_flags s)))) true (put_operand 0 v s)) ->
  Call m s = (Ok tt, shifted s d n c cf ovf v).
Proof.
  intros I E. unfold shifted.
  destruct (c =? 0); (eapply Call_tw; [exact E|now apply idle_put_operand]).
Qed.

Lemma loop_CF_pos c x f : 0 < c -> loop_CF (Z.to_nat c) x f = setf CF x f.
Proof. intros Hc. destruct (Z.to_nat c) eqn:E; [lia|reflexivity]. Qed.

Lemma xor_bit (a b : bool) (x y : Z) : x = Z.b2z a -> y = Z.b2z b ->
  negb (Z.lxor x y =? 0) = xorb a b.
Proof. intros -> ->. now destruct a, b. Qed.

Lemma if_b2z (a : bool) : (if a then 1 else 0) = Z.b2z a.
Proof. now destruct a. Qed.

(** OF of a left rotation by one: CF against the sign. *)
Lemma OF_from_CF c (cf sg : bool) f b s : flag_word f -> Z.testbit f CF = cf ->
  when c
    (let! cf0 := GET_FLAG_CF in
     when (negb (Z.lxor cf0 (if sg then 1 else 0) =? 0)) SET_FLAG_OF)
    (tw (setf OF false f) b s) =
  (Ok tt, tw (setf OF (c && xorb cf sg) f) b s).
Proof.
  intros Hf Ec. rewrite <- OF_if by assumption. destruct c; [|reflexivity]. rewrite !when_true.
  step. rewrite testbit_setf by (unfold OF; lia). change (OF =? CF) with false. cbv iota.
  now rewrite Ec, if_b2z, (xor_bit cf sg) by reflexivity.
Qed.

Lemma testbit_CF_set c f : Z.testbit (setf CF c f) CF = c.
Proof. rewrite testbit_setf by (unfold CF; lia). now rewrite Z.eqb_refl. Qed.

(** [shl]: multiplication by [2 ^ c]. *)
Lemma shl_run s d n x m :
  binary s d n x m ->
  let c := masked_count s x in
  let v := (d * 2 ^ c) mod modulus n in
  let cf := Z.testbit d (8 * n - c) in
  Call Diana_Call_shl s =
  (Ok tt, shifted s d n c cf ((c =? 1) && xorb cf (is_negative n v)) v).
Proof.
  intros B c v cf. pose proof B as [W I Rd Rx Wr Pl]. pose proof (masked_count_range s x) as Hc.
  fold c in Hc. pose proof (reads_size _ _ _ _ Rd) as Hn. pose proof (reads_range _ _ _ _ Rd) as Hd.
  pose proof (modulus_le n Hn). pose proof (opsize_pos n Hn).
  apply shifted_call; [exact I|]. unfold Diana_Call_shl.
  rewrite (shift_start s d n x m _ B). rewrite (bind_run _ _ _ _ _ (shift_count_run x _ _ s)).
  fold c. destruct (Z.eqb_spec c 0) as [|N]; [apply (write_back_tw s d n x m B)|].
  cbv zeta. rewrite GetSignMask_half by assumption.
  rewrite (bind_run _ _ _ _ _ (CLEAR_OF_tw _ _ s (wf_flag_word s W))).
  rewrite (bind_run _ _ _ _ _ (shl_loop_tw n (Z.to_nat c) Hn d _ false s (proj1 Hd)
             (flag_word_setf OF false _ ltac:(unfold OF; lia) (wf_flag_word s W)))).
  rewrite loop_CF_pos by lia. rewrite Z2Nat.id by lia. fold cf.
  assert (Ev : match Z.to_nat c with O => d | _ => u64 (d * 2 ^ c) end = u64 (d * 2 ^ c))
    by (destruct (Z.to_nat c) eqn:E; [lia|reflexivity]).
  rewrite Ev, (has_comm (half n)), has_half, is_negative_u64, <- (is_negative_mod n (d * 2 ^ c)) by (assumption || lia).
  fold v. rewrite setf_comm by (unfold CF, OF; lia).
  rewrite (bind_run _ _ _ _ _ (OF_from_CF (c =? 1) cf (is_negative n v) (setf CF cf (m_flags s))
             false s ltac:(eauto with diana) (testbit_CF_set cf _))).
  rewrite (shift_end s d n x m _ _ false B) by (apply u64_range || eauto with diana).
  rewrite u64_mod, set_psz_u64, <- (set_psz_mod n (d * 2 ^ c)) by assumption. reflexivity.
Qed.

(** [shr]: division by [2 ^ c]. *)
Lemma shr_run s d n x m :
  binary s d n x m ->
  let c := masked_count s x in
  Call Diana_Call_shr s =
  (Ok tt, shifted s d n c (Z.testbit d (c - 1)) ((c =? 1) && is_negative n d) (d / 2 ^ c)).
Proof.
  intros B c. pose proof B as [W I Rd Rx Wr Pl]. pose proof (masked_count_range s x) as Hc.
  fold c in Hc. pose proof (reads_size _ _ _ _ Rd) as Hn. pose proof (reads_range _ _ _ _ Rd) as Hd.
  pose proof (modulus_le n Hn). pose proof (opsize_pos n Hn).
  apply shifted_call; [exact I|]. unfold Diana_Call_shr.
  rewrite (shift_start s d n x m _ B). rewrite (bind_run _ _ _ _ _ (shift_count_run x _ _ s)).
  fold c. destruct (Z.eqb_spec c 0) as [|N]; [apply (write_back_tw s d n x m B)|].
  cbv zeta. rewrite GetSignMask_half by assumption.
  rewrite (bind_run _ _ _ _ _ (CLEAR_OF_tw _ _ s (wf_flag_word s W))).
  rewrite (bind_run _ _ _ _ _ (shr_loop_tw (Z.to_nat c) d _ false s
             (flag_word_setf OF false _ ltac:(unfold OF; lia) (wf_flag_word s W)))).
  rewrite loop_CF_pos by lia. rewrite Z2Nat.id by lia. rewrite has_half by assumption.
  rewrite setf_comm by (unfold CF, OF; lia).
  rewrite (bind_run _ _ _ _ _ (OF_if _ _ (setf CF (Z.testbit d (c - 1)) (m_flags s)) false s
             ltac:(eauto with diana))).
  assert (P : 0 < 2 ^ c) by (apply Z.pow_pos_nonneg; lia).
  assert (V : 0 <= d / 2 ^ c <= d)
    by (split; [apply Z.div_pos; lia|apply Z.div_le_upper_bound; nia]).
  rewrite (shift_end s d n x m _ _ false B) by (lia || eauto with diana).
  now rewrite (Z.mod_small (d / 2 ^ c)) by lia.
Qed.

(** [sar]: division of the signed value by [2 ^ c], rounded down. *)
Lemma sar_run s d n x m :
  binary s d n x m ->
  let c := masked_count s x in
  Call Diana_Call_sar s =
  (Ok tt, shifted s d n c (Z.testbit (signed n d) (c - 1)) false
            ((signed n d / 2 ^ c) mod modulus n)).
Proof.
  intros B c. pose proof B as [W I Rd Rx Wr Pl]. pose proof (masked_count_range s x) as Hc.
  fold c in Hc. pose proof (reads_size _ _ _ _ Rd) as Hn. pose proof (reads_range _ _ _ _ Rd) as Hd.
  pose proof (modulus_le n Hn). pose proof (opsize_pos n Hn) as Hp.
  pose proof (signed_range n d ltac:(lia) Hd) as Sr.
  apply shifted_call; [exact I|]. unfold Diana_Call_sar.
  rewrite (shift_start s d n x m _ B). rewrite (bind_run _ _ _ _ _ (shift_count_run x _ _ s)).
  fold c. destruct (Z.eqb_spec c 0) as [|N]; [apply (write_back_tw s d n x m B)|].
  cbv zeta. rewrite GetSignMask_half by assumption.
  rewrite (bind_run _ _ _ _ _ (CLEAR_OF_tw _ _ s (wf_flag_word s W))).
  assert (Sg : Z.land (half n) d = if signed n d <? 0 then half n else 0).
  { rewrite Z.land_comm, land_half by assumption. rewrite is_negative_small by exact Hd.
    unfold signed. pose proof (half_pos n ltac:(lia)). pose proof (modulus_half n ltac:(lia)).
    destruct (Z.leb_spec (half n) d), (Z.ltb_spec d (half n)); try lia;
      zcases; lia || reflexivity. }
  rewrite Sg. set (high := if signed n d <? 0 then half n else 0).
  rewrite <- (signed_mod n d ltac:(lia) Hd) at 1. unfold high.
  rewrite (bind_run _ _ _ _ _ (sar_loop_tw n (Z.to_nat c) Hn (signed n d) _ false s Sr
             (flag_word_setf OF false _ ltac:(unfold OF; lia) (wf_flag_word s W)))).
  rewrite loop_CF_pos by lia. rewrite Z2Nat.id by lia.
  rewrite setf_comm by (unfold CF, OF; lia).
  pose proof (Z.mod_pos_bound (signed n d / 2 ^ c) (modulus n) ltac:(apply modulus_pos; lia)).
  rewrite (shift_end s d n x m _ _ false B) by (lia || eauto with diana).
  rewrite Z.mod_mod by lia. reflexivity.
Qed.

(** ** Rotations *)

Definition rotated s (d n c : Z) (cf ovf : bool) (v : Z) : DianaProcessor T :=
  if c =? 0 then with_flags (fun _ => m_flags s) (put_operand 0 d s)
  else with_flags (fun _ => setf OF ovf (setf CF cf (m_flags s))) (put_operand 0 v s).

Lemma rotated_call s d n c cf ovf v (m : MP T unit) :
  idle s ->
  m (tw (m_flags s) false s) =
  (Ok tt, if c =? 0 then tw (m_flags s) false (put_operand 0 d s)
          else tw (setf OF ovf (setf CF cf (m_flags s))) false (put_operand 0 v s)) ->
  Call m s = (Ok tt, rotated s d n c cf ovf v).
Proof.
  intros I E. unfold rotated.
  destruct (c =? 0); (eapply Call_tw; [exact E|now apply idle_put_operand]).
Qed.

Lemma low_bit n x i : opsize n -> 0 <= i < 8 * n -> Z.testbit x i = Z.testbit (low n x) i.
Proof. intros Hn Hi. now rewrite low_testbit. Qed.

Lemma rol_run s d n x m :
  binary s d n x m ->
  let c := masked_count s x in
  let v := rotate (8 * n) c d in
  Call Diana_Call_rol s =
  (Ok tt, rotated s d n c (Z.testbit v 0)
            ((c =? 1) && xorb (Z.testbit v 0) (Z.testbit v (8 * n - 1))) v).
Proof.
  intros B c v. pose proof B as [W I Rd Rx Wr Pl]. pose proof (masked_count_range s x) as Hc.
  fold c in Hc. pose proof (reads_size _ _ _ _ Rd) as Hn. pose proof (reads_range _ _ _ _ Rd) as Hd.
  pose proof (opsize_pos n Hn) as Hp.
  apply rotated_call; [exact I|]. unfold Diana_Call_rol.
  rewrite (shift_start s d n x m _ B). rewrite (bind_run _ _ _ _ _ (shift_count_run x _ _ s)).
  fold c. destruct (Z.eqb_spec c 0) as [|N]; [apply (write_back_tw s d n x m B)|].
  cbv zeta. rewrite GetSignMask_half by assumption.
  rewrite (bind_run _ _ _ _ _ (CLEAR_OF_tw _ _ s (wf_flag_word s W))).
  pose proof (rol_loop_low n (Z.to_nat c) Hn d) as R.
  rewrite Z2Nat.id, (low_small n d Hd) in R by lia. fold v in R.
  set (y := rol_loop (Z.to_nat c) (half n) d) in *.
  rewrite set_CF_then by eauto with diana. rewrite has_1, has_half_low by assumption.
  rewrite (low_bit n y 0), R by (assumption || lia).
  rewrite setf_comm by (unfold CF, OF; lia).
  set (cf := Z.testbit v 0). set (sg := Z.testbit v (8 * n - 1)).
  assert (X : negb (Z.lxor (Z.land y 1) (if sg then 1 else 0) =? 0) = xorb cf sg).
  { apply xor_bit; [|apply if_b2z]. unfold cf. rewrite <- R, low_testbit by (assumption || lia).
    change 1 with (Z.ones 1). rewrite Z.land_ones by lia. now rewrite b2z_testbit0. }
  cbv zeta. rewrite X.
  rewrite (bind_run _ _ _ _ _ (OF_if _ _ (setf CF cf (m_flags s)) false s
             ltac:(eauto with diana))).
  rewrite (rotate_end s d n x m _ _ false B) by eauto with diana. now rewrite R.
Qed.

Lemma ror_run s d n x m :
  binary s d n x m ->
  let c := masked_count s x in
  let v := rotate (8 * n) (- c) d in
  Call Diana_Call_ror s =
  (Ok tt, rotated s d n c (Z.testbit v (8 * n - 1))
            ((c =? 1) && xorb (Z.testbit v (8 * n - 1)) (Z.testbit v (8 * n - 2))) v).
Proof.
  intros B c v. pose proof B as [W I Rd Rx Wr Pl]. pose proof (masked_count_range s x) as Hc.
  fold c in Hc. pose proof (reads_size _ _ _ _ Rd) as Hn. pose proof (reads_range _ _ _ _ Rd) as Hd.
  pose proof (opsize_pos n Hn) as Hp.
  apply rotated_call; [exact I|]. unfold Diana_Call_ror.
  rewrite (shift_start s d n x m _ B). rewrite (bind_run _ _ _ _ _ (shift_count_run x _ _ s)).
  fold c. destruct (Z.eqb_spec c 0) as [|N]; [apply (write_back_tw s d n x m B)|].
  cbv zeta. rewrite GetSignMask_half by assumption.
  rewrite (bind_run _ _ _ _ _ (CLEAR_OF_tw _ _ s (wf_flag_word s W))).
  pose proof (ror_loop_rotate n (Z.to_nat c) Hn d Hd) as R.
  rewrite Z2Nat.id in R by lia. fold v in R. rewrite R.
  assert (Hv : 0 <= v < modulus n) by (apply rotate_range; [lia|exact Hd]).
  rewrite set_CF_then by eauto with diana. rewrite has_half_top, (low_small n v Hv) by assumption.
  assert (H2 : has v (Z.shiftr (half n) 1) = Z.testbit v (8 * n - 2)).
  { rewrite <- has_pow2 by lia. f_equal. unfold half.
    rewrite Z.shiftr_div_pow2 by lia. rewrite <- Z.pow_sub_r by lia. f_equal. lia. }
  rewrite H2, setf_comm by (unfold CF, OF; lia).
  set (cf := Z.testbit v (8 * n - 1)). set (sg := Z.testbit v (8 * n - 2)).
  rewrite !if_b2z, (xor_bit cf sg) by reflexivity.
  rewrite (bind_run _ _ _ _ _ (OF_if _ _ (setf CF cf (m_flags s)) false s
             ltac:(eauto with diana))).
  rewrite (rotate_end s d n x m _ _ false B) by eauto with diana.
  now rewrite (low_small n v Hv).
Qed.

(** ** Rotations through CF *)

Definition carry_count (n x : Z) : Z :=
  if n =? 1 then (x mod 32) mod 9 else if n =? 2 then (x mod 32) mod 17
  else if n =? 4 then x mod 32 else x mod 64.

Lemma carry_count_run n x f b s : opsize n ->
  rotate_carry_count x n (tw f b s) = (Ok (carry_count n x), tw f b s).
Proof.
  intros Hn. unfold rotate_carry_count, carry_count.
  change 0x3F with (Z.ones 6). change 0x1F with (Z.ones 5). rewrite !Z.land_ones by lia.
  opsize_cases Hn; reflexivity.
Qed.

Lemma carry_count_range n x : opsize n -> 0 <= carry_count n x < 8 * n + 1.
Proof. intros Hn. unfold carry_count. opsize_cases Hn; cbn [Z.eqb Pos.eqb]; Z.div_mod_to_equations; lia. Qed.

(** CF above the operand. *)
Definition carry_pair s (n d : Z) : Z := with_carry n (Z.testbit (m_flags s) CF) d.

Lemma rcl_run s d n x m :
  binary s d n x m ->
  let c := carry_count n x in
  let w := rotate (8 * n + 1) c (carry_pair s n d) in
  Call Diana_Call_rcl s =
  (Ok tt, rotated s d n c (Z.testbit w (8 * n))
            ((c =? 1) && xorb (Z.testbit w (8 * n)) (Z.testbit w (8 * n - 1))) (w mod modulus n)).
Proof.
  intros B c w. pose proof B as [W I Rd Rx Wr Pl].
  pose proof (reads_size _ _ _ _ Rd) as Hn. pose proof (reads_range _ _ _ _ Rd) as Hd.
  pose proof (opsize_pos n Hn) as Hp. pose proof (carry_count_range n x Hn) as Hc. fold c in Hc.
  apply rotated_call; [exact I|]. unfold Diana_Call_rcl.
  rewrite (shift_start s d n x m _ B).
  rewrite (bind_run _ _ _ _ _ (carry_count_run n x _ _ s Hn)).
  fold c. destruct (Z.eqb_spec c 0) as [|N]; [apply (write_back_tw s d n x m B)|].
  cbv zeta. rewrite GetSignMask_half by assumption.
  rewrite (bind_run _ _ _ _ _ (CLEAR_OF_tw _ _ s (wf_flag_word s W))).
  destruct (rcl_loop_tw n (Z.to_nat c) Hn d (setf OF false (m_flags s)) false s
              ltac:(eauto with diana)) as (y & cf & E & R).
  rewrite (bind_run _ _ _ _ _ E). rewrite testbit_setf in R by (unfold OF; lia).
  change (OF =? CF) with false in R. cbv iota in R. fold (carry_pair s n d) in R.
  rewrite Z2Nat.id in R by lia. fold w in R. rewrite <- R.
  rewrite with_carry_top, with_carry_low, with_carry_testbit by (assumption || lia).
  rewrite has_half_low by assumption. set (sg := Z.testbit (low n y) (8 * n - 1)).
  rewrite setf_comm by (unfold CF, OF; lia).
  rewrite (bind_run _ _ _ _ _ (OF_from_CF (c =? 1) cf sg (setf CF cf (m_flags s)) false s
             ltac:(eauto with diana) (testbit_CF_set cf _))).
  rewrite (rotate_end s d n x m _ _ false B) by eauto with diana. reflexivity.
Qed.

Lemma rcr_run s d n x m :
  binary s d n x m ->
  let c := carry_count n x in
  let w := rotate (8 * n + 1) (- c) (carry_pair s n d) in
  Call Diana_Call_rcr s =
  (Ok tt, rotated s d n c (Z.testbit w (8 * n))
            ((c =? 1) && xorb (Z.testbit (m_flags s) CF) (is_negative n d)) (w mod modulus n)).
Proof.
  intros B c w. pose proof B as [W I Rd Rx Wr Pl].
  pose proof (reads_size _ _ _ _ Rd) as Hn. pose proof (reads_range _ _ _ _ Rd) as Hd.
  pose proof (opsize_pos n Hn) as Hp. pose proof (carry_count_range n x Hn) as Hc. fold c in Hc.
  apply rotated_call; [exact I|]. unfold Diana_Call_rcr.
  rewrite (shift_start s d n x m _ B).
  rewrite (bind_run _ _ _ _ _ (carry_count_run n x _ _ s Hn)).
  fold c. destruct (Z.eqb_spec c 0) as [|N]; [apply (write_back_tw s d n x m B)|].
  cbv zeta. rewrite GetSignMask_half by assumption.
  rewrite (bind_run _ _ _ _ _ (CLEAR_OF_tw _ _ s (wf_flag_word s W))).
  rewrite (has_comm (half n)), has_half by assumption. set (sg := is_negative n d).
  set (cf := Z.testbit (m_flags s) CF).
  rewrite (bind_run _ _ _ _ _ (OF_from_CF (c =? 1) cf sg (m_flags s) false s
             ltac:(eauto with diana) eq_refl)).
  destruct (rcr_loop_tw n (Z.to_nat c) Hn d
              (setf OF ((c =? 1) && xorb cf sg) (m_flags s)) false s Hd
              ltac:(eauto with diana)) as (y & cf' & E & Ry & R).
  rewrite (bind_run _ _ _ _ _ E). rewrite testbit_setf in R by (unfold OF; lia).
  change (OF =? CF) with false in R. cbv iota in R. fold (carry_pair s n d) in R.
  rewrite Z2Nat.id in R by lia. fold w in R. rewrite <- R.
  rewrite with_carry_top, with_carry_low by (assumption || lia).
  rewrite setf_comm by (unfold CF, OF; lia).
  rewrite (rotate_end s d n x m _ _ false B) by eauto with diana. reflexivity.
Qed.

(** ** Double shifts *)

(** Destination [d] and source [x] of [n] bytes, count [k]. *)
Record double s (d n x k k_size : Z) : Prop := {
  do_binary : binary s d n x n;
  do_count : reads s 2 k k_size
}.

Lemma double_start {A} s d n x kx ks (k : Z -> Z -> Z -> Z -> Z -> Z -> MP T A) :
  double s d n x kx ks ->
  (let! (src2, src2_size) := DI_MEM_GET_SRC2 in
   let! (src1, src1_size) := DI_MEM_GET_SRC in
   let! (dest, dest_size) := DI_MEM_GET_DEST in
   k src2 src2_size src1 src1_size dest dest_size) (tw (m_flags s) false s) =
  k kx ks x n d n (tw (m_flags s) false s).
Proof.
  intros [B Rk]. rewrite (bind_run _ _ _ _ _ (DI_MEM_GET_SRC2_tw s kx ks _ _ (bi_wf _ _ _ _ _ B) Rk)).
  apply (shift_start s d n x n (fun a b => k kx ks a b) B).
Qed.

(** The sign changed. *)
Lemma sign_changed n v w : opsize n ->
  negb (Z.land (half n) v =? Z.land (half n) w) = xorb (is_negative n v) (is_negative n w).
Proof.
  intros Hn. rewrite !(Z.land_comm (half n)), land_half_eqb by assumption.
  now destruct (is_negative n v), (is_negative n w).
Qed.

Lemma is_negative_low n v : opsize n -> is_negative n v = is_negative n (low n v).
Proof. intros Hn. symmetry. apply is_negative_mod. pose proof (opsize_pos n Hn). lia. Qed.

Lemma is_negative_top n v : opsize n -> 0 <= v < modulus n ->
  is_negative n v = Z.testbit v (8 * n - 1).
Proof. intros Hn Hv. symmetry. now apply sign_testbit. Qed.

(** [shld]: the upper half of the pair shifted left, for the counts the processor defines. *)
Lemma shld_run s d n x k ks :
  double s d n x k ks ->
  let c := masked_count s k in
  c <= 8 * n ->
  let v := ((pair_of n d x * 2 ^ c) mod (modulus n * modulus n)) / modulus n in
  Call Diana_Call_shld s =
  (Ok tt, shifted s d n c (Z.testbit d (8 * n - c))
            ((c =? 1) && xorb (is_negative n v) (is_negative n d)) v).
Proof.
  intros D c Hb v. pose proof D as [B Rk]. pose proof B as [W I Rd Rx Wr Pl].
  pose proof (masked_count_range s k) as Hc. fold c in Hc.
  pose proof (reads_size _ _ _ _ Rd) as Hn. pose proof (reads_range _ _ _ _ Rd) as Hd.
  pose proof (reads_range _ _ _ _ Rx) as Hx. pose proof (opsize_pos n Hn) as Hp.
  apply shifted_call; [exact I|]. unfold Diana_Call_shld.
  rewrite (double_start s d n x k ks _ D). rewrite (bind_run _ _ _ _ _ (shift_count_run k _ _ s)).
  fold c. destruct (Z.eqb_spec c 0) as [|N]; [apply (write_back_tw s d n x n B)|].
  cbv zeta. rewrite GetSignMask_half by assumption.
  rewrite (bind_run _ _ _ _ _ (CLEAR_OF_tw _ _ s (wf_flag_word s W))).
  destruct (shld_loop_tw n n (Z.to_nat c) Hn 0 d x (setf OF false (m_flags s)) false s
              ltac:(lia) ltac:(lia) ltac:(lia) ltac:(eauto with diana)) as (y & E & R & U).
  rewrite (bind_run _ _ _ _ _ E). clear E. pose proof (modulus_le n Hn).
  rewrite loop_CF_pos, Z2Nat.id by lia. rewrite Z2Nat.id in R by lia.
  rewrite !(low_small n d Hd) in *. rewrite (low_small n x Hx) in R. fold v in R.
  rewrite setf_comm by (unfold CF, OF; lia). rewrite sign_changed by assumption.
  rewrite (is_negative_low n y Hn), R. set (cf := Z.testbit d (8 * n - c)).
  rewrite (bind_run _ _ _ _ _ (OF_if _ _ (setf CF cf (m_flags s)) false s
             ltac:(eauto with diana))).
  specialize (U ltac:(lia)).
  rewrite (shift_end s d n x n _ _ false B) by (assumption || eauto with diana).
  fold (low n y). rewrite <- (set_psz_mod n y) by assumption. fold (low n y). now rewrite R.
Qed.

(** [shrd]: the lower half of the pair rotated right. *)
Lemma shrd_run s d n x k ks :
  double s d n x k ks ->
  let c := masked_count s k in
  let w := rotate (16 * n) (- c) (pair_of n x d) in
  let v := w mod modulus n in
  Call Diana_Call_shrd s =
  (Ok tt, shifted s d n c (Z.testbit w (16 * n - 1))
            ((c =? 1) && xorb (is_negative n v) (is_negative n d)) v).
Proof.
  intros D c w v. pose proof D as [B Rk]. pose proof B as [W I Rd Rx Wr Pl].
  pose proof (masked_count_range s k) as Hc. fold c in Hc.
  pose proof (reads_size _ _ _ _ Rd) as Hn. pose proof (reads_range _ _ _ _ Rd) as Hd.
  pose proof (reads_range _ _ _ _ Rx) as Hx. pose proof (opsize_pos n Hn) as Hp.
  apply shifted_call; [exact I|]. unfold Diana_Call_shrd.
  rewrite (double_start s d n x k ks _ D). rewrite (bind_run _ _ _ _ _ (shift_count_run k _ _ s)).
  fold c. destruct (Z.eqb_spec c 0) as [|N]; [apply (write_back_tw s d n x n B)|].
  cbv zeta. rewrite GetSignMask_half by assumption.
  rewrite (bind_run _ _ _ _ _ (CLEAR_OF_tw _ _ s (wf_flag_word s W))).
  destruct (shrd_loop_rotate n (Z.to_nat c) Hn d x 0 Hd Hx) as (y & l & -> & Ry & Ey & El).
  rewrite Z2Nat.id in Ey, El by lia. fold w in Ey, El. fold v in Ey. subst y.
  assert (El' : negb (l =? 0) = Z.testbit w (16 * n - 1))
    by (rewrite El; destruct (Z.to_nat c) eqn:Ec; [lia|reflexivity]). clear El.
  rewrite El'. set (cf := Z.testbit w (16 * n - 1)).
  rewrite set_CF_then by eauto with diana.
  rewrite setf_comm by (unfold CF, OF; lia). rewrite sign_changed by assumption.
  rewrite (bind_run _ _ _ _ _ (OF_if _ _ (setf CF cf (m_flags s)) false s
             ltac:(eauto with diana))).
  pose proof (modulus_le n Hn).
  rewrite (shift_end s d n x n _ _ false B) by (lia || eauto with diana).
  now rewrite (Z.mod_small v) by lia.
Qed.
End ShiftProofs.
