(* ===== verification/RegisterProofs.v ===== *)
(** The registers of a processor: what a store of each width leaves, and that the initialisation of the
    register table gives a processor whose registers are all in place. *)

From Stdlib Require Import ZArith Lia List Bool.
Import ListNotations.
From S2P Require Import Prelude Words Status Registers ProcStreams Processor CmdInternal.
From S2P Require Import CmdString ProcessorInit State Exec Operands Rules.
From S2P Require Import CmdMove.
Local Open Scope Z_scope.
Local Open Scope diana_scope.

(** ** Loads and stores of overlapping ranges *)

Lemma le_decode_app xs ys :
  le_decode (xs ++ ys) = le_decode xs + 2 ^ (8 * Z.of_nat (length xs)) * le_decode ys.
Proof.
  induction xs as [|x xs IH]; cbn [app le_decode length].
  - change (2 ^ (8 * Z.of_nat 0)) with 1. lia.
  - rewrite IH, pow256_S. ring.
Qed.

Lemma buf_load_split buf off a b :
  0 <= off -> 0 <= a -> 0 <= b -> off + (a + b) <= Z.of_nat (length buf) ->
  buf_load buf off (a + b) = buf_load buf off a + 2 ^ (8 * a) * buf_load buf (off + a) b.
Proof.
  intros H0 Ha Hb HB. unfold buf_load.
  assert (E : buf_bytes buf off (a + b) = buf_bytes buf off a ++ buf_bytes buf (off + a) b).
  { apply (list_ext_nth _ _ 0).
    - rewrite length_app, !buf_bytes_length by lia. lia.
    - intros i Hi. rewrite buf_bytes_length in Hi by lia. rewrite buf_bytes_nth by lia.
      destruct (Nat.ltb_spec i (Z.to_nat a)).
      + rewrite app_nth1 by (rewrite buf_bytes_length; lia). now rewrite buf_bytes_nth by lia.
      + rewrite app_nth2 by (rewrite buf_bytes_length; lia).
        rewrite buf_bytes_length by lia. rewrite buf_bytes_nth by lia. f_equal. lia. }
  rewrite E, le_decode_app. rewrite buf_bytes_length by lia. now rewrite Z2Nat.id by lia.
Qed.

(** A load inside of what was stored. *)
Lemma buf_load_inside buf off n v off' n' :
  0 <= off -> 0 <= n -> off + n <= Z.of_nat (length buf) ->
  off <= off' -> 0 <= n' -> off' + n' <= off + n ->
  buf_load (buf_store buf off n v) off' n' = (v / 2 ^ (8 * (off' - off))) mod 2 ^ (8 * n').
Proof.
  intros H0 Hn HB H1 Hn' H2. unfold buf_load.
  pose proof (buf_store_length buf off n v H0 Hn HB) as L.
  assert (E : buf_bytes (buf_store buf off n v) off' n' =
              le_encode (Z.to_nat n') (v / 2 ^ (8 * (off' - off)))).
  { apply (list_ext_nth _ _ 0).
    - rewrite buf_bytes_length, le_encode_length by lia. reflexivity.
    - intros i Hi. rewrite buf_bytes_length in Hi by lia.
      rewrite buf_bytes_nth, buf_store_nth, le_encode_nth by lia.
      destruct (Z.leb_spec off (Z.of_nat (Z.to_nat off' + i))),
        (Z.ltb_spec (Z.of_nat (Z.to_nat off' + i)) (off + n)); try lia. cbn [andb].
      rewrite Z.div_div by (try apply Z.pow_pos_nonneg; try apply Z.pow_nonzero; lia).
      rewrite <- Z.pow_add_r by lia. do 3 f_equal. lia. }
  rewrite E, le_decode_encode. now rewrite Z2Nat.id by lia.
Qed.

(** [old] with the [w] bytes from byte [a] on replaced by [v]. *)
Definition replace_bytes (old a w v : Z) : Z :=
  old mod 2 ^ (8 * a) + 2 ^ (8 * a) * (v mod 2 ^ (8 * w)) +
  2 ^ (8 * (a + w)) * (old / 2 ^ (8 * (a + w))).

Lemma buf_load_parts buf off a w b :
  Forall byte_ok buf -> 0 <= off -> 0 <= a -> 0 <= w -> 0 <= b ->
  off + (a + (w + b)) <= Z.of_nat (length buf) ->
  let old := buf_load buf off (a + (w + b)) in
  buf_load buf off a = old mod 2 ^ (8 * a) /\
  buf_load buf (off + a + w) b = old / 2 ^ (8 * (a + w)).
Proof.
  intros Hb H0 Ha Hw Hb0 HB old. unfold old.
  rewrite (buf_load_split buf off a (w + b)) by lia.
  rewrite (buf_load_split buf (off + a) w b) by lia.
  pose proof (buf_load_range buf off a Hb ltac:(lia) ltac:(lia) ltac:(lia)).
  pose proof (buf_load_range buf (off + a) w Hb ltac:(lia) ltac:(lia) ltac:(lia)).
  pose proof (Z.pow_pos_nonneg 2 (8 * a) ltac:(lia) ltac:(lia)).
  pose proof (Z.pow_pos_nonneg 2 (8 * w) ltac:(lia) ltac:(lia)).
  split.
  - rewrite Z.mul_comm, Z.mod_add by lia. now rewrite Z.mod_small.
  - replace (8 * (a + w)) with (8 * a + 8 * w) by lia. rewrite Z.pow_add_r by lia.
    rewrite <- Z.div_div by lia. rewrite (Z.mul_comm (2 ^ (8 * a)) (_ + _)), Z.div_add by lia.
    rewrite (Z.div_small (buf_load buf off a)) by lia. rewrite Z.add_0_l.
    rewrite Z.mul_comm, Z.div_add by lia. rewrite Z.div_small by lia. lia.
Qed.

(** A load around what was stored. *)
Lemma buf_load_around buf off w v off' n' :
  Forall byte_ok buf -> 0 <= off' -> 0 <= w ->
  off' <= off -> off + w <= off' + n' -> off' + n' <= Z.of_nat (length buf) ->
  buf_load (buf_store buf off w v) off' n' =
  replace_bytes (buf_load buf off' n') (off - off') w v.
Proof.
  intros Hb H0 Hw H1 H2 HB. set (a := off - off'). set (b := off' + n' - (off + w)).
  pose proof (buf_store_length buf off w v ltac:(lia) Hw ltac:(lia)) as L.
  replace n' with (a + (w + b)) by (unfold a, b; lia).
  rewrite (buf_load_split _ off' a (w + b)) by (unfold a, b; lia).
  rewrite (buf_load_split _ (off' + a) w b) by (unfold a, b; lia).
  replace (off' + a) with off by (unfold a; lia).
  rewrite buf_load_store_same by lia.
  rewrite !buf_load_store_disjoint by (unfold a, b; lia).
  destruct (buf_load_parts buf off' a w b Hb H0 ltac:(unfold a; lia) Hw ltac:(unfold b; lia)
              ltac:(unfold a, b; lia)) as (Ea & Eb).
  replace (off' + a + w) with (off + w) in Eb by (unfold a; lia).
  rewrite Ea, Eb. unfold replace_bytes.
  replace (8 * (a + w)) with (8 * a + 8 * w) by lia.
  rewrite (Z.pow_add_r 2 (8 * a)) by (unfold a; lia). ring.
Qed.

(** ** The general registers overlap only by nesting *)

Lemma in_gprs r : existsb (Z.eqb r) gprs = true -> In r gprs.
Proof. rewrite existsb_exists. intros (x & Hx & ->%Z.eqb_eq). exact Hx. Qed.

(** [gpr] shows that a closed register number is a general register. *)
Ltac gpr := apply in_gprs; reflexivity.

Definition nested_or_apart (r q : Z) : bool :=
  let a := roff r in let b := roff r + (if widened r then 8 else rsize r) in
  let c := roff q in let d := roff q + rsize q in
  ((b <=? c) || (d <=? a)) || ((a <=? c) && (d <=? roff r + rsize r)) ||
  ((c <=? a) && (roff r + rsize r <=? d) && (if widened r then (a =? c) else true)).

Lemma gprs_nested : forallb (fun r => forallb (nested_or_apart r) gprs) gprs = true.
Proof. vm_compute. reflexivity. Qed.

(** What a store of [v] to the [w] bytes at [off] does to the number at [off'] of [n] bytes. *)
Definition overlay (off w v off' n old : Z) : Z :=
  if (off <=? off') && (off' + n <=? off + w) then (v / 2 ^ (8 * (off' - off))) mod 2 ^ (8 * n)
  else if (off' <=? off) && (off + w <=? off' + n) then replace_bytes old (off - off') w v
  else old.

Section RegisterProofs.
Context {T : Type} `{RandomStreamOk T}.
Implicit Types s : DianaProcessor T.

(** A narrow window is the low part of a wide one. *)
Lemma window_mod s r a n :
  wf s -> int_reg r -> 0 < a <= n -> n <= 8 -> window s r n mod modulus a = window s r a.
Proof.
  intros W R Ha Hn. pose proof (ir_off r R). pose proof (ir_end r R). pose proof (wf_length s W).
  unfold window, modulus. replace n with (a + (n - a)) by lia. rewrite buf_load_split by lia.
  rewrite (Z.mul_comm (2 ^ (8 * a)) (buf_load _ _ _)).
  rewrite Z.mod_add by (apply Z.pow_nonzero; lia).
  apply Z.mod_small. apply buf_load_range; try lia. apply (wf_bytes s W).
Qed.

Lemma window_put_window s off w v r n :
  wf s -> 0 <= off -> 0 <= w -> off + w <= 4096 -> int_reg r -> opsize n ->
  (off + w <= roff r \/ roff r + n <= off \/
   (off <= roff r /\ roff r + n <= off + w) \/ (roff r <= off /\ off + w <= roff r + n)) ->
  0 < w ->
  window (put_window off w v s) r n = overlay off w v (roff r) n (window s r n).
Proof.
  intros W Ho Hw HB R Hn C Hw0. pose proof (ir_off r R). pose proof (ir_end r R).
  pose proof (opsize_pos n Hn). pose proof (wf_length s W) as L. pose proof (wf_bytes s W) as Hb.
  unfold window, put_window, with_pRegistersVector, overlay. cbn [m_pRegistersVector].
  destruct (Z.leb_spec off (roff r)), (Z.leb_spec (roff r + n) (off + w)),
    (Z.leb_spec (roff r) off), (Z.leb_spec (off + w) (roff r + n)); cbn [andb];
    try (now apply buf_load_inside; lia); try (now apply buf_load_around; auto; lia);
    apply buf_load_store_disjoint; lia.
Qed.

(** The value of [q] after a store of [v] to [r]. *)
Definition after_store s (r v q : Z) : Z :=
  overlay (roff r) (widen s r (rsize r)) (v mod modulus (rsize r)) (roff q) (rsize q) (rval s q).

Lemma put_register_rval s r v q :
  wf s -> In r gprs -> In q gprs ->
  rval (put_register r v s) q = after_store s r v q.
Proof.
  intros W Hr Hq. pose proof (int_regs_ok r (gprs_int r Hr)) as R.
  pose proof (int_regs_ok q (gprs_int q Hq)) as Q.
  pose proof (ir_size r R) as Sr. pose proof (ir_size q Q) as Sq.
  pose proof (opsize_pos _ Sr). pose proof (widen_range s r _ Sr).
  pose proof (ir_off r R). pose proof (ir_end r R).
  unfold rval, put_register, put_low, after_store.
  apply window_put_window; auto; try lia.
  pose proof gprs_nested as N. rewrite forallb_forall in N. specialize (N r Hr).
  rewrite forallb_forall in N. specialize (N q Hq). unfold nested_or_apart in N.
  pose proof (opsize_pos _ Sq).
  assert (Wd : widen s r (rsize r) = rsize r \/ widened r = true /\ widen s r (rsize r) = 8).
  { unfold widen. destruct (Z.eqb_spec (rsize r) 4), (iAMD64Mode (m_context s) =? 0), (widened r);
      cbn; auto. }
  rewrite !orb_true_iff, !andb_true_iff, !Z.leb_le in N.
  destruct (widened r) eqn:Ew; [rewrite Z.eqb_eq in N|]; destruct Wd as [->|[Wd ->]];
    try discriminate; lia.
Qed.

(** Registers that are no general registers. *)
Lemma put_low_apart s r m v q n :
  wf s -> int_reg r -> opsize m -> int_reg q -> opsize n ->
  (roff r + 8 <= roff q \/ roff q + n <= roff r) ->
  window (put_low r m v s) q n = window s q n.
Proof.
  intros W R Hm Q Hn A.
  pose proof (opsize_pos _ Hm). pose proof (widen_range s r _ Hm). pose proof (opsize_pos n Hn).
  pose proof (ir_off r R). pose proof (ir_end r R).
  unfold put_low. rewrite window_put_window by (auto; lia).
  unfold overlay.
  destruct (Z.leb_spec (roff r) (roff q)), (Z.leb_spec (roff q + n) (roff r + widen s r m)),
    (Z.leb_spec (roff q) (roff r)), (Z.leb_spec (roff r + widen s r m) (roff q + n));
    cbn [andb]; try reflexivity; lia.
Qed.

Lemma put_register_apart s r v q n :
  wf s -> int_reg r -> int_reg q -> opsize n ->
  (roff r + 8 <= roff q \/ roff q + n <= roff r) ->
  window (put_register r v s) q n = window s q n.
Proof. intros W R. apply put_low_apart; auto. apply (ir_size r R). Qed.

(** A register reads back what was stored. *)
Lemma put_register_same s r v :
  wf s -> In r gprs -> rval (put_register r v s) r = v mod modulus (rsize r).
Proof.
  intros W Hr. rewrite put_register_rval by assumption. unfold after_store, overlay.
  pose proof (int_regs_ok r (gprs_int r Hr)) as R. pose proof (ir_size r R) as Sr.
  pose proof (widen_range s r _ Sr). pose proof (modulus_pos (rsize r)).
  rewrite Z.leb_refl. destruct (Z.leb_spec (roff r + rsize r) (roff r + widen s r (rsize r))); [|lia].
  cbn [andb]. rewrite Z.sub_diag. change (2 ^ (8 * 0)) with 1. rewrite Z.div_1_r.
  apply Z.mod_mod. fold (modulus (rsize r)). pose proof (opsize_pos _ Sr). lia.
Qed.
End RegisterProofs.

(** ** The registers of the architecture

    The sixteen registers of 64 bits with the names of their parts: the first byte of each part in its
    register, and its bytes. *)

Definition low_parts (e w b : Z) : list (Z * Z * Z) := [(e, 0, 4); (w, 0, 2); (b, 0, 1)].

Definition register_parts : list (Z * list (Z * Z * Z)) :=
  [(reg_RAX, (reg_AH, 1, 1) :: low_parts reg_EAX reg_AX reg_AL);
   (reg_RCX, (reg_CH, 1, 1) :: low_parts reg_ECX reg_CX reg_CL);
   (reg_RDX, (reg_DH, 1, 1) :: low_parts reg_EDX reg_DX reg_DL);
   (reg_RBX, (reg_BH, 1, 1) :: low_parts reg_EBX reg_BX reg_BL);
   (reg_RSP, low_parts reg_ESP reg_SP reg_SPL); (reg_RBP, low_parts reg_EBP reg_BP reg_BPL);
   (reg_RSI, low_parts reg_ESI reg_SI reg_SIL); (reg_RDI, low_parts reg_EDI reg_DI reg_DIL);
   (reg_R8, low_parts reg_R8D reg_R8W reg_R8B); (reg_R9, low_parts reg_R9D reg_R9W reg_R9B);
   (reg_R10, low_parts reg_R10D reg_R10W reg_R10B); (reg_R11, low_parts reg_R11D reg_R11W reg_R11B);
   (reg_R12, low_parts reg_R12D reg_R12W reg_R12B); (reg_R13, low_parts reg_R13D reg_R13W reg_R13B);
   (reg_R14, low_parts reg_R14D reg_R14W reg_R14B); (reg_R15, low_parts reg_R15D reg_R15W reg_R15B)].

(** [r] is [size] bytes of the register [wide], from byte [first] on. *)
Definition part_of (r wide first size : Z) : Prop := exists parts,
  In (wide, parts) register_parts /\ In (r, first, size) ((wide, 0, 8) :: parts).

(** The [n] bits of [x] from bit [low] on, and [x] with these bits replaced by those of [v]. *)
Definition part (x low n : Z) : Z := (x / 2 ^ low) mod 2 ^ n.
Definition with_part (x low n v : Z) : Z := x + (v mod 2 ^ n - part x low n) * 2 ^ low.

(** *** The register table of the code has this layout *)

Definition part_facts (wide : Z) (entry : Z * Z * Z) : bool :=
  let '(r, first, size) := entry in
  existsb (Z.eqb r) gprs && (roff r =? roff wide + first) && (rsize r =? size) &&
  (0 <=? first) && (first + size <=? 8) && Bool.eqb (widened r) (size =? 4) && (negb (size =? 4) || (first =? 0)).

Lemma register_parts_facts :
  forallb (fun w => forallb (part_facts (fst w)) ((fst w, 0, 8) :: snd w)) register_parts = true.
Proof. vm_compute. reflexivity. Qed.

Lemma wide_registers_apart : forallb (fun w => forallb (fun w' => (fst w =? fst w') ||
  (roff (fst w) + 8 <=? roff (fst w')) || (roff (fst w') + 8 <=? roff (fst w))) register_parts) register_parts = true.
Proof. vm_compute. reflexivity. Qed.

Record part_layout (r wide first size : Z) : Prop := {
  pl_gpr : In r gprs;
  pl_off : roff r = roff wide + first;
  pl_size : rsize r = size;
  pl_first : 0 <= first;
  pl_end : first + size <= 8;
  pl_widened : widened r = (size =? 4);
  pl_low : size = 4 -> first = 0
}.

Lemma part_of_layout r wide first size : part_of r wide first size -> part_layout r wide first size.
Proof.
  intros (parts & Hw & Hr). pose proof register_parts_facts as F. rewrite forallb_forall in F.
  specialize (F _ Hw). rewrite forallb_forall in F. cbn [fst snd] in F. specialize (F _ Hr).
  unfold part_facts in F. rewrite !andb_true_iff, orb_true_iff, negb_true_iff, !Z.eqb_eq, !Z.leb_le, Z.eqb_neq in F.
  destruct F as ((((((F1 & F2) & F3) & F4) & F5) & F6) & F7). apply eqb_prop in F6.
  constructor; auto; [now apply in_gprs|]. intros E. now destruct F7.
Qed.

Lemma part_of_wide r wide first size : part_of r wide first size -> part_of wide wide 0 8.
Proof. intros (parts & Hw & _). exists parts. split; [exact Hw|now left]. Qed.

(** Two parts of one register, or of registers that are apart. *)
Lemma parts_apart r wide first size r' wide' first' size' :
  part_of r wide first size -> part_of r' wide' first' size' ->
  wide = wide' \/ roff wide + 8 <= roff wide' \/ roff wide' + 8 <= roff wide.
Proof.
  intros (p & Hw & _) (p' & Hw' & _). pose proof wide_registers_apart as A. rewrite forallb_forall in A.
  specialize (A _ Hw). rewrite forallb_forall in A. specialize (A _ Hw'). cbn [fst] in A.
  rewrite !orb_true_iff, Z.eqb_eq, !Z.leb_le in A. tauto.
Qed.

Lemma replace_bytes_part old a w v : 0 <= a -> 0 <= w ->
  replace_bytes old a w v = with_part old (8 * a) (8 * w) v.
Proof.
  intros Ha Hw. unfold replace_bytes, with_part, part. replace (8 * (a + w)) with (8 * a + 8 * w) by lia.
  rewrite Z.pow_add_r by lia.
  assert (0 < 2 ^ (8 * a)) by (apply Z.pow_pos_nonneg; lia).
  assert (0 < 2 ^ (8 * w)) by (apply Z.pow_pos_nonneg; lia).
  rewrite <- Z.div_div by lia.
  pose proof (Z.div_mod old (2 ^ (8 * a)) ltac:(lia)) as E1.
  pose proof (Z.div_mod (old / 2 ^ (8 * a)) (2 ^ (8 * w)) ltac:(lia)) as E2.
  set (q := old / 2 ^ (8 * a)) in *. set (A := 2 ^ (8 * a)) in *. set (B := 2 ^ (8 * w)) in *.
  set (d := q / B) in *. set (m := q mod B) in *. set (low := old mod A) in *. clearbody d m low.
  rewrite E1, E2. ring.
Qed.

Lemma overlay_part o first size v old : 0 <= first -> 1 <= size -> first + size <= 8 -> 0 <= old < 2 ^ 64 ->
  overlay (o + first) size (v mod modulus size) o 8 old = with_part old (8 * first) (8 * size) v.
Proof.
  intros Hf Hs He Ho. assert (0 < 2 ^ (8 * size)) by (apply Z.pow_pos_nonneg; lia).
  unfold overlay. rewrite replace_bytes_part by lia. replace (o + first - o) with first by lia.
  destruct (Z.leb_spec (o + first) o), (Z.leb_spec (o + 8) (o + first + size)); cbn [andb].
  1: { assert (first = 0 /\ size = 8) as [-> ->] by lia. rewrite Z.add_0_r, Z.sub_diag. cbn [Z.mul].
    change (2 ^ 0) with 1. rewrite Z.div_1_r. unfold modulus. rewrite Z.mod_mod by discriminate.
    unfold with_part, part. rewrite Z.div_1_r, (Z.mod_small old) by exact Ho. cbn [Z.mul Pos.mul]. lia. }
  all: destruct (Z.leb_spec o (o + first)); [|lia]; destruct (Z.leb_spec (o + first + size) (o + 8)); [|lia];
    cbn [andb]; unfold with_part, modulus; now rewrite Z.mod_mod by lia.
Qed.

Lemma overlay_wide o v old : overlay o 8 (v mod modulus 4) o 8 old = v mod 2 ^ 32.
Proof.
  unfold overlay. rewrite Z.leb_refl, Z.leb_refl, Z.sub_diag. cbn [andb Z.mul]. change (2 ^ 0) with 1.
  rewrite Z.div_1_r. change (modulus 4) with (2 ^ 32). apply Z.mod_small.
  pose proof (Z.mod_pos_bound v (2 ^ 32) ltac:(lia)). change (2 ^ (8 * 8)) with (2 ^ 64). lia.
Qed.

Lemma overlay_apart off w v off' n old : 0 < w -> 0 < n -> off + w <= off' \/ off' + n <= off ->
  overlay off w v off' n old = old.
Proof.
  intros Hw Hn A. unfold overlay. destruct (Z.leb_spec off off'), (Z.leb_spec (off' + n) (off + w)),
    (Z.leb_spec off' off), (Z.leb_spec (off + w) (off' + n)); cbn [andb]; try reflexivity; lia.
Qed.

Section Parts.
Context {T : Type} `{RandomStreamOk T}.
Implicit Types s : DianaProcessor T.

(** A register is read as its part of the 64-bit register. *)
Lemma part_value s r wide first size : wf s -> part_of r wide first size ->
  rval s r = part (rval s wide) (8 * first) (8 * size).
Proof.
  intros W P. pose proof (part_of_layout _ _ _ _ P) as [G Eo Es Hf He _ _].
  pose proof (part_of_layout _ _ _ _ (part_of_wide _ _ _ _ P)) as [G' _ Es' _ _ _ _].
  pose proof (int_regs_ok _ (gprs_int _ G')) as R. pose proof (ir_off _ R). pose proof (ir_end _ R).
  pose proof (opsize_pos _ (ir_size _ (int_regs_ok _ (gprs_int _ G)))) as Hs. rewrite Es in Hs.
  pose proof (wf_length s W). unfold rval, window, part. rewrite Es, Es', Eo.
  replace 8 with (first + (8 - first)) at 1 by lia. rewrite (buf_load_split _ (roff wide) first (8 - first)) by lia.
  replace (8 - first) with (size + (8 - first - size)) by lia.
  rewrite (buf_load_split _ (roff wide + first) size) by lia.
  pose proof (buf_load_range _ (roff wide) first (wf_bytes s W) ltac:(lia) ltac:(lia) ltac:(lia)).
  pose proof (buf_load_range _ (roff wide + first) size (wf_bytes s W) ltac:(lia) ltac:(lia) ltac:(lia)).
  assert (0 < 2 ^ (8 * first)) by (apply Z.pow_pos_nonneg; lia).
  rewrite (Z.mul_comm (2 ^ (8 * first))), Z.div_add, Z.div_small, Z.add_0_l by lia.
  rewrite Z.mul_comm, Z.mod_add by lia. symmetry. now apply Z.mod_small.
Qed.

Lemma get_part s q wide first size : wf s -> part_of q wide first size ->
  GET_REG q s = (Ok (part (rval s wide) (8 * first) (8 * size)), s).
Proof.
  intros W P. rewrite <- (part_value s q wide first size W P).
  pose proof (int_regs_ok q (gprs_int q (pl_gpr _ _ _ _ (part_of_layout _ _ _ _ P)))) as R.
  pose proof (GET_REG_tw q (m_flags s) false s W (wf_flag_word s W) R) as E. now rewrite tw_id in E.
Qed.

(** What a store to a part leaves in the 64-bit registers. *)
Lemma part_stored s r wide first size v w : wf s -> part_of r wide first size -> part_of w w 0 8 ->
  rval (put_register r v s) w =
  if w =? wide then
    if (size =? 4) && negb (iAMD64Mode (m_context s) =? 0) then v mod 2 ^ 32
    else with_part (rval s wide) (8 * first) (8 * size) v
  else rval s w.
Proof.
  intros W P Pw. pose proof (part_of_layout _ _ _ _ P) as [G Eo Es Hf He Ew El].
  pose proof (part_of_layout _ _ _ _ Pw) as [G' _ Es' _ _ _ _].
  pose proof (opsize_pos _ (ir_size _ (int_regs_ok _ (gprs_int _ G)))) as Hs. rewrite Es in Hs.
  rewrite put_register_rval by assumption. unfold after_store, widen. rewrite Ew, Es, Es', Eo.
  pose proof (rval_range s w W (int_regs_ok _ (gprs_int _ G'))) as Hr. unfold modulus in Hr. rewrite Es' in Hr.
  destruct (parts_apart _ _ _ _ _ _ _ _ P Pw) as [<-|A].
  - rewrite Z.eqb_refl. destruct (Z.eqb_spec size 4) as [E4|N4]; cbn [andb].
    + rewrite E4, (El E4). destruct (negb _); cbn [andb].
      * rewrite Z.add_0_r. apply overlay_wide.
      * now apply overlay_part.
    + now apply overlay_part.
  - destruct (Z.eqb_spec w wide) as [->|_]; [lia|].
    apply overlay_apart; [|lia|]; destruct (Z.eqb_spec size 4) as [E4|N4]; cbn [andb];
      try rewrite (El E4); try destruct (negb _ && _); lia.
Qed.
End Parts.

(** ** The registration does not depend on the contents of the vector *)

Section Registration.
Context {T : Type}.
Implicit Types s : DianaProcessor T.

(** The vector replaced by [v]. *)
Definition with_vec (v : list Z) s : DianaProcessor T := with_pRegistersVector (fun _ => v) s.

(** The vector has room for the register. *)
Definition fits (n : Z) (c : RegisterCall) s : bool :=
  match c with
  | REGISTER_REGISTER r => m_iLastRegistersOffset s + SIZE_of r <=? n
  | REGISTER_SUB_REGISTER _ _ _ => true
  end.

Fixpoint all_fit (m_alloc : allocator) (n : Z) (cs : list RegisterCall) s : bool :=
  match cs with
  | [] => true
  | c :: cs => fits n c s && all_fit m_alloc n cs (register_call m_alloc c s)
  end.

(** A registration that fits does not look at the vector and does not allocate. *)
Lemma register_call_vec a a' c v s :
  length v = length (m_pRegistersVector s) ->
  fits (Z.of_nat (length v)) c s = true ->
  register_call a c (with_vec v s) = with_vec v (register_call a' c s).
Proof.
  intros L F. destruct c as [r|r p o]; [|reflexivity].
  apply Z.leb_le in F. unfold register_call, Diana_RegisterRegister. rewrite !bind_gets.
  cbn [m_iLastRegistersOffset m_pRegistersVector with_vec with_pRegistersVector].
  rewrite <- L. destruct (Z.ltb_spec (Z.of_nat (length v)) (m_iLastRegistersOffset s + SIZE_of r));
    [lia|]. reflexivity.
Qed.

Lemma register_call_length a c s : fits (Z.of_nat (length (m_pRegistersVector s))) c s = true ->
  m_pRegistersVector (register_call a c s) = m_pRegistersVector s.
Proof.
  intros F. destruct c as [r|r p o]; [|reflexivity].
  apply Z.leb_le in F. unfold register_call, Diana_RegisterRegister. rewrite !bind_gets.
  destruct (Z.ltb_spec (Z.of_nat (length (m_pRegistersVector s))) (m_iLastRegistersOffset s + SIZE_of r));
    [lia|]. reflexivity.
Qed.

Lemma registrations_vec a a' cs v : forall s,
  length v = length (m_pRegistersVector s) ->
  all_fit a' (Z.of_nat (length v)) cs s = true ->
  fold_left (fun s c => register_call a c s) cs (with_vec v s) =
  with_vec v (fold_left (fun s c => register_call a' c s) cs s).
Proof.
  induction cs as [|c cs IH]; intros s L F; [reflexivity|].
  cbn [all_fit fold_left] in *. apply andb_true_iff in F. destruct F as [F1 F2].
  rewrite (register_call_vec a a' c v s L F1). apply IH; [|exact F2].
  rewrite register_call_length; [exact L|]. now rewrite <- L.
Qed.
End Registration.

(** ** The initial state *)

Section InitProofs.
Context {T : Type} `{RandomStreamOk T}.

(** The end of the registers in the vector, and the flags at the start. *)
Definition registers_end : Z :=
  Eval vm_compute in m_iLastRegistersOffset (snd (DianaProcessor_Init plenty tt DIANA_MODE64)).
Definition default_flags : Z :=
  Eval vm_compute in m_flags (snd (DianaProcessor_Init plenty tt DIANA_MODE64)).

(** The processor that [DianaProcessor_Init] leaves. *)
Definition initial (pMemoryStream : T) (mode : Z) : DianaProcessor T :=
  {| m_iLastRegistersOffset := registers_end;
     m_pRegistersVector := repeat 0 4096;
     m_registers := register_table;
     m_pMemoryStream := pMemoryStream;
     m_flags := default_flags;
     m_context := Diana_InitContext mode;
     m_result := mkDianaParserResult 0 0 [] 0 0 0;
     m_stateFlags := 0;
     m_stateFlagsToRemove := 0;
     m_tempRIP := 0;
     m_fpu := {| controlWord := 0x037F; statusWord := 0; registerFlags := repeat 0 8 |};
     m_options := 0;
     m_initialDianaMode := mode;
     m_lastCallRIP := 0;
     m_lastCallRSP := 0;
     m_random := DianaProcessRandom_Init;
     m_mxcsr := DI_MXCSR_DEFAULT;
     m_pkru := 0 |}.

(** The state the registration starts from, with a vector of zeros. *)
Definition unregistered (pMemoryStream : T) (mode : Z) : DianaProcessor T :=
  with_vec (repeat 0 4096)
    (snd ((modify (with_context (fun _ => Diana_InitContext mode)) ;;;
           modify (with_initialDianaMode (fun _ => mode)) ;;;
           modify (with_random (fun _ => DianaProcessRandom_Init)) ;;;
           DianaProcessor_SetResetDefaultFlags ;;;
           DianaProcessor_ResetFPU ;;;
           modify (with_mxcsr (fun _ => DI_MXCSR_DEFAULT)) ;;;
           modify (with_pkru (fun _ => 0)))
          (zeroed_processor pMemoryStream))).

Lemma unregistered_fits t mode :
  all_fit plenty 4096 registrations (unregistered t mode) = true.
Proof. vm_compute. reflexivity. Qed.

Lemma unregistered_registered t mode :
  fold_left (fun s c => register_call plenty c s) registrations (unregistered t mode) =
  initial t mode.
Proof. vm_compute. reflexivity. Qed.

Lemma map_zero (l : list Z) : map (fun _ => 0) l = repeat 0 (length l).
Proof. induction l as [|x l IH]; cbn; [reflexivity|now rewrite IH]. Qed.

Lemma zero_vec v (s : DianaProcessor T) :
  with_pRegistersVector (fun v => map (fun _ => 0) v) (with_vec v s) = with_vec (repeat 0 (length v)) s.
Proof. unfold with_vec, with_pRegistersVector. cbn [m_pRegistersVector]. now rewrite map_zero. Qed.

Lemma Init_runs (a : allocator) block t mode :
  a DI_REG_INIT_VALUE = Some block -> length block = 4096%nat ->
  DianaProcessor_Init a t mode = (Ok tt, initial t mode).
Proof.
  intros A L. unfold DianaProcessor_Init, DianaProcessor_InitProcessorImpl. rewrite A.
  assert (E : fold_left (fun s c => register_call a c s) registrations
                (with_vec block (unregistered t mode)) = with_vec block (initial t mode)).
  { refine (eq_trans (registrations_vec a plenty registrations block (unregistered t mode) _ _) _).
    - rewrite L. symmetry. exact (repeat_length 0 4096).
    - rewrite L. replace (Z.of_nat 4096) with 4096 by (vm_compute; reflexivity).
      exact (unregistered_fits t mode).
    - exact (f_equal (with_vec block) (unregistered_registered t mode)). }
  rewrite !bind_modify. unfold DianaProcessor_ResetFPU.
  set (s0 := with_random _ _).
  transitivity (Ok tt, with_pRegistersVector (fun v => map (fun _ => 0) v)
     (fold_left (fun s c => register_call a c s) registrations (with_vec block (unregistered t mode)))).
  - reflexivity.
  - rewrite E, zero_vec, L. unfold with_vec, with_pRegistersVector, initial.
    reflexivity.
Qed.

Lemma block_length (block : list Z) :
  Z.of_nat (length block) = DI_REG_INIT_VALUE -> length block = 4096%nat.
Proof. intros E. apply Nat2Z.inj. rewrite E. vm_compute. reflexivity. Qed.

Lemma Init_out_of_memory (a : allocator) (t : T) mode :
  a DI_REG_INIT_VALUE = None -> fst (DianaProcessor_Init a t mode) = Err DI_OUT_OF_MEMORY.
Proof.
  intros A. unfold DianaProcessor_Init, DianaProcessor_InitProcessorImpl. rewrite A. reflexivity.
Qed.

Lemma repeat_bytes n : Forall byte_ok (repeat 0 n).
Proof. induction n; constructor; [unfold byte_ok; lia|assumption]. Qed.

Lemma initial_wf t mode : stream_wf t -> wf (initial t mode).
Proof.
  intros W. constructor.
  - reflexivity.
  - exact (repeat_length 0 4096).
  - apply repeat_bytes.
  - split; [vm_compute; discriminate|vm_compute; reflexivity].
  - exact W.
Qed.

Lemma In_firstn {A} n (l : list A) x : In x (firstn n l) -> In x l.
Proof. intros Hx. rewrite <- (firstn_skipn n l). apply in_or_app. now left. Qed.

Lemma In_skipn {A} n (l : list A) x : In x (skipn n l) -> In x l.
Proof. intros Hx. rewrite <- (firstn_skipn n l). apply in_or_app. now right. Qed.

Lemma le_decode_zeros bs : Forall (eq 0) bs -> le_decode bs = 0.
Proof. induction 1 as [|b bs <- _ IH]; cbn [le_decode]; [reflexivity|]. now rewrite IH. Qed.

Lemma initial_registers t mode r : rval (initial t mode) r = 0.
Proof.
  apply le_decode_zeros, Forall_forall. intros x Hx. unfold buf_bytes in Hx.
  apply In_firstn, In_skipn in Hx. symmetry. exact (repeat_spec 4096 0 x Hx).
Qed.

Lemma initial_idle t mode : idle (initial t mode).
Proof. split; reflexivity. Qed.
End InitProofs.

(** ** The layout of the registers *)

(** The registers with bytes of their own. *)
Definition main_registers : list Z :=
  flat_map (fun c => match c with REGISTER_REGISTER r => [r] | _ => [] end) registrations.

Definition apart_or_same (r q : Z) : bool :=
  (r =? q) || (roff r + rsize r <=? roff q) || (roff q + rsize q <=? roff r).

Definition placed (c : RegisterCall) : bool :=
  match c with
  | REGISTER_REGISTER r => (0 <=? roff r) && (roff r + rsize r <=? 4096)
  | REGISTER_SUB_REGISTER r p o =>
      (roff r =? roff p + o) && (0 <=? o) && (o + rsize r <=? rsize p)
  end.

Lemma main_registers_apart :
  forallb (fun r => forallb (apart_or_same r) main_registers) main_registers = true.
Proof. vm_compute. reflexivity. Qed.

Lemma registrations_placed : forallb placed registrations = true.
Proof. vm_compute. reflexivity. Qed.

Lemma main_apart r q : In r main_registers -> In q main_registers -> r <> q ->
  roff r + rsize r <= roff q \/ roff q + rsize q <= roff r.
Proof.
  intros Hr Hq N. pose proof main_registers_apart as A.
  rewrite forallb_forall in A. specialize (A r Hr). rewrite forallb_forall in A. specialize (A q Hq).
  unfold apart_or_same in A. rewrite !orb_true_iff, Z.eqb_eq, !Z.leb_le in A. lia.
Qed.

Lemma sub_inside r p o : In (REGISTER_SUB_REGISTER r p o) registrations ->
  roff r = roff p + o /\ 0 <= o /\ o + rsize r <= rsize p.
Proof.
  intros Hin. pose proof registrations_placed as A. rewrite forallb_forall in A.
  specialize (A _ Hin). unfold placed in A.
  rewrite !andb_true_iff, Z.eqb_eq, !Z.leb_le in A. lia.
Qed.

Lemma main_inside r : In r main_registers -> 0 <= roff r /\ roff r + rsize r <= 4096.
Proof.
  intros Hr. apply in_flat_map in Hr. destruct Hr as ([q|q p o] & Hin & Hq); [|contradiction].
  destruct Hq as [->|[]]. pose proof registrations_placed as A. rewrite forallb_forall in A.
  specialize (A _ Hin). unfold placed in A. rewrite !andb_true_iff, !Z.leb_le in A. lia.
Qed.
