(* ===== verification/Sample.v ===== *)
(** Concrete machines: a processor as [DianaProcessor_Init] leaves it, over a memory of 256
    bytes, with chosen registers, flags and a decoded instruction.  The theorems about
    instructions are tried on them. *)

From Stdlib Require Import ZArith Lia List Bool.
Import ListNotations.
From S2P Require Import Prelude Words Status Registers ProcStreams Processor CmdInternal.
From S2P Require Import CmdString ProcessorInit State Exec Operands Rules RegisterProofs.
Local Open Scope Z_scope.

(** The memory holds its own addresses. *)
Definition memory : DianaRandomMemoryStream :=
  Eval vm_compute in Diana_InitRandomMemoryStream (map Z.of_nat (seq 0 256)) 256 0.

Definition booted (mode : Z) : DianaProcessor DianaRandomMemoryStream :=
  snd (DianaProcessor_Init plenty memory mode).

Definition set_registers (regs : list (Z * Z)) (s : DianaProcessor DianaRandomMemoryStream) :=
  fold_left (fun s p => put_register (fst p) (snd p) s) regs s.

(** An instruction of operand size [opsz] with the operands [ops]. *)
Definition machine (mode opsz rex : Z) (regs : list (Z * Z)) (f : Z)
    (ops : list DianaLinkedOperand) : DianaProcessor DianaRandomMemoryStream :=
  with_flags (fun _ => f)
    (with_context (fun c => mkDianaContext (iMainMode_opsize c) opsz (iMainMode_addressSize c)
         (iCurrentCmd_addressSize c) (currentCmd_sreg c) (iAMD64Mode c) rex)
       (with_result (fun _ => mkDianaParserResult 0 0 ops (Z.of_nat (length ops)) 0 3)
          (set_registers regs (booted mode)))).

(** The same with a command identifier, and with RIP set. *)
Definition as_command (c : Z) (s : DianaProcessor DianaRandomMemoryStream) :=
  with_result (fun r => mkDianaParserResult (pInfo_flags r) c (linkedOperands r) (iLinkedOpCount r)
                          (iPrefix r) (iFullCmdSize r)) s.

Definition reg_op (r n : Z) : DianaLinkedOperand := mkDianaLinkedOperand (diana_register r) n 0.
Definition imm_op (v n : Z) : DianaLinkedOperand := mkDianaLinkedOperand (diana_imm v) n 0.
Definition rel_op (v n : Z) : DianaLinkedOperand := mkDianaLinkedOperand (diana_rel v) n 0.
Definition mem_op (base disp n : Z) : DianaLinkedOperand :=
  mkDianaLinkedOperand (diana_index (mkDianaRmIndex reg_DS base 0 0 1 disp)) n 8.

(** ** They are well formed *)

Definition bytes_ok (l : list Z) : bool := forallb (fun b => (0 <=? b) && (b <? 256)) l.

Lemma bytes_ok_spec l : bytes_ok l = true -> Forall byte_ok l.
Proof.
  unfold bytes_ok. rewrite forallb_forall, Forall_forall. intros A x Hx. specialize (A x Hx).
  rewrite andb_true_iff, Z.leb_le, Z.ltb_lt in A. exact A.
Qed.

Definition table_eqb (a b : list DianaRegInfo) : bool :=
  (length a =? length b)%nat &&
  forallb (fun p => (m_size (fst p) =? m_size (snd p)) && (m_offset (fst p) =? m_offset (snd p)))
    (combine a b).

Lemma booted_wf mode :
  mode = DIANA_MODE64 \/ mode = DIANA_MODE32 -> wf (booted mode).
Proof.
  intros [-> | ->]; constructor.
  all: try (vm_compute; reflexivity).
  all: try (apply bytes_ok_spec; vm_compute; reflexivity).
  all: try (split; [vm_compute; reflexivity|split; [vm_compute; reflexivity|]];
            apply bytes_ok_spec; vm_compute; reflexivity).
  all: split; [vm_compute; discriminate|vm_compute; reflexivity].
Qed.

Lemma set_registers_wf regs s :
  wf s -> forallb (fun p => existsb (Z.eqb (fst p)) gprs) regs = true -> wf (set_registers regs s).
Proof.
  unfold set_registers. revert s.
  induction regs as [|[r v] regs IH]; cbn [fold_left forallb fst snd]; intros s W A; [exact W|].
  apply andb_true_iff in A. destruct A as [A1 A2]. apply IH; [|exact A2].
  apply wf_put_register; [exact W|]. apply int_regs_ok, gprs_int. now apply in_gprs.
Qed.

Lemma machine_wf mode opsz rex regs f ops :
  mode = DIANA_MODE64 \/ mode = DIANA_MODE32 ->
  forallb (fun p => existsb (Z.eqb (fst p)) gprs) regs = true ->
  0 <= f < 0x10000000000000000 ->
  wf (machine mode opsz rex regs f ops).
Proof.
  intros Hm A Hf. destruct (set_registers_wf regs (booted mode) (booted_wf mode Hm) A).
  now constructor.
Qed.

Lemma set_registers_keeps regs s :
  m_stateFlags (set_registers regs s) = m_stateFlags s /\
  m_stateFlagsToRemove (set_registers regs s) = m_stateFlagsToRemove s.
Proof.
  unfold set_registers. revert s. induction regs as [|p regs IH]; intros s; [now split|].
  cbn [fold_left]. now destruct (IH (put_register (fst p) (snd p) s)) as [-> ->].
Qed.

Lemma as_command_wf c s : wf s -> wf (as_command c s).
Proof. intros []. now constructor. Qed.

Lemma machine_idle mode opsz rex regs f ops : idle (machine mode opsz rex regs f ops).
Proof.
  unfold idle, machine. cbn [m_stateFlags m_stateFlagsToRemove with_flags with_context with_result].
  destruct (set_registers_keeps regs (booted mode)) as [-> ->]. split; reflexivity.
Qed.

Lemma mapped_memory (t : DianaRandomMemoryStream) sel addr n :
  (linear t sel addr + n <=? bufferSize t) = true -> mapped t sel addr n.
Proof.
  intros E%Z.leb_le i Hi. cbn [linear cell DianaRandomMemoryStream_ok] in *.
  pose proof (memory_linear_range t sel addr). unfold memory_cell.
  destruct (Z.leb_spec 0 (memory_linear t sel addr + i)),
    (Z.ltb_spec (memory_linear t sel addr + i) (bufferSize t)); cbn [andb]; congruence || lia.
Qed.

(** Size tests of closed numbers. *)
Lemma opsize_closed n : (n =? 1) || (n =? 2) || (n =? 4) || (n =? 8) = true -> opsize n.
Proof. rewrite !orb_true_iff, !Z.eqb_eq. unfold opsize. tauto. Qed.

(** The side conditions of the sample machines. *)
Ltac sample_wf := apply machine_wf; [(left; reflexivity) || (right; reflexivity)
  | vm_compute; reflexivity | split; [vm_compute; discriminate | vm_compute; reflexivity]].
Ltac sample_range := split; [vm_compute; discriminate | vm_compute; reflexivity].
Ltac sample_reads := split; [vm_compute; reflexivity
  | split; [apply opsize_closed; reflexivity | sample_range]].
Ltac sample_gpr := apply in_gprs; vm_compute; reflexivity.
Ltac sample_writes := split; [vm_compute; reflexivity
  | split; [apply opsize_closed; reflexivity
  | split; [vm_compute; reflexivity
  | first [ split; [sample_gpr | vm_compute; reflexivity]
          | eexists; eexists; split; [vm_compute; reflexivity
            | apply mapped_memory; vm_compute; reflexivity]]]]].
Ltac sample_plain :=
  first [ right; left; reflexivity
        | right; right; left; vm_compute; discriminate
        | left; vm_compute; reflexivity
        | right; right; right; vm_compute; reflexivity ].
Ltac sample :=
  lazymatch goal with
  | |- idle _ => apply machine_idle
  | |- wf _ => sample_wf
  | |- reads _ _ _ _ => sample_reads
  | |- writes _ _ _ => sample_writes
  | |- plain_result _ _ => sample_plain
  | |- In _ gprs => sample_gpr
  | |- opsize _ => apply opsize_closed; reflexivity
  | |- _ <= _ < _ => sample_range
  | |- _ <> _ => vm_compute; discriminate
  | |- _ => vm_compute; reflexivity
  end.
