(* ===== verification/FlowProofs.v ===== *)
(** Conditions, conditional jumps, moves and sets: after [cmp] every condition is the comparison
    its mnemonic names, and the three families of handlers act on the condition alone. *)

From Stdlib Require Import ZArith Lia List Bool.
Import ListNotations.
From S2P Require Import Prelude Words Status Registers ProcStreams Processor CmdInternal.
From S2P Require Import CmdString CmdArith CmdFlow ProcessorInit State Exec Operands Rules.
From S2P Require Import ArithProofs LogicProofs.
Local Open Scope Z_scope.
Local Open Scope diana_scope.

(** ** The conditions as Boolean functions of the flags *)

Definition flag (k f : Z) : bool := Z.testbit f k.

Definition cc_a f := negb (flag CF f) && negb (flag ZF f).
Definition cc_ae f := negb (flag CF f).
Definition cc_b f := flag CF f.
Definition cc_be f := flag CF f || flag ZF f.
Definition cc_e f := flag ZF f.
Definition cc_g f := Bool.eqb (flag SF f) (flag OF f) && negb (flag ZF f).
Definition cc_ge f := Bool.eqb (flag SF f) (flag OF f).
Definition cc_l f := negb (Bool.eqb (flag SF f) (flag OF f)).
Definition cc_le f := flag ZF f || negb (Bool.eqb (flag SF f) (flag OF f)).
Definition cc_ne f := negb (flag ZF f).
Definition cc_no f := negb (flag OF f).
Definition cc_np f := negb (flag PF f).
Definition cc_ns f := negb (flag SF f).
Definition cc_o f := flag OF f.
Definition cc_p f := flag PF f.
Definition cc_s f := flag SF f.

(** ** Flags of a comparison *)

(** What [cmp] leaves. *)
Definition cmp_flags (n d y f : Z) : Z :=
  set_psz n (d - y) (set_coa (sub_CF d y 0) (sub_OF n d y 0) (sub_AF d y 0) f).

Lemma cmp_flag_CF n d y f : flag CF (cmp_flags n d y f) = (d <? y).
Proof.
  unfold flag, cmp_flags, set_psz, set_coa, sub_CF. rewrite !testbit_setf by (unfold CF, PF, AF, ZF, SF, OF; lia).
  cbn. now rewrite Z.add_0_r.
Qed.

Section CmpFlags.
Variables n d y f : Z.
Hypothesis Hn : opsize n.
Hypothesis Hd : 0 <= d < modulus n.
Hypothesis Hy : 0 <= y < modulus n.

Lemma cmp_flag_ZF : flag ZF (cmp_flags n d y f) = (d =? y).
Proof.
  unfold flag, cmp_flags, set_psz, set_coa, is_zero.
  rewrite !testbit_setf by (unfold CF, PF, AF, ZF, SF, OF; lia). cbn.
  pose proof (sub_mod n d y Hd Hy 0 ltac:(lia)) as E. rewrite Z.sub_0_r, Z.add_0_r in E. rewrite E.
  destruct (Z.ltb_spec d y); zcases; reflexivity || lia.
Qed.

(** SF and OF differ when the first operand is smaller as a signed number. *)
Lemma cmp_flag_SF_OF :
  Bool.eqb (flag SF (cmp_flags n d y f)) (flag OF (cmp_flags n d y f)) =
  (signed n y <=? signed n d).
Proof.
  unfold flag, cmp_flags, set_psz, set_coa, sub_OF, is_negative.
  rewrite !testbit_setf by (unfold CF, PF, AF, ZF, SF, OF; lia). cbn.
  pose proof (sub_mod n d y Hd Hy 0 ltac:(lia)) as E. rewrite Z.sub_0_r, Z.add_0_r in E. rewrite E.
  rewrite Z.sub_0_r. unfold in_signed, signed.
  pose proof (opsize_pos n Hn). pose proof (modulus_half n ltac:(lia)).
  pose proof (half_pos n ltac:(lia)).
  destruct (Z.ltb_spec d y), (Z.ltb_spec d (half n)), (Z.ltb_spec y (half n));
    zcases; cbn; reflexivity || lia.
Qed.
End CmpFlags.

Section FlowProofs.
Context {T : Type} `{RandomStreamOk T}.
Implicit Types s : DianaProcessor T.

Lemma b2z_zero (c : bool) : (Z.b2z c =? 0) = negb c.
Proof. now destruct c. Qed.

Lemma b2z_eqb (c d : bool) : (Z.b2z c =? Z.b2z d) = Bool.eqb c d.
Proof. now destruct c, d. Qed.

(** A condition reads the flags and nothing else. *)
Definition decides (cond : MP T bool) (cc : Z -> bool) : Prop :=
  forall s, cond s = (Ok (cc (m_flags s)), s).

Ltac decide_cond :=
  intros s; rewrite <- (tw_id s); do 3 (try step); unfold ret;
  rewrite ?b2z_eqb, ?b2z_zero, ?negb_involutive; rewrite ?m_flags_tw; reflexivity.

Lemma cond_a_decides : decides cond_a cc_a.
Proof. unfold cond_a. decide_cond. Qed.
Lemma cond_ae_decides : decides cond_ae cc_ae.
Proof. unfold cond_ae. decide_cond. Qed.
Lemma cond_b_decides : decides cond_b cc_b.
Proof. unfold cond_b. decide_cond. Qed.
Lemma cond_be_decides : decides cond_be cc_be.
Proof. unfold cond_be. decide_cond. Qed.
Lemma cond_e_decides : decides cond_e cc_e.
Proof. unfold cond_e. decide_cond. Qed.
Lemma cond_g_decides : decides cond_g cc_g.
Proof. unfold cond_g. decide_cond. Qed.
Lemma cond_ge_decides : decides cond_ge cc_ge.
Proof. unfold cond_ge. decide_cond. Qed.
Lemma cond_l_decides : decides cond_l cc_l.
Proof. unfold cond_l. decide_cond. Qed.
Lemma cond_le_decides : decides cond_le cc_le.
Proof. unfold cond_le. decide_cond. Qed.
Lemma cond_ne_decides : decides cond_ne cc_ne.
Proof. unfold cond_ne. decide_cond. Qed.
Lemma cond_no_decides : decides cond_no cc_no.
Proof. unfold cond_no. decide_cond. Qed.
Lemma cond_np_decides : decides cond_np cc_np.
Proof. unfold cond_np. decide_cond. Qed.
Lemma cond_ns_decides : decides cond_ns cc_ns.
Proof. unfold cond_ns. decide_cond. Qed.
Lemma cond_o_decides : decides cond_o cc_o.
Proof. unfold cond_o. decide_cond. Qed.
Lemma cond_p_decides : decides cond_p cc_p.
Proof. unfold cond_p. decide_cond. Qed.
Lemma cond_s_decides : decides cond_s cc_s.
Proof. unfold cond_s. decide_cond. Qed.

(** ** The instruction pointer *)

Definition put_rip (n v : Z) s : DianaProcessor T :=
  with_stateFlags (fun f => Z.lor f DI_PROC_STATE_RIP_CHANGED) (put_low reg_RIP n v s).

Lemma rip_int : int_reg reg_RIP.
Proof. apply int_regs_ok. vm_compute. tauto. Qed.

Lemma wf_put_rip n v s : wf s -> opsize n -> wf (put_rip n v s).
Proof. intros W Hn. destruct (wf_put_low reg_RIP n v s W rip_int Hn). now constructor. Qed.

Lemma psz_clear_put_rip n v s : psz_clear s -> psz_clear (put_rip n v s).
Proof.
  unfold psz_clear, put_rip. cbn [m_stateFlags with_stateFlags].
  change (m_stateFlags (put_low reg_RIP n v s)) with (m_stateFlags s).
  change DI_PROC_STATE_UPDATE_FLAGS_PSZ with (2 ^ 2). rewrite !has_pow2 by lia.
  rewrite Z.lor_spec. intros ->. reflexivity.
Qed.

Lemma idle_put_rip n v s : idle s -> idle (put_rip n v s).
Proof. intros (I1 & I2). split; [exact I1|]. now apply (psz_clear_put_rip n v s). Qed.

Lemma SET_RIP2_tw n v f b s :
  wf s -> flag_word f -> opsize n -> psz_clear s ->
  SET_REG2 reg_RIP v n (tw f b s) = (Ok tt, tw f b (put_rip n v s)).
Proof.
  intros W Hf Hn P. unfold SET_REG2. rewrite bind_gets.
  rewrite QueryReg_int by (auto using wf_tw, rip_int).
  unfold DianaProcessor_SetValueEx.
  change ((reg_RIP =? reg_RIP) || (reg_RIP =? reg_IP)) with true. rewrite when_true.
  unfold set_stateFlags. rewrite bind_modify.
  set (s1 := with_stateFlags _ (tw f b s)).
  assert (P1 : psz_clear (put_rip n v s)) by now apply psz_clear_put_rip.
  assert (Wd : widen s reg_RIP n = n)
    by (unfold widen; change (widened reg_RIP) with false; now rewrite andb_false_r).
  assert (E : forall (X h : Z) (m : MP T unit),
    m s1 = (Ok tt, tw f b (put_rip n v s)) ->
    (m ;;; UPDATE_PSZ X h) s1 = (Ok tt, tw f b (put_rip n v s))).
  { intros X h m Em. rewrite (bind_run _ _ _ _ _ Em). now apply UPDATE_PSZ_off. }
  assert (St : store_register (m_offset (reg_info reg_RIP)) n v s1 =
               (Ok tt, tw f b (put_rip n v s))).
  { unfold put_rip, put_low. rewrite Wd, put_window_mod by (pose proof (opsize_pos n Hn); lia).
    reflexivity. }
  opsize_cases Hn; cbn [Z.eqb Pos.eqb]; try (apply E; exact St).
  unfold context. rewrite bind_gets.
  change (((reg_EAX <=? reg_RIP) && (reg_RIP <=? reg_EDI)) ||
          ((reg_R8D <=? reg_RIP) && (reg_RIP <=? reg_R15D))) with false.
  rewrite andb_false_r. apply E, St.
Qed.

Lemma SET_RIP_tw v f b s :
  wf s -> flag_word f -> psz_clear s ->
  SET_REG reg_RIP v (tw f b s) = (Ok tt, tw f b (put_rip 8 v s)).
Proof.
  intros W Hf P. rewrite <- (SET_RIP2_tw 8 v f b s W Hf) by (assumption || (right; right; right; reflexivity)).
  unfold SET_REG, SET_REG2. rewrite !bind_gets.
  rewrite QueryReg_int by (auto using wf_tw, rip_int). reflexivity.
Qed.

(** ** Jumps *)

(** A decoded jump: operand [i] of [k] is a relative target. *)
Record jumps s (k i rel : Z) : Prop := {
  ju_wf : wf s;
  ju_idle : idle s;
  ju_count : iLinkedOpCount (m_result s) = k;
  ju_rel : value (linked_op (m_result s) i) = diana_rel rel;
  ju_opsize : opsize (iCurrentCmd_opsize (m_context s));
  ju_address : opsize (iMainMode_addressSize (m_context s))
}.

(** The target: RIP is read with the operand size, the sum is stored with the address size. *)
Definition jumped s (rel : Z) : DianaProcessor T :=
  put_rip (iMainMode_addressSize (m_context s))
    (u64 (window s reg_RIP (iCurrentCmd_opsize (m_context s)) + rel + iFullCmdSize (m_result s))) s.

Lemma jcc_tw k i rel f b s :
  jumps s k i rel -> flag_word f ->
  Diana_Call_jcc k i (tw f b s) = (Ok tt, tw f b (jumped s rel)).
Proof.
  intros [W I C R Ho Ha] Hf. unfold Diana_Call_jcc, result, context. rewrite bind_gets.
  change (m_result (tw f b s)) with (m_result s). rewrite C, Z.eqb_refl, R. cbn [negb].
  rewrite bind_gets. change (m_context (tw f b s)) with (m_context s).
  rewrite (bind_run _ _ _ _ _ (GET_REG2_tw reg_RIP _ f b s W Hf rip_int Ho)).
  rewrite bind_gets. change (m_context (tw f b s)) with (m_context s).
  now apply SET_RIP2_tw; auto using idle_psz_clear.
Qed.

Lemma with_flags_same s : with_flags (fun _ => m_flags s) s = s.
Proof. now destruct s. Qed.

(** [jump_if]: the jump is taken when the condition holds; nothing else happens. *)
Lemma jump_if_run cond cc rel s :
  decides cond cc -> jumps s 1 0 rel ->
  Call (jump_if cond) s = (Ok tt, if cc (m_flags s) then jumped s rel else s).
Proof.
  intros D J. pose proof (ju_wf _ _ _ _ J) as W. pose proof (ju_idle _ _ _ _ J) as I.
  transitivity (@Ok unit tt, with_flags (fun _ => m_flags s)
                  (if cc (m_flags s) then jumped s rel else s)).
  - eapply (Call_tw _ _ _ _ _ false).
    + unfold jump_if. rewrite (bind_run _ _ _ _ _ (D _)). rewrite m_flags_tw.
      destruct (cc (m_flags s)); [|reflexivity]. rewrite when_true.
      apply (jcc_tw 1 0); eauto with diana.
    + destruct (cc (m_flags s)); [|exact I]. now apply idle_put_rip.
  - destruct (cc (m_flags s)); now rewrite with_flags_same || (f_equal; apply with_flags_same).
Qed.

(** The relative [jmp] writes RIP at its full width. *)
Lemma jmp_rel_run rel s :
  jumps s 1 0 rel ->
  Call Diana_Call_jmp s =
  (Ok tt, put_rip 8 (u64 (window s reg_RIP (iCurrentCmd_opsize (m_context s)) + rel
                          + iFullCmdSize (m_result s))) s).
Proof.
  intros [W I C R Ho Ha]. pose proof (wf_flag_word s W) as Hf.
  transitivity (@Ok unit tt, with_flags (fun _ => m_flags s)
                  (put_rip 8 (u64 (window s reg_RIP (iCurrentCmd_opsize (m_context s)) + rel
                                   + iFullCmdSize (m_result s))) s)).
  - eapply (Call_tw _ _ _ _ _ false); [|now apply idle_put_rip].
    unfold Diana_Call_jmp, result, context. rewrite bind_gets.
    change (m_result (tw (m_flags s) false s)) with (m_result s).
    rewrite C, R. cbn [negb Z.eqb Pos.eqb]. rewrite bind_bind, bind_gets.
    change (m_context (tw (m_flags s) false s)) with (m_context s).
    rewrite bind_bind, (bind_run _ _ _ _ _ (GET_REG2_tw reg_RIP _ _ false s W Hf rip_int Ho)).
    rewrite bind_ret.
    now rewrite (bind_run _ _ _ _ _ (SET_RIP_tw _ _ false s W Hf (idle_psz_clear s I))).
  - reflexivity.
Qed.

(** ** [setcc] and [cmovcc] *)

Lemma set_if_run cond cc d s :
  decides cond cc -> unary s d 1 ->
  Call (set_if cond) s =
  (Ok tt, with_flags (fun _ => m_flags s) (put_operand 0 (Z.b2z (cc (m_flags s))) s)).
Proof.
  intros D [W I Rd Wr]. eapply (Call_tw _ _ _ _ _ false); [|now apply idle_put_operand].
  unfold set_if. rewrite (bind_run _ _ _ _ _ (D _)). rewrite m_flags_tw.
  assert (E : forall v, Diana_Call_setcc v (tw (m_flags s) false s) =
                        (Ok tt, tw (m_flags s) false (put_operand 0 v s))).
  { intros v. unfold Diana_Call_setcc.
    rewrite (bind_run _ _ _ _ _ (DI_MEM_GET_DEST_tw s d 1 _ _ W Rd)).
    apply (DI_MEM_SET_tw 0 v 1); eauto using idle_psz_clear with diana. }
  destruct (cc (m_flags s)); apply E.
Qed.

(** A conditional move clears the upper half of a 32-bit destination in either case. *)
Lemma cmov_run cond cc x m n s :
  decides cond cc -> wf s -> idle s -> reads s 1 x m -> writes s 0 n ->
  Call (cmov cond) s =
  (Ok tt, with_flags (fun _ => m_flags s)
            (if cc (m_flags s) then put_operand 0 x s else clear_upper s)).
Proof.
  intros D W I Rx Wr.
  destruct (ClearUpperHalf_tw n (m_flags s) false s W (wf_flag_word s W) (idle_psz_clear s I) Wr)
    as (E & Zr).
  eapply (Call_tw _ _ _ _ _ false).
  - unfold cmov. rewrite (bind_run _ _ _ _ _ (DI_MEM_GET_SRC_tw s x m _ _ W Rx)).
    cbv beta iota. rewrite (bind_run _ _ _ _ _ E), (bind_run _ _ _ _ _ (D _)), m_flags_tw.
    destruct (cc (m_flags s)); [|reflexivity]. rewrite when_true.
    apply (store_plain s _ n x _ _ Zr). eauto with diana.
  - destruct (cc (m_flags s)); [now apply idle_put_operand|]. now apply (z_idle _ _ _ _ Zr).
Qed.
(** ** Conditions after a comparison *)

(** The conditions on the flags of a comparison of [d] with [y]. *)
Lemma cc_cmp_unsigned n d y f : opsize n -> 0 <= d < modulus n -> 0 <= y < modulus n ->
  let g := cmp_flags n d y f in
  cc_a g = (y <? d) /\ cc_ae g = (y <=? d) /\ cc_b g = (d <? y) /\ cc_be g = (d <=? y) /\
  cc_e g = (d =? y) /\ cc_ne g = negb (d =? y).
Proof.
  intros Hn Hd Hy g. unfold cc_a, cc_ae, cc_b, cc_be, cc_e, cc_ne, g.
  rewrite cmp_flag_CF, (cmp_flag_ZF n d y f Hd Hy). repeat split; zcases; reflexivity || lia.
Qed.

Lemma signed_eqb n d y : opsize n -> 0 <= d < modulus n -> 0 <= y < modulus n ->
  (d =? y) = (signed n d =? signed n y).
Proof.
  intros Hn Hd Hy. pose proof (opsize_pos n Hn). pose proof (modulus_half n ltac:(lia)).
  unfold signed. destruct (Z.ltb_spec d (half n)), (Z.ltb_spec y (half n)); zcases; reflexivity || lia.
Qed.

Lemma cc_cmp_signed n d y f : opsize n -> 0 <= d < modulus n -> 0 <= y < modulus n ->
  let g := cmp_flags n d y f in
  cc_g g = (signed n y <? signed n d) /\ cc_ge g = (signed n y <=? signed n d) /\
  cc_l g = (signed n d <? signed n y) /\ cc_le g = (signed n d <=? signed n y).
Proof.
  intros Hn Hd Hy g. unfold cc_g, cc_ge, cc_l, cc_le, g.
  rewrite (cmp_flag_SF_OF n d y f Hn Hd Hy), (cmp_flag_ZF n d y f Hd Hy).
  rewrite (signed_eqb n d y Hn Hd Hy).
  repeat split; zcases; reflexivity || lia.
Qed.

Lemma cmp_decides s d n x m :
  compares s d n x m ->
  let y := sign_extend m n x in
  exists s', Call Diana_Call_cmp s = (Ok tt, s') /\
    (forall r, rval s' r = rval s r) /\
    Forall (fun p => fst p s' = (Ok (snd p), s'))
      [(cond_a, y <? d); (cond_ae, y <=? d); (cond_b, d <? y); (cond_be, d <=? y);
       (cond_e, d =? y); (cond_ne, negb (d =? y));
       (cond_g, signed n y <? signed n d); (cond_ge, signed n y <=? signed n d);
       (cond_l, signed n d <? signed n y); (cond_le, signed n d <=? signed n y)].
Proof.
  intros C. cbv zeta. pose proof (cmp_run s d n x m C) as E. cbv zeta in E.
  eexists. split; [exact E|]. split; [reflexivity|].
  destruct C as [W I Rd Rx].
  pose proof (reads_size _ _ _ _ Rd) as Hn. pose proof (reads_range _ _ _ _ Rd) as Hd.
  pose proof (sign_extend_range m n x Hn) as Hy. set (y := sign_extend m n x) in *.
  destruct (cc_cmp_unsigned n d y (m_flags s) Hn Hd Hy) as (A1 & A2 & A3 & A4 & A5 & A6).
  destruct (cc_cmp_signed n d y (m_flags s) Hn Hd Hy) as (B1 & B2 & B3 & B4).
  fold (cmp_flags n d y (m_flags s)).
  repeat apply Forall_cons; try apply Forall_nil; cbn [fst snd].
  all: rewrite ?cond_a_decides, ?cond_ae_decides, ?cond_b_decides, ?cond_be_decides,
    ?cond_e_decides, ?cond_ne_decides, ?cond_g_decides, ?cond_ge_decides, ?cond_l_decides,
    ?cond_le_decides; cbn [m_flags with_flags]; congruence.
Qed.
End FlowProofs.
