(* ===== verification/MulDivProofs.v ===== *)
(** Correctness of the multiplications and divisions of CmdMulDiv: exact products in the register
    pair, quotients and remainders, and the error statuses. *)

From Stdlib Require Import ZArith Lia List Bool.
Import ListNotations.
From S2P Require Import Prelude Words Status Registers ProcStreams Processor CmdInternal.
From S2P Require Import CmdString CmdMulDiv ProcessorInit State Exec Operands Rules.
From S2P Require Import ArithProofs LogicProofs RegisterProofs Loops.
Local Open Scope Z_scope.
Local Open Scope diana_scope.

(** ** The register pair of a size *)

Definition low_reg (n : Z) : Z :=
  if n =? 1 then reg_AL else if n =? 2 then reg_AX else if n =? 4 then reg_EAX else reg_RAX.
Definition high_reg (n : Z) : Z :=
  if n =? 1 then reg_AH else if n =? 2 then reg_DX else if n =? 4 then reg_EDX else reg_RDX.

Lemma low_reg_gpr n : opsize n -> In (low_reg n) gprs /\ rsize (low_reg n) = n.
Proof. intros Hn. opsize_cases Hn; (split; [gpr|reflexivity]). Qed.

Lemma high_reg_gpr n : opsize n -> In (high_reg n) gprs /\ rsize (high_reg n) = n.
Proof. intros Hn. opsize_cases Hn; (split; [gpr|reflexivity]). Qed.

(** The two registers do not overlap. *)
Lemma pair_apart n : opsize n -> n <> 1 -> roff (low_reg n) + 8 <= roff (high_reg n).
Proof. intros Hn N. opsize_cases Hn; vm_compute; congruence || discriminate. Qed.

Section MulDivProofs.
Context {T : Type} `{RandomStreamOk T}.
Implicit Types s : DianaProcessor T.

(** The number in the pair, unsigned. *)
Definition pair_value s (n : Z) : Z :=
  rval s (low_reg n) + modulus n * rval s (high_reg n).

(** The pair holds [lo] and [hi]; bytes go to AX in one store for a product, to AL and AH for a
    quotient and a remainder. *)
Definition put_pair (n lo hi : Z) s : DianaProcessor T :=
  put_register (high_reg n) hi (put_register (low_reg n) lo s).

Definition put_product (n lo hi : Z) s : DianaProcessor T :=
  if n =? 1 then put_register reg_AX (lo + modulus 1 * hi) s else put_pair n lo hi s.

Lemma wf_put_pair n lo hi s : wf s -> opsize n -> wf (put_pair n lo hi s).
Proof.
  intros W Hn. destruct (low_reg_gpr n Hn), (high_reg_gpr n Hn). unfold put_pair. auto with diana.
Qed.

Lemma AX_pair s : wf s -> rval s reg_AX = pair_value s 1.
Proof.
  intros W. unfold pair_value, rval, window.
  change (rsize reg_AX) with (1 + 1). change (rsize (low_reg 1)) with 1.
  change (rsize (high_reg 1)) with 1. change (roff (low_reg 1)) with (roff reg_AX).
  change (roff (high_reg 1)) with (roff reg_AX + 1).
  pose proof (wf_length s W). pose proof (ir_off reg_AX (int_regs_ok _ (gprs_int reg_AX ltac:(gpr)))).
  pose proof (ir_end reg_AX (int_regs_ok _ (gprs_int reg_AX ltac:(gpr)))).
  rewrite buf_load_split by lia. reflexivity.
Qed.

Lemma put_pair_regs n lo hi s :
  wf s -> opsize n ->
  rval (put_pair n lo hi s) (low_reg n) = lo mod modulus n /\
  rval (put_pair n lo hi s) (high_reg n) = hi mod modulus n.
Proof.
  intros W Hn. destruct (low_reg_gpr n Hn) as [Gl Sl], (high_reg_gpr n Hn) as [Gh Sh].
  assert (W1 : wf (put_register (low_reg n) lo s)) by auto with diana.
  unfold put_pair. split; [|now rewrite put_register_same, Sh by assumption].
  transitivity (rval (put_register (low_reg n) lo s) (low_reg n));
    [|now rewrite put_register_same, Sl by assumption].
  destruct (Z.eq_dec n 1) as [->|N]; [now rewrite put_register_rval by assumption|].
  unfold rval. apply put_register_apart; auto with diana.
  right. pose proof (pair_apart n Hn N). rewrite Sl. pose proof (opsize_pos n Hn). lia.
Qed.

Lemma put_pair_value n lo hi s :
  wf s -> opsize n -> 0 <= lo < modulus n -> 0 <= hi < modulus n ->
  pair_value (put_pair n lo hi s) n = lo + modulus n * hi.
Proof.
  intros W Hn Hl Hh. unfold pair_value. destruct (put_pair_regs n lo hi s W Hn) as [-> ->].
  now rewrite !Z.mod_small by assumption.
Qed.

Lemma put_product_value n lo hi s :
  wf s -> opsize n -> 0 <= lo < modulus n -> 0 <= hi < modulus n ->
  pair_value (put_product n lo hi s) n = lo + modulus n * hi.
Proof.
  intros W Hn Hl Hh. unfold put_product. destruct (Z.eqb_spec n 1) as [->|N].
  - rewrite <- AX_pair by (apply wf_put_register; auto; apply int_regs_ok, gprs_int; gpr).
    rewrite put_register_same by (auto; gpr). change (rsize reg_AX) with 2. wsimp.
    apply Z.mod_small. lia.
  - now apply put_pair_value.
Qed.

(** Reading and writing the accumulators. *)
Lemma GET_gpr r f b s :
  wf s -> flag_word f -> In r gprs -> GET_REG r (tw f b s) = (Ok (rval s r), tw f b s).
Proof. intros W Hf G. apply GET_REG_tw; auto with diana. Qed.

Lemma SET_gpr r v f b s :
  wf s -> flag_word f -> psz_clear s -> In r gprs ->
  SET_REG r v (tw f b s) = (Ok tt, tw f b (put_register r v s)).
Proof. intros W Hf P G. apply SET_REG_tw; auto with diana. Qed.

Lemma SET_pair n lo hi f b s :
  wf s -> flag_word f -> psz_clear s -> opsize n ->
  (SET_REG (low_reg n) lo ;;; SET_REG (high_reg n) hi) (tw f b s) =
  (Ok tt, tw f b (put_pair n lo hi s)).
Proof.
  intros W Hf P Hn. destruct (low_reg_gpr n Hn) as [Gl Sl], (high_reg_gpr n Hn) as [Gh Sh].
  rewrite (bind_run _ _ _ _ _ (SET_gpr _ lo f b s W Hf P Gl)).
  apply SET_gpr; auto with diana.
Qed.

(** Only the low bytes of a stored value matter. *)
Lemma put_register_mod r v s : opsize (rsize r) ->
  put_register r (v mod modulus (rsize r)) s = put_register r v s.
Proof. intros Hr. now apply put_low_mod. Qed.

Lemma put_pair_mod n lo hi s : opsize n ->
  put_pair n (lo mod modulus n) (hi mod modulus n) s = put_pair n lo hi s.
Proof.
  intros Hn. destruct (low_reg_gpr n Hn) as [Gl Sl], (high_reg_gpr n Hn) as [Gh Sh].
  unfold put_pair. pose proof (put_register_mod (low_reg n) lo s) as E1. rewrite Sl in E1.
  pose proof (put_register_mod (high_reg n) hi (put_register (low_reg n) lo s)) as E2.
  rewrite Sh in E2. now rewrite E1, E2.
Qed.

(** CF and OF of a product that needs the high half. *)
Lemma CF_OF_tw (c : bool) f b s : flag_word f ->
  when c set_CF_OF (tw (setf OF false (setf CF false f)) b s) =
  (Ok tt, tw (setf OF c (setf CF c f)) b s).
Proof.
  intros Hf. unfold set_CF_OF. destruct c; [|reflexivity]. rewrite when_true. step.
  rewrite SET_OF_tw. do 2 f_equal. flags_ext.
Qed.

(** ** Unsigned products *)

Lemma gpr_range s r : wf s -> In r gprs -> 0 <= rval s r < modulus (rsize r).
Proof. intros W G. apply rval_range; auto with diana. Qed.

Lemma low_range' s n : wf s -> opsize n -> 0 <= rval s (low_reg n) < modulus n.
Proof.
  intros W Hn. destruct (low_reg_gpr n Hn) as [G S].
  pose proof (gpr_range s _ W G) as R. now rewrite S in R.
Qed.

Lemma high_range' s n : wf s -> opsize n -> 0 <= rval s (high_reg n) < modulus n.
Proof.
  intros W Hn. destruct (high_reg_gpr n Hn) as [G S].
  pose proof (gpr_range s _ W G) as R. now rewrite S in R.
Qed.

Lemma shiftr_nonzero p n : opsize n -> 0 <= p ->
  negb (Z.shiftr p (8 * n) =? 0) = (modulus n <=? p).
Proof.
  intros Hn Hp. pose proof (opsize_pos n Hn). rewrite Z.shiftr_div_pow2 by lia.
  fold (modulus n). pose proof (modulus_pos n ltac:(lia)).
  destruct (Z.leb_spec (modulus n) p).
  - destruct (Z.eqb_spec (p / modulus n) 0); [|reflexivity].
    assert (1 <= p / modulus n) by (apply Z.div_le_lower_bound; lia). lia.
  - now rewrite Z.div_small by lia.
Qed.

(** The branches of [mul], one per size. *)
Definition mul_size (n argument : Z) : MP T unit :=
  if n =? 8 then Diana_Call_mul64 argument
  else if n =? 4 then Diana_Call_mul32 argument
  else if n =? 2 then Diana_Call_mul16 argument
  else if n =? 1 then Diana_Call_mul8 argument
  else fail DI_ERROR.

Lemma mul_size_tw n a f b s :
  wf s -> flag_word f -> psz_clear s -> opsize n -> 0 <= a < modulus n ->
  let p := rval s (low_reg n) * a in
  mul_size n a (tw (setf OF false (setf CF false f)) b s) =
  (Ok tt, tw (setf OF (modulus n <=? p) (setf CF (modulus n <=? p) f)) b
            (put_product n (p mod modulus n) (p / modulus n) s)).
Proof.
  intros W Hf P Hn Ha p. pose proof (low_range' s n W Hn) as R.
  assert (Hp : 0 <= p < modulus n * modulus n) by (unfold p; nia).
  assert (Fw : flag_word (setf OF false (setf CF false f))) by eauto with diana.
  assert (Fw2 : forall c, flag_word (setf OF c (setf CF c f))) by eauto with diana.
  assert (Nz : negb (Z.shiftr p (8 * n) =? 0) = (modulus n <=? p)) by (apply shiftr_nonzero; auto; lia).
  assert (Sh : Z.shiftr p (8 * n) = p / modulus n)
    by (rewrite Z.shiftr_div_pow2 by (pose proof (opsize_pos n Hn); lia); reflexivity).
  unfold mul_size, put_product. opsize_cases Hn; cbn [Z.eqb Pos.eqb];
    [change (8 * 1) with 8 in *|change (8 * 2) with 16 in *|change (8 * 4) with 32 in *|];
    wsimp.
  - unfold Diana_Call_mul8. rewrite (bind_run _ _ _ _ _ (GET_gpr reg_AL _ b s W Fw ltac:(gpr))).
    unfold u16. change (low_reg 1) with reg_AL in *.
    rewrite !(Z.mod_small (rval s reg_AL)), !(Z.mod_small a) by lia. fold p.
    rewrite (Z.mod_small p) by lia. rewrite Nz.
    rewrite (bind_run _ _ _ _ _ (CF_OF_tw _ f b s Hf)).
    rewrite SET_gpr by (auto; gpr). do 3 f_equal. rewrite Z.add_comm. apply Z.div_mod. lia.
  - unfold Diana_Call_mul16. rewrite (bind_run _ _ _ _ _ (GET_gpr reg_AX _ b s W Fw ltac:(gpr))).
    unfold u16, u32. change (low_reg 2) with reg_AX in *.
    rewrite !(Z.mod_small (rval s reg_AX)), !(Z.mod_small a) by lia. fold p.
    rewrite (Z.mod_small p) by lia. rewrite Nz, Sh.
    rewrite (bind_run _ _ _ _ _ (CF_OF_tw _ f b s Hf)).
    exact (SET_pair 2 _ _ _ b s W (Fw2 _) P ltac:(unfold opsize; lia)).
  - unfold Diana_Call_mul32. rewrite (bind_run _ _ _ _ _ (GET_gpr reg_EAX _ b s W Fw ltac:(gpr))).
    unfold u32, u64. change (low_reg 4) with reg_EAX in *.
    rewrite !(Z.mod_small (rval s reg_EAX)), !(Z.mod_small a) by lia. fold p.
    rewrite (Z.mod_small p) by lia. rewrite Nz, Sh.
    rewrite (bind_run _ _ _ _ _ (CF_OF_tw _ f b s Hf)).
    exact (SET_pair 4 _ _ _ b s W (Fw2 _) P ltac:(unfold opsize; lia)).
  - unfold Diana_Call_mul64. rewrite (bind_run _ _ _ _ _ (GET_gpr reg_RAX _ b s W Fw ltac:(gpr))).
    change (low_reg 8) with reg_RAX in *.
    destruct (mul64_exact (rval s reg_RAX) a R Ha) as [E [V1 V2]].
    destruct (mul64 (rval s reg_RAX) a) as [r0 r1]. fold p in E. wide_unfold.
    assert (E0 : p mod 0x10000000000000000 = r0) by (symmetry; apply Z.mod_unique with r1; lia).
    assert (E1 : p / 0x10000000000000000 = r1) by (symmetry; apply Z.div_unique with r0; lia).
    assert (C : negb (r1 =? 0) = (0x10000000000000000 <=? p)) by (zcases; cbn; lia || reflexivity).
    rewrite E0, E1, C. rewrite (bind_run _ _ _ _ _ (CF_OF_tw _ f b s Hf)).
    exact (SET_pair 8 _ _ _ b s W (Fw2 _) P ltac:(unfold opsize; lia)).
Qed.

(** An instruction on the pair: [a] is the operand, of [n] bytes. *)
Record pair_op s (a n : Z) : Prop := {
  po_wf : wf s;
  po_idle : idle s;
  po_reads : reads s 0 a n
}.

Lemma idle_put_pair n lo hi s : idle s -> idle (put_pair n lo hi s).
Proof. intros I. exact I. Qed.

Lemma idle_put_product n lo hi s : idle s -> idle (put_product n lo hi s).
Proof. intros I. unfold put_product. destruct (n =? 1); exact I. Qed.

(** [mul]: the pair holds the exact product; CF and OF say that the high half is in use. *)
Lemma mul_run s a n :
  pair_op s a n ->
  let p := rval s (low_reg n) * a in
  Call Diana_Call_mul s =
  (Ok tt, with_flags (fun _ => setf OF (modulus n <=? p) (setf CF (modulus n <=? p) (m_flags s)))
            (put_product n (p mod modulus n) (p / modulus n) s)) /\
  pair_value (put_product n (p mod modulus n) (p / modulus n) s) n = p.
Proof.
  intros [W I Ra] p. pose proof (reads_size _ _ _ _ Ra) as Hn. pose proof (reads_range _ _ _ _ Ra) as Ha.
  pose proof (low_range' s n W Hn) as R. pose proof (opsize_pos n Hn).
  pose proof (modulus_pos n ltac:(lia)) as Mp. split.
  - eapply (Call_tw _ _ _ _ _ false); [|now apply idle_put_product].
    unfold Diana_Call_mul. rewrite (bind_run _ _ _ _ _ (DI_MEM_GET_DEST_tw s a n _ _ W Ra)).
    rewrite clear_CF_OF by eauto with diana. unfold result. rewrite bind_gets.
    change (m_result (tw ?f ?b s)) with (m_result s). rewrite (reads_usedSize s 0 a n Ra).
    exact (mul_size_tw n a (m_flags s) false s W (wf_flag_word s W) (idle_psz_clear s I) Hn Ha).
  - rewrite put_product_value; auto.
    + rewrite Z.add_comm. symmetry. apply Z.div_mod. lia.
    + apply Z.mod_pos_bound. lia.
    + split; [apply Z.div_pos; unfold p; nia|apply Z.div_lt_upper_bound; unfold p; nia].
Qed.

(** ** Signed products *)

Lemma signed_conv n x : opsize n -> 0 <= x < modulus n ->
  (if n =? 1 then s8 x else if n =? 2 then s16 x else if n =? 4 then s32 x else s64 x) = signed n x.
Proof.
  intros Hn Hx. opsize_cases Hn; cbn [Z.eqb Pos.eqb]; unfold s8, s16, s32, s64, u8, u16, u32, u64, signed;
    wsimp; cbv zeta; now rewrite Z.mod_small.
Qed.

Lemma s64_id x : - 0x8000000000000000 <= x < 0x8000000000000000 -> s64 x = x.
Proof. intros Hx. apply s64_small. exact Hx. Qed.

Lemma s32_id x : - 0x80000000 <= x < 0x80000000 -> s32 x = x.
Proof.
  intros Hx. unfold s32, u32. cbv zeta. destruct (Z.ltb_spec x 0).
  - replace (x mod 0x100000000) with (x + 0x100000000) by (apply Z.mod_unique with (-1); lia).
    destruct (Z.ltb_spec (x + 0x100000000) 0x80000000); lia.
  - rewrite Z.mod_small by lia. destruct (Z.ltb_spec x 0x80000000); lia.
Qed.

Lemma s16_id x : - 0x8000 <= x < 0x8000 -> s16 x = x.
Proof.
  intros Hx. unfold s16, u16. cbv zeta. destruct (Z.ltb_spec x 0).
  - replace (x mod 0x10000) with (x + 0x10000) by (apply Z.mod_unique with (-1); lia).
    destruct (Z.ltb_spec (x + 0x10000) 0x8000); lia.
  - rewrite Z.mod_small by lia. destruct (Z.ltb_spec x 0x8000); lia.
Qed.

(** A conversion to the narrow type keeps the value exactly when it fits. *)
Lemma s8_fits x : (s8 x =? x) = in_signed 1 x.
Proof.
  unfold in_signed, s8, u8. wsimp. cbv zeta.
  destruct (Z.ltb_spec (x mod 0x100) 0x80); zcases; cbn; try reflexivity;
    exfalso; Z.div_mod_to_equations; lia.
Qed.
Lemma s16_fits x : (s16 x =? x) = in_signed 2 x.
Proof.
  unfold in_signed, s16, u16. wsimp. cbv zeta.
  destruct (Z.ltb_spec (x mod 0x10000) 0x8000); zcases; cbn; try reflexivity;
    exfalso; Z.div_mod_to_equations; lia.
Qed.
Lemma s32_fits x : (s32 x =? x) = in_signed 4 x.
Proof.
  unfold in_signed, s32, u32. wsimp. cbv zeta.
  destruct (Z.ltb_spec (x mod 0x100000000) 0x80000000); zcases; cbn; try reflexivity;
    exfalso; Z.div_mod_to_equations; lia.
Qed.

Lemma s16_mod x : s16 x mod modulus 2 = x mod modulus 2.
Proof.
  wsimp. unfold s16, u16. cbv zeta. destruct (_ <? _).
  - now rewrite Z.mod_mod by lia.
  - replace (x mod 0x10000 - 0x10000) with (x mod 0x10000 + (-1) * 0x10000) by lia.
    now rewrite Z.mod_add, Z.mod_mod by lia.
Qed.

Lemma s32_mod x : s32 x mod modulus 4 = x mod modulus 4.
Proof.
  wsimp. unfold s32, u32. cbv zeta. destruct (_ <? _).
  - now rewrite Z.mod_mod by lia.
  - replace (x mod 0x100000000 - 0x100000000) with (x mod 0x100000000 + (-1) * 0x100000000) by lia.
    now rewrite Z.mod_add, Z.mod_mod by lia.
Qed.

(** The high half of a 128-bit product is the sign of the low one. *)
Lemma s64_fits r0 r1 :
  word r0 -> word r1 ->
  (s64 r1 =? Z.shiftr (s64 r0) 63) = in_signed 8 (wide_signed (r0, r1)).
Proof.
  intros H0' H1'. unfold wide_signed, in_signed. cbn [fst snd]. wsimp.
  rewrite (s64_word r0 H0'), (s64_word r1 H1'). rewrite Z.shiftr_div_pow2 by lia.
  change (2 ^ 63) with 0x8000000000000000. wide_unfold.
  destruct (Z.ltb_spec r0 0x8000000000000000), (Z.ltb_spec r1 0x8000000000000000).
  - rewrite Z.div_small by lia. zcases; cbn; lia || reflexivity.
  - rewrite Z.div_small by lia. zcases; cbn; lia || reflexivity.
  - replace ((r0 - 0x10000000000000000) / 0x8000000000000000) with (-1)
      by (apply Z.div_unique with (r0 - 0x8000000000000000); lia).
    zcases; cbn; lia || reflexivity.
  - replace ((r0 - 0x10000000000000000) / 0x8000000000000000) with (-1)
      by (apply Z.div_unique with (r0 - 0x8000000000000000); lia).
    zcases; cbn; lia || reflexivity.
Qed.

Definition imul_size (n argument : Z) : MP T unit :=
  if n =? 8 then Diana_Call_imul64 argument
  else if n =? 4 then Diana_Call_imul32 argument
  else if n =? 2 then Diana_Call_imul16 argument
  else if n =? 1 then Diana_Call_imul8 argument
  else fail DI_ERROR.

(** The product of the signed values; the pair gets its two's complement. *)
Lemma imul_size_tw n a f b s :
  wf s -> flag_word f -> psz_clear s -> opsize n -> 0 <= a < modulus n ->
  let p := signed n (rval s (low_reg n)) * signed n a in
  let c := negb (in_signed n p) in
  imul_size n a (tw (setf OF false (setf CF false f)) b s) =
  (Ok tt, tw (setf OF c (setf CF c f)) b
            (put_product n (p mod modulus n) ((p / modulus n) mod modulus n) s)).
Proof.
  intros W Hf P Hn Ha p c. pose proof (low_range' s n W Hn) as R.
  pose proof (signed_conv n _ Hn R) as S1. pose proof (signed_conv n _ Hn Ha) as S2.
  pose proof (opsize_pos n Hn) as Hp1. pose proof (signed_range n _ ltac:(lia) R) as B1.
  pose proof (signed_range n _ ltac:(lia) Ha) as B2.
  assert (Bp : - (half n * half n) <= p <= half n * half n) by (unfold p; nia).
  assert (Fw : flag_word (setf OF false (setf CF false f))) by eauto with diana.
  assert (Fw2 : forall c, flag_word (setf OF c (setf CF c f))) by eauto with diana.
  unfold imul_size, put_product. opsize_cases Hn; cbn [Z.eqb Pos.eqb] in *; wsimp.
  - unfold Diana_Call_imul8. rewrite (bind_run _ _ _ _ _ (GET_gpr reg_AL _ b s W Fw ltac:(gpr))).
    change (low_reg 1) with reg_AL in *. rewrite S1, S2. fold p.
    rewrite s16_id by lia. rewrite s8_fits. fold c.
    rewrite (bind_run _ _ _ _ _ (CF_OF_tw _ f b s Hf)).
    rewrite SET_gpr by (auto; gpr). do 2 f_equal.
    rewrite <- (put_register_mod reg_AX (u64 p)) by (right; left; reflexivity).
    change (rsize reg_AX) with 2. rewrite u64_mod by (right; left; reflexivity). wsimp.
    f_equal. change 0x10000 with (0x100 * 0x100). now rewrite Z.rem_mul_r by lia.
  - unfold Diana_Call_imul16. rewrite (bind_run _ _ _ _ _ (GET_gpr reg_AX _ b s W Fw ltac:(gpr))).
    change (low_reg 2) with reg_AX in *. rewrite S1, S2. fold p.
    rewrite s32_id by lia. rewrite s16_fits. fold c.
    rewrite (bind_run _ _ _ _ _ (CF_OF_tw _ f b s Hf)).
    refine (eq_trans (SET_pair 2 _ _ _ b s W (Fw2 _) P ltac:(unfold opsize; lia)) _).
    do 2 f_equal. rewrite <- put_pair_mod by (unfold opsize; lia).
    rewrite !u64_mod by (unfold opsize; lia). rewrite s16_mod, Z.shiftr_div_pow2 by lia. reflexivity.
  - unfold Diana_Call_imul32. rewrite (bind_run _ _ _ _ _ (GET_gpr reg_EAX _ b s W Fw ltac:(gpr))).
    change (low_reg 4) with reg_EAX in *. rewrite S1, S2. fold p.
    rewrite s64_id by lia. rewrite s32_fits. fold c.
    rewrite (bind_run _ _ _ _ _ (CF_OF_tw _ f b s Hf)).
    refine (eq_trans (SET_pair 4 _ _ _ b s W (Fw2 _) P ltac:(unfold opsize; lia)) _).
    do 2 f_equal. rewrite <- put_pair_mod by (unfold opsize; lia).
    rewrite !u64_mod by (unfold opsize; lia). rewrite s32_mod, Z.shiftr_div_pow2 by lia. reflexivity.
  - unfold Diana_Call_imul64. rewrite (bind_run _ _ _ _ _ (GET_gpr reg_RAX _ b s W Fw ltac:(gpr))).
    change (low_reg 8) with reg_RAX in *. rewrite S1, S2.
    destruct (imul64_exact (signed 8 (rval s reg_RAX)) (signed 8 a) B1 B2) as [E [V1 V2]].
    destruct (imul64 _ _) as [r0 r1]. cbn [fst snd] in V1, V2.
    rewrite (s64_fits r0 r1 V1 V2), E. fold p. fold c.
    rewrite (bind_run _ _ _ _ _ (CF_OF_tw _ f b s Hf)).
    refine (eq_trans (SET_pair 8 _ _ _ b s W (Fw2 _) P ltac:(unfold opsize; lia)) _).
    do 2 f_equal. fold p in E. unfold wide_signed in E. cbn [fst snd] in E.
    rewrite s64_word in E by assumption. wide_unfold.
    f_equal; destruct (Z.ltb_spec r1 0x8000000000000000); Z.div_mod_to_equations; lia.
Qed.

(** [imul] with one operand: the pair holds the exact signed product. *)
Lemma imul_1_run s a n :
  pair_op s a n -> iLinkedOpCount (m_result s) = 1 ->
  let p := signed n (rval s (low_reg n)) * signed n a in
  let c := negb (in_signed n p) in
  let s' := put_product n (p mod modulus n) ((p / modulus n) mod modulus n) s in
  Call Diana_Call_imul s = (Ok tt, with_flags (fun _ => setf OF c (setf CF c (m_flags s))) s') /\
  pair_value s' n = p mod (modulus n * modulus n).
Proof.
  intros [W I Ra] C p c s'. pose proof (reads_size _ _ _ _ Ra) as Hn.
  pose proof (reads_range _ _ _ _ Ra) as Ha. pose proof (opsize_pos n Hn).
  pose proof (modulus_pos n ltac:(lia)) as Mp. split.
  - eapply (Call_tw _ _ _ _ _ false); [|now apply idle_put_product].
    unfold Diana_Call_imul. rewrite clear_CF_OF by eauto with diana.
    unfold result. rewrite bind_gets. change (m_result (tw ?f ?b s)) with (m_result s). rewrite C.
    change (1 =? 1) with true. cbv iota. unfold Diana_Call_imul_1.
    rewrite (bind_run _ _ _ _ _ (DI_MEM_GET_DEST_tw s a n _ _ W Ra)). unfold result. rewrite bind_gets.
    change (m_result (tw ?f ?b s)) with (m_result s). rewrite (reads_usedSize s 0 a n Ra).
    exact (imul_size_tw n a (m_flags s) false s W (wf_flag_word s W) (idle_psz_clear s I) Hn Ha).
  - unfold s'. rewrite put_product_value; auto; try (apply Z.mod_pos_bound; lia).
    now rewrite Z.rem_mul_r by lia.
Qed.

(** The product of two sign-extended sources, for a destination of [n] bytes. *)
Lemma imul_impl_tw x y m1 m2 d n f b s :
  wf s -> flag_word f -> opsize m1 -> opsize m2 -> m1 <= n -> m2 <= n ->
  0 <= x < modulus m1 -> 0 <= y < modulus m2 -> reads s 0 d n ->
  let p := signed m1 x * signed m2 y in
  let c := negb (in_signed n p) in
  exists r,
    Diana_Call_imul_impl x y m1 m2 (tw (setf OF false (setf CF false f)) b s) =
    (Ok r, tw (setf OF c (setf CF c f)) b s) /\ r mod modulus n = p mod modulus n.
Proof.
  intros W Hf Hm1 Hm2 L1 L2 Hx Hy Rd p c. pose proof (reads_size _ _ _ _ Rd) as Hn.
  assert (H8 : opsize 8) by (unfold opsize; lia).
  assert (X : forall m z, opsize m -> m <= n -> 0 <= z < modulus m ->
    s64 (sign_extend m 8 z) = signed m z /\ - half n <= signed m z < half n /\ sword (signed m z)).
  { intros m z Hm L Hz. pose proof (opsize_pos m Hm). pose proof (opsize_pos n Hn).
    pose proof (signed_range m z ltac:(lia) Hz) as B.
    assert (half m <= half n) by (unfold half; apply Z.pow_le_mono_r; lia).
    assert (half m <= half 8) by (unfold half; apply Z.pow_le_mono_r; lia).
    pose proof (signed_conv 8 _ H8 (sign_extend_range m 8 z H8)) as E. cbn [Z.eqb Pos.eqb] in E.
    rewrite signed_sign_extend in E by (auto; lia). split; [exact E|]. split; [lia|].
    unfold sword. wsimp. lia. }
  destruct (X m1 x Hm1 L1 Hx) as (E1 & B1 & W1). destruct (X m2 y Hm2 L2 Hy) as (E2 & B2 & W2).
  unfold Diana_Call_imul_impl. rewrite !SignExtend_spec by assumption. cbn [check_option].
  rewrite !bind_ret, E1, E2. fold p. unfold result. rewrite bind_gets.
  change (m_result (tw ?f ?b s)) with (m_result s). rewrite (reads_usedSize s 0 d n Rd).
  assert (Bp : - (half n * half n) <= p <= half n * half n) by (unfold p; nia).
  opsize_cases Hn; cbn [Z.eqb Pos.eqb DIANA_MODE64 DIANA_MODE32 DIANA_MODE16] in *; wsimp.
  - exists (u64 p). rewrite s64_id, s8_fits by lia. fold c.
    rewrite (bind_run _ _ _ _ _ (CF_OF_tw _ f b s Hf)).
    split; [reflexivity|]. apply (u64_mod 1). unfold opsize. lia.
  - exists (u64 p). rewrite s64_id, s16_fits by lia. fold c.
    rewrite (bind_run _ _ _ _ _ (CF_OF_tw _ f b s Hf)).
    split; [reflexivity|]. apply (u64_mod 2). unfold opsize. lia.
  - exists (u64 p). rewrite s64_id, s32_fits by lia. fold c.
    rewrite (bind_run _ _ _ _ _ (CF_OF_tw _ f b s Hf)).
    split; [reflexivity|]. apply (u64_mod 4). unfold opsize. lia.
  - destruct (imul64_exact _ _ W1 W2) as [E [V1 V2]]. destruct (imul64 _ _) as [r0 r1].
    cbn [fst snd] in V1, V2. rewrite (s64_fits r0 r1 V1 V2), E. fold p. fold c.
    exists r0. rewrite (bind_run _ _ _ _ _ (CF_OF_tw _ f b s Hf)). split; [reflexivity|].
    fold p in E. unfold wide_signed in E. cbn [fst snd] in E. wide_unfold.
    rewrite Z.mod_small by lia. apply Z.mod_unique with (s64 r1); lia.
Qed.

(** [imul] with two and with three operands: the low half of the signed product. *)
Lemma imul_2_run s d n x m :
  binary s d n x m -> m <= n -> iLinkedOpCount (m_result s) = 2 ->
  let p := signed n d * signed m x in
  let c := negb (in_signed n p) in
  Call Diana_Call_imul s =
  (Ok tt, with_flags (fun _ => setf OF c (setf CF c (m_flags s))) (put_operand 0 (p mod modulus n) s)).
Proof.
  intros [W I Rd Rx Wr Pl] L C p c.
  eapply (Call_tw _ _ _ _ _ false); [|now apply idle_put_operand].
  unfold Diana_Call_imul. rewrite clear_CF_OF by eauto with diana.
  unfold result. rewrite bind_gets. change (m_result (tw ?f ?b s)) with (m_result s). rewrite C.
  change (2 =? 1) with false. change (2 =? 2) with true. cbv iota. unfold Diana_Call_imul_2.
  rewrite (bind_run _ _ _ _ _ (DI_MEM_GET_DEST_tw s d n _ _ W Rd)).
  rewrite (bind_run _ _ _ _ _ (DI_MEM_GET_SRC_tw s x m _ _ W Rx)).
  destruct (imul_impl_tw x d m n d n (m_flags s) false s) as (r & E & R);
    eauto using reads_size, reads_range with diana; [lia|].
  rewrite (bind_run _ _ _ _ _ E). unfold DI_MEM_SET_DEST.
  rewrite (DI_MEM_SET_tw 0 r n) by eauto using idle_psz_clear with diana.
  rewrite Z.mul_comm in R. rewrite (Z.mul_comm (signed m x)). fold p c in R |- *.
  now rewrite <- (put_operand_mod 0 r n s Wr), R.
Qed.

Lemma imul_3_run s d n x m y k :
  binary s d n x m -> reads s 2 y k -> m <= n -> k <= n -> iLinkedOpCount (m_result s) = 3 ->
  let p := signed m x * signed k y in
  let c := negb (in_signed n p) in
  Call Diana_Call_imul s =
  (Ok tt, with_flags (fun _ => setf OF c (setf CF c (m_flags s))) (put_operand 0 (p mod modulus n) s)).
Proof.
  intros [W I Rd Rx Wr Pl] Ry L L' C p c.
  eapply (Call_tw _ _ _ _ _ false); [|now apply idle_put_operand].
  unfold Diana_Call_imul. rewrite clear_CF_OF by eauto with diana.
  unfold result. rewrite bind_gets. change (m_result (tw ?f ?b s)) with (m_result s). rewrite C.
  change (3 =? 1) with false. change (3 =? 2) with false. change (3 =? 3) with true. cbv iota.
  unfold Diana_Call_imul_3.
  rewrite (bind_run _ _ _ _ _ (DI_MEM_GET_DEST_tw s d n _ _ W Rd)).
  rewrite (bind_run _ _ _ _ _ (DI_MEM_GET_SRC_tw s x m _ _ W Rx)).
  rewrite (bind_run _ _ _ _ _ (DI_MEM_GET_SRC2_tw s y k _ _ W Ry)).
  destruct (imul_impl_tw x y m k d n (m_flags s) false s) as (r & E & R);
    eauto using reads_size, reads_range with diana.
  rewrite (bind_run _ _ _ _ _ E). unfold DI_MEM_SET_DEST.
  rewrite (DI_MEM_SET_tw 0 r n) by eauto using idle_psz_clear with diana.
  fold p c in R |- *. now rewrite <- (put_operand_mod 0 r n s Wr), R.
Qed.

(** ** Quotients *)

(** The status of a quotient that does not fit: 8- and 64-bit divisions report a division by
    zero. *)
Definition overflow_status (n : Z) : Z :=
  if (n =? 2) || (n =? 4) then DI_DIVISION_OVERFLOW else DI_DIVISION_BY_ZERO.

Definition div_size (n argument : Z) : MP T unit :=
  if n =? 8 then Diana_Call_div64 argument
  else if n =? 4 then Diana_Call_div32 argument
  else if n =? 2 then Diana_Call_div16 argument
  else if n =? 1 then Diana_Call_div8 argument
  else fail DI_ERROR.

(** What [div] does to the pair. *)
Definition divided s (a n : Z) : outcome unit * DianaProcessor T :=
  let q := pair_value s n / a in
  if a =? 0 then (Err DI_DIVISION_BY_ZERO, s)
  else if q <? modulus n then (Ok tt, put_pair n q (pair_value s n mod a) s)
  else (Err (overflow_status n), s).

Lemma over_ltb q m A (x y : A) : (if m - 1 <? q then x else y) = if q <? m then y else x.
Proof. destruct (Z.ltb_spec (m - 1) q), (Z.ltb_spec q m); lia || reflexivity. Qed.

Lemma div_size_tw n a f b s :
  wf s -> flag_word f -> psz_clear s -> opsize n -> 0 <= a < modulus n ->
  div_size n a (tw f b s) = (fst (divided s a n), tw f b (snd (divided s a n))).
Proof.
  intros W Hf P Hn Ha. pose proof (low_range' s n W Hn) as Rl. pose proof (high_range' s n W Hn) as Rh.
  unfold div_size, divided, overflow_status, pair_value.
  opsize_cases Hn; cbn [Z.eqb Pos.eqb orb]; wsimp.
  - unfold Diana_Call_div8. rewrite (bind_run _ _ _ _ _ (GET_gpr reg_AX f b s W Hf ltac:(gpr))).
    rewrite (AX_pair s W). unfold pair_value. wsimp. cbv zeta.
    change (low_reg 1) with reg_AL in *. change (high_reg 1) with reg_AH in *.
    unfold u16, u8. rewrite !(Z.mod_small a) by lia. rewrite !(Z.mod_small (_ + _)) by lia.
    set (D := rval s reg_AL + 0x100 * rval s reg_AH).
    destruct (Z.eqb_spec a 0); [reflexivity|].
    pose proof (Z.mod_pos_bound D a ltac:(lia)).
    assert (Q : 0 <= D / a <= D) by (split; [apply Z.div_pos|apply Z.div_le_upper_bound]; unfold D; nia).
    rewrite !(Z.mod_small (D / a)) by (unfold D in *; lia). rewrite (Z.mod_small (D mod a)) by lia.
    rewrite (over_ltb (D / a) 0x100). destruct (D / a <? 0x100); [|reflexivity].
    exact (SET_pair 1 _ _ f b s W Hf P ltac:(unfold opsize; lia)).
  - unfold Diana_Call_div16. cbv zeta. unfold u16. rewrite !(Z.mod_small a) by lia.
    destruct (Z.eqb_spec a 0); [reflexivity|].
    rewrite (bind_run _ _ _ _ _ (GET_gpr reg_DX f b s W Hf ltac:(gpr))).
    rewrite (bind_run _ _ _ _ _ (GET_gpr reg_AX f b s W Hf ltac:(gpr))).
    change (low_reg 2) with reg_AX in *. change (high_reg 2) with reg_DX in *.
    rewrite !(Z.mod_small (rval s _)) by lia.
    set (D := rval s reg_AX + 0x10000 * rval s reg_DX).
    pose proof (Z.mod_pos_bound D a ltac:(lia)). rewrite (Z.mod_small (D mod a)) by lia.
    rewrite (over_ltb (D / a) 0x10000). destruct (D / a <? 0x10000); [|reflexivity].
    exact (SET_pair 2 _ _ f b s W Hf P ltac:(unfold opsize; lia)).
  - unfold Diana_Call_div32. cbv zeta. unfold u32. rewrite !(Z.mod_small a) by lia.
    destruct (Z.eqb_spec a 0); [reflexivity|].
    rewrite (bind_run _ _ _ _ _ (GET_gpr reg_EDX f b s W Hf ltac:(gpr))).
    rewrite (bind_run _ _ _ _ _ (GET_gpr reg_EAX f b s W Hf ltac:(gpr))).
    change (low_reg 4) with reg_EAX in *. change (high_reg 4) with reg_EDX in *.
    rewrite !(Z.mod_small (rval s _)) by lia.
    set (D := rval s reg_EAX + 0x100000000 * rval s reg_EDX).
    pose proof (Z.mod_pos_bound D a ltac:(lia)). rewrite (Z.mod_small (D mod a)) by lia.
    rewrite (over_ltb (D / a) 0x100000000). destruct (D / a <? 0x100000000); [|reflexivity].
    exact (SET_pair 4 _ _ f b s W Hf P ltac:(unfold opsize; lia)).
  - unfold Diana_Call_div64.
    rewrite (bind_run _ _ _ _ _ (GET_gpr reg_RAX f b s W Hf ltac:(gpr))).
    rewrite (bind_run _ _ _ _ _ (GET_gpr reg_RDX f b s W Hf ltac:(gpr))). cbv zeta.
    change (low_reg 8) with reg_RAX in *. change (high_reg 8) with reg_RDX in *.
    destruct (Z.eqb_spec a 0); [reflexivity|].
    rewrite div64_exact by (wide_unfold; lia). unfold wide. cbn [fst snd].
    change 0x10000000000000000 with W64. destruct (_ / a <? W64); [|reflexivity].
    exact (SET_pair 8 _ _ f b s W Hf P ltac:(unfold opsize; lia)).
Qed.

Lemma divided_keeps s a n : idle s ->
  idle (snd (divided s a n)) /\ m_flags (snd (divided s a n)) = m_flags s.
Proof. intros I. unfold divided. destruct (a =? 0); [auto|]. destruct (_ <? _); auto. Qed.

(** A handler that leaves the flags alone. *)
Lemma Call_same_flags {A} (m : MP T A) s a s' :
  m (tw (m_flags s) false s) = (a, tw (m_flags s) false s') -> idle s' ->
  m_flags s' = m_flags s -> Call m s = (a, s').
Proof.
  intros E I F. rewrite (Call_tw m s s' a _ false E I). f_equal. rewrite <- F. now destruct s'.
Qed.

(** [div]: quotient and remainder, or an error with nothing changed. *)
Lemma div_run s a n : pair_op s a n -> Call Diana_Call_div s = divided s a n.
Proof.
  intros [W I Ra]. pose proof (reads_size _ _ _ _ Ra) as Hn. pose proof (reads_range _ _ _ _ Ra) as Ha.
  destruct (divided_keeps s a n I) as [I' F']. rewrite (surjective_pairing (divided s a n)).
  apply Call_same_flags; auto. unfold Diana_Call_div.
  rewrite (bind_run _ _ _ _ _ (DI_MEM_GET_DEST_tw s a n _ _ W Ra)). unfold result. rewrite bind_gets.
  change (m_result (tw ?f ?b s)) with (m_result s). rewrite (reads_usedSize s 0 a n Ra).
  apply div_size_tw; eauto using idle_psz_clear with diana.
Qed.

(** ** Signed quotients *)

Definition signed_pair s (n : Z) : Z :=
  rval s (low_reg n) + modulus n * signed n (rval s (high_reg n)).

(** The range test of the code: exact for 64-bit operands; for the others it lets through every
    quotient of magnitude below [modulus n], twice the signed range. *)
Definition idiv_fits (n q : Z) : bool :=
  if n =? 8 then in_signed 8 q else (- (modulus n - 1) <=? q) && (q <=? modulus n - 1).

(** The host division of the least 32- or 64-bit number by -1 traps. *)
Definition idiv_traps (n N d : Z) : bool :=
  ((n =? 2) || (n =? 4)) && (N =? - (half n * modulus n)) && (d =? -1).

Definition idivided s (a n : Z) : outcome unit * DianaProcessor T :=
  let N := signed_pair s n in
  let d := signed n a in
  if d =? 0 then (Err DI_DIVISION_BY_ZERO, s)
  else if idiv_traps n N d then (Crash, s)
  else if idiv_fits n (Z.quot N d) then (Ok tt, put_pair n (Z.quot N d) (Z.rem N d) s)
  else (Err (overflow_status n), s).

Definition idiv_size (n argument : Z) : MP T unit :=
  if n =? 8 then Diana_Call_idiv64 argument
  else if n =? 4 then Diana_Call_idiv32 argument
  else if n =? 2 then Diana_Call_idiv16 argument
  else if n =? 1 then Diana_Call_idiv8 argument
  else fail DI_ERROR.

Lemma fits_if (lo hi q : Z) A (x y : A) :
  (if (hi <? q) || (q <? lo) then x else y) = if (lo <=? q) && (q <=? hi) then y else x.
Proof. zcases; cbn; lia || reflexivity. Qed.

Lemma quot_bound N d : d <> 0 -> Z.abs (Z.quot N d) <= Z.abs N.
Proof.
  intros Hd. rewrite <- Z.quot_abs by exact Hd.
  rewrite Z.quot_div_nonneg by lia. apply Z.div_le_upper_bound; nia.
Qed.

Lemma rem_bound N d : d <> 0 -> Z.abs (Z.rem N d) < Z.abs d.
Proof. intros Hd. apply Z.rem_bound_abs. exact Hd. Qed.

(** The wide dividend read as a signed number. *)
Lemma s16_pair lo hi : 0 <= lo < 0x100 -> 0 <= hi < 0x100 ->
  s16 (lo + 0x100 * hi) = lo + 0x100 * signed 1 hi.
Proof.
  intros Hl Hh. unfold s16, u16, signed. wsimp. cbv zeta. rewrite Z.mod_small by lia.
  zcases; lia.
Qed.

Lemma s32_pair lo hi : 0 <= lo < 0x10000 -> 0 <= hi < 0x10000 ->
  s32 (lo + 0x10000 * hi) = lo + 0x10000 * signed 2 hi.
Proof.
  intros Hl Hh. unfold s32, u32, signed. wsimp. cbv zeta. rewrite Z.mod_small by lia.
  zcases; lia.
Qed.

Lemma s64_pair lo hi : 0 <= lo < 0x100000000 -> 0 <= hi < 0x100000000 ->
  s64 (lo + 0x100000000 * hi) = lo + 0x100000000 * signed 4 hi.
Proof.
  intros Hl Hh. unfold s64, u64, signed. wsimp. cbv zeta. rewrite Z.mod_small by lia.
  zcases; lia.
Qed.

Lemma SET_signed_pair n q r f b s :
  wf s -> flag_word f -> psz_clear s -> opsize n ->
  (SET_REG (low_reg n) (u64 q) ;;; SET_REG (high_reg n) (u64 r)) (tw f b s) =
  (Ok tt, tw f b (put_pair n q r s)).
Proof.
  intros W Hf P Hn. rewrite SET_pair by assumption.
  rewrite <- put_pair_mod, !u64_mod, put_pair_mod by assumption. reflexivity.
Qed.

Lemma s8_id x : - 0x80 <= x < 0x80 -> s8 x = x.
Proof.
  intros Hx. apply Z.eqb_eq. rewrite s8_fits. unfold in_signed. wsimp. zcases; lia || reflexivity.
Qed.

Lemma idiv_size_tw n a f b s :
  wf s -> flag_word f -> psz_clear s -> opsize n -> 0 <= a < modulus n ->
  idiv_size n a (tw f b s) = (fst (idivided s a n), tw f b (snd (idivided s a n))).
Proof.
  intros W Hf P Hn Ha. pose proof (low_range' s n W Hn) as Rl. pose proof (high_range' s n W Hn) as Rh.
  pose proof (opsize_pos n Hn) as Hp.
  pose proof (signed_conv n a Hn Ha) as Sa. pose proof (signed_range n a ltac:(lia) Ha) as Ba.
  pose proof (signed_range n _ ltac:(lia) Rh) as Bh.
  unfold idiv_size, idivided, overflow_status, idiv_fits, idiv_traps, signed_pair.
  opsize_cases Hn; cbn [Z.eqb Pos.eqb orb andb] in *; wsimp.
  - unfold Diana_Call_idiv8. rewrite (bind_run _ _ _ _ _ (GET_gpr reg_AX f b s W Hf ltac:(gpr))).
    rewrite (AX_pair s W). unfold pair_value. wsimp. cbv zeta.
    change (low_reg 1) with reg_AL in *. change (high_reg 1) with reg_AH in *.
    rewrite s16_pair, Sa by lia. set (d := signed 1 a) in *.
    set (N := rval s reg_AL + 0x100 * signed 1 (rval s reg_AH)).
    assert (BN : - 0x8000 <= N < 0x8000) by (unfold N; lia).
    destruct (Z.eqb_spec d 0) as [|D0]; [reflexivity|].
    pose proof (quot_bound N d D0). pose proof (rem_bound N d D0).
    rewrite (s8_id (Z.rem N d)) by lia.
    destruct (Z.eq_dec (Z.quot N d) 0x8000) as [->|NQ]; [reflexivity|].
    rewrite s16_id by lia. rewrite fits_if.
    change (- (0x100 - 1)) with (-0xFF). change (0x100 - 1) with 0xFF.
    destruct (_ && _); [|reflexivity].
    exact (SET_signed_pair 1 _ _ f b s W Hf P ltac:(unfold opsize; lia)).
  - unfold Diana_Call_idiv16. cbv zeta. rewrite Sa. set (d := signed 2 a) in *.
    destruct (Z.eqb_spec d 0) as [|D0]; [reflexivity|].
    rewrite (bind_run _ _ _ _ _ (GET_gpr reg_DX f b s W Hf ltac:(gpr))).
    rewrite (bind_run _ _ _ _ _ (GET_gpr reg_AX f b s W Hf ltac:(gpr))).
    change (low_reg 2) with reg_AX in *. change (high_reg 2) with reg_DX in *.
    unfold u16. rewrite !(Z.mod_small (rval s _)) by lia. rewrite s32_pair by lia.
    set (N := rval s reg_AX + 0x10000 * signed 2 (rval s reg_DX)).
    change (- (0x8000 * 0x10000)) with (-0x80000000).
    destruct ((N =? -0x80000000) && (d =? -1)); [reflexivity|].
    pose proof (rem_bound N d D0). rewrite (s16_id (Z.rem N d)) by lia. rewrite fits_if.
    change (- (0x10000 - 1)) with (-0xFFFF). change (0x10000 - 1) with 0xFFFF.
    destruct (_ && _); [|reflexivity].
    exact (SET_signed_pair 2 _ _ f b s W Hf P ltac:(unfold opsize; lia)).
  - unfold Diana_Call_idiv32. cbv zeta. rewrite Sa. set (d := signed 4 a) in *.
    destruct (Z.eqb_spec d 0) as [|D0]; [reflexivity|].
    rewrite (bind_run _ _ _ _ _ (GET_gpr reg_EDX f b s W Hf ltac:(gpr))).
    rewrite (bind_run _ _ _ _ _ (GET_gpr reg_EAX f b s W Hf ltac:(gpr))).
    change (low_reg 4) with reg_EAX in *. change (high_reg 4) with reg_EDX in *.
    unfold u32. rewrite !(Z.mod_small (rval s _)) by lia. rewrite s64_pair by lia.
    set (N := rval s reg_EAX + 0x100000000 * signed 4 (rval s reg_EDX)).
    change (- (0x80000000 * 0x100000000)) with (-0x8000000000000000).
    destruct ((N =? -0x8000000000000000) && (d =? -1)); [reflexivity|].
    pose proof (rem_bound N d D0). rewrite (s32_id (Z.rem N d)) by lia. rewrite fits_if.
    change (- (0x100000000 - 1)) with (-0xFFFFFFFF). change (0x100000000 - 1) with 0xFFFFFFFF.
    destruct (_ && _); [|reflexivity].
    exact (SET_signed_pair 4 _ _ f b s W Hf P ltac:(unfold opsize; lia)).
  - unfold Diana_Call_idiv64.
    rewrite (bind_run _ _ _ _ _ (GET_gpr reg_RAX f b s W Hf ltac:(gpr))).
    rewrite (bind_run _ _ _ _ _ (GET_gpr reg_RDX f b s W Hf ltac:(gpr))). cbv zeta. rewrite Sa.
    change (low_reg 8) with reg_RAX in *. change (high_reg 8) with reg_RDX in *.
    set (d := signed 8 a) in *. destruct (Z.eqb_spec d 0) as [|D0]; [reflexivity|].
    rewrite idiv64_exact by (unfold sword; wide_unfold; lia). cbv zeta.
    assert (EN : wide_signed (rval s reg_RAX, rval s reg_RDX) =
                 rval s reg_RAX + 0x10000000000000000 * signed 8 (rval s reg_RDX)).
    { unfold wide_signed. cbn [fst snd]. f_equal. f_equal.
      exact (signed_conv 8 _ ltac:(unfold opsize; lia) Rh). }
    rewrite EN. unfold in_signed. wsimp. destruct (_ && _); [|reflexivity].
    exact (SET_signed_pair 8 _ _ f b s W Hf P ltac:(unfold opsize; lia)).
Qed.

Lemma idivided_keeps s a n : idle s ->
  idle (snd (idivided s a n)) /\ m_flags (snd (idivided s a n)) = m_flags s.
Proof.
  intros I. unfold idivided. destruct (signed n a =? 0); [auto|]. destruct (idiv_traps _ _ _); [auto|].
  destruct (idiv_fits _ _); auto.
Qed.

Lemma idiv_run s a n : pair_op s a n -> Call Diana_Call_idiv s = idivided s a n.
Proof.
  intros [W I Ra]. pose proof (reads_size _ _ _ _ Ra) as Hn. pose proof (reads_range _ _ _ _ Ra) as Ha.
  destruct (idivided_keeps s a n I) as [I' F']. rewrite (surjective_pairing (idivided s a n)).
  apply Call_same_flags; auto. unfold Diana_Call_idiv.
  rewrite (bind_run _ _ _ _ _ (DI_MEM_GET_DEST_tw s a n _ _ W Ra)). unfold result. rewrite bind_gets.
  change (m_result (tw ?f ?b s)) with (m_result s). rewrite (reads_usedSize s 0 a n Ra).
  apply idiv_size_tw; eauto using idle_psz_clear with diana.
Qed.

(** What [div] and [idiv] leave in the registers of the quotient and the remainder. *)
Lemma div_registers s a n :
  pair_op s a n -> a <> 0 -> pair_value s n / a < modulus n ->
  exists s', Call Diana_Call_div s = (Ok tt, s') /\ m_flags s' = m_flags s /\
    rval s' (low_reg n) = pair_value s n / a /\ rval s' (high_reg n) = pair_value s n mod a.
Proof.
  intros P Na Hq. pose proof P as [W I Rd]. pose proof (reads_range _ _ _ _ Rd) as Ra.
  pose proof (reads_size _ _ _ _ Rd) as Hn. pose proof (opsize_pos n Hn).
  exists (put_pair n (pair_value s n / a) (pair_value s n mod a) s). split; [|split].
  - rewrite (div_run s a n P). unfold divided. zcases; congruence || lia || reflexivity.
  - unfold put_pair. reflexivity.
  - destruct (put_pair_regs n (pair_value s n / a) (pair_value s n mod a) s W Hn) as [-> ->].
    assert (0 <= pair_value s n).
    { unfold pair_value. pose proof (low_range' s n W Hn). pose proof (high_range' s n W Hn). nia. }
    pose proof (Z.mod_pos_bound (pair_value s n) a ltac:(lia)).
    pose proof (Z.div_pos (pair_value s n) a ltac:(lia) ltac:(lia)).
    split; apply Z.mod_small; lia.
Qed.

Lemma idiv_registers s a n :
  let N := signed_pair s n in
  let d := signed n a in
  pair_op s a n -> d <> 0 -> idiv_traps n N d = false -> idiv_fits n (Z.quot N d) = true ->
  exists s', Call Diana_Call_idiv s = (Ok tt, s') /\ m_flags s' = m_flags s /\
    rval s' (low_reg n) = Z.quot N d mod modulus n /\
    rval s' (high_reg n) = Z.rem N d mod modulus n.
Proof.
  intros N d P Nd Ht Hf. pose proof P as [W I Rd].
  exists (put_pair n (Z.quot N d) (Z.rem N d) s). split; [|split].
  - rewrite (idiv_run s a n P). unfold idivided. fold N. fold d. rewrite Ht, Hf.
    destruct (Z.eqb_spec d 0); [congruence|reflexivity].
  - reflexivity.
  - apply put_pair_regs; [exact W|exact (reads_size _ _ _ _ Rd)].
Qed.
End MulDivProofs.
