(* ===== verification/Invariant.v ===== *)
(** Every integer instruction, whatever its operands and whatever the memory answers, keeps the
    processor well formed, on its error paths too: it stays inside of the register vector, the
    flags stay a 64-bit word, the stream stays well formed, and the state bits that a handler asks
    to be removed are gone when [Call] returns. *)

From Stdlib Require Import ZArith Lia List Bool.
Import ListNotations.
From S2P Require Import Prelude Words Status Registers ProcStreams Processor CmdInternal CmdArith.
From S2P Require Import CmdLogic CmdFlow CmdMulDiv CmdStack CmdString CmdMove CmdBits.
From S2P Require Import ProcessorInit State Exec Operands Rules.
Local Open Scope Z_scope.
Local Open Scope diana_scope.

(** ** Slots of the register table *)

Definition slot_ok (i : DianaRegInfo) : bool :=
  ((0 <=? m_offset i) && (m_offset i + 8 <=? 4096)) || (m_size i =? -1).

Lemma table_slots : forallb slot_ok register_table = true.
Proof. vm_compute. reflexivity. Qed.

Lemma nth_slot k : slot_ok (nth k register_table no_register) = true.
Proof.
  destruct (Nat.lt_ge_cases k (length register_table)) as [L|L].
  - pose proof table_slots as F. rewrite forallb_forall in F. apply F, nth_In. exact L.
  - now rewrite nth_overflow by exact L.
Qed.

Section Invariant.
Context {T : Type} `{RandomStreamOk T}.
Implicit Types s : DianaProcessor T.

(** Where the decoder reads next, and whether that place is in use: no handler changes it. *)
Definition fetch_place s : Z * bool := (m_tempRIP s, Z.testbit (m_stateFlags s) 0).

(** Inside of a handler: a PSZ bit that is on is also to be removed, and the decoder still reads at
    [q]. *)
Record inside (q : Z * bool) s : Prop := {
  in_wf : wf s;
  in_opsize : opsize (iCurrentCmd_opsize (m_context s));
  in_psz : has (m_stateFlags s) DI_PROC_STATE_UPDATE_FLAGS_PSZ = true ->
           has (m_stateFlagsToRemove s) DI_PROC_STATE_UPDATE_FLAGS_PSZ = true;
  in_fetch : fetch_place s = q /\ Z.testbit (m_stateFlagsToRemove s) 0 = false
}.

(** Between two instructions. *)
Definition ready s : Prop := wf s /\ opsize (iCurrentCmd_opsize (m_context s)) /\ idle s.

Definition keeps {A} (m : MP T A) : Prop := forall q s, inside q s -> inside q (snd (m s)).

(** ** Rules for the monad *)

Lemma keeps_ret {A} (a : A) : keeps (ret a).
Proof. intros q s I. exact I. Qed.
Lemma keeps_fail {A} c : keeps (@fail _ A c).
Proof. intros q s I. exact I. Qed.
Lemma keeps_crash {A} : keeps (@crash _ A).
Proof. intros q s I. exact I. Qed.
Lemma keeps_gets {A} (f : DianaProcessor T -> A) : keeps (gets f).
Proof. intros q s I. exact I. Qed.
Lemma keeps_context {A} (f : DianaContext -> A) : keeps (context f).
Proof. intros q s I. exact I. Qed.
Lemma keeps_result {A} (f : DianaParserResult -> A) : keeps (result f).
Proof. intros q s I. exact I. Qed.
Lemma keeps_option {A} (o : option A) : keeps (check_option o).
Proof. destruct o; intros q s I; exact I. Qed.

Lemma keeps_bind {A B} (m : MP T A) (k : A -> MP T B) :
  keeps m -> (forall a, keeps (k a)) -> keeps (bind m k).
Proof.
  intros Hm Hk q s I. unfold bind. specialize (Hm q s I).
  destruct (m s) as [[a|c|] s1]; cbn in *; auto. now apply Hk.
Qed.

Lemma keeps_when c (m : MP T unit) : keeps m -> keeps (when c m).
Proof. intros Hm. destruct c; [exact Hm|apply keeps_ret]. Qed.

Lemma keeps_modify (g : DianaProcessor T -> DianaProcessor T) :
  (forall q s, inside q s -> inside q (g s)) -> keeps (modify g).
Proof. intros Hg q s I. now apply Hg. Qed.

(** ** Rules for the accessors *)

Lemma inside_flags q g s : inside q s -> flag_word (g (m_flags s)) -> inside q (with_flags g s).
Proof. intros [[]]. intros. constructor; [constructor|..]; assumption. Qed.

Lemma flag_word_lor f k : 0 <= k < 64 -> flag_word f -> flag_word (Z.lor f (2 ^ k)).
Proof. intros Hk Hf. rewrite lor_setf by lia. now apply flag_word_setf. Qed.

Lemma keeps_SetFlag k : 0 <= k < 64 -> keeps (DianaProcessor_SetFlag (2 ^ k)).
Proof.
  intros Hk. apply keeps_modify. intros q s I. apply inside_flags; [exact I|].
  apply flag_word_lor; [exact Hk|]. apply wf_flag_word, (in_wf q s I).
Qed.

Lemma keeps_ClearFlag k : 0 <= k < 64 -> keeps (DianaProcessor_ClearFlag (2 ^ k)).
Proof.
  intros Hk. apply keeps_modify. intros q s I. apply inside_flags; [exact I|].
  pose proof (wf_flag_word s (in_wf q s I)) as Hf.
  rewrite land_lnot_setf by (assumption || lia). now apply flag_word_setf.
Qed.

Lemma inside_stateFlags q g s :
  inside q s -> (has (g (m_stateFlags s)) DI_PROC_STATE_UPDATE_FLAGS_PSZ = true ->
                 has (m_stateFlags s) DI_PROC_STATE_UPDATE_FLAGS_PSZ = true) ->
  Z.testbit (g (m_stateFlags s)) 0 = Z.testbit (m_stateFlags s) 0 ->
  inside q (with_stateFlags g s).
Proof.
  intros [[] O P (F & R)] Hg Hz. constructor; [constructor|..]; auto. split; [|exact R].
  rewrite <- F. exact (f_equal (pair (m_tempRIP s)) Hz).
Qed.

Lemma psz_bit x : has x DI_PROC_STATE_UPDATE_FLAGS_PSZ = Z.testbit x 2.
Proof. apply (has_pow2 x 2). lia. Qed.

Lemma bit_0_set x m : Z.testbit m 0 = false -> Z.testbit (Z.lor x m) 0 = Z.testbit x 0.
Proof. intros Hz. now rewrite Z.lor_spec, Hz, orb_false_r. Qed.

Lemma bit_0_clear x m : Z.testbit m 0 = false -> Z.testbit (Z.land x (Z.lnot m)) 0 = Z.testbit x 0.
Proof. intros Hz. now rewrite Z.land_spec, Z.lnot_spec, Hz, andb_true_r by lia. Qed.

Lemma bit_0_set_clear x m m' : Z.testbit m 0 = false -> Z.testbit m' 0 = false ->
  Z.testbit (Z.land (Z.lor x m) (Z.lnot m')) 0 = Z.testbit x 0.
Proof. intros. now rewrite bit_0_clear, bit_0_set. Qed.

Lemma keeps_set_stateFlags m : Z.testbit m 2 = false -> Z.testbit m 0 = false ->
  keeps (set_stateFlags m).
Proof.
  intros Hm Hz. apply keeps_modify. intros q s I. apply inside_stateFlags; [exact I|..].
  - rewrite !psz_bit, Z.lor_spec, Hm, orb_false_r. auto.
  - now apply bit_0_set.
Qed.

Lemma keeps_clear_stateFlags m : Z.testbit m 0 = false -> keeps (clear_stateFlags m).
Proof.
  intros Hz. apply keeps_modify. intros q s I. apply inside_stateFlags; [exact I|..].
  - rewrite !psz_bit, Z.land_spec. destruct (Z.testbit (m_stateFlags s) 2); auto.
  - now apply bit_0_clear.
Qed.

Lemma keeps_store_register off n v :
  0 <= off -> 0 <= n -> off + n <= 4096 -> keeps (store_register off n v).
Proof.
  intros Ho Hn Hb. apply keeps_modify. intros q s [W O P F]. constructor; [|exact O|exact P|exact F].
  now apply (wf_put_window off n v s W).
Qed.

(** *** Flags after a result *)

(** [UPDATE_PSZ] cannot fail and changes flags only. *)
Lemma UPDATE_PSZ_flags X h s : flag_word (m_flags s) ->
  exists g, flag_word g /\ UPDATE_PSZ X h s = (Ok tt, with_flags (fun _ => g) s).
Proof.
  intros Hf. assert (E : forall g, tw g false s = with_flags (fun _ => g) s) by now destruct s.
  unfold UPDATE_PSZ. rewrite bind_gets. destruct (has (m_stateFlags s) _).
  - rewrite when_true, <- (tw_id s). do 3 step.
    destruct (negb (X =? 0)).
    + erewrite bind_run; [|eapply when_tw; apply SET_SF_tw].
      erewrite when_tw; [|apply SET_PF_tw]. eexists. split; [|now rewrite E].
      repeat match goal with |- context [if ?c then _ else _] => destruct c end; auto 10 with diana.
    + step. rewrite SET_PF_tw. eexists. split; [|now rewrite E]. auto 8 with diana.
  - exists (m_flags s). split; [exact Hf|]. rewrite when_false. now destruct s.
Qed.

Lemma keeps_UPDATE_PSZ X h : keeps (UPDATE_PSZ X h).
Proof.
  intros q s I. destruct (UPDATE_PSZ_flags X h s (wf_flag_word s (in_wf q s I))) as (g & Hg & ->).
  now apply inside_flags.
Qed.

Lemma keeps_UpdatePSZ v n : keeps (DianaProcessor_UpdatePSZ v n).
Proof.
  intros q s I. unfold DianaProcessor_UpdatePSZ, set_stateFlags. rewrite bind_modify.
  set (s1 := with_stateFlags _ s). set (m := if n =? 1 then _ else _).
  assert (E : exists g, flag_word g /\ m s1 = (Ok tt, with_flags (fun _ => g) s1)).
  { pose proof (wf_flag_word s (in_wf q s I)) as Hf.
    unfold m. destruct (n =? 1); [now apply UPDATE_PSZ_flags|].
    destruct (n =? 2); [now apply UPDATE_PSZ_flags|]. destruct (n =? 4); [now apply UPDATE_PSZ_flags|].
    destruct (n =? 8); [now apply UPDATE_PSZ_flags|]. exists (m_flags s). split; [exact Hf|].
    now destruct s. }
  destruct E as (g & Hg & E). rewrite (bind_run _ _ _ _ _ E).
  destruct I as [[] O P F]. constructor; [constructor|..]; auto.
  - cbn [m_stateFlags with_stateFlags with_flags modify clear_stateFlags snd].
    rewrite psz_bit, Z.land_spec. change (Z.testbit (Z.lnot DI_PROC_STATE_UPDATE_FLAGS_PSZ) 2) with false.
    rewrite andb_false_r. discriminate.
  - destruct F as (F & R). split; [|exact R]. rewrite <- F.
    apply (f_equal (pair (m_tempRIP s))), bit_0_set_clear; reflexivity.
Qed.

Lemma keeps_UPDATE_FLAGS_PSZ X : keeps X -> keeps (DI_UPDATE_FLAGS_PSZ X).
Proof.
  intros HX q s I. unfold DI_UPDATE_FLAGS_PSZ, set_stateFlags. rewrite !bind_modify.
  refine (keeps_bind X _ HX (fun _ => keeps_clear_stateFlags DI_PROC_STATE_UPDATE_FLAGS_PSZ eq_refl) q _ _).
  destruct I as [[] O P F]. constructor; [constructor|..]; auto.
  - cbn. intros _. rewrite psz_bit, Z.lor_spec. apply orb_true_r.
  - destruct F as (F & R). rewrite <- F.
    split; [apply (f_equal (pair (m_tempRIP s))), bit_0_set; reflexivity|].
    exact (eq_trans (bit_0_set _ DI_PROC_STATE_UPDATE_FLAGS_PSZ eq_refl) R).
Qed.

(** *** Registers and memory *)

Lemma keeps_GET_REG r : keeps (GET_REG r).
Proof. apply keeps_bind; [apply keeps_gets|intros]. apply keeps_gets. Qed.
Lemma keeps_GET_REG2 r n : keeps (GET_REG2 r n).
Proof. apply keeps_bind; [apply keeps_gets|intros]. apply keeps_gets. Qed.

(** A store of [n] bytes to a slot. *)
Lemma keeps_SetValueEx r i v n :
  (0 <=? m_offset i) && (m_offset i + 8 <=? 4096) = true ->
  keeps (DianaProcessor_SetValueEx r i v n).
Proof.
  intros Hi%andb_true_iff. destruct Hi as [H1%Z.leb_le H2%Z.leb_le].
  unfold DianaProcessor_SetValueEx.
  apply keeps_bind; [apply keeps_when, keeps_set_stateFlags; reflexivity|intros _].
  assert (S : forall k w, 0 <= k <= 8 -> keeps (store_register (m_offset i) k w))
    by (intros; apply keeps_store_register; lia).
  destruct (n =? 1); [apply keeps_bind; [apply S; lia|intros; apply keeps_UPDATE_PSZ]|].
  destruct (n =? 2); [apply keeps_bind; [apply S; lia|intros; apply keeps_UPDATE_PSZ]|].
  destruct (n =? 4).
  { apply keeps_bind; [apply keeps_context|intros]. apply keeps_bind; [|intros; apply keeps_UPDATE_PSZ].
    match goal with |- keeps (if ?c then _ else _) => destruct c end; apply S; lia. }
  destruct (n =? 8); [apply keeps_bind; [apply S; lia|intros; apply keeps_UPDATE_PSZ]|].
  apply keeps_ret.
Qed.

(** No size fits a slot that no registration has filled. *)
Lemma keeps_SetValueEx_none r i v : m_size i = -1 ->
  keeps (DianaProcessor_SetValueEx r i v (m_size i)).
Proof.
  intros E. unfold DianaProcessor_SetValueEx. rewrite E. cbn [Z.eqb].
  apply keeps_bind; [apply keeps_when, keeps_set_stateFlags; reflexivity|intros _]. apply keeps_ret.
Qed.

Lemma QueryReg_slot s r : wf s -> slot_ok (DianaProcessor_QueryReg s r) = true.
Proof.
  intros W. unfold DianaProcessor_QueryReg, DianaProcessor_FPU_QueryReg,
    DianaProcessor_FPU_QueryReg_MM, register_slot. rewrite (wf_registers s W).
  destruct (_ && _); [apply nth_slot|]. destruct (_ && _); apply nth_slot.
Qed.

Lemma keeps_SET_REG r v : keeps (SET_REG r v).
Proof.
  intros q s I. unfold SET_REG. rewrite bind_gets. unfold DianaProcessor_SetValue.
  pose proof (QueryReg_slot s r (in_wf q s I)) as S. unfold slot_ok in S. apply orb_true_iff in S.
  destruct S as [S|S%Z.eqb_eq]; [now apply keeps_SetValueEx|now apply keeps_SetValueEx_none].
Qed.

(** Stores of a chosen size go to general registers and RIP. *)
Lemma keeps_SET_REG2 r v n : In r int_regs -> keeps (SET_REG2 r v n).
Proof.
  intros Hr q s I. unfold SET_REG2. rewrite bind_gets.
  pose proof (int_regs_ok r Hr) as R. rewrite (QueryReg_int s r (in_wf q s I) R).
  apply keeps_SetValueEx; [|exact I]. pose proof (ir_off r R). pose proof (ir_end r R).
  fold (roff r). apply andb_true_iff. split; apply Z.leb_le; lia.
Qed.

Lemma keeps_GetMemValue_out sel addr n seg : keeps (DianaProcessor_GetMemValue_out sel addr n seg).
Proof.
  intros q s I. unfold DianaProcessor_GetMemValue_out. destruct I as [[W1 W2 W3 W4 W5] O P F].
  pose proof (read_keeps (m_pMemoryStream s) sel addr seg n W5) as K.
  destruct (pReadFnc _ _ _ _ _) as [[st bs] t]. destruct K as (K & _).
  constructor; [constructor|..]; auto.
Qed.

Lemma keeps_GetMemValue sel addr n seg : keeps (DianaProcessor_GetMemValue sel addr n seg).
Proof.
  apply keeps_bind; [apply keeps_GetMemValue_out|]. intros [st v].
  destruct (st =? DI_SUCCESS); [apply keeps_ret|apply keeps_fail].
Qed.

Lemma keeps_SetMemValue sel addr n v seg : keeps (DianaProcessor_SetMemValue sel addr n v seg).
Proof.
  intros q s I. unfold DianaProcessor_SetMemValue. destruct I as [[W1 W2 W3 W4 W5] O P F].
  pose proof (write_keeps (m_pMemoryStream s) sel addr seg (le_encode (Z.to_nat n) v) W5
                (le_encode_ok _ _)) as K.
  destruct (pWriteFnc _ _ _ _ _) as [[st w] t]. constructor; [constructor|..]; auto.
Qed.
End Invariant.

(** [keep] goes through a handler: it splits sequences, branches and cases, and leaves what no
    rule covers. *)
Create HintDb keeps.
#[export] Hint Resolve keeps_ret keeps_fail keeps_crash keeps_gets keeps_context keeps_result
  keeps_option keeps_set_stateFlags keeps_clear_stateFlags keeps_UPDATE_PSZ keeps_UpdatePSZ
  keeps_GET_REG keeps_GET_REG2 keeps_SET_REG keeps_GetMemValue_out keeps_GetMemValue
  keeps_SetMemValue : keeps.

Ltac keep_flag :=
  lazymatch goal with
  | |- keeps (DianaProcessor_SetFlag ?m) =>
      let k := eval vm_compute in (Z.log2 m) in
      change m with (2 ^ k); apply keeps_SetFlag; lia
  | |- keeps (DianaProcessor_ClearFlag ?m) =>
      let k := eval vm_compute in (Z.log2 m) in
      change m with (2 ^ k); apply keeps_ClearFlag; lia
  end.

Ltac keep_flags_name :=
  unfold GET_FLAG_CF, SET_FLAG_CF, CLEAR_FLAG_CF, GET_FLAG_PF, SET_FLAG_PF, CLEAR_FLAG_PF,
    GET_FLAG_AF, SET_FLAG_AF, CLEAR_FLAG_AF, GET_FLAG_ZF, SET_FLAG_ZF, CLEAR_FLAG_ZF,
    GET_FLAG_SF, SET_FLAG_SF, CLEAR_FLAG_SF, GET_FLAG_DF, SET_FLAG_DF, CLEAR_FLAG_DF,
    SET_FLAG_IF, CLEAR_FLAG_IF, GET_FLAG_OF, SET_FLAG_OF, CLEAR_FLAG_OF.

Ltac keep_step :=
  lazymatch goal with
  | |- keeps (bind _ _) => apply keeps_bind; [|intro]
  | |- keeps (when _ _) => apply keeps_when
  | |- keeps (DI_UPDATE_FLAGS_PSZ _) => apply keeps_UPDATE_FLAGS_PSZ
  | |- keeps (SET_REG2 _ _ _) => apply keeps_SET_REG2; vm_compute; tauto
  | |- keeps (let (_, _) := ?p in _) => destruct p
  | |- keeps (match ?x with _ => _ end) => destruct x
  | |- keeps (DianaProcessor_SetFlag _) => keep_flag
  | |- keeps (DianaProcessor_ClearFlag _) => keep_flag
  | |- keeps (DianaProcessor_QueryFlag _) => apply keeps_gets
  | |- keeps _ => solve [eauto 3 with keeps]
  end.
Ltac keep := repeat keep_step.

Section Components.
Context {T : Type} `{RandomStreamOk T}.

Lemma keeps_CalcIndex i : keeps (DianaProcessor_CalcIndex i).
Proof. unfold DianaProcessor_CalcIndex. keep. Qed.
Hint Resolve keeps_CalcIndex : keeps.

Lemma gprs_64 j : 0 <= j < 8 -> In (reg_RAX + j) gprs /\ In (reg_R8 + j) gprs.
Proof.
  intros Hj. assert (C : j = 0 \/ j = 1 \/ j = 2 \/ j = 3 \/ j = 4 \/ j = 5 \/ j = 6 \/ j = 7) by lia.
  repeat destruct C as [->|C]; try subst j; split; vm_compute; tauto.
Qed.

Lemma Query64_gpr r r64 : DianaProcessor_Query64RegisterFor32 r = Some r64 -> In r64 gprs.
Proof.
  unfold DianaProcessor_Query64RegisterFor32.
  destruct (Z.leb_spec reg_EAX r), (Z.leb_spec r reg_EDI), (Z.leb_spec reg_R8D r),
    (Z.leb_spec r reg_R15D); cbn [andb]; intros E; try discriminate.
  all: match type of E with Some ?x = _ => assert (r64 = x) as -> by congruence end.
  all: unfold reg_EAX, reg_EDI, reg_R8D, reg_R15D in *.
  all: first
    [ replace (reg_RAX - 17 + r) with (reg_RAX + (r - 17)) by lia; apply gprs_64; lia
    | replace (reg_R8 - 76 + r) with (reg_R8 + (r - 76)) by lia; apply gprs_64; lia ].
Qed.

(** The upper half of a 64-bit register is inside of the vector. *)
Lemma keeps_upper_half r64 : In r64 gprs ->
  keeps (let! p := gets (fun s : DianaProcessor T => DianaProcessor_QueryReg s r64) in
         store_register (m_offset p + 4) 4 0).
Proof.
  intros G q s I. rewrite bind_gets. pose proof (int_regs_ok r64 (gprs_int r64 G)) as R.
  rewrite (QueryReg_int s r64 (in_wf q s I) R). fold (roff r64).
  pose proof (ir_off r64 R). pose proof (ir_end r64 R).
  apply keeps_store_register; [lia|lia|lia|exact I].
Qed.

Lemma keeps_SetGet_register r v b : keeps (Diana_ProcessorSetGetOperand_register r v b).
Proof.
  unfold Diana_ProcessorSetGetOperand_register. destruct b; [|keep].
  apply keeps_bind; [keep|intros _]. apply keeps_bind; [keep|intros amd64].
  apply keeps_bind; [|intros _; keep].
  destruct (DianaProcessor_Query64RegisterFor32 r) as [r64|] eqn:E; [|keep].
  apply keeps_when, keeps_upper_half. now apply (Query64_gpr r).
Qed.
Hint Resolve keeps_SetGet_register : keeps.

Lemma keeps_SetGet_index n v b i : keeps (Diana_ProcessorSetGetOperand_index n v b i).
Proof. unfold Diana_ProcessorSetGetOperand_index. keep. Qed.
Lemma keeps_SetGet_imm i v b : keeps (Diana_ProcessorSetGetOperand_imm i v b).
Proof. unfold Diana_ProcessorSetGetOperand_imm. keep. Qed.
Hint Resolve keeps_SetGet_index keeps_SetGet_imm : keeps.

Lemma keeps_MEM_GET i : keeps (DI_MEM_GET i).
Proof. unfold DI_MEM_GET, DianaProcessor_SetGetOperand. keep. Qed.
Lemma keeps_MEM_SET i v : keeps (DI_MEM_SET i v).
Proof. unfold DI_MEM_SET, DianaProcessor_SetGetOperand. keep. Qed.
Lemma keeps_GetOperandSize i : keeps (DianaProcessor_GetOperandSize i).
Proof. unfold DianaProcessor_GetOperandSize. keep. Qed.
Lemma keeps_SIGN_EXTEND v m n : keeps (DI_SIGN_EXTEND v m n).
Proof. apply keeps_option. Qed.
Lemma keeps_QueryAddress i : keeps (Diana_QueryAddress i).
Proof. unfold Diana_QueryAddress. keep. Qed.
Lemma keeps_index_ex n i : keeps (Diana_ProcessorGetOperand_index_ex n i).
Proof. unfold Diana_ProcessorGetOperand_index_ex. keep. Qed.
Lemma keeps_index_ex2 n i : keeps (Diana_ProcessorGetOperand_index_ex2 n i).
Proof. unfold Diana_ProcessorGetOperand_index_ex2. keep. Qed.
Hint Resolve keeps_MEM_GET keeps_MEM_SET keeps_GetOperandSize keeps_SIGN_EXTEND
  keeps_QueryAddress keeps_index_ex keeps_index_ex2 : keeps.

(** ** Shared parts of the handlers *)

Lemma keeps_START_COA : keeps (@DI_START_UPDATE_COA_FLAGS T).
Proof. unfold DI_START_UPDATE_COA_FLAGS. keep_flags_name; keep. Qed.

Lemma keeps_START_OA : keeps (@DI_START_UPDATE_OA_FLAGS T).
Proof. unfold DI_START_UPDATE_OA_FLAGS. keep_flags_name; keep. Qed.

Lemma keeps_set_OF_same a b c n : keeps (@set_OF_same T a b c n).
Proof. unfold set_OF_same. keep_flags_name; keep. Qed.

Lemma keeps_set_OF_differ a b c n : keeps (@set_OF_differ T a b c n).
Proof. unfold set_OF_differ. keep_flags_name; keep. Qed.

Hint Resolve keeps_START_COA keeps_START_OA keeps_set_OF_same keeps_set_OF_differ : keeps.

Lemma keeps_SetCOA_Add a b c n f : keeps (@DianaProcessor_SetCOA_Add T a b c n f).
Proof. unfold DianaProcessor_SetCOA_Add. keep_flags_name; keep. Qed.

Lemma keeps_SetCOA_AddCF a b c n f : keeps (@DianaProcessor_SetCOA_AddCF T a b c n f).
Proof. unfold DianaProcessor_SetCOA_AddCF. keep_flags_name; keep. Qed.

Lemma keeps_SetCOA_Sub a b c n f : keeps (@DianaProcessor_SetCOA_Sub T a b c n f).
Proof. unfold DianaProcessor_SetCOA_Sub. keep_flags_name; keep. Qed.

Lemma keeps_SetCOA_SubCF a b c n f : keeps (@DianaProcessor_SetCOA_SubCF T a b c n f).
Proof. unfold DianaProcessor_SetCOA_SubCF. keep_flags_name; keep. Qed.

Lemma keeps_ResetDefaultFlags : keeps (@DianaProcessor_SetResetDefaultFlags T).
Proof. unfold DianaProcessor_SetResetDefaultFlags. keep_flags_name; keep. Qed.

Lemma keeps_CheckZeroExtends_operand i v n : keeps (Di_CheckZeroExtends_operand i v n).
Proof. unfold Di_CheckZeroExtends_operand. keep_flags_name; keep. Qed.

Hint Resolve keeps_SetCOA_Add keeps_SetCOA_AddCF keeps_SetCOA_Sub keeps_SetCOA_SubCF
  keeps_ResetDefaultFlags keeps_CheckZeroExtends_operand : keeps.

Lemma keeps_CheckZeroExtends v n : keeps (Di_CheckZeroExtends v n).
Proof. unfold Di_CheckZeroExtends. keep_flags_name; keep. Qed.

Lemma keeps_CheckZeroExtends2 v n : keeps (Di_CheckZeroExtends2 v n).
Proof. unfold Di_CheckZeroExtends2. keep_flags_name; keep. Qed.

Lemma keeps_ClearUpperHalf : keeps (Di_ClearUpperHalf).
Proof. unfold Di_ClearUpperHalf. keep_flags_name; keep. Qed.

Lemma keeps_push v : keeps (diana_internal_push v).
Proof. unfold diana_internal_push. keep_flags_name; keep. Qed.

Lemma keeps_pop : keeps (diana_internal_pop).
Proof. unfold diana_internal_pop. keep_flags_name; keep. Qed.

Lemma keeps_jcc k i : keeps (Diana_Call_jcc k i).
Proof. unfold Diana_Call_jcc. keep_flags_name; keep. Qed.

Lemma keeps_PrepareSIDI b : keeps (@Di_PrepareSIDI_regs T b).
Proof. unfold Di_PrepareSIDI_regs. keep_flags_name; keep. Qed.

Lemma keeps_UpdateSIDI a b : keeps (@Di_UpdateSIDI T a b).
Proof. unfold Di_UpdateSIDI. keep_flags_name; keep. Qed.

Hint Resolve keeps_CheckZeroExtends keeps_CheckZeroExtends2 keeps_ClearUpperHalf keeps_push
  keeps_pop keeps_jcc keeps_PrepareSIDI keeps_UpdateSIDI : keeps.

Lemma keeps_internal_ret b : keeps (Diana_Call_internal_ret b).
Proof. unfold Diana_Call_internal_ret. unfold DI_MEM_GET_DEST. keep. Qed.

Lemma keeps_set_CF_OF : keeps (@set_CF_OF T).
Proof. unfold set_CF_OF. keep_flags_name; keep. Qed.

Lemma keeps_write_back v n : keeps (write_back v n).
Proof. unfold write_back. unfold DI_MEM_SET_DEST. keep. Qed.

Lemma keeps_shift_count v : keeps (@shift_count T v).
Proof. unfold shift_count. keep_flags_name; keep. Qed.

Lemma keeps_rotate_carry_count v n : keeps (@rotate_carry_count T v n).
Proof. unfold rotate_carry_count. keep_flags_name; keep. Qed.

Hint Resolve keeps_internal_ret keeps_set_CF_OF keeps_write_back keeps_shift_count keeps_rotate_carry_count : keeps.
End Components.

#[export] Hint Resolve keeps_CalcIndex keeps_SetGet_register keeps_SetGet_index keeps_SetGet_imm
  keeps_MEM_GET keeps_MEM_SET keeps_GetOperandSize keeps_SIGN_EXTEND keeps_QueryAddress
  keeps_index_ex keeps_index_ex2 keeps_START_COA keeps_START_OA keeps_set_OF_same
  keeps_set_OF_differ keeps_SetCOA_Add keeps_SetCOA_AddCF keeps_SetCOA_Sub keeps_SetCOA_SubCF
  keeps_ResetDefaultFlags keeps_CheckZeroExtends_operand keeps_CheckZeroExtends
  keeps_CheckZeroExtends2 keeps_ClearUpperHalf keeps_push keeps_pop keeps_jcc keeps_PrepareSIDI
  keeps_UpdateSIDI keeps_internal_ret keeps_set_CF_OF keeps_write_back keeps_shift_count
  keeps_rotate_carry_count : keeps.

(** Each handler of a list, unfolded to its accessors. *)
Ltac keep_handlers :=
  repeat (apply Forall_cons || apply Forall_nil);
  autounfold with handler; cbv zeta; keep_flags_name; keep.

Create HintDb handler.
#[export] Hint Unfold DI_MEM_GET_DEST DI_MEM_SET_DEST DI_MEM_GET_SRC DI_MEM_SET_SRC DI_MEM_GET_SRC2
  dest_usedSize DianaProcessor_CmdUsesNormalRep
  cmov jump_if set_if far_target Diana_Call_setcc cond_a cond_ae cond_b cond_be cond_e cond_g
  cond_ge cond_l cond_le cond_ne cond_no cond_np cond_ns cond_o cond_p cond_s
  Diana_Call_cmpxchg8b_impl Diana_Call_cmpxchg16b_impl Diana_Call_mul8 Diana_Call_mul16
  Diana_Call_mul32 Diana_Call_mul64 Diana_Call_imul8 Diana_Call_imul16 Diana_Call_imul32
  Diana_Call_imul64 Diana_Call_imul_1 Diana_Call_imul_impl Diana_Call_imul_2 Diana_Call_imul_3
  Diana_Call_div8 Diana_Call_div16 Diana_Call_div32 Diana_Call_div64 Diana_Call_idiv8
  Diana_Call_idiv16 Diana_Call_idiv32 Diana_Call_idiv64 Diana_Call_popa32 Diana_Call_popa16
  Diana_Call_pusha32 Diana_Call_pusha16 Diana_Call_lXs_impl
  Di_BitStringAddress bit_in_operand Di_SetZFSF DI_EXT_ARITH_FLAGS_CLEAR Di_CountZeros Di_Bls
  Di_BitsDepositExtract Di_ShiftX Di_AddCarry Diana_Call_add Diana_Call_adc Diana_Call_sub
  Diana_Call_sbb Diana_Call_cmp Diana_Call_neg Diana_Call_inc Diana_Call_dec Diana_Call_xadd
  Diana_Call_cmpxchg Diana_Call_cmpxchg16b Diana_Call_cbw Diana_Call_cwd Diana_Call_aaa
  Diana_Call_aas Diana_Call_aad Diana_Call_aam Diana_Call_daa Diana_Call_das Diana_Call_and
  Diana_Call_or Diana_Call_xor Diana_Call_test Diana_Call_not Diana_Call_shl Diana_Call_shr
  Diana_Call_sar Diana_Call_shld Diana_Call_shrd Diana_Call_rol Diana_Call_ror Diana_Call_rcl
  Diana_Call_rcr Diana_Call_cmova Diana_Call_cmovae Diana_Call_cmovb Diana_Call_cmovbe
  Diana_Call_cmove Diana_Call_cmovg Diana_Call_cmovge Diana_Call_cmovl Diana_Call_cmovle
  Diana_Call_cmovne Diana_Call_cmovno Diana_Call_cmovnp Diana_Call_cmovns Diana_Call_cmovo
  Diana_Call_cmovp Diana_Call_cmovs Diana_Call_ja Diana_Call_jae Diana_Call_jb Diana_Call_jbe
  Diana_Call_je Diana_Call_jg Diana_Call_jge Diana_Call_jl Diana_Call_jle Diana_Call_jne
  Diana_Call_jno Diana_Call_jnp Diana_Call_jns Diana_Call_jo Diana_Call_jp Diana_Call_js
  Diana_Call_seta Diana_Call_setae Diana_Call_setb Diana_Call_setbe Diana_Call_sete
  Diana_Call_setg Diana_Call_setge Diana_Call_setl Diana_Call_setle Diana_Call_setne
  Diana_Call_setno Diana_Call_setnp Diana_Call_setns Diana_Call_seto Diana_Call_setp
  Diana_Call_sets Diana_Call_loop Diana_Call_loope Diana_Call_loopne Diana_Call_jecxz
  Diana_Call_call Diana_Call_jmp Diana_Call_ret Diana_Call_retf Diana_Call_mul Diana_Call_imul
  Diana_Call_div Diana_Call_idiv Diana_Call_push Diana_Call_pushf Diana_Call_pop Diana_Call_popa
  Diana_Call_popf Diana_Call_pusha Diana_Call_leave Diana_Call_enter Diana_Call_pause
  Diana_Call_movs Diana_Call_cmps Diana_Call_scas Diana_Call_stos Diana_Call_lods Diana_Call_mov
  Diana_Call_movsx Diana_Call_movzx Diana_Call_movsxd Diana_Call_lea Diana_Call_lfs
  Diana_Call_lgs Diana_Call_lss Diana_Call_lds Diana_Call_les Diana_Call_xchg Diana_Call_xlat
  Diana_Call_smsw Diana_Call_bsf Diana_Call_bsr Diana_Call_bt Diana_Call_btc Diana_Call_btr
  Diana_Call_bts Diana_Call_bswap Diana_Call_popcnt Diana_Call_lzcnt Diana_Call_tzcnt
  Diana_Call_andn Diana_Call_bextr Diana_Call_blsi Diana_Call_blsmsk Diana_Call_blsr
  Diana_Call_bzhi Diana_Call_mulx Diana_Call_pdep Diana_Call_pext Diana_Call_rorx
  Diana_Call_sarx Diana_Call_shlx Diana_Call_shrx Diana_Call_crc32 Diana_Call_movbe
  Diana_Call_adcx Diana_Call_adox Diana_Call_endbr32 Diana_Call_endbr64 Diana_Call_clc
  Diana_Call_cld Diana_Call_cli Diana_Call_stc Diana_Call_std Diana_Call_sti Diana_Call_cmc
  Diana_Call_lahf Diana_Call_sahf Diana_Call_cpuid Diana_Call_rdrand Diana_Call_rdseed
  Diana_Call_int Diana_Call_nop Diana_Call_hint_nop Diana_Call_do_nothing : handler.

Section Handlers.
Context {T : Type} `{RandomStreamOk T}.

(** ** The handlers *)

Definition arith_handlers : list (MP T unit) :=
  [Diana_Call_add; Diana_Call_adc; Diana_Call_sub; Diana_Call_sbb; Diana_Call_cmp;
   Diana_Call_neg; Diana_Call_inc; Diana_Call_dec; Diana_Call_xadd; Diana_Call_cmpxchg;
   Diana_Call_cmpxchg16b; Diana_Call_cbw; Diana_Call_cwd; Diana_Call_aaa; Diana_Call_aas;
   Diana_Call_aad; Diana_Call_aam; Diana_Call_daa; Diana_Call_das].

Definition logic_handlers : list (MP T unit) :=
  [Diana_Call_and; Diana_Call_or; Diana_Call_xor; Diana_Call_test; Diana_Call_not;
   Diana_Call_shl; Diana_Call_shr; Diana_Call_sar; Diana_Call_shld; Diana_Call_shrd;
   Diana_Call_rol; Diana_Call_ror; Diana_Call_rcl; Diana_Call_rcr].

Definition flow_handlers : list (MP T unit) :=
  [Diana_Call_cmova; Diana_Call_cmovae; Diana_Call_cmovb; Diana_Call_cmovbe;
   Diana_Call_cmove; Diana_Call_cmovg; Diana_Call_cmovge; Diana_Call_cmovl;
   Diana_Call_cmovle; Diana_Call_cmovne; Diana_Call_cmovno; Diana_Call_cmovnp;
   Diana_Call_cmovns; Diana_Call_cmovo; Diana_Call_cmovp; Diana_Call_cmovs; Diana_Call_ja;
   Diana_Call_jae; Diana_Call_jb; Diana_Call_jbe; Diana_Call_je; Diana_Call_jg;
   Diana_Call_jge; Diana_Call_jl; Diana_Call_jle; Diana_Call_jne; Diana_Call_jno;
   Diana_Call_jnp; Diana_Call_jns; Diana_Call_jo; Diana_Call_jp; Diana_Call_js;
   Diana_Call_seta; Diana_Call_setae; Diana_Call_setb; Diana_Call_setbe; Diana_Call_sete;
   Diana_Call_setg; Diana_Call_setge; Diana_Call_setl; Diana_Call_setle; Diana_Call_setne;
   Diana_Call_setno; Diana_Call_setnp; Diana_Call_setns; Diana_Call_seto; Diana_Call_setp;
   Diana_Call_sets; Diana_Call_loop; Diana_Call_loope; Diana_Call_loopne;
   Diana_Call_jecxz; Diana_Call_call; Diana_Call_jmp; Diana_Call_ret; Diana_Call_retf].

Definition muldiv_handlers : list (MP T unit) :=
  [Diana_Call_mul; Diana_Call_imul; Diana_Call_div; Diana_Call_idiv].

Definition stack_handlers : list (MP T unit) :=
  [Diana_Call_push; Diana_Call_pushf; Diana_Call_pop; Diana_Call_popa; Diana_Call_popf;
   Diana_Call_pusha; Diana_Call_leave; Diana_Call_enter; Diana_Call_pause].

Definition string_handlers : list (MP T unit) :=
  [Diana_Call_movs; Diana_Call_cmps; Diana_Call_scas; Diana_Call_stos; Diana_Call_lods].

Definition move_handlers : list (MP T unit) :=
  [Diana_Call_mov; Diana_Call_movsx; Diana_Call_movzx; Diana_Call_movsxd; Diana_Call_lea;
   Diana_Call_lfs; Diana_Call_lgs; Diana_Call_lss; Diana_Call_lds; Diana_Call_les;
   Diana_Call_xchg; Diana_Call_xlat; Diana_Call_smsw].

Definition bits_handlers : list (MP T unit) :=
  [Diana_Call_bsf; Diana_Call_bsr; Diana_Call_bt; Diana_Call_btc; Diana_Call_btr;
   Diana_Call_bts; Diana_Call_bswap; Diana_Call_popcnt; Diana_Call_lzcnt;
   Diana_Call_tzcnt; Diana_Call_andn; Diana_Call_bextr; Diana_Call_blsi;
   Diana_Call_blsmsk; Diana_Call_blsr; Diana_Call_bzhi; Diana_Call_mulx; Diana_Call_pdep;
   Diana_Call_pext; Diana_Call_rorx; Diana_Call_sarx; Diana_Call_shlx; Diana_Call_shrx;
   Diana_Call_crc32; Diana_Call_movbe; Diana_Call_adcx; Diana_Call_adox;
   Diana_Call_endbr32; Diana_Call_endbr64].

Definition misc_handlers : list (MP T unit) :=
  [Diana_Call_clc; Diana_Call_cld; Diana_Call_cli; Diana_Call_stc; Diana_Call_std;
   Diana_Call_sti; Diana_Call_cmc; Diana_Call_lahf; Diana_Call_sahf; Diana_Call_cpuid;
   Diana_Call_rdrand; Diana_Call_rdseed; Diana_Call_int; Diana_Call_nop;
   Diana_Call_hint_nop; Diana_Call_do_nothing].

Definition handlers : list (MP T unit) :=
  arith_handlers ++ logic_handlers ++ flow_handlers ++ muldiv_handlers ++ stack_handlers ++
  string_handlers ++ move_handlers ++ bits_handlers ++ misc_handlers.

(** ** Loops *)

Lemma keeps_shl_loop n : forall m v, keeps (@shl_loop T n m v).
Proof. induction n; intros; cbn [shl_loop]; keep_flags_name; keep. Qed.
Lemma keeps_shr_loop n : forall m v, keeps (@shr_loop T n m v).
Proof. induction n; intros; cbn [shr_loop]; keep_flags_name; keep. Qed.
Lemma keeps_rcl_loop n : forall m v, keeps (@rcl_loop T n m v).
Proof. induction n; intros; cbn [rcl_loop]; keep_flags_name; keep. Qed.
Lemma keeps_rcr_loop n : forall m v, keeps (@rcr_loop T n m v).
Proof. induction n; intros; cbn [rcr_loop]; keep_flags_name; keep. Qed.
Lemma keeps_shld_loop n : forall i m ds d x xs, keeps (shld_loop n i m ds d x xs).
Proof. induction n; intros; cbn [shld_loop]; keep_flags_name; unfold DI_MEM_GET_DEST; keep. Qed.
Lemma keeps_enter_loop n : forall a b c, keeps (enter_loop n a b c).
Proof. induction n; intros; cbn [enter_loop]; keep. Qed.
Hint Resolve keeps_shl_loop keeps_shr_loop keeps_rcl_loop keeps_rcr_loop keeps_shld_loop
  keeps_enter_loop : keeps.

Lemma keeps_arith : Forall keeps arith_handlers.
Proof. keep_handlers. Qed.

Lemma keeps_logic : Forall keeps logic_handlers.
Proof. keep_handlers. Qed.

Lemma keeps_muldiv : Forall keeps muldiv_handlers.
Proof. keep_handlers. Qed.

Lemma keeps_string : Forall keeps string_handlers.
Proof. keep_handlers. Qed.

Lemma keeps_move : Forall keeps move_handlers.
Proof. keep_handlers. Qed.

(** Updates of fields that the invariant does not mention. *)
Ltac keep_field :=
  apply keeps_modify; intros ? ? [[] ? ? ?]; constructor; [constructor|..]; assumption.

Lemma keeps_lastCallRIP f : keeps (modify (@with_lastCallRIP T f)).
Proof. keep_field. Qed.
Lemma keeps_lastCallRSP f : keeps (modify (@with_lastCallRSP T f)).
Proof. keep_field. Qed.
Lemma keeps_random f : keeps (modify (@with_random T f)).
Proof. keep_field. Qed.
Lemma keeps_result_update f : keeps (modify (@with_result T f)).
Proof. keep_field. Qed.
Hint Resolve keeps_lastCallRIP keeps_lastCallRSP keeps_random keeps_result_update : keeps.

Lemma keeps_flow : Forall keeps flow_handlers.
Proof. keep_handlers. Qed.

Lemma keeps_bits : Forall keeps bits_handlers.
Proof. keep_handlers. Qed.

(** The low [k] bits of the flags word replaced. *)
Lemma keeps_low_flags k (f : Z -> Z) : 0 <= k <= 64 -> (forall x, 0 <= f x < 2 ^ k) ->
  forall v, keeps (modify (with_flags (fun g => Z.shiftl (Z.shiftr g k) k + f v)) : MP T unit).
Proof.
  intros Hk Hf v. apply keeps_modify. intros q s I. apply inside_flags; [exact I|].
  pose proof (wf_flag_word s (in_wf q s I)) as Fw. apply (bits_bound _ 64); [lia|]. intros i Hi.
  rewrite Z.shiftl_mul_pow2 by lia. rewrite testbit_high_part by (try lia; apply Hf).
  rewrite Z.shiftr_spec by lia. apply flag_word_bits; [exact Fw|lia].
Qed.

Lemma keeps_misc : Forall keeps misc_handlers.
Proof.
  keep_handlers. apply (keeps_low_flags 8 u8); [lia|]. intros x. apply Z.mod_pos_bound. lia.
Qed.

Lemma keeps_with_opsize n : opsize n -> keeps (modify (with_context (with_opsize n)) : MP T unit).
Proof.
  intros Hn. apply keeps_modify. intros q s [[] O P F]. constructor; [constructor|..]; assumption.
Qed.

(** [popf] in 64-bit mode reads straight into the flags word, also when the read fails. *)
Lemma keeps_read_flags sel addr n seg (k : Z -> MP T unit) :
  opsize n -> (forall st, keeps (k st)) ->
  keeps (let! (st, v) := DianaProcessor_GetMemValue_out sel addr n seg in
         modify (with_flags (fun _ => v)) ;;; k st).
Proof.
  intros Hn Hk q s I. unfold bind at 1, DianaProcessor_GetMemValue_out.
  pose proof (read_keeps (m_pMemoryStream s) sel addr seg n (wf_stream s (in_wf q s I))) as K.
  destruct (pReadFnc _ _ _ _ _) as [[st bs] t]. destruct K as (K & B & L).
  rewrite bind_modify. apply Hk. apply inside_flags.
  - destruct I as [[] O P F]. constructor; [constructor|..]; assumption.
  - pose proof (opsize_pos n Hn). pose proof (le_decode_range bs B) as R. split; [lia|].
    apply Z.lt_le_trans with (1 := proj2 R). change 0x10000000000000000 with (2 ^ 64).
    apply Z.pow_le_mono_r; lia.
Qed.

Lemma keeps_pop_flags : keeps (diana_internal_pop_flags : MP T unit).
Proof.
  intros q s I. unfold diana_internal_pop_flags, context. rewrite !bind_gets.
  pose proof (in_opsize q s I) as Hn.
  refine (keeps_bind _ _ (keeps_GET_REG2 _ _) (fun rsp => _) q s I).
  apply keeps_bind; [apply keeps_GET_REG|intros ss].
  apply keeps_bind; [|intros _; apply keeps_read_flags; [exact Hn|intros; keep]].
  apply keeps_modify. intros q1 s1 I1. apply inside_flags; [exact I1|]. unfold flag_word. lia.
Qed.
Hint Resolve keeps_pop_flags : keeps.

Lemma keeps_stack : Forall keeps stack_handlers.
Proof.
  keep_handlers.
  - apply (keeps_low_flags 32 u32); [lia|]. intros x. apply Z.mod_pos_bound. lia.
  - apply (keeps_low_flags 16 u16); [lia|]. intros x. apply Z.mod_pos_bound. lia.
  - apply keeps_with_opsize. unfold opsize. lia.
Qed.

Lemma keeps_handlers m : In m handlers -> keeps m.
Proof.
  intros Hm. unfold handlers in Hm. revert m Hm. apply Forall_forall.
  repeat (apply Forall_app; split); auto using keeps_arith, keeps_logic, keeps_flow, keeps_muldiv,
    keeps_stack, keeps_string, keeps_move, keeps_bits, keeps_misc.
Qed.

(** ** [Call] *)

Lemma ready_inside s : ready s -> inside (fetch_place s) s.
Proof.
  intros (W & O & R & P). constructor; auto; [rewrite P; discriminate|]. now rewrite R.
Qed.

(** [Call] of a handler that keeps the invariant leaves the place where the decoder reads. *)
Lemma Call_fetch {A} (m : MP T A) s : keeps m -> ready s ->
  fetch_place (snd (Call m s)) = fetch_place s.
Proof.
  intros Hm R. specialize (Hm _ s (ready_inside s R)). unfold Call. destruct (m s) as [a s1].
  cbn [snd] in Hm. destruct Hm as [_ _ _ (F & Hz)]. rewrite <- F.
  exact (f_equal (pair (m_tempRIP s1)) (bit_0_clear _ _ Hz)).
Qed.

(** From a ready state, [Call] of a handler that keeps the invariant ends in a ready state. *)
Lemma Call_ready {A} (m : MP T A) s : keeps m -> ready s -> ready (snd (Call m s)).
Proof.
  intros Hm R. specialize (Hm _ s (ready_inside s R)). unfold Call. destruct (m s) as [a s1].
  cbn in Hm |- *. destruct Hm as [[] O1 P1 _]. split; [constructor; assumption|]. split; [exact O1|].
  split; [reflexivity|]. cbn. rewrite !psz_bit in *. rewrite Z.land_spec, Z.lnot_spec by lia.
  destruct (Z.testbit (m_stateFlags s1) 2); [|reflexivity]. now rewrite P1.
Qed.
End Handlers.
