(* ===== verification/StackProofs.v ===== *)
(** The stack: memory reads back what was stored, [push] and [pop] undo each other, a [ret]
    returns behind its [call], and [popa] restores what [pusha] saved. *)

From Stdlib Require Import ZArith Lia List Bool.
Import ListNotations.
From S2P Require Import Prelude Words Status Registers ProcStreams Processor CmdInternal CmdFlow.
From S2P Require Import CmdStack CmdString ProcessorInit State Exec Operands Rules.
From S2P Require Import RegisterProofs FlowProofs.
Local Open Scope Z_scope.
Local Open Scope diana_scope.

(** Storing what is there changes nothing. *)
Lemma buf_store_load buf off n :
  Forall byte_ok buf -> 0 <= off -> 0 <= n -> off + n <= Z.of_nat (length buf) ->
  buf_store buf off n (buf_load buf off n) = buf.
Proof.
  intros Hb H0 Hn HB. apply (list_ext_nth _ _ 0); [now apply buf_store_length|].
  intros i _. rewrite buf_store_nth by lia.
  destruct (Z.leb_spec off (Z.of_nat i)), (Z.ltb_spec (Z.of_nat i) (off + n)); cbn [andb];
    try reflexivity.
  pose proof (buf_bytes_length buf off n H0 Hn HB) as L.
  pose proof (le_encode_decode (buf_bytes buf off n) (buf_bytes_ok buf off n Hb)) as E.
  replace (8 * (Z.of_nat i - off)) with (8 * Z.of_nat (i - Z.to_nat off)) by lia.
  rewrite <- (le_encode_nth (length (buf_bytes buf off n)) (buf_load buf off n) _ 0)
    by (rewrite L; lia).
  unfold buf_load. rewrite E, buf_bytes_nth by lia. f_equal. lia.
Qed.

Section Memory.
Context {T : Type} `{RandomStreamOk T}.
Implicit Types s : DianaProcessor T.

Lemma loads_bytes t sel addr seg bs :
  stream_wf t -> bs <> [] ->
  (forall i, (i < length bs)%nat -> cell t (linear t sel addr + Z.of_nat i) = Some (nth i bs 0)) ->
  loads t sel addr (Z.of_nat (length bs)) seg (le_decode bs).
Proof.
  intros W N C. exists bs. split; [now apply read_mapped|]. split; [reflexivity|].
  split; [reflexivity|]. rewrite Forall_forall. intros y Hy.
  destruct (In_nth _ _ 0 Hy) as (j & Hj & <-). apply (cell_byte t _ _ W (C j Hj)).
Qed.

(** A mapped range can be loaded. *)
Lemma mapped_loads t sel addr n seg :
  stream_wf t -> 0 < n -> mapped t sel addr n -> exists v, loads t sel addr n seg v.
Proof.
  intros W Hn M. rewrite <- (Z2Nat.id n) in M by lia.
  destruct (mapped_bytes t sel addr _ M) as (bs & L & C).
  exists (le_decode bs). replace n with (Z.of_nat (length bs)) by lia.
  apply loads_bytes; [exact W| |now rewrite L].
  intros ->. cbn in L. lia.
Qed.

Lemma loads_mapped t sel addr n seg v :
  stream_wf t -> 0 < n -> loads t sel addr n seg v -> mapped t sel addr n.
Proof.
  intros W Hn (bs & E & L & _). now destruct (read_ok_same _ _ _ _ _ _ _ W Hn E L) as (_ & M & _).
Qed.

(** The bytes of a load are those of the cells. *)
Lemma loads_cells t t' sel addr n seg v :
  stream_wf t -> stream_wf t' -> 0 < n -> loads t sel addr n seg v ->
  linear t' sel addr = linear t sel addr ->
  (forall i, 0 <= i < n -> cell t' (linear t sel addr + i) = cell t (linear t sel addr + i)) ->
  loads t' sel addr n seg v.
Proof.
  intros W W' Hn L El Ec. pose proof (loads_mapped _ _ _ _ _ _ W Hn L) as M.
  destruct L as (bs & E & Ln & D & B).
  rewrite <- (Z2Nat.id n) in M by lia.
  destruct (mapped_bytes t sel addr _ M) as (cs & Lc & C).
  assert (bs = cs) as ->.
  { assert (Nc : cs <> []) by (intros ->; cbn in Lc; lia). rewrite <- Lc in C.
    pose proof (read_mapped t sel addr seg cs W Nc C) as R.
    replace (Z.of_nat (length cs)) with n in R by lia. rewrite E in R. now injection R. }
  exists cs. rewrite <- Ln. split; [|auto]. apply read_mapped; [exact W'| |].
  - intros ->. cbn in Ln. lia.
  - intros i Hi. rewrite El, Ec by lia. apply C. lia.
Qed.

(** A store is read back... *)
Lemma put_memory_same s sel addr n v seg seg' :
  wf s -> 0 < n -> mapped (m_pMemoryStream s) sel addr n ->
  loads (m_pMemoryStream (put_memory sel addr n v seg s)) sel addr n seg' (v mod modulus n).
Proof.
  intros W Hn M.
  destruct (stream_store _ sel addr n v seg (wf_stream s W) Hn M) as (t' & E & W' & L & C).
  cbn [put_memory with_pMemoryStream m_pMemoryStream]. rewrite E. cbn [snd].
  assert (Ev : v mod modulus n = le_decode (le_encode (Z.to_nat n) v))
    by (rewrite le_decode_encode, Z2Nat.id by lia; reflexivity).
  assert (En : n = Z.of_nat (length (le_encode (Z.to_nat n) v)))
    by (rewrite le_encode_length; lia).
  rewrite Ev. rewrite En at 1.
  apply loads_bytes; [exact W'| |].
  - intros Z0. pose proof (le_encode_length (Z.to_nat n) v) as Le. rewrite Z0 in Le. cbn in Le. lia.
  - rewrite le_encode_length. intros i Hi. rewrite L, C.
    destruct (Z.leb_spec (linear (m_pMemoryStream s) sel addr)
                (linear (m_pMemoryStream s) sel addr + Z.of_nat i)),
      (Z.ltb_spec (linear (m_pMemoryStream s) sel addr + Z.of_nat i)
         (linear (m_pMemoryStream s) sel addr + n)); try lia. cbn [andb].
    rewrite le_encode_nth by lia. do 5 f_equal. lia.
Qed.

(** ... keeps everything mapped ... *)
Lemma put_memory_mapped s sel addr n v seg sel' addr' m :
  wf s -> 0 < n -> mapped (m_pMemoryStream s) sel addr n ->
  mapped (m_pMemoryStream s) sel' addr' m ->
  mapped (m_pMemoryStream (put_memory sel addr n v seg s)) sel' addr' m.
Proof.
  intros W Hn M M'.
  destruct (stream_store _ sel addr n v seg (wf_stream s W) Hn M) as (t' & E & W' & L & C).
  cbn [put_memory with_pMemoryStream m_pMemoryStream]. rewrite E. cbn [snd].
  intros i Hi. rewrite L, C. destruct (_ && _); [discriminate|now apply M'].
Qed.

(** ... and touches nothing else. *)
Lemma put_memory_apart s sel addr n v seg sel' addr' m seg' w :
  wf s -> 0 < n -> 0 < m -> mapped (m_pMemoryStream s) sel addr n ->
  let p := linear (m_pMemoryStream s) sel addr in
  let q := linear (m_pMemoryStream s) sel' addr' in
  p + n <= q \/ q + m <= p ->
  loads (m_pMemoryStream s) sel' addr' m seg' w ->
  loads (m_pMemoryStream (put_memory sel addr n v seg s)) sel' addr' m seg' w.
Proof.
  intros W Hn Hm M p q A Ld. pose proof (wf_stream s W) as Ws.
  destruct (stream_store _ sel addr n v seg Ws Hn M) as (t' & E & W' & L & C).
  cbn [put_memory with_pMemoryStream m_pMemoryStream]. rewrite E. cbn [snd].
  apply (loads_cells _ t' _ _ _ _ _ Ws W' Hm Ld); [apply L|].
  intros i Hi. rewrite C. fold p q.
  destruct (Z.leb_spec p (q + i)), (Z.ltb_spec (q + i) (p + n)); cbn [andb]; reflexivity || lia.
Qed.

(** Two pieces of one segment that do not overlap in their offsets do not overlap in memory. *)
Lemma linear_apart t sel addr n k m :
  stream_wf t -> 0 < n -> 0 < m -> n <= k -> k + m <= 0x10000000000000000 ->
  mapped t sel addr n -> mapped t sel (addr + k) m ->
  let p := linear t sel addr in
  let q := linear t sel (addr + k) in
  p + n <= q \/ q + m <= p.
Proof.
  intros W Hn Hm Hk Hw M M' p q.
  pose proof (cell_word t (p + 0) W (M 0 ltac:(lia))).
  pose proof (cell_word t (p + (n - 1)) W (M (n - 1) ltac:(lia))).
  pose proof (cell_word t (q + 0) W (M' 0 ltac:(lia))).
  pose proof (cell_word t (q + (m - 1)) W (M' (m - 1) ltac:(lia))).
  assert (Q : q = (p + k) mod 0x10000000000000000) by apply linear_add.
  destruct (Z.ltb_spec (p + k) 0x10000000000000000).
  - rewrite Z.mod_small in Q by lia. lia.
  - right. replace q with (p + k - 0x10000000000000000); [lia|].
    rewrite Q. apply Z.mod_unique with 1; lia.
Qed.
End Memory.

(** ** [push] and [pop] *)

Lemma rsp_gpr : In reg_RSP gprs.
Proof. gpr. Qed.

Lemma ss_int : int_reg reg_SS.
Proof. apply int_regs_ok. vm_compute. tauto. Qed.

#[export] Hint Resolve rsp_gpr ss_int : diana.

Section PushPop.
Context {T : Type} `{RandomStreamOk T}.
Implicit Types s : DianaProcessor T.

(** The sizes of an instruction, the stack pointer it sees, and the bytes a push uses. *)
Definition op_size s : Z := iCurrentCmd_opsize (m_context s).
Definition address_size s : Z := iCurrentCmd_addressSize (m_context s).
Definition stack_pointer s : Z := window s reg_RSP (address_size s).
Definition stack_segment s : Z := rval s reg_SS.

Definition put_stack_pointer (v : Z) s : DianaProcessor T :=
  put_low reg_RSP (address_size s) v s.

Record stacked s : Prop := {
  st_wf : wf s;
  st_psz : psz_clear s;
  st_opsize : opsize (op_size s);
  st_address : opsize (address_size s)
}.

(** There is room for one more item. *)
Definition room s : Prop :=
  op_size s <= stack_pointer s /\
  mapped (m_pMemoryStream s) (stack_segment s) (stack_pointer s - op_size s) (op_size s).

Definition pushed (v : Z) s : DianaProcessor T :=
  put_stack_pointer (stack_pointer s - op_size s)
    (put_memory (stack_segment s) (stack_pointer s - op_size s) (op_size s) v reg_SS s).

Definition popped s : DianaProcessor T :=
  put_stack_pointer (u64 (stack_pointer s + op_size s)) s.

(** The item on the top of the stack. *)
Definition on_top s (v : Z) : Prop :=
  loads (m_pMemoryStream s) (stack_segment s) (stack_pointer s) (op_size s) reg_SS v.

Lemma stack_pointer_range s : stacked s -> 0 <= stack_pointer s < modulus (address_size s).
Proof. intros [W P Ho Ha]. apply window_range; auto with diana. Qed.

Lemma rsp_not_rip : ((reg_RSP =? reg_RIP) || (reg_RSP =? reg_IP)) = false.
Proof. reflexivity. Qed.

Lemma push_tw v f b s :
  stacked s -> flag_word f -> room s ->
  diana_internal_push v (tw f b s) = (Ok tt, tw f b (pushed v s)).
Proof.
  intros [W P Ho Ha] Hf (Hr & M).
  assert (Np : 0 < op_size s) by (pose proof (opsize_pos _ Ho); lia).
  unfold diana_internal_push, context. rewrite !bind_gets.
  change (m_context (tw f b s)) with (m_context s). fold (op_size s) (address_size s).
  rewrite (bind_run _ _ _ _ _ (GET_REG2_tw reg_RSP _ f b s W Hf ltac:(auto with diana) Ha)).
  fold (stack_pointer s). destruct (Z.ltb_spec (stack_pointer s) (op_size s)); [lia|].
  rewrite (bind_run _ _ _ _ _ (GET_REG_tw reg_SS f b s W Hf ss_int)). fold (stack_segment s).
  rewrite (bind_run _ _ _ _ _ (SetMemValue_tw _ _ _ v reg_SS f b s (wf_stream s W) Np M)).
  apply SET_REG2_tw; auto using wf_put_memory with diana.
Qed.

(** A stack pointer below the operand size is an error, and nothing has happened. *)
Lemma push_small v f b s :
  stacked s -> flag_word f -> stack_pointer s < op_size s ->
  diana_internal_push v (tw f b s) = (Err DI_ERROR, tw f b s).
Proof.
  intros [W P Ho Ha] Hf Hr.
  unfold diana_internal_push, context. rewrite !bind_gets.
  change (m_context (tw f b s)) with (m_context s). fold (op_size s) (address_size s).
  rewrite (bind_run _ _ _ _ _ (GET_REG2_tw reg_RSP _ f b s W Hf ltac:(auto with diana) Ha)).
  fold (stack_pointer s). destruct (Z.ltb_spec (stack_pointer s) (op_size s)); [reflexivity|lia].
Qed.

Lemma pop_tw v f b s :
  stacked s -> flag_word f -> on_top s v ->
  diana_internal_pop (tw f b s) = (Ok v, tw f b (popped s)).
Proof.
  intros [W P Ho Ha] Hf L. pose proof (opsize_pos _ Ho).
  unfold diana_internal_pop, context. rewrite !bind_gets.
  change (m_context (tw f b s)) with (m_context s). fold (op_size s) (address_size s).
  rewrite (bind_run _ _ _ _ _ (GET_REG2_tw reg_RSP _ f b s W Hf ltac:(auto with diana) Ha)).
  rewrite (bind_run _ _ _ _ _ (GET_REG_tw reg_SS f b s W Hf ss_int)).
  rewrite (bind_run _ _ _ _ _ (GetMemValue_tw _ _ _ reg_SS v f b s L)).
  erewrite bind_run; [reflexivity|].
  apply SET_REG2_tw; auto with diana.
Qed.

(** *** The stack pointer and the rest of the state *)

Lemma widen_rsp s n : widen s reg_RSP n = n.
Proof. unfold widen. change (widened reg_RSP) with false. now rewrite andb_false_r. Qed.

Lemma stack_pointer_put v s :
  stacked s -> stack_pointer (put_stack_pointer v s) = v mod modulus (address_size s).
Proof.
  intros [W P Ho Ha]. pose proof (opsize_pos _ Ha). pose proof (int_regs_ok _ (gprs_int _ rsp_gpr)) as R.
  pose proof (ir_off _ R). pose proof (ir_end _ R).
  unfold stack_pointer. change (address_size (put_stack_pointer v s)) with (address_size s).
  unfold put_stack_pointer, put_low. rewrite widen_rsp.
  unfold window, put_window, with_pRegistersVector. cbn [m_pRegistersVector].
  rewrite buf_load_store_same by (rewrite ?(wf_length s W); lia).
  fold (modulus (address_size s)). apply Z.mod_mod.
  pose proof (modulus_pos (address_size s)). lia.
Qed.

Lemma stack_segment_put v s : stacked s -> stack_segment (put_stack_pointer v s) = stack_segment s.
Proof.
  intros [W P Ho Ha]. unfold stack_segment, rval, put_stack_pointer.
  apply put_low_apart; auto with diana. vm_compute. intuition congruence.
Qed.

Lemma stacked_put v s : stacked s -> stacked (put_stack_pointer v s).
Proof. intros [W P Ho Ha]. constructor; auto with diana. apply wf_put_low; auto with diana. Qed.

Lemma stacked_put_memory sel addr n v seg s :
  stacked s -> 0 < n -> mapped (m_pMemoryStream s) sel addr n ->
  stacked (put_memory sel addr n v seg s).
Proof. intros [W P Ho Ha] Hn M. constructor; auto. now apply wf_put_memory. Qed.

Lemma stacked_pushed v s : stacked s -> room s -> stacked (pushed v s).
Proof.
  intros S (Hr & M). pose proof (opsize_pos _ (st_opsize s S)). unfold pushed.
  apply stacked_put, stacked_put_memory; auto. lia.
Qed.

Lemma stacked_popped s : stacked s -> stacked (popped s).
Proof. apply stacked_put. Qed.

Lemma stack_pointer_pushed v s :
  stacked s -> room s -> stack_pointer (pushed v s) = stack_pointer s - op_size s.
Proof.
  intros S (Hr & M). pose proof (opsize_pos _ (st_opsize s S)). unfold pushed.
  rewrite stack_pointer_put by (apply stacked_put_memory; auto; lia).
  apply Z.mod_small. pose proof (stack_pointer_range s S).
  change (address_size (put_memory _ _ _ _ _ s)) with (address_size s). lia.
Qed.

Lemma stack_segment_pushed v s :
  stacked s -> room s -> stack_segment (pushed v s) = stack_segment s.
Proof.
  intros S (Hr & M). pose proof (opsize_pos _ (st_opsize s S)). unfold pushed.
  now rewrite stack_segment_put by (apply stacked_put_memory; auto; lia).
Qed.

(** What a push leaves on the top. *)
Lemma on_top_pushed v s :
  stacked s -> room s -> on_top (pushed v s) (v mod modulus (op_size s)).
Proof.
  intros S R. unfold on_top. rewrite stack_segment_pushed, stack_pointer_pushed by assumption.
  destruct R as (Hr & M). pose proof (opsize_pos _ (st_opsize s S)).
  apply put_memory_same; [apply S|lia|exact M].
Qed.

Lemma put_window_shadow off n v w s :
  0 <= off -> 0 <= n -> off + n <= Z.of_nat (length (m_pRegistersVector s)) ->
  put_window off n v (put_window off n w s) = put_window off n v s.
Proof.
  intros H1 H2 H3. unfold put_window, with_pRegistersVector. cbn [m_pRegistersVector].
  now rewrite buf_store_shadow.
Qed.

Lemma put_window_load off n s :
  Forall byte_ok (m_pRegistersVector s) ->
  0 <= off -> 0 <= n -> off + n <= Z.of_nat (length (m_pRegistersVector s)) ->
  put_window off n (buf_load (m_pRegistersVector s) off n) s = s.
Proof.
  intros Hb H1 H2 H3. unfold put_window, with_pRegistersVector. rewrite buf_store_load by assumption.
  now destruct s.
Qed.

(** A pop after a push restores all registers. *)
Lemma popped_pushed v s :
  stacked s -> room s ->
  popped (pushed v s) =
  put_memory (stack_segment s) (stack_pointer s - op_size s) (op_size s) v reg_SS s.
Proof.
  intros S R. unfold popped. rewrite stack_pointer_pushed by assumption.
  change (op_size (pushed v s)) with (op_size s).
  replace (stack_pointer s - op_size s + op_size s) with (stack_pointer s) by lia.
  pose proof (stack_pointer_range s S) as Hs. destruct S as [W P Ho Ha].
  pose proof (opsize_pos _ Ha). pose proof (int_regs_ok _ (gprs_int _ rsp_gpr)) as Ri.
  pose proof (ir_off _ Ri). pose proof (ir_end _ Ri).
  rewrite u64_small.
  2: { split; [lia|]. apply Z.lt_le_trans with (modulus (address_size s)); [lia|].
       unfold modulus. change 0x10000000000000000 with (2 ^ 64). apply Z.pow_le_mono_r; lia. }
  unfold pushed. set (s1 := put_memory _ _ _ _ _ s).
  unfold put_stack_pointer, put_low. rewrite !widen_rsp.
  change (address_size (put_window _ _ _ s1)) with (address_size s).
  change (address_size s1) with (address_size s).
  rewrite !put_window_mod by lia.
  assert (E : m_pRegistersVector s1 = m_pRegistersVector s) by reflexivity.
  rewrite put_window_shadow by (try rewrite E; try rewrite (wf_length s W); lia).
  unfold stack_pointer, window. rewrite <- E. apply put_window_load; try rewrite E.
  - apply (wf_bytes s W).
  - lia.
  - lia.
  - rewrite (wf_length s W). lia.
Qed.
End PushPop.

(** ** Several items *)

Lemma gprs_below_ss : forallb (fun r => roff r + 8 <=? roff reg_SS) gprs = true.
Proof. vm_compute. reflexivity. Qed.

Section Frames.
Context {T : Type} `{RandomStreamOk T}.
Implicit Types s : DianaProcessor T.

Lemma mapped_sub t sel addr m k n :
  stream_wf t -> 0 < n -> 0 <= k -> k + n <= m -> mapped t sel addr m -> mapped t sel (addr + k) n.
Proof.
  intros W Hn Hk Hm M i Hi. rewrite linear_add.
  pose proof (cell_word t (linear t sel addr + k) W (M k ltac:(lia))).
  rewrite u64_small by lia. replace (linear t sel addr + k + i) with (linear t sel addr + (k + i)) by lia.
  apply M. lia.
Qed.

(** There is room for [k] more items. *)
Definition rooms (k : Z) s : Prop :=
  k * op_size s <= stack_pointer s /\
  mapped (m_pMemoryStream s) (stack_segment s) (stack_pointer s - k * op_size s) (k * op_size s).

Lemma rooms_room k s : stacked s -> 1 <= k -> rooms k s -> room s.
Proof.
  intros S Hk (Hr & M). pose proof (opsize_pos _ (st_opsize s S)). split; [nia|].
  replace (stack_pointer s - op_size s)
    with (stack_pointer s - k * op_size s + (k - 1) * op_size s) by lia.
  apply (mapped_sub _ _ _ (k * op_size s)); auto; [apply (wf_stream s), S|lia|nia|nia].
Qed.

Lemma rooms_pushed k v s :
  stacked s -> 1 <= k -> rooms k s -> 0 < k - 1 -> rooms (k - 1) (pushed v s).
Proof.
  intros S Hk R Hk1. pose proof (rooms_room k s S Hk R) as R1. destruct R as (Hr & M).
  pose proof (opsize_pos _ (st_opsize s S)). unfold rooms.
  rewrite stack_pointer_pushed, stack_segment_pushed by assumption.
  change (op_size (pushed v s)) with (op_size s).
  split; [nia|].
  replace (stack_pointer s - op_size s - (k - 1) * op_size s)
    with (stack_pointer s - k * op_size s) by lia.
  destruct R1 as (Hr1 & M1). unfold pushed. apply put_memory_mapped; [apply S|lia|exact M1|].
  intros i Hi. apply M. nia.
Qed.

(** The items [vs] lie on the stack, the last one pushed first. *)
Record frame s (vs : list Z) : Prop := {
  fr_stacked : stacked s;
  fr_fits : Z.of_nat (length vs) * op_size s <= modulus (address_size s) - 1 - stack_pointer s;
  fr_items : forall i v, nth_error vs i = Some v ->
    loads (m_pMemoryStream s) (stack_segment s) (stack_pointer s + Z.of_nat i * op_size s)
      (op_size s) reg_SS v
}.

Lemma frame_nil s : stacked s -> frame s [].
Proof.
  intros S. constructor; [exact S| |intros [] ?; discriminate].
  pose proof (stack_pointer_range s S). cbn [length]. lia.
Qed.

Lemma modulus_word n : opsize n -> modulus n <= 0x10000000000000000.
Proof. intros Hn. opsize_cases Hn; vm_compute; discriminate. Qed.

Lemma frame_pushed v s vs :
  frame s vs -> room s -> frame (pushed v s) (v mod modulus (op_size s) :: vs).
Proof.
  intros [S F I] R. pose proof (opsize_pos _ (st_opsize s S)) as Hn.
  pose proof (modulus_word _ (st_address s S)) as Hw.
  pose proof (stack_pointer_range s S) as Hp. pose proof (wf_stream s (st_wf s S)) as Ws.
  constructor.
  - now apply stacked_pushed.
  - rewrite stack_pointer_pushed by assumption. change (op_size (pushed v s)) with (op_size s).
    change (address_size (pushed v s)) with (address_size s). cbn [length]. lia.
  - rewrite stack_pointer_pushed, stack_segment_pushed by assumption.
    change (op_size (pushed v s)) with (op_size s).
    intros [|i] w E; cbn [nth_error] in E.
    + injection E as <-. pose proof (on_top_pushed v s S R) as O. unfold on_top in O.
      rewrite stack_pointer_pushed, stack_segment_pushed in O by assumption.
      change (op_size (pushed v s)) with (op_size s) in O.
      now rewrite Z.mul_0_l, Z.add_0_r.
    + replace (stack_pointer s - op_size s + Z.of_nat (Datatypes.S i) * op_size s)
        with (stack_pointer s + Z.of_nat i * op_size s) by lia.
      pose proof (I i w E) as L. destruct R as (Hr & M).
      assert (Li : (i < length vs)%nat) by (apply nth_error_Some; congruence).
      apply put_memory_apart; auto; try lia; [apply S|].
      replace (stack_pointer s + Z.of_nat i * op_size s)
        with (stack_pointer s - op_size s + Z.of_nat (Datatypes.S i) * op_size s) in L |- * by lia.
      apply (linear_apart _ _ _ (op_size s) _ (op_size s)); auto; try lia; try nia.
      apply (loads_mapped _ _ _ _ reg_SS w); auto. lia.
Qed.

Lemma frame_on_top s v vs : frame s (v :: vs) -> on_top s v.
Proof.
  intros [S F I]. unfold on_top.
  replace (stack_pointer s) with (stack_pointer s + Z.of_nat 0 * op_size s) by lia. now apply I.
Qed.

Lemma stack_pointer_popped s v vs :
  frame s (v :: vs) -> stack_pointer (popped s) = stack_pointer s + op_size s.
Proof.
  intros [S F I]. unfold popped. rewrite stack_pointer_put by assumption.
  pose proof (stack_pointer_range s S). pose proof (opsize_pos _ (st_opsize s S)).
  pose proof (modulus_word _ (st_address s S)). cbn [length] in F.
  rewrite u64_small by lia. apply Z.mod_small. lia.
Qed.

Lemma frame_popped s v vs : frame s (v :: vs) -> frame (popped s) vs.
Proof.
  intros Fr. pose proof (stack_pointer_popped s v vs Fr) as E. destruct Fr as [S F I].
  constructor.
  - now apply stacked_popped.
  - rewrite E. change (op_size (popped s)) with (op_size s).
    change (address_size (popped s)) with (address_size s). cbn [length] in F. lia.
  - intros i w Hw. rewrite E. change (op_size (popped s)) with (op_size s).
    unfold popped at 2. rewrite stack_segment_put by assumption.
    change (m_pMemoryStream (popped s)) with (m_pMemoryStream s).
    replace (stack_pointer s + op_size s + Z.of_nat i * op_size s)
      with (stack_pointer s + Z.of_nat (Datatypes.S i) * op_size s) by lia. now apply I.
Qed.

(** A register that shares no byte with RSP. *)
Definition off_stack (r : Z) : Prop :=
  In r gprs /\ (roff r + 8 <= roff reg_RSP \/ roff reg_RSP + 8 <= roff r).

Lemma frame_put_register r v s vs : off_stack r -> frame s vs -> frame (put_register r v s) vs.
Proof.
  intros (G & A) [S F I].
  assert (Es : stack_segment (put_register r v s) = stack_segment s).
  { apply put_register_apart; auto with diana; [apply S|].
    pose proof gprs_below_ss as B. rewrite forallb_forall in B. specialize (B r G).
    apply Z.leb_le in B. lia. }
  assert (Ep : stack_pointer (put_register r v s) = stack_pointer s).
  { pose proof (opsize_pos _ (st_address s S)). apply put_register_apart; auto with diana;
      [apply S|apply (st_address s S)|]. change (address_size (put_register r v s)) with (address_size s).
    lia. }
  constructor.
  - destruct S. constructor; auto with diana.
  - rewrite Ep. exact F.
  - intros i w Hw. rewrite Ep, Es. now apply I.
Qed.

Lemma rval_put_stack_pointer v s q :
  stacked s -> off_stack q -> rval (put_stack_pointer v s) q = rval s q.
Proof.
  intros [W P Ho Ha] (G & A). pose proof (opsize_pos _ (ir_size q ltac:(auto with diana))).
  apply put_low_apart; auto with diana. lia.
Qed.

Lemma rval_pushed v s q : stacked s -> room s -> off_stack q -> rval (pushed v s) q = rval s q.
Proof.
  intros S (Hr & M) O. pose proof (opsize_pos _ (st_opsize s S)). unfold pushed.
  now rewrite rval_put_stack_pointer by (auto; apply stacked_put_memory; auto; lia).
Qed.

Lemma rval_popped s q : stacked s -> off_stack q -> rval (popped s) q = rval s q.
Proof. apply rval_put_stack_pointer. Qed.
End Frames.

(** ** [pusha] and [popa] *)

Section Saves.
Context {T : Type} `{RandomStreamOk T}.
Implicit Types s : DianaProcessor T.

Definition pushed_list (vs : list Z) s : DianaProcessor T := fold_left (fun s v => pushed v s) vs s.

(** Between two pushes of [pusha]: [k] are left, the items [vs] lie on the stack, and the
    registers are those of [s0]. *)
Record saving s0 (k : Z) (vs : list Z) s : Prop := {
  sv_frame : frame s vs;
  sv_rooms : 0 < k -> rooms k s;
  sv_values : forall q, off_stack q -> rval s q = rval s0 q;
  sv_opsize : op_size s = op_size s0;
  sv_pointer : stack_pointer s = stack_pointer s0 - Z.of_nat (length vs) * op_size s0;
  sv_segment : stack_segment s = stack_segment s0;
  sv_idle : idle s0 -> idle s
}.

Lemma saving_start k s : stacked s -> rooms k s -> saving s k [] s.
Proof.
  intros S R. constructor; auto using frame_nil. cbn [length]. lia.
Qed.

Lemma saving_push s0 k vs s v :
  saving s0 k vs s -> 0 < k -> 0 <= v < modulus (op_size s0) ->
  saving s0 (k - 1) (v :: vs) (pushed v s).
Proof.
  intros [F R V O P G I] Hk Hv. pose proof (fr_stacked s vs F) as S. specialize (R Hk).
  pose proof (rooms_room k s S ltac:(lia) R) as Rm.
  constructor.
  - pose proof (frame_pushed v s vs F Rm) as F'. rewrite Z.mod_small in F' by now rewrite O.
    exact F'.
  - intros Hk1. apply rooms_pushed; auto. lia.
  - intros q Oq. now rewrite rval_pushed, V.
  - exact O.
  - rewrite stack_pointer_pushed, O, P by assumption. cbn [length]. lia.
  - now rewrite stack_segment_pushed.
  - intros I0. exact (I I0).
Qed.

(** One step: read a register and push it. *)
Lemma save_step s0 k vs s r (m : MP T unit) f b res (Q : Prop) :
  saving s0 k vs s -> 0 < k -> off_stack r -> rsize r = op_size s0 -> flag_word f ->
  (saving s0 (k - 1) (rval s0 r :: vs) (pushed (rval s0 r) s) ->
   m (tw f b (pushed (rval s0 r) s)) = res /\ Q) ->
  (let! d := GET_REG r in diana_internal_push d ;;; m) (tw f b s) = res /\ Q.
Proof.
  intros Sv Hk O Sz Hf K. pose proof (sv_frame _ _ _ _ Sv) as F. pose proof (fr_stacked s vs F) as S.
  pose proof (rooms_room k s S ltac:(lia) (sv_rooms _ _ _ _ Sv Hk)) as Rm.
  assert (R : int_reg r) by (destruct O; auto with diana).
  rewrite (bind_run _ _ _ _ _ (GET_REG_tw r f b s (st_wf s S) Hf R)).
  rewrite (sv_values _ _ _ _ Sv r O).
  rewrite (bind_run _ _ _ _ _ (push_tw _ f b s S Hf Rm)). apply K.
  apply saving_push; auto. rewrite <- Sz, <- (sv_values _ _ _ _ Sv r O).
  apply rval_range; auto. apply S.
Qed.

Lemma save_last s0 k vs s r f b :
  saving s0 k vs s -> 0 < k -> off_stack r -> rsize r = op_size s0 -> flag_word f ->
  (let! d := GET_REG r in diana_internal_push d) (tw f b s) =
    (Ok tt, tw f b (pushed (rval s0 r) s)) /\
  saving s0 (k - 1) (rval s0 r :: vs) (pushed (rval s0 r) s).
Proof.
  intros Sv Hk O Sz Hf.
  assert (E : (let! d := GET_REG r in diana_internal_push d) (tw f b s) =
              (let! d := GET_REG r in diana_internal_push d ;;; ret tt) (tw f b s)).
  { unfold bind. destruct (GET_REG r (tw f b s)) as [[d| |] s1]; [|reflexivity..].
    now destruct (diana_internal_push d s1) as [[[]| |] ?]. }
  rewrite E.
  apply (save_step s0 k vs s r (ret tt) f b _ _ Sv); auto.
Qed.

(** The stack pointer itself, read before. *)
Lemma save_value s0 k vs s v (m : MP T unit) f b res (Q : Prop) :
  saving s0 k vs s -> 0 < k -> 0 <= v < modulus (op_size s0) -> flag_word f ->
  (saving s0 (k - 1) (v :: vs) (pushed v s) -> m (tw f b (pushed v s)) = res /\ Q) ->
  (diana_internal_push v ;;; m) (tw f b s) = res /\ Q.
Proof.
  intros Sv Hk Hv Hf K. pose proof (sv_frame _ _ _ _ Sv) as F. pose proof (fr_stacked s vs F) as S.
  pose proof (rooms_room k s S ltac:(lia) (sv_rooms _ _ _ _ Sv Hk)) as Rm.
  rewrite (bind_run _ _ _ _ _ (push_tw v f b s S Hf Rm)). apply K. now apply saving_push.
Qed.

Definition apart (r q : Z) : bool := (roff r + 8 <=? roff q) || (roff q + 8 <=? roff r).

(** Between two pops of [popa]: the items [vs] are left, the pointer has moved by [k] items, and
    the registers of [done] have their values. *)
Record loading s0 (k : Z) (vs : list Z) (done : list (Z * Z)) s : Prop := {
  ld_frame : frame s vs;
  ld_opsize : op_size s = op_size s0;
  ld_pointer : stack_pointer s = stack_pointer s0 + k * op_size s0;
  ld_idle : idle s0 -> idle s;
  ld_done : forall q v, In (q, v) done -> off_stack q /\ rval s q = v
}.

Lemma loading_start vs s : frame s vs -> loading s 0 vs [] s.
Proof. intros F. constructor; auto; [lia|intros q v []]. Qed.

Lemma loading_pop s0 k v vs done s :
  loading s0 k (v :: vs) done s -> loading s0 (k + 1) vs done (popped s).
Proof.
  intros [F O P I D]. constructor.
  - now apply frame_popped with v.
  - exact O.
  - rewrite (stack_pointer_popped s v vs F), O, P. lia.
  - intros I0. exact (I I0).
  - intros q w Hq. destruct (D q w Hq) as (Oq & <-). split; [exact Oq|].
    apply rval_popped; [apply (fr_stacked s _ F)|exact Oq].
Qed.

Lemma loading_put s0 k vs done s r v :
  loading s0 k vs done s -> off_stack r -> 0 <= v < modulus (rsize r) ->
  forallb (fun p => apart r (fst p)) done = true ->
  loading s0 k vs ((r, v) :: done) (put_register r v s).
Proof.
  intros [F O P I D] Or Hv A. pose proof (fr_stacked s vs F) as S. constructor; auto using frame_put_register.
  - rewrite <- P. destruct Or as (G & Ar).
    pose proof (opsize_pos _ (st_address s S)). apply put_register_apart; auto with diana;
      [apply S|apply (st_address s S)|].
    change (address_size (put_register r v s)) with (address_size s). lia.
  - intros q w [E|Hq].
    + injection E as <- <-. split; [exact Or|]. destruct Or as (G & _).
      rewrite put_register_same by (auto; apply S). now apply Z.mod_small.
    + destruct (D q w Hq) as (Oq & <-). split; [exact Oq|]. destruct Or as (G & _), Oq as (Gq & _).
      rewrite forallb_forall in A. specialize (A _ Hq). unfold apart in A. cbn [fst] in A.
      rewrite orb_true_iff, !Z.leb_le in A.
      pose proof (opsize_pos _ (ir_size q ltac:(auto with diana))).
      apply put_register_apart; auto with diana; [apply S|]. lia.
Qed.

Lemma drop_step s0 k v vs done s (m : MP T unit) f b res (Q : Prop) :
  loading s0 k (v :: vs) done s -> flag_word f ->
  (loading s0 (k + 1) vs done (popped s) -> m (tw f b (popped s)) = res /\ Q) ->
  (let! _ := diana_internal_pop in m) (tw f b s) = res /\ Q.
Proof.
  intros L Hf K. pose proof (ld_frame _ _ _ _ _ L) as F.
  rewrite (bind_run _ _ _ _ _ (pop_tw v f b s (fr_stacked s _ F) Hf (frame_on_top s v vs F))).
  apply K. now apply loading_pop with v.
Qed.

Lemma load_last s0 k v vs done s r f b :
  loading s0 k (v :: vs) done s -> off_stack r -> rsize r = op_size s0 ->
  forallb (fun p => apart r (fst p)) done = true -> flag_word f ->
  (let! d := diana_internal_pop in SET_REG r d) (tw f b s) =
  (Ok tt, tw f b (put_register r v (popped s))) /\
  loading s0 (k + 1) vs ((r, v) :: done) (put_register r v (popped s)).
Proof.
  intros L O Sz A Hf. pose proof (ld_frame _ _ _ _ _ L) as F. pose proof (fr_stacked s _ F) as S.
  pose proof (frame_on_top s v vs F) as Top.
  rewrite (bind_run _ _ _ _ _ (pop_tw v f b s S Hf Top)).
  pose proof O as (G & _). pose proof (stacked_popped s S) as [W P _ _].
  split; [apply SET_REG_tw; auto with diana|].
  apply loading_put; auto; [now apply loading_pop with v|].
  rewrite Sz, <- (ld_opsize _ _ _ _ _ L). exact (loads_range _ _ _ _ _ _ Top).
Qed.

Lemma load_step s0 k v vs done s r (m : MP T unit) f b res (Q : Prop) :
  loading s0 k (v :: vs) done s -> off_stack r -> rsize r = op_size s0 ->
  forallb (fun p => apart r (fst p)) done = true -> flag_word f ->
  (loading s0 (k + 1) vs ((r, v) :: done) (put_register r v (popped s)) ->
   m (tw f b (put_register r v (popped s))) = res /\ Q) ->
  (let! d := diana_internal_pop in SET_REG r d ;;; m) (tw f b s) = res /\ Q.
Proof.
  intros L O Sz A Hf K. destruct (load_last s0 k v vs done s r f b L O Sz A Hf) as (E & L').
  rewrite <- bind_bind. rewrite (bind_run _ _ _ _ _ E). now apply K.
Qed.
End Saves.

Ltac off_rsp := split; [gpr | first [left; vm_compute; discriminate | right; vm_compute; discriminate]].
Ltac save_next O Hf Sv :=
  eapply (save_step _ _ _ _ _ _ _ _ _ _ Sv);
    [lia | off_rsp | rewrite O; reflexivity | exact Hf | clear Sv; intros Sv].

Section Pusha.
Context {T : Type} `{RandomStreamOk T}.
Implicit Types s : DianaProcessor T.

(** The registers in the order of their pushes. *)
Definition saved32 : list Z :=
  [reg_EAX; reg_ECX; reg_EDX; reg_EBX; reg_ESP; reg_EBP; reg_ESI; reg_EDI].
Definition saved16 : list Z :=
  [reg_AX; reg_CX; reg_DX; reg_BX; reg_SP; reg_BP; reg_SI; reg_DI].

Definition saved s (rs : list Z) : DianaProcessor T := pushed_list (map (rval s) rs) s.

Ltac pusha_proof S O R Hf reg :=
  let Sv := fresh "Sv" in let RE := fresh "RE" in let Hv := fresh "Hv" in
  pose proof (saving_start 8 _ S R) as Sv;
  pose proof (int_regs_ok reg ltac:(vm_compute; tauto)) as RE;
  lazymatch goal with |- context [tw ?f ?b ?s] =>
    rewrite (bind_run _ _ _ _ _ (GET_REG_tw reg f b s (st_wf s S) Hf RE));
    assert (Hv : 0 <= rval s reg < modulus (op_size s))
      by (rewrite O; apply (rval_range s reg (st_wf s S) RE))
  end;
  do 4 save_next O Hf Sv;
  eapply (save_value _ _ _ _ _ _ _ _ _ _ Sv); [lia|exact Hv|exact Hf|clear Sv; intros Sv];
  do 2 save_next O Hf Sv;
  change 0 with (8 - 1 - 1 - 1 - 1 - 1 - 1 - 1 - 1);
  apply (save_last _ _ _ _ _ _ _ Sv); [lia|off_rsp|rewrite O; reflexivity|exact Hf].

Lemma pusha32_tw f b s :
  stacked s -> op_size s = 4 -> rooms 8 s -> flag_word f ->
  Diana_Call_pusha32 (tw f b s) = (Ok tt, tw f b (saved s saved32)) /\
  saving s 0 (rev (map (rval s) saved32)) (saved s saved32).
Proof.
  intros S O R Hf. unfold Diana_Call_pusha32, saved, saved32, pushed_list.
  cbn [map fold_left rev app]. pusha_proof S O R Hf reg_ESP.
Qed.

Lemma pusha16_tw f b s :
  stacked s -> op_size s = 2 -> rooms 8 s -> flag_word f ->
  Diana_Call_pusha16 (tw f b s) = (Ok tt, tw f b (saved s saved16)) /\
  saving s 0 (rev (map (rval s) saved16)) (saved s saved16).
Proof.
  intros S O R Hf. unfold Diana_Call_pusha16, saved, saved16, pushed_list.
  cbn [map fold_left rev app]. pusha_proof S O R Hf reg_SP.
Qed.

(** What [popa] does with the items it finds: [None] drops one. *)
Definition restored (rs : list (option Z * Z)) s : DianaProcessor T :=
  fold_left (fun s p =>
    match fst p with Some r => put_register r (snd p) (popped s) | None => popped s end) rs s.

Definition restored32 : list (option Z) :=
  [Some reg_EDI; Some reg_ESI; Some reg_EBP; None;
   Some reg_EBX; Some reg_EDX; Some reg_ECX; Some reg_EAX].
Definition restored16 : list (option Z) :=
  [Some reg_DI; Some reg_SI; Some reg_BP; None;
   Some reg_BX; Some reg_DX; Some reg_CX; Some reg_AX].

Ltac load_next O Hf L :=
  eapply (load_step _ _ _ _ _ _ _ _ _ _ _ _ L);
    [off_rsp | rewrite O; reflexivity | reflexivity | exact Hf | clear L; intros L].

Ltac popa_proof Fr O Hf :=
  let L := fresh "L" in
  pose proof (loading_start _ _ Fr) as L;
  do 3 load_next O Hf L;
  eapply (drop_step _ _ _ _ _ _ _ _ _ _ _ L); [exact Hf | clear L; intros L];
  do 3 load_next O Hf L;
  change 8 with (0 + 1 + 1 + 1 + 1 + 1 + 1 + 1 + 1);
  apply (load_last _ _ _ _ _ _ _ _ _ L); [off_rsp | rewrite O; reflexivity | reflexivity | exact Hf].

(** The registers and the values they get, the last one first. *)
Definition got32 (a b c e g h i : Z) : list (Z * Z) :=
  [(reg_EAX, i); (reg_ECX, h); (reg_EDX, g); (reg_EBX, e); (reg_EBP, c); (reg_ESI, b); (reg_EDI, a)].
Definition got16 (a b c e g h i : Z) : list (Z * Z) :=
  [(reg_AX, i); (reg_CX, h); (reg_DX, g); (reg_BX, e); (reg_BP, c); (reg_SI, b); (reg_DI, a)].

Lemma popa32_tw a b c d e g h i f k s :
  frame s [a; b; c; d; e; g; h; i] -> op_size s = 4 -> flag_word f ->
  let s' := restored (combine restored32 [a; b; c; d; e; g; h; i]) s in
  Diana_Call_popa32 (tw f k s) = (Ok tt, tw f k s') /\
  loading s 8 [] (got32 a b c e g h i) s'.
Proof.
  intros Fr O Hf. unfold Diana_Call_popa32, restored, restored32, got32.
  cbn [combine fold_left fst snd]. popa_proof Fr O Hf.
Qed.

Lemma popa16_tw a b c d e g h i f k s :
  frame s [a; b; c; d; e; g; h; i] -> op_size s = 2 -> flag_word f ->
  let s' := restored (combine restored16 [a; b; c; d; e; g; h; i]) s in
  Diana_Call_popa16 (tw f k s) = (Ok tt, tw f k s') /\
  loading s 8 [] (got16 a b c e g h i) s'.
Proof.
  intros Fr O Hf. unfold Diana_Call_popa16, restored, restored16, got16.
  cbn [combine fold_left fst snd]. popa_proof Fr O Hf.
Qed.

(** A frame is a matter of the memory, the stack pointer and segment, and the sizes. *)
Lemma frame_same s s2 vs :
  frame s vs -> stacked s2 -> m_pMemoryStream s2 = m_pMemoryStream s ->
  op_size s2 = op_size s -> address_size s2 = address_size s ->
  stack_pointer s2 = stack_pointer s -> stack_segment s2 = stack_segment s -> frame s2 vs.
Proof.
  intros [S F I] S2 M O A P G. constructor; auto; rewrite O, P; [now rewrite A|].
  intros i v Hv. rewrite M, G. now apply I.
Qed.

Lemma Call_idle (m : MP T unit) s s' :
  m (tw (m_flags s) false s) = (Ok tt, tw (m_flags s) false s') -> m_flags s' = m_flags s ->
  idle s' -> Call m s = (Ok tt, s').
Proof.
  intros E F I. rewrite (Call_tw m s s' (Ok tt) _ _ E I), <- F. now rewrite with_flags_same.
Qed.

Lemma pushed_list_flags vs s : m_flags (pushed_list vs s) = m_flags s.
Proof.
  unfold pushed_list. revert s. induction vs as [|v vs IH]; intros s; [reflexivity|].
  cbn [fold_left]. now rewrite IH.
Qed.

Lemma restored_flags rs s : m_flags (restored rs s) = m_flags s.
Proof.
  unfold restored. revert s. induction rs as [|[[r|] v] rs IH]; intros s; [reflexivity|..];
    cbn [fold_left fst snd]; now rewrite IH.
Qed.

(** The register list of an operand size. *)
Definition saves s (rs : list Z) : Prop :=
  (op_size s = 4 /\ rs = saved32) \/ (op_size s = 2 /\ rs = saved16).

Lemma pusha_saves s rs :
  stacked s -> idle s -> saves s rs -> rooms 8 s ->
  Call Diana_Call_pusha s = (Ok tt, saved s rs) /\
  saving s 0 (rev (map (rval s) rs)) (saved s rs).
Proof.
  intros S I Sz R. pose proof (wf_flag_word s (st_wf s S)) as Hf.
  assert (E : Diana_Call_pusha (tw (m_flags s) false s) =
                (Ok tt, tw (m_flags s) false (saved s rs)) /\
              saving s 0 (rev (map (rval s) rs)) (saved s rs)).
  { unfold Diana_Call_pusha, context. rewrite bind_gets.
    change (iCurrentCmd_opsize (m_context (tw (m_flags s) false s))) with (op_size s).
    destruct Sz as [(O & ->)|(O & ->)]; rewrite O; cbn [Z.eqb Pos.eqb].
    - now apply pusha32_tw.
    - now apply pusha16_tw. }
  destruct E as (E & Sv). split; [|exact Sv].
  apply Call_idle; [exact E|apply pushed_list_flags|]. now apply (sv_idle _ _ _ _ Sv).
Qed.

(** The registers [popa] writes. *)
Definition written32 : list Z := [reg_EAX; reg_ECX; reg_EDX; reg_EBX; reg_EBP; reg_ESI; reg_EDI].
Definition written16 : list Z := [reg_AX; reg_CX; reg_DX; reg_BX; reg_BP; reg_SI; reg_DI].

Lemma in_written32 r : In r saved32 -> r <> nth 4 saved32 0 -> In r written32.
Proof. unfold saved32, written32. cbn [In nth]. intuition congruence. Qed.

Lemma in_written16 r : In r saved16 -> r <> nth 4 saved16 0 -> In r written16.
Proof. unfold saved16, written16. cbn [In nth]. intuition congruence. Qed.

(** [popa] gives back what [pusha] saved: all registers but the stack pointer, which returns to
    where it was, whatever happened to the other registers in between. *)
Lemma popa_pusha s rs s2 :
  stacked s -> saves s rs -> rooms 8 s ->
  stacked s2 -> idle s2 -> op_size s2 = op_size s -> address_size s2 = address_size s ->
  m_pMemoryStream s2 = m_pMemoryStream (saved s rs) ->
  stack_pointer s2 = stack_pointer (saved s rs) -> stack_segment s2 = stack_segment s ->
  exists s3, Call Diana_Call_popa s2 = (Ok tt, s3) /\ stack_pointer s3 = stack_pointer s /\
    forall r, In r rs -> r <> nth 4 rs 0 -> rval s3 r = rval s r.
Proof.
  intros S Sz R S2 I2 O2 A2 M2 P2 G2. pose proof (wf_flag_word s (st_wf s S)) as Hf.
  pose proof (wf_flag_word s2 (st_wf s2 S2)) as Hf2.
  assert (Sv : saving s 0 (rev (map (rval s) rs)) (saved s rs)).
  { destruct Sz as [(O & ->)|(O & ->)].
    - now apply (pusha32_tw (m_flags s) false s).
    - now apply (pusha16_tw (m_flags s) false s). }
  assert (F2 : frame s2 (rev (map (rval s) rs))).
  { apply (frame_same (saved s rs)); auto; [apply Sv| | |].
    - now rewrite (sv_opsize _ _ _ _ Sv).
    - destruct Sz as [(_ & ->)|(_ & ->)]; exact A2.
    - now rewrite (sv_segment _ _ _ _ Sv). }
  assert (E : exists s3 done,
    Diana_Call_popa (tw (m_flags s2) false s2) = (Ok tt, tw (m_flags s2) false s3) /\
    loading s2 8 [] done s3 /\ m_flags s3 = m_flags s2 /\
    forall r, In r rs -> r <> nth 4 rs 0 -> In (r, rval s r) done).
  { unfold Diana_Call_popa, context. rewrite bind_gets.
    change (iCurrentCmd_opsize (m_context (tw (m_flags s2) false s2))) with (op_size s2).
    destruct Sz as [(O & ->)|(O & ->)]; rewrite O2, O; cbn [Z.eqb Pos.eqb];
      cbn [saved32 saved16 map rev app] in F2.
    - destruct (popa32_tw _ _ _ _ _ _ _ _ (m_flags s2) false s2 F2 ltac:(congruence) Hf2) as (E & L).
      eexists. eexists. split; [exact E|]. split; [exact L|]. split; [apply restored_flags|].
      intros r Hr N. apply (in_map (fun q => (q, rval s q)) written32). now apply in_written32.
    - destruct (popa16_tw _ _ _ _ _ _ _ _ (m_flags s2) false s2 F2 ltac:(congruence) Hf2) as (E & L).
      eexists. eexists. split; [exact E|]. split; [exact L|]. split; [apply restored_flags|].
      intros r Hr N. apply (in_map (fun q => (q, rval s q)) written16). now apply in_written16. }
  destruct E as (s3 & done & E & L & F3 & D). exists s3. split; [|split].
  - apply Call_idle; auto. now apply (ld_idle _ _ _ _ _ L).
  - rewrite (ld_pointer _ _ _ _ _ L), P2, (sv_pointer _ _ _ _ Sv), O2.
    replace (length (rev (map (rval s) rs))) with 8%nat
      by (destruct Sz as [(_ & ->)|(_ & ->)]; reflexivity). lia.
  - intros r Hr N. apply (ld_done _ _ _ _ _ L _ _ (D r Hr N)).
Qed.
End Pusha.

(** ** [push] and [pop] of operands, [call] and [ret] *)

Section Calls.
Context {T : Type} `{RandomStreamOk T}.
Implicit Types s : DianaProcessor T.

(** The size of an operand is the one the instruction uses it at. *)
Lemma reads_used s i v n : reads s i v n -> usedSize (linked_op (m_result s) i) = n.
Proof.
  intros (E & _). unfold operand, DI_MEM_GET, DianaProcessor_SetGetOperand, result in E. rewrite bind_gets in E.
  destruct (_ || _); [discriminate|]. unfold bind in E.
  match type of E with context [match ?m s with _ => _ end] => destruct (m s) as [[w|c|] s'] end;
    [|discriminate|discriminate]. cbn in E. now injection E as _ <-.
Qed.

(** A byte that was sign-extended is the same when it is again. *)
Lemma SignExtend_again x : 0 <= x < modulus 1 ->
  DianaProcessor_SignExtend (sign_extend 1 8 x) 1 8 = Some (sign_extend 1 8 x).
Proof.
  intros Hx. rewrite <- (SignExtend_spec x 1 8) by (auto; unfold opsize; lia).
  assert (E : u8 (sign_extend 1 8 x) = x).
  { unfold u8, sign_extend. change 0x100 with (2 ^ 8). change (modulus 8) with (2 ^ 64).
    rewrite Z.mod_mod_divide by (exists (2 ^ 56); reflexivity). apply signed_mod; [lia|exact Hx]. }
  unfold DianaProcessor_SignExtend. cbn [Z.eqb Pos.eqb]. unfold s8. rewrite E.
  unfold u8. now rewrite Z.mod_small.
Qed.

(** What [push] stores of an operand [x] of [m] bytes: a segment register as it is, a byte with its
    sign extended to the operand size, and so the operand of a push that sign-extends in 64-bit mode. *)
Definition push_item s (x m : Z) : Z :=
  if has (pInfo_flags (m_result s)) DI_FLAG_CMD_PUSH_SEG then x
  else if (m =? 1) || ((op_size s =? 8) && has (pInfo_flags (m_result s)) DI_FLAG_CMD_AMD64_SIGN_EXTENDS)
       then sign_extend m (op_size s) x
  else x.

(** How many bytes it stores: of a segment register two, whatever the operand size. *)
Definition push_width s : Z :=
  if has (pInfo_flags (m_result s)) DI_FLAG_CMD_PUSH_SEG then 2 else op_size s.

Definition push_room s : Prop :=
  op_size s <= stack_pointer s /\
  mapped (m_pMemoryStream s) (stack_segment s) (stack_pointer s - op_size s) (push_width s).

Definition push_done (v : Z) s : DianaProcessor T :=
  put_stack_pointer (stack_pointer s - op_size s)
    (put_memory (stack_segment s) (stack_pointer s - op_size s) (push_width s) v reg_SS s).

Lemma push_extend s x m : opsize m -> opsize (op_size s) -> 0 <= x < modulus m ->
  has (pInfo_flags (m_result s)) DI_FLAG_CMD_PUSH_SEG = false -> forall s' : DianaProcessor T,
  (let! src := (if m =? 1 then check_option (DianaProcessor_SignExtend x 1 (op_size s)) else ret x) in
   if (op_size s =? 8) && has (pInfo_flags (m_result s)) DI_FLAG_CMD_AMD64_SIGN_EXTENDS
   then check_option (DianaProcessor_SignExtend src m 8) else ret src) s' = (Ok (push_item s x m), s').
Proof.
  intros Hm Ho Hx F s'. unfold push_item. rewrite F.
  change (check_option (DianaProcessor_SignExtend x 1 (op_size s))) with (DI_SIGN_EXTEND (T := T) x 1 (op_size s)).
  destruct (Z.eqb_spec m 1) as [->|N]; cbn [orb].
  - rewrite (bind_run _ _ _ _ _ (DI_SIGN_EXTEND_run x 1 (op_size s) _ Hm Ho Hx)).
    destruct (Z.eqb_spec (op_size s) 8) as [->|_]; [|reflexivity].
    destruct (has _ DI_FLAG_CMD_AMD64_SIGN_EXTENDS); [|reflexivity].
    now rewrite SignExtend_again.
  - rewrite bind_ret. destruct (_ && _) eqn:E; [|reflexivity]. apply andb_true_iff in E. destruct E as (E & _).
    apply Z.eqb_eq in E. rewrite E.
    change (check_option (DianaProcessor_SignExtend x m 8)) with (DI_SIGN_EXTEND (T := T) x m 8).
    now apply DI_SIGN_EXTEND_run; auto; rewrite <- E.
Qed.
(** A segment register, and everything else. *)
Lemma push_segment x f b s :
  stacked s -> flag_word f -> has (pInfo_flags (m_result s)) DI_FLAG_CMD_PUSH_SEG = true ->
  let m :=
    (let! rsp := GET_REG2 reg_RSP (address_size s) in
     if rsp <? op_size s then fail DI_ERROR
     else
       let rsp := rsp - op_size s in
       let! ss := GET_REG reg_SS in
       DianaProcessor_SetMemValue ss rsp 2 x reg_SS ;;;
       SET_REG2 reg_RSP rsp (address_size s)) (tw f b s) in
  (push_room s -> m = (Ok tt, tw f b (push_done x s))) /\
  (stack_pointer s < op_size s -> m = (Err DI_ERROR, tw f b s)).
Proof.
  intros [W P Ho Ha] Hf F m. unfold m. clear m.
  rewrite (bind_run _ _ _ _ _ (GET_REG2_tw reg_RSP _ f b s W Hf ltac:(auto with diana) Ha)).
  fold (stack_pointer s). split.
  - intros (Hr & M). destruct (Z.ltb_spec (stack_pointer s) (op_size s)); [lia|]. cbv zeta.
    rewrite (bind_run _ _ _ _ _ (GET_REG_tw reg_SS f b s W Hf ss_int)). fold (stack_segment s).
    unfold push_width in M. rewrite F in M.
    rewrite (bind_run _ _ _ _ _ (SetMemValue_tw _ _ _ x reg_SS f b s (wf_stream s W) (eq_refl : 0 < 2) M)).
    unfold push_done, push_width. rewrite F. apply SET_REG2_tw; auto using wf_put_memory with diana. apply wf_put_memory; auto. lia.
  - intros L. destruct (Z.ltb_spec (stack_pointer s) (op_size s)); [reflexivity|lia].
Qed.

Lemma push_other v f b s :
  stacked s -> flag_word f -> has (pInfo_flags (m_result s)) DI_FLAG_CMD_PUSH_SEG = false ->
  (push_room s -> diana_internal_push v (tw f b s) = (Ok tt, tw f b (push_done v s))) /\
  (stack_pointer s < op_size s -> diana_internal_push v (tw f b s) = (Err DI_ERROR, tw f b s)).
Proof.
  intros S Hf F. unfold push_room, push_done, push_width. rewrite F. split.
  - intros R. exact (push_tw v f b s S Hf R).
  - intros L. now apply push_small.
Qed.

(** [push] behind the prologue: with room it stores, without it is refused. *)
Lemma push_body s x m (f := m_flags s) : stacked s -> reads s 0 x m ->
  (push_room s -> Diana_Call_push (tw f false s) = (Ok tt, tw f false (push_done (push_item s x m) s))) /\
  (stack_pointer s < op_size s -> Diana_Call_push (tw f false s) = (Err DI_ERROR, tw f false s)).
Proof.
  intros S Rd. pose proof (wf_flag_word s (st_wf s S)) as Hf. pose proof Rd as (_ & Hm & Hx).
  unfold Diana_Call_push, context, result.
  rewrite (bind_run _ _ _ _ _ (DI_MEM_GET_DEST_tw s x m _ _ (st_wf s S) Rd)), !bind_gets.
  change (m_result (tw f false s)) with (m_result s). change (m_context (tw f false s)) with (m_context s).
  fold (op_size s) (address_size s). destruct (has (pInfo_flags (m_result s)) DI_FLAG_CMD_PUSH_SEG) eqn:F.
  - replace (push_item s x m) with x by (unfold push_item; now rewrite F). now apply push_segment.
  - rewrite (reads_used s 0 x m Rd), <- bind_bind.
    rewrite (bind_run _ _ _ _ _ (push_extend s x m Hm (st_opsize s S) Hx F _)). now apply push_other.
Qed.

Lemma push_run s x m : stacked s -> idle s -> reads s 0 x m -> push_room s ->
  Call Diana_Call_push s = (Ok tt, push_done (push_item s x m) s).
Proof.
  intros S I Rd R. apply Call_idle; [|reflexivity|exact I]. now apply (push_body s x m S Rd).
Qed.

(** Below the operand size the stack pointer is an error of [push], and nothing changes. *)
Lemma push_underflow s x m : stacked s -> idle s -> reads s 0 x m -> stack_pointer s < op_size s ->
  Call Diana_Call_push s = (Err DI_ERROR, s).
Proof.
  intros S I Rd L. rewrite (Call_tw _ s s (Err DI_ERROR) (m_flags s) false); [now rewrite with_flags_same| |exact I].
  now apply (push_body s x m S Rd).
Qed.

(** Where the stack pointer is then, and what lies there. *)
Lemma push_done_top v s : stacked s -> push_room s ->
  stack_pointer (push_done v s) = stack_pointer s - op_size s /\
  loads (m_pMemoryStream (push_done v s)) (stack_segment s) (stack_pointer s - op_size s) (push_width s) reg_SS
    (v mod modulus (push_width s)).
Proof.
  intros S (Hr & M). pose proof (opsize_pos _ (st_opsize s S)). pose proof (stack_pointer_range s S).
  assert (Hw : 0 < push_width s) by (unfold push_width; destruct (has _ _); lia).
  split; [|exact (put_memory_same s _ _ _ v reg_SS reg_SS (st_wf s S) Hw M)].
  unfold push_done. rewrite stack_pointer_put by now apply stacked_put_memory.
  apply Z.mod_small. change (address_size (put_memory _ _ _ _ _ s)) with (address_size s). lia.
Qed.

(** The address of a memory destination is computed after the stack pointer has moved. *)
Lemma pop_run s v x m n :
  stacked s -> idle s -> on_top s v -> reads s 0 x m -> writes (popped s) 0 n ->
  Call Diana_Call_pop s = (Ok tt, put_operand 0 v (popped s)).
Proof.
  intros S I O Rd Wr. pose proof (wf_flag_word s (st_wf s S)) as Hf.
  pose proof (stacked_popped s S) as S'.
  apply Call_idle; [| |apply idle_put_operand; exact I].
  2: { apply (proj2 (proj2 (put_operand_keeps 0 v (popped s)))). }
  unfold Diana_Call_pop.
  rewrite (bind_run _ _ _ _ _ (DI_MEM_GET_DEST_tw s x m _ _ (st_wf s S) Rd)).
  rewrite (bind_run _ _ _ _ _ (pop_tw v _ _ s S Hf O)).
  apply DI_MEM_SET_tw with n; auto; apply S'.
Qed.

(** A push and the pop after it: the value comes back cut to the operand size, the registers
    are what they were, and only the memory below the stack pointer has changed. *)
Lemma push_pop s v :
  stacked s -> room s ->
  (diana_internal_push v ;;; diana_internal_pop) s =
  (Ok (v mod modulus (op_size s)),
   put_memory (stack_segment s) (stack_pointer s - op_size s) (op_size s) v reg_SS s).
Proof.
  intros S R. pose proof (wf_flag_word s (st_wf s S)) as Hf.
  pose proof (push_tw v (m_flags s) false s S Hf R) as E. rewrite tw_id in E.
  rewrite (bind_run _ _ _ _ _ E).
  rewrite (pop_tw _ _ _ _ (stacked_pushed v s S R) Hf (on_top_pushed v s S R)).
  rewrite popped_pushed by assumption. reflexivity.
Qed.

(** *** A relative [call]. *)
Definition call_slot s : Z := u64 (rval s reg_RSP - op_size s).
Definition return_address s : Z := u64 (rval s reg_RIP + iFullCmdSize (m_result s)).

Record calls s (rel : Z) : Prop := {
  cl_wf : wf s;
  cl_idle : idle s;
  cl_opsize : opsize (op_size s);
  cl_count : iLinkedOpCount (m_result s) = 1;
  cl_rel : value (linked_op (m_result s) 0) = diana_rel rel;
  cl_mapped : mapped (m_pMemoryStream s) (stack_segment s) (call_slot s) (op_size s)
}.

Definition saved_return s : DianaProcessor T :=
  put_memory (stack_segment s) (call_slot s) (op_size s) (return_address s) reg_SS s.

Definition called s (rel : Z) : DianaProcessor T :=
  let newRIP := u64 (rval s reg_RIP + rel + iFullCmdSize (m_result s)) in
  put_rip 8 newRIP
    (put_register reg_RSP (call_slot s)
       (with_lastCallRSP (fun _ => call_slot s)
          (with_lastCallRIP (fun _ => newRIP) (saved_return s)))).

Lemma wf_saved_return s rel : calls s rel -> wf (saved_return s).
Proof.
  intros [W I Ho C R M]. pose proof (opsize_pos _ Ho). apply wf_put_memory; auto. lia.
Qed.

Lemma wf_lastCall a b s : wf s -> wf (with_lastCallRSP a (with_lastCallRIP b s)).
Proof. intros W. destruct W. now constructor. Qed.

Lemma call_run s rel : calls s rel -> Call Diana_Call_call s = (Ok tt, called s rel).
Proof.
  intros C. pose proof (wf_saved_return s rel C) as W2. destruct C as [W I Ho C R M].
  pose proof (wf_flag_word s W) as Hf. pose proof (idle_psz_clear s I) as P.
  assert (Np : 0 < op_size s) by (pose proof (opsize_pos _ Ho); lia).
  apply Call_idle; [|reflexivity|now apply idle_put_rip].
  set (f := m_flags s) in *. unfold Diana_Call_call, result, context.
  rewrite (bind_run _ _ _ _ _ (GET_REG_tw reg_RSP f false s W Hf ltac:(auto with diana))).
  rewrite !bind_gets. change (m_result (tw f false s)) with (m_result s). rewrite C, R. cbn [negb Z.eqb Pos.eqb].
  rewrite bind_bind, (bind_run _ _ _ _ _ (GET_REG_tw reg_RIP f false s W Hf rip_int)).
  rewrite !bind_ret, !bind_gets, bind_ret.
  rewrite (bind_run _ _ _ _ _ (GET_REG_tw reg_RIP f false s W Hf rip_int)).
  rewrite (bind_run _ _ _ _ _ (GET_REG_tw reg_SS f false s W Hf ss_int)).
  change (m_context (tw f false s)) with (m_context s). fold (op_size s).
  change (u64 (rval s reg_RSP - op_size s)) with (call_slot s). fold (stack_segment s) (return_address s).
  rewrite (bind_run _ _ _ _ _
    (SetMemValue_tw _ _ _ (return_address s) reg_SS f false s (wf_stream s W) Np M)).
  rewrite !bind_modify. fold (saved_return s).
  set (newRIP := u64 (rval s reg_RIP + rel + iFullCmdSize (m_result s))).
  set (s1 := with_lastCallRSP (fun _ => call_slot s) (with_lastCallRIP (fun _ => newRIP) (saved_return s))).
  change (with_lastCallRSP _ (with_lastCallRIP _ (tw f false (saved_return s)))) with (tw f false s1).
  assert (W1 : wf s1) by now apply wf_lastCall.
  rewrite (bind_run _ _ _ _ _ (SET_REG_tw reg_RSP (call_slot s) f false s1 W1 Hf
             ltac:(auto with diana) rsp_not_rip P)).
  rewrite (bind_run _ _ _ _ _ (SET_RIP_tw newRIP f false (put_register reg_RSP (call_slot s) s1)
             ltac:(auto with diana) Hf P)).
  reflexivity.
Qed.

(** *** A near [ret], which drops [d] bytes more when it has an operand. *)
Definition ret_target s (v : Z) : Prop :=
  loads (m_pMemoryStream s) (stack_segment s) (rval s reg_RSP) (op_size s) reg_SS v.

Definition ret_drops s (d : Z) : Prop :=
  iLinkedOpCount (m_result s) = 0 /\ d = 0 \/
  iLinkedOpCount (m_result s) = 1 /\ value (linked_op (m_result s) 0) = diana_imm d /\
  exists m, reads s 0 d m.

Definition returned s (v d : Z) : DianaProcessor T :=
  put_rip 8 v (put_register reg_RSP (u64 (rval s reg_RSP + op_size s + d)) s).

Lemma ret_run s v d :
  wf s -> idle s -> ret_drops s d -> ret_target s v ->
  Call Diana_Call_ret s = (Ok tt, returned s v d).
Proof.
  intros W I D L. pose proof (wf_flag_word s W) as Hf. pose proof (idle_psz_clear s I) as P.
  apply Call_idle; [|reflexivity|now apply idle_put_rip].
  set (f := m_flags s) in *. unfold Diana_Call_ret, Diana_Call_internal_ret, result, context.
  rewrite bind_gets. change (m_result (tw f false s)) with (m_result s). cbv beta.
  erewrite (bind_run _ _ _ d).
  2:{ destruct D as [(C & ->)|(C & Ev & m & Rd)]; rewrite C; cbn [negb Z.eqb Pos.eqb]; [reflexivity|].
      rewrite (bind_run _ _ _ _ _ (DI_MEM_GET_DEST_tw s d m f false W Rd)), Ev. reflexivity. }
  rewrite bind_gets.
  rewrite (bind_run _ _ _ _ _ (GET_REG_tw reg_RSP f false s W Hf ltac:(auto with diana))).
  rewrite (bind_run _ _ _ _ _ (GET_REG_tw reg_SS f false s W Hf ss_int)).
  change (m_context (tw f false s)) with (m_context s). fold (op_size s) (stack_segment s).
  rewrite (bind_run _ _ _ _ _ (GetMemValue_tw _ _ _ reg_SS v f false s L)). rewrite bind_ret.
  replace (u64 (u64 (rval s reg_RSP + op_size s) + d)) with
    (u64 (rval s reg_RSP + op_size s + d)) by (unfold u64; now rewrite Z.add_mod_idemp_l).
  rewrite (bind_run _ _ _ _ _ (SET_REG_tw reg_RSP _ f false s W Hf
             ltac:(auto with diana) rsp_not_rip P)).
  rewrite (bind_run _ _ _ _ _ (SET_RIP_tw v f false (put_register reg_RSP _ s)
             ltac:(auto with diana) Hf P)).
  reflexivity.
Qed.

Lemma rval_put_rip s v : wf s -> rval (put_rip 8 v s) reg_RIP = v mod modulus 8.
Proof.
  intros W. unfold rval, window, put_rip, put_low.
  change (widen s reg_RIP 8) with 8. change (rsize reg_RIP) with 8.
  cbn [put_window with_pRegistersVector with_stateFlags m_pRegistersVector].
  pose proof (ir_off _ rip_int). pose proof (ir_end _ rip_int).
  rewrite buf_load_store_same by (rewrite ?(wf_length s W); lia). now apply Z.mod_mod.
Qed.

Lemma rval_put_rip_gpr s v r : wf s -> In r gprs -> rval (put_rip 8 v s) r = rval s r.
Proof.
  intros W G. change (rval (put_rip 8 v s) r) with (rval (put_low reg_RIP 8 v s) r).
  assert (B : forallb (fun r => (roff reg_RIP + 8 <=? roff r) || (roff r + 8 <=? roff reg_RIP)) gprs = true)
    by (vm_compute; reflexivity).
  rewrite forallb_forall in B. specialize (B r G). rewrite orb_true_iff, !Z.leb_le in B.
  pose proof (opsize_pos _ (ir_size r ltac:(auto with diana))).
  apply put_low_apart; auto using rip_int with diana; [right; right; right; reflexivity|]. lia.
Qed.

Lemma rval_called_rsp s rel : calls s rel -> rval (called s rel) reg_RSP = call_slot s.
Proof.
  intros C. pose proof (wf_saved_return s rel C) as W. unfold called.
  rewrite rval_put_rip_gpr by auto 6 using wf_lastCall with diana.
  rewrite put_register_same by auto 6 using wf_lastCall with diana.
  apply Z.mod_small. apply u64_range.
Qed.

Lemma rval_called_rip s rel : calls s rel ->
  rval (called s rel) reg_RIP = u64 (rval s reg_RIP + rel + iFullCmdSize (m_result s)).
Proof.
  intros C. pose proof (wf_saved_return s rel C) as W. unfold called.
  set (s1 := with_lastCallRSP _ _). assert (W1 : wf s1) by (destruct W; now constructor).
  rewrite rval_put_rip by auto with diana. apply Z.mod_small, u64_range.
Qed.

(** A [ret] that finds the stack as the [call] left it returns behind the [call] and restores
    the stack pointer. *)
Lemma ret_call s rel s2 :
  calls s rel -> wf s2 -> idle s2 -> iLinkedOpCount (m_result s2) = 0 -> op_size s2 = op_size s ->
  m_pMemoryStream s2 = m_pMemoryStream (called s rel) ->
  rval s2 reg_RSP = rval (called s rel) reg_RSP -> stack_segment s2 = stack_segment s ->
  exists s3, Call Diana_Call_ret s2 = (Ok tt, s3) /\
    rval s3 reg_RIP = return_address s mod modulus (op_size s) /\
    rval s3 reg_RSP = rval s reg_RSP.
Proof.
  intros C W2 I2 C2 O2 M2 P2 G2. rewrite (rval_called_rsp s rel C) in P2.
  pose proof C as [W I Ho _ _ M]. pose proof (opsize_pos _ Ho).
  assert (L : ret_target s2 (return_address s mod modulus (op_size s))).
  { unfold ret_target. rewrite M2, G2, P2, O2.
    assert (Np : 0 < op_size s) by lia.
    apply (put_memory_same s _ _ _ _ reg_SS reg_SS W Np M). }
  exists (returned s2 (return_address s mod modulus (op_size s)) 0).
  split; [apply ret_run; auto; now left|]. unfold returned. rewrite Z.add_0_r.
  rewrite rval_put_rip, rval_put_rip_gpr, put_register_same by auto with diana.
  rewrite P2, O2. unfold call_slot, u64. rewrite Z.add_mod_idemp_l by lia.
  pose proof (rval_range s reg_RSP W ltac:(auto with diana)) as Hr. change (modulus (rsize reg_RSP)) with 0x10000000000000000 in *.
  split.
  - apply Z.mod_small. pose proof (modulus_word _ Ho). pose proof (modulus_pos (op_size s)).
    pose proof (Z.mod_pos_bound (return_address s) (modulus (op_size s))).
    change (modulus 8) with 0x10000000000000000. lia.
  - rewrite Z.mod_mod by lia. replace (rval s reg_RSP - op_size s + op_size s) with (rval s reg_RSP) by lia.
    now apply Z.mod_small.
Qed.
End Calls.
