(* ===== verification/StringProofs.v ===== *)
(** String instructions: what one step of [movs], [stos], [lods], [scas] and [cmps] does, and the
    repetition of [CallWithRep]: it ends, and a plain repetition makes as many steps as the
    counter says. *)

From Stdlib Require Import ZArith Lia List Bool.
Import ListNotations.
From S2P Require Import Prelude Words Status Registers ProcStreams Processor CmdInternal.
From S2P Require Import CmdString ProcessorInit State Exec Operands Rules RegisterProofs.
From S2P Require Import FlowProofs StackProofs Invariant.
Local Open Scope Z_scope.
Local Open Scope diana_scope.

(** ** Commands that leave RCX alone *)

Section Calm.
Context {T : Type} `{RandomStreamOk T}.
Implicit Types s : DianaProcessor T.

(** On every path the invariant is kept and RCX does not change. *)
Definition calm {A} (m : MP T A) : Prop :=
  forall q s, inside q s -> inside q (snd (m s)) /\ rval (snd (m s)) reg_RCX = rval s reg_RCX.

Lemma calm_bind {A B} (m : MP T A) (k : A -> MP T B) :
  calm m -> (forall a, calm (k a)) -> calm (bind m k).
Proof.
  intros Hm Hk q s I. unfold bind. destruct (Hm q s I) as (I1 & E1).
  destruct (m s) as [[a|c|] s1]; cbn [snd] in *; auto. destruct (Hk a q s1 I1) as (I2 & E2).
  split; [exact I2|]. now rewrite E2.
Qed.

(** Commands that do not touch the register vector at all. *)
Definition same_vector {A} (m : MP T A) : Prop :=
  forall s, m_pRegistersVector (snd (m s)) = m_pRegistersVector s.

Lemma calm_vector {A} (m : MP T A) : keeps m -> same_vector m -> calm m.
Proof.
  intros K V q s I. split; [now apply K|]. unfold rval, window. now rewrite V.
Qed.

Lemma calm_when c (m : MP T unit) : calm m -> calm (when c m).
Proof. intros Hm. destruct c; [exact Hm|]. now apply calm_vector; [apply keeps_ret|]. Qed.

Lemma calm_ret {A} (a : A) : calm (ret a).
Proof. now apply calm_vector; [apply keeps_ret|]. Qed.
Lemma calm_fail {A} c : calm (@fail _ A c).
Proof. now apply calm_vector; [apply keeps_fail|]. Qed.
Lemma calm_gets {A} (f : DianaProcessor T -> A) : calm (gets f).
Proof. now apply calm_vector; [apply keeps_gets|]. Qed.
Lemma calm_context {A} (f : DianaContext -> A) : calm (context f).
Proof. apply calm_gets. Qed.
Lemma calm_result {A} (f : DianaParserResult -> A) : calm (result f).
Proof. apply calm_gets. Qed.
Lemma calm_GET_REG r : calm (GET_REG r).
Proof. now apply calm_vector; [apply keeps_GET_REG|]. Qed.
Lemma calm_GET_REG2 r n : calm (GET_REG2 r n).
Proof. now apply calm_vector; [apply keeps_GET_REG2|]. Qed.
Lemma calm_SetFlag k : 0 <= k < 64 -> calm (DianaProcessor_SetFlag (2 ^ k)).
Proof. intros. now apply calm_vector; [apply keeps_SetFlag|]. Qed.
Lemma calm_ClearFlag k : 0 <= k < 64 -> calm (DianaProcessor_ClearFlag (2 ^ k)).
Proof. intros. now apply calm_vector; [apply keeps_ClearFlag|]. Qed.
Lemma calm_set_stateFlags m : Z.testbit m 2 = false -> Z.testbit m 0 = false -> calm (set_stateFlags m).
Proof. intros. now apply calm_vector; [apply keeps_set_stateFlags|]. Qed.

Lemma calm_UPDATE_PSZ X h : calm (UPDATE_PSZ X h).
Proof.
  intros q s I. split; [now apply keeps_UPDATE_PSZ|].
  destruct (UPDATE_PSZ_flags X h s (wf_flag_word s (in_wf q s I))) as (g & _ & ->). reflexivity.
Qed.

Lemma calm_UpdatePSZ v n : calm (DianaProcessor_UpdatePSZ v n).
Proof.
  intros q s I. split; [now apply keeps_UpdatePSZ|].
  unfold DianaProcessor_UpdatePSZ, set_stateFlags. rewrite bind_modify.
  set (s1 := with_stateFlags _ s). pose proof (wf_flag_word s (in_wf q s I)) as Hf.
  assert (E : forall m : MP T unit,
    (exists g, flag_word g /\ m s1 = (Ok tt, with_flags (fun _ => g) s1)) ->
    rval (snd ((m ;;; clear_stateFlags DI_PROC_STATE_UPDATE_FLAGS_PSZ) s1)) reg_RCX = rval s reg_RCX).
  { intros m (g & _ & Em). now rewrite (bind_run _ _ _ _ _ Em). }
  apply E. destruct (n =? 1); [now apply UPDATE_PSZ_flags|].
  destruct (n =? 2); [now apply UPDATE_PSZ_flags|]. destruct (n =? 4); [now apply UPDATE_PSZ_flags|].
  destruct (n =? 8); [now apply UPDATE_PSZ_flags|]. exists (m_flags s). split; [exact Hf|].
  now destruct s.
Qed.

Lemma calm_GetMemValue sel addr n seg : calm (DianaProcessor_GetMemValue sel addr n seg).
Proof.
  apply calm_vector; [apply keeps_GetMemValue|]. intros s.
  unfold DianaProcessor_GetMemValue, DianaProcessor_GetMemValue_out, bind.
  destruct (pReadFnc _ _ _ _ _) as [[st bs] t].
  match goal with |- context [if ?c =? DI_SUCCESS then _ else _] => now destruct (c =? DI_SUCCESS) end.
Qed.

Lemma calm_SetMemValue sel addr n v seg : calm (DianaProcessor_SetMemValue sel addr n v seg).
Proof.
  apply calm_vector; [apply keeps_SetMemValue|]. intros s. unfold DianaProcessor_SetMemValue.
  now destruct (pWriteFnc _ _ _ _ _) as [[st w] t].
Qed.

(** Stores to the other general registers. *)
Definition off_rcx (r : Z) : Prop :=
  In r gprs /\ (roff r + 8 <= roff reg_RCX \/ roff reg_RCX + 8 <= roff r).

Lemma calm_SetValueEx r n v q s :
  inside q s -> off_rcx r -> opsize n ->
  rval (snd (DianaProcessor_SetValueEx r (reg_info r) v n s)) reg_RCX = rval s reg_RCX.
Proof.
  intros I (G & A) Hn. pose proof (in_wf q s I) as W.
  rewrite <- (tw_id s) at 1. rewrite SetValueEx_split by auto with diana.
  set (s1 := tw _ _ _). assert (W1 : wf s1).
  { apply wf_tw; [apply wf_put_low; auto with diana|now apply wf_flag_word]. }
  destruct (UPDATE_PSZ_flags (v mod modulus n) (half n) s1 (wf_flag_word s1 W1)) as (g & _ & ->).
  change (rval (put_low r n v s) reg_RCX = rval s reg_RCX).
  apply put_low_apart; auto with diana; [|right; right; right; reflexivity].
  apply int_regs_ok. vm_compute. tauto.
Qed.

Lemma calm_SET_REG r v : off_rcx r -> calm (SET_REG r v).
Proof.
  intros O q s I. split; [now apply keeps_SET_REG|]. unfold SET_REG. rewrite bind_gets.
  pose proof O as (G & _).
  rewrite (QueryReg_int s r (in_wf q s I)) by auto with diana.
  apply (calm_SetValueEx _ _ _ q); auto with diana. apply (ir_size r). auto with diana.
Qed.

Lemma calm_SET_REG2 r v n : off_rcx r -> opsize n -> calm (SET_REG2 r v n).
Proof.
  intros O Hn q s I. pose proof O as (G & _). split; [apply keeps_SET_REG2; auto with diana|].
  unfold SET_REG2. rewrite bind_gets.
  rewrite (QueryReg_int s r (in_wf q s I)) by auto with diana.
  now apply (calm_SetValueEx _ _ _ q).
Qed.

(** A store of an unsupported size does nothing, so that the size does not matter. *)
Lemma calm_SET_REG2_any r v n : off_rcx r -> calm (SET_REG2 r v n).
Proof.
  intros O. assert (D : opsize n \/ ~ opsize n).
  { unfold opsize. destruct (Z.eq_dec n 1), (Z.eq_dec n 2), (Z.eq_dec n 4), (Z.eq_dec n 8);
      tauto. }
  destruct D as [Hn|Hn]; [now apply calm_SET_REG2|]. intros q s I. pose proof O as (G & _).
  split; [apply keeps_SET_REG2; auto with diana|].
  unfold SET_REG2. rewrite bind_gets.
  rewrite (QueryReg_int s r (in_wf q s I)) by auto with diana.
  unfold DianaProcessor_SetValueEx. rewrite (gpr_not_rip r G), when_false, bind_ret.
  destruct (Z.eqb_spec n 1); [destruct Hn; now left|].
  destruct (Z.eqb_spec n 2); [destruct Hn; now (right; left)|].
  destruct (Z.eqb_spec n 4); [destruct Hn; now (right; right; left)|].
  destruct (Z.eqb_spec n 8); [destruct Hn; now (right; right; right)|]. reflexivity.
Qed.
End Calm.

Create HintDb calm.
#[export] Hint Resolve calm_ret calm_fail calm_gets calm_context calm_result calm_GET_REG
  calm_GET_REG2 calm_UPDATE_PSZ calm_UpdatePSZ calm_GetMemValue calm_SetMemValue : calm.

Ltac off_rcx := split; [gpr | first [left; vm_compute; discriminate | right; vm_compute; discriminate]].
Ltac calm_flag :=
  lazymatch goal with
  | |- calm (DianaProcessor_SetFlag ?m) =>
      let k := eval vm_compute in (Z.log2 m) in
      change m with (2 ^ k); apply calm_SetFlag; lia
  | |- calm (DianaProcessor_ClearFlag ?m) =>
      let k := eval vm_compute in (Z.log2 m) in
      change m with (2 ^ k); apply calm_ClearFlag; lia
  end.
Ltac calm_step :=
  lazymatch goal with
  | |- calm (bind _ _) => apply calm_bind; [|intro]
  | |- calm (when _ _) => apply calm_when
  | |- calm (SET_REG2 _ _ _) => apply calm_SET_REG2_any; off_rcx
  | |- calm (SET_REG _ _) => apply calm_SET_REG; off_rcx
  | |- calm (set_stateFlags _) => apply calm_set_stateFlags; reflexivity
  | |- calm (let (_, _) := ?p in _) => destruct p
  | |- calm (match ?x with _ => _ end) => destruct x
  | |- calm (DianaProcessor_SetFlag _) => calm_flag
  | |- calm (DianaProcessor_ClearFlag _) => calm_flag
  | |- calm (DianaProcessor_QueryFlag _) => apply calm_gets
  | |- calm _ => solve [eauto 3 with calm]
  end.
Ltac calm := repeat calm_step.

Section StringHandlers.
Context {T : Type} `{RandomStreamOk T}.
Implicit Types s : DianaProcessor T.

(** The index pairs of the three address sizes. *)
Definition sidi (bSrc : bool) (rs rd : Z) : DianaRmIndex * DianaRmIndex :=
  (if bSrc then index_of reg_DS rs else zero_index, index_of reg_ES rd).

Lemma calm_PrepareSIDI {A} bSrc (k : DianaRmIndex * DianaRmIndex -> MP T A) :
  (forall p, p = sidi bSrc reg_RSI reg_RDI \/ p = sidi bSrc reg_ESI reg_EDI \/
             p = sidi bSrc reg_SI reg_DI -> calm (k p)) ->
  calm (bind (Di_PrepareSIDI_regs bSrc) k).
Proof.
  intros Hk q s I. unfold Di_PrepareSIDI_regs, context, result. rewrite !bind_bind, bind_gets, bind_bind, bind_gets.
  repeat match goal with |- context [if ?c then fail _ else _] => destruct c; [now split|] end.
  repeat match goal with |- context [if ?c then ret _ else _] => destruct c end;
    rewrite ?bind_ret; try (apply Hk; auto); now split.
Qed.

Lemma calm_CalcIndex i : calm (DianaProcessor_CalcIndex (T := T) i).
Proof. unfold DianaProcessor_CalcIndex. calm. Qed.

Lemma calm_index_ex n i : calm (Diana_ProcessorGetOperand_index_ex (T := T) n i).
Proof.
  unfold Diana_ProcessorGetOperand_index_ex. apply calm_bind; [apply calm_CalcIndex|]. intros p. calm.
Qed.

Lemma calm_index_ex2 n i : calm (Diana_ProcessorGetOperand_index_ex2 (T := T) n i).
Proof.
  unfold Diana_ProcessorGetOperand_index_ex2. apply calm_bind; [apply calm_CalcIndex|]. intros p. calm.
Qed.

Lemma calm_UpdateSIDI a b : calm (Di_UpdateSIDI (T := T) a b).
Proof. unfold Di_UpdateSIDI, GET_FLAG_DF. calm. Qed.

Lemma calm_START_COA : calm (DI_START_UPDATE_COA_FLAGS (T := T)).
Proof. unfold DI_START_UPDATE_COA_FLAGS. keep_flags_name. calm. Qed.

Lemma calm_SetCOA_Sub a b c n f : calm (DianaProcessor_SetCOA_Sub (T := T) a b c n f).
Proof. unfold DianaProcessor_SetCOA_Sub, set_OF_differ. keep_flags_name. calm. Qed.

Ltac calm_part :=
  solve [eauto 2 using calm_CalcIndex, calm_index_ex, calm_index_ex2, calm_UpdateSIDI,
           calm_START_COA, calm_SetCOA_Sub].

Lemma calm_string m : In m string_handlers -> calm m.
Proof.
  revert m. apply Forall_forall. unfold string_handlers.
  assert (D : calm (dest_usedSize (T := T))) by apply calm_gets.
  assert (N : calm (DianaProcessor_CmdUsesNormalRep (T := T)))
    by (apply calm_set_stateFlags; reflexivity).
  repeat (apply Forall_cons || apply Forall_nil).
  all: unfold Diana_Call_movs, Diana_Call_cmps, Diana_Call_scas, Diana_Call_stos, Diana_Call_lods.
  all: unfold GET_FLAG_DF.
  all: repeat lazymatch goal with
    | |- calm (bind (Di_PrepareSIDI_regs _) _) =>
        apply calm_PrepareSIDI; let p := fresh in intros p [-> | [-> | ->]]; unfold sidi
    | |- calm _ => calm_part || calm_step
    end.
Qed.
End StringHandlers.

(** ** Repetition *)

Section Repetition.
Context {T : Type} `{RandomStreamOk T}.
Implicit Types s : DianaProcessor T.

(** The counters of the address sizes are the low parts of RCX. *)
Definition counter_reg (r : Z) : Prop := r = reg_RCX \/ r = reg_ECX \/ r = reg_CX.

Lemma counter_gpr r : counter_reg r -> In r gprs.
Proof. intros [->|[->| ->]]; gpr. Qed.

Lemma rcx_gpr : In reg_RCX gprs.
Proof. gpr. Qed.

Lemma counter_low r s : wf s -> counter_reg r -> rval s r = rval s reg_RCX mod modulus (rsize r).
Proof.
  intros W C. pose proof (int_regs_ok _ (gprs_int _ rcx_gpr)) as R. unfold rval.
  destruct C as [->|[->| ->]]; symmetry.
  - exact (window_mod s reg_RCX 8 8 W R ltac:(lia) ltac:(lia)).
  - exact (window_mod s reg_RCX 4 8 W R ltac:(lia) ltac:(lia)).
  - exact (window_mod s reg_RCX 2 8 W R ltac:(lia) ltac:(lia)).
Qed.

(** The counter after one round. *)
Definition count_down s : DianaProcessor T := put_register reg_RCX (u64 (rval s reg_RCX - 1)) s.

Lemma count_down_rcx s : wf s -> rval (count_down s) reg_RCX = u64 (rval s reg_RCX - 1).
Proof.
  intros W. unfold count_down. rewrite put_register_same by (assumption || exact rcx_gpr).
  apply Z.mod_small, u64_range.
Qed.

Lemma count_down_counter r s :
  wf s -> counter_reg r -> rval s r <> 0 -> rval (count_down s) r = rval s r - 1.
Proof.
  intros W C N. pose proof (counter_gpr r C) as G.
  assert (W' : wf (count_down s)) by (apply wf_put_register; auto using rcx_gpr with diana).
  rewrite (counter_low r _ W' C), (counter_low r s W C), count_down_rcx in * by assumption.
  pose proof (ir_size r ltac:(auto with diana)) as Sz.
  rewrite u64_mod by assumption. pose proof (opsize_pos _ Sz).
  pose proof (modulus_pos (rsize r) ltac:(lia)) as Mp.
  pose proof (Z.mod_pos_bound (rval s reg_RCX) (modulus (rsize r)) Mp).
  pose proof (Z.div_mod (rval s reg_RCX) (modulus (rsize r)) ltac:(lia)) as D.
  symmetry. apply Z.mod_unique with (rval s reg_RCX / modulus (rsize r)); lia.
Qed.

Lemma ready_count_down s : ready s -> ready (count_down s).
Proof.
  intros (W & O & I). split; [apply wf_put_register; auto using rcx_gpr with diana|].
  split; [exact O|exact I].
Qed.

Lemma Call_rcx (m : MP T unit) s : calm m -> ready s ->
  ready (snd (Call m s)) /\ rval (snd (Call m s)) reg_RCX = rval s reg_RCX.
Proof.
  intros C R. split.
  - apply Call_ready; [|exact R]. intros q s1 I. apply (C q s1 I).
  - destruct (C _ s (ready_inside s R)) as (_ & E). rewrite <- E. unfold Call.
    now destruct (m s) as [a s1].
Qed.

(** *** One round of the loop *)

(** Does the repetition go on after a round that ended in [s]? *)
Definition rep_again (bRepn : bool) s : bool :=
  if bRepn then negb (flag ZF (m_flags s))
  else has (m_stateFlags s) DI_PROC_STATE_CMD_USES_NORMAL_REP || flag ZF (m_flags s).

Definition rip_changed s : bool := has (m_stateFlags s) DI_PROC_STATE_RIP_CHANGED.

Lemma rep_loop_round fuel m r b s s1 :
  calm m -> ready s -> counter_reg r -> rval s r <> 0 -> Call m s = (Ok tt, s1) ->
  rep_loop (S fuel) m r b s =
  if rip_changed s1 then (Ok (Some tt), s1)
  else if rep_again b s1 then rep_loop fuel m r b (count_down s1) else (Ok (Some tt), count_down s1).
Proof.
  intros C R Cr N E. pose proof R as (W & _). pose proof (counter_gpr r Cr) as G.
  destruct (Call_rcx m s C R) as (R1 & _). rewrite E in R1. cbn [snd] in R1.
  pose proof R1 as (W1 & O1 & I1). pose proof (idle_psz_clear s1 I1) as P1.
  pose proof (wf_flag_word s W) as Hf. pose proof (wf_flag_word s1 W1) as Hf1.
  cbn [rep_loop]. pose proof (GET_REG_tw r (m_flags s) false s W Hf ltac:(auto with diana)) as Eg.
  rewrite tw_id in Eg. rewrite (bind_run _ _ _ _ _ Eg).
  destruct (Z.eqb_spec (rval s r) 0); [contradiction|].
  rewrite (bind_run _ _ _ _ _ E), bind_gets. fold (rip_changed s1).
  destruct (rip_changed s1); [reflexivity|].
  pose proof (GET_REG_tw reg_RCX (m_flags s1) false s1 W1 Hf1 ltac:(auto using rcx_gpr with diana)) as Ec.
  rewrite tw_id in Ec. rewrite (bind_run _ _ _ _ _ Ec).
  pose proof (SET_REG_tw reg_RCX (u64 (rval s1 reg_RCX - 1)) (m_flags s1) false s1 W1 Hf1
                ltac:(auto using rcx_gpr with diana) (gpr_not_rip _ rcx_gpr) P1) as Es.
  rewrite tw_id in Es. fold (count_down s1) in Es.
  change (tw (m_flags s1) false (count_down s1)) with (tw (m_flags (count_down s1)) false (count_down s1)) in Es.
  rewrite tw_id in Es. rewrite (bind_run _ _ _ _ _ Es).
  pose proof (GET_ZF_tw (m_flags (count_down s1)) false (count_down s1)) as Ez. rewrite tw_id in Ez.
  rewrite (bind_run _ _ _ _ _ Ez), bind_gets.
  change (m_stateFlags (count_down s1)) with (m_stateFlags s1).
  change (m_flags (count_down s1)) with (m_flags s1).
  unfold rep_again, flag. rewrite !b2z_zero, !negb_involutive.
  destruct b, (Z.testbit (m_flags s1) ZF), (has (m_stateFlags s1) DI_PROC_STATE_CMD_USES_NORMAL_REP); reflexivity.
Qed.

(** Also when the command fails. *)
Lemma rep_loop_failed fuel m r b s :
  calm m -> ready s -> counter_reg r -> rval s r <> 0 -> fst (Call m s) <> Ok tt ->
  fst (rep_loop (S fuel) m r b s) <> Ok None /\ snd (rep_loop (S fuel) m r b s) = snd (Call m s).
Proof.
  intros C R Cr N E. pose proof R as (W & _). pose proof (counter_gpr r Cr) as G.
  pose proof (wf_flag_word s W) as Hf. cbn [rep_loop].
  pose proof (GET_REG_tw r (m_flags s) false s W Hf ltac:(auto with diana)) as Eg.
  rewrite tw_id in Eg. rewrite (bind_run _ _ _ _ _ Eg).
  destruct (Z.eqb_spec (rval s r) 0); [contradiction|].
  destruct (Call m s) as [[[]|c|] s1] eqn:EC; cbn [fst snd] in *; [congruence|..].
  - rewrite (bind_err _ _ _ _ _ EC). cbn. split; [discriminate|reflexivity].
  - rewrite (bind_crash _ _ _ _ EC). cbn. split; [discriminate|reflexivity].
Qed.

Lemma rep_loop_zero fuel m r b s :
  wf s -> counter_reg r -> rval s r = 0 -> rep_loop (S fuel) m r b s = (Ok (Some tt), s).
Proof.
  intros W Cr N. pose proof (wf_flag_word s W) as Hf. pose proof (counter_gpr r Cr) as G.
  cbn [rep_loop]. pose proof (GET_REG_tw r (m_flags s) false s W Hf ltac:(auto with diana)) as Eg.
  rewrite tw_id in Eg. rewrite (bind_run _ _ _ _ _ Eg). now rewrite N.
Qed.

(** *** The loop ends: the counter bounds the rounds *)

Lemma rep_loop_ends m r b : calm m -> counter_reg r ->
  forall fuel s, ready s -> rval s r < Z.of_nat fuel ->
  fst (rep_loop fuel m r b s) <> Ok None /\ ready (snd (rep_loop fuel m r b s)).
Proof.
  intros C Cr. induction fuel as [|fuel IH]; intros s R Hc.
  { pose proof R as (W & _). pose proof (rval_range s r W ltac:(auto using counter_gpr with diana)). lia. }
  pose proof R as (W & _). destruct (Z.eq_dec (rval s r) 0) as [Z0|N].
  { rewrite rep_loop_zero by assumption. cbn. split; [discriminate|exact R]. }
  destruct (Call_rcx m s C R) as (R1 & E1).
  destruct (Call m s) as [[[]|c|] s1] eqn:EC; cbn [snd] in *.
  2,3: destruct (rep_loop_failed fuel m r b s C R Cr N) as (F & ->);
       [rewrite EC; discriminate|split; [exact F|rewrite EC; exact R1]].
  rewrite (rep_loop_round fuel m r b s s1 C R Cr N EC).
  destruct (rip_changed s1); [split; [discriminate|exact R1]|].
  pose proof (ready_count_down s1 R1) as R2.
  destruct (rep_again b s1); [|split; [discriminate|exact R2]].
  apply IH; [exact R2|]. pose proof R1 as (W1 & _).
  assert (Ec : rval s1 r = rval s r)
    by (rewrite (counter_low r s1 W1 Cr), (counter_low r s W Cr); now rewrite E1).
  rewrite count_down_counter by congruence || (try assumption; rewrite Ec; assumption). lia.
Qed.

(** More fuel than enough changes nothing. *)
Lemma bind_more {A} (m : MP T A) (k1 k2 : A -> MP T (option unit)) s :
  (forall a s1, fst (k1 a s1) <> Ok None -> k2 a s1 = k1 a s1) ->
  fst (bind m k1 s) <> Ok None -> bind m k2 s = bind m k1 s.
Proof. intros K. unfold bind. destruct (m s) as [[a|c|] s1]; auto. Qed.

Lemma rep_loop_more m r b fuel k : forall s,
  fst (rep_loop fuel m r b s) <> Ok None ->
  rep_loop (fuel + k) m r b s = rep_loop fuel m r b s.
Proof.
  induction fuel as [|fuel IH]; intros s; [intros E; now elim E|].
  cbn [Nat.add rep_loop].
  repeat lazymatch goal with
  | |- fst (bind _ _ _) <> _ -> _ => apply bind_more; intros ? ?
  | |- fst ((if ?c then _ else _) _) <> _ -> _ => destruct c
  end; auto.
Qed.

(** [k] rounds, each a step of the command and a count. *)
Definition rounds (step : DianaProcessor T -> DianaProcessor T) (k : nat) s : DianaProcessor T :=
  Nat.iter k (fun s => count_down (step s)) s.

(** The command steps, does not jump, and is repeated without a look at ZF. *)
Definition plain_step (m : MP T unit) (step : DianaProcessor T -> DianaProcessor T) s : Prop :=
  Call m s = (Ok tt, step s) /\ rip_changed (step s) = false /\
  has (m_stateFlags (step s)) DI_PROC_STATE_CMD_USES_NORMAL_REP = true.

Lemma rounds_shift step k s : rounds step k (count_down (step s)) = rounds step (S k) s.
Proof.
  induction k as [|k IH]; [reflexivity|].
  change (count_down (step (rounds step k (count_down (step s)))) =
          count_down (step (rounds step (S k) s))).
  now rewrite IH.
Qed.

Lemma rep_loop_rounds m r step : calm m -> counter_reg r ->
  forall k fuel s, ready s -> rval s r = Z.of_nat k -> (k < fuel)%nat ->
  (forall j, (j < k)%nat -> plain_step m step (rounds step j s)) ->
  rep_loop fuel m r false s = (Ok (Some tt), rounds step k s).
Proof.
  intros C Cr. induction k as [|k IH]; intros fuel s R Hc Hk St;
    (destruct fuel as [|fuel]; [lia|]); pose proof R as (W & _).
  - now rewrite rep_loop_zero.
  - assert (N : rval s r <> 0) by lia.
    destruct (St 0%nat ltac:(lia)) as (E & NR & NF). cbn in E, NR, NF.
    destruct (Call_rcx m s C R) as (R1 & E1). rewrite E in R1, E1. cbn [snd] in R1, E1.
    rewrite (rep_loop_round fuel m r false s _ C R Cr N E), NR.
    unfold rep_again. rewrite NF. cbn [orb].
    rewrite IH, rounds_shift; auto using ready_count_down; [|lia|].
    + pose proof R1 as (W1 & _).
      assert (Ec : rval (step s) r = rval s r)
        by (rewrite (counter_low r _ W1 Cr), (counter_low r s W Cr); now rewrite E1).
      rewrite count_down_counter; [rewrite Ec; lia|assumption|assumption|now rewrite Ec].
    + intros j Hj. rewrite rounds_shift. apply St. lia.
Qed.
End Repetition.

(** ** The steps *)

Section Steps.
Context {T : Type} `{RandomStreamOk T}.
Implicit Types s : DianaProcessor T.

(** A decoded string instruction with [k] operands. *)
Record stringy s (k : Z) : Prop := {
  sg_wf : wf s;
  sg_idle : idle s;
  sg_address : address_size s = 4 \/ address_size s = 8;
  sg_count : iLinkedOpCount (m_result s) = k;
  sg_size : opsize (usedSize (linked_op (m_result s) 0))
}.

Definition element s : Z := usedSize (linked_op (m_result s) 0).
Definition source_reg s : Z := if address_size s =? 8 then reg_RSI else reg_ESI.
Definition dest_reg s : Z := if address_size s =? 8 then reg_RDI else reg_EDI.
Definition source s : Z := rval s (source_reg s).
Definition dest s : Z := rval s (dest_reg s).

(** The direction flag decides where an index goes. *)
Definition advance s (a : Z) : Z :=
  if flag DF (m_flags s) then u64 (a - element s) else u64 (a + element s).

Definition normal_rep s : DianaProcessor T :=
  with_stateFlags (fun f => Z.lor f DI_PROC_STATE_CMD_USES_NORMAL_REP) s.

Lemma source_reg_gpr s : In (source_reg s) gprs.
Proof. unfold source_reg. destruct (_ =? _); gpr. Qed.
Lemma dest_reg_gpr s : In (dest_reg s) gprs.
Proof. unfold dest_reg. destruct (_ =? _); gpr. Qed.

Lemma seg_int r : In r segments -> int_reg r.
Proof. intros Hr. apply int_regs_ok. unfold int_regs. apply in_or_app. right. apply in_or_app. now left. Qed.

Lemma CalcIndex_reg seg r f b s :
  wf s -> flag_word f -> In seg segments -> In r gprs -> rsize r = address_size s ->
  address_size s = 4 \/ address_size s = 8 -> r <> reg_none -> r <> reg_RIP ->
  DianaProcessor_CalcIndex (index_of seg r) (tw f b s) = (Ok (rval s seg, rval s r), tw f b s).
Proof.
  intros W Hf Hs G Sz A N NR. unfold DianaProcessor_CalcIndex, index_of, context, result.
  cbn [reg indexed_reg index dispValue seg_reg].
  destruct (Z.eqb_spec r reg_none) as [|_]; [contradiction|]. cbn [negb].
  rewrite (bind_run _ _ _ _ _ (GET_REG_tw r f b s W Hf ltac:(auto with diana))).
  change (negb (0 =? reg_none)) with false. cbv iota. rewrite bind_ret, !bind_gets.
  change (m_context (tw f b s)) with (m_context s). fold (address_size s).
  destruct (Z.eqb_spec r reg_RIP) as [|_]; [contradiction|]. rewrite andb_false_r.
  rewrite Z.mul_0_r, !Z.add_0_r.
  pose proof (rval_range s r W ltac:(auto with diana)) as Hr. rewrite Sz in Hr.
  pose proof (GET_REG_tw seg f b s W Hf (seg_int seg Hs)) as Eg.
  destruct A as [A|A]; rewrite A in *; cbn [Z.eqb Pos.eqb].
  - rewrite bind_ret, (bind_run _ _ _ _ _ Eg). unfold ret. do 3 f_equal.
    change (modulus 4) with (2 ^ 32) in Hr. rewrite u64_small by lia.
    change 0xFFFFFFFF with (Z.ones 32). rewrite Z.land_ones by lia. now apply Z.mod_small.
  - rewrite bind_ret, (bind_run _ _ _ _ _ Eg). unfold ret. do 3 f_equal. now apply u64_small.
Qed.

Lemma CalcIndex_source f b s :
  wf s -> flag_word f -> address_size s = 4 \/ address_size s = 8 ->
  DianaProcessor_CalcIndex (index_of reg_DS (source_reg s)) (tw f b s) =
  (Ok (rval s reg_DS, source s), tw f b s).
Proof.
  intros W Hf A. unfold source. apply CalcIndex_reg; auto using source_reg_gpr;
    try (unfold source_reg; destruct A as [-> | ->]; vm_compute; congruence).
  vm_compute. tauto.
Qed.

Lemma CalcIndex_dest f b s :
  wf s -> flag_word f -> address_size s = 4 \/ address_size s = 8 ->
  DianaProcessor_CalcIndex (index_of reg_ES (dest_reg s)) (tw f b s) =
  (Ok (rval s reg_ES, dest s), tw f b s).
Proof.
  intros W Hf A. unfold dest. apply CalcIndex_reg; auto using dest_reg_gpr;
    try (unfold dest_reg; destruct A as [-> | ->]; vm_compute; congruence).
  vm_compute. tauto.
Qed.

Lemma PrepareSIDI_run (bSrc : bool) f b s :
  stringy s (if bSrc then 2 else 1) ->
  Di_PrepareSIDI_regs bSrc (tw f b s) =
  (Ok (if bSrc then index_of reg_DS (source_reg s) else zero_index, index_of reg_ES (dest_reg s)),
   tw f b s).
Proof.
  intros [W I A C Sz]. unfold Di_PrepareSIDI_regs, result, context. rewrite !bind_gets.
  change (m_result (tw f b s)) with (m_result s). rewrite C.
  change (m_context (tw f b s)) with (m_context s). fold (address_size s).
  replace (negb ((if bSrc then 2 else 1) =? (if bSrc then 2 else 1))) with false
    by now destruct bSrc.
  unfold source_reg, dest_reg. destruct A as [-> | ->]; now destruct bSrc.
Qed.

Lemma UpdateSIDI_run a c f b s :
  f = m_flags s -> Di_UpdateSIDI a c (tw f b s) = (Ok (advance s a, advance s c), tw f b s).
Proof.
  intros ->. unfold Di_UpdateSIDI, result. rewrite (bind_run _ _ _ _ _ (GET_DF_tw _ b s)), bind_gets.
  change (m_result (tw (m_flags s) b s)) with (m_result s). rewrite b2z_zero, negb_involutive.
  unfold advance, flag, element. now destruct (Z.testbit (m_flags s) DF).
Qed.

Lemma normal_rep_tw f b s :
  DianaProcessor_CmdUsesNormalRep (tw f b s) = (Ok tt, tw f b (normal_rep s)).
Proof. reflexivity. Qed.

Lemma normal_rep_psz s : psz_clear s -> psz_clear (normal_rep s).
Proof.
  unfold psz_clear, normal_rep. cbn [m_stateFlags with_stateFlags]. rewrite !psz_bit, Z.lor_spec.
  intros ->. reflexivity.
Qed.

Lemma normal_rep_has s : has (m_stateFlags (normal_rep s)) DI_PROC_STATE_CMD_USES_NORMAL_REP = true.
Proof.
  unfold normal_rep. cbn [m_stateFlags with_stateFlags].
  change DI_PROC_STATE_CMD_USES_NORMAL_REP with (2 ^ Z.log2 DI_PROC_STATE_CMD_USES_NORMAL_REP).
  rewrite has_pow2, Z.lor_spec, Z.pow2_bits_true by (vm_compute; discriminate). apply orb_true_r.
Qed.

Lemma normal_rep_idle s : idle s -> idle (normal_rep s).
Proof. intros (I1 & I2). split; [exact I1|now apply (normal_rep_psz s)]. Qed.

Lemma normal_rep_wf s : wf s -> wf (normal_rep s).
Proof. intros []. now constructor. Qed.

(** The registers after a step: both indexes have moved. *)
Definition moved_source s0 s : DianaProcessor T := put_register (source_reg s0) (advance s0 (source s0)) s.
Definition moved_dest s0 s : DianaProcessor T := put_register (dest_reg s0) (advance s0 (dest s0)) s.

(** [movs] of the element [v]. *)
Definition moved s (v : Z) : DianaProcessor T :=
  moved_dest s (moved_source s (normal_rep (put_memory (rval s reg_ES) (dest s) (element s) v reg_ES s))).

Lemma movs_run s v :
  stringy s 2 ->
  loads (m_pMemoryStream s) (rval s reg_DS) (source s) (element s) reg_DS v ->
  mapped (m_pMemoryStream s) (rval s reg_ES) (dest s) (element s) ->
  Call Diana_Call_movs s = (Ok tt, moved s v).
Proof.
  intros Sg L M. pose proof Sg as [W I A C Sz]. fold (element s) in Sz.
  pose proof (wf_flag_word s W) as Hf. pose proof (idle_psz_clear s I) as P.
  assert (Np : 0 < element s) by (pose proof (opsize_pos _ Sz); lia).
  assert (Sn : stringy (normal_rep s) 2).
  { constructor; auto using normal_rep_wf, normal_rep_idle. }
  pose proof (normal_rep_wf s W) as Wn. pose proof (normal_rep_psz s P) as Pn.
  apply Call_idle; [|reflexivity|exact (normal_rep_idle s I)].
  unfold Diana_Call_movs. rewrite (bind_run _ _ _ _ _ (normal_rep_tw _ _ s)).
  rewrite (bind_run _ _ _ _ _ (PrepareSIDI_run true _ _ _ Sn)).
  change (source_reg (normal_rep s)) with (source_reg s). change (dest_reg (normal_rep s)) with (dest_reg s).
  unfold dest_usedSize, result. rewrite bind_gets.
  change (usedSize (linked_op (m_result (tw (m_flags s) false (normal_rep s))) 0)) with (element s).
  unfold Diana_ProcessorGetOperand_index_ex. rewrite bind_bind.
  rewrite (bind_run _ _ _ _ _ (CalcIndex_source (m_flags s) false (normal_rep s) Wn Hf A)).
  rewrite bind_bind, (bind_run _ _ _ _ _ (GetMemValue_tw _ _ _ reg_DS v (m_flags s) false (normal_rep s) L)).
  rewrite bind_ret.
  rewrite (bind_run _ _ _ _ _ (CalcIndex_dest (m_flags s) false (normal_rep s) Wn Hf A)).
  rewrite (bind_run _ _ _ _ _
    (SetMemValue_tw _ _ _ v _ (m_flags s) false (normal_rep s) (wf_stream _ Wn) Np M)).
  set (s1 := put_memory (rval s reg_ES) (dest s) (element s) v reg_ES (normal_rep s)).
  assert (W1 : wf s1) by (apply wf_put_memory; auto).
  rewrite (bind_run _ _ _ _ _ (UpdateSIDI_run _ _ (m_flags s) false s1 eq_refl)).
  rewrite (bind_run _ _ _ _ _ (SET_REG_tw (source_reg s) _ (m_flags s) false s1 W1 Hf
             ltac:(auto using source_reg_gpr with diana) (gpr_not_rip _ (source_reg_gpr s)) Pn)).
  set (s2 := put_register _ _ s1).
  assert (W2 : wf s2) by (apply wf_put_register; auto using source_reg_gpr with diana).
  apply (SET_REG_tw (dest_reg s) _ (m_flags s) false s2 W2 Hf
             ltac:(auto using dest_reg_gpr with diana) (gpr_not_rip _ (dest_reg_gpr s)) Pn).
Qed.

(** The last stores of a step. *)
Lemma SET_source_tw s0 f b s :
  wf s -> flag_word f -> psz_clear s ->
  SET_REG (source_reg s0) (advance s0 (source s0)) (tw f b s) = (Ok tt, tw f b (moved_source s0 s)).
Proof.
  intros W Hf P. apply (SET_REG_tw (source_reg s0) _ f b s W Hf
    ltac:(auto using source_reg_gpr with diana) (gpr_not_rip _ (source_reg_gpr s0)) P).
Qed.

Lemma SET_dest_tw s0 f b s :
  wf s -> flag_word f -> psz_clear s ->
  SET_REG (dest_reg s0) (advance s0 (dest s0)) (tw f b s) = (Ok tt, tw f b (moved_dest s0 s)).
Proof.
  intros W Hf P. apply (SET_REG_tw (dest_reg s0) _ f b s W Hf
    ltac:(auto using dest_reg_gpr with diana) (gpr_not_rip _ (dest_reg_gpr s0)) P).
Qed.

Lemma wf_moved_source s0 s : wf s -> wf (moved_source s0 s).
Proof. intros W. apply wf_put_register; auto using source_reg_gpr with diana. Qed.

Lemma wf_moved_dest s0 s : wf s -> wf (moved_dest s0 s).
Proof. intros W. apply wf_put_register; auto using dest_reg_gpr with diana. Qed.

(** [stos]: the destination must be readable too. *)
Definition stored s : DianaProcessor T :=
  moved_dest s (normal_rep
    (put_memory (rval s reg_ES) (dest s) (element s) (window s reg_RAX (element s)) reg_ES s)).

Lemma stos_run s :
  stringy s 1 -> mapped (m_pMemoryStream s) (rval s reg_ES) (dest s) (element s) ->
  Call Diana_Call_stos s = (Ok tt, stored s).
Proof.
  intros Sg M. pose proof Sg as [W I A C Sz]. fold (element s) in Sz.
  pose proof (wf_flag_word s W) as Hf. pose proof (idle_psz_clear s I) as P.
  assert (Np : 0 < element s) by (pose proof (opsize_pos _ Sz); lia).
  pose proof (normal_rep_wf s W) as Wn. pose proof (normal_rep_psz s P) as Pn.
  assert (Sn : stringy (normal_rep s) 1) by (constructor; auto using normal_rep_wf, normal_rep_idle).
  destruct (mapped_loads _ _ _ _ reg_ES (wf_stream s W) Np M) as (old & L).
  apply Call_idle; [|reflexivity|exact (normal_rep_idle s I)].
  unfold Diana_Call_stos. rewrite (bind_run _ _ _ _ _ (normal_rep_tw _ _ s)).
  unfold dest_usedSize, result. rewrite bind_gets.
  change (usedSize (linked_op (m_result (tw (m_flags s) false (normal_rep s))) 0)) with (element s).
  rewrite (bind_run _ _ _ _ _ (GET_REG2_tw reg_RAX (element s) (m_flags s) false (normal_rep s) Wn Hf
             ltac:(apply int_regs_ok; vm_compute; tauto) Sz)).
  rewrite (bind_run _ _ _ _ _ (PrepareSIDI_run false _ _ _ Sn)).
  change (dest_reg (normal_rep s)) with (dest_reg s).
  unfold Diana_ProcessorGetOperand_index_ex2. rewrite bind_bind.
  rewrite (bind_run _ _ _ _ _ (CalcIndex_dest (m_flags s) false (normal_rep s) Wn Hf A)).
  rewrite bind_bind, (bind_run _ _ _ _ _ (GetMemValue_tw _ _ _ reg_ES old (m_flags s) false (normal_rep s) L)).
  rewrite bind_ret.
  rewrite (bind_run _ _ _ _ _
    (SetMemValue_tw _ _ _ (window s reg_RAX (element s)) reg_ES (m_flags s) false (normal_rep s)
       (wf_stream _ Wn) Np M)).
  set (s1 := put_memory (rval s reg_ES) (dest s) (element s) (window s reg_RAX (element s)) reg_ES (normal_rep s)).
  assert (W1 : wf s1) by (apply wf_put_memory; auto).
  rewrite (bind_run _ _ _ _ _ (UpdateSIDI_run _ _ (m_flags s) false s1 eq_refl)).
  now apply (SET_dest_tw s (m_flags s) false s1).
Qed.

(** [lods] reads through the segment of the instruction. *)
Definition loaded s (v : Z) : DianaProcessor T :=
  put_low reg_RSI (address_size s) (advance s (window s reg_RSI (address_size s)))
    (put_low reg_RAX (element s) v (normal_rep s)).

Lemma lods_run s v :
  wf s -> idle s -> opsize (element s) -> opsize (address_size s) ->
  In (currentCmd_sreg (m_context s)) segments ->
  loads (m_pMemoryStream s) (rval s (currentCmd_sreg (m_context s)))
    (window s reg_RSI (address_size s)) (element s) (currentCmd_sreg (m_context s)) v ->
  Call Diana_Call_lods s = (Ok tt, loaded s v).
Proof.
  intros W I Sz A Sg L. pose proof (wf_flag_word s W) as Hf. pose proof (idle_psz_clear s I) as P.
  pose proof (normal_rep_wf s W) as Wn. pose proof (normal_rep_psz s P) as Pn.
  assert (RA : int_reg reg_RAX) by (apply int_regs_ok; vm_compute; tauto).
  assert (RS : int_reg reg_RSI) by (apply int_regs_ok; vm_compute; tauto).
  apply Call_idle; [|reflexivity|exact (normal_rep_idle s I)].
  unfold Diana_Call_lods. rewrite (bind_run _ _ _ _ _ (normal_rep_tw _ _ s)).
  unfold dest_usedSize, result, context. rewrite !bind_gets.
  change (usedSize (linked_op (m_result (tw (m_flags s) false (normal_rep s))) 0)) with (element s).
  change (m_context (tw (m_flags s) false (normal_rep s))) with (m_context s). fold (address_size s).
  set (sg := currentCmd_sreg (m_context s)) in *.
  rewrite (bind_run _ _ _ _ _ (GET_REG2_tw reg_RSI _ (m_flags s) false (normal_rep s) Wn Hf RS A)).
  rewrite (bind_run _ _ _ _ _ (GET_REG_tw sg (m_flags s) false (normal_rep s) Wn Hf (seg_int sg Sg))).
  rewrite (bind_run _ _ _ _ _ (GetMemValue_tw _ _ _ sg v (m_flags s) false (normal_rep s) L)).
  rewrite (bind_run _ _ _ _ _ (SET_REG2_tw reg_RAX _ v (m_flags s) false (normal_rep s) Wn Hf RA Sz
             eq_refl Pn)).
  set (s1 := put_low _ _ _ (normal_rep s)).
  assert (W1 : wf s1) by (apply wf_put_low; auto).
  rewrite (bind_run _ _ _ _ _ (GET_DF_tw (m_flags s) false s1)).
  rewrite b2z_zero, negb_involutive.
  apply (SET_REG2_tw reg_RSI _ _ (m_flags s) false s1 W1 Hf RS A eq_refl Pn).
Qed.

(** *** Comparisons: the flags of [cmp], without a change of the operands *)

Lemma compare_tw s n d y f b :
  wf s -> flag_word f -> opsize n -> 0 <= d < modulus n -> 0 <= y < modulus n ->
  (DI_START_UPDATE_COA_FLAGS ;;; DianaProcessor_SetCOA_Sub d (u64 (d - y)) y n COA) (tw f b s) =
  (Ok tt, tw (set_coa (sub_CF d y 0) (sub_OF n d y 0) (sub_AF d y 0) f) b s).
Proof.
  intros W Hf Hn Hd Hy. rewrite (bind_run _ _ _ _ _ (START_COA_tw f b s Hf)).
  now apply SetCOA_Sub_tw.
Qed.

(** [cmps] compares the source element [x] with the destination element [y]. *)
Lemma cmps_run s x y :
  stringy s 2 ->
  loads (m_pMemoryStream s) (rval s reg_DS) (source s) (element s) reg_DS x ->
  loads (m_pMemoryStream s) (rval s reg_ES) (dest s) (element s) reg_ES y ->
  Call Diana_Call_cmps s =
  (Ok tt, with_flags (cmp_flags (element s) x y) (moved_dest s (moved_source s s))).
Proof.
  intros Sg Lx Ly. pose proof Sg as [W I A C Sz]. fold (element s) in Sz.
  pose proof (wf_flag_word s W) as Hf. pose proof (idle_psz_clear s I) as P.
  pose proof (loads_range _ _ _ _ _ _ Lx) as Hx. pose proof (loads_range _ _ _ _ _ _ Ly) as Hy.
  change (with_flags (cmp_flags (element s) x y) (moved_dest s (moved_source s s))) with
    (with_flags (fun _ => cmp_flags (element s) x y (m_flags s)) (moved_dest s (moved_source s s))).
  eapply (Call_tw _ _ _ _ _ false); [|exact I].
  set (f := m_flags s) in *. unfold Diana_Call_cmps.
  rewrite (bind_run _ _ _ _ _ (PrepareSIDI_run true f false s Sg)).
  unfold dest_usedSize, result. rewrite bind_gets.
  change (usedSize (linked_op (m_result (tw f false s)) 0)) with (element s).
  unfold Diana_ProcessorGetOperand_index_ex. rewrite bind_bind.
  rewrite (bind_run _ _ _ _ _ (CalcIndex_source f false s W Hf A)).
  rewrite bind_bind, (bind_run _ _ _ _ _ (GetMemValue_tw _ _ _ reg_DS x f false s Lx)).
  rewrite bind_ret, bind_bind, (bind_run _ _ _ _ _ (CalcIndex_dest f false s W Hf A)).
  rewrite bind_bind, (bind_run _ _ _ _ _ (GetMemValue_tw _ _ _ reg_ES y f false s Ly)).
  rewrite bind_ret, (bind_run _ _ _ _ _ (UpdateSIDI_run _ _ f false s eq_refl)). cbv zeta.
  rewrite <- bind_bind, (bind_run _ _ _ _ _ (compare_tw s (element s) x y f false W Hf Sz Hx Hy)).
  set (g := set_coa _ _ _ f). assert (Hg : flag_word g) by (apply flag_word_coa; exact Hf).
  cbn [reg index_of].
  rewrite (bind_run _ _ _ _ _ (SET_source_tw s g false s W Hg P)).
  rewrite (bind_run _ _ _ _ _ (SET_dest_tw s g false (moved_source s s) (wf_moved_source s s W) Hg P)).
  rewrite (UpdatePSZ_tw (element s) (u64 (x - y)) g false (moved_dest s (moved_source s s))
    Sz Hg P (u64_range _)).
  now rewrite set_psz_u64.
Qed.

(** [scas] compares the accumulator with the destination element [y]. *)
Lemma scas_run s y :
  stringy s 1 ->
  loads (m_pMemoryStream s) (rval s reg_ES) (dest s) (element s) reg_ES y ->
  Call Diana_Call_scas s =
  (Ok tt, with_flags (cmp_flags (element s) (window s reg_RAX (element s)) y) (moved_dest s s)).
Proof.
  intros Sg Ly. pose proof Sg as [W I A C Sz]. fold (element s) in Sz.
  pose proof (wf_flag_word s W) as Hf. pose proof (idle_psz_clear s I) as P.
  assert (RA : int_reg reg_RAX) by (apply int_regs_ok; vm_compute; tauto).
  pose proof (window_range s reg_RAX _ W RA Sz) as Hx.
  set (x := window s reg_RAX (element s)) in *. pose proof (loads_range _ _ _ _ _ _ Ly) as Hy.
  change (with_flags (cmp_flags (element s) x y) (moved_dest s s)) with
    (with_flags (fun _ => cmp_flags (element s) x y (m_flags s)) (moved_dest s s)).
  eapply (Call_tw _ _ _ _ _ false); [|exact I].
  set (f := m_flags s) in *. unfold Diana_Call_scas.
  unfold dest_usedSize, result. rewrite bind_gets.
  change (usedSize (linked_op (m_result (tw f false s)) 0)) with (element s).
  rewrite (bind_run _ _ _ _ _ (GET_REG2_tw reg_RAX (element s) f false s W Hf RA Sz)).
  fold x.
  rewrite (bind_run _ _ _ _ _ (PrepareSIDI_run false f false s Sg)).
  unfold Diana_ProcessorGetOperand_index_ex.
  rewrite bind_bind, (bind_run _ _ _ _ _ (CalcIndex_dest f false s W Hf A)).
  rewrite bind_bind, (bind_run _ _ _ _ _ (GetMemValue_tw _ _ _ reg_ES y f false s Ly)).
  rewrite bind_ret, (bind_run _ _ _ _ _ (UpdateSIDI_run _ _ f false s eq_refl)). cbv zeta.
  rewrite <- bind_bind, (bind_run _ _ _ _ _ (compare_tw s (element s) x y f false W Hf Sz Hx Hy)).
  set (g := set_coa _ _ _ f). assert (Hg : flag_word g) by (apply flag_word_coa; exact Hf).
  cbn [reg index_of].
  rewrite (bind_run _ _ _ _ _ (SET_dest_tw s g false s W Hg P)).
  rewrite (UpdatePSZ_tw (element s) (u64 (x - y)) g false (moved_dest s s) Sz Hg P (u64_range _)).
  now rewrite set_psz_u64.
Qed.
End Steps.

(** ** [rep stos] fills and [rep movs] copies *)

Section Blocks.
Context {T : Type} `{RandomStreamOk T}.
Implicit Types s : DianaProcessor T.

(** The counter of the address size. *)
Definition counter s : Z := if address_size s =? 8 then reg_RCX else reg_ECX.

Lemma counter_ok s : counter_reg (counter s).
Proof. unfold counter, counter_reg. destruct (_ =? _); auto. Qed.

Lemma CallWithRep_run fuel m b s :
  is_string_command (commandId (m_result s)) = true -> address_size s = 4 \/ address_size s = 8 ->
  CallWithRep fuel m b s = rep_loop fuel m (counter s) b s.
Proof.
  intros E A. unfold CallWithRep, result, context. rewrite bind_gets, E. cbn [negb].
  rewrite bind_gets. fold (address_size s). unfold counter. destruct A as [-> | ->]; reflexivity.
Qed.

(** What does not change from round to round. *)
Record same_instruction s0 s : Prop := {
  si_result : m_result s = m_result s0;
  si_context : m_context s = m_context s0;
  si_flags : m_flags s = m_flags s0;
  si_idle : idle s;
  si_rip : rip_changed s = false
}.

Lemma same_instruction_sizes s0 s : same_instruction s0 s ->
  element s = element s0 /\ address_size s = address_size s0 /\ dest_reg s = dest_reg s0 /\
  source_reg s = source_reg s0 /\ counter s = counter s0 /\ forall a, advance s a = advance s0 a.
Proof.
  intros [R C F _ _]. unfold element, dest_reg, source_reg, counter, advance, element, address_size.
  rewrite R, C, F. auto 10.
Qed.

Lemma rip_changed_normal_rep s : rip_changed (normal_rep s) = rip_changed s.
Proof.
  unfold rip_changed, normal_rep. cbn [m_stateFlags with_stateFlags].
  change DI_PROC_STATE_RIP_CHANGED with (2 ^ Z.log2 DI_PROC_STATE_RIP_CHANGED).
  rewrite !has_pow2, Z.lor_spec by (vm_compute; discriminate).
  change (Z.testbit DI_PROC_STATE_CMD_USES_NORMAL_REP (Z.log2 DI_PROC_STATE_RIP_CHANGED)) with false.
  apply orb_false_r.
Qed.

(** The index registers, the counter, the accumulator and the segments share no byte. *)
Lemma rval_apart r q v n s :
  wf s -> In r gprs -> int_reg q -> opsize n ->
  (roff r + 8 <= roff q \/ roff q + 8 <= roff r) -> window (put_register r v s) q n = window s q n.
Proof.
  intros W G Q Hn A. pose proof (opsize_pos n Hn).
  apply put_register_apart; auto with diana. lia.
Qed.

(** An upward index after a step. *)
Lemma advance_up s a :
  flag DF (m_flags s) = false -> opsize (address_size s) ->
  advance s a mod modulus (address_size s) = (a + element s) mod modulus (address_size s).
Proof. intros F A. unfold advance. rewrite F. now apply u64_mod. Qed.

(** After [j] of [k] rounds of [rep stos]. *)
Record filling s0 (k j : Z) s : Prop := {
  fl_stringy : stringy s 1;
  fl_opsize : opsize (op_size s);
  fl_same : same_instruction s0 s;
  fl_count : rval s (counter s0) = k - j;
  fl_dest : dest s = (dest s0 + j * element s0) mod modulus (address_size s0);
  fl_segment : rval s reg_ES = rval s0 reg_ES;
  fl_value : window s reg_RAX (element s0) = window s0 reg_RAX (element s0);
  fl_mapped : mapped (m_pMemoryStream s) (rval s0 reg_ES) (dest s0) (k * element s0);
  fl_done : forall i, 0 <= i < j ->
    loads (m_pMemoryStream s) (rval s0 reg_ES) (dest s0 + i * element s0) (element s0) reg_ES
      (window s0 reg_RAX (element s0))
}.

(** A block of [k] elements at [a] that does not run over the end of the address space. *)
Definition block_fits s (a k : Z) : Prop :=
  0 <= a /\ a + k * element s <= modulus (address_size s).

Lemma block_index s a k j :
  block_fits s a k -> 0 <= j < k -> 0 < element s ->
  (a + j * element s) mod modulus (address_size s) = a + j * element s.
Proof. intros (Ha & Hb) Hj He. apply Z.mod_small. nia. Qed.

Lemma same_instruction_step s0 s s' :
  same_instruction s0 s -> m_result s' = m_result s -> m_context s' = m_context s ->
  m_flags s' = m_flags s -> m_stateFlags s' = m_stateFlags (normal_rep s) ->
  m_stateFlagsToRemove s' = m_stateFlagsToRemove s -> same_instruction s0 s'.
Proof.
  intros [R C F I P] R' C' F' S' X'. constructor; try congruence.
  - destruct (normal_rep_idle s I) as (I1 & I2). split; [now rewrite X'|now rewrite S'].
  - unfold rip_changed. rewrite S'. fold (rip_changed (normal_rep s)). now rewrite rip_changed_normal_rep.
Qed.

Lemma dest_range s : wf s -> address_size s = 4 \/ address_size s = 8 -> 0 <= dest s < modulus (address_size s).
Proof.
  intros W A. unfold dest. replace (address_size s) with (rsize (dest_reg s)).
  - apply rval_range; auto using dest_reg_gpr with diana.
  - unfold dest_reg. destruct A as [-> | ->]; reflexivity.
Qed.

Lemma source_range s : wf s -> address_size s = 4 \/ address_size s = 8 -> 0 <= source s < modulus (address_size s).
Proof.
  intros W A. unfold source. replace (address_size s) with (rsize (source_reg s)).
  - apply rval_range; auto using source_reg_gpr with diana.
  - unfold source_reg. destruct A as [-> | ->]; reflexivity.
Qed.

Lemma filling_start s k :
  stringy s 1 -> opsize (op_size s) -> rip_changed s = false -> rval s (counter s) = k ->
  mapped (m_pMemoryStream s) (rval s reg_ES) (dest s) (k * element s) -> filling s k 0 s.
Proof.
  intros Sg O R C M. pose proof (opsize_pos _ (sg_size _ _ Sg)).
  constructor; auto; try lia.
  - constructor; auto. apply Sg.
  - rewrite Z.mul_0_l, Z.add_0_r. symmetry. apply Z.mod_small, dest_range; apply Sg.
Qed.

Lemma mapped_element s0 a k j t sel :
  stream_wf t -> 0 < element s0 -> 0 <= j < k ->
  mapped t sel a (k * element s0) -> mapped t sel (a + j * element s0) (element s0).
Proof. intros W He Hj M. apply (mapped_sub _ _ _ (k * element s0)); auto; nia. Qed.

(** A store to element [j] of a block leaves the elements below it alone. *)
Lemma put_element_apart s sel a n j i v seg seg' w :
  wf s -> opsize n -> 0 <= i < j -> (j + 1) * n <= 0x10000000000000000 ->
  mapped (m_pMemoryStream s) sel (a + j * n) n ->
  loads (m_pMemoryStream s) sel (a + i * n) n seg' w ->
  loads (m_pMemoryStream (put_memory sel (a + j * n) n v seg s)) sel (a + i * n) n seg' w.
Proof.
  intros W Hn Hi Hj M L. pose proof (opsize_pos n Hn). pose proof (wf_stream s W) as Ws.
  assert (Np : 0 < n) by lia.
  apply put_memory_apart; auto.
  pose proof (loads_mapped _ _ _ _ _ _ Ws Np L) as M'.
  replace (a + j * n) with (a + i * n + (j - i) * n) in * by ring.
  destruct (linear_apart _ sel (a + i * n) n ((j - i) * n) n Ws Np Np ltac:(nia) ltac:(nia) M' M); auto.
Qed.

Lemma dest_reg_size s : address_size s = 4 \/ address_size s = 8 -> rsize (dest_reg s) = address_size s.
Proof. unfold dest_reg. intros [-> | ->]; reflexivity. Qed.

Lemma source_reg_size s : address_size s = 4 \/ address_size s = 8 -> rsize (source_reg s) = address_size s.
Proof. unfold source_reg. intros [-> | ->]; reflexivity. Qed.

Lemma counter_size s : address_size s = 4 \/ address_size s = 8 -> rsize (counter s) = address_size s.
Proof. unfold counter. intros [-> | ->]; reflexivity. Qed.

Definition clear_of (r q : Z) : Prop := roff r + 8 <= roff q \/ roff q + 8 <= roff r.

(** The registers of a string instruction have eight bytes of their own each. *)
Lemma clear_dest s0 q : clear_of reg_RDI q -> clear_of (dest_reg s0) q.
Proof. unfold clear_of, dest_reg. now destruct (_ =? _). Qed.

Lemma clear_source s0 q : clear_of reg_RSI q -> clear_of (source_reg s0) q.
Proof. unfold clear_of, source_reg. now destruct (_ =? _). Qed.

Lemma window_count_down s q n :
  wf s -> int_reg q -> opsize n -> clear_of reg_RCX q -> window (count_down s) q n = window s q n.
Proof. intros W Q Hn A. apply rval_apart; auto using rcx_gpr. Qed.

Lemma window_moved_dest s0 s q n :
  wf s -> int_reg q -> opsize n -> clear_of reg_RDI q -> window (moved_dest s0 s) q n = window s q n.
Proof. intros W Q Hn A. apply rval_apart; auto using dest_reg_gpr. now apply clear_dest. Qed.

Lemma window_moved_source s0 s q n :
  wf s -> int_reg q -> opsize n -> clear_of reg_RSI q -> window (moved_source s0 s) q n = window s q n.
Proof. intros W Q Hn A. apply rval_apart; auto using source_reg_gpr. now apply clear_source. Qed.

Lemma clear_counter s0 r : clear_of r reg_RCX -> clear_of r (counter s0).
Proof. unfold clear_of, counter. now destruct (_ =? _). Qed.

Lemma wf_count_down s : wf s -> wf (count_down s).
Proof. intros W. apply wf_put_register; auto using rcx_gpr with diana. Qed.

Lemma dest_count_down s0 s :
  wf s -> rval (count_down s) (dest_reg s0) = rval s (dest_reg s0).
Proof.
  intros W. apply window_count_down; auto using dest_reg_gpr with diana.
  unfold clear_of, dest_reg. destruct (_ =? _); vm_compute; intuition discriminate.
Qed.

Lemma source_count_down s0 s :
  wf s -> rval (count_down s) (source_reg s0) = rval s (source_reg s0).
Proof.
  intros W. apply window_count_down; auto using source_reg_gpr with diana.
  unfold clear_of, source_reg. destruct (_ =? _); vm_compute; intuition discriminate.
Qed.

Ltac closed_regs :=
  lazymatch goal with
  | |- int_reg _ => apply int_regs_ok; vm_compute; tauto
  | |- clear_of _ _ => unfold clear_of; vm_compute; intuition discriminate
  | |- _ => assumption || (unfold opsize; vm_compute; auto; fail)
  end.

(** One round of [rep stos]. *)
Lemma filling_step s0 k j s :
  filling s0 k j s -> 0 <= j < k -> flag DF (m_flags s0) = false -> wf s0 ->
  block_fits s0 (dest s0) k ->
  plain_step Diana_Call_stos stored s /\ filling s0 k (j + 1) (count_down (stored s)).
Proof.
  intros [Sg O Sm Ct De Es Va Mp Dn] Hj F W0 B.
  destruct (same_instruction_sizes s0 s Sm) as (Ee & Ea & Ed & Er & Ec & Ev).
  pose proof Sg as [W I A C Sz]. fold (element s) in Sz. rewrite Ee in Sz.
  assert (Np : 0 < element s0) by (pose proof (opsize_pos _ Sz); lia).
  pose proof (block_index s0 _ k j B Hj Np) as Bi. rewrite Bi in De.
  assert (Mj : mapped (m_pMemoryStream s) (rval s reg_ES) (dest s) (element s)).
  { rewrite Es, De, Ee. apply (mapped_element s0 _ k); auto. apply (wf_stream s W). }
  pose proof (stos_run s Sg Mj) as E.
  assert (Sf : m_stateFlags (stored s) = m_stateFlags (normal_rep s)) by reflexivity.
  split.
  { split; [exact E|]. split; [|rewrite Sf; apply normal_rep_has].
    unfold rip_changed. rewrite Sf. fold (rip_changed (normal_rep s)).
    rewrite rip_changed_normal_rep. apply Sm. }
  set (s1 := normal_rep (put_memory (rval s reg_ES) (dest s) (element s) (window s reg_RAX (element s)) reg_ES s)).
  assert (W1 : wf s1). { apply normal_rep_wf, wf_put_memory; auto. now rewrite Ee. }
  change (stored s) with (moved_dest s s1) in *.
  pose proof (wf_moved_dest s s1 W1) as W2. set (s2 := moved_dest s s1) in *.
  assert (Sn : same_instruction s0 (count_down s2))
    by (apply (same_instruction_step s0 s); auto).
  assert (RC : int_reg (counter s0)) by (destruct (counter_ok s0) as [->|[->| ->]]; auto using rcx_gpr with diana; apply int_regs_ok; vm_compute; tauto).
  constructor.
  - constructor; auto using wf_count_down; [apply Sn|apply (sg_size s 1 Sg)].
  - exact O.
  - exact Sn.
  - assert (Hc : rval s2 (counter s0) = k - j).
    { rewrite <- Ct. apply window_moved_dest; auto; [apply (ir_size _ RC)|].
      apply clear_counter. vm_compute. intuition discriminate. }
    rewrite count_down_counter; auto using counter_ok; rewrite Hc; lia.
  - change (dest (count_down s2)) with (rval (count_down s2) (dest_reg s)).
    rewrite dest_count_down by assumption. unfold s2, moved_dest.
    rewrite put_register_same by (assumption || apply dest_reg_gpr).
    rewrite (dest_reg_size s A), (advance_up s) by (rewrite ?(si_flags _ _ Sm); auto; unfold opsize; lia).
    rewrite De, Ea, Ee. f_equal. ring.
  - rewrite <- Es. unfold rval. rewrite window_count_down by closed_regs.
    apply (window_moved_dest s s1); closed_regs.
  - rewrite <- Va. rewrite window_count_down by closed_regs. apply (window_moved_dest s s1); closed_regs.
  - change (m_pMemoryStream (count_down s2)) with
      (m_pMemoryStream (put_memory (rval s reg_ES) (dest s) (element s) (window s reg_RAX (element s)) reg_ES s)).
    apply put_memory_mapped; auto. now rewrite Ee.
  - change (m_pMemoryStream (count_down s2)) with
      (m_pMemoryStream (put_memory (rval s reg_ES) (dest s) (element s) (window s reg_RAX (element s)) reg_ES s)).
    intros i Hi. rewrite Es, De, Ee, Va in *.
    destruct (Z.eq_dec i j) as [->|N].
    + rewrite <- (Z.mod_small (window s0 reg_RAX (element s0)) (modulus (element s0))) at 2
        by (apply window_range; closed_regs).
      apply put_memory_same; auto.
    + apply put_element_apart; auto; [lia| |apply Dn; lia].
      destruct B as (B1 & B2). pose proof (modulus_word (address_size s0)). unfold opsize in *. nia.
Qed.

Lemma filling_rounds s0 k :
  filling s0 k 0 s0 -> flag DF (m_flags s0) = false -> block_fits s0 (dest s0) k ->
  forall j, (Z.of_nat j <= k) -> filling s0 k (Z.of_nat j) (rounds stored j s0).
Proof.
  intros F0 F B. pose proof (sg_wf _ _ (fl_stringy _ _ _ _ F0)) as W0.
  induction j as [|j IH]; intros Hj; [exact F0|].
  replace (Z.of_nat (S j)) with (Z.of_nat j + 1) by lia.
  apply filling_step; auto; [apply IH|]; lia.
Qed.

(** [rep stos] makes as many steps as the counter says: the counter ends at 0, the index behind
    the block, and every element of the block holds the accumulator. *)
Lemma rep_stos_fills s k fuel :
  stringy s 1 -> opsize (op_size s) -> commandId (m_result s) = diana_cmd_stos ->
  rip_changed s = false -> flag DF (m_flags s) = false ->
  rval s (counter s) = k -> k < Z.of_nat fuel -> block_fits s (dest s) k ->
  mapped (m_pMemoryStream s) (rval s reg_ES) (dest s) (k * element s) ->
  exists s',
    CallWithRep fuel Diana_Call_stos false s = (Ok (Some tt), s') /\
    rval s' (counter s) = 0 /\
    dest s' = (dest s + k * element s) mod modulus (address_size s) /\
    forall i, 0 <= i < k ->
      loads (m_pMemoryStream s') (rval s reg_ES) (dest s + i * element s) (element s) reg_ES
        (window s reg_RAX (element s)).
Proof.
  intros Sg O Cm R F Ck Hf B M. pose proof Sg as [W I A C Sz].
  assert (Hk : 0 <= k).
  { rewrite <- Ck. destruct (counter_ok s) as [->|[->| ->]]; apply rval_range; auto;
      apply int_regs_ok; vm_compute; tauto. }
  pose proof (filling_start s k Sg O R Ck M) as F0.
  pose proof (filling_rounds s k F0 F B) as Fl.
  exists (rounds stored (Z.to_nat k) s). split.
  - rewrite CallWithRep_run by (assumption || now rewrite Cm).
    apply rep_loop_rounds; auto using counter_ok.
    + apply calm_string. unfold string_handlers. cbn [In]. auto 6.
    + split; auto.
    + lia.
    + lia.
    + intros j Hj. apply (filling_step s k (Z.of_nat j)); auto; [apply Fl|]; lia.
  - specialize (Fl (Z.to_nat k) ltac:(lia)). rewrite Z2Nat.id in Fl by lia.
    destruct Fl as [_ _ _ Ct De _ _ _ Dn]. rewrite Ct, De. split; [lia|]. split; [reflexivity|exact Dn].
Qed.

(** *** [rep movs] *)

(** After [j] of [k] rounds; [v] gives the source elements. *)
Record copying s0 (k : Z) (v : Z -> Z) (j : Z) s : Prop := {
  cp_stringy : stringy s 2;
  cp_opsize : opsize (op_size s);
  cp_same : same_instruction s0 s;
  cp_count : rval s (counter s0) = k - j;
  cp_source : source s = (source s0 + j * element s0) mod modulus (address_size s0);
  cp_dest : dest s = (dest s0 + j * element s0) mod modulus (address_size s0);
  cp_es : rval s reg_ES = rval s0 reg_ES;
  cp_ds : rval s reg_DS = rval s0 reg_DS;
  cp_linear : forall sel a, linear (m_pMemoryStream s) sel a = linear (m_pMemoryStream s0) sel a;
  cp_mapped : mapped (m_pMemoryStream s) (rval s0 reg_ES) (dest s0) (k * element s0);
  cp_todo : forall i, 0 <= i < k ->
    loads (m_pMemoryStream s) (rval s0 reg_DS) (source s0 + i * element s0) (element s0) reg_DS (v i);
  cp_done : forall i, 0 <= i < j ->
    loads (m_pMemoryStream s) (rval s0 reg_ES) (dest s0 + i * element s0) (element s0) reg_ES (v i)
}.

(** No element of the source overlaps one of the destination. *)
Definition separate s (k : Z) : Prop :=
  forall i j, 0 <= i < k -> 0 <= j < k ->
  let p := linear (m_pMemoryStream s) (rval s reg_DS) (source s + i * element s) in
  let q := linear (m_pMemoryStream s) (rval s reg_ES) (dest s + j * element s) in
  q + element s <= p \/ p + element s <= q.

Lemma put_memory_linear s sel addr n v seg sel' a :
  wf s -> 0 < n -> mapped (m_pMemoryStream s) sel addr n ->
  linear (m_pMemoryStream (put_memory sel addr n v seg s)) sel' a = linear (m_pMemoryStream s) sel' a.
Proof.
  intros W Hn M. destruct (stream_store _ sel addr n v seg (wf_stream s W) Hn M) as (t' & E & _ & L & _).
  cbn [put_memory with_pMemoryStream m_pMemoryStream]. now rewrite E.
Qed.

(** The element that is next: read from the source, and its place in the destination. *)
Lemma copying_here s0 k v j s :
  copying s0 k v j s -> 0 <= j < k -> block_fits s0 (dest s0) k -> block_fits s0 (source s0) k ->
  dest s = dest s0 + j * element s0 /\ source s = source s0 + j * element s0 /\
  mapped (m_pMemoryStream s) (rval s reg_ES) (dest s) (element s) /\
  loads (m_pMemoryStream s) (rval s reg_DS) (source s) (element s) reg_DS (v j) /\
  0 < element s0.
Proof.
  intros [Sg O Sm Ct So De Es Ds Li Mp Td Dn] Hj B Bs.
  destruct (same_instruction_sizes s0 s Sm) as (Ee & _).
  pose proof Sg as [W _ _ _ Sz]. fold (element s) in Sz. rewrite Ee in Sz.
  assert (Np : 0 < element s0) by (pose proof (opsize_pos _ Sz); lia).
  rewrite (block_index s0 _ k j B Hj Np) in De. rewrite (block_index s0 _ k j Bs Hj Np) in So.
  split; [exact De|]. split; [exact So|]. split; [|split; [|exact Np]].
  - rewrite Es, De, Ee. apply (mapped_element s0 _ k); auto. apply (wf_stream s W).
  - rewrite Ds, So, Ee. now apply Td.
Qed.

(** The step of the element that the counter stands for. *)
Definition copy_step (k : Z) (v : Z -> Z) s : DianaProcessor T := moved s (v (k - rval s (counter s))).

Lemma copy_step_now s0 k v j s : copying s0 k v j s -> copy_step k v s = moved s (v j).
Proof.
  intros Cp. destruct (same_instruction_sizes s0 s (cp_same _ _ _ _ _ Cp)) as (_ & _ & _ & _ & Ec & _).
  unfold copy_step. rewrite Ec, (cp_count _ _ _ _ _ Cp). do 2 f_equal. lia.
Qed.

Lemma copying_plain s0 k v j s :
  copying s0 k v j s -> 0 <= j < k -> block_fits s0 (dest s0) k -> block_fits s0 (source s0) k ->
  plain_step Diana_Call_movs (copy_step k v) s.
Proof.
  intros Cp Hj B Bs. destruct (copying_here s0 k v j s Cp Hj B Bs) as (_ & _ & M & L & _).
  unfold plain_step. rewrite (copy_step_now s0 k v j s Cp).
  assert (Sf : m_stateFlags (moved s (v j)) = m_stateFlags (normal_rep s)) by reflexivity.
  split; [apply (movs_run s (v j) (cp_stringy _ _ _ _ _ Cp) L M)|]. split.
  - unfold rip_changed. rewrite Sf. fold (rip_changed (normal_rep s)).
    rewrite rip_changed_normal_rep. apply (cp_same _ _ _ _ _ Cp).
  - rewrite Sf. apply normal_rep_has.
Qed.

(** The registers after a step and a count. *)
Lemma moved_rval s v q :
  wf (normal_rep (put_memory (rval s reg_ES) (dest s) (element s) v reg_ES s)) ->
  int_reg q -> clear_of reg_RCX q -> clear_of reg_RSI q -> clear_of reg_RDI q ->
  rval (count_down (moved s v)) q = rval s q.
Proof.
  intros W1 Q Q1 Q2 Q3. pose proof (ir_size q Q). unfold rval, moved.
  pose proof (wf_moved_source s _ W1) as W3. pose proof (wf_moved_dest s _ W3) as W4.
  rewrite window_count_down by assumption. rewrite window_moved_dest by assumption.
  now rewrite window_moved_source.
Qed.

Lemma moved_indexes s v :
  wf (normal_rep (put_memory (rval s reg_ES) (dest s) (element s) v reg_ES s)) ->
  address_size s = 4 \/ address_size s = 8 -> flag DF (m_flags s) = false ->
  dest (count_down (moved s v)) = (dest s + element s) mod modulus (address_size s) /\
  source (count_down (moved s v)) = (source s + element s) mod modulus (address_size s) /\
  rval (moved s v) (counter s) = rval s (counter s).
Proof.
  intros W1 A F. pose proof (wf_moved_source s _ W1) as W3. pose proof (wf_moved_dest s _ W3) as W4.
  assert (Ho : opsize (address_size s)) by (unfold opsize; lia).
  change (dest (count_down (moved s v))) with (rval (count_down (moved s v)) (dest_reg s)).
  change (source (count_down (moved s v))) with (rval (count_down (moved s v)) (source_reg s)).
  rewrite dest_count_down, source_count_down by exact W4. unfold moved. split; [|split].
  - unfold moved_dest. rewrite put_register_same by (assumption || apply dest_reg_gpr).
    now rewrite (dest_reg_size s A), (advance_up s).
  - unfold rval at 1. rewrite window_moved_dest; auto using source_reg_gpr with diana.
    + unfold moved_source. fold (rval (put_register (source_reg s) (advance s (source s))
        (normal_rep (put_memory (rval s reg_ES) (dest s) (element s) v reg_ES s))) (source_reg s)).
      rewrite put_register_same by (assumption || apply source_reg_gpr).
      now rewrite (source_reg_size s A), (advance_up s).
    + unfold clear_of, source_reg. destruct (_ =? _); vm_compute; intuition discriminate.
  - assert (RC : int_reg (counter s))
      by (destruct (counter_ok s) as [->|[->| ->]]; apply int_regs_ok; vm_compute; tauto).
    pose proof (ir_size _ RC). unfold rval at 1.
    rewrite window_moved_dest; auto; [|apply clear_counter; closed_regs].
    rewrite window_moved_source; auto. apply clear_counter. closed_regs.
Qed.

Lemma copying_step s0 k v j s :
  copying s0 k v j s -> 0 <= j < k -> flag DF (m_flags s0) = false -> wf s0 ->
  block_fits s0 (dest s0) k -> block_fits s0 (source s0) k -> separate s0 k ->
  copying s0 k v (j + 1) (count_down (moved s (v j))).
Proof.
  intros Cp Hj F W0 B Bs Sp.
  destruct (copying_here s0 k v j s Cp Hj B Bs) as (De & So & M & L & Np).
  destruct Cp as [Sg O Sm Ct _ _ Es Ds Li Mp Td Dn].
  destruct (same_instruction_sizes s0 s Sm) as (Ee & Ea & _ & _ & Ec & _).
  pose proof Sg as [W I A C Sz]. fold (element s) in Sz. rewrite Ee in Sz.
  set (sm := put_memory (rval s reg_ES) (dest s) (element s) (v j) reg_ES s).
  assert (W1 : wf (normal_rep sm)) by (apply normal_rep_wf, wf_put_memory; auto; now rewrite Ee).
  assert (W4 : wf (moved s (v j))) by (apply wf_moved_dest, wf_moved_source, W1).
  assert (Fs : flag DF (m_flags s) = false) by now rewrite (si_flags _ _ Sm).
  destruct (moved_indexes s (v j) W1 A Fs) as (Dn' & Sn' & Cn').
  assert (Sn : same_instruction s0 (count_down (moved s (v j))))
    by (apply (same_instruction_step s0 s); auto).
  constructor; change (m_pMemoryStream (count_down (moved s (v j)))) with (m_pMemoryStream sm).
  - constructor; auto using wf_count_down; [apply Sn|apply (sg_size s 2 Sg)].
  - exact O.
  - exact Sn.
  - rewrite <- Ec in *. rewrite count_down_counter; auto using counter_ok; rewrite Cn', Ct; lia.
  - rewrite Sn', So, Ee, Ea. f_equal. ring.
  - rewrite Dn', De, Ee, Ea. f_equal. ring.
  - rewrite <- Es. apply moved_rval; closed_regs.
  - rewrite <- Ds. apply moved_rval; closed_regs.
  - intros sel a. rewrite <- Li. apply put_memory_linear; auto. now rewrite Ee.
  - apply put_memory_mapped; auto. now rewrite Ee.
  - intros i Hi. unfold sm. rewrite Es, De, Ee in *. apply put_memory_apart; auto.
    cbv zeta. rewrite !Li. now apply Sp.
  - intros i Hi. unfold sm. rewrite Es, De, Ee in *. destruct (Z.eq_dec i j) as [->|N].
    + pose proof (put_memory_same s _ _ _ (v j) reg_ES reg_ES W Np M) as R.
      rewrite Z.mod_small in R by (apply (loads_range _ _ _ _ _ _ L)). exact R.
    + apply put_element_apart; auto; [lia| |apply Dn; lia].
      destruct B as (B1 & B2). pose proof (modulus_word (address_size s0)). unfold opsize in *. nia.
Qed.

Lemma copying_start s k v :
  stringy s 2 -> opsize (op_size s) -> rip_changed s = false -> rval s (counter s) = k ->
  mapped (m_pMemoryStream s) (rval s reg_ES) (dest s) (k * element s) ->
  (forall i, 0 <= i < k ->
    loads (m_pMemoryStream s) (rval s reg_DS) (source s + i * element s) (element s) reg_DS (v i)) ->
  copying s k v 0 s.
Proof.
  intros Sg O R C M L. constructor; auto; try lia.
  - constructor; auto. apply Sg.
  - rewrite Z.mul_0_l, Z.add_0_r. symmetry. apply Z.mod_small, source_range; apply Sg.
  - rewrite Z.mul_0_l, Z.add_0_r. symmetry. apply Z.mod_small, dest_range; apply Sg.
Qed.

Lemma copying_rounds s0 k v :
  copying s0 k v 0 s0 -> flag DF (m_flags s0) = false ->
  block_fits s0 (dest s0) k -> block_fits s0 (source s0) k -> separate s0 k ->
  forall j, Z.of_nat j <= k -> copying s0 k v (Z.of_nat j) (rounds (copy_step k v) j s0).
Proof.
  intros C0 F B Bs Sp. pose proof (sg_wf _ _ (cp_stringy _ _ _ _ _ C0)) as W0.
  induction j as [|j IH]; intros Hj; [exact C0|].
  replace (Z.of_nat (S j)) with (Z.of_nat j + 1) by lia.
  change (rounds (copy_step k v) (S j) s0)
    with (count_down (copy_step k v (rounds (copy_step k v) j s0))).
  rewrite (copy_step_now s0 k v (Z.of_nat j)) by (apply IH; lia).
  apply copying_step; auto; [apply IH|]; lia.
Qed.

(** [rep movs] copies a block to a place that does not overlap it. *)
Lemma rep_movs_copies s k v fuel :
  stringy s 2 -> opsize (op_size s) -> commandId (m_result s) = diana_cmd_movs ->
  rip_changed s = false -> flag DF (m_flags s) = false ->
  rval s (counter s) = k -> k < Z.of_nat fuel ->
  block_fits s (dest s) k -> block_fits s (source s) k -> separate s k ->
  mapped (m_pMemoryStream s) (rval s reg_ES) (dest s) (k * element s) ->
  (forall i, 0 <= i < k ->
    loads (m_pMemoryStream s) (rval s reg_DS) (source s + i * element s) (element s) reg_DS (v i)) ->
  exists s',
    CallWithRep fuel Diana_Call_movs false s = (Ok (Some tt), s') /\
    rval s' (counter s) = 0 /\
    source s' = (source s + k * element s) mod modulus (address_size s) /\
    dest s' = (dest s + k * element s) mod modulus (address_size s) /\
    forall i, 0 <= i < k ->
      loads (m_pMemoryStream s') (rval s reg_ES) (dest s + i * element s) (element s) reg_ES (v i).
Proof.
  intros Sg O Cm R F Ck Hf B Bs Sp M L. pose proof Sg as [W I A C Sz].
  assert (Hk : 0 <= k).
  { rewrite <- Ck. destruct (counter_ok s) as [->|[->| ->]]; apply rval_range; auto;
      apply int_regs_ok; vm_compute; tauto. }
  pose proof (copying_start s k v Sg O R Ck M L) as C0.
  pose proof (copying_rounds s k v C0 F B Bs Sp) as Cp.
  exists (rounds (copy_step k v) (Z.to_nat k) s). split.
  - rewrite CallWithRep_run by (assumption || now rewrite Cm).
    apply rep_loop_rounds; auto using counter_ok.
    + apply calm_string. unfold string_handlers. cbn [In]. auto 6.
    + split; auto.
    + lia.
    + lia.
    + intros j Hj. apply (copying_plain s k v (Z.of_nat j)); auto; [apply Cp|]; lia.
  - specialize (Cp (Z.to_nat k) ltac:(lia)). rewrite Z2Nat.id in Cp by lia.
    destruct Cp as [_ _ _ Ct So De _ _ _ _ _ Dn]. rewrite Ct, So, De.
    split; [lia|]. auto.
Qed.

(** A repetition ends after at most as many rounds as RCX says, whatever the memory does, and
    leaves the processor ready for the next instruction. *)
Lemma CallWithRep_ends m fuel b s :
  In m string_handlers -> ready s -> rval s reg_RCX < Z.of_nat fuel ->
  fst (CallWithRep fuel m b s) <> Ok None /\ ready (snd (CallWithRep fuel m b s)).
Proof.
  intros Hm R Hf. pose proof (calm_string m Hm) as C. pose proof R as (W & _).
  unfold CallWithRep, result, context. rewrite bind_gets.
  destruct (negb _).
  { destruct (Call_rcx m s C R) as (R1 & _). unfold bind.
    destruct (Call m s) as [[[]|c|] s1]; cbn in *; split; auto; discriminate. }
  rewrite bind_gets.
  assert (L : forall r, counter_reg r ->
    fst (rep_loop fuel m r b s) <> Ok None /\ ready (snd (rep_loop fuel m r b s))).
  { intros r Cr. apply rep_loop_ends; auto. rewrite (counter_low r s W Cr).
    assert (RC : int_reg r) by (auto using counter_gpr with diana).
    pose proof (opsize_pos _ (ir_size r RC)). pose proof (modulus_pos (rsize r) ltac:(lia)).
    pose proof (rval_range s reg_RCX W ltac:(auto using rcx_gpr with diana)).
    pose proof (Z.mod_le (rval s reg_RCX) (modulus (rsize r)) ltac:(lia) ltac:(lia)). lia. }
  unfold counter_reg in L.
  repeat match goal with |- context [if ?c then rep_loop _ _ _ _ else _] => destruct c; [apply L; auto|] end.
  cbn. split; [discriminate|exact R].
Qed.

(** With enough fuel the result does not depend on it. *)
Lemma CallWithRep_more m fuel k b s :
  fst (CallWithRep fuel m b s) <> Ok None ->
  CallWithRep (fuel + k) m b s = CallWithRep fuel m b s.
Proof.
  unfold CallWithRep, result, context. rewrite !bind_gets.
  destruct (negb _); [reflexivity|]. rewrite !bind_gets.
  repeat (destruct (_ =? _); [apply rep_loop_more|]). reflexivity.
Qed.

Lemma CallWithRep_fuel m f1 f2 b s :
  In m string_handlers -> ready s -> rval s reg_RCX < Z.of_nat f1 -> rval s reg_RCX < Z.of_nat f2 ->
  CallWithRep f1 m b s = CallWithRep f2 m b s.
Proof.
  intros Hm R H1 H2. destruct (Nat.le_ge_cases f1 f2) as [L|L].
  - replace f2 with (f1 + (f2 - f1))%nat by lia. symmetry. apply CallWithRep_more.
    now apply CallWithRep_ends.
  - replace f1 with (f2 + (f1 - f2))%nat by lia. apply CallWithRep_more.
    now apply CallWithRep_ends.
Qed.
End Blocks.
