(* ===== verification/BitProofs.v ===== *)
(** Bit scans, counts, [pdep]/[pext] and byte swaps: the loops compute what their instructions
    promise, [pdep] and [pext] undo each other, [bswap] and [movbe] reverse the bytes; and the handlers
    that use them. *)

From Stdlib Require Import ZArith Lia List Bool.
Import ListNotations.
From S2P Require Import Prelude Words Status Registers ProcStreams Processor CmdInternal CmdLogic.
From S2P Require Import CmdBits CmdString ProcessorInit State Exec Operands Rules.
From S2P Require Import ArithProofs Loops LogicProofs RegisterProofs FlowProofs StackProofs.
Local Open Scope Z_scope.
Local Open Scope diana_scope.

(** ** The lowest and the highest set bit *)

(** [i] is the lowest set bit of [x]. *)
Definition lowest_bit (x i : Z) : Prop :=
  0 <= i /\ Z.testbit x i = true /\ forall j, 0 <= j < i -> Z.testbit x j = false.

Lemma has_bit x i : 0 <= i -> has (2 ^ i) x = Z.testbit x i.
Proof. intros Hi. rewrite has_comm. now apply has_pow2. Qed.

Lemma u64_shiftl_pow2 i : 0 <= i < 63 -> u64 (Z.shiftl (2 ^ i) 1) = 2 ^ (i + 1).
Proof.
  intros Hi. rewrite Z.shiftl_mul_pow2 by lia. change (2 ^ 1) with 2.
  replace (2 ^ i * 2) with (2 ^ (i + 1)) by (rewrite Z.pow_add_r by lia; reflexivity).
  apply u64_small. split; [apply Z.pow_nonneg; lia|].
  change 0x10000000000000000 with (2 ^ 64). apply Z.pow_lt_mono_r; lia.
Qed.

Lemma bsf_loop_spec x n : forall i,
  0 <= i -> i + Z.of_nat n = 64 -> 0 < x < 2 ^ 64 -> (forall j, 0 <= j < i -> Z.testbit x j = false) ->
  lowest_bit x (bsf_loop n i (2 ^ i) x).
Proof.
  induction n as [|n IH]; intros i Hi Hn Hx L; cbn [bsf_loop].
  - exfalso. assert (x = 0); [|lia]. apply Z.bits_inj'. intros k Hk. rewrite Z.bits_0.
    destruct (Z.ltb_spec k 64); [apply L; lia|]. apply (testbit_ge x 64); lia.
  - rewrite has_bit by lia. destruct (Z.testbit x i) eqn:B.
    + split; [exact Hi|]. now split.
    + assert (L' : forall j, 0 <= j < i + 1 -> Z.testbit x j = false).
      { intros j Hj. destruct (Z.eq_dec j i) as [->|]; [exact B|apply L; lia]. }
      destruct n as [|n].
      * exfalso. assert (x = 0); [|lia]. apply Z.bits_inj'. intros k Hk. rewrite Z.bits_0.
        destruct (Z.ltb_spec k 64); [apply L'; lia|]. apply (testbit_ge x 64); lia.
      * rewrite u64_shiftl_pow2 by lia. apply IH; auto; lia.
Qed.

Lemma bsr_loop_spec x n : forall i,
  i = Z.of_nat n - 1 -> 0 < x -> (forall j, i < j -> Z.testbit x j = false) ->
  bsr_loop n i (if i <? 0 then 0 else 2 ^ i) x = Z.log2 x.
Proof.
  induction n as [|n IH]; intros i -> Hx L; cbn [bsr_loop].
  - exfalso. pose proof (Z.log2_nonneg x). specialize (L (Z.log2 x) ltac:(lia)).
    rewrite Z.bit_log2 in L by lia. discriminate.
  - destruct (Z.ltb_spec (Z.of_nat (S n) - 1) 0); [lia|].
    set (i := Z.of_nat (S n) - 1) in *. rewrite has_bit by lia.
    destruct (Z.testbit x i) eqn:B.
    + symmetry. apply Z.log2_unique; [lia|].
      pose proof (bits_bound x (i + 1) ltac:(lia) ltac:(intros j Hj; apply L; lia)) as U.
      replace (Z.succ i) with (i + 1) by lia.
      destruct (Z.leb_spec (2 ^ i) x) as [G|G]; [lia|].
      exfalso. rewrite (testbit_ge x i i) in B by lia. discriminate.
    + assert (L' : forall j, i - 1 < j -> Z.testbit x j = false).
      { intros j Hj. destruct (Z.eq_dec j i) as [->|]; [exact B|apply L; lia]. }
      rewrite <- (IH (i - 1)) by (auto; unfold i; lia). f_equal.
      rewrite Z.shiftr_div_pow2 by lia. change (2 ^ 1) with 2.
      destruct (Z.ltb_spec (i - 1) 0).
      * replace i with 0 by lia. reflexivity.
      * replace i with (i - 1 + 1) at 1 by lia. rewrite Z.pow_add_r by lia. now apply Z.div_mul.
Qed.

(** ** Counts *)

(** The number of set bits of [x] below [n]. *)
Fixpoint ones_below (n : nat) (x : Z) : Z :=
  match n with
  | O => 0
  | S n => ones_below n x + Z.b2z (Z.testbit x (Z.of_nat n))
  end.

Lemma ones_below_range n x : 0 <= ones_below n x <= Z.of_nat n.
Proof. induction n as [|n IH]; cbn [ones_below]; [lia|]. destruct (Z.testbit x _); cbn; lia. Qed.

Lemma ones_below_ext n x y :
  (forall i, 0 <= i < Z.of_nat n -> Z.testbit x i = Z.testbit y i) -> ones_below n x = ones_below n y.
Proof.
  induction n as [|n IH]; intros E; [reflexivity|]. cbn [ones_below].
  rewrite IH by (intros; apply E; lia). now rewrite (E (Z.of_nat n)) by lia.
Qed.

Lemma ones_below_flip n x y k :
  0 <= k < Z.of_nat n -> Z.testbit x k = true -> Z.testbit y k = false ->
  (forall i, 0 <= i < Z.of_nat n -> i <> k -> Z.testbit x i = Z.testbit y i) ->
  ones_below n x = ones_below n y + 1.
Proof.
  induction n as [|n IH]; intros Hk Hx Hy E; [lia|]. cbn [ones_below].
  destruct (Z.eq_dec k (Z.of_nat n)) as [->|N].
  - rewrite Hx, Hy. cbn [Z.b2z]. rewrite (ones_below_ext n x y); [lia|]. intros i Hi. apply E; lia.
  - rewrite IH by (auto; try lia; intros; apply E; lia). rewrite (E (Z.of_nat n)) by lia. lia.
Qed.

(** Every positive number has a lowest set bit. *)
Lemma lowest_exists x : 0 < x -> exists i, lowest_bit x i /\ exists q, x = 2 ^ i * (2 * q + 1).
Proof.
  intros Hx. assert (G : forall n y, 0 < y < Z.of_nat n -> exists i, lowest_bit y i /\ exists q, y = 2 ^ i * (2 * q + 1)).
  { induction n as [|n IH]; intros y Hy; [lia|].
    destruct (Z.Even_or_Odd y) as [[z ->]|[z ->]].
    - destruct (IH z ltac:(lia)) as (i & (Hi & B & L) & q & Eq). exists (i + 1).
      split; [split; [lia|split]|exists q].
      + replace (i + 1) with (Z.succ i) by lia. now rewrite Z.double_bits_succ.
      + intros j Hj. destruct (Z.eq_dec j 0) as [->|]; [apply Z.testbit_even_0|].
        replace j with (Z.succ (j - 1)) by lia. rewrite Z.double_bits_succ. apply L. lia.
      + rewrite Eq at 1. rewrite Z.pow_add_r by lia. ring.
    - exists 0. split; [split; [lia|split; [apply Z.testbit_odd_0|lia]]|]. exists z. lia. }
  apply (G (Z.to_nat (x + 1))). lia.
Qed.

(** [x & (x - 1)] clears the lowest set bit and no other. *)
Lemma clear_lowest x i j :
  0 < x -> lowest_bit x i -> 0 <= j ->
  Z.testbit (Z.land x (x - 1)) j = Z.testbit x j && negb (j =? i).
Proof.
  intros Hx Li Hj. destruct (lowest_exists x Hx) as (i' & (Hi & B & L) & q & E).
  assert (i' = i) as ->.
  { destruct Li as (Hi' & B' & L'). destruct (Z.lt_trichotomy i' i) as [C|[C|C]]; [|exact C|].
    - rewrite L' in B by lia. discriminate.
    - rewrite L in B' by lia. discriminate. }
  assert (E' : x - 1 = 2 ^ (i + 1) * q + (2 ^ i - 1)) by (rewrite E, Z.pow_add_r by lia; ring).
  pose proof (Z.pow_pos_nonneg 2 i ltac:(lia) Hi).
  rewrite Z.land_spec, E'. destruct (Z.lt_trichotomy j i) as [C|[->|C]].
  - rewrite L by lia. reflexivity.
  - rewrite Z.eqb_refl, B. cbn [negb andb]. rewrite Z.mul_comm, testbit_low_part by lia.
    change (2 ^ i - 1) with (Z.pred (2 ^ i)). rewrite <- Z.ones_equiv. apply Z.ones_spec_high. lia.
  - destruct (Z.eqb_spec j i); [lia|]. cbn [negb]. rewrite andb_true_r.
    destruct (Z.testbit x j) eqn:Bj; [|reflexivity]. cbn [andb].
    assert (P : 2 ^ (i + 1) = 2 ^ i * 2) by (rewrite Z.pow_add_r by lia; reflexivity).
    rewrite Z.mul_comm, testbit_high_part by lia.
    rewrite E in Bj. replace (2 ^ i * (2 * q + 1)) with (q * 2 ^ (i + 1) + 2 ^ i) in Bj
      by (rewrite P; ring).
    now rewrite testbit_high_part in Bj by lia.
Qed.

Lemma ones_below_zero n : ones_below n 0 = 0.
Proof. induction n as [|n IH]; [reflexivity|]. cbn [ones_below]. now rewrite IH, Z.testbit_0_l. Qed.

Lemma popcnt_loop_spec n : forall x c,
  0 <= x < 2 ^ 64 -> ones_below 64 x <= Z.of_nat n -> popcnt_loop n x c = c + ones_below 64 x.
Proof.
  induction n as [|n IH]; intros x c Hx Hn; cbn [popcnt_loop].
  - pose proof (ones_below_range 64 x). lia.
  - destruct (Z.eqb_spec x 0) as [->|N]; [rewrite ones_below_zero; lia|].
    destruct (lowest_exists x ltac:(lia)) as (i & Li & _). pose proof Li as (Hi & B & _).
    assert (Hi64 : i < 64).
    { destruct (Z.ltb_spec i 64); [assumption|]. rewrite (testbit_ge x 64) in B by lia. discriminate. }
    rewrite u64_small by (change 0x10000000000000000 with (2 ^ 64); lia).
    assert (F : ones_below 64 x = ones_below 64 (Z.land x (x - 1)) + 1).
    { apply ones_below_flip with i; [lia|exact B| |].
      - rewrite (clear_lowest x i i) by (assumption || lia). rewrite Z.eqb_refl. apply andb_false_r.
      - intros j Hj Nj. rewrite (clear_lowest x i j) by (assumption || lia).
        destruct (Z.eqb_spec j i); [contradiction|]. now rewrite andb_true_r. }
    rewrite IH; [lia| |lia].
    apply bits_bound; [lia|]. intros j Hj. rewrite (clear_lowest x i j) by (assumption || lia).
    now rewrite (testbit_ge x 64) by lia.
Qed.

(** *** [lzcnt] and [tzcnt] *)

(** The number of zeros above the highest set bit of an [n]-bit number. *)
Definition leading_zeros (n x : Z) : Z := if x =? 0 then n else n - 1 - Z.log2 x.

Lemma lzcnt_loop_spec x n : forall c,
  0 <= x < 2 ^ Z.of_nat n ->
  lzcnt_loop n c x (if (n =? 0)%nat then 0 else 2 ^ (Z.of_nat n - 1)) =
  c + leading_zeros (Z.of_nat n) x.
Proof.
  induction n as [|n IH]; intros c Hx; cbn [lzcnt_loop].
  - assert (x = 0) as -> by (cbn in Hx; lia). unfold leading_zeros. cbn. lia.
  - cbn [Nat.eqb]. replace (Z.of_nat (S n) - 1) with (Z.of_nat n) by lia.
    rewrite has_pow2 by lia. unfold leading_zeros in *.
    destruct (Z.testbit x (Z.of_nat n)) eqn:B.
    + destruct (Z.eqb_spec x 0) as [->|N]; [rewrite Z.testbit_0_l in B; discriminate|].
      assert (E : Z.log2 x = Z.of_nat n); [|lia].
      apply Z.log2_unique; [lia|]. replace (Z.succ (Z.of_nat n)) with (Z.of_nat (S n)) by lia.
      destruct (Z.leb_spec (2 ^ Z.of_nat n) x); [lia|].
      rewrite (testbit_ge x (Z.of_nat n)) in B by lia. discriminate.
    + assert (Hx' : 0 <= x < 2 ^ Z.of_nat n).
      { apply bits_bound; [lia|]. intros i Hi. destruct (Z.eq_dec i (Z.of_nat n)) as [->|]; [exact B|].
        apply (testbit_ge x (Z.of_nat (S n))); lia. }
      replace (Z.shiftr (2 ^ Z.of_nat n) 1)
        with (if (n =? 0)%nat then 0 else 2 ^ (Z.of_nat n - 1)).
      * rewrite IH by exact Hx'. destruct (x =? 0); lia.
      * rewrite Z.shiftr_div_pow2 by lia. destruct n as [|n]; [reflexivity|]. cbn [Nat.eqb].
        replace (Z.of_nat (S n)) with (Z.of_nat (S n) - 1 + 1) at 2 by lia.
        rewrite Z.pow_add_r by lia. symmetry. now apply Z.div_mul.
Qed.

Lemma has_shiftr_1 x c : 0 <= c -> has (Z.shiftr x c) 1 = Z.testbit x c.
Proof.
  intros Hc. change 1 with (2 ^ 0). rewrite has_pow2 by lia. now rewrite Z.shiftr_spec by lia.
Qed.

Lemma tzcnt_loop_spec x n : forall c,
  0 <= c -> (forall j, 0 <= j < c -> Z.testbit x j = false) ->
  let r := tzcnt_loop n c x in
  (r = c + Z.of_nat n \/ r < c + Z.of_nat n /\ Z.testbit x r = true) /\ c <= r /\
  forall j, 0 <= j < r -> Z.testbit x j = false.
Proof.
  induction n as [|n IH]; intros c Hc L; cbn [tzcnt_loop]; cbv zeta.
  - split; [left; lia|]. split; [lia|exact L].
  - rewrite has_shiftr_1 by lia. destruct (Z.testbit x c) eqn:B.
    + split; [right; split; [lia|exact B]|]. split; [lia|exact L].
    + destruct (IH (c + 1)) as (D & Le & L'); [lia| |split; [|split; [lia|exact L']]].
      * intros j Hj. destruct (Z.eq_dec j c) as [->|]; [exact B|apply L; lia].
      * destruct D as [D|[D1 D2]]; [left; lia|right; split; [lia|exact D2]].
Qed.

(** The rank of a position: the number of mask bits below it. *)
Definition rank (mask i : Z) : Z := ones_below (Z.to_nat i) mask.

Lemma rank_0 mask : rank mask 0 = 0.
Proof. reflexivity. Qed.

Lemma rank_succ mask i : 0 <= i -> rank mask (i + 1) = rank mask i + Z.b2z (Z.testbit mask i).
Proof.
  intros Hi. unfold rank. replace (Z.to_nat (i + 1)) with (S (Z.to_nat i)) by lia.
  cbn [ones_below]. now rewrite Z2Nat.id by lia.
Qed.

Lemma rank_range mask i : 0 <= i -> 0 <= rank mask i <= i.
Proof. intros Hi. unfold rank. pose proof (ones_below_range (Z.to_nat i) mask). lia. Qed.

Lemma rank_mono mask i j : 0 <= i <= j -> rank mask i <= rank mask j.
Proof.
  intros H. replace j with (i + Z.of_nat (Z.to_nat (j - i))) by lia.
  induction (Z.to_nat (j - i)) as [|k IH]; [replace (i + Z.of_nat 0) with i by lia; lia|].
  replace (i + Z.of_nat (S k)) with (i + Z.of_nat k + 1) by lia. rewrite rank_succ by lia.
  destruct (Z.testbit _ _); cbn [Z.b2z]; lia.
Qed.

(** Mask bits at different places have different ranks. *)
Lemma rank_inj mask i j :
  0 <= i -> 0 <= j -> Z.testbit mask i = true -> Z.testbit mask j = true ->
  rank mask i = rank mask j -> i = j.
Proof.
  intros Hi Hj Bi Bj E. destruct (Z.lt_trichotomy i j) as [L|[->|L]]; [|reflexivity|].
  - pose proof (rank_mono mask (i + 1) j ltac:(lia)). rewrite rank_succ, Bi in H by lia.
    cbn [Z.b2z] in H. lia.
  - pose proof (rank_mono mask (j + 1) i ltac:(lia)). rewrite rank_succ, Bj in H by lia.
    cbn [Z.b2z] in H. lia.
Qed.

(** Every rank below the total is taken by a mask bit. *)
Lemma rank_onto mask n j : 0 <= n -> 0 <= j < rank mask n ->
  exists i, 0 <= i < n /\ Z.testbit mask i = true /\ rank mask i = j.
Proof.
  intros Hn. replace n with (Z.of_nat (Z.to_nat n)) by lia.
  induction (Z.to_nat n) as [|k IH]; [rewrite rank_0; lia|].
  replace (Z.of_nat (S k)) with (Z.of_nat k + 1) by lia. rewrite rank_succ by lia. intros Hj.
  destruct (Z.ltb_spec j (rank mask (Z.of_nat k))) as [L|L].
  - destruct (IH ltac:(lia)) as (i & Hi & B & R). exists i. repeat split; auto; lia.
  - destruct (Z.testbit mask (Z.of_nat k)) eqn:B; cbn [Z.b2z] in Hj; [|lia].
    exists (Z.of_nat k). repeat split; auto; lia.
Qed.

(** ** The loop *)

Lemma testbit_lor_pow2 r i j : 0 <= i -> 0 <= j ->
  Z.testbit (Z.lor r (2 ^ i)) j = Z.testbit r j || (i =? j).
Proof. intros Hi Hj. now rewrite Z.lor_spec, Z.pow2_bits_eqb by lia. Qed.

Lemma has_pow2_r x i : 0 <= i -> has x (2 ^ i) = Z.testbit x i.
Proof. exact (has_pow2 x i). Qed.

(** [shiftl] of the walking bit, which falls out of the word at the last round. *)
Definition walk (i : Z) : Z := if i <? 64 then 2 ^ i else 0.

Lemma walk_next i : 0 <= i < 64 -> u64 (Z.shiftl (2 ^ i) 1) = walk (i + 1).
Proof.
  intros Hi. unfold walk. destruct (Z.ltb_spec (i + 1) 64).
  - apply u64_shiftl_pow2. lia.
  - replace i with 63 by lia. reflexivity.
Qed.

Lemma walk_in i : i < 64 -> walk i = 2 ^ i.
Proof. intros Hi. unfold walk. destruct (Z.ltb_spec i 64); [reflexivity|lia]. Qed.

(** What [pdep] and [pext] have done before position [i]. *)
Definition deposited (src mask i r : Z) : Prop :=
  forall p, 0 <= p ->
    Z.testbit r p = (p <? i) && Z.testbit mask p && Z.testbit src (rank mask p).
Definition extracted (src mask i r : Z) : Prop :=
  (forall p, 0 <= p < i -> Z.testbit mask p = true -> Z.testbit r (rank mask p) = Z.testbit src p) /\
  (forall j, rank mask i <= j -> Z.testbit r j = false).

Lemma deposit_step src mask i r : 0 <= i < 64 -> deposited src mask i r ->
  deposited src mask (i + 1)
    (if Z.testbit mask i then if Z.testbit src (rank mask i) then Z.lor r (2 ^ i) else r else r).
Proof.
  intros Hi D p Hp.
  assert (C : (p <? i + 1) = (p <? i) || (i =? p)).
  { destruct (Z.ltb_spec p (i + 1)), (Z.ltb_spec p i), (Z.eqb_spec i p); cbn; lia || reflexivity. }
  rewrite C. destruct (Z.testbit mask i) eqn:B; [destruct (Z.testbit src (rank mask i)) eqn:K|].
  - rewrite testbit_lor_pow2, D by lia. destruct (Z.eqb_spec i p) as [<-|N].
    + rewrite B, K, orb_true_r. now destruct (i <? i).
    + now rewrite !orb_false_r.
  - rewrite D by lia. destruct (Z.eqb_spec i p) as [<-|N].
    + rewrite K, !andb_false_r. reflexivity.
    + now rewrite orb_false_r.
  - rewrite D by lia. destruct (Z.eqb_spec i p) as [<-|N].
    + rewrite B, !andb_false_r. reflexivity.
    + now rewrite orb_false_r.
Qed.

Lemma extract_step src mask i r : 0 <= i < 64 -> extracted src mask i r ->
  extracted src mask (i + 1)
    (if Z.testbit mask i then if Z.testbit src i then Z.lor r (2 ^ rank mask i) else r else r).
Proof.
  intros Hi [D U]. pose proof (rank_range mask i ltac:(lia)) as Rk.
  destruct (Z.testbit mask i) eqn:B.
  - assert (T : forall j, 0 <= j -> Z.testbit (if Z.testbit src i then Z.lor r (2 ^ rank mask i) else r) j =
                Z.testbit r j || Z.testbit src i && (rank mask i =? j)).
    { intros j Hj. destruct (Z.testbit src i).
      - now rewrite testbit_lor_pow2 by lia.
      - now rewrite orb_false_r. }
    split.
    + intros p Hp Bp. pose proof (rank_range mask p ltac:(lia)). rewrite T by lia.
      destruct (Z.eq_dec p i) as [->|N].
      * rewrite Z.eqb_refl, andb_true_r, U by lia. reflexivity.
      * rewrite D by (auto; lia). destruct (Z.eqb_spec (rank mask i) (rank mask p)) as [E|_].
        -- apply rank_inj in E; auto; lia.
        -- now rewrite andb_false_r, orb_false_r.
    + intros j Hj. rewrite rank_succ, B in Hj by lia. cbn [Z.b2z] in Hj. rewrite T, U by lia.
      destruct (Z.eqb_spec (rank mask i) j); [lia|]. now rewrite andb_false_r.
  - split.
    + intros p Hp Bp. apply D; [|exact Bp]. destruct (Z.eq_dec p i) as [->|]; [congruence|lia].
    + intros j Hj. rewrite rank_succ, B in Hj by lia. cbn [Z.b2z] in Hj. apply U. lia.
Qed.

(** The loop from position [i] on keeps what is described by [done] at the positions before. *)
Lemma deposit_extract_loop_spec (deposit : bool) src mask n : forall i r,
  0 <= i -> i + Z.of_nat n <= 64 ->
  (if deposit then deposited src mask i r else extracted src mask i r) ->
  let r' := deposit_extract_loop n deposit (walk i) (walk (rank mask i)) src mask r in
  if deposit then deposited src mask (i + Z.of_nat n) r' else extracted src mask (i + Z.of_nat n) r'.
Proof.
  induction n as [|n IH]; intros i r Hi Hn D; cbv zeta; cbn [deposit_extract_loop].
  - now replace (i + Z.of_nat 0) with i by lia.
  - pose proof (rank_range mask i Hi) as Rk. rewrite !walk_in by lia.
    rewrite !has_pow2_r by lia. rewrite !walk_next by lia.
    replace (i + Z.of_nat (S n)) with (i + 1 + Z.of_nat n) by lia.
    destruct (Z.testbit mask i) eqn:B.
    + replace (rank mask i + 1) with (rank mask (i + 1)) by (rewrite rank_succ, B by lia; reflexivity).
      apply IH; [lia|lia|]. destruct deposit.
      * pose proof (deposit_step src mask i r ltac:(lia) D) as S. now rewrite B in S.
      * pose proof (extract_step src mask i r ltac:(lia) D) as S. now rewrite B in S.
    + replace (2 ^ rank mask i) with (walk (rank mask (i + 1)))
        by (rewrite rank_succ, B by lia; cbn [Z.b2z]; rewrite Z.add_0_r; apply walk_in; lia).
      apply IH; [lia|lia|]. destruct deposit.
      * pose proof (deposit_step src mask i r ltac:(lia) D) as S. now rewrite B in S.
      * pose proof (extract_step src mask i r ltac:(lia) D) as S. now rewrite B in S.
Qed.

(** What the two instructions compute at [n] bits. *)
Definition deposit (n : nat) (src mask : Z) : Z := deposit_extract_loop n true 1 1 src mask 0.
Definition extract (n : nat) (src mask : Z) : Z := deposit_extract_loop n false 1 1 src mask 0.

Section DepositExtract.
Variables (n : nat) (src mask : Z).
Hypothesis Hn : (n <= 64)%nat.

Lemma deposit_bits p : 0 <= p ->
  Z.testbit (deposit n src mask) p =
  (p <? Z.of_nat n) && Z.testbit mask p && Z.testbit src (rank mask p).
Proof.
  assert (D : deposited src mask 0 0).
  { intros q Hq. rewrite Z.testbit_0_l. destruct (Z.ltb_spec q 0); [lia|reflexivity]. }
  exact (deposit_extract_loop_spec true src mask n 0 0 ltac:(lia) ltac:(lia) D p).
Qed.

Lemma extract_spec : extracted src mask (Z.of_nat n) (extract n src mask).
Proof.
  assert (D : extracted src mask 0 0).
  { split; [lia|]. intros j _. apply Z.testbit_0_l. }
  exact (deposit_extract_loop_spec false src mask n 0 0 ltac:(lia) ltac:(lia) D).
Qed.
End DepositExtract.

Lemma extract_nonneg n src mask : (n <= 64)%nat -> 0 <= extract n src mask.
Proof.
  intros Hn. destruct (extract_spec n src mask Hn) as [_ U].
  pose proof (rank_range mask (Z.of_nat n) ltac:(lia)).
  now destruct (bits_bound (extract n src mask) (rank mask (Z.of_nat n)) ltac:(lia) U).
Qed.

(** Gathering what was scattered gives the low bits of the source back. *)
Lemma extract_deposit n src mask : (n <= 64)%nat ->
  extract n (deposit n src mask) mask = src mod 2 ^ rank mask (Z.of_nat n).
Proof.
  intros Hn. pose proof (rank_range mask (Z.of_nat n) ltac:(lia)) as Rk.
  destruct (extract_spec n (deposit n src mask) mask Hn) as [D U].
  apply Z.bits_inj'. intros j Hj. destruct (Z.ltb_spec j (rank mask (Z.of_nat n))).
  - destruct (rank_onto mask (Z.of_nat n) j ltac:(lia) ltac:(lia)) as (i & Hi & B & <-).
    rewrite D, deposit_bits, B, Z.mod_pow2_bits_low by (auto; lia).
    destruct (Z.ltb_spec i (Z.of_nat n)); [reflexivity|lia].
  - rewrite U, Z.mod_pow2_bits_high by lia. reflexivity.
Qed.

(** Scattering what was gathered gives the bits under the mask back. *)
Lemma deposit_extract n src mask : (n <= 64)%nat ->
  deposit n (extract n src mask) mask = Z.land (src mod 2 ^ Z.of_nat n) mask.
Proof.
  intros Hn. destruct (extract_spec n src mask Hn) as [D _].
  apply Z.bits_inj'. intros j Hj. rewrite deposit_bits, Z.land_spec by assumption.
  destruct (Z.ltb_spec j (Z.of_nat n)).
  - rewrite Z.mod_pow2_bits_low by lia. cbn [andb]. destruct (Z.testbit mask j) eqn:B; cbn [andb].
    + rewrite D by (auto; lia). now rewrite andb_true_r.
    + now rewrite andb_false_r.
  - rewrite Z.mod_pow2_bits_high by lia. reflexivity.
Qed.

(** The [n] bytes of [v] in the opposite order. *)
Definition swapped (n : nat) (v : Z) : Z := le_decode (rev (le_encode n v)).

Lemma byte_mod v : 0 <= v mod 256 < 256.
Proof. apply Z.mod_pos_bound. lia. Qed.

Lemma land_ff v : Z.land v 0xFF = v mod 256.
Proof. change 0xFF with (Z.ones 8). rewrite Z.land_ones by lia. reflexivity. Qed.

Lemma shiftr_8 v : Z.shiftr v 8 = v / 256.
Proof. now rewrite Z.shiftr_div_pow2 by lia. Qed.

(** A number below [2^k] fills the zeros of a multiple of [2^k]. *)
Lemma lor_fill b a k : 0 <= k -> 0 <= a < 2 ^ k -> Z.lor (b * 2 ^ k) a = b * 2 ^ k + a.
Proof.
  intros Hk Ha. apply lor_disjoint. apply Z.bits_inj'. intros i Hi.
  rewrite Z.land_spec, Z.bits_0. destruct (Z.ltb_spec i k).
  - now rewrite Z.mul_pow2_bits_low by lia.
  - rewrite (testbit_ge a k) by lia. apply andb_false_r.
Qed.

Lemma swapped_range n v : 0 <= swapped n v < 2 ^ (8 * Z.of_nat n).
Proof.
  unfold swapped. rewrite <- (le_encode_length n v) at 3. rewrite <- length_rev.
  apply le_decode_range, Forall_rev, le_encode_ok.
Qed.

Lemma swapped_swapped n v : swapped n (swapped n v) = v mod 2 ^ (8 * Z.of_nat n).
Proof.
  unfold swapped.
  assert (E : le_encode n (le_decode (rev (le_encode n v))) = rev (le_encode n v)).
  { rewrite <- (le_encode_length n v) at 1. rewrite <- length_rev.
    apply le_encode_decode, Forall_rev, le_encode_ok. }
  rewrite E, rev_involutive. apply le_decode_encode.
Qed.

Lemma swapped_succ n v :
  swapped (S n) v = swapped n (v / 256) + 2 ^ (8 * Z.of_nat n) * (v mod 256).
Proof.
  unfold swapped. cbn [le_encode rev]. rewrite le_decode_app, length_rev, le_encode_length.
  cbn [le_decode]. lia.
Qed.

(** The loop of [movbe]: [m] bytes are left, those done are above them. *)
Lemma movbe_loop_spec src n m : forall i q,
  0 <= i -> i + Z.of_nat m = n -> 0 < n <= 8 -> 0 <= q * 2 ^ (8 * Z.of_nat m) < 2 ^ (8 * n) ->
  movbe_loop m i src (q * 2 ^ (8 * Z.of_nat m)) n =
  q * 2 ^ (8 * Z.of_nat m) + swapped m (src / 2 ^ (8 * i)).
Proof.
  induction m as [|m IH]; intros i q Hi Hm Hn Hq; cbn [movbe_loop].
  - unfold swapped. cbn [le_encode rev le_decode]. lia.
  - set (b := (src / 2 ^ (8 * i)) mod 256). pose proof (byte_mod (src / 2 ^ (8 * i))) as Hb. fold b in Hb.
    replace (Z.land (Z.shiftr src (i * 8)) 255) with b.
    2: { change 255 with (Z.ones 8). rewrite Z.land_ones, Z.shiftr_div_pow2 by lia.
         unfold b. now rewrite (Z.mul_comm i 8). }
    replace ((n - 1 - i) * 8) with (8 * Z.of_nat m) by lia.
    pose proof (pow256_S m) as P. pose proof (Z.pow_pos_nonneg 2 (8 * Z.of_nat m) ltac:(lia) ltac:(lia)).
    assert (L : 2 ^ (8 * Z.of_nat m) * 256 <= 2 ^ 64).
    { rewrite (Z.mul_comm _ 256), <- P. apply Z.pow_le_mono_r; lia. }
    rewrite Z.shiftl_mul_pow2 by lia.
    rewrite u64_small by (change 0x10000000000000000 with (2 ^ 64); nia).
    rewrite lor_fill by (rewrite ?P; nia || lia).
    replace (q * 2 ^ (8 * Z.of_nat (S m)) + b * 2 ^ (8 * Z.of_nat m))
      with ((256 * q + b) * 2 ^ (8 * Z.of_nat m)) by (rewrite P; ring).
    rewrite IH; [|lia|lia|lia|].
    + rewrite swapped_succ. fold b. rewrite Zdiv_Zdiv by (try apply Z.pow_nonneg; lia).
      replace (8 * (i + 1)) with (8 * i + 8) by lia. rewrite Z.pow_add_r by lia.
      change (2 ^ 8) with 256. rewrite P. ring.
    + assert (D : 2 ^ (8 * n) = 2 ^ (8 * i) * (256 * 2 ^ (8 * Z.of_nat m))).
      { rewrite <- P, <- Z.pow_add_r by lia. f_equal. lia. }
      rewrite P, D in Hq. rewrite D.
      assert (0 <= q) by nia. assert (q < 2 ^ (8 * i)) by nia. nia.
Qed.

Lemma movbe_swaps n src : 0 < n <= 8 ->
  movbe_loop (Z.to_nat n) 0 src 0 n = swapped (Z.to_nat n) src.
Proof.
  intros Hn. pose proof (movbe_loop_spec src n (Z.to_nat n) 0 0) as E.
  rewrite Z.mul_0_l, Z.mul_0_r, Z.pow_0_r, Z.div_1_r, Z.add_0_l in E. apply E; try lia.
Qed.

(** ** [bswap] *)

Lemma swapped_0 v : swapped 0 v = 0.
Proof. reflexivity. Qed.

Ltac byte_sum :=
  change (8 * Z.of_nat 0) with 0; change (8 * Z.of_nat 1) with 8; change (8 * Z.of_nat 2) with 16;
  change (8 * Z.of_nat 3) with 24; change (8 * Z.of_nat 4) with 32; change (8 * Z.of_nat 5) with 40;
  change (8 * Z.of_nat 6) with 48; change (8 * Z.of_nat 7) with 56; lia.

(** One more byte below what is already in place. *)
Lemma lor_byte x b k : 8 <= k -> 0 <= b < 256 ->
  Z.lor (x * 2 ^ k) (b * 2 ^ (k - 8)) = (x * 256 + b) * 2 ^ (k - 8).
Proof.
  intros Hk Hb. assert (E : 2 ^ k = 2 ^ (k - 8) * 256).
  { replace k with (k - 8 + 8) at 1 by lia. now rewrite Z.pow_add_r by lia. }
  pose proof (Z.pow_pos_nonneg 2 (k - 8) ltac:(lia) ltac:(lia)).
  rewrite lor_fill by (try rewrite E; nia || lia). rewrite E. ring.
Qed.

Lemma bswap32_swaps v : 0 <= v < 2 ^ 32 -> bswap32 v = swapped 4 v.
Proof.
  intros Hv. unfold bswap32. rewrite !land_ff, !shiftr_8, !Z.shiftl_mul_pow2 by lia.
  rewrite !swapped_succ, swapped_0, Z.lor_comm.
  rewrite (lor_byte (v mod 256) _ 24) by (apply byte_mod || lia). change (24 - 8) with 16.
  rewrite (lor_byte _ _ 16) by (apply byte_mod || lia). change (16 - 8) with 8.
  assert (H3 : 0 <= v / 256 / 256 / 256 < 256).
  { rewrite !Zdiv_Zdiv by lia. split; [apply Z.div_pos; lia|]. apply Z.div_lt_upper_bound; lia. }
  rewrite (lor_fill _ (v / 256 / 256 / 256) 8) by (lia || exact H3).
  rewrite (Z.mod_small (v / 256 / 256 / 256)) by exact H3. byte_sum.
Qed.

Lemma bswap64_swaps v : 0 <= v < 2 ^ 64 -> bswap64 v = swapped 8 v.
Proof.
  intros Hv. unfold bswap64. rewrite !land_ff, !shiftr_8, !Z.shiftl_mul_pow2 by lia.
  rewrite !swapped_succ, swapped_0, Z.lor_comm.
  rewrite (lor_byte (v mod 256) _ 56) by (apply byte_mod || lia). change (56 - 8) with 48.
  rewrite (lor_byte _ _ 48) by (apply byte_mod || lia). change (48 - 8) with 40.
  rewrite (lor_byte _ _ 40) by (apply byte_mod || lia). change (40 - 8) with 32.
  rewrite (lor_byte _ _ 32) by (apply byte_mod || lia). change (32 - 8) with 24.
  rewrite (lor_byte _ _ 24) by (apply byte_mod || lia). change (24 - 8) with 16.
  rewrite (lor_byte _ _ 16) by (apply byte_mod || lia). change (16 - 8) with 8.
  set (top := v / 256 / 256 / 256 / 256 / 256 / 256 / 256).
  assert (H3 : 0 <= top < 256).
  { unfold top. rewrite !Zdiv_Zdiv by lia. split; [apply Z.div_pos; lia|].
    apply Z.div_lt_upper_bound; lia. }
  rewrite (lor_fill _ top 8) by (lia || exact H3).
  rewrite (Z.mod_small top) by exact H3. byte_sum.
Qed.

Lemma SizeMask_ones n : opsize n -> Di_SizeMask n = Z.ones (8 * n).
Proof. intros Hn. opsize_cases Hn; reflexivity. Qed.

Lemma land_SizeMask n x : opsize n -> Z.land x (Di_SizeMask n) = x mod modulus n.
Proof.
  intros Hn. pose proof (opsize_pos n Hn). rewrite SizeMask_ones, Z.land_ones by (assumption || lia).
  reflexivity.
Qed.

Lemma land_SizeMask_small n x : opsize n -> 0 <= x < modulus n -> Z.land x (Di_SizeMask n) = x.
Proof. intros Hn Hx. rewrite land_SizeMask by assumption. now apply Z.mod_small. Qed.

Section BitHandlers.
Context {T : Type} `{RandomStreamOk T}.
Implicit Types s : DianaProcessor T.

(** An instruction that stores a function of its [m]-byte source into [n] bytes. *)
Record maps s (d n x m : Z) : Prop := {
  ma_wf : wf s;
  ma_idle : idle s;
  ma_dest : reads s 0 d n;
  ma_src : reads s 1 x m;
  ma_writes : writes s 0 n
}.

(** A flag cleared and then set on a condition. *)
Lemma set_ZF_if (c : bool) f b s : flag_word f ->
  when c SET_FLAG_ZF (tw f b s) = (Ok tt, tw (if c then setf ZF true f else f) b s).
Proof. intros Hf. destruct c; [apply SET_ZF_tw|reflexivity]. Qed.

Lemma set_CF_when (c : bool) f b s : flag_word f ->
  when c SET_FLAG_CF (tw f b s) = (Ok tt, tw (if c then setf CF true f else f) b s).
Proof. intros Hf. destruct c; [apply SET_CF_tw|reflexivity]. Qed.

Lemma setf_if k (c : bool) f : 0 <= k ->
  (if c then setf k true (setf k false f) else setf k false f) = setf k c f.
Proof. intros Hk. destruct c; [now apply setf_setf|reflexivity]. Qed.

(** The common start and the common end. *)
Lemma maps_start {A} s d n x m (k : Z -> Z -> MP T A) f b : maps s d n x m ->
  (let! _ := DI_MEM_GET_DEST in let! (src, src_size) := DI_MEM_GET_SRC in k src src_size) (tw f b s) =
  k x m (tw f b s).
Proof.
  intros [W I Rd Rx Wr].
  rewrite (bind_run _ _ _ _ _ (DI_MEM_GET_DEST_tw s d n f b W Rd)).
  now rewrite (bind_run _ _ _ _ _ (DI_MEM_GET_SRC_tw s x m f b W Rx)).
Qed.

Lemma maps_store s d n x m v f b : maps s d n x m -> flag_word f ->
  DI_MEM_SET_DEST v (tw f b s) = (Ok tt, tw f b (put_operand 0 v s)).
Proof.
  intros [W I Rd Rx Wr] Hf. exact (DI_MEM_SET_tw 0 v n f b s W Hf (idle_psz_clear s I) Wr).
Qed.

(** ** Scans *)

(** What a scan leaves: the index [i] and ZF clear, or ZF set for a zero source. *)
Definition scanned s (x i : Z) : DianaProcessor T :=
  if x =? 0 then with_flags (fun _ => setf ZF true (m_flags s)) s
  else with_flags (fun _ => setf ZF false (m_flags s)) (put_operand 0 i s).

Lemma scan_run s d n x m i :
  maps s d n x m ->
  Call (let! _ := DI_MEM_GET_DEST in
        let! (src, _) := DI_MEM_GET_SRC in
        CLEAR_FLAG_ZF ;;;
        if src =? 0 then SET_FLAG_ZF else DI_MEM_SET_DEST (i src)) s =
  (Ok tt, scanned s x (i x)).
Proof.
  intros M. pose proof (wf_flag_word s (ma_wf _ _ _ _ _ M)) as Fw. unfold scanned.
  destruct (Z.eqb_spec x 0) as [->|N].
  - eapply (Call_tw _ _ _ _ _ false); [|exact (ma_idle _ _ _ _ _ M)].
    rewrite (maps_start s d n 0 m (fun src _ => _) _ _ M). cbv beta.
    rewrite (bind_run _ _ _ _ _ (CLEAR_ZF_tw _ _ _ Fw)). rewrite Z.eqb_refl.
    rewrite SET_ZF_tw by auto with diana. now rewrite setf_setf by (unfold ZF; lia).
  - eapply (Call_tw _ _ _ _ _ false); [|apply idle_put_operand, (ma_idle _ _ _ _ _ M)].
    rewrite (maps_start s d n x m (fun src _ => _) _ _ M). cbv beta.
    rewrite (bind_run _ _ _ _ _ (CLEAR_ZF_tw _ _ _ Fw)).
    destruct (Z.eqb_spec x 0); [contradiction|]. apply (maps_store s d n x m _ _ _ M). auto with diana.
Qed.

Lemma bsf_run s d n x m : maps s d n x m -> x <> 0 ->
  exists i, lowest_bit x i /\ Call Diana_Call_bsf s = (Ok tt, scanned s x i).
Proof.
  intros M N. pose proof (reads_range _ _ _ _ (ma_src _ _ _ _ _ M)) as Hx.
  pose proof (modulus_word m (reads_size _ _ _ _ (ma_src _ _ _ _ _ M))) as Hm.
  exists (bsf_loop 64 0 1 x). split.
  - apply (bsf_loop_spec x 64 0); lia.
  - exact (scan_run s d n x m (bsf_loop 64 0 1) M).
Qed.

Lemma bsr_run s d n x m : maps s d n x m -> x <> 0 ->
  Call Diana_Call_bsr s = (Ok tt, scanned s x (Z.log2 x)).
Proof.
  intros M N. pose proof (reads_range _ _ _ _ (ma_src _ _ _ _ _ M)) as Hx.
  pose proof (modulus_word m (reads_size _ _ _ _ (ma_src _ _ _ _ _ M))) as Hm.
  assert (E : u64 (bsr_loop 64 63 0x8000000000000000 x) = Z.log2 x).
  { pose proof (bsr_loop_spec x 64 63 ltac:(lia) ltac:(lia)) as B.
    change (if 63 <? 0 then 0 else 2 ^ 63) with 0x8000000000000000 in B.
    rewrite B.
    - apply u64_small. pose proof (Z.log2_nonneg x).
      assert (Z.log2 x < 64) by (apply Z.log2_lt_pow2; [lia|]; change (2 ^ 64) with 0x10000000000000000; lia).
      lia.
    - intros j Hj. apply (testbit_ge x 64); [change (2 ^ 64) with 0x10000000000000000; lia|lia]. }
  rewrite <- E. exact (scan_run s d n x m (fun src => u64 (bsr_loop 64 63 0x8000000000000000 src)) M).
Qed.

Lemma scans s d n x m :
  maps s d n x m ->
  (x = 0 -> forall f, In f [Diana_Call_bsf; Diana_Call_bsr] ->
   Call f s = (Ok tt, with_flags (fun _ => setf ZF true (m_flags s)) s)) /\
  (x <> 0 ->
   let found i := with_flags (fun _ => setf ZF false (m_flags s)) (put_operand 0 i s) in
   (exists i, lowest_bit x i /\ Call Diana_Call_bsf s = (Ok tt, found i)) /\
   Call Diana_Call_bsr s = (Ok tt, found (Z.log2 x))).
Proof.
  intros M. split.
  - intros -> f [<-|[<-|[]]].
    + exact (scan_run s d n 0 m (bsf_loop 64 0 1) M).
    + exact (scan_run s d n 0 m (fun src => u64 (bsr_loop 64 63 0x8000000000000000 src)) M).
  - intros N found. unfold found. split.
    + destruct (bsf_run s d n x m M N) as (i & L & E). exists i. split; [exact L|].
      rewrite E. unfold scanned. destruct (Z.eqb_spec x 0); [contradiction|reflexivity].
    + rewrite (bsr_run s d n x m M N). unfold scanned.
      destruct (Z.eqb_spec x 0); [contradiction|reflexivity].
Qed.

(** ** Counts *)

(** All six arithmetic flags cleared. *)
Definition no_flags (f : Z) : Z :=
  setf OF false (setf SF false (setf ZF false (setf AF false (setf PF false (setf CF false f))))).

Lemma flag_word_no_flags f : flag_word f -> flag_word (no_flags f).
Proof. intros Hf. unfold no_flags. auto 8 with diana. Qed.

Lemma clear_arith_tw f b s : flag_word f ->
  DI_EXT_ARITH_FLAGS_CLEAR (tw f b s) = (Ok tt, tw (no_flags f) b s).
Proof. intros Hf. unfold DI_EXT_ARITH_FLAGS_CLEAR, no_flags. do 5 step. eauto 10 with exec diana. Qed.

Lemma popcnt_run s d n x m : maps s d n x m ->
  Call Diana_Call_popcnt s =
  (Ok tt, with_flags (fun _ => setf ZF (x =? 0) (no_flags (m_flags s)))
            (put_operand 0 (ones_below 64 x) s)).
Proof.
  intros M. pose proof (wf_flag_word s (ma_wf _ _ _ _ _ M)) as Fw.
  pose proof (reads_size _ _ _ _ (ma_src _ _ _ _ _ M)) as Hm.
  pose proof (reads_range _ _ _ _ (ma_src _ _ _ _ _ M)) as Hx.
  pose proof (modulus_word m Hm) as Hw. pose proof (flag_word_no_flags _ Fw) as Fn.
  eapply (Call_tw _ _ _ _ _ false); [|apply idle_put_operand, (ma_idle _ _ _ _ _ M)].
  unfold Diana_Call_popcnt. rewrite (maps_start s d n x m _ _ _ M). cbv zeta.
  rewrite land_SizeMask_small by assumption.
  rewrite (bind_run _ _ _ _ _ (clear_arith_tw _ _ _ Fw)).
  rewrite (bind_run _ _ _ _ _ (set_ZF_if (x =? 0) _ _ _ Fn)).
  rewrite popcnt_loop_spec, Z.add_0_l
    by (change (2 ^ 64) with 0x10000000000000000; pose proof (ones_below_range 64 x); lia).
  replace (if x =? 0 then setf ZF true (no_flags (m_flags s)) else no_flags (m_flags s))
    with (setf ZF (x =? 0) (no_flags (m_flags s)))
    by (destruct (x =? 0); [reflexivity|unfold no_flags; flags_ext]).
  apply (maps_store s d n x m _ _ _ M). auto with diana.
Qed.

(** The number of zeros from the bottom; the whole width for zero. *)
Definition trailing_zeros (n x r : Z) : Prop :=
  (x = 0 /\ r = n) \/ (x <> 0 /\ lowest_bit x r).

Lemma count_run (leading : bool) s d n x m : maps s d n x m ->
  exists c, (if leading then c = leading_zeros (8 * m) x else trailing_zeros (8 * m) x c) /\
    Call (Di_CountZeros leading) s =
    (Ok tt, with_flags (fun _ => setf ZF (c =? 0) (setf CF (x =? 0) (m_flags s))) (put_operand 0 c s)).
Proof.
  intros M. pose proof (wf_flag_word s (ma_wf _ _ _ _ _ M)) as Fw.
  pose proof (reads_size _ _ _ _ (ma_src _ _ _ _ _ M)) as Hm.
  pose proof (reads_range _ _ _ _ (ma_src _ _ _ _ _ M)) as Hx. pose proof (opsize_pos m Hm) as Hp.
  set (bits := Z.to_nat (m * 8)).
  assert (Hb : Z.of_nat bits = 8 * m) by (unfold bits; lia).
  set (c := if leading then lzcnt_loop bits 0 x (u64 (Z.shiftl 1 (m * 8 - 1))) else tzcnt_loop bits 0 x).
  exists c. split.
  - unfold c. destruct leading.
    + rewrite <- Hb. rewrite <- (Z.add_0_l (leading_zeros _ x)).
      rewrite <- (lzcnt_loop_spec x bits 0) by (rewrite Hb; exact Hx).
      destruct (Nat.eqb_spec bits 0) as [E|_]; [lia|]. f_equal.
      rewrite Hb, Z.shiftl_mul_pow2, Z.mul_1_l by lia. replace (m * 8 - 1) with (8 * m - 1) by lia.
      apply u64_small. split; [apply Z.pow_nonneg; lia|].
      change 0x10000000000000000 with (2 ^ 64). apply Z.pow_lt_mono_r; lia.
    + destruct (tzcnt_loop_spec x bits 0) as (D & Le & L); [lia|lia|].
      destruct (Z.eq_dec x 0) as [->|N].
      * left. split; [reflexivity|]. destruct D as [D|[_ D]]; [lia|]. now rewrite Z.testbit_0_l in D.
      * right. split; [exact N|]. split; [lia|]. split; [|exact L].
        destruct D as [D|[_ D]]; [|exact D]. exfalso. apply N.
        apply Z.bits_inj'. intros j Hj. rewrite Z.bits_0.
        destruct (Z.ltb_spec j (8 * m)); [apply L; lia|].
        apply (testbit_ge x (8 * m)); [exact Hx|lia].
  - eapply (Call_tw _ _ _ _ _ false); [|apply idle_put_operand, (ma_idle _ _ _ _ _ M)].
    unfold Di_CountZeros. rewrite (maps_start s d n x m _ _ _ M). cbv zeta.
    rewrite land_SizeMask_small by assumption. fold bits. fold c.
    rewrite (bind_run _ _ _ _ _ (CLEAR_CF_tw _ _ _ Fw)).
    erewrite bind_run by (apply CLEAR_ZF_tw; auto with diana).
    erewrite bind_run by (apply set_CF_when; auto with diana).
    erewrite bind_run by (apply set_ZF_if; destruct (x =? 0); auto with diana).
    rewrite (maps_store s d n x m _ _ _ M) by (destruct (c =? 0), (x =? 0); auto with diana).
    do 2 f_equal. destruct (c =? 0), (x =? 0); flags_ext.
Qed.

(** ** Deposits and extractions *)

Record masked s (d n x m k ks : Z) : Prop := {
  mk_maps : maps s d n x m;
  mk_mask : reads s 2 k ks
}.

Lemma deposit_extract_run (dep : bool) s d n x m k ks :
  masked s d n x m k ks -> ks = n ->
  Call (Di_BitsDepositExtract dep) s =
  (Ok tt, with_flags (fun _ => m_flags s)
            (put_operand 0 ((if dep then deposit else extract) (Z.to_nat (8 * n)) x k) s)).
Proof.
  intros [M Rk] E. pose proof M as [W I Rd Rx Wr]. pose proof (reads_size _ _ _ _ Rd) as Hn.
  pose proof (reads_range _ _ _ _ Rk) as Hk. rewrite E in Hk.
  eapply (Call_tw _ _ _ _ _ false); [|now apply idle_put_operand].
  unfold Di_BitsDepositExtract. rewrite (bind_run _ _ _ _ _ (DI_MEM_GET_DEST_tw s d n _ _ W Rd)).
  rewrite (bind_run _ _ _ _ _ (reads_tw s 1 x m _ _ W Rx)).
  rewrite (bind_run _ _ _ _ _ (reads_tw s 2 k ks _ _ W Rk)). cbv zeta.
  rewrite land_SizeMask_small by assumption.
  rewrite (maps_store s d n x m _ _ _ M) by (apply wf_flag_word; exact W).
  unfold deposit, extract. rewrite (Z.mul_comm n 8). now destruct dep.
Qed.

Lemma deposit_laws s d n x m k : masked s d n x m k n ->
  let bits := Z.to_nat (8 * n) in
  (forall p, 0 <= p -> Z.testbit (deposit bits x k) p =
     (p <? 8 * n) && Z.testbit k p && Z.testbit x (rank k p)) /\
  extract bits (deposit bits x k) k = x mod 2 ^ rank k (8 * n) /\
  deposit bits (extract bits x k) k = Z.land (x mod modulus n) k.
Proof.
  intros [[_ _ Rd _ _] _] bits. pose proof (opsize_pos n (reads_size _ _ _ _ Rd)).
  assert (B : Z.of_nat bits = 8 * n) by (unfold bits; lia).
  assert (Hb : (bits <= 64)%nat) by lia. unfold modulus. rewrite <- B.
  split; [intros p; exact (deposit_bits bits x k Hb p)|].
  split; [exact (extract_deposit bits x k Hb)|exact (deposit_extract bits x k Hb)].
Qed.

(** ** Byte swaps *)

Lemma movbe_run s d n x m : maps s d n x m ->
  Call Diana_Call_movbe s =
  (Ok tt, with_flags (fun _ => m_flags s) (put_operand 0 (swapped (Z.to_nat n) x) s)).
Proof.
  intros M. pose proof M as [W I Rd Rx Wr]. pose proof (opsize_pos n (reads_size _ _ _ _ Rd)).
  eapply (Call_tw _ _ _ _ _ false); [|now apply idle_put_operand].
  unfold Diana_Call_movbe. rewrite (bind_run _ _ _ _ _ (DI_MEM_GET_DEST_tw s d n _ _ W Rd)).
  rewrite (bind_run _ _ _ _ _ (DI_MEM_GET_SRC_tw s x m _ _ W Rx)).
  rewrite movbe_swaps by lia. apply (maps_store s d n x m _ _ _ M). now apply wf_flag_word.
Qed.

Lemma bswap_run s d n : unary s d n -> plain_result s n -> n = 4 \/ n = 8 ->
  Call Diana_Call_bswap s =
  (Ok tt, with_flags (fun _ => m_flags s) (put_operand 0 (swapped (Z.to_nat n) d) s)).
Proof.
  intros [W I Rd Wr] Pl Hn. pose proof (reads_range _ _ _ _ Rd) as Hd.
  eapply (Call_tw _ _ _ _ _ false); [|now apply idle_put_operand].
  unfold Diana_Call_bswap. rewrite (bind_run _ _ _ _ _ (DI_MEM_GET_DEST_tw s d n _ _ W Rd)).
  destruct (CheckZeroExtends_tw 0 (swapped (Z.to_nat n) d) n n (m_flags s) false s)
    as (s1 & E & Zr); eauto using idle_psz_clear with diana.
  assert (B : (if n =? 2 then ret 0 else if n =? 4 then ret (bswap32 d)
               else if n =? 8 then ret (bswap64 d) else fail DI_ERROR) =
              (ret (swapped (Z.to_nat n) d) : MP T Z)).
  { destruct Hn as [->| ->]; cbn [Z.eqb Pos.eqb].
    - now rewrite bswap32_swaps.
    - now rewrite bswap64_swaps. }
  rewrite B, bind_ret. unfold Di_CheckZeroExtends. rewrite (bind_run _ _ _ _ _ E).
  apply (store_plain s s1 n _ _ _ Zr). now apply wf_flag_word.
Qed.
End BitHandlers.
