(* ===== verification/DecSample.v ===== *)
(** A part of the opcode tables of diana_gen.c, entry by entry, and the commands of its groups:
    the input on which the theorems about the decoder are tried. *)

From Stdlib Require Import ZArith Lia List Bool.
Import ListNotations.
From S2P Require Import Prelude Words Status Registers DecTypes DecTables.
Local Open Scope Z_scope.

Definition command (flags ext mask deny group cmd_flags csip imm imm2 id : Z)
    (ops : list DianaOperandInfo) : DianaBaseGenObject :=
  CmdObject (mkDianaCmdInfo flags ext mask deny group cmd_flags csip imm imm2 None (Some id) ops 0).

Definition evex_command (attributes flags ext mask deny group cmd_flags csip imm imm2 id : Z)
    (ops : list DianaOperandInfo) : DianaBaseGenObject :=
  CmdObject (mkDianaCmdInfo flags ext mask deny group cmd_flags csip imm imm2 None (Some id) ops
               attributes).

Definition line (flags : Z) (keys : list (Z * DianaBaseGenObject)) : DianaBaseGenObject :=
  LineObject flags (map (fun '(o, k) => (o, Some k)) keys).

Definition entry_at (keys : list (Z * DianaBaseGenObject)) (opcode : Z) : option DianaBaseGenObject :=
  option_map snd (find (fun '(o, _) => o =? opcode) keys).

(** 256 entries, null but for the given ones. *)
Definition index_line (flags : Z) (keys : list (Z * DianaBaseGenObject)) : DianaBaseGenObject :=
  IndexObject flags (map (fun n => entry_at keys (Z.of_nat n)) (seq 0 256)).

(** ** The entries *)

(** diana_gen.c:7034 *)
Definition cmd2 : DianaBaseGenObject :=
  command 0 0x0 0x0 0x0 1315 22528 255 255 255 335
  [mkDianaOperandInfo diana_orRegMem 2 0 255 255;
   mkDianaOperandInfo diana_orRegistry 2 0 255 255].

(** diana_gen.c:7036 *)
Definition cmd4 : DianaBaseGenObject :=
  command 0 0x0 0x0 0x0 1315 20480 255 255 255 335
  [mkDianaOperandInfo diana_orRegistry 2 0 255 255;
   mkDianaOperandInfo diana_orRegMem 2 0 255 255].

(** diana_gen.c:6093 *)
Definition cmd112 : DianaBaseGenObject :=
  command 0 0x0 0x0 0x0 1408 4098 255 255 255 423
  [mkDianaOperandInfo diana_orRegMem 4 0 255 255;
   mkDianaOperandInfo diana_orAnyCR 0 0 255 255].

(** diana_gen.c:6159 *)
Definition cmd207 : DianaBaseGenObject :=
  command 112 0x0 0x0 0x0 75 4096 255 255 255 75
  [mkDianaOperandInfo diana_orRegMMX 4 0 255 255;
   mkDianaOperandInfo diana_orMemoryMMX 4 8 255 255].

(** diana_gen.c:6173 *)
Definition cmd229 : DianaBaseGenObject :=
  command 0 0x0 0x0 0x0 1374 16384 2 255 255 390
  [mkDianaOperandInfo diana_orRel16x32 0 0 255 255].

(** diana_gen.c:6213 *)
Definition cmd280 : DianaBaseGenObject :=
  command 0 0x0 0x0 0x0 1363 20480 255 255 255 379
  [mkDianaOperandInfo diana_orRegistry 2 0 255 255;
   mkDianaOperandInfo diana_orRegMem 2 0 255 255].

(** diana_gen.c:6220 *)
Definition cmd287 : DianaBaseGenObject :=
  command 0 0x0 0x0 0x0 1412 20480 255 255 255 426
  [mkDianaOperandInfo diana_orRegistry 2 0 255 255;
   mkDianaOperandInfo diana_orRegMem 1 0 255 255].

(** diana_gen.c:6059 *)
Definition cmd307 : DianaBaseGenObject :=
  command 0 0xd8 0x38 0xc0 805 1024 255 255 255 969
  [mkDianaOperandInfo diana_orMemOnly 0 0 255 255].

(** diana_gen.c:6060 *)
Definition cmd308 : DianaBaseGenObject :=
  command 0 0xe0 0x38 0xc0 803 0 255 255 255 967
  [mkDianaOperandInfo diana_orMemOnly 0 0 255 255].

(** diana_gen.c:6061 *)
Definition cmd309 : DianaBaseGenObject :=
  command 0 0xe8 0x38 0xc0 804 1024 255 255 255 968
  [mkDianaOperandInfo diana_orMemOnly 0 0 255 255].

(** diana_gen.c:6063 *)
Definition cmd311 : DianaBaseGenObject :=
  command 96 0xf0 0x38 0xc0 781 1024 255 255 255 317
  [mkDianaOperandInfo diana_orMemOnly 8 0 255 255].

(** diana_gen.c:6065 *)
Definition cmd313 : DianaBaseGenObject :=
  command 0 0xf8 0x38 0xc0 780 1024 255 255 255 316
  [mkDianaOperandInfo diana_orMemOnly 8 0 255 255].

(** diana_gen.c:6058 *)
Definition cmd306 : DianaBaseGenObject :=
  command 0 0x8 0x38 0x0 741 133120 255 255 255 278
  [mkDianaOperandInfo diana_orMemOnly 0 0 255 255].

(** diana_gen.c:6062 *)
Definition cmd310 : DianaBaseGenObject :=
  command 96 0x30 0x38 0x0 800 0 255 255 255 491
  [mkDianaOperandInfo diana_orRegMem 0 0 255 255].

(** diana_gen.c:6064 *)
Definition cmd312 : DianaBaseGenObject :=
  command 96 0x38 0x38 0x0 799 0 255 255 255 490
  [mkDianaOperandInfo diana_orRegMem 0 0 255 255].

(** diana_gen.c:6071 *)
Definition line_5_0FC7 : DianaBaseGenObject :=
  line DIANA_BASE_GEN_OBJECT_THE_SAME_OPCODE
  [(199, cmd307);
   (199, cmd308);
   (199, cmd309);
   (199, cmd311);
   (199, cmd313);
   (199, cmd306);
   (199, cmd310);
   (199, cmd312)].

(** diana_gen.c:6288 *)
Definition line_4_0F : DianaBaseGenObject :=
  index_line 0
  [(32, cmd112);
   (111, cmd207);
   (132, cmd229);
   (175, cmd280);
   (182, cmd287);
   (199, line_5_0FC7)].

(** diana_gen.c:7108 *)
Definition cmd426 : DianaBaseGenObject :=
  command 0 0x0 0x0 0x0 1423 24576 255 255 255 436
  [mkDianaOperandInfo diana_orRegistry 2 0 255 255].

(** diana_gen.c:7113 *)
Definition cmd431 : DianaBaseGenObject :=
  command 0 0x0 0x0 0x0 1423 24576 255 255 255 436
  [mkDianaOperandInfo diana_orRegistry 2 0 255 255].

(** diana_gen.c:7121 *)
Definition cmd439 : DianaBaseGenObject :=
  command 0 0x0 0x0 0x0 1419 24576 255 255 255 433
  [mkDianaOperandInfo diana_orRegistry 2 0 255 255].

(** diana_gen.c:3321 *)
Definition cmd1363 : DianaBaseGenObject :=
  evex_command 206 256 0x0 0x0 0x0 180 38014976 255 255 255 493
  [mkDianaOperandInfo diana_orRegZMM 64 0 255 255;
   mkDianaOperandInfo diana_orRegZMM 64 0 255 255;
   mkDianaOperandInfo diana_orMemoryZMM 64 64 255 255].

(** diana_gen.c:3334 *)
Definition line_6_6244 : DianaBaseGenObject :=
  index_line 0
  [(88, cmd1363)].

(** diana_gen.c:6290 *)
Definition line_4_62 : DianaBaseGenObject :=
  index_line 0
  [(68, line_6_6244)].

(** diana_gen.c:6700 *)
Definition cmd444 : DianaBaseGenObject :=
  command 0 0x0 0x0 0x0 1319 21504 255 255 255 338
  [mkDianaOperandInfo diana_orRegistry 2 0 255 255;
   mkDianaOperandInfo diana_orMemory 2 0 255 255].

(** diana_gen.c:6706 *)
Definition line_3_62 : DianaBaseGenObject :=
  line DIANA_BASE_GEN_OBJECT_THE_SAME_OPCODE
  [(98, line_4_62);
   (98, cmd444)].

(** diana_gen.c:5228 *)
Definition cmd3181 : DianaBaseGenObject :=
  command 112 0x0 0x0 0x0 61 135168 255 255 255 61
  [mkDianaOperandInfo diana_orRegXMM 4 0 255 255;
   mkDianaOperandInfo diana_orMemoryXMM 4 16 255 255].

(** diana_gen.c:5291 *)
Definition line_6_660F : DianaBaseGenObject :=
  index_line 0
  [(111, cmd3181)].

(** diana_gen.c:6297 *)
Definition line_4_66 : DianaBaseGenObject :=
  line 0
  [(15, line_6_660F)].

(** diana_gen.c:7138 *)
Definition cmd3268 : DianaBaseGenObject :=
  command 0 0x0 0x0 0x0 1374 0 1 255 255 390
  [mkDianaOperandInfo diana_orRel 1 0 255 255].

(** diana_gen.c:6757 *)
Definition cmd3304 : DianaBaseGenObject :=
  command 0 0x0 0x38 0x0 1315 18432 255 1 255 335
  [mkDianaOperandInfo diana_orRegMem 2 0 255 255;
   mkDianaOperandInfo diana_orImmediate 1 0 255 255].

(** diana_gen.c:6758 *)
Definition cmd3305 : DianaBaseGenObject :=
  command 0 0x8 0x38 0x0 1416 18432 255 1 255 430
  [mkDianaOperandInfo diana_orRegMem 2 0 255 255;
   mkDianaOperandInfo diana_orImmediate 1 0 255 255].

(** diana_gen.c:6759 *)
Definition cmd3306 : DianaBaseGenObject :=
  command 0 0x10 0x38 0x0 1313 18432 255 1 255 334
  [mkDianaOperandInfo diana_orRegMem 2 0 255 255;
   mkDianaOperandInfo diana_orImmediate 1 0 255 255].

(** diana_gen.c:6760 *)
Definition cmd3307 : DianaBaseGenObject :=
  command 0 0x18 0x38 0x0 1434 18432 255 1 255 447
  [mkDianaOperandInfo diana_orRegMem 2 0 255 255;
   mkDianaOperandInfo diana_orImmediate 1 0 255 255].

(** diana_gen.c:6761 *)
Definition cmd3308 : DianaBaseGenObject :=
  command 0 0x20 0x38 0x0 1317 18432 255 1 255 336
  [mkDianaOperandInfo diana_orRegMem 2 0 255 255;
   mkDianaOperandInfo diana_orImmediate 1 0 255 255].

(** diana_gen.c:6762 *)
Definition cmd3309 : DianaBaseGenObject :=
  command 0 0x28 0x38 0x0 1465 18432 255 1 255 478
  [mkDianaOperandInfo diana_orRegMem 2 0 255 255;
   mkDianaOperandInfo diana_orImmediate 1 0 255 255].

(** diana_gen.c:6763 *)
Definition cmd3310 : DianaBaseGenObject :=
  command 0 0x30 0x38 0x0 1472 18432 255 1 255 484
  [mkDianaOperandInfo diana_orRegMem 2 0 255 255;
   mkDianaOperandInfo diana_orImmediate 1 0 255 255].

(** diana_gen.c:6764 *)
Definition cmd3311 : DianaBaseGenObject :=
  command 0 0x38 0x38 0x0 1349 16384 255 1 255 368
  [mkDianaOperandInfo diana_orRegMem 2 0 255 255;
   mkDianaOperandInfo diana_orImmediate 1 0 255 255].

(** diana_gen.c:6770 *)
Definition line_3_83 : DianaBaseGenObject :=
  line DIANA_BASE_GEN_OBJECT_THE_SAME_OPCODE
  [(131, cmd3304);
   (131, cmd3305);
   (131, cmd3306);
   (131, cmd3307);
   (131, cmd3308);
   (131, cmd3309);
   (131, cmd3310);
   (131, cmd3311)].

(** diana_gen.c:7155 *)
Definition cmd3317 : DianaBaseGenObject :=
  command 0 0x0 0x0 0x0 1408 20480 255 255 255 423
  [mkDianaOperandInfo diana_orRegMem 2 0 255 255;
   mkDianaOperandInfo diana_orRegistry 2 0 255 255].

(** diana_gen.c:7157 *)
Definition cmd3319 : DianaBaseGenObject :=
  command 0 0x0 0x0 0x0 1408 20480 255 255 255 423
  [mkDianaOperandInfo diana_orRegistry 2 0 255 255;
   mkDianaOperandInfo diana_orRegMem 2 0 255 255].

(** diana_gen.c:7159 *)
Definition cmd3321 : DianaBaseGenObject :=
  command 0 0x0 0x0 0x0 1391 20480 255 255 255 407
  [mkDianaOperandInfo diana_orRegistry 2 0 255 255;
   mkDianaOperandInfo diana_orMemOnly 0 0 255 255].

(** diana_gen.c:7162 *)
Definition cmd3324 : DianaBaseGenObject :=
  command 0 0x0 0x0 0x0 1470 24576 255 255 255 482
  [mkDianaOperandInfo diana_orEAX 2 0 255 255;
   mkDianaOperandInfo diana_orRegistry 2 0 255 255].

(** diana_gen.c:7172 *)
Definition cmd3334 : DianaBaseGenObject :=
  command 0 0x0 0x0 0x0 1326 16416 4 255 255 345
  [mkDianaOperandInfo diana_orPtr 2 2 255 255].

(** diana_gen.c:7179 *)
Definition cmd3341 : DianaBaseGenObject :=
  command 0 0x0 0x0 0x0 1408 16384 255 255 255 423
  [mkDianaOperandInfo diana_orEAX 2 0 255 255;
   mkDianaOperandInfo diana_orOffset 2 0 255 255].

(** diana_gen.c:7182 *)
Definition cmd3344 : DianaBaseGenObject :=
  command 0 0x0 0x0 0x0 1410 0 255 255 255 424
  [mkDianaOperandInfo diana_orMemory 1 0 255 255;
   mkDianaOperandInfo diana_orMemory 1 0 255 255].

(** diana_gen.c:7188 *)
Definition cmd3350 : DianaBaseGenObject :=
  command 0 0x0 0x0 0x0 1463 0 255 255 255 476
  [mkDianaOperandInfo diana_orMemory 1 0 255 255].

(** diana_gen.c:7202 *)
Definition cmd3364 : DianaBaseGenObject :=
  command 0 0x0 0x0 0x0 1408 24577 255 255 255 423
  [mkDianaOperandInfo diana_orRegistry 2 0 255 255;
   mkDianaOperandInfo diana_orImmediate 2 0 255 255].

(** diana_gen.c:7211 *)
Definition cmd3389 : DianaBaseGenObject :=
  command 0 0x0 0x0 0x0 1428 0 255 255 255 441
  [].

(** diana_gen.c:5292 *)
Definition cmd3394 : DianaBaseGenObject :=
  command 0 0x0 0x0 0x0 214 4460544 255 255 255 527
  [mkDianaOperandInfo diana_orRegXMM 4 0 255 255;
   mkDianaOperandInfo diana_orMemoryXMM 4 16 255 255].

(** diana_gen.c:5319 *)
Definition cmd3427 : DianaBaseGenObject :=
  command 0 0x0 0x0 0x0 235 4456448 255 255 255 629
  [].

(** diana_gen.c:5325 *)
Definition line_6_C500 : DianaBaseGenObject :=
  index_line 0
  [(16, cmd3394);
   (119, cmd3427)].

(** diana_gen.c:5410 *)
Definition cmd3537 : DianaBaseGenObject :=
  command 0 0x0 0x0 0x0 237 5640192 255 255 255 631
  [mkDianaOperandInfo diana_orRegXMM 4 0 255 255;
   mkDianaOperandInfo diana_orMemoryXMM 4 16 255 255].

(** diana_gen.c:5472 *)
Definition line_6_C508 : DianaBaseGenObject :=
  index_line 0
  [(111, cmd3537)].

(** diana_gen.c:6303 *)
Definition line_4_C5 : DianaBaseGenObject :=
  line 0
  [(0, line_6_C500);
   (8, line_6_C508)].

(** diana_gen.c:6799 *)
Definition cmd3391 : DianaBaseGenObject :=
  command 0 0x0 0x0 0x0 1390 20480 255 255 255 406
  [mkDianaOperandInfo diana_orRegistry 2 0 255 255;
   mkDianaOperandInfo diana_orMemory 2 2 255 255].

(** diana_gen.c:6805 *)
Definition line_3_C5 : DianaBaseGenObject :=
  line DIANA_BASE_GEN_OBJECT_THE_SAME_OPCODE
  [(197, line_4_C5);
   (197, cmd3391)].

(** diana_gen.c:7213 *)
Definition cmd4282 : DianaBaseGenObject :=
  command 0 0x0 0x0 0x0 1360 0 255 2 1 376
  [mkDianaOperandInfo diana_orImmediate 2 0 255 255;
   mkDianaOperandInfo diana_orImmediate 1 0 255 255].

(** diana_gen.c:7233 *)
Definition cmd4755 : DianaBaseGenObject :=
  command 0 0x0 0x0 0x0 1326 16384 2 255 255 345
  [mkDianaOperandInfo diana_orRel 2 0 255 255].

(** diana_gen.c:7236 *)
Definition cmd4758 : DianaBaseGenObject :=
  command 0 0x0 0x0 0x0 1380 0 1 255 255 396
  [mkDianaOperandInfo diana_orRel 1 0 255 255].

(** diana_gen.c:5915 *)
Definition cmd4840 : DianaBaseGenObject :=
  command 96 0x0 0x0 0x0 62 135168 255 255 255 62
  [mkDianaOperandInfo diana_orRegXMM 4 0 255 255;
   mkDianaOperandInfo diana_orMemoryXMM 4 16 255 255].

(** diana_gen.c:5926 *)
Definition line_6_F30F : DianaBaseGenObject :=
  index_line 0
  [(111, cmd4840)].

(** diana_gen.c:6693 *)
Definition cmd4860 : DianaBaseGenObject :=
  command 0 0x0 0x0 0x0 760 0 255 255 255 297
  [].

(** diana_gen.c:6699 *)
Definition line_4_F3 : DianaBaseGenObject :=
  line 0
  [(15, line_6_F30F);
   (144, cmd4860)].

(** diana_gen.c:6998 *)
Definition cmd4871 : DianaBaseGenObject :=
  command 0 0x0 0x38 0x0 1466 16384 255 2 255 479
  [mkDianaOperandInfo diana_orRegMem 2 0 255 255;
   mkDianaOperandInfo diana_orImmediate 2 0 255 255].

(** diana_gen.c:6999 *)
Definition cmd4872 : DianaBaseGenObject :=
  command 0 0x8 0x38 0x0 1466 16896 255 2 255 479
  [mkDianaOperandInfo diana_orRegMem 2 0 255 255;
   mkDianaOperandInfo diana_orImmediate 2 0 255 255].

(** diana_gen.c:7000 *)
Definition cmd4873 : DianaBaseGenObject :=
  command 0 0x10 0x38 0x0 1415 18432 255 255 255 429
  [mkDianaOperandInfo diana_orRegMem 2 0 255 255].

(** diana_gen.c:7001 *)
Definition cmd4874 : DianaBaseGenObject :=
  command 0 0x18 0x38 0x0 1414 18432 255 255 255 428
  [mkDianaOperandInfo diana_orRegMem 2 0 255 255].

(** diana_gen.c:7002 *)
Definition cmd4875 : DianaBaseGenObject :=
  command 0 0x20 0x38 0x0 1413 16384 255 255 255 427
  [mkDianaOperandInfo diana_orRegMem 2 0 255 255].

(** diana_gen.c:7003 *)
Definition cmd4876 : DianaBaseGenObject :=
  command 0 0x28 0x38 0x0 1363 16384 255 255 255 379
  [mkDianaOperandInfo diana_orRegMem 2 0 255 255].

(** diana_gen.c:7004 *)
Definition cmd4877 : DianaBaseGenObject :=
  command 0 0x30 0x38 0x0 1357 16384 255 255 255 375
  [mkDianaOperandInfo diana_orRegMem 2 0 255 255].

(** diana_gen.c:7005 *)
Definition cmd4878 : DianaBaseGenObject :=
  command 0 0x38 0x38 0x0 1362 16384 255 255 255 378
  [mkDianaOperandInfo diana_orRegMem 2 0 255 255].

(** diana_gen.c:7011 *)
Definition line_3_F7 : DianaBaseGenObject :=
  line DIANA_BASE_GEN_OBJECT_THE_SAME_OPCODE
  [(247, cmd4871);
   (247, cmd4872);
   (247, cmd4873);
   (247, cmd4874);
   (247, cmd4875);
   (247, cmd4876);
   (247, cmd4877);
   (247, cmd4878)].

(** diana_gen.c:7020 *)
Definition cmd4887 : DianaBaseGenObject :=
  command 0 0x0 0x38 0x0 1365 18432 255 255 255 381
  [mkDianaOperandInfo diana_orRegMem 2 0 255 255].

(** diana_gen.c:7021 *)
Definition cmd4888 : DianaBaseGenObject :=
  command 0 0x8 0x38 0x0 1356 18432 255 255 255 374
  [mkDianaOperandInfo diana_orRegMem 2 0 255 255].

(** diana_gen.c:7022 *)
Definition cmd4889 : DianaBaseGenObject :=
  command 0 0x10 0x38 0x0 1326 16384 255 255 255 345
  [mkDianaOperandInfo diana_orRegMem 2 0 255 255].

(** diana_gen.c:7023 *)
Definition cmd4890 : DianaBaseGenObject :=
  command 0 0x18 0x38 0x0 1326 16384 255 255 255 345
  [mkDianaOperandInfo diana_orMemory 2 2 255 255].

(** diana_gen.c:7024 *)
Definition cmd4891 : DianaBaseGenObject :=
  command 0 0x20 0x38 0x0 1380 16384 255 255 255 396
  [mkDianaOperandInfo diana_orRegMem 2 0 255 255].

(** diana_gen.c:7025 *)
Definition cmd4892 : DianaBaseGenObject :=
  command 0 0x28 0x38 0x0 1380 16384 255 255 255 396
  [mkDianaOperandInfo diana_orMemory 2 2 255 255].

(** diana_gen.c:7026 *)
Definition cmd4893 : DianaBaseGenObject :=
  command 0 0x30 0x38 0x0 1423 16384 255 255 255 436
  [mkDianaOperandInfo diana_orRegMem 2 0 255 255].

(** diana_gen.c:7032 *)
Definition line_3_FF : DianaBaseGenObject :=
  line DIANA_BASE_GEN_OBJECT_THE_SAME_OPCODE
  [(255, cmd4887);
   (255, cmd4888);
   (255, cmd4889);
   (255, cmd4890);
   (255, cmd4891);
   (255, cmd4892);
   (255, cmd4893)].

(** diana_gen.c:7251 *)
Definition line_root : DianaBaseGenObject :=
  index_line 0
  [(1, cmd2);
   (3, cmd4);
   (15, line_4_0F);
   (80, cmd426);
   (85, cmd431);
   (93, cmd439);
   (98, line_3_62);
   (102, line_4_66);
   (116, cmd3268);
   (131, line_3_83);
   (137, cmd3317);
   (139, cmd3319);
   (141, cmd3321);
   (144, cmd3324);
   (154, cmd3334);
   (161, cmd3341);
   (164, cmd3344);
   (170, cmd3350);
   (184, cmd3364);
   (195, cmd3389);
   (197, line_3_C5);
   (200, cmd4282);
   (232, cmd4755);
   (235, cmd4758);
   (243, line_4_F3);
   (247, line_3_F7);
   (255, line_3_FF)].

(** ** The commands of the groups ([g_groups]) *)

Definition g_groups_commands : list Z :=
  [
   1; 2; 3; 4; 5; 6; 7; 8; 9; 10; 11; 12; 13; 14; 15; 16; 17; 18; 19; 20; 21; 22; 23; 24; 25;
   26; 27; 28; 29; 30; 31; 32; 33; 34; 35; 36; 37; 38; 39; 40; 41; 42; 43; 44; 45; 46; 47; 48;
   49; 50; 51; 52; 53; 54; 55; 56; 57; 58; 59; 60; 61; 62; 63; 64; 65; 66; 67; 68; 69; 70; 71;
   72; 73; 74; 75; 76; 77; 78; 79; 80; 81; 82; 83; 84; 85; 86; 87; 88; 89; 90; 91; 92; 93; 94;
   95; 96; 97; 98; 99; 100; 101; 102; 103; 104; 105; 106; 107; 108; 109; 110; 111; 112; 113;
   114; 115; 116; 117; 118; 119; 120; 121; 122; 123; 175; 124; 125; 126; 127; 128; 129; 130;
   131; 132; 133; 134; 135; 136; 137; 138; 139; 140; 141; 142; 143; 144; 145; 146; 147; 148;
   149; 150; 151; 152; 153; 154; 155; 156; 157; 158; 159; 160; 161; 162; 163; 164; 165; 166;
   167; 168; 169; 170; 171; 172; 173; 174; 176; 962; 963; 492; 493; 494; 495; 496; 497; 498;
   499; 500; 501; 502; 503; 504; 505; 506; 507; 508; 509; 510; 511; 512; 513; 514; 515; 516;
   517; 518; 519; 520; 521; 522; 523; 524; 525; 526; 527; 528; 529; 530; 531; 532; 533; 534;
   535; 536; 537; 538; 539; 540; 548; 549; 550; 551; 552; 553; 554; 629; 630; 631; 632; 633;
   634; 635; 636; 637; 638; 639; 640; 641; 642; 643; 644; 645; 646; 647; 648; 649; 650; 651;
   652; 653; 654; 655; 656; 657; 658; 659; 660; 661; 662; 663; 664; 665; 666; 667; 668; 669;
   670; 671; 672; 673; 674; 675; 676; 677; 678; 679; 680; 681; 682; 683; 684; 685; 686; 687;
   688; 689; 690; 691; 692; 693; 694; 695; 696; 697; 698; 699; 700; 701; 702; 703; 704; 705;
   706; 707; 708; 709; 710; 711; 712; 713; 714; 715; 716; 717; 718; 719; 720; 721; 722; 723;
   724; 725; 726; 727; 728; 729; 730; 731; 732; 733; 734; 735; 736; 737; 738; 739; 740; 741;
   742; 743; 744; 745; 746; 747; 748; 749; 750; 751; 752; 753; 754; 755; 756; 757; 758; 759;
   760; 761; 762; 763; 764; 765; 766; 767; 768; 769; 770; 771; 772; 773; 774; 775; 776; 777;
   778; 779; 780; 781; 782; 783; 784; 785; 786; 787; 788; 789; 790; 791; 792; 793; 794; 795;
   796; 797; 798; 799; 800; 801; 802; 803; 804; 805; 806; 807; 808; 825; 826; 827; 828; 829;
   830; 831; 832; 833; 834; 835; 836; 837; 838; 839; 840; 841; 842; 843; 844; 845; 852; 853;
   854; 855; 856; 857; 858; 859; 860; 861; 862; 863; 864; 865; 866; 867; 868; 869; 870; 871;
   872; 873; 874; 875; 876; 877; 878; 879; 880; 881; 882; 883; 884; 885; 886; 887; 888; 889;
   890; 891; 892; 893; 894; 895; 896; 897; 898; 899; 900; 901; 902; 903; 904; 905; 906; 907;
   908; 909; 910; 911; 912; 913; 914; 915; 916; 917; 918; 919; 920; 921; 922; 923; 924; 925;
   926; 927; 928; 929; 930; 931; 932; 933; 934; 935; 936; 937; 938; 939; 940; 941; 942; 943;
   944; 945; 946; 947; 948; 949; 950; 951; 952; 953; 954; 955; 956; 957; 958; 959; 960; 961;
   541; 542; 543; 544; 545; 546; 547; 555; 556; 557; 558; 559; 560; 561; 562; 563; 564; 565;
   566; 567; 568; 569; 570; 571; 572; 573; 574; 575; 576; 577; 578; 579; 580; 581; 582; 583;
   584; 585; 586; 587; 588; 589; 590; 591; 592; 593; 594; 595; 596; 597; 598; 599; 600; 846;
   847; 848; 849; 850; 809; 810; 811; 812; 813; 814; 815; 816; 817; 818; 819; 820; 821; 822;
   823; 824; 601; 602; 603; 604; 605; 606; 607; 608; 609; 610; 611; 612; 613; 614; 615; 616;
   617; 618; 619; 851; 177; 178; 179; 180; 181; 182; 183; 184; 185; 186; 187; 188; 189; 190;
   191; 192; 193; 194; 195; 196; 197; 198; 199; 200; 201; 202; 203; 204; 205; 206; 207; 208;
   209; 210; 211; 212; 213; 214; 215; 216; 217; 218; 219; 220; 221; 222; 223; 224; 225; 226;
   227; 228; 229; 230; 231; 232; 233; 234; 235; 236; 237; 238; 239; 240; 241; 242; 243; 244;
   245; 246; 247; 248; 249; 250; 251; 252; 253; 254; 255; 256; 257; 258; 259; 260; 261; 262;
   263; 264; 265; 266; 267; 268; 269; 270; 271; 272; 273; 274; 275; 276; 277; 278; 279; 280;
   281; 282; 283; 284; 285; 286; 287; 288; 289; 290; 291; 292; 293; 294; 295; 296; 297; 298;
   299; 300; 301; 302; 303; 304; 305; 306; 307; 308; 309; 310; 311; 312; 964; 313; 314; 315;
   316; 317; 318; 319; 320; 321; 322; 323; 324; 325; 326; 327; 329; 485; 328; 487; 489; 486;
   488; 490; 491; 965; 966; 967; 968; 969; 970; 971; 972; 973; 974; 975; 976; 977; 978; 979;
   980; 981; 982; 983; 984; 985; 986; 987; 988; 989; 990; 991; 992; 993; 994; 995; 996; 997;
   998; 999; 1000; 1001; 1002; 1003; 1004; 1005; 1006; 1007; 1008; 1009; 1010; 1011; 1012;
   1013; 1014; 1015; 1016; 1017; 1018; 1019; 1020; 1021; 1022; 1023; 1024; 1025; 1026; 1027;
   1028; 1029; 1030; 1031; 1032; 1033; 1034; 1035; 1036; 1037; 1038; 1039; 1040; 1041; 1042;
   1043; 1044; 1045; 1046; 1047; 1048; 1049; 1050; 1051; 1052; 1053; 1054; 1055; 1056; 1057;
   1058; 1059; 1060; 1061; 1062; 1063; 1064; 1065; 1066; 1067; 1068; 1069; 1070; 1071; 1072;
   1073; 1074; 1075; 1076; 1077; 1078; 1079; 1080; 1081; 1082; 1083; 1084; 1085; 1086; 1087;
   1088; 1089; 1090; 1091; 1092; 1093; 1094; 1095; 1096; 1097; 1098; 1099; 1100; 1101; 1102;
   1103; 1104; 1105; 1106; 1107; 1108; 1109; 1110; 1111; 1112; 1113; 1114; 1115; 1116; 1117;
   1118; 1119; 1120; 1121; 1122; 1123; 1124; 1125; 1126; 1127; 1128; 1129; 1130; 1131; 1132;
   1133; 1134; 1135; 1136; 1137; 1138; 1139; 1140; 1141; 1142; 1143; 1144; 1145; 1146; 1147;
   1148; 1149; 1150; 1151; 1152; 1153; 1154; 1155; 1156; 1157; 1158; 1159; 1160; 1161; 1162;
   1163; 1164; 1165; 1166; 1167; 1168; 1169; 1170; 1171; 1172; 1173; 1174; 1175; 1176; 1177;
   1178; 1179; 1180; 1181; 1182; 1183; 1184; 1185; 1186; 1187; 1188; 1189; 1190; 1191; 1192;
   1193; 1194; 1195; 1196; 1197; 1198; 1199; 1200; 1201; 1202; 1203; 1204; 1205; 1206; 1207;
   1208; 1209; 1210; 1211; 1212; 1213; 1214; 1215; 1216; 1217; 1218; 1219; 1220; 1221; 1222;
   1223; 1224; 1225; 1226; 1227; 1228; 1229; 1230; 1231; 1232; 1233; 1234; 1235; 1236; 1237;
   1238; 1239; 1240; 1241; 1242; 1243; 1244; 1245; 1246; 1247; 1248; 1249; 1250; 1251; 1252;
   1253; 1254; 1255; 1256; 1257; 1258; 1259; 1260; 1261; 1262; 1263; 1264; 1265; 1266; 1267;
   1268; 1269; 1270; 1271; 1272; 1273; 1274; 1275; 1276; 1277; 1278; 1279; 1280; 1281; 1282;
   1283; 1284; 1285; 1286; 1287; 1288; 1289; 1290; 1291; 1292; 1293; 1294; 1295; 1296; 1297;
   1298; 1299; 1300; 1301; 1302; 1303; 1304; 1305; 1306; 1307; 1308; 1309; 1310; 1311; 1312;
   1313; 1314; 1315; 1316; 1317; 1318; 1319; 1320; 1321; 1322; 1323; 1324; 1325; 1326; 1327;
   1328; 1329; 1330; 1331; 1332; 1333; 1334; 1335; 1336; 1337; 1338; 1339; 1340; 1341; 1342;
   1343; 1344; 1345; 1346; 1347; 1348; 1349; 1350; 1351; 1352; 1353; 1354; 1355; 1356; 1357;
   1358; 1359; 1360; 1361; 1362; 1363; 1364; 1365; 1366; 1367; 1368; 1369; 1370; 1371; 1372;
   1373; 1374; 1375; 1376; 1377; 1378; 1379; 1380; 1381; 1382; 1383; 1384; 1385; 1386; 1387;
   1388; 1389; 1390; 1391; 1392; 1393; 1394; 1395; 1396; 1397; 1398; 1399; 1400; 1401; 1402;
   1403; 1404; 1405; 1406; 1407; 1408; 1409; 1410; 1411; 1412; 1413; 1414; 1415; 1416; 1417;
   1418; 1419; 1420; 1421; 1422; 1423; 1424; 1425; 1426; 1427; 1428; 1429; 1430; 1431; 1432;
   1433; 1434; 1435; 1436; 1437; 1438; 1439; 1440; 1441; 1442; 1443; 1444; 1445; 1446; 1447;
   1448; 1449; 1450; 1451; 1452; 1453; 1454; 1455; 1456; 1457; 1458; 1459; 1460; 1461; 1462;
   1463; 1464; 1465; 1466; 1467; 1468; 1469; 1470; 1471; 1472; 330; 331; 332; 333; 334; 620;
   335; 621; 336; 337; 338; 339; 340; 341; 342; 343; 344; 345; 346; 347; 348; 349; 350; 351;
   352; 353; 354; 355; 356; 357; 358; 359; 360; 361; 362; 363; 364; 365; 366; 367; 368; 369;
   370; 622; 371; 372; 373; 374; 375; 623; 624; 376; 377; 378; 379; 380; 381; 382; 383; 384;
   385; 386; 387; 388; 389; 390; 391; 392; 393; 394; 395; 396; 397; 398; 399; 400; 401; 402;
   403; 404; 405; 406; 407; 408; 409; 410; 411; 412; 413; 414; 415; 416; 417; 418; 419; 420;
   421; 422; 625; 423; 626; 424; 425; 426; 427; 428; 429; 430; 431; 432; 433; 434; 627; 435;
   436; 437; 438; 439; 440; 441; 442; 443; 444; 445; 446; 447; 448; 449; 450; 451; 452; 453;
   454; 455; 456; 457; 458; 459; 460; 461; 462; 463; 464; 465; 466; 467; 468; 469; 470; 471;
   472; 473; 474; 475; 476; 477; 478; 479; 628; 480; 481; 482; 483; 484].

Definition g_groups : list DianaGroupInfo := map (fun id => mkDianaGroupInfo id None) g_groups_commands.

(** The tables after [Diana_Init]. *)
Definition sample_root : DianaBaseGenObject :=
  match Diana_Init line_root g_groups with
  | (Ok o, _) => o
  | _ => line_root
  end.

Definition cmd_nop : DianaCmdInfo :=
  mkDianaCmdInfo 0 0 0 0 1 0 0xFF 0xFF 0xFF None (Some diana_cmd_nop) [] 0.
