(* ===== verification/DecHoare.v ===== *)
(** [holds], a logic of invariants for the decoder's programs; and the reading of the stream: every byte is
    taken once and in order through the counting proxy. *)

From Stdlib Require Import ZArith Lia List Bool.
Import ListNotations.
From S2P Require Import Prelude Words Status Registers DecTypes DecStreams DecLink.
From S2P Require Import DecUtils.
Local Open Scope Z_scope.
Local Open Scope diana_scope.

(** An error is not [DI_SUCCESS]. *)
Definition is_error (c : Z) : Prop := negb (c =? DI_SUCCESS) = true.

Ltac is_error := first [reflexivity | assumption | match goal with H : is_error _ |- _ => exact H end].

Section Holds.
Context {T : Type}.
Variable Inv : DecState T -> Prop.

Definition holds {A} (m : M (DecState T) A) (V : A -> Prop) : Prop :=
  forall s, Inv s ->
    match m s with
    | (Ok a, s') => Inv s' /\ V a
    | (Err c, s') => is_error c /\ Inv s'
    | (Crash, _) => False
    end.

Lemma holds_ret {A} (a : A) (V : A -> Prop) : V a -> holds (ret a) V.
Proof. intros H s Hs. cbn. auto. Qed.

Lemma holds_fail {A} c (V : A -> Prop) : is_error c -> holds (fail c) V.
Proof. intros Hc s Hs. exact (conj Hc Hs). Qed.

Lemma holds_gets {A} (f : DecState T -> A) (V : A -> Prop) :
  (forall s, Inv s -> V (f s)) -> holds (gets f) V.
Proof. intros H s Hs. cbn. auto. Qed.

Lemma holds_modify g (V : unit -> Prop) : (forall s, Inv s -> Inv (g s)) -> V tt -> holds (modify g) V.
Proof. intros H Hv s Hs. cbn. auto. Qed.

Lemma holds_bind {A B} (m : M (DecState T) A) (f : A -> M (DecState T) B) V W :
  holds m V -> (forall a, V a -> holds (f a) W) -> holds (bind m f) W.
Proof.
  intros Hm Hf s Hs. unfold bind. specialize (Hm s Hs).
  destruct (m s) as [[a|c|] s']; auto. destruct Hm as (Hs' & Ha). exact (Hf a Ha s' Hs').
Qed.

Lemma holds_weaken {A} (m : M (DecState T) A) (V W : A -> Prop) :
  (forall a, V a -> W a) -> holds m V -> holds m W.
Proof. intros H Hm s Hs. specialize (Hm s Hs). destruct (m s) as [[a|c|] s']; intuition auto. Qed.

Lemma holds_when b m (V : unit -> Prop) : (b = true -> holds m V) -> V tt -> holds (when b m) V.
Proof. intros H Hv. destruct b; [now apply H|now apply holds_ret]. Qed.

Lemma holds_attempt {A} (m : M (DecState T) A) V :
  holds m V -> holds (attempt m) (fun r => match r with inl c => is_error c | inr a => V a end).
Proof.
  intros Hm s Hs. unfold attempt. specialize (Hm s Hs). destruct (m s) as [[a|c|] s']; tauto.
Qed.

Lemma holds_or_di_error {A} (m : M (DecState T) A) V : holds m V -> holds (or_di_error m) V.
Proof.
  intros Hm s Hs. unfold or_di_error. specialize (Hm s Hs). destruct (m s) as [[a|c|] s']; auto.
  split; [reflexivity|tauto].
Qed.

Lemma holds_some_or_crash {A} (o : option A) (V : A -> Prop) :
  (exists a, o = Some a /\ V a) -> holds (some_or_crash o) V.
Proof. intros (a & -> & Hv). now apply holds_ret. Qed.

Lemma holds_status_of (m : M (DecState T) unit) : holds m (fun _ => True) -> holds (status_of m) (fun _ => True).
Proof.
  intros Hm s Hs. unfold status_of. specialize (Hm s Hs). destruct (m s) as [[a|c|] s']; tauto.
Qed.

Lemma holds_return_status c (V : unit -> Prop) : V tt -> holds (return_status c) V.
Proof.
  intros H. unfold return_status. destruct (Z.eqb_spec c DI_SUCCESS) as [|N]; [now apply holds_ret|].
  apply holds_fail. unfold is_error. now apply negb_true_iff, Z.eqb_neq.
Qed.
End Holds.

Arguments holds {T} Inv {A} m V.

(** ** Programs that go from one phase to the next

    [hoare P m Q E]: from [P], [m] does not crash; with the value [a] it ends in [Q a], with an
    error in [E]. *)

Section Hoare.
Context {T : Type}.

Definition hoare {A} (P : DecState T -> Prop) (m : M (DecState T) A)
    (Q : A -> DecState T -> Prop) (E : DecState T -> Prop) : Prop :=
  forall s, P s -> match m s with
                   | (Ok a, s') => Q a s'
                   | (Err c, s') => is_error c /\ E s'
                   | (Crash, _) => False
                   end.

Variable E : DecState T -> Prop.

Lemma hoare_bind {A B} P (m : M (DecState T) A) (f : A -> M (DecState T) B) Q R :
  hoare P m Q E -> (forall a, hoare (Q a) (f a) R E) -> hoare P (bind m f) R E.
Proof.
  intros Hm Hf s Hs. unfold bind. specialize (Hm s Hs). destruct (m s) as [[a|c|] s']; auto.
  exact (Hf a s' Hm).
Qed.

Lemma hoare_ret {A} (P : DecState T -> Prop) (a : A) (Q : A -> DecState T -> Prop) :
  (forall s, P s -> Q a s) -> hoare P (ret a) Q E.
Proof. intros Hq s Hs. exact (Hq s Hs). Qed.

Lemma hoare_fail {A} (P : DecState T -> Prop) c (Q : A -> DecState T -> Prop) :
  is_error c -> (forall s, P s -> E s) -> hoare P (fail c) Q E.
Proof. intros Hc Hq s Hs. exact (conj Hc (Hq s Hs)). Qed.

Lemma hoare_gets {A} (P : DecState T -> Prop) (f : DecState T -> A) :
  hoare P (gets f) (fun a s => P s /\ a = f s) E.
Proof. intros s Hs. cbn. auto. Qed.

Lemma hoare_context {A B} (P : DecState T -> Prop) (f : DianaContext -> A) (k : A -> M (DecState T) B) Q :
  (forall a, hoare (fun s => P s /\ a = f (pContext s)) (k a) Q E) -> hoare P (bind (context f) k) Q E.
Proof. intros Hk. eapply hoare_bind; [apply hoare_gets|exact Hk]. Qed.

(** When it does not matter what the context is. *)
Lemma hoare_any_context {A B} (P : DecState T -> Prop) (f : DianaContext -> A) (k : A -> M (DecState T) B) Q :
  (forall a, hoare P (k a) Q E) -> hoare P (bind (context f) k) Q E.
Proof. intros Hk s Hs. exact (Hk _ s Hs). Qed.

Lemma hoare_result {A B} (P : DecState T -> Prop) (f : DianaParserResult -> A) (k : A -> M (DecState T) B) Q :
  (forall a, hoare (fun s => P s /\ a = f (pResult s)) (k a) Q E) -> hoare P (bind (result f) k) Q E.
Proof. intros Hk. eapply hoare_bind; [apply hoare_gets|exact Hk]. Qed.

Lemma hoare_set_context (P : DecState T -> Prop) g (Q : unit -> DecState T -> Prop) :
  (forall s, P s -> Q tt (with_pContext g s)) -> hoare P (set_context g) Q E.
Proof. intros Hq s Hs. exact (Hq s Hs). Qed.

Lemma hoare_set_result (P : DecState T -> Prop) g (Q : unit -> DecState T -> Prop) :
  (forall s, P s -> Q tt (with_pResult g s)) -> hoare P (set_result g) Q E.
Proof. intros Hq s Hs. exact (Hq s Hs). Qed.

Lemma hoare_conseq {A} (P P' : DecState T -> Prop) (m : M (DecState T) A) (Q Q' : A -> DecState T -> Prop)
    (E' : DecState T -> Prop) :
  hoare P' m Q' E' -> (forall s, P s -> P' s) -> (forall a s, Q' a s -> Q a s) ->
  (forall s, E' s -> E s) -> hoare P m Q E.
Proof.
  intros Hm Hp Hq He s Hs. specialize (Hm s (Hp s Hs)). destruct (m s) as [[a|c|] s']; auto.
  destruct Hm. auto.
Qed.

Lemma hoare_when P b m (Q : unit -> DecState T -> Prop) :
  (b = true -> hoare P m Q E) -> (b = false -> forall s, P s -> Q tt s) -> hoare P (when b m) Q E.
Proof. intros H1 H2. destruct b; [now apply H1|]. intros s Hs. now apply H2. Qed.

Lemma hoare_crash {A} (P : DecState T -> Prop) (Q : A -> DecState T -> Prop) :
  (forall s, P s -> False) -> hoare P crash Q E.
Proof. intros Hq s Hs. exact (Hq s Hs). Qed.

Lemma hoare_some {A} (P : DecState T -> Prop) (o : option A) (Q : A -> DecState T -> Prop) a :
  o = Some a -> (forall s, P s -> Q a s) -> hoare P (some_or_crash o) Q E.
Proof. intros -> Hq s Hs. exact (Hq s Hs). Qed.

Lemma hoare_pure (X : Prop) {A} (P : DecState T -> Prop) (m : M (DecState T) A) Q :
  (X -> hoare P m Q E) -> hoare (fun s => P s /\ X) m Q E.
Proof. intros Hm s (Hs & Hx). exact (Hm Hx s Hs). Qed.

Lemma hoare_assoc {A B C} P (m : M (DecState T) A) (f : A -> M (DecState T) B) (g : B -> M (DecState T) C) Q :
  hoare P (bind (bind m f) g) Q E -> hoare P (bind m (fun x => bind (f x) g)) Q E.
Proof. intros Hm s Hs. specialize (Hm s Hs). now rewrite bind_bind in Hm. Qed.

(** The status of a call becomes a value. *)
Definition by_status (Q E' : DecState T -> Prop) (c : Z) (s : DecState T) : Prop :=
  if c =? DI_SUCCESS then Q s else E' s.

Lemma hoare_status_of P (m : M (DecState T) unit) (Q : unit -> DecState T -> Prop) (E' : DecState T -> Prop) :
  hoare P m Q E' -> hoare P (status_of m) (by_status (Q tt) E') E.
Proof.
  intros Hm s Hs. unfold status_of. specialize (Hm s Hs). destruct (m s) as [[[]|c|] s']; auto.
  destruct Hm as (Hc & He). apply negb_true_iff in Hc. unfold by_status. now rewrite Hc.
Qed.

Lemma hoare_return_status (P : DecState T -> Prop) c (Q : unit -> DecState T -> Prop) :
  (c = DI_SUCCESS -> forall s, P s -> Q tt s) -> (forall s, P s -> E s) -> hoare P (return_status c) Q E.
Proof.
  intros Hq He. unfold return_status. destruct (Z.eqb_spec c DI_SUCCESS);
    [apply hoare_ret; auto|apply hoare_fail; auto].
  unfold is_error. now apply negb_true_iff, Z.eqb_neq.
Qed.
End Hoare.

Lemma holds_hoare {T A} (Inv : DecState T -> Prop) (m : M (DecState T) A) V :
  holds Inv m V -> hoare Inv m (fun a s => Inv s /\ V a) Inv.
Proof. auto. Qed.

(** An error status, and the state it is left in. *)
Ltac fails := apply hoare_fail; [is_error|].
Ltac fail_ok := apply holds_fail; is_error.

(** ** Buffers *)

Lemma mem_read_ok l off n : 0 <= off -> 0 <= n -> off + n <= Z.of_nat (length l) ->
  mem_read l off n = Some (buf_bytes l off n).
Proof.
  intros H1 H2 H3. unfold mem_read.
  destruct (Z.leb_spec 0 off); [|lia]. destruct (Z.leb_spec 0 n); [|lia].
  destruct (Z.leb_spec (off + n) (Z.of_nat (length l))); [reflexivity|lia].
Qed.

Lemma mem_write_ok l off bs : 0 <= off -> off + Z.of_nat (length bs) <= Z.of_nat (length l) ->
  mem_write l off bs = Some (buf_update l off bs).
Proof.
  intros H1 H2. unfold mem_write. destruct (Z.leb_spec 0 off); [|lia].
  destruct (Z.leb_spec (off + Z.of_nat (length bs)) (Z.of_nat (length l))); [reflexivity|lia].
Qed.

Lemma buf_bytes_none l a n : n <= 0 -> buf_bytes l a n = [].
Proof. intros. unfold buf_bytes. replace (Z.to_nat n) with O by lia. reflexivity. Qed.

(** Appending to the end of a window of the buffer. *)
Lemma buf_bytes_append l a n bs : 0 <= a -> 0 <= n -> a + n + Z.of_nat (length bs) <= Z.of_nat (length l) ->
  buf_bytes (buf_update l (a + n) bs) a (n + Z.of_nat (length bs)) = buf_bytes l a n ++ bs.
Proof.
  intros H1 H2 H3. apply (list_ext_nth _ _ 0).
  - rewrite buf_bytes_length by (rewrite ?buf_update_length; lia).
    rewrite length_app, buf_bytes_length by lia. lia.
  - intros i Hi. rewrite buf_bytes_length in Hi by (rewrite ?buf_update_length; lia).
    rewrite buf_bytes_nth by lia. rewrite buf_update_nth by lia.
    destruct (Nat.lt_ge_cases i (Z.to_nat n)) as [Hx|Hx].
    + rewrite app_nth1 by (rewrite buf_bytes_length; lia). rewrite buf_bytes_nth by lia.
      destruct (Z.leb_spec (a + n) (Z.of_nat (Z.to_nat a + i))); [lia|reflexivity].
    + rewrite app_nth2 by (rewrite buf_bytes_length; lia). rewrite buf_bytes_length by lia.
      destruct (Z.leb_spec (a + n) (Z.of_nat (Z.to_nat a + i))); [|lia].
      destruct (Z.ltb_spec (Z.of_nat (Z.to_nat a + i)) (a + n + Z.of_nat (length bs))); [|lia].
      cbn [andb]. f_equal. lia.
Qed.

(** A window that an update does not touch. *)
Lemma buf_bytes_apart l off bs a n : 0 <= off -> off + Z.of_nat (length bs) <= Z.of_nat (length l) ->
  0 <= a -> 0 <= n -> a + n <= Z.of_nat (length l) ->
  off + Z.of_nat (length bs) <= a \/ a + n <= off ->
  buf_bytes (buf_update l off bs) a n = buf_bytes l a n.
Proof.
  intros. apply buf_bytes_ext; rewrite ?buf_update_length; try lia.
  intros i Hi. rewrite buf_update_nth by lia.
  destruct (Z.leb_spec off (Z.of_nat i)), (Z.ltb_spec (Z.of_nat i) (off + Z.of_nat (length bs)));
    cbn [andb]; (reflexivity || lia).
Qed.

(** A window written as a whole. *)
Lemma buf_bytes_written l off bs : 0 <= off -> off + Z.of_nat (length bs) <= Z.of_nat (length l) ->
  buf_bytes (buf_update l off bs) off (Z.of_nat (length bs)) = bs.
Proof.
  intros H1 H2. pose proof (buf_bytes_append l off 0 bs) as E.
  rewrite Z.add_0_r in E. rewrite Z.add_0_l in E. rewrite E by lia. now rewrite buf_bytes_none by lia.
Qed.

(** ** The stream *)

Definition cache_ok (c : DianaContext) : Prop :=
  Z.of_nat (length (cache c)) = DI_CACHE_SIZE /\ Forall byte_ok (cache c).

Section Reading.
Context {T : Type} `{DianaReadStreamOk T}.

(** What was in the cache and in the stream when the decoder was called. *)
Variables prev src : list Z.

(** [L] has been read of [src], counted and recorded. *)
Record io (L : list Z) (s : DecState T) : Prop := {
  io_src : src = L ++ content (readStream s);
  io_size : m_iReadSize s = Z.of_nat (length L);
  io_count : Z.of_nat (length (m_lastBytes s)) < DI_PROXY_BYTES_SIZE;
  io_log : Z.of_nat (length L) < DI_PROXY_BYTES_SIZE -> m_lastBytes s = L;
  io_ok : stream_ok (readStream s)
}.

Lemma io_context L s g : io L s -> io L (with_pContext g s).
Proof. intros []. now constructor. Qed.
Lemma io_result L s g : io L s -> io L (with_pResult g s).
Proof. intros []. now constructor. Qed.
Lemma io_proxy L s g : io L s -> io L (with_cmdProxy g s).
Proof. intros []. now constructor. Qed.

Lemma io_unique L L' s : io L s -> io L' s -> L = L'.
Proof. intros [E1 _ _ _ _] [E2 _ _ _ _]. rewrite E1 in E2. now apply app_inv_tail in E2. Qed.

Lemma AddBytes_io bs (s : DecState T) :
  let s' := DianaProxyReadStream_AddBytes bs s in
  pContext s' = pContext s /\ pResult s' = pResult s /\ cmdProxy s' = cmdProxy s /\
  readStream s' = readStream s /\ m_iReadSize s' = m_iReadSize s /\
  m_lastBytes s' = if DI_PROXY_BYTES_SIZE <=? Z.of_nat (length (m_lastBytes s)) + Z.of_nat (length bs)
                   then m_lastBytes s else m_lastBytes s ++ bs.
Proof. unfold DianaProxyReadStream_AddBytes. destruct (_ <=? _); repeat split. Qed.

Lemma proxy_read_run n L s : 0 < n -> io L s ->
  exists st bs s', ProxyDianaReadFnc n s = (Ok (st, bs), s') /\ io (L ++ bs) s' /\
    pContext s' = pContext s /\ pResult s' = pResult s /\ cmdProxy s' = cmdProxy s /\
    Z.of_nat (length bs) <= n /\ Forall byte_ok bs /\ (st <> DI_SUCCESS -> bs = []).
Proof.
  intros Hn [Es Ez Ec0 El Eok]. unfold ProxyDianaReadFnc.
  destruct (DianaRead (readStream s) n) as [[st bs] t] eqn:R.
  destruct (read_spec _ _ _ _ _ Eok Hn R) as (Ec & Hl & Hf & Hok).
  assert (Hb : Forall byte_ok bs).
  { pose proof (content_ok (readStream s) Eok) as F. rewrite Ec in F. now apply Forall_app in F. }
  destruct (Z.eqb_spec st DI_SUCCESS) as [E0|E0].
  - destruct (AddBytes_io bs (with_readStream (fun _ => t) s)) as (A1 & A2 & A3 & A4 & A5 & A6).
    cbn [with_readStream pContext pResult cmdProxy readStream m_iReadSize m_lastBytes] in *.
    eexists st, bs, _. split; [reflexivity|].
    cbn [with_m_iReadSize pContext pResult cmdProxy].
    split; [|auto 8].
    constructor; cbn [with_m_iReadSize readStream m_iReadSize m_lastBytes];
      rewrite ?A4, ?A5, ?A6, ?length_app, ?Nat2Z.inj_add.
    + now rewrite Es, Ec, app_assoc.
    + lia.
    + destruct (Z.leb_spec DI_PROXY_BYTES_SIZE (Z.of_nat (length (m_lastBytes s)) + Z.of_nat (length bs)));
        rewrite ?length_app; lia.
    + intros H32. rewrite El by lia.
      destruct (Z.leb_spec DI_PROXY_BYTES_SIZE (Z.of_nat (length L) + Z.of_nat (length bs))); [lia|reflexivity].
    + exact Hok.
  - specialize (Hf E0). subst bs. eexists st, [], _. split; [reflexivity|].
    rewrite app_nil_r. split; [|auto 8].
    constructor; cbn [with_readStream readStream m_iReadSize m_lastBytes]; auto. now rewrite Es, Ec.
Qed.

(** ** Where the bytes are

    Since [L0] was read, no byte was lost: those that are taken ([pre], at least [low] of them),
    those in [win] and those in [gap] are what there was, in order.  A failed try may leave bytes
    in [gap]; with [keep] there are none. *)

Section Conserved.
Variable L0 : list Z.
Variable keep : Prop.
Variable low : Z.

Definition conserved (win : list Z) (s : DecState T) : Prop :=
  exists more pre gap, io (L0 ++ more) s /\ prev ++ L0 ++ more = pre ++ win ++ gap /\
    low <= Z.of_nat (length pre) /\ (keep -> gap = []).

Lemma conserved_context win g s : conserved win s -> conserved win (with_pContext g s).
Proof. intros (m & p & q & Hio & R). exists m, p, q. auto using io_context. Qed.
Lemma conserved_result win g s : conserved win s -> conserved win (with_pResult g s).
Proof. intros (m & p & q & Hio & R). exists m, p, q. auto using io_result. Qed.
Lemma conserved_proxy win g s : conserved win s -> conserved win (with_cmdProxy g s).
Proof. intros (m & p & q & Hio & R). exists m, p, q. auto using io_proxy. Qed.

Lemma conserved_take mid win s : conserved (mid ++ win) s -> conserved win s.
Proof.
  intros (m & p & q & Hio & E & Hl & Hk). exists m, (p ++ mid), q. split; [exact Hio|].
  split; [now rewrite <- !app_assoc in *|]. split; [rewrite length_app; lia|exact Hk].
Qed.

(** With nothing left in [win], what is read next is taken at once or goes to [win]. *)
Lemma conserved_read bs s s' : conserved [] s ->
  (forall L, io L s -> io (L ++ bs) s') -> conserved [] s'.
Proof.
  intros (m & p & q & Hio & E & Hl & Hk) Hs. exists (m ++ bs), (p ++ q ++ bs), [].
  split; [rewrite app_assoc; now apply Hs|]. split; [|split; [rewrite length_app; lia|auto]].
  cbn [app] in *. now rewrite !app_nil_r, !app_assoc, <- (app_assoc prev), E.
Qed.

(** ** The proxy over the cache

    The instruction starts at [newIt], the bytes in the cache end at [end_]; below [vend] there
    are no bytes of the stream. *)

Variables newIt vend end_ : Z.

Definition window (c : DianaContext) (from : Z) : list Z :=
  buf_bytes (cache c) (Z.max vend from) (end_ - Z.max vend from).

Lemma window_suffix c from from' :
  cache_ok c -> 0 <= from <= from' -> from' <= end_ -> 0 <= vend <= end_ -> end_ <= DI_CACHE_SIZE ->
  exists mid, window c from = mid ++ window c from'.
Proof.
  intros (Hl & _) H1 H2 H3 H4. unfold window.
  exists (buf_bytes (cache c) (Z.max vend from) (Z.max vend from' - Z.max vend from)).
  replace (end_ - Z.max vend from) with ((Z.max vend from' - Z.max vend from) + (end_ - Z.max vend from')) by lia.
  rewrite buf_bytes_split by lia. do 2 f_equal. lia.
Qed.

Lemma window_end c : vend <= end_ -> window c end_ = [].
Proof. intros. unfold window. apply buf_bytes_none. lia. Qed.

Record proxy_inv (bound : Z) (s : DecState T) : Prop := {
  pi_cache : cache_ok (pContext s);
  pi_start : 0 <= newIt < end_;
  pi_end : 0 <= vend <= end_ /\ end_ <= DI_CACHE_SIZE;
  pi_tail : 0 <= tail_size (cmdProxy s) <= end_ - newIt;
  pi_bound : tail_size (cmdProxy s) <= bound;
  pi_place : tail_size (cmdProxy s) <> 0 ->
    m_pBuffer (cmdProxy s) + begin (cmdProxy s) = end_ - tail_size (cmdProxy s);
  pi_io : conserved (window (pContext s) (end_ - tail_size (cmdProxy s))) s
}.

Lemma StreamProxy_Read_run k bound s : 0 < k -> proxy_inv bound s ->
  exists st bs s', StreamProxy_Read k s = (Ok (st, bs), s') /\
    proxy_inv (Z.min bound (Z.max 0 (tail_size (cmdProxy s) - k))) s' /\
    pContext s' = pContext s /\ pResult s' = pResult s /\ Forall byte_ok bs.
Proof.
  intros Hk [Hc Hs He Ht Hb Hp Hio]. unfold StreamProxy_Read, context.
  rewrite !bind_gets. set (tail := tail_size (cmdProxy s)) in *.
  assert (Hrd : forall n, 0 <= n <= tail -> tail <> 0 ->
    mem_read (cache (pContext s)) (m_pBuffer (cmdProxy s) + begin (cmdProxy s)) n =
    Some (buf_bytes (cache (pContext s)) (end_ - tail) n)).
  { intros n Hn N0. rewrite Hp by exact N0. destruct Hc as (Hl & _). apply mem_read_ok; lia. }
  assert (Hok : forall a n, Forall byte_ok (buf_bytes (cache (pContext s)) a n)).
  { intros. apply buf_bytes_ok, Hc. }
  destruct (Z.eqb_spec tail 0) as [E0|N0]; cbn [negb].
  - pose proof Hio as (more & p & q & Hio0 & _).
    destruct (proxy_read_run k _ s Hk Hio0) as (st & bs & s' & E & _ & Ec & Er & Epx & Hl & Hbb & _).
    exists st, bs, s'. split; [exact E|]. split; [|auto].
    rewrite E0 in *. constructor; rewrite ?Ec, ?Epx; fold tail; rewrite ?E0; auto; try lia.
    rewrite !Z.sub_0_r in *. rewrite window_end in * by lia.
    apply (conserved_read bs s); [exact Hio|]. intros L HL.
    destruct (proxy_read_run k L s Hk HL) as (? & ? & ? & E' & Hio' & _).
    rewrite E in E'. now injection E' as <- <- <-.
  - destruct (Z.leb_spec k tail) as [Hle|Hgt].
    + rewrite Hrd by lia. cbn [some_or_crash]. rewrite bind_ret, bind_modify.
      eexists _, _, _. split; [reflexivity|]. split; [|auto].
      destruct (window_suffix (pContext s) (end_ - tail) (end_ - (tail - k)) Hc) as (mid & Em); [lia..|].
      constructor; cbn [with_cmdProxy with_begin with_tail_size cmdProxy tail_size begin m_pBuffer pContext];
        fold tail; auto; try lia.
      apply conserved_proxy. apply (conserved_take mid). now rewrite <- Em.
    + rewrite Hrd by lia. cbn [some_or_crash]. rewrite bind_ret.
      pose proof Hio as (more & p & q & Hio0 & _).
      destruct (proxy_read_run (k - tail) _ s ltac:(lia) Hio0) as (st & bs & s' & E & _ & Ec & Er & Epx & Hl & Hbb & _).
      rewrite (bind_run _ _ _ _ _ E), bind_modify.
      eexists _, _, _. split; [reflexivity|].
      split; [|cbn [with_cmdProxy pContext pResult]; rewrite Ec, Er;
               split; [reflexivity|split; [reflexivity|apply Forall_app; auto]]].
      constructor; cbn [with_cmdProxy with_tail_size cmdProxy tail_size begin m_pBuffer pContext];
        rewrite ?Ec; auto; try lia.
      apply conserved_proxy. rewrite Z.sub_0_r, window_end by lia.
      apply (conserved_read bs s).
      * apply (conserved_take (window (pContext s) (end_ - tail))). now rewrite app_nil_r.
      * intros L HL. destruct (proxy_read_run (k - tail) L s ltac:(lia) HL) as (? & ? & ? & E' & Hio' & _).
        rewrite E in E'. now injection E' as <- <- <-.
Qed.
End Conserved.
End Reading.
