(* ===== verification/DecWalkProofs.v ===== *)
(** The walk through the opcode tables is a depth-first search: what [Diana_ParseCmdImpl] finds
    with its stack, positions and rollbacks is the first match of a recursive search, the fuel is
    enough, and no access leaves the stack or the cache.  What a search can find: commands of the
    tables, at a byte of the cache; and which bytes only lead on to the next byte. *)

From Stdlib Require Import ZArith Lia List Bool.
Import ListNotations.
From S2P Require Import Prelude Words Status Registers DecTypes DecStreams DecUtils DecWalk.
From S2P Require Import DecParser.
Local Open Scope Z_scope.

Definition line_flags (o : DianaBaseGenObject) : Z :=
  match o with CmdObject _ => 0 | LineObject f _ => f | IndexObject f _ => f end.

(** ** The search *)

Section Search.
Variables (c : DianaContext) (it_end : Z).

Definition byte_at (i : Z) : Z := nth (Z.to_nat i) (cache c) 0.

(** The key at [it]: the opcode, and the next byte when there is one. *)
Definition key_at (it : Z) : DianaParserCmdKey :=
  let have := negb (it_end - it - 1 =? 0) in
  mkDianaParserCmdKey (byte_at it) (if have then byte_at (it + 1) else 0) have.

Definition or_else {A} (a b : option A) : option A := match a with Some _ => a | None => b end.

(** The first command that matches, in the order of the lines: a line with the flag
    THE_SAME_OPCODE is searched for the same byte, another one for the next byte. *)
Fixpoint search (o : DianaBaseGenObject) (it : Z) : option (DianaCmdInfo * Z) :=
  let entry (k : option DianaBaseGenObject) : option (DianaCmdInfo * Z) :=
    match k with
    | None => None
    | Some o' =>
        match o' with
        | CmdObject info => if command_matches c (key_at it) info then Some (info, it) else None
        | _ =>
            if is_same_opcode (line_flags o') then search o' it
            else if it + 1 <? it_end then search o' (it + 1) else None
        end
    end in
  match o with
  | CmdObject _ => None
  | LineObject _ keys =>
      (fix first (l : list (Z * option DianaBaseGenObject)) : option (DianaCmdInfo * Z) :=
         match l with
         | [] => None
         | (opcode, k) :: l' => if opcode =? byte_at it then or_else (entry k) (first l') else first l'
         end) keys
  | IndexObject _ keys =>
      (fix pick (l : list (option DianaBaseGenObject)) (n : nat) {struct l} : option (DianaCmdInfo * Z) :=
         match l, n with
         | [], _ => None
         | k :: _, O => entry k
         | _ :: l', S n' => pick l' n'
         end) keys (Z.to_nat (byte_at it))
  end.

Definition search_entry (it : Z) (k : option DianaBaseGenObject) : option (DianaCmdInfo * Z) :=
  match k with
  | None => None
  | Some (CmdObject info) => if command_matches c (key_at it) info then Some (info, it) else None
  | Some o' =>
      if is_same_opcode (line_flags o') then search o' it
      else if it + 1 <? it_end then search o' (it + 1) else None
  end.

Fixpoint search_keys (it : Z) (l : list (Z * option DianaBaseGenObject)) : option (DianaCmdInfo * Z) :=
  match l with
  | [] => None
  | (opcode, k) :: l' =>
      if opcode =? byte_at it then or_else (search_entry it k) (search_keys it l')
      else search_keys it l'
  end.
End Search.

(** ** Well-formed tables

    Lines for the same opcode occur in index lines only, are regular lines, and not for opcode 2;
    an index line has its 256 entries; at most eight lines are nested. *)

Definition line_entry_ok (ok : DianaBaseGenObject -> bool) (k : option DianaBaseGenObject) : bool :=
  match k with
  | None | Some (CmdObject _) => true
  | Some o => negb (is_same_opcode (line_flags o)) && ok o
  end.

Definition index_entry_ok (ok : DianaBaseGenObject -> bool) (i : Z) (k : option DianaBaseGenObject) : bool :=
  match k with
  | None => true
  | Some o =>
      match o with
      | CmdObject _ => true
      | LineObject f _ => negb (is_same_opcode f && (i =? 2)) && ok o
      | IndexObject f _ => negb (is_same_opcode f) && ok o
      end
  end.

Fixpoint table_ok (o : DianaBaseGenObject) : bool :=
  match o with
  | CmdObject _ => true
  | LineObject _ keys => forallb (fun e => line_entry_ok table_ok (snd e)) keys
  | IndexObject _ keys =>
      (length keys =? 256)%nat &&
      (fix go (i : Z) (l : list (option DianaBaseGenObject)) : bool :=
         match l with [] => true | k :: l' => index_entry_ok table_ok i k && go (i + 1) l' end) 0 keys
  end.

Definition maximum (l : list nat) : nat := fold_right Nat.max O l.

Definition entry_height (h : DianaBaseGenObject -> nat) (k : option DianaBaseGenObject) : nat :=
  match k with None | Some (CmdObject _) => O | Some o => h o end.

Fixpoint height (o : DianaBaseGenObject) : nat :=
  match o with
  | CmdObject _ => O
  | LineObject _ keys => S (maximum (map (fun e => entry_height height (snd e)) keys))
  | IndexObject _ keys => S (maximum (map (entry_height height) keys))
  end.

(** ** Sizes *)

Definition entry_weight (k : option DianaBaseGenObject) : nat :=
  match k with Some o => weight o | None => 1%nat end.

Definition total (l : list (option DianaBaseGenObject)) : nat := list_sum (map entry_weight l).

Lemma total_cons k l : total (k :: l) = (entry_weight k + total l)%nat.
Proof. reflexivity. Qed.

Lemma weight_line f keys : weight (LineObject f keys) = (2 + total (map snd keys))%nat.
Proof.
  cbn [weight Nat.add]. do 2 apply f_equal. unfold total.
  induction keys as [|[opcode k] keys IH]; [reflexivity|]. cbn [map snd list_sum fold_right].
  rewrite IH. reflexivity.
Qed.

Lemma weight_index f keys : weight (IndexObject f keys) = (2 + total keys)%nat.
Proof.
  cbn [weight Nat.add]. do 2 apply f_equal. unfold total.
  induction keys as [|k keys IH]; [reflexivity|]. cbn [map list_sum fold_right].
  rewrite IH. reflexivity.
Qed.

Lemma total_nth keys n k : nth_error keys n = Some k -> (entry_weight k <= total keys)%nat.
Proof.
  unfold total. revert n. induction keys as [|x keys IH]; intros [|n] E; try discriminate.
  - injection E as ->. cbn. lia.
  - apply IH in E. cbn [map list_sum fold_right] in *. unfold list_sum in E. lia.
Qed.

Lemma maximum_nth l n x : nth_error l n = Some x -> (x <= maximum l)%nat.
Proof.
  revert n. induction l as [|y l IH]; intros [|n] E; try discriminate; cbn [maximum fold_right].
  - injection E as ->. lia.
  - apply IH in E. unfold maximum in E. lia.
Qed.

Lemma maximum_in l x : In x l -> (x <= maximum l)%nat.
Proof. intros H. apply In_nth_error in H. destruct H as (n & E). eauto using maximum_nth. Qed.

Lemma table_ok_index f keys n k :
  table_ok (IndexObject f keys) = true -> nth_error keys n = Some k ->
  index_entry_ok table_ok (Z.of_nat n) k = true.
Proof.
  cbn [table_ok]. rewrite andb_true_iff. intros (_ & H). revert H.
  enough (G : forall i, (fix go (i : Z) (l : list (option DianaBaseGenObject)) : bool :=
      match l with [] => true | k :: l' => index_entry_ok table_ok i k && go (i + 1) l' end) i keys = true ->
      nth_error keys n = Some k -> index_entry_ok table_ok (i + Z.of_nat n) k = true).
  { intros H E. apply (G 0 H E). }
  revert n. induction keys as [|x keys IH]; intros [|n] i H E; try discriminate.
  - injection E as ->. apply andb_true_iff in H. replace (i + Z.of_nat 0) with i by lia. tauto.
  - apply andb_true_iff in H. destruct H as (_ & H). specialize (IH n (i + 1) H E).
    replace (i + Z.of_nat (S n)) with (i + 1 + Z.of_nat n) by lia. exact IH.
Qed.

Lemma search_line c it_end f keys it :
  search c it_end (LineObject f keys) it = search_keys c it_end it keys.
Proof.
  cbn [search]. induction keys as [|[opcode k] keys IH]; [reflexivity|].
  cbn [search_keys]. rewrite <- IH. destruct (opcode =? byte_at c it); [|reflexivity].
  f_equal.
Qed.

Lemma search_index c it_end f keys it :
  search c it_end (IndexObject f keys) it =
  match nth_error keys (Z.to_nat (byte_at c it)) with
  | Some k => search_entry c it_end it k
  | None => None
  end.
Proof.
  cbn [search]. generalize (Z.to_nat (byte_at c it)) as n.
  induction keys as [|k keys IH]; intros [|n]; try reflexivity. cbn [nth_error]. apply IH.
Qed.

(** ** The stack of the walk *)

Definition is_line (o : DianaBaseGenObject) : bool :=
  match o with CmdObject _ => false | _ => true end.

Section Walk.
Variables (c : DianaContext) (it_end : Z).
Hypothesis cache_bytes : Forall byte_ok (cache c).
Hypothesis in_cache : it_end <= Z.of_nat (length (cache c)).

(** What is left to search in a state, and in the whole stack. *)
Definition rest (st : DianaParserContextState) : option (DianaCmdInfo * Z) :=
  match pLine st with
  | LineObject _ keys =>
      search_keys c it_end (opcodePosition st) (skipn (Z.to_nat (position st + 1)) keys)
  | IndexObject _ _ =>
      if position st =? -1 then search c it_end (pLine st) (opcodePosition st) else None
  | CmdObject _ => None
  end.

Definition cont (states : list DianaParserContextState) : option (DianaCmdInfo * Z) :=
  fold_right (fun st r => or_else (rest st) r) None states.

Definition remaining (st : DianaParserContextState) : nat :=
  match pLine st with
  | LineObject _ keys => S (total (map snd (skipn (Z.to_nat (position st + 1)) keys)))
  | IndexObject _ keys => if position st =? -1 then S (total keys) else 1%nat
  | CmdObject _ => 1%nat
  end.

Definition measure (states : list DianaParserContextState) : nat := list_sum (map remaining states).

Record good (st : DianaParserContextState) : Prop := {
  gd_ok : table_ok (pLine st) = true;
  gd_line : is_line (pLine st) = true;
  gd_byte : 0 <= opcodePosition st < it_end;
  gd_position : -1 <= position st;
  gd_index : match pLine st with
             | IndexObject _ _ => position st = -1 \/ position st = byte_at c (opcodePosition st)
             | _ => True
             end
}.

Fixpoint good_stack (states : list DianaParserContextState) : Prop :=
  match states with
  | [] => True
  | st :: below =>
      good st /\ (length states + height (pLine st) <= 9)%nat /\ good_stack below
  end.

Lemma remaining_pos st : (1 <= remaining st)%nat.
Proof. unfold remaining. destruct (pLine st); try destruct (_ =? -1); lia. Qed.

Lemma height_pos o : is_line o = true -> (1 <= height o)%nat.
Proof. destruct o; cbn [is_line height]; try discriminate; lia. Qed.

Definition key_ok (e : Z * option DianaBaseGenObject) : Prop :=
  line_entry_ok table_ok (snd e) = true.

Lemma height_line_entry f keys n opcode o :
  nth_error keys n = Some (opcode, Some o) -> (S (height o) <= height (LineObject f keys))%nat.
Proof.
  intros E. cbn [height]. apply le_n_S.
  apply (map_nth_error (fun e => entry_height height (snd e))) in E. cbn [snd] in E.
  apply maximum_nth in E. destruct o; cbn [entry_height] in E; cbn [height] in *; lia.
Qed.

Lemma height_index_entry f keys n o :
  nth_error keys n = Some (Some o) -> (S (height o) <= height (IndexObject f keys))%nat.
Proof.
  intros E. cbn [height]. apply le_n_S. apply (map_nth_error (entry_height height)) in E.
  apply maximum_nth in E. destruct o; cbn [entry_height] in E; cbn [height] in *; lia.
Qed.

Lemma byte_at_range it : 0 <= byte_at c it < 256.
Proof.
  unfold byte_at. destruct (nth_in_or_default (Z.to_nat it) (cache c) 0) as [H | ->]; [|lia].
  rewrite Forall_forall in cache_bytes. apply cache_bytes in H. exact H.
Qed.

(** The key that the code reads. *)
Lemma mem_read_byte l i : 0 <= i < Z.of_nat (length l) ->
  mem_read l i 1 = Some [nth (Z.to_nat i) l 0].
Proof.
  intros H. unfold mem_read.
  destruct (Z.leb_spec 0 i); [|lia]. destruct (Z.leb_spec (i + 1) (Z.of_nat (length l))); [|lia].
  cbn [andb Z.leb Z.compare]. f_equal. apply (list_ext_nth _ _ 0).
  - rewrite buf_bytes_length by lia. reflexivity.
  - intros k Hk. rewrite buf_bytes_length in Hk by lia. rewrite buf_bytes_nth by lia.
    replace k with O by lia. cbn [nth]. f_equal. lia.
Qed.

Lemma GetKey_ok it : 0 <= it < it_end ->
  GetKeyByAddress (cache c) it it_end = Ok (key_at c it_end it).
Proof.
  intros H. unfold GetKeyByAddress. rewrite mem_read_byte by lia.
  destruct (Z.eqb_spec (it_end - it - 1) 0) as [E|E]; cbn [negb].
  - unfold key_at. rewrite E. reflexivity.
  - rewrite mem_read_byte by lia. unfold key_at.
    destruct (Z.eqb_spec (it_end - it - 1) 0); [lia|]. reflexivity.
Qed.

(** There is room on the stack for a line below a good one. *)
Lemma push_ok new st below :
  (length (st :: below) + S (height (pLine new)) <= 9)%nat -> is_line (pLine new) = true ->
  PushOpcode new (st :: below) = Ok (new :: st :: below).
Proof.
  intros H L. apply height_pos in L. unfold PushOpcode, DI_MAX_LINES_COUNT.
  cbn [length] in *. destruct (Z.leb_spec 8 (Z.of_nat (S (length below)) - 1)); [lia|].
  destruct (Z.eqb_spec (Z.of_nat (S (length below)) - 1 + 1) 8); [lia|]. reflexivity.
Qed.

(** What one call of [FindNextCmdKey] at [at_] has to give, when [v] is the rest of the search
    and [m] the measure before it. *)
Definition outcome_ok (at_ : Z) (v : option (DianaCmdInfo * Z)) (m : nat) (f : Found) : Prop :=
  match f_found f, f_result f with
  | false, _ =>
      f_states f <> [] /\ good_stack (tl (f_states f)) /\ cont (tl (f_states f)) = v /\
      (measure (tl (f_states f)) < m)%nat
  | true, Some info => v = Some (info, at_)
  | true, None =>
      match f_states f with
      | [] => False
      | new :: below =>
          opcodePosition new = at_ + 1 /\ good_stack below /\ below <> [] /\
          (at_ + 1 < it_end -> good_stack (new :: below)) /\
          v = (if at_ + 1 <? it_end then cont (new :: below) else cont below) /\
          (measure (new :: below) < m)%nat
      end
  end.

(** ** The loop over the keys of a line *)

Lemma total_split (keys : list (Z * option DianaBaseGenObject)) n opcode k :
  nth_error keys n = Some (opcode, k) ->
  (entry_weight k + total (map snd (skipn (S n) keys)) <= total (map snd keys))%nat.
Proof.
  revert n. induction keys as [|[op x] keys IH]; intros [|n] E; try discriminate.
  - injection E as -> ->. cbn [skipn map snd]. now rewrite total_cons.
  - apply IH in E. cbn [skipn map snd] in *. rewrite total_cons. lia.
Qed.

(** How the scan of [ks] from position [pos] on ends. *)
Definition scan_result (at_ : Z) (st : DianaParserContextState) (below : list DianaParserContextState)
    (pos : Z) (ks : list (Z * option DianaBaseGenObject)) (f : Found) : Prop :=
  (f_found f = false /\ (exists p, f_states f = at_position p st :: below) /\
   search_keys c it_end at_ ks = None) \/
  (exists info, f_found f = true /\ f_result f = Some info /\
   search_keys c it_end at_ ks = Some (info, at_)) \/
  (exists n opcode o, f_found f = true /\ f_result f = None /\
   nth_error ks n = Some (opcode, Some o) /\ is_line o = true /\
   f_states f = mkDianaParserContextState o (-1) (at_ + 1)
                :: at_position (pos + Z.of_nat n) st :: below /\
   search_keys c it_end at_ ks =
     or_else (if at_ + 1 <? it_end then search c it_end o (at_ + 1) else None)
             (search_keys c it_end at_ (skipn (S n) ks))).

Lemma scan_next at_ st below pos opcode k ks f :
  search_keys c it_end at_ ((opcode, k) :: ks) = search_keys c it_end at_ ks ->
  scan_result at_ st below (pos + 1) ks f -> scan_result at_ st below pos ((opcode, k) :: ks) f.
Proof.
  intros E [(F & Q & V)|[(info & F & R & V)|(n & op & o & F & R & N & L & Q & V)]].
  - left. now rewrite E.
  - right; left. exists info. now rewrite E.
  - right; right. exists (S n), op, o. rewrite E. cbn [nth_error skipn].
    replace (pos + Z.of_nat (S n)) with (pos + 1 + Z.of_nat n) by lia. auto 8.
Qed.

Lemma scan_line_ok at_ st below ks : forall pos,
  Forall key_ok ks ->
  (forall o p opcode, In (opcode, Some o) ks -> is_line o = true ->
     PushOpcode (mkDianaParserContextState o (-1) (at_ + 1)) (at_position p st :: below) =
     Ok (mkDianaParserContextState o (-1) (at_ + 1) :: at_position p st :: below)) ->
  exists f, scan_line c (key_at c it_end at_) false at_ st below pos ks = Ok f /\
    scan_result at_ st below pos ks f.
Proof.
  induction ks as [|[opcode k] ks IH]; intros pos Hok Hpush.
  { eexists. split; [reflexivity|]. left. cbn. eauto. }
  inversion_clear Hok as [|? ? He Hok']. unfold key_ok in He. cbn [snd] in He.
  assert (Next : search_keys c it_end at_ ((opcode, k) :: ks) = search_keys c it_end at_ ks ->
    exists f, scan_line c (key_at c it_end at_) false at_ st below (pos + 1) ks = Ok f /\
      scan_result at_ st below pos ((opcode, k) :: ks) f).
  { intros E. destruct (IH (pos + 1) Hok') as (f & F & R); [intros o p op Hin; apply (Hpush o p op); now right|].
    exists f. split; [exact F|]. now apply scan_next. }
  cbn [scan_line]. change (chOpcode (key_at c it_end at_)) with (byte_at c at_).
  assert (Es : search_keys c it_end at_ ((opcode, k) :: ks) =
    if opcode =? byte_at c at_ then or_else (search_entry c it_end at_ k) (search_keys c it_end at_ ks)
    else search_keys c it_end at_ ks) by reflexivity.
  destruct (Z.eqb_spec opcode (byte_at c at_)) as [Eo|Eo]; cbn [negb]; [|exact (Next Es)].
  destruct k as [o|]; [|exact (Next Es)].
  assert (Push := Hpush o pos opcode (or_introl eq_refl)).
  assert (Sub : is_line o = true -> line_entry_ok table_ok (Some o) = true ->
    DispatchKey c (key_at c it_end at_) (Some o) false at_ =
      Line (mkDianaParserContextState o (-1) (at_ + 1)) false /\
    search_entry c it_end at_ (Some o) =
      if at_ + 1 <? it_end then search c it_end o (at_ + 1) else None).
  { intros L Ho. destruct o as [i|fl l|fl l]; [discriminate| |];
      cbn [line_entry_ok line_flags] in Ho; apply andb_true_iff in Ho; destruct Ho as (Ho & _);
      cbn [DispatchKey search_entry line_flags]; unfold dispatch_line;
      destruct (is_same_opcode fl); (discriminate || auto). }
  destruct (is_line o) eqn:L.
  - destruct (Sub eq_refl He) as (-> & Ee). rewrite (Push eq_refl).
    eexists. split; [reflexivity|]. right; right. exists O, opcode, o.
    rewrite Es, Ee, Z.add_0_r. cbn [nth_error skipn]. auto 8.
  - destruct o as [info|fl l|fl l]; try discriminate. cbn [DispatchKey search_entry] in *.
    destruct (command_matches c (key_at c it_end at_) info); [|exact (Next Es)].
    eexists. split; [reflexivity|]. right; left. exists info. auto.
Qed.

Lemma skipn_nth_error {A} (l : list A) p n : nth_error (skipn p l) n = nth_error l (p + n).
Proof. revert l. induction p as [|p IH]; intros [|x l]; cbn; auto. now destruct n. Qed.

Lemma skipn_skipn_add {A} (l : list A) p n : skipn n (skipn p l) = skipn (p + n) l.
Proof. revert l. induction p as [|p IH]; intros [|x l]; cbn; auto. now rewrite skipn_nil. Qed.

Lemma table_ok_line f keys : table_ok (LineObject f keys) = true -> Forall key_ok keys.
Proof. cbn [table_ok]. intros H. rewrite forallb_forall in H. now apply Forall_forall. Qed.

Lemma line_entry_table o : line_entry_ok table_ok (Some o) = true -> is_line o = true -> table_ok o = true.
Proof. destruct o; cbn; try discriminate; intros H _; apply andb_true_iff in H; tauto. Qed.

Lemma good_new o at_ : table_ok o = true -> is_line o = true -> 0 <= at_ < it_end ->
  good (mkDianaParserContextState o (-1) at_).
Proof. intros. constructor; cbn; auto; [lia|]. destruct o; auto. Qed.

Lemma rest_new o at_ : is_line o = true ->
  rest (mkDianaParserContextState o (-1) at_) = search c it_end o at_.
Proof. destruct o; cbn; try discriminate; auto. intros _. now rewrite <- search_line with (f := flags). Qed.

Lemma weight_new o at_ : is_line o = true ->
  S (remaining (mkDianaParserContextState o (-1) at_)) = weight o.
Proof. destruct o; try discriminate; intros _; [rewrite weight_line|rewrite weight_index]; reflexivity. Qed.

(** ** A line from a position on *)

Lemma find_in_line_ok st below f keys p at_ :
  pLine st = LineObject f keys ->
  (position st = Z.of_nat p \/ (position st = -1 /\ p = O /\ byte_at c at_ <> 2)) ->
  opcodePosition st = at_ -> 0 <= at_ < it_end -> table_ok (pLine st) = true ->
  (length (st :: below) + height (pLine st) <= 9)%nat -> good_stack below ->
  exists fd, find_in_line c (key_at c it_end at_) false at_ st below = Ok fd /\
    outcome_ok at_ (or_else (search_keys c it_end at_ (skipn p keys)) (cont below))
      (S (total (map snd (skipn p keys)) + measure below)) fd.
Proof.
  intros El Hp Ea Ha Hok Hh Hb. pose proof Hok as Hkeys. rewrite El in Hkeys.
  apply table_ok_line in Hkeys.
  assert (Start : find_in_line c (key_at c it_end at_) false at_ st below =
    scan_line c (key_at c it_end at_) false at_ st below (Z.of_nat p) (skipn p keys)).
  { unfold find_in_line. rewrite El. destruct Hp as [Ep|(Ep & -> & N2)]; rewrite Ep.
    - destruct (Z.ltb_spec (Z.of_nat p) 0); [lia|]. now rewrite Nat2Z.id.
    - cbn [Z.ltb Z.compare]. change (chOpcode (key_at c it_end at_)) with (byte_at c at_).
      destruct (Z.eqb_spec (byte_at c at_) DIANA_BASE_GEN_OBJECT_LINE); [now elim N2|reflexivity]. }
  rewrite Start. rewrite El in Hh.
  destruct (scan_line_ok at_ st below (skipn p keys) (Z.of_nat p)) as (fd & F & R).
  { rewrite Forall_forall in *. intros x Hx. apply Hkeys.
    rewrite <- (firstn_skipn p keys). apply in_or_app. now right. }
  { intros o q opcode Hin L. apply In_nth_error in Hin. destruct Hin as (n & En).
    rewrite skipn_nth_error in En. apply height_line_entry with (f := f) in En.
    apply push_ok; [cbn [length pLine] in *; lia|exact L]. }
  exists fd. split; [exact F|]. unfold outcome_ok.
  destruct R as [(Ef & (q & Es) & V)|[(info & Ef & Er & V)|(n & opcode & o & Ef & Er & En & L & Es & V)]].
  - rewrite Ef, Es, V. cbn [tl or_else]. split; [discriminate|]. split; [exact Hb|].
    split; [reflexivity|lia].
  - now rewrite Ef, Er, V.
  - rewrite Ef, Er, Es. pose proof En as En'. rewrite skipn_nth_error in En'.
    pose proof (height_line_entry f _ _ _ _ En') as Hho.
    assert (Ho : table_ok o = true).
    { apply line_entry_table; [|exact L]. rewrite Forall_forall in Hkeys.
      apply (Hkeys (opcode, Some o)). eauto using nth_error_In. }
    assert (Gst : good (at_position (Z.of_nat p + Z.of_nat n) st)).
    { constructor; cbn [at_position pLine opcodePosition position]; rewrite ?El; auto; try lia.
      - rewrite <- El. exact Hok. }
    assert (Gs : good_stack (at_position (Z.of_nat p + Z.of_nat n) st :: below)).
    { cbn [good_stack at_position pLine length] in *. rewrite El. auto. }
    assert (Rst : rest (at_position (Z.of_nat p + Z.of_nat n) st) =
                  search_keys c it_end at_ (skipn (S n) (skipn p keys))).
    { unfold rest. cbn [at_position pLine position opcodePosition]. rewrite El, Ea, skipn_skipn_add.
      do 2 f_equal. lia. }
    pose proof (total_split _ _ _ _ En) as Ht. cbn [entry_weight] in Ht.
    rewrite <- (weight_new o (at_ + 1) L) in Ht.
    split; [reflexivity|]. split; [exact Gs|]. split; [discriminate|]. split; [|split].
    + intros Hlt. cbn [good_stack length] in *. split; [apply good_new; auto; lia|]. split; [|exact Gs].
      cbn [pLine] in *. lia.
    + rewrite V. cbn [cont fold_right]. rewrite Rst, rest_new by exact L. fold (cont below).
      destruct (at_ + 1 <? it_end); [|reflexivity]. destruct (search c it_end o (at_ + 1)); reflexivity.
    + unfold measure in *. cbn [map list_sum fold_right] in *.
      assert (El' : remaining (at_position (Z.of_nat p + Z.of_nat n) st) =
                    S (total (map snd (skipn (S n) (skipn p keys))))).
      { unfold remaining. cbn [at_position pLine position]. rewrite El, skipn_skipn_add.
        do 4 f_equal. lia. }
      rewrite El'. unfold list_sum. lia.
Qed.

Lemma outcome_ok_le at_ v m m' f : (m <= m')%nat -> outcome_ok at_ v m f -> outcome_ok at_ v m' f.
Proof.
  intros Hm. unfold outcome_ok. destruct (f_found f), (f_result f); auto.
  - destruct (f_states f); auto. intros (E & G & N & G2 & V & L).
    exact (conj E (conj G (conj N (conj G2 (conj V (Nat.lt_le_trans _ _ _ L Hm)))))).
  - intros (N & G & V & L). exact (conj N (conj G (conj V (Nat.lt_le_trans _ _ _ L Hm)))).
  - intros (N & G & V & L). exact (conj N (conj G (conj V (Nat.lt_le_trans _ _ _ L Hm)))).
Qed.

Lemma index_entry_table i o : index_entry_ok table_ok i (Some o) = true -> is_line o = true ->
  table_ok o = true /\
  (is_same_opcode (line_flags o) = true -> exists f keys, o = LineObject f keys /\ i <> 2).
Proof.
  destruct o as [|f l|f l]; cbn [index_entry_ok is_line line_flags]; try discriminate; intros H _;
    apply andb_true_iff in H; destruct H as (H1 & H2); (split; [exact H2|]); intros E; rewrite E in H1.
  - exists f, l. split; [reflexivity|]. destruct (Z.eqb_spec i 2); [discriminate|assumption].
  - discriminate.
Qed.

Lemma table_ok_length f keys : table_ok (IndexObject f keys) = true -> length keys = 256%nat.
Proof. cbn [table_ok]. rewrite andb_true_iff, Nat.eqb_eq. tauto. Qed.

(** ** One entry of an index line *)

Lemma dispatch_line_object k at_ o : is_line o = true ->
  DispatchKey c k (Some o) false at_ =
  (if is_same_opcode (line_flags o) then Line (mkDianaParserContextState o (-1) at_) true
   else Line (mkDianaParserContextState o (-1) (at_ + 1)) false) /\
  search_entry c it_end at_ (Some o) =
  (if is_same_opcode (line_flags o) then search c it_end o at_
   else if at_ + 1 <? it_end then search c it_end o (at_ + 1) else None).
Proof. destruct o; cbn; try discriminate; auto. Qed.

Lemma index_step st below f keys k at_ :
  pLine st = IndexObject f keys -> opcodePosition st = at_ -> position st = byte_at c at_ ->
  nth_error keys (Z.to_nat (byte_at c at_)) = Some k -> good_stack (st :: below) ->
  exists fd,
    match DispatchKey c (key_at c it_end at_) k false at_ with
    | NoKey => Ok (mkFound false None (st :: below))
    | Command info => Ok (mkFound true (Some info) (st :: below))
    | Line new bRetry =>
        match PushOpcode new (st :: below) with
        | Ok states =>
            if bRetry then
              match states with
              | [] => Crash
              | top :: rest => find_in_line c (key_at c it_end at_) false at_ top rest
              end
            else Ok (mkFound true None states)
        | Err code => Err code
        | Crash => Crash
        end
    end = Ok fd /\
    outcome_ok at_ (or_else (search_entry c it_end at_ k) (cont below))
      (S (total keys + measure below)) fd.
Proof.
  intros El Ea Ep En Gs. pose proof (byte_at_range at_) as Hb.
  pose proof (total_nth _ _ _ En) as Hw. pose proof Gs as (Gst & Hh & Gb).
  assert (Rst : rest st = None).
  { unfold rest. rewrite El, Ep. destruct (Z.eqb_spec (byte_at c at_) (-1)); [lia|reflexivity]. }
  assert (Mst : remaining st = 1%nat).
  { unfold remaining. rewrite El, Ep. destruct (Z.eqb_spec (byte_at c at_) (-1)); [lia|reflexivity]. }
  assert (Cst : cont (st :: below) = cont below) by (cbn [cont fold_right]; rewrite Rst; reflexivity).
  assert (Miss : exists fd, Ok (mkFound false None (st :: below)) = Ok fd /\
    outcome_ok at_ (cont below) (S (total keys + measure below)) fd).
  { eexists. split; [reflexivity|]. unfold outcome_ok. cbn [f_found f_states tl].
    split; [discriminate|]. split; [exact Gb|]. split; [reflexivity|lia]. }
  destruct k as [o|]; [|exact Miss]. destruct (is_line o) eqn:L.
  - destruct (dispatch_line_object (key_at c it_end at_) at_ o L) as (-> & ->).
    pose proof (gd_ok _ Gst) as Hok. rewrite El in Hok.
    pose proof (table_ok_index _ _ _ _ Hok En) as Ho. rewrite Z2Nat.id in Ho by lia.
    destruct (index_entry_table _ _ Ho L) as (Hot & Hsame).
    pose proof (height_index_entry f _ _ _ En) as Hho. rewrite El in Hh.
    assert (Push : forall p, PushOpcode (mkDianaParserContextState o (-1) p) (st :: below) =
      Ok (mkDianaParserContextState o (-1) p :: st :: below))
      by (intros p; apply push_ok; cbn [pLine length] in *; (lia || exact L)).
    pose proof (gd_byte _ Gst) as Hr. rewrite Ea in Hr. cbn [entry_weight] in Hw.
    destruct (is_same_opcode (line_flags o)) eqn:Sm.
    + rewrite Push. destruct (Hsame eq_refl) as (fl & l & -> & N2).
      destruct (find_in_line_ok (mkDianaParserContextState (LineObject fl l) (-1) at_) (st :: below)
                  fl l 0 at_) as (fd & F & O); auto; cbn [pLine length] in *; try lia.
      exists fd. split; [exact F|]. rewrite search_line. rewrite Cst in O. cbn [skipn] in O.
      eapply outcome_ok_le; [|exact O]. rewrite weight_line in Hw.
      unfold measure in *. cbn [map list_sum fold_right] in *. rewrite Mst. unfold list_sum. lia.
    + rewrite Push. eexists. split; [reflexivity|]. unfold outcome_ok. cbn [f_found f_result f_states].
      split; [reflexivity|]. split; [exact Gs|]. split; [discriminate|]. split; [|split].
      * intros Hlt. cbn [good_stack length pLine] in *. split; [apply good_new; auto; lia|].
        split; [lia|exact Gs].
      * change (cont (mkDianaParserContextState o (-1) (at_ + 1) :: st :: below)) with
          (or_else (rest (mkDianaParserContextState o (-1) (at_ + 1))) (cont (st :: below))).
        rewrite rest_new, Cst by exact L. now destruct (at_ + 1 <? it_end).
      * pose proof (weight_new o (at_ + 1) L) as Hn. unfold measure in *.
        cbn [map list_sum fold_right] in *. rewrite Mst. unfold list_sum. lia.
  - destruct o as [info|fl l|fl l]; try discriminate. cbn [DispatchKey search_entry].
    destruct (command_matches c (key_at c it_end at_) info); [|exact Miss].
    eexists. split; [reflexivity|]. reflexivity.
Qed.

Lemma FindNext_ok st below :
  good_stack (st :: below) ->
  exists fd, FindNextCmdKey c (key_at c it_end (opcodePosition st)) false (opcodePosition st) (st :: below)
             = Ok fd /\
    outcome_ok (opcodePosition st) (cont (st :: below)) (measure (st :: below)) fd.
Proof.
  intros Gs. pose proof Gs as (Gst & Hh & Gb). set (at_ := opcodePosition st).
  pose proof (byte_at_range at_) as Hb. pose proof (gd_position _ Gst) as Hp.
  pose proof (gd_byte _ Gst) as Hr. pose proof (gd_ok _ Gst) as Hok.
  pose proof (gd_index _ Gst) as Hi. fold at_ in Hi, Hr.
  unfold FindNextCmdKey. cbn [at_position pLine].
  change (chOpcode (key_at c it_end at_)) with (byte_at c at_).
  assert (Ec : cont (st :: below) = or_else (rest st) (cont below)) by reflexivity.
  assert (Em : measure (st :: below) = (remaining st + measure below)%nat) by reflexivity.
  rewrite Ec, Em. clear Ec Em.
  destruct (pLine st) as [i|f keys|f keys] eqn:El.
  - pose proof (gd_line _ Gst) as L. rewrite El in L. discriminate.
  - destruct (find_in_line_ok (at_position (position st + 1) st) below f keys
                (Z.to_nat (position st + 1)) at_) as (fd & F & O);
      cbn [at_position pLine position opcodePosition]; rewrite ?El; auto; [left; lia|].
    exists fd. split; [exact F|]. unfold rest, remaining. rewrite El. exact O.
  - cbn [position]. destruct Hi as [Ei|Ei]; rewrite Ei.
    + destruct (nth_error keys (Z.to_nat (byte_at c at_))) as [k|] eqn:En.
      2:{ exfalso. apply nth_error_None in En. rewrite (table_ok_length _ _ Hok) in En. lia. }
      set (st' := at_position (byte_at c at_) (mkDianaParserContextState (IndexObject f keys) (-1 + 1)
                                                (opcodePosition st))).
      assert (Gs' : good_stack (st' :: below)).
      { cbn [good_stack length] in *. subst st'. cbn [at_position pLine].
        split; [|auto]. constructor; cbn; auto; fold at_; lia. }
      destruct (index_step st' below f keys k at_ eq_refl eq_refl eq_refl En Gs') as (fd & F & O).
      exists fd. split.
      { rewrite <- F. unfold st', at_position. cbn [pLine position opcodePosition]. rewrite El.
        destruct (Z.ltb_spec (byte_at c at_) (-1 + 1)); [lia|reflexivity]. }
      unfold rest, remaining. rewrite El, Ei. cbn [Z.eqb Pos.eqb].
      rewrite search_index. fold at_. rewrite En. exact O.
    + change (position (at_position (byte_at c at_ + 1) st)) with (byte_at c at_ + 1).
      destruct (Z.ltb_spec (byte_at c at_) (byte_at c at_ + 1)); [|lia].
      eexists. split; [reflexivity|]. unfold rest, remaining. rewrite El, Ei.
      destruct (Z.eqb_spec (byte_at c at_) (-1)); [lia|]. unfold outcome_ok.
      cbn [f_found f_states tl or_else]. split; [discriminate|]. split; [exact Gb|].
      split; [reflexivity|lia].
Qed.

(** ** The walk *)

(** One round gives the command the search finds, or a smaller stack with the same search left,
    or the end of the search. *)
Lemma walk_step_ok st below :
  good_stack (st :: below) ->
  match walk_step c it_end (opcodePosition st) (st :: below) with
  | Ok (inl r) => cont (st :: below) = Some r
  | Ok (inr ([], _)) => False
  | Ok (inr (st' :: below', it')) =>
      it' = opcodePosition st' /\ good_stack (st' :: below') /\
      cont (st' :: below') = cont (st :: below) /\
      (measure (st' :: below') < measure (st :: below))%nat
  | Err code => code = DI_ERROR /\ cont (st :: below) = None
  | Crash => False
  end.
Proof.
  intros Gs. pose proof Gs as (Gst & _). unfold walk_step.
  rewrite GetKey_ok by exact (gd_byte _ Gst).
  destruct (FindNext_ok st below Gs) as (fd & -> & O). unfold outcome_ok in O.
  assert (Back : forall states, states <> [] -> good_stack (tl states) ->
    cont (tl states) = cont (st :: below) -> (measure (tl states) < measure (st :: below))%nat ->
    match (match FindNextCmdKey_Rollback states with Some next => Ok (inr next) | None => Err DI_ERROR end
           : outcome ((DianaCmdInfo * Z) + _)) with
    | Ok (inl r) => cont (st :: below) = Some r
    | Ok (inr ([], _)) => False
    | Ok (inr (st' :: below', it')) =>
        it' = opcodePosition st' /\ good_stack (st' :: below') /\
        cont (st' :: below') = cont (st :: below) /\
        (measure (st' :: below') < measure (st :: below))%nat
    | Err code => code = DI_ERROR /\ cont (st :: below) = None
    | Crash => False
    end).
  { intros [|x [|y l]] Ne G V L; [contradiction| |]; cbn [FindNextCmdKey_Rollback tl] in *; auto. }
  destruct (f_found fd).
  - destruct (f_result fd) as [info|]; [exact O|].
    destruct (f_states fd) as [|new l]; [contradiction|].
    destruct O as (Eo & Gl & Ne & Gn & V & L).
    destruct (Z.ltb_spec (opcodePosition st + 1) it_end) as [Hlt|Hge].
    + split; [symmetry; exact Eo|]. auto.
    + apply Back; cbn [tl]; auto; [discriminate|].
      eapply Nat.le_lt_trans; [|exact L]. unfold measure. cbn [map list_sum fold_right].
      unfold list_sum. lia.
  - destruct O as (Ne & G & V & L). now apply Back.
Qed.

Lemma walk_ok fuel : forall st below,
  good_stack (st :: below) -> (measure (st :: below) <= fuel)%nat ->
  walk fuel c it_end (opcodePosition st) (st :: below) =
  Some (match cont (st :: below) with Some r => Ok r | None => Err DI_ERROR end).
Proof.
  induction fuel as [|fuel IH]; intros st below Gs Hm.
  { unfold measure in Hm. cbn [map list_sum fold_right] in Hm. pose proof (remaining_pos st). lia. }
  pose proof (walk_step_ok st below Gs) as St. cbn [walk].
  destruct (walk_step c it_end (opcodePosition st) (st :: below))
    as [[r|[[|st' below'] it']]|code|]; try contradiction.
  - now rewrite St.
  - destruct St as (-> & G & V & L). rewrite IH by (auto; lia). now rewrite V.
  - destruct St as (-> & ->). reflexivity.
Qed.

(** ** From the first byte *)

Lemma walk_is_search_at root it :
  table_ok root = true -> is_line root = true -> (height root <= 8)%nat -> 0 <= it < it_end ->
  walk (walk_fuel root) c it_end it [mkDianaParserContextState root (-1) it] =
  Some (match search c it_end root it with Some r => Ok r | None => Err DI_ERROR end).
Proof.
  intros Hok L Hh Hit.
  assert (Gs : good_stack [mkDianaParserContextState root (-1) it]).
  { cbn [good_stack length pLine]. split; [now apply good_new|]. split; [lia|exact I]. }
  pose proof (walk_ok (walk_fuel root) _ _ Gs) as W. cbn [opcodePosition] in W. rewrite W.
  - cbn [cont fold_right]. rewrite rest_new by exact L. now destruct (search c it_end root it).
  - pose proof (weight_new root it L) as Hw. unfold measure, walk_fuel. cbn [map list_sum fold_right].
    lia.
Qed.
End Walk.

Definition entry_holds (f : DianaBaseGenObject -> bool) (k : option DianaBaseGenObject) : bool :=
  match k with None => true | Some o => f o end.

(** Every command of a table has [P]. *)
Section Commands.
Variable P : DianaCmdInfo -> bool.

Fixpoint all_commands (o : DianaBaseGenObject) : bool :=
  match o with
  | CmdObject info => P info
  | LineObject _ keys => forallb (fun e => entry_holds all_commands (snd e)) keys
  | IndexObject _ keys => forallb (entry_holds all_commands) keys
  end.

(** Every command a byte [b] can lead to without going on to the next byte has [P]. *)
Fixpoint commands_at (b : Z) (o : DianaBaseGenObject) : bool :=
  let entry (k : option DianaBaseGenObject) :=
    match k with
    | None => true
    | Some o' =>
        match o' with
        | CmdObject info => P info
        | _ => negb (is_same_opcode (line_flags o')) || commands_at b o'
        end
    end in
  match o with
  | CmdObject _ => true
  | LineObject _ keys => forallb (fun e => negb (fst e =? b) || entry (snd e)) keys
  | IndexObject _ keys =>
      (fix pick (l : list (option DianaBaseGenObject)) (n : nat) {struct l} : bool :=
         match l, n with
         | [], _ => true
         | k :: _, O => entry k
         | _ :: l', S n' => pick l' n'
         end) keys (Z.to_nat b)
  end.

Variables (c : DianaContext) (it_end : Z).

Lemma search_keys_in it keys info it' : search_keys c it_end it keys = Some (info, it') ->
  exists opcode k, In (opcode, k) keys /\ opcode = byte_at c it /\
    search_entry c it_end it k = Some (info, it').
Proof.
  induction keys as [|[opcode k] keys IH]; cbn [search_keys]; [discriminate|].
  destruct (Z.eqb_spec opcode (byte_at c it)) as [E|N].
  - unfold or_else. destruct (search_entry c it_end it k) as [r|] eqn:Es.
    + intros [= ->]. exists opcode, k. cbn. auto.
    + intros H. destruct (IH H) as (o' & k' & Hin & R). exists o', k'. cbn. auto.
  - intros H. destruct (IH H) as (o' & k' & Hin & R). exists o', k'. cbn. auto.
Qed.

Lemma weight_in keys opcode o f : In (opcode, Some o) keys -> (weight o < weight (LineObject f keys))%nat.
Proof.
  intros Hin. rewrite weight_line. apply (in_map snd) in Hin. apply In_nth_error in Hin.
  destruct Hin as (n & E). apply total_nth in E. cbn [snd entry_weight] in E. lia.
Qed.

Lemma weight_nth keys n o f : nth_error keys n = Some (Some o) -> (weight o < weight (IndexObject f keys))%nat.
Proof. intros E. rewrite weight_index. apply total_nth in E. cbn [entry_weight] in E. lia. Qed.

(** One step of the search: from a line to one of its entries. *)
Lemma search_inv o it info it' : search c it_end o it = Some (info, it') ->
  exists o', (weight o' < weight o)%nat /\
    (all_commands o = true -> all_commands o' = true) /\
    (commands_at (byte_at c it) o = true ->
       match o' with CmdObject i => P i = true
                   | _ => is_same_opcode (line_flags o') = true -> commands_at (byte_at c it) o' = true end) /\
    search_entry c it_end it (Some o') = Some (info, it').
Proof.
  destruct o as [i|f keys|f keys]; [discriminate| |].
  - rewrite search_line. intros H. destruct (search_keys_in _ _ _ _ H) as (opcode & k & Hin & E & Hs).
    destruct k as [o'|]; [|discriminate]. exists o'. split; [eapply weight_in; eauto|].
    split; [|split; [|exact Hs]].
    + cbn [all_commands]. intros Ha. rewrite forallb_forall in Ha. exact (Ha _ Hin).
    + cbn [commands_at]. intros Ha. rewrite forallb_forall in Ha. specialize (Ha _ Hin). cbn [fst snd] in Ha.
      rewrite E, Z.eqb_refl in Ha. cbn [negb orb] in Ha.
      destruct o'; [exact Ha| |]; intros Hsame; rewrite Hsame in Ha; exact Ha.
  - rewrite search_index. destruct (nth_error keys _) as [[o'|]|] eqn:E; try discriminate.
    intros Hs. exists o'. split; [eapply weight_nth; eauto|]. split; [|split; [|exact Hs]].
    + cbn [all_commands]. intros Ha. rewrite forallb_forall in Ha. exact (Ha _ (nth_error_In _ _ E)).
    + cbn [commands_at]. revert E. generalize (Z.to_nat (byte_at c it)) as n.
      induction keys as [|k keys IH]; intros [|n] E Ha; try discriminate.
      * injection E as ->. destruct o'; [exact Ha| |]; intros Hsame; rewrite Hsame in Ha; exact Ha.
      * exact (IH n E Ha).
Qed.

Lemma search_entry_cases o it r : search_entry c it_end it (Some o) = Some r ->
  match o with
  | CmdObject i => r = (i, it)
  | _ => if is_same_opcode (line_flags o) then search c it_end o it = Some r
         else it + 1 < it_end /\ search c it_end o (it + 1) = Some r
  end.
Proof.
  destruct o as [i|f keys|f keys]; cbn [search_entry].
  - destruct (command_matches _ _ _); [|discriminate]. now intros [= <-].
  - destruct (is_same_opcode _); [auto|]. destruct (Z.ltb_spec (it + 1) it_end); [auto|discriminate].
  - destruct (is_same_opcode _); [auto|]. destruct (Z.ltb_spec (it + 1) it_end); [auto|discriminate].
Qed.

Lemma search_finds n : forall o it info it', (weight o <= n)%nat -> all_commands o = true -> it < it_end ->
  search c it_end o it = Some (info, it') -> P info = true /\ it <= it' < it_end.
Proof.
  induction n as [|n IH]; intros o it info it' Hw Ha Hlt Hs.
  { destruct o; [discriminate| |]; [rewrite weight_line in Hw|rewrite weight_index in Hw]; lia. }
  destruct (search_inv _ _ _ _ Hs) as (o' & Hw' & Ha' & _ & He). specialize (Ha' Ha).
  apply search_entry_cases in He. destruct o' as [i|f keys|f keys].
  - injection He as -> ->. split; [exact Ha'|lia].
  - destruct (is_same_opcode _); [eapply IH; eauto; lia|]. destruct He as (Hlt' & He).
    edestruct IH as (H1 & H2); [| | |exact He|]; [lia|exact Ha'|lia|]. split; [exact H1|lia].
  - destruct (is_same_opcode _); [eapply IH; eauto; lia|]. destruct He as (Hlt' & He).
    edestruct IH as (H1 & H2); [| | |exact He|]; [lia|exact Ha'|lia|]. split; [exact H1|lia].
Qed.
End Commands.

Lemma all_commands_true n : forall o, (weight o <= n)%nat -> all_commands (fun _ => true) o = true.
Proof.
  induction n as [|n IH]; intros [i|f keys|f keys] Hw; try reflexivity;
    [rewrite weight_line in Hw; lia|rewrite weight_index in Hw; lia| |]; cbn [all_commands]; apply forallb_forall.
  - intros [opcode [o|]] Hin; [|reflexivity]. pose proof (weight_in _ _ _ f Hin). apply IH. lia.
  - intros [o|] Hin; [|reflexivity]. apply In_nth_error in Hin. destruct Hin as (i & E).
    pose proof (weight_nth _ _ _ f E). apply IH. lia.
Qed.

(** A command at the byte the search starts from is one of [commands_at]. *)
Lemma search_moves P c it_end n : forall o it info it', (weight o <= n)%nat -> it < it_end ->
  commands_at P (byte_at c it) o = true ->
  search c it_end o it = Some (info, it') -> P info = true \/ it < it'.
Proof.
  induction n as [|n IH]; intros o it info it' Hw Hlt Hc Hs.
  { destruct o; [discriminate| |]; [rewrite weight_line in Hw|rewrite weight_index in Hw]; lia. }
  destruct (search_inv P c it_end _ _ _ _ Hs) as (o' & Hw' & _ & Hc' & He). specialize (Hc' Hc).
  apply search_entry_cases in He.
  assert (Hmove : it + 1 < it_end /\ search c it_end o' (it + 1) = Some (info, it') -> P info = true \/ it < it').
  { intros (Hlt' & Hs'). right.
    assert (Ht : all_commands (fun _ => true) o' = true).
    { apply (all_commands_true (weight o')). lia. }
    destruct (search_finds (fun _ => true) c it_end (weight o') o' (it + 1) info it' (le_n _) Ht Hlt' Hs'). lia. }
  destruct o' as [i|f keys|f keys].
  - injection He as -> _. auto.
  - destruct (is_same_opcode (line_flags _)) eqn:Es; [|auto].
    eapply IH; [|exact Hlt|exact (Hc' eq_refl)|exact He]; lia.
  - destruct (is_same_opcode (line_flags _)) eqn:Es; [|auto].
    eapply IH; [|exact Hlt|exact (Hc' eq_refl)|exact He]; lia.
Qed.
