(* ===== verification/DecLinkProofs.v ===== *)
(** [Diana_LinkOperands] is safe: whatever bytes the stream delivers, it stays inside of its tables
    and of the six operands of the result, and it reads only through the proxy. *)

From Stdlib Require Import ZArith Lia List Bool.
Import ListNotations.
From S2P Require Import Prelude Words Status Registers DecTypes DecStreams DecUtils DecAddress DecLink.
From S2P Require Import DecHoare.
Local Open Scope Z_scope.
Local Open Scope diana_scope.

(** ** The fields of a ModRM byte and the tables they index *)

Lemma shiftr_range x n m : 0 <= x < 2 ^ (n + m) -> 0 <= n -> 0 <= m -> 0 <= Z.shiftr x n < 2 ^ m.
Proof.
  intros Hx Hn Hm. rewrite Z.shiftr_div_pow2 by lia. rewrite Z.pow_add_r in Hx by lia.
  split; [apply Z.div_pos; lia|]. apply Z.div_lt_upper_bound; lia.
Qed.

Lemma land_le x m : 0 <= m -> 0 <= Z.land x m <= m.
Proof.
  intros Hm. split; [apply Z.land_nonneg; lia|].
  rewrite <- (Z.land_diag m) at 2. 
  apply Z.ldiff_le; [apply Z.land_nonneg; lia|].
  apply Z.bits_inj'. intros k Hk. rewrite Z.ldiff_spec, !Z.land_spec, Z.bits_0.
  destruct (Z.testbit x k), (Z.testbit m k); reflexivity.
Qed.

Lemma GetRm_range pb : 0 <= Diana_GetRm pb < 8.
Proof. pose proof (land_le pb 7 ltac:(lia)). unfold Diana_GetRm. lia. Qed.

Lemma GetMod_range pb : 0 <= Diana_GetMod pb < 4.
Proof.
  pose proof (land_le pb 0xC0 ltac:(lia)). unfold Diana_GetMod.
  apply (shiftr_range _ 6 2); lia.
Qed.

Lemma GetRm2_range c pb : 0 <= Diana_GetRm2 c pb < 16.
Proof.
  unfold Diana_GetRm2. pose proof (GetRm_range pb).
  destruct (rex_active c && DI_REX_HAS_FLAG_B (iRexPrefix c)); [apply (lor_range _ _ 4); lia|lia].
Qed.

Lemma table_get_ok {A} (l : list A) i : 0 <= i < Z.of_nat (length l) -> exists x, table_get l i = Some x.
Proof.
  intros Hi. unfold table_get. destruct (Z.ltb_spec i 0); [lia|].
  destruct (nth_error l (Z.to_nat i)) eqn:E; [eauto|]. apply nth_error_None in E. lia.
Qed.

Lemma modrm_entry_ok {A} (table : list (list A)) n mod_ rm :
  Forall (fun row => length row = n) table -> 0 <= mod_ < Z.of_nat (length table) -> 0 <= rm < Z.of_nat n ->
  exists x, modrm_entry table mod_ rm = Some x.
Proof.
  intros Ht Hm Hr. unfold modrm_entry. destruct (table_get_ok table mod_ Hm) as (row & E). rewrite E.
  apply table_get_ok. unfold table_get in E. destruct (mod_ <? 0); [discriminate|].
  apply nth_error_In in E. rewrite Forall_forall in Ht. rewrite (Ht row E). exact Hr.
Qed.

(** A result, or an error that is one. *)
Definition outcome_fine {A} (o : outcome A) : Prop :=
  match o with Ok _ => True | Err c => is_error c | Crash => False end.

(** Every row of a table has the same length. *)
Ltac rows := repeat first [apply Forall_nil | apply Forall_cons; [reflexivity|]].

Lemma DispatchMod3_ok t used rm size rex :
  (0 <= rm < 16) \/ is_type t diana_orMemoryXMM = true \/ is_type t diana_orMemoryYMM = true \/
    is_type t diana_orMemoryZMM = true ->
  outcome_fine (fst (Diana_DispatchMod3 t used rm size rex)).
Proof.
  intros Hrm. unfold Diana_DispatchMod3, reg_or_error.
  destruct (is_type t diana_orMemoryMMX); [destruct (DianaRecognizeMMX _); now cbn|].
  destruct (is_type t diana_orMemoryXMM) eqn:Ex; [destruct (DianaRecognizeXMM _); now cbn|].
  destruct (is_type t diana_orMemoryYMM) eqn:Ey; [destruct (DianaRecognizeYMM _); now cbn|].
  destruct (is_type t diana_orMemoryZMM) eqn:Ez; [cbn; destruct (_ =? reg_none); now cbn|].
  destruct (is_type t diana_orMemoryK); [now cbn|].
  destruct Hrm as [Hrm|Hrm]; [|destruct Hrm as [|[|]]; discriminate].
  destruct (table_get_ok table2 rm) as (regs & E); [exact Hrm|].
  cbn [fst]. rewrite E.
  repeat match goal with |- context [if ?b then _ else _] => destruct b end; now cbn.
Qed.

Lemma mod3_rm_ok c t pb : let rm := mod3_rm c t (Diana_GetRm2 c pb) (Diana_GetRm pb) in
  (0 <= rm < 16) \/ is_type t diana_orMemoryXMM = true \/ is_type t diana_orMemoryYMM = true \/
    is_type t diana_orMemoryZMM = true.
Proof.
  unfold mod3_rm. pose proof (GetRm_range pb). pose proof (GetRm2_range c pb).
  destruct (is_type t diana_orMemoryK); [left; cbv zeta; lia|].
  destruct (is_type t diana_orMemoryXMM); [auto|]. destruct (is_type t diana_orMemoryYMM); [auto|].
  destruct (is_type t diana_orMemoryZMM); [auto|]. rewrite !andb_false_r. left. cbv zeta. cbn [andb]. lia.
Qed.

Lemma ReadIndex16_ok c t used size pb : outcome_fine (Diana_ReadIndexStructure16 c t used size pb).
Proof.
  unfold Diana_ReadIndexStructure16. pose proof (GetMod_range pb). pose proof (GetRm_range pb).
  destruct (Z.eqb_spec (Diana_GetMod pb) 3).
  - pose proof (DispatchMod3_ok t used (Diana_GetRm pb) size (iRexPrefix c) ltac:(left; lia)) as Hd.
    destruct (Diana_DispatchMod3 _ _ _ _ _) as [[r| |] u]; exact Hd.
  - destruct (3 <? Diana_GetMod pb); [reflexivity|].
    destruct (modrm_entry_ok g_table16 8 (Diana_GetMod pb) (Diana_GetRm pb)) as ([[r1 r2] d] & E);
      [rows|change (Z.of_nat (length g_table16)) with 3; lia|lia|]. now rewrite E.
Qed.

(** ** The operands *)

Section Linking.
Context {T : Type} `{DianaReadStreamOk T}.
Variables prev src L0 : list Z.
Variable keep : Prop.
Variables low newIt vend end_ : Z.
Variable c0 : DianaContext.
Variable info : DianaCmdInfo.

(** What linking leaves alone in the context. *)
Record frame (c : DianaContext) : Prop := {
  fr_cache : cache c = cache c0;
  fr_cacheIt : cacheIt c = cacheIt c0;
  fr_cacheSize : cacheSize c = cacheSize c0;
  fr_prefixes : prefixes c = prefixes c0;
  fr_last : lastPrefixBeforeRex c = lastPrefixBeforeRex c0;
  fr_arch : iArch c = iArch c0
}.

(** Linking the command [info], with [n] operands linked and at most [bound] bytes left in the
    cache. *)
Record linking (n bound : Z) (s : DecState T) : Prop := {
  lk_proxy : proxy_inv prev src L0 keep low newIt vend end_ bound s;
  lk_frame : frame (pContext s);
  lk_info : pInfo (pResult s) = Some info;
  lk_ops : Z.of_nat (length (linkedOperands (pResult s))) = DI_MAX_OPERANDS_COUNT;
  lk_count : iLinkedOpCount (pResult s) = n;
  lk_bytes : length (bytes (pResult s)) = 16%nat
}.

Lemma proxy_inv_frame bound s s' :
  proxy_inv prev src L0 keep low newIt vend end_ bound s ->
  cache (pContext s') = cache (pContext s) -> cmdProxy s' = cmdProxy s ->
  readStream s' = readStream s -> m_iReadSize s' = m_iReadSize s -> m_lastBytes s' = m_lastBytes s ->
  proxy_inv prev src L0 keep low newIt vend end_ bound s'.
Proof.
  intros [Hc Hs He Ht Hb Hp (m & p & q & [I1 I2 I3 I4] & E)] E1 E2 E3 E4 E5.
  constructor; rewrite ?E2; auto.
  - unfold cache_ok. now rewrite E1.
  - exists m, p, q. unfold window in *. rewrite E1. split; [constructor; rewrite ?E3, ?E4, ?E5; auto|exact E].
Qed.

Section Steps.
Variables n bound : Z.

Lemma linking_context g (V : unit -> Prop) :
  (forall c, frame c -> frame (g c)) -> V tt -> holds (linking n bound) (set_context g) V.
Proof.
  intros Hg Hv. apply holds_modify; [|exact Hv]. intros s [Hp Hf Hi Ho Hn Hy].
  pose proof (Hg _ Hf) as Hf'. constructor; auto.
  apply (proxy_inv_frame bound s); auto. cbn. now rewrite (fr_cache _ Hf'), (fr_cache _ Hf).
Qed.

Lemma linking_result g (V : unit -> Prop) :
  (forall r, pInfo (g r) = pInfo r /\ length (linkedOperands (g r)) = length (linkedOperands r) /\
    iLinkedOpCount (g r) = iLinkedOpCount r /\ length (bytes (g r)) = length (bytes r)) ->
  V tt -> holds (linking n bound) (set_result g) V.
Proof.
  intros Hg Hv. apply holds_modify; [|exact Hv]. intros s [Hp Hf Hi Ho Hn Hy].
  destruct (Hg (pResult s)) as (G1 & G2 & G3 & G4).
  constructor; cbn [with_pResult pResult pContext]; rewrite ?G1, ?G2, ?G3, ?G4; auto.
  now apply (proxy_inv_frame bound s).
Qed.

Lemma holds_bind_context {A B} (f : DianaContext -> A) (k : A -> D T B) W :
  (forall a, holds (linking n bound) (k a) W) -> holds (linking n bound) (bind (context f) k) W.
Proof.
  intros Hk. apply (holds_bind _ _ _ (fun _ => True)); [|auto].
  apply holds_gets. auto.
Qed.

Lemma holds_bind_result {A B} (f : DianaParserResult -> A) (k : A -> D T B) W :
  (forall a, holds (linking n bound) (k a) W) -> holds (linking n bound) (bind (result f) k) W.
Proof.
  intros Hk. apply (holds_bind _ _ _ (fun _ => True)); [|auto].
  apply holds_gets. auto.
Qed.

Lemma holds_bind_or_error {B} (o : option Z) (k : Z -> D T B) W :
  (forall r, holds (linking n bound) (k r) W) -> holds (linking n bound) (bind (or_error o) k) W.
Proof.
  intros Hk. apply (holds_bind _ _ _ (fun _ => True)); [|auto].
  destruct o; [apply holds_ret|fail_ok]; auto.
Qed.

Lemma linking_read k : 0 < k ->
  holds (linking n bound) (StreamProxy_Read k) (fun r => Forall byte_ok (snd r)).
Proof.
  intros Hk s [Hp Hf Hi Ho Hn Hy].
  destruct (StreamProxy_Read_run prev src L0 keep low newIt vend end_ k bound s Hk Hp)
    as (st & bs & s' & E & Hp' & Ec & Er & Hb).
  rewrite E. split; [|exact Hb].
  constructor; rewrite ?Ec, ?Er; auto.
  destruct Hp'; constructor; auto; lia.
Qed.

Lemma linking_value k sgn : holds (linking n bound) (DianaReadValueAsLong k sgn) (fun _ => True).
Proof.
  unfold DianaReadValueAsLong. destruct (negb _) eqn:Ek; [fail_ok|].
  assert (0 < k).
  { apply negb_false_iff in Ek. rewrite !orb_true_iff, !Z.eqb_eq in Ek. lia. }
  clear Ek. eapply holds_bind; [apply linking_read; lia|]. intros [st bs] _.
  destruct (negb (st =? DI_SUCCESS)) eqn:?; [fail_ok|].
  destruct (negb (Z.of_nat (length bs) =? k)); [fail_ok|]. now apply holds_ret.
Qed.

(** ** Addresses *)

Lemma linking_of_outcome {A} (o : outcome A) (V : A -> Prop) :
  outcome_fine o -> (forall a, o = Ok a -> V a) -> holds (linking n bound) (of_outcome o) V.
Proof.
  intros Hc Hv. destruct o; [apply holds_ret; auto|fail_ok|contradiction].
Qed.

Lemma linking_index oi used size pb :
  holds (linking n bound) (Diana_ReadIndexStructure32 oi used size pb) (fun _ => True).
Proof.
  unfold Diana_ReadIndexStructure32. apply holds_bind_context. intros c.
  pose proof (GetMod_range pb) as Hm. pose proof (GetRm2_range c pb) as Hr.
  destruct (_ && is_type (m_type oi) diana_orVSIB); [fail_ok|].
  destruct (Z.eqb_spec (Diana_GetMod pb) 3) as [E3|N3].
  - pose proof (DispatchMod3_ok (m_type oi) used _ size (iRexPrefix c) (mod3_rm_ok c (m_type oi) pb)) as Hd.
    destruct (Diana_DispatchMod3 _ _ _ _ _) as [o u]. cbn [fst] in Hd.
    eapply holds_bind; [apply (linking_of_outcome o (fun _ => True)); auto|]. intros; now apply holds_ret.
  - destruct (3 <? Diana_GetMod pb); [fail_ok|].
    apply (holds_bind _ _ _ (fun _ => True)).
    { apply holds_some_or_crash.
      destruct (modrm_entry_ok (if iCurrentCmd_addressSize c =? 8 then g_table64 else g_table32) 16
                  (Diana_GetMod pb) (Diana_GetRm2 c pb)) as (x & E);
        [destruct (_ =? 8); rows|destruct (_ =? 8); unfold g_table64, g_table32; cbn [length]; lia|lia|]. rewrite E. eauto. }
    intros [[reg0 disp] hasSIB] _.
    destruct (negb hasSIB && _); [fail_ok|]. destruct (negb hasSIB); [now apply holds_ret|].
    eapply holds_bind; [apply linking_read; lia|]. intros [st bs] _.
    destruct (negb (st =? DI_SUCCESS)) eqn:?; [fail_ok|].
    destruct (negb (Z.of_nat (length bs) =? 1)); [fail_ok|].
    destruct (Diana_DispatchSIB2 c (nth 0 bs 0)) as [[ss index] base].
    apply (holds_bind _ _ _ (fun _ => True)).
    { unfold sib_base. destruct (_ && _); [now apply holds_ret|].
      destruct (base =? 5); [now apply holds_ret|].
      apply holds_bind_or_error. intros; now apply holds_ret. }
    intros [r disp'] _. apply (holds_bind _ _ _ (fun _ => True)).
    { unfold sib_index. destruct (is_type _ _); [now apply holds_ret|].
      destruct (index =? 4); [now apply holds_ret|].
      apply holds_bind_or_error. intros; now apply holds_ret. }
    intros [xr scale] _. now apply holds_ret.
Qed.

Lemma linking_handler i32 oi used size pb :
  holds (linking n bound) (or_di_error (DianaGetHandler i32 oi used size pb)) (fun _ => True).
Proof.
  apply holds_or_di_error. unfold DianaGetHandler. destruct i32; [apply linking_index|].
  apply holds_bind_context. intros c. apply linking_of_outcome; [apply ReadIndex16_ok|auto].
Qed.

(** ** The operand kinds keep the indexes of the operands they note in range *)

Definition slot_ok (k : Z) : Prop := 0 <= k < DI_MAX_OPERANDS_COUNT.
Definition noted_ok (o : option Z) : Prop := match o with Some k => slot_ok k | None => True end.

Definition notes_ok (ls : LinkState) : Prop :=
  Forall slot_ok (ls_pLinkedImmOp ls) /\ noted_ok (ls_pLinkedIs4Op ls) /\ noted_ok (ls_pLinkedDispOp ls).

Lemma notes_imm ls slot : slot_ok slot -> notes_ok ls ->
  notes_ok (with_ls_pLinkedImmOp (ls_pLinkedImmOp ls ++ [slot]) ls).
Proof. intros Hs (H1 & H2 & H3). split; [|auto]. apply Forall_app. auto. Qed.

(** Takes a linker apart; what remains is about the notes or a call. *)
Ltac link :=
  repeat first
    [ match goal with |- holds _ (let '(_, _) := ?p in _) _ => destruct p end
    | match goal with
      | |- holds _ (ret _) _ => apply holds_ret
      | |- holds _ (fail _) _ => fail_ok
      | |- holds _ (bind (context _) _) _ => apply holds_bind_context; intros ?
      | |- holds _ (bind (result _) _) _ => apply holds_bind_result; intros ?
      | |- holds _ (bind (or_error _) _) _ => apply holds_bind_or_error; intros ?
      | |- holds _ (if ?b then _ else _) _ => destruct b eqn:?
      | |- holds _ (match ?v with diana_none => _ | _ => _ end) _ => destruct v
      | |- holds _ (bind (or_di_error _) _) _ => eapply holds_bind; [apply linking_handler|intros [? ?] _]
      | |- holds _ (bind (DianaReadValueAsLong _ _) _) _ => eapply holds_bind; [apply linking_value|intros ? _]
      end ].

Ltac notes :=
  repeat match goal with |- context [if ?b then _ else _] => destruct b end;
  match goal with H : notes_ok _ |- _ => solve [exact H | destruct H as (? & ? & ?); split; [|split]; cbn; auto] end.

Definition link_spec (l : Linker) : Prop := forall ls op, notes_ok ls ->
  holds (linking n bound) (l (ls, op)) (fun r => notes_ok (fst r)).

Lemma link_registry_ok e size : link_spec (link_registry e size).
Proof.
  intros ls op Hn. unfold link_registry. apply holds_bind_context. intros c. cbv zeta.
  match goal with |- holds _ (let '(_, _) := ?p in _) _ => destruct p as [regToUse ls1] eqn:E end.
  assert (H1 : notes_ok ls1).
  { revert E. repeat match goal with |- context [if ?b then _ else _] => destruct b end;
      intros [= _ <-]; notes. }
  clear E. link. cbn [fst]. notes.
Qed.

Lemma link_evex_memory_ok e : link_spec (link_evex_memory e).
Proof.
  intros ls op Hn. unfold link_evex_memory. link; [exact Hn|].
  apply (holds_bind _ _ _ (fun _ => True)).
  - link; auto. apply (holds_bind _ _ _ (fun _ => True)); [|intros; now apply holds_ret].
    apply linking_result; auto.
  - intros op1 _. link. notes.
Qed.

Lemma link_regmem_ok e slot oi size asize : slot_ok slot -> link_spec (link_regmem e slot oi size asize).
Proof.
  intros Hs ls op Hn. unfold link_regmem. cbv zeta. 
  destruct (is_type (m_type oi) diana_orVSIB && _); [fail_ok|]. link; try notes.
  apply link_evex_memory_ok. notes.
Qed.

Lemma link_immediate_ok slot oi : slot_ok slot -> link_spec (link_immediate slot oi).
Proof.
  intros Hs ls op Hn. unfold link_immediate. link; cbn [fst]; [|exact Hn]. now apply notes_imm.
Qed.

Lemma link_is4_ok slot : slot_ok slot -> link_spec (link_is4 slot).
Proof.
  intros Hs ls op Hn. unfold link_is4. link. cbn [fst].
  destruct (notes_imm ls slot Hs Hn) as (? & ? & ?). split; [|split]; cbn; auto.
Qed.

Lemma link_eax_ok : link_spec link_eax.
Proof. intros ls op Hn. unfold link_eax. link. notes. Qed.

Lemma link_ecx_ok e asize : link_spec (link_ecx e asize).
Proof. intros ls op Hn. unfold link_ecx. link. notes. Qed.

Lemma link_sreg_ok oi : link_spec (link_sreg oi).
Proof.
  intros ls op Hn. unfold link_sreg. apply (holds_bind _ _ _ (fun _ => True)); [link; auto|].
  intros code _. link. notes.
Qed.

Lemma link_offset_ok slot : slot_ok slot -> link_spec (link_offset slot).
Proof. intros Hs ls op Hn. unfold link_offset. link. notes. Qed.

Lemma link_special_ok r : link_spec (link_special r).
Proof. intros ls op Hn. unfold link_special. link. notes. Qed.

Lemma link_ptr_ok e : link_spec (link_ptr e).
Proof. intros ls op Hn. unfold link_ptr. link. notes. Qed.

Lemma link_rel_ok e : link_spec (link_rel e).
Proof. intros ls op Hn. unfold link_rel. link. notes. Qed.

Lemma link_memory_ok e slot oi size asize : slot_ok slot -> link_spec (link_memory e slot oi size asize).
Proof. intros Hs ls op Hn. unfold link_memory. cbv zeta. link; notes. Qed.

Lemma link_string_ok r seg : link_spec (link_string r seg).
Proof. intros ls op Hn. unfold link_string. link. notes. Qed.

Lemma register_code_ok e i oi ls : notes_ok ls ->
  holds (linking n bound) (register_code e i oi ls) (fun r => notes_ok (fst r)).
Proof. intros Hn. unfold register_code. link; notes. Qed.

Lemma link_vector_register_ok e i oi size : link_spec (link_vector_register e i oi size).
Proof.
  intros ls op Hn. unfold link_vector_register.
  destruct (_ =? DI_FULL_CHAR_NULL); [fail_ok|].
  eapply holds_bind; [now apply register_code_ok|]. intros [ls1 code] H1. cbn [fst] in H1.
  apply holds_bind_context. intros c. destruct (m_type oi); link; exact H1.
Qed.

Lemma link_kind_ok e i slot oi size asize sreg : slot_ok slot ->
  link_spec (link_kind e i slot oi size asize sreg).
Proof.
  intros Hs. unfold link_kind.
  pose proof link_regmem_ok; pose proof link_memory_ok.
  destruct (m_type oi);
    auto using link_registry_ok, link_immediate_ok, link_is4_ok, link_eax_ok, link_ecx_ok, link_sreg_ok,
      link_offset_ok, link_special_ok, link_ptr_ok, link_rel_ok, link_string_ok, link_vector_register_ok;
    intros ls op Hn; link; exact Hn.
Qed.
End Steps.

(** ** One operand after the other *)

Lemma linking_weaken n b b' s : linking n b s -> b <= b' -> linking n b' s.
Proof. intros [[] Hf Hi Ho Hn Hy] Hb. constructor; auto. constructor; auto. lia. Qed.

(** Whatever number of operands is linked. *)
Definition linked (bound : Z) (s : DecState T) : Prop :=
  exists n, 0 <= n <= DI_MAX_OPERANDS_COUNT /\ linking n bound s.

Lemma linked_weaken b b' s : linked b s -> b <= b' -> linked b' s.
Proof. intros (n & Hn & Hl) Hb. exists n. eauto using linking_weaken. Qed.

Lemma replace_length {A} (l : list A) i x : (i < length l)%nat ->
  length (firstn i l ++ x :: skipn (S i) l) = length l.
Proof. intros. rewrite length_app, firstn_length_le by lia. cbn [length]. rewrite length_skipn. lia. Qed.

Lemma set_operand_ok n bound k op : slot_ok k ->
  holds (linking n bound) (set_operand k op) (fun _ => True).
Proof.
  intros Hk s Hs. pose proof (lk_ops _ _ _ Hs) as Hl. unfold set_operand, result. rewrite bind_gets.
  rewrite Hl. destruct (Z.leb_spec 0 k), (Z.ltb_spec k DI_MAX_OPERANDS_COUNT);
    unfold slot_ok in Hk; try lia. cbn [andb].
  assert (Hlt : (Z.to_nat k < length (linkedOperands (pResult s)))%nat).
  { unfold DI_MAX_OPERANDS_COUNT in *. lia. }
  split; [|exact I]. destruct Hs as [Hp Hf Hi Ho Hn Hy].
  constructor; cbn [with_pResult with_linkedOperands pResult pContext pInfo linkedOperands iLinkedOpCount bytes]; auto.
  - now apply (proxy_inv_frame bound s).
  - now rewrite replace_length.
Qed.

Lemma linked_operand_ok n bound k : slot_ok k ->
  holds (linking n bound) (linked_operand k) (fun _ => True).
Proof.
  intros Hk s Hs. pose proof (lk_ops _ _ _ Hs) as Hl. unfold linked_operand, result. rewrite bind_gets.
  destruct (table_get_ok (linkedOperands (pResult s)) k) as (op & E); [rewrite Hl; exact Hk|].
  rewrite E. cbn. auto.
Qed.

Lemma link_operand_ok e i oi ls n bound : notes_ok ls -> slot_ok n ->
  hoare (linking n bound) (link_operand e i oi ls)
    (fun ls' s => linking (n + 1) bound s /\ notes_ok ls') (linking n bound).
Proof.
  intros Hls Hn. unfold link_operand. apply hoare_any_context. intros c.
  apply hoare_result. intros slot s0 (Hs0 & ->). rewrite (lk_count _ _ _ Hs0). revert s0 Hs0.
  eapply hoare_bind; [apply holds_hoare, link_kind_ok; auto|]. intros [ls' op]. apply hoare_pure. 
  intros Hls'. eapply hoare_bind; [apply holds_hoare, set_operand_ok; auto|]. intros [].
  eapply hoare_bind; [apply (hoare_set_result _ _ _ (fun _ => linking (n + 1) bound))|].
  - intros s ([Hp Hf Hi Ho Hc Hy] & _). constructor; cbn; auto; [|lia]. now apply (proxy_inv_frame bound s).
  - intros []. apply hoare_ret. auto.
Qed.

Lemma link_operands_ok e infos : forall i ls n bound, notes_ok ls -> 0 <= n ->
  n + Z.of_nat (length infos) <= DI_MAX_OPERANDS_COUNT ->
  hoare (linking n bound) (link_operands e i infos ls)
    (fun ls' s => linked bound s /\ notes_ok ls') (linked bound).
Proof.
  unfold DI_MAX_OPERANDS_COUNT. induction infos as [|oi infos IH]; intros i ls n bound Hls Hn Hc;
    cbn [link_operands length] in *.
  - apply hoare_ret. intros s Hs. split; [|exact Hls]. exists n. split; [unfold DI_MAX_OPERANDS_COUNT; lia|exact Hs].
  - eapply hoare_bind.
    + eapply hoare_conseq; [apply (link_operand_ok e i oi ls n bound Hls)| | |].
      * unfold slot_ok, DI_MAX_OPERANDS_COUNT. lia.
      * auto.
      * intros a s Hs. exact Hs.
      * intros s Hs. exists n. unfold DI_MAX_OPERANDS_COUNT. split; [lia|exact Hs].
    + intros ls'. apply hoare_pure. intros Hls'. apply IH; auto; lia.
Qed.

(** ** Displacement and immediates *)

Section After.
Variables n bound : Z.

Lemma link_displacement_ok ls off : notes_ok ls ->
  holds (linking n bound) (link_displacement ls off) (fun _ => True).
Proof.
  intros (_ & _ & Hd). unfold link_displacement. apply holds_bind_context. intros prefix.
  apply (holds_bind _ _ _ (fun r => match fst r with inl c => is_error c | inr _ => True end)).
  - destruct (ls_pLinkedDispOp ls) as [k|]; [|now apply holds_ret]. cbn in Hd.
    eapply holds_bind; [now apply linked_operand_ok|]. intros op _.
    eapply holds_bind; [now apply set_operand_ok|]. intros [] _.
    eapply holds_bind; [apply holds_attempt, linking_value|]. intros [code|v] Hr; [now apply holds_ret|].
    eapply holds_bind; [now apply set_operand_ok|]. intros [] _. now apply holds_ret.
  - intros [res offset] Hr. cbn [fst] in Hr. apply (holds_bind _ _ _ (fun _ => True)).
    + apply holds_when; [|exact I]. intros _. apply linking_result; auto.
    + intros [] _. destruct res; [fail_ok|now apply holds_ret].
Qed.

Lemma link_immediates_ok ops : Forall slot_ok ops -> forall imms off st,
  holds (linking n bound) (link_immediates info ops imms off st) (fun _ => True).
Proof.
  induction 1 as [|k ops Hk _ IH]; intros imms off st; cbn [link_immediates]; [now apply holds_ret|].
  destruct imms as [|m imms]; [now apply holds_ret|].
  eapply holds_bind; [now apply linked_operand_ok|]. intros op _.
  eapply holds_bind; [now apply set_operand_ok|]. intros [] _.
  eapply holds_bind; [apply holds_attempt, linking_value|]. intros r _.
  apply (holds_bind _ _ _ (fun _ => True)); [|intros; apply IH].
  destruct r; [now apply holds_ret|].
  eapply holds_bind; [now apply set_operand_ok|]. intros [] _. now apply holds_ret.
Qed.

Lemma link_is4_register_ok k : slot_ok k ->
  holds (linking n bound) (link_is4_register k) (fun _ => True).
Proof.
  intros Hk. unfold link_is4_register. apply holds_bind_context. intros c.
  eapply holds_bind; [now apply linked_operand_ok|]. intros op _. now apply set_operand_ok.
Qed.

Lemma command_opsize_ok : m_pGroupInfo info <> None ->
  holds (linking n bound) (command_opsize info) (fun _ => True).
Proof.
  intros Hg. unfold command_opsize. eapply (holds_bind _ _ _ (fun _ => True)).
  { apply linking_context; [|exact I]. intros c [].
    destruct (negb (iAMD64Mode c =? 0) && _ && _); constructor; auto. }
  intros [] _. apply holds_bind_context. intros opsize. apply holds_when; [|exact I]. intros _.
  apply (holds_bind _ _ _ (fun _ => True)).
  { apply holds_some_or_crash. destruct (m_pGroupInfo info); [eauto|contradiction]. }
  intros cmd _. apply holds_when; [|exact I]. intros _. apply linking_context; [|exact I].
  intros c []. constructor; auto.
Qed.

(** The read of the opcode takes at least one byte. *)
Lemma linking_first_read k : 0 < k ->
  hoare (linking n bound) (StreamProxy_Read k) (fun _ => linking n (Z.max 0 (bound - 1)))
    (linking n bound).
Proof.
  intros Hk s [Hp Hf Hi Ho Hn Hy].
  destruct (StreamProxy_Read_run prev src L0 keep low newIt vend end_ k bound s Hk Hp)
    as (st & bs & s' & E & Hp' & Ec & Er & Hb).
  rewrite E. pose proof (pi_tail _ _ _ _ _ _ _ _ _ _ Hp). pose proof (pi_bound _ _ _ _ _ _ _ _ _ _ Hp).
  constructor; rewrite ?Ec, ?Er; auto. destruct Hp'. constructor; auto. lia.
Qed.

Lemma read_opcode_ok filter :
  hoare (linking n bound) (read_opcode info filter) (fun _ => linking n (Z.max 0 (bound - 1)))
    (linking n (Z.max 0 bound)).
Proof.
  assert (Hw : forall b s, linking n b s -> b <= Z.max 0 bound -> linking n (Z.max 0 bound) s)
    by eauto using linking_weaken.
  unfold read_opcode. apply hoare_any_context. intros c.
  destruct (negb (filter =? 0) || _);
    (eapply hoare_bind;
      [eapply hoare_conseq; [apply linking_first_read; lia|auto|intros a s Hs; exact Hs|intros s Hs; apply (Hw _ _ Hs); lia]|]);
    intros [err buffer]; cbv beta;
    repeat match goal with
    | |- hoare _ (if ?b then _ else _) _ _ => destruct b eqn:?
    | |- hoare _ (fail _) _ _ => fails; intros s Hs; apply (Hw _ _ Hs); lia
    | |- hoare _ (ret _) _ _ => apply hoare_ret; auto
    end.
Qed.
End After.

Lemma ignore_rex_frame i c : frame c -> frame (ignore_rex i c).
Proof. intros []. unfold ignore_rex. destruct (_ && _); constructor; auto. Qed.

Lemma Diana_LinkOperands_ok bound : m_pGroupInfo info <> None ->
  m_operandCount info <= DI_MAX_OPERANDS_COUNT -> 0 <= bound ->
  hoare (linking 0 bound) Diana_LinkOperands
    (fun _ => linked (Z.max 0 (bound - 1))) (linked bound).
Proof.
  intros Hg Hc Hb. set (b1 := Z.max 0 (bound - 1)). assert (Hb1 : b1 <= bound) by lia.
  assert (Hnone : forall s, linking 0 bound s -> linked bound s).
  { intros s Hs. exists 0. unfold DI_MAX_OPERANDS_COUNT. split; [lia|exact Hs]. }
  assert (Hw : forall s, linked b1 s -> linked bound s) by eauto using linked_weaken.
  assert (Hlift : forall A (m : D T A), (forall n, holds (linking n b1) m (fun _ => True)) ->
    hoare (linked b1) m (fun _ => linked b1) (linked bound)).
  { intros A m Hm s (n & Hn & Hs). specialize (Hm n s Hs).
    destruct (m s) as [[a|c|] s']; [exists n; tauto|split; [apply Hm|apply Hw; exists n; tauto]|exact Hm]. }
  unfold Diana_LinkOperands. apply hoare_result. intros p.
  intros s0 (Hs0 & ->). rewrite (lk_info _ _ _ Hs0). revert s0 Hs0.
  eapply hoare_bind; [eapply (hoare_some _ _ _ (fun a s => linking 0 bound s /\ a = info)); [reflexivity|auto]|].
  intros a. apply hoare_pure. intros ->.
  eapply (hoare_bind _ _ _ _ (fun _ => linking 0 bound)).
  { eapply hoare_conseq; [apply holds_hoare, (linking_context 0 bound (ignore_rex info) (fun _ => True));
      [apply ignore_rex_frame|exact I]|auto|intros [] s Hs; exact (proj1 Hs)|exact Hnone]. }
  intros []. eapply hoare_bind.
  { eapply hoare_conseq; [apply (read_opcode_ok 0 bound)|auto|intros r s Hs; exact Hs|].
    intros s Hs. apply Hnone. rewrite Z.max_r in Hs by lia. exact Hs. }
  intros [[[pb rc] fpu] off]. fold b1.
  eapply (hoare_bind _ _ _ _ (fun _ => linking 0 b1)).
  { eapply hoare_conseq; [apply holds_hoare, (command_opsize_ok 0 b1), Hg|auto|intros [] s Hs; exact (proj1 Hs)|].
    intros s Hs. apply Hnone. eauto using linking_weaken. }
  intros []. eapply hoare_bind.
  { eapply hoare_conseq; [apply (link_operands_ok _ _ _ _ 0 b1)| auto| intros ls s Hs; exact Hs|exact Hw].
    - repeat split; constructor.
    - lia.
    - unfold m_operandCount in Hc. lia. }
  intros ls. apply hoare_pure. intros Hls.
  eapply hoare_bind; [apply Hlift; intros n; now apply link_displacement_ok|]. intros off'.
  eapply hoare_bind; [apply Hlift; intros n; apply link_immediates_ok, Hls|]. intros st.
  eapply hoare_bind.
  { apply Hlift. intros n. apply holds_when; [|exact I]. intros _.
    destruct (ls_pLinkedIs4Op ls) as [k|] eqn:E4; [|now apply holds_ret].
    apply link_is4_register_ok. destruct Hls as (_ & H4 & _). now rewrite E4 in H4. }
  intros []. apply hoare_return_status; auto.
Qed.
End Linking.
