(* ===== verification/DecCacheProofs.v ===== *)
(** The instruction cache of the decoder: reading ahead, taking bytes and the virtual prefixes of VEX and
    EVEX keep every byte of the stream, in order, and stay inside of the seven bytes. *)

From Stdlib Require Import ZArith Lia List Bool.
Import ListNotations.
From S2P Require Import Prelude Words Status Registers DecTypes DecStreams DecUtils DecPrefix.
From S2P Require Import DecHoare.
Local Open Scope Z_scope.
Local Open Scope diana_scope.

(** The sizes of the cache are numbers. *)
Ltac sizes := change DI_CACHE_SIZE with 7 in *; change DI_CACHE_RESERVED with 2 in *; lia.

#[local] Arguments buf_update : simpl never.
#[local] Arguments buf_bytes : simpl never.
#[local] Arguments Z.add : simpl never.
#[local] Arguments Z.sub : simpl never.
#[local] Arguments DI_CACHE_SIZE : simpl never.

Section Cache.
Context {T : Type} `{DianaReadStreamOk T}.

(** ** The accesses *)

Lemma cache_byte_run i (s : DecState T) : cache_ok (pContext s) -> 0 <= i < DI_CACHE_SIZE ->
  cache_byte i s = (Ok (nth (Z.to_nat i) (cache (pContext s)) 0), s).
Proof.
  intros (Hl & _) Hi. unfold cache_byte, context. rewrite bind_gets.
  rewrite mem_read_ok by lia. cbn [some_or_crash]. rewrite bind_ret. unfold ret.
  do 2 f_equal. rewrite buf_bytes_nth by (cbn; lia). f_equal. lia.
Qed.

Definition cache_set (l : list Z) (s : DecState T) : DecState T :=
  with_pContext (with_cache (fun _ => l)) s.

Lemma cache_store_run i bs (s : DecState T) : cache_ok (pContext s) ->
  0 <= i -> i + Z.of_nat (length bs) <= DI_CACHE_SIZE ->
  cache_store i bs s = (Ok tt, cache_set (buf_update (cache (pContext s)) i bs) s).
Proof.
  intros (Hl & _) H1 H2. unfold cache_store, context. rewrite bind_gets, mem_write_ok by lia.
  reflexivity.
Qed.

Lemma cache_move_run dst src n (s : DecState T) : cache_ok (pContext s) ->
  0 <= dst -> 0 <= src -> 0 <= n -> dst + n <= DI_CACHE_SIZE -> src + n <= DI_CACHE_SIZE ->
  cache_move dst src n s =
  (Ok tt, cache_set (buf_update (cache (pContext s)) dst (buf_bytes (cache (pContext s)) src n)) s).
Proof.
  intros Hc H1 H2 H3 H4 H5. pose proof Hc as (Hl & _). unfold cache_move, context.
  rewrite bind_gets, mem_read_ok by lia. cbn [some_or_crash]. rewrite bind_ret.
  apply cache_store_run; auto. rewrite buf_bytes_length by lia. lia.
Qed.

Lemma cache_set_ok l s : cache_ok (pContext s) -> length l = length (cache (pContext s)) ->
  Forall byte_ok l -> cache_ok (pContext (cache_set l s)).
Proof. intros (Hl & _) E F. split; [cbn; rewrite E; exact Hl|exact F]. Qed.


(** ** Reading ahead *)

Variables prev src : list Z.

(** The bytes of the cache that are not used yet. *)
Definition unread (c : DianaContext) : list Z := buf_bytes (cache c) (cacheIt c) (cacheSize c).

(** [size] bytes from [it] on are in the cache, with what is taken and what is to come they are
    the stream. *)
Record held (low it size : Z) (s : DecState T) : Prop := {
  hd_cache : cache_ok (pContext s);
  hd_it : DI_CACHE_RESERVED <= it;
  hd_size : 0 <= size;
  hd_end : it + size <= DI_CACHE_SIZE;
  hd_io : conserved prev src [] True low (buf_bytes (cache (pContext s)) it size) s
}.

Lemma conserved_append win bs low s s' : conserved prev src [] True low win s ->
  (forall L, io src L s -> io src (L ++ bs) s') -> conserved prev src [] True low (win ++ bs) s'.
Proof.
  intros (m & p & q & Hio & E & Hl & Hk) Hs. specialize (Hk I). subst q. exists (m ++ bs), p, [].
  split; [exact (Hs m Hio)|]. split; [|auto].
  cbn [app] in *. rewrite !app_nil_r in *. now rewrite !app_assoc, E, <- !app_assoc.
Qed.

Lemma conserved_low keep low low' win s : conserved prev src [] keep low win s -> low' <= low ->
  conserved prev src [] keep low' win s.
Proof. intros (m & p & q & Hio & E & Hl & Hk) Hle. exists m, p, q. repeat (split; auto); lia. Qed.

Lemma read_into_cache_run low it size n s : held low it size s -> 0 < n -> it + size + n <= DI_CACHE_SIZE ->
  exists st k l s', read_into_cache (it + size) n s = (Ok (st, k), s') /\ held low it (size + k) s' /\
    pContext s' = with_cache (fun _ => l) (pContext s) /\ pResult s' = pResult s /\
    0 <= k <= n /\ (st <> DI_SUCCESS -> k = 0) /\
    (forall i, Z.of_nat i < it + size -> nth i l 0 = nth i (cache (pContext s)) 0).
Proof.
  intros [Hc Hi Hs He Hio] Hn Hm. unfold DI_CACHE_RESERVED in Hi. pose proof Hio as (m & p & q & Hio0 & _).
  destruct (proxy_read_run src n _ s Hn Hio0) as (st & bs & s1 & E & _ & Ec & Er & Epx & Hl & Hb & Hf).
  assert (Hs1 : forall L, io src L s -> io src (L ++ bs) s1).
  { intros L HL. destruct (proxy_read_run src n L s Hn HL) as (? & ? & ? & E' & Hio' & _).
    rewrite E in E'. now injection E' as <- <- <-. }
  unfold read_into_cache. rewrite (bind_run _ _ _ _ _ E).
  assert (Hc1 : cache_ok (pContext s1)) by now rewrite Ec.
  rewrite (bind_run _ _ _ _ _ (cache_store_run (it + size) bs s1 Hc1 ltac:(lia) ltac:(lia))).
  eexists st, _, _, _. split; [reflexivity|]. pose proof Hc1 as (Hl1 & Hf1).
  split; [|split; [cbn; now rewrite Ec|split; [exact Er|split; [lia|split]]]].
  - constructor; try sizes.
    + apply cache_set_ok; [exact Hc1| |now apply buf_update_ok].
      apply buf_update_length; lia.
    + unfold cache_set. apply conserved_context. cbn [with_pContext pContext with_cache cache].
      rewrite buf_bytes_append by lia. rewrite Ec. apply (conserved_append _ _ _ s); auto.
  - intros N0. now rewrite (Hf N0).
  - intros i Hlt. rewrite buf_update_nth by (destruct Hc; lia).
    destruct (Z.leb_spec (it + size) (Z.of_nat i)); [lia|reflexivity].
Qed.

(** What holds after an error: the sizes fit. *)
Record closed (s : DecState T) : Prop := {
  cl_cache : cache_ok (pContext s);
  cl_size : 0 <= cacheSize (pContext s);
  cl_bytes : length (bytes (pResult s)) = 16%nat;
  cl_io : exists L, io src L s /\ cacheSize (pContext s) <= Z.of_nat (length prev) + Z.of_nat (length L)
}.

Record result_ok (r : DianaParserResult) : Prop := {
  rs_ops : Z.of_nat (length (linkedOperands r)) = DI_MAX_OPERANDS_COUNT;
  rs_count : iLinkedOpCount r = 0;
  rs_bytes : length (bytes r) = 16%nat
}.

(** Between two instruction bytes: [low] bytes are taken at least, the prefixes are [l]. *)
Record fed (low : Z) (l : list DianaPrefixInfo) (last : Z) (s : DecState T) : Prop := {
  fd_held : held low (cacheIt (pContext s)) (cacheSize (pContext s)) s;
  fd_prefixes : prefixes (pContext s) = l;
  fd_last : lastPrefixBeforeRex (pContext s) = last;
  fd_result : result_ok (pResult s)
}.

Lemma held_total low it size s : held low it size s -> 0 <= low ->
  exists L, io src L s /\ low + size <= Z.of_nat (length prev) + Z.of_nat (length L).
Proof.
  intros [(Hl & _) Hi Hs He (m & p & q & Hio & E & Hlow & _)] Hlo. unfold DI_CACHE_RESERVED in Hi. 
  exists ([] ++ m). split; [exact Hio|].
  apply (f_equal (@length Z)) in E. rewrite !length_app, buf_bytes_length in E by lia.
  cbn [app length] in *. lia.
Qed.

(** An error while the cache is being filled: the context knows [size0] of the bytes. *)
Lemma held_closed low size s : held low (cacheIt (pContext s)) size s -> 0 <= low ->
  0 <= cacheSize (pContext s) <= size -> length (bytes (pResult s)) = 16%nat -> closed s.
Proof.
  intros Hh Hlo Hle Hb. destruct (held_total _ _ _ _ Hh Hlo) as (L & Hio & Ht). destruct Hh as [Hc Hi Hs He _].
  constructor; auto; try lia. exists L. split; [exact Hio|lia].
Qed.

Lemma fed_closed low l last s : fed low l last s -> 0 <= low -> closed s.
Proof.
  intros [Hh _ _ Hr] Hlo. apply (held_closed low (cacheSize (pContext s))); auto; [|apply Hr].
  destruct Hh. lia.
Qed.

Lemma fed_low low low' l last s : fed low l last s -> low' <= low -> fed low' l last s.
Proof. intros [[] ? ? ?] Hle. constructor; auto. constructor; auto. eauto using conserved_low. Qed.

Lemma fed_result g low l last s : fed low l last s -> result_ok (g (pResult s)) ->
  fed low l last (with_pResult g s).
Proof. intros [[] ? ? ?] Hr. constructor; auto. constructor; auto. now apply conserved_result. Qed.

(** Changes of the context that have nothing to do with the cache and the prefixes. *)
Definition keeps_cache (g : DianaContext -> DianaContext) : Prop := forall c,
  cache (g c) = cache c /\ cacheIt (g c) = cacheIt c /\ cacheSize (g c) = cacheSize c.

Lemma held_context g low it size s : cache (g (pContext s)) = cache (pContext s) ->
  held low it size s -> held low it size (with_pContext g s).
Proof.
  intros E []. constructor; auto; cbn [with_pContext pContext]; rewrite ?E; auto.
  - unfold cache_ok. now rewrite E.
  - now apply conserved_context.
Qed.

Lemma fed_context g low l last s : keeps_cache g -> fed low l last s ->
  fed low (prefixes (g (pContext s))) (lastPrefixBeforeRex (g (pContext s))) (with_pContext g s).
Proof.
  intros Hg [Hh _ _ Hr]. destruct (Hg (pContext s)) as (E1 & E2 & E3).
  constructor; auto. cbn [with_pContext pContext]. rewrite E2, E3. now apply held_context.
Qed.

(** ** [Diana_CacheEatOne] and [Diana_ReadCache] *)

Lemma CacheEatOne_ok low l last E :
  hoare (fun s => fed low l last s /\ 0 < cacheSize (pContext s)) Diana_CacheEatOne
    (fun b s => fed (low + 1) l last s /\ byte_ok b) E.
Proof.
  intros s ([[Hc Hi Hs He Hio] Hp Hla Hr] & Hpos). unfold Diana_CacheEatOne, context. rewrite bind_gets.
  unfold DI_CACHE_RESERVED in Hi.
  rewrite (bind_run _ _ _ _ _ (cache_byte_run (cacheIt (pContext s)) s Hc ltac:(lia))).
  unfold set_context. rewrite bind_modify. pose proof Hc as (Hl & Hb). unfold ret.
  split; [|rewrite Forall_forall in Hb; apply Hb, nth_In; sizes].
  constructor; cbn; auto. constructor; cbn; auto; try sizes.
  destruct Hio as (m & p & q & Hio & E0 & Hlow & Hk).
  replace (cacheSize (pContext s)) with (1 + (cacheSize (pContext s) - 1)) in E0 by lia.
  rewrite buf_bytes_split in E0 by lia.
  exists m, (p ++ buf_bytes (cache (pContext s)) (cacheIt (pContext s)) 1), q.
  split; [now apply io_context|]. split; [rewrite <- !app_assoc in *; exact E0|].
  split; [rewrite length_app, buf_bytes_length by lia; lia|exact Hk].
Qed.

Section ReadCache.
Variables (low : Z) (l : list DianaPrefixInfo) (last : Z).

Lemma optimize_ok b s : fed low l last s -> exists s1,
  when b (
    let! it := context cacheIt in
    let! size := context cacheSize in
    cache_move DI_CACHE_RESERVED it size ;;;
    set_context (with_cacheIt (fun _ => DI_CACHE_RESERVED))) s = (Ok tt, s1) /\ fed low l last s1 /\
  (b = true -> cacheIt (pContext s1) = DI_CACHE_RESERVED).
Proof.
  intros Hf. destruct b; [|exists s; cbn; auto with bool; split; [reflexivity|split; [exact Hf|discriminate]]].
  destruct Hf as [[Hc Hi Hs He Hio] Hp Hla Hr]. unfold DI_CACHE_RESERVED in Hi. pose proof Hc as (Hl & Hb).
  cbn [when]. unfold context. rewrite !bind_gets.
  rewrite (bind_run _ _ _ _ _ (cache_move_run 2 (cacheIt (pContext s)) (cacheSize (pContext s)) s Hc
             ltac:(lia) ltac:(lia) ltac:(lia) ltac:(lia) ltac:(lia))).
  assert (Hn : Z.of_nat (length (buf_bytes (cache (pContext s)) (cacheIt (pContext s)) (cacheSize (pContext s))))
               = cacheSize (pContext s)) by (rewrite buf_bytes_length by sizes; sizes).
  eexists. split; [reflexivity|]. split; [|reflexivity]. constructor; cbn; auto.
  constructor; cbn; try sizes.
  - split; cbn; [rewrite buf_update_length; sizes|apply buf_update_ok; auto; now apply buf_bytes_ok].
  - apply conserved_context. unfold cache_set. apply conserved_context.
    pose proof (buf_bytes_written (cache (pContext s)) 2
      (buf_bytes (cache (pContext s)) (cacheIt (pContext s)) (cacheSize (pContext s))) ltac:(lia) ltac:(lia)) as W.
    rewrite Hn in W. change DI_CACHE_RESERVED with 2. now rewrite W.
Qed.

Lemma wrap_ok s : fed low l last s -> exists s1,
  (let! it := context cacheIt in
   when (DI_CACHE_SIZE <=? it) (set_context (with_cacheIt (fun _ => DI_CACHE_RESERVED)))) s = (Ok tt, s1) /\
  fed low l last s1 /\ cacheIt (pContext s1) < DI_CACHE_SIZE /\
  (cacheIt (pContext s) = DI_CACHE_RESERVED -> cacheIt (pContext s1) = DI_CACHE_RESERVED).
Proof.
  intros Hf. unfold context. rewrite bind_gets.
  destruct (Z.leb_spec DI_CACHE_SIZE (cacheIt (pContext s))) as [Hge|Hlt]; cbn [when]; [|exists s; auto].
  eexists. split; [reflexivity|]. split; [|split; [reflexivity|reflexivity]].
  destruct Hf as [[Hc Hi Hs He Hio] Hp Hla Hr]. constructor; cbn; auto.
  constructor; cbn; auto; try sizes.
  apply conserved_context. rewrite buf_bytes_none in Hio by lia. now rewrite buf_bytes_none by lia.
Qed.

Lemma fill_ok s : fed low l last s ->
  match (let! it := context cacheIt in
         let! size := context cacheSize in
         when (it + size <? DI_CACHE_SIZE) (
           let! (iResult, bytesRead) := read_into_cache (it + size) (DI_CACHE_SIZE - size - it) in
           if iResult =? DI_END then ret tt
           else if negb (iResult =? DI_SUCCESS) then fail iResult
           else set_context (with_cacheSize (fun n => n + bytesRead)))) s with
  | (Crash, _) => False
  | (Err c, s') => is_error c /\ fed low l last s' /\ cacheIt (pContext s') = cacheIt (pContext s)
  | (Ok _, s') => fed low l last s' /\ cacheIt (pContext s') = cacheIt (pContext s)
  end.
Proof.
  intros Hf. unfold context. rewrite !bind_gets.
  destruct (Z.ltb_spec (cacheIt (pContext s) + cacheSize (pContext s)) DI_CACHE_SIZE) as [Hlt|Hge];
    cbn [when]; [|split; [exact Hf|reflexivity]].
  pose proof Hf as [Hh Hp Hla Hr].
  destruct (read_into_cache_run low (cacheIt (pContext s)) (cacheSize (pContext s))
              (DI_CACHE_SIZE - cacheSize (pContext s) - cacheIt (pContext s)) s Hh ltac:(lia) ltac:(lia))
    as (st & k & c' & s' & E & Hh' & Ec & Er & Hk & H0k & _).
  rewrite (bind_run _ _ _ _ _ E).
  assert (Hsame : k = 0 -> fed low l last s' /\ cacheIt (pContext s') = cacheIt (pContext s)).
  { intros ->. rewrite Z.add_0_r in Hh'. rewrite Ec. split; [|reflexivity].
    constructor; rewrite ?Ec, ?Er; auto. }
  destruct (Z.eqb_spec st DI_END) as [E1|N1]; [apply Hsame, H0k; rewrite E1; discriminate|].
  destruct (Z.eqb_spec st DI_SUCCESS) as [E2|N2]; cbn [negb].
  2:{ split; [now apply negb_true_iff, Z.eqb_neq|now apply Hsame, H0k]. }
  cbn. rewrite Ec. split; [|reflexivity].
  constructor; cbn; rewrite ?Ec; cbn; rewrite ?Er; auto.
  apply (held_context (with_cacheSize (fun n => n + k))) in Hh'; [|reflexivity]. exact Hh'.
Qed.

Lemma ReadCache_ok b :
  hoare (fed low l last) (Diana_ReadCache b)
    (fun _ s => fed low l last s /\ 0 < cacheSize (pContext s) /\
                (b = true -> cacheIt (pContext s) = DI_CACHE_RESERVED))
    (fun s => fed low l last s /\ (b = true -> cacheIt (pContext s) = DI_CACHE_RESERVED)).
Proof.
  intros s Hf. unfold Diana_ReadCache.
  destruct (optimize_ok b s Hf) as (s1 & E1 & Hf1 & Hi1). rewrite (bind_run _ _ _ _ _ E1).
  destruct (wrap_ok s1 Hf1) as (s2 & E2 & Hf2 & Hlt & Hi2).
  unfold context in *. rewrite bind_gets in *. rewrite (bind_run _ _ _ _ _ E2).
  pose proof (fill_ok s2 Hf2) as H3. unfold context in H3.
  rewrite !bind_gets in *. unfold bind at 1. 
  destruct (when _ _ s2) as [[u|code|] s3]; [| |exact H3].
  - destruct H3 as (Hf3 & Hi3). rewrite bind_gets.
    destruct (Z.eqb_spec (cacheSize (pContext s3)) 0) as [Ez|Nz]; cbn.
    + split; [reflexivity|]. split; [exact Hf3|]. intros Hb. rewrite Hi3. auto.
    + split; [exact Hf3|]. split; [|intros Hb; rewrite Hi3; auto].
      destruct Hf3 as [[] _ _ _]. lia.
  - destruct H3 as (Hcode & Hf3 & Hi3). split; [exact Hcode|]. split; [exact Hf3|]. intros Hb. rewrite Hi3. auto.
Qed.
End ReadCache.

(** ** VEX and EVEX

    While the payload is read the context still has the old size; [size] bytes are there. *)

Section Virtual.
Variables (l : list DianaPrefixInfo) (last : Z).

Record filling (low it size : Z) (s : DecState T) : Prop := {
  fl_held : held low it size s;
  fl_it : cacheIt (pContext s) = DI_CACHE_RESERVED;
  fl_size : 0 <= cacheSize (pContext s) <= it + size - DI_CACHE_RESERVED;
  fl_prefixes : prefixes (pContext s) = l;
  fl_last : lastPrefixBeforeRex (pContext s) = last;
  fl_result : result_ok (pResult s)
}.

(** The virtual prefix [first] is in front of the bytes of the stream. *)
Record virtual (first : Z) (s : DecState T) : Prop := {
  vt_cache : cache_ok (pContext s);
  vt_it : cacheIt (pContext s) = 0;
  vt_size : DI_CACHE_RESERVED <= cacheSize (pContext s) <= DI_CACHE_SIZE;
  vt_first : nth 0 (cache (pContext s)) 0 = first;
  vt_prefixes : prefixes (pContext s) = l;
  vt_last : lastPrefixBeforeRex (pContext s) = last;
  vt_result : result_ok (pResult s);
  vt_io : conserved prev src [] True 2
            (buf_bytes (cache (pContext s)) 2 (cacheSize (pContext s) - 2)) s
}.

Lemma fed_filling low s : fed low l last s -> cacheIt (pContext s) = DI_CACHE_RESERVED ->
  filling low DI_CACHE_RESERVED (cacheSize (pContext s)) s.
Proof.
  intros [Hh Hp Hl Hr] Hi. rewrite Hi in Hh. pose proof Hh as []. constructor; auto. sizes.
Qed.

Lemma filling_closed low size s : filling low DI_CACHE_RESERVED size s -> 0 <= low -> closed s.
Proof.
  intros [Hh Hi Hs Hp Hl Hr] Hlo. rewrite <- Hi in Hh. apply (held_closed low size); auto; [sizes|apply Hr].
Qed.

(** [pContext->cacheSize = cacheSize;] *)
Lemma filling_keep low size s : filling low DI_CACHE_RESERVED size s ->
  fed low l last (with_pContext (with_cacheSize (fun _ => size)) s) /\
  cacheIt (pContext (with_pContext (with_cacheSize (fun _ => size)) s)) = DI_CACHE_RESERVED.
Proof.
  intros [Hh Hi Hs Hp Hl Hr]. split; [|exact Hi]. rewrite <- Hi in Hh.
  constructor; cbn; auto. apply (held_context (with_cacheSize (fun _ => size))); auto.
Qed.

Lemma filling_context g low it size s : keeps_cache g -> (forall c, prefixes (g c) = prefixes c) ->
  (forall c, lastPrefixBeforeRex (g c) = lastPrefixBeforeRex c) ->
  filling low it size s -> filling low it size (with_pContext g s).
Proof.
  intros Hg Hp' Hl' [Hh Hi Hs Hp Hl Hr]. destruct (Hg (pContext s)) as (E1 & E2 & E3).
  constructor; cbn [with_pContext pContext pResult]; rewrite ?E2, ?E3, ?Hp', ?Hl'; auto.
  now apply held_context.
Qed.

Lemma filling_read low size n E : 0 < n -> DI_CACHE_RESERVED + size + n <= DI_CACHE_SIZE ->
  hoare (filling low DI_CACHE_RESERVED size) (read_into_cache (DI_CACHE_RESERVED + size) n)
    (fun r s => filling low DI_CACHE_RESERVED (size + snd r) s /\ 0 <= snd r <= n) E.
Proof.
  intros Hn Hle s [Hh Hi Hs Hp Hl Hr].
  destruct (read_into_cache_run low DI_CACHE_RESERVED size n s Hh Hn Hle)
    as (st & k & c' & s' & Er & Hh' & Ec & Eres & Hk & _ & _).
  rewrite Er. cbn [snd]. split; [|exact Hk]. constructor; rewrite ?Ec, ?Eres; auto. cbn. sizes.
Qed.

Lemma vex_fill_ok low fuel : 0 <= low -> forall size, 0 <= size -> 2 - size <= Z.of_nat fuel ->
  hoare (filling low DI_CACHE_RESERVED size) (vex_fill fuel DI_CACHE_RESERVED size)
    (fun o s => match o with
                | Some size' => filling low DI_CACHE_RESERVED size' s /\ 2 <= size'
                | None => fed low l last s /\ cacheIt (pContext s) = DI_CACHE_RESERVED
                end) closed.
Proof.
  intros Hlo. induction fuel as [|fuel IH]; intros size H0s Hf; cbn [vex_fill];
    destruct (Z.ltb_spec size 2) as [Hlt|Hge]; cbn [negb]; try (apply hoare_ret; intros s Hs; auto; lia).
  - lia.
  - eapply hoare_bind; [apply filling_read; sizes|]. intros [st k]. apply hoare_pure. intros Hk. cbn [snd] in *.
    destruct (negb (st =? DI_SUCCESS)) eqn:?; [fails; intros s Hs; eapply filling_closed; eauto|].
    destruct (Z.eqb_spec k 0) as [->|Nk].
    + eapply hoare_bind; [apply (hoare_set_context _ _ _ (fun _ s => fed low l last s /\
        cacheIt (pContext s) = DI_CACHE_RESERVED))|intros []; apply hoare_ret; auto].
      intros s Hs. rewrite Z.add_0_r in Hs. now apply filling_keep.
    + apply IH; lia.
Qed.

Lemma held_take k low it size s : held low it size s -> 0 <= k <= size -> held (low + k) (it + k) (size - k) s.
Proof.
  intros [Hc Hi Hs He (m & p & q & Hio & E & Hlow & Hk)] Hle. pose proof Hc as (Hl & _).
  constructor; try sizes; auto.
  replace size with (k + (size - k)) in E by lia. rewrite buf_bytes_split in E by sizes.
  exists m, (p ++ buf_bytes (cache (pContext s)) it k), q. split; [exact Hio|].
  split; [rewrite <- !app_assoc in *; exact E|].
  split; [rewrite length_app, buf_bytes_length by sizes; lia|exact Hk].
Qed.

Lemma filling_take k low it size s : filling low it size s -> 0 <= k <= size ->
  filling (low + k) (it + k) (size - k) s.
Proof. intros [Hh Hi Hs Hp Hl Hr] Hle. constructor; auto; [now apply held_take|lia]. Qed.

Lemma filling_byte low it size i E : 0 <= i < DI_CACHE_SIZE ->
  hoare (filling low it size) (cache_byte i) (fun _ => filling low it size) E.
Proof. intros Hi s Hs. rewrite cache_byte_run; [exact Hs|apply Hs|exact Hi]. Qed.

(** Where VEX and EVEX start: the bytes from [cache + 2] on, [low] bytes taken. *)
Definition at_start (low : Z) (s : DecState T) : Prop :=
  fed low l last s /\ cacheIt (pContext s) = DI_CACHE_RESERVED.

Lemma keep_and {A} low size (m : D T A) Q E :
  hoare (at_start low) m Q E ->
  hoare (filling low DI_CACHE_RESERVED size) (set_context (with_cacheSize (fun _ => size)) ;;; m) Q E.
Proof.
  intros Hm. apply (hoare_bind _ _ _ _ (fun _ => at_start low)); [|intros []; exact Hm]. apply hoare_set_context.
  intros s Hs. apply (filling_keep _ _ _ Hs).
Qed.

(** [let! it := context cacheIt in let! size := context cacheSize in let! amd := ... in ...] *)
Lemma start_reads {A} low (k : Z -> Z -> Z -> D T A) Q E :
  (forall size amd, 0 <= size <= 5 -> hoare (filling low DI_CACHE_RESERVED size) (k DI_CACHE_RESERVED size amd) Q E) ->
  hoare (at_start low)
    (let! it := context cacheIt in let! size := context cacheSize in
     let! amd := context iAMD64Mode in k it size amd) Q E.
Proof.
  intros Hk s (Hf & Hi). unfold context. rewrite !bind_gets, Hi. 
  apply (Hk (cacheSize (pContext s)) _); [|now apply fed_filling].
  destruct Hf as [[] _ _ _]. rewrite Hi in *. sizes.
Qed.

Definition vex_post (low : Z) (o : option VexFields) (s : DecState T) : Prop :=
  match o with
  | Some v => filling (low + 1) (vex_it v) (vex_size v) s
  | None => at_start low s
  end.

Lemma keeps_vvvv v : keeps_cache (with_iVexVVVV (fun _ => v)).
Proof. intros c. auto. Qed.

Lemma vex_fields_ok low size k v : 1 <= k <= size -> 
  vex_it v = DI_CACHE_RESERVED + k -> vex_size v = size - k ->
  forall vvvv, hoare (filling low DI_CACHE_RESERVED size)
    (set_context (with_iVexVVVV (fun _ => vvvv)) ;;; ret (Some v)) (vex_post low) closed.
Proof.
  intros Hk E1 E2 vvvv. apply (hoare_bind _ _ _ _ (fun _ => vex_post low (Some v)));
    [|intros []; apply hoare_ret; intros s Hs; exact Hs].
  apply hoare_set_context. intros s Hs. unfold vex_post. rewrite E1, E2.
  apply filling_context; auto using keeps_vvvv.
  destruct (filling_take k _ _ _ _ Hs ltac:(lia)) as [[Hc Hi Hz He Hio] Hit Hsz Hp Hl Hr].
  constructor; auto. constructor; auto. eapply conserved_low; [exact Hio|lia].
Qed.

Lemma vex_two_byte_ok low : 0 <= low -> hoare (at_start low) vex_two_byte (vex_post low) closed.
Proof.
  intros Hlo. unfold vex_two_byte. apply start_reads. intros size0 amd Hs0.
  eapply (hoare_bind _ _ _ _ (fun size s => filling low DI_CACHE_RESERVED size s /\ 0 <= size <= 5)).
  - destruct (size0 <? 1) eqn:E1; [|apply hoare_ret; auto].
    eapply hoare_bind; [apply filling_read; sizes|]. intros [st k]. apply hoare_pure. cbn [snd]. intros Hk.
    destruct (negb (st =? DI_SUCCESS)) eqn:?; [fails; intros s Hs; eapply filling_closed; eauto|].
    apply hoare_ret. intros s Hs. split; [exact Hs|]. lia.
  - intros size. apply hoare_pure. intros Hs1.
    destruct (Z.ltb_spec size 1); [fails; intros s Hs; eapply filling_closed; eauto|].
    eapply hoare_bind; [apply filling_byte; sizes|]. intros b2.
    destruct (_ && _); [apply keep_and, hoare_ret; auto|].
    apply (vex_fields_ok low size 1); [lia|reflexivity|reflexivity].
Qed.

Lemma vex_three_byte_ok low : 0 <= low -> hoare (at_start low) vex_three_byte (vex_post low) closed.
Proof.
  intros Hlo. unfold vex_three_byte. apply start_reads. intros size0 amd Hs0.
  eapply hoare_bind; [apply vex_fill_ok; lia|]. intros [size|].
  - apply hoare_pure. intros Hs1.
    eapply hoare_bind; [apply filling_byte; sizes|]. intros b2.
    eapply hoare_bind; [apply filling_byte; sizes|]. intros b3.
    destruct (_ && _); [apply keep_and, hoare_ret; auto|].
    destruct (vex_map_select _) as [map|].
    + apply (vex_fields_ok low size 2); [lia|reflexivity|reflexivity].
    + apply keep_and. fails. intros s (Hs & _). eapply fed_closed; eauto.
  - destruct (amd =? 0); [apply hoare_ret; auto|fails]. intros s (Hs & _). eapply fed_closed; eauto.
Qed.

Lemma virtual_context g first s : keeps_cache g -> (forall c, prefixes (g c) = prefixes c) ->
  (forall c, lastPrefixBeforeRex (g c) = lastPrefixBeforeRex c) ->
  virtual first s -> virtual first (with_pContext g s).
Proof.
  intros Hg Hp' Hl' []. destruct (Hg (pContext s)) as (E1 & E2 & E3).
  constructor; cbn [with_pContext pContext pResult]; rewrite ?E1, ?E2, ?E3, ?Hp', ?Hl'; auto.
  - unfold cache_ok. now rewrite E1.
  - now apply conserved_context.
Qed.

Lemma top_up_ok first E : hoare (virtual first) top_up (fun _ => virtual first) E.
Proof.
  intros s Hv. unfold top_up, context. rewrite !bind_gets.
  destruct (Z.ltb_spec (cacheIt (pContext s) + cacheSize (pContext s)) DI_CACHE_SIZE) as [Hlt|Hge];
    cbn [when]; [|exact Hv].
  destruct Hv as [Hc Hi Hs Hf Hp Hl Hr Hio]. rewrite Hi in *.
  assert (Hh : held 2 2 (cacheSize (pContext s) - 2) s) by (constructor; auto; sizes).
  destruct (read_into_cache_run 2 2 (cacheSize (pContext s) - 2) (DI_CACHE_SIZE - cacheSize (pContext s) - 0) s Hh)
    as (st & k & c' & s' & Er & Hh' & Ec & Eres & Hk & _ & Hn); [sizes|sizes|].
  replace (0 + cacheSize (pContext s)) with (2 + (cacheSize (pContext s) - 2)) by lia.
  rewrite (bind_run _ _ _ _ _ Er). cbn. destruct Hh' as [Hc' _ _ He' Hio'].
  constructor; cbn; rewrite ?Ec; cbn; rewrite ?Eres; auto; try sizes.
  - rewrite Ec in Hc'. exact Hc'.
  - rewrite Hn by sizes. exact Hf.
  - apply conserved_context. rewrite Ec in Hio'. cbn in Hio'.
    replace (cacheSize (pContext s) + k - 2) with (cacheSize (pContext s) - 2 + k) by lia. exact Hio'.
Qed.

Lemma put_virtual_prefix_ok first sel low it size E : 2 <= low -> byte_ok first -> byte_ok sel ->
  hoare (filling low it size) (put_virtual_prefix first sel it size) (fun _ => virtual first) E.
Proof.
  intros Hlo B1 B2 s [[Hc Hi Hs He Hio] Hit Hsz Hp Hl Hr]. unfold put_virtual_prefix.
  pose proof Hc as (Hlen & Hb).
  rewrite (bind_run _ _ _ _ _ (cache_move_run DI_CACHE_RESERVED it size s Hc ltac:(sizes) ltac:(sizes)
             ltac:(sizes) ltac:(sizes) ltac:(sizes))).
  set (win := buf_bytes (cache (pContext s)) it size) in *.
  assert (Hwl : Z.of_nat (length win) = size) by (unfold win; rewrite buf_bytes_length by sizes; lia).
  set (c1 := buf_update (cache (pContext s)) DI_CACHE_RESERVED win).
  assert (L1 : length c1 = length (cache (pContext s))) by (apply buf_update_length; sizes).
  assert (K1 : cache_ok (pContext (cache_set c1 s))).
  { apply cache_set_ok; auto. apply buf_update_ok; auto. now apply buf_bytes_ok. }
  rewrite (bind_run _ _ _ _ _ (cache_store_run 0 [first] _ K1 ltac:(lia) ltac:(cbn [length]; sizes))).
  set (c2 := buf_update (cache (pContext (cache_set c1 s))) 0 [first]).
  assert (L2 : length c2 = length c1) by (apply buf_update_length; rewrite ?(proj1 K1); cbn [length]; sizes).
  assert (K2 : cache_ok (pContext (cache_set c2 (cache_set c1 s)))).
  { apply cache_set_ok; auto. apply buf_update_ok; [apply K1|auto]. }
  rewrite (bind_run _ _ _ _ _ (cache_store_run 1 [sel] _ K2 ltac:(lia) ltac:(cbn [length]; sizes))).
  set (c3 := buf_update (cache (pContext (cache_set c2 (cache_set c1 s)))) 1 [sel]).
  assert (L3 : length c3 = length c2) by (apply buf_update_length; rewrite ?(proj1 K2); cbn [length]; sizes).
  assert (F3 : Forall byte_ok c3) by (apply buf_update_ok; [apply K2|auto]).
  unfold set_context, modify. constructor; cbn [with_pContext pContext with_cacheSize with_cacheIt cache cacheIt cacheSize prefixes
    lastPrefixBeforeRex pResult cache_set with_cache]; auto; try sizes.
  - split; [|exact F3]. transitivity (Z.of_nat (length c3)); [reflexivity|]. sizes.
  - apply conserved_context. unfold cache_set. do 3 apply conserved_context.
    replace (size + DI_CACHE_RESERVED - 2) with size by sizes.
    assert (Ew : buf_bytes c3 2 size = win).
    { unfold c3. change (cache (pContext (cache_set c2 (cache_set c1 s)))) with c2.
      rewrite buf_bytes_apart by (cbn [length]; sizes).
      unfold c2. change (cache (pContext (cache_set c1 s))) with c1.
      rewrite buf_bytes_apart by (cbn [length]; sizes). rewrite <- Hwl. apply buf_bytes_written; sizes. }
    eapply conserved_low; [|exact Hlo]. rewrite <- Ew in Hio. exact Hio.
Qed.

(** The end of both prefixes: the virtual prefix, then as much as fits. *)
Lemma virtual_end first sel low it size E : 2 <= low -> byte_ok first -> byte_ok sel ->
  hoare (filling low it size)
    (put_virtual_prefix first sel it size ;;; top_up ;;; ret true)
    (fun found s => found = true /\ virtual first s) E.
Proof.
  intros Hlo B1 B2. eapply hoare_bind; [now apply put_virtual_prefix_ok|]. intros [].
  eapply hoare_bind; [apply top_up_ok|]. intros []. apply hoare_ret. auto.
Qed.

(** Whether the prefix was there. *)
Definition prefix_post (low first : Z) (found : bool) (s : DecState T) : Prop :=
  if found then virtual first s else at_start low s.

Lemma u8_byte x : byte_ok (u8 x).
Proof. unfold byte_ok, u8. apply Z.mod_pos_bound. lia. Qed.

Lemma filling_set g low it size (Q : unit -> DecState T -> Prop) E :
  keeps_cache g -> (forall c, prefixes (g c) = prefixes c) ->
  (forall c, lastPrefixBeforeRex (g c) = lastPrefixBeforeRex c) ->
  (forall s, filling low it size s -> Q tt s) ->
  hoare (filling low it size) (set_context g) Q E.
Proof. intros H1 H2 H3 Hq. apply hoare_set_context. intros s Hs. apply Hq. now apply filling_context. Qed.

Lemma Di_ProcessVexPrefix_ok low b : 1 <= low ->
  hoare (at_start low) (Di_ProcessVexPrefix b) (prefix_post low 0xC5) closed.
Proof.
  intros Hlo. unfold Di_ProcessVexPrefix.
  apply (hoare_bind _ _ _ _ (vex_post low)).
  { destruct (b =? 0xC5); [apply vex_two_byte_ok|apply vex_three_byte_ok]; lia. }
  intros [v|]; cbn [vex_post]; [|apply hoare_ret; auto].
  apply hoare_any_context. intros amd.
  apply (hoare_bind _ _ _ _ (fun _ => filling (low + 1) (vex_it v) (vex_size v))).
  { apply filling_set; auto; intros c; repeat split. }
  intros []. destruct (if amd =? 0 then _ else _) as [[[R X] B] W].
  apply (hoare_bind _ _ _ _ (fun _ => filling (low + 1) (vex_it v) (vex_size v))).
  { apply filling_set; auto; intros c; repeat split. }
  intros []. apply (hoare_bind _ _ _ _ (fun _ => filling (low + 1) (vex_it v) (vex_size v))).
  { apply hoare_when; [|auto]. intros _. apply filling_set; auto; intros c; repeat split. }
  intros []. eapply hoare_conseq; [apply (virtual_end 0xC5 _ (low + 1)); [lia|unfold byte_ok; lia|apply u8_byte]|auto| |intros s Hs; exact Hs].
  intros found s (-> & Hs). exact Hs.
Qed.

Lemma evex_fill_ok low fuel : 0 <= low -> forall size, 0 <= size <= 5 -> 5 - size <= Z.of_nat fuel ->
  hoare (filling low DI_CACHE_RESERVED size) (evex_fill fuel DI_CACHE_RESERVED size)
    (fun size' s => filling low DI_CACHE_RESERVED size' s /\ 0 <= size' <= 5) closed.
Proof.
  intros Hlo. induction fuel as [|fuel IH]; intros size H0s Hf; cbn [evex_fill].
  - replace (size <? 5) with false by (symmetry; apply Z.ltb_ge; lia). cbn [andb negb].
    apply hoare_ret. auto.
  - destruct (Z.ltb_spec size 5) as [Hlt|Hge]; cbn [andb negb]; [|apply hoare_ret; auto].
    replace (DI_CACHE_RESERVED + size <? DI_CACHE_SIZE) with true by (symmetry; apply Z.ltb_lt; sizes).
    cbn [negb]. eapply hoare_bind; [apply filling_read; sizes|].
    intros [st k]. apply hoare_pure. intros Hk. cbn [snd] in *.
    destruct (negb (st =? DI_SUCCESS)) eqn:?; [fails; intros s Hs; eapply filling_closed; eauto|].
    destruct (Z.eqb_spec k 0) as [->|Nk].
    + apply hoare_ret. intros s Hs. rewrite Z.add_0_r in Hs. auto.
    + apply IH; lia.
Qed.

Lemma evex_apply_ok low size p0 p1 p2 : 1 <= low -> 4 <= size <= 5 ->
  hoare (filling low DI_CACHE_RESERVED size) (evex_apply p0 p1 p2 DI_CACHE_RESERVED size)
    (prefix_post low 0x62) closed.
Proof.
  intros Hlo Hsz. unfold evex_apply. apply hoare_any_context. intros amd. cbv zeta.
  apply (hoare_bind _ _ _ _ (fun _ => filling low DI_CACHE_RESERVED size)).
  { apply filling_set; auto; intros c; repeat split. }
  intros []. destruct (_ && _).
  { apply keep_and. fails. intros s (Hs & _). eapply fed_closed; eauto. lia. }
  destruct (if amd =? 0 then _ else _) as [[[R X] B] R1].
  apply (hoare_bind _ _ _ _ (fun _ => filling low DI_CACHE_RESERVED size)).
  { apply filling_set; auto; intros c; repeat split. }
  intros []. apply (hoare_bind _ _ _ _ (fun _ => filling low DI_CACHE_RESERVED size)).
  { apply hoare_when; [|auto]. intros _. apply filling_set; auto; intros c; repeat split. }
  intros []. apply (hoare_bind _ _ _ _ (fun _ => filling low DI_CACHE_RESERVED size)).
  { destruct (_ && _); [|apply hoare_ret; auto].
    eapply hoare_bind; [apply filling_byte; sizes|]. intros modrm. apply hoare_ret. auto. }
  intros pathLL.
  eapply hoare_conseq; [apply (virtual_end 0x62 _ (low + 3) (DI_CACHE_RESERVED + 3) (size - 3));
    [lia|unfold byte_ok; lia|apply u8_byte]| |intros found s (-> & Hs); exact Hs|intros s Hs; exact Hs].
  intros s Hs. apply filling_take; [exact Hs|lia].
Qed.

Lemma Di_ProcessEvexPrefix_ok low : 1 <= low ->
  hoare (at_start low) Di_ProcessEvexPrefix (prefix_post low 0x62) closed.
Proof.
  intros Hlo. unfold Di_ProcessEvexPrefix. apply start_reads. intros size0 amd Hs0.
  eapply hoare_bind; [apply evex_fill_ok; lia|]. intros size. apply hoare_pure. intros Hs1.
  apply (hoare_bind _ _ _ _ (fun _ => filling low DI_CACHE_RESERVED size)).
  { destruct (size <? 1); [apply hoare_ret; auto|]. destruct (amd =? 0); [|apply hoare_ret; auto].
    eapply hoare_bind; [apply filling_byte; sizes|]. intros b. apply hoare_ret. auto. }
  intros is_bound.
  assert (Hf : forall s, at_start low s -> closed s).
  { intros s (Hs & _). eapply fed_closed; eauto. lia. }
  destruct is_bound.
  { apply keep_and. destruct (_ && _); [fails; exact Hf|apply hoare_ret; auto]. }
  destruct (Z.ltb_spec size 4); [apply keep_and; fails; exact Hf|].
  eapply hoare_bind; [apply filling_byte; sizes|]. intros p0.
  eapply hoare_bind; [apply filling_byte; sizes|]. intros p1.
  eapply hoare_bind; [apply filling_byte; sizes|]. intros p2. cbv zeta.
  destruct (_ || _); [apply keep_and; fails; exact Hf|].
  apply evex_apply_ok; lia.
Qed.
End Virtual.
End Cache.
