(* ===== verification/DecTryProofs.v ===== *)
(** One try at an instruction: the table walk, the prefixes, the operands.  A try that succeeds
    takes the instruction's bytes and no others; one that fails puts the cache back. *)

From Stdlib Require Import ZArith Lia List Bool.
Import ListNotations.
From S2P Require Import Prelude Words Status Registers DecTypes DecStreams DecUtils DecPrefix DecAddress.
From S2P Require Import DecLink DecWalk DecParser DecHoare DecLinkProofs DecCacheProofs.
From S2P Require Import DecWalkProofs.
Local Open Scope Z_scope.
Local Open Scope diana_scope.

#[local] Arguments Z.add : simpl never.
#[local] Arguments Z.sub : simpl never.
#[local] Arguments DI_CACHE_SIZE : simpl never.
#[local] Arguments buf_update : simpl never.
#[local] Arguments buf_bytes : simpl never.

(** ** Prefixes *)

Definition legacy_byte (b : Z) : bool := snd (fst (Di_ProcessCustomPrefix b)).

(** A function that leaves the list of prefixes and the cache alone. *)
Definition applicable (p : DianaPrefixInfo) : Prop :=
  match linkedPrefixFnc p with Some f => f <> fn_Normal | None => False end.

(** The place of a legacy prefix in the list. *)
Definition legacy_at (l : list DianaPrefixInfo) (i : Z) : Prop :=
  exists p, table_get l i = Some p /\ legacy_byte (prefix p) = true.

Record same_cache (c c' : DianaContext) : Prop := {
  sc_cache : cache c' = cache c;
  sc_it : cacheIt c' = cacheIt c;
  sc_size : cacheSize c' = cacheSize c;
  sc_prefixes : prefixes c' = prefixes c;
  sc_last : lastPrefixBeforeRex c' = lastPrefixBeforeRex c;
  sc_arch : iArch c' = iArch c
}.

Lemma same_cache_trans c1 c2 c3 : same_cache c1 c2 -> same_cache c2 c3 -> same_cache c1 c3.
Proof. intros [] []. constructor; congruence. Qed.

Lemma call_prefix_same f c : f <> fn_Normal -> same_cache c (call_prefix f c).
Proof.
  intros Hf. destruct f; try contradiction; cbn [call_prefix];
    unfold Diana_Lock, Diana_Rep, Diana_Repn, Diana_CS, Diana_SS, Diana_DS, Diana_ES, old_segment,
      Diana_FS, Diana_GS, Diana_OpSize, Diana_AddrSize, Diana_Rex, no_rex;
    repeat match goal with |- context [if ?b then _ else _] => destruct b end; constructor; reflexivity.
Qed.

Lemma apply_prefixes_ok l : Forall applicable l -> forall i x c,
  exists c', apply_prefixes l i x c = Some c' /\ same_cache c c'.
Proof.
  induction 1 as [|p l Hp _ IH]; intros i x c; cbn [apply_prefixes].
  - exists c. split; [reflexivity|constructor; reflexivity].
  - destruct (i =? x); [apply IH|]. unfold applicable in Hp.
    destruct (linkedPrefixFnc p) as [f|]; [|contradiction].
    destruct (IH (i + 1) x (call_prefix f c)) as (c' & E & Hc'). exists c'. split; [exact E|].
    eauto using same_cache_trans, call_prefix_same.
Qed.

(** ** The command tables *)

Record tables_ok (root : DianaBaseGenObject) : Prop := {
  tb_table : table_ok root = true;
  tb_line : is_line root = true;
  tb_height : (height root <= 8)%nat;
  tb_commands : all_commands (fun i => match m_pGroupInfo i with
                                       | Some _ => m_operandCount i <=? DI_MAX_OPERANDS_COUNT
                                       | None => false
                                       end) root = true
}.

(** A prefix, or the virtual byte of VEX and EVEX, is not an instruction of its own. *)
Definition legacy_bytes : list Z := [0xF3; 0xF2; 0xF0; 0x2E; 0x36; 0x3E; 0x26; 0x64; 0x65; 0x66; 0x67].

Definition is_vex (i : DianaCmdInfo) : bool := has_flag (m_flags i) DI_FLAG_CMD_VEX_ENCODED.
Definition is_evex (i : DianaCmdInfo) : bool := has_flag (m_parent_flags i) DIANA_BASE_GEN_OBJECT_EVEX.

Record prefixes_lead_on (root : DianaBaseGenObject) : Prop := {
  pl_legacy : forallb (fun b => commands_at (fun _ => false) b root) legacy_bytes = true;
  pl_vex : commands_at (fun i => negb (is_vex i)) 0xC5 root = true;
  pl_evex : commands_at (fun i => negb (is_evex i)) 0x62 root = true
}.

Lemma legacy_byte_in b : legacy_byte b = true -> In b legacy_bytes.
Proof.
  unfold legacy_byte, Di_ProcessCustomPrefix.
  repeat match goal with |- context [?b =? ?x] => destruct (Z.eqb_spec b x); [subst; cbn; tauto|] end.
  discriminate.
Qed.

Lemma legacy_leads_on root b : prefixes_lead_on root -> legacy_byte b = true ->
  commands_at (fun _ => false) b root = true.
Proof.
  intros [Hl _ _] Hb. rewrite forallb_forall in Hl. apply Hl. now apply legacy_byte_in.
Qed.

Section Try.
Context {T : Type} `{DianaReadStreamOk T}.
Variable root : DianaBaseGenObject.
Hypothesis tables : tables_ok root.
Variables prev src : list Z.

(** ** The walk *)

Section WalkTo.
Variables (c : DianaContext).
Hypothesis cache_fine : cache_ok c.
Hypothesis it_fine : 0 <= cacheIt c.
Hypothesis size_fine : 0 <= cacheSize c.
Hypothesis end_fine : cacheIt c + cacheSize c <= DI_CACHE_SIZE.

(** What a command found at [newIt] satisfies. *)
Record found_ok (info : DianaCmdInfo) (newIt : Z) : Prop := {
  fo_range : cacheIt c <= newIt < cacheIt c + cacheSize c;
  fo_group : m_pGroupInfo info <> None;
  fo_count : m_operandCount info <= DI_MAX_OPERANDS_COUNT;
  fo_moves : forall P, commands_at P (nth (Z.to_nat (cacheIt c)) (cache c) 0) root = true ->
    P info = true \/ cacheIt c < newIt
}.

Lemma ParseCmdImpl_run (s : DecState T) : pContext s = c ->
  (exists s', Diana_ParseCmdImpl root s = (Err DI_ERROR, s') /\ s' = s) \/
  (exists info newIt s', Diana_ParseCmdImpl root s = (Ok newIt, s') /\ found_ok info newIt /\
     s' = with_pResult (with_pInfo (fun _ => Some info))
            (with_cmdProxy (fun _ => mkDianaStreamProxy newIt 0 (cacheIt c + cacheSize c - newIt)) s)).
Proof.
  intros Ec. unfold Diana_ParseCmdImpl, context. rewrite bind_gets, Ec. cbv beta zeta.
  destruct (Z.eqb_spec (cacheSize c) 0) as [E0|N0]; [left; exists s; split; reflexivity|].
  destruct tables as [Ht Hl Hh Hcmd].
  assert (Hr : 0 <= cacheIt c < cacheIt c + cacheSize c) by lia.
  assert (Hend : cacheIt c + cacheSize c <= Z.of_nat (length (cache c))) by (rewrite (proj1 cache_fine); lia).
  rewrite (walk_is_search_at c (cacheIt c + cacheSize c) (proj2 cache_fine) Hend root (cacheIt c) Ht Hl Hh Hr).
  destruct (search c (cacheIt c + cacheSize c) root (cacheIt c)) as [[info newIt]|] eqn:Es; [|left; exists s; split; reflexivity].
  right. exists info, newIt. eexists. split; [reflexivity|]. split; [|reflexivity].
  destruct (search_finds _ c (cacheIt c + cacheSize c) (weight root) root (cacheIt c) info newIt (le_n _) Hcmd ltac:(lia) Es) as (Hp & Hr').
  constructor; [exact Hr'| | |].
  - now destruct (m_pGroupInfo info).
  - destruct (m_pGroupInfo info); [|discriminate]. now apply Z.leb_le.
  - intros P HP. exact (search_moves P c (cacheIt c + cacheSize c) (weight root) root (cacheIt c) info newIt (le_n _) ltac:(lia) HP Es).
Qed.
End WalkTo.

(** ** From the walk to the operands *)

(** Ready for the walk: at most two bytes in front of [cache + 2] stand for bytes that are taken. *)
Record armed (keep : Prop) (low : Z) (l : list DianaPrefixInfo) (last : Z) (s : DecState T) : Prop := {
  am_cache : cache_ok (pContext s);
  am_it : 0 <= cacheIt (pContext s) <= DI_CACHE_RESERVED;
  am_size : 0 <= cacheSize (pContext s);
  am_end : DI_CACHE_RESERVED <= cacheIt (pContext s) + cacheSize (pContext s) <= DI_CACHE_SIZE;
  am_low : DI_CACHE_RESERVED - cacheIt (pContext s) <= low;
  am_prefixes : prefixes (pContext s) = l;
  am_last : lastPrefixBeforeRex (pContext s) = last;
  am_result : result_ok (pResult s);
  am_io : conserved prev src [] keep low
            (buf_bytes (cache (pContext s)) 2 (cacheIt (pContext s) + cacheSize (pContext s) - 2)) s
}.

(** The state right after the walk. *)
Definition walked (info : DianaCmdInfo) (newIt : Z) (s : DecState T) : DecState T :=
  with_pResult (with_pInfo (fun _ => Some info))
    (with_cmdProxy (fun _ =>
       mkDianaStreamProxy newIt 0 (cacheIt (pContext s) + cacheSize (pContext s) - newIt)) s).

Section Linked.
Variables (keep : Prop) (low : Z) (l : list DianaPrefixInfo) (last : Z) (s0 : DecState T).
Variables (info : DianaCmdInfo) (newIt : Z).
Hypothesis is_armed : armed keep low l last s0.
Hypothesis is_found : found_ok (pContext s0) info newIt.

Abbreviation end_ := (cacheIt (pContext s0) + cacheSize (pContext s0)).

(** Only parts of the context that have to do neither with the cache nor with the list of the
    prefixes are different from the state after the walk. *)
Definition poised (s : DecState T) : Prop :=
  exists c, same_cache (pContext s0) c /\ s = with_pContext (fun _ => c) (walked info newIt s0).

Variable L0 : list Z.
Hypothesis read_so_far : io src L0 s0.

Lemma conserved_rebase win : conserved prev src [] keep low win s0 -> conserved prev src L0 keep low win s0.
Proof.
  intros (m & p & q & Hio & R). exists [], p, q. rewrite app_nil_r. cbn [app] in *.
  assert (m = L0) as -> by eauto using io_unique.
  split; [exact Hio|]. exact R.
Qed.

Abbreviation linking' c := (linking prev src L0 keep low newIt 2 end_ c info).
Abbreviation linked' c := (linked prev src L0 keep low newIt 2 end_ c info).

Lemma start_linking c : cache c = cache (pContext s0) ->
  linking' c 0 (end_ - newIt) (with_pContext (fun _ => c) (walked info newIt s0)).
Proof.
  intros Ec. destruct is_armed as [Hc Hi Hs He Hlow Hp Hl [R1 R2 R3] Hio], is_found as [Hr Hg Hcnt _].
  constructor; cbn [walked with_pContext with_pResult with_cmdProxy pContext pResult with_pInfo pInfo
    linkedOperands iLinkedOpCount bytes]; auto.
  2: now constructor.
  constructor; cbn [walked with_pContext with_pResult with_cmdProxy pContext pResult cmdProxy tail_size m_pBuffer begin];
    try sizes.
  { unfold cache_ok. now rewrite Ec. }
  apply conserved_context. unfold walked. apply conserved_result, conserved_proxy.
  pose proof (conserved_rebase _ Hio) as Hio'.
  unfold window. rewrite Ec.
  replace (end_ - (end_ - newIt)) with newIt by lia.
  destruct (Z.le_ge_cases newIt 2) as [Hle|Hge].
  - rewrite Z.max_l by lia. exact Hio'.
  - rewrite Z.max_r by lia. apply (conserved_take _ _ _ _ _ (buf_bytes (cache (pContext s0)) 2 (newIt - 2))).
    replace (end_ - 2) with ((newIt - 2) + (end_ - newIt)) in Hio' by lia.
    destruct Hc as (Hlen & _). rewrite buf_bytes_split in Hio' by sizes.
    replace (2 + (newIt - 2)) with newIt in Hio' by lia. exact Hio'.
Qed.

(** The operands are linked and the cache starts after the instruction. *)
Record settled (s : DecState T) : Prop := {
  st_cache : cache_ok (pContext s);
  st_size : 0 <= cacheSize (pContext s);
  st_it : cacheIt (pContext s) + cacheSize (pContext s) = end_;
  st_from : newIt <= cacheIt (pContext s);
  st_prefixes : prefixes (pContext s) = l;
  st_last : lastPrefixBeforeRex (pContext s) = last;
  st_info : pInfo (pResult s) = Some info;
  st_bytes : length (bytes (pResult s)) = 16%nat;
  st_io : conserved prev src L0 keep low
            (buf_bytes (cache (pContext s)) (Z.max 2 (cacheIt (pContext s)))
               (end_ - Z.max 2 (cacheIt (pContext s)))) s
}.

(** What remains of the start when something went wrong. *)
Record failed (s : DecState T) : Prop := {
  fa_cache : cache (pContext s) = cache (pContext s0);
  fa_prefixes : prefixes (pContext s) = l;
  fa_last : lastPrefixBeforeRex (pContext s) = last;
  fa_ops : Z.of_nat (length (linkedOperands (pResult s))) = DI_MAX_OPERANDS_COUNT;
  fa_bytes : length (bytes (pResult s)) = 16%nat;
  fa_io : exists more, io src (L0 ++ more) s
}.

Lemma poised_failed s : poised s -> failed s.
Proof.
  intros (c & Hc & ->). destruct is_armed as [_ _ _ _ _ Hp Hl [R1 R2 R3] _], Hc as [C1 C2 C3 C4 C5 C6].
  constructor; cbn; auto; try congruence. exists []. rewrite app_nil_r.
  apply io_context. unfold walked. now apply io_result, io_proxy.
Qed.

(** The context the operands are linked in. *)
Definition at_newIt (c : DianaContext) : Prop :=
  cache c = cache (pContext s0) /\ cacheIt c = newIt /\ prefixes c = l /\ lastPrefixBeforeRex c = last /\
  cacheSize c = cacheSize (pContext s0).

Definition linked_at (bound : Z) (s : DecState T) : Prop := exists c, at_newIt c /\ linked' c bound s.

Lemma linked_failed bound s : linked_at bound s -> failed s.
Proof.
  intros (c & (C1 & C2 & C3 & C4 & C5) & n & _ & [[_ _ _ _ _ _ (m & p & q & Hio & _)] [F1 F2 F3 F4 F5 F6] Hi Ho _ Hb]).
  constructor; auto; try congruence. eauto.
Qed.

Lemma linked_settled bound s : linked_at bound s ->
  settled (with_pContext (fun c => with_cacheIt (fun it => it + (end_ - newIt - tail_size (cmdProxy s)))
                                     (with_cacheSize (fun _ => tail_size (cmdProxy s)) c)) s) /\
  tail_size (cmdProxy s) <= bound.
Proof.
  intros (c & (C1 & C2 & C3 & C4 & C5) & n & _ & [[Hc Hs He Ht Hb _ Hio] [F1 F2 F3 F4 F5 F6] Hi Ho _ Hby]).
  split; [|exact Hb]. 
  constructor; cbn [with_pContext pContext with_cacheIt with_cacheSize cache cacheIt cacheSize prefixes
    lastPrefixBeforeRex pResult]; auto; try congruence; try lia.
  apply conserved_context. unfold window in Hio.
  replace (cacheIt (pContext s) + (end_ - newIt - tail_size (cmdProxy s))) with (end_ - tail_size (cmdProxy s)) by lia.
  exact Hio.
Qed.

Lemma settled_closed s : settled s -> closed prev src s.
Proof.
  intros [Hc Hs Hi Hf Hp Hl Hinf Hb (m & p & q & Hio & E & Hlow & _)].
  destruct is_armed as [_ Hi0 Hs0 He0 Hl0 _ _ _ _], is_found as [Hr _ _ _].
  constructor; auto. exists (L0 ++ m). split; [exact Hio|].
  apply (f_equal (@length Z)) in E. destruct Hc as (Hlen & _).
  rewrite !length_app, buf_bytes_length in E by sizes. rewrite length_app. sizes.
Qed.

(** A change of the context that has to do neither with the cache nor with the prefixes. *)
Definition harmless (g : DianaContext -> DianaContext) : Prop := forall c, same_cache c (g c).

Lemma poised_set g E : harmless g -> hoare poised (set_context g) (fun _ => poised) E.
Proof.
  intros Hg. apply hoare_set_context. intros s (c & Hc & ->). exists (g c).
  split; [eauto using same_cache_trans|reflexivity].
Qed.

Lemma ApplyPrefixes_ok i E : Forall applicable l ->
  hoare poised (ApplyPrefixes i) (fun _ => poised) E.
Proof.
  intros Hl s (c & Hc & ->). unfold ApplyPrefixes, context. rewrite bind_gets. cbn [with_pContext pContext].
  assert (prefixes c = l) as ->.
  { destruct Hc as [_ _ _ Hp _ _], is_armed as [_ _ _ _ _ Hpl _ _ _]. congruence. }
  destruct (apply_prefixes_ok l Hl 0 i c) as (c' & E' & Hc'). rewrite E'. cbn. exists c'.
  split; [eauto using same_cache_trans|reflexivity].
Qed.

Lemma poised_tail s : poised s -> tail_size (cmdProxy s) = end_ - newIt.
Proof. now intros (c & _ & ->). Qed.

(** [pContext->cacheIt = newIt;] and the operands *)
Lemma link_from_poised g :
  (forall c, cache (g c) = cache c /\ cacheIt (g c) = newIt /\ prefixes (g c) = prefixes c /\
             lastPrefixBeforeRex (g c) = lastPrefixBeforeRex c /\ cacheSize (g c) = cacheSize c) ->
  hoare poised (set_context g ;;; Diana_LinkOperands)
    (fun _ => linked_at (Z.max 0 (end_ - newIt - 1))) (linked_at (end_ - newIt)).
Proof.
  intros Hg s (c & Hc & ->). unfold set_context. rewrite bind_modify.
  destruct (Hg c) as (G1 & G2 & G3 & G4 & G5). destruct Hc as [C1 C2 C3 C4 C5 C6].
  pose proof is_armed as [_ _ _ _ _ Hp Hl _ _]. pose proof is_found as [Hr Hgr Hcnt _].
  assert (Hat : at_newIt (g c)) by (repeat split; congruence).
  pose proof (start_linking (g c) (proj1 Hat)) as Hst.
  pose proof (Diana_LinkOperands_ok prev src L0 keep low newIt 2 end_ (g c) info (end_ - newIt) Hgr Hcnt
                ltac:(lia) _ Hst) as Hlk.
  change (with_pContext g (with_pContext (fun _ => c) (walked info newIt s0)))
    with (with_pContext (fun _ => g c) (walked info newIt s0)).
  destruct (Diana_LinkOperands _) as [[u|code|] s']; [exists (g c); auto| |exact Hlk].
  split; [apply Hlk|]. exists (g c). tauto.
Qed.

(** The cache starts after what was taken. *)
Definition settle : D T unit :=
  let! tail := gets (fun s => tail_size (cmdProxy s)) in
  set_context (fun c =>
    with_cacheIt (fun it => it + (end_ - newIt - tail)) (with_cacheSize (fun _ => tail) c)).

Definition settled_within (bound : Z) (s : DecState T) : Prop :=
  settled s /\ cacheSize (pContext s) <= bound.

Lemma settle_ok bound E :
  hoare (linked_at bound) settle (fun _ => settled_within bound) E.
Proof. intros s Hs. exact (linked_settled _ _ Hs). Qed.

Lemma try_link_ok old i : Forall applicable l ->
  hoare poised (try_link old newIt i) (fun _ => settled_within (Z.max 0 (end_ - newIt - 1))) failed.
Proof.
  intros Hl. unfold try_link.
  eapply hoare_bind; [now apply ApplyPrefixes_ok|]. intros [].
  apply hoare_any_context. intros sizes_. destruct (has_flag sizes_ _).
  { fails. apply poised_failed. }
  apply (hoare_bind _ _ _ _ (fun _ => poised)).
  { apply hoare_when; [|auto]. intros _. apply poised_set. intros c. constructor; reflexivity. }
  intros []. unfold link_found.
  intros s Hs. rewrite bind_gets, (poised_tail s Hs). revert s Hs. 
  change (hoare poised (set_context (with_cacheIt (fun _ => newIt)) ;;; Diana_LinkOperands ;;; settle)
            (fun _ => settled_within (Z.max 0 (end_ - newIt - 1))) failed).
  apply (hoare_assoc failed poised (set_context (with_cacheIt (fun _ => newIt)))).
  apply (hoare_bind _ _ _ _ (fun _ => linked_at (Z.max 0 (end_ - newIt - 1)))).
  { eapply hoare_conseq; [apply link_from_poised; auto|auto|auto|apply linked_failed]. }
  intros []. apply settle_ok.
Qed.

(** Enough was read for what the context says is in the cache. *)
Lemma armed_total : cacheSize (pContext s0) <= Z.of_nat (length prev) + Z.of_nat (length L0).
Proof.
  destruct is_armed as [(Hlen & _) Hi Hs He Hlow _ _ _ (m & p & q & Hio & E & Hlp & _)]. cbn [app] in *.
  assert (m = L0) as -> by eauto using io_unique.
  apply (f_equal (@length Z)) in E. rewrite !length_app, buf_bytes_length in E by sizes. sizes.
Qed.

Lemma poised_closed s : poised s -> closed prev src s.
Proof.
  intros (c & [C1 C2 C3 C4 C5 C6] & ->). pose proof armed_total as Ht. destruct is_armed as [Hc Hi Hs He _ _ _ [R1 R2 R3] _].
  constructor; cbn; auto; try lia.
  - unfold cache_ok. now rewrite C1.
  - exists L0. split; [|lia]. apply io_context. unfold walked. now apply io_result, io_proxy.
Qed.

Lemma linked_closed bound s : linked_at bound s -> closed prev src s.
Proof.
  intros (c & (C1 & C2 & C3 & C4 & C5) & n & _ &
    [[Hc _ _ _ _ _ (m & p & q & Hio & _)] [F1 F2 F3 F4 F5 F6] Hi Ho _ Hb]).
  pose proof armed_total as Ht. pose proof (am_size _ _ _ _ _ is_armed).
  constructor; auto; try lia. exists (L0 ++ m). split; [exact Hio|]. rewrite length_app. lia.
Qed.
End Linked.

(** The end of a decode: the command is one of the tables, or the nop. *)
Variable Diana_GetNopInfo : DianaCmdInfo.

Record finished (keep : Prop) (last : Z) (s : DecState T) : Prop := {
  fn_closed : closed prev src s;
  fn_it : 0 <= cacheIt (pContext s);
  fn_end : cacheIt (pContext s) + cacheSize (pContext s) <= DI_CACHE_SIZE;
  fn_last : lastPrefixBeforeRex (pContext s) = last;
  fn_info : exists i, pInfo (pResult s) = Some i /\
    (m_pGroupInfo i <> None \/ i = Diana_GetNopInfo /\ iLinkedOpCount (pResult s) = 0);
  fn_io : prefixes_lead_on root ->
    DI_CACHE_RESERVED <= cacheIt (pContext s) /\
    conserved prev src [] keep 1 (unread (pContext s)) s
}.

Lemma conserved_unbase L0 keep low low' win s : conserved prev src L0 keep low win s -> low' <= low ->
  conserved prev src [] keep low' win s.
Proof.
  intros (m & p & q & Hio & E & Hlow & Hk) Hle. exists (L0 ++ m), p, q. repeat (split; auto). lia.
Qed.

Lemma settled_finished keep low l last s0 info newIt L0 s : 1 <= low ->
  armed keep low l last s0 -> found_ok (pContext s0) info newIt ->
  settled keep low l last s0 info newIt L0 s ->
  cacheSize (pContext s) <= Z.max 0 (cacheIt (pContext s0) + cacheSize (pContext s0) - newIt - 1) ->
  (prefixes_lead_on root -> 1 <= newIt) -> finished keep last s.
Proof.
  intros H1 Ha Hf Hs Ht Hn. pose proof (settled_closed _ _ _ _ _ _ _ Ha Hf _ _ Hs) as Hcl.
  destruct Hs as [Hc Hz Hi Hfr Hp Hl Hinf Hb Hio].
  destruct Ha as [_ Hi0 Hs0 He0 Hl0 _ _ _ _], Hf as [Hr Hg _ _].
  constructor; auto; try sizes.
  - eauto.
  - intros Hlead. specialize (Hn Hlead). assert (H2 : 2 <= cacheIt (pContext s)) by sizes.
    split; [sizes|]. rewrite Z.max_r in Hio by lia. rewrite <- Hi in Hio.
    unfold unread. replace (cacheIt (pContext s) + cacheSize (pContext s) - cacheIt (pContext s))
      with (cacheSize (pContext s)) in Hio by lia.
    eapply conserved_unbase; [exact Hio|sizes].
Qed.

(** ** [TryMatch] *)

(** The bytes after the prefixes are at [cache + 2], [n] of them. *)
Record tryable (keep : Prop) (low n : Z) (l : list DianaPrefixInfo) (last : Z) (s : DecState T) : Prop := {
  ty_cache : cache_ok (pContext s);
  ty_n : 0 <= n <= DI_CACHE_SIZE - DI_CACHE_RESERVED;
  ty_it : cacheIt (pContext s) = DI_CACHE_RESERVED;
  ty_size : cacheSize (pContext s) = n;
  ty_prefixes : prefixes (pContext s) = l;
  ty_last : lastPrefixBeforeRex (pContext s) = last;
  ty_result : result_ok (pResult s);
  ty_io : conserved prev src [] keep low (buf_bytes (cache (pContext s)) 2 n) s
}.

Section Match.
Variables (keep : Prop) (low n : Z) (l : list DianaPrefixInfo) (last : Z).
Hypothesis can_apply : Forall applicable l.

(** How many bytes are put in front. *)
Definition in_front (dataValid : bool) (i : Z) : Z :=
  (if dataValid then 1 else 0) + (if i =? DI_FULL_CHAR_NULL then 0 else 1).

Definition prefix_choice (i : Z) : Prop := i = DI_FULL_CHAR_NULL \/ legacy_at l i.

(** The first byte is the mandatory prefix when there are two in front. *)
Definition prepared (s : DecState T) : Prop :=
  armed keep low l last s /\
  cacheIt (pContext s) + cacheSize (pContext s) = DI_CACHE_RESERVED + n /\
  (cacheIt (pContext s) = 0 -> legacy_byte (nth 0 (cache (pContext s)) 0) = true).

Lemma prepared_intro c s : tryable keep low n l last s ->
  length c = length (cache (pContext s)) -> Forall byte_ok c ->
  buf_bytes c 2 n = buf_bytes (cache (pContext s)) 2 n ->
  forall it, 0 <= it <= DI_CACHE_RESERVED -> DI_CACHE_RESERVED - it <= low ->
  (it = 0 -> legacy_byte (nth 0 c 0) = true) ->
  prepared (with_pContext (fun x => with_cacheSize (fun _ => n + (DI_CACHE_RESERVED - it))
                                      (with_cacheIt (fun _ => it) (with_cache (fun _ => c) x))) s).
Proof.
  intros [[Hlen Hb] Hn Hi Hs Hp Hl Hr Hio] Elen Fc Ec it Hit Hlow Hleg.
  split; [|split; [cbn; sizes|exact Hleg]].
  constructor; cbn [with_pContext pContext with_cacheSize with_cacheIt with_cache cacheIt cacheSize cache prefixes
    lastPrefixBeforeRex pResult]; auto; try sizes.
  - split; [rewrite <- Hlen, <- Elen; reflexivity|exact Fc].
  - apply conserved_context. replace (it + (n + (DI_CACHE_RESERVED - it)) - 2) with n by sizes.
    now rewrite Ec.
Qed.

Lemma store_front (c : list Z) k x : Z.of_nat (length c) = DI_CACHE_SIZE -> Forall byte_ok c ->
  0 <= k < DI_CACHE_RESERVED -> byte_ok x -> 0 <= n <= DI_CACHE_SIZE - DI_CACHE_RESERVED ->
  length (buf_update c k [x]) = length c /\ Forall byte_ok (buf_update c k [x]) /\
  buf_bytes (buf_update c k [x]) 2 n = buf_bytes c 2 n.
Proof.
  intros Hlen Hc Hk Hx Hn. split; [apply buf_update_length; cbn [length]; sizes|].
  split; [apply buf_update_ok; auto|]. apply buf_bytes_apart; cbn [length]; sizes.
Qed.

Lemma legacy_byte_ok b : legacy_byte b = true -> byte_ok b.
Proof.
  intros Hb. apply legacy_byte_in in Hb. unfold byte_ok. cbn in Hb.
  repeat destruct Hb as [<-|Hb]; try lia.
Qed.

Lemma prepare_cache_ok dataValid data i E : prefix_choice i -> byte_ok data ->
  in_front dataValid i <= low ->
  hoare (tryable keep low n l last) (prepare_cache dataValid data n i) (fun _ => prepared) E.
Proof.
  unfold in_front. intros Hch Hd Hlow s Ht. pose proof Ht as [Hck Hn Hi Hs Hp Hl Hr Hio].
  pose proof Hck as (Hlen & Hb). unfold prepare_cache.
  destruct (Z.eqb_spec i DI_FULL_CHAR_NULL) as [E0|N0].
  - destruct dataValid.
    + rewrite (bind_run _ _ _ _ _ (cache_store_run 1 [data] s Hck ltac:(lia) ltac:(cbn [length]; sizes))).
      destruct (store_front (cache (pContext s)) 1 data Hlen Hb ltac:(sizes) Hd Hn) as (E1 & E2 & E3).
      exact (prepared_intro _ s Ht E1 E2 E3 1 ltac:(sizes) ltac:(sizes) ltac:(lia)).
    + pose proof (prepared_intro _ s Ht eq_refl Hb eq_refl 2 ltac:(sizes) ltac:(sizes) ltac:(lia)) as Hf.
      replace (n + (DI_CACHE_RESERVED - 2)) with n in Hf by sizes. exact Hf.
  - destruct Hch as [|(p & Ep & Hleg)]; [contradiction|]. unfold context. rewrite bind_gets, Hp, Ep.
    cbn [some_or_crash]. rewrite bind_ret.
    pose proof (legacy_byte_ok _ Hleg) as Hpb. destruct dataValid.
    + rewrite (bind_run _ _ _ _ _ (cache_store_run 0 [prefix p] s Hck ltac:(lia) ltac:(cbn [length]; sizes))).
      destruct (store_front (cache (pContext s)) 0 (prefix p) Hlen Hb ltac:(sizes) Hpb Hn) as (E1 & E2 & E3).
      set (c1 := buf_update (cache (pContext s)) 0 [prefix p]) in *.
      assert (K1 : cache_ok (pContext (cache_set c1 s))) by now apply cache_set_ok.
      rewrite (bind_run _ _ _ _ _ (cache_store_run 1 [data] _ K1 ltac:(lia) ltac:(cbn [length]; sizes))).
      change (cache (pContext (cache_set c1 s))) with c1.
      destruct (store_front c1 1 data ltac:(sizes) E2 ltac:(sizes) Hd Hn) as (E4 & E5 & E6).
      apply (prepared_intro (buf_update c1 1 [data]) s Ht ltac:(congruence) E5 ltac:(congruence) 0
               ltac:(sizes) ltac:(sizes)).
      intros _. rewrite buf_update_nth by (cbn [length]; sizes). cbn [Z.of_nat Z.leb Z.compare andb].
      unfold c1. rewrite buf_update_nth by (cbn [length]; sizes). exact Hleg.
    + rewrite (bind_run _ _ _ _ _ (cache_store_run 1 [prefix p] s Hck ltac:(lia) ltac:(cbn [length]; sizes))).
      destruct (store_front (cache (pContext s)) 1 (prefix p) Hlen Hb ltac:(sizes) Hpb Hn) as (E1 & E2 & E3).
      exact (prepared_intro _ s Ht E1 E2 E3 1 ltac:(sizes) ltac:(sizes) ltac:(lia)).
Qed.

(** The failed try is undone; what it read past the cache is in the gap. *)
Lemma undo_ok s0 L0 s : prepared s0 -> io src L0 s0 -> failed l last s0 L0 s -> result_ok (pResult s) ->
  tryable False low n l last
    (with_pContext (fun c => with_cacheSize (fun _ => n) (with_cacheIt (fun _ => DI_CACHE_RESERVED) c)) s).
Proof.
  intros (Ha & Hend & _) HL [F1 F2 F3 F4 F5 (more & Hio)] Hres.
  pose proof Ha as [Hc Hi Hs He Hlow Hp Hl Hr Hc0].
  destruct Hc0 as (m & p & q & Hio0 & E & Hlp & _). cbn [app] in *.
  assert (m = L0) as -> by eauto using io_unique.
  rewrite Hend in E. replace (DI_CACHE_RESERVED + n - 2) with n in E by sizes.
  constructor; auto; try (cbn; sizes).
  - unfold cache_ok. cbn. rewrite F1. exact Hc.
  - cbn [with_pContext pContext with_cacheSize with_cacheIt cache]. rewrite F1.
    exists (L0 ++ more), p, (q ++ more). split; [now apply io_context|].
    split; [|split; [exact Hlp|contradiction]]. cbn [app]. now rewrite app_assoc, E, <- !app_assoc.
Qed.

Lemma restore_same saved c : same_cache c (restore saved c).
Proof. constructor; reflexivity. Qed.

Lemma failed_set s0 L0 s g : harmless g -> failed l last s0 L0 s -> failed l last s0 L0 (with_pContext g s).
Proof.
  intros Hg [F1 F2 F3 F4 F5 (more & Hio)]. destruct (Hg (pContext s)) as [C1 C2 C3 C4 C5 C6].
  constructor; cbn; auto; try congruence. exists more. now apply io_context.
Qed.

Lemma armed_failed s0 L0 : armed keep low l last s0 -> io src L0 s0 -> failed l last s0 L0 s0.
Proof.
  intros [_ _ _ _ _ Hp Hl [R1 R2 R3] _] HL. constructor; auto. exists []. now rewrite app_nil_r.
Qed.

Lemma TryMatch_ok dataValid data i :
  prefix_choice i -> byte_ok data -> in_front dataValid i <= low -> 1 <= low ->
  hoare (tryable keep low n l last) (TryMatch root dataValid data n i)
    (fun _ => finished keep last) (tryable False low n l last).
Proof.
  intros Hch Hd Hlow H1. unfold TryMatch.
  eapply hoare_bind; [now apply prepare_cache_ok|]. intros [].
  apply (hoare_bind _ _ _ _ (fun _ => prepared)).
  { destruct (i =? DI_FULL_CHAR_NULL); [|apply hoare_ret; auto].
    intros s Hs. unfold context. rewrite bind_gets. pose proof Hs as ([Hc Hi Hz He _ _ _ _ _] & _ & _).
    rewrite (bind_run _ _ _ _ _ (cache_byte_run (cacheIt (pContext s)) s Hc ltac:(sizes))).
    destruct (Di_ProcessCustomPrefix _) as [[a b] c]. exact Hs. }
  intros old s0 Hs0. pose proof Hs0 as (Ha & Hend & Hleg).
  pose proof Ha as [Hc Hi Hz He _ _ _ _ (L0 & _ & _ & HL & _)]. cbn [app] in HL.
  unfold attempt at 1. unfold bind at 1.
  destruct (ParseCmdImpl_run (pContext s0) Hc ltac:(lia) Hz ltac:(lia) s0 eq_refl)
    as [(s' & E & ->)|(info & newIt & s' & E & Hf & ->)]; rewrite E.
  - unfold undo_cache, set_context. rewrite bind_modify. 
    split; [reflexivity|].
    apply (undo_ok s0 L0 s0 Hs0 HL (armed_failed s0 L0 Ha HL)). now destruct Ha.
  - unfold context. rewrite bind_gets.
    pose proof (try_link_ok keep low l last s0 info newIt Ha Hf L0 HL old i can_apply) as Hl.
    assert (Hp : poised s0 info newIt (walked info newIt s0)).
    { exists (pContext s0). split; [constructor; reflexivity|reflexivity]. }
    specialize (Hl _ Hp). unfold status_of. unfold bind at 1.
    change (with_pResult (with_pInfo (fun _ => Some info)) _) with (walked info newIt s0).
    destruct (try_link old newIt i (walked info newIt s0)) as [[[]|code|] s']; [| |exact Hl].
    + cbn [Z.eqb DI_SUCCESS]. destruct Hl as (Hst & Hb).
      eapply (settled_finished keep low l last s0 info newIt L0); eauto.
      intros Hlead. destruct (Z.eq_dec (cacheIt (pContext s0)) 0) as [Ez|Nz].
      * destruct Hf as [Hr _ _ Hm]. destruct (Hm (fun _ => false)) as [|Hlt]; [|discriminate|lia].
        rewrite Ez. now apply legacy_leads_on, Hleg.
      * destruct Hf as [Hr _ _ _]. lia.
    + destruct Hl as (Hcode & Hl). apply negb_true_iff in Hcode. rewrite Hcode.
      unfold set_context, set_result, undo_cache, set_context. rewrite !bind_modify.
      split; [now apply negb_true_iff|].
      apply (undo_ok s0 L0 (with_pResult (fun r => with_pInfo (fun _ => None) (with_iLinkedOpCount (fun _ => 0) r))
                              (with_pContext (restore (pContext (walked info newIt s0))) s')) Hs0 HL).
      * destruct (failed_set s0 L0 s' _ (restore_same (pContext (walked info newIt s0))) Hl)
          as [F1 F2 F3 F4 F5 (more & Hio)].
        constructor; auto. exists more. now apply io_result.
      * destruct Hl. constructor; auto.
Qed.
End Match.

(** ** VEX and EVEX instructions *)

Section VirtualCommand.
Variables (l : list DianaPrefixInfo) (last : Z).
Hypothesis can_apply : Forall applicable l.

Lemma virtual_armed first s : virtual prev src l last first s -> armed True 2 l last s.
Proof.
  intros [Hc Hi Hs Hf Hp Hl Hr Hio]. constructor; auto; rewrite ?Hi; try sizes.
  replace (0 + cacheSize (pContext s) - 2) with (cacheSize (pContext s) - 2) by lia. exact Hio.
Qed.

Lemma armed_closed keep low s : armed keep low l last s -> closed prev src s.
Proof.
  intros Ha. pose proof Ha as [Hc Hi Hs He Hlow _ _ [R1 R2 R3] (m & p & q & Hio & E & Hlp & _)]. cbn [app] in *.
  pose proof (armed_total keep low l last s Ha m Hio) as Ht.
  constructor; auto. exists m. auto.
Qed.

Lemma Di_CheckEvex_ok L0 low newIt vend end_ c info n bound :
  holds (linking prev src L0 True low newIt vend end_ c info n bound) Di_CheckEvex (fun _ => True).
Proof.
  unfold Di_CheckEvex. apply holds_bind_context. intros c'.
  intros s Hs. unfold result. rewrite bind_gets. pose proof (lk_info _ _ _ _ _ _ _ _ _ _ _ _ _ Hs) as Hi.
  rewrite Hi. cbn [some_or_crash]. rewrite bind_ret. revert s Hs Hi.
  intros s Hs _. generalize (pResult s) as r. intros r. revert s Hs.
  match goal with |- forall s, _ -> match ?m s with _ => _ end =>
    change (holds (linking prev src L0 True low newIt vend end_ c info n bound) m (fun _ => True)) end.
  destruct (Diana_GetEvexAttributes info) as [flags|]; [|fail_ok]. cbv zeta.
  destruct (negb (evex_rules _ _ _ _ _)); [fail_ok|].
  apply (holds_bind _ _ _ (fun _ => True)); [apply linking_result; auto|]. intros [] _.
  destruct (evex_rounding _ _ _ _) as [[|p|p]|]; [now apply holds_ret| | |fail_ok];
    apply linking_result; auto.
Qed.

(** From the walk on. *)
Section Rest.
Variables (s0 : DecState T) (info : DianaCmdInfo) (newIt : Z).
Hypothesis is_armed : armed True 2 l last s0.
Hypothesis is_found : found_ok (pContext s0) info newIt.
Variable L0 : list Z.
Hypothesis read_so_far : io src L0 s0.
Hypothesis moves : prefixes_lead_on root -> 1 <= newIt.
Variable check : D T unit.
Abbreviation end_ := (cacheIt (pContext s0) + cacheSize (pContext s0)).
Hypothesis check_ok : forall c n bound,
  holds (linking prev src L0 True 2 newIt 2 end_ c info n bound) check (fun _ => True).

Abbreviation linked_at' := (linked_at True 2 l last s0 info newIt L0).

Lemma status_of_seq {B} g (m : D T unit) (k : Z -> D T B) s :
  (set_context g ;;; let! r := status_of m in k r) s = (let! r := status_of (set_context g ;;; m) in k r) s.
Proof. reflexivity. Qed.

Lemma check_linked bound : hoare (linked_at' bound) (status_of check) (fun _ => linked_at' bound) (closed prev src).
Proof.
  intros s (c & Hat & n & Hn & Hs). unfold status_of. specialize (check_ok c n bound s Hs).
  destruct (check s) as [[[]|code|] s']; [| |exact check_ok]; exists c; (split; [exact Hat|]); exists n; tauto.
Qed.

Lemma settle_status bound iResult : bound <= Z.max 0 (end_ - newIt - 1) \/ iResult <> DI_SUCCESS ->
  hoare (linked_at' bound)
    (let! tail := gets (fun s => tail_size (cmdProxy s)) in
     set_context (fun c =>
       with_cacheIt (fun it => it + (end_ - newIt - tail)) (with_cacheSize (fun _ => tail) c)) ;;;
     return_status iResult)
    (fun _ => finished True last) (closed prev src).
Proof.
  intros Hb. apply hoare_assoc. eapply hoare_bind; [apply settle_ok|]. intros [].
  apply hoare_return_status.
  - intros E s (Hst & Hz). destruct Hb as [Hb|]; [|contradiction].
    eapply (settled_finished True 2); eauto; lia.
  - intros s (Hst & _). eapply settled_closed; eauto.
Qed.

Lemma virtual_rest : 
  hoare (poised s0 info newIt)
    (ApplyPrefixes DI_FULL_CHAR_NULL ;;;
     let! sizes := context iSizePrefixes in
     if has_flag sizes DIANA_INVALID_STATE then fail DI_ERROR
     else
       set_context (fun c =>
         with_cacheIt (fun _ => newIt)
           (with_iCurrentCmd_opsize (fun _ => if DI_REX_HAS_FLAG_W (iRexPrefix (pContext s0)) then 8 else 4)
             (with_iRexPrefix (fun _ => iRexPrefix (pContext s0)) c))) ;;;
       let! iResult := status_of Diana_LinkOperands in
       let! vvvv := context iVexVVVV in
       if (iResult =? DI_SUCCESS) && (DI_VEX_GET_NDS (m_flags info) =? 0) && negb (vvvv =? 0)
       then fail DI_ERROR
       else
         let! iResult := (if iResult =? DI_SUCCESS then status_of check else ret iResult) in
         let! tail := gets (fun s => tail_size (cmdProxy s)) in
         set_context (fun c =>
           with_cacheIt (fun it => it + (end_ - newIt - tail)) (with_cacheSize (fun _ => tail) c)) ;;;
         return_status iResult)
    (fun _ => finished True last) (closed prev src).
Proof.
  assert (Hlc : forall b s, linked_at' b s -> closed prev src s).
  { intros b s Hs. exact (linked_closed True 2 l last s0 info newIt is_armed L0 read_so_far b s Hs). }
  eapply hoare_bind; [apply (ApplyPrefixes_ok True 2 l last s0 info newIt is_armed DI_FULL_CHAR_NULL _ can_apply)|].
  intros []. apply hoare_any_context. intros sz. destruct (has_flag sz _).
  { fails. intros s Hs. eapply poised_closed; eauto. }
  intros s Hs. rewrite status_of_seq. revert s Hs.
  eapply hoare_bind.
  { apply hoare_status_of. apply (link_from_poised True 2 l last s0 info newIt is_armed is_found L0 read_so_far).
    intros c. repeat split. }
  intros iResult. apply hoare_any_context. intros vvvv. unfold by_status.
  destruct (Z.eqb_spec iResult DI_SUCCESS) as [->|N]; cbn [andb].
  - destruct (_ && _); [fails; apply Hlc|].
    eapply hoare_bind; [apply check_linked|]. intros iResult2. apply settle_status. left. lia.
  - eapply hoare_bind; [apply (hoare_ret _ _ iResult (fun r s => linked_at' (end_ - newIt) s /\ r = iResult)); auto|].
    intros r. apply hoare_pure. intros ->. apply settle_status. auto.
Qed.
End Rest.

Lemma parse_virtual_ok first accepts check :
  (prefixes_lead_on root -> commands_at (fun i => negb (accepts i)) first root = true) ->
  (forall L0 low newIt vend end_ c info n bound,
     holds (linking prev src L0 True low newIt vend end_ c info n bound) check (fun _ => True)) ->
  hoare (virtual prev src l last first) (parse_virtual root accepts check)
    (fun _ => finished True last) (closed prev src).
Proof.
  intros Hlead Hcheck s0 Hv. pose proof (virtual_armed _ _ Hv) as Ha.
  pose proof (armed_closed _ _ _ Ha) as Hcl.
  pose proof Hv as [Hc Hi Hs Hf _ _ _ _].
  pose proof Ha as [_ _ _ He _ _ _ _ (L0 & _ & _ & HL & _)]. cbn [app] in HL.
  unfold parse_virtual, context at 1 2. rewrite !bind_gets.
  destruct (existsb _ _); [split; [reflexivity|exact Hcl]|].
  unfold bind at 1.
  destruct (ParseCmdImpl_run (pContext s0) Hc ltac:(lia) ltac:(sizes) ltac:(sizes) s0 eq_refl)
    as [(s' & E & ->)|(info & newIt & s' & E & Hfo & ->)]; rewrite E; [split; [reflexivity|exact Hcl]|].
  change (with_pResult (with_pInfo (fun _ => Some info)) _) with (walked info newIt s0).
  assert (Hp0 : poised s0 info newIt (walked info newIt s0)).
  { exists (pContext s0). split; [constructor; reflexivity|reflexivity]. }
  unfold result at 1. rewrite bind_gets. cbn [walked with_pResult pResult with_pInfo pInfo some_or_crash].
  rewrite bind_ret. destruct (accepts info) eqn:Eacc; cbn [negb];
    [|split; [reflexivity|exact (poised_closed _ _ _ _ _ _ _ Ha _ HL _ Hp0)]].
  rewrite bind_gets. rewrite (poised_tail _ _ _ _ Hp0).
  change (with_pResult _ _) with (walked info newIt s0).
  assert (Hmoves : prefixes_lead_on root -> 1 <= newIt).
  { intros Hlo. specialize (Hlead Hlo). destruct Hfo as [Hr _ _ Hm].
    destruct (Hm (fun i => negb (accepts i))) as [Hn|Hlt]; [rewrite Hi; cbn; rewrite Hf; exact Hlead| |lia].
    now rewrite Eacc in Hn. }
  pose proof (virtual_rest _ _ _ Ha Hfo L0 HL Hmoves check (fun c n b => Hcheck L0 2 newIt 2 _ c info n b) _ Hp0) as Hrest.
  exact Hrest.
Qed.
End VirtualCommand.
End Try.
