(* ===== verification/DecPrefixProofs.v ===== *)
(** The prefixes of an instruction: [Diana_InsertPrefix] keeps each once, the last one last, and
    the loop over them ends at the first byte that is none. *)

From Stdlib Require Import ZArith Lia List Bool.
Import ListNotations.
From S2P Require Import Prelude Words Status Registers DecTypes DecStreams DecUtils DecPrefix DecAddress.
From S2P Require Import DecParser DecCore DecHoare DecLinkProofs DecCacheProofs DecTryProofs.
Local Open Scope Z_scope.
Local Open Scope diana_scope.

(** ** The list *)

Lemma find_prefix_none p l : forall i, find_prefix p l i = None <-> Forall (fun x => prefix x <> p) l.
Proof.
  induction l as [|x l IH]; intros i; cbn [find_prefix]; [split; auto|].
  destruct (Z.eqb_spec (prefix x) p) as [E|N].
  - split; [discriminate|]. intros F. inversion F. contradiction.
  - rewrite IH. split; [constructor; auto|]. intros F. now inversion F.
Qed.

Lemma find_prefix_some p l : forall i j, find_prefix p l i = Some j ->
  (i <= j < i + length l)%nat /\ exists x, nth_error l (j - i) = Some x /\ prefix x = p.
Proof.
  induction l as [|x l IH]; intros i j; cbn [find_prefix length]; [discriminate|].
  destruct (Z.eqb_spec (prefix x) p) as [E|N].
  - intros [= <-]. split; [lia|]. exists x. now rewrite Nat.sub_diag.
  - intros H. destruct (IH _ _ H) as (Hr & y & Hy & Ey). split; [lia|]. exists y.
    replace (j - i)%nat with (S (j - S i)) by lia. auto.
Qed.

Lemma remove_at_length {A} i (l : list A) : (i < length l)%nat -> length (remove_at i l) = (length l - 1)%nat.
Proof. intros Hi. unfold remove_at. rewrite length_app, length_firstn, length_skipn. lia. Qed.

Lemma remove_at_Forall {A} (P : A -> Prop) i l : Forall P l -> Forall P (remove_at i l).
Proof. intros F. unfold remove_at. rewrite <- (firstn_skipn i l) in F. apply Forall_app in F.
  apply Forall_app. split; [apply F|]. destruct F as (_ & F).
  rewrite <- (firstn_skipn 1 (skipn i l)) in F. apply Forall_app in F. destruct F as (_ & F).
  now rewrite skipn_skipn in F.
Qed.

(** The prefixes before the new one is put at the end. *)
Definition without (p : Z) (l : list DianaPrefixInfo) : list DianaPrefixInfo :=
  match find_prefix p l 0 with Some i => remove_at i l | None => l end.

Lemma without_Forall p l P : Forall P l -> Forall P (without p l).
Proof. intros F. unfold without. destruct (find_prefix p l 0); auto using remove_at_Forall. Qed.

Lemma without_length p l : (length (without p l) <= length l)%nat.
Proof.
  unfold without. destruct (find_prefix p l 0) as [i|] eqn:E; [|lia].
  destruct (find_prefix_some _ _ _ _ E) as (Hi & _). rewrite remove_at_length by lia. lia.
Qed.

Lemma insert_prefix_prefixes p f isRex c :
  prefixes (insert_prefix p f isRex c) = without p (prefixes c) ++ [mkDianaPrefixInfo f p].
Proof.
  unfold insert_prefix, without. destruct (find_prefix p (prefixes c) 0) as [i|]; cbv zeta.
  - destruct (_ && _); destruct isRex; reflexivity.
  - destruct isRex; reflexivity.
Qed.

Lemma insert_prefix_cache p f isRex : keeps_cache (insert_prefix p f isRex).
Proof.
  intros c. unfold insert_prefix. destruct (find_prefix p (prefixes c) 0) as [i|]; cbv zeta.
  - destruct (_ && _); destruct isRex; repeat split.
  - destruct isRex; repeat split.
Qed.

Lemma insert_prefix_last p f c :
  lastPrefixBeforeRex (insert_prefix p f false c) = Z.of_nat (length (without p (prefixes c))).
Proof.
  unfold insert_prefix, without. destruct (find_prefix p (prefixes c) 0) as [i|]; cbv zeta; [|reflexivity].
  destruct (_ && _); reflexivity.
Qed.

Lemma insert_new_rex p f c : find_prefix p (prefixes c) 0 = None ->
  lastPrefixBeforeRex (insert_prefix p f true c) = lastPrefixBeforeRex c.
Proof. intros E. unfold insert_prefix. now rewrite E. Qed.

(** ** What the list holds while the prefixes are read, and after REX *)

Definition has_mandatory (p : DianaPrefixInfo) : Prop := prefix p = 0xF2 \/ prefix p = 0xF3 \/ prefix p = 0x66.

Record legacy_list (l : list DianaPrefixInfo) (last : Z) : Prop := {
  ll_all : Forall (fun p => applicable p /\ legacy_byte (prefix p) = true) l;
  ll_count : Z.of_nat (length l) <= DI_MAX_PREFIXES_COUNT;
  ll_last : last = match l with [] => DI_FULL_CHAR_NULL | _ => Z.of_nat (length l) - 1 end
}.

Record prefix_list (l : list DianaPrefixInfo) (last : Z) : Prop := {
  pr_applicable : Forall applicable l;
  pr_none : last = DI_FULL_CHAR_NULL -> Forall (fun p => ~ has_mandatory p) l;
  pr_some : last <> DI_FULL_CHAR_NULL -> legacy_at l last
}.

Lemma table_get_app {A} (l l' : list A) i x : table_get l i = Some x -> table_get (l ++ l') i = Some x.
Proof.
  unfold table_get. destruct (i <? 0); [discriminate|]. intros E. rewrite nth_error_app1; [exact E|].
  apply nth_error_Some. congruence.
Qed.

Lemma legacy_prefix_list l last tail : legacy_list l last ->
  Forall applicable tail -> Forall (fun p => ~ has_mandatory p) tail -> prefix_list (l ++ tail) last.
Proof.
  intros [Ha Hc Hl] Ht Hm. constructor.
  - apply Forall_app. split; [|exact Ht]. eapply Forall_impl; [|exact Ha]. cbn. tauto.
  - intros E. destruct l as [|x l]; [exact Hm|]. unfold DI_FULL_CHAR_NULL, DI_MAX_PREFIXES_COUNT in *.
    rewrite Hl in E. cbn [length] in *. lia.
  - intros N. destruct l as [|x l]; [contradiction|].
    destruct (table_get_ok (x :: l) last) as (p & E); [rewrite Hl; cbn [length]; lia|].
    exists p. split; [now apply table_get_app|]. unfold table_get in E.
    destruct (last <? 0); [discriminate|]. apply nth_error_In in E. rewrite Forall_forall in Ha. now apply Ha.
Qed.

Lemma insert_legacy p f c : legacy_list (prefixes c) (lastPrefixBeforeRex c) ->
  prefixesCount c < DI_MAX_PREFIXES_COUNT -> f <> fn_Normal -> legacy_byte p = true ->
  let c' := insert_prefix p (Some f) false c in
  legacy_list (prefixes c') (lastPrefixBeforeRex c') /\ lastPrefixBeforeRex c' <> DI_FULL_CHAR_NULL.
Proof.
  intros [Ha Hc Hl] Hn Hf Hp. cbv zeta. rewrite insert_prefix_prefixes, insert_prefix_last.
  pose proof (without_length p (prefixes c)) as Hw. unfold prefixesCount in Hn. 
  unfold DI_FULL_CHAR_NULL, DI_MAX_PREFIXES_COUNT in *. split; [|lia]. constructor.
  - apply Forall_app. split; [now apply without_Forall|]. constructor; [|constructor]. cbn. auto.
  - rewrite length_app. cbn [length]. unfold DI_MAX_PREFIXES_COUNT. lia.
  - destruct (without p (prefixes c) ++ _) as [|x l] eqn:E; [now destruct (without p (prefixes c))|].
    rewrite <- E, length_app. cbn [length]. lia.
Qed.

Lemma rex_not_legacy p : is_rex p = true -> legacy_byte p = false /\ ~ In p [0xF2; 0xF3; 0x66].
Proof.
  unfold is_rex, DI_REX_PREFIX_START, DI_REX_PREFIX_END. rewrite andb_true_iff, !Z.leb_le. intros Hp.
  split; [|cbn; lia]. destruct (legacy_byte p) eqn:E; [|reflexivity].
  apply legacy_byte_in in E. cbn in E. lia.
Qed.

Lemma insert_rex p c : legacy_list (prefixes c) (lastPrefixBeforeRex c) -> is_rex p = true ->
  let c' := insert_prefix p (Some fn_Rex) true c in
  prefix_list (prefixes c') (lastPrefixBeforeRex c') /\ lastPrefixBeforeRex c' = lastPrefixBeforeRex c.
Proof.
  intros Hl Hp. cbv zeta. destruct (rex_not_legacy p Hp) as (Hn & Hm).
  assert (E : find_prefix p (prefixes c) 0 = None).
  { apply find_prefix_none. eapply Forall_impl; [|exact (ll_all _ _ Hl)]. cbn. intros x (_ & Hx) Ex. rewrite Ex in Hx. congruence. }
  rewrite insert_prefix_prefixes, insert_new_rex by exact E. split; [|reflexivity].
  unfold without. rewrite E. apply legacy_prefix_list; auto.
  - constructor; [discriminate|constructor].
  - constructor; [|constructor]. unfold has_mandatory. cbn [prefix]. cbn in Hm. lia.
Qed.

(** ** The loop *)

(** How many bytes the prefixes stand for, at least. *)
Definition taken_by (last : Z) : Z := if last =? DI_FULL_CHAR_NULL then 0 else 1.

Lemma taken_by_low last : 0 <= taken_by last <= 1.
Proof. unfold taken_by. destruct (last =? DI_FULL_CHAR_NULL); lia. Qed.

Section PrefixLoop.
Context {T : Type} `{DianaReadStreamOk T}.
Variable Diana_GetNopInfo : DianaCmdInfo.
Variable root : DianaBaseGenObject.
Variables prev src : list Z.

(** Between two prefixes; [n] more bytes are taken than the prefixes stand for. *)
Definition prefixing (n : Z) (s : DecState T) : Prop :=
  exists l last, fed prev src (n + taken_by last) l last s /\ legacy_list l last.

Definition prefixed (n : Z) (s : DecState T) : Prop :=
  exists l last, fed prev src (n + taken_by last) l last s /\ prefix_list l last /\
    Z.of_nat (length l) <= DI_MAX_PREFIXES_COUNT.

(** The end of the instruction, whatever the last prefix was. *)
Definition finished_any (keep : Prop) (s : DecState T) : Prop :=
  finished root prev src Diana_GetNopInfo keep (lastPrefixBeforeRex (pContext s)) s.

Lemma fed_finished keep low l last s : fed prev src low l last s -> 1 <= low ->
  pInfo (pResult s) = Some Diana_GetNopInfo ->
  finished root prev src Diana_GetNopInfo keep last s.
Proof.
  intros Hf Hlo Hinf. pose proof (fed_closed _ _ _ _ _ _ Hf ltac:(lia)) as Hcl.
  destruct Hf as [[Hc Hi Hs He Hio] Hp Hl [R1 R2 R3]]. constructor; auto; try sizes.
  { eauto. }
  intros _. split; [exact Hi|]. destruct Hio as (m & p & q & Hio & E & Hlow & Hk).
  exists m, p, q. split; [exact Hio|]. split; [exact E|]. split; [lia|auto].
Qed.

Lemma prefixing_closed n s : prefixing n s -> 0 <= n -> closed prev src s.
Proof.
  intros (l & last & Hf & _) Hn. eapply fed_closed; [exact Hf|]. pose proof (taken_by_low last). lia.
Qed.

Lemma prefixing_finished n s keep : prefixing n s -> 1 <= n ->
  pInfo (pResult s) = Some Diana_GetNopInfo -> finished_any keep s.
Proof.
  intros (l & last & Hf & _) Hn Hinf. unfold finished_any. pose proof (taken_by_low last).
  rewrite (fd_last _ _ _ _ _ _ Hf). eapply fed_finished; [exact Hf|lia|exact Hinf].
Qed.

Lemma prefixing_result g n s : prefixing n s -> (result_ok (pResult s) -> result_ok (g (pResult s))) ->
  prefixing n (with_pResult g s).
Proof.
  intros (l & last & Hf & Hl) Hg. exists l, last. split; [|exact Hl]. apply fed_result; [exact Hf|].
  apply Hg, Hf.
Qed.

Lemma prefixing_less n n' s : prefixing n s -> n' <= n -> prefixing n' s.
Proof.
  intros (l & last & Hf & Hl) Hn. exists l, last. split; [|exact Hl]. eapply fed_low; [exact Hf|]. lia.
Qed.

Lemma result_pInfo f r : result_ok r -> result_ok (with_pInfo f r).
Proof. intros []. now constructor. Qed.

Lemma InsertPrefix_loop p i : legacy_byte p = true -> applicable (mkDianaPrefixInfo i p) ->
  hoare (prefixing 1) (Diana_InsertPrefix p i false) (fun _ => prefixing 0) (closed prev src).
Proof.
  intros Hp Hi s Hs. unfold Diana_InsertPrefix, context. rewrite bind_gets.
  destruct (Z.leb_spec DI_MAX_PREFIXES_COUNT (prefixesCount (pContext s))) as [|Hlt].
  { split; [reflexivity|]. apply (prefixing_closed 1); [exact Hs|lia]. }
  destruct Hs as (l & last & Hf & Hl). pose proof (taken_by_low last) as Ht. unfold applicable in Hi. cbn in Hi.
  destruct i as [f|]; [|contradiction]. rewrite <- (fd_prefixes _ _ _ _ _ _ Hf), <- (fd_last _ _ _ _ _ _ Hf) in Hl.
  destruct (insert_legacy p f (pContext s) Hl Hlt Hi Hp) as (Hl' & Hn).
  pose proof (fed_context prev src _ _ _ _ _ (insert_prefix_cache p (Some f) false) Hf) as Hf'.
  eexists _, _. split; [eapply fed_low; [exact Hf'|]|exact Hl'].
  unfold taken_by at 1. apply Z.eqb_neq in Hn. rewrite Hn. lia.
Qed.

(** Looking ahead does not change what is taken. *)
Lemma rex_before_prefix_ok n data :
  hoare (prefixing n) (rex_before_prefix data) (fun _ => prefixing n) (closed prev src).
Proof.
  intros s (l & last & Hf & Hl).
  assert (G : hoare (fed prev src (n + taken_by last) l last) (rex_before_prefix data)
                (fun _ => fed prev src (n + taken_by last) l last) (closed prev src)).
  { clear s Hf. unfold rex_before_prefix. apply hoare_any_context. intros amd.
    destruct (_ && _); [|apply hoare_ret; auto].
    eapply hoare_bind; [apply hoare_status_of, ReadCache_ok|]. intros iRes. unfold by_status.
    destruct (iRes =? DI_SUCCESS); cbn [andb];
      [|apply hoare_any_context; intros size; apply hoare_ret; intros s (Hs & _); exact Hs].
    apply hoare_any_context. intros size. destruct (negb _);
      [|apply hoare_ret; intros s (Hs & _); exact Hs].
    intros s (Hs & Hpos & _). unfold context. rewrite bind_gets. pose proof Hs as [[Hc Hi Hz He _] _ _ _].
    rewrite (bind_run _ _ _ _ _ (cache_byte_run (cacheIt (pContext s)) s Hc ltac:(sizes))).
    destruct (Di_ProcessCustomPrefix _) as [[a b] c]. exact Hs. }
  specialize (G s Hf). destruct (rex_before_prefix data s) as [[b|c|] s']; [|exact G|exact G].
  exists l, last. auto.
Qed.

Lemma next_byte_ok n : 0 <= n ->
  hoare (prefixing n) (Diana_ReadCache false ;;; Diana_CacheEatOne)
    (fun b s => prefixing (n + 1) s /\ byte_ok b) (closed prev src).
Proof.
  intros Hn s (l & last & Hf & Hl). pose proof (taken_by_low last) as Ht.
  assert (G : hoare (fed prev src (n + taken_by last) l last) (Diana_ReadCache false ;;; Diana_CacheEatOne)
                (fun b s => fed prev src (n + taken_by last + 1) l last s /\ byte_ok b) (closed prev src)).
  { eapply hoare_bind.
    - eapply hoare_conseq; [apply ReadCache_ok|intros s' Hs; exact Hs|intros a s' Hs; exact Hs|].
      intros s' (Hs & _). eapply fed_closed; [exact Hs|lia].
    - intros []. eapply hoare_conseq; [apply (CacheEatOne_ok prev src (n + taken_by last) l last)| |intros b s' Hs; exact Hs|intros s' Hs; exact Hs].
      intros s' (Hs & Hpos & _). split; [exact Hs|exact Hpos]. }
  specialize (G s Hf). destruct ((Diana_ReadCache false ;;; Diana_CacheEatOne) s) as [[b|c|] s']; [|exact G|exact G].
  destruct G as (G & Hb). split; [|exact Hb]. exists l, last. split; [|exact Hl].
  eapply fed_low; [exact G|lia].
Qed.

Definition loop_post (o : PrefixLoop) (s : DecState T) : Prop :=
  match o with
  | LoopNop => finished_any True s
  | LoopByte data => prefixing 1 s /\ byte_ok data
  end.

Lemma custom_prefix_info b flags found info : Di_ProcessCustomPrefix b = (flags, found, info) ->
  match info with
  | Some i => legacy_byte b = true /\ applicable (mkDianaPrefixInfo (m_linkedPrefixFnc i) b)
  | None => True
  end.
Proof.
  unfold legacy_byte. intros E. rewrite E. cbn [fst snd]. revert E. unfold Di_ProcessCustomPrefix.
  repeat match goal with |- context [b =? ?x] =>
    destruct (b =? x); [intros [= <- <- <-]; split; [reflexivity|discriminate]|] end.
  now intros [= <- <- <-].
Qed.

Lemma prefix_loop_ok k : forall first nopFlags,
  hoare (prefixing 0) (prefix_loop Diana_GetNopInfo k first nopFlags) loop_post (closed prev src).
Proof.
  induction k as [|k IH]; intros first nopFlags; cbn [prefix_loop].
  { fails. intros s Hs. apply (prefixing_closed 0); [exact Hs|lia]. }
  apply hoare_assoc. eapply hoare_bind.
  { apply (next_byte_ok 0); lia. }
  intros data. apply hoare_pure. intros Hb. destruct (_ && _).
  { intros s Hs. apply (prefixing_finished 1); [|lia|reflexivity]. cbn in Hs |- *.
    do 2 (apply prefixing_result; [|intros []; constructor; auto]). exact Hs. }
  destruct (Di_ProcessCustomPrefix data) as [[flags found] info] eqn:E.
  pose proof (custom_prefix_info _ _ _ _ E) as Hi. destruct info as [i|].
  - destruct Hi as (Hp & Ha).
    apply (hoare_bind _ _ _ _ (fun _ => prefixing 1)).
    { apply hoare_set_result. intros s Hs. apply prefixing_result; auto using result_pInfo. }
    intros []. eapply hoare_bind; [apply InsertPrefix_loop; auto|]. intros []. apply IH.
  - eapply hoare_bind; [apply rex_before_prefix_ok|]. intros dropped. destruct dropped.
    + eapply hoare_conseq; [apply (IH false)| |auto|auto]. intros s Hs. eapply prefixing_less; [exact Hs|lia].
    + apply hoare_ret. intros s Hs. split; assumption.
Qed.
End PrefixLoop.
