(* ===== verification/DecDecodeProofs.v ===== *)
(** One instruction from the prefixes to the operands: [Diana_ParseCmdEx] never leaves the cache, what
    it takes of the stream is in order, and an instruction takes at least one byte. *)

From Stdlib Require Import ZArith Lia List Bool.
Import ListNotations.
From S2P Require Import Prelude Words Status Registers DecTypes DecStreams DecUtils DecPrefix DecAddress.
From S2P Require Import DecLink DecWalk DecParser DecCore DecHoare DecLinkProofs DecCacheProofs.
From S2P Require Import DecWalkProofs DecTryProofs DecPrefixProofs.
Local Open Scope Z_scope.
Local Open Scope diana_scope.

#[local] Arguments Z.add : simpl never.
#[local] Arguments Z.sub : simpl never.
#[local] Arguments DI_CACHE_SIZE : simpl never.
#[local] Arguments buf_bytes : simpl never.

(** ** The mandatory prefixes *)

Definition place_of (l : list DianaPrefixInfo) (i : Z) : Prop := i = DI_FULL_CHAR_NULL \/ legacy_at l i.

Lemma mandatory_places l : forall done rep size,
  place_of (done ++ l) rep -> place_of (done ++ l) size ->
  let '(rep', size') := mandatory_prefixes l (Z.of_nat (length done)) rep size in
  place_of (done ++ l) rep' /\ place_of (done ++ l) size'.
Proof.
  induction l as [|p l IH]; intros done rep size Hr Hs; cbn [mandatory_prefixes]; [auto|].
  specialize (IH (done ++ [p])). rewrite <- app_assoc in IH. cbn [app] in IH.
  rewrite length_app, Nat2Z.inj_add in IH. cbn [length] in IH. change (Z.of_nat 1) with 1 in IH.
  assert (Hi : forall b, legacy_byte b = true -> prefix p = b -> legacy_at (done ++ p :: l) (Z.of_nat (length done))).
  { intros b Hb E. exists p. split; [|congruence]. unfold table_get.
    destruct (Z.ltb_spec (Z.of_nat (length done)) 0); [lia|].
    rewrite Nat2Z.id, nth_error_app2, Nat.sub_diag by lia. reflexivity. }
  apply IH.
  - destruct (_ || _) eqn:E; [|exact Hr]. right. apply orb_true_iff in E.
    destruct E as [E|E]; apply Z.eqb_eq in E; (eapply Hi; [|exact E]; reflexivity).
  - destruct (_ =? _) eqn:E; [|exact Hs]. right. apply Z.eqb_eq in E. eapply Hi; [|exact E]; reflexivity.
Qed.

Lemma no_mandatory l : Forall (fun p => ~ has_mandatory p) l -> forall i rep size,
  mandatory_prefixes l i rep size = (rep, size).
Proof.
  induction 1 as [|p l Hp _ IH]; intros i rep size; cbn [mandatory_prefixes]; [reflexivity|].
  unfold has_mandatory in Hp.
  destruct (Z.eqb_spec (prefix p) 0xF2), (Z.eqb_spec (prefix p) 0xF3), (Z.eqb_spec (prefix p) 0x66);
    try tauto. apply IH.
Qed.

(** The tries are places of legacy prefixes; without a legacy prefix there are none. *)
Lemma tries_places l last : prefix_list l last ->
  let '(rep, size) := mandatory_prefixes l 0 DI_FULL_CHAR_NULL DI_FULL_CHAR_NULL in
  Forall (legacy_at l) (tries_of rep size last) /\
  (last = DI_FULL_CHAR_NULL -> tries_of rep size last = []).
Proof.
  intros [Ha Hn Hs]. pose proof (mandatory_places l [] _ _ (or_introl eq_refl) (or_introl eq_refl)) as Hp.
  cbn [app length Z.of_nat] in Hp.
  destruct (mandatory_prefixes l 0 _ _) as [rep size] eqn:E. destruct Hp as (Hr & Hz). split.
  - unfold tries_of. rewrite !Forall_app. split; [|split].
    + destruct (Z.eqb_spec rep DI_FULL_CHAR_NULL); [constructor|]. destruct Hr; [contradiction|]. auto.
    + destruct (Z.eqb_spec size DI_FULL_CHAR_NULL); [constructor|]. destruct Hz; [contradiction|]. auto.
    + destruct (Z.eqb_spec last DI_FULL_CHAR_NULL); [constructor|]. cbn [orb].
      destruct (_ || _); auto.
  - intros ->. rewrite no_mandatory in E by auto. injection E as <- <-. reflexivity.
Qed.

Section Decode.
Context {T : Type} `{DianaReadStreamOk T}.
Variable Diana_GetNopInfo : DianaCmdInfo.
Variable root : DianaBaseGenObject.
Hypothesis tables : tables_ok root.
Variables prev src : list Z.

Abbreviation closed' := (closed prev src).

(** The end of an instruction: without a legacy prefix nothing is in the gap. *)
Definition decoded (s : DecState T) : Prop :=
  finished root prev src Diana_GetNopInfo (lastPrefixBeforeRex (pContext s) = DI_FULL_CHAR_NULL)
    (lastPrefixBeforeRex (pContext s)) s.

Lemma finished_keep (K K' : Prop) last s : (K' -> K) ->
  finished root prev src Diana_GetNopInfo K last s -> finished root prev src Diana_GetNopInfo K' last s.
Proof.
  intros Hk [F1 F2 F3 F4 F5 F6]. constructor; auto. intros Hlead. destruct (F6 Hlead) as (Hi & m & p & q & R).
  split; [exact Hi|]. exists m, p, q. intuition auto.
Qed.

Lemma finished_decoded K last s : (last = DI_FULL_CHAR_NULL -> K) ->
  finished root prev src Diana_GetNopInfo K last s -> decoded s.
Proof.
  intros Hk Hf. unfold decoded. rewrite (fn_last _ _ _ _ _ _ _ Hf). now apply (finished_keep K).
Qed.

(** ** Legacy instructions *)

Section Legacy.
Variables (low : Z) (l : list DianaPrefixInfo) (last : Z).
Hypothesis is_list : prefix_list l last.
Hypothesis taken : 1 <= low.

Abbreviation K := (last = DI_FULL_CHAR_NULL).

Lemma tryable_keep (P Q : Prop) n s : (Q -> P) ->
  tryable prev src P low n l last s -> tryable prev src Q low n l last s.
Proof.
  intros Hk [T1 T2 T3 T4 T5 T6 T7 (m & p & q & R)]. constructor; auto. exists m, p, q. intuition auto.
Qed.

Lemma tryable_closed P n s : tryable prev src P low n l last s -> closed' s.
Proof.
  intros [[Hl Hb] Hn Hi Hs Hp Hla [R1 R2 R3] (m & p & q & Hio & E & Hlow & _)]. cbn [app] in *.
  constructor; [split; assumption|lia|exact R3|]. exists m. split; [exact Hio|].
  apply (f_equal (@length Z)) in E. rewrite !length_app, buf_bytes_length in E by sizes. lia.
Qed.

Lemma start_tryable s : at_start prev src l last low s ->
  tryable prev src K low (cacheSize (pContext s)) l last s.
Proof.
  intros ([[Hc Hi Hs He Hio] Hp Hl Hr] & E). rewrite E in *. constructor; auto; try sizes.
  change DI_CACHE_RESERVED with 2 in Hio. destruct Hio as (m & p & q & R). exists m, p, q. intuition auto.
Qed.

Lemma first_match_ok dataValid data n tries :
  Forall (legacy_at l) tries -> (K -> tries = []) -> byte_ok data ->
  (forall i, In i tries -> in_front dataValid i <= low) ->
  hoare (tryable prev src K low n l last) (first_match root tries dataValid data n)
    (fun m s => if m then finished root prev src Diana_GetNopInfo K last s else tryable prev src K low n l last s) closed'.
Proof.
  intros Hp Hk Hd Hlow.
  assert (Hnot : forall i, In i tries -> K -> False) by (intros i Hi E; rewrite (Hk E) in Hi; exact Hi).
  clear Hk. induction tries as [|i tries IH]; cbn [first_match]; [apply hoare_ret; auto|].
  eapply hoare_bind.
  { apply hoare_status_of. apply (TryMatch_ok root tables prev src Diana_GetNopInfo K low n l last (pr_applicable _ _ is_list)); auto.
    - right. now inversion Hp.
    - apply Hlow. now left. }
  intros iResult. unfold by_status. destruct (iResult =? DI_SUCCESS); [apply hoare_ret; auto|].
  eapply hoare_conseq; [apply IH| |intros a s Hs; exact Hs|intros s Hs; exact Hs].
  - now inversion Hp.
  - intros j Hj. apply Hlow. now right.
  - intros j Hj. apply (Hnot j). now right.
  - intros s. apply tryable_keep. intros E. exact (Hnot i (or_introl eq_refl) E).
Qed.

(** [CacheEatOne] after the last try failed. *)
Lemma eat_one_closed P n : 0 < n ->
  hoare (tryable prev src P low n l last) (let! _ := Diana_CacheEatOne in ret tt) (fun _ => closed') closed'.
Proof.
  intros Hn s Ht. pose proof (tryable_closed _ _ _ Ht) as [Hc Hz Hb (L & Hio & Hle)].
  destruct Ht as [_ Hr Hi Hs _ _ _ _]. unfold Diana_CacheEatOne, context. rewrite bind_bind, bind_gets.
  rewrite bind_bind. rewrite (bind_run _ _ _ _ _ (cache_byte_run (cacheIt (pContext s)) s Hc ltac:(sizes))).
  unfold set_context. rewrite bind_bind, bind_modify. cbn.
  constructor; cbn; auto; try lia. exists L. split; [now apply io_context|lia].
Qed.

Lemma parse_legacy_ok (dataValid : bool) data : byte_ok data ->
  (if dataValid then 1 else 0) + taken_by last <= low ->
  hoare (at_start prev src l last low)
    (let! n := context cacheSize in parse_legacy root dataValid data n)
    (fun _ => finished root prev src Diana_GetNopInfo K last) closed'.
Proof.
  intros Hd Hlow s Hs. pose proof (start_tryable s Hs) as Ht. unfold parse_legacy, context. rewrite !bind_gets.
  destruct Hs as ([_ Hp Hl _] & _). rewrite Hp, Hl. set (n := cacheSize (pContext s)) in *. clearbody n.
  pose proof (tries_places l last is_list) as Hpl. destruct (mandatory_prefixes l 0 _ _) as [rep size].
  destruct Hpl as (Hpl & Hnone). clear Hp Hl. revert s Ht.
  eapply hoare_bind.
  { apply first_match_ok; auto. intros i Hin. unfold in_front, taken_by in *.
    destruct (Z.eqb_spec last DI_FULL_CHAR_NULL) as [E|N]; [rewrite (Hnone E) in Hin; contradiction|].
    destruct (i =? DI_FULL_CHAR_NULL); lia. }
  intros [|]; [apply hoare_ret; auto|].
  eapply hoare_bind.
  { apply hoare_status_of. apply (TryMatch_ok root tables prev src Diana_GetNopInfo K low n l last (pr_applicable _ _ is_list)); auto.
    - now left.
    - unfold in_front. pose proof (taken_by_low last). cbn. lia. }
  intros iResult. unfold by_status. destruct (Z.eqb_spec iResult DI_SUCCESS) as [->|N].
  - intros s Hf. cbn. exact Hf.
  - cbn [negb andb]. intros s Ht. rewrite bind_gets.
    pose proof Ht as [_ _ _ Hs _ _ _ _]. rewrite Hs. revert s Ht Hs. 
    assert (G : hoare (tryable prev src False low n l last)
              (when (negb dataValid && negb (n =? 0)) (let! _ := Diana_CacheEatOne in ret tt) ;;; return_status iResult)
              (fun _ => finished root prev src Diana_GetNopInfo K last) closed').
    { apply (hoare_bind _ _ _ _ (fun _ => closed')).
      - apply hoare_when.
        + intros E. apply andb_true_iff in E. destruct E as (_ & E). apply negb_true_iff, Z.eqb_neq in E.
          intros s Ht. apply (eat_one_closed False n); [|exact Ht]. destruct Ht as [_ ? _ _ _ _ _ _]. lia.
        + intros _ s Ht. eapply tryable_closed; eauto.
      - intros []. apply hoare_return_status; [intros; contradiction|auto]. }
    intros s Ht _. exact (G s Ht).
Qed.

(** ** VEX, EVEX or legacy *)

Lemma start_closed s : at_start prev src l last low s -> closed' s.
Proof. intros (Hf & _). eapply fed_closed; [exact Hf|lia]. Qed.

Lemma parse_vex_ok :
  hoare (virtual prev src l last 0xC5) (parse_vex root) (fun _ => finished root prev src Diana_GetNopInfo True last) closed'.
Proof.
  apply (parse_virtual_ok root tables prev src Diana_GetNopInfo l last (pr_applicable _ _ is_list)).
  - intros Hl. exact (pl_vex _ Hl).
  - intros. now apply holds_ret.
Qed.

Lemma Di_ParseEvexCmd_ok :
  hoare (virtual prev src l last 0x62) (Di_ParseEvexCmd root) (fun _ => finished root prev src Diana_GetNopInfo True last) closed'.
Proof.
  apply (parse_virtual_ok root tables prev src Diana_GetNopInfo l last (pr_applicable _ _ is_list)).
  - intros Hl. exact (pl_evex _ Hl).
  - intros. apply Di_CheckEvex_ok.
Qed.

Lemma parse_opcode_ok (dataValid : bool) data : byte_ok data ->
  (if dataValid then 1 else 0) + taken_by last <= low ->
  hoare (at_start prev src l last low) (parse_opcode root dataValid data)
    (fun _ => finished root prev src Diana_GetNopInfo K last) closed'.
Proof.
  intros Hd Hlow. unfold parse_opcode.
  eapply (hoare_bind _ _ _ _ (prefix_post prev src l last low 0x62)).
  { destruct (_ && _); [now apply Di_ProcessEvexPrefix_ok|apply hoare_ret; auto]. }
  intros [|]; cbn [prefix_post].
  { eapply hoare_conseq; [apply Di_ParseEvexCmd_ok|auto| |auto]. intros [] s. now apply finished_keep. }
  eapply (hoare_bind _ _ _ _ (prefix_post prev src l last low 0xC5)).
  { destruct (_ && _); [now apply Di_ProcessVexPrefix_ok|apply hoare_ret; auto]. }
  intros [|]; cbn [prefix_post].
  { eapply hoare_conseq; [apply parse_vex_ok|auto| |auto]. intros [] s. now apply finished_keep. }
  now apply parse_legacy_ok.
Qed.

(** ** REX in front of VEX, nop *)

Lemma rex_before_vex_ok E :
  hoare (at_start prev src l last low) rex_before_vex (fun _ => at_start prev src l last low) E.
Proof.
  intros s Hs. pose proof Hs as ([[Hc Hi Hz He _] _ _ _] & _). unfold rex_before_vex, context. rewrite bind_gets.
  destruct (Z.eqb_spec (cacheSize (pContext s)) 0); [exact Hs|]. rewrite bind_gets.
  rewrite (bind_run _ _ _ _ _ (cache_byte_run (cacheIt (pContext s)) s Hc ltac:(sizes))). exact Hs.
Qed.

Lemma is_nop_ok dataValid data E :
  hoare (at_start prev src l last low) (is_nop dataValid data)
    (fun nop s => at_start prev src l last low s /\
       (nop = true -> dataValid = false -> 0 < cacheSize (pContext s))) E.
Proof.
  intros s Hs. pose proof Hs as ([[Hc Hi Hz He _] _ _ _] & _). unfold is_nop, context. rewrite bind_gets.
  destruct dataValid; [split; [exact Hs|discriminate]|].
  destruct (Z.eqb_spec (cacheSize (pContext s)) 0) as [|N]; [split; [exact Hs|discriminate]|].
  rewrite (bind_run _ _ _ _ _ (cache_byte_run (cacheIt (pContext s)) s Hc ltac:(sizes))).
  split; [exact Hs|]. intros _ _. lia.
Qed.

Lemma set_nop_ok P E n : 1 <= n ->
  hoare (fed prev src n l last) (set_nop Diana_GetNopInfo) (fun _ => finished root prev src Diana_GetNopInfo P last) E.
Proof.
  intros Hn s Hf. cbn. apply (fed_finished Diana_GetNopInfo root prev src P n l last); [|exact Hn|reflexivity].
  apply fed_result; [exact Hf|]. destruct Hf as [_ _ _ []]. now constructor.
Qed.

Definition after_prefixes (dataValid : bool) (data : Z) : D T unit :=
  let! iResult := status_of (Diana_ReadCache true) in
  if negb (iResult =? DI_SUCCESS) && negb dataValid then fail iResult
  else
    let! bad := (if dataValid then ret false else rex_before_vex) in
    if bad then fail DI_ERROR
    else
      let! nop := is_nop dataValid data in
      if nop then
        when (negb dataValid) (let! _ := Diana_CacheEatOne in ret tt) ;;; set_nop Diana_GetNopInfo
      else
        set_result (with_pInfo (fun _ => None)) ;;;
        parse_opcode root dataValid data.

Lemma after_prefixes_ok (dataValid : bool) data : byte_ok data ->
  (if dataValid then 1 else 0) + taken_by last <= low ->
  hoare (fed prev src low l last) (after_prefixes dataValid data) (fun _ => finished root prev src Diana_GetNopInfo K last) closed'.
Proof.
  intros Hd Hlow. unfold after_prefixes.
  apply (hoare_bind _ _ _ _ (fun _ => at_start prev src l last low)).
  { eapply hoare_conseq; [apply hoare_status_of, (ReadCache_ok prev src low l last true)|auto| |intros s Hs; exact Hs].
    intros c s. unfold by_status, at_start. destruct (c =? DI_SUCCESS); tauto. }
  intros iResult. destruct (negb (iResult =? DI_SUCCESS)) eqn:Ec, dataValid; cbn [negb andb];
    try (fails; apply start_closed).
  all: apply (hoare_bind _ _ _ _ (fun _ => at_start prev src l last low));
    [first [apply hoare_ret; auto; fail|apply rex_before_vex_ok]|].
  all: intros [|]; [fails; apply start_closed|].
  all: eapply hoare_bind; [apply is_nop_ok|]; intros [|].
  all: try (apply (hoare_bind _ _ _ _ (fun _ => at_start prev src l last low));
    [apply hoare_set_result; intros s ((Hf & Hi) & _); split; [|exact Hi];
     apply fed_result; [exact Hf|]; apply result_pInfo, Hf
    |intros []; apply parse_opcode_ok; assumption]).
  all: cbn [when negb].
  1,2: intros s ((Hf & _) & _); rewrite bind_ret; revert s Hf; now apply set_nop_ok.
  apply (hoare_bind _ _ _ _ (fun _ => fed prev src (low + 1) l last)); [|intros []; apply set_nop_ok; lia].
  eapply hoare_bind; [eapply hoare_conseq;
    [apply (CacheEatOne_ok prev src low l last closed')| |intros b s Hs; exact Hs|auto]|].
  - intros s ((Hf & _) & Hpos). auto.
  - intros b. apply hoare_ret. intros s (Hf & _). exact Hf.
Qed.
End Legacy.
End Decode.
