(* ===== verification/DecCommandProofs.v ===== *)
(** [Diana_ParseCmd] on a context that is ready: it does not crash, the instruction's bytes are the
    next ones of the stream, and after an instruction the context is ready again. *)

From Stdlib Require Import ZArith Lia List Bool.
Import ListNotations.
From S2P Require Import Prelude Words Status Registers DecTypes DecStreams DecUtils DecPrefix DecAddress.
From S2P Require Import DecLink DecWalk DecParser DecCore DecHoare DecLinkProofs DecCacheProofs.
From S2P Require Import DecWalkProofs DecTryProofs DecPrefixProofs DecDecodeProofs MemStreams.
Local Open Scope Z_scope.
Local Open Scope diana_scope.

#[local] Arguments Z.add : simpl never.
#[local] Arguments Z.sub : simpl never.
#[local] Arguments DI_CACHE_SIZE : simpl never.
#[local] Arguments buf_bytes : simpl never.
#[local] Arguments buf_update : simpl never.

(** The context between two instructions: the unread bytes are in the cache, after the two bytes
    kept free. *)
Record ready (c : DianaContext) : Prop := {
  rd_cache : cache_ok c;
  rd_it : DI_CACHE_RESERVED <= cacheIt c;
  rd_size : 0 <= cacheSize c;
  rd_end : cacheIt c + cacheSize c <= DI_CACHE_SIZE
}.

Lemma clear_ready c : cache_ok c -> ready (Diana_ClearCache c).
Proof. intros Hc. constructor; cbn; auto; sizes. Qed.

Lemma init_ready mode arch :
  ready (Diana_InitContextEx mode arch) /\ cacheSize (Diana_InitContextEx mode arch) = 0.
Proof.
  unfold Diana_InitContextEx, Diana_InitContext. destruct (mode =? DIANA_MODE64); (split; [|reflexivity]);
    (constructor; [split; [reflexivity|repeat constructor; discriminate]|discriminate|discriminate|discriminate]).
Qed.

Lemma unread_length c : ready c -> Z.of_nat (length (unread c)) = cacheSize c.
Proof.
  intros [(Hl & _) Hi Hs He]. unfold unread. rewrite buf_bytes_length by sizes. lia.
Qed.

Section Command.
Context {T : Type} `{DianaReadStreamOk T}.
Variable Diana_GetNopInfo : DianaCmdInfo.
Variable root : DianaBaseGenObject.
Hypothesis tables : tables_ok root.

Section From.
Variables prev src : list Z.

Abbreviation closed' := (closed prev src).
Abbreviation decoded' := (decoded Diana_GetNopInfo root prev src).

(** ** [Diana_ParseCmdEx] *)

(** Ready, with nothing read yet. *)
Record fresh (s : DecState T) : Prop := {
  fs_ready : ready (pContext s);
  fs_prev : prev = unread (pContext s);
  fs_io : io src [] s
}.

Lemma reset_ok E : hoare fresh reset_state (fun _ => prefixing prev src 0) E.
Proof.
  intros s [[Hc Hi Hs He] Hp Hio]. cbn. exists [], DI_FULL_CHAR_NULL. split.
  - constructor; cbn; auto; [|constructor; reflexivity].
    constructor; cbn; auto. exists [], [], []. split; [|split; [|split; [reflexivity|auto]]].
    + apply io_result. apply io_context. exact Hio.
    + cbn [app]. now rewrite !app_nil_r.
  - constructor; [constructor|cbn; unfold DI_MAX_PREFIXES_COUNT; lia|reflexivity].
Qed.

Lemma after_loop_ok data : byte_ok data ->
  hoare (prefixing prev src 1)
    (let! amd := context iAMD64Mode in
     let! prefixFound := (if amd =? 0 then ret false else Di_ProcessRexPrefix data) in
     when prefixFound (Diana_InsertPrefix data (m_linkedPrefixFnc g_rexInfo) true) ;;;
     after_prefixes Diana_GetNopInfo root (negb prefixFound) data)
    (fun _ => decoded') closed'.
Proof.
  intros Hd s (l & last & Hf & Hl). pose proof (taken_by_low last) as Ht.
  assert (Hplain : hoare (fed prev src (1 + taken_by last) l last)
            (after_prefixes Diana_GetNopInfo root true data) (fun _ => decoded') closed').
  { eapply hoare_conseq; [apply (after_prefixes_ok Diana_GetNopInfo root tables prev src (1 + taken_by last) l last)
      |intros s' Hs; exact Hs|intros [] s'; now apply finished_decoded|intros s' Hs; exact Hs]; try lia; auto.
    destruct (legacy_prefix_list l last [] Hl) as [P1 P2 P3]; auto. rewrite app_nil_r in *. now constructor. }
  unfold context. rewrite bind_gets. destruct (iAMD64Mode (pContext s) =? 0) eqn:Eamd.
  { rewrite bind_ret. cbn [when negb]. rewrite bind_ret. exact (Hplain s Hf). }
  unfold Di_ProcessRexPrefix, context. rewrite bind_bind, bind_gets, Eamd. cbn [negb andb].
  destruct (is_rex data) eqn:Erex.
  2:{ rewrite bind_ret. cbn [when negb]. rewrite bind_ret. exact (Hplain s Hf). }
  unfold set_context, set_result. rewrite !bind_bind, bind_modify, !bind_bind, bind_modify, bind_ret.
  set (s1 := with_pResult _ _). cbn [when negb].
  assert (Hf1 : fed prev src (1 + taken_by last) l last s1).
  { apply fed_result; [|apply result_pInfo, Hf].
    pose proof (fed_context prev src (with_iRexPrefixValue (fun _ => data)) _ _ _ s ltac:(intros c; auto) Hf) as Hc.
    cbn in Hc. now rewrite (fd_prefixes _ _ _ _ _ _ Hf), (fd_last _ _ _ _ _ _ Hf) in Hc. }
  unfold Diana_InsertPrefix, context. rewrite bind_bind, bind_gets.
  destruct (_ <=? _); [split; [reflexivity|eapply fed_closed; [exact Hf1|lia]]|].
  unfold set_context. rewrite bind_modify.
  rewrite <- (fd_prefixes _ _ _ _ _ _ Hf1), <- (fd_last _ _ _ _ _ _ Hf1) in Hl.
  destruct (insert_rex data (pContext s1) Hl Erex) as (Hpl & Elast).
  pose proof (fed_context prev src _ _ _ _ _ (insert_prefix_cache data (Some fn_Rex) true) Hf1) as Hf2.
  rewrite (fd_last _ _ _ _ _ _ Hf1) in Elast. rewrite Elast in *.
  change (m_linkedPrefixFnc g_rexInfo) with (Some fn_Rex).
  assert (G : hoare (fed prev src (1 + taken_by last) (prefixes (insert_prefix data (Some fn_Rex) true (pContext s1))) last)
                (after_prefixes Diana_GetNopInfo root false data) (fun _ => decoded') closed').
  { eapply hoare_conseq; [apply (after_prefixes_ok Diana_GetNopInfo root tables prev src (1 + taken_by last)
      (prefixes (insert_prefix data (Some fn_Rex) true (pContext s1))) last)
      |intros s' Hs; exact Hs|intros [] s'; now apply finished_decoded|intros s' Hs; exact Hs]; try lia; auto. }
  exact (G _ Hf2).
Qed.

Lemma Diana_ParseCmdEx_ok :
  hoare fresh (Diana_ParseCmdEx Diana_GetNopInfo root) (fun _ => decoded') closed'.
Proof.
  unfold Diana_ParseCmdEx. eapply hoare_bind; [apply reset_ok|]. intros [].
  eapply hoare_bind; [apply prefix_loop_ok|]. intros [|data]; cbn [loop_post].
  - apply hoare_ret. intros s Hs. unfold finished_any in Hs. eapply finished_decoded; [|exact Hs]. auto.
  - apply hoare_pure. apply after_loop_ok.
Qed.

(** ** The end *)

Lemma closed_result g s : closed' s -> length (bytes (g (pResult s))) = 16%nat -> closed' (with_pResult g s).
Proof.
  intros [C1 C2 C3 (L & Hio & Hle)] Hb. constructor; auto. exists L. split; [now apply io_result|exact Hle].
Qed.

Lemma decoded_result g s : decoded' s -> length (bytes (g (pResult s))) = 16%nat ->
  pInfo (g (pResult s)) = pInfo (pResult s) ->
  (iLinkedOpCount (pResult s) = 0 -> iLinkedOpCount (g (pResult s)) = 0) -> decoded' (with_pResult g s).
Proof.
  intros [F1 F2 F3 F4 F5 F6] Hb Hi Hn. constructor; auto.
  - now apply closed_result.
  - destruct F5 as (i & Ei & Hg). cbn [with_pResult pResult]. exists i. rewrite Hi. split; [exact Ei|].
    destruct Hg as [Hg|(Hg & Hz)]; auto.
  - intros Hlead. destruct (F6 Hlead) as (H2 & H3). split; [exact H2|]. now apply conserved_result.
Qed.

(** After [Diana_ParseCmdEx]: decoded or not. *)
Definition ended (iRes : Z) (s : DecState T) : Prop := by_status decoded' closed' iRes s.

Lemma ended_closed iRes s : ended iRes s -> closed' s.
Proof. unfold ended, by_status. destruct (iRes =? DI_SUCCESS); [intros []; auto|auto]. Qed.

Lemma ended_result g iRes s : ended iRes s -> length (bytes (g (pResult s))) = 16%nat ->
  pInfo (g (pResult s)) = pInfo (pResult s) ->
  (iLinkedOpCount (pResult s) = 0 -> iLinkedOpCount (g (pResult s)) = 0) -> ended iRes (with_pResult g s).
Proof.
  unfold ended, by_status. destruct (iRes =? DI_SUCCESS); [intros; now apply decoded_result|].
  intros; now apply closed_result.
Qed.

(** What the result says of the bytes of the instruction. *)
Record bytes_copied (s : DecState T) : Prop := {
  bc_size : iFullCmdSize (pResult s) =
              Z.of_nat (length prev) + m_iReadSize s - cacheSize (pContext s);
  bc_range : 0 <= iFullCmdSize (pResult s) <= DI_MAX_INSTRUCTION_SIZE;
  bc_count : bytesCount (pResult s) = iFullCmdSize (pResult s);
  bc_bytes : length (bytes (pResult s)) = 16%nat;
  bc_copy : forall L, io src L s ->
    firstn (Z.to_nat (iFullCmdSize (pResult s))) (bytes (pResult s)) =
    firstn (Z.to_nat (iFullCmdSize (pResult s))) (prev ++ L)
}.

(** The cache as it was before the call. *)
Record cache_before (prevCache : list Z) (prevCacheIt iPreviousCacheSize : Z) : Prop := {
  cb_length : Z.of_nat (length prevCache) = DI_CACHE_SIZE;
  cb_it : DI_CACHE_RESERVED <= prevCacheIt;
  cb_size : 0 <= iPreviousCacheSize;
  cb_end : prevCacheIt + iPreviousCacheSize <= DI_CACHE_SIZE;
  cb_bytes : buf_bytes prevCache prevCacheIt iPreviousCacheSize = prev
}.

Section Copy.
Variables (prevCache : list Z) (prevCacheIt n : Z).
Hypothesis before : cache_before prevCache prevCacheIt n.

Lemma prev_length : Z.of_nat (length prev) = n.
Proof. destruct before as [B1 B2 B3 B4 B5]. rewrite <- B5, buf_bytes_length by sizes. lia. Qed.

(** [size] bytes of [bytes], from the cache and from what was read. *)
Definition copied (size : Z) (bs L : list Z) : list Z :=
  if size <=? n then buf_update bs 0 (buf_bytes prevCache prevCacheIt size)
  else buf_update (buf_update bs 0 prev) n (buf_bytes L 0 (size - n)).

Lemma firstn_prev size L : 0 <= size <= n -> 
  firstn (Z.to_nat size) (prev ++ L) = buf_bytes prevCache prevCacheIt size.
Proof.
  intros Hs. destruct before as [B1 B2 B3 B4 B5]. pose proof prev_length as Hp.
  rewrite firstn_app. replace (Z.to_nat size - length prev)%nat with O by lia. cbn [firstn]. rewrite app_nil_r.
  rewrite <- B5. unfold buf_bytes. rewrite firstn_firstn. f_equal. lia.
Qed.

Lemma firstn_past size L : n <= size -> 
  firstn (Z.to_nat size) (prev ++ L) = prev ++ buf_bytes L 0 (size - n).
Proof.
  intros Hs. pose proof prev_length as Hp. rewrite firstn_app, firstn_all2 by lia. f_equal.
  unfold buf_bytes. cbn [Z.to_nat skipn]. f_equal. lia.
Qed.

Lemma copied_ok size bs L : length bs = 16%nat -> 0 <= size <= DI_MAX_INSTRUCTION_SIZE ->
  size <= n + Z.of_nat (length L) ->
  length (copied size bs L) = 16%nat /\
  firstn (Z.to_nat size) (copied size bs L) = firstn (Z.to_nat size) (prev ++ L).
Proof.
  intros Hb Hs Hn. destruct before as [B1 B2 B3 B4 B5]. pose proof prev_length as Hp.
  unfold DI_MAX_INSTRUCTION_SIZE in Hs. unfold copied. destruct (Z.leb_spec size n) as [Hle|Hgt].
  - rewrite firstn_prev by lia. set (w := buf_bytes prevCache prevCacheIt size).
    assert (Hw : Z.of_nat (length w) = size) by (unfold w; rewrite buf_bytes_length by sizes; lia).
    split; [rewrite buf_update_length by lia; exact Hb|].
    pose proof (buf_bytes_written bs 0 w ltac:(lia) ltac:(lia)) as W. rewrite Hw in W. exact W.
  - rewrite firstn_past by lia. set (w := buf_bytes L 0 (size - n)).
    assert (Hw : Z.of_nat (length w) = size - n) by (unfold w; rewrite buf_bytes_length by lia; lia).
    split; [rewrite !buf_update_length by (rewrite ?buf_update_length; lia); exact Hb|].
    pose proof (buf_bytes_append (buf_update bs 0 prev) 0 n w ltac:(lia) ltac:(lia)
                  ltac:(rewrite buf_update_length; lia)) as W.
    rewrite Hw in W. replace (n + (size - n)) with size in W by lia.
    pose proof (buf_bytes_written bs 0 prev ltac:(lia) ltac:(lia)) as W'. rewrite Hp in W'.
    rewrite W' in W. exact W.
Qed.

(** [m_lastBytes] of the proxy as the array it is. *)
Definition recorded (l : list Z) : list Z := l ++ repeat 0 (32 - length l).

(** [size] is what the cache, the proxy and the rest of the cache say. *)
Lemma copy_bytes_run (s : DecState T) : closed' s ->
  iFullCmdSize (pResult s) = n + m_iReadSize s - cacheSize (pContext s) ->
  iFullCmdSize (pResult s) <= DI_MAX_INSTRUCTION_SIZE ->
  exists s', copy_bytes prevCache prevCacheIt n s = (Ok tt, s') /\
    s' = with_pResult (fun r => with_bytesCount (fun _ => iFullCmdSize (pResult s))
           (with_bytes (fun b => copied (iFullCmdSize (pResult s)) b (recorded (m_lastBytes s))) r)) s.
Proof.
  intros [Hc Hz Hb (L & [_ Ez Ec _ _] & Hle)] Esz Hmax. pose proof prev_length as Hp.
  pose proof before as [B1 B2 B3 B4 B5]. unfold DI_PROXY_BYTES_SIZE, DI_MAX_INSTRUCTION_SIZE in *.
  unfold copy_bytes, context, result, set_result. rewrite !bind_gets. set (size := iFullCmdSize (pResult s)) in *.
  eexists. split; [|reflexivity]. cbv zeta. unfold copied. destruct (Z.leb_spec size n) as [Hsn|Hsn].
  - rewrite mem_read_ok by sizes. cbn [some_or_crash]. rewrite bind_ret, bind_gets.
    assert (Hw : Z.of_nat (length (buf_bytes prevCache prevCacheIt size)) = size)
      by (rewrite buf_bytes_length by sizes; lia).
    rewrite mem_write_ok by lia. cbn [some_or_crash]. rewrite bind_ret, Hw. reflexivity.
  - rewrite mem_read_ok by sizes. cbn [some_or_crash]. rewrite B5, bind_ret, bind_bind, bind_gets.
    rewrite mem_write_ok by lia. cbn [some_or_crash]. rewrite bind_bind, bind_ret, bind_modify.
    fold (recorded (m_lastBytes s)).
    assert (Hr : length (recorded (m_lastBytes s)) = 32%nat).
    { unfold recorded. rewrite length_app, repeat_length. lia. }
    rewrite mem_read_ok by lia. cbn [some_or_crash]. rewrite bind_ret, bind_gets.
    cbn [with_pResult pResult with_bytesCount with_bytes bytes].
    assert (Hw : Z.of_nat (length (buf_bytes (recorded (m_lastBytes s)) 0 (m_iReadSize s - cacheSize (pContext s))))
                 = size - n) by (rewrite buf_bytes_length by lia; lia).
    rewrite mem_write_ok by (rewrite ?buf_update_length; lia). cbn [some_or_crash]. rewrite bind_ret, Hw.
    replace (m_iReadSize s - cacheSize (pContext s)) with (size - n) by lia.
    replace (n + (size - n)) with size by lia. reflexivity.
Qed.

(** ** [Diana_ParseCmd] *)

Lemma fix_cmpxchg16b_same r : bytes (fix_cmpxchg16b r) = bytes r /\
  pInfo (fix_cmpxchg16b r) = pInfo r /\ iLinkedOpCount (fix_cmpxchg16b r) = iLinkedOpCount r.
Proof. unfold fix_cmpxchg16b. destruct (command_of r); [|auto]. destruct (_ && _); auto. Qed.

Lemma ended_set g iRes E :
  (forall r, bytes (g r) = bytes r /\ pInfo (g r) = pInfo r /\ iLinkedOpCount (g r) = iLinkedOpCount r) ->
  hoare (ended iRes) (set_result g) (fun _ => ended iRes) E.
Proof.
  intros Hg. apply hoare_set_result. intros s Hs. destruct (Hg (pResult s)) as (E1 & E2 & E3).
  apply ended_result; auto; [|congruence]. rewrite E1. apply (ended_closed _ _ Hs).
Qed.

Lemma instruction_rules_ok info iRes :
  hoare (ended iRes) (instruction_rules info) (fun _ => ended iRes) closed'.
Proof.
  unfold instruction_rules. apply hoare_any_context. intros c.
  eapply hoare_conseq; [apply (hoare_result closed' (ended iRes))|auto|intros a s Hs; exact Hs|auto].
  intros r. destruct (prefix_rule_broken _ _); [fails; intros s (Hs & _); eapply ended_closed; eauto|].
  destruct (gather_broken _ _); [fails; intros s (Hs & _); eapply ended_closed; eauto|].
  destruct (_ && _); [fails; intros s (Hs & _); eapply ended_closed; eauto|].
  apply hoare_when; [|tauto]. intros _.
  eapply hoare_conseq; [apply (ended_set _ iRes closed')|tauto|auto|auto]. auto.
Qed.

(** The instruction and its bytes. *)
Definition command_done (s : DecState T) : Prop := decoded' s /\ bytes_copied s.

Lemma finish_bytes_ok iRes :
  hoare (ended iRes)
    (let! c := context (fun c => c) in
     let! iReadSize := gets m_iReadSize in
     let size := n + iReadSize - cacheSize c in
     set_result (with_iFullCmdSize (fun _ => size)) ;;;
     if DI_MAX_INSTRUCTION_SIZE <? size then fail DI_ERROR
     else
       copy_bytes prevCache prevCacheIt n ;;;
       when (negb (iRes =? DI_SUCCESS) && negb (iRes =? DI_END))
         (set_result (with_iLinkedOpCount (fun _ => 0))) ;;;
       return_status iRes)
    (fun _ => command_done) closed'.
Proof.
  intros s Hs. unfold context. rewrite !bind_gets. cbv zeta.
  set (size := n + m_iReadSize s - cacheSize (pContext s)). unfold set_result at 1. rewrite bind_modify.
  set (s1 := with_pResult (with_iFullCmdSize (fun _ => size)) s).
  assert (H1 : ended iRes s1).
  { apply ended_result; auto. apply (ended_closed _ _ Hs). }
  destruct (Z.ltb_spec DI_MAX_INSTRUCTION_SIZE size) as [|Hmax]; [split; [reflexivity|eapply ended_closed; eauto]|].
  destruct (copy_bytes_run s1 (ended_closed _ _ H1) eq_refl Hmax) as (s2 & E & Es2).
  rewrite (bind_run _ _ _ _ _ E).
  pose proof (ended_closed _ _ H1) as [Hc Hz Hb (L & Hio & Hle)]. pose proof prev_length as Hp.
  assert (Hsz : 0 <= size) by (destruct Hio as [_ Ez _ _ _]; cbn in Ez, Hle; unfold size; lia).
  assert (Hrec : size <= n + Z.of_nat (length (recorded (m_lastBytes s1)))).
  { unfold recorded. rewrite length_app, repeat_length. unfold DI_MAX_INSTRUCTION_SIZE in Hmax. 
    destruct before as [_ _ ? _ _]. lia. }
  destruct (copied_ok size (bytes (pResult s1)) (recorded (m_lastBytes s1)) Hb ltac:(lia) Hrec) as (Hlen & Hcopy).
  assert (H2 : ended iRes s2) by (rewrite Es2; apply ended_result; auto).
  destruct (negb (iRes =? DI_SUCCESS)) eqn:Eres.
  - cbn [andb].
    assert (Hfail : forall b, hoare (ended iRes)
              (when b (set_result (with_iLinkedOpCount (fun _ => 0))) ;;; return_status iRes)
              (fun _ => command_done) closed').
    { intros b. apply (hoare_bind _ _ _ _ (fun _ => ended iRes)).
      - apply hoare_when; [|auto]. intros _. apply hoare_set_result. intros s' Hs'.
        apply ended_result; auto. apply (ended_closed _ _ Hs').
      - intros []. apply negb_true_iff, Z.eqb_neq in Eres.
        apply hoare_return_status; [intros; contradiction|intros s'; apply ended_closed]. }
    exact (Hfail _ _ H2).
  - apply negb_false_iff in Eres. unfold return_status. rewrite Eres. cbn [andb when]. rewrite bind_ret.
    unfold ended, by_status in H2. rewrite Eres in H2. split; [exact H2|].
    pose proof H2 as [_ Hit Hend _ _ _]. rewrite Es2 in Hit, Hend |- *. cbn in Hit, Hend, Hz.
    constructor; cbn [with_pResult pResult with_bytesCount with_bytes iFullCmdSize bytesCount bytes
      m_iReadSize pContext s1 with_iFullCmdSize]; auto; try (unfold size; lia).
    intros L' HL'. refine (eq_trans Hcopy _). destruct HL' as [_ Ez _ El _]. cbn in Ez, El.
      assert (Hl32 : Z.of_nat (length L') < DI_PROXY_BYTES_SIZE).
      { unfold DI_PROXY_BYTES_SIZE, DI_MAX_INSTRUCTION_SIZE in *. destruct before. unfold size in Hmax. sizes. }
      assert (Er : recorded (m_lastBytes s1) = L' ++ repeat 0 (32 - length L')).
      { unfold recorded. cbn [s1 with_pResult m_lastBytes]. now rewrite (El Hl32). }
      rewrite Er, app_assoc, firstn_app, length_app.
      replace (Z.to_nat size - (length prev + length L'))%nat with O by (unfold size; lia).
      now rewrite firstn_O, app_nil_r.
Qed.

Lemma finish_ok iRes :
  hoare (ended iRes) (finish iRes prevCache prevCacheIt n) (fun _ => command_done) closed'.
Proof.
  unfold finish. apply hoare_any_context. intros c.
  apply (hoare_bind _ _ _ _ (fun _ => ended iRes)); [apply ended_set; intros r; auto|]. intros [].
  apply (hoare_result closed' (ended iRes)). intros r.
  apply (hoare_bind _ _ _ _ (fun _ => ended iRes)); [|intros []; apply finish_bytes_ok].
  intros s (Hs & Er). 
  destruct (Z.eqb_spec iRes DI_SUCCESS) as [E|N]; [|exact Hs].
  pose proof Hs as Hd. unfold ended, by_status in Hd. rewrite E in Hd. cbn in Hd.
  destruct (pInfo r) as [info|] eqn:Ei; [|exact Hs].
  destruct (m_pGroupInfo info) as [g|] eqn:Eg.
  - revert s Hs Er Hd. intros s Hs _ _. revert s Hs.
    apply (hoare_bind _ _ _ _ (fun _ => ended iRes)); [apply ended_set, fix_cmpxchg16b_same|].
    intros []. apply instruction_rules_ok.
  - destruct (fn_info _ _ _ _ _ _ _ Hd) as (i & Ei' & Hg). rewrite Er in *. rewrite Ei in Ei'.
    injection Ei' as <-. destruct Hg as [Hg|(_ & ->)]; [contradiction|exact Hs].
Qed.
End Copy.
End From.

(** ** A call on a ready context *)

(** How the decoder is called: by [Diana_ParseCmd] with a fresh proxy. *)
Definition call (c : DianaContext) (r : DianaParserResult) (t : T) :=
  Diana_ParseCmd Diana_GetNopInfo root (start c r t).

(** A successful call: the bytes of the instruction are the next ones. *)
Record command_read (c : DianaContext) (t : T) (s : DecState T) : Prop := {
  cr_size : 0 <= iFullCmdSize (pResult s) <= DI_MAX_INSTRUCTION_SIZE;
  cr_count : bytesCount (pResult s) = iFullCmdSize (pResult s);
  cr_bytes : firstn (Z.to_nat (iFullCmdSize (pResult s))) (bytes (pResult s)) =
             firstn (Z.to_nat (iFullCmdSize (pResult s))) (unread c ++ content t);
  cr_length : length (bytes (pResult s)) = 16%nat
}.

(** The stream before the call is what the instruction took, what is in the cache and what is still
    in the stream; bytes a failed try read past the cache are in [gap]. *)
Definition stream_split (c : DianaContext) (t : T) (s : DecState T) : Prop :=
  exists taken gap,
    unread c ++ content t = taken ++ unread (pContext s) ++ gap ++ content (readStream s) /\
    iFullCmdSize (pResult s) = Z.of_nat (length taken) + Z.of_nat (length gap) /\
    1 <= Z.of_nat (length taken) /\
    (lastPrefixBeforeRex (pContext s) = DI_FULL_CHAR_NULL -> gap = []).

Lemma command_done_read c t s : command_done (unread c) (content t) s -> command_read c t s.
Proof.
  intros ([[Hc Hz Hb (L & Hio & Hle)] _ _ _ _ _] & [B1 B2 B3 B4 B5]). constructor; auto.
  rewrite (B5 L Hio). pose proof Hio as [Es Ez _ _ _]. rewrite Es, app_assoc, (firstn_app _ (unread c ++ L)).
  rewrite length_app. replace (_ - _)%nat with O by lia. now rewrite firstn_O, app_nil_r.
Qed.

Lemma command_done_split c t s : prefixes_lead_on root -> command_done (unread c) (content t) s ->
  ready (pContext s) /\ stream_split c t s.
Proof.
  intros Hlead ([[Hc Hz Hb _] Hit Hend _ _ Hfin] & [B1 _ _ _ _]).
  destruct (Hfin Hlead) as (H2 & L & taken & gap & Hio & E & Hlow & Hgap). cbn [app] in *.
  assert (Hr : ready (pContext s)) by (constructor; auto). split; [exact Hr|].
  exists taken, gap. pose proof Hio as [Es Ez _ _ _]. pose proof (unread_length _ Hr) as Hu.
  split; [rewrite Es, app_assoc, E, <- !app_assoc; reflexivity|]. split; [|auto].
  rewrite B1, Ez. apply (f_equal (@length Z)) in E. rewrite !length_app in E. lia.
Qed.

(** An instruction is a command of the tables with its group, or the nop. *)
Lemma command_done_info p q s : command_done p q s -> exists i, pInfo (pResult s) = Some i /\
  (m_pGroupInfo i <> None \/ i = Diana_GetNopInfo /\ iLinkedOpCount (pResult s) = 0).
Proof. intros (Hd & _). exact (fn_info _ _ _ _ _ _ _ Hd). Qed.

Lemma Diana_ParseCmd_ok c r t : ready c -> stream_ok t -> length (bytes r) = 16%nat ->
  match call c r t with
  | (Ok _, s) => command_done (unread c) (content t) s
  | (Err code, s) => is_error code /\ cache_ok (pContext s) /\ stream_ok (readStream s) /\
      length (bytes (pResult s)) = 16%nat
  | (Crash, _) => False
  end.
Proof.
  intros Hc Ht Hb. unfold call, Diana_ParseCmd, context. rewrite bind_gets. cbn [start pContext].
  destruct (negb _); [split; [reflexivity|split; [apply Hc|auto]]|].
  unfold set_result at 1. rewrite bind_modify.
  set (s0 := with_pResult _ _).
  assert (Hf : fresh (unread c) (content t) s0).
  { constructor; [exact Hc|reflexivity|]. constructor; cbn; auto; reflexivity. }
  assert (Hbefore : cache_before (unread c) (cache c) (cacheIt c) (cacheSize c)).
  { destruct Hc as [(Hl & _) Hi Hs He]. constructor; auto. }
  assert (G : hoare (fresh (unread c) (content t))
            (let! iRes := status_of (Diana_ParseCmdEx Diana_GetNopInfo root) in
             finish iRes (cache c) (cacheIt c) (cacheSize c))
            (fun _ => command_done (unread c) (content t)) (closed (unread c) (content t))).
  { eapply hoare_bind; [apply hoare_status_of, Diana_ParseCmdEx_ok|]. intros iRes. now apply finish_ok. }
  specialize (G s0 Hf). destruct (bind _ _ s0) as [[u|code|] s]; [exact G| |exact G].
  destruct G as (Hcode & [Hk _ Hl (L & Hio & _)]). repeat (split; auto). apply Hio.
Qed.
End Command.
