(* ===== verification/DecBufferProofs.v ===== *)
(** The memory stream keeps the laws of the interface, and what [Diana_ParseCmdOnBuffer] gives. *)

From Stdlib Require Import ZArith Lia List Bool.
Import ListNotations.
From S2P Require Import Prelude Words Status Registers DecTypes DecStreams DecUtils DecWalk DecCore MemStreams.
From S2P Require Import DecHoare DecCacheProofs DecTryProofs DecDecodeProofs DecCommandProofs.
Local Open Scope Z_scope.

#[local] Arguments buf_bytes : simpl never.

Section Block.
Variables (buf : list Z) (size : Z).

(** A stream over [size] bytes of [buf], less than 2 GiB. *)
Record memory_ok (t : DianaMemoryStream) : Prop := {
  mo_buffer : pBuffer t = buf;
  mo_size : bufferSize t = size;
  mo_bytes : Forall byte_ok buf;
  mo_inside : size <= Z.of_nat (length buf);
  mo_int : size < 2 ^ 31;
  mo_cur : 0 <= curSize t <= size
}.

Definition memory_content (t : DianaMemoryStream) : list Z :=
  buf_bytes (pBuffer t) (curSize t) (bufferSize t - curSize t).

Lemma size_to_give_ok t n : memory_ok t ->
  size_to_give t (curSize t) n = Z.min n (size - curSize t).
Proof.
  intros [_ Es _ Hs Hi Hc]. unfold size_to_give. rewrite Es, u64_small by lia.
  unfold s32, u32. rewrite Z.mod_small by lia. destruct (Z.ltb_spec (size - curSize t) 0x80000000); [|lia].
  destruct (Z.ltb_spec n (size - curSize t)); lia.
Qed.

Lemma memory_content_ok t : memory_ok t -> Forall byte_ok (memory_content t).
Proof. intros [Eb _ Hb _ _ _]. apply buf_bytes_ok. now rewrite Eb. Qed.

Lemma memory_read_spec t n st bs t' : memory_ok t -> 0 < n -> MemoryStream_Read t n = (st, bs, t') ->
  memory_content t = bs ++ memory_content t' /\ Z.of_nat (length bs) <= n /\
  (st <> DI_SUCCESS -> bs = []) /\ memory_ok t'.
Proof.
  intros Ht Hn. unfold MemoryStream_Read. rewrite size_to_give_ok by assumption.
  intros [= <- <- <-]. destruct Ht as [Eb Es Hb Hs Hi Hc]. unfold memory_content. cbn. rewrite Eb, Es.
  split; [|split; [rewrite buf_bytes_length by lia; lia|split; [congruence|constructor; cbn; auto; lia]]].
  rewrite <- buf_bytes_split by lia. f_equal. lia.
Qed.

#[export] Instance memory_read_ok : DianaReadStreamOk DianaMemoryStream :=
  { content := memory_content; stream_ok := memory_ok;
    content_ok := memory_content_ok; read_spec := memory_read_spec }.

Lemma memory_content_length t : memory_ok t ->
  Z.of_nat (length (memory_content t)) = size - curSize t.
Proof.
  intros [Eb Es _ Hs _ Hc]. unfold memory_content. rewrite Eb, Es, buf_bytes_length by lia. lia.
Qed.

Variable Diana_GetNopInfo : DianaCmdInfo.
Variable root : DianaBaseGenObject.
Hypothesis tables : tables_ok root.
Hypothesis bytes_fine : Forall byte_ok buf.
Hypothesis size_fine : 0 <= size <= Z.of_nat (length buf).
Hypothesis size_int : size < 2 ^ 31.

Lemma init_memory_ok : memory_ok (Diana_InitMemoryStream buf size).
Proof. constructor; cbn; auto; lia. Qed.

(** A context whose cache is empty. *)
Lemma parse_on_ok c r : ready c -> cacheSize c = 0 -> length (bytes r) = 16%nat ->
  match parse_on Diana_GetNopInfo root c buf size r with
  | (Ok _, r', sizeRead) =>
      0 <= iFullCmdSize r' <= DI_MAX_INSTRUCTION_SIZE /\ sizeRead = iFullCmdSize r' /\
      iFullCmdSize r' <= size /\ bytesCount r' = iFullCmdSize r' /\
      firstn (Z.to_nat (iFullCmdSize r')) (bytes r') = firstn (Z.to_nat (iFullCmdSize r')) buf
  | (Err code, _, _) => is_error code
  | (Crash, _, _) => False
  end.
Proof.
  intros Hc E0 Hb. unfold parse_on.
  pose proof (Diana_ParseCmd_ok Diana_GetNopInfo root tables c r _ Hc init_memory_ok Hb) as H. unfold call in H.
  destruct (Diana_ParseCmd _ _ _) as [[u|code|] s]; [|tauto|exact H].
  assert (Eu : unread c = []) by (unfold unread; now rewrite E0, buf_bytes_none by lia).
  pose proof (command_done_read _ _ _ _ _ H) as [R1 R2 R3 R4]. rewrite Eu in *. cbn [app] in R3.
  destruct H as ([[_ Hz _ (L & Hio & Hle)] _ _ _ _ _] & [B1 _ _ _ _]).
  pose proof Hio as [Es Ez _ _ Hok]. cbn in Hok. change (content ?t) with (memory_content t) in *.
  pose proof (memory_content_length _ Hok) as Hl'. pose proof (memory_content_length _ init_memory_ok) as Hl.
  cbn in Hl. apply (f_equal (@length Z)) in Es. rewrite length_app in Es.
  pose proof (mo_cur _ Hok) as Hcur. cbn [length] in *.
  assert (Ecur : curSize (readStream s) = m_iReadSize s) by lia.
  split; [exact R1|]. split; [rewrite Ecur, u64_small; unfold DI_MAX_INSTRUCTION_SIZE in *; lia|].
  split; [lia|]. split; [exact R2|]. rewrite R3. unfold memory_content. cbn. rewrite Z.sub_0_r.
  unfold buf_bytes. cbn [Z.to_nat skipn]. rewrite firstn_firstn. f_equal. lia.
Qed.
End Block.
