(* ===== verification/CopyStreams.v ===== *)
(** Copying between streams and filling a stream (diana_streams.c), page by page, and the movable
    read stream over memory.  The theorem: both loops end, and leave in the output exactly the bytes
    that were asked for, or a beginning of them and an error. *)

From Stdlib Require Import ZArith Lia List Bool.
Import ListNotations.
From S2P Require Import Prelude Words Status DecStreams MemStreams DecBufferProofs.
Local Open Scope Z_scope.
Local Open Scope diana_scope.

(** ** The streams

    A reading stream that can be moved and read at random.  [pRandomRead this offset size absolute]:
    the status, the bytes and the stream. *)

Class DianaMovableReadStream (T : Type) `{DianaReadStream T} := {
  pMoveTo : T -> Z -> Z * T;
  pRandomRead : T -> Z -> Z -> bool -> Z * list Z * T
}.

(** Moving and reading at random leave the stream sound. *)
Class DianaMovableReadStreamOk (T : Type) `{DianaReadStreamOk T} `{!DianaMovableReadStream T} := {
  moved_ok : forall t offset, 0 <= offset -> stream_ok t -> stream_ok (snd (pMoveTo t offset));
  random_ok : forall t offset n absolute, stream_ok t -> stream_ok (snd (pRandomRead t offset n absolute))
}.

(** A stream to write to.  [pRandomWrite this offset bytes]: the status, [*writeBytes] and the
    stream; [None] when the stream has no such function.  [pRandomReadBack] is the [pRandomRead] of its
    [parent]. *)

Class DianaReadWriteRandomStream (U : Type) := {
  pRandomWrite : U -> Z -> list Z -> option (Z * Z * U);
  pRandomReadBack : U -> Z -> Z -> bool -> Z * list Z * U
}.

#[export] Instance memory_write_stream : DianaReadWriteRandomStream DianaMemoryStream := {
  pRandomWrite := fun u offset bs => DianaMemoryStream_RandomWrite_V u offset bs false;
  pRandomReadBack := fun u offset n absolute =>
    let (st, bs) := DianaMemoryStream_RandomRead_V u offset n absolute in (st, bs, u)
}.

(** [DianaMovableReadStreamOverMemory]: a memory stream that is only moved inside of its buffer. *)
Definition DianaMovableReadStreamOverMemory_MoveTo (t : DianaMemoryStream) (offset : Z)
    : Z * DianaMemoryStream :=
  if bufferSize t <=? offset then (DI_END_OF_STREAM, t)
  else (DI_SUCCESS, with_curSize (fun _ => offset) t).
Definition DianaMovableReadStreamOverMemory_Read := MemoryStream_Read.
Definition DianaMovableReadStreamOverMemory_RandomRead (t : DianaMemoryStream)
    (offset iBufferSize : Z) (absolute : bool) : Z * list Z :=
  if absolute then (DI_END_OF_STREAM, []) else DianaMemoryStream_RandomRead t offset iBufferSize.
Definition DianaMovableReadStreamOverMemory_Init := Diana_InitMemoryStream.

#[export] Instance memory_movable : DianaMovableReadStream DianaMemoryStream := {
  pMoveTo := DianaMovableReadStreamOverMemory_MoveTo;
  pRandomRead := fun t offset n absolute =>
    let (st, bs) := DianaMovableReadStreamOverMemory_RandomRead t offset n absolute in (st, bs, t)
}.

Lemma memory_movable_ok buf size :
  DianaMovableReadStreamOk DianaMemoryStream (H0 := memory_read_ok buf size).
Proof.
  constructor.
  - intros t offset H0 Ht. cbn. unfold DianaMovableReadStreamOverMemory_MoveTo.
    destruct (Z.leb_spec (bufferSize t) offset); [exact Ht|]. destruct Ht as [E1 E2 E3 E4 E5 E6].
    constructor; cbn; auto. lia.
  - intros t offset n absolute Ht. cbn. destruct (DianaMovableReadStreamOverMemory_RandomRead _ _ _ _). exact Ht.
Qed.

(** ** The operations *)

Definition Diana_SafeAdd (a arg : Z) : option Z :=
  if 0xFFFFFFFFFFFFFFFF - a <? arg then None else Some (a + arg).

(** A page, or what is left; an [int]. *)
Definition size_to_use (sizeToTransfer pageSize : Z) : Z :=
  if sizeToTransfer <? u64 pageSize then s32 sizeToTransfer else pageSize.

Section Copy.
Context {T U : Type} `{DianaReadStream T} `{DianaReadWriteRandomStream U}.

Definition read_page (n : Z) : M (T * U) (list Z) := fun '(t, u) =>
  match DianaRead t n with
  | (st, bs, t) =>
      (if negb (st =? DI_SUCCESS) then Err st
       else if negb (Z.of_nat (length bs) =? n) then Err DI_ERROR else Ok bs, (t, u))
  end.

Definition write_page (address : Z) (bs : list Z) : M U unit := fun u =>
  match pRandomWrite u address bs with
  | None => (Crash, u)
  | Some (st, writeBytes, u) =>
      (if negb (st =? DI_SUCCESS) then Err st
       else if negb (writeBytes =? Z.of_nat (length bs)) then Err DI_ERROR else Ok tt, u)
  end.

Definition to_output {A} (m : M U A) : M (T * U) A := fun '(t, u) => let (o, u) := m u in (o, (t, u)).

(** The loops: [None] when [fuel] rounds were not enough.  A negative size is a copy over the whole
    address space in these streams. *)
Fixpoint copy_loop (fuel : nat) (addressToWrite sizeToTransfer pageSize : Z) : M (T * U) (option unit) :=
  match fuel with
  | O => ret None
  | S fuel =>
      if sizeToTransfer =? 0 then ret (Some tt)
      else
        let sizeToUse := size_to_use sizeToTransfer pageSize in
        if sizeToUse <? 0 then crash
        else
          let! bs := read_page sizeToUse in
          to_output (write_page addressToWrite bs) ;;;
          copy_loop fuel (u64 (addressToWrite + sizeToUse)) (u64 (sizeToTransfer - sizeToUse)) pageSize
  end.

Definition DianaStreams_CopyData (fuel : nat) (address size pageSize : Z) : M (T * U) (option unit) :=
  match Diana_SafeAdd address size with
  | None => fail DI_OVERFLOW
  | Some _ => copy_loop fuel address size pageSize
  end.

Fixpoint memset_loop (fuel : nat) (addressToWrite sizeToTransfer : Z) (pPage : list Z) (pageSize : Z)
    : M U (option unit) :=
  match fuel with
  | O => ret None
  | S fuel =>
      if sizeToTransfer =? 0 then ret (Some tt)
      else
        let sizeToUse := size_to_use sizeToTransfer pageSize in
        if sizeToUse <? 0 then crash
        else
          write_page addressToWrite (firstn (Z.to_nat sizeToUse) pPage) ;;;
          memset_loop fuel (u64 (addressToWrite + sizeToUse)) (u64 (sizeToTransfer - sizeToUse)) pPage pageSize
  end.

Definition DianaStreams_MemsetData (fuel : nat) (address size value pageSize : Z) : M U (option unit) :=
  match Diana_SafeAdd address size with
  | None => fail DI_OVERFLOW
  | Some _ =>
      let sizeToMemsetInPage := if size <? u64 pageSize then size else u64 pageSize in
      memset_loop fuel address size (repeat (u8 value) (Z.to_nat sizeToMemsetInPage)) pageSize
  end.
End Copy.

(** ** Writing to a memory stream *)

Record writable_ok (u : DianaMemoryStream) : Prop := {
  wr_writable : writable u = true;
  wr_buffer : bufferSize u = Z.of_nat (length (pBuffer u));
  wr_int : bufferSize u < 2 ^ 31;
  wr_difference : 0 <= addressDifference u
}.

(** [u'] is [u] with [bs] from [address] on. *)
Definition written (u : DianaMemoryStream) (address : Z) (bs : list Z) : DianaMemoryStream :=
  with_pBuffer (fun buf => buf_update buf (address - addressDifference u) bs) u.

Definition inside (u : DianaMemoryStream) (address n : Z) : Prop :=
  addressDifference u <= address /\ address - addressDifference u + n <= bufferSize u.

Lemma write_page_ok u address bs : writable_ok u -> bs <> [] ->
  inside u address (Z.of_nat (length bs)) ->
  write_page address bs u = (Ok tt, written u address bs).
Proof.
  intros [Hw Hb Hi Hd] N (H1 & H2). unfold write_page, pRandomWrite, memory_write_stream.
  unfold DianaMemoryStream_RandomWrite_V, random_offset, Translate. rewrite Hw. cbn [negb].
  assert (L : 0 < Z.of_nat (length bs)) by (destruct bs; [contradiction|cbn; lia]).
  destruct (Z.ltb_spec address (addressDifference u)); [lia|]. cbn [negb Z.eqb DI_SUCCESS].
  set (off := address - addressDifference u) in *.
  destruct (Z.leb_spec (bufferSize u) off); [lia|]. cbn [negb Z.eqb DI_SUCCESS].
  assert (Es : size_to_give u off (Z.of_nat (length bs)) = Z.of_nat (length bs)).
  { unfold size_to_give. rewrite u64_small by lia. unfold s32, u32. rewrite Z.mod_small by lia.
    destruct (Z.ltb_spec (bufferSize u - off) 0x80000000); [|lia]. zcases; lia. }
  rewrite Es, Z.eqb_refl. cbn [negb]. rewrite Nat2Z.id, firstn_all. reflexivity.
Qed.

Lemma written_ok u address bs : writable_ok u -> inside u address (Z.of_nat (length bs)) ->
  writable_ok (written u address bs).
Proof.
  intros [Hw Hb Hi Hd] (H1 & H2). constructor; cbn; auto. rewrite buf_update_length; lia.
Qed.

Lemma written_nothing u address : writable_ok u -> written u address [] = u.
Proof.
  intros [Hw Hb Hi Hd]. destruct u as [buf size cur d w a]. unfold written, with_pBuffer. cbn.
  f_equal. unfold buf_update. cbn [length app]. now rewrite Nat.add_0_r, firstn_skipn.
Qed.

Lemma buf_update_app buf off bs cs : 0 <= off -> off + Z.of_nat (length bs + length cs) <= Z.of_nat (length buf) ->
  buf_update (buf_update buf off bs) (off + Z.of_nat (length bs)) cs = buf_update buf off (bs ++ cs).
Proof.
  intros H0 H. apply (list_ext_nth _ _ 0).
  - rewrite !buf_update_length; rewrite ?length_app, ?buf_update_length; lia.
  - intros i _. rewrite !buf_update_nth by (rewrite ?length_app, ?buf_update_length; lia).
    rewrite length_app. destruct (Nat.ltb_spec (i - Z.to_nat off) (length bs)) as [L|L];
      [rewrite (app_nth1 bs cs) by exact L|rewrite (app_nth2 bs cs) by exact L];
      zcases; cbn [andb]; try lia; try reflexivity; f_equal; lia.
Qed.

(** ** The loops *)

Lemma size_to_use_ok n pageSize : 0 < pageSize < 2 ^ 31 -> 0 < n < 2 ^ 64 ->
  size_to_use n pageSize = Z.min n pageSize /\ 0 < Z.min n pageSize.
Proof.
  intros Hp Hn. split; [|lia]. unfold size_to_use. rewrite u64_small by lia.
  destruct (Z.ltb_spec n pageSize); [|lia]. unfold s32, u32. rewrite Z.mod_small by lia.
  destruct (Z.ltb_spec n 0x80000000); lia.
Qed.

Section Loops.
Context {T : Type} `{DianaReadStreamOk T}.
Variable pageSize : Z.
Hypothesis page : 0 < pageSize < 2 ^ 31.

(** What a copy of [n] bytes of [t] to [address] of [u] may end with. *)
Definition copied (t : T) (u : DianaMemoryStream) (address n : Z) (o : outcome (option unit))
    (t' : T) (u' : DianaMemoryStream) : Prop :=
  stream_ok t' /\
  exists bs gap, content t = bs ++ gap ++ content t' /\ u' = written u address bs /\
    (bs <> [] -> inside u address (Z.of_nat (length bs))) /\
    match o with
    | Ok (Some _) => Z.of_nat (length bs) = n /\ gap = []
    | Err _ => Z.of_nat (length bs) < n
    | _ => False
    end.

Lemma write_page_inv u address bs o u' : writable_ok u -> bs <> [] -> write_page address bs u = (o, u') ->
  (o = Ok tt /\ inside u address (Z.of_nat (length bs)) /\ u' = written u address bs) \/
  (exists c k, o = Err c /\ (k < length bs)%nat /\ u' = written u address (firstn k bs) /\
     (k <> O -> inside u address (Z.of_nat k))).
Proof.
  intros W N. pose proof W as [Hw Hb Hi Hd]. unfold write_page, pRandomWrite, memory_write_stream.
  unfold DianaMemoryStream_RandomWrite_V, random_offset, Translate. rewrite Hw. cbn [negb].
  assert (L : 0 < Z.of_nat (length bs)) by (destruct bs; [contradiction|cbn; lia]).
  assert (Hnone : forall c, exists c' k, Err c = Err (A := unit) c' /\ (k < length bs)%nat /\
            u = written u address (firstn k bs) /\ (k <> O -> inside u address (Z.of_nat k))).
  { intros c. exists c, O. cbn [firstn]. rewrite (written_nothing u address W).
    repeat split; try lia; try contradiction. }
  destruct (Z.ltb_spec address (addressDifference u)).
  { cbn [negb Z.eqb DI_SUCCESS DI_END_OF_STREAM]. intros [= <- <-]. right. apply Hnone. }
  cbn [negb Z.eqb DI_SUCCESS]. set (off := address - addressDifference u) in *.
  destruct (Z.leb_spec (bufferSize u) off).
  { cbn [negb Z.eqb DI_SUCCESS DI_END_OF_STREAM]. intros [= <- <-]. right. apply Hnone. }
  cbn [negb Z.eqb DI_SUCCESS].
  assert (Es : size_to_give u off (Z.of_nat (length bs)) = Z.min (Z.of_nat (length bs)) (bufferSize u - off)).
  { unfold size_to_give. rewrite u64_small by lia. unfold s32, u32. rewrite Z.mod_small by lia.
    destruct (Z.ltb_spec (bufferSize u - off) 0x80000000); [|lia]. zcases; lia. }
  rewrite Es. destruct (Z.eqb_spec (Z.min (Z.of_nat (length bs)) (bufferSize u - off)) (Z.of_nat (length bs))) as [E|E];
    cbn [negb]; intros [= <- <-].
  - left. split; [reflexivity|]. split; [split; fold off; lia|]. rewrite E, Nat2Z.id, firstn_all. reflexivity.
  - right. exists DI_ERROR, (Z.to_nat (bufferSize u - off)).
    replace (Z.to_nat (Z.min _ _)) with (Z.to_nat (bufferSize u - off)) by lia.
    repeat split; try lia; fold off; lia.
Qed.

(** Part of the bytes written, then the rest. *)
Lemma written_app u address bs cs : writable_ok u -> inside u address (Z.of_nat (length bs + length cs)) ->
  written (written u address bs) (address + Z.of_nat (length bs)) cs = written u address (bs ++ cs).
Proof.
  intros [Hw Hb Hi Hd] (H1 & H2). destruct u as [buf size cur d w a]. unfold written, with_pBuffer. cbn in *.
  f_equal. replace (address + Z.of_nat (length bs) - d) with (address - d + Z.of_nat (length bs)) by lia.
  apply buf_update_app; lia.
Qed.

Lemma copy_loop_ok fuel : forall address n t u, stream_ok t -> writable_ok u ->
  0 <= address -> 0 <= n -> address + n < 2 ^ 64 -> n < Z.of_nat fuel ->
  let '(o, (t', u')) := copy_loop fuel address n pageSize (t, u) in copied t u address n o t' u'.
Proof.
  induction fuel as [|fuel IH]; intros address n t u Ht Hu Ha Hn Hs Hf; [lia|]. cbn [copy_loop].
  destruct (Z.eqb_spec n 0) as [->|N0].
  { cbn. split; [exact Ht|]. exists [], []. rewrite written_nothing by exact Hu. repeat split; contradiction. }
  destruct (size_to_use_ok n pageSize page ltac:(lia)) as (-> & Hk). set (k := Z.min n pageSize) in *.
  cbv zeta. destruct (Z.ltb_spec k 0); [lia|]. unfold bind at 1, read_page.
  destruct (DianaRead t k) as [[st bs] t1] eqn:R.
  destruct (read_spec t k st bs t1 Ht Hk R) as (Ec & Hl & Hst & Ht1).
  assert (Hfail : forall c, copied t u address n (Err c) t1 u).
  { intros c. split; [exact Ht1|]. exists [], bs. rewrite written_nothing by exact Hu.
    repeat split; auto; try contradiction. cbn. lia. }
  destruct (negb (st =? DI_SUCCESS)); [apply Hfail|].
  destruct (Z.eqb_spec (Z.of_nat (length bs)) k) as [Lk|]; cbn [negb]; [|apply Hfail].
  unfold bind at 1, to_output. destruct (write_page address bs u) as [o u1] eqn:E.
  assert (Nb : bs <> []) by (intros ->; cbn in Lk; lia).
  destruct (write_page_inv u address bs o u1 Hu Nb E) as [(-> & Hin & ->)|(c & j & -> & Hj & -> & Hin)].
  - rewrite !u64_small by lia.
    assert (Hr : let '(o, (t', u')) := copy_loop fuel (address + k) (n - k) pageSize (t1, written u address bs) in
                 copied t1 (written u address bs) (address + k) (n - k) o t' u')
      by (apply IH; auto using written_ok; lia).
    destruct (copy_loop _ _ _ _ _) as [o [t' u']]. destruct Hr as (Ht' & bs' & gap & Ec' & Eu & Hin' & Ho).
    split; [exact Ht'|]. exists (bs ++ bs'), gap.
    assert (Hboth : inside u address (Z.of_nat (length bs + length bs'))).
    { destruct bs' as [|b bs']; [rewrite Nat.add_0_r; exact Hin|]. destruct Hin' as (I1 & I2); [discriminate|].
      destruct Hin as (I3 & I4). cbn [written with_pBuffer addressDifference bufferSize] in I1, I2. split; lia. }
    rewrite Ec, Ec', <- app_assoc. split; [reflexivity|]. split.
    { rewrite Eu, <- Lk. now apply written_app. }
    rewrite length_app. split; [intros _; exact Hboth|].
    destruct o as [[x|]|c|]; [destruct Ho as (Ho & ->); split; [lia|reflexivity]|contradiction|lia|contradiction].
  - split; [exact Ht1|]. exists (firstn j bs), (skipn j bs). rewrite app_assoc, firstn_skipn.
    assert (Lj : length (firstn j bs) = j) by (rewrite length_firstn; lia).
    split; [exact Ec|]. split; [reflexivity|]. rewrite Lj. split; [|lia].
    intros Nj. apply Hin. intros ->. now apply Nj.
Qed.

(** The input gives what it is asked for, as long as it has it. *)
Definition delivers : Prop := forall t n, stream_ok t -> 0 < n <= Z.of_nat (length (content t)) ->
  exists bs t', DianaRead t n = (DI_SUCCESS, bs, t') /\ Z.of_nat (length bs) = n.

Lemma copy_loop_full fuel : delivers -> forall address n t u, stream_ok t -> writable_ok u ->
  0 <= address -> 0 <= n -> address + n < 2 ^ 64 -> n < Z.of_nat fuel ->
  n <= Z.of_nat (length (content t)) -> inside u address n ->
  fst (copy_loop fuel address n pageSize (t, u)) = Ok (Some tt).
Proof.
  intros Hd. induction fuel as [|fuel IH]; intros address n t u Ht Hu Ha Hn Hs Hf Hc Hin; [lia|]. cbn [copy_loop].
  destruct (Z.eqb_spec n 0) as [->|N0]; [reflexivity|].
  destruct (size_to_use_ok n pageSize page ltac:(lia)) as (-> & Hk). set (k := Z.min n pageSize) in *.
  cbv zeta. destruct (Z.ltb_spec k 0); [lia|]. unfold bind at 1, read_page.
  destruct (Hd t k Ht ltac:(lia)) as (bs & t1 & R & Lk). rewrite R.
  destruct (read_spec t k _ bs t1 Ht Hk R) as (Ec & Hl & Hst & Ht1). cbn [negb Z.eqb DI_SUCCESS].
  rewrite Lk, Z.eqb_refl. cbn [negb]. unfold bind at 1, to_output.
  assert (Nb : bs <> []) by (intros ->; cbn in Lk; lia).
  assert (Hb : inside u address (Z.of_nat (length bs))) by (destruct Hin; split; lia).
  rewrite (write_page_ok u address bs Hu Nb Hb). rewrite !u64_small by lia.
  apply (f_equal (@length Z)) in Ec. rewrite length_app in Ec.
  apply IH; auto using written_ok; try lia. destruct Hin as (I1 & I2). split; cbn; lia.
Qed.
End Loops.

(** Filling: the same with a page of one value. *)
Lemma firstn_repeat (v : Z) k m : (k <= m)%nat -> firstn k (repeat v m) = repeat v k.
Proof.
  revert m. induction k as [|k IH]; intros [|m] Hk; cbn; try lia; auto. now rewrite IH by lia.
Qed.

(** What a fill of [n] bytes may end with. *)
Definition filled (v : Z) (u : DianaMemoryStream) (address n : Z) (o : outcome (option unit))
    (u' : DianaMemoryStream) : Prop :=
  exists k, u' = written u address (repeat v k) /\ (k <> O -> inside u address (Z.of_nat k)) /\
    match o with
    | Ok (Some _) => Z.of_nat k = n
    | Err _ => Z.of_nat k < n
    | _ => False
    end.

Lemma memset_loop_ok pageSize v m fuel : 0 < pageSize < 2 ^ 31 -> forall address n u, writable_ok u ->
  0 <= address -> 0 <= n -> address + n < 2 ^ 64 -> n < Z.of_nat fuel -> Z.min n pageSize <= Z.of_nat m ->
  let '(o, u') := memset_loop fuel address n (repeat v m) pageSize u in
  filled v u address n o u' /\ (inside u address n -> o = Ok (Some tt)).
Proof.
  intros page. induction fuel as [|fuel IH]; intros address n u Hu Ha Hn Hs Hf Hm; [lia|]. cbn [memset_loop].
  destruct (Z.eqb_spec n 0) as [->|N0].
  { cbn. split; [|auto]. exists O. cbn [repeat]. rewrite written_nothing by exact Hu. repeat split; contradiction. }
  destruct (size_to_use_ok n pageSize page ltac:(lia)) as (-> & Hk). set (k := Z.min n pageSize) in *.
  cbv zeta. destruct (Z.ltb_spec k 0); [lia|]. rewrite firstn_repeat by lia. unfold bind at 1.
  set (bs := repeat v (Z.to_nat k)). assert (Lk : length bs = Z.to_nat k) by apply repeat_length.
  assert (Nb : bs <> []) by (intros E; rewrite E in Lk; cbn in Lk; lia).
  destruct (write_page address bs u) as [o u1] eqn:E.
  destruct (write_page_inv u address bs o u1 Hu Nb E) as [(-> & Hin & ->)|(c & j & -> & Hj & -> & Hin)].
  - rewrite !u64_small by lia.
    assert (Hr : let '(o, u') := memset_loop fuel (address + k) (n - k) (repeat v m) pageSize (written u address bs) in
                 filled v (written u address bs) (address + k) (n - k) o u' /\
                 (inside (written u address bs) (address + k) (n - k) -> o = Ok (Some tt)))
      by (apply IH; auto using written_ok; lia).
    destruct (memset_loop _ _ _ _ _ _) as [o u']. destruct Hr as ((k' & Eu & Hin' & Ho) & Hok).
    split.
    + exists (Z.to_nat k + k')%nat.
      assert (Hboth : inside u address (Z.of_nat (length bs + length (repeat v k')))).
      { rewrite repeat_length. destruct (Nat.eq_dec k' 0) as [->|Nk]; [rewrite Nat.add_0_r; exact Hin|].
        destruct (Hin' Nk) as (I1 & I2). destruct Hin as (I3 & I4). cbn in I1, I2. split; lia. }
      split.
      { rewrite Eu, repeat_app. fold bs. rewrite <- written_app by assumption. rewrite Lk, Z2Nat.id by lia. reflexivity. }
      rewrite repeat_length, Lk in Hboth. split; [intros _; exact Hboth|]. destruct o as [[x|]|c|]; lia || contradiction.
    + intros (I1 & I2). apply Hok. split; cbn; lia.
  - split.
    + exists j. unfold bs. rewrite firstn_repeat by lia. split; [reflexivity|]. split; [exact Hin|lia].
    + intros (I1 & I2). rewrite (write_page_ok u address bs Hu Nb) in E by (split; lia). discriminate.
Qed.

(** ** The property *)

(** C24: copying and filling are exact.  [DianaStreams_CopyData] with a page of at least one byte ends;
    with success the output has the next [size] bytes of the input from [address] on, nothing else of it
    has changed, and the input is behind them; with an error a proper beginning of them was written.  It
    succeeds whenever the input has the bytes and the output the room, and the end of the range does not
    overflow.  [DianaStreams_MemsetData] does the same with [size] bytes of one value. *)
Theorem copy_and_fill_are_exact {T : Type} `{DianaReadStreamOk T} (pageSize address size value : Z)
    (fuel : nat) (t : T) (u : DianaMemoryStream) :
  0 < pageSize < 2 ^ 31 -> stream_ok t -> writable_ok u -> 0 <= address -> 0 <= size ->
  size < Z.of_nat fuel ->
  (address + size < 2 ^ 64 ->
   (let '(o, (t', u')) := DianaStreams_CopyData fuel address size pageSize (t, u) in
    copied t u address size o t' u') /\
   (delivers (T := T) -> size <= Z.of_nat (length (content t)) -> inside u address size ->
    fst (DianaStreams_CopyData fuel address size pageSize (t, u)) = Ok (Some tt)) /\
   (let '(o, u') := DianaStreams_MemsetData fuel address size value pageSize u in
    filled (u8 value) u address size o u' /\ (inside u address size -> o = Ok (Some tt)))) /\
  (2 ^ 64 <= address + size ->
   DianaStreams_CopyData fuel address size pageSize (t, u) = (Err DI_OVERFLOW, (t, u)) /\
   DianaStreams_MemsetData fuel address size value pageSize u = (Err DI_OVERFLOW, u)).
Proof.
  intros Hp Ht Hu Ha Hs Hf. unfold DianaStreams_CopyData, DianaStreams_MemsetData, Diana_SafeAdd.
  destruct (Z.ltb_spec (0xFFFFFFFFFFFFFFFF - address) size) as [Ho|Ho]; (split; intros Hr; [|try lia]); try lia.
  - split; reflexivity.
  - split; [|split].
    + now apply copy_loop_ok.
    + intros Hd Hc Hi. now apply copy_loop_full.
    + apply memset_loop_ok; auto. rewrite u64_small by lia. zcases; lia.
Qed.

(** A copy of five bytes in pages of two, and a fill. *)
Definition copied_from : DianaMemoryStream := Diana_InitMemoryStream [1; 2; 3; 4; 5; 6] 6.
Definition copied_to : DianaMemoryStream := Diana_InitMemoryStreamEx2 (repeat 0 8) 8 true 0x100.

Lemma memory_delivers : delivers (T := DianaMemoryStream) (H := memory_read_stream)
  (H0 := memory_read_ok [1; 2; 3; 4; 5; 6] 6).
Proof.
  intros t n Ht Hn. pose proof (memory_content_length [1; 2; 3; 4; 5; 6] 6 t Ht) as L. change (content t) with (memory_content t) in Hn.
  rewrite L in Hn.
  pose proof (size_to_give_ok [1; 2; 3; 4; 5; 6] 6 t n Ht) as Eg.
  unfold DianaRead, memory_read_stream, MemoryStream_Read. rewrite Eg. do 2 eexists. split; [reflexivity|].
  destruct Ht as [Eb Es Hb Hs Hi Hc]. cbn [length] in Hs. rewrite Eb, buf_bytes_length by (cbn [length]; lia). lia.
Qed.

Lemma copy_and_fill_are_exact_witness :
  pBuffer (snd (snd (DianaStreams_CopyData 6 0x101 5 2 (copied_from, copied_to)))) = [0; 1; 2; 3; 4; 5; 0; 0] /\
  fst (DianaStreams_CopyData 6 0x101 5 2 (copied_from, copied_to)) = Ok (Some tt) /\
  fst (DianaStreams_MemsetData 6 0x101 5 7 2 copied_to) = Ok (Some tt).
Proof.
  split; [vm_compute; reflexivity|].
  destruct (copy_and_fill_are_exact (H0 := memory_read_ok [1; 2; 3; 4; 5; 6] 6)
    2 0x101 5 7 6 copied_from copied_to) as (P & _); try lia.
  - apply init_memory_ok; [repeat constructor; discriminate|split; discriminate|reflexivity].
  - constructor; cbn; auto; lia.
  - destruct (P ltac:(lia)) as (_ & P2 & P3). split.
    + apply P2; [exact memory_delivers|vm_compute; discriminate|split; vm_compute; discriminate].
    + destruct (DianaStreams_MemsetData 6 0x101 5 7 2 copied_to) as [o u']. apply P3. split; vm_compute; discriminate.
Defined.
