(* ===== verification/DecModes.v ===== *)
(** The decoder leaves the mode of a context alone and its operand size one of 2, 4 and 8, whatever
    it returns: [Diana_ParseCmd] on any input. *)

From Stdlib Require Import ZArith Lia List Bool.
Import ListNotations.
From S2P Require Import Prelude Words Status Registers DecTypes DecStreams DecUtils DecPrefix DecAddress.
From S2P Require Import DecLink DecWalk DecParser DecCore.
Local Open Scope Z_scope.
Local Open Scope diana_scope.

(** A 16- or 32-bit operand size in the mode, which 64-bit mode has too, and a size an instruction
    can have. *)
Record modes (c : DianaContext) : Prop := {
  md_main : iMainMode_opsize c = 2 \/ iMainMode_opsize c = 4;
  md_opsize : opsize (iCurrentCmd_opsize c)
}.

Section Modes.
Context {T : Type} `{DianaReadStream T}.

Definition stable {A} (m : D T A) : Prop := forall s, modes (pContext s) -> modes (pContext (snd (m s))).

Lemma stable_ret {A} (a : A) : stable (ret a).
Proof. intros s Hs. exact Hs. Qed.
Lemma stable_fail {A} c : stable (fail c : D T A).
Proof. intros s Hs. exact Hs. Qed.
Lemma stable_crash {A} : stable (crash : D T A).
Proof. intros s Hs. exact Hs. Qed.
Lemma stable_gets {A} (f : DecState T -> A) : stable (gets f).
Proof. intros s Hs. exact Hs. Qed.

Lemma stable_modify g : (forall s, pContext (g s) = pContext s) -> stable (modify g).
Proof. intros Hg s Hs. cbn. now rewrite Hg. Qed.

Lemma stable_set_context g : (forall c, modes c -> modes (g c)) -> stable (set_context g).
Proof. intros Hg s Hs. cbn. auto. Qed.

Lemma stable_bind {A B} (m : D T A) (f : A -> D T B) :
  stable m -> (forall a, stable (f a)) -> stable (bind m f).
Proof.
  intros Hm Hf s Hs. unfold bind. specialize (Hm s Hs). destruct (m s) as [[a|c|] s']; [|exact Hm|exact Hm].
  exact (Hf a s' Hm).
Qed.

(** The whole context is read: it has the property too. *)
Lemma stable_read {A} (f : DianaContext -> D T A) :
  (forall c, modes c -> stable (f c)) -> stable (bind (context (fun c => c)) f).
Proof. intros Hf s Hs. exact (Hf _ Hs s Hs). Qed.

Lemma stable_when b (m : D T unit) : stable m -> stable (when b m).
Proof. intros Hm. destruct b; [exact Hm|apply stable_ret]. Qed.

Lemma stable_status_of (m : D T unit) : stable m -> stable (status_of m).
Proof. intros Hm s Hs. specialize (Hm s Hs). unfold status_of. now destruct (m s) as [[a|c|] s']. Qed.

Lemma stable_attempt {A} (m : D T A) : stable m -> stable (attempt m).
Proof. intros Hm s Hs. specialize (Hm s Hs). unfold attempt. now destruct (m s) as [[a|c|] s']. Qed.

Lemma stable_or_di_error {A} (m : D T A) : stable m -> stable (or_di_error m).
Proof. intros Hm s Hs. specialize (Hm s Hs). unfold or_di_error. now destruct (m s) as [[a|c|] s']. Qed.

Lemma stable_some {A} (o : option A) : stable (some_or_crash o : D T A).
Proof. destruct o; [apply stable_ret|apply stable_crash]. Qed.

Lemma stable_outcome {A} (o : outcome A) : stable (of_outcome o : D T A).
Proof. destruct o; [apply stable_ret|apply stable_fail|apply stable_crash]. Qed.

Lemma stable_proxy n : stable (ProxyDianaReadFnc n).
Proof.
  intros s Hs. unfold ProxyDianaReadFnc. destruct (DianaRead _ _) as [[st bs] t].
  destruct (st =? DI_SUCCESS); [|exact Hs]. cbn. unfold DianaProxyReadStream_AddBytes.
  destruct (_ <=? _); exact Hs.
Qed.

(** Prefix functions, and the changes to the context. *)
Lemma modes_same c c' : iMainMode_opsize c' = iMainMode_opsize c ->
  iCurrentCmd_opsize c' = iCurrentCmd_opsize c -> modes c -> modes c'.
Proof. intros E1 E2 []. constructor; congruence. Qed.

Lemma modes_opsize n c : opsize n -> modes c -> modes (with_iCurrentCmd_opsize (fun _ => n) c).
Proof. intros Hn []. now constructor. Qed.

Lemma call_prefix_modes f c : modes c -> modes (call_prefix f c).
Proof.
  intros Hc. pose proof Hc as [Hm Ho].
  destruct f; cbn [call_prefix]; try (apply (modes_same c); [reflexivity|reflexivity|exact Hc]).
  1-4: unfold Diana_CS, Diana_SS, Diana_DS, Diana_ES, old_segment; destruct (_ || _); now constructor.
  - unfold Diana_OpSize. destruct (has_flag _ _); [now constructor|].
    destruct (_ =? 8); (constructor; [exact Hm|]); [exact Ho|]. unfold opsize, no_rex. cbn -[Z.sub]. lia.
  - unfold Diana_AddrSize. destruct (has_flag _ _); [now constructor|]. destruct (_ =? 8); now constructor.
  - unfold Diana_Rex. destruct (DI_REX_HAS_FLAG_W _); constructor; cbn; auto. unfold opsize. lia.
  - constructor; cbn; [exact Hm|]. unfold opsize. lia.
Qed.

Lemma apply_prefixes_modes l : forall i x c c', apply_prefixes l i x c = Some c' -> modes c -> modes c'.
Proof.
  induction l as [|p l IH]; intros i x c c'; cbn [apply_prefixes]; [now intros [= <-]|].
  destruct (i =? x); [apply IH|]. destruct (linkedPrefixFnc p) as [f|]; [|discriminate].
  intros E Hc. eapply IH; [exact E|]. now apply call_prefix_modes.
Qed.

Lemma insert_prefix_modes p f r c : modes c -> modes (insert_prefix p f r c).
Proof.
  intros Hc. unfold insert_prefix. cbv zeta.
  destruct (find_prefix _ _ _); [destruct (_ && _)|]; destruct r; now apply (modes_same c).
Qed.
End Modes.

Create HintDb stable.
#[export] Hint Resolve stable_ret stable_fail stable_crash stable_gets stable_some stable_outcome
  stable_proxy : stable.

(** A change of a context keeps the mode. *)
Ltac keeps_modes :=
  let c := fresh "c" in let Hc := fresh "Hc" in
  intros c Hc; cbv beta;
  repeat match goal with |- context [if ?b then _ else _] => destruct b end;
  first [ exact Hc | apply insert_prefix_modes; exact Hc
        | apply modes_opsize; [unfold opsize; lia|exact Hc]
        | apply (modes_same c); [reflexivity|reflexivity|exact Hc]
        | let h := fresh "Hm" in let o := fresh "Ho" in destruct Hc as [h o]; constructor; [exact h|];
          unfold opsize; cbn [iCurrentCmd_opsize with_cacheIt with_iCurrentCmd_opsize];
          repeat match goal with |- context [if ?b then _ else _] => destruct b end; lia ].

(** One step of a program; what is left are the calls. *)
Ltac stable_step :=
  match goal with
  | |- stable (bind (context (fun c => c)) _) => apply stable_read; intros
  | |- stable (bind _ _) => apply stable_bind; [|intros]
  | |- stable (context _) => apply stable_gets
  | |- stable (result _) => apply stable_gets
  | |- stable (set_context _) => apply stable_set_context; keeps_modes
  | |- stable (set_result _) => apply stable_modify; reflexivity
  | |- stable (modify _) => apply stable_modify; reflexivity
  | |- stable (when _ _) => apply stable_when
  | |- stable (status_of _) => apply stable_status_of
  | |- stable (attempt _) => apply stable_attempt
  | |- stable (or_di_error _) => apply stable_or_di_error
  | |- stable (if ?b then _ else _) => destruct b
  | |- stable (let '(_, _) := ?p in _) => destruct p
  | |- stable (match ?o with _ => _ end) => destruct o
  | |- stable _ => solve [auto with stable]
  end.

Ltac stable_program := cbv zeta; repeat (stable_step; cbv zeta).

Section Programs.
Context {T : Type} `{DianaReadStream T}.

Lemma stable_return_status c : stable (return_status c : D T unit).
Proof. unfold return_status. stable_program. Qed.
Lemma stable_or_error o : stable (or_error o : D T Z).
Proof. unfold or_error. stable_program. Qed.
Lemma stable_cache_byte i : stable (cache_byte i : D T Z).
Proof. unfold cache_byte. stable_program. Qed.
Lemma stable_cache_store i bs : stable (cache_store i bs : D T unit).
Proof. unfold cache_store. stable_program. Qed.
#[local] Hint Resolve stable_return_status stable_or_error stable_cache_byte stable_cache_store : stable.
Lemma stable_cache_move a b n : stable (cache_move a b n : D T unit).
Proof. unfold cache_move. stable_program. Qed.
Lemma stable_read_into_cache a n : stable (read_into_cache a n).
Proof. unfold read_into_cache. stable_program. Qed.
Lemma stable_stream_read n : stable (StreamProxy_Read n).
Proof. unfold StreamProxy_Read. stable_program. Qed.
#[local] Hint Resolve stable_cache_move stable_read_into_cache stable_stream_read : stable.
Lemma stable_read_value n sg : stable (DianaReadValueAsLong n sg).
Proof. unfold DianaReadValueAsLong. stable_program. Qed.
#[local] Hint Resolve stable_read_value : stable.

(** *** Operands *)

Lemma stable_read32 i a b c : stable (Diana_ReadIndexStructure32 i a b c).
Proof. unfold Diana_ReadIndexStructure32, sib_base, sib_index. stable_program. Qed.
#[local] Hint Resolve stable_read32 : stable.
Lemma stable_handler b i x y z : stable (DianaGetHandler b i x y z).
Proof. unfold DianaGetHandler. stable_program. Qed.
Lemma stable_linked_operand i : stable (linked_operand i : D T _).
Proof. unfold linked_operand. stable_program. Qed.
Lemma stable_set_operand i op : stable (set_operand i op : D T unit).
Proof. unfold set_operand. stable_program. Qed.
#[local] Hint Resolve stable_handler stable_linked_operand stable_set_operand : stable.

Lemma stable_evex_memory e r : stable (link_evex_memory e r : D T _).
Proof. destruct r. unfold link_evex_memory. stable_program. Qed.
#[local] Hint Resolve stable_evex_memory : stable.
Lemma stable_link_kind e i k info a b sg r : stable (link_kind e i k info a b sg r).
Proof.
  destruct r as [ls op]. unfold link_kind.
  destruct (DecTypes.m_type info);
    unfold link_registry, link_regmem, link_immediate, link_eax, link_ecx, link_sreg, link_offset, link_special,
      link_ptr, link_rel, link_memory, link_string, link_is4, link_vector_register, register_code;
    stable_program.
Qed.
#[local] Hint Resolve stable_link_kind : stable.
Lemma stable_link_operand e i info ls : stable (link_operand e i info ls).
Proof. unfold link_operand. stable_program. Qed.
#[local] Hint Resolve stable_link_operand : stable.
Lemma stable_link_operands e infos : forall i ls, stable (link_operands e i infos ls).
Proof. induction infos; intros; cbn [link_operands]; stable_program. Qed.
Lemma stable_displacement ls o : stable (link_displacement ls o).
Proof. unfold link_displacement. stable_program. Qed.
Lemma stable_immediates info ops : forall imms o r, stable (link_immediates info ops imms o r).
Proof. induction ops; intros [|n imms] o r; cbn [link_immediates]; stable_program. Qed.
Lemma stable_is4 k : stable (link_is4_register k : D T unit).
Proof. unfold link_is4_register. stable_program. Qed.
Lemma stable_read_opcode info f : stable (read_opcode info f).
Proof. unfold read_opcode. stable_program. Qed.
Lemma stable_opsize info : stable (command_opsize info : D T unit).
Proof. unfold command_opsize. stable_program. Qed.
#[local] Hint Resolve stable_link_operands stable_displacement stable_immediates stable_is4
  stable_read_opcode stable_opsize : stable.
Lemma stable_LinkOperands : stable Diana_LinkOperands.
Proof. unfold Diana_LinkOperands, ignore_rex. stable_program. Qed.
#[local] Hint Resolve stable_LinkOperands : stable.

(** *** Prefixes and tries *)

Lemma stable_CacheEatOne : stable (Diana_CacheEatOne : D T Z).
Proof. unfold Diana_CacheEatOne. stable_program. Qed.
Lemma stable_ReadCache b : stable (Diana_ReadCache b).
Proof. unfold Diana_ReadCache. stable_program. Qed.
Lemma stable_put a b c d : stable (put_virtual_prefix a b c d : D T unit).
Proof. unfold put_virtual_prefix. stable_program. Qed.
Lemma stable_top_up : stable top_up.
Proof. unfold top_up. stable_program. Qed.
Lemma stable_rex v : stable (Di_ProcessRexPrefix v : D T bool).
Proof. unfold Di_ProcessRexPrefix. stable_program. Qed.
Lemma stable_insert p f r : stable (Diana_InsertPrefix p f r : D T unit).
Proof. unfold Diana_InsertPrefix. stable_program. Qed.
Lemma stable_vex_fill n : forall a b, stable (vex_fill n a b).
Proof. induction n; intros; cbn [vex_fill]; stable_program. Qed.
Lemma stable_evex_fill n : forall a b, stable (evex_fill n a b).
Proof. induction n; intros; cbn [evex_fill]; stable_program. Qed.
#[local] Hint Resolve stable_CacheEatOne stable_ReadCache stable_put stable_top_up stable_rex stable_insert
  stable_vex_fill stable_evex_fill : stable.
Lemma stable_vex b : stable (Di_ProcessVexPrefix b).
Proof. unfold Di_ProcessVexPrefix, vex_two_byte, vex_three_byte. stable_program. Qed.
Lemma stable_evex : stable Di_ProcessEvexPrefix.
Proof. unfold Di_ProcessEvexPrefix, evex_apply. stable_program. Qed.

Lemma stable_ApplyPrefixes i : stable (ApplyPrefixes i : D T unit).
Proof.
  intros s Hs. unfold ApplyPrefixes, context. rewrite bind_gets.
  destruct (apply_prefixes (prefixes (pContext s)) 0 i (pContext s)) as [c'|] eqn:E; [|exact Hs].
  cbn. eapply apply_prefixes_modes; eauto.
Qed.
Lemma stable_Impl root : stable (Diana_ParseCmdImpl root : D T Z).
Proof. unfold Diana_ParseCmdImpl, Diana_InitStreamProxy. stable_program. Qed.
Lemma stable_prepare a b c d : stable (prepare_cache a b c d : D T unit).
Proof. unfold prepare_cache. stable_program. Qed.
#[local] Hint Resolve stable_vex stable_evex stable_ApplyPrefixes stable_Impl stable_prepare : stable.
Lemma stable_try_link a b c : stable (try_link a b c).
Proof. unfold try_link, link_found. stable_program. Qed.
#[local] Hint Resolve stable_try_link : stable.
Lemma stable_TryMatch root a b c d : stable (TryMatch root a b c d).
Proof.
  unfold TryMatch, undo_cache. stable_program.
  all: apply stable_set_context; intros c' Hc'; unfold restore; destruct Hc', H0; now constructor.
Qed.
Lemma stable_CheckEvex : stable (Di_CheckEvex : D T unit).
Proof. unfold Di_CheckEvex. stable_program. Qed.
#[local] Hint Resolve stable_TryMatch stable_CheckEvex : stable.
Lemma stable_virtual root p (m : D T unit) : stable m -> stable (parse_virtual root p m).
Proof. intros Hm. unfold parse_virtual. stable_program. Qed.

(** *** The entry points *)

Lemma stable_reset : stable (reset_state : D T unit).
Proof.
  unfold reset_state. stable_program. apply stable_set_context. intros c [Hm Ho].
  constructor; cbn; [exact Hm|unfold opsize; lia].
Qed.
Lemma stable_first_match root tries : forall a b c, stable (first_match root tries a b c).
Proof. induction tries; intros; cbn [first_match]; stable_program. Qed.
Lemma stable_rex_before data : stable (rex_before_prefix data).
Proof. unfold rex_before_prefix. stable_program. Qed.
#[local] Hint Resolve stable_reset stable_first_match stable_rex_before : stable.
Lemma stable_prefix_loop nop n : forall f g, stable (prefix_loop nop n f g).
Proof. induction n; intros; cbn [prefix_loop]; unfold set_nop; stable_program. Qed.
#[local] Hint Resolve stable_prefix_loop stable_virtual : stable.
Lemma stable_parse_opcode root a b : stable (parse_opcode root a b).
Proof. unfold parse_opcode, Di_ParseEvexCmd, parse_vex, parse_legacy. stable_program. Qed.
#[local] Hint Resolve stable_parse_opcode : stable.
Lemma stable_ParseCmdEx nop root : stable (Diana_ParseCmdEx nop root).
Proof. unfold Diana_ParseCmdEx, rex_before_vex, is_nop, set_nop. stable_program. Qed.
#[local] Hint Resolve stable_ParseCmdEx : stable.

Lemma Diana_ParseCmd_modes nop root : stable (Diana_ParseCmd nop root).
Proof. unfold Diana_ParseCmd, finish, copy_bytes, instruction_rules. stable_program. Qed.
End Programs.
