(* ===== verification/DecFarProofs.v ===== *)
(** In 64-bit mode no instruction has a far pointer: the commands with one are for the other modes,
    the walk does not match these, and no other kind of operand gives one. *)

From Stdlib Require Import ZArith Lia List Bool.
Import ListNotations.
From S2P Require Import Prelude Words Status Registers DecTypes DecStreams DecUtils DecPrefix DecAddress.
From S2P Require Import DecLink DecWalk DecParser DecCore DecWalkProofs.
Local Open Scope Z_scope.
Local Open Scope diana_scope.

(** ** The tables *)

Definition far_operand (o : DianaOperandInfo) : bool := is_type (m_type o) diana_orPtr.
Definition far_command (i : DianaCmdInfo) : bool := existsb far_operand (m_operands i).

(** What [ProcessCmdInfo] makes of 9A and EA: not for 64-bit mode. *)
Definition not_in_mode64 (i : DianaCmdInfo) : bool :=
  has_flag (m_flags i) DI_FLAG_CMD_I386 && negb (has_flag (m_flags i) DI_FLAG_CMD_AMD64).

Record far_not_in_mode64 (nop : DianaCmdInfo) (root : DianaBaseGenObject) : Prop := {
  fm_nop : far_command nop = false;
  fm_commands : all_commands (fun i => implb (far_command i) (not_in_mode64 i)) root = true
}.

Lemma not_in_mode64_unmatched c i : iMainMode_addressSize c = DIANA_MODE64 -> not_in_mode64 i = true ->
  TryMatchKey c i = false.
Proof.
  intros Hm Hi. unfold not_in_mode64, has_flag in Hi. apply andb_true_iff in Hi. destruct Hi as (H1 & H2).
  rewrite negb_involutive in H2. apply Z.eqb_eq in H2.
  unfold TryMatchKey, has_flag. rewrite Hm, Z.eqb_refl. destruct (_ && _); [reflexivity|].
  rewrite Z.land_lor_distr_r, H2, Z.lor_0_l.
  replace (Z.land (Z.land (m_flags i) DI_FLAG_CMD_I386) DI_FLAG_CMD_AMD64) with 0.
  - destruct (_ =? 0); [discriminate|]. cbn [negb Z.eqb andb]. now rewrite andb_false_r.
  - rewrite <- Z.land_assoc. now rewrite Z.land_0_r.
Qed.

(** ** The walk *)

Section Walk.
Variable c : DianaContext.
Variable P : DianaCmdInfo -> bool.

Definition stack_holds (states : list DianaParserContextState) : Prop :=
  Forall (fun st => all_commands P (pLine st) = true) states.

Definition found_holds (f : Found) : Prop :=
  stack_holds (f_states f) /\ forall i, f_result f = Some i -> P i = true /\ TryMatchKey c i = true.

Definition found_outcome (o : outcome Found) : Prop :=
  match o with Ok f => found_holds f | _ => True end.

Lemma found_none found states : stack_holds states -> found_holds (mkFound found None states).
Proof. intros Hs. split; [exact Hs|discriminate]. Qed.

Lemma push_holds st states : all_commands P (pLine st) = true -> stack_holds states ->
  match PushOpcode st states with Ok states' => stack_holds states' | _ => True end.
Proof.
  intros Hst Hs. unfold PushOpcode. destruct (_ <=? _); [exact Hs|]. destruct (_ =? _); [exact I|].
  now constructor.
Qed.

Lemma dispatch_holds k o ignore at_ : entry_holds (all_commands P) o = true ->
  match DispatchKey c k o ignore at_ with
  | NoKey => True
  | Command i => P i = true /\ TryMatchKey c i = true
  | Line st _ => all_commands P (pLine st) = true
  end.
Proof.
  destruct o as [[i|f keys|f keys]|]; cbn [DispatchKey entry_holds]; intros Ho; auto.
  - unfold command_matches. destruct (TryMatchKey c i) eqn:E; cbn [andb]; auto. destruct (_ && _); auto.
  - unfold dispatch_line. destruct (is_same_opcode f); [exact Ho|]. destruct ignore; [exact I|exact Ho].
  - unfold dispatch_line. destruct (is_same_opcode f); [exact Ho|]. destruct ignore; [exact I|exact Ho].
Qed.

Lemma scan_line_holds k ignore at_ st below : stack_holds (st :: below) -> forall keys pos,
  Forall (fun e => entry_holds (all_commands P) (snd e) = true) keys ->
  found_outcome (scan_line c k ignore at_ st below pos keys).
Proof.
  intros Hs. induction keys as [|[opcode o] keys IH]; intros pos Hk; cbn [scan_line].
  - apply found_none. inversion Hs. now constructor.
  - inversion Hk as [|? ? Ho Hk']; subst. cbn [snd] in Ho. destruct (negb _); [now apply IH|].
    pose proof (dispatch_holds k o ignore at_ Ho) as Hd.
    assert (Hp : stack_holds (at_position pos st :: below)) by (inversion Hs; now constructor).
    destruct (DispatchKey _ _ _ _ _) as [|i|new retry]; [now apply IH| |].
    + split; [exact Hp|]. now intros ? [= <-].
    + pose proof (push_holds new _ Hd Hp) as Hq. destruct (PushOpcode _ _); auto. now apply found_none.
Qed.

Lemma keys_hold f keys : all_commands P (LineObject f keys) = true ->
  Forall (fun e => entry_holds (all_commands P) (snd e) = true) keys.
Proof. cbn [all_commands]. intros Ha. now apply Forall_forall, forallb_forall. Qed.

Lemma find_in_line_holds k ignore at_ st below : stack_holds (st :: below) ->
  found_outcome (find_in_line c k ignore at_ st below).
Proof.
  intros Hs. unfold find_in_line. destruct (pLine st) as [i|f keys|f keys] eqn:E; try now apply found_none.
  assert (Hk : Forall (fun e => entry_holds (all_commands P) (snd e) = true) keys).
  { apply (keys_hold f). rewrite <- E. now inversion Hs. }
  destruct (_ <? _).
  - destruct (_ =? _); [exact I|]. now apply scan_line_holds.
  - apply scan_line_holds; [exact Hs|]. rewrite <- (firstn_skipn (Z.to_nat (position st)) keys) in Hk.
    now apply Forall_app in Hk.
Qed.

Lemma FindNextCmdKey_holds k ignore at_ states : stack_holds states ->
  found_outcome (FindNextCmdKey c k ignore at_ states).
Proof.
  intros Hs. unfold FindNextCmdKey. destruct states as [|st0 below]; [exact I|]. cbv zeta.
  set (st := at_position (position st0 + 1) st0).
  assert (Hs1 : stack_holds (st :: below)) by (inversion Hs; now constructor).
  destruct (pLine st) as [i|f keys|f keys] eqn:E; try now apply find_in_line_holds.
  destruct (_ <? _); [now apply found_none|]. destruct (nth_error keys _) as [o|] eqn:En; [|exact I].
  assert (Ho : entry_holds (all_commands P) o = true).
  { pose proof (Forall_inv Hs1) as Ha. cbv beta in Ha. rewrite E in Ha. cbn [all_commands] in Ha.
    rewrite forallb_forall in Ha. exact (Ha _ (nth_error_In _ _ En)). }
  assert (Hs2 : stack_holds (at_position (chOpcode k) st :: below)) by (inversion Hs1; now constructor).
  pose proof (dispatch_holds k o ignore at_ Ho) as Hd.
  destruct (DispatchKey _ _ _ _ _) as [|i|new retry]; [now apply found_none| |].
  - split; [exact Hs2|]. now intros ? [= <-].
  - pose proof (push_holds new _ Hd Hs2) as Hq. destruct (PushOpcode _ _) as [states| |]; auto.
    destruct retry; [|now apply found_none]. destruct states; [exact I|]. now apply find_in_line_holds.
Qed.

Lemma rollback_holds states : stack_holds states ->
  match FindNextCmdKey_Rollback states with Some (states', _) => stack_holds states' | None => True end.
Proof.
  intros Hs. destruct states as [|a [|b states]]; cbn; auto. now inversion Hs.
Qed.

Lemma walk_holds it_end fuel : forall it states i it', stack_holds states ->
  walk fuel c it_end it states = Some (Ok (i, it')) -> P i = true /\ TryMatchKey c i = true.
Proof.
  induction fuel as [|fuel IH]; intros it states i it' Hs; cbn [walk]; [discriminate|].
  unfold walk_step. cbv zeta. destruct (GetKeyByAddress _ _ _) as [k| |]; try discriminate.
  pose proof (FindNextCmdKey_holds k false it states Hs) as Hf.
  destruct (FindNextCmdKey _ _ _ _ _) as [f| |]; try discriminate. destruct Hf as (Hst & Hr).
  pose proof (rollback_holds (f_states f) Hst) as Hb.
  destruct (f_found f).
  - destruct (f_result f) as [info|]; [intros [= <- <-]; now apply Hr|].
    destruct (_ <? _); [now apply IH|].
    destruct (FindNextCmdKey_Rollback _) as [(states' & it2)|]; [now apply IH|discriminate].
  - destruct (FindNextCmdKey_Rollback _) as [(states' & it2)|]; [now apply IH|discriminate].
Qed.
End Walk.

(** ** Programs that leave the results without a far pointer *)

Definition near_operand (op : DianaLinkedOperand) : bool :=
  match value op with diana_call_ptr _ _ _ _ => false | _ => true end.
Definition near_result (r : DianaParserResult) : Prop :=
  (forall i, pInfo r = Some i -> far_command i = false) /\ forallb near_operand (linkedOperands r) = true.

Section Near.
Context {T : Type} `{DianaReadStream T}.

Record near (s : DecState T) : Prop := {
  nr_mode : iMainMode_addressSize (pContext s) = DIANA_MODE64;
  nr_result : near_result (pResult s)
}.

(** [m] keeps that, whatever it returns, and its value has [V]. *)
Definition tame {A} (V : A -> Prop) (m : D T A) : Prop := forall s, near s ->
  near (snd (m s)) /\ forall a, fst (m s) = Ok a -> V a.

Abbreviation near_kept := (tame (fun _ => True)).

Lemma tame_ret {A} (a : A) (V : A -> Prop) : V a -> tame V (ret a).
Proof. intros Ha s Hs. split; [exact Hs|]. now intros b [= <-]. Qed.
Lemma tame_fail {A} c (V : A -> Prop) : tame V (fail c : D T A).
Proof. intros s Hs. now split. Qed.
Lemma tame_crash {A} (V : A -> Prop) : tame V (crash : D T A).
Proof. intros s Hs. now split. Qed.
Lemma near_kept_gets {A} (f : DecState T -> A) : near_kept (gets f).
Proof. intros s Hs. now split. Qed.

Lemma tame_bind {A B} (V : A -> Prop) (W : B -> Prop) (m : D T A) (f : A -> D T B) :
  tame V m -> (forall a, V a -> tame W (f a)) -> tame W (bind m f).
Proof.
  intros Hm Hf s Hs. unfold bind. specialize (Hm s Hs). destruct (m s) as [[a|c|] s']; cbn in *;
    [|split; [apply Hm|discriminate]|split; [apply Hm|discriminate]].
  destruct Hm as (Hs' & Ha). now apply Hf; [apply Ha|].
Qed.

Lemma tame_calm {A} (V : A -> Prop) (m : D T A) : tame V m -> near_kept m.
Proof. intros Hm s Hs. split; [now apply Hm|auto]. Qed.

Lemma tame_read {A} (W : A -> Prop) (f : DianaContext -> D T A) :
  (forall c, iMainMode_addressSize c = DIANA_MODE64 -> tame W (f c)) -> tame W (bind (context (fun c => c)) f).
Proof. intros Hf s Hs. exact (Hf _ (nr_mode s Hs) s Hs). Qed.

Lemma tame_result {A B} (W : B -> Prop) (g : DianaParserResult -> A) (f : A -> D T B) :
  (forall r, near_result r -> tame W (f (g r))) -> tame W (bind (result g) f).
Proof. intros Hf s Hs. exact (Hf _ (nr_result s Hs) s Hs). Qed.

Lemma near_kept_context g : (forall c, iMainMode_addressSize (g c) = iMainMode_addressSize c) -> near_kept (set_context g).
Proof. intros Hg s [Hm Hr]. split; [constructor; cbn; [now rewrite Hg|exact Hr]|auto]. Qed.

Lemma near_kept_set_result g : (forall r, near_result r -> near_result (g r)) -> near_kept (set_result g).
Proof. intros Hg s [Hm Hr]. split; [constructor; cbn; auto|auto]. Qed.

Lemma near_kept_modify g : (forall s, pContext (g s) = pContext s /\ pResult (g s) = pResult s) -> near_kept (modify g).
Proof. intros Hg s [Hm Hr]. destruct (Hg s) as (E1 & E2). split; [constructor; cbn; rewrite ?E1, ?E2; auto|auto]. Qed.

Lemma near_kept_when b (m : D T unit) : near_kept m -> near_kept (when b m).
Proof. intros Hm. destruct b; [exact Hm|now apply tame_ret]. Qed.

Lemma near_kept_status_of (m : D T unit) : near_kept m -> near_kept (status_of m).
Proof. intros Hm s Hs. specialize (Hm s Hs). unfold status_of. destruct (m s) as [[a|c|] s']; split; auto; apply Hm. Qed.

Lemma near_kept_attempt {A} (m : D T A) : near_kept m -> near_kept (attempt m).
Proof. intros Hm s Hs. specialize (Hm s Hs). unfold attempt. destruct (m s) as [[a|c|] s']; split; auto; apply Hm. Qed.

Lemma tame_or_di_error {A} (V : A -> Prop) (m : D T A) : tame V m -> tame V (or_di_error m).
Proof.
  intros Hm s Hs. specialize (Hm s Hs). unfold or_di_error.
  destruct (m s) as [[a|c|] s']; split; try apply Hm; discriminate.
Qed.

Lemma tame_some {A} (V : A -> Prop) (o : option A) : (forall a, o = Some a -> V a) ->
  tame V (some_or_crash o : D T A).
Proof. destruct o; intros Ho; [now apply tame_ret, Ho|apply tame_crash]. Qed.

Lemma tame_outcome {A} (V : A -> Prop) (o : outcome A) : (forall a, o = Ok a -> V a) ->
  tame V (of_outcome o : D T A).
Proof. destruct o; intros Ho; [now apply tame_ret, Ho|apply tame_fail|apply tame_crash]. Qed.

Lemma near_kept_proxy n : near_kept (ProxyDianaReadFnc n).
Proof.
  intros s Hs. unfold ProxyDianaReadFnc. destruct (DianaRead _ _) as [[st bs] t].
  destruct (st =? DI_SUCCESS); [|split; [destruct Hs; now constructor|auto]].
  cbn. unfold DianaProxyReadStream_AddBytes.
  destruct (_ <=? _); (split; [destruct Hs; now constructor|auto]).
Qed.

(** *** The operands *)

Lemma near_nth r k op : near_result r -> table_get (linkedOperands r) k = Some op -> near_operand op = true.
Proof.
  intros (_ & Hf) E. unfold table_get in E. destruct (_ <? _); [discriminate|].
  rewrite forallb_forall in Hf. exact (Hf _ (nth_error_In _ _ E)).
Qed.

Lemma tame_linked_operand k : tame (fun op => near_operand op = true) (linked_operand k).
Proof.
  unfold linked_operand. apply tame_result. intros r Hr. apply tame_some. intros op E. exact (near_nth r k op Hr E).
Qed.

Lemma near_kept_set_operand k op : near_operand op = true -> near_kept (set_operand k op : D T unit).
Proof.
  intros Hop. unfold set_operand. apply tame_result. intros r Hr. destruct (_ && _); [|apply tame_crash].
  apply near_kept_set_result. intros r' (Hi & Hf). split; [exact Hi|]. cbn [with_linkedOperands linkedOperands].
  rewrite <- (firstn_skipn (Z.to_nat k) (linkedOperands r')), forallb_app in Hf.
  apply andb_true_iff in Hf. destruct Hf as (H1 & H2). rewrite forallb_app. cbn [forallb]. rewrite H1, Hop.
  cbn [andb]. replace (S (Z.to_nat k)) with (1 + Z.to_nat k)%nat by lia. rewrite <- skipn_skipn.
  destruct (skipn _ _) as [|x l] in H2 |- *; [reflexivity|]. cbn [forallb] in H2. cbn [skipn].
  now apply andb_true_iff in H2.
Qed.

(** A result with other members changed, or without a command. *)
Lemma near_same r r' : pInfo r' = pInfo r -> linkedOperands r' = linkedOperands r -> near_result r -> near_result r'.
Proof. intros E1 E2 (H1 & H2). split; rewrite ?E1, ?E2; assumption. Qed.

Lemma near_info o r : (forall i, o = Some i -> far_command i = false) -> near_result r ->
  near_result (with_pInfo (fun _ => o) r).
Proof. intros Ho (_ & H2). now split. Qed.
End Near.

Create HintDb near.
#[export] Hint Resolve tame_fail tame_crash near_kept_gets near_kept_proxy tame_linked_operand : near.
#[export] Hint Extern 1 (tame _ (ret _)) => (apply tame_ret; exact I) : near.

(** *** Changes of the context keep its mode *)

Lemma call_prefix_mode f c : iMainMode_addressSize (call_prefix f c) = iMainMode_addressSize c.
Proof.
  destruct f; cbn [call_prefix]; try reflexivity;
    unfold Diana_CS, Diana_SS, Diana_DS, Diana_ES, old_segment, Diana_OpSize, Diana_AddrSize, Diana_Rex;
    repeat match goal with |- context [if ?b then _ else _] => destruct b end; reflexivity.
Qed.

Lemma apply_prefixes_mode l : forall i x c c', apply_prefixes l i x c = Some c' ->
  iMainMode_addressSize c' = iMainMode_addressSize c.
Proof.
  induction l as [|p l IH]; intros i x c c'; cbn [apply_prefixes]; [now intros [= <-]|].
  destruct (i =? x); [apply IH|]. destruct (linkedPrefixFnc p) as [f|]; [|discriminate].
  intros E. now rewrite (IH _ _ _ _ E), call_prefix_mode.
Qed.

Lemma insert_prefix_mode p f r c : iMainMode_addressSize (insert_prefix p f r c) = iMainMode_addressSize c.
Proof.
  unfold insert_prefix. cbv zeta. destruct (find_prefix _ _ _); [destruct (_ && _)|]; now destruct r.
Qed.

(** One step of a program; what is left are the calls. *)
Ltac keeps_mode :=
  intros; cbv beta; rewrite ?insert_prefix_mode;
  repeat match goal with |- context [if ?b then _ else _] => destruct b end; reflexivity.

Ltac keeps_near :=
  let r := fresh "r" in let Hr := fresh "Hr" in intros r Hr; cbv beta;
  repeat first [ exact Hr | apply near_info; [try discriminate; now intros ? [= <-]|]
               | apply (near_same r); [reflexivity|reflexivity|exact Hr] ];
  first [ exact Hr | split; [discriminate|reflexivity]
        | eapply near_same; [| |exact Hr]; reflexivity ].

Lemma near_displacement v op : near_operand (set_displacement v op) = near_operand op.
Proof. unfold near_operand, set_displacement. destruct (value op) eqn:E; cbn; now rewrite ?E. Qed.

(** An operand whose value changed. *)
Ltac still_near :=
  rewrite ?near_displacement;
  unfold near_operand, set_value, set_used in *; cbn in *;
  repeat match goal with |- context [if ?b then _ else _] => destruct b end;
  first [assumption|reflexivity].

Ltac near_step :=
  match goal with
  | |- tame _ (bind (context (fun c => c)) _) => apply tame_read; intros
  | |- tame _ (bind (result _) _) => apply tame_result; intros
  | |- tame _ (bind (linked_operand _) _) => eapply tame_bind; [apply tame_linked_operand|intros]
  | |- tame _ (set_operand _ _) => apply near_kept_set_operand; solve [still_near]
  | |- tame _ (bind _ _) => apply (tame_bind (fun _ => True)); [|intros]
  | |- tame _ (context _) => apply near_kept_gets
  | |- tame _ (result _) => apply near_kept_gets
  | |- tame _ (set_context _) => apply near_kept_context; solve [keeps_mode]
  | |- tame _ (set_result _) => apply near_kept_set_result; solve [keeps_near]
  | |- tame _ (modify _) => apply near_kept_modify; now split
  | |- tame _ (when _ _) => apply near_kept_when
  | |- tame _ (status_of _) => apply near_kept_status_of
  | |- tame _ (attempt _) => apply near_kept_attempt
  | |- tame _ (or_di_error _) => apply tame_or_di_error
  | |- tame _ (ret _) => apply tame_ret; solve [exact I|reflexivity|assumption|auto with near]
  | |- tame (fun _ => True) (some_or_crash _) => apply tame_some; intros; exact I
  | |- tame (fun _ => True) (of_outcome _) => apply tame_outcome; intros; exact I
  | |- tame _ (if ?b then _ else _) => destruct b
  | |- tame _ (let '(_, _) := ?p in _) => destruct p
  | |- tame _ (match ?o with _ => _ end) => destruct o
  | |- tame _ _ => solve [auto with near]
  end.

Ltac near_program := cbv zeta; repeat (near_step; cbv beta zeta).

Section Programs.
Context {T : Type} `{DianaReadStream T}.
Variable Diana_GetNopInfo : DianaCmdInfo.
Variable root : DianaBaseGenObject.
Hypothesis tables : far_not_in_mode64 Diana_GetNopInfo root.

Abbreviation near_kept := (tame (T := T) (fun _ => True)).

Lemma near_kept_return_status c : near_kept (return_status c).
Proof. unfold return_status. near_program. Qed.
Lemma near_kept_or_error o : near_kept (or_error o).
Proof. unfold or_error. near_program. Qed.
Lemma near_kept_cache_byte i : near_kept (cache_byte i).
Proof. unfold cache_byte. near_program. Qed.
Lemma near_kept_cache_store i bs : near_kept (cache_store i bs).
Proof. unfold cache_store. near_program. Qed.
Hint Resolve near_kept_return_status near_kept_or_error near_kept_cache_byte near_kept_cache_store : near.
Lemma near_kept_cache_move a b n : near_kept (cache_move a b n).
Proof. unfold cache_move. near_program. Qed.
Lemma near_kept_read_into_cache a n : near_kept (read_into_cache a n).
Proof. unfold read_into_cache. near_program. Qed.
Lemma near_kept_stream_read n : near_kept (StreamProxy_Read n).
Proof. unfold StreamProxy_Read. near_program. Qed.
Hint Resolve near_kept_cache_move near_kept_read_into_cache near_kept_stream_read : near.
Lemma near_kept_read_value n sg : near_kept (DianaReadValueAsLong n sg).
Proof. unfold DianaReadValueAsLong. near_program. Qed.
Hint Resolve near_kept_read_value : near.

(** *** The kinds of operands *)

Definition near_value (v : DianaOperandValue) : Prop :=
  match v with diana_call_ptr _ _ _ _ => False | _ => True end.

Lemma tame_read32 i a b c : tame (fun x => near_value (fst x)) (Diana_ReadIndexStructure32 i a b c : D T _).
Proof. unfold Diana_ReadIndexStructure32, sib_base, sib_index. near_program. Qed.

Lemma tame_handler b i x y z : tame (fun r => near_value (fst r)) (DianaGetHandler b i x y z : D T _).
Proof.
  unfold DianaGetHandler. destruct b; [apply tame_read32|]. apply tame_read. intros c _. apply tame_outcome.
  intros r. unfold Diana_ReadIndexStructure16. cbv zeta. destruct (_ =? _).
  - destruct (Diana_DispatchMod3 _ _ _ _ _) as [[v| |] n]; try discriminate. now intros [= <-].
  - destruct (_ <? _); [discriminate|]. destruct (modrm_entry _ _ _) as [[[r1 r2] d]|]; [|discriminate].
    now intros [= <-].
Qed.

(** An operand that was linked. *)
Definition near_linked (x : LinkState * DianaLinkedOperand) : Prop := near_operand (snd x) = true.

Lemma tame_evex_memory e r : near_linked r -> tame near_linked (link_evex_memory e r : D T _).
Proof.
  destruct r as [ls op]. intros Hr. unfold link_evex_memory. apply (tame_bind (fun _ => True)); [apply near_kept_gets|].
  intros p _. destruct (_ =? _); [now apply tame_ret|]. cbv zeta.
  apply (tame_bind (fun op => near_operand op = true)).
  - destruct (_ && _); [|now apply tame_ret]. apply (tame_bind (fun _ => True)).
    + apply near_kept_set_result. keeps_near.
    + intros _ _. now apply tame_ret.
  - intros op1 H1. now apply tame_ret.
Qed.

Lemma tame_regmem e k info a b r : tame near_linked (link_regmem e k info a b r : D T _).
Proof.
  destruct r as [ls op]. unfold link_regmem. cbv zeta. destruct (_ && _); [apply tame_fail|].
  eapply tame_bind; [apply tame_or_di_error, tame_handler|]. intros [v used] Hv. cbn [fst] in Hv.
  destruct v; try (destruct (_ || _); [apply tame_fail|now apply tame_ret]).
  apply tame_read. intros c _. now apply tame_evex_memory.
Qed.

Lemma tame_memory e k info a b r : tame near_linked (link_memory e k info a b r : D T _).
Proof.
  destruct r as [ls op]. unfold link_memory. cbv zeta. destruct (_ =? _); [now apply tame_ret|].
  eapply tame_bind; [apply tame_or_di_error, tame_handler|]. intros [v used] Hv.
  destruct v; try apply tame_fail. apply tame_read. intros c _. now apply tame_ret.
Qed.
Hint Resolve tame_regmem tame_memory : near.

Lemma tame_link_kind e i k info a b sg r : far_operand info = false ->
  tame near_linked (link_kind e i k info a b sg r).
Proof.
  intros Hf. destruct r as [ls op]. unfold link_kind. unfold far_operand in Hf.
  destruct (DecTypes.m_type info); try discriminate Hf; try (now apply tame_regmem); try (now apply tame_memory);
    unfold link_registry, link_immediate, link_eax, link_ecx, link_sreg, link_offset, link_special,
      link_rel, link_string, link_is4, link_vector_register, register_code; near_program.
Qed.

Lemma near_kept_link_operand e i info ls : far_operand info = false -> near_kept (link_operand e i info ls).
Proof.
  intros Hf. unfold link_operand. apply tame_read. intros c _. apply tame_result. intros r Hr. cbv zeta.
  eapply tame_bind; [now apply tame_link_kind|]. intros [ls' op] Hop.
  apply (tame_bind (fun _ => True)); [now apply near_kept_set_operand|]. intros _ _.
  apply (tame_bind (fun _ => True)); [apply near_kept_set_result; keeps_near|]. intros _ _. now apply tame_ret.
Qed.

Lemma near_kept_link_operands e infos : existsb far_operand infos = false ->
  forall i ls, near_kept (link_operands e i infos ls).
Proof.
  induction infos as [|info infos IH]; intros Hf i ls; cbn [link_operands]; [now apply tame_ret|].
  cbn [existsb] in Hf. apply orb_false_iff in Hf. destruct Hf as (H1 & H2).
  apply (tame_bind (fun _ => True)); [now apply near_kept_link_operand|]. intros ls' _. now apply IH.
Qed.

Lemma near_kept_displacement ls o : near_kept (link_displacement ls o).
Proof. unfold link_displacement. near_program. Qed.
Lemma near_kept_immediates info ops : forall imms o r, near_kept (link_immediates info ops imms o r).
Proof. induction ops as [|k ops IH]; intros [|n imms] o r; cbn [link_immediates]; near_program. Qed.
Lemma near_kept_is4 k : near_kept (link_is4_register k).
Proof. unfold link_is4_register. near_program. Qed.
Lemma near_kept_read_opcode info f : near_kept (read_opcode info f).
Proof. unfold read_opcode. near_program. Qed.
Lemma near_kept_opsize info : near_kept (command_opsize info).
Proof. unfold command_opsize. near_program. Qed.
Hint Resolve near_kept_displacement near_kept_immediates near_kept_is4 near_kept_read_opcode near_kept_opsize : near.
Lemma near_kept_LinkOperands : near_kept Diana_LinkOperands.
Proof.
  unfold Diana_LinkOperands, ignore_rex. apply tame_result. intros r (Hi & _).
  apply (tame_bind (fun i => far_command i = false)); [apply tame_some; exact Hi|]. intros info Hf.
  near_program. now apply near_kept_link_operands.
Qed.
Hint Resolve near_kept_LinkOperands : near.

(** *** Prefixes and tries *)

Lemma near_kept_CacheEatOne : near_kept (Diana_CacheEatOne).
Proof. unfold Diana_CacheEatOne. near_program. Qed.
Lemma near_kept_ReadCache b : near_kept (Diana_ReadCache b).
Proof. unfold Diana_ReadCache. near_program. Qed.
Lemma near_kept_put a b c d : near_kept (put_virtual_prefix a b c d).
Proof. unfold put_virtual_prefix. near_program. Qed.
Lemma near_kept_top_up : near_kept top_up.
Proof. unfold top_up. near_program. Qed.
Lemma near_kept_rex v : near_kept (Di_ProcessRexPrefix v).
Proof. unfold Di_ProcessRexPrefix. near_program. Qed.
Lemma near_kept_insert p f r : near_kept (Diana_InsertPrefix p f r).
Proof. unfold Diana_InsertPrefix. near_program. Qed.
Lemma near_kept_vex_fill n : forall a b, near_kept (vex_fill n a b).
Proof. induction n; intros; cbn [vex_fill]; near_program. Qed.
Lemma near_kept_evex_fill n : forall a b, near_kept (evex_fill n a b).
Proof. induction n; intros; cbn [evex_fill]; near_program. Qed.
Hint Resolve near_kept_CacheEatOne near_kept_ReadCache near_kept_put near_kept_top_up near_kept_rex near_kept_insert near_kept_vex_fill
  near_kept_evex_fill : near.
Lemma near_kept_vex b : near_kept (Di_ProcessVexPrefix b).
Proof. unfold Di_ProcessVexPrefix, vex_two_byte, vex_three_byte. near_program. Qed.
Lemma near_kept_evex : near_kept Di_ProcessEvexPrefix.
Proof. unfold Di_ProcessEvexPrefix, evex_apply. near_program. Qed.

Lemma near_kept_ApplyPrefixes i : near_kept (ApplyPrefixes i).
Proof.
  unfold ApplyPrefixes. apply tame_read. intros c Hc.
  destruct (apply_prefixes (prefixes c) 0 i c) as [c'|] eqn:E; [|apply tame_crash].
  intros s [Hm Hr]. split; [constructor; cbn; [|exact Hr]|auto]. now rewrite (apply_prefixes_mode _ _ _ _ _ E).
Qed.

(** A command that the walk finds is for 64-bit mode. *)
Lemma near_kept_Impl : near_kept (Diana_ParseCmdImpl root).
Proof.
  unfold Diana_ParseCmdImpl, Diana_InitStreamProxy. apply tame_read. intros c Hc. cbv zeta.
  destruct (_ =? _); [apply tame_fail|].
  destruct (walk _ _ _ _ _) as [[[info it']|code|]|] eqn:E; try apply tame_fail; try apply tame_crash.
  assert (Hf : far_command info = false).
  { eapply (walk_holds c (fun i => implb (far_command i) (not_in_mode64 i))) in E.
    2:{ constructor; [exact (fm_commands _ _ tables)|constructor]. }
    destruct E as (Hp & Ht). destruct (far_command info); [|reflexivity].
    now rewrite (not_in_mode64_unmatched c info Hc Hp) in Ht. }
  near_step; [near_program|]. near_step; [|now apply tame_ret].
  apply near_kept_set_result. intros r Hr. apply near_info; [now intros ? [= <-]|exact Hr].
Qed.

Lemma near_kept_prepare a b c d : near_kept (prepare_cache a b c d).
Proof. unfold prepare_cache. near_program. Qed.
Hint Resolve near_kept_vex near_kept_evex near_kept_ApplyPrefixes near_kept_Impl near_kept_prepare : near.
Lemma near_kept_try_link a b c : near_kept (try_link a b c).
Proof. unfold try_link, link_found. near_program. Qed.
Hint Resolve near_kept_try_link : near.
Lemma near_kept_TryMatch a b c d : near_kept (TryMatch root a b c d).
Proof. unfold TryMatch, undo_cache, restore. near_program. Qed.
Lemma near_kept_CheckEvex : near_kept (Di_CheckEvex).
Proof. unfold Di_CheckEvex. near_program. Qed.
Hint Resolve near_kept_TryMatch near_kept_CheckEvex : near.
Lemma near_kept_virtual p (m : D T unit) : near_kept m -> near_kept (parse_virtual root p m).
Proof. intros Hm. unfold parse_virtual. near_program. Qed.

(** *** The entry points *)

Lemma near_kept_reset : near_kept (reset_state).
Proof. unfold reset_state. near_program. Qed.
Lemma near_kept_first_match tries : forall a b c, near_kept (first_match root tries a b c).
Proof. induction tries; intros; cbn [first_match]; near_program. Qed.
Lemma near_kept_rex_before data : near_kept (rex_before_prefix data).
Proof. unfold rex_before_prefix. near_program. Qed.
Lemma near_kept_set_nop : near_kept (set_nop Diana_GetNopInfo).
Proof.
  unfold set_nop. apply near_kept_set_result. intros r Hr. apply near_info.
  - intros i [= <-]. exact (fm_nop _ _ tables).
  - exact Hr.
Qed.
Hint Resolve near_kept_reset near_kept_first_match near_kept_rex_before near_kept_set_nop : near.
Lemma prefix_near data i : snd (Di_ProcessCustomPrefix data) = Some i -> far_command i = false.
Proof.
  unfold Di_ProcessCustomPrefix.
  repeat match goal with |- context [if ?b then _ else _] => destruct b end; cbn [snd];
    first [discriminate|now intros [= <-]].
Qed.
Lemma near_kept_prefix_loop n : forall f g, near_kept (prefix_loop Diana_GetNopInfo n f g).
Proof.
  induction n as [|n IH]; intros f g; cbn [prefix_loop]; [apply tame_fail|].
  near_step; [near_program|]. near_step; [near_program|]. destruct (_ && _); [near_program|].
  destruct (Di_ProcessCustomPrefix _) as [[flags found] info] eqn:E. cbv zeta.
  destruct info as [i|]; [|near_program].
  near_step; [|near_program]. apply near_kept_set_result. intros r Hr. apply near_info; [|exact Hr].
  intros j [= <-]. apply (prefix_near a0). now rewrite E.
Qed.
Hint Resolve near_kept_prefix_loop near_kept_virtual : near.
Lemma near_kept_parse_opcode a b : near_kept (parse_opcode root a b).
Proof. unfold parse_opcode, Di_ParseEvexCmd, parse_vex, parse_legacy. near_program. Qed.
Hint Resolve near_kept_parse_opcode : near.
Lemma near_kept_ParseCmdEx : near_kept (Diana_ParseCmdEx Diana_GetNopInfo root).
Proof. unfold Diana_ParseCmdEx, rex_before_vex, is_nop. near_program. Qed.
Hint Resolve near_kept_ParseCmdEx : near.

Lemma near_cmpxchg16b r : near_result r -> near_result (fix_cmpxchg16b r).
Proof.
  intros Hr. unfold fix_cmpxchg16b. destruct (command_of r); [|exact Hr]. destruct (_ && _); [|exact Hr].
  destruct Hr as (Hi & Hf). split; [exact Hi|]. cbn [with_linkedOperands linkedOperands].
  destruct (linkedOperands r) as [|op l]; [reflexivity|]. exact Hf.
Qed.

Lemma Diana_ParseCmd_near : near_kept (Diana_ParseCmd Diana_GetNopInfo root).
Proof.
  unfold Diana_ParseCmd, finish, copy_bytes, instruction_rules. near_program.
  apply near_kept_set_result, near_cmpxchg16b.
Qed.
End Programs.
