(* ===== verification/DecProperties.v ===== *)
(** The properties of the decoder, and what they give on the sample of its tables; what a failed VEX
    instruction leaves in the cache. *)

From Stdlib Require Import ZArith Lia List Bool.
Import ListNotations.
From S2P Require Import Prelude Words Status Registers DecTypes DecStreams DecUtils DecPrefix DecAddress.
From S2P Require Import DecLink DecWalk DecParser DecCore MemStreams DecHoare DecLinkProofs.
From S2P Require Import DecCacheProofs DecWalkProofs DecTryProofs DecPrefixProofs.
From S2P Require Import DecDecodeProofs DecCommandProofs DecBufferProofs.
From S2P Require Import DecSample.
Local Open Scope Z_scope.
Local Open Scope diana_scope.

(** C1: the decoder is safe.  On any stream, [Diana_ParseCmd] called with a context that is ready
    (seven bytes of cache, the unread ones after the two kept free) never reads or writes outside of
    the cache, the line stack, the operands or the bytes of the result and always ends.  When it
    succeeds the instruction has at most 15 bytes, and its bytes in the result are the next ones of
    the input; when it fails the context is ready again after [Diana_ClearCache]. *)
Theorem decoder_is_safe (T : Type) (reads : DianaReadStream T) (laws : DianaReadStreamOk T)
    (Diana_GetNopInfo : DianaCmdInfo) (root : DianaBaseGenObject)
    (c : DianaContext) (r : DianaParserResult) (t : T) :
  tables_ok root -> ready c -> stream_ok t -> length (bytes r) = 16%nat ->
  match Diana_ParseCmd Diana_GetNopInfo root (start c r t) with
  | (Ok _, s) => command_read c t s
  | (Err code, s) => code <> DI_SUCCESS /\ ready (Diana_ClearCache (pContext s))
  | (Crash, _) => False
  end.
Proof.
  intros Ht Hc Hs Hb. pose proof (Diana_ParseCmd_ok Diana_GetNopInfo root Ht c r t Hc Hs Hb) as H.
  unfold call in H. destruct (Diana_ParseCmd _ _ _) as [[u|code|] s]; [|destruct H as (Hn & H)|exact H].
  - eapply command_done_read; exact H.
  - split; [apply negb_true_iff, Z.eqb_neq in Hn; exact Hn|now apply clear_ready].
Qed.

(** C2: decoding cuts the input into instructions.  After a success the context is ready for the
    next call, the input is what was taken (at least one byte), then the unread bytes in the cache,
    then the rest of the stream; without a legacy prefix nothing is lost: what was taken is exactly
    the bytes of the instruction. *)
Theorem decoder_cuts_input (T : Type) (reads : DianaReadStream T) (laws : DianaReadStreamOk T)
    (Diana_GetNopInfo : DianaCmdInfo) (root : DianaBaseGenObject)
    (c : DianaContext) (r : DianaParserResult) (t : T) (s : DecState T) :
  tables_ok root -> prefixes_lead_on root -> ready c -> stream_ok t -> length (bytes r) = 16%nat ->
  Diana_ParseCmd Diana_GetNopInfo root (start c r t) = (Ok tt, s) ->
  ready (pContext s) /\ stream_ok (readStream s) /\ length (bytes (pResult s)) = 16%nat /\
  1 <= iFullCmdSize (pResult s) /\ stream_split c t s /\
  (lastPrefixBeforeRex (pContext s) = DI_FULL_CHAR_NULL ->
   unread c ++ content t =
   firstn (Z.to_nat (iFullCmdSize (pResult s))) (bytes (pResult s)) ++
   unread (pContext s) ++ content (readStream s)).
Proof.
  intros Ht Hl Hc Hs Hb E. pose proof (Diana_ParseCmd_ok Diana_GetNopInfo root Ht c r t Hc Hs Hb) as H.
  unfold call in H. rewrite E in H. pose proof (command_done_read _ _ _ _ _ H) as [_ _ Rb Rl].
  destruct (command_done_split _ _ _ _ _ Hl H) as (Hr & Hsp).
  destruct H as ([[_ _ _ (L & Hio & _)] _ _ _ _ _] & _).
  split; [exact Hr|]. split; [apply Hio|]. split; [exact Rl|].
  pose proof Hsp as (taken & gap & Es & En & H1 & Hgap). split; [lia|]. split; [exact Hsp|].
  intros Hnull. specialize (Hgap Hnull). subst gap. cbn [length app] in *. rewrite Rb, Es.
  rewrite firstn_app, firstn_all2 by lia. replace (_ - _)%nat with O by lia. now rewrite firstn_O, app_nil_r.
Qed.

(** C5: [Diana_ParseCmdOnBuffer].  On a buffer of bytes it never crashes and reads nothing behind
    [size]; on success the number of bytes it reports is the size of the instruction, at most 15
    and at most [size], and the bytes of the result are the first ones of the buffer. *)
Theorem parse_on_buffer_spec (Diana_GetNopInfo : DianaCmdInfo) (root : DianaBaseGenObject)
    (iMode : Z) (buf : list Z) (size : Z) (r : DianaParserResult) :
  tables_ok root -> Forall byte_ok buf -> 0 <= size <= Z.of_nat (length buf) -> size < 2 ^ 31 ->
  length (bytes r) = 16%nat ->
  match Diana_ParseCmdOnBuffer Diana_GetNopInfo root iMode buf size r with
  | (Ok _, r', sizeRead) =>
      0 <= iFullCmdSize r' <= DI_MAX_INSTRUCTION_SIZE /\ sizeRead = iFullCmdSize r' /\
      iFullCmdSize r' <= size /\ bytesCount r' = iFullCmdSize r' /\
      firstn (Z.to_nat (iFullCmdSize r')) (bytes r') = firstn (Z.to_nat (iFullCmdSize r')) buf
  | (Err code, _, _) => code <> DI_SUCCESS
  | (Crash, _, _) => False
  end.
Proof.
  intros Ht Hb Hs Hi Hr. unfold Diana_ParseCmdOnBuffer, Diana_ParseCmdOnBufferEx.
  destruct (init_ready iMode DIANA_ARCH_X86) as (Hc & E0).
  pose proof (parse_on_ok buf size Diana_GetNopInfo root Ht Hb Hs Hi _ r Hc E0 Hr) as H.
  destruct (parse_on _ _ _ _ _ _) as [[[u|code|] r'] n]; [exact H| |exact H].
  now apply negb_true_iff, Z.eqb_neq in H.
Qed.

(** C6: the walk through the opcode tables is a search.  The loop of [Diana_ParseCmdImpl] with its
    stack of lines, positions and rollbacks ends, stays on the stack, and finds what the recursive
    depth-first [search] finds: the first command in table order that matches the bytes, with the
    place of its opcode; without one it fails with DI_ERROR and leaves everything as it was. *)
Theorem table_walk_is_search (T : Type) (reads : DianaReadStream T) (root : DianaBaseGenObject)
    (s : DecState T) :
  table_ok root = true -> is_line root = true -> (height root <= 8)%nat ->
  cache_ok (pContext s) -> 0 <= cacheIt (pContext s) -> 0 < cacheSize (pContext s) ->
  cacheIt (pContext s) + cacheSize (pContext s) <= DI_CACHE_SIZE ->
  Diana_ParseCmdImpl root s =
  match search (pContext s) (cacheIt (pContext s) + cacheSize (pContext s)) root (cacheIt (pContext s)) with
  | Some (info, newIt) => (Ok newIt, walked info newIt s)
  | None => (Err DI_ERROR, s)
  end.
Proof.
  intros Ht Hl Hh (Hlen & Hb) Hi Hs He. unfold Diana_ParseCmdImpl, context. rewrite bind_gets.
  destruct (Z.eqb_spec (cacheSize (pContext s)) 0); [lia|].
  rewrite (walk_is_search_at (pContext s) _ Hb); try assumption; try lia.
  destruct (search _ _ _ _) as [[info newIt]|]; reflexivity.
Qed.

Lemma sample_tables_ok : tables_ok sample_root.
Proof. constructor; [vm_compute; reflexivity..|apply Nat.leb_le; vm_compute; reflexivity|vm_compute; reflexivity]. Qed.

Lemma sample_leads_on : prefixes_lead_on sample_root.
Proof. constructor; vm_compute; reflexivity. Qed.

(** [mov eax, ecx], [push rax], [rep movsb] *)
Definition sample_code : list Z := [0x89; 0xC8; 0x50; 0xF3; 0xA4].

Definition sample_stream : DianaMemoryStream := Diana_InitMemoryStream sample_code 5.
Definition sample_context : DianaContext := Diana_InitContext DIANA_MODE64.

Lemma sample_code_ok : Forall byte_ok sample_code.
Proof. repeat constructor; discriminate. Qed.

Lemma sample_stream_ok : memory_ok sample_code 5 sample_stream.
Proof.
  apply init_memory_ok; [exact sample_code_ok|cbn; lia|lia].
Qed.

Lemma sample_context_ready : ready sample_context.
Proof. apply (init_ready DIANA_MODE64 DIANA_ARCH_X86). Qed.

Abbreviation sample_run :=
  (Diana_ParseCmd cmd_nop sample_root (start sample_context zero_result sample_stream)).

Lemma sample_run_ok : fst sample_run = Ok tt.
Proof. vm_compute. reflexivity. Qed.

Lemma decoder_is_safe_witness :
  exists s, sample_run = (Ok tt, s) /\
    @command_read _ _ (memory_read_ok sample_code 5) sample_context sample_stream s.
Proof.
  pose proof (decoder_is_safe _ _ (memory_read_ok sample_code 5) cmd_nop sample_root sample_context
                zero_result sample_stream sample_tables_ok sample_context_ready sample_stream_ok eq_refl) as H.
  pose proof sample_run_ok as E.
  destruct (Diana_ParseCmd _ _ _) as [[[]|code|] s]; try discriminate E.
  exists s. split; [reflexivity|exact H].
Defined.

Lemma decoder_cuts_input_witness :
  exists s, sample_run = (Ok tt, s) /\
    sample_code = firstn (Z.to_nat (iFullCmdSize (pResult s))) (bytes (pResult s)) ++
                  unread (pContext s) ++ memory_content (readStream s).
Proof.
  pose proof sample_run_ok as E.
  assert (En : lastPrefixBeforeRex (pContext (snd sample_run)) = DI_FULL_CHAR_NULL) by (vm_compute; reflexivity).
  destruct (Diana_ParseCmd _ _ _) as [[[]|code|] s] eqn:Es; try discriminate E. exists s. split; [reflexivity|].
  pose proof (decoder_cuts_input _ _ (memory_read_ok sample_code 5) cmd_nop sample_root sample_context
                zero_result sample_stream s sample_tables_ok sample_leads_on sample_context_ready
                sample_stream_ok eq_refl Es) as (_ & _ & _ & _ & _ & H).
  exact (H En).
Defined.

Lemma parse_on_buffer_spec_witness :
  snd (Diana_ParseCmdOnBuffer cmd_nop sample_root DIANA_MODE64 sample_code 5 zero_result) <= 5 /\
  match fst (fst (Diana_ParseCmdOnBuffer cmd_nop sample_root DIANA_MODE64 sample_code 5 zero_result)) with
  | Ok _ => True | _ => False
  end.
Proof.
  pose proof (parse_on_buffer_spec cmd_nop sample_root DIANA_MODE64 sample_code 5 zero_result
                sample_tables_ok sample_code_ok ltac:(cbn; lia) ltac:(lia) eq_refl) as H.
  assert (E : fst (fst (Diana_ParseCmdOnBuffer cmd_nop sample_root DIANA_MODE64 sample_code 5 zero_result)) = Ok tt)
    by (vm_compute; reflexivity).
  destruct (Diana_ParseCmdOnBuffer _ _ _ _ _ _) as [[o r'] n]. cbn [fst snd] in *. rewrite E in *.
  destruct H as (_ & En & Hs & _). split; [lia|exact I].
Defined.

(** After the first bytes are in the cache. *)
Definition sample_cached : DecState DianaMemoryStream :=
  start (with_cacheSize (fun _ => 5) (with_cache (fun _ => [0; 0] ++ sample_code) sample_context))
    zero_result sample_stream.

Lemma table_walk_is_search_witness :
  exists newIt s, Diana_ParseCmdImpl sample_root sample_cached = (Ok newIt, s) /\ newIt = 2.
Proof.
  destruct sample_tables_ok as [T1 T2 T3 _].
  rewrite (table_walk_is_search _ _ sample_root sample_cached T1 T2 T3);
    [|split; [reflexivity|repeat constructor; discriminate]|discriminate|reflexivity|discriminate].
  assert (E : option_map snd (search (pContext sample_cached)
                (cacheIt (pContext sample_cached) + cacheSize (pContext sample_cached)) sample_root
                (cacheIt (pContext sample_cached))) = Some 2) by (vm_compute; reflexivity).
  destruct (search _ _ _ _) as [[info newIt]|]; [|discriminate]. injection E as ->.
  exists 2. eexists. split; reflexivity.
Defined.

(** ** Decoding on after an error

    [C5 F8 0B] is no instruction.  The failed call leaves the virtual prefix and five bytes in the
    cache, from its first byte on, so that the context is not ready; a second call without
    [Diana_ClearCache] takes the virtual prefix for bytes of the stream and moves six bytes to the
    third of the seven. *)

Definition bad_vex : DianaMemoryStream :=
  Diana_InitMemoryStream [0xC5; 0xF8; 0x0B; 1; 2; 3; 4; 5; 6; 7; 8; 9] 12.

Abbreviation after_bad_vex :=
  (Diana_ParseCmd cmd_nop sample_root (start sample_context zero_result bad_vex)).

Example failed_vex_then_overflow :
  fst after_bad_vex = Err DI_ERROR /\
  cacheIt (pContext (snd after_bad_vex)) = 0 /\ cacheSize (pContext (snd after_bad_vex)) = 7 /\
  fst (Diana_ParseCmd cmd_nop sample_root
         (start (pContext (snd after_bad_vex)) zero_result (readStream (snd after_bad_vex)))) = Crash.
Proof. vm_compute. auto. Qed.
