(* ===== verification/Fetch.v ===== *)
(** The decoder's stream of the processor, [ProcessorReadStream] of diana_processor_core.c, keeps
    the laws of the decoder's interface: what is still to come is the mapped memory from
    [m_tempRIP] on, in the code segment. *)

From Stdlib Require Import ZArith Lia List Bool.
Import ListNotations.
From S2P Require Import Prelude Words Status Registers ProcStreams Processor CmdInternal CmdString.
From S2P Require Import ProcessorInit State Execution.
From S2P Require DecStreams.
Local Open Scope Z_scope.
Local Open Scope diana_scope.

(** ** What reading code asks of a memory *)

(** A successful read gives the cells, in order and without a hole; nothing is mapped at the last
    address, so that the bytes that follow one another end. *)
Class CodeStreamOk (T : Type) `{RandomStreamOk T} := {
  read_same : forall t sel off n seg, stream_wf t -> snd (pReadFnc t sel off n seg) = t;
  read_cells : forall t sel off n seg bs t', stream_wf t ->
    pReadFnc t sel off n seg = (DI_SUCCESS, bs, t') ->
    forall i, (i < length bs)%nat -> cell t (linear t sel off + Z.of_nat i) = Some (nth i bs 0);
  no_last_cell : forall t, stream_wf t -> cell t (2 ^ 64 - 1) = None
}.

Lemma memory_read_same t sel off n seg : snd (MemoryRandomStream_Read t sel off n seg) = t.
Proof.
  unfold MemoryRandomStream_Read, MemoryRandomStream_ReadWrite. now destruct (_ <? _).
Qed.

Lemma memory_read_cells t sel off n seg bs t' : memory_stream_wf t ->
  MemoryRandomStream_Read t sel off n seg = (DI_SUCCESS, bs, t') ->
  forall i, (i < length bs)%nat ->
  memory_cell t (memory_linear t sel off + Z.of_nat i) = Some (nth i bs 0).
Proof.
  intros W E i Hi. pose proof (memory_linear_range t sel off) as R. apply memory_cell_some.
  unfold MemoryRandomStream_Read, MemoryRandomStream_ReadWrite in E. fold (memory_linear t sel off) in E.
  destruct (Z.ltb_spec (bufferSize t) (memory_linear t sel off)); [discriminate|].
  cbn zeta iota in E. injection E as <- _. set (k := if _ <? _ then _ else _) in *.
  assert (Hk : k <= bufferSize t - memory_linear t sel off)
    by (unfold k; destruct (Z.ltb_spec n (bufferSize t - memory_linear t sel off)); lia).
  destruct W as (HB & _ & _).
  assert (Lk : Z.of_nat (length (buf_bytes (pBuffer t) (memory_linear t sel off) k)) <= Z.max 0 k)
    by (unfold buf_bytes; rewrite length_firstn; lia).
  split; [lia|]. rewrite buf_bytes_nth by lia. f_equal. lia.
Qed.

Lemma memory_no_last_cell t : memory_stream_wf t -> memory_cell t (2 ^ 64 - 1) = None.
Proof.
  intros (_ & HL & _). unfold memory_cell.
  destruct (Z.ltb_spec (2 ^ 64 - 1) (bufferSize t)); [lia|]. now rewrite andb_false_r.
Qed.

#[export] Instance DianaRandomMemoryStream_code : CodeStreamOk DianaRandomMemoryStream := {
  read_same := fun t sel off n seg _ => memory_read_same t sel off n seg;
  read_cells := memory_read_cells;
  no_last_cell := memory_no_last_cell
}.

Section Code.
Context {T : Type} `{CodeStreamOk T}.
Implicit Types (t : T) (p : DianaProcessor T).

(** ** The mapped bytes from a position on *)

Fixpoint run_of (fuel : nat) t (pos : Z) : list Z :=
  match fuel with
  | O => []
  | S fuel => match cell t pos with Some b => b :: run_of fuel t (pos + 1) | None => [] end
  end.

(** All of them: the last address is not mapped. *)
Definition mapped_from t (pos : Z) : list Z := run_of (Z.to_nat (2 ^ 64 - pos)) t pos.

Lemma mapped_from_eq t pos : stream_wf t -> 0 <= pos ->
  mapped_from t pos = match cell t pos with Some b => b :: mapped_from t (pos + 1) | None => [] end.
Proof.
  intros W Hp. unfold mapped_from. destruct (Z_lt_le_dec pos (2 ^ 64)) as [L|L].
  - replace (Z.to_nat (2 ^ 64 - pos)) with (S (Z.to_nat (2 ^ 64 - (pos + 1)))) by lia. reflexivity.
  - replace (Z.to_nat (2 ^ 64 - pos)) with O by lia. cbn [run_of].
    destruct (cell t pos) eqn:E; [|reflexivity].
    pose proof (cell_word t pos W ltac:(congruence)). lia.
Qed.

Lemma mapped_from_ok t : stream_wf t -> forall pos, Forall byte_ok (mapped_from t pos).
Proof.
  intros W pos. unfold mapped_from. generalize (Z.to_nat (2 ^ 64 - pos)). intros n. revert pos.
  induction n; intros pos; cbn [run_of]; [constructor|].
  destruct (cell t pos) eqn:E; [|constructor]. constructor; [now apply (cell_byte t pos)|apply IHn].
Qed.

(** A run of cells is the beginning of the mapped bytes. *)
Lemma mapped_from_app t bs : stream_wf t -> forall pos, 0 <= pos ->
  (forall i, (i < length bs)%nat -> cell t (pos + Z.of_nat i) = Some (nth i bs 0)) ->
  mapped_from t pos = bs ++ mapped_from t (pos + Z.of_nat (length bs)).
Proof.
  intros W. induction bs as [|b bs IH]; intros pos Hp Hc; cbn [length app].
  - now rewrite Z.add_0_r.
  - rewrite mapped_from_eq by assumption. pose proof (Hc O ltac:(cbn; lia)) as E.
    rewrite Z.add_0_r in E. rewrite E. cbn [nth]. f_equal. rewrite (IH (pos + 1)).
    + do 2 f_equal. lia.
    + lia.
    + intros i Hi. specialize (Hc (S i) ltac:(cbn; lia)). cbn [nth] in Hc. rewrite <- Hc. f_equal. lia.
Qed.

Lemma mapped_from_cell t : stream_wf t -> forall i pos, 0 <= pos -> (i < length (mapped_from t pos))%nat ->
  cell t (pos + Z.of_nat i) = Some (nth i (mapped_from t pos) 0).
Proof.
  intros W. induction i as [|i IH]; intros pos Hp Hi; rewrite mapped_from_eq in Hi |- * by assumption;
    destruct (cell t pos) as [b|] eqn:E; cbn [length] in Hi; try lia.
  - now rewrite Z.add_0_r.
  - cbn [nth]. rewrite <- IH by lia. f_equal. lia.
Qed.

(** ** Addresses *)

Lemma linear_idem t sel off : u64 (linear t sel off) = linear t sel off.
Proof. pose proof (linear_add t sel off 0) as E. rewrite !Z.add_0_r in E. now rewrite <- E. Qed.

Lemma linear_range t sel off : 0 <= linear t sel off < 2 ^ 64.
Proof. rewrite <- linear_idem. apply u64_range. Qed.

Lemma linear_u64 t sel off : linear t sel (u64 off) = linear t sel off.
Proof.
  unfold u64 at 1. pose proof (Z.div_mod off 0x10000000000000000 ltac:(lia)) as D.
  rewrite D at 2. rewrite Z.add_comm, linear_add. rewrite <- (linear_idem t sel (off mod _)) at 1.
  unfold u64. now rewrite Z.mul_comm, Z_mod_plus_full.
Qed.

(** Behind a run of mapped cells the addresses go on without wrapping around. *)
Lemma linear_behind t sel off n : stream_wf t -> 0 <= n ->
  (0 < n -> cell t (linear t sel off + (n - 1)) <> None) ->
  linear t sel (u64 (off + n)) = linear t sel off + n.
Proof.
  intros W Hn Hc. rewrite linear_u64, linear_add. pose proof (linear_range t sel off) as R.
  destruct (Z.eq_dec n 0) as [->|N0]; [now rewrite Z.add_0_r, linear_idem|].
  specialize (Hc ltac:(lia)). pose proof (cell_word t _ W Hc) as Hw.
  apply u64_small. split; [lia|].
  destruct (Z.eq_dec (linear t sel off + (n - 1)) (2 ^ 64 - 1)) as [E|]; [|lia].
  rewrite E in Hc. now rewrite no_last_cell in Hc.
Qed.

(** ** The stream of the processor *)

(** The code from an address on, in the code segment. *)
Definition code_at p (rip : Z) : list Z :=
  mapped_from (m_pMemoryStream p) (linear (m_pMemoryStream p) (register_now p reg_CS) rip).

(** Code further on. *)
Lemma code_at_behind p rip n : stream_wf (m_pMemoryStream p) -> (n <= length (code_at p rip))%nat ->
  code_at p rip = firstn n (code_at p rip) ++ code_at p (u64 (rip + Z.of_nat n)).
Proof.
  intros W Hn. unfold code_at in *. set (t := m_pMemoryStream p) in *. set (sel := register_now p reg_CS) in *.
  set (pos := linear t sel rip) in *. assert (Hp : 0 <= pos) by apply linear_range.
  assert (Lb : length (firstn n (mapped_from t pos)) = n) by (rewrite length_firstn; lia).
  assert (Hc : forall i, (i < n)%nat -> cell t (pos + Z.of_nat i) = Some (nth i (firstn n (mapped_from t pos)) 0)).
  { intros i Hi. rewrite nth_firstn. destruct (Nat.ltb_spec i n); [|lia]. apply mapped_from_cell; auto. lia. }
  rewrite linear_behind; [|exact W|lia|].
  - rewrite (mapped_from_app t (firstn n (mapped_from t pos))) at 1; [now rewrite Lb|exact W|exact Hp|now rewrite Lb].
  - intros L. specialize (Hc (n - 1)%nat ltac:(lia)).
    replace (Z.of_nat (n - 1)) with (Z.of_nat n - 1) in Hc by lia. fold pos. rewrite Hc. discriminate.
Qed.

(** A read in the code segment gives the code there. *)
Lemma read_code p rip n st bs t' : stream_wf (m_pMemoryStream p) -> 0 < n ->
  pReadFnc (m_pMemoryStream p) (register_now p reg_CS) rip n reg_CS = (st, bs, t') ->
  t' = m_pMemoryStream p /\ Z.of_nat (length bs) <= n /\
  (st = DI_SUCCESS -> code_at p rip = bs ++ code_at p (u64 (rip + Z.of_nat (length bs)))).
Proof.
  intros W Hn R. set (t := m_pMemoryStream p) in *. set (sel := register_now p reg_CS) in *.
  pose proof (read_same t sel rip n reg_CS W) as Es. pose proof (read_keeps t sel rip reg_CS n W) as Hl.
  rewrite R in Es, Hl. cbn [snd] in Es. split; [exact Es|]. split; [lia|]. intros E. subst st.
  pose proof (read_cells _ _ _ _ _ _ _ W R) as Hc. unfold code_at. fold t sel. set (pos := linear t sel rip) in *.
  replace (linear t sel (u64 (rip + Z.of_nat (length bs)))) with (pos + Z.of_nat (length bs)).
  - apply mapped_from_app; auto. apply linear_range.
  - symmetry. apply linear_behind; [exact W|lia|]. intros L.
    specialize (Hc (length bs - 1)%nat ltac:(lia)). unfold pos in Hc.
    replace (Z.of_nat (length bs - 1)) with (Z.of_nat (length bs) - 1) in Hc by lia.
    rewrite Hc. discriminate.
Qed.

(** What is still to be read. *)
Definition code p : list Z := code_at p (m_tempRIP p).

(** The processor after the decoder has read [k] bytes of code. *)
Definition moved (k : nat) p : DianaProcessor T :=
  with_tempRIP (fun rip => u64 (rip + Z.of_nat k)) p.

Section From.
(** The processor when the decoder is called. *)
Variable p0 : DianaProcessor T.

(** The decoder has moved over mapped code only. *)
Definition reading p : Prop :=
  stream_wf (m_pMemoryStream p0) /\
  exists k, (k <= length (code p0))%nat /\ p = moved k p0 /\ code p = skipn k (code p0).

Lemma reading_content p : reading p -> Forall byte_ok (code p).
Proof. intros (W & k & Hk & -> & _). now apply mapped_from_ok. Qed.

Lemma moved_moved j k p : moved j (moved k p) = moved (k + j) p.
Proof.
  destruct p as []. unfold moved, with_tempRIP. cbn -[u64 Z.add]. f_equal.
  rewrite Nat2Z.inj_add, Z.add_assoc. unfold u64. now rewrite Zplus_mod_idemp_l.
Qed.

Lemma reading_spec p n st bs p' : reading p -> 0 < n -> ProcessorReadStream p n = (st, bs, p') ->
  code p = bs ++ code p' /\ Z.of_nat (length bs) <= n /\ (st <> DI_SUCCESS -> bs = []) /\ reading p'.
Proof.
  intros (W & k & Hk & Ep & Ec) Hn. unfold ProcessorReadStream.
  assert (Em : m_pMemoryStream p = m_pMemoryStream p0) by now rewrite Ep. pose proof W as Wp. rewrite <- Em in Wp.
  destruct (pReadFnc _ _ _ _ _) as [[st1 bs1] t1] eqn:R.
  destruct (read_code _ _ _ _ _ _ Wp Hn R) as (Et & Hl & Hc). subst t1.
  assert (Ewith : with_pMemoryStream (fun _ => m_pMemoryStream p) p = p) by now destruct p. rewrite Ewith.
  destruct (Z.eqb_spec st1 DI_SUCCESS) as [E|N]; cbn [negb]; intros [= <- <- <-].
  - fold (moved (length bs1) p). assert (Es : code p = bs1 ++ code (moved (length bs1) p)) by exact (Hc E).
    assert (Lc : length (code p) = (length (code p0) - k)%nat) by (rewrite Ec; apply length_skipn).
    rewrite Es, length_app in Lc.
    split; [exact Es|]. split; [lia|]. split; [congruence|]. split; [exact W|].
    exists (k + length bs1)%nat. split; [lia|]. split; [now rewrite Ep, moved_moved|].
    rewrite Nat.add_comm, <- skipn_skipn, <- Ec, Es, skipn_app, skipn_all, Nat.sub_diag. reflexivity.
  - split; [reflexivity|]. split; [cbn; lia|]. split; [reflexivity|]. split; [exact W|]. now exists k.
Qed.

Definition processor_stream_ok : DecStreams.DianaReadStreamOk (DianaProcessor T) := {|
  DecStreams.content := code;
  DecStreams.stream_ok := reading;
  DecStreams.content_ok := reading_content;
  DecStreams.read_spec := reading_spec
|}.
End From.

(** The decoder starts at the code from [m_tempRIP] on. *)
Lemma reading_start p : stream_wf (m_pMemoryStream p) -> 0 <= m_tempRIP p < 2 ^ 64 -> reading p p.
Proof.
  intros W R. split; [exact W|]. exists O. split; [lia|]. split; [|reflexivity].
  destruct p as []. unfold moved, with_tempRIP. cbn -[u64 Z.add Z.pow] in *. f_equal.
  rewrite Z.add_0_r. symmetry. now apply u64_small.
Qed.
End Code.
