(* ===== verification/ExecutionProofs.v ===== *)
(** One instruction after the other: [DianaProcessor_ExecOnce] keeps the processor, the decoder's
    context and the place where it reads in step with RIP. *)

From Stdlib Require Import ZArith Lia List Bool.
Import ListNotations.
From S2P Require Import Prelude Words Status Registers ProcStreams Processor CmdInternal CmdArith.
From S2P Require Import CmdLogic CmdFlow CmdMulDiv CmdStack CmdString CmdMove CmdBits.
From S2P Require Import ProcessorInit State Exec Operands Rules Invariant StringProofs.
From S2P Require Import Execution Fetch.
From S2P Require DecTypes DecStreams DecUtils DecCore MemStreams DecHoare DecTryProofs.
From S2P Require DecCacheProofs DecCommandProofs DecModes.
Local Open Scope Z_scope.
Local Open Scope diana_scope.

(** ** The table of handlers *)

(** The place of an element in a list, found syntactically. *)
Ltac index_of x l :=
  lazymatch l with
  | ?y :: ?t =>
      lazymatch y with
      | x => constr:(O)
      | _ => let k := index_of x t in constr:(S k)
      end
  end.

Section Table.
Context {T : Type} `{RandomStreamOk T}.

Lemma integer_commands_handlers : Forall (fun c => In (snd c) (@handlers T _)) integer_commands.
Proof.
  set (l := @handlers T _) in *.
  let all := eval cbv [handlers arith_handlers logic_handlers flow_handlers muldiv_handlers
    stack_handlers string_handlers move_handlers bits_handlers misc_handlers app] in (@handlers T _) in
  repeat (apply Forall_cons;
    [cbn [snd]; match goal with |- In ?x l => let k := index_of x all in exact (nth_error_In l k eq_refl) end|]).
  apply Forall_nil.
Qed.

(** The handler of a command keeps the invariant when those that are not modelled do. *)
Lemma command_tag_keeps other_commands c handler :
  (forall c h, other_commands c = Some h -> keeps h) ->
  command_tag other_commands c = Some handler -> keeps handler.
Proof.
  intros Ho. unfold command_tag.
  destruct (find _ integer_commands) as [[id h]|] eqn:E; [|apply Ho].
  intros [= <-]. apply find_some in E. destruct E as (E & _).
  apply keeps_handlers. pose proof integer_commands_handlers as F. rewrite Forall_forall in F.
  exact (F _ E).
Qed.
End Table.

(** ** Between two calls of a handler *)

Section Safe.
Context {T : Type} `{RandomStreamOk T}.
Implicit Types s : DianaProcessor T.

(** The processor stays ready and the decoder reads where it did. *)
Definition safe {A} (m : MP T A) : Prop :=
  forall s, ready s -> ready (snd (m s)) /\ fetch_place (snd (m s)) = fetch_place s.

Lemma safe_bind {A B} (m : MP T A) (k : A -> MP T B) : safe m -> (forall a, safe (k a)) -> safe (bind m k).
Proof.
  intros Hm Hk s R. unfold bind. destruct (Hm s R) as (R1 & E1).
  destruct (m s) as [[a|c|] s1]; cbn [snd] in *; auto.
  destruct (Hk a s1 R1) as (R2 & E2). split; [exact R2|congruence].
Qed.

Lemma safe_gets {A} (f : DianaProcessor T -> A) : safe (gets f).
Proof. intros s R. auto. Qed.
Lemma safe_ret {A} (a : A) : safe (ret a).
Proof. intros s R. auto. Qed.
Lemma safe_fail {A} c : safe (@fail _ A c).
Proof. intros s R. auto. Qed.
Lemma safe_crash {A} : safe (@crash _ A).
Proof. intros s R. auto. Qed.
Lemma safe_when c (m : MP T unit) : safe m -> safe (when c m).
Proof. intros Hm. destruct c; [exact Hm|apply safe_ret]. Qed.
Lemma safe_GET_REG r : safe (GET_REG r).
Proof. apply safe_bind; [apply safe_gets|]. intros. apply safe_gets. Qed.

Lemma safe_Call {A} (m : MP T A) : keeps m -> safe (Call m).
Proof. intros Hm s R. split; [now apply Call_ready|now apply Call_fetch]. Qed.

(** What does not touch the state bits or the reading place. *)
Lemma safe_modify g :
  (forall s, wf s -> wf (g s)) ->
  (forall s, m_stateFlags (g s) = m_stateFlags s /\ m_stateFlagsToRemove (g s) = m_stateFlagsToRemove s /\
     m_context (g s) = m_context s /\ m_tempRIP (g s) = m_tempRIP s) ->
  safe (modify g : MP T unit).
Proof.
  intros Hw Hs s (W & O & I1 & I2). destruct (Hs s) as (E1 & E2 & E3 & E4). cbn [modify snd].
  unfold ready, idle, fetch_place. rewrite E1, E2, E3, E4. auto 6.
Qed.

Lemma safe_clear_stateFlags m : Z.testbit m 0 = false -> safe (clear_stateFlags m : MP T unit).
Proof.
  intros Hz s (W & O & I1 & I2). split.
  - split; [destruct W; now constructor|]. split; [exact O|]. split; [exact I1|].
    rewrite psz_bit in *. cbn [clear_stateFlags modify snd with_stateFlags m_stateFlags].
    now rewrite Z.land_spec, I2.
  - exact (f_equal (pair (m_tempRIP s)) (bit_0_clear _ _ Hz)).
Qed.

(** The counter of a repetition. *)
Lemma safe_SET_RCX v : safe (SET_REG reg_RCX v : MP T unit).
Proof.
  intros s R. pose proof R as (W & O & I). pose proof (wf_flag_word s W) as Hf.
  pose proof (SET_REG_tw reg_RCX v (m_flags s) false s W Hf ltac:(auto using rcx_gpr with diana)
                (gpr_not_rip _ rcx_gpr) (idle_psz_clear s I)) as Es.
  rewrite tw_id in Es. set (s1 := put_register reg_RCX v s) in *.
  change (tw (m_flags s) false s1) with (tw (m_flags s1) false s1) in Es.
  rewrite tw_id in Es. rewrite Es. cbn [snd].
  split; [|reflexivity]. split; [apply wf_put_register; auto using rcx_gpr with diana|exact (conj O I)].
Qed.

Lemma safe_rep_loop m r b fuel : keeps m -> safe (rep_loop fuel m r b).
Proof.
  intros Hm. induction fuel as [|fuel IH]; cbn [rep_loop]; [apply safe_ret|].
  apply safe_bind; [apply safe_GET_REG|intros c]. destruct (c =? 0); [apply safe_ret|].
  apply safe_bind; [now apply safe_Call|intros _]. apply safe_bind; [apply safe_gets|intros f].
  destruct (has f _); [apply safe_ret|]. apply safe_bind; [apply safe_GET_REG|intros rcx].
  apply safe_bind; [apply safe_SET_RCX|intros _]. apply safe_bind; [apply safe_gets|intros zf].
  apply safe_bind; [apply safe_gets|intros g].
  destruct b; [destruct (negb _)|destruct (negb _); [destruct (_ =? 0)|]]; auto using safe_ret.
Qed.

Lemma safe_CallWithRep fuel m b : keeps m -> safe (CallWithRep fuel m b).
Proof.
  intros Hm. apply safe_bind; [apply safe_gets|intros c]. destruct (negb _).
  - apply safe_bind; [now apply safe_Call|intros _; apply safe_ret].
  - apply safe_bind; [apply safe_gets|intros n].
    destruct (_ =? _); [now apply safe_rep_loop|]. destruct (_ =? _); [now apply safe_rep_loop|].
    destruct (_ =? _); [now apply safe_rep_loop|apply safe_fail].
Qed.

Lemma safe_call_by_prefix m : keeps m -> safe (call_by_prefix m).
Proof.
  intros Hm.
  assert (Hr : forall b, safe (call_with_rep m b)).
  { intros b. apply safe_bind; [apply safe_gets|intros fuel].
    apply safe_bind; [now apply safe_CallWithRep|intros [u|]; [apply safe_ret|apply safe_crash]]. }
  apply safe_bind; [apply safe_gets|intros r].
  destruct (_ =? _); [apply Hr|]. destruct (_ =? _); [apply Hr|].
  destruct (_ =? _); [destruct (lock_allowed r); [now apply safe_Call|apply safe_fail]|now apply safe_Call].
Qed.

(** *** [Diana_FPU_MmxTransition] *)

Definition mmx_slot (k : nat) : bool :=
  let i := nth (Z.to_nat (reg_MM0 + Z.rem (reg_MM0 + 16 - (reg_MM0 + Z.of_nat k) - 1) 8)) register_table
             no_register in
  (0 <=? m_offset i) && (m_offset i + 10 <=? 4096).

Lemma mmx_slots : forallb mmx_slot (seq 0 8) = true.
Proof. vm_compute. reflexivity. Qed.

Lemma mmx_offset s r : wf s -> reg_MM0 <= r <= reg_MM7 ->
  0 <= m_offset (DianaProcessor_QueryReg s r) /\ m_offset (DianaProcessor_QueryReg s r) + 10 <= 4096.
Proof.
  intros W Hr. pose proof mmx_slots as F. rewrite forallb_forall in F.
  assert (Hk : In (Z.to_nat (r - reg_MM0)) (seq 0 8)) by (apply in_seq; unfold reg_MM0, reg_MM7 in *; lia).
  specialize (F _ Hk). unfold mmx_slot in F. cbv zeta in F. rewrite Z2Nat.id in F by lia.
  replace (reg_MM0 + (r - reg_MM0)) with r in F by lia.
  unfold DianaProcessor_QueryReg. replace ((reg_fpu_ST0 <=? r) && (r <=? reg_fpu_ST7)) with false.
  - replace ((reg_MM0 <=? r) && (r <=? reg_MM7)) with true.
    + unfold DianaProcessor_FPU_QueryReg_MM, register_slot. cbv zeta. rewrite (wf_registers s W).
      apply andb_true_iff in F. rewrite !Z.leb_le in F. exact F.
    + symmetry. apply andb_true_iff. now rewrite !Z.leb_le.
  - symmetry. apply andb_false_iff. left. apply Z.leb_gt. unfold reg_fpu_ST0, reg_MM7 in *. lia.
Qed.

Lemma safe_MmxTransition : safe (Diana_FPU_MmxTransition : MP T unit).
Proof.
  assert (Hfpu : forall g, safe (modify (with_fpu g) : MP T unit)).
  { intros g. apply safe_modify; [intros s []; now constructor|intros s; repeat split]. }
  apply safe_bind; [apply safe_gets|intros r]. apply safe_when.
  apply safe_bind; [apply Hfpu|intros _]. apply safe_bind; [apply Hfpu|intros _]. cbv zeta.
  destruct (is_mmx_operand (linked_op r 0)) eqn:E; [|apply safe_ret]. cbn [andb]. apply safe_when.
  intros s R. rewrite bind_gets. unfold operand_register. unfold is_mmx_operand in E.
  destruct (value (linked_op r 0)) as [|d| | | | | |]; try discriminate. apply andb_true_iff in E. rewrite !Z.leb_le in E.
  destruct (mmx_offset s d (proj1 R) E).
  cbn [store_register modify snd]. destruct R as (W & O & I). split; [|reflexivity].
  split; [|exact (conj O I)]. apply (wf_put_window _ 2 0xFFFF s W); lia.
Qed.
End Safe.

(** ** The machine *)

Section Machine.
Context {T : Type} `{CodeStreamOk T}.
Implicit Types (x : Machine T) (p : DianaProcessor T).

(** After [DianaProcessor_ClearCache] execution can go on. *)
Record clearable x : Prop := {
  cb_processor : ready (processor x);
  cb_cache : DecHoare.cache_ok (decoder x);
  cb_modes : DecModes.modes (decoder x);
  cb_bytes : length (DecTypes.bytes (decoded x)) = 16%nat
}.

Definition temp_valid p : bool := Z.testbit (m_stateFlags p) 0.

(** Between two instructions: the decoder has read [cacheSize] bytes more than were executed. *)
Record machine_ok x : Prop := {
  mk_clearable : clearable x;
  mk_decoder : DecCommandProofs.ready (decoder x);
  mk_fetch : if temp_valid (processor x)
             then m_tempRIP (processor x) = u64 (rval (processor x) reg_RIP + DecTypes.cacheSize (decoder x))
             else DecTypes.cacheSize (decoder x) = 0
}.

(** Reading goes on at [rip], [size] bytes of it are the instruction. *)
Record stepping (rip size : Z) x : Prop := {
  sp_clearable : clearable x;
  sp_decoder : DecCommandProofs.ready (decoder x);
  sp_valid : temp_valid (processor x) = true;
  sp_fetch : m_tempRIP (processor x) = u64 (rip + size + DecTypes.cacheSize (decoder x))
}.

(** Between decoding and executing the instruction at [rip]. *)
Definition between (rip : Z) x : Prop := stepping rip (DecTypes.iFullCmdSize (decoded x)) x.

(** *** Commands of the processor *)

Lemma opsize_back_modes p c : ready p -> DecModes.modes c -> DecModes.modes (opsize_back p c).
Proof. intros (_ & O & _) [M _]. constructor; [exact M|exact O]. Qed.

Lemma place_clearable p' x : clearable x -> ready p' ->
  clearable (mkMachine p' (opsize_back p' (decoder x)) (decoded x)).
Proof. intros [R C M B] R'. constructor; [exact R'|exact C|now apply opsize_back_modes|exact B]. Qed.

Lemma place_stepping rip size p' x : stepping rip size x -> ready p' ->
  fetch_place p' = fetch_place (processor x) ->
  stepping rip size (mkMachine p' (opsize_back p' (decoder x)) (decoded x)).
Proof.
  intros [C D V F] R E.
  constructor; [now apply place_clearable|destruct D; now constructor|..]; cbn [processor decoder opsize_back].
  - exact (eq_trans (f_equal snd E) V).
  - exact (eq_trans (f_equal fst E) F).
Qed.

Lemma on_processor_stepping {A} (m : MP T A) rip size x : safe m -> stepping rip size x ->
  stepping rip size (snd (on_processor m x)).
Proof.
  intros Hm S. unfold on_processor. destruct (Hm (processor x) (cb_processor x (sp_clearable _ _ _ S))) as (R & E).
  destruct (m (processor x)) as [o p']. now apply place_stepping.
Qed.

Lemma GET_REG_RIP p : wf p -> GET_REG reg_RIP p = (Ok (rval p reg_RIP), p).
Proof.
  intros W. pose proof (GET_REG_tw reg_RIP (m_flags p) false p W (wf_flag_word p W)
    ltac:(apply int_regs_ok; vm_compute; tauto)) as E. now rewrite tw_id in E.
Qed.

Lemma temp_bit p : has (m_stateFlags p) DI_PROC_STATE_TEMP_RIP_IS_VALID = temp_valid p.
Proof. apply (has_pow2 _ 0). lia. Qed.

(** *** The first part: where reading starts *)

Lemma start_fetch_ok x : machine_ok x ->
  exists p', start_fetch (rval (processor x) reg_RIP) (processor x) = (Ok tt, p') /\
    stepping (rval (processor x) reg_RIP) 0 (mkMachine p' (opsize_back p' (decoder x)) (decoded x)) /\
    m_pMemoryStream p' = m_pMemoryStream (processor x) /\
    register_now p' reg_CS = register_now (processor x) reg_CS /\
    m_tempRIP p' = if temp_valid (processor x) then m_tempRIP (processor x) else rval (processor x) reg_RIP.
Proof.
  intros [C D F]. set (p := processor x) in *. set (rip := rval p reg_RIP) in *.
  pose proof (cb_processor x C : ready p) as (W & O & I1 & I2). unfold start_fetch. rewrite bind_gets, temp_bit. fold p.
  assert (Hset : forall g f, Z.testbit (f (m_stateFlags p)) 2 = false -> Z.testbit (f (m_stateFlags p)) 0 = true ->
    let p' := clear_stateFlags (T := T) DI_PROC_STATE_RIP_CHANGED (with_stateFlags f (with_tempRIP g p)) in
    g (m_tempRIP p) = u64 (rip + DecTypes.cacheSize (decoder x)) ->
    stepping rip 0 (mkMachine (snd p') (opsize_back (snd p') (decoder x)) (decoded x))).
  { intros g f H2 H0' p' Hg. assert (R : ready (snd p')).
    { split; [destruct W; now constructor|]. split; [exact O|]. split; [exact I1|].
      rewrite psz_bit. cbn [snd p' clear_stateFlags modify with_stateFlags m_stateFlags with_tempRIP].
      now rewrite Z.land_spec, H2. }
    constructor; [now apply place_clearable|destruct D; now constructor|..].
    - unfold temp_valid. cbn [processor snd p' clear_stateFlags modify with_stateFlags m_stateFlags with_tempRIP].
      rewrite bit_0_clear; [exact H0'|reflexivity].
    - cbn [processor decoder opsize_back snd p' clear_stateFlags modify with_stateFlags m_tempRIP with_tempRIP].
      rewrite Z.add_0_r. exact Hg. }
  rewrite psz_bit in I2. destruct (temp_valid p) eqn:V; cbn [negb].
  - rewrite when_false, bind_ret. eexists. split; [reflexivity|]. split; [|auto].
    specialize (Hset (fun r => r) (fun f => f) I2 V F). now destruct p.
  - rewrite when_true. eexists. split; [reflexivity|]. split; [|auto].
    refine (Hset (fun _ => rip) (fun f => Z.lor f DI_PROC_STATE_TEMP_RIP_IS_VALID) _ _ _).
    + cbv beta. rewrite Z.lor_spec, I2. reflexivity.
    + cbv beta. rewrite Z.lor_spec. apply orb_true_r.
    + rewrite F, Z.add_0_r. symmetry. apply u64_small.
      apply (rval_range p reg_RIP W). apply int_regs_ok. vm_compute. tauto.
Qed.

(** *** Decoding *)

Variable Diana_GetNopInfo : DecTypes.DianaCmdInfo.
Variable root : DecTypes.DianaBaseGenObject.
Hypothesis tables : DecTryProofs.tables_ok root.
Hypothesis leads : DecTryProofs.prefixes_lead_on root.

Lemma moved_ready k p : ready p -> ready (moved k p).
Proof. intros ([] & R). split; [now constructor|exact R]. Qed.

(** What the decoder still holds, and the code behind it. *)
Definition ahead x : list Z := DecCacheProofs.unread (decoder x) ++ code (processor x).

(** The instruction [x'] was decoded from what was ahead in [x]. *)
Record decoded_from x x' : Prop := {
  df_size : 0 <= DecTypes.iFullCmdSize (decoded x') <= DecTypes.DI_MAX_INSTRUCTION_SIZE;
  df_bytes : firstn (Z.to_nat (DecTypes.iFullCmdSize (decoded x'))) (DecTypes.bytes (decoded x')) =
             firstn (Z.to_nat (DecTypes.iFullCmdSize (decoded x'))) (ahead x);
  df_memory : m_pMemoryStream (processor x') = m_pMemoryStream (processor x);
  df_code : register_now (processor x') reg_CS = register_now (processor x) reg_CS;
  df_ahead : DecTypes.lastPrefixBeforeRex (decoder x') = DecTypes.DI_FULL_CHAR_NULL ->
             ahead x = firstn (Z.to_nat (DecTypes.iFullCmdSize (decoded x'))) (ahead x) ++ ahead x'
}.

Lemma decode_step_ok rip x : stepping rip 0 x ->
  match decode_step Diana_GetNopInfo root x with
  | (Ok _, x') => between rip x' /\ decoded_from x x'
  | (Err _, x') => clearable x'
  | (Crash, _) => False
  end.
Proof.
  intros [[R C M B] D V F]. set (p := processor x) in *. pose proof R as (W & _).
  rewrite Z.add_0_r in F.
  assert (Hr : reading p p).
  { apply reading_start; [apply W|]. fold p. rewrite F. apply u64_range. }
  pose proof (@DecCommandProofs.Diana_ParseCmd_ok _ _ (processor_stream_ok p) Diana_GetNopInfo root tables
                (decoder x) (decoded x) p D Hr B) as H2.
  pose proof (DecModes.Diana_ParseCmd_modes Diana_GetNopInfo root (MemStreams.start (decoder x) (decoded x) p) M) as Hm.
  unfold DecCommandProofs.call in H2. unfold decode_step. fold p.
  destruct (DecCore.Diana_ParseCmd _ _ _) as [[u|code|] s]; [|cbn [snd] in Hm|exact H2].
  - cbn [snd] in Hm. pose proof (DecCommandProofs.command_done_read _ _ _ _ _ H2) as [Hsz _ Hb Hl].
    destruct (DecCommandProofs.command_done_split _ _ _ _ _ leads H2) as (D' & taken & gap & Es & En & _ & Hg).
    destruct H2 as ([[_ _ _ (L & Hio & _)] _ _ _ _ _] & _).
    pose proof (DecHoare.io_ok _ _ _ Hio) as (_ & k & Hk & Ep & Ec).
    cbn [DecStreams.content processor_stream_ok] in *.
    assert (Rk : ready (with_context (fun _ => context_view (DecTypes.pContext s)) (moved k p))).
    { destruct (moved_ready k p R) as ([] & _ & I). split; [now constructor|]. split; [apply Hm|exact I]. }
    pose proof (DecCommandProofs.unread_length _ D') as Lu. pose proof (DecCommandProofs.unread_length _ D) as Lx.
    pose proof (f_equal (@length Z) Es) as El. rewrite !length_app in El.
    rewrite Ec, length_skipn in El. split.
    + constructor; cbn [processor decoder decoded]; rewrite ?Ep; auto.
      * constructor; cbn [processor decoder decoded]; auto. apply D'.
      * change (u64 (m_tempRIP p + Z.of_nat k) =
          u64 (rip + DecTypes.iFullCmdSize (DecTypes.pResult s) + DecTypes.cacheSize (DecTypes.pContext s))).
        rewrite F, En. unfold u64. rewrite Zplus_mod_idemp_l. f_equal. lia.
    + constructor; cbn [processor decoder decoded]; rewrite ?Ep; auto.
      intros Hn. specialize (Hg Hn). subst gap. cbn [length app] in *.
      unfold ahead. cbn [processor decoder]. fold p.
      rewrite Ep in Es. apply (eq_trans Es). apply (f_equal2 (@app Z)); [|reflexivity].
      rewrite Es, En, firstn_app, firstn_all2 by lia. replace (_ - _)%nat with O by lia.
      now rewrite firstn_O, app_nil_r.
  - destruct H2 as (_ & Hc & (_ & k & Hk & Ep & _) & Hl). 
    constructor; cbn [processor decoder decoded]; auto. rewrite Ep.
    destruct (moved_ready k p R) as ([] & _ & I). split; [now constructor|]. split; [apply Hm|exact I].
Qed.

(** *** After the handler *)

Lemma clear_machine p x : clearable x -> ready p -> temp_valid p = false ->
  machine_ok (mkMachine p (DecUtils.Diana_ClearCache (decoder x)) (decoded x)).
Proof.
  intros [R [Hl Hb] [M1 M2] B] Rp V.
  assert (Hc : DecCommandProofs.ready (DecUtils.Diana_ClearCache (decoder x)))
    by (apply DecCommandProofs.clear_ready; now split).
  constructor; [constructor; auto; [apply Hc|now constructor]|exact Hc|].
  cbn [processor decoder]. now rewrite V.
Qed.

Lemma ClearCache_ok x : clearable x ->
  exists x', DianaProcessor_ClearCache x = (Ok tt, x') /\ machine_ok x'.
Proof.
  intros C. eexists. split; [reflexivity|]. apply (clear_machine _ x C); [|reflexivity].
  destruct (cb_processor x C) as ([] & O & I1 & I2). split; [now constructor|]. repeat (split; auto).
Qed.

(** RIP moves behind the instruction. *)
Lemma set_rip_ok v p : ready p -> 0 <= v < 2 ^ 64 ->
  exists p', (let! pReg := gets (fun p => DianaProcessor_QueryReg p reg_RIP) in
              DianaProcessor_SetValue reg_none pReg v) p = (Ok tt, p') /\
    ready p' /\ fetch_place p' = fetch_place p /\ rval p' reg_RIP = v /\
    m_pMemoryStream p' = m_pMemoryStream p /\ register_now p' reg_CS = register_now p reg_CS.
Proof.
  intros (W & O & I) Hv.
  assert (Rr : int_reg reg_RIP) by (apply int_regs_ok; vm_compute; tauto).
  assert (Rc : int_reg reg_CS) by (apply int_regs_ok; vm_compute; tauto).
  set (p' := put_window (roff reg_RIP) 8 v p).
  assert (W' : wf p') by (apply wf_put_window; [exact W|discriminate..]).
  exists p'. rewrite bind_gets, (QueryReg_int p reg_RIP W Rr). split.
  - unfold DianaProcessor_SetValue, DianaProcessor_SetValueEx. cbn [Z.eqb Pos.eqb].
    change (m_size (reg_info reg_RIP)) with 8. cbn [Z.eqb Pos.eqb orb reg_none reg_RIP reg_IP].
    rewrite when_false, bind_ret. unfold store_register. rewrite bind_modify. fold p'.
    pose proof (UPDATE_PSZ_off (m_flags p') false p' (u64 v) 0x8000000000000000 (idle_psz_clear p' I)) as E.
    rewrite tw_id in E. exact E.
  - split; [exact (conj W' (conj O I))|]. split; [reflexivity|]. split.
    + unfold rval, window, p', put_window. cbn [m_pRegistersVector with_pRegistersVector].
      change (rsize reg_RIP) with 8.
      rewrite buf_load_store_same; [apply Z.mod_small, Hv|discriminate|discriminate|].
      rewrite (wf_length p W). discriminate.
    + split; [reflexivity|].
      assert (Eg : forall q, wf q -> register_now q reg_CS = rval q reg_CS).
      { intros q Wq. unfold register_now. pose proof (GET_REG_tw reg_CS (m_flags q) false q Wq (wf_flag_word q Wq) Rc) as E.
        rewrite tw_id in E. now rewrite E. }
      rewrite !Eg by assumption. unfold rval, window, p', put_window.
      cbn [m_pRegistersVector with_pRegistersVector].
      apply buf_load_store_disjoint; rewrite ?(wf_length p W); try discriminate.
      vm_compute; intuition discriminate.
Qed.

(** What the decoder has given and still holds. *)
Definition instruction x : list Z * Z * DecTypes.DianaParserResult :=
  (DecCacheProofs.unread (decoder x), DecTypes.lastPrefixBeforeRex (decoder x), decoded x).

(** A command of the processor that succeeds. *)
Lemma run_stepping {A} (m : MP T A) a rip size x : safe m -> fst (m (processor x)) = Ok a ->
  stepping rip size x ->
  exists x1, on_processor m x = (Ok a, x1) /\ stepping rip size x1 /\ instruction x1 = instruction x.
Proof.
  intros Hm E S. pose proof (on_processor_stepping m rip size x Hm S) as S1. unfold on_processor in *.
  destruct (m (processor x)) as [o p']. cbn [fst] in E. subst o. eexists. split; [reflexivity|].
  split; [exact S1|reflexivity].
Qed.

Lemma MmxTransition_ends p : fst (Diana_FPU_MmxTransition p) = Ok tt.
Proof.
  unfold Diana_FPU_MmxTransition, result. rewrite bind_gets. cbv zeta.
  destruct (existsb _ _); [|reflexivity]. unfold Diana_FPU_SetStackTop. rewrite when_true, !bind_modify.
  now destruct (_ && _).
Qed.

(** What a step ends in: without a jump, behind the instruction. *)
Definition stepped (rip : Z) x x' : Prop :=
  machine_ok x' /\ decoded x' = decoded x /\
  (temp_valid (processor x') = true ->
   instruction x' = instruction x /\
   rval (processor x') reg_RIP = u64 (rip + DecTypes.iFullCmdSize (decoded x))).

Lemma finish_step_ok rip res x : between rip x ->
  match finish_step rip res x with
  | (Ok _, x') => res = DI_SUCCESS /\ stepped rip x x'
  | (Err c, x') => c = res /\ machine_ok x' /\ temp_valid (processor x') = false
  | (Crash, _) => False
  end.
Proof.
  unfold between. set (size := DecTypes.iFullCmdSize (decoded x)) in *. intros S. unfold finish_step.
  assert (R1 : exists x1, when (res =? DI_SUCCESS) (on_processor Diana_FPU_MmxTransition) x = (Ok tt, x1) /\
                 stepping rip size x1 /\ instruction x1 = instruction x).
  { destruct (res =? DI_SUCCESS); [|exists x; auto].
    apply run_stepping; [apply safe_MmxTransition|apply MmxTransition_ends|exact S]. }
  destruct R1 as (x1 & E1 & S1 & D1). rewrite (bind_run _ _ _ _ _ E1).
  destruct (run_stepping (clear_stateFlags DI_PROC_STATE_CMD_USES_NORMAL_REP) tt rip size x1) as (x2 & E2 & S2 & D2);
    [now apply safe_clear_stateFlags|reflexivity|exact S1|].
  rewrite (bind_run _ _ _ _ _ E2), bind_gets. clear E1 E2 S1. rewrite D1 in D2. clear x1 D1.
  assert (D2' : decoded x2 = decoded x) by exact (f_equal snd D2).
  destruct (has _ DI_PROC_STATE_RIP_CHANGED || negb (res =? DI_SUCCESS)) eqn:Hjump.
  - set (x3 := snd (on_processor (clear_stateFlags DI_PROC_STATE_RIP_CHANGED)
                      (snd (on_processor (clear_stateFlags DI_PROC_STATE_TEMP_RIP_IS_VALID) x2)))).
    assert (M3 : machine_ok (with_decoder DecUtils.Diana_ClearCache x3) /\
                 temp_valid (processor x3) = false).
    { destruct S2 as [C2 _ _ _]. destruct (cb_processor x2 C2) as (W2 & O2 & I21 & I22).
      assert (V3 : temp_valid (processor x3) = false).
      { unfold temp_valid, x3. cbn [on_processor clear_stateFlags modify snd processor m_stateFlags with_stateFlags].
        rewrite bit_0_clear by reflexivity. rewrite Z.land_spec. apply andb_false_r. }
      split; [|exact V3].
      assert (R3 : ready (processor x3)).
      { split; [destruct W2; now constructor|]. split; [exact O2|]. split; [exact I21|].
        rewrite psz_bit in *. unfold x3.
        cbn [on_processor clear_stateFlags modify snd processor m_stateFlags with_stateFlags].
        now rewrite !Z.land_spec, I22. }
      refine (clear_machine (processor x3) x3 _ R3 V3).
      destruct C2 as [_ K M B]. constructor; [exact R3|exact K| |exact B].
      apply (opsize_back_modes _ _ R3), (opsize_back_modes (processor x2) _ (conj W2 (conj O2 (conj I21 I22)))), M. }
    destruct M3 as (M3 & V3).
    destruct (Z.eqb_spec res DI_SUCCESS) as [E|N].
    + cbn. split; [exact E|]. split; [exact M3|]. split; [exact D2'|]. intros V.
      change (temp_valid (processor x3) = true) in V. congruence.
    + cbn. split; [reflexivity|]. split; [exact M3|exact V3].
  - apply orb_false_iff in Hjump. destruct Hjump as (_ & Hres%negb_false_iff%Z.eqb_eq).
    rewrite bind_gets, D2'. fold size. pose proof S2 as [C2 K2 V2 F2].
    destruct (set_rip_ok (u64 (rip + size)) (processor x2) (cb_processor x2 C2)) as (p' & E & R' & Ef & Er & _);
      [apply u64_range|].
    unfold on_processor. rewrite E. split; [exact Hres|].
    pose proof (place_stepping rip size p' x2 S2 R' Ef) as [C3 K3 V3 F3]. cbn [processor decoder] in *.
    split; [|split; [exact D2'|intros _; split; [exact D2|exact Er]]].
    constructor; [exact C3|exact K3|]. cbn [processor decoder].
    rewrite V3, Er, F3. unfold u64. now rewrite Zplus_mod_idemp_l.
Qed.

(** *** The whole step *)

Variable firePoints : list (Z * (Machine T -> Machine T)).
Variable customProvider : option (Z -> X (T := T) (option (MP T unit))).
Variable other_commands : Z -> option (MP T unit).
Variable Diana_Call_evex : MP T unit.

(** What the embedding program and the handlers that are not modelled must respect. *)
Record callbacks_ok : Prop := {
  ck_points : forall address action x, In (address, action) firePoints -> machine_ok x -> machine_ok (action x);
  ck_provider : forall provider command rip x, customProvider = Some provider -> between rip x ->
    match provider command x with
    | (Ok handler, x') => between rip x' /\ instruction x' = instruction x /\
        (forall h, handler = Some h -> keeps h)
    | (Err _, x') => clearable x'
    | (Crash, _) => True
    end;
  ck_others : forall command handler, other_commands command = Some handler -> keeps handler;
  ck_evex : keeps Diana_Call_evex
}.
Hypothesis callbacks : callbacks_ok.

Lemma run_fire_points_ok rip x : machine_ok x -> machine_ok (run_fire_points firePoints rip x).
Proof.
  unfold run_fire_points.
  assert (G : forall l, incl l firePoints -> forall x, machine_ok x ->
    machine_ok (fold_left (fun x point => if fst point =? rip then snd point x else x) l x)).
  { induction l as [|[a f] l IH]; intros Hl y Hy; [exact Hy|]. cbn [fold_left fst snd].
    apply incl_cons_inv in Hl. destruct Hl as (Hin & Hl). apply (IH Hl).
    destruct (a =? rip); [|exact Hy]. now apply (ck_points callbacks a f). }
  apply G, incl_refl.
Qed.

Lemma choose_command_ok isEvex command rip x : between rip x ->
  match choose_command customProvider other_commands Diana_Call_evex isEvex command x with
  | (Ok handler, x') => between rip x' /\ instruction x' = instruction x /\
      (forall h, handler = Some h -> keeps h)
  | (Err _, x') => clearable x'
  | (Crash, _) => True
  end.
Proof.
  intros B. unfold choose_command. set (tag := if isEvex then _ else _).
  assert (Ht : forall h, tag = Some h -> keeps h).
  { intros h. unfold tag. destruct isEvex; [intros [= <-]; apply (ck_evex callbacks)|].
    apply command_tag_keeps, (ck_others callbacks). }
  destruct customProvider as [provider|] eqn:Ep; [|cbn; auto].
  pose proof (ck_provider callbacks provider command rip x Ep B) as H2. unfold bind.
  destruct (provider command x) as [[custom|c|] x']; auto. cbn [ret].
  destruct H2 as (B' & D' & Hh). split; [exact B'|]. split; [exact D'|].
  destruct custom as [h0|]; [exact Hh|exact Ht].
Qed.

(** The handler and what follows it. *)
Lemma status_of_handler_ok m rip x : keeps m -> between rip x ->
  match status_of_handler (call_by_prefix m) x with
  | (Ok _, x') => between rip x' /\ instruction x' = instruction x
  | (Err _, _) => False
  | (Crash, _) => True
  end.
Proof.
  intros Hm B. destruct (safe_call_by_prefix m Hm (processor x) (cb_processor x (sp_clearable _ _ _ B))) as (R & E).
  unfold status_of_handler. destruct (call_by_prefix m (processor x)) as [[a|c|] p']; cbn [snd] in *; [..|exact I];
    (split; [|reflexivity]; now apply (place_stepping rip _ p' x)).
Qed.

Lemma execute_step_ok rip x : between rip x ->
  match execute_step customProvider other_commands Diana_Call_evex rip x with
  | (Ok _, x') => stepped rip x x'
  | (Err _, x') => clearable x'
  | (Crash, _) => True
  end.
Proof.
  intros B. unfold execute_step, decoded_command. rewrite bind_bind, bind_gets.
  destruct (DecTypes.pInfo (decoded x)) as [info|]; [|exact I].
  destruct (DecTypes.m_pGroupInfo info) as [command|]; [|exact I].
  rewrite bind_ret, bind_modify, bind_gets. set (x1 := with_processor _ x).
  assert (B1 : between rip x1).
  { destruct B as [[([] & R) C M Hb] K V F]. constructor; [|exact K|exact V|exact F].
    constructor; [|exact C|exact M|exact Hb]. split; [now constructor|exact R]. }
  assert (D1 : instruction x1 = instruction x) by reflexivity. clearbody x1.
  set (isEvex := negb _). clearbody isEvex.
  pose proof (choose_command_ok isEvex command rip x1 B1) as H2. unfold bind at 1.
  destruct (choose_command _ _ _ _ _ _) as [[handler|c|] x2]; auto.
  destruct H2 as (B2 & D2 & Hk). destruct handler as [h|]; [|exact (sp_clearable _ _ _ B2)].
  pose proof (status_of_handler_ok h rip x2 (Hk h eq_refl) B2) as H3. unfold bind at 1.
  destruct (status_of_handler _ _) as [[res|c|] x3]; [|destruct H3|exact I].
  destruct H3 as (B3 & D3). pose proof (finish_step_ok rip res x3 B3) as H4.
  destruct (finish_step rip res x3) as [[u|c|] x4]; [|apply H4|exact I].
  destruct H4 as (_ & H4). unfold stepped in *. rewrite D3, D2, D1 in H4.
  assert (D4 : decoded x3 = decoded x) by exact (f_equal snd (eq_trans D3 (eq_trans D2 D1))).
  now rewrite D4 in H4.
Qed.

(** *** The step from its start *)

(** Reading RIP changes nothing. *)
Lemma read_RIP x : machine_ok x ->
  exists x', on_processor (GET_REG reg_RIP) x = (Ok (rval (processor x) reg_RIP), x') /\
    machine_ok x' /\ processor x' = processor x /\ instruction x' = instruction x.
Proof.
  intros [C D F]. pose proof (cb_processor x C) as R. unfold on_processor.
  rewrite (GET_REG_RIP _ (proj1 R)). eexists. split; [reflexivity|].
  split; [|split; reflexivity]. constructor; [now apply place_clearable|destruct D; now constructor|exact F].
Qed.

(** The bytes the decoder holds are those of the memory at RIP. *)
Definition in_memory x : Prop :=
  temp_valid (processor x) = true ->
  ahead x = code_at (processor x) (rval (processor x) reg_RIP).

(** Decoding starts with the code at RIP ahead. *)
Lemma ExecOnce_starts x : machine_ok x ->
  exists x1 x3, let rip := rval (processor x1) reg_RIP in
    machine_ok x1 /\ stepping rip 0 x3 /\
    DianaProcessor_ExecOnce firePoints customProvider other_commands Diana_Call_evex Diana_GetNopInfo root x =
    bind (decode_step Diana_GetNopInfo root)
      (fun _ => execute_step customProvider other_commands Diana_Call_evex rip) x3 /\
    (firePoints = [] -> processor x1 = processor x /\ instruction x1 = instruction x) /\
    m_pMemoryStream (processor x3) = m_pMemoryStream (processor x1) /\
    register_now (processor x3) reg_CS = register_now (processor x1) reg_CS /\
    (in_memory x1 -> ahead x3 = code_at (processor x1) rip).
Proof.
  intros M. destruct (read_RIP x M) as (x0 & E0 & M0 & P0 & I0).
  set (x1 := run_fire_points firePoints (rval (processor x) reg_RIP) x0).
  assert (M1 : machine_ok x1) by now apply run_fire_points_ok.
  destruct (read_RIP x1 M1) as (x2 & E2 & M2 & P2 & I2).
  destruct (start_fetch_ok x2 M2) as (p3 & E3 & S3 & Em & Ec & Et). rewrite P2 in *.
  exists x1, (mkMachine p3 (opsize_back p3 (decoder x2)) (decoded x2)). cbv zeta.
  split; [exact M1|]. split; [exact S3|]. split.
  - unfold DianaProcessor_ExecOnce. rewrite (bind_run _ _ _ _ _ E0), bind_modify. fold x1.
    rewrite (bind_run _ _ _ _ _ E2).
    assert (E3' : on_processor (start_fetch (rval (processor x1) reg_RIP)) x2 =
                  (Ok tt, mkMachine p3 (opsize_back p3 (decoder x2)) (decoded x2)))
      by (unfold on_processor; now rewrite P2, E3).
    now rewrite (bind_run _ _ _ _ _ E3').
  - split; [|split; [exact Em|split; [exact Ec|]]].
    + intros Ef. unfold x1. rewrite Ef. cbn [run_fire_points fold_left]. auto.
    + intros Hin. unfold ahead. cbn [processor decoder].
      assert (Eu : DecCacheProofs.unread (opsize_back p3 (decoder x2)) = DecCacheProofs.unread (decoder x1))
        by exact (f_equal (fun i => fst (fst i)) I2).
      rewrite Eu. unfold code, code_at. rewrite Em, Ec, Et. destruct (temp_valid (processor x1)) eqn:V.
      * now apply Hin.
      * destruct M1 as [_ D1 F1]. rewrite V in F1. pose proof (DecCommandProofs.unread_length _ D1) as L.
        rewrite F1 in L. destruct (DecCacheProofs.unread (decoder x1)); [reflexivity|discriminate].
Qed.

Lemma ExecOnce_ok x : machine_ok x ->
  match DianaProcessor_ExecOnce firePoints customProvider other_commands Diana_Call_evex
          Diana_GetNopInfo root x with
  | (Ok _, x') => machine_ok x'
  | (Err _, x') => clearable x'
  | (Crash, x') => exists rip x4, between rip x4 /\
      execute_step customProvider other_commands Diana_Call_evex rip x4 = (Crash, x')
  end.
Proof.
  intros M. destruct (ExecOnce_starts x M) as (x1 & x3 & _ & S3 & -> & _).
  pose proof (decode_step_ok _ x3 S3) as H2. unfold bind.
  destruct (decode_step Diana_GetNopInfo root x3) as [[u|c|] x4]; [|exact H2|destruct H2].
  destruct H2 as (B & _). pose proof (execute_step_ok _ x4 B) as H3.
  destruct (execute_step _ _ _ _ x4) as [[u'|c|] x'] eqn:E; [apply H3|exact H3|eauto].
Qed.

(** An instruction that succeeds was read from the memory at RIP, and RIP moves behind it. *)
Lemma ExecOnce_runs_memory x x' : firePoints = [] -> machine_ok x -> in_memory x ->
  DianaProcessor_ExecOnce firePoints customProvider other_commands Diana_Call_evex
    Diana_GetNopInfo root x = (Ok tt, x') ->
  let rip := rval (processor x) reg_RIP in
  let size := DecTypes.iFullCmdSize (decoded x') in
  0 <= size <= DecTypes.DI_MAX_INSTRUCTION_SIZE /\
  firstn (Z.to_nat size) (DecTypes.bytes (decoded x')) = firstn (Z.to_nat size) (code_at (processor x) rip) /\
  (temp_valid (processor x') = true -> rval (processor x') reg_RIP = u64 (rip + size)) /\
  (DecTypes.lastPrefixBeforeRex (decoder x') = DecTypes.DI_FULL_CHAR_NULL ->
   m_pMemoryStream (processor x') = m_pMemoryStream (processor x) ->
   register_now (processor x') reg_CS = register_now (processor x) reg_CS -> in_memory x').
Proof.
  intros Ef M Hin E. cbv zeta. destruct (ExecOnce_starts x M) as (x1 & x3 & M1 & S3 & Eq & H1' & Em & Ec & Ha).
  cbv zeta in *. rewrite Eq in E. clear Eq. destruct (H1' Ef) as (P1 & I1). rewrite P1 in *.
  assert (Hin1 : in_memory x1).
  { unfold in_memory, ahead in *. rewrite P1. 
    now rewrite (f_equal (fun i => fst (fst i)) I1 : DecCacheProofs.unread (decoder x1) = _). }
  specialize (Ha Hin1). set (rip := rval (processor x) reg_RIP) in *.
  pose proof (decode_step_ok _ x3 S3) as H2. unfold bind in E.
  destruct (decode_step Diana_GetNopInfo root x3) as [[u|c|] x4]; [|discriminate|destruct H2].
  destruct H2 as (B & [Hsz Hb Hm Hc Hahead]). pose proof (execute_step_ok _ x4 B) as H3. rewrite E in H3.
  destruct H3 as (M' & D' & Hrip). rewrite D'. rewrite Ha in *.
  split; [exact Hsz|]. split; [exact Hb|]. split; [intros V; apply (Hrip V)|].
  intros Hn Hmem Hcs V. destruct (Hrip V) as (I' & Er).
  assert (Hn4 : DecTypes.lastPrefixBeforeRex (decoder x4) = DecTypes.DI_FULL_CHAR_NULL)
    by (rewrite <- Hn; symmetry; exact (f_equal (fun i => snd (fst i)) I')).
  specialize (Hahead Hn4). set (n := Z.to_nat (DecTypes.iFullCmdSize (decoded x4))) in *.
  assert (Ln : (n <= length (code_at (processor x) rip))%nat).
  { apply (f_equal (@length Z)) in Hb. rewrite !length_firstn, (cb_bytes _ (sp_clearable _ _ _ B)) in Hb.
    unfold DecTypes.DI_MAX_INSTRUCTION_SIZE in Hsz. lia. }
  rewrite (code_at_behind _ _ n (wf_stream _ (proj1 (cb_processor _ (mk_clearable _ M)))) Ln) in Hahead at 1.
  apply app_inv_head in Hahead. replace (Z.of_nat n) with (DecTypes.iFullCmdSize (decoded x4)) in Hahead by lia.
  rewrite <- Er in Hahead. unfold code_at at 1. rewrite Hmem, Hcs. fold (code_at (processor x) (rval (processor x') reg_RIP)).
  rewrite Hahead. unfold ahead.
  assert (Eu : DecCacheProofs.unread (decoder x') = DecCacheProofs.unread (decoder x4))
    by exact (f_equal (fun i => fst (fst i)) I').
  assert (Et : m_tempRIP (processor x') = m_tempRIP (processor x4)).
  { pose proof (mk_fetch _ M') as F'. rewrite V, Er in F'. destruct B as [_ D4 _ F4]. rewrite F', F4.
    pose proof (DecCommandProofs.unread_length _ D4) as L4.
    pose proof (DecCommandProofs.unread_length _ (mk_decoder _ M')) as L'. rewrite Eu, L4 in L'. rewrite <- L'.
    unfold u64. now rewrite Zplus_mod_idemp_l. }
  rewrite Eu. unfold code, code_at. now rewrite Et, Hmem, Hcs, Hm, Hc, Em, Ec.
Qed.
End Machine.
