(* ===== verification/StackWalkProofs.v ===== *)
(** The walk over a stack is safe, whatever is on it: it only reads, it stays inside of its tables,
    and what it reports are return addresses. *)

From Stdlib Require Import ZArith Lia List Bool.
Import ListNotations.
From S2P Require Import Prelude Words Status Registers ProcStreams Processor DecTables Execution.
From S2P Require Import Fetch StackWalk.
From S2P Require DecTypes DecStreams DecUtils DecCore MemStreams.
From S2P Require DecHoare DecCacheProofs DecTryProofs DecCommandProofs DecFarProofs.
Local Open Scope Z_scope.
Local Open Scope diana_scope.

(** ** Programs that only look at the processor *)

Section Looks.
Context {T : Type} `{CodeStreamOk T}.
Implicit Types (p : DianaProcessor T).

Definition looks {A} (m : MP T A) : Prop :=
  forall p, stream_wf (m_pMemoryStream p) -> snd (m p) = p /\ fst (m p) <> Crash.

Lemma looks_run {A} (m : MP T A) p : looks m -> stream_wf (m_pMemoryStream p) ->
  (exists a, m p = (Ok a, p)) \/ (exists c, m p = (Err c, p)).
Proof.
  intros L W. destruct (L p W) as (E & N). destruct (m p) as [[a|c|] p']; cbn in *; subst; eauto.
  contradiction.
Qed.

Lemma looks_ret {A} (a : A) : looks (ret a).
Proof. now split. Qed.
Lemma looks_fail {A} c : looks (@fail _ A c).
Proof. now split. Qed.
Lemma looks_gets {A} (f : DianaProcessor T -> A) : looks (gets f).
Proof. now split. Qed.

Lemma looks_bind {A B} (m : MP T A) (k : A -> MP T B) :
  looks m -> (forall a, looks (k a)) -> looks (bind m k).
Proof.
  intros Lm Lk p W. unfold bind.
  destruct (looks_run m p Lm W) as [(a & ->)|(c & ->)]; [now apply Lk|now split].
Qed.

Lemma looks_GET_REG r : looks (GET_REG r).
Proof. apply looks_bind; [apply looks_gets|intros; apply looks_gets]. Qed.

Lemma same_memory p : with_pMemoryStream (fun _ => m_pMemoryStream p) p = p.
Proof. now destruct p. Qed.

Lemma looks_ReadMemory sel off n seg : looks (DianaProcessor_ReadMemory sel off n seg).
Proof.
  intros p W. unfold DianaProcessor_ReadMemory. pose proof (read_same _ sel off n seg W) as E.
  destruct (pReadFnc _ _ _ _ _) as [[st bs] t]. cbn in *. subst t. now rewrite same_memory.
Qed.

Lemma looks_GetMemValue_out sel off n seg : looks (DianaProcessor_GetMemValue_out sel off n seg).
Proof.
  intros p W. unfold DianaProcessor_GetMemValue_out. pose proof (read_same _ sel off n seg W) as E.
  destruct (pReadFnc _ _ _ _ _) as [[st bs] t]. cbn in *. subst t. now rewrite same_memory.
Qed.

Lemma looks_try {A} (m : MP T A) : looks m -> looks (try m).
Proof.
  intros L p W. unfold try. destruct (looks_run m p L W) as [(a & ->)|(c & ->)]; now split.
Qed.

Lemma looks_with_local_context {A} c (m : MP T A) : looks m -> looks (with_local_context c m).
Proof.
  intros L p W. unfold with_local_context. destruct (L (with_context (fun _ => c) p) W) as (E & N).
  destruct (m _) as [o p']. cbn in *. subst p'. split; [now destruct p|exact N].
Qed.
End Looks.

Create HintDb looks discriminated.
#[export] Hint Resolve looks_ret looks_fail looks_gets looks_GET_REG looks_ReadMemory looks_GetMemValue_out
  looks_try looks_with_local_context : looks.

(** [look] goes through a program whose parts only look. *)
Ltac look :=
  repeat match goal with
  | |- looks (bind _ _) => apply looks_bind; [|intros]
  | |- looks (if ?b then _ else _) => destruct b
  | |- looks (match ?x with _ => _ end) => destruct x
  | |- looks _ => progress (auto with looks)
  end.

Section LookingParts.
Context {T : Type} `{CodeStreamOk T}.

Lemma looks_GetMemValue sel off n seg : looks (DianaProcessor_GetMemValue sel off n seg).
Proof. unfold DianaProcessor_GetMemValue. look. Qed.
Hint Resolve looks_GetMemValue : looks.

Lemma looks_CalcIndex i : looks (DianaProcessor_CalcIndex i).
Proof. unfold DianaProcessor_CalcIndex, context, result. look. Qed.
Hint Resolve looks_CalcIndex : looks.

Lemma looks_AnalyzeCallJmpInstruction g c r rip :
  looks (DianaProcessor_AnalyzeCallJmpInstruction g c r rip).
Proof. unfold DianaProcessor_AnalyzeCallJmpInstruction. look. Qed.

Lemma looks_IsAfterCall a : looks (DianaProcessor_IsAfterCall a).
Proof. unfold DianaProcessor_IsAfterCall. look. Qed.

Lemma looks_analyze_stack n : forall ptr rip rsp, looks (analyze_stack_loop n ptr rip rsp).
Proof.
  induction n as [|n IH]; intros; cbn [analyze_stack_loop]; [apply looks_ret|]. unfold context. look.
Qed.

Lemma looks_AnalyzeStack rsp diff a b : looks (AnalyzeStack rsp diff a b).
Proof. apply looks_analyze_stack. Qed.

Lemma looks_stack_value slot size : looks (stack_value slot size).
Proof. unfold stack_value. look. Qed.
End LookingParts.

#[export] Hint Resolve looks_GetMemValue looks_CalcIndex looks_AnalyzeCallJmpInstruction looks_IsAfterCall
  looks_AnalyzeStack looks_stack_value : looks.

Section Walks.
Context {T : Type} `{CodeStreamOk T} {Obs : Type}.
Implicit Types (p : DianaProcessor T) (u : UtilsProcessorContext T Obs) (w : Walk).

Variable Diana_GetNopInfo : DecTypes.DianaCmdInfo.
Variable root : DecTypes.DianaBaseGenObject.
Variable groups : list DianaGroupInfo.
Variable imm_of_other : DianaOperandValue -> Z.
Hypothesis tables : DecTryProofs.tables_ok root.
Hypothesis leads : DecTryProofs.prefixes_lead_on root.
Hypothesis nop_command : DecTypes.m_pGroupInfo Diana_GetNopInfo <> None.
Hypothesis far : DecFarProofs.far_not_in_mode64 Diana_GetNopInfo root.

Abbreviation next_instruction := (next_instruction Diana_GetNopInfo root groups).

(** ** The stream of the walk *)

Section Reading.
Variable u0 : UtilsProcessorContext T Obs.

(** Only the place of reading changes. *)
Definition walker_reading u : Prop :=
  stream_wf (m_pMemoryStream (pCallContext u0)) /\ exists a, u = with_streamPointer (fun _ => a) u0.

Definition walker_code u : list Z := code_at (pCallContext u) (streamPointer u).

Lemma walker_code_ok u : walker_reading u -> Forall byte_ok (walker_code u).
Proof. intros (W & a & ->). now apply mapped_from_ok. Qed.

Lemma walker_read_spec u n st bs u' : walker_reading u -> 0 < n ->
  UtilsProcessorReadStream u n = (st, bs, u') ->
  walker_code u = bs ++ walker_code u' /\ Z.of_nat (length bs) <= n /\ (st <> DI_SUCCESS -> bs = []) /\
  walker_reading u'.
Proof.
  intros (W & a & Eu) Hn. unfold UtilsProcessorReadStream.
  assert (Ep : pCallContext u = pCallContext u0) by now rewrite Eu. rewrite <- Ep in W.
  destruct (pReadFnc _ _ _ _ _) as [[st1 bs1] t1] eqn:R.
  destruct (read_code _ _ _ _ _ _ W Hn R) as (Et & Hl & Hc). subst t1.
  assert (Ewith : with_pCallContext (fun _ => pCallContext u) u = u) by now destruct u.
  change (with_pCallContext (with_pMemoryStream (fun _ => m_pMemoryStream (pCallContext u))) u)
    with (with_pCallContext (fun _ => with_pMemoryStream (fun _ => m_pMemoryStream (pCallContext u)) (pCallContext u)) u).
  rewrite same_memory, Ewith, Ep in *.
  destruct (Z.eqb_spec st1 DI_SUCCESS) as [E|N]; cbn [negb]; intros [= <- <- <-].
  - split; [unfold walker_code; cbn [pCallContext streamPointer with_streamPointer]; rewrite Ep; exact (Hc E)|].
    split; [exact Hl|]. split; [congruence|]. split; [exact W|]. rewrite Eu. eexists. reflexivity.
  - repeat (split; [first [reflexivity|exact W|cbn; lia]|]). now exists a.
Qed.

Definition walker_stream_ok : DecStreams.DianaReadStreamOk (UtilsProcessorContext T Obs) := {|
  DecStreams.content := walker_code;
  DecStreams.stream_ok := walker_reading;
  DecStreams.content_ok := walker_code_ok;
  DecStreams.read_spec := walker_read_spec
|}.
End Reading.

(** ** Between two calls of the observer *)

Section Quiet.
Variable p : DianaProcessor T.
Variable obs : Obs.
Hypothesis memory_wf : stream_wf (m_pMemoryStream p).
Hypothesis mode64 : iMainMode_addressSize (m_context p) = DIANA_MODE64.

(** [m] reads the processor [p] only, and gives what has [V]. *)
Definition quiet {A} (m : W (Obs := Obs) A) (V : A -> Prop) : Prop :=
  forall u, pCallContext u = p -> pCustomContext u = obs ->
    match m u with
    | (Ok a, u') => V a /\ pCallContext u' = p /\ pCustomContext u' = obs
    | (Err _, u') => pCallContext u' = p /\ pCustomContext u' = obs
    | (Crash, _) => False
    end.

Lemma quiet_ret {A} (a : A) (V : A -> Prop) : V a -> quiet (ret a) V.
Proof. intros Ha u E1 E2. cbn. auto. Qed.
Lemma quiet_fail {A} c (V : A -> Prop) : quiet (fail c) V.
Proof. intros u E1 E2. cbn. auto. Qed.

Lemma quiet_bind {A B} (m : W A) (k : A -> W B) V V' :
  quiet m V -> (forall a, V a -> quiet (k a) V') -> quiet (bind m k) V'.
Proof.
  intros Hm Hk u E1 E2. unfold bind. specialize (Hm u E1 E2). destruct (m u) as [[a|c|] u']; auto.
  destruct Hm as (Ha & E3 & E4). now apply Hk.
Qed.

Lemma quiet_weaken {A} (m : W A) (V V' : A -> Prop) : (forall a, V a -> V' a) -> quiet m V -> quiet m V'.
Proof. intros Hv Hm u E1 E2. specialize (Hm u E1 E2). destruct (m u) as [[a|c|] u']; intuition. Qed.

Lemma quiet_stream f : quiet (modify (with_streamPointer f)) (fun _ => True).
Proof. intros u E1 E2. cbn. auto. Qed.
Lemma quiet_gets {A} (f : UtilsProcessorContext T Obs -> A) : quiet (gets f) (fun _ => True).
Proof. intros u E1 E2. cbn. auto. Qed.

(** What a look at the processor gives. *)
Lemma quiet_look {A} (m : MP T A) : looks m ->
  quiet (on_pCallContext m) (fun a => fst (m p) = Ok a).
Proof.
  intros L u E1 E2. unfold on_pCallContext. rewrite E1.
  destruct (looks_run m p L memory_wf) as [(a & E)|(c & E)]; rewrite E; cbn; auto.
Qed.

Lemma quiet_look_any {A} (m : MP T A) : looks m -> quiet (on_pCallContext m) (fun _ => True).
Proof. intros L. eapply quiet_weaken; [|exact (quiet_look m L)]. auto. Qed.

(** The context of the walk between two instructions, and after one that could not be decoded. *)
Record walking (c : DecTypes.DianaContext) : Prop := {
  wk_ready : DecCommandProofs.ready c;
  wk_mode : DecTypes.iMainMode_addressSize c = DIANA_MODE64
}.
Record stopped (c : DecTypes.DianaContext) : Prop := {
  sp_cache : DecHoare.cache_ok c;
  sp_mode : DecTypes.iMainMode_addressSize c = DIANA_MODE64
}.

Lemma walking_stopped c : walking c -> stopped c.
Proof. intros [Hr Hm]. constructor; [apply Hr|exact Hm]. Qed.

Lemma cleared_walking c : stopped c -> walking (DecUtils.Diana_ClearCache c).
Proof. intros [Hc Hm]. constructor; [now apply DecCommandProofs.clear_ready|exact Hm]. Qed.

(** The far jump to 64-bit code is not for 64-bit mode. *)
Lemma near_no_gate info command r c : DecFarProofs.near_result r ->
  is_heavens_gate (mkInstruction (group_of groups info) c (result_view info command r)) = false.
Proof.
  intros (_ & Hn). unfold is_heavens_gate, linked_op. cbn [i_result result_view linkedOperands Z.to_nat].
  destruct (DecTypes.linkedOperands r) as [|op l]; [now rewrite andb_false_r|].
  cbn [forallb] in Hn. apply andb_true_iff in Hn. destruct Hn as (Hop & _). unfold DecFarProofs.near_operand in Hop.
  cbn [map nth operand_view value]. destruct (DecTypes.value op); try discriminate; now rewrite andb_false_r.
Qed.

Lemma next_instruction_ok c : walking c ->
  quiet (next_instruction c) (fun '(o, c') =>
    stopped c' /\
    match o with
    | Ok i => walking c' /\ is_heavens_gate i = false
    | Err _ => True
    | Crash => False
    end).
Proof.
  intros [Hc Hm] u E1 E2. destruct (next_instruction c u) as [o u'] eqn:E.
  unfold StackWalk.next_instruction in E.
  assert (Hr : walker_reading u u).
  { split; [now rewrite E1|]. exists (streamPointer u). now destruct u. }
  pose proof (@DecCommandProofs.Diana_ParseCmd_ok _ _ (walker_stream_ok u) Diana_GetNopInfo root tables
                c DecTypes.zero_result u Hc Hr eq_refl) as H2.
  assert (Hnear : DecFarProofs.near (MemStreams.start c DecTypes.zero_result u)).
  { constructor; [exact Hm|]. split; [discriminate|reflexivity]. }
  destruct (DecFarProofs.Diana_ParseCmd_near Diana_GetNopInfo root far _ Hnear) as ([Hm' Hn] & _).
  unfold DecCommandProofs.call in H2.
  destruct (DecCore.Diana_ParseCmd _ _ _) as [[x|code|] s]; [| |contradiction]; cbn [snd] in Hm', Hn.
  - pose proof (DecCommandProofs.command_done_info _ _ _ _ _ H2) as (info & Ei & Hi).
    destruct (DecCommandProofs.command_done_split _ _ _ _ _ leads H2) as (D & _).
    destruct H2 as ([[_ _ _ (L & Hio & _)] _ _ _ _ _] & _).
    pose proof (DecHoare.io_ok _ _ _ Hio) as (_ & a & Eu). cbn in Eu. rewrite Ei in E.
    destruct (DecTypes.m_pGroupInfo info) as [g|] eqn:Eg.
    2:{ destruct Hi as [Hi|(-> & _)]; [now contradiction Hi|now contradiction nop_command]. }
    injection E as <- <-. rewrite Eu.
    assert (Hw : walking (DecTypes.pContext s)) by now constructor.
    cbn [with_streamPointer pCallContext pCustomContext]. split; [|auto]. split; [now apply walking_stopped|].
    split; [exact Hw|now apply near_no_gate].
  - destruct H2 as (_ & Hk & (_ & a & Eu) & _). injection E as <- <-. rewrite Eu.
    cbn [with_streamPointer pCallContext pCustomContext]. split; [|auto]. now split; [constructor|].
Qed.

(** ** Its parts *)

Lemma quiet_jump_to newRIP w : stopped (w_context w) ->
  quiet (jump_to newRIP w) (fun w' => walking (w_context w')).
Proof.
  intros Hc. eapply quiet_bind; [apply quiet_stream|]. intros _ _. apply quiet_ret.
  now apply cleared_walking.
Qed.

Lemma quiet_enter rsp newRIP w : stopped (w_context w) ->
  quiet (enter_function rsp newRIP w) (fun w' => walking (w_context w')).
Proof. intros Hc. now apply quiet_jump_to. Qed.

Lemma quiet_function_diff n : forall c rip, walking c ->
  quiet (function_diff_loop Diana_GetNopInfo root groups n c rip) (fun _ => True).
Proof.
  induction n as [|n IH]; intros c rip Hc; cbn [function_diff_loop]; [now apply quiet_ret|].
  eapply quiet_bind; [now apply next_instruction_ok|]. intros [[i|code|] c'] (Hk & Hi); [|apply quiet_fail|contradiction].
  destruct Hi as (Hr & _). cbv zeta.
  match goal with |- quiet (if _ then _ else ?r) _ => assert (Hrest : quiet r (fun _ => True)) end.
  { repeat match goal with
    | |- quiet (if ?b then _ else _) _ => destruct b
    | |- quiet (match ?v with _ => _ end) _ => destruct v
    end; auto using @quiet_ret, @quiet_fail. }
  destruct (is_jump i); [|exact Hrest].
  eapply quiet_bind; [apply quiet_look_any; unfold call_target; auto with looks|]. intros newRIP _.
  destruct (_ || _); [|exact Hrest]. eapply quiet_bind; [apply quiet_stream|]. intros _ _.
  apply IH, cleared_walking, Hk.
Qed.

Lemma init_context_walking : walking (DecUtils.Diana_InitContext DIANA_MODE64).
Proof.
  constructor; [|reflexivity].
  constructor; [split; [reflexivity|repeat constructor; discriminate]|discriminate|discriminate|discriminate].
Qed.

Lemma quiet_QueryFunctionDiff rip :
  quiet (DianaProcessor_QueryFunctionDiff Diana_GetNopInfo root groups rip) (fun _ => True).
Proof.
  intros u E1 E2. unfold DianaProcessor_QueryFunctionDiff.
  rewrite E1, mode64.
  pose proof (quiet_function_diff g_scanSize (DecUtils.Diana_InitContext DIANA_MODE64)
                rip init_context_walking (with_streamPointer (fun _ => rip) u) E1 E2) as Hq.
  destruct (function_diff_loop _ _ _ _ _ _ _) as [[d|c|] u']; cbn; tauto.
Qed.

(** An address that a walk may report: it is in a slot of the stack, and directly behind a call. *)
Record reportable (newRIP : Z) : Prop := {
  ra_slot : exists slot size, fst (stack_value slot size p) = Ok (Some newRIP);
  ra_call : fst (DianaProcessor_IsAfterCall newRIP p) = Ok true
}.

Definition route_ok (r : Route) : Prop :=
  match r with
  | Continue w => walking (w_context w)
  | FrameFailed w _ => stopped (w_context w)
  | ReportReturn w newRIP _ _ => stopped (w_context w) /\ reportable newRIP
  end.

Lemma quiet_int w : stopped (w_context w) -> quiet (walk_int w) route_ok.
Proof.
  intros Hc. eapply quiet_bind; [apply quiet_look_any; auto with looks|].
  intros [[newRIP newRSP]|] _; [|now apply quiet_ret].
  eapply quiet_bind; [now apply quiet_enter|]. intros w' Hw. now apply quiet_ret.
Qed.

Lemma quiet_leave w i : walking (w_context w) -> quiet (walk_leave w i) route_ok.
Proof.
  intros Hc. eapply quiet_bind; [apply quiet_look_any; auto with looks|].
  intros [rbp|] _; apply quiet_ret; [exact Hc|now apply walking_stopped].
Qed.

Lemma quiet_track_RBP w i :
  quiet (track_RBP w i) (fun w' => w_context w' = w_context w /\ takenJumps w' = takenJumps w).
Proof.
  eapply (quiet_bind _ _ (fun w' => w_context w' = w_context w /\ takenJumps w' = takenJumps w)).
  - destruct (_ && _); [|now apply quiet_ret]. eapply quiet_bind; [apply quiet_look_any; auto with looks|].
    intros ss _. eapply quiet_bind; [apply quiet_look_any; auto with looks|]. intros [st v] _. now apply quiet_ret.
  - intros w' Hw. destruct (_ && _); now apply quiet_ret.
Qed.

Lemma quiet_ret_route w i : walking (w_context w) -> quiet (walk_ret imm_of_other w i false) route_ok.
Proof.
  intros Hw. pose proof (walking_stopped _ Hw) as Hc. unfold walk_ret.
  eapply (quiet_bind _ _ (fun _ => True)); [destruct (_ && _); now apply quiet_ret|]. intros retSize _. cbv zeta.
  eapply quiet_bind; [apply quiet_look; auto with looks|]. intros [newRIP|] Hs; [|now apply quiet_ret].
  apply (quiet_bind _ _ (fun lost => lost = false -> fst (DianaProcessor_IsAfterCall newRIP p) = Ok true)).
  - destruct (_ <? _); [now apply quiet_ret|].
    eapply quiet_bind; [apply quiet_look; auto with looks|]. intros [|] Ha; apply quiet_ret; auto. discriminate.
  - intros [|] Hl; apply quiet_ret; [exact Hc|]. split; [exact Hc|]. constructor; eauto.
Qed.

Lemma quiet_other w i : walking (w_context w) ->
  quiet (walk_other Diana_GetNopInfo root groups w i) route_ok.
Proof.
  intros Hc. unfold walk_other. destruct (Diana_AnalyzeInstructionStackDiff _ _ _) as [[st diff] isCall].
  eapply (quiet_bind _ _ (fun _ => True)); [|intros d _; now apply quiet_ret].
  destruct isCall; [|now apply quiet_ret].
  eapply quiet_bind; [apply quiet_look_any; unfold call_target; auto with looks|].
  intros [newRIP|] _; [|now apply quiet_ret]. intros u E1 E2.
  pose proof (quiet_QueryFunctionDiff newRIP u E1 E2) as Hq.
  destruct (DianaProcessor_QueryFunctionDiff _ _ _ _ u) as [[d|c|] u']; auto.
Qed.

Lemma quiet_jump w i : walking (w_context w) ->
  quiet (walk_jump Diana_GetNopInfo root groups w i) route_ok.
Proof.
  intros Hc. eapply quiet_bind; [apply quiet_look_any; unfold call_target; auto with looks|].
  intros [newRIP|] _.
  - destruct (_ || _); [|now apply quiet_other]. unfold take_jump. cbv zeta.
    eapply quiet_bind; [apply quiet_jump_to; destruct (negb _); now apply walking_stopped|]. intros w' Hw. now apply quiet_ret.
  - destruct (_ =? _); [now apply quiet_ret, walking_stopped|now apply quiet_other].
Qed.

Lemma quiet_instruction w : walking (w_context w) ->
  quiet (walk_instruction Diana_GetNopInfo root groups imm_of_other w) route_ok.
Proof.
  intros Hc. eapply quiet_bind; [now apply next_instruction_ok|]. intros [[i|code|] c'] (Hk & Hi); cbv zeta.
  2:{ now apply quiet_ret. } 2:{ contradiction. }
  destruct Hi as (Hr & Hi). destruct (i_command i =? diana_cmd_int); [now apply quiet_int|].
  rewrite Hi. destruct (_ && _); [now apply quiet_leave|].
  eapply quiet_bind; [apply quiet_track_RBP|]. intros w2 (Ew & _). cbn [w_context with_w_context] in Ew.
  rewrite <- Ew in Hr. cbn [orb].
  destruct (_ =? _); [now apply quiet_ret_route|]. destruct (is_jump i); [now apply quiet_jump|now apply quiet_other].
Qed.

Lemma quiet_failed_frame slots : forall retSlot w, stopped (w_context w) ->
  quiet (failed_frame_loop slots retSlot w)
    (fun found => match found with
       | Some (newRIP, _, w') => reportable newRIP /\ stopped (w_context w')
       | None => True
       end).
Proof.
  induction slots as [|s slots IH]; intros retSlot w Hc; cbn [failed_frame_loop];
    (eapply (quiet_bind _ _ (fun a => match a with Some newRIP => reportable newRIP | None => True end));
     [destruct (_ <=? _); [|now apply quiet_ret];
      eapply quiet_bind; [apply quiet_look; auto with looks|]; intros [v|] Hv; [|now apply quiet_ret];
      eapply quiet_bind; [apply quiet_look; auto with looks|]; intros [|] Ha; apply quiet_ret; [|exact I];
      constructor; eauto|]);
    intros [newRIP|] Ha; [now apply quiet_ret|now apply quiet_ret|now apply quiet_ret|now apply IH].
Qed.
End Quiet.

(** ** The whole walk *)

Section Observed.
Variable pObserver : Z -> bool -> W (T := T) (Obs := Obs) bool.
(** What the observer keeps of the processor, besides a memory that is well formed and the 64-bit mode,
    and of its own context. *)
Variable I : DianaProcessor T -> Obs -> Prop.

Definition in_mode64 p : Prop :=
  stream_wf (m_pMemoryStream p) /\ iMainMode_addressSize (m_context p) = DIANA_MODE64.

Definition walk_inv u : Prop := in_mode64 (pCallContext u) /\ I (pCallContext u) (pCustomContext u).

(** The observer is called with a return address, and it does its part. *)
Definition observer_ok : Prop := forall u newRIP b, walk_inv u -> reportable (pCallContext u) newRIP ->
  match pObserver newRIP b u with (Crash, _) => False | (_, u') => walk_inv u' end.

Hypothesis observes : observer_ok.

Definition walks {A} (m : W (T := T) (Obs := Obs) A) (V : A -> Prop) : Prop :=
  forall u, walk_inv u ->
    match m u with (Ok a, u') => V a /\ walk_inv u' | (Err _, u') => walk_inv u' | (Crash, _) => False end.

Lemma walks_bind {A B} (m : W A) (k : A -> W B) V V' :
  walks m V -> (forall a, V a -> walks (k a) V') -> walks (bind m k) V'.
Proof.
  intros Hm Hk u Hu. unfold bind. specialize (Hm u Hu). destruct (m u) as [[a|c|] u']; auto.
  destruct Hm as (Ha & Hu'). now apply Hk.
Qed.

Lemma walks_ret {A} (a : A) (V : A -> Prop) : V a -> walks (ret a) V.
Proof. intros Ha u Hu. cbn. auto. Qed.
Lemma walks_gets {A} (f : UtilsProcessorContext T Obs -> A) : walks (gets f) (fun _ => True).
Proof. intros u Hu. cbn. auto. Qed.
Lemma walks_count f : walks (modify (with_reportCount f)) (fun _ => True).
Proof. intros u Hu. cbn. auto. Qed.
Lemma walks_stream f : walks (modify (with_streamPointer f)) (fun _ => True).
Proof. intros u Hu. cbn. auto. Qed.

Lemma walks_look {A} (m : MP T A) : looks m -> walks (on_pCallContext m) (fun _ => True).
Proof.
  intros L u ((Hw & Hm) & Hi). pose proof (quiet_look_any _ (pCustomContext u) Hw m L u eq_refl eq_refl) as Hq.
  unfold walk_inv, in_mode64. destruct (on_pCallContext m u) as [[a|c|] u']; auto; [destruct Hq as (Ha & E1 & E2)|destruct Hq as (E1 & E2)];
    rewrite E1, E2; auto.
Qed.

Lemma report_return_ok w newRIP retSlot retSize u : walk_inv u -> stopped (w_context w) ->
  reportable (pCallContext u) newRIP ->
  match report_return pObserver w newRIP retSlot retSize u with
  | (Ok next, u') => walk_inv u' /\ match next with Some w' => walking (w_context w') | None => True end
  | (Err _, u') => walk_inv u'
  | (Crash, _) => False
  end.
Proof.
  intros Hu Hc Hr. unfold report_return. rewrite bind_modify. set (u1 := with_reportCount _ u).
  pose proof (observes u1 newRIP false Hu Hr) as Ho. unfold bind at 1.
  destruct (pObserver newRIP false u1) as [[[|]|c|] u2]; cbn [negb]; auto.
  - cbv zeta. set (rsp := u64 _).
    pose proof (quiet_enter (pCallContext u2) (pCustomContext u2) rsp newRIP w Hc u2 eq_refl eq_refl) as He.
    unfold bind. destruct (enter_function _ _ _ _) as [[w'|c|] u3]; cbn [ret]; unfold walk_inv.
    + destruct He as (Hw' & E1 & E2). rewrite E1, E2. now split.
    + destruct He as (E1 & E2). now rewrite E1, E2.
    + exact He.
  - cbn. auto.
Qed.

Lemma stack_walk_step_ok w u : walk_inv u -> walking (w_context w) ->
  match walk_step Diana_GetNopInfo root groups imm_of_other pObserver w u with
  | (Ok next, u') => walk_inv u' /\ match next with Some w' => walking (w_context w') | None => True end
  | (Err _, u') => walk_inv u'
  | (Crash, _) => False
  end.
Proof.
  intros Hu Hc. pose proof Hu as ((Hm & H64) & Hi). unfold walk_step, bind at 1.
  pose proof (quiet_instruction (pCallContext u) (pCustomContext u) Hm H64 w Hc u eq_refl eq_refl) as Hq.
  destruct (walk_instruction _ _ _ _ w u) as [[r|c|] u1]; [| |contradiction].
  2:{ destruct Hq as (E1 & E2). unfold walk_inv. now rewrite E1, E2. }
  destruct Hq as (Hr & E1 & E2). assert (Hu1 : walk_inv u1) by (unfold walk_inv; now rewrite E1, E2).
  destruct r as [w'|w' retSize|w' newRIP retSlot retSize]; cbn [route_ok] in Hr.
  - cbn. auto.
  - unfold bind.
    pose proof (quiet_failed_frame (pCallContext u) (pCustomContext u) Hm (jumpSlots w') (current_slot w') w' Hr u1 E1 E2) as Hf.
    destruct (failed_frame_loop _ _ _ u1) as [[found|c|] u2]; [| |contradiction].
    2:{ destruct Hf as (E3 & E4). unfold walk_inv. now rewrite E3, E4. }
    destruct Hf as (Hf & E3 & E4). assert (Hu2 : walk_inv u2) by (unfold walk_inv; now rewrite E3, E4).
    destruct found as [[[newRIP retSlot] w2]|]; [|exact Hu2].
    apply report_return_ok; [exact Hu2|apply Hf|rewrite E3; apply Hf].
  - apply report_return_ok; [exact Hu1|apply Hr|rewrite E1; apply Hr].
Qed.

Lemma walk_loop_ok n : forall w, walking (w_context w) ->
  walks (walk_loop Diana_GetNopInfo root groups imm_of_other pObserver n w) (fun _ => True).
Proof.
  induction n as [|n IH]; intros w Hc u Hu; cbn [walk_loop]; [exact Hu|]. unfold bind.
  pose proof (stack_walk_step_ok w u Hu Hc) as Hs.
  destruct (walk_step _ _ _ _ _ w u) as [[[w'|]|c|] u']; auto; [|cbn; tauto].
  destruct Hs as (Hu' & Hw). now apply IH.
Qed.

Lemma QueryCurrentStack_Impl_ok rip rsp :
  walks (DianaProcessor_QueryCurrentStack_Impl Diana_GetNopInfo root groups imm_of_other pObserver rip rsp)
    (fun _ => True).
Proof.
  eapply walks_bind; [apply walks_look; auto with looks|]. intros rbp _ u Hu. rewrite bind_gets, !bind_modify.
  rewrite (proj2 (proj1 Hu)). apply walk_loop_ok; [exact init_context_walking|exact Hu].
Qed.

Lemma walk_status_ok m : walks m (fun r => r = Some tt) ->
  walks (walk_status m) (fun r => r <> None).
Proof.
  intros Hm u Hu. unfold walk_status. specialize (Hm u Hu). destruct (m u) as [[[x|]|c|] u']; auto.
  - destruct Hm. split; [discriminate|assumption].
  - destruct Hm. discriminate.
  - split; [discriminate|assumption].
Qed.
End Observed.
End Walks.
