(* ===== verification/ExecutionProperties.v ===== *)
(** The properties of execution: every state that instructions, and clearings of the cache after
    failed ones, reach from initialisation is well formed, and instructions are read from the memory
    at RIP.  Both are applied to instructions in a small memory. *)

From Stdlib Require Import ZArith Lia List Bool.
Import ListNotations.
From S2P Require Import Prelude Words Status Registers ProcStreams Processor CmdInternal ProcessorInit.
From S2P Require Import State Operands Invariant RegisterProofs Execution Fetch ExecutionProofs.
From S2P Require DecTypes DecUtils DecTryProofs DecCommandProofs DecModes.
From S2P Require DecSample DecProperties.
Local Open Scope Z_scope.
Local Open Scope diana_scope.

Section Properties.
Context {T : Type} `{CodeStreamOk T}.

(** ** Runs *)

Section Runs.
Variable firePoints : list (Z * (Machine T -> Machine T)).
Variable customProvider : option (Z -> X (T := T) (option (MP T unit))).
Variable other_commands : Z -> option (MP T unit).
Variable Diana_Call_evex : MP T unit.
Variable Diana_GetNopInfo : DecTypes.DianaCmdInfo.
Variable root : DecTypes.DianaBaseGenObject.

Abbreviation exec_once :=
  (DianaProcessor_ExecOnce firePoints customProvider other_commands Diana_Call_evex Diana_GetNopInfo root).

(** Instructions one after the other; after a failed one the embedding program clears the cache. *)
Inductive runs (x : Machine T) : Machine T -> Prop :=
| runs_start : runs x x
| runs_instruction y z : runs x y -> exec_once y = (Ok tt, z) -> runs x z
| runs_recovery y code z z' : runs x y -> exec_once y = (Err code, z) ->
    DianaProcessor_ClearCache z = (Ok tt, z') -> runs x z'.

Lemma runs_machine_ok x y : DecTryProofs.tables_ok root -> DecTryProofs.prefixes_lead_on root ->
  callbacks_ok firePoints customProvider other_commands Diana_Call_evex ->
  machine_ok x -> runs x y -> machine_ok y.
Proof.
  intros Ht Hl Hc M R. induction R as [|y z _ IH E|y code z z' _ IH E Ec]; [exact M|..];
    pose proof (ExecOnce_ok Diana_GetNopInfo root Ht Hl _ _ _ _ Hc y IH) as Hy; rewrite E in Hy; [exact Hy|].
  destruct (ClearCache_ok z Hy) as (z1 & E1 & M1). rewrite E1 in Ec. now injection Ec as <-.
Qed.
End Runs.

(** The machine after [DianaProcessor_Init], with the result still zero. *)
Definition initial_machine (t : T) (mode : Z) (r : DecTypes.DianaParserResult) : Machine T :=
  mkMachine (initial t mode) (DecUtils.Diana_InitContext mode) r.

Lemma initial_machine_ok t mode r : stream_wf t -> In mode [2; 4; 8] ->
  length (DecTypes.bytes r) = 16%nat -> machine_ok (initial_machine t mode r).
Proof.
  intros W Hm Hr.
  assert (Hd : DecCommandProofs.ready (DecUtils.Diana_InitContext mode) /\
               DecTypes.cacheSize (DecUtils.Diana_InitContext mode) = 0)
    by (destruct Hm as [<-|[<-|[<-|[]]]];
        [exact (DecCommandProofs.init_ready 2 DecTypes.DIANA_ARCH_X86)|exact (DecCommandProofs.init_ready 4 DecTypes.DIANA_ARCH_X86)|
         exact (DecCommandProofs.init_ready 8 DecTypes.DIANA_ARCH_X86)]).
  constructor; [constructor|exact (proj1 Hd)|exact (proj2 Hd)]; cbn [processor decoder decoded initial_machine].
  - split; [now apply initial_wf|]. split; [|apply initial_idle].
    destruct Hm as [<-|[<-|[<-|[]]]]; unfold opsize; cbn; tauto.
  - exact (DecCommandProofs.rd_cache _ (proj1 Hd)).
  - destruct Hm as [<-|[<-|[<-|[]]]]; constructor; unfold opsize; cbn; tauto.
  - exact Hr.
Qed.

(** C3: execution stays well formed.  Whatever instructions run after initialisation in a mode of
    16, 32 or 64 bits, and wherever one fails and the cache is cleared, the machine is well formed:
    the processor is ready, the decoder's context is, and the next byte it reads lies exactly as far
    behind RIP as there are unread bytes in its cache.  From such a state [DianaProcessor_ExecOnce]
    gets to the handler of the instruction without undefined behaviour: it ends well formed, or
    with a status after which clearing the cache is enough, or the handler crashed. *)
Theorem execution_stays_well_formed
    (firePoints : list (Z * (Machine T -> Machine T)))
    (customProvider : option (Z -> X (T := T) (option (MP T unit))))
    (other_commands : Z -> option (MP T unit)) (Diana_Call_evex : MP T unit)
    (Diana_GetNopInfo : DecTypes.DianaCmdInfo) (root : DecTypes.DianaBaseGenObject)
    (m_alloc : allocator) (block : list Z) (t : T) (mode : Z) (r : DecTypes.DianaParserResult)
    (p : DianaProcessor T) (x : Machine T) :
  DecTryProofs.tables_ok root -> DecTryProofs.prefixes_lead_on root ->
  callbacks_ok firePoints customProvider other_commands Diana_Call_evex ->
  m_alloc DI_REG_INIT_VALUE = Some block -> Z.of_nat (length block) = DI_REG_INIT_VALUE ->
  stream_wf t -> In mode [2; 4; 8] -> length (DecTypes.bytes r) = 16%nat ->
  DianaProcessor_Init m_alloc t mode = (Ok tt, p) ->
  runs firePoints customProvider other_commands Diana_Call_evex Diana_GetNopInfo root
    (mkMachine p (DecUtils.Diana_InitContext mode) r) x ->
  machine_ok x /\
  match DianaProcessor_ExecOnce firePoints customProvider other_commands Diana_Call_evex
          Diana_GetNopInfo root x with
  | (Ok _, x') => machine_ok x'
  | (Err _, x') => exists x'', DianaProcessor_ClearCache x' = (Ok tt, x'') /\ machine_ok x''
  | (Crash, x') => exists rip x1, between rip x1 /\
      execute_step customProvider other_commands Diana_Call_evex rip x1 = (Crash, x')
  end.
Proof.
  intros Ht Hl Hc Ha Hb W Hm Hr E R.
  rewrite (Init_runs m_alloc block t mode Ha (block_length block Hb)) in E. injection E as <-.
  pose proof (runs_machine_ok _ _ _ _ _ _ _ x Ht Hl Hc (initial_machine_ok t mode r W Hm Hr) R) as M.
  split; [exact M|].
  pose proof (ExecOnce_ok Diana_GetNopInfo root Ht Hl _ _ _ _ Hc x M) as Hx.
  destruct (DianaProcessor_ExecOnce _ _ _ _ _ _ x) as [[u|c|] x']; [exact Hx|now apply ClearCache_ok|exact Hx].
Qed.

(** C4: the instruction that runs is the one in memory at RIP.  When [DianaProcessor_ExecOnce]
    succeeds, the bytes of the decoded instruction, at most 15, are those of the memory at CS:RIP,
    also when they were read ahead; without a jump RIP has moved by their number; and if the
    instruction had no legacy prefix and wrote neither the memory nor CS, what the decoder holds is
    again the memory at the new RIP. *)
Theorem instructions_come_from_memory
    (other_commands : Z -> option (MP T unit)) (Diana_Call_evex : MP T unit)
    (Diana_GetNopInfo : DecTypes.DianaCmdInfo) (root : DecTypes.DianaBaseGenObject) (x x' : Machine T) :
  DecTryProofs.tables_ok root -> DecTryProofs.prefixes_lead_on root ->
  callbacks_ok [] None other_commands Diana_Call_evex ->
  machine_ok x -> in_memory x ->
  DianaProcessor_ExecOnce [] None other_commands Diana_Call_evex Diana_GetNopInfo root x = (Ok tt, x') ->
  let rip := rval (processor x) reg_RIP in
  let size := DecTypes.iFullCmdSize (decoded x') in
  0 <= size <= DecTypes.DI_MAX_INSTRUCTION_SIZE /\
  firstn (Z.to_nat size) (DecTypes.bytes (decoded x')) = firstn (Z.to_nat size) (code_at (processor x) rip) /\
  (temp_valid (processor x') = true -> rval (processor x') reg_RIP = u64 (rip + size)) /\
  (DecTypes.lastPrefixBeforeRex (decoder x') = DecTypes.DI_FULL_CHAR_NULL ->
   m_pMemoryStream (processor x') = m_pMemoryStream (processor x) ->
   register_now (processor x') reg_CS = register_now (processor x) reg_CS -> in_memory x').
Proof. intros Ht Hl Hc. exact (ExecOnce_runs_memory Diana_GetNopInfo root Ht Hl _ _ _ _ Hc x x' eq_refl). Qed.
End Properties.

(** [mov eax, ecx], [push rax], [rep movsb], then zeros. *)
Definition code_memory : DianaRandomMemoryStream :=
  mkDianaRandomMemoryStream (DecProperties.sample_code ++ repeat 0 59) 64 0.

Lemma code_memory_wf : memory_stream_wf code_memory.
Proof.
  split; [reflexivity|]. split; [reflexivity|]. apply Forall_app.
  split; [exact DecProperties.sample_code_ok|apply repeat_bytes].
Qed.

Definition start_machine : Machine DianaRandomMemoryStream :=
  initial_machine code_memory DIANA_MODE64 DecTypes.zero_result.

Lemma start_machine_ok : machine_ok start_machine.
Proof.
  apply initial_machine_ok; [exact code_memory_wf|right; right; left; reflexivity|reflexivity].
Qed.

Abbreviation first_instruction :=
  (DianaProcessor_ExecOnce [] None (fun _ => None) (fail DI_UNSUPPORTED_COMMAND)
     DecSample.cmd_nop DecSample.sample_root start_machine).

Lemma no_callbacks :
  @callbacks_ok DianaRandomMemoryStream _ _ [] None (fun _ => None) (fail DI_UNSUPPORTED_COMMAND).
Proof.
  constructor; try discriminate; [intros a f x []|apply keeps_fail].
Qed.

Lemma first_instruction_ok :
  fst first_instruction = Ok tt /\
  temp_valid (processor (snd first_instruction)) = true /\
  DecTypes.iFullCmdSize (decoded (snd first_instruction)) = 2 /\
  rval (processor start_machine) reg_RIP = 0.
Proof. vm_compute. repeat split. Qed.

Lemma execution_stays_well_formed_witness :
  exists x', first_instruction = (Ok tt, x') /\ machine_ok x'.
Proof.
  pose proof (execution_stays_well_formed [] None (fun _ => None) (fail DI_UNSUPPORTED_COMMAND)
    DecSample.cmd_nop DecSample.sample_root plenty (repeat 0xCD 4096) code_memory DIANA_MODE64
    DecTypes.zero_result (initial code_memory DIANA_MODE64) start_machine
    DecProperties.sample_tables_ok DecProperties.sample_leads_on no_callbacks eq_refl) as H.
  destruct H as (_ & H); [now rewrite repeat_length|exact code_memory_wf|right; right; left; reflexivity|reflexivity
    |apply (Init_runs plenty (repeat 0xCD 4096)); [reflexivity|apply repeat_length]|constructor|].
  pose proof (proj1 first_instruction_ok) as E.
  destruct first_instruction as [[[]|c|] x']; try discriminate E. exists x'. now split.
Defined.

Lemma instructions_come_from_memory_witness :
  exists x', first_instruction = (Ok tt, x') /\ rval (processor x') reg_RIP = 2.
Proof.
  pose proof first_instruction_ok as (E & V & S & R).
  destruct first_instruction as [[[]|c|] x'] eqn:Ex; try discriminate E. exists x'. split; [reflexivity|].
  cbn [snd] in *.
  destruct (instructions_come_from_memory (fun _ => None) (fail DI_UNSUPPORTED_COMMAND) DecSample.cmd_nop
    DecSample.sample_root start_machine x' DecProperties.sample_tables_ok DecProperties.sample_leads_on
    no_callbacks start_machine_ok ltac:(discriminate) Ex) as (_ & _ & H & _).
  rewrite (H V), S, R. reflexivity.
Defined.
