(* ===== verification/StackWalkProperties.v ===== *)
(** The properties of the stack analysis: what an instruction does to the stack pointer, the chain
    of frames, and the walk over return addresses. *)

From Stdlib Require Import ZArith Lia List Bool.
Import ListNotations.
From S2P Require Import Prelude Words Status Registers ProcStreams Processor CmdInternal CmdArith CmdFlow CmdStack.
From S2P Require Import CmdString State Exec Operands Rules ArithProofs RegisterProofs FlowProofs MulDivProofs Loops StackProofs.
From S2P Require Import ProcessorInit RegisterProofs Sample DecTables Execution Fetch StackWalk StackWalkProofs.
From S2P Require DecTypes DecTryProofs DecFarProofs DecSample DecProperties.
Local Open Scope Z_scope.
Local Open Scope diana_scope.

(** ** What an instruction does to the stack pointer *)

Section Diffs.
Context {T : Type} `{RandomStreamOk T}.
Implicit Types s : DianaProcessor T.

(** The group of a command after [Diana_Init]. *)
Definition group (c : Z) : DianaGroupInfo := InitJmps (mkDianaGroupInfo c None).

(** [s'] is where the analysis of the instruction in [s], of command [c], says. *)
Definition follows (c : Z) s s' : Prop :=
  exists diff, Diana_AnalyzeInstructionStackDiff (Some (group c)) (m_context s) (m_result s) =
                 (DI_SUCCESS, diff, c =? DecTypes.diana_cmd_call) /\
    stack_pointer s' = (stack_pointer s + diff) mod modulus (address_size s).

Lemma follows_rsp c s s' diff : wf s -> wf s' -> opsize (address_size s) ->
  address_size s' = address_size s ->
  Diana_AnalyzeInstructionStackDiff (Some (group c)) (m_context s) (m_result s) =
    (DI_SUCCESS, diff, c =? DecTypes.diana_cmd_call) ->
  rval s' reg_RSP = u64 (rval s reg_RSP + diff) -> follows c s s'.
Proof.
  intros W W' Ha Ea Ed Er. exists diff. split; [exact Ed|].
  pose proof (opsize_pos _ Ha) as Hp. pose proof (int_regs_ok _ (gprs_int _ rsp_gpr)) as R.
  unfold stack_pointer. rewrite Ea.
  rewrite <- (window_mod s' reg_RSP (address_size s) 8), <- (window_mod s reg_RSP (address_size s) 8) by (auto; lia).
  change (window s' reg_RSP 8) with (rval s' reg_RSP). change (window s reg_RSP 8) with (rval s reg_RSP).
  rewrite Er, Z.add_mod_idemp_l by (apply Z.pow_nonzero; lia). apply u64_mod, Ha.
Qed.

Lemma push_follows s x m : stacked s -> idle s -> push_room s -> reads s 0 x m ->
  follows DecTypes.diana_cmd_push s (snd (Call Diana_Call_push s)).
Proof.
  intros S I R Rd. rewrite (push_run s x m) by assumption. cbn [snd]. exists (0 - op_size s).
  split; [reflexivity|]. rewrite (proj1 (push_done_top _ s S R)).
  pose proof (stack_pointer_range s S). pose proof (opsize_pos _ (st_opsize s S)).
  rewrite Z.mod_small; [lia|]. destruct R. lia.
Qed.

Lemma pop_follows s v x m r : stacked s -> idle s -> on_top s v -> reads s 0 x m ->
  value (linked_op (m_result s) 0) = diana_register r -> off_stack r -> writes (popped s) 0 m ->
  follows DecTypes.diana_cmd_pop s (snd (Call Diana_Call_pop s)).
Proof.
  intros S I O Rd Er Or Wr. rewrite (pop_run s v x m m) by assumption. cbn [snd]. exists (op_size s).
  split; [reflexivity|]. unfold put_operand. change (m_result (popped s)) with (m_result s). rewrite Er.
  assert (E : stack_pointer (put_register r v (popped s)) = stack_pointer (popped s)).
  { pose proof (stacked_popped s S) as S'. pose proof (opsize_pos _ (st_address s S)). destruct Or as (G & A).
    apply put_register_apart; auto with diana; [apply S'|apply (st_address s S)|].
    change (address_size (put_register r v (popped s))) with (address_size s). lia. }
  rewrite E. unfold popped. rewrite stack_pointer_put by exact S. apply u64_mod, S.
Qed.

Lemma pusha_follows s rs : stacked s -> idle s -> saves s rs -> rooms 8 s ->
  follows diana_cmd_pusha s (snd (Call Diana_Call_pusha s)).
Proof.
  intros S I Sv R. destruct (pusha_saves s rs S I Sv R) as (-> & V). cbn [snd]. exists (0 - op_size s * 8).
  split; [reflexivity|]. rewrite (sv_pointer _ _ _ _ V), length_rev, length_map.
  replace (length rs) with 8%nat by (destruct Sv as [(_ & ->)|(_ & ->)]; reflexivity).
  pose proof (stack_pointer_range s S). pose proof (opsize_pos _ (st_opsize s S)). destruct R as (Hr & _).
  rewrite Z.mod_small; lia.
Qed.

Lemma popa_follows s a b c d e g h i : frame s [a; b; c; d; e; g; h; i] -> idle s ->
  op_size s = 4 \/ op_size s = 2 -> follows diana_cmd_popa s (snd (Call Diana_Call_popa s)).
Proof.
  intros Fr I Ho. pose proof (fr_stacked s _ Fr) as S. pose proof (wf_flag_word s (st_wf s S)) as Hf.
  assert (E : exists rs done, Diana_Call_popa (tw (m_flags s) false s) = (Ok tt, tw (m_flags s) false (restored rs s)) /\
                loading s 8 [] done (restored rs s)).
  { unfold Diana_Call_popa, context. rewrite bind_gets.
    change (iCurrentCmd_opsize (m_context (tw (m_flags s) false s))) with (op_size s).
    destruct Ho as [O|O]; rewrite O; cbn [Z.eqb Pos.eqb].
    - destruct (popa32_tw _ _ _ _ _ _ _ _ (m_flags s) false s Fr O Hf) as (E & L). eauto.
    - destruct (popa16_tw _ _ _ _ _ _ _ _ (m_flags s) false s Fr O Hf) as (E & L). eauto. }
  destruct E as (rs & done & E & L).
  rewrite (Call_idle _ s (restored rs s) E (restored_flags rs s) (ld_idle _ _ _ _ _ L I)). cbn [snd].
  exists (op_size s * 8). split; [reflexivity|]. pose proof (ld_pointer _ _ _ _ _ L) as P.
  pose proof (stack_pointer_range _ (fr_stacked _ _ (ld_frame _ _ _ _ _ L))) as R.
  rewrite P in R |- *. symmetry. rewrite (Z.mul_comm (op_size s)). apply Z.mod_small.
  replace (address_size s) with (address_size (restored rs s)); [exact R|].
  clear. unfold restored. revert s. induction rs as [|[[q|] w] rs IH]; intros s; cbn [fold_left fst snd]; auto;
    now rewrite IH.
Qed.

Lemma call_follows s rel : calls s rel -> opsize (address_size s) ->
  follows DecTypes.diana_cmd_call s (snd (Call Diana_Call_call s)).
Proof.
  intros C Ha. rewrite (call_run s rel C). cbn [snd].
  apply (follows_rsp _ s (called s rel) (- op_size s) (cl_wf s rel C)); auto.
  - pose proof (wf_saved_return s rel C). unfold called. apply wf_put_rip; [|right; right; now right].
    auto using wf_lastCall with diana.
  - now rewrite rval_called_rsp.
Qed.

Lemma ret_follows s v d : wf s -> idle s -> ret_drops s d -> d < 2 ^ 62 -> ret_target s v ->
  opsize (address_size s) -> opsize (op_size s) ->
  follows DecTypes.diana_cmd_ret s (snd (Call Diana_Call_ret s)).
Proof.
  intros W I D Hd L Ha Ho. rewrite (ret_run s v d W I D L). cbn [snd]. pose proof (opsize_pos _ Ho).
  assert (Hd0 : 0 <= d) by (destruct D as [(_ & ->)|(_ & _ & m & _ & _ & Hx)]; lia).
  apply (follows_rsp _ s (returned s v d) (op_size s + d)); auto.
  - unfold returned. apply wf_put_rip; [auto with diana|right; right; now right].
  - unfold Diana_AnalyzeInstructionStackDiff. cbn -[s64 u64]. fold (op_size s).
    destruct D as [(C & ->)|(C & Ev & _)]; rewrite C; cbn -[s64 u64].
    + now rewrite Z.add_0_r.
    + rewrite Ev. rewrite u64_small, s64_id by lia. reflexivity.
  - unfold returned. rewrite rval_put_rip_gpr, put_register_same by auto with diana.
    rewrite Z.add_assoc. apply Z.mod_small, u64_range.
Qed.

(** [add rsp, imm] and [sub rsp, imm], with an immediate that is not negative at its size. *)
Record adjusts s (x m : Z) : Prop := {
  aj_binary : binary s (rval s reg_RSP) 8 x m;
  aj_count : iLinkedOpCount (m_result s) = 2;
  aj_rsp : value (linked_op (m_result s) 0) = diana_register reg_RSP;
  aj_imm : value (linked_op (m_result s) 1) = diana_imm x;
  aj_small : 2 * x < modulus m;
  aj_address : opsize (address_size s)
}.

Lemma small_immediate s x m : adjusts s x m -> sign_extend m 8 x = x /\ 0 <= x < 2 ^ 63.
Proof.
  intros [[_ _ _ (_ & Hm & Hx) _ _] _ _ _ Hs _]. pose proof (modulus_word _ Hm) as Hw.
  change 0x10000000000000000 with (2 ^ 64) in Hw. split; [|lia].
  unfold sign_extend, signed. replace (x <? half m) with true.
  - apply Z.mod_small. change (modulus 8) with (2 ^ 64). lia.
  - symmetry. apply Z.ltb_lt. destruct Hm as [->|[->|[->| ->]]]; unfold half, modulus in *; simpl Z.pow in *; lia.
Qed.

Lemma adjust_follows c s f e x m : adjusts s x m -> flag_word f ->
  c = diana_cmd_add /\ e = x \/ c = diana_cmd_sub /\ e = - x ->
  follows c s (with_flags (fun _ => f) (put_operand 0 ((rval s reg_RSP + e) mod modulus 8) s)).
Proof.
  intros A Hf Hc. pose proof (bi_wf _ _ _ _ _ (aj_binary s x m A)) as W.
  destruct (small_immediate s x m A) as (_ & Hx). pose proof A as [_ En Ed Ei _ Ha].
  unfold put_operand. rewrite Ed. set (s1 := put_register _ _ _).
  assert (W1 : wf s1) by (unfold s1; auto with diana).
  assert (Ediff : Diana_AnalyzeInstructionStackDiff (Some (group c)) (m_context s) (m_result s) =
                    (DI_SUCCESS, e, c =? DecTypes.diana_cmd_call)).
  { unfold Diana_AnalyzeInstructionStackDiff, Diana_AnalyzeInstructionStackDiff_KnownCommands, is_register_in.
    destruct Hc as [(-> & ->)|(-> & ->)]; cbn -[s64 u64]; rewrite En, Ed, Ei; cbn -[s64 u64].
    - now rewrite s64_id by lia.
    - do 2 f_equal. unfold s64. rewrite u64_small by apply u64_range. unfold u64.
      change 0x10000000000000000 with (2 ^ 64). change 0x8000000000000000 with (2 ^ 63).
      destruct (Z.eq_dec x 0) as [->|N]; [reflexivity|].
      rewrite <- (Z.mod_add _ 1) by discriminate. rewrite Z.mod_small by lia. zcases; lia. }
  eapply follows_rsp; [exact W| |exact Ha|reflexivity|exact Ediff|].
  - destruct W1. now constructor.
  - change (rval (with_flags (fun _ => f) s1) reg_RSP) with (rval s1 reg_RSP). unfold s1.
    rewrite put_register_same by auto with diana. apply Z.mod_mod. discriminate.
Qed.

Lemma add_follows s x m : adjusts s x m -> follows diana_cmd_add s (snd (Call Diana_Call_add s)).
Proof.
  intros A. pose proof (aj_binary s x m A) as B. rewrite (add_run s _ _ _ _ B).
  destruct (small_immediate s x m A) as (Ex & Hx). cbv zeta. rewrite Ex. cbn [snd].
  eapply adjust_follows; [exact A| |auto]. 
  pose proof (wf_flag_word s (bi_wf _ _ _ _ _ B)). auto with diana.
Qed.

Lemma sub_follows s x m : adjusts s x m -> follows diana_cmd_sub s (snd (Call Diana_Call_sub s)).
Proof.
  intros A. pose proof (aj_binary s x m A) as B. rewrite (sub_run s _ _ _ _ B).
  destruct (small_immediate s x m A) as (Ex & Hx). cbv zeta. rewrite Ex. cbn [snd].
  eapply adjust_follows; [exact A| |auto]. 
  pose proof (wf_flag_word s (bi_wf _ _ _ _ _ B)). auto with diana.
Qed.
End Diffs.

(** ** The chain of frames *)

(** An observer that writes down what it is told, latest first, and never stops. *)
Definition record_address {T} (newRIP : Z) (u : UtilsProcessorContext T (list Z)) :=
  mkUtilsProcessorContext (pCallContext u) (streamPointer u) (reportCount u) (newRIP :: pCustomContext u).
Definition recorder {T} `{RandomStream T} (newRIP : Z) (_ : bool) : W (T := T) (Obs := list Z) bool :=
  modify (record_address newRIP) ;;; ret true.

Section Frames.
Context {T : Type} `{CodeStreamOk T}.
Implicit Types (p : DianaProcessor T) (u : UtilsProcessorContext T (list Z)).

(** At SS:[ebp] are the frame pointer of the caller and a return address that can be read. *)
Definition frame_at p (ebp next retAddress : Z) : Prop :=
  0 <= next < 2 ^ 32 /\
  loads (m_pMemoryStream p) (register_now p reg_SS) ebp 8 reg_SS (next + 2 ^ 32 * retAddress) /\
  exists v, loads (m_pMemoryStream p) (register_now p reg_CS) retAddress (address_size p) reg_SS v.

(** The return addresses of a chain that ends. *)
Inductive chain p : Z -> list Z -> Prop :=
| chain_end ebp : (forall next a, ~ frame_at p ebp next a) -> chain p ebp []
| chain_next ebp next a l : frame_at p ebp next a -> chain p next l -> chain p ebp (a :: l).

Lemma loads_dec t sel addr n seg : stream_wf t -> 0 < n ->
  (exists v, loads t sel addr n seg v) \/ (forall v, ~ loads t sel addr n seg v).
Proof.
  intros W Hn. rewrite <- (Z2Nat.id n) in * by lia.
  destruct (mapped_dec t sel addr (Z.to_nat n)) as [M|(i & Hi & C)].
  - left. now apply mapped_loads.
  - right. intros v L. exact (loads_mapped _ _ _ _ _ _ W Hn L i Hi C).
Qed.

Lemma frame_parts bs : Z.of_nat (length bs) = 8 -> Forall byte_ok bs ->
  le_decode bs = le_decode (firstn 4 bs) + 2 ^ 32 * le_decode (skipn 4 bs) /\
  0 <= le_decode (firstn 4 bs) < 2 ^ 32.
Proof.
  intros L B. assert (L4 : length (firstn 4 bs) = 4%nat) by (rewrite length_firstn; lia).
  rewrite <- (firstn_skipn 4 bs), Forall_app in B. destruct B as (B & _).
  pose proof (le_decode_range _ B) as Rg. rewrite L4 in Rg. split; [|exact Rg].
  rewrite <- (firstn_skipn 4 bs) at 1. now rewrite le_decode_app, L4.
Qed.

Lemma loads_inj t sel addr n seg v w : loads t sel addr n seg v -> loads t sel addr n seg w -> v = w.
Proof. intros (a & E & _ & <- & _) (b & E' & _ & <- & _). congruence. Qed.

Lemma GetMemValue_unmapped sel addr n seg p : stream_wf (m_pMemoryStream p) -> 0 < n ->
  (forall v, ~ loads (m_pMemoryStream p) sel addr n seg v) ->
  exists c, DianaProcessor_GetMemValue sel addr n seg p = (Err c, p).
Proof.
  intros W Hn N. destruct (looks_run _ p (looks_GetMemValue sel addr n seg) W) as [(v & E)|E]; [|exact E].
  destruct (GetMemValue_inv _ _ _ _ _ _ _ W Hn E) as (L & _). now contradiction (N v).
Qed.

Lemma ReadMemory_unmapped sel addr n seg p : stream_wf (m_pMemoryStream p) -> 0 < n ->
  (forall v, ~ loads (m_pMemoryStream p) sel addr n seg v) ->
  exists st bs, DianaProcessor_ReadMemory sel addr n seg p = (Ok (st, bs), p) /\
    (st = DI_SUCCESS -> Z.of_nat (length bs) <> n).
Proof.
  intros W Hn N. unfold DianaProcessor_ReadMemory. pose proof (read_same _ sel addr n seg W) as Es.
  destruct (pReadFnc _ _ _ _ _) as [[st bs] t] eqn:R. cbn in Es. subst t. exists st, bs.
  rewrite same_memory. split; [reflexivity|]. intros -> L.
  destruct (read_ok_same _ _ _ _ _ _ _ W Hn R L) as (_ & _ & B). apply (N (le_decode bs)). now exists bs.
Qed.

(** One round. *)
Lemma GET_REG_eq r p : GET_REG r p = (Ok (register_now p r), p).
Proof. reflexivity. Qed.

Lemma frame_round fuel ebp next a b u : frame_at (pCallContext u) ebp next a ->
  frame_loop recorder (S fuel) ebp b u =
  frame_loop recorder fuel next true (record_address a (with_reportCount (fun n => s32 (n + 1)) u)).
Proof.
  intros (Hn & (bs & R & Hl & D & B) & v & L). cbn [frame_loop].
  unfold on_pCallContext at 1. unfold bind at 1. rewrite GET_REG_eq.
  assert (Eu : with_pCallContext (fun _ => pCallContext u) u = u) by now destruct u. rewrite Eu.
  unfold bind at 1, on_pCallContext at 1, DianaProcessor_ReadMemory. rewrite R, same_memory, Eu.
  change (DI_SUCCESS =? DI_SUCCESS) with true. rewrite Hl. cbn [negb Z.eqb Pos.eqb].
  assert (E : le_decode (firstn 4 bs) = next /\ le_decode (skipn 4 bs) = a).
  { destruct (frame_parts bs Hl B) as (E & Rg). rewrite E in D. lia. }
  destruct E as (E1 & E2). rewrite E1, E2.
  unfold bind at 1, on_pCallContext at 1. rewrite GET_REG_eq, Eu. rewrite bind_gets.
  unfold bind at 1, on_pCallContext at 1.
  change (iCurrentCmd_addressSize (m_context (pCallContext u))) with (address_size (pCallContext u)).
  rewrite (GetMemValue_run _ _ _ _ _ _ L), Eu. reflexivity.
Qed.

Lemma frame_stop fuel ebp b u : stream_wf (m_pMemoryStream (pCallContext u)) ->
  0 < address_size (pCallContext u) -> (forall next a, ~ frame_at (pCallContext u) ebp next a) ->
  exists c, frame_loop recorder (S fuel) ebp b u = (Err c, u).
Proof.
  intros W Hs N. cbn [frame_loop].
  unfold on_pCallContext at 1. unfold bind at 1. rewrite GET_REG_eq.
  assert (Eu : with_pCallContext (fun _ => pCallContext u) u = u) by now destruct u. rewrite Eu.
  unfold bind at 1, on_pCallContext at 1.
  destruct (loads_dec _ (register_now (pCallContext u) reg_SS) ebp 8 reg_SS W ltac:(lia)) as [(v & L)|U].
  - destruct L as (bs & R & Hl & D & B). unfold DianaProcessor_ReadMemory. rewrite R, same_memory, Eu.
    change (DI_SUCCESS =? DI_SUCCESS) with true. rewrite Hl. cbn [negb Z.eqb Pos.eqb].
    unfold bind at 1, on_pCallContext at 1. rewrite GET_REG_eq, Eu. rewrite bind_gets.
    set (a := le_decode (skipn 4 bs)). unfold bind at 1, on_pCallContext at 1.
    destruct (frame_parts bs Hl B) as (Ev & Rg).
    destruct (loads_dec _ (register_now (pCallContext u) reg_CS) a (address_size (pCallContext u)) reg_SS W Hs)
      as [La|Ua].
    + exfalso. apply (N (le_decode (firstn 4 bs)) a). split; [exact Rg|]. split; [|exact La].
      now exists bs.
    + destruct (GetMemValue_unmapped _ _ _ _ _ W Hs Ua) as (c & E).
      change (iCurrentCmd_addressSize (m_context (pCallContext u))) with (address_size (pCallContext u)).
      rewrite E, Eu. now exists c.
  - destruct (ReadMemory_unmapped _ _ _ _ _ W (eq_refl : 0 < 8) U) as (st & bs & E & Hl). rewrite E, Eu.
    destruct (Z.eqb_spec st DI_SUCCESS) as [Est|]; cbn [negb]; [|now exists st].
    destruct (Z.eqb_spec (Z.of_nat (length bs)) 8) as [|]; [now apply Hl in Est|]. now exists DI_ERROR.
Qed.

Lemma frame_dec p ebp : stream_wf (m_pMemoryStream p) -> 0 < address_size p ->
  (exists next a, frame_at p ebp next a) \/ (forall next a, ~ frame_at p ebp next a).
Proof.
  intros W Hs. destruct (loads_dec _ (register_now p reg_SS) ebp 8 reg_SS W ltac:(lia)) as [(v & L)|U].
  2:{ right. intros next a (_ & L & _). exact (U _ L). }
  destruct (loads_dec _ (register_now p reg_CS) (v / 2 ^ 32) (address_size p) reg_SS W Hs) as [La|Ua].
  - left. exists (v mod 2 ^ 32), (v / 2 ^ 32). split; [apply Z.mod_pos_bound; lia|]. split; [|exact La].
    rewrite Z.add_comm, <- Z.div_mod by lia. exact L.
  - right. intros next a (Hn & L' & w & Lw). pose proof (loads_inj _ _ _ _ _ _ _ L L') as ->.
    rewrite Z.mul_comm, Z.div_add, Z.div_small, Z.add_0_l in Ua by lia. exact (Ua _ Lw).
Qed.

Lemma chain_reported p ebp l : chain p ebp l -> stream_wf (m_pMemoryStream p) -> 0 < address_size p ->
  forall fuel b u, pCallContext u = p -> (length l < fuel)%nat ->
  exists c u', frame_loop recorder fuel ebp b u = (Err c, u') /\ pCallContext u' = p /\
    pCustomContext u' = rev l ++ pCustomContext u.
Proof.
  intros Hc W Hs. induction Hc as [ebp N|ebp next a l Hf Hc IH]; intros [|fuel] b u <- Hl; cbn [length] in Hl; try lia.
  - destruct (frame_stop fuel ebp b u W Hs N) as (c & E). now exists c, u.
  - rewrite (frame_round fuel ebp next a b u Hf).
    set (u1 := record_address _ _).
    destruct (IH fuel true u1 eq_refl ltac:(lia)) as (c & u' & E & Ep & Ec).
    exists c, u'. split; [exact E|]. split; [exact Ep|]. rewrite Ec. cbn [rev]. now rewrite <- app_assoc.
Qed.

Lemma endless_chain p : stream_wf (m_pMemoryStream p) -> 0 < address_size p ->
  forall fuel ebp b u, pCallContext u = p -> (forall l, ~ chain p ebp l) ->
  fst (frame_loop recorder fuel ebp b u) = Ok None.
Proof.
  intros W Hs. induction fuel as [|fuel IH]; intros ebp b u Eu N; [reflexivity|].
  destruct (frame_dec p ebp W Hs) as [(next & a & Hf)|Nf].
  - rewrite (frame_round fuel ebp next a b u) by now rewrite Eu. apply IH; [exact Eu|].
    intros l Hl. apply (N (a :: l)). econstructor; eauto.
  - destruct (N []). now constructor.
Qed.
End Frames.

(** ** The properties *)

(** C23: the stack analysis agrees with the instructions.  The difference that
    [Diana_AnalyzeInstructionStackDiff] gives is how far the handler of the instruction moves the stack
    pointer, modulo the address size, for: every push that has room, of a segment register and with a
    sign extension too; pop to a register other than the stack pointer; pusha, and popa with 16 and 32
    bits; a relative call; a near ret, and one with an immediate, of any number of bytes below 2^62 to
    drop; and add and sub of an immediate to RSP that is not negative at its size.  Only for a call it
    says that the instruction is one. *)
Theorem stack_diff_is_what_instructions_do {T : Type} `{RandomStreamOk T} (s : DianaProcessor T) :
  stacked s -> idle s ->
  (forall x m, push_room s -> reads s 0 x m ->
   follows DecTypes.diana_cmd_push s (snd (Call Diana_Call_push s))) /\
  (forall v x m r, on_top s v -> reads s 0 x m -> value (linked_op (m_result s) 0) = diana_register r ->
   off_stack r -> writes (popped s) 0 m -> follows DecTypes.diana_cmd_pop s (snd (Call Diana_Call_pop s))) /\
  (forall rs, saves s rs -> rooms 8 s -> follows diana_cmd_pusha s (snd (Call Diana_Call_pusha s))) /\
  (forall a b c d e g h i, frame s [a; b; c; d; e; g; h; i] -> op_size s = 4 \/ op_size s = 2 ->
   follows diana_cmd_popa s (snd (Call Diana_Call_popa s))) /\
  (forall rel, calls s rel -> follows DecTypes.diana_cmd_call s (snd (Call Diana_Call_call s))) /\
  (forall v d, ret_drops s d -> d < 2 ^ 62 -> ret_target s v ->
   follows DecTypes.diana_cmd_ret s (snd (Call Diana_Call_ret s))) /\
  (forall x m, adjusts s x m -> follows diana_cmd_add s (snd (Call Diana_Call_add s)) /\
                                follows diana_cmd_sub s (snd (Call Diana_Call_sub s))).
Proof.
  intros S I. pose proof S as [W _ Ho Ha].
  repeat split; intros; eauto using push_follows, pop_follows, pusha_follows, popa_follows, call_follows,
    ret_follows, add_follows, sub_follows.
Qed.

(** C22: the walk over EBP frames follows the chain of frames.  With an observer that never stops it,
    [DianaProcessor_QueryCurrentStack_EBP_32] reports exactly the return addresses of the chain that
    starts at EBP, in order, when that chain ends, and it then always returns an error, the one of the
    read behind the last frame; when the chain does not end, because it is a cycle, no number of rounds
    is enough: the loop has no bound. *)
Theorem frame_walk_ends_with_chain {T : Type} `{CodeStreamOk T} (u : UtilsProcessorContext T (list Z)) :
  stream_wf (m_pMemoryStream (pCallContext u)) -> 0 < address_size (pCallContext u) ->
  let p := pCallContext u in
  let ebp := register_now p reg_RBP in
  (forall l, chain p ebp l -> forall fuel, (length l < fuel)%nat ->
   exists c u', DianaProcessor_QueryCurrentStack_EBP_32 recorder fuel u = (Err c, u') /\
     pCallContext u' = p /\ pCustomContext u' = rev l ++ pCustomContext u) /\
  ((forall l, ~ chain p ebp l) -> forall fuel,
   fst (DianaProcessor_QueryCurrentStack_EBP_32 recorder fuel u) = Ok None).
Proof.
  intros W Hs p ebp.
  assert (E : forall fuel, DianaProcessor_QueryCurrentStack_EBP_32 recorder fuel u =
                           frame_loop recorder fuel ebp false u) by (intros fuel; now destruct u).
  split.
  - intros l Hl fuel Hf. rewrite E. now apply (chain_reported p ebp l).
  - intros N fuel. rewrite E. now apply (endless_chain p).
Qed.


(** ** On a small stack

    At 0x10 a call, at 0x20 a ret; the return address 0x15 in the slot at 0x40. *)

Definition poke (a : Z) (bs : list Z) (buf : list Z) : list Z := buf_update buf a bs.
Definition walked_buffer : list Z :=
  Eval vm_compute in poke 0x10 [0xE8; 0x0B; 0; 0; 0; 0xC3] (poke 0x20 [0xC3] (poke 0x40 [0x15] (repeat 0 128))).
Definition walked_memory : DianaRandomMemoryStream := mkDianaRandomMemoryStream walked_buffer 128 0.

Definition walked_processor : DianaProcessor DianaRandomMemoryStream :=
  put_register reg_RSP 0x40 (put_rip 8 0x20 (initial walked_memory DIANA_MODE64)).
Definition walked_context : UtilsProcessorContext DianaRandomMemoryStream (list Z) :=
  mkUtilsProcessorContext walked_processor 0 0 [].

Lemma walked_memory_wf : memory_stream_wf walked_memory.
Proof. split; [reflexivity|]. split; [reflexivity|]. apply bytes_ok_spec. reflexivity. Qed.

Lemma sample_far : DecFarProofs.far_not_in_mode64 DecSample.cmd_nop DecSample.sample_root.
Proof. split; vm_compute; reflexivity. Qed.

Lemma recorder_ok : observer_ok recorder
  (fun p l => Forall (reportable p) l).
Proof. intros u newRIP b (W & F) R. split; [exact W|]. now constructor. Qed.

Abbreviation walked := (DianaProcessor_QueryCurrentStack DecSample.cmd_nop DecSample.sample_root
  DecSample.g_groups (fun _ => 0) recorder 0 walked_context).

Lemma walked_log : pCustomContext (snd walked) = [0x15].
Proof. vm_compute. reflexivity. Qed.


(** [push rcx] and [sub rsp, 0x20] with RSP = 0x80. *)
Definition pushing : DianaProcessor DianaRandomMemoryStream :=
  machine DIANA_MODE64 8 0 [(reg_RSP, 0x80); (reg_RCX, 5)] 0 [reg_op reg_RCX 8].
Definition reserving : DianaProcessor DianaRandomMemoryStream :=
  machine DIANA_MODE64 8 0 [(reg_RSP, 0x80)] 0 [reg_op reg_RSP 8; imm_op 0x20 1].
Definition dropping : DianaProcessor DianaRandomMemoryStream :=
  machine DIANA_MODE64 8 0 [(reg_RSP, 0x80)] 0 [reg_op reg_RSP 8; imm_op 0xF8 1].

Lemma pushing_stacked : stacked pushing.
Proof. constructor; [sample|reflexivity|apply opsize_closed; reflexivity|apply opsize_closed; reflexivity]. Qed.

Lemma reserving_adjusts : stacked reserving /\ adjusts reserving 0x20 1.
Proof.
  split; [constructor; [sample|reflexivity|apply opsize_closed; reflexivity|apply opsize_closed; reflexivity]|].
  constructor; [constructor; sample|vm_compute; reflexivity|vm_compute; reflexivity|vm_compute; reflexivity|reflexivity|apply opsize_closed; reflexivity].
Qed.

(** [ret 8] *)
Definition returning : DianaProcessor DianaRandomMemoryStream :=
  machine DIANA_MODE64 8 0 [(reg_RSP, 0x80)] 0 [imm_op 8 2].

Lemma returning_stacked : stacked returning.
Proof. constructor; [sample|reflexivity|apply opsize_closed; reflexivity|apply opsize_closed; reflexivity]. Qed.

Lemma stack_diff_is_what_instructions_do_witness :
  follows DecTypes.diana_cmd_push pushing (snd (Call Diana_Call_push pushing)) /\
  follows DecTypes.diana_cmd_ret returning (snd (Call Diana_Call_ret returning)) /\
  follows diana_cmd_sub reserving (snd (Call Diana_Call_sub reserving)).
Proof.
  split; [|split].
  - destruct (stack_diff_is_what_instructions_do pushing pushing_stacked ltac:(sample)) as (P & _).
    apply (P 5 8); [|sample].
    split; [vm_compute; discriminate|apply mapped_memory; vm_compute; reflexivity].
  - destruct (stack_diff_is_what_instructions_do returning returning_stacked ltac:(sample)) as (_ & _ & _ & _ & _ & P & _).
    apply (P 0x8786858483828180 8); [|reflexivity|eexists; split; [vm_compute; reflexivity|repeat split; apply bytes_ok_spec; reflexivity]].
    right. split; [reflexivity|]. split; [reflexivity|]. exists 2. sample.
  - destruct reserving_adjusts as (S & A).
    destruct (stack_diff_is_what_instructions_do reserving S ltac:(sample)) as (_ & _ & _ & _ & _ & _ & P).
    apply (P 0x20 1 A).
Defined.

(** [add rsp, -8] as a compiler writes it, with an immediate of one byte: the handler extends the
    sign and moves the stack pointer down by 8, the analysis says up by 248. *)
Lemma stack_diff_ignores_the_sign :
  let s := dropping in
  stack_pointer (snd (Call Diana_Call_add s)) = stack_pointer s - 8 /\
  Diana_AnalyzeInstructionStackDiff (Some (group diana_cmd_add)) (m_context s) (m_result s) =
    (DI_SUCCESS, 248, false).
Proof. vm_compute. split; reflexivity. Qed.

(** Frames at 0x10 and 0x20, whose saved EBP is not mapped, and one that is its own caller. *)
Definition framed (ebp : Z) : UtilsProcessorContext DianaRandomMemoryStream (list Z) :=
  mkUtilsProcessorContext
    (put_register reg_EBP ebp
       (initial (mkDianaRandomMemoryStream
          (poke 0x10 [0x20; 0; 0; 0; 0x04; 0; 0; 0]
            (poke 0x20 [0xC8; 0; 0; 0; 0x08; 0; 0; 0] (poke 0x30 [0x30; 0; 0; 0; 0x0C; 0; 0; 0] (repeat 0 64))))
          64 0) DIANA_MODE32)) 0 0 [].

Lemma framed_wf ebp : stream_wf (m_pMemoryStream (pCallContext (framed ebp))).
Proof. split; [reflexivity|]. split; [reflexivity|]. apply bytes_ok_spec. vm_compute. reflexivity. Qed.

Lemma cycle_endless l : ~ chain (pCallContext (framed 0x30)) 0x30 l.
Proof.
  assert (Hf : frame_at (pCallContext (framed 0x30)) 0x30 0x30 0xC).
  { split; [split; [discriminate|reflexivity]|]. split; [|exists 0; exists [0; 0; 0; 0]];
      [eexists|]; (split; [vm_compute; reflexivity|repeat split; apply bytes_ok_spec; reflexivity]). }
  assert (G : forall ebp l, chain (pCallContext (framed 0x30)) ebp l -> ebp = 0x30 -> False); [|eauto].
  clear l. intros ebp l Hc. induction Hc as [ebp N|ebp next a l Hn _ IH]; intros ->.
  - exact (N _ _ Hf).
  - apply IH. destruct Hn as (Hr & L & _), Hf as (_ & L' & _). pose proof (loads_inj _ _ _ _ _ _ _ L L') as E.
    change (2 ^ 32) with 4294967296 in *. lia.
Qed.

Lemma frame_walk_ends_with_chain_witness :
  (exists c u', DianaProcessor_QueryCurrentStack_EBP_32 recorder 3 (framed 0x10) = (Err c, u') /\
     pCustomContext u' = [8; 4]) /\
  fst (DianaProcessor_QueryCurrentStack_EBP_32 recorder 1000 (framed 0x30)) = Ok None.
Proof.
  split.
  - destruct (frame_walk_ends_with_chain (framed 0x10) (framed_wf _) eq_refl) as (P & _).
    destruct (P [4; 8]) with (fuel := 3%nat) as (c & u' & E & _ & El); [|cbn; lia|exists c, u'; split; [exact E|exact El]].
    apply (chain_next _ _ 0x20 4).
    { split; [split; [discriminate|reflexivity]|]. split; [|exists 0; exists [0; 0; 0; 0]];
        [eexists|]; (split; [vm_compute; reflexivity|repeat split; apply bytes_ok_spec; reflexivity]). }
    apply (chain_next _ _ 0xC8 8).
    { split; [split; [discriminate|reflexivity]|]. split; [|exists 0; exists [0; 0; 0; 0]];
        [eexists|]; (split; [vm_compute; reflexivity|repeat split; apply bytes_ok_spec; reflexivity]). }
    constructor. intros next a (_ & (bs & E & _) & _). vm_compute in E. discriminate.
  - destruct (frame_walk_ends_with_chain (framed 0x30) (framed_wf _) eq_refl) as (_ & P).
    apply P. exact cycle_endless.
Defined.
