(* ===== verification/Analyze.v ===== *)
(** The static analyzer (diana_analyze.c), as it is built with DIANA_NO_ARM: from an offset it
    follows every route through the code, and collects the instructions and the references between
    them.

    A [Diana_Instruction *] is an index, into the vector of the owner or into its list of external
    instructions; a [Diana_XRef *] is the index of the reference in the order of creation.  The
    circular lists and the stacks of the code are lists, oldest first, and the stack of routes latest
    first (ListProofs). *)

From Stdlib Require Import ZArith Lia List Bool.
Import ListNotations.
From S2P Require Import Prelude Words Status Registers DecTypes DecStreams DecUtils DecCore DecTables CopyStreams.
From S2P Require MemStreams.
Local Open Scope Z_scope.
Local Open Scope diana_scope.

(** ** The data *)

Definition DI_INSTRUCTION_CAN_CHANGE_CSIP : Z := 0x1.
Definition DI_INSTRUCTION_IS_RET : Z := 0x2.
Definition DI_INSTRUCTION_IS_LOADING : Z := 0x4.
Definition DI_INSTRUCTION_USES_RIP : Z := 0x8.
Definition DI_INSTRUCTION_USES_UNKNOWN_RIP : Z := 0x10.
Definition DI_INSTRUCTION_INVALID : Z := 0x20.
Definition DI_INSTRUCTION_ROOT : Z := 0x40.
Definition DI_INSTRUCTION_EXTERNAL : Z := 0x80.
Definition DI_INSTRUCTION_DATA : Z := 0x100.
Definition DI_ROUTE_QUESTIONABLE : Z := 0x1.
Definition DI_XREF_INVALID : Z := 0x1.
Definition DI_XREF_EXTERNAL : Z := 0x2.
Definition DI_XREF_DATA : Z := 0x4.
Definition DI_XREF_ADDRESS_TAKEN : Z := 0x8.
Definition DI_ANALYSE_BREAK_ON_INVALID_CMD : Z := 1.
Definition DIANA_GT_STOP : Z := 0x20.
Definition diana_cmd_lea : Z := 407.

(** [Diana_Instruction *] *)
Inductive InstructionRef : Type :=
| InVector (k : nat)
| InExternals (k : nat).

(** [m_routeEntry] links the instructions of the current route, which are a list here. *)
Record Diana_Instruction : Type := mkDiana_Instruction {
  m_referencesFromThisInstruction : list nat;
  m_referencesToThisInstruction : list nat;
  m_offset : Z;
  m_flags : Z
}.

Definition with_referencesFrom f (i : Diana_Instruction) : Diana_Instruction :=
  mkDiana_Instruction (f (m_referencesFromThisInstruction i)) (m_referencesToThisInstruction i)
    (m_offset i) (m_flags i).
Definition with_referencesTo f (i : Diana_Instruction) : Diana_Instruction :=
  mkDiana_Instruction (m_referencesFromThisInstruction i) (f (m_referencesToThisInstruction i))
    (m_offset i) (m_flags i).
Definition with_i_flags f (i : Diana_Instruction) : Diana_Instruction :=
  mkDiana_Instruction (m_referencesFromThisInstruction i) (m_referencesToThisInstruction i)
    (m_offset i) (f (m_flags i)).

Definition Diana_Instruction_Init (offset flags : Z) : Diana_Instruction :=
  mkDiana_Instruction [] [] offset flags.

(** [m_subrefs[0]] and [m_subrefs[1]] *)
Record Diana_XRef : Type := mkDiana_XRef {
  x_from : InstructionRef;
  x_to : InstructionRef;
  x_flags : Z
}.

Definition with_x_flags f (x : Diana_XRef) : Diana_XRef :=
  mkDiana_XRef (x_from x) (x_to x) (f (x_flags x)).

(** [m_pInstructionsVec] has the [m_usedSize] entries in use. *)
Record Diana_InstructionsOwner : Type := mkDiana_InstructionsOwner {
  m_xrefs : list Diana_XRef;
  m_ppPresenceVec : list (option nat);
  m_pInstructionsVec : list Diana_Instruction;
  m_maxSize : Z;
  m_actualSize : Z;
  m_externalInstructionsList : list Diana_Instruction;
  m_minimalExternalAddress : Z
}.

Definition m_usedSize (o : Diana_InstructionsOwner) : Z := Z.of_nat (length (m_pInstructionsVec o)).

Definition with_xrefs f (o : Diana_InstructionsOwner) : Diana_InstructionsOwner :=
  mkDiana_InstructionsOwner (f (m_xrefs o)) (m_ppPresenceVec o) (m_pInstructionsVec o) (m_maxSize o)
    (m_actualSize o) (m_externalInstructionsList o) (m_minimalExternalAddress o).
Definition with_presence f (o : Diana_InstructionsOwner) : Diana_InstructionsOwner :=
  mkDiana_InstructionsOwner (m_xrefs o) (f (m_ppPresenceVec o)) (m_pInstructionsVec o) (m_maxSize o)
    (m_actualSize o) (m_externalInstructionsList o) (m_minimalExternalAddress o).
Definition with_vector f (o : Diana_InstructionsOwner) : Diana_InstructionsOwner :=
  mkDiana_InstructionsOwner (m_xrefs o) (m_ppPresenceVec o) (f (m_pInstructionsVec o)) (m_maxSize o)
    (m_actualSize o) (m_externalInstructionsList o) (m_minimalExternalAddress o).
Definition with_actualSize f (o : Diana_InstructionsOwner) : Diana_InstructionsOwner :=
  mkDiana_InstructionsOwner (m_xrefs o) (m_ppPresenceVec o) (m_pInstructionsVec o) (m_maxSize o)
    (f (m_actualSize o)) (m_externalInstructionsList o) (m_minimalExternalAddress o).
Definition with_externals f (o : Diana_InstructionsOwner) : Diana_InstructionsOwner :=
  mkDiana_InstructionsOwner (m_xrefs o) (m_ppPresenceVec o) (m_pInstructionsVec o) (m_maxSize o)
    (m_actualSize o) (f (m_externalInstructionsList o)) (m_minimalExternalAddress o).

(** [oracle] says which of the three allocations succeed. *)
Definition Diana_InstructionsOwner_Init (oracle : bool * bool * bool)
    (maxOffsetSize minimalExternalAddress : Z) : option Diana_InstructionsOwner :=
  match oracle with
  | (true, true, true) =>
      Some (mkDiana_InstructionsOwner [] (repeat None (Z.to_nat maxOffsetSize)) [] maxOffsetSize 0 []
              minimalExternalAddress)
  | _ => None
  end.

Record Diana_RouteInfo : Type := mkDiana_RouteInfo {
  instructions : list nat;
  startOffset : Z;
  route_flags : Z
}.

(** [f] on the [k]-th element. *)
Fixpoint alter_nth {A} (f : A -> A) (k : nat) (l : list A) : list A :=
  match l, k with
  | [], _ => []
  | a :: l, O => f a :: l
  | a :: l, S k => a :: alter_nth f k l
  end.

Inductive DianaAnalyzeAddressResult : Type := diaJumpInvalid | diaJumpNormal | diaJumpExternal.

(** ** Where an instruction goes *)

(** [AnalyzeJumps]: an error, or [*pNewOffset], [*pAbsoluteAddress] and [*pLinksToData]. *)
Definition AnalyzeJumps (pResult : DianaParserResult) (pLinkedInfo : Diana_LinkedAdditionalGroupInfo)
    (offset : Z) : Z + Z * bool * bool :=
  if iLinkedOpCount pResult <=? relArgrumentNumber pLinkedInfo then inl DI_UNSUPPORTED_COMMAND
  else
    match value (nth (Z.to_nat (relArgrumentNumber pLinkedInfo)) (linkedOperands pResult) no_operand) with
    | diana_rel _ m_value => inr (u64 (offset + m_value), false, false)
    | diana_call_ptr _ m_address _ _ => inr (m_address, true, false)
    | diana_index rmIndex =>
        if reg rmIndex =? reg_RIP then inr (u64 (dispValue rmIndex + offset), false, true)
        else inr (dispValue rmIndex, true, true)
    | _ => inl DI_UNSUPPORTED_COMMAND
    end.

(** [m_pLinkedInfo] of the group of the command after [Diana_Init]. *)
Definition linked_of (pResult : DianaParserResult) : option Diana_LinkedAdditionalGroupInfo :=
  match command_of pResult with Some cmd => linked_info cmd | None => None end.

Definition has_bit (x f : Z) : bool := negb (Z.land x f =? 0).

Definition Diana_AnalyzeJumps (pResult : DianaParserResult) (offset : Z) : Z + Z * bool * bool :=
  match linked_of pResult with
  | None => inl DI_NOT_FOUND
  | Some pLinkedInfo =>
      if negb (has_bit (gt_flags pLinkedInfo) DIANA_GT_CAN_CHANGE_RIP) then inl DI_NOT_FOUND
      else if has_bit (gt_flags pLinkedInfo) (Z.lor DIANA_GT_RET DIANA_GT_STOP) then inl DI_NOT_FOUND
      else AnalyzeJumps pResult pLinkedInfo offset
  end.

(** ** The session *)

Section Session.
Context {T : Type} `{DianaMovableReadStream T}.

(** The state of the observer. *)
Context {Obs : Type}.

(** [m_pStream] and [observer] are the observer's; [mallocs] counts the allocations made. *)
Record DianaAnalyzeSession : Type := mkDianaAnalyzeSession {
  pOwner : Diana_InstructionsOwner;
  m_pStream : T;
  observer : Obs;
  mallocs : nat;
  pStack : list Diana_RouteInfo;
  context : DianaContext;
  result : DianaParserResult;
  curRouteInfo : Diana_RouteInfo
}.

Definition with_pOwner f (s : DianaAnalyzeSession) : DianaAnalyzeSession :=
  mkDianaAnalyzeSession (f (pOwner s)) (m_pStream s) (observer s) (mallocs s) (pStack s) (context s)
    (result s) (curRouteInfo s).
Definition with_stream t (s : DianaAnalyzeSession) : DianaAnalyzeSession :=
  mkDianaAnalyzeSession (pOwner s) t (observer s) (mallocs s) (pStack s) (context s) (result s)
    (curRouteInfo s).
Definition with_observer obs (s : DianaAnalyzeSession) : DianaAnalyzeSession :=
  mkDianaAnalyzeSession (pOwner s) (m_pStream s) obs (mallocs s) (pStack s) (context s) (result s)
    (curRouteInfo s).
Definition with_mallocs n (s : DianaAnalyzeSession) : DianaAnalyzeSession :=
  mkDianaAnalyzeSession (pOwner s) (m_pStream s) (observer s) n (pStack s) (context s) (result s)
    (curRouteInfo s).
Definition with_pStack f (s : DianaAnalyzeSession) : DianaAnalyzeSession :=
  mkDianaAnalyzeSession (pOwner s) (m_pStream s) (observer s) (mallocs s) (f (pStack s)) (context s)
    (result s) (curRouteInfo s).
Definition with_decoding t c r (s : DianaAnalyzeSession) : DianaAnalyzeSession :=
  mkDianaAnalyzeSession (pOwner s) t (observer s) (mallocs s) (pStack s) c r (curRouteInfo s).
Definition with_curRouteInfo f (s : DianaAnalyzeSession) : DianaAnalyzeSession :=
  mkDianaAnalyzeSession (pOwner s) (m_pStream s) (observer s) (mallocs s) (pStack s) (context s)
    (result s) (f (curRouteInfo s)).
Definition with_decoder f (s : DianaAnalyzeSession) : DianaAnalyzeSession :=
  with_decoding (m_pStream s) (f (context s)) (result s) s.

Definition A (X : Type) : Type := M DianaAnalyzeSession X.

(** The generated tables, whether an allocation succeeds, and the observer: the status, the offset,
    the kind of address and the observer's state. *)
Variable Diana_GetNopInfo : DianaCmdInfo.
Variable Diana_GetRootLine : DianaBaseGenObject.
Variable DIANA_MALLOC : nat -> bool.
Variable m_pAnalyzeAddress : Obs -> Z -> bool -> Z * Z * DianaAnalyzeAddressResult * Obs.

(** What of the session does not change. *)
Variables (mode maxOffset flags : Z).

(** An allocation, also the one a push on a stack may need. *)
Definition allocate : A unit :=
  let! n := gets mallocs in
  modify (with_mallocs (S n)) ;;;
  if DIANA_MALLOC n then ret tt else fail DI_OUT_OF_MEMORY.

Definition analyze_address (address : Z) (absolute : bool) : A (Z * DianaAnalyzeAddressResult) := fun s =>
  match m_pAnalyzeAddress (observer s) address absolute with
  | (st, offset, res, obs) =>
      (if st =? DI_SUCCESS then Ok (offset, res) else Err st, with_observer obs s)
  end.

Definition move_to (offset : Z) : A unit := fun s =>
  let (st, t) := pMoveTo (m_pStream s) offset in
  (if st =? DI_SUCCESS then Ok tt else Err st, with_stream t s).

Definition random_read (offset size : Z) (absolute : bool) : A (Z * list Z) := fun s =>
  match pRandomRead (m_pStream s) offset size absolute with
  | (st, bs, t) => (Ok (st, bs), with_stream t s)
  end.

(** *** The owner *)

Definition owner {X} (f : Diana_InstructionsOwner -> X) : A X := gets (fun s => f (pOwner s)).
Definition set_owner (f : Diana_InstructionsOwner -> Diana_InstructionsOwner) : A unit :=
  modify (with_pOwner f).
Definition or_crash {X} (o : option X) : A X := match o with Some a => ret a | None => crash end.

Definition instruction_at (o : Diana_InstructionsOwner) (p : InstructionRef) : option Diana_Instruction :=
  match p with
  | InVector k => nth_error (m_pInstructionsVec o) k
  | InExternals k => nth_error (m_externalInstructionsList o) k
  end.
Definition alter_instruction (f : Diana_Instruction -> Diana_Instruction) (p : InstructionRef)
    (o : Diana_InstructionsOwner) : Diana_InstructionsOwner :=
  match p with
  | InVector k => with_vector (alter_nth f k) o
  | InExternals k => with_externals (alter_nth f k) o
  end.

Definition instruction (p : InstructionRef) : A Diana_Instruction :=
  let! i := owner (fun o => instruction_at o p) in or_crash i.
Definition set_instruction (p : InstructionRef) (f : Diana_Instruction -> Diana_Instruction) : A unit :=
  let! _ := instruction p in set_owner (alter_instruction f p).
(** [p->m_flags |= flags] *)
Definition add_flags (p : InstructionRef) (bits : Z) : A unit :=
  set_instruction p (with_i_flags (fun x => Z.lor x bits)).

(** The entry is not initialised; [None] is the null pointer. *)
Definition Diana_InstructionsOwner_AllocateInstruction : A (option nat) :=
  let! full := owner (fun o => m_maxSize o <=? m_usedSize o) in
  if full then ret None
  else
    let! k := owner (fun o => length (m_pInstructionsVec o)) in
    set_owner (with_vector (fun v => v ++ [Diana_Instruction_Init 0 0])) ;;;
    set_owner (with_actualSize (fun n => n + 1)) ;;;
    ret (Some k).

(** [m_ppPresenceVec[address]] *)
Definition Diana_InstructionsOwner_GetInstruction (address : Z) : A (option nat) :=
  let! p := owner (fun o => if address <? 0 then None else nth_error (m_ppPresenceVec o) (Z.to_nat address)) in
  or_crash p.

Definition Diana_InstructionsOwner_QueryOrAllocateInstruction (address bits : Z) : A nat :=
  let! present := Diana_InstructionsOwner_GetInstruction address in
  match present with
  | Some k => ret k
  | None =>
      let! entry := Diana_InstructionsOwner_AllocateInstruction in
      match entry with
      | None => fail DI_OUT_OF_MEMORY
      | Some k =>
          set_instruction (InVector k) (fun _ => Diana_Instruction_Init address bits) ;;;
          set_owner (with_presence (alter_nth (fun _ => Some k) (Z.to_nat address))) ;;;
          ret k
      end
  end.

Definition Diana_CreateXRef (from to : InstructionRef) (bits : Z) : A unit :=
  allocate ;;;
  let! x := owner (fun o => length (m_xrefs o)) in
  set_owner (with_xrefs (fun l => l ++ [mkDiana_XRef from to 0])) ;;;
  set_instruction to (with_referencesTo (fun l => l ++ [x])) ;;;
  set_instruction from (with_referencesFrom (fun l => l ++ [x])) ;;;
  set_owner (with_xrefs (alter_nth (with_x_flags (fun f => Z.lor f bits)) x)).

Definition push_external (offset bits : Z) : A InstructionRef :=
  let! k := owner (fun o => length (m_externalInstructionsList o)) in
  set_owner (with_externals (fun l => l ++ [Diana_Instruction_Init offset bits])) ;;;
  ret (InExternals k).

(** *** New routes and references *)

Definition SaveNewExternalRoute (pInstruction : InstructionRef) (newOffset : Z) (bLinksToData : bool)
    (xrefFlags : Z) : A unit :=
  let! minimal := owner m_minimalExternalAddress in
  if negb (minimal =? 0) && (newOffset <? minimal) then ret tt
  else if (mode =? DIANA_MODE32) && (0xFFFFFFFF <=? newOffset) then ret tt
  else
    allocate ;;;
    let bits := if bLinksToData then Z.lor DI_INSTRUCTION_EXTERNAL DI_INSTRUCTION_DATA
                else DI_INSTRUCTION_EXTERNAL in
    let! target := push_external newOffset bits in
    Diana_CreateXRef pInstruction target (Z.lor DI_XREF_EXTERNAL xrefFlags).

Definition SaveDataXRef (pInstruction : InstructionRef) (offset xrefFlags : Z) : A unit :=
  allocate ;;;
  let! target := push_external offset DI_INSTRUCTION_DATA in
  Diana_CreateXRef pInstruction target (Z.lor DI_XREF_DATA xrefFlags).

Definition SaveDataAccess (pInstruction : InstructionRef) (address : Z) (absolute : bool) : A unit :=
  let! (offset, res) := analyze_address address absolute in
  match res with
  | diaJumpNormal => SaveDataXRef pInstruction offset 0
  | diaJumpExternal => SaveNewExternalRoute pInstruction offset true DI_XREF_DATA
  | diaJumpInvalid => ret tt
  end.

Definition SaveNewRoute (pInstruction : InstructionRef) (newOffset newRouteFlags xrefFlags : Z) : A unit :=
  if maxOffset <=? newOffset then ret tt
  else
    let! old := Diana_InstructionsOwner_GetInstruction newOffset in
    let! invalid :=
      match old with
      | Some k => let! i := instruction (InVector k) in ret (has_bit (m_flags i) DI_INSTRUCTION_INVALID)
      | None => ret false
      end in
    if invalid && has_bit xrefFlags DI_XREF_ADDRESS_TAKEN
    then SaveDataXRef pInstruction newOffset xrefFlags
    else
      let! k := Diana_InstructionsOwner_QueryOrAllocateInstruction newOffset DI_INSTRUCTION_IS_LOADING in
      when (negb (has_bit newRouteFlags DI_ROUTE_QUESTIONABLE))
        (add_flags (InVector k) DI_INSTRUCTION_ROOT) ;;;
      Diana_CreateXRef pInstruction (InVector k) xrefFlags ;;;
      match old with
      | Some _ => ret tt
      | None =>
          allocate ;;;
          modify (with_pStack (fun l => mkDiana_RouteInfo [] newOffset newRouteFlags :: l))
      end.

Definition SaveRelativeAddressTaken (pInstruction : InstructionRef) (target : Z) : A unit :=
  let! (offset, res) := analyze_address target false in
  match res with
  | diaJumpNormal => SaveNewRoute pInstruction offset DI_ROUTE_QUESTIONABLE DI_XREF_ADDRESS_TAKEN
  | diaJumpExternal => SaveNewExternalRoute pInstruction offset false DI_XREF_ADDRESS_TAKEN
  | diaJumpInvalid => ret tt
  end.

(** *** The operands of an instruction *)

Definition IsLea : A bool :=
  let! cmd := gets (fun s => command_of (result s)) in
  let! cmd := or_crash cmd in
  ret (cmd =? diana_cmd_lea).

Definition has_address_size (r : DianaRmIndex) : bool := (dispSize r =? 4) || (dispSize r =? 8).

(** [IsLea] is asked last. *)
Definition IsAbsoluteDataAccess (r : DianaRmIndex) : A bool :=
  if (reg r =? reg_none) && ((indexed_reg r =? reg_none) || (index r =? 0)) && has_address_size r
  then let! lea := IsLea in ret (negb lea)
  else ret false.

(** [*pSuspectedOp] when [*pbFound]. *)
Definition suspected_displacement (pInstruction : InstructionRef) (r : DianaRmIndex) : A (option Z) :=
  let! data := IsAbsoluteDataAccess r in
  if data then SaveDataAccess pInstruction (dispValue r) true ;;; ret None
  else ret (if has_address_size r then Some (dispValue r) else None).

Definition DispatchMode32 (pInstruction : InstructionRef) (pOp : DianaLinkedOperand) : A (option Z) :=
  match value pOp with
  | diana_imm imm => ret (Some imm)
  | diana_index r => suspected_displacement pInstruction r
  | _ => ret None
  end.

Definition DispatchMode64 (pInstruction : InstructionRef) (pOp : DianaLinkedOperand)
    (nextInstructionOffset : Z) : A (option Z) :=
  match value pOp with
  | diana_register r =>
      when ((r =? reg_RIP) || (r =? reg_IP)) (add_flags pInstruction DI_INSTRUCTION_USES_RIP) ;;;
      ret None
  | diana_imm imm => ret (Some imm)
  | diana_index r =>
      if (reg r =? reg_RIP) || (indexed_reg r =? reg_RIP) then
        if ((indexed_reg r =? reg_none) || (index r =? 0)) || ((reg r =? reg_none) && (index r =? 1)) then
          let target := u64 (nextInstructionOffset + dispValue r) in
          add_flags pInstruction DI_INSTRUCTION_USES_RIP ;;;
          let! lea := IsLea in
          (if lea then SaveRelativeAddressTaken pInstruction target
           else SaveDataAccess pInstruction target false) ;;;
          ret None
        else add_flags pInstruction DI_INSTRUCTION_USES_UNKNOWN_RIP ;;; ret None
      else suspected_displacement pInstruction r
  | _ => ret None
  end.

Fixpoint normal_operands (ops : list DianaLinkedOperand) (pInstruction : InstructionRef)
    (nextInstructionOffset : Z) : A unit :=
  match ops with
  | [] => ret tt
  | pOp :: ops =>
      let! suspectedOp :=
        (if mode =? DIANA_MODE32 then DispatchMode32 pInstruction pOp
         else DispatchMode64 pInstruction pOp nextInstructionOffset) in
      match suspectedOp with
      | Some address =>
          let! (offset, res) := analyze_address address true in
          match res with
          | diaJumpExternal => SaveNewExternalRoute pInstruction offset false DI_XREF_ADDRESS_TAKEN
          | diaJumpNormal => SaveNewRoute pInstruction offset DI_ROUTE_QUESTIONABLE DI_XREF_ADDRESS_TAKEN
          | diaJumpInvalid => ret tt
          end
      | None => ret tt
      end ;;;
      normal_operands ops pInstruction nextInstructionOffset
  end.

(** The decoder gives no more operands than a result has. *)
Definition AnalyzeAndConstructNormalInstruction (pInstruction : InstructionRef)
    (nextInstructionOffset : Z) : A unit :=
  let! ops := gets (fun s => firstn (Z.to_nat (iLinkedOpCount (result s))) (linkedOperands (result s))) in
  normal_operands ops pInstruction nextInstructionOffset.

(** *** One instruction *)

Definition questionable (r : Diana_RouteInfo) : bool := has_bit (route_flags r) DI_ROUTE_QUESTIONABLE.

(** The result of [AnalyzeJumps] is checked by the observer; a target in memory is read, the value
    is a target itself: the address, whether it is still only the place of it, and its kind. *)
Definition resolve_target (newOffset : Z) (absolute bLinksToData : bool)
    : A (Z * bool * DianaAnalyzeAddressResult) :=
  let! (newOffset, jumpFlags) := analyze_address newOffset absolute in
  match bLinksToData, jumpFlags with
  | false, _ | _, diaJumpInvalid => ret (newOffset, bLinksToData, jumpFlags)
  | true, _ =>
      let external := match jumpFlags with diaJumpExternal => true | _ => false end in
      let! (status, address) := random_read newOffset mode external in
      if (status =? DI_SUCCESS) && (Z.of_nat (length address) =? mode) then
        let! (newOffset, jumpFlags) := analyze_address (le_decode address) true in
        ret (newOffset, false, jumpFlags)
      else ret (newOffset, true, jumpFlags)
  end.

(** A jump or a call, after its flags are set. *)
Definition save_jump_target (pInstruction : InstructionRef)
    (pLinkedInfo : Diana_LinkedAdditionalGroupInfo) (nextInstructionOffset : Z) : A unit :=
  let! jump := gets (fun s => AnalyzeJumps (result s) pLinkedInfo nextInstructionOffset) in
  match jump with
  | inl iRes => if iRes =? DI_UNSUPPORTED_COMMAND then ret tt else fail iRes
  | inr (newOffset, bAbsoluteAddress, bLinksToData) =>
      let! (newOffset, bLinksToData, jumpFlags) := resolve_target newOffset bAbsoluteAddress bLinksToData in
      match jumpFlags with
      | diaJumpNormal =>
          let! routeFlags := gets (fun s => route_flags (curRouteInfo s)) in
          SaveNewRoute pInstruction newOffset routeFlags 0
      | diaJumpExternal => SaveNewExternalRoute pInstruction newOffset bLinksToData 0
      | diaJumpInvalid => ret tt
      end
  end.

(** What the instruction does to the walk: [*pbNeedReset]. *)
Definition analyze_command (pInstruction : InstructionRef) (nextInstructionOffset : Z) : A bool :=
  let! routeQuestionable := gets (fun s => questionable (curRouteInfo s)) in
  when (negb routeQuestionable) (add_flags pInstruction DI_INSTRUCTION_ROOT) ;;;
  let! cmd := gets (fun s => command_of (result s)) in
  let! cmd := or_crash cmd in
  match linked_info cmd with
  | None =>
      AnalyzeAndConstructNormalInstruction pInstruction nextInstructionOffset ;;; ret false
  | Some pLinkedInfo =>
      let group_has f := has_bit (gt_flags pLinkedInfo) f in
      if negb (group_has DIANA_GT_CAN_CHANGE_RIP) then
        AnalyzeAndConstructNormalInstruction pInstruction nextInstructionOffset ;;; ret false
      else
        add_flags pInstruction DI_INSTRUCTION_CAN_CHANGE_CSIP ;;;
        if group_has DIANA_GT_STOP then ret true
        else if group_has DIANA_GT_RET then add_flags pInstruction DI_INSTRUCTION_IS_RET ;;; ret true
        else
          save_jump_target pInstruction pLinkedInfo nextInstructionOffset ;;;
          ret (negb (group_has DIANA_GT_CAN_GO_TO_THE_NEXT_INSTRUCTION))
  end.

(** [instructionFlags] is 0 for x86. *)
Definition AnalyzeAndConstructInstruction (instructionOffset nextInstructionOffset : Z) : A bool :=
  let! k := Diana_InstructionsOwner_QueryOrAllocateInstruction instructionOffset 0 in
  modify (with_curRouteInfo (fun r =>
    mkDiana_RouteInfo (instructions r ++ [k]) (startOffset r) (route_flags r))) ;;;
  set_instruction (InVector k) (with_i_flags (fun _ => 0)) ;;;
  analyze_command (InVector k) nextInstructionOffset.

(** *** Going back *)

(** The stack is not empty. *)
Definition SwitchToLastState : A Z :=
  let! routes := gets pStack in
  match routes with
  | [] => crash
  | route :: rest =>
      modify (with_pStack (fun _ => rest)) ;;;
      modify (with_curRouteInfo (fun _ => route)) ;;;
      move_to (startOffset route) ;;;
      modify (with_decoder Diana_ClearCache) ;;;
      ret (startOffset route)
  end.

Fixpoint ListForEach {X} (observe : X -> A unit) (l : list X) : A unit :=
  match l with
  | [] => ret tt
  | x :: l => observe x ;;; ListForEach observe l
  end.

Definition xref (x : nat) : A Diana_XRef :=
  let! r := owner (fun o => nth_error (m_xrefs o) x) in or_crash r.

Definition XrefRouteMarker (x : nat) : A unit :=
  let! _ := xref x in
  set_owner (with_xrefs (alter_nth (with_x_flags (fun f => Z.lor f DI_XREF_INVALID)) x)).

Definition RouteMarker (k : nat) : A unit :=
  add_flags (InVector k) DI_INSTRUCTION_INVALID ;;;
  let! i := instruction (InVector k) in
  ListForEach XrefRouteMarker (m_referencesToThisInstruction i) ;;;
  ListForEach XrefRouteMarker (m_referencesFromThisInstruction i) ;;;
  set_owner (with_actualSize (fun n => u64 (n - 1))).

Definition AddressTakenKeeper (x : nat) : A unit :=
  let! r := xref x in
  let! source := instruction (x_from r) in
  if negb (has_bit (x_flags r) DI_XREF_ADDRESS_TAKEN) || has_bit (x_flags r) DI_XREF_DATA
     || has_bit (m_flags source) DI_INSTRUCTION_INVALID
  then ret tt
  else
    let! target := instruction (x_to r) in
    SaveDataXRef (x_from r) (m_offset target) DI_XREF_ADDRESS_TAKEN.

Definition AddressTakenRouteKeeper (k : nat) : A unit :=
  let! i := instruction (InVector k) in
  ListForEach AddressTakenKeeper (m_referencesToThisInstruction i).

(** The first instruction of the current route when it is still loading. *)
Definition loading_start : A (list nat) :=
  let! start := gets (fun s => startOffset (curRouteInfo s)) in
  let! pStart := Diana_InstructionsOwner_GetInstruction start in
  match pStart with
  | None => ret []
  | Some k =>
      let! i := instruction (InVector k) in
      ret (if has_bit (m_flags i) DI_INSTRUCTION_IS_LOADING then [k] else [])
  end.

Definition RollbackCurrentRoute : A unit :=
  let! pStart := loading_start in
  let! route := gets (fun s => instructions (curRouteInfo s)) in
  ListForEach RouteMarker route ;;;
  ListForEach RouteMarker pStart ;;;
  ListForEach AddressTakenRouteKeeper route ;;;
  ListForEach AddressTakenRouteKeeper pStart.

(** *** The walk over the routes *)

(** The status of [Diana_ParseCmd] on the stream of the observer. *)
Definition parse_command : A Z := fun s =>
  let '(o, d) := Diana_ParseCmd Diana_GetNopInfo Diana_GetRootLine
                   (MemStreams.start (context s) (result s) (m_pStream s)) in
  (match o with Ok _ => Ok DI_SUCCESS | Err code => Ok code | Crash => Crash end,
   with_decoding (readStream d) (pContext d) (pResult d) s).

(** What the loop does when the bytes at [prevOffset] are no command: [offset] and [bNeedReset]. *)
Definition not_recognized (prevOffset offset : Z) : A (Z * bool) :=
  let! routeQuestionable := gets (fun s => questionable (curRouteInfo s)) in
  if has_bit flags DI_ANALYSE_BREAK_ON_INVALID_CMD || routeQuestionable then
    RollbackCurrentRoute ;;; ret (offset, true)
  else
    let offset := u64 (prevOffset + 1) in
    move_to offset ;;;
    modify (with_decoder Diana_ClearCache) ;;;
    ret (offset, false).

Inductive Visited : Type := ToAnalyze | WasInvalid | WasAnalyzed.

(** What is known of the instruction at an offset. *)
Definition visited (prevOffset : Z) : A Visited :=
  let! p := Diana_InstructionsOwner_GetInstruction prevOffset in
  match p with
  | None => ret ToAnalyze
  | Some k =>
      let! i := instruction (InVector k) in
      ret (if has_bit (m_flags i) DI_INSTRUCTION_INVALID then WasInvalid
           else if negb (has_bit (m_flags i) DI_INSTRUCTION_IS_LOADING) then WasAnalyzed
           else ToAnalyze)
  end.

(** One instruction at [prevOffset], the place of the stream: [offset] and [bNeedReset] after it. *)
Definition analyze_at (prevOffset : Z) : A (Z * bool) :=
  let! iRes := parse_command in
  let! offset := gets (fun s => u64 (prevOffset + iFullCmdSize (result s))) in
  if negb (iRes =? DI_SUCCESS) then not_recognized prevOffset offset
  else
    let! v := visited prevOffset in
    match v with
    | WasInvalid =>
        let! routeQuestionable := gets (fun s => questionable (curRouteInfo s)) in
        when routeQuestionable RollbackCurrentRoute ;;;
        ret (offset, true)
    | WasAnalyzed => ret (offset, true)
    | ToAnalyze =>
        let! bNeedReset := AnalyzeAndConstructInstruction prevOffset offset in
        ret (offset, (maxOffset <=? offset) || bNeedReset)
    end.

(** [None] when the fuel is used up. *)
Fixpoint routes_loop (fuel : nat) (offset : Z) (bNeedReset : bool) : A (option unit) :=
  match fuel with
  | O => ret None
  | S fuel =>
      let! routes := gets pStack in
      let leave := (maxOffset <=? offset) || bNeedReset in
      if leave && match routes with [] => true | _ => false end then ret (Some tt)
      else
        let! prevOffset := (if leave then SwitchToLastState else ret offset) in
        let! (offset, bNeedReset) := analyze_at prevOffset in
        routes_loop fuel offset bNeedReset
  end.

Definition Diana_AnalyzeCodeImpl (fuel : nat) (initialOffset : Z) : A (option unit) :=
  modify (with_decoder (fun _ => Diana_InitContextEx mode DIANA_ARCH_X86)) ;;;
  modify (with_pStack (fun _ => [])) ;;;
  modify (with_curRouteInfo (fun r => mkDiana_RouteInfo (instructions r) initialOffset 0)) ;;;
  routes_loop fuel initialOffset false.

(** The session is a local of [Diana_AnalyzeCodeEx2]: of the state before it, the owner, the observer
    and the stack remain. *)
Definition new_session (s : DianaAnalyzeSession) : DianaAnalyzeSession :=
  mkDianaAnalyzeSession (pOwner s) (m_pStream s) (observer s) (mallocs s) (pStack s)
    (Diana_InitContext 0) zero_result (mkDiana_RouteInfo [] 0 0).

Definition Diana_AnalyzeCodeEx2 (fuel : nat) (initialOffset arch : Z) : A (option unit) :=
  modify new_session ;;;
  if negb (arch =? DIANA_ARCH_X86) then fail DI_UNSUPPORTED
  else
    let! p := Diana_InstructionsOwner_GetInstruction initialOffset in
    match p with
    | Some _ => ret (Some tt)
    | None =>
        move_to initialOffset ;;;
        Diana_AnalyzeCodeImpl fuel initialOffset
    end.
End Session.

(** ** The other entry points *)

Record DianaAnalyzeParams : Type := mkDianaAnalyzeParams { arch : Z; imageBase : Z }.

Definition DianaAnalyzeParams_Init (arch : Z) : DianaAnalyzeParams := mkDianaAnalyzeParams arch 0.

Section EntryPoints.
Context {T : Type} `{DianaMovableReadStream T} {Obs : Type}.
Variable Diana_GetNopInfo : DianaCmdInfo.
Variable Diana_GetRootLine : DianaBaseGenObject.
Variable DIANA_MALLOC : nat -> bool.
Variable m_pAnalyzeAddress : Obs -> Z -> bool -> Z * Z * DianaAnalyzeAddressResult * Obs.

(** [fuel] is the one of the walk over the routes. *)
Variable fuel : nat.
Variable mode : Z.

Definition analyze_code_ex2 (initialOffset maxOffset flags arch : Z) : @A T Obs (option unit) :=
  Diana_AnalyzeCodeEx2 Diana_GetNopInfo Diana_GetRootLine DIANA_MALLOC m_pAnalyzeAddress
    mode maxOffset flags fuel initialOffset arch.

(** [pParams] is null. *)
Definition Diana_AnalyzeCodeEx (initialOffset maxOffset flags : Z) : @A T Obs (option unit) :=
  analyze_code_ex2 initialOffset maxOffset flags (arch (DianaAnalyzeParams_Init DIANA_ARCH_X86)).

(** With a stack of its own. *)
Definition Diana_AnalyzeCode (initialOffset maxOffset : Z) : @A T Obs (option unit) :=
  modify (with_pStack (fun _ => [])) ;;;
  Diana_AnalyzeCodeEx initialOffset maxOffset 0.

(** Where instructions can start. *)
Definition scan_step (arch : Z) : Z :=
  if (arch =? DIANA_ARCH_AARCH64) || (arch =? DIANA_ARCH_ARM32) then 4
  else if arch =? DIANA_ARCH_THUMB then 2 else 1.

(** The status 0 is the end of the range; [None] is the end of the fuel. *)
Fixpoint scan_loop (rounds : nat) (offset endOffset maxOffset step arch : Z) : @A T Obs (option unit) :=
  match rounds with
  | O => ret None
  | S rounds =>
      if (offset <? endOffset) && (offset <? maxOffset) then
        let! done := analyze_code_ex2 offset maxOffset DI_ANALYSE_BREAK_ON_INVALID_CMD arch in
        match done with
        | None => ret None
        | Some _ => scan_loop rounds (u64 (offset + step)) endOffset maxOffset step arch
        end
      else ret (Some tt)
  end.

Definition Diana_AnalyzeScanThrough (rounds : nat) (startOffset endOffset maxOffset : Z)
    (pParams : option DianaAnalyzeParams) : @A T Obs (option unit) :=
  let params := option_or pParams (DianaAnalyzeParams_Init DIANA_ARCH_X86) in
  let step := scan_step (arch params) in
  let first := u64 (startOffset +
    Z.land (u64 (step - Z.land (u64 (imageBase params + startOffset)) (step - 1))) (step - 1)) in
  scan_loop rounds first endOffset maxOffset step (arch params).
End EntryPoints.
