(* ===== verification/AnalyzeOwnerProofs.v ===== *)
(** The owner of the analyzer's instructions: what is always true of it, and that the operations on
    it keep that. *)

From Stdlib Require Import ZArith Lia List Bool.
Import ListNotations.
From S2P Require Import Prelude Words Status Analyze.
Local Open Scope Z_scope.

(** ** Flags and lists *)

Lemma has_bit_lor x f g : has_bit (Z.lor x f) g = has_bit x g || has_bit f g.
Proof.
  unfold has_bit. rewrite Z.land_lor_distr_l.
  destruct (Z.eqb_spec (Z.land x g) 0) as [->|N]; cbn [negb orb]; [now rewrite Z.lor_0_l|].
  destruct (Z.eqb_spec (Z.lor (Z.land x g) (Z.land f g)) 0) as [E|]; [|reflexivity].
  now apply Z.lor_eq_0_iff in E.
Qed.

Section Alter.
Context {X : Type}.
Implicit Types (l : list X) (f : X -> X).

Lemma nth_error_alter f k l j :
  nth_error (alter_nth f k l) j = if (j =? k)%nat then option_map f (nth_error l j) else nth_error l j.
Proof.
  revert k j. induction l as [|a l IH]; intros [|k] [|j]; cbn; try reflexivity; try now destruct (_ =? _)%nat.
  apply IH.
Qed.

Lemma length_alter f k l : length (alter_nth f k l) = length l.
Proof. revert k. induction l as [|a l IH]; intros [|k]; cbn; auto. Qed.

Lemma alter_last f l a : alter_nth f (length l) (l ++ [a]) = l ++ [f a].
Proof. induction l as [|b l IH]; cbn; [reflexivity|now rewrite IH]. Qed.

Lemma nth_error_snoc l a j :
  nth_error (l ++ [a]) j = if (j =? length l)%nat then Some a else nth_error l j.
Proof.
  destruct (Nat.eqb_spec j (length l)) as [->|N].
  - now rewrite nth_error_app2, Nat.sub_diag by lia.
  - destruct (Nat.lt_ge_cases j (length l)); [now apply nth_error_app1|].
    rewrite nth_error_app2 by lia. rewrite (proj2 (nth_error_None l j)) by lia.
    apply nth_error_None. cbn. lia.
Qed.

Lemma nth_error_lt l j a : nth_error l j = Some a -> (j < length l)%nat.
Proof. intros E. apply nth_error_Some. congruence. Qed.

(** How many elements a test counts. *)
Lemma count_alter (test : X -> bool) f k l a : nth_error l k = Some a ->
  Z.of_nat (length (filter test (alter_nth f k l))) =
  Z.of_nat (length (filter test l)) + (if test (f a) then 1 else 0) - (if test a then 1 else 0).
Proof.
  revert k. induction l as [|b l IH]; intros [|k] E; cbn in *; try discriminate.
  - injection E as ->. destruct (test (f a)), (test a); cbn [length]; lia.
  - specialize (IH k E). destruct (test b); cbn [length]; lia.
Qed.
End Alter.

(** ** Pointers to instructions *)

Definition ref_eqb (p q : InstructionRef) : bool :=
  match p, q with
  | InVector j, InVector k | InExternals j, InExternals k => (j =? k)%nat
  | _, _ => false
  end.

Lemma ref_eqb_spec p q : reflect (p = q) (ref_eqb p q).
Proof.
  destruct p as [j|j], q as [k|k]; cbn; try (constructor; congruence);
    destruct (Nat.eqb_spec j k); constructor; congruence.
Qed.

Lemma ref_eqb_refl p : ref_eqb p p = true.
Proof. destruct (ref_eqb_spec p p); congruence. Qed.

Lemma instruction_at_alter f p o q :
  instruction_at (alter_instruction f p o) q =
  if ref_eqb q p then option_map f (instruction_at o q) else instruction_at o q.
Proof. destruct p, q; cbn; rewrite ?nth_error_alter; reflexivity. Qed.

(** ** What is always true of an owner *)

Definition is_invalid (i : Diana_Instruction) : bool := has_bit (m_flags i) DI_INSTRUCTION_INVALID.
Definition is_loading (i : Diana_Instruction) : bool := has_bit (m_flags i) DI_INSTRUCTION_IS_LOADING.

(** The references from and to an instruction, in the order they were created in. *)
Definition xrefs_where (pick : Diana_XRef -> InstructionRef) (o : Diana_InstructionsOwner)
    (p : InstructionRef) : list nat :=
  filter (fun x => match nth_error (m_xrefs o) x with Some r => ref_eqb (pick r) p | None => false end)
    (seq 0 (length (m_xrefs o))).

Record owner_ok (o : Diana_InstructionsOwner) : Prop := {
  ok_size : 0 <= m_maxSize o <= 2 ^ 60;
  ok_presence : Z.of_nat (length (m_ppPresenceVec o)) = m_maxSize o;
  ok_found : forall a k, nth_error (m_ppPresenceVec o) a = Some (Some k) ->
    exists i, nth_error (m_pInstructionsVec o) k = Some i /\ m_offset i = Z.of_nat a;
  ok_placed : forall k i, nth_error (m_pInstructionsVec o) k = Some i ->
    0 <= m_offset i /\ nth_error (m_ppPresenceVec o) (Z.to_nat (m_offset i)) = Some (Some k);
  ok_from : forall p i, instruction_at o p = Some i -> m_referencesFromThisInstruction i = xrefs_where x_from o p;
  ok_to : forall p i, instruction_at o p = Some i -> m_referencesToThisInstruction i = xrefs_where x_to o p;
  ok_source : forall x r, nth_error (m_xrefs o) x = Some r -> exists k, x_from r = InVector k;
  ok_ends : forall x r, nth_error (m_xrefs o) x = Some r ->
    instruction_at o (x_from r) <> None /\ instruction_at o (x_to r) <> None;
  ok_actual : m_actualSize o = Z.of_nat (length (filter (fun i => negb (is_invalid i)) (m_pInstructionsVec o)));
  ok_dead : forall x r i, nth_error (m_xrefs o) x = Some r -> instruction_at o (x_from r) = Some i ->
    is_invalid i = true -> has_bit (x_flags r) DI_XREF_INVALID = true
}.

Lemma xrefs_where_in pick o p x : In x (xrefs_where pick o p) <->
  exists r, nth_error (m_xrefs o) x = Some r /\ pick r = p.
Proof.
  unfold xrefs_where. rewrite filter_In, in_seq. split.
  - intros (_ & E). destruct (nth_error _ x) as [r|]; [|discriminate]. exists r. split; [reflexivity|].
    now destruct (ref_eqb_spec (pick r) p).
  - intros (r & E & <-). rewrite E, ref_eqb_refl. apply nth_error_lt in E. lia.
Qed.

(** The entry in use at an offset, if any. *)
Definition present (o : Diana_InstructionsOwner) (a : Z) : option nat :=
  match nth_error (m_ppPresenceVec o) (Z.to_nat a) with Some p => p | None => None end.

Lemma present_at o a k : owner_ok o -> 0 <= a -> present o a = Some k ->
  exists i, nth_error (m_pInstructionsVec o) k = Some i /\ m_offset i = a.
Proof.
  intros Ho Ha E. unfold present in E. destruct (nth_error (m_ppPresenceVec o) _) as [q|] eqn:En; [|discriminate].
  subst q. destruct (ok_found _ Ho _ _ En) as (i & Ei & Ea). exists i. split; [exact Ei|]. lia.
Qed.

Lemma present_placed o k i : owner_ok o -> nth_error (m_pInstructionsVec o) k = Some i ->
  present o (m_offset i) = Some k.
Proof. intros Ho E. unfold present. now rewrite (proj2 (ok_placed _ Ho _ _ E)). Qed.

Lemma placed_below o k i : owner_ok o -> nth_error (m_pInstructionsVec o) k = Some i ->
  0 <= m_offset i < m_maxSize o.
Proof.
  intros Ho E. destruct (ok_placed _ Ho _ _ E) as (H0 & Hp). apply nth_error_lt in Hp.
  pose proof (ok_presence _ Ho). lia.
Qed.

(** The offsets of the entries in use differ from each other. *)
Definition used_offsets (o : Diana_InstructionsOwner) : list nat :=
  map (fun i => Z.to_nat (m_offset i)) (m_pInstructionsVec o).

Lemma used_offset_at o k b : nth_error (used_offsets o) k = Some b -> exists i,
  nth_error (m_pInstructionsVec o) k = Some i /\ b = Z.to_nat (m_offset i).
Proof.
  unfold used_offsets. rewrite nth_error_map. intros Hk.
  destruct (nth_error (m_pInstructionsVec o) k) as [i|]; [|discriminate]. injection Hk as <-. now exists i.
Qed.

Lemma used_offsets_distinct o : owner_ok o -> NoDup (used_offsets o).
Proof.
  intros Ho. apply NoDup_nth_error. intros j k Hj Hjk. destruct (nth_error (used_offsets o) j) as [b|] eqn:Ej.
  - destruct (used_offset_at _ _ _ Ej) as (i & Ei & Eb). symmetry in Hjk.
    destruct (used_offset_at _ _ _ Hjk) as (i' & Ei' & Eb').
    destruct (ok_placed _ Ho _ _ Ei), (ok_placed _ Ho _ _ Ei'). rewrite <- Eb in *. rewrite <- Eb' in *. congruence.
  - apply nth_error_None in Ej. lia.
Qed.

Lemma used_offsets_below o : owner_ok o -> incl (used_offsets o) (seq 0 (Z.to_nat (m_maxSize o))).
Proof.
  intros Ho b Hin. apply in_seq. apply In_nth_error in Hin as (k & Hk).
  destruct (used_offset_at _ _ _ Hk) as (i & Ei & ->). pose proof (placed_below _ _ _ Ho Ei). lia.
Qed.

Lemma used_size_bound o : owner_ok o -> m_usedSize o <= m_maxSize o.
Proof.
  intros Ho. pose proof (ok_size _ Ho). pose proof (NoDup_incl_length (used_offsets_distinct _ Ho) (used_offsets_below _ Ho)) as H'.
  unfold used_offsets in H'. rewrite length_seq, length_map in H'. unfold m_usedSize. lia.
Qed.

(** There is room for an instruction at an offset that has none. *)
Lemma room_left o a : owner_ok o -> 0 <= a < m_maxSize o -> present o a = None ->
  m_usedSize o < m_maxSize o.
Proof.
  intros Ho Ha E. unfold m_usedSize.
  assert (Hd : NoDup (Z.to_nat a :: used_offsets o)).
  { constructor; [|now apply used_offsets_distinct].
    intros Hin. apply In_nth_error in Hin as (k & Hk). destruct (used_offset_at _ _ _ Hk) as (i & Ei & Eb).
    pose proof (present_placed _ _ _ Ho Ei) as P. pose proof (placed_below _ _ _ Ho Ei).
    replace (m_offset i) with a in P by lia. congruence. }
  apply NoDup_incl_length with (l' := seq 0 (Z.to_nat (m_maxSize o))) in Hd.
  - rewrite length_seq in Hd. unfold used_offsets in Hd. cbn [length] in Hd. rewrite length_map in Hd. lia.
  - intros b [<-|Hin]; [apply in_seq; lia|]. now apply used_offsets_below.
Qed.

(** ** The operations *)

Definition valid_count (o : Diana_InstructionsOwner) : Z :=
  Z.of_nat (length (filter (fun i => negb (is_invalid i)) (m_pInstructionsVec o))).

Lemma valid_count_alter f p o i : instruction_at o p = Some i ->
  valid_count (alter_instruction f p o) =
  valid_count o + match p with
                  | InVector _ => (if is_invalid i then 1 else 0) - (if is_invalid (f i) then 1 else 0)
                  | InExternals _ => 0
                  end.
Proof.
  intros E. unfold valid_count. destruct p as [k|k]; cbn [alter_instruction]; [|cbn; lia].
  cbn [with_vector m_pInstructionsVec instruction_at] in *. rewrite (count_alter _ f _ _ _ E).
  destruct (is_invalid i), (is_invalid (f i)); cbn [negb]; lia.
Qed.

(** An owner in which only flags differ. *)
Definition ends (r : Diana_XRef) := (x_from r, x_to r).
Definition core (i : Diana_Instruction) :=
  (m_referencesFromThisInstruction i, m_referencesToThisInstruction i, m_offset i).

Record same_shape (o o' : Diana_InstructionsOwner) : Prop := {
  ss_size : m_maxSize o' = m_maxSize o;
  ss_presence : m_ppPresenceVec o' = m_ppPresenceVec o;
  ss_xrefs : map ends (m_xrefs o') = map ends (m_xrefs o);
  ss_instructions : forall p, option_map core (instruction_at o' p) = option_map core (instruction_at o p)
}.

Lemma option_map_some {X Y} (f : X -> Y) a b y : option_map f a = option_map f b -> a = Some y ->
  exists z, b = Some z /\ f y = f z.
Proof. intros E ->. destruct b as [z|]; [|discriminate]. injection E as E. now exists z. Qed.

Lemma ss_xref o o' x : same_shape o o' ->
  option_map ends (nth_error (m_xrefs o') x) = option_map ends (nth_error (m_xrefs o) x).
Proof. intros S. now rewrite <- !nth_error_map, (ss_xrefs _ _ S). Qed.

Lemma ss_where pick pick' o o' p : same_shape o o' -> (forall r, pick r = pick' (ends r)) ->
  xrefs_where pick o' p = xrefs_where pick o p.
Proof.
  intros S Hp. unfold xrefs_where. pose proof (f_equal (@length _) (ss_xrefs _ _ S)) as El.
  rewrite !length_map in El. rewrite El. apply filter_ext. intros x. pose proof (ss_xref _ _ x S) as E.
  destruct (nth_error (m_xrefs o') x), (nth_error (m_xrefs o) x); try discriminate; auto.
  injection E as E1 E2. rewrite !Hp. unfold ends. now rewrite E1, E2.
Qed.

Lemma ss_some o o' p : same_shape o o' -> instruction_at o p <> None -> instruction_at o' p <> None.
Proof. intros S H E. pose proof (ss_instructions _ _ S p) as Ei. rewrite E in Ei. now destruct (instruction_at o p). Qed.

Lemma same_shape_ok o o' : owner_ok o -> same_shape o o' -> m_actualSize o' = valid_count o' ->
  (forall x r i, nth_error (m_xrefs o') x = Some r -> instruction_at o' (x_from r) = Some i ->
     is_invalid i = true -> has_bit (x_flags r) DI_XREF_INVALID = true) ->
  owner_ok o'.
Proof.
  intros Ho S Ha Hd. pose proof (ss_instructions _ _ S) as Ei.
  constructor; auto; rewrite ?(ss_size _ _ S), ?(ss_presence _ _ S); try apply Ho.
  - intros a k Hp. destruct (ok_found _ Ho _ _ Hp) as (i & E & <-).
    destruct (option_map_some _ _ _ _ (eq_sym (Ei (InVector k))) E) as (i' & E' & Ec). exists i'.
    split; [exact E'|]. now injection Ec as _ _ <-.
  - intros k i E. destruct (option_map_some _ _ _ _ (Ei (InVector k)) E) as (i' & E' & Ec).
    injection Ec as _ _ ->. exact (ok_placed _ Ho _ _ E').
  - intros p i E. destruct (option_map_some _ _ _ _ (Ei p) E) as (i' & E' & Ec). injection Ec as -> _ _.
    rewrite (ss_where _ fst _ _ _ S) by reflexivity. now apply (ok_from _ Ho).
  - intros p i E. destruct (option_map_some _ _ _ _ (Ei p) E) as (i' & E' & Ec). injection Ec as _ -> _.
    rewrite (ss_where _ snd _ _ _ S) by reflexivity. now apply (ok_to _ Ho).
  - intros x r E. destruct (option_map_some _ _ _ _ (ss_xref _ _ x S) E) as (r' & E' & Ec).
    injection Ec as -> _. exact (ok_source _ Ho _ _ E').
  - intros x r E. destruct (option_map_some _ _ _ _ (ss_xref _ _ x S) E) as (r' & E' & Ec).
    injection Ec as -> ->. destruct (ok_ends _ Ho _ _ E'). split; now apply (ss_some _ _ _ S).
Qed.

(** Flags that say nothing of validity. *)
Lemma flags_shape f p o : same_shape o (alter_instruction (with_i_flags f) p o).
Proof.
  constructor; try (now destruct p). intros q. rewrite instruction_at_alter.
  destruct (ref_eqb q p); [|reflexivity]. now destruct (instruction_at o q).
Qed.

Lemma flags_ok f p o : owner_ok o -> instruction_at o p <> None ->
  (forall i, instruction_at o p = Some i -> is_invalid (with_i_flags f i) = is_invalid i) ->
  owner_ok (alter_instruction (with_i_flags f) p o).
Proof.
  intros Ho Hp Hf. apply (same_shape_ok _ _ Ho (flags_shape f p o)).
  - destruct (instruction_at o p) as [i|] eqn:E; [|congruence]. rewrite (valid_count_alter _ _ _ _ E).
    rewrite (Hf i eq_refl). replace (m_actualSize _) with (m_actualSize o) by now destruct p.
    rewrite (ok_actual _ Ho). unfold valid_count. destruct p, (is_invalid i); lia.
  - intros x r i Ex. replace (m_xrefs _) with (m_xrefs o) in Ex by now destruct p.
    rewrite instruction_at_alter. destruct (ref_eqb_spec (x_from r) p) as [Ep|].
    + intros Ei Hi. subst p. destruct (instruction_at o (x_from r)) as [j|] eqn:E; [|discriminate]. injection Ei as <-.
      rewrite (Hf j eq_refl) in Hi. exact (ok_dead _ Ho _ _ _ Ex E Hi).
    + intros Ei Hi. exact (ok_dead _ Ho _ _ _ Ex Ei Hi).
Qed.

(** A new reference. *)
Definition link (from to : InstructionRef) (bits : Z) (o : Diana_InstructionsOwner) : Diana_InstructionsOwner :=
  let x := length (m_xrefs o) in
  with_xrefs (fun l => l ++ [mkDiana_XRef from to bits])
    (alter_instruction (with_referencesFrom (fun l => l ++ [x])) from
      (alter_instruction (with_referencesTo (fun l => l ++ [x])) to o)).

Lemma with_xrefs_at f o p : instruction_at (with_xrefs f o) p = instruction_at o p.
Proof. now destruct p. Qed.

Lemma alter_xrefs f p o : m_xrefs (alter_instruction f p o) = m_xrefs o.
Proof. now destruct p. Qed.

Lemma link_xrefs from to bits o : m_xrefs (link from to bits o) = m_xrefs o ++ [mkDiana_XRef from to bits].
Proof. unfold link. cbn [with_xrefs m_xrefs]. now rewrite !alter_xrefs. Qed.

Lemma link_at from to bits o p : instruction_at (link from to bits o) p =
  option_map (fun i => mkDiana_Instruction
      (m_referencesFromThisInstruction i ++ if ref_eqb p from then [length (m_xrefs o)] else [])
      (m_referencesToThisInstruction i ++ if ref_eqb p to then [length (m_xrefs o)] else [])
      (m_offset i) (m_flags i)) (instruction_at o p).
Proof.
  unfold link. rewrite with_xrefs_at, !instruction_at_alter.
  destruct (instruction_at o p) as [[f t a b]|]; destruct (ref_eqb p from), (ref_eqb p to); cbn;
    rewrite ?app_nil_r; reflexivity.
Qed.

Lemma xrefs_where_snoc pick o o' r p : m_xrefs o' = m_xrefs o ++ [r] ->
  xrefs_where pick o' p = xrefs_where pick o p ++ if ref_eqb p (pick r) then [length (m_xrefs o)] else [].
Proof.
  intros E. unfold xrefs_where. rewrite E, length_app. cbn [length]. rewrite Nat.add_1_r, seq_S, filter_app.
  f_equal.
  - apply filter_ext_in. intros x Hx. apply in_seq in Hx. rewrite nth_error_app1 by lia. reflexivity.
  - cbn. rewrite nth_error_snoc, Nat.eqb_refl. destruct (ref_eqb_spec (pick r) p), (ref_eqb_spec p (pick r)); congruence.
Qed.

Lemma link_none from to bits o p : instruction_at o p <> None -> instruction_at (link from to bits o) p <> None.
Proof. rewrite link_at. now destruct (instruction_at o p). Qed.

Lemma link_ok src to bits o i (from := InVector src) : owner_ok o -> instruction_at o from = Some i -> is_invalid i = false ->
  instruction_at o to <> None -> owner_ok (link from to bits o).
Proof.
  intros Ho Hf Hi Ht.
  assert (Eat : forall p j, instruction_at (link from to bits o) p = Some j -> exists j0,
            instruction_at o p = Some j0 /\ m_offset j = m_offset j0 /\ m_flags j = m_flags j0 /\
            m_referencesFromThisInstruction j = xrefs_where x_from (link from to bits o) p /\
            m_referencesToThisInstruction j = xrefs_where x_to (link from to bits o) p).
  { intros p j E. rewrite link_at in E. destruct (instruction_at o p) as [j0|] eqn:E0; [|discriminate].
    exists j0. injection E as <-. do 3 (split; [reflexivity|]).
    cbn [m_referencesFromThisInstruction m_referencesToThisInstruction].
    rewrite !(xrefs_where_snoc _ _ _ _ p (link_xrefs from to bits o)). cbn [x_from x_to].
    now rewrite (ok_from _ Ho _ _ E0), (ok_to _ Ho _ _ E0). }
  assert (Ep : m_ppPresenceVec (link from to bits o) = m_ppPresenceVec o) by now destruct to.
  constructor; rewrite ?Ep; try (now destruct to; apply Ho).
  - intros a k Hp. destruct (ok_found _ Ho _ _ Hp) as (j & Ej & Ea). pose proof (link_at from to bits o (InVector k)) as E.
    cbn [instruction_at] in E. rewrite Ej in E. cbn in E. eexists. split; [exact E|]. exact Ea.
  - intros k j E. destruct (Eat (InVector k) j E) as (j0 & E0 & -> & _). exact (ok_placed _ Ho _ _ E0).
  - intros p j E. now destruct (Eat p j E) as (_ & _ & _ & _ & H & _).
  - intros p j E. now destruct (Eat p j E) as (_ & _ & _ & _ & _ & H).
  - intros x r. rewrite link_xrefs, nth_error_snoc. destruct (_ =? _)%nat; intros E.
    + injection E as <-. now exists src.
    + exact (ok_source _ Ho _ _ E).
  - intros x r. rewrite link_xrefs, nth_error_snoc. destruct (_ =? _)%nat; intros E.
    + injection E as <-. cbn [x_from x_to]. split; apply link_none; congruence.
    + destruct (ok_ends _ Ho _ _ E). split; now apply link_none.
  - change (m_actualSize (link from to bits o) = valid_count (link from to bits o)).
    replace (m_actualSize _) with (m_actualSize o) by now destruct to. rewrite (ok_actual _ Ho).
    destruct (instruction_at o to) as [j|] eqn:Ej; [|congruence].
    set (o1 := alter_instruction (with_referencesTo (fun l => l ++ [length (m_xrefs o)])) to o).
    assert (H1 : instruction_at o1 from = Some (if ref_eqb from to then with_referencesTo (fun l => l ++ [length (m_xrefs o)]) i else i)).
    { unfold o1. rewrite instruction_at_alter. destruct (ref_eqb_spec from to); [|exact Hf]. now rewrite Hf. }
    change (valid_count o = valid_count (alter_instruction (with_referencesFrom (fun l => l ++ [length (m_xrefs o)])) from o1)).
    rewrite (valid_count_alter _ _ _ _ H1). unfold o1. rewrite (valid_count_alter _ _ _ _ Ej).
    unfold is_invalid. unfold from. destruct to, (ref_eqb _ _); cbn; lia.
  - intros x r j. rewrite link_xrefs, nth_error_snoc. destruct (_ =? _)%nat; intros Ex Ej Hj.
    + injection Ex as <-. cbn [x_from] in Ej. destruct (Eat _ _ Ej) as (j0 & E0 & _ & Efl & _).
      rewrite Hf in E0. injection E0 as <-. unfold is_invalid in *. congruence.
    + destruct (Eat _ _ Ej) as (j0 & E0 & _ & Efl & _). unfold is_invalid in *. rewrite Efl in Hj.
      exact (ok_dead _ Ho _ _ _ Ex E0 Hj).
Qed.

(** A new external instruction. *)
Definition put_external (a bits : Z) (o : Diana_InstructionsOwner) : Diana_InstructionsOwner :=
  with_externals (fun l => l ++ [Diana_Instruction_Init a bits]) o.

Definition next_external (o : Diana_InstructionsOwner) : InstructionRef :=
  InExternals (length (m_externalInstructionsList o)).

Lemma put_external_at a bits o p : instruction_at (put_external a bits o) p =
  if ref_eqb p (next_external o) then Some (Diana_Instruction_Init a bits) else instruction_at o p.
Proof. destruct p as [k|k]; [reflexivity|]. cbn. apply nth_error_snoc. Qed.

Lemma next_external_none o : instruction_at o (next_external o) = None.
Proof. cbn. now apply nth_error_None. Qed.

Lemma nowhere pick o p : (forall x r, nth_error (m_xrefs o) x = Some r -> instruction_at o (pick r) <> None) ->
  instruction_at o p = None -> xrefs_where pick o p = [].
Proof.
  intros H E. destruct (xrefs_where pick o p) as [|x l] eqn:El; [reflexivity|]. exfalso.
  assert (Hin : In x (xrefs_where pick o p)) by (rewrite El; now left).
  apply xrefs_where_in in Hin as (r & Er & <-). now apply (H _ _ Er).
Qed.

Lemma put_external_ok a bits o : owner_ok o -> owner_ok (put_external a bits o).
Proof.
  intros Ho. pose proof (next_external_none o) as Hn.
  constructor; try apply Ho.
  - intros p i. rewrite put_external_at. destruct (ref_eqb_spec p (next_external o)) as [->|]; [|apply Ho].
    intros E. injection E as <-. symmetry. apply (nowhere _ o); [|exact Hn]. intros x r E. apply (ok_ends _ Ho _ _ E).
  - intros p i. rewrite put_external_at. destruct (ref_eqb_spec p (next_external o)) as [->|]; [|apply Ho].
    intros E. injection E as <-. symmetry. apply (nowhere _ o); [|exact Hn]. intros x r E. apply (ok_ends _ Ho _ _ E).
  - intros x r E. destruct (ok_ends _ Ho _ _ E). rewrite !put_external_at.
    split; destruct (ref_eqb _ _); congruence.
  - intros x r i E. rewrite put_external_at. destruct (ref_eqb_spec (x_from r) (next_external o)) as [Er|].
    + destruct (ok_ends _ Ho _ _ E). congruence.
    + exact (ok_dead _ Ho _ _ _ E).
Qed.

(** A new instruction at an offset that has none. *)
Definition place (a bits : Z) (o : Diana_InstructionsOwner) : Diana_InstructionsOwner :=
  let k := length (m_pInstructionsVec o) in
  with_presence (alter_nth (fun _ => Some k) (Z.to_nat a))
    (with_actualSize (fun n => n + 1) (with_vector (fun v => v ++ [Diana_Instruction_Init a bits]) o)).

Definition next_entry (o : Diana_InstructionsOwner) : InstructionRef := InVector (length (m_pInstructionsVec o)).

Lemma place_at a bits o p : instruction_at (place a bits o) p =
  if ref_eqb p (next_entry o) then Some (Diana_Instruction_Init a bits) else instruction_at o p.
Proof. destruct p as [k|k]; [|reflexivity]. cbn. apply nth_error_snoc. Qed.

Lemma next_entry_none o : instruction_at o (next_entry o) = None.
Proof. cbn. now apply nth_error_None. Qed.

Lemma presence_lt o a : owner_ok o -> 0 <= a < m_maxSize o -> (Z.to_nat a < length (m_ppPresenceVec o))%nat.
Proof. intros Ho Ha. pose proof (ok_presence _ Ho). lia. Qed.

Lemma present_nth o a : owner_ok o -> 0 <= a < m_maxSize o ->
  nth_error (m_ppPresenceVec o) (Z.to_nat a) = Some (present o a).
Proof.
  intros Ho Ha. unfold present. destruct (nth_error _ _) eqn:E; [reflexivity|].
  apply nth_error_None in E. pose proof (presence_lt _ _ Ho Ha). lia.
Qed.

Lemma place_present a bits o b : owner_ok o -> 0 <= a < m_maxSize o -> 0 <= b ->
  present (place a bits o) b = if b =? a then Some (length (m_pInstructionsVec o)) else present o b.
Proof.
  intros Ho Ha Hb. unfold present, place. cbn [with_presence m_ppPresenceVec with_actualSize with_vector].
  rewrite nth_error_alter. destruct (Nat.eqb_spec (Z.to_nat b) (Z.to_nat a)), (Z.eqb_spec b a); try lia; [|reflexivity].
  subst b. rewrite (present_nth _ _ Ho Ha). reflexivity.
Qed.

Lemma place_ok a bits o : owner_ok o -> 0 <= a < m_maxSize o -> present o a = None ->
  has_bit bits DI_INSTRUCTION_INVALID = false -> owner_ok (place a bits o).
Proof.
  intros Ho Ha Hp Hb. pose proof (next_entry_none o) as Hn.
  assert (Ev : forall k i, nth_error (m_pInstructionsVec (place a bits o)) k = Some i ->
            k = length (m_pInstructionsVec o) /\ i = Diana_Instruction_Init a bits \/
            nth_error (m_pInstructionsVec o) k = Some i).
  { intros k i. cbn. rewrite nth_error_snoc. destruct (Nat.eqb_spec k (length (m_pInstructionsVec o))); [|auto].
    intros E. injection E as <-. auto. }
  constructor.
  - exact (ok_size _ Ho).
  - cbn. rewrite length_alter. exact (ok_presence _ Ho).
  - intros b k. cbn. rewrite nth_error_alter. destruct (Nat.eqb_spec b (Z.to_nat a)) as [->|].
    + rewrite (present_nth _ _ Ho Ha). intros E. injection E as <-. exists (Diana_Instruction_Init a bits).
      rewrite nth_error_snoc, Nat.eqb_refl. split; [reflexivity|]. cbn. lia.
    + intros E. destruct (ok_found _ Ho _ _ E) as (i & Ei & Eo). exists i. split; [|exact Eo].
      rewrite nth_error_app1; [exact Ei|]. now apply nth_error_lt in Ei.
  - intros k i E. cbn [place with_presence m_ppPresenceVec with_actualSize with_vector]. rewrite nth_error_alter.
    destruct (Ev _ _ E) as [(-> & ->)|E0].
    + cbn. rewrite Nat.eqb_refl, (present_nth _ _ Ho Ha). split; [lia|reflexivity].
    + destruct (ok_placed _ Ho _ _ E0) as (H0 & H1). split; [exact H0|].
      destruct (Nat.eqb_spec (Z.to_nat (m_offset i)) (Z.to_nat a)) as [Eq|]; [|exact H1].
      pose proof (present_placed _ _ _ Ho E0) as P. unfold present in P, Hp. rewrite Eq in P. now rewrite P in Hp.
  - intros p i. rewrite place_at. destruct (ref_eqb_spec p (next_entry o)) as [->|]; [|apply Ho].
    intros E. injection E as <-. symmetry. apply (nowhere _ o); [|exact Hn]. intros x r E. apply (ok_ends _ Ho _ _ E).
  - intros p i. rewrite place_at. destruct (ref_eqb_spec p (next_entry o)) as [->|]; [|apply Ho].
    intros E. injection E as <-. symmetry. apply (nowhere _ o); [|exact Hn]. intros x r E. apply (ok_ends _ Ho _ _ E).
  - exact (ok_source _ Ho).
  - intros x r E. destruct (ok_ends _ Ho _ _ E). rewrite !place_at. split; destruct (ref_eqb _ _); congruence.
  - cbn. rewrite filter_app, length_app. cbn. unfold is_invalid at 2. cbn. rewrite Hb. cbn. rewrite (ok_actual _ Ho). lia.
  - intros x r i E. rewrite place_at. destruct (ref_eqb_spec (x_from r) (next_entry o)) as [Er|].
    + destruct (ok_ends _ Ho _ _ E). congruence.
    + exact (ok_dead _ Ho _ _ _ E).
Qed.

(** An instruction that turns out not to be one: it and its references become invalid. *)
Definition mark_all (l : list nat) (xs : list Diana_XRef) : list Diana_XRef :=
  fold_left (fun xs x => alter_nth (with_x_flags (fun f => Z.lor f DI_XREF_INVALID)) x xs) l xs.

Definition kill (k : nat) (o : Diana_InstructionsOwner) : Diana_InstructionsOwner :=
  let o1 := alter_instruction (with_i_flags (fun f => Z.lor f DI_INSTRUCTION_INVALID)) (InVector k) o in
  match instruction_at o1 (InVector k) with
  | Some i =>
      with_actualSize (fun n => u64 (n - 1))
        (with_xrefs (mark_all (m_referencesFromThisInstruction i))
          (with_xrefs (mark_all (m_referencesToThisInstruction i)) o1))
  | None => o
  end.

Definition marked (r : Diana_XRef) : Diana_XRef := with_x_flags (fun f => Z.lor f DI_XREF_INVALID) r.

Lemma marked_twice r : marked (marked r) = marked r.
Proof. unfold marked, with_x_flags. cbn. now rewrite <- Z.lor_assoc. Qed.

Lemma mark_all_nth l xs x : nth_error (mark_all l xs) x =
  option_map (fun r => if existsb (Nat.eqb x) l then marked r else r) (nth_error xs x).
Proof.
  revert xs. induction l as [|y l IH]; intros xs; cbn [mark_all fold_left existsb].
  - now destruct (nth_error xs x).
  - fold (mark_all l (alter_nth (with_x_flags (fun f => Z.lor f DI_XREF_INVALID)) y xs)).
    rewrite IH, nth_error_alter. change (with_x_flags _) with marked.
    destruct (x =? y)%nat, (existsb _ l), (nth_error xs x); cbn; rewrite ?marked_twice; reflexivity.
Qed.

Lemma mark_all_ends l xs : map ends (mark_all l xs) = map ends xs.
Proof.
  unfold mark_all. revert xs. induction l as [|y l IH]; intros xs; cbn; [reflexivity|]. rewrite IH.
  revert xs. induction y as [|y IHy]; intros [|r xs]; cbn; auto. now rewrite IHy.
Qed.

Lemma existsb_in x l : existsb (Nat.eqb x) l = true <-> In x l.
Proof.
  rewrite existsb_exists. split; [intros (y & Hy & E); apply Nat.eqb_eq in E; now subst|].
  intros H. exists x. split; [exact H|apply Nat.eqb_refl].
Qed.

(** The references to and from an instruction. *)
Definition touches (k : nat) (r : Diana_XRef) : bool :=
  ref_eqb (x_from r) (InVector k) || ref_eqb (x_to r) (InVector k).

Section Kill.
Variables (k : nat) (o : Diana_InstructionsOwner) (i : Diana_Instruction).
Hypothesis fine : owner_ok o.
Hypothesis entry : nth_error (m_pInstructionsVec o) k = Some i.

Lemma kill_at p : instruction_at (kill k o) p =
  if ref_eqb p (InVector k)
  then option_map (with_i_flags (fun f => Z.lor f DI_INSTRUCTION_INVALID)) (instruction_at o p)
  else instruction_at o p.
Proof.
  unfold kill. rewrite instruction_at_alter, ref_eqb_refl. cbn [instruction_at]. rewrite entry. cbn [option_map].
  rewrite <- instruction_at_alter. now destruct p.
Qed.

Lemma kill_xref x : nth_error (m_xrefs (kill k o)) x =
  option_map (fun r => if touches k r then marked r else r) (nth_error (m_xrefs o) x).
Proof.
  unfold kill. rewrite instruction_at_alter, ref_eqb_refl. cbn [instruction_at]. rewrite entry.
  cbn [option_map with_i_flags m_referencesFromThisInstruction m_referencesToThisInstruction].
  cbn [with_actualSize with_xrefs m_xrefs]. rewrite alter_xrefs, !mark_all_nth.
  rewrite (ok_from _ fine (InVector k) i entry), (ok_to _ fine (InVector k) i entry).
  destruct (nth_error (m_xrefs o) x) as [r|] eqn:E; [|reflexivity]. cbn [option_map]. f_equal. unfold touches.
  assert (H : forall pick, existsb (Nat.eqb x) (xrefs_where pick o (InVector k)) = ref_eqb (pick r) (InVector k)).
  { intros pick. apply eq_true_iff_eq. rewrite existsb_in, xrefs_where_in. split.
    - intros (r' & E' & Er). rewrite E in E'. injection E' as <-. rewrite Er. apply ref_eqb_refl.
    - destruct (ref_eqb_spec (pick r) (InVector k)) as [Er|]; [|discriminate]. intros _. now exists r. }
  rewrite !H. destruct (ref_eqb (x_from r) _), (ref_eqb (x_to r) _); cbn; now rewrite ?marked_twice.
Qed.

Lemma kill_shape : same_shape o (kill k o).
Proof.
  constructor.
  - unfold kill. now destruct (instruction_at _ _).
  - unfold kill. now destruct (instruction_at _ _).
  - unfold kill. destruct (instruction_at _ _); [|reflexivity].
    cbn [with_actualSize with_xrefs m_xrefs]. now rewrite !mark_all_ends, alter_xrefs.
  - intros p. rewrite kill_at. destruct (ref_eqb p _); [|reflexivity]. now destruct (instruction_at o p).
Qed.

Hypothesis valid : is_invalid i = false.

Lemma kill_count : m_actualSize (kill k o) = m_actualSize o - 1 /\ valid_count (kill k o) = valid_count o - 1.
Proof.
  pose proof (valid_count_alter (with_i_flags (fun f => Z.lor f DI_INSTRUCTION_INVALID)) (InVector k) o i entry) as Ec.
  cbn iota in Ec. rewrite valid in Ec. unfold is_invalid in Ec. cbn [with_i_flags m_flags] in Ec.
  rewrite has_bit_lor, orb_true_r in Ec.
  assert (Hc : 1 <= valid_count o <= 2 ^ 60).
  { split.
    - assert (H : 0 <= valid_count (alter_instruction (with_i_flags (fun f => Z.lor f DI_INSTRUCTION_INVALID)) (InVector k) o))
        by (unfold valid_count; lia). lia.
    - pose proof (used_size_bound _ fine). pose proof (ok_size _ fine). unfold m_usedSize in *. unfold valid_count.
      pose proof (filter_length_le (fun i => negb (is_invalid i)) (m_pInstructionsVec o)). lia. }
  unfold kill. rewrite instruction_at_alter, ref_eqb_refl. cbn [instruction_at]. rewrite entry. cbn [option_map].
  split.
  - cbn [with_actualSize m_actualSize with_xrefs alter_instruction with_vector]. rewrite (ok_actual _ fine).
    fold (valid_count o). apply u64_small. lia.
  - match goal with |- ?l = _ => change l with
      (valid_count (alter_instruction (with_i_flags (fun f => Z.lor f DI_INSTRUCTION_INVALID)) (InVector k) o)) end. lia.
Qed.

Lemma kill_ok : owner_ok (kill k o).
Proof.
  destruct kill_count as (E1 & E2). apply (same_shape_ok o); auto using kill_shape.
  - rewrite E1, E2, (ok_actual _ fine). reflexivity.
  - intros x r j. rewrite kill_xref, kill_at. destruct (nth_error (m_xrefs o) x) as [r0|] eqn:Ex; [|discriminate].
    intros E. injection E as <-.
    replace (x_from (if touches k r0 then marked r0 else r0)) with (x_from r0) by now destruct (touches k r0).
    unfold touches.
    destruct (ref_eqb (x_from r0) (InVector k)); cbn [orb].
    + intros _ _. cbn. rewrite has_bit_lor. apply orb_true_r.
    + intros Ej Hj. pose proof (ok_dead _ fine _ _ _ Ex Ej Hj) as Hd. destruct (ref_eqb _ _); [|exact Hd].
      cbn. rewrite has_bit_lor. apply orb_true_r.
Qed.
End Kill.

(** The instructions of a route that is rolled back. *)
Definition kill_all (ks : list nat) (o : Diana_InstructionsOwner) : Diana_InstructionsOwner :=
  fold_left (fun o k => kill k o) ks o.

Definition invalid_now (i : Diana_Instruction) : Diana_Instruction :=
  with_i_flags (fun f => Z.lor f DI_INSTRUCTION_INVALID) i.

Lemma is_invalid_now i : is_invalid (invalid_now i) = true.
Proof. unfold is_invalid. cbn. rewrite has_bit_lor. apply orb_true_r. Qed.

(** Entries that are there and valid, each named once. *)
Record killable (ks : list nat) (o : Diana_InstructionsOwner) : Prop := {
  ka_distinct : NoDup ks;
  ka_valid : forall k, In k ks -> exists i, nth_error (m_pInstructionsVec o) k = Some i /\ is_invalid i = false
}.

Lemma killable_next k ks o : owner_ok o -> killable (k :: ks) o -> exists i,
  nth_error (m_pInstructionsVec o) k = Some i /\ is_invalid i = false /\ killable ks (kill k o).
Proof.
  intros Ho [D V]. destruct (V k (or_introl eq_refl)) as (i & Ei & Vi). exists i. split; [exact Ei|]. split; [exact Vi|].
  inversion D as [|? ? Hn Hd]; subst. constructor; [exact Hd|]. intros j Hj.
  destruct (V j (or_intror Hj)) as (ij & Ej & Vj). exists ij. split; [|exact Vj].
  pose proof (kill_at k o i Ei (InVector j)) as E. cbn [instruction_at] in E. rewrite E. cbn [ref_eqb].
  destruct (Nat.eqb_spec j k) as [->|]; [contradiction|exact Ej].
Qed.

(** All that a rollback does to the owner. *)
Record killed (ks : list nat) (o o' : Diana_InstructionsOwner) : Prop := {
  kd_owner : owner_ok o';
  kd_shape : same_shape o o';
  kd_entries : forall p, instruction_at o' p =
    option_map (fun i => if existsb (fun k => ref_eqb p (InVector k)) ks then invalid_now i else i) (instruction_at o p);
  kd_xrefs : forall x, nth_error (m_xrefs o') x =
    option_map (fun r => if existsb (fun k => touches k r) ks then marked r else r) (nth_error (m_xrefs o) x);
  kd_actual : m_actualSize o' = m_actualSize o - Z.of_nat (length ks);
  kd_used : m_usedSize o' = m_usedSize o
}.

Lemma touches_marked k r : touches k (marked r) = touches k r.
Proof. reflexivity. Qed.

Lemma kill_all_killed ks o : owner_ok o -> killable ks o -> killed ks o (kill_all ks o).
Proof.
  revert o. induction ks as [|k ks IH]; intros o Ho Hk; cbn [kill_all fold_left].
  - constructor; auto; cbn [existsb length]; try lia.
    + constructor; auto.
    + intros p. now destruct (instruction_at o p).
    + intros x. now destruct (nth_error _ x).
  - destruct (killable_next _ _ _ Ho Hk) as (i & Ei & Vi & Hk'). fold (kill_all ks (kill k o)).
    destruct (IH (kill k o) (kill_ok k o i Ho Ei Vi) Hk') as [I1 I2 I3 I4 I5 I6].
    pose proof (kill_shape k o i Ei) as S. destruct (kill_count k o i Ho Ei Vi) as (E1 & _).
    inversion Hk as [D _]. inversion D as [|? ? Hn _]; subst.
    constructor; auto.
    + destruct S, I2. constructor; congruence.
    + intros p. rewrite I3, (kill_at k o i Ei). cbn [existsb]. destruct (instruction_at o p) as [j|]; [|now destruct (ref_eqb _ _)].
      destruct (ref_eqb_spec p (InVector k)) as [->|]; cbn [orb option_map]; [|reflexivity]. f_equal.
      destruct (existsb _ ks) eqn:Ex; [|reflexivity]. apply existsb_exists in Ex as (k' & Hin & Ek). cbn in Ek.
      apply Nat.eqb_eq in Ek. subst. contradiction.
    + intros x. rewrite I4, (kill_xref k o i Ho Ei). cbn [existsb]. destruct (nth_error (m_xrefs o) x) as [r|]; [|reflexivity].
      cbn [option_map]. f_equal. destruct (touches k r); cbn [orb]; [|reflexivity].
      destruct (existsb _ ks); [apply marked_twice|reflexivity].
    + rewrite I5, E1. cbn [length]. lia.
    + rewrite I6. unfold m_usedSize, kill. rewrite instruction_at_alter, ref_eqb_refl. cbn [instruction_at]. rewrite Ei.
      cbn. now rewrite length_alter.
Qed.

(** ** A new owner *)

Lemma init_owner_ok size minimal o : 0 <= size <= 2 ^ 60 ->
  Diana_InstructionsOwner_Init (true, true, true) size minimal = Some o ->
  owner_ok o /\ m_maxSize o = size /\ m_pInstructionsVec o = [].
Proof.
  intros Hs E. injection E as <-. split; [|now split].
  assert (Hnone : forall p, instruction_at (mkDiana_InstructionsOwner [] (repeat None (Z.to_nat size)) [] size 0 [] minimal) p = None)
    by (intros [[|k]|[|k]]; reflexivity).
  constructor; cbn [m_maxSize m_ppPresenceVec m_pInstructionsVec m_xrefs m_actualSize]; auto;
    try (intros p i E; rewrite Hnone in E; discriminate); try (intros x r E; destruct x; discriminate).
  - rewrite repeat_length. lia.
  - intros a k E. apply nth_error_In, repeat_spec in E. discriminate.
Qed.
