(* ===== verification/AnalyzeSaveProofs.v ===== *)
(** What the analyzer's session keeps while an instruction is analyzed: the owner, the routes still
    to be followed and the current one. *)

From Stdlib Require Import ZArith Lia List Bool.
Import ListNotations.
From S2P Require Import Prelude Words Status DecTypes DecStreams CopyStreams DecCacheProofs Analyze AnalyzeOwnerProofs.
Local Open Scope Z_scope.
Local Open Scope diana_scope.

(** ** Programs with a postcondition for every outcome

    [triple P m Q E]: from [P], [m] does not crash; with the value [a] it ends in [Q a], with an
    error in [E]. *)

Section Triple.
Context {St : Type}.
Variable E : St -> Prop.

Definition triple {X} (P : St -> Prop) (m : M St X) (Q : X -> St -> Prop) : Prop :=
  forall s, P s -> match m s with
                   | (Ok a, s') => Q a s'
                   | (Err _, s') => E s'
                   | (Crash, _) => False
                   end.

Lemma triple_bind {X Y} P (m : M St X) (f : X -> M St Y) Q R :
  triple P m Q -> (forall a, triple (Q a) (f a) R) -> triple P (bind m f) R.
Proof.
  intros Hm Hf s Hs. unfold bind. specialize (Hm s Hs). destruct (m s) as [[a|c|] s']; auto. exact (Hf a s' Hm).
Qed.

(** After a program without a result. *)
Lemma triple_seq {X} (P P' : St -> Prop) (m : M St unit) (f : M St X) R :
  triple P m (fun _ => P') -> triple P' f R -> triple P (bind m (fun _ => f)) R.
Proof. intros Hm Hf. eapply triple_bind; [exact Hm|]. intros a. exact Hf. Qed.

Lemma triple_ret {X} (P : St -> Prop) (a : X) (Q : X -> St -> Prop) :
  (forall s, P s -> Q a s) -> triple P (ret a) Q.
Proof. intros H s Hs. exact (H s Hs). Qed.

Lemma triple_fail {X} (P : St -> Prop) c (Q : X -> St -> Prop) : (forall s, P s -> E s) -> triple P (fail c) Q.
Proof. intros H s Hs. exact (H s Hs). Qed.

(** A value that is read: the rest is proved for what it is. *)
Lemma triple_gets {X Y} (P : St -> Prop) (g : St -> X) (f : X -> M St Y) R :
  (forall a, triple (fun s => P s /\ g s = a) (f a) R) -> triple P (bind (gets g) f) R.
Proof. intros H s Hs. exact (H (g s) s (conj Hs eq_refl)). Qed.

Lemma triple_modify (P : St -> Prop) g (Q : unit -> St -> Prop) :
  (forall s, P s -> Q tt (g s)) -> triple P (modify g) Q.
Proof. intros H s Hs. exact (H s Hs). Qed.

Lemma triple_pre {X} (P P' : St -> Prop) (m : M St X) Q :
  triple P' m Q -> (forall s, P s -> P' s) -> triple P m Q.
Proof. intros Hm H s Hs. exact (Hm s (H s Hs)). Qed.

Lemma triple_post {X} (P : St -> Prop) (m : M St X) (Q Q' : X -> St -> Prop) :
  triple P m Q' -> (forall a s, Q' a s -> Q a s) -> triple P m Q.
Proof. intros Hm H s Hs. specialize (Hm s Hs). destruct (m s) as [[a|c|] s']; auto. Qed.

Lemma triple_when (P : St -> Prop) b m : (b = true -> triple P m (fun _ => P)) -> triple P (when b m) (fun _ => P).
Proof. intros H. destruct b; [now apply H|]. intros s Hs. exact Hs. Qed.

Lemma triple_pure (X : Prop) {Y} (P : St -> Prop) (m : M St Y) Q :
  (X -> triple P m Q) -> triple (fun s => P s /\ X) m Q.
Proof. intros Hm s (Hs & Hx). exact (Hm Hx s Hs). Qed.
End Triple.

(** ** Each operation on the owner, as one step *)

Section Runs.
Context {T : Type} `{DianaMovableReadStream T} {Obs : Type}.
Variable DIANA_MALLOC : nat -> bool.
Abbreviation Session := (@DianaAnalyzeSession T Obs).
Implicit Types (s : Session).

Lemma allocate_run s : allocate DIANA_MALLOC s =
  (if DIANA_MALLOC (mallocs s) then Ok tt else Err DI_OUT_OF_MEMORY, with_mallocs (S (mallocs s)) s).
Proof. unfold allocate. mred. now destruct (DIANA_MALLOC _). Qed.

Lemma instruction_run s p i : instruction_at (pOwner s) p = Some i -> instruction p s = (Ok i, s).
Proof. intros E. unfold instruction, owner. mred. now rewrite E. Qed.

Lemma set_instruction_run s p f : instruction_at (pOwner s) p <> None ->
  set_instruction p f s = (Ok tt, with_pOwner (alter_instruction f p) s).
Proof.
  intros E. destruct (instruction_at (pOwner s) p) as [i|] eqn:Ei; [|congruence].
  unfold set_instruction. mrun (instruction_run _ _ _ Ei). reflexivity.
Qed.

Lemma add_flags_run s p bits : instruction_at (pOwner s) p <> None ->
  add_flags p bits s = (Ok tt, with_pOwner (alter_instruction (with_i_flags (fun x => Z.lor x bits)) p) s).
Proof. apply set_instruction_run. Qed.

Lemma GetInstruction_run s a : owner_ok (pOwner s) -> 0 <= a < m_maxSize (pOwner s) ->
  Diana_InstructionsOwner_GetInstruction a s = (Ok (present (pOwner s) a), s).
Proof.
  intros Ho Ha. unfold Diana_InstructionsOwner_GetInstruction, owner. mred.
  destruct (Z.ltb_spec a 0); [lia|]. now rewrite (present_nth _ _ Ho Ha).
Qed.

Lemma Query_present s a bits k : owner_ok (pOwner s) -> 0 <= a < m_maxSize (pOwner s) ->
  present (pOwner s) a = Some k -> Diana_InstructionsOwner_QueryOrAllocateInstruction a bits s = (Ok k, s).
Proof.
  intros Ho Ha E. unfold Diana_InstructionsOwner_QueryOrAllocateInstruction.
  mrun (GetInstruction_run _ _ Ho Ha). now rewrite E.
Qed.

Lemma Query_absent s a bits : owner_ok (pOwner s) -> 0 <= a < m_maxSize (pOwner s) -> present (pOwner s) a = None ->
  Diana_InstructionsOwner_QueryOrAllocateInstruction a bits s =
  (Ok (length (m_pInstructionsVec (pOwner s))), with_pOwner (place a bits) s).
Proof.
  intros Ho Ha E. unfold Diana_InstructionsOwner_QueryOrAllocateInstruction.
  mrun (GetInstruction_run _ _ Ho Ha). rewrite E.
  unfold Diana_InstructionsOwner_AllocateInstruction, owner, set_owner. mred.
  pose proof (room_left _ _ Ho Ha E). destruct (Z.leb_spec (m_maxSize (pOwner s)) (m_usedSize (pOwner s))); [lia|].
  mred. erewrite bind_run; [|apply set_instruction_run].
  2: { cbn. rewrite nth_error_snoc, Nat.eqb_refl. discriminate. }
  mred. unfold ret, with_pOwner. cbn. unfold place. cbn. do 3 f_equal.
  unfold with_vector, with_presence, with_actualSize. cbn. rewrite alter_last. reflexivity.
Qed.

Lemma CreateXRef_run s from to bits :
  instruction_at (pOwner s) from <> None -> instruction_at (pOwner s) to <> None ->
  Diana_CreateXRef DIANA_MALLOC from to bits s =
  if DIANA_MALLOC (mallocs s) then (Ok tt, with_pOwner (link from to bits) (with_mallocs (S (mallocs s)) s))
  else (Err DI_OUT_OF_MEMORY, with_mallocs (S (mallocs s)) s).
Proof.
  intros Hf Ht. unfold Diana_CreateXRef, owner, set_owner. unfold bind at 1. rewrite allocate_run.
  destruct (DIANA_MALLOC (mallocs s)); [|reflexivity]. mred.
  erewrite bind_run; [|apply set_instruction_run; now destruct to].
  erewrite bind_run.
  2: { apply set_instruction_run. cbn [with_pOwner pOwner with_mallocs]. rewrite instruction_at_alter, with_xrefs_at.
       destruct (instruction_at (pOwner s) from); [|congruence]. now destruct (ref_eqb _ _). }
  unfold modify. f_equal. unfold with_pOwner. cbn [pOwner with_mallocs m_pStream observer mallocs pStack context result curRouteInfo].
  f_equal. unfold link. destruct from, to; cbn; unfold with_xrefs, with_vector, with_externals; cbn; now rewrite alter_last.
Qed.
End Runs.

(** ** An owner whose instructions stay what they are *)

Definition is_root (i : Diana_Instruction) : bool := has_bit (m_flags i) DI_INSTRUCTION_ROOT.

Record same_entry (i i' : Diana_Instruction) : Prop := {
  se_offset : m_offset i' = m_offset i;
  se_loading : is_loading i' = is_loading i;
  se_invalid : is_invalid i' = is_invalid i;
  se_root : is_root i = true -> is_root i' = true
}.

Definition same_option (a b : option Diana_Instruction) : Prop :=
  match a, b with
  | Some i, Some i' => same_entry i i'
  | None, None => True
  | _, _ => False
  end.

Record keeps (o o' : Diana_InstructionsOwner) : Prop := {
  kp_ok : owner_ok o';
  kp_size : m_maxSize o' = m_maxSize o;
  kp_presence : m_ppPresenceVec o' = m_ppPresenceVec o;
  kp_used : m_usedSize o' = m_usedSize o;
  kp_xrefs : exists l, m_xrefs o' = m_xrefs o ++ l;
  kp_externals : forall e i, nth_error (m_externalInstructionsList o) e = Some i ->
    exists i', nth_error (m_externalInstructionsList o') e = Some i' /\
               m_offset i' = m_offset i /\ m_flags i' = m_flags i;
  kp_entries : forall k, same_option (nth_error (m_pInstructionsVec o) k) (nth_error (m_pInstructionsVec o') k)
}.

Lemma same_entry_refl i : same_entry i i.
Proof. constructor; auto. Qed.

Lemma same_entry_trans i j k : same_entry i j -> same_entry j k -> same_entry i k.
Proof. intros [A1 A2 A3 A4] [B1 B2 B3 B4]. constructor; try congruence. auto. Qed.

Lemma keeps_refl o : owner_ok o -> keeps o o.
Proof.
  intros Ho. constructor; auto.
  - exists []. now rewrite app_nil_r.
  - intros e i E. now exists i.
  - intros k. destruct (nth_error _ k); cbn; auto using same_entry_refl.
Qed.

Lemma keeps_trans o1 o2 o3 : keeps o1 o2 -> keeps o2 o3 -> keeps o1 o3.
Proof.
  intros [A0 A1 A2 A3 (la & A5) A6 A4] [B0 B1 B2 B3 (lb & B5) B6 B4]. constructor; try congruence.
  { exists (la ++ lb). now rewrite B5, A5, app_assoc. }
  { intros e i E. destruct (A6 e i E) as (i' & E' & <- & <-). exact (B6 e i' E'). }
  intros k. specialize (A4 k). specialize (B4 k).
  destruct (nth_error (m_pInstructionsVec o1) k), (nth_error (m_pInstructionsVec o2) k),
    (nth_error (m_pInstructionsVec o3) k); cbn in *; try tauto. eapply same_entry_trans; eauto.
Qed.

Lemma keeps_present o o' a : keeps o o' -> present o' a = present o a.
Proof. intros K. unfold present. now rewrite (kp_presence _ _ K). Qed.

Lemma keeps_back o o' k i' : keeps o o' -> nth_error (m_pInstructionsVec o') k = Some i' ->
  exists i, nth_error (m_pInstructionsVec o) k = Some i /\ same_entry i i'.
Proof.
  intros K E. pose proof (kp_entries _ _ K k) as S. rewrite E in S.
  destruct (nth_error (m_pInstructionsVec o) k) as [i|]; [|contradiction]. now exists i.
Qed.

Lemma keeps_forth o o' k i : keeps o o' -> nth_error (m_pInstructionsVec o) k = Some i ->
  exists i', nth_error (m_pInstructionsVec o') k = Some i' /\ same_entry i i'.
Proof.
  intros K E. pose proof (kp_entries _ _ K k) as S. rewrite E in S.
  destruct (nth_error (m_pInstructionsVec o') k) as [i'|]; [|contradiction]. now exists i'.
Qed.

(** An entry that is not invalid. *)
Definition valid_at (o : Diana_InstructionsOwner) (k : nat) : Prop :=
  exists i, nth_error (m_pInstructionsVec o) k = Some i /\ is_invalid i = false.

Lemma keeps_valid o o' k : keeps o o' -> valid_at o k -> valid_at o' k.
Proof.
  intros K (i & E & V). destruct (keeps_forth _ _ _ _ K E) as (i' & E' & S). exists i'. split; [exact E'|].
  now rewrite (se_invalid _ _ S).
Qed.

Lemma keeps_link o from to bits : owner_ok o -> valid_at o from -> instruction_at o to <> None ->
  keeps o (link (InVector from) to bits o).
Proof.
  intros Ho (i & Ei & Hi) Ht. constructor; try (now destruct to).
  - exact (link_ok from to bits o i Ho Ei Hi Ht).
  - unfold m_usedSize. destruct to; cbn; now rewrite ?length_alter.
  - eexists. apply link_xrefs.
  - intros e j E. pose proof (link_at (InVector from) to bits o (InExternals e)) as El. cbn [instruction_at] in El.
    rewrite El, E. cbn. eexists. split; [reflexivity|]. now split.
  - intros k. pose proof (link_at (InVector from) to bits o (InVector k)) as E. cbn [instruction_at] in E. rewrite E. clear E.
    destruct (nth_error _ k); cbn; [|exact I]. constructor; auto.
Qed.

Lemma keeps_external o a bits : owner_ok o -> keeps o (put_external a bits o).
Proof.
  intros Ho. pose proof (keeps_refl o Ho) as K. constructor; try apply K.
  - now apply put_external_ok.
  - intros e i E. exists i. split; [|now split]. cbn. rewrite nth_error_app1; [exact E|]. now apply nth_error_lt in E.
Qed.

(** The flags that a walk adds to an instruction. *)
Lemma keeps_flags o j bits (p := InVector j) : owner_ok o -> instruction_at o p <> None ->
  has_bit bits DI_INSTRUCTION_INVALID = false -> has_bit bits DI_INSTRUCTION_IS_LOADING = false ->
  keeps o (alter_instruction (with_i_flags (fun x => Z.lor x bits)) p o).
Proof.
  intros Ho Hp Hi Hl.
  assert (Hs : forall i, same_entry i (with_i_flags (fun x => Z.lor x bits) i)).
  { intros i. constructor; unfold is_loading, is_invalid, is_root; cbn; rewrite ?has_bit_lor, ?Hi, ?Hl, ?orb_false_r; auto.
    intros ->. reflexivity. }
  constructor; try reflexivity.
  - apply flags_ok; auto. intros i _. apply (se_invalid _ _ (Hs i)).
  - unfold m_usedSize. cbn. now rewrite length_alter.
  - exists []. now rewrite app_nil_r.
  - intros e i E. now exists i.
  - intros k. pose proof (instruction_at_alter (with_i_flags (fun x => Z.lor x bits)) p o (InVector k)) as E.
    cbn [instruction_at] in E. rewrite E. clear E. destruct (ref_eqb _ _), (nth_error _ k); cbn; auto using same_entry_refl.
Qed.

(** ** Steps that leave the walk alone

    A quiet step adds references, external instructions and flags; it may use the observer. *)

Section Quiet.
Context {T : Type} `{HOk : DianaMovableReadStreamOk T} {Obs : Type}.
Variable DIANA_MALLOC : nat -> bool.
Variable m_pAnalyzeAddress : Obs -> Z -> bool -> Z * Z * DianaAnalyzeAddressResult * Obs.
Variable mode : Z.
Abbreviation Session := (@DianaAnalyzeSession T Obs).
Implicit Types (s : Session).

(** What an error comes from. *)
Variable trouble : Prop.
Hypothesis no_memory : forall n, DIANA_MALLOC n = false -> trouble.
Hypothesis observer_fails : forall obs address absolute,
  match m_pAnalyzeAddress obs address absolute with (st, _, _, _) => st <> DI_SUCCESS -> trouble end.

(** The offsets of the observer are unsigned. *)
Definition offsets_unsigned : Prop := forall obs address absolute,
  match m_pAnalyzeAddress obs address absolute with (_, offset, _, _) => 0 <= offset end.

Record quiet s s' : Prop := {
  qt_owner : keeps (pOwner s) (pOwner s');
  qt_stream : stream_ok (m_pStream s');
  qt_stack : pStack s' = pStack s;
  qt_context : context s' = context s;
  qt_result : result s' = result s;
  qt_route : curRouteInfo s' = curRouteInfo s
}.

Lemma quiet_refl s : owner_ok (pOwner s) -> stream_ok (m_pStream s) -> quiet s s.
Proof. intros Ho Hs. constructor; auto using keeps_refl. Qed.

Lemma quiet_trans s1 s2 s3 : quiet s1 s2 -> quiet s2 s3 -> quiet s1 s3.
Proof. intros [A1 A2 A3 A4 A5 A6] [B1 B2 B3 B4 B5 B6]. constructor; try congruence. eapply keeps_trans; eauto. Qed.

(** [P] is what is known of the decoded instruction, [k] the one the references come from. *)
Variable P : DianaParserResult -> Prop.
Variable k : nat.

Record calm s : Prop := {
  cl_owner : owner_ok (pOwner s);
  cl_stream : stream_ok (m_pStream s);
  cl_result : P (result s);
  cl_source : valid_at (pOwner s) k
}.

Lemma quiet_calm s s' : calm s -> quiet s s' -> calm s'.
Proof.
  intros [H1 H2 H3 H4] [Q1 Q2 Q3 Q4 Q5 Q6]. constructor; auto; [apply Q1|now rewrite Q5|].
  eapply keeps_valid; eauto.
Qed.

Definition quietly {X} (m : A X) (V : X -> Prop) : Prop :=
  forall s, calm s -> match m s with
                      | (Ok a, s') => quiet s s' /\ V a
                      | (Err _, s') => quiet s s' /\ trouble
                      | (Crash, _) => False
                      end.

Lemma quietly_bind {X Y} (m : A X) (f : X -> A Y) V W :
  quietly m V -> (forall a, V a -> quietly (f a) W) -> quietly (bind m f) W.
Proof.
  intros Hm Hf s Hs. unfold bind. specialize (Hm s Hs). destruct (m s) as [[a|c|] s']; auto.
  destruct Hm as (Hq & Hv). specialize (Hf a Hv s' (quiet_calm _ _ Hs Hq)).
  destruct (f a s') as [[b|c|] s'']; try tauto; destruct Hf; (split; [eapply quiet_trans; eauto|auto]).
Qed.

Lemma quietly_ret {X} (a : X) (V : X -> Prop) : V a -> quietly (ret a) V.
Proof. intros Hv s [H1 H2 _ _]. split; auto using quiet_refl. Qed.

Lemma quietly_gets {X} (g : Session -> X) (V : X -> Prop) : (forall s, calm s -> V (g s)) -> quietly (gets g) V.
Proof. intros Hv s Hs. split; [|now apply Hv]. destruct Hs. now apply quiet_refl. Qed.

Lemma quietly_when b (m : A unit) : quietly m (fun _ => True) -> quietly (when b m) (fun _ => True).
Proof. intros Hm. destruct b; [exact Hm|now apply quietly_ret]. Qed.

(** A change of the owner alone. *)
Lemma quiet_owner s f n : calm s -> keeps (pOwner s) (f (pOwner s)) -> quiet s (with_pOwner f (with_mallocs n s)).
Proof. intros [H1 H2 _ _] K. constructor; auto. Qed.

Lemma quiet_mallocs s n : calm s -> quiet s (with_mallocs n s).
Proof. intros Hs. apply (quiet_owner s (fun o => o) n Hs), keeps_refl, Hs. Qed.

Lemma quietly_allocate : quietly (allocate DIANA_MALLOC) (fun _ => True).
Proof.
  intros s Hs. rewrite allocate_run. pose proof (quiet_mallocs s (S (mallocs s)) Hs).
  destruct (DIANA_MALLOC _) eqn:Em; split; eauto.
Qed.

Lemma quiet_flags s j bits (p := InVector j) : calm s -> instruction_at (pOwner s) p <> None ->
  has_bit bits DI_INSTRUCTION_INVALID = false -> has_bit bits DI_INSTRUCTION_IS_LOADING = false ->
  quiet s (with_pOwner (alter_instruction (with_i_flags (fun x => Z.lor x bits)) p) s).
Proof. intros Hs Hp Hi Hl. apply (quiet_owner s _ (mallocs s) Hs). apply keeps_flags; auto. apply Hs. Qed.

Lemma calm_source s : calm s -> instruction_at (pOwner s) (InVector k) <> None.
Proof. intros Hs. destruct (cl_source _ Hs) as (i & E & _). cbn. congruence. Qed.

Lemma quietly_source_flags bits :
  has_bit bits DI_INSTRUCTION_INVALID = false -> has_bit bits DI_INSTRUCTION_IS_LOADING = false ->
  quietly (add_flags (InVector k) bits) (fun _ => True).
Proof.
  intros Hi Hl s Hs. rewrite add_flags_run by now apply calm_source. split; [|exact I].
  apply quiet_flags; auto using calm_source.
Qed.

(** A reference to an instruction that exists. *)
Lemma quiet_CreateXRef s to bits : calm s -> instruction_at (pOwner s) to <> None ->
  match Diana_CreateXRef DIANA_MALLOC (InVector k) to bits s with
  | (Ok _, s') => quiet s s'
  | (Err _, s') => quiet s s' /\ trouble
  | (Crash, _) => False
  end.
Proof.
  intros Hs Ht. rewrite CreateXRef_run by (auto using calm_source).
  destruct (DIANA_MALLOC _) eqn:Em; [|split; [now apply quiet_mallocs|eauto]].
  apply (quiet_owner s _ _ Hs). apply keeps_link; auto; apply Hs.
Qed.

Lemma quietly_analyze_address address absolute : offsets_unsigned ->
  quietly (analyze_address m_pAnalyzeAddress address absolute) (fun '(offset, _) => 0 <= offset).
Proof.
  intros Hu s Hs. unfold analyze_address. specialize (Hu (observer s) address absolute).
  pose proof (observer_fails (observer s) address absolute) as Hf.
  destruct (m_pAnalyzeAddress _ _ _) as [[[st offset] res] obs].
  assert (Q : quiet s (with_observer obs s)) by (destruct Hs; constructor; auto using keeps_refl).
  destruct (Z.eqb_spec st DI_SUCCESS); auto.
Qed.

Lemma quietly_random_read offset n absolute : quietly (random_read offset n absolute) (fun _ => True).
Proof.
  intros s Hs. unfold random_read. pose proof (random_ok (m_pStream s) offset n absolute (cl_stream _ Hs)) as Ht.
  destruct (pRandomRead _ _ _ _) as [[st bs] t]. cbn in Ht. split; [|exact I]. destruct Hs. constructor; auto using keeps_refl.
Qed.

(** A new external instruction with a reference to it. *)
Definition new_external (offset bits xbits : Z) : @A T Obs unit :=
  let! target := push_external offset bits in
  Diana_CreateXRef DIANA_MALLOC (InVector k) target xbits.

Lemma quietly_new_external offset bits xbits : quietly (new_external offset bits xbits) (fun _ => True).
Proof.
  intros s Hs. unfold new_external, push_external, owner, set_owner. mred.
  set (s1 := with_pOwner _ s).
  assert (K : keeps (pOwner s) (put_external offset bits (pOwner s))) by (apply keeps_external, Hs).
  assert (Q1 : quiet s s1) by exact (quiet_owner s _ (mallocs s) Hs K).
  pose proof (quiet_calm _ _ Hs Q1) as Hs1.
  change (InExternals _) with (next_external (pOwner s)).
  assert (Ht : instruction_at (pOwner s1) (next_external (pOwner s)) <> None).
  { change (pOwner s1) with (put_external offset bits (pOwner s)). now rewrite put_external_at, ref_eqb_refl. }
  pose proof (quiet_CreateXRef s1 (next_external (pOwner s)) xbits Hs1 Ht) as Q2.
  destruct (Diana_CreateXRef _ _ _ _ _) as [[u|c|] s2]; [split; [|exact I]|destruct Q2; split; [|assumption]|exact Q2]; eapply quiet_trans; eauto.
Qed.

Lemma quietly_SaveDataXRef offset bits : quietly (SaveDataXRef DIANA_MALLOC (InVector k) offset bits) (fun _ => True).
Proof. eapply quietly_bind; [apply quietly_allocate|]. intros _ _. apply quietly_new_external. Qed.

Lemma quietly_SaveNewExternalRoute offset data bits :
  quietly (SaveNewExternalRoute DIANA_MALLOC mode (InVector k) offset data bits) (fun _ => True).
Proof.
  unfold SaveNewExternalRoute, owner. eapply quietly_bind; [apply (quietly_gets _ (fun _ => True)); auto|].
  intros minimal _. do 2 (destruct (_ && _); [now apply quietly_ret|]).
  eapply quietly_bind; [apply quietly_allocate|]. intros _ _. apply quietly_new_external.
Qed.

Lemma quietly_SaveDataAccess address absolute : offsets_unsigned ->
  quietly (SaveDataAccess DIANA_MALLOC m_pAnalyzeAddress mode (InVector k) address absolute) (fun _ => True).
Proof.
  intros Hu. eapply quietly_bind; [now apply quietly_analyze_address|]. intros [offset []] _.
  - now apply quietly_ret.
  - apply quietly_SaveDataXRef.
  - apply quietly_SaveNewExternalRoute.
Qed.
End Quiet.
