(* ===== verification/AnalyzeProofs.v ===== *)
(** The walk of the analyzer over the routes: what holds of the routes that are still to be followed
    and of the current one, and that every step keeps it. *)

From Stdlib Require Import ZArith Lia List Bool.
Import ListNotations.
From S2P Require Import Prelude Words Status DecTypes DecStreams CopyStreams DecUtils DecCore DecTables DecCacheProofs DecTryProofs.
From S2P Require Import DecCommandProofs Analyze AnalyzeOwnerProofs AnalyzeSaveProofs.
Local Open Scope Z_scope.
Local Open Scope diana_scope.

(** ** The routes *)

Section Routes.
Variables (flags maxOffset : Z).
(** The size of the owner, and the offsets that were pending before the analysis. *)
Variables (size : Z) (left : Z -> Prop).

Definition breaks : bool := has_bit flags DI_ANALYSE_BREAK_ON_INVALID_CMD.

(** A route that is rolled back at the first bytes that are no instruction. *)
Definition strict (r : Diana_RouteInfo) : bool := breaks || questionable r.

Definition starts (l : list Diana_RouteInfo) : list Z := map startOffset l.

(** Every route of the stack starts at an instruction of its own, and every instruction that is
    still loading has one: but for those in [extra], and for the starts of root routes where no
    instruction could be decoded, or that were there before.  Every route takes an entry of the owner, [b] at most. *)
Record routes_ok (extra : Z -> Prop) (b : Z) (o : Diana_InstructionsOwner) (l : list Diana_RouteInfo)
    : Prop := {
  ro_owner : owner_ok o;
  ro_limit : maxOffset <= m_maxSize o;
  ro_size : m_maxSize o = size;
  ro_distinct : NoDup (starts l);
  ro_start : forall r, In r l -> 0 <= startOffset r < maxOffset /\
    exists k i, present o (startOffset r) = Some k /\ nth_error (m_pInstructionsVec o) k = Some i /\
      (is_loading i = true -> is_invalid i = false /\ (questionable r = false -> is_root i = true));
  ro_pending : forall k i, nth_error (m_pInstructionsVec o) k = Some i ->
    is_loading i = true -> is_invalid i = false ->
    In (m_offset i) (starts l) \/ (is_root i = true /\ (breaks = false \/ left (m_offset i))) \/ extra (m_offset i);
  ro_fresh : forall r, In r l -> instructions r = [];
  ro_budget : Z.of_nat (length l) + (m_maxSize o - m_usedSize o) <= b
}.

(** The instructions of the current route are analyzed and valid. *)
Record current_ok (o : Diana_InstructionsOwner) (l : list Diana_RouteInfo) (r : Diana_RouteInfo) : Prop := {
  co_distinct : NoDup (instructions r);
  co_valid : forall k, In k (instructions r) -> exists i, nth_error (m_pInstructionsVec o) k = Some i /\
    is_invalid i = false /\ is_loading i = false;
  co_range : 0 <= startOffset r < m_maxSize o;
  co_apart : strict r = true -> ~ In (startOffset r) (starts l);
  co_start : strict r = true -> forall k i, present o (startOffset r) = Some k ->
    nth_error (m_pInstructionsVec o) k = Some i -> is_loading i = true -> is_invalid i = false
}.

Lemma routes_weaken (extra extra' : Z -> Prop) b o l : routes_ok extra b o l -> (forall a, extra a -> extra' a) ->
  routes_ok extra' b o l.
Proof. intros [A1 A2 A8 A3 A4 A5 A7 A6] W. constructor; auto. intros k i E L V. specialize (A5 k i E L V). intuition auto. Qed.

Lemma routes_budget extra b b' o l : routes_ok extra b o l -> b <= b' -> routes_ok extra b' o l.
Proof. intros [A1 A2 A8 A3 A4 A5 A7 A6] W. constructor; auto. lia. Qed.

Lemma routes_keeps extra b o o' l : routes_ok extra b o l -> keeps o o' -> routes_ok extra b o' l.
Proof.
  intros [A1 A2 A8 A3 A4 A5 A7 A6] K. constructor; auto.
  - apply K.
  - now rewrite (kp_size _ _ K).
  - now rewrite (kp_size _ _ K).
  - intros r Hr. destruct (A4 r Hr) as (R & k & i & E1 & E2 & F). split; [exact R|].
    destruct (keeps_forth _ _ _ _ K E2) as (i' & E' & [S1 S2 S3 S4]). exists k, i'.
    rewrite (keeps_present _ _ _ K). split; [exact E1|]. split; [exact E'|].
    rewrite S2, S3. intros L. destruct (F L). auto.
  - intros k i' E' L V. destruct (keeps_back _ _ _ _ K E') as (i & E & [S1 S2 S3 S4]).
    rewrite S2, S3, S1 in *. destruct (A5 k i E L V) as [|[[]|]]; auto 6.
  - now rewrite (kp_size _ _ K), (kp_used _ _ K).
Qed.

Lemma current_keeps o o' l r : current_ok o l r -> keeps o o' -> current_ok o' l r.
Proof.
  intros [A1 A2 A3 A4 A5] K. constructor; auto.
  - intros k Hk. destruct (A2 k Hk) as (i & E & V & L). destruct (keeps_forth _ _ _ _ K E) as (i' & E' & [S1 S2 S3 S4]).
    exists i'. now rewrite S2, S3.
  - now rewrite (kp_size _ _ K).
  - intros Hs k i' Ep E' L. rewrite (keeps_present _ _ _ K) in Ep. destruct (keeps_back _ _ _ _ K E') as (i & E & [S1 S2 S3 S4]).
    rewrite S2, S3 in *. eapply A5; eauto.
Qed.

(** An offset gets an instruction. *)
Lemma place_entry a bits o k i : nth_error (m_pInstructionsVec o) k = Some i ->
  nth_error (m_pInstructionsVec (place a bits o)) k = Some i.
Proof. intros E. cbn. rewrite nth_error_app1; [exact E|]. now apply nth_error_lt in E. Qed.

Lemma place_entry_inv a bits o k i : nth_error (m_pInstructionsVec (place a bits o)) k = Some i ->
  k = length (m_pInstructionsVec o) /\ i = Diana_Instruction_Init a bits \/ nth_error (m_pInstructionsVec o) k = Some i.
Proof.
  cbn. rewrite nth_error_snoc. destruct (Nat.eqb_spec k (length (m_pInstructionsVec o))); [|auto].
  intros E. injection E as <-. auto.
Qed.

Lemma place_used a bits o : m_usedSize (place a bits o) = m_usedSize o + 1.
Proof. unfold m_usedSize. cbn. rewrite length_app. cbn. lia. Qed.

Lemma routes_place (extra : Z -> Prop) b o l a bits : routes_ok extra b o l -> 0 <= a < maxOffset ->
  present o a = None -> has_bit bits DI_INSTRUCTION_INVALID = false ->
  routes_ok (fun x => extra x \/ x = a /\ has_bit bits DI_INSTRUCTION_IS_LOADING = true) (b - 1) (place a bits o) l.
Proof.
  intros [A1 A2 A8 A3 A4 A5 A7 A6] Ha Hp Hb. assert (Ha' : 0 <= a < m_maxSize o) by lia.
  constructor; auto.
  - now apply place_ok.
  - intros r Hr. destruct (A4 r Hr) as (R & k & i & E1 & E2 & F). split; [exact R|]. exists k, i.
    rewrite place_present by (auto; lia). destruct (Z.eqb_spec (startOffset r) a) as [Er|]; [congruence|].
    split; [exact E1|]. split; [now apply place_entry|exact F].
  - intros k i E L V. destruct (place_entry_inv _ _ _ _ _ E) as [(-> & ->)|E0].
    + right. right. right. split; [reflexivity|]. exact L.
    + destruct (A5 k i E0 L V) as [|[|]]; auto.
  - change (m_maxSize (place a bits o)) with (m_maxSize o). rewrite place_used. lia.
Qed.

Lemma current_place o l r a bits : current_ok o l r -> owner_ok o -> 0 <= a < m_maxSize o ->
  has_bit bits DI_INSTRUCTION_INVALID = false -> current_ok (place a bits o) l r.
Proof.
  intros [A1 A2 A3 A4 A5] Ho Ha Hb. constructor; auto.
  - intros k Hk. destruct (A2 k Hk) as (i & E & F). exists i. split; [now apply place_entry|exact F].
  - intros Hs k i Ep E L. rewrite place_present in Ep by (auto; lia).
    destruct (place_entry_inv _ _ _ _ _ E) as [(-> & ->)|E0]; [exact Hb|].
    destruct (Z.eqb_spec (startOffset r) a) as [Er|]; [|eapply A5; eauto].
    injection Ep as <-. apply nth_error_lt in E0. lia.
Qed.

(** What a new route needs. *)
Record startable (o : Diana_InstructionsOwner) (l : list Diana_RouteInfo) (cur r : Diana_RouteInfo) : Prop := {
  st_range : 0 <= startOffset r < maxOffset;
  st_fresh : instructions r = [];
  st_new : ~ In (startOffset r) (starts l);
  st_current : strict cur = true -> startOffset cur <> startOffset r;
  st_entry : exists k i, present o (startOffset r) = Some k /\ nth_error (m_pInstructionsVec o) k = Some i /\
    is_invalid i = false /\ (questionable r = false -> is_root i = true)
}.

Lemma startable_keeps o o' l cur r : startable o l cur r -> keeps o o' -> startable o' l cur r.
Proof.
  intros [A1 Af A2 A3 (k & i & E1 & E2 & V & Q)] K. constructor; auto.
  destruct (keeps_forth _ _ _ _ K E2) as (i' & E' & [S1 S2 S3 S4]). exists k, i'.
  rewrite (keeps_present _ _ _ K), S3. repeat (split; auto).
Qed.

Lemma routes_push (extra : Z -> Prop) b o l cur r : startable o l cur r ->
  routes_ok (fun x => extra x \/ x = startOffset r) (b - 1) o l -> routes_ok extra b o (r :: l).
Proof.
  intros [S1 Sf S2 S3 (k & i & E1 & E2 & V & Q)] [A1 A2 A8 A3 A4 A5 A7 A6]. constructor; auto.
  - now constructor.
  - intros r' [<-|Hr]; [|now apply A4]. split; [exact S1|]. exists k, i. repeat (split; auto).
  - intros k' i' E L V'. cbn. destruct (A5 k' i' E L V') as [|[|[|E']]]; auto.
  - intros r' [<-|Hr]; auto.
  - cbn [length]. lia.
Qed.

Lemma current_push o l cur r : current_ok o l cur -> startable o l cur r -> current_ok o (r :: l) cur.
Proof.
  intros [A1 A2 A3 A4 A5] [S1 Sf S2 S3 S4]. constructor; auto. intros Hs [E|Hin]; [now apply (S3 Hs)|now apply (A4 Hs)].
Qed.
End Routes.

(** ** While an instruction is analyzed *)

Section Walk.
Context {T : Type} `{HOk : DianaMovableReadStreamOk T} {Obs : Type}.
Variable DIANA_MALLOC : nat -> bool.
Variable m_pAnalyzeAddress : Obs -> Z -> bool -> Z * Z * DianaAnalyzeAddressResult * Obs.
Variables (mode maxOffset flags : Z).
Variables (size : Z) (left : Z -> Prop).
Abbreviation Session := (@DianaAnalyzeSession T Obs).
Implicit Types (s : Session).

Hypothesis unsigned : offsets_unsigned m_pAnalyzeAddress.

(** What an error comes from. *)
Variable trouble : Prop.
Hypothesis no_memory : forall n, DIANA_MALLOC n = false -> trouble.
Hypothesis observer_fails : forall obs address absolute,
  match m_pAnalyzeAddress obs address absolute with (st, _, _, _) => st <> DI_SUCCESS -> trouble end.

(** What holds after an error. *)
Definition sound s : Prop := owner_ok (pOwner s) /\ stream_ok (m_pStream s).
Definition failed s : Prop := sound s /\ trouble.

(** What is known of the context and the result of the decoder. *)
Variable fine : DianaContext -> DianaParserResult -> Prop.
(** Where the current route starts. *)
Variable first : Z.
Hypothesis fine_named : forall c r, fine c r -> command_of r <> None.

(** The instruction [k] of the current route is analyzed. *)
Record analyzing (extra : Z -> Prop) (b : Z) (k : nat) s : Prop := {
  an_routes : routes_ok flags maxOffset size left extra b (pOwner s) (pStack s);
  an_current : current_ok flags (pOwner s) (pStack s) (curRouteInfo s);
  an_stream : stream_ok (m_pStream s);
  an_fine : fine (context s) (result s);
  an_here : In k (instructions (curRouteInfo s));
  an_start : strict flags (curRouteInfo s) = true -> present (pOwner s) (startOffset (curRouteInfo s)) <> None;
  an_first : startOffset (curRouteInfo s) = first
}.

Abbreviation named := (fun r => command_of r <> None).

Lemma analyzing_calm extra b k s : analyzing extra b k s -> calm named k s.
Proof.
  intros [A1 A2 A3 A4 A5 A6]. constructor; auto; [apply A1|eauto|].
  destruct (co_valid _ _ _ _ A2 _ A5) as (i & E & V & _). now exists i.
Qed.

Lemma analyzing_quiet extra b k s s' : analyzing extra b k s -> quiet s s' -> analyzing extra b k s'.
Proof.
  intros [A1 A2 A3 A4 A5 A6] [Q1 Q2 Q3 Q4 Q5 Q6]. constructor; rewrite ?Q3, ?Q4, ?Q5, ?Q6; auto.
  - eapply routes_keeps; eauto.
  - eapply current_keeps; eauto.
  - intros Hs. rewrite (keeps_present _ _ _ Q1). auto.
Qed.

Lemma analyzing_sound extra b k s : analyzing extra b k s -> sound s.
Proof. intros [A1 A2 A3 A4 A5 A6]. split; [apply A1|exact A3]. Qed.

(** A quiet program keeps whatever quiet steps keep. *)
Lemma quietly_triple {X} (K : Session -> Prop) P k (m : A X) V :
  (forall s, K s -> calm P k s) -> (forall s s', K s -> quiet s s' -> K s') -> quietly trouble P k m V ->
  triple failed K m (fun a s => K s /\ V a).
Proof.
  intros Hc Hk Hm s Hs. specialize (Hm s (Hc s Hs)).
  assert (Hq : forall s', quiet s s' -> sound s') by (intros s' [Q1 Q2 _ _ _ _]; split; [apply Q1|exact Q2]).
  destruct (m s) as [[a|c|] s']; auto; destruct Hm as (Q & Hv); [eauto|split; auto].
Qed.

Lemma quietly_analyzing {X} extra b k (m : A X) V : quietly trouble named k m V ->
  triple failed (analyzing extra b k) m (fun a s => analyzing extra b k s /\ V a).
Proof. apply quietly_triple; [apply analyzing_calm|apply analyzing_quiet]. Qed.

Lemma quietly_unit extra b k (m : A unit) : quietly trouble named k m (fun _ => True) ->
  triple failed (analyzing extra b k) m (fun _ => analyzing extra b k).
Proof. intros Hm. eapply triple_post; [apply quietly_analyzing, Hm|]. cbn. tauto. Qed.

(** *** Routes to where the instruction goes *)

Section Save.
Variables (extra : Z -> Prop) (b : Z) (k : nat).
Abbreviation K := (analyzing extra b k).

Section New.
Variables (newOffset newRouteFlags : Z).
Abbreviation route := (mkDiana_RouteInfo [] newOffset newRouteFlags).

(** After the new instruction is made and before its route is. *)
Definition adding s : Prop :=
  analyzing (fun x => extra x \/ x = newOffset) (b - 1) k s /\
  startable flags maxOffset (pOwner s) (pStack s) (curRouteInfo s) route.

Lemma adding_quiet s s' : adding s -> quiet s s' -> adding s'.
Proof.
  intros (A1 & A2) Q. split; [eapply analyzing_quiet; eauto|]. pose proof Q as [Q1 Q2 Q3 Q4 Q5 Q6].
  rewrite Q3, Q6. eapply startable_keeps; eauto.
Qed.

Lemma adding_calm s : adding s -> calm named k s.
Proof. intros (A1 & _). eapply analyzing_calm; eauto. Qed.

Lemma quietly_adding (m : A unit) : quietly trouble named k m (fun _ => True) -> triple failed adding m (fun _ => adding).
Proof.
  intros Hm. eapply triple_post; [apply (quietly_triple adding named k), Hm; [apply adding_calm|apply adding_quiet]|].
  cbn. tauto.
Qed.

Lemma push_route : triple failed adding (modify (with_pStack (fun l => route :: l))) (fun _ => K).
Proof.
  apply triple_modify. intros s ([A1 A2 A3 A4 A5 A6] & S). constructor; auto.
  - apply (routes_push _ _ _ _ _ _ _ _ (curRouteInfo s)); auto.
  - eapply current_push; eauto.
Qed.

(** The new instruction and the mark of a root route. *)
Lemma place_route s : K s -> 0 <= newOffset < maxOffset -> present (pOwner s) newOffset = None ->
  let j := length (m_pInstructionsVec (pOwner s)) in
  match when (negb (has_bit newRouteFlags DI_ROUTE_QUESTIONABLE)) (add_flags (InVector j) DI_INSTRUCTION_ROOT)
          (with_pOwner (place newOffset DI_INSTRUCTION_IS_LOADING) s) with
  | (Ok _, s') => adding s' /\ instruction_at (pOwner s') (InVector j) <> None
  | _ => False
  end.
Proof.
  intros [A1 A2 A3 A4 A5 A6] Hr Hp j. set (s1 := with_pOwner _ s). set (o := pOwner s) in *.
  assert (Hr' : 0 <= newOffset < m_maxSize o) by (pose proof (ro_limit _ _ _ _ _ _ _ _ A1); unfold o in *; lia).
  assert (Ho : owner_ok o) by apply A1.
  assert (K1 : analyzing (fun x => extra x \/ x = newOffset) (b - 1) k s1).
  { constructor; auto.
    - eapply routes_weaken; [apply routes_place; eauto|]. cbn. tauto.
    - apply current_place; auto.
    - intros Hs. change (pOwner s1) with (place newOffset DI_INSTRUCTION_IS_LOADING o).
      rewrite place_present by (auto; apply A2). destruct (_ =? _); [discriminate|auto]. }
  assert (Ei : nth_error (m_pInstructionsVec (pOwner s1)) j = Some (Diana_Instruction_Init newOffset DI_INSTRUCTION_IS_LOADING)).
  { cbn. rewrite nth_error_snoc. unfold j. fold o. now rewrite Nat.eqb_refl. }
  assert (Hj : instruction_at (pOwner s1) (InVector j) <> None) by (cbn [instruction_at]; congruence).
  assert (Hnew : ~ In newOffset (starts (pStack s))).
  { intros Hin. apply in_map_iff in Hin as (r & Er & Hin). destruct (ro_start _ _ _ _ _ _ _ _ A1 r Hin) as (_ & k' & _ & E & _).
    rewrite Er in E. congruence. }
  assert (Hcur : strict flags (curRouteInfo s) = true -> startOffset (curRouteInfo s) <> newOffset).
  { intros Hs E. apply (A6 Hs). now rewrite E. }
  assert (Hpj : present (pOwner s1) newOffset = Some j).
  { change (pOwner s1) with (place newOffset DI_INSTRUCTION_IS_LOADING o). rewrite place_present by (auto; lia).
    now rewrite Z.eqb_refl. }
  destruct (has_bit newRouteFlags DI_ROUTE_QUESTIONABLE) eqn:Eq; cbn [negb when].
  - split; [|exact Hj]. split; [exact K1|]. constructor; auto.
    exists j, (Diana_Instruction_Init newOffset DI_INSTRUCTION_IS_LOADING).
    split; [exact Hpj|]. split; [exact Ei|]. split; [reflexivity|]. unfold questionable. cbn. congruence.
  - rewrite add_flags_run by exact Hj. set (f := with_i_flags _).
    pose proof (keeps_flags (pOwner s1) j DI_INSTRUCTION_ROOT (ro_owner _ _ _ _ _ _ _ _ (an_routes _ _ _ _ K1))
                  Hj eq_refl eq_refl) as Kf.
    assert (Q : quiet s1 (with_pOwner (alter_instruction f (InVector j)) s1)) by (constructor; auto).
    split.
    + split; [exact (analyzing_quiet _ _ _ _ _ K1 Q)|]. constructor; auto.
      exists j, (f (Diana_Instruction_Init newOffset DI_INSTRUCTION_IS_LOADING)).
      split; [rewrite <- Hpj; apply (keeps_present _ _ _ Kf)|].
      cbn [pOwner with_pOwner alter_instruction with_vector m_pInstructionsVec]. rewrite nth_error_alter, Nat.eqb_refl.
      split; [|split; reflexivity]. change (pOwner s1) with (pOwner s1) in Ei. cbn [pOwner] in Ei. now rewrite Ei.
    + cbn [pOwner with_pOwner]. rewrite instruction_at_alter, ref_eqb_refl. cbn [instruction_at]. now rewrite Ei.
Qed.

(** The reference to a target that is known, and is perhaps a root now. *)
Definition refer (j : nat) (xrefFlags : Z) : @A T Obs unit :=
  when (negb (has_bit newRouteFlags DI_ROUTE_QUESTIONABLE)) (add_flags (InVector j) DI_INSTRUCTION_ROOT) ;;;
  Diana_CreateXRef DIANA_MALLOC (InVector k) (InVector j) xrefFlags.

Lemma refer_known j xrefFlags s : K s -> instruction_at (pOwner s) (InVector j) <> None ->
  match refer j xrefFlags s with
  | (Ok _, s') => K s'
  | (Err _, s') => failed s'
  | (Crash, _) => False
  end.
Proof.
  intros Hs Hj. unfold refer.
  assert (H1 : exists s1, when (negb (has_bit newRouteFlags DI_ROUTE_QUESTIONABLE))
                 (add_flags (InVector j) DI_INSTRUCTION_ROOT) s = (Ok tt, s1) /\ K s1 /\
               instruction_at (pOwner s1) (InVector j) <> None).
  { destruct (negb _); [|now exists s]. cbn [when]. rewrite add_flags_run by exact Hj. eexists. split; [reflexivity|].
    split.
    - eapply analyzing_quiet; [exact Hs|]. eapply quiet_flags; eauto using analyzing_calm.
    - cbn [pOwner with_pOwner]. rewrite instruction_at_alter, ref_eqb_refl. now destruct (instruction_at _ _). }
  destruct H1 as (s1 & E1 & A1 & A2). mrun E1.
  pose proof (quiet_CreateXRef DIANA_MALLOC trouble no_memory named k s1 (InVector j) xrefFlags (analyzing_calm _ _ _ _ A1) A2) as Q.
  destruct (Diana_CreateXRef _ _ _ _ _) as [[u|c|] s2]; auto.
  - eapply analyzing_quiet; eauto.
  - destruct Q as (Q & Ht). split; [eapply analyzing_sound, analyzing_quiet; eauto|exact Ht].
Qed.

(** A target that is new, and its route. *)
Lemma refer_new xrefFlags s : K s -> 0 <= newOffset < maxOffset -> present (pOwner s) newOffset = None ->
  match (refer (length (m_pInstructionsVec (pOwner s))) xrefFlags ;;;
         allocate DIANA_MALLOC ;;; modify (with_pStack (fun l => route :: l)))
          (with_pOwner (place newOffset DI_INSTRUCTION_IS_LOADING) s) with
  | (Ok _, s') => K s'
  | (Err _, s') => failed s'
  | (Crash, _) => False
  end.
Proof.
  intros Hs Hr Hp. set (j := length _).
  assert (Hadd : forall s', adding s' -> sound s') by (intros s' (A1 & _); eapply analyzing_sound; eauto).
  pose proof (place_route s Hs Hr Hp) as H1. cbn zeta in H1. fold j in H1.
  unfold refer. rewrite bind_bind. unfold bind at 1. destruct (when _ _ _) as [[u|c|] s1]; try contradiction.
  destruct H1 as (A1 & A2).
  pose proof (quiet_CreateXRef DIANA_MALLOC trouble no_memory named k s1 (InVector j) xrefFlags (adding_calm _ A1) A2) as Q.
  unfold bind at 1. destruct (Diana_CreateXRef _ _ _ _ _) as [[u'|c|] s2]; auto; [|destruct Q as (Q & Ht); split; [eapply Hadd, adding_quiet; eauto|exact Ht]].
  apply (adding_quiet _ _ A1) in Q.
  refine (triple_seq failed adding adding _ _ (fun _ => K) (quietly_adding _ _) push_route s2 Q).
  apply quietly_allocate, no_memory.
Qed.

Lemma SaveNewRoute_ok xrefFlags : 0 <= newOffset ->
  triple failed K (SaveNewRoute DIANA_MALLOC maxOffset (InVector k) newOffset newRouteFlags xrefFlags) (fun _ => K).
Proof.
  intros Hn s Hs. unfold SaveNewRoute. destruct (Z.leb_spec maxOffset newOffset) as [|Hlt]; [exact Hs|].
  assert (Ho : owner_ok (pOwner s)) by apply Hs. assert (Hm : 0 <= newOffset < m_maxSize (pOwner s)).
  { pose proof (ro_limit _ _ _ _ _ _ _ _ (an_routes _ _ _ _ Hs)). lia. }
  mrun (GetInstruction_run s newOffset Ho Hm).
  destruct (present (pOwner s) newOffset) as [j|] eqn:Ep.
  - destruct (present_at _ _ _ Ho (proj1 Hm) Ep) as (i & Ei & _). rewrite bind_bind.
    mrun (instruction_run s (InVector j) i Ei). rewrite bind_ret. destruct (_ && _).
    + exact (quietly_unit extra b k _ (quietly_SaveDataXRef _ trouble no_memory _ k _ _) s Hs).
    + mrun (Query_present s newOffset DI_INSTRUCTION_IS_LOADING j Ho Hm Ep).
      assert (Hj : instruction_at (pOwner s) (InVector j) <> None) by (cbn; congruence).
      pose proof (refer_known j xrefFlags s Hs Hj) as HR. unfold refer in HR.
      unfold bind in *. destruct (when _ _ s) as [[u|c|] s1]; auto.
      destruct (Diana_CreateXRef _ _ _ _ s1) as [[u'|c|] s2]; auto.
  - rewrite bind_ret. cbn [andb].
    mrun (Query_absent s newOffset DI_INSTRUCTION_IS_LOADING Ho Hm Ep).
    pose proof (refer_new xrefFlags s Hs (conj Hn Hlt) Ep) as HR. unfold refer in HR. rewrite bind_bind in HR.
    exact HR.
Qed.
End New.

(** *** The operands *)

Lemma address_triple address absolute :
  triple failed K (analyze_address m_pAnalyzeAddress address absolute) (fun '(offset, _) s => K s /\ 0 <= offset).
Proof.
  eapply triple_post; [apply quietly_analyzing, (quietly_analyze_address _ trouble observer_fails named k address absolute unsigned)|].
  intros [offset res]. auto.
Qed.

(** What is done with an address that may be taken. *)
Lemma taken_ok offset (res : DianaAnalyzeAddressResult) rf xf data bits : 0 <= offset ->
  triple failed K match res with
                 | diaJumpNormal => SaveNewRoute DIANA_MALLOC maxOffset (InVector k) offset rf xf
                 | diaJumpExternal => SaveNewExternalRoute DIANA_MALLOC mode (InVector k) offset data bits
                 | diaJumpInvalid => ret tt
                 end (fun _ => K).
Proof.
  intros Ho. destruct res; [now apply triple_ret|now apply SaveNewRoute_ok|].
  apply quietly_unit, quietly_SaveNewExternalRoute, no_memory.
Qed.

Lemma SaveRelativeAddressTaken_ok target : triple failed K
  (SaveRelativeAddressTaken DIANA_MALLOC m_pAnalyzeAddress mode maxOffset (InVector k) target) (fun _ => K).
Proof.
  eapply triple_bind; [apply address_triple|]. intros [offset res]. apply triple_pure. intros Ho.
  eapply triple_pre; [apply (taken_ok offset res _ _ _ _ Ho)|]. auto.
Qed.

Lemma SaveDataAccess_ok address absolute : triple failed K
  (SaveDataAccess DIANA_MALLOC m_pAnalyzeAddress mode (InVector k) address absolute) (fun _ => K).
Proof. apply quietly_unit, quietly_SaveDataAccess; auto. Qed.

Lemma IsLea_ok : triple failed K IsLea (fun _ => K).
Proof.
  apply triple_gets. intros cmd s (Hs & E). pose proof (fine_named _ _ (an_fine _ _ _ _ Hs)) as Hc.
  destruct cmd as [cmd|]; [|congruence]. exact Hs.
Qed.

Lemma flags_triple bits : has_bit bits DI_INSTRUCTION_INVALID = false -> has_bit bits DI_INSTRUCTION_IS_LOADING = false ->
  triple failed K (add_flags (InVector k) bits) (fun _ => K).
Proof. intros Hi Hl. now apply quietly_unit, quietly_source_flags. Qed.

Lemma suspected_ok r : triple failed K
  (suspected_displacement DIANA_MALLOC m_pAnalyzeAddress mode (InVector k) r) (fun _ => K).
Proof.
  assert (Hd : triple failed K (IsAbsoluteDataAccess r) (fun _ => K)).
  { unfold IsAbsoluteDataAccess. destruct (_ && _); [|now apply triple_ret].
    eapply triple_bind; [apply IsLea_ok|]. intros lea. now apply triple_ret. }
  eapply triple_bind; [exact Hd|]. intros [|]; [|now apply triple_ret].
  eapply triple_seq; [apply SaveDataAccess_ok|]. now apply triple_ret.
Qed.

Lemma DispatchMode32_ok pOp : triple failed K
  (DispatchMode32 DIANA_MALLOC m_pAnalyzeAddress mode (InVector k) pOp) (fun _ => K).
Proof. unfold DispatchMode32. destruct (value pOp); try (now apply triple_ret). apply suspected_ok. Qed.

Lemma DispatchMode64_ok pOp next : triple failed K
  (DispatchMode64 DIANA_MALLOC m_pAnalyzeAddress mode maxOffset (InVector k) pOp next) (fun _ => K).
Proof.
  unfold DispatchMode64. destruct (value pOp) as [|r|r| | | | |]; try (now apply triple_ret).
  - eapply (triple_seq failed K K); [|now apply triple_ret]. apply triple_when. intros _. now apply flags_triple.
  - destruct (_ || _); [|apply suspected_ok]. cbv zeta. destruct (_ || _).
    + eapply triple_seq; [now apply flags_triple|]. eapply triple_bind; [apply IsLea_ok|]. intros lea.
      eapply (triple_seq failed K K); [|now apply triple_ret].
      destruct lea; [apply SaveRelativeAddressTaken_ok|apply SaveDataAccess_ok].
    + eapply triple_seq; [now apply flags_triple|now apply triple_ret].
Qed.

Lemma normal_operands_ok ops next : triple failed K
  (normal_operands DIANA_MALLOC m_pAnalyzeAddress mode maxOffset ops (InVector k) next) (fun _ => K).
Proof.
  induction ops as [|pOp ops IH]; cbn [normal_operands]; [now apply triple_ret|].
  eapply triple_bind; [destruct (_ =? _); [apply DispatchMode32_ok|apply DispatchMode64_ok]|].
  intros suspected. eapply (triple_seq failed K K); [|exact IH]. destruct suspected as [address|]; [|now apply triple_ret].
  eapply triple_bind; [apply address_triple|]. intros [offset res]. apply triple_pure. intros Ho.
  destruct res; [now apply triple_ret|now apply SaveNewRoute_ok|].
  apply quietly_unit, quietly_SaveNewExternalRoute, no_memory.
Qed.

Lemma AnalyzeAndConstructNormalInstruction_ok next : triple failed K
  (AnalyzeAndConstructNormalInstruction DIANA_MALLOC m_pAnalyzeAddress mode maxOffset (InVector k) next) (fun _ => K).
Proof.
  apply triple_gets. intros ops. eapply triple_pre; [apply normal_operands_ok|]. tauto.
Qed.

(** *** Jumps and calls *)

Lemma resolve_target_ok newOffset absolute data : triple failed K
  (resolve_target m_pAnalyzeAddress mode newOffset absolute data) (fun '(offset, _, _) s => K s /\ 0 <= offset).
Proof.
  eapply triple_bind; [apply address_triple|]. intros [offset res]. apply triple_pure. intros Ho.
  assert (Hret : forall res : DianaAnalyzeAddressResult, triple failed K (ret (offset, true, res)) (fun '(offset, _, _) s => K s /\ 0 <= offset))
    by (intros; now apply triple_ret).
  assert (Hread : forall res' : DianaAnalyzeAddressResult, triple failed K
    (let external := match res' with diaJumpExternal => true | _ => false end in
     let! (status, address) := random_read offset mode external in
     if (status =? DI_SUCCESS) && (Z.of_nat (length address) =? mode) then
       let! (newOffset, jumpFlags) := analyze_address m_pAnalyzeAddress (le_decode address) true in
       ret (newOffset, false, jumpFlags)
     else ret (offset, true, res')) (fun '(offset, _, _) s => K s /\ 0 <= offset)).
  { intros res'. cbv zeta. eapply triple_bind; [apply quietly_analyzing, quietly_random_read|]. intros [st bs].
    eapply triple_pre with (P' := K); [|tauto]. destruct (_ && _); [|apply Hret].
    eapply triple_bind; [apply address_triple|]. intros [offset' res'']. now apply triple_ret. }
  destruct data; [|now apply triple_ret]. destruct res; [apply Hret|apply (Hread diaJumpNormal)|apply (Hread diaJumpExternal)].
Qed.

Lemma AnalyzeJumps_error r info offset code : AnalyzeJumps r info offset = inl code -> code = DI_UNSUPPORTED_COMMAND.
Proof.
  unfold AnalyzeJumps. destruct (_ <=? _); [congruence|]. destruct (value _); try congruence. now destruct (_ =? _).
Qed.

Lemma save_jump_target_ok info next : triple failed K
  (save_jump_target DIANA_MALLOC m_pAnalyzeAddress mode maxOffset (InVector k) info next) (fun _ => K).
Proof.
  apply triple_gets. intros jump. destruct jump as [code|[[target absolute] data]].
  - intros s (Hs & E). rewrite (AnalyzeJumps_error _ _ _ _ E). exact Hs.
  - eapply triple_pre with (P' := K); [|tauto].
    eapply triple_bind; [apply resolve_target_ok|]. intros [[offset data'] res]. apply triple_pure. intros Ho.
    destruct res; [now apply triple_ret| |apply quietly_unit, quietly_SaveNewExternalRoute, no_memory].
    apply triple_gets. intros rf. eapply triple_pre; [now apply SaveNewRoute_ok|]. tauto.
Qed.
End Save.
(** ** The instruction at an offset *)

(** The current route may start with the instruction at hand, and is not pending any more. *)
Definition at_hand (prev : Z) (r : Diana_RouteInfo) (a : Z) : Prop := a = prev /\ prev = startOffset r.

Record visiting (prev b : Z) s : Prop := {
  vs_routes : routes_ok flags maxOffset size left (at_hand prev (curRouteInfo s)) b (pOwner s) (pStack s);
  vs_current : current_ok flags (pOwner s) (pStack s) (curRouteInfo s);
  vs_stream : stream_ok (m_pStream s);
  vs_range : 0 <= prev < maxOffset;
  vs_start : strict flags (curRouteInfo s) = true ->
    present (pOwner s) (startOffset (curRouteInfo s)) <> None \/ prev = startOffset (curRouteInfo s)
}.

(** The instruction [k] is at the offset, and not analyzed yet. *)
Record unseen (prev : Z) (k : nat) s : Prop := {
  un_present : present (pOwner s) prev = Some k;
  un_entry : exists i, nth_error (m_pInstructionsVec (pOwner s)) k = Some i /\ is_invalid i = false;
  un_route : ~ In k (instructions (curRouteInfo s))
}.

Lemma visiting_range prev b s : visiting prev b s -> 0 <= prev < m_maxSize (pOwner s).
Proof. intros Hs. pose proof (vs_range _ _ _ Hs). pose proof (ro_limit _ _ _ _ _ _ _ _ (vs_routes _ _ _ Hs)). lia. Qed.

Lemma query_here prev b s : visiting prev b s ->
  (forall k i, present (pOwner s) prev = Some k -> nth_error (m_pInstructionsVec (pOwner s)) k = Some i ->
     is_invalid i = false /\ is_loading i = true) ->
  exists k s', Diana_InstructionsOwner_QueryOrAllocateInstruction prev 0 s = (Ok k, s') /\
    visiting prev b s' /\ unseen prev k s' /\ context s' = context s /\ result s' = result s /\
    curRouteInfo s' = curRouteInfo s.
Proof.
  intros Hs Hl. pose proof (visiting_range _ _ _ Hs) as Hr. assert (Ho : owner_ok (pOwner s)) by apply Hs.
  destruct (present (pOwner s) prev) as [k|] eqn:Ep.
  - exists k, s. split; [now apply Query_present|]. split; [exact Hs|]. split; [|repeat split].
    destruct (present_at _ _ _ Ho (proj1 Hr) Ep) as (i & Ei & _). destruct (Hl _ _ eq_refl Ei) as (Hi & Hload).
    constructor; [exact Ep|now exists i|]. intros Hin. destruct (co_valid _ _ _ _ (vs_current _ _ _ Hs) _ Hin) as (i' & E & _ & L).
    congruence.
  - exists (length (m_pInstructionsVec (pOwner s))). eexists. split; [now apply Query_absent|].
    destruct Hs as [A1 A2 A3 A5 A6]. split; [|split; [|repeat split]].
    + constructor; auto.
      * eapply routes_budget with (b := b - 1); [|lia].
        eapply routes_weaken; [apply routes_place; eauto|]. intros a [|[_ E]]; [assumption|discriminate].
      * now apply current_place.
      * intros Hst. destruct (A6 Hst) as [Hp|]; auto. left. cbn [pOwner with_pOwner].
        rewrite place_present by (auto; apply A2). now destruct (_ =? _).
    + constructor.
      * cbn [pOwner with_pOwner]. rewrite place_present by (auto; lia). now rewrite Z.eqb_refl.
      * exists (Diana_Instruction_Init prev 0). split; [|reflexivity]. cbn. now rewrite nth_error_snoc, Nat.eqb_refl.
      * intros Hin. destruct (co_valid _ _ _ _ A2 _ Hin) as (i' & E & _). apply nth_error_lt in E. lia.
Qed.

(** The instruction joins the route, with no flags. *)
Definition joined (k : nat) s : Session :=
  with_pOwner (alter_instruction (with_i_flags (fun _ => 0)) (InVector k))
    (with_curRouteInfo (fun r => mkDiana_RouteInfo (instructions r ++ [k]) (startOffset r) (route_flags r)) s).

Lemma joined_analyzing prev b k s : visiting prev b s -> unseen prev k s -> fine (context s) (result s) ->
  startOffset (curRouteInfo s) = first -> analyzing (fun _ => False) b k (joined k s).
Proof.
  intros [A1 A2 A3 A5 A6] [U1 (i & Ei & Vi) U3] A4 A7.
  set (o' := alter_instruction (with_i_flags (fun _ => 0)) (InVector k) (pOwner s)).
  assert (Hat : forall j, nth_error (m_pInstructionsVec o') j =
            if (j =? k)%nat then Some (with_i_flags (fun _ => 0) i) else nth_error (m_pInstructionsVec (pOwner s)) j).
  { intros j. cbn. rewrite nth_error_alter. destruct (Nat.eqb_spec j k) as [->|]; [|reflexivity]. now rewrite Ei. }
  assert (Ho : owner_ok o').
  { apply flags_ok; [apply A1|cbn; congruence|]. intros i0 E0. cbn in E0. rewrite Ei in E0. injection E0 as <-. now rewrite Vi. }
  constructor; auto.
  - destruct A1 as [B1 B2 B8 B3 B4 B5 B7 B6]. constructor; auto.
    + intros r Hin. destruct (B4 r Hin) as (R & j & ij & E1 & E2 & F). split; [exact R|]. exists j.
      change (pOwner (joined k s)) with o'. rewrite Hat. destruct (Nat.eqb_spec j k) as [->|].
      * exists (with_i_flags (fun _ => 0) i). split; [exact E1|]. split; [reflexivity|discriminate].
      * exists ij. split; [exact E1|]. split; [exact E2|exact F].
    + intros j ij. change (pOwner (joined k s)) with o'. rewrite Hat. destruct (Nat.eqb_spec j k) as [->|N].
      * intros E. injection E as <-. discriminate.
      * intros E L V. destruct (B5 j ij E L V) as [|[|[Ea _]]]; auto. exfalso. apply N.
        pose proof (present_placed _ _ _ B1 E) as P. rewrite Ea in P. congruence.
    + change (pOwner (joined k s)) with o'. unfold m_usedSize, o'. cbn. rewrite length_alter. exact B6.
  - destruct A2 as [B1 B2 B3 B4 B5]. constructor; auto.
    + cbn. apply NoDup_app; auto; [now repeat constructor|]. intros j Hj [<-|[]]. now apply U3.
    + intros j Hj. change (pOwner (joined k s)) with o'. rewrite Hat. cbn in Hj. apply in_app_iff in Hj.
      destruct (Nat.eqb_spec j k) as [->|N].
      * exists (with_i_flags (fun _ => 0) i). repeat split.
      * destruct Hj as [Hj|[->|[]]]; [now apply B2|congruence].
    + intros Hst j ij Ep E L. change (pOwner (joined k s)) with o' in E. rewrite Hat in E.
      destruct (Nat.eqb_spec j k) as [->|]; [|eapply B5; eauto]. injection E as <-. discriminate.
  - cbn. apply in_app_iff. right. now left.
  - intros Hst. cbn. change (present (pOwner s) (startOffset (curRouteInfo s)) <> None).
    destruct (A6 Hst) as [|<-]; [assumption|congruence].
Qed.

Lemma analyze_command_ok extra b k next : triple failed (analyzing extra b k)
  (analyze_command DIANA_MALLOC m_pAnalyzeAddress mode maxOffset (InVector k) next) (fun _ => analyzing extra b k).
Proof.
  set (K := analyzing extra b k).
  assert (Hret : forall c : bool, triple failed K (ret c) (fun _ => K)) by (intros c; now apply triple_ret).
  pose proof (AnalyzeAndConstructNormalInstruction_ok extra b k next) as Hn.
  apply triple_gets. intros q. eapply triple_pre with (P' := K); [|tauto].
  eapply triple_seq; [apply triple_when; intros _; now apply flags_triple|].
  apply triple_gets. intros cmd s (Hs & E). pose proof (fine_named _ _ (an_fine _ _ _ _ Hs)) as Hc.
  destruct cmd as [cmd|]; [|congruence]. clear E Hc. revert s Hs.
  match goal with |- forall s, K s -> match ?m s with _ => _ end => change (triple failed K m (fun _ => K)) end.
  change (or_crash (Some cmd)) with (@ret Session Z cmd).
  eapply triple_bind with (Q := fun c s => K s /\ cmd = c); [now apply triple_ret|].
  intros c. apply triple_pure. intros <-.
  destruct (linked_info cmd) as [info|]; [|eapply triple_seq; [exact Hn|apply Hret]].
  cbv zeta. destruct (negb _); [eapply triple_seq; [exact Hn|apply Hret]|].
  eapply triple_seq; [now apply flags_triple|]. destruct (has_bit _ _); [apply Hret|].
  destruct (has_bit _ _); [eapply triple_seq; [now apply flags_triple|apply Hret]|].
  eapply triple_seq; [apply save_jump_target_ok|apply Hret].
Qed.

Lemma AnalyzeAndConstructInstruction_ok prev b next : triple failed
  (fun s => visiting prev b s /\ fine (context s) (result s) /\ startOffset (curRouteInfo s) = first /\ forall k i, present (pOwner s) prev = Some k ->
     nth_error (m_pInstructionsVec (pOwner s)) k = Some i -> is_invalid i = false /\ is_loading i = true)
  (AnalyzeAndConstructInstruction DIANA_MALLOC m_pAnalyzeAddress mode maxOffset prev next)
  (fun _ s => exists k, analyzing (fun _ => False) b k s).
Proof.
  intros s (Hs & Hf & Hfirst & Hl). unfold AnalyzeAndConstructInstruction.
  destruct (query_here prev b s Hs Hl) as (k & s1 & E1 & Hs1 & U & Ec & Er & Eq). mrun E1. rewrite bind_modify.
  set (s2 := with_curRouteInfo _ s1).
  assert (Hk : instruction_at (pOwner s2) (InVector k) <> None).
  { destruct (un_entry _ _ _ U) as (i & Ei & _). cbn. cbn in Ei. congruence. }
  mrun (set_instruction_run s2 (InVector k) (with_i_flags (fun _ => 0)) Hk).
  fold (joined k s1). rewrite <- Ec, <- Er in Hf. rewrite <- Eq in Hfirst. pose proof (joined_analyzing prev b k s1 Hs1 U Hf Hfirst) as Hj.
  exact (triple_post failed _ _ _ _ (analyze_command_ok _ b k next) (fun _ _ Hk' => ex_intro _ k Hk') _ Hj).
Qed.
End Walk.
