(* ===== verification/AnalyzeWalkProofs.v ===== *)
(** The rollback of a route, and the walk over all of them: it ends, and keeps what is true of the
    owner. *)

From Stdlib Require Import ZArith Lia List Bool.
Import ListNotations.
From S2P Require Import Prelude Words Status DecTypes DecStreams CopyStreams DecUtils DecCore DecTables DecHoare DecTryProofs.
From S2P Require Import DecCommandProofs Analyze AnalyzeOwnerProofs AnalyzeSaveProofs AnalyzeProofs.
Local Open Scope Z_scope.
Local Open Scope diana_scope.

(** ** Going over a list *)

Section ForEach.
Context {T Obs X : Type}.
Variable f : X -> @A T Obs unit.

Lemma ListForEach_triple E (P : @DianaAnalyzeSession T Obs -> Prop) l :
  (forall x, In x l -> triple E P (f x) (fun _ => P)) -> triple E P (ListForEach f l) (fun _ => P).
Proof.
  intros Hf. induction l as [|x l IH]; cbn [ListForEach]; [now apply triple_ret|].
  eapply triple_seq; [apply Hf; now left|]. apply IH. intros y Hy. apply Hf. now right.
Qed.

Lemma ListForEach_app l l' s : ListForEach f (l ++ l') s = bind (ListForEach f l) (fun _ => ListForEach f l') s.
Proof.
  revert s. induction l as [|x l IH]; intros s; cbn [app ListForEach]; [reflexivity|].
  rewrite bind_bind. unfold bind at 1 2. destruct (f x s) as [[u|c|] s']; auto.
Qed.
End ForEach.

(** ** The rollback *)

Section Rollback.
Context {T : Type} `{HOk : DianaMovableReadStreamOk T} {Obs : Type}.
Variable DIANA_MALLOC : nat -> bool.
Variables (maxOffset flags : Z).
Variables (size : Z) (left : Z -> Prop).
Abbreviation Session := (@DianaAnalyzeSession T Obs).

Variable trouble : Prop.
Hypothesis no_memory : forall n, DIANA_MALLOC n = false -> trouble.
Implicit Types (s : Session).

Lemma mark_list_run l s : (forall x, In x l -> (x < length (m_xrefs (pOwner s)))%nat) ->
  ListForEach XrefRouteMarker l s = (Ok tt, with_pOwner (with_xrefs (mark_all l)) s).
Proof.
  revert s. induction l as [|x l IH]; intros s Hl; cbn [ListForEach].
  - unfold ret. f_equal. destruct s as [[] ? ? ? ? ? ? ?]. reflexivity.
  - unfold XrefRouteMarker at 1, xref, owner, set_owner. mred.
    destruct (nth_error (m_xrefs (pOwner s)) x) as [r|] eqn:E.
    2: { apply nth_error_None in E. specialize (Hl x (or_introl eq_refl)). lia. }
    cbn [or_crash]. mred. rewrite IH.
    + reflexivity.
    + intros y Hy. cbn. rewrite length_alter. apply Hl. now right.
Qed.

Lemma xrefs_where_lt pick o p x : In x (xrefs_where pick o p) -> (x < length (m_xrefs o))%nat.
Proof. intros H1. apply xrefs_where_in in H1 as (r & E & _). now apply nth_error_lt in E. Qed.

Lemma RouteMarker_run k s i : owner_ok (pOwner s) -> nth_error (m_pInstructionsVec (pOwner s)) k = Some i ->
  RouteMarker k s = (Ok tt, with_pOwner (kill k) s).
Proof.
  intros Ho Ei. assert (Hk : instruction_at (pOwner s) (InVector k) <> None) by (cbn; congruence).
  unfold RouteMarker. mrun (add_flags_run s (InVector k) DI_INSTRUCTION_INVALID Hk). set (s1 := with_pOwner _ s).
  assert (E1 : instruction_at (pOwner s1) (InVector k) = Some (invalid_now i)).
  { cbn [pOwner s1 with_pOwner]. rewrite instruction_at_alter, ref_eqb_refl. cbn. now rewrite Ei. }
  mrun (instruction_run s1 (InVector k) _ E1). unfold invalid_now, with_i_flags.
  cbn [m_referencesToThisInstruction m_referencesFromThisInstruction].
  rewrite (ok_from _ Ho (InVector k) i Ei), (ok_to _ Ho (InVector k) i Ei).
  mrun (mark_list_run (xrefs_where x_to (pOwner s) (InVector k)) s1 (xrefs_where_lt _ _ _)).
  set (s2 := with_pOwner (with_xrefs _) s1).
  erewrite bind_run; [|apply (mark_list_run (xrefs_where x_from (pOwner s) (InVector k)) s2)].
  - unfold set_owner, modify. f_equal. unfold s2, s1, with_pOwner. cbn [pOwner m_pStream observer mallocs pStack context result curRouteInfo].
    f_equal. unfold kill. cbn [pOwner s1 with_pOwner] in E1. rewrite E1. unfold invalid_now, with_i_flags.
    cbn [m_referencesToThisInstruction m_referencesFromThisInstruction].
    now rewrite (ok_from _ Ho (InVector k) i Ei), (ok_to _ Ho (InVector k) i Ei).
  - intros x Hx. apply xrefs_where_lt in Hx. cbn [s2 s1 pOwner with_pOwner with_xrefs m_xrefs].
    rewrite <- (length_map ends), mark_all_ends, length_map. exact Hx.
Qed.

Lemma mark_route_run ks s : owner_ok (pOwner s) -> killable ks (pOwner s) ->
  ListForEach RouteMarker ks s = (Ok tt, with_pOwner (kill_all ks) s).
Proof.
  revert s. induction ks as [|k ks IH]; intros s Ho Hk; cbn [ListForEach].
  - now destruct s.
  - destruct (killable_next _ _ _ Ho Hk) as (i & Ei & Vi & Hk'). mrun (RouteMarker_run k s i Ho Ei).
    rewrite IH; [reflexivity|now apply (kill_ok k _ i)|exact Hk'].
Qed.

(** *** References that are kept *)

Definition anything (_ : DianaParserResult) : Prop := True.

(** A data reference to an external instruction at [offset]. *)
Definition refers (o : Diana_InstructionsOwner) (j : nat) (offset bits : Z) : Prop :=
  exists y e i, nth_error (m_xrefs o) y = Some (mkDiana_XRef (InVector j) (InExternals e) (Z.lor DI_XREF_DATA bits)) /\
    nth_error (m_externalInstructionsList o) e = Some i /\ m_offset i = offset /\ m_flags i = DI_INSTRUCTION_DATA.

Lemma refers_keeps o o' j offset bits : refers o j offset bits -> keeps o o' -> refers o' j offset bits.
Proof.
  intros (y & e & i & E1 & E2 & E3 & E4) K. destruct (kp_xrefs _ _ K) as (l & El).
  destruct (kp_externals _ _ K e i E2) as (i' & E5 & E6 & E7). exists y, e, i'. rewrite El.
  rewrite nth_error_app1 by now apply nth_error_lt in E1. repeat split; congruence.
Qed.

Lemma SaveDataXRef_refers j s offset bits s' : calm anything j s ->
  SaveDataXRef DIANA_MALLOC (InVector j) offset bits s = (Ok tt, s') -> refers (pOwner s') j offset bits.
Proof.
  intros Hs E. unfold SaveDataXRef in E. unfold bind at 1 in E. rewrite allocate_run in E.
  destruct (DIANA_MALLOC (mallocs s)); [|discriminate].
  unfold push_external, owner, set_owner in E. rewrite !bind_bind, bind_gets, bind_bind, bind_modify, bind_ret in E.
  change (InExternals _) with (next_external (pOwner s)) in E.
  set (s1 := with_pOwner _ _) in E. set (o1 := put_external offset DI_INSTRUCTION_DATA (pOwner s)).
  assert (Ht : instruction_at (pOwner s1) (next_external (pOwner s)) = Some (Diana_Instruction_Init offset DI_INSTRUCTION_DATA)).
  { change (pOwner s1) with o1. unfold o1. now rewrite put_external_at, ref_eqb_refl. }
  rewrite CreateXRef_run in E; [| |congruence].
  2: { change (pOwner s1) with o1. unfold o1. rewrite put_external_at. destruct (ref_eqb _ _); [discriminate|].
       now apply calm_source in Hs. }
  destruct (DIANA_MALLOC _); [|discriminate]. injection E as <-.
  exists (length (m_xrefs (pOwner s))), (length (m_externalInstructionsList (pOwner s))). eexists.
  cbn [with_pOwner pOwner with_mallocs]. rewrite link_xrefs. split; [|split].
  - rewrite nth_error_snoc. change (m_xrefs (pOwner s1)) with (m_xrefs (pOwner s)). now rewrite Nat.eqb_refl.
  - pose proof (link_at (InVector j) (next_external (pOwner s)) (Z.lor DI_XREF_DATA bits) (pOwner s1) (next_external (pOwner s))) as El.
    rewrite Ht in El. exact El.
  - now split.
Qed.

(** The reference [x] is one that a rollback keeps, and the data reference it keeps it by is there. *)
Definition to_keep (o : Diana_InstructionsOwner) (r : Diana_XRef) : bool :=
  has_bit (x_flags r) DI_XREF_ADDRESS_TAKEN && negb (has_bit (x_flags r) DI_XREF_DATA) &&
  match instruction_at o (x_from r) with Some i => negb (is_invalid i) | None => false end.

Definition kept (o o' : Diana_InstructionsOwner) (x : nat) : Prop :=
  forall r j i, nth_error (m_xrefs o) x = Some r -> to_keep o r = true -> x_from r = InVector j ->
    instruction_at o (x_to r) = Some i -> refers o' j (m_offset i) DI_XREF_ADDRESS_TAKEN.

Section Keepers.
Variable s1 : Session.
Hypothesis fine1 : sound s1.

(** After the instructions of the route are marked. *)
Definition after s : Prop := quiet s1 s.

Lemma after_sound s : after s -> sound s.
Proof. intros Q. split; [apply Q|apply Q]. Qed.

Lemma after_valid s r j : after s -> owner_ok (pOwner s1) -> x_from r = InVector j -> to_keep (pOwner s1) r = true ->
  calm anything j s.
Proof.
  intros Q Ho Ej Hk. constructor; try apply Q; [exact I|]. eapply keeps_valid; [apply Q|].
  unfold to_keep in Hk. rewrite Ej in Hk. cbn [instruction_at] in Hk. apply andb_true_iff in Hk as (_ & Hk).
  destruct (nth_error _ j) as [i|] eqn:Ei; [|discriminate]. exists i. split; [exact Ei|]. now apply negb_true_iff.
Qed.

Lemma AddressTakenKeeper_ok x : (x < length (m_xrefs (pOwner s1)))%nat ->
  triple (failed trouble) after (AddressTakenKeeper DIANA_MALLOC x) (fun _ s => after s /\ kept (pOwner s1) (pOwner s) x).
Proof.
  intros Hx s Hs. destruct fine1 as (Ho1 & Hst1). pose proof (qt_owner _ _ Hs) as K. pose proof (kp_ok _ _ K) as Ho.
  destruct (nth_error (m_xrefs (pOwner s1)) x) as [r|] eqn:E1; [|apply nth_error_None in E1; lia].
  assert (E : nth_error (m_xrefs (pOwner s)) x = Some r).
  { destruct (kp_xrefs _ _ K) as (l & ->). now rewrite nth_error_app1. }
  unfold AddressTakenKeeper, xref, owner. rewrite bind_bind, bind_gets, E. cbn [or_crash]. rewrite bind_ret.
  destruct (ok_source _ Ho1 _ _ E1) as (j & Ej). destruct (ok_ends _ Ho1 _ _ E1) as (Hf1 & Ht1).
  destruct (instruction_at (pOwner s1) (x_from r)) as [i1|] eqn:Ei1; [|congruence].
  rewrite Ej in Ei1. destruct (keeps_forth _ _ _ _ K Ei1) as (i & Ei & [_ _ Si _]).
  assert (Ei' : instruction_at (pOwner s) (x_from r) = Some i) by now rewrite Ej.
  mrun (instruction_run s (x_from r) i Ei').
  assert (Ek : negb (has_bit (x_flags r) DI_XREF_ADDRESS_TAKEN) || has_bit (x_flags r) DI_XREF_DATA
               || has_bit (m_flags i) DI_INSTRUCTION_INVALID = negb (to_keep (pOwner s1) r)).
  { unfold to_keep. rewrite Ej. cbn [instruction_at] in *. rewrite Ei1. unfold is_invalid in *. rewrite <- Si.
    now rewrite !negb_andb, !negb_involutive. }
  rewrite Ek. destruct (to_keep (pOwner s1) r) eqn:Hk; cbn [negb].
  2: { split; [exact Hs|]. intros r' j' i' E' Hk'. rewrite E1 in E'. injection E' as <-. congruence. }
  destruct (instruction_at (pOwner s) (x_to r)) as [t|] eqn:Et.
  2: { now destruct (ok_ends _ Ho _ _ E). }
  mrun (instruction_run s (x_to r) t Et). rewrite Ej.
  pose proof (after_valid s r j Hs Ho1 Ej Hk) as Hc.
  pose proof (quietly_SaveDataXRef DIANA_MALLOC trouble no_memory anything j (m_offset t) DI_XREF_ADDRESS_TAKEN s Hc) as Q.
  pose proof (SaveDataXRef_refers j s (m_offset t) DI_XREF_ADDRESS_TAKEN) as R.
  destruct (SaveDataXRef _ _ _ _ s) as [[[]|c|] s'] eqn:Es; [| |exact Q].
  - destruct Q as (Q & _). split; [eapply quiet_trans; eauto|]. intros r' j' i' E' _ Ej' Et'.
    rewrite E1 in E'. injection E' as <-. rewrite Ej in Ej'. injection Ej' as <-.
    replace (m_offset i') with (m_offset t); [now apply R|].
    destruct (x_to r) as [m|m]; cbn [instruction_at] in *.
    + destruct (keeps_forth _ _ _ _ K Et') as (t' & E2 & [So _ _ _]). rewrite Et in E2. injection E2 as <-. exact So.
    + destruct (kp_externals _ _ K _ _ Et') as (t' & E2 & So & _). rewrite Et in E2. injection E2 as <-. exact So.
  - destruct Q as (Q & Ht). split; [apply after_sound; eapply quiet_trans; eauto|exact Ht].
Qed.
End Keepers.

Lemma to_keep_later o o' r : owner_ok o -> keeps o o' -> (exists x, nth_error (m_xrefs o) x = Some r) ->
  to_keep o' r = to_keep o r.
Proof.
  intros Ho K (x & E). unfold to_keep. f_equal. destruct (ok_source _ Ho _ _ E) as (j & ->). cbn [instruction_at].
  pose proof (kp_entries _ _ K j) as S. destruct (nth_error (m_pInstructionsVec o) j), (nth_error (m_pInstructionsVec o') j);
    try contradiction; [|reflexivity]. f_equal. apply (se_invalid _ _ S).
Qed.

Lemma kept_base o o1 o' x : owner_ok o -> keeps o o1 -> kept o1 o' x -> kept o o' x.
Proof.
  intros Ho K Hk r j i E Hr Ej Ei. destruct (kp_xrefs _ _ K) as (l & El).
  assert (E1 : nth_error (m_xrefs o1) x = Some r) by (rewrite El, nth_error_app1; auto; now apply nth_error_lt in E).
  assert (H1 : exists i1, instruction_at o1 (x_to r) = Some i1 /\ m_offset i1 = m_offset i).
  { destruct (x_to r) as [m|m]; cbn [instruction_at] in *.
    - destruct (keeps_forth _ _ _ _ K Ei) as (i1 & E2 & [So _ _ _]). now exists i1.
    - destruct (kp_externals _ _ K _ _ Ei) as (i1 & E2 & So & _). now exists i1. }
  destruct H1 as (i1 & E2 & <-). apply (Hk r j i1); auto. rewrite (to_keep_later o); auto. now exists x.
Qed.

Lemma kept_later o o1 o' x : keeps o1 o' -> kept o o1 x -> kept o o' x.
Proof. intros K Hk r j i E Hr Ej Ei. eapply refers_keeps; eauto. Qed.

Lemma keeper_step x s : sound s -> (x < length (m_xrefs (pOwner s)))%nat ->
  match AddressTakenKeeper DIANA_MALLOC x s with
  | (Ok _, s') => quiet s s' /\ kept (pOwner s) (pOwner s') x
  | (Err _, s') => failed trouble s'
  | (Crash, _) => False
  end.
Proof. intros Hs Hx. apply (AddressTakenKeeper_ok s Hs x Hx s). destruct Hs. now apply quiet_refl. Qed.

Lemma keepers_run l s : sound s -> (forall x, In x l -> (x < length (m_xrefs (pOwner s)))%nat) ->
  match ListForEach (AddressTakenKeeper DIANA_MALLOC) l s with
  | (Ok _, s') => quiet s s' /\ forall x, In x l -> kept (pOwner s) (pOwner s') x
  | (Err _, s') => failed trouble s'
  | (Crash, _) => False
  end.
Proof.
  revert s. induction l as [|x l IH]; intros s Hs Hl; cbn [ListForEach].
  - split; [destruct Hs; now apply quiet_refl|intros x []].
  - pose proof (keeper_step x s Hs (Hl x (or_introl eq_refl))) as H1. unfold bind.
    destruct (AddressTakenKeeper _ x s) as [[u|c|] s1]; auto. destruct H1 as (Q & Hk).
    assert (Hs1 : sound s1) by exact (after_sound s s1 Q). pose proof (qt_owner _ _ Q) as K.
    assert (Hl1 : forall y, In y l -> (y < length (m_xrefs (pOwner s1)))%nat).
    { intros y Hy. destruct (kp_xrefs _ _ K) as (l' & ->). rewrite length_app. specialize (Hl y (or_intror Hy)). lia. }
    specialize (IH s1 Hs1 Hl1). destruct (ListForEach _ l s1) as [[u'|c|] s2]; auto. destruct IH as (Q2 & Hk2).
    split; [eapply quiet_trans; eauto|]. intros y [<-|Hy].
    + eapply kept_later; [apply Q2|exact Hk].
    + eapply kept_base; [apply Hs|exact K|now apply Hk2].
Qed.

(** All the references to the instructions of the route. *)
Lemma route_keepers_run ks s : sound s -> (forall k, In k ks -> instruction_at (pOwner s) (InVector k) <> None) ->
  match ListForEach (AddressTakenRouteKeeper DIANA_MALLOC) ks s with
  | (Ok _, s') => quiet s s' /\
      forall k x, In k ks -> In x (xrefs_where x_to (pOwner s) (InVector k)) -> kept (pOwner s) (pOwner s') x
  | (Err _, s') => failed trouble s'
  | (Crash, _) => False
  end.
Proof.
  revert s. induction ks as [|k ks IH]; intros s Hs Hk; cbn [ListForEach].
  - split; [destruct Hs; now apply quiet_refl|intros k x []].
  - unfold AddressTakenRouteKeeper at 1. destruct (instruction_at (pOwner s) (InVector k)) as [i|] eqn:Ei.
    2: { now destruct (Hk k (or_introl eq_refl)). }
    rewrite bind_bind. mrun (instruction_run s (InVector k) i Ei). rewrite (ok_to _ (proj1 Hs) _ _ Ei).
    pose proof (keepers_run (xrefs_where x_to (pOwner s) (InVector k)) s Hs (xrefs_where_lt _ _ _)) as H1. unfold bind.
    destruct (ListForEach _ (xrefs_where _ _ _) s) as [[u|c|] s1]; auto. destruct H1 as (Q & Hkept).
    assert (Hs1 : sound s1) by exact (after_sound s s1 Q). pose proof (qt_owner _ _ Q) as K.
    assert (Hk1 : forall j, In j ks -> instruction_at (pOwner s1) (InVector j) <> None).
    { intros j Hj. specialize (Hk j (or_intror Hj)). destruct (instruction_at (pOwner s) (InVector j)) as [ij|] eqn:Ej; [|congruence].
      destruct (keeps_forth _ _ _ _ K Ej) as (i' & E' & _). cbn. congruence. }
    specialize (IH s1 Hs1 Hk1). destruct (ListForEach _ ks s1) as [[u'|c|] s2]; auto. destruct IH as (Q2 & Hkept2).
    split; [eapply quiet_trans; eauto|]. intros j x [<-|Hj] Hx.
    + eapply kept_later; [apply Q2|now apply Hkept].
    + eapply kept_base; [apply Hs|exact K|]. apply (Hkept2 j x Hj). apply xrefs_where_in in Hx as (r & E & Er).
      apply xrefs_where_in. exists r. split; [|exact Er]. destruct (kp_xrefs _ _ K) as (l' & ->).
      rewrite nth_error_app1; [exact E|]. now apply nth_error_lt in E.
Qed.
(** *** All of it *)

(** The first instruction of a route while it is loading. *)
Definition loading_of (o : Diana_InstructionsOwner) (a : Z) : list nat :=
  match present o a with
  | Some k => match nth_error (m_pInstructionsVec o) k with
              | Some i => if is_loading i then [k] else []
              | None => []
              end
  | None => []
  end.

Definition revoked (o : Diana_InstructionsOwner) (r : Diana_RouteInfo) : list nat :=
  instructions r ++ loading_of o (startOffset r).

Lemma loading_start_run s : owner_ok (pOwner s) -> 0 <= startOffset (curRouteInfo s) < m_maxSize (pOwner s) ->
  loading_start s = (Ok (loading_of (pOwner s) (startOffset (curRouteInfo s))), s).
Proof.
  intros Ho Hr. unfold loading_start, loading_of. mred. mrun (GetInstruction_run s _ Ho Hr).
  destruct (present _ _) as [k|] eqn:Ep; [|reflexivity].
  destruct (present_at _ _ _ Ho (proj1 Hr) Ep) as (i & Ei & _). mrun (instruction_run s (InVector k) i Ei). now rewrite Ei.
Qed.

Lemma loading_of_in o a k : In k (loading_of o a) -> present o a = Some k /\
  exists i, nth_error (m_pInstructionsVec o) k = Some i /\ is_loading i = true.
Proof.
  unfold loading_of. destruct (present o a) as [j|]; [|intros []].
  destruct (nth_error _ j) as [i|] eqn:Ei; [|intros []]. destruct (is_loading i) eqn:El; [|intros []].
  intros [<-|[]]. split; [reflexivity|]. now exists i.
Qed.

Lemma revoked_killable o l r : current_ok flags o l r -> strict flags r = true -> killable (revoked o r) o.
Proof.
  intros [D V R A S] Hs. constructor.
  - apply NoDup_app; auto.
    + unfold loading_of. destruct (present _ _) as [k|]; [|constructor]. destruct (nth_error _ k) as [i|]; [|constructor].
      destruct (is_loading i); repeat constructor. intros [].
    + intros k Hk Hl. apply loading_of_in in Hl as (_ & i & Ei & Hl). destruct (V k Hk) as (i' & Ei' & _ & L). congruence.
  - intros k Hk. apply in_app_iff in Hk as [Hk|Hk].
    + destruct (V k Hk) as (i & Ei & Vi & _). now exists i.
    + apply loading_of_in in Hk as (Ep & i & Ei & Hl). exists i. split; [exact Ei|]. now apply (S Hs k).
Qed.

Definition dead (b : Z) s : Prop :=
  routes_ok flags maxOffset size left (fun _ => False) b (pOwner s) (pStack s) /\ stream_ok (m_pStream s).

(** An entry after the route's instructions are marked. *)
Lemma killed_entry ks o o' k i' : killed ks o o' -> nth_error (m_pInstructionsVec o') k = Some i' ->
  exists i, nth_error (m_pInstructionsVec o) k = Some i /\ m_offset i' = m_offset i /\ is_loading i' = is_loading i /\
    is_root i' = is_root i /\ is_invalid i' = is_invalid i || existsb (Nat.eqb k) ks.
Proof.
  intros K E. pose proof (kd_entries _ _ _ K (InVector k)) as Ek. cbn [instruction_at ref_eqb] in Ek. rewrite E in Ek.
  destruct (nth_error (m_pInstructionsVec o) k) as [i|]; [|discriminate]. exists i. split; [reflexivity|]. cbn in Ek.
  injection Ek as ->. destruct (existsb _ ks); [|rewrite orb_false_r; auto].
  unfold is_loading, is_root, is_invalid. cbn. rewrite !has_bit_lor, !orb_true_r. cbn. rewrite !orb_false_r. auto.
Qed.

Lemma killed_entry_forth ks o o' k i : killed ks o o' -> nth_error (m_pInstructionsVec o) k = Some i ->
  exists i', nth_error (m_pInstructionsVec o') k = Some i'.
Proof.
  intros K E. pose proof (kd_entries _ _ _ K (InVector k)) as Ek. cbn [instruction_at] in Ek. rewrite E in Ek.
  eexists. exact Ek.
Qed.

Lemma routes_killed prev b o o' l r : routes_ok flags maxOffset size left (at_hand prev r) b o l -> current_ok flags o l r ->
  strict flags r = true -> killed (revoked o r) o o' -> routes_ok flags maxOffset size left (fun _ => False) b o' l.
Proof.
  intros [A1 A2 A8 A3 A4 A5 A7 A6] [D V R Ap S] Hs K. pose proof (kd_shape _ _ _ K) as Sh.
  assert (Ep : forall a, present o' a = present o a) by (intros a; unfold present; now rewrite (ss_presence _ _ Sh)).
  constructor; auto.
  - apply K.
  - now rewrite (ss_size _ _ Sh).
  - now rewrite (ss_size _ _ Sh).
  - intros q Hq. destruct (A4 q Hq) as (Rq & k & i & E1 & E2 & F). split; [exact Rq|]. exists k.
    destruct (killed_entry_forth _ _ _ _ _ K E2) as (i' & E'). exists i'. rewrite Ep. split; [exact E1|]. split; [exact E'|].
    destruct (killed_entry _ _ _ _ _ K E') as (i0 & E0 & _ & El & Er & Ev). rewrite E2 in E0. injection E0 as <-.
    rewrite El, Er, Ev. intros L. destruct (F L) as (F1 & F2). rewrite F1. split; [|exact F2]. cbn.
    apply not_true_is_false. rewrite existsb_in. intros Hin. apply in_app_iff in Hin as [Hin|Hin].
    + destruct (V k Hin) as (i2 & E3 & _ & L2). congruence.
    + apply loading_of_in in Hin as (Ek & _). apply (Ap Hs). apply in_map_iff. exists q. split; [|exact Hq].
      destruct (present_at _ _ _ A1 (proj1 Rq) E1) as (i3 & E3 & O3).
      destruct (present_at _ _ _ A1 (proj1 R) Ek) as (i4 & E4 & O4). congruence.
  - intros k i' E' L Vi. destruct (killed_entry _ _ _ _ _ K E') as (i & E & Eo & El & Er & Ev).
    rewrite Eo, Er. rewrite El in L. rewrite Vi in Ev. symmetry in Ev. apply orb_false_iff in Ev as (Ev & Eks).
    destruct (A5 k i E L Ev) as [|[|[Ea Eb]]]; auto. exfalso.
    apply not_true_iff_false in Eks. apply Eks, existsb_in, in_app_iff. right.
    pose proof (present_placed _ _ _ A1 E) as P. rewrite Ea, Eb in P. unfold loading_of. rewrite P, E, L. now left.
  - now rewrite (ss_size _ _ Sh), (kd_used _ _ _ K).
Qed.

(** The owner after a rollback of the instructions [ks]. *)
Definition rolled_back (ks : list nat) (o o' : Diana_InstructionsOwner) : Prop :=
  exists o1, killed ks o o1 /\ keeps o1 o' /\
    forall k x, In k ks -> In x (xrefs_where x_to o1 (InVector k)) -> kept o1 o' x.

Lemma rollback_run s (r := curRouteInfo s) (ks := revoked (pOwner s) r) : sound s ->
  0 <= startOffset r < m_maxSize (pOwner s) -> killable ks (pOwner s) ->
  match RollbackCurrentRoute DIANA_MALLOC s with
  | (Ok _, s') => rolled_back ks (pOwner s) (pOwner s') /\ stream_ok (m_pStream s') /\ pStack s' = pStack s /\
                  context s' = context s /\ result s' = result s
  | (Err _, s') => failed trouble s'
  | (Crash, _) => False
  end.
Proof.
  intros (Ho & Hst) Hr Hk. unfold RollbackCurrentRoute. mrun (loading_start_run s Ho Hr). rewrite bind_gets.
  fold r. set (ps := loading_of _ _).
  assert (Hsplit : forall X (f : A X), bind (ListForEach RouteMarker (instructions r))
            (fun _ => bind (ListForEach RouteMarker ps) (fun _ => f)) s = f (with_pOwner (kill_all ks) s)).
  { intros X f. pose proof (mark_route_run ks s Ho Hk) as E. unfold ks, revoked in E. rewrite ListForEach_app in E.
    fold ps in E. unfold bind in *. destruct (ListForEach _ _ s) as [[u|c|] s1]; try discriminate.
    now rewrite E. }
  rewrite Hsplit. set (s1 := with_pOwner _ s).
  pose proof (kill_all_killed ks (pOwner s) Ho Hk) as K.
  assert (Hs1 : sound s1) by (split; [apply K|exact Hst]).
  assert (Hin : forall k, In k ks -> instruction_at (pOwner s1) (InVector k) <> None).
  { intros k Hin. destruct (ka_valid _ _ Hk k Hin) as (i & Ei & _).
    destruct (killed_entry_forth _ _ _ _ _ K Ei) as (i' & Ei'). cbn. cbn in Ei'. congruence. }
  pose proof (route_keepers_run ks s1 Hs1 Hin) as H1. unfold ks, revoked in H1. rewrite ListForEach_app in H1.
  fold ps in H1. change (instructions r ++ ps) with ks in H1.
  destruct (bind _ _ s1) as [[u|c|] s']; auto. destruct H1 as (Q & Hkept).
  split; [|split; [apply Q|split; [apply (qt_stack _ _ Q)|split; [apply (qt_context _ _ Q)|apply (qt_result _ _ Q)]]]].
  exists (pOwner s1). split; [exact K|]. split; [apply Q|exact Hkept].
Qed.

Lemma keeps_valid_count o o' : keeps o o' -> valid_count o' = valid_count o.
Proof.
  intros K. pose proof (kp_entries _ _ K) as He. unfold valid_count.
  revert He. generalize (m_pInstructionsVec o) (m_pInstructionsVec o'). induction l as [|i l IH]; intros [|i' l'] He; auto.
  - destruct (He O).
  - destruct (He O).
  - pose proof (He O) as Hi. cbn in Hi. specialize (IH l' (fun k => He (S k))). cbn [filter].
    rewrite (se_invalid _ _ Hi). destruct (negb _); cbn [length]; lia.
Qed.

(** An address that is taken from outside of the route. *)
Lemma taken_kept ks o o1 o' x r j i k : owner_ok o -> killed ks o o1 ->
  (forall k x, In k ks -> In x (xrefs_where x_to o1 (InVector k)) -> kept o1 o' x) ->
  nth_error (m_xrefs o) x = Some r -> to_keep o r = true -> x_from r = InVector j -> ~ In j ks ->
  instruction_at o (x_to r) = Some i -> In k ks -> x_to r = InVector k ->
  refers o' j (m_offset i) DI_XREF_ADDRESS_TAKEN.
Proof.
  intros Ho K Hkept Er Hk Ej Hj Ei Hin Ek.
  assert (Er1 : nth_error (m_xrefs o1) x = Some (if existsb (fun k => touches k r) ks then marked r else r))
    by now rewrite (kd_xrefs _ _ _ K), Er.
  set (r1 := if existsb (fun k => touches k r) ks then marked r else r) in Er1.
  assert (Hr1 : x_from r1 = x_from r /\ x_to r1 = x_to r /\
                has_bit (x_flags r1) DI_XREF_ADDRESS_TAKEN = has_bit (x_flags r) DI_XREF_ADDRESS_TAKEN /\
                has_bit (x_flags r1) DI_XREF_DATA = has_bit (x_flags r) DI_XREF_DATA).
  { unfold r1. destruct (existsb _ ks); [|auto]. cbn. rewrite !has_bit_lor, !orb_false_r. auto. }
  destruct Hr1 as (F1 & F2 & F3 & F4).
  assert (Ei1 : instruction_at o1 (x_to r1) = Some (invalid_now i)).
  { rewrite F2, (kd_entries _ _ _ K), Ei. cbn [option_map]. rewrite Ek. cbn [ref_eqb].
    pose proof (proj2 (existsb_in k ks) Hin) as Ex. change (existsb (Nat.eqb k) ks) with (existsb (fun j => (k =? j)%nat) ks) in Ex.
    now rewrite Ex. }
  change (m_offset i) with (m_offset (invalid_now i)).
  apply (Hkept k x Hin) with (r := r1); auto.
  - apply xrefs_where_in. exists r1. split; [exact Er1|congruence].
  - unfold to_keep in *. rewrite F1, F3, F4, Ej in *. rewrite (kd_entries _ _ _ K). cbn [ref_eqb].
    apply andb_true_iff in Hk as (Hk1 & Hk2). rewrite Hk1. cbn [andb].
    destruct (instruction_at o (InVector j)) as [ij|]; [|discriminate]. cbn [option_map].
    destruct (existsb (fun k => (j =? k)%nat) ks) eqn:Ex; [|exact Hk2].
    apply (existsb_in j ks) in Ex. contradiction.
  - now rewrite F1.
Qed.

Lemma RollbackCurrentRoute_ok prev b s : visiting maxOffset flags size left prev b s -> strict flags (curRouteInfo s) = true ->
  match RollbackCurrentRoute DIANA_MALLOC s with
  | (Ok _, s') => dead b s' /\ context s' = context s /\ result s' = result s
  | (Err _, s') => failed trouble s'
  | (Crash, _) => False
  end.
Proof.
  intros [A1 A2 A3 A5 A6] Hs. pose proof (revoked_killable _ _ _ A2 Hs) as Hk.
  pose proof (rollback_run s (conj (ro_owner _ _ _ _ _ _ _ _ A1) A3) (co_range _ _ _ _ A2) Hk) as HR.
  destruct (RollbackCurrentRoute _ s) as [[u|c|] s']; auto.
  destruct HR as ((o1 & K & Kp & _) & Hst & Es & Ec & Er). split; [split|now split]; [|exact Hst].
  rewrite Es. eapply routes_keeps; [|exact Kp]. eapply routes_killed; eauto.
Qed.
End Rollback.

(** ** The walk *)

Section Loop.
Context {T : Type} `{HOk : DianaMovableReadStreamOk T} {Obs : Type}.
Variable Diana_GetNopInfo : DianaCmdInfo.
Variable Diana_GetRootLine : DianaBaseGenObject.
Variable DIANA_MALLOC : nat -> bool.
Variable m_pAnalyzeAddress : Obs -> Z -> bool -> Z * Z * DianaAnalyzeAddressResult * Obs.
Variables (mode maxOffset flags : Z).
Variables (size : Z) (left : Z -> Prop).
Abbreviation Session := (@DianaAnalyzeSession T Obs).
Implicit Types (s : Session).

Hypothesis unsigned : offsets_unsigned m_pAnalyzeAddress.
Hypothesis tables : tables_ok Diana_GetRootLine.
Hypothesis leads_on : prefixes_lead_on Diana_GetRootLine.
Hypothesis nop_named : m_pGroupInfo Diana_GetNopInfo <> None.

(** What an error comes from: a move to the end of the code follows its last byte, when that is no
    instruction. *)
Inductive trouble : Prop :=
| no_memory n : DIANA_MALLOC n = false -> trouble
| observer_fails obs address absolute :
    match m_pAnalyzeAddress obs address absolute with (st, _, _, _) => st <> DI_SUCCESS end -> trouble
| move_fails t offset : stream_ok t -> 0 <= offset < maxOffset -> fst (pMoveTo t offset) <> DI_SUCCESS -> trouble
| move_to_end_fails t : breaks flags = false -> stream_ok t -> fst (pMoveTo t maxOffset) <> DI_SUCCESS -> trouble.

Abbreviation failed := (failed trouble).

Lemma observer_trouble obs address absolute :
  match m_pAnalyzeAddress obs address absolute with (st, _, _, _) => st <> DI_SUCCESS -> trouble end.
Proof. pose proof (observer_fails obs address absolute) as Hf. destruct (m_pAnalyzeAddress _ _ _) as [[[st o] r] u]. exact Hf. Qed.

(** The decoder between two instructions, after one, and in any case. *)
Definition decoded (c : DianaContext) (r : DianaParserResult) : Prop :=
  (ready c /\ length (bytes r) = 16%nat) /\ command_of r <> None.
Definition usable (c : DianaContext) (r : DianaParserResult) : Prop :=
  cache_ok c /\ length (bytes r) = 16%nat.

(** At an instruction of the current route. *)
Record live (prev b : Z) s : Prop := {
  lv_visit : visiting maxOffset flags size left prev b s;
  lv_ready : ready (context s);
  lv_bytes : length (bytes (result s)) = 16%nat;
  lv_after : startOffset (curRouteInfo s) <= prev;
  lv_root : prev = startOffset (curRouteInfo s) -> questionable (curRouteInfo s) = false ->
    forall k i, present (pOwner s) prev = Some k -> nth_error (m_pInstructionsVec (pOwner s)) k = Some i ->
      is_loading i = true -> is_invalid i = false -> is_root i = true
}.

Definition ended b s : Prop := dead maxOffset flags size left b s /\ usable (context s) (result s).

(** What holds with an offset and [bNeedReset]. *)
Definition walking (offset : Z) (bNeedReset : bool) (b : Z) s : Prop :=
  if (maxOffset <=? offset) || bNeedReset then ended b s else live offset b s.

Lemma parse_command_ok s : ready (context s) -> stream_ok (m_pStream s) -> length (bytes (result s)) = 16%nat ->
  exists st s', parse_command Diana_GetNopInfo Diana_GetRootLine s = (Ok st, s') /\
    (exists t c r, s' = with_decoding t c r s /\ stream_ok t) /\ usable (context s') (result s') /\
    (st = DI_SUCCESS -> decoded (context s') (result s') /\
       1 <= iFullCmdSize (result s') <= DI_MAX_INSTRUCTION_SIZE).
Proof.
  intros Hc Ht Hb. unfold parse_command.
  pose proof (Diana_ParseCmd_ok Diana_GetNopInfo Diana_GetRootLine tables (context s) (result s) (m_pStream s) Hc Ht Hb) as HP.
  unfold call in HP. destruct (Diana_ParseCmd _ _ _) as [[u|code|] d]; [| |contradiction].
  - do 2 eexists. split; [reflexivity|].
    pose proof (command_done_read _ _ _ _ _ HP) as [R1 R2 R3 R4].
    destruct (command_done_split _ _ _ _ _ leads_on HP) as (Hr & taken & gap & _ & Esz & Hlen & _).
    destruct (command_done_info _ _ _ _ _ HP) as (i & Ei & Hi).
    assert (Hst : stream_ok (readStream d)).
    { destruct HP as ([[_ _ _ (L & Hio & _)] _ _ _ _ _] & _). apply Hio. }
    split; [now exists (readStream d), (pContext d), (pResult d)|].
    split; [split; [apply Hr|exact R4]|]. intros _. split; [split; [now split|]|].
    + cbn [result with_decoding]. unfold command_of. rewrite Ei. destruct Hi as [|(-> & _)]; assumption.
    + cbn [result with_decoding]. lia.
  - destruct HP as (He & Hk & Hst & Hl). do 2 eexists. split; [reflexivity|].
    split; [now exists (readStream d), (pContext d), (pResult d)|]. split; [now split|].
    intros ->. discriminate.
Qed.

Lemma visiting_decoding prev b s t c r : visiting maxOffset flags size left prev b s -> stream_ok t ->
  visiting maxOffset flags size left prev b (with_decoding t c r s).
Proof. intros [A1 A2 A3 A4 A5] Ht. constructor; auto. Qed.

(** A route ends when the instruction at hand is not pending. *)
Lemma visiting_ended prev b s : visiting maxOffset flags size left prev b s -> usable (context s) (result s) ->
  (prev = startOffset (curRouteInfo s) ->
   forall k i, present (pOwner s) prev = Some k -> nth_error (m_pInstructionsVec (pOwner s)) k = Some i ->
     is_loading i = true -> is_invalid i = false -> is_root i = true /\ breaks flags = false) ->
  ended b s.
Proof.
  intros [[B1 B2 B8 B3 B4 B5 B7 B6] A2 A3 A4 A5] Hu Hn. split; [split; [constructor; auto|exact A3]|exact Hu].
  intros k i E L V. destruct (B5 k i E L V) as [|[|[Ea Eb]]]; auto.
  right. left. pose proof (present_placed _ _ _ B1 E) as P. rewrite Ea in P. destruct (Hn Eb k i P E L V). auto.
Qed.

Lemma rollback_ended prev b s : visiting maxOffset flags size left prev b s -> usable (context s) (result s) ->
  strict flags (curRouteInfo s) = true ->
  triple failed (fun s' => s' = s) (RollbackCurrentRoute DIANA_MALLOC) (fun _ => ended b).
Proof.
  intros Hv Hu Hs s' ->. pose proof (RollbackCurrentRoute_ok DIANA_MALLOC maxOffset flags size left trouble no_memory prev b s Hv Hs) as HR.
  destruct (RollbackCurrentRoute _ s) as [[u|c|] s']; auto. destruct HR as (Hd & Ec & Er).
  split; [exact Hd|]. now rewrite Ec, Er.
Qed.
(** What a round gives: the walk goes on further, or the route has ended. *)
Definition round (prev b : Z) (x : Z * bool) s : Prop :=
  let (offset, bNeedReset) := x in
  walking offset bNeedReset b s /\ ((maxOffset <=? offset) || bNeedReset = false -> prev < offset).

Lemma ended_round prev b offset s : ended b s -> round prev b (offset, true) s.
Proof. intros He. unfold round, walking. rewrite orb_true_r. split; [exact He|discriminate]. Qed.

Lemma live_bounds prev b s : live prev b s -> 0 <= prev < maxOffset /\ maxOffset <= 2 ^ 60.
Proof.
  intros [[A1 A2 A3 A4 A5] _ _ _ _]. split; [exact A4|].
  pose proof (ok_size _ (ro_owner _ _ _ _ _ _ _ _ A1)). pose proof (ro_limit _ _ _ _ _ _ _ _ A1). lia.
Qed.

Lemma not_recognized_ok prev b offset s : live prev b s -> forall t c r, stream_ok t -> usable c r ->
  triple failed (fun s' => s' = with_decoding t c r s)
    (not_recognized DIANA_MALLOC flags prev offset) (round prev b).
Proof.
  intros Hl t c r Ht Hu s' ->. pose proof Hl as [Hv Hr Hb Ha Hroot]. set (s1 := with_decoding t c r s).
  assert (Hv1 : visiting maxOffset flags size left prev b s1) by now apply visiting_decoding.
  unfold not_recognized. rewrite bind_gets. change (has_bit flags _ || _) with (strict flags (curRouteInfo s)).
  destruct (strict flags (curRouteInfo s)) eqn:Es.
  - refine (triple_seq failed _ (ended b) _ _ _ (rollback_ended prev b s1 Hv1 Hu Es) _ s1 eq_refl).
    apply triple_ret. intros s2. apply ended_round.
  - pose proof (live_bounds _ _ _ Hl) as (Hp & Hm).
    rewrite u64_small by lia. unfold bind at 1, move_to. pose proof (moved_ok (m_pStream s1) (prev + 1) ltac:(lia) Ht) as Hmv.
    assert (Hf : fst (pMoveTo (m_pStream s1) (prev + 1)) <> DI_SUCCESS -> trouble).
    { intros N. destruct (Z.eq_dec (prev + 1) maxOffset) as [Em|].
      - rewrite Em in N. apply orb_false_iff in Es as (Eb & _). exact (move_to_end_fails _ Eb Ht N).
      - eapply move_fails; [exact Ht| |exact N]. lia. }
    destruct (pMoveTo _ _) as [st t']. cbn in Hmv, Hf.
    destruct (Z.eqb_spec st DI_SUCCESS); [|split; [split; [apply Hv|exact Hmv]|auto]].
    rewrite bind_modify. unfold ret, round. set (s2 := with_decoder _ _).
    assert (Hc2 : ready (context s2)) by apply (clear_ready c), Hu.
    assert (Hv2 : visiting maxOffset flags size left prev b s2) by exact (visiting_decoding _ _ _ t' _ _ Hv Hmv).
    assert (Hend : ended b s2).
    { apply (visiting_ended prev); [exact Hv2|split; [apply Hc2|apply Hu]|]. intros Ep k i E1 E2 L V.
      unfold strict in Es. apply orb_false_iff in Es as (Eb & Eq). split; [|exact Eb]. exact (Hroot Ep Eq k i E1 E2 L V). }
    unfold walking. destruct (Z.leb_spec maxOffset (prev + 1)) as [|Hlt]; cbn [orb]; split; try discriminate; auto.
    + destruct Hend as ((Hd & _) & _). destruct Hv2 as [B1 B2 B3 B4 B5]. constructor; [constructor|exact Hc2|apply Hu| |]; auto.
      * eapply routes_weaken; [exact Hd|]. intros a [].
      * lia.
      * intros Hst. change (strict flags (curRouteInfo s) = true) in Hst. congruence.
      * change (curRouteInfo s2) with (curRouteInfo s). lia.
      * change (curRouteInfo s2) with (curRouteInfo s). lia.
    + lia.
Qed.

Lemma visited_run prev b s : visiting maxOffset flags size left prev b s -> exists v, visited prev s = (Ok v, s) /\
  forall k i, present (pOwner s) prev = Some k -> nth_error (m_pInstructionsVec (pOwner s)) k = Some i ->
  match v with
  | WasInvalid => is_invalid i = true
  | WasAnalyzed => is_loading i = false
  | ToAnalyze => is_invalid i = false /\ is_loading i = true
  end.
Proof.
  intros Hv. pose proof (visiting_range _ _ _ _ _ _ _ Hv) as Hr. assert (Ho : owner_ok (pOwner s)) by apply Hv.
  unfold visited. destruct (present (pOwner s) prev) as [k|] eqn:Ep.
  - destruct (present_at _ _ _ Ho (proj1 Hr) Ep) as (i & Ei & _).
    mrun (GetInstruction_run s prev Ho Hr). rewrite Ep. mrun (instruction_run s (InVector k) i Ei).
    eexists. split; [reflexivity|]. intros k' i' [= <-] Ei'. rewrite Ei in Ei'. injection Ei' as <-.
    fold (is_invalid i). fold (is_loading i). destruct (is_invalid i), (is_loading i); cbn; auto.
  - exists ToAnalyze. mrun (GetInstruction_run s prev Ho Hr). rewrite Ep. split; [reflexivity|discriminate].
Qed.

(** An instruction is analyzed. *)
Lemma to_analyze_ok prev b offset s : live prev b s -> visiting maxOffset flags size left prev b s ->
  decoded (context s) (result s) -> prev < offset ->
  (forall k i, present (pOwner s) prev = Some k -> nth_error (m_pInstructionsVec (pOwner s)) k = Some i ->
    is_invalid i = false /\ is_loading i = true) ->
  match (let! bNeedReset := AnalyzeAndConstructInstruction DIANA_MALLOC m_pAnalyzeAddress mode maxOffset prev offset in
         ret (offset, (maxOffset <=? offset) || bNeedReset)) s with
  | (Ok x, s') => round prev b x s'
  | (Err _, s') => failed s'
  | (Crash, _) => False
  end.
Proof.
  intros Hl Hv Hd Hlt Hun. set (first := startOffset (curRouteInfo s)).
  assert (Hnamed : forall c r, decoded c r -> command_of r <> None) by (intros c r (_ & Hn); exact Hn).
  pose proof (AnalyzeAndConstructInstruction_ok DIANA_MALLOC m_pAnalyzeAddress mode maxOffset flags size left unsigned trouble no_memory
                observer_trouble                 decoded first Hnamed prev b offset s (conj Hv (conj Hd (conj eq_refl Hun)))) as HA.
  unfold bind. destruct (AnalyzeAndConstructInstruction _ _ _ _ _ _ s) as [[reset|c|] s']; auto.
  destruct HA as (k & [B1 B2 B3 B4 B5 B6 B7]). unfold ret, round, walking.
  assert (Hend : ended b s') by (split; [split; [exact B1|exact B3]|split; [apply B4|apply B4]]).
  destruct (Z.leb_spec maxOffset offset) as [|Hin]; cbn [orb]; [split; [exact Hend|discriminate]|].
  destruct reset; cbn [orb]; (split; [|lia || discriminate]); [exact Hend|].
  pose proof (live_bounds _ _ _ Hl) as (Hp & _). pose proof (lv_after _ _ _ Hl) as Hf. fold first in Hf.
  constructor; [constructor|apply B4|apply B4| |]; auto.
  - eapply routes_weaken; [exact B1|]. intros a [].
  - lia.
  - lia.
  - lia.
Qed.

Abbreviation at_offset := (analyze_at Diana_GetNopInfo Diana_GetRootLine DIANA_MALLOC m_pAnalyzeAddress mode maxOffset flags).

Lemma analyze_at_ok prev b : triple failed (live prev b) (at_offset prev) (round prev b).
Proof.
  intros s Hl. pose proof Hl as [Hv Hr Hb _ _]. unfold analyze_at.
  destruct (parse_command_ok s Hr (vs_stream _ _ _ _ _ _ _ Hv) Hb) as (st & s1 & E & (t & c & r & Es & Ht) & Hu & Hd).
  mrun E. rewrite bind_gets. assert (Hv1 : visiting maxOffset flags size left prev b s1) by (rewrite Es; now apply visiting_decoding).
  destruct (Z.eqb_spec st DI_SUCCESS) as [->|N]; cbn [negb].
  2: { rewrite Es in Hu. exact (not_recognized_ok prev b _ s Hl t c r Ht Hu s1 Es). }
  destruct (Hd eq_refl) as (Hdec & Hsz). destruct (visited_run prev b s1 Hv1) as (v & Ev & Hv'). mrun Ev.
  pose proof (live_bounds _ _ _ Hl) as (Hp & Hm).
  assert (Eo : u64 (prev + iFullCmdSize (result s1)) = prev + iFullCmdSize (result s1)).
  { apply u64_small. unfold DI_MAX_INSTRUCTION_SIZE in Hsz. lia. }
  rewrite Eo. assert (Hquiet : forall q, (forall k i, present (pOwner s1) prev = Some k ->
            nth_error (m_pInstructionsVec (pOwner s1)) k = Some i -> is_invalid i = true \/ is_loading i = false) ->
          round prev b (q, true) s1).
  { intros q Hn. apply ended_round, (visiting_ended prev); auto. intros _ k i E1 E2 L V.
    destruct (Hn k i E1 E2); congruence. }
  destruct v.
  - apply to_analyze_ok; auto; [|lia]. destruct Hl as [L1 L2 L3 L4 L5]. constructor; auto; try apply Hdec; rewrite Es; auto.
  - rewrite bind_gets. destruct (questionable (curRouteInfo s1)) eqn:Eq; cbn [when].
    + refine (triple_seq failed _ (ended b) _ _ _ (rollback_ended prev b s1 Hv1 Hu _) _ s1 eq_refl).
      * unfold strict. rewrite Eq. apply orb_true_r.
      * apply triple_ret. intros s2. apply ended_round.
    + apply Hquiet. intros k i E1 E2. left. eapply Hv'; eauto.
  - apply Hquiet. intros k i E1 E2. right. eapply Hv'; eauto.
Qed.

(** The next route. *)
Lemma SwitchToLastState_ok b s : ended b s -> pStack s <> [] ->
  match SwitchToLastState s with
  | (Ok prev, s') => live prev (b - 1) s'
  | (Err _, s') => failed s'
  | (Crash, _) => False
  end.
Proof.
  intros (([A1 A2 A8 A3 A4 A5 A7 A6] & Hst) & Hu) Hne. unfold SwitchToLastState. rewrite bind_gets.
  destruct (pStack s) as [|route rest] eqn:El; [congruence|]. rewrite !bind_modify.
  set (s1 := with_curRouteInfo _ _). unfold bind at 1, move_to.
  destruct (A4 route (or_introl eq_refl)) as (R & k & i & Ep & Ei & F).
  pose proof (moved_ok (m_pStream s1) (startOffset route) (proj1 R) Hst) as Hmv.
  assert (Hf : fst (pMoveTo (m_pStream s1) (startOffset route)) <> DI_SUCCESS -> trouble) by (intros N; exact (move_fails _ _ Hst R N)).
  destruct (pMoveTo _ _) as [st t]. cbn in Hmv, Hf.
  destruct (Z.eqb_spec st DI_SUCCESS); [|split; [split; [exact A1|exact Hmv]|auto]].
  rewrite bind_modify. unfold ret. set (s2 := with_decoder _ _).
  inversion A3 as [|? ? Hn Hd]; subst.
  assert (Hsame : forall k' i', present (pOwner s) (startOffset route) = Some k' ->
            nth_error (m_pInstructionsVec (pOwner s)) k' = Some i' -> i' = i) by (intros k' i' E1 E2; congruence).
  constructor; [constructor|apply (clear_ready (context s)), Hu|apply Hu| |].
  - constructor; auto.
    + intros r Hin. apply A4. now right.
    + intros k' i' E' L V. destruct (A5 k' i' E' L V) as [[Eo|]|[|[]]]; auto. right. right. now split.
    + intros r Hin. apply A7. now right.
    + cbn [length] in A6. cbn. lia.
  - constructor.
    + change (instructions (curRouteInfo s2)) with (instructions route). rewrite A7 by now left. constructor.
    + change (instructions (curRouteInfo s2)) with (instructions route). rewrite A7 by now left. intros k' [].
    + change (startOffset (curRouteInfo s2)) with (startOffset route). change (pOwner s2) with (pOwner s). lia.
    + intros _. exact Hn.
    + intros _ k' i' E1 E2 L. rewrite (Hsame k' i' E1 E2) in *. now apply F.
  - exact Hmv.
  - exact R.
  - intros _. now right.
  - change (startOffset (curRouteInfo s2)) with (startOffset route). lia.
  - intros _ Hq k' i' E1 E2 L V. rewrite (Hsame k' i' E1 E2) in *. now apply F.
Qed.

(** *** The walk ends *)

(** The rounds that are enough. *)
Definition rounds (offset : Z) (bNeedReset : bool) (b : Z) : Z :=
  b * (maxOffset + 1) + if (maxOffset <=? offset) || bNeedReset then 1 else maxOffset - offset + 1.

Abbreviation loop := (routes_loop Diana_GetNopInfo Diana_GetRootLine DIANA_MALLOC m_pAnalyzeAddress mode maxOffset flags).

Lemma ended_budget b s : ended b s -> Z.of_nat (length (pStack s)) <= b.
Proof.
  intros ((A & _) & _). pose proof (ro_budget _ _ _ _ _ _ _ _ A). pose proof (used_size_bound _ (ro_owner _ _ _ _ _ _ _ _ A)). lia.
Qed.

Definition finished s : Prop := exists b, ended b s /\ pStack s = [].

Lemma routes_loop_ok fuel : 0 <= maxOffset -> forall offset reset b, rounds offset reset b <= Z.of_nat fuel ->
  triple failed (walking offset reset b) (loop fuel offset reset) (fun o s => o = Some tt /\ finished s).
Proof.
  intros Hmax. induction fuel as [|fuel IH]; intros offset reset b Hf s Hw; cbn [routes_loop].
  - exfalso. unfold rounds, walking in *. destruct ((maxOffset <=? offset) || reset) eqn:El.
    + pose proof (ended_budget _ _ Hw). assert (0 <= b * (maxOffset + 1)) by nia. lia.
    + pose proof (live_bounds _ _ _ Hw). pose proof (ro_budget _ _ _ _ _ _ _ _ (vs_routes _ _ _ _ _ _ _ (lv_visit _ _ _ Hw))).
      pose proof (used_size_bound _ (ro_owner _ _ _ _ _ _ _ _ (vs_routes _ _ _ _ _ _ _ (lv_visit _ _ _ Hw)))).
      assert (0 <= b * (maxOffset + 1)) by nia. lia.
  - rewrite bind_gets.
    assert (Hround : forall prev b' s', live prev b' s' -> b' * (maxOffset + 1) + (maxOffset - prev) <= Z.of_nat fuel ->
              match (let! (offset, bNeedReset) := at_offset prev in loop fuel offset bNeedReset) s' with
              | (Ok o, s'') => o = Some tt /\ finished s''
              | (Err _, s'') => failed s''
              | (Crash, _) => False
              end).
    { intros prev b' s' Hl Hb. pose proof (live_bounds _ _ _ Hl) as (Hp & _).
      pose proof (analyze_at_ok prev b' s' Hl) as HA. unfold bind.
      destruct (at_offset prev s') as [[[off rst]|c|] s1]; auto. destruct HA as (Hw1 & Hlt).
      apply (IH off rst b'); [|exact Hw1]. unfold rounds. destruct ((maxOffset <=? off) || rst); [lia|].
      specialize (Hlt eq_refl). lia. }
    unfold rounds, walking in *. destruct ((maxOffset <=? offset) || reset) eqn:El; cbn [andb].
    + destruct (pStack s) as [|route rest] eqn:Es.
      { cbn. split; [reflexivity|]. now exists b. }
      pose proof (SwitchToLastState_ok b s Hw ltac:(congruence)) as HS. unfold bind at 1.
      destruct (SwitchToLastState s) as [[prev|c|] s1]; auto. apply (Hround prev (b - 1)); [exact HS|].
      pose proof (live_bounds _ _ _ HS). lia.
    + rewrite bind_ret. apply (Hround offset b); [exact Hw|lia].
Qed.
(** *** A whole analysis *)

(** What is still loading. *)
Definition pending_at (o : Diana_InstructionsOwner) (a : Z) : Prop := exists k i,
  nth_error (m_pInstructionsVec o) k = Some i /\ m_offset i = a /\ is_loading i = true /\ is_invalid i = false.

(** Only starts of root routes are still loading between two analyses. *)
Definition settled (o : Diana_InstructionsOwner) : Prop := forall k i,
  nth_error (m_pInstructionsVec o) k = Some i -> is_loading i = true -> is_invalid i = false -> is_root i = true.

Record analyzable s : Prop := {
  az_owner : owner_ok (pOwner s);
  az_limit : maxOffset <= m_maxSize (pOwner s);
  az_settled : settled (pOwner s);
  az_stream : stream_ok (m_pStream s)
}.
End Loop.

Section Analysis.
Context {T : Type} `{HOk : DianaMovableReadStreamOk T} {Obs : Type}.
Variable Diana_GetNopInfo : DianaCmdInfo.
Variable Diana_GetRootLine : DianaBaseGenObject.
Variable DIANA_MALLOC : nat -> bool.
Variable m_pAnalyzeAddress : Obs -> Z -> bool -> Z * Z * DianaAnalyzeAddressResult * Obs.
Variables (mode maxOffset flags : Z).
Abbreviation Session := (@DianaAnalyzeSession T Obs).
Implicit Types (s : Session).
Hypothesis unsigned : offsets_unsigned m_pAnalyzeAddress.
Hypothesis tables : tables_ok Diana_GetRootLine.
Hypothesis leads_on : prefixes_lead_on Diana_GetRootLine.
Hypothesis nop_named : m_pGroupInfo Diana_GetNopInfo <> None.
Hypothesis limit : 0 <= maxOffset.

Abbreviation trouble := (trouble DIANA_MALLOC m_pAnalyzeAddress maxOffset flags).

(** The rounds that are enough for any analysis. *)
Definition enough_rounds (maxSize : Z) (fuel : nat) : Prop := (maxSize + 1) * (maxOffset + 1) <= Z.of_nat fuel.

Lemma ended_analyzable size o0 b s : ended maxOffset flags size (pending_at o0) b s -> pStack s = [] ->
  analyzable maxOffset s /\ m_maxSize (pOwner s) = size /\
  forall k i, nth_error (m_pInstructionsVec (pOwner s)) k = Some i -> is_loading i = true -> is_invalid i = false ->
    is_root i = true /\ (breaks flags = false \/ pending_at o0 (m_offset i)).
Proof.
  intros (([A1 A2 A8 A3 A4 A5 A7 A6] & Hst) & _) Es. rewrite Es in A5.
  assert (Hp : forall k i, nth_error (m_pInstructionsVec (pOwner s)) k = Some i -> is_loading i = true ->
            is_invalid i = false -> is_root i = true /\ (breaks flags = false \/ pending_at o0 (m_offset i))).
  { intros k i E L V. destruct (A5 k i E L V) as [[]|[Hk|[]]]. exact Hk. }
  split; [|now split]. constructor; auto. intros k i E L V. now apply (Hp k i).
Qed.

(** The first round. *)
Lemma start_walking s0 s initialOffset : analyzable maxOffset s0 -> 0 <= initialOffset < m_maxSize (pOwner s0) ->
  present (pOwner s0) initialOffset = None -> pOwner s = pOwner s0 -> stream_ok (m_pStream s) ->
  pStack s = [] -> ready (context s) -> length (bytes (result s)) = 16%nat ->
  curRouteInfo s = mkDiana_RouteInfo [] initialOffset 0 ->
  walking maxOffset flags (m_maxSize (pOwner s0)) (pending_at (pOwner s0)) initialOffset false (m_maxSize (pOwner s0)) s.
Proof.
  intros [B1 B2 B3 B4] Hi Hp Eo Hst Es Hc Hb Er.
  assert (Hr : routes_ok flags maxOffset (m_maxSize (pOwner s0)) (pending_at (pOwner s0)) (fun _ => False)
                 (m_maxSize (pOwner s0)) (pOwner s0) []).
  { constructor; auto; try solve [intros r []]; [constructor| |cbn; unfold m_usedSize; lia].
    intros k i E L V. right. left. split; [exact (B3 k i E L V)|]. right. now exists k, i. }
  unfold walking. rewrite orb_false_r. destruct (Z.leb_spec maxOffset initialOffset).
  - split; [split; [now rewrite Eo, Es|exact Hst]|split; [apply Hc|exact Hb]].
  - constructor; rewrite ?Eo, ?Er; auto; [|cbn; lia|intros _ _ k i Ek; congruence].
    constructor; rewrite ?Eo, ?Es, ?Er; auto; [eapply routes_weaken; [exact Hr|intros a []]| |lia].
    constructor; auto; [constructor|intros k []|]. intros _ k i Ek. cbn in Ek. congruence.
Qed.

(** The outcome of an analysis. *)
Record analyzed s s' : Prop := {
  ad_next : analyzable maxOffset s';
  ad_size : m_maxSize (pOwner s') = m_maxSize (pOwner s);
  ad_pending : forall k i, nth_error (m_pInstructionsVec (pOwner s')) k = Some i ->
    is_loading i = true -> is_invalid i = false ->
    is_root i = true /\ (breaks flags = false \/ pending_at (pOwner s) (m_offset i))
}.

Lemma analyzed_refl s s' : analyzable maxOffset s -> pOwner s' = pOwner s -> stream_ok (m_pStream s') -> analyzed s s'.
Proof.
  intros Hs Eo Ht. pose proof Hs as [B1 B2 B3 B4]. constructor; rewrite ?Eo; auto.
  - constructor; rewrite ?Eo; auto.
  - intros k i E L V. split; [exact (B3 k i E L V)|]. right. now exists k, i.
Qed.

Lemma Diana_AnalyzeCodeEx2_ok fuel initialOffset arch s : analyzable maxOffset s ->
  0 <= initialOffset < m_maxSize (pOwner s) -> enough_rounds (m_maxSize (pOwner s)) fuel ->
  match Diana_AnalyzeCodeEx2 Diana_GetNopInfo Diana_GetRootLine DIANA_MALLOC m_pAnalyzeAddress
          mode maxOffset flags fuel initialOffset arch s with
  | (Ok o, s') => o = Some tt /\ analyzed s s'
  | (Err _, s') => sound s' /\ (arch <> DIANA_ARCH_X86 \/ maxOffset <= initialOffset \/ trouble)
  | (Crash, _) => False
  end.
Proof.
  intros Hs Hi Hf. pose proof Hs as [B1 B2 B3 B4]. unfold Diana_AnalyzeCodeEx2. rewrite bind_modify. set (s1 := new_session s).
  destruct (Z.eqb_spec arch DIANA_ARCH_X86) as [Ea|]; cbn [negb]; [|split; [now split|auto]].
  mrun (GetInstruction_run s1 initialOffset B1 Hi). change (pOwner s1) with (pOwner s).
  destruct (present (pOwner s) initialOffset) as [k|] eqn:Ep; [split; [reflexivity|now apply analyzed_refl]|].
  unfold bind at 1, move_to. pose proof (moved_ok (m_pStream s1) initialOffset (proj1 Hi) B4) as Hmv.
  assert (Hmf : fst (pMoveTo (m_pStream s1) initialOffset) <> DI_SUCCESS -> maxOffset <= initialOffset \/ trouble).
  { intros N. destruct (Z.le_gt_cases maxOffset initialOffset); [now left|]. right.
    refine (move_fails _ _ _ _ _ _ B4 _ N). lia. }
  destruct (pMoveTo _ _) as [st t]. cbn in Hmv, Hmf.
  destruct (Z.eqb_spec st DI_SUCCESS); [|split; [now split|auto]].
  unfold Diana_AnalyzeCodeImpl. rewrite !bind_modify. set (s2 := with_curRouteInfo _ _).
  destruct (init_ready mode DIANA_ARCH_X86) as (Hc & _).
  pose proof (start_walking s s2 initialOffset Hs Hi Ep eq_refl Hmv eq_refl Hc eq_refl eq_refl) as Hw.
  pose proof (routes_loop_ok Diana_GetNopInfo Diana_GetRootLine DIANA_MALLOC m_pAnalyzeAddress mode maxOffset flags
    (m_maxSize (pOwner s)) (pending_at (pOwner s)) unsigned tables leads_on nop_named fuel limit initialOffset false
    (m_maxSize (pOwner s))) as HL.
  lapply HL; [|unfold rounds, enough_rounds in *; destruct (_ || _); nia].
  intros HL'. specialize (HL' s2 Hw). destruct (routes_loop _ _ _ _ _ _ _ _ _ _ s2) as [[o|c|] s']; auto.
  2: { destruct HL'. split; auto. }
  destruct HL' as (Eo & b & He & Es). split; [exact Eo|].
  destruct (ended_analyzable _ _ _ _ He Es) as (E1 & E2 & E3). now constructor.
Qed.
End Analysis.
