(* ===== verification/AnalyzeProperties.v ===== *)
(** The properties of the static analyzer, and what it gives on small pieces of code. *)

From Stdlib Require Import ZArith Lia List Bool.
Import ListNotations.
From S2P Require Import Prelude Words Status DecTypes DecStreams DecUtils DecCore DecTables DecHoare DecTryProofs.
From S2P Require Import MemStreams DecBufferProofs CopyStreams Analyze AnalyzeOwnerProofs AnalyzeSaveProofs AnalyzeProofs.
From S2P Require Import AnalyzeWalkProofs.
From S2P Require DecSample DecProperties.
Local Open Scope Z_scope.
Local Open Scope diana_scope.

(** ** The theorems *)

Section Theorems.
Context {T : Type} `{HOk : DianaMovableReadStreamOk T} {Obs : Type}.
Variable Diana_GetNopInfo : DianaCmdInfo.
Variable Diana_GetRootLine : DianaBaseGenObject.
Variable DIANA_MALLOC : nat -> bool.
Variable m_pAnalyzeAddress : Obs -> Z -> bool -> Z * Z * DianaAnalyzeAddressResult * Obs.
Variable mode : Z.
Implicit Types (s : @DianaAnalyzeSession T Obs).

(** C8: An analysis ends.  The owner it starts on is [analyzable]: its bookkeeping is right
    ([owner_ok]: the presence vector and the instructions say the same, the two lists of an
    instruction are the references from and to it, [m_actualSize] counts the instructions that are
    valid, and no reference of a rolled back instruction is valid), it covers 0 <= [maxOffset] <=
    [m_maxSize], it holds [initialOffset], and its valid instructions that are marked as loading are
    starts of root routes ([settled]).  Then [Diana_AnalyzeCodeEx2] uses nothing outside of its
    arrays, (m_maxSize + 1) * (maxOffset + 1) rounds are enough, and the bookkeeping is right at the
    end.  When it succeeds the owner is analyzable again, with the same [m_maxSize], and a strict
    analysis ([DI_ANALYSE_BREAK_ON_INVALID_CMD]) leaves no valid instruction marked as loading at an
    offset where there was none before.  It only fails on another architecture than x86, when
    [initialOffset] is not below [maxOffset], or when an allocation, the observer or a move of the
    stream does. *)
Theorem analysis_ends (maxOffset flags : Z) (fuel : nat) (initialOffset arch : Z) s :
  offsets_unsigned m_pAnalyzeAddress -> tables_ok Diana_GetRootLine -> prefixes_lead_on Diana_GetRootLine ->
  m_pGroupInfo Diana_GetNopInfo <> None ->
  0 <= maxOffset -> analyzable maxOffset s -> 0 <= initialOffset < m_maxSize (pOwner s) ->
  (m_maxSize (pOwner s) + 1) * (maxOffset + 1) <= Z.of_nat fuel ->
  match Diana_AnalyzeCodeEx2 Diana_GetNopInfo Diana_GetRootLine DIANA_MALLOC m_pAnalyzeAddress
          mode maxOffset flags fuel initialOffset arch s with
  | (Ok o, s') => o = Some tt /\ analyzed maxOffset flags s s'
  | (Err _, s') => owner_ok (pOwner s') /\ stream_ok (m_pStream s') /\
      (arch <> DIANA_ARCH_X86 \/ maxOffset <= initialOffset \/
       trouble DIANA_MALLOC m_pAnalyzeAddress maxOffset flags)
  | (Crash, _) => False
  end.
Proof.
  intros Hu Ht Hl Hn Hm Hs Hi Hf.
  pose proof (Diana_AnalyzeCodeEx2_ok Diana_GetNopInfo Diana_GetRootLine DIANA_MALLOC m_pAnalyzeAddress mode maxOffset
    flags Hu Ht Hl Hn Hm fuel initialOffset arch s Hs Hi Hf) as H1.
  destruct (Diana_AnalyzeCodeEx2 _ _ _ _ _ _ _ _ _ _ s) as [[o|c|] s']; auto. destruct H1 as ((H1 & H2) & H3). auto.
Qed.

(** C9: The rollback of a route takes back the instructions of the route, and its first one while it
    is still loading, and nothing else: these become invalid, with every reference to or from them,
    [m_actualSize] loses their number, and every other instruction and reference stays.  An address
    of such an instruction that a valid instruction takes is kept as a reference to data. *)
Theorem rollback_takes_back_the_route s (o := pOwner s) (ks := revoked o (curRouteInfo s)) :
  owner_ok o -> stream_ok (m_pStream s) -> 0 <= startOffset (curRouteInfo s) < m_maxSize o -> killable ks o ->
  match RollbackCurrentRoute DIANA_MALLOC s with
  | (Ok _, s') =>
      owner_ok (pOwner s') /\ pStack s' = pStack s /\
      (forall k i, nth_error (m_pInstructionsVec o) k = Some i ->
         exists i', nth_error (m_pInstructionsVec (pOwner s')) k = Some i' /\ m_offset i' = m_offset i /\
           is_loading i' = is_loading i /\ is_invalid i' = is_invalid i || existsb (Nat.eqb k) ks) /\
      (forall x r, nth_error (m_xrefs o) x = Some r ->
         nth_error (m_xrefs (pOwner s')) x = Some (if existsb (fun k => touches k r) ks then marked r else r)) /\
      m_ppPresenceVec (pOwner s') = m_ppPresenceVec o /\
      m_actualSize (pOwner s') = m_actualSize o - Z.of_nat (length ks) /\
      (forall x r j i, nth_error (m_xrefs o) x = Some r -> to_keep o r = true ->
         x_from r = InVector j -> ~ In j ks -> instruction_at o (x_to r) = Some i ->
         (exists k, In k ks /\ x_to r = InVector k) ->
         refers (pOwner s') j (m_offset i) DI_XREF_ADDRESS_TAKEN)
  | (Err _, s') => owner_ok (pOwner s') /\ exists n, DIANA_MALLOC n = false
  | (Crash, _) => False
  end.
Proof.
  intros Ho Hst Hr Hk.
  pose proof (rollback_run DIANA_MALLOC (exists n, DIANA_MALLOC n = false) (fun n E => ex_intro _ n E) s
                (conj Ho Hst) Hr Hk) as H1.
  fold o ks in H1. destruct (RollbackCurrentRoute _ s) as [[u|c|] s']; auto; [|destruct H1 as ((Ho' & _) & He); auto].
  destruct H1 as ((o1 & K & Kp & Hkept) & _ & Es & _ & _). pose proof (kd_shape _ _ _ K) as Sh.
  split; [apply Kp|]. split; [exact Es|]. split; [|split; [|split; [|split]]].
  - intros k i Ei. destruct (killed_entry_forth _ _ _ _ _ K Ei) as (i1 & E1).
    destruct (killed_entry _ _ _ _ _ K E1) as (i0 & E0 & Eo & El & _ & Ev). rewrite Ei in E0. injection E0 as <-.
    destruct (keeps_forth _ _ _ _ Kp E1) as (i' & E' & [S1 S2 S3 _]). exists i'. split; [exact E'|].
    split; [congruence|]. split; congruence.
  - intros x r Er. destruct (kp_xrefs _ _ Kp) as (l & ->). rewrite nth_error_app1.
    + now rewrite (kd_xrefs _ _ _ K), Er.
    + apply nth_error_Some. now rewrite (kd_xrefs _ _ _ K), Er.
  - now rewrite (kp_presence _ _ Kp), (ss_presence _ _ Sh).
  - rewrite (ok_actual _ (kp_ok _ _ Kp)). rewrite <- (kd_actual _ _ _ K), (ok_actual _ (kd_owner _ _ _ K)).
    exact (keeps_valid_count _ _ Kp).
  - intros x r j i Er Hkeep Ej Hj Ei (k & Hin & Ek). apply (taken_kept ks o o1 (pOwner s') x r j i k); auto.
Qed.

(** Nothing is loading between two strict analyses. *)
Record scanned (maxOffset size : Z) s : Prop := {
  sc_next : analyzable maxOffset s;
  sc_size : m_maxSize (pOwner s) = size;
  sc_done : forall k i, nth_error (m_pInstructionsVec (pOwner s)) k = Some i -> is_invalid i = false -> is_loading i = false
}.

Lemma scan_loop_ok (maxOffset size : Z) (fuel : nat) (endOffset step arch : Z) :
  offsets_unsigned m_pAnalyzeAddress -> tables_ok Diana_GetRootLine -> prefixes_lead_on Diana_GetRootLine ->
  m_pGroupInfo Diana_GetNopInfo <> None -> 0 <= maxOffset <= size -> size <= 2 ^ 60 -> 1 <= step <= 4 ->
  (size + 1) * (maxOffset + 1) <= Z.of_nat fuel ->
  forall rounds offset s, 0 <= offset -> Z.max 0 (maxOffset - offset) < Z.of_nat rounds -> scanned maxOffset size s ->
  match scan_loop Diana_GetNopInfo Diana_GetRootLine DIANA_MALLOC m_pAnalyzeAddress fuel mode rounds
          offset endOffset maxOffset step arch s with
  | (Ok o, s') => o = Some tt /\ scanned maxOffset size s'
  | (Err _, s') => owner_ok (pOwner s') /\
      (arch <> DIANA_ARCH_X86 \/ trouble DIANA_MALLOC m_pAnalyzeAddress maxOffset DI_ANALYSE_BREAK_ON_INVALID_CMD)
  | (Crash, _) => False
  end.
Proof.
  intros Hu Ht Hl Hn Hm Hsz Hstep Hf. induction rounds as [|rounds IH]; intros offset s Ho Hr Hs; cbn [scan_loop].
  - lia.
  - destruct (Z.ltb_spec offset endOffset), (Z.ltb_spec offset maxOffset); cbn [andb]; try (now split).
    unfold analyze_code_ex2. pose proof Hs as [S1 S2 S3].
    pose proof (Diana_AnalyzeCodeEx2_ok Diana_GetNopInfo Diana_GetRootLine DIANA_MALLOC m_pAnalyzeAddress mode maxOffset
      DI_ANALYSE_BREAK_ON_INVALID_CMD Hu Ht Hl Hn (proj1 Hm) fuel offset arch s S1) as HA.
    rewrite S2 in HA. specialize (HA ltac:(lia) Hf). unfold bind.
    destruct (Diana_AnalyzeCodeEx2 _ _ _ _ _ _ _ _ _ _ s) as [[o|c|] s']; auto.
    + destruct HA as (-> & [A1 A2 A3]). rewrite u64_small by lia. apply IH; [lia|lia|]. constructor; [exact A1|congruence|].
      intros k i E V. destruct (is_loading i) eqn:L; [|reflexivity]. exfalso.
      destruct (A3 k i E L V) as (_ & [Hb|(k0 & i0 & E0 & _ & L0 & V0)]); [discriminate|].
      rewrite (S3 k0 i0 E0 V0) in L0. discriminate.
    + destruct HA as ((Ho' & _) & [|[|]]); auto. lia.
Qed.

(** *** The offsets of a scan *)

(** Whether an instruction can start at the address. *)
Definition aligned (arch address : Z) : bool :=
  if arch =? DIANA_ARCH_THUMB then Z.even address
  else if (arch =? DIANA_ARCH_ARM32) || (arch =? DIANA_ARCH_AARCH64) then address mod 4 =? 0
  else true.

Definition offsets_between (first limit : Z) : list Z :=
  map (fun i => first + Z.of_nat i) (seq 0 (Z.to_nat (limit - first))).

(** Strict analyses from the offsets, in order, until one fails. *)
Fixpoint analyses (fuel : nat) (maxOffset arch : Z) (offsets : list Z) : @A T Obs (option unit) :=
  match offsets with
  | [] => ret (Some tt)
  | offset :: offsets =>
      let! done := Diana_AnalyzeCodeEx2 Diana_GetNopInfo Diana_GetRootLine DIANA_MALLOC m_pAnalyzeAddress
                     mode maxOffset DI_ANALYSE_BREAK_ON_INVALID_CMD fuel offset arch in
      match done with
      | None => ret None
      | Some _ => analyses fuel maxOffset arch offsets
      end
  end.

Lemma offsets_between_step (first limit : Z) : first < limit ->
  offsets_between first limit = first :: offsets_between (first + 1) limit.
Proof.
  intros Hlt. unfold offsets_between. replace (Z.to_nat (limit - first)) with (S (Z.to_nat (limit - (first + 1)))) by lia.
  cbn [seq map]. f_equal; [lia|]. rewrite <- seq_shift, map_map. apply map_ext. lia.
Qed.

Lemma offsets_between_end (first limit : Z) : limit <= first -> offsets_between first limit = [].
Proof. intros Hlt. unfold offsets_between. now replace (Z.to_nat (limit - first)) with 0%nat by lia. Qed.

Lemma aligned_step (arch address : Z) : aligned arch address = (address mod scan_step arch =? 0).
Proof.
  unfold aligned, scan_step. destruct (Z.eqb_spec arch DIANA_ARCH_THUMB) as [->|_].
  - cbn -[Z.modulo]. rewrite Zmod_even. now destruct (Z.even address).
  - rewrite (orb_comm (arch =? DIANA_ARCH_ARM32)). destruct (_ || _); [reflexivity|]. now rewrite Z.mod_1_r.
Qed.

Lemma scan_step_power (arch : Z) : exists w, 0 <= w <= 2 /\ scan_step arch = 2 ^ w.
Proof.
  unfold scan_step. destruct (_ || _); [exists 2; split; [lia|reflexivity]|].
  destruct (_ =? _); [exists 1|exists 0]; (split; [lia|reflexivity]).
Qed.

(** The mask arithmetic of the first offset. *)
Lemma scan_first (arch base offset : Z) (step := scan_step arch) :
  Z.land (u64 (step - Z.land (u64 (base + offset)) (step - 1))) (step - 1) = (- (base + offset)) mod step.
Proof.
  destruct (scan_step_power arch) as (w & Hw & E). unfold step. rewrite E.
  replace (2 ^ w - 1) with (Z.ones w) by (rewrite Z.ones_equiv; lia). rewrite !Z.land_ones by lia. unfold u64.
  assert (Hd : (2 ^ w | 2 ^ 64)) by (exists (2 ^ (64 - w)); rewrite <- Z.pow_add_r by lia; f_equal; lia).
  assert (0 < 2 ^ w) by (apply Z.pow_pos_nonneg; lia).
  rewrite !Z.mod_mod_divide by auto.
  rewrite Zminus_mod, Z_mod_same_full, Z.sub_0_l, <- (Zminus_mod_idemp_r 0), Z.sub_0_l, Z.mod_mod by lia.
  rewrite <- !Z.sub_0_l. now rewrite !Zminus_mod_idemp_r.
Qed.

Lemma next_aligned (step a : Z) : 1 <= step -> (- a) mod step =
  if a mod step =? 0 then 0 else 1 + (- (a + 1)) mod step.
Proof.
  intros Hlt. destruct (Z.eqb_spec (a mod step) 0) as [E|E].
  - apply Z.mod_opp_l_z; lia.
  - rewrite (Z.mod_opp_l_nz a) by lia. pose proof (Z.mod_pos_bound a step ltac:(lia)).
    pose proof (Z.div_mod a step ltac:(lia)).
    replace (- (a + 1)) with ((step - a mod step - 1) + (- (a / step) - 1) * step) by lia.
    rewrite Z.mod_add, (Z.mod_small (step - a mod step - 1)) by lia. lia.
Qed.

Lemma scan_again (step a : Z) : 1 <= step -> a mod step = 0 -> 1 + (- (a + 1)) mod step = step.
Proof.
  intros Hlt E. pose proof (Z.div_mod a step ltac:(lia)).
  replace (- (a + 1)) with ((step - 1) + (- (a / step) - 1) * step) by lia.
  rewrite Z.mod_add, Z.mod_small by lia. lia.
Qed.

Lemma scan_loop_analyses (fuel : nat) (base endOffset maxOffset arch : Z) (limit := Z.min endOffset maxOffset) :
  limit <= 2 ^ 60 -> forall n rounds offset s, 0 <= offset -> n = Z.to_nat (limit - offset) -> (n < rounds)%nat ->
  scan_loop Diana_GetNopInfo Diana_GetRootLine DIANA_MALLOC m_pAnalyzeAddress fuel mode rounds
    (offset + (- (base + offset)) mod scan_step arch) endOffset maxOffset (scan_step arch) arch s =
  analyses fuel maxOffset arch (filter (fun k => aligned arch (base + k)) (offsets_between offset limit)) s.
Proof.
  intros Hl. destruct (scan_step_power arch) as (w & Hw & E).
  assert (Hs : 1 <= scan_step arch <= 4) by (unfold scan_step; destruct (_ || _); [lia|]; destruct (_ =? _); lia).
  induction n as [|n IH]; intros rounds offset s Ho En Hr; (destruct rounds as [|rounds]; [lia|]).
  - rewrite offsets_between_end by lia. cbn [filter analyses scan_loop].
    pose proof (Z.mod_pos_bound (- (base + offset)) (scan_step arch) ltac:(lia)).
    destruct (Z.ltb_spec (offset + (- (base + offset)) mod scan_step arch) endOffset); [|reflexivity].
    destruct (Z.ltb_spec (offset + (- (base + offset)) mod scan_step arch) maxOffset); [lia|reflexivity].
  - rewrite offsets_between_step by lia. cbn [filter]. rewrite aligned_step, (next_aligned _ (base + offset)) by lia.
    destruct (Z.eqb_spec ((base + offset) mod scan_step arch) 0) as [E0|E0].
    + rewrite Z.add_0_r. cbn [analyses scan_loop]. destruct (Z.ltb_spec offset endOffset); [|lia].
      destruct (Z.ltb_spec offset maxOffset); [|lia]. cbn [andb]. unfold analyze_code_ex2, bind.
      destruct (Diana_AnalyzeCodeEx2 _ _ _ _ _ _ _ _ _ _ s) as [[[[]|]|c|] s']; try reflexivity.
      rewrite u64_small by lia. rewrite <- (scan_again (scan_step arch) (base + offset)) at 1 by lia.
      rewrite <- Z.add_assoc, Z.add_assoc. rewrite <- (IH rounds (offset + 1) s') by lia. f_equal; lia.
    + rewrite Z.add_assoc. replace (base + offset + 1) with (base + (offset + 1)) by lia. apply IH; lia.
Qed.

(** C10: A scan of a fresh owner is a strict analysis from every offset [k] of the range
    ([startOffset] <= [k], below [endOffset] and [maxOffset]) whose address [imageBase] + [k] is
    aligned for the architecture (to 4 for ARM32 and AArch64, to 2 for Thumb, to 1 otherwise), in
    order, until one fails.  The instructions it finds share one owner; at the end its bookkeeping is right,
    and no instruction that was not taken back is still marked as loading.  The scan fails only on
    another architecture than x86 (this is the build with DIANA_NO_ARM), or when an allocation, the
    observer or a move of the stream to an offset inside of the code does.  The owner is for no more
    than 2^60 bytes and holds [maxOffset], and [startOffset] is not one of the last three offsets of
    the 64-bit space, from where the rounding up would wrap. *)
Theorem scan_through_finds_code (rounds fuel : nat) (startOffset endOffset maxOffset size minimal : Z)
    (pParams : option DianaAnalyzeParams) s (params := option_or pParams (DianaAnalyzeParams_Init DIANA_ARCH_X86)) :
  offsets_unsigned m_pAnalyzeAddress -> tables_ok Diana_GetRootLine -> prefixes_lead_on Diana_GetRootLine ->
  m_pGroupInfo Diana_GetNopInfo <> None -> 0 <= maxOffset <= size -> size <= 2 ^ 60 ->
  Diana_InstructionsOwner_Init (true, true, true) size minimal = Some (pOwner s) -> stream_ok (m_pStream s) ->
  0 <= startOffset < 2 ^ 64 - 3 ->
  (size + 1) * (maxOffset + 1) <= Z.of_nat fuel -> maxOffset < Z.of_nat rounds ->
  let scan := Diana_AnalyzeScanThrough Diana_GetNopInfo Diana_GetRootLine DIANA_MALLOC m_pAnalyzeAddress fuel mode
                rounds startOffset endOffset maxOffset pParams s in
  scan = analyses fuel maxOffset (arch params)
           (filter (fun k => aligned (arch params) (imageBase params + k))
              (offsets_between startOffset (Z.min endOffset maxOffset))) s /\
  match scan with
  | (Ok o, s') => o = Some tt /\ owner_ok (pOwner s') /\
      forall k i, nth_error (m_pInstructionsVec (pOwner s')) k = Some i -> is_invalid i = false -> is_loading i = false
  | (Err _, s') => owner_ok (pOwner s') /\
      (arch params <> DIANA_ARCH_X86 \/
       trouble DIANA_MALLOC m_pAnalyzeAddress maxOffset DI_ANALYSE_BREAK_ON_INVALID_CMD)
  | (Crash, _) => False
  end.
Proof.
  intros Hu Ht Hl Hn Hm Hsz Hi Hst Hb Hf Hr scan. unfold scan, Diana_AnalyzeScanThrough. fold params. cbv zeta.
  set (step := scan_step (arch params)).
  assert (Hstep : 1 <= step <= 4) by (unfold step, scan_step; destruct (_ || _); [lia|]; destruct (_ =? _); lia).
  pose proof (scan_first (arch params) (imageBase params) startOffset) as Ef. cbv zeta in Ef. fold step in Ef.
  rewrite Ef. clear Ef.
  pose proof (Z.mod_pos_bound (- (imageBase params + startOffset)) step ltac:(lia)) as Hp. rewrite u64_small by lia.
  split; [eapply scan_loop_analyses; [|apply Hb|reflexivity|]; lia|].
  destruct (init_owner_ok size minimal (pOwner s) ltac:(lia) Hi) as (Ho & Es & Ev).
  assert (Hs : scanned maxOffset size s).
  { constructor; [constructor; auto; [lia|]| |]; auto; intros k i E; rewrite Ev in E; now destruct k. }
  set (first := startOffset + _).
  pose proof (scan_loop_ok maxOffset size fuel endOffset step (arch params) Hu Ht Hl Hn Hm Hsz Hstep Hf rounds first s
                ltac:(unfold first; lia) ltac:(unfold first; lia) Hs) as H1.
  destruct (scan_loop _ _ _ _ _ _ _ _ _ _ _ _ s) as [[o|c|] s']; auto.
  destruct H1 as (-> & [S1 S2 S3]). split; [reflexivity|]. split; [apply S1|exact S3].
Qed.
End Theorems.

(** ** On small pieces of code

    [jz 10], [mov eax, 8], [ret], then at 8 three [nop], a byte that is no instruction, and [ret]; and
    the same with the [mov] in front of the jump. *)

Definition piece (code : list Z) : @DianaAnalyzeSession DianaMemoryStream unit :=
  mkDianaAnalyzeSession
    (mkDiana_InstructionsOwner [] (repeat None 16) [] 16 0 [] 0) (Diana_InitMemoryStream code 16) tt 0%nat []
    (Diana_InitContext DIANA_MODE64) zero_result (mkDiana_RouteInfo [] 0 0).

Definition jump_first : list Z := [0x74; 8; 0xB8; 8; 0; 0; 0; 0xC3; 0x90; 0x90; 0x90; 6; 0xC3; 0; 0; 0].
Definition jump_last : list Z := [0xB8; 8; 0; 0; 0; 0x74; 3; 0xC3; 0x90; 0x90; 0x90; 6; 0xC3; 0; 0; 0].

(** Offsets are addresses. *)
Definition flat (_ : unit) (address : Z) (absolute : bool) : Z * Z * DianaAnalyzeAddressResult * unit :=
  (DI_SUCCESS, Z.abs address, if Z.abs address <? 16 then diaJumpNormal else diaJumpExternal, tt).

Definition endless (_ : nat) : bool := true.

Abbreviation analyze code := (Diana_AnalyzeCodeEx2 DecSample.cmd_nop DecSample.sample_root endless flat DIANA_MODE64
  16 0 300 0 DIANA_ARCH_X86 (piece code)).

Lemma flat_unsigned : offsets_unsigned flat.
Proof. intros obs address absolute. cbn. lia. Qed.

Lemma piece_owner_ok code : owner_ok (pOwner (piece code)).
Proof. apply (init_owner_ok 16 0); [lia|reflexivity]. Qed.

Lemma jump_first_ok : memory_ok jump_first 16 (m_pStream (piece jump_first)).
Proof. apply init_memory_ok; [repeat constructor; discriminate|split; discriminate|reflexivity]. Qed.

Lemma jump_last_ok : memory_ok jump_last 16 (m_pStream (piece jump_last)).
Proof. apply init_memory_ok; [repeat constructor; discriminate|split; discriminate|reflexivity]. Qed.

Lemma piece_analyzable code : memory_ok code 16 (m_pStream (piece code)) ->
  analyzable 16 (H0 := memory_read_ok code 16) (piece code).
Proof.
  intros Hm. constructor; auto; [apply piece_owner_ok|discriminate|]. intros [|k] i E; discriminate.
Qed.

Lemma analysis_ends_witness :
  analyzed 16 0 (H0 := memory_read_ok jump_last 16) (piece jump_last) (snd (analyze jump_last)) /\
  m_actualSize (pOwner (snd (analyze jump_last))) = 7.
Proof.
  split; [|vm_compute; reflexivity].
  pose proof (analysis_ends (HOk := memory_movable_ok jump_last 16) DecSample.cmd_nop DecSample.sample_root endless flat
    DIANA_MODE64 16 0 300 0 DIANA_ARCH_X86 (piece jump_last) flat_unsigned DecProperties.sample_tables_ok
    DecProperties.sample_leads_on ltac:(discriminate) ltac:(discriminate) (piece_analyzable _ jump_last_ok)
    ltac:(split; [discriminate|reflexivity])) as H.
  lapply H; [clear H; intros H|vm_compute; discriminate].
  assert (E : fst (analyze jump_last) = Ok (Some tt)) by (vm_compute; reflexivity).
  destruct (Diana_AnalyzeCodeEx2 _ _ _ _ _ _ _ _ _ _ _) as [o s']. cbn [fst snd] in *.
  subst o. apply H.
Defined.

(** The route of the address 8, at its end. *)
Definition at_nops : @DianaAnalyzeSession DianaMemoryStream unit :=
  with_curRouteInfo (fun _ => mkDiana_RouteInfo [1; 6]%nat 8 DI_ROUTE_QUESTIONABLE) (snd (analyze jump_last)).

Lemma at_nops_sound : sound (H0 := memory_read_ok jump_last 16) at_nops.
Proof.
  pose proof (Diana_AnalyzeCodeEx2_ok (HOk := memory_movable_ok jump_last 16) DecSample.cmd_nop DecSample.sample_root
    endless flat DIANA_MODE64 16 0 flat_unsigned DecProperties.sample_tables_ok DecProperties.sample_leads_on
    ltac:(discriminate) ltac:(discriminate) 300 0 DIANA_ARCH_X86 (piece jump_last) (piece_analyzable _ jump_last_ok)
    ltac:(split; [discriminate|reflexivity])) as H.
  lapply H; [clear H; intros H|vm_compute; discriminate]. unfold sound, at_nops.
  assert (E : fst (analyze jump_last) = Ok (Some tt)) by (vm_compute; reflexivity).
  destruct (Diana_AnalyzeCodeEx2 _ _ _ _ _ _ _ _ _ _ _) as [o s']. cbn [fst snd] in *.
  subst o. destruct H as (_ & [[A1 A2 A3 A4] _ _]). split; [exact A1|exact A4].
Qed.

Lemma rollback_takes_back_the_route_witness :
  let s' := snd (RollbackCurrentRoute endless at_nops) in
  m_actualSize (pOwner s') = 5 /\ refers (pOwner s') 0 8 DI_XREF_ADDRESS_TAKEN.
Proof.
  destruct at_nops_sound as (Ho & Ht).
  pose proof (rollback_takes_back_the_route (H0 := memory_read_ok jump_last 16) endless at_nops Ho Ht) as H.
  lapply H; [clear H; intros H|vm_compute; split; [discriminate|reflexivity]].
  lapply H; [clear H; intros H|].
  - assert (E : fst (RollbackCurrentRoute endless at_nops) = Ok tt) by (vm_compute; reflexivity).
    destruct (RollbackCurrentRoute endless at_nops) as [o s']. cbn [fst snd] in *. subst o.
    destruct H as (_ & _ & _ & _ & _ & Hc & Hk). split; [rewrite Hc; vm_compute; reflexivity|].
    apply (Hk 0%nat (mkDiana_XRef (InVector 0) (InVector 1) 8) 0%nat (mkDiana_Instruction [] [0%nat] 8 0));
      [vm_compute; reflexivity|vm_compute; reflexivity|reflexivity| |vm_compute; reflexivity|].
    + vm_compute. intros [E|[E|[]]]; discriminate.
    + exists 1%nat. vm_compute. auto.
  - constructor; [vm_compute; repeat constructor; vm_compute; intuition discriminate|].
    intros k Hk. vm_compute in Hk. destruct Hk as [<-|[<-|[]]]; eexists; (split; vm_compute; reflexivity).
Defined.

(** On x86 every offset is scanned; on Thumb, in a module at the address 3, every other one. *)
Example offsets_of_a_scan :
  filter (fun k => aligned DIANA_ARCH_X86 (0 + k)) (offsets_between 12 (Z.min 20 16)) = [12; 13; 14; 15] /\
  filter (fun k => aligned DIANA_ARCH_THUMB (3 + k)) (offsets_between 4 (Z.min 9 16)) = [5; 7].
Proof. split; reflexivity. Qed.

Lemma scan_through_finds_code_witness :
  let scan := Diana_AnalyzeScanThrough DecSample.cmd_nop DecSample.sample_root endless flat 300 DIANA_MODE64
                17 12 20 16 None (piece jump_last) in
  scan = analyses DecSample.cmd_nop DecSample.sample_root endless flat DIANA_MODE64 300 16 DIANA_ARCH_X86
           [12; 13; 14; 15] (piece jump_last) /\
  owner_ok (pOwner (snd scan)).
Proof.
  pose proof (scan_through_finds_code (HOk := memory_movable_ok jump_last 16) DecSample.cmd_nop DecSample.sample_root
    endless flat DIANA_MODE64 17 300 12 20 16 16 0 None (piece jump_last) flat_unsigned DecProperties.sample_tables_ok
    DecProperties.sample_leads_on ltac:(discriminate) ltac:(split; discriminate) ltac:(discriminate) eq_refl jump_last_ok
    ltac:(split; [discriminate|reflexivity])) as H.
  lapply H; [clear H; intros H|vm_compute; discriminate]. lapply H; [clear H; intros H|reflexivity].
  destruct H as (E & H). cbv zeta in *. split; [exact E|]. clear E.
  destruct (Diana_AnalyzeScanThrough _ _ _ _ _ _ _ _ _ _ _ _) as [[o|c|] s']; [apply H|apply H|contradiction].
Defined.

(** The instruction at 10 is the target of the jump, and a root route.  When its route is still on the
    stack the walk over the questionable route of the address 8 reaches it, clears the mark of a root,
    and takes it back with the nops in front of it: the route of the jump is dropped.  In the other
    order everything is found. *)
Lemma root_is_lost_by_rollback :
  map (fun i => (m_offset i, is_invalid i)) (m_pInstructionsVec (pOwner (snd (analyze jump_first)))) =
    [(0, false); (10, true); (2, false); (8, true); (7, false); (9, true)] /\
  map (fun i => (m_offset i, is_invalid i)) (m_pInstructionsVec (pOwner (snd (analyze jump_last)))) =
    [(0, false); (8, false); (5, false); (10, false); (7, false); (12, false); (9, false)].
Proof. vm_compute. split; reflexivity. Qed.

(** [jz 8], [jz 15], [ret], and at 8 [ret]; the last byte is no instruction: the analysis fails, and
    what is at 8 is not looked at. *)
Definition bad_last_byte : list Z := [0x74; 6; 0x74; 11; 0xC3; 0; 0; 0; 0xC3; 0; 0; 0; 0; 0; 0; 6].

Lemma bad_last_byte_ends_analysis :
  fst (analyze bad_last_byte) = Err DI_END_OF_STREAM /\
  map (fun i => (m_offset i, is_loading i)) (m_pInstructionsVec (pOwner (snd (analyze bad_last_byte)))) =
    [(0, false); (8, true); (2, false); (15, true); (4, false)].
Proof. vm_compute. split; reflexivity. Qed.
