(* ===== verification/PeFile.v ===== *)
(** PE files (diana_pe.c): reading the headers of a file, mapping its sections to memory, applying the
    relocations, and looking up an export in a mapped module. *)

From Stdlib Require Import ZArith Lia List Bool.
Import ListNotations.
From S2P Require Import Prelude Words Status DecTypes DecStreams DecUtils MemStreams CopyStreams.
Local Open Scope Z_scope.
Local Open Scope diana_scope.

(** ** The headers (diana_pe_defs.h)

    The structures are packed; of each, the fields that the code reads. *)

Definition DIANA_IMAGE_FILE_MACHINE_I386 : Z := 0x014c.
Definition DIANA_IMAGE_FILE_MACHINE_AMD64 : Z := 0x8664.
Definition DIANA_IMAGE_FILE_MACHINE_ARM64 : Z := 0xAA64.
Definition DIANA_IMAGE_FILE_MACHINE_ARMNT : Z := 0x01c4.
Definition DIANA_IMAGE_FILE_MACHINE_THUMB : Z := 0x01c2.

Record DIANA_IMAGE_DOS_HEADER : Type := mkDIANA_IMAGE_DOS_HEADER { e_magic : list Z; e_lfanew : Z }.

Definition sizeof_DIANA_IMAGE_DOS_HEADER : Z := 64.
Definition dos_header (bs : list Z) : DIANA_IMAGE_DOS_HEADER :=
  mkDIANA_IMAGE_DOS_HEADER (buf_bytes bs 0 2) (s32 (buf_load bs 60 4)).

Record DIANA_IMAGE_NT_HEADERS : Type := mkDIANA_IMAGE_NT_HEADERS {
  Signature : list Z;
  Machine : Z;
  NumberOfSections : Z
}.

Definition sizeof_DIANA_IMAGE_NT_HEADERS : Z := 24.
Definition nt_headers (bs : list Z) : DIANA_IMAGE_NT_HEADERS :=
  mkDIANA_IMAGE_NT_HEADERS (buf_bytes bs 0 4) (buf_load bs 4 2) (buf_load bs 6 2).

Record DIANA_IMAGE_DATA_DIRECTORY : Type := mkDIANA_IMAGE_DATA_DIRECTORY {
  d_VirtualAddress : Z;
  d_Size : Z
}.

Definition no_directory : DIANA_IMAGE_DATA_DIRECTORY := mkDIANA_IMAGE_DATA_DIRECTORY 0 0.
Definition DIANA_IMAGE_NUMBEROF_DIRECTORY_ENTRIES : nat := 16.
Definition data_directories (bs : list Z) (off : Z) : list DIANA_IMAGE_DATA_DIRECTORY :=
  map (fun k => let d := off + 8 * Z.of_nat k in
                mkDIANA_IMAGE_DATA_DIRECTORY (buf_load bs d 4) (buf_load bs (d + 4) 4))
    (seq 0 DIANA_IMAGE_NUMBEROF_DIRECTORY_ENTRIES).

(** What [Diana_InitCustomFields] takes from an optional header. *)
Record OptionalHeader : Type := mkOptionalHeader {
  AddressOfEntryPoint : Z;
  ImageBase : Z;
  SizeOfHeaders : Z;
  DataDirectory : list DIANA_IMAGE_DATA_DIRECTORY
}.

Definition sizeof_DIANA_IMAGE_OPTIONAL_HEADER32 : Z := 224.
Definition sizeof_DIANA_IMAGE_OPTIONAL_HEADER64 : Z := 240.
Definition offsetof_ImageBase32 : Z := 28.
Definition offsetof_ImageBase64 : Z := 24.
Definition optional_header32 (bs : list Z) : OptionalHeader :=
  mkOptionalHeader (buf_load bs 16 4) (buf_load bs offsetof_ImageBase32 4) (buf_load bs 60 4) (data_directories bs 96).
Definition optional_header64 (bs : list Z) : OptionalHeader :=
  mkOptionalHeader (buf_load bs 16 4) (buf_load bs offsetof_ImageBase64 8) (buf_load bs 60 4) (data_directories bs 112).

Record DIANA_IMAGE_SECTION_HEADER : Type := mkDIANA_IMAGE_SECTION_HEADER {
  Name : list Z;
  VirtualSize : Z;
  VirtualAddress : Z;
  SizeOfRawData : Z;
  PointerToRawData : Z
}.

Definition sizeof_DIANA_IMAGE_SECTION_HEADER : Z := 40.
Definition section_header (bs : list Z) (off : Z) : DIANA_IMAGE_SECTION_HEADER :=
  mkDIANA_IMAGE_SECTION_HEADER (buf_bytes bs off 8) (buf_load bs (off + 8) 4) (buf_load bs (off + 12) 4)
    (buf_load bs (off + 16) 4) (buf_load bs (off + 20) 4).
Definition section_headers (count : Z) (bs : list Z) : list DIANA_IMAGE_SECTION_HEADER :=
  map (fun k => section_header bs (sizeof_DIANA_IMAGE_SECTION_HEADER * Z.of_nat k)) (seq 0 (Z.to_nat count)).

(** ** The file (diana_pe.h) *)

Record Diana_PeFile_impl : Type := mkDiana_PeFile_impl {
  dosHeader : DIANA_IMAGE_DOS_HEADER;
  ntHeaders : DIANA_IMAGE_NT_HEADERS;
  pCapturedSections : list DIANA_IMAGE_SECTION_HEADER;
  dianaMode : Z;
  sizeOfModule : Z;
  sizeOfInitialFile : Z;
  optionalHeaderSize : Z;
  addressOfEntryPoint : Z;
  pImageDataDirectoryArray : list DIANA_IMAGE_DATA_DIRECTORY;
  sizeOfHeaders : Z;
  imageBase : Z;
  pe_arch : Z
}.

Record Diana_PeFile : Type := mkDiana_PeFile { pImpl : option Diana_PeFile_impl; pe_flags : Z }.

Definition DianaPeFile_Free (pPeFile : Diana_PeFile) : Diana_PeFile := mkDiana_PeFile None (pe_flags pPeFile).

Definition directory (pe : Diana_PeFile_impl) (k : nat) : DIANA_IMAGE_DATA_DIRECTORY :=
  nth k (pImageDataDirectoryArray pe) no_directory.
Definition DIANA_IMAGE_DIRECTORY_ENTRY_EXPORT : nat := 0.
Definition DIANA_IMAGE_DIRECTORY_ENTRY_BASERELOC : nat := 5.

(** [strncmp]: [None] when it reads past the end of an array. *)
Fixpoint strncmp (a b : list Z) (n : nat) : option Z :=
  match n, a, b with
  | O, _, _ => Some 0
  | S n, x :: a, y :: b => if x =? y then if x =? 0 then Some 0 else strncmp a b n else Some (x - y)
  | _, _, _ => None
  end.

(** ** Reading the headers *)

Definition Diana_VerifyDosHeader (pDosHeader : DIANA_IMAGE_DOS_HEADER) (sizeOfFile : Z) : Z :=
  if negb (sizeOfFile =? 0) && (sizeOfFile <=? sizeof_DIANA_IMAGE_DOS_HEADER) then DI_INVALID_INPUT
  else if negb (nth 0 (e_magic pDosHeader) 0 =? 0x4D) || negb (nth 1 (e_magic pDosHeader) 0 =? 0x5A)
  then DI_INVALID_INPUT
  else if sizeOfFile =? 0 then DI_SUCCESS
  else
    let e_lfanew := u64 (e_lfanew pDosHeader) in
    if sizeOfFile <=? e_lfanew then DI_INVALID_INPUT
    else if u64 (sizeOfFile - e_lfanew) <=? sizeof_DIANA_IMAGE_NT_HEADERS then DI_INVALID_INPUT
    else DI_SUCCESS.

(** The bits of an address in an executable of this machine, its architecture, and whether the header
    is the one of 64 bits. *)
Definition machine_kind (machine : Z) : option (Z * Z * bool) :=
  if machine =? DIANA_IMAGE_FILE_MACHINE_I386 then Some (DIANA_MODE32, DIANA_ARCH_X86, false)
  else if machine =? DIANA_IMAGE_FILE_MACHINE_AMD64 then Some (DIANA_MODE64, DIANA_ARCH_X86, true)
  else if machine =? DIANA_IMAGE_FILE_MACHINE_ARM64 then Some (DIANA_MODE64, DIANA_ARCH_AARCH64, true)
  else if (machine =? DIANA_IMAGE_FILE_MACHINE_ARMNT) || (machine =? DIANA_IMAGE_FILE_MACHINE_THUMB)
  then Some (DIANA_MODE32, DIANA_ARCH_THUMB, false)
  else None.

(** Where the last section ends; the sums are of 32 bits. *)
Definition section_end (h : DIANA_IMAGE_SECTION_HEADER) : Z := u32 (VirtualAddress h + VirtualSize h).
Definition module_size (sections : list DIANA_IMAGE_SECTION_HEADER) : Z :=
  fold_left (fun size h => if size <? section_end h then section_end h else size) sections 0.

Section Reading.
Context {T : Type} `{DianaMovableReadStream T}.

Definition file_move (offset : Z) : M T unit := fun t =>
  let (st, t) := pMoveTo t offset in (if st =? DI_SUCCESS then Ok tt else Err st, t).

Definition DianaExactRead (n : Z) : M T (list Z) := fun t =>
  match DianaRead t n with
  | (st, bs, t) =>
      (if negb (st =? DI_SUCCESS) then Err st
       else if negb (Z.of_nat (length bs) =? n) then Err DI_END_OF_STREAM else Ok bs, t)
  end.

Definition check {St} (status : Z) : M St unit := if status =? DI_SUCCESS then ret tt else fail status.

Definition DI_Init386 : M T OptionalHeader :=
  let! bs := DianaExactRead sizeof_DIANA_IMAGE_OPTIONAL_HEADER32 in ret (optional_header32 bs).
Definition DI_InitAmd64 : M T OptionalHeader :=
  let! bs := DianaExactRead sizeof_DIANA_IMAGE_OPTIONAL_HEADER64 in ret (optional_header64 bs).

(** The header, its size, [*pDisasmMode] and the architecture. *)
Definition ReadOptionalHeader (nt : DIANA_IMAGE_NT_HEADERS) : M T (OptionalHeader * Z * Z * Z) :=
  match strncmp (Signature nt) [0x50; 0x45; 0] 3 with
  | Some 0 =>
      match machine_kind (Machine nt) with
      | Some (mode, arch, true) =>
          let! opt := DI_InitAmd64 in ret (opt, sizeof_DIANA_IMAGE_OPTIONAL_HEADER64, mode, arch)
      | Some (mode, arch, false) =>
          let! opt := DI_Init386 in ret (opt, sizeof_DIANA_IMAGE_OPTIONAL_HEADER32, mode, arch)
      | None => fail DI_UNSUPPORTED_COMMAND
      end
  | Some _ => fail DI_INVALID_INPUT
  | None => crash
  end.

(** [oracle] says which of the two allocations succeed. *)
Definition Diana_InitPeFileImpl (oracle : bool * bool) (sizeOfFile : Z) : M T Diana_PeFile_impl :=
  if negb (fst oracle) then fail DI_OUT_OF_MEMORY
  else
    file_move 0 ;;;
    let! bs := DianaExactRead sizeof_DIANA_IMAGE_DOS_HEADER in
    let dos := dos_header bs in
    check (Diana_VerifyDosHeader dos sizeOfFile) ;;;
    file_move (u64 (e_lfanew dos)) ;;;
    let! bs := DianaExactRead sizeof_DIANA_IMAGE_NT_HEADERS in
    let nt := nt_headers bs in
    let! (opt, optionalHeaderSize, mode, arch) := ReadOptionalHeader nt in
    let sectionOffset := s32 (e_lfanew dos + sizeof_DIANA_IMAGE_NT_HEADERS + optionalHeaderSize) in
    file_move (u64 sectionOffset) ;;;
    if negb (snd oracle) then fail DI_OUT_OF_MEMORY
    else
      let! bs := DianaExactRead (NumberOfSections nt * sizeof_DIANA_IMAGE_SECTION_HEADER) in
      let sections := section_headers (NumberOfSections nt) bs in
      ret (mkDiana_PeFile_impl dos nt sections mode (module_size sections) sizeOfFile optionalHeaderSize
             (AddressOfEntryPoint opt) (DataDirectory opt) (SizeOfHeaders opt) (ImageBase opt) arch).

(** The status and [*pPeFile]; a file that was not read is freed. *)
Definition DianaPeFile_Init (oracle : bool * bool) (sizeOfFile flags : Z) (t : T)
    : outcome unit * Diana_PeFile * T :=
  match Diana_InitPeFileImpl oracle sizeOfFile t with
  | (Ok impl, t) => (Ok tt, mkDiana_PeFile (Some impl) flags, t)
  | (Err c, t) => (Err c, DianaPeFile_Free (mkDiana_PeFile None flags), t)
  | (Crash, t) => (Crash, mkDiana_PeFile None flags, t)
  end.

End Reading.

(** The first section of the name, or of a name that begins with the first eight bytes of it. *)
Fixpoint find_section (pSectionName : list Z) (n : nat) (hs : list DIANA_IMAGE_SECTION_HEADER)
    : outcome (option DIANA_IMAGE_SECTION_HEADER) :=
  match hs with
  | [] => Ok None
  | h :: hs =>
      match strncmp (Name h) pSectionName n with
      | Some 0 => Ok (Some h)
      | Some _ => find_section pSectionName n hs
      | None => Crash
      end
  end.

Definition DianaPeFile_FindSection (pe : Diana_PeFile_impl) (pSectionName : list Z) (nameSize : Z)
    : outcome (option DIANA_IMAGE_SECTION_HEADER) :=
  let maxSize := if 8 <? nameSize then 8 else nameSize in
  find_section pSectionName (Z.to_nat (u64 maxSize)) (pCapturedSections pe).

(** ** Relocations *)

Definition DIANA_MAX_SAFE_ALLOC_SIZE : Z := 0x20000000.
Definition DIANA_IMAGE_REL_BASED_ABSOLUTE : Z := 0.
Definition DIANA_IMAGE_REL_BASED_HIGH : Z := 1.
Definition DIANA_IMAGE_REL_BASED_HIGHLOW : Z := 3.
Definition DIANA_IMAGE_REL_BASED_THUMB_MOV32 : Z := 7.
Definition DIANA_IMAGE_REL_BASED_DIR64 : Z := 10.

Definition halfword (p : list Z) (k : nat) : Z := Z.lor (nth k p 0) (Z.shiftl (nth (S k) p 0) 8).

Definition DianaPe_GetThumbMovImm16 (p : list Z) : Z :=
  let hw1 := halfword p 0 in
  let hw2 := halfword p 2 in
  Z.lor (Z.lor (Z.lor (Z.shiftl (Z.land hw1 0xF) 12) (Z.shiftl (Z.land (Z.shiftr hw1 10) 1) 11))
           (Z.shiftl (Z.land (Z.shiftr hw2 12) 7) 8)) (Z.land hw2 0xFF).

(** The four bytes. *)
Definition DianaPe_SetThumbMovImm16 (p : list Z) (imm16 : Z) : list Z :=
  let hw1 := Z.lor (Z.lor (Z.land (halfword p 0) (0xFFFFFFFF - 0x040F)) (Z.land (Z.shiftr imm16 12) 0xF))
               (Z.shiftl (Z.land (Z.shiftr imm16 11) 1) 10) in
  let hw2 := Z.lor (Z.lor (Z.land (halfword p 2) (0xFFFFFFFF - 0x70FF))
                      (Z.shiftl (Z.land (Z.shiftr imm16 8) 7) 12)) (Z.land imm16 0xFF) in
  [u8 hw1; u8 (Z.shiftr hw1 8); u8 hw2; u8 (Z.shiftr hw2 8)].

(** The bytes at the target of a relocation of type [t], moved by [diff]; [None] for the types that
    change nothing. *)
Definition relocation_size (t : Z) : option Z :=
  if t =? DIANA_IMAGE_REL_BASED_HIGH then Some 2
  else if t =? DIANA_IMAGE_REL_BASED_HIGHLOW then Some 4
  else if t =? DIANA_IMAGE_REL_BASED_THUMB_MOV32 then Some 8
  else if t =? DIANA_IMAGE_REL_BASED_DIR64 then Some 8
  else None.

Definition relocated (t diff : Z) (bs : list Z) : list Z :=
  if t =? DIANA_IMAGE_REL_BASED_HIGH then
    let tempVal32 := u32 (u32 (Z.shiftl (le_decode bs) 16) + u32 diff) in
    le_encode 2 (Z.shiftr tempVal32 16)
  else if t =? DIANA_IMAGE_REL_BASED_HIGHLOW then le_encode 4 (u32 (le_decode bs + u32 diff))
  else if t =? DIANA_IMAGE_REL_BASED_THUMB_MOV32 then
    let low := firstn 4 bs in
    let high := skipn 4 bs in
    let tempVal32 := u32 (Z.lor (DianaPe_GetThumbMovImm16 low) (Z.shiftl (DianaPe_GetThumbMovImm16 high) 16)
                          + u32 diff) in
    DianaPe_SetThumbMovImm16 low (Z.land tempVal32 0xFFFF) ++ DianaPe_SetThumbMovImm16 high (Z.shiftr tempVal32 16)
  else le_encode 8 (u64 (le_decode bs + diff)).

Section Relocations.
Context {U : Type} `{DianaReadWriteRandomStream U}.

(** [n] bytes at [address], all of them. *)
Definition read_exactly (address n : Z) : M U (list Z) := fun u =>
  match pRandomReadBack u address n false with
  | (st, bs, u) =>
      (if negb (st =? DI_SUCCESS) then Err st
       else if negb (Z.of_nat (length bs) =? n) then Err DI_ERROR else Ok bs, u)
  end.

(** One entry of a block. *)
Definition relocate_entry (moduleAddress virtualAddress subEntry diff : Z) : M U unit :=
  let offset := Z.land subEntry 0xfff in
  let rawTarget := u32 (virtualAddress + offset) in
  if rawTarget =? 0 then ret tt
  else
    match Diana_SafeAdd moduleAddress rawTarget with
    | None => fail DI_OVERFLOW
    | Some targetAddress =>
        let t := Z.shiftr subEntry 12 in
        match relocation_size t with
        | None => ret tt
        | Some n =>
            let! bs := read_exactly targetAddress n in
            write_page targetAddress (relocated t diff bs)
        end
    end.

(** The captured directory, read inside of its bounds. *)
Definition captured (pCapturedRelocs : list Z) (off n : Z) : M U Z :=
  if (off <? 0) || (Z.of_nat (length pCapturedRelocs) <? off + n) then crash
  else ret (buf_load pCapturedRelocs off n).

Fixpoint relocate_entries (pCapturedRelocs : list Z) (pSubEntry : Z) (subEntriesCount : nat)
    (moduleAddress virtualAddress diff : Z) : M U unit :=
  match subEntriesCount with
  | O => ret tt
  | S count =>
      let! subEntry := captured pCapturedRelocs pSubEntry 2 in
      relocate_entry moduleAddress virtualAddress subEntry diff ;;;
      relocate_entries pCapturedRelocs (pSubEntry + 2) count moduleAddress virtualAddress diff
  end.

(** A negative count is no entry. *)
Definition DianaPeFile_ProcessRelocationEntry (pCapturedRelocs : list Z)
    (moduleAddress virtualAddress subEntriesCount pSubEntry diff : Z) : M U unit :=
  relocate_entries pCapturedRelocs pSubEntry (Z.to_nat subEntriesCount) moduleAddress virtualAddress diff.

(** [iSubEntriesCount] of a block: the subtraction is one of 64 bits without a sign, the result an
    [int]. *)
Definition sub_entries_count (SizeOfBlock : Z) : Z := s32 (u64 (SizeOfBlock - 8) / 2).

(** [pRelocationEntry] is an offset in the captured directory; [None] when the fuel is used up. *)
Fixpoint relocate_blocks (fuel : nat) (pCapturedRelocs : list Z) (pRelocationEntry address diff : Z)
    : M U (option unit) :=
  match fuel with
  | O => ret None
  | S fuel =>
      let pCapturedRelocs_end := Z.of_nat (length pCapturedRelocs) in
      if negb (pRelocationEntry <? pCapturedRelocs_end - 8) then ret (Some tt)
      else
        let! virtualAddress := captured pCapturedRelocs pRelocationEntry 4 in
        let! SizeOfBlock := captured pCapturedRelocs (pRelocationEntry + 4) 4 in
        let pFirstSubEntry := pRelocationEntry + 8 in
        let iSubEntriesCount := sub_entries_count SizeOfBlock in
        if u32 (pCapturedRelocs_end - pRelocationEntry) <? SizeOfBlock then fail DI_ERROR
        else
          DianaPeFile_ProcessRelocationEntry pCapturedRelocs address virtualAddress iSubEntriesCount pFirstSubEntry diff ;;;
          relocate_blocks fuel pCapturedRelocs (pFirstSubEntry + 2 * iSubEntriesCount) address diff
  end.

(** [malloc]: whether the allocation succeeds. *)
Definition DianaPeFile_FixRelocs (malloc : bool) (fuel : nat) (pe : Diana_PeFile_impl) (address : Z)
    : M U (option unit) :=
  let diff := u64 (address - imageBase pe) in
  let relocations := directory pe DIANA_IMAGE_DIRECTORY_ENTRY_BASERELOC in
  if (d_Size relocations =? 0) || (d_VirtualAddress relocations =? 0) then ret (Some tt)
  else if diff =? 0 then ret (Some tt)
  else if DIANA_MAX_SAFE_ALLOC_SIZE <? d_Size relocations then fail DI_INVALID_INPUT
  else if negb malloc then fail DI_OUT_OF_MEMORY
  else
    let! pCapturedRelocs := read_exactly (u64 (address + d_VirtualAddress relocations)) (d_Size relocations) in
    relocate_blocks fuel pCapturedRelocs 0 address diff.

Definition offsetof_ImageBase (dianaMode : Z) : option Z :=
  if dianaMode =? DIANA_MODE32 then Some offsetof_ImageBase32
  else if dianaMode =? DIANA_MODE64 then Some offsetof_ImageBase64
  else None.

Definition DianaPeFile_Relocate (malloc : bool) (fuel : nat) (pe : Diana_PeFile_impl) (address : Z)
    : M U (option unit) :=
  let! done := DianaPeFile_FixRelocs malloc fuel pe address in
  match done with
  | None => ret None
  | Some _ =>
      let optHeaderOffset := u32 (u32 (e_lfanew (dosHeader pe)) + sizeof_DIANA_IMAGE_NT_HEADERS) in
      match offsetof_ImageBase (dianaMode pe) with
      | None => fail DI_ERROR
      | Some off =>
          write_page (u64 (address + u32 (optHeaderOffset + off))) (le_encode (Z.to_nat (dianaMode pe)) address) ;;;
          ret (Some tt)
      end
  end.
End Relocations.

(** ** Mapping *)

Definition DIANA_PE_FILE_FLAGS_FILE_MODE : Z := 1.
Definition DIANA_PE_MAP_DO_NOT_RELOCATE : Z := 1.

Section Mapping.
Context {T U : Type} `{DianaMovableReadStream T} `{DianaReadWriteRandomStream U}.

Definition from_input {A} (m : M T A) : M (T * U) A := fun '(t, u) => let (o, t) := m t in (o, (t, u)).

(** A copy with as much fuel as bytes; it never runs out of it ([copy_and_fill_are_exact]). *)
Definition to_the_end {St} (m : nat -> M St (option unit)) (size : Z) : M St unit :=
  let! done := m (S (Z.to_nat size)) in match done with Some _ => ret tt | None => crash end.

Definition copy_to (address size pageSize : Z) : M (T * U) unit :=
  to_the_end (fun fuel => DianaStreams_CopyData fuel address size pageSize) size.
Definition zero_at (address size pageSize : Z) : M (T * U) unit :=
  to_output (to_the_end (fun fuel => DianaStreams_MemsetData fuel address size 0 pageSize) size).

Definition safe_add (a b : Z) : M (T * U) Z :=
  match Diana_SafeAdd a b with Some c => ret c | None => fail DI_OVERFLOW end.

(** The size in memory of a section, and how much of it is in the file. *)
Definition virtual_size (h : DIANA_IMAGE_SECTION_HEADER) : Z :=
  if VirtualSize h =? 0 then SizeOfRawData h else VirtualSize h.
Definition raw_size (h : DIANA_IMAGE_SECTION_HEADER) : Z :=
  if PointerToRawData h =? 0 then 0
  else if virtual_size h <? SizeOfRawData h then virtual_size h else SizeOfRawData h.

Definition map_section (pe : Diana_PeFile_impl) (address pageSize : Z) (h : DIANA_IMAGE_SECTION_HEADER)
    : M (T * U) unit :=
  if (sizeOfModule pe <? SizeOfRawData h) || (sizeOfModule pe <? PointerToRawData h) then fail DI_ERROR
  else
    let virtualSize := virtual_size h in
    let sizeOfRawData := raw_size h in
    let! sectionVA := safe_add (VirtualAddress h) address in
    let! sectionVAEnd := safe_add sectionVA sizeOfRawData in
    when (negb (sizeOfRawData =? 0))
      (from_input (file_move (PointerToRawData h)) ;;; copy_to sectionVA sizeOfRawData pageSize) ;;;
    when (sizeOfRawData <? virtualSize) (zero_at sectionVAEnd (virtualSize - sizeOfRawData) pageSize).

Fixpoint map_sections (pe : Diana_PeFile_impl) (address pageSize : Z) (hs : list DIANA_IMAGE_SECTION_HEADER)
    : M (T * U) unit :=
  match hs with
  | [] => ret tt
  | h :: hs => map_section pe address pageSize h ;;; map_sections pe address pageSize hs
  end.

Definition DianaPeFile_MapEx (malloc : bool) (fuel : nat) (pPeFile : Diana_PeFile) (address pageSize flags : Z)
    : M (T * U) (option unit) :=
  match pImpl pPeFile with
  | None => crash
  | Some pe =>
      if Z.land (pe_flags pPeFile) DIANA_PE_FILE_FLAGS_FILE_MODE =? 0 then fail DI_INVALID_INPUT
      else if (sizeOfHeaders pe =? 0) || (sizeOfModule pe <? sizeOfHeaders pe) then fail DI_ERROR
      else if u64 pageSize <? 8 then fail DI_ERROR
      else
        from_input (file_move 0) ;;;
        copy_to address (sizeOfHeaders pe) pageSize ;;;
        map_sections pe address pageSize (pCapturedSections pe) ;;;
        if negb (Z.land flags DIANA_PE_MAP_DO_NOT_RELOCATE =? 0) then ret (Some tt)
        else to_output (DianaPeFile_Relocate malloc fuel pe address)
  end.

Definition DianaPeFile_Map (malloc : bool) (fuel : nat) (pPeFile : Diana_PeFile) (address pageSize : Z) :=
  DianaPeFile_MapEx malloc fuel pPeFile address pageSize 0.
End Mapping.

(** ** Exports of a mapped module

    The module is the memory from [pCapturedDataStart] to [pCapturedDataEnd]; a pointer into it is an
    offset. *)

Definition DIANA_PE_INVALID_ORDINAL_VALUE : Z := 0xFFFF.

Section Exports.
Variable pCapturedData : list Z.
Definition moduleSize : Z := Z.of_nat (length pCapturedData).

Definition load (off n : Z) : outcome Z :=
  if (off <? 0) || (moduleSize <? off + n) then Crash else Ok (buf_load pCapturedData off n).

Definition and_then {A B} (o : outcome A) (f : A -> outcome B) : outcome B :=
  match o with Ok a => f a | Err c => Err c | Crash => Crash end.

Definition ValidateVirtualAddress (virtualAddress : Z) : outcome Z :=
  if virtualAddress =? 0 then Err DI_ERROR
  else if moduleSize <=? virtualAddress then Err DI_ERROR
  else Ok virtualAddress.

(** [CaptureValue32] with [width] 4 and [CaptureValue16] with [width] 2. *)
Definition CaptureValue (width pTable offset : Z) : outcome Z :=
  let tableSize := u64 (moduleSize - pTable) in
  if tableSize <? width then Err DI_ERROR
  else if tableSize - width <=? offset then Err DI_ERROR
  else if tableSize - width <=? u64 (offset * width) then Err DI_ERROR
  else load (pTable + u32 (offset * width)) width.
Definition CaptureValue32 := CaptureValue 4.
Definition CaptureValue16 := CaptureValue 2.

(** [DIANA_STRNCMP(pFunctionName, pFunctionPointer, pCapturedDataEnd - pFunctionPointer)]; the name
    ends with a zero. *)
Definition compare_name (pFunctionName : list Z) (pFunctionPointer : Z) : outcome Z :=
  match strncmp (pFunctionName ++ [0]) (skipn (Z.to_nat pFunctionPointer) pCapturedData)
          (Z.to_nat (moduleSize - pFunctionPointer)) with
  | Some c => Ok c
  | None => Crash
  end.

(** Where the loop was left, [low], [middle] and [high]; [None] when the fuel is used up. *)
Fixpoint search_names (fuel : nat) (pFunctionName : list Z) (pNameTable low middle high : Z)
    : outcome (option (Z * Z * Z)) :=
  match fuel with
  | O => Ok None
  | S fuel =>
      if negb (low <=? high) || (s32 high <? 0) then Ok (Some (low, middle, high))
      else
        let middle := Z.shiftr (u32 (low + high)) 1 in
        and_then (CaptureValue32 pNameTable middle) (fun functionNameOffset =>
        and_then (ValidateVirtualAddress functionNameOffset) (fun pFunctionPointer =>
        and_then (compare_name pFunctionName pFunctionPointer) (fun compareResult =>
          if compareResult =? 0 then Ok (Some (low, middle, high))
          else if 0 <? compareResult then search_names fuel pFunctionName pNameTable (u32 (middle + 1)) middle high
          else search_names fuel pFunctionName pNameTable low middle (u32 (middle - 1)))))
  end.

(** The loop halves [high - low], a number of 32 bits. *)
Definition search_fuel : nat := 34.

(** The ordinal of the name. *)
Definition find_name (pFunctionName : list Z) (pNameTable pNameOrdinalTable NumberOfNames : Z) : outcome Z :=
  if NumberOfNames =? 0 then Err DI_ERROR
  else
    and_then (search_names search_fuel pFunctionName pNameTable 0 0 (u32 (NumberOfNames - 1))) (fun found =>
      match found with
      | None => Crash
      | Some (low, middle, high) =>
          if s32 high <? s32 low then Err DI_NOT_FOUND else CaptureValue16 pNameOrdinalTable middle
      end).

(** [*pFunctionOffset] and [*pForwardInformationOffset], which the caller wants. *)
Definition DianaPeFile_GetProcAddressEx (pPeFile : Diana_PeFile) (pFunctionName : list Z) (ordinalIn : Z)
    : outcome (Z * Z) :=
  match pImpl pPeFile with
  | None => Crash
  | Some pe =>
      let d := directory pe DIANA_IMAGE_DIRECTORY_ENTRY_EXPORT in
      if negb (Z.land (pe_flags pPeFile) DIANA_PE_FILE_FLAGS_FILE_MODE =? 0) then Err DI_INVALID_INPUT
      else if (d_VirtualAddress d =? 0) || (d_Size d =? 0) then Err DI_NOT_FOUND
      else if moduleSize <? d_VirtualAddress d then Err DI_ERROR
      else if moduleSize <? d_Size d then Err DI_ERROR
      else if moduleSize - d_Size d <? d_VirtualAddress d then Err DI_ERROR
      else
        let field k := load (d_VirtualAddress d + k) 4 in
        and_then (field 24) (fun NumberOfNames =>
        and_then (field 28) (fun AddressOfFunctions =>
        and_then (ValidateVirtualAddress AddressOfFunctions) (fun pFunctionsTable =>
        and_then
          (if ordinalIn =? DIANA_PE_INVALID_ORDINAL_VALUE then
             and_then (and_then (field 32) ValidateVirtualAddress) (fun pNameTable =>
             and_then (and_then (field 36) ValidateVirtualAddress) (fun pNameOrdinalTable =>
               find_name pFunctionName pNameTable pNameOrdinalTable NumberOfNames))
           else Ok ordinalIn) (fun ordinal =>
        and_then (CaptureValue32 pFunctionsTable ordinal) (fun functionOffset =>
          if (d_VirtualAddress d <=? functionOffset) && (functionOffset <? u32 (d_VirtualAddress d + d_Size d))
          then Ok (0, functionOffset)
          else Ok (functionOffset, 0))))))
  end.

Definition DianaPeFile_GetProcAddress (pPeFile : Diana_PeFile) (pFunctionName : list Z) : outcome (Z * Z) :=
  DianaPeFile_GetProcAddressEx pPeFile pFunctionName DIANA_PE_INVALID_ORDINAL_VALUE.
End Exports.
