(* ===== verification/PeProofs.v ===== *)
(** PE files: the headers lie inside of the file, mapping builds the image that the section table
    describes, and relocations change what they point at and nothing else. *)

From Stdlib Require Import ZArith Lia List Bool.
Import ListNotations.
From S2P Require Import Prelude Words Status DecTypes DecStreams MemStreams DecBufferProofs CopyStreams PeFile.
Local Open Scope Z_scope.
Local Open Scope diana_scope.

#[local] Arguments buf_bytes : simpl never.
#[local] Arguments buf_update : simpl never.

(** ** Memory that is written and read back *)

Definition bytes_at (u : DianaMemoryStream) (address n : Z) : list Z :=
  buf_bytes (pBuffer u) (address - addressDifference u) n.

Lemma read_exactly_ok u address n : writable_ok u -> 0 < n -> inside u address n ->
  read_exactly address n u = (Ok (bytes_at u address n), u).
Proof.
  intros [Hw Hb Hi Hd] Hn (H1 & H2). unfold read_exactly, pRandomReadBack, memory_write_stream.
  unfold DianaMemoryStream_RandomRead_V, random_offset, Translate.
  destruct (Z.ltb_spec address (addressDifference u)); [lia|]. cbn [negb Z.eqb DI_SUCCESS].
  set (off := address - addressDifference u) in *.
  destruct (Z.leb_spec (bufferSize u) off); [lia|]. cbn [negb Z.eqb DI_SUCCESS].
  assert (Es : size_to_give u off n = n).
  { unfold size_to_give. rewrite u64_small by lia. unfold s32, u32. rewrite Z.mod_small by lia.
    destruct (Z.ltb_spec (bufferSize u - off) 0x80000000); [|lia]. zcases; lia. }
  rewrite Es, buf_bytes_length, Z2Nat.id, Z.eqb_refl by lia. reflexivity.
Qed.

(** A short read is an error. *)
Lemma read_exactly_inv u address n o u' : writable_ok u -> 0 < n -> read_exactly address n u = (o, u') ->
  u' = u /\ (o = Ok (bytes_at u address n) /\ inside u address n \/ exists c, o = Err c).
Proof.
  intros Hu Hn E.
  destruct (Z_le_dec (addressDifference u) address) as [L|L];
    [destruct (Z_le_dec (address - addressDifference u + n) (bufferSize u)) as [R|R]|].
  - rewrite (read_exactly_ok u address n Hu Hn (conj L R)) in E. injection E as <- <-. split; [reflexivity|].
    left. split; [reflexivity|now split].
  - revert E. destruct Hu as [Hw Hb Hi Hd]. unfold read_exactly, pRandomReadBack, memory_write_stream.
    unfold DianaMemoryStream_RandomRead_V, random_offset, Translate.
    destruct (Z.ltb_spec address (addressDifference u)); [lia|]. cbn [negb Z.eqb DI_SUCCESS].
    set (off := address - addressDifference u) in *.
    destruct (Z.leb_spec (bufferSize u) off); cbn [negb Z.eqb DI_SUCCESS DI_END_OF_STREAM].
    { intros [= <- <-]. split; [reflexivity|]. right. now eexists. }
    assert (Es : size_to_give u off n = bufferSize u - off).
    { unfold size_to_give. rewrite u64_small by lia. unfold s32, u32. rewrite Z.mod_small by lia.
      destruct (Z.ltb_spec (bufferSize u - off) 0x80000000); [|lia]. zcases; lia. }
    rewrite Es, buf_bytes_length, Z2Nat.id by lia. destruct (Z.eqb_spec (bufferSize u - off) n); [lia|].
    cbn [negb]. intros [= <- <-]. split; [reflexivity|]. right. now eexists.
  - revert E. unfold read_exactly, pRandomReadBack, memory_write_stream.
    unfold DianaMemoryStream_RandomRead_V, random_offset, Translate.
    destruct (Z.ltb_spec address (addressDifference u)); [|lia]. cbn [negb Z.eqb DI_SUCCESS DI_END_OF_STREAM].
    intros [= <- <-]. split; [reflexivity|]. right. now eexists.
Qed.

Lemma bytes_at_length u address n : writable_ok u -> 0 <= n -> inside u address n ->
  length (bytes_at u address n) = Z.to_nat n.
Proof. intros [Hw Hb Hi Hd] Hn (H1 & H2). apply buf_bytes_length; lia. Qed.

Lemma inside_written u address bs address' n : inside (written u address bs) address' n <-> inside u address' n.
Proof. reflexivity. Qed.

Lemma written_same u address bs : writable_ok u -> inside u address (Z.of_nat (length bs)) ->
  bytes_at (written u address bs) address (Z.of_nat (length bs)) = bs.
Proof.
  intros [Hw Hb Hi Hd] (H1 & H2). unfold bytes_at, written. cbn. apply (list_ext_nth _ _ 0).
  - rewrite buf_bytes_length; rewrite ?buf_update_length; lia.
  - intros i L. rewrite buf_bytes_length in L by (rewrite ?buf_update_length; lia).
    rewrite buf_bytes_nth by lia. rewrite buf_update_nth by lia.
    zcases; cbn [andb]; try lia. f_equal. lia.
Qed.

Lemma written_elsewhere u address bs address' n : writable_ok u -> 0 <= n ->
  inside u address (Z.of_nat (length bs)) -> inside u address' n ->
  address' + n <= address \/ address + Z.of_nat (length bs) <= address' ->
  bytes_at (written u address bs) address' n = bytes_at u address' n.
Proof.
  intros [Hw Hb Hi Hd] Hn (H1 & H2) (H3 & H4) Hdis. unfold bytes_at, written. cbn. apply buf_bytes_ext; try lia.
  - rewrite buf_update_length; lia.
  - rewrite buf_update_length; lia.
  - intros i L. rewrite buf_update_nth by lia. zcases; cbn [andb]; try lia; reflexivity.
Qed.

(** ** Reading the headers *)

Section Headers.
Variables (file : list Z) (size : Z).

Abbreviation T := DianaMemoryStream.

Definition at_offset (off : Z) (t : T) : Prop := memory_ok file size t /\ curSize t = off.

Lemma file_move_run t off : memory_ok file size t -> 0 <= off ->
  if off <? size then exists t', file_move off t = (Ok tt, t') /\ at_offset off t'
  else file_move off t = (Err DI_END_OF_STREAM, t).
Proof.
  intros [E1 E2 E3 E4 E5 E6] H0. unfold file_move, pMoveTo, memory_movable, DianaMovableReadStreamOverMemory_MoveTo.
  rewrite E2. destruct (Z.ltb_spec off size); destruct (Z.leb_spec size off); try lia; cbn.
  - eexists. split; [reflexivity|]. split; [|reflexivity]. constructor; cbn; auto. lia.
  - reflexivity.
Qed.

Lemma exact_read_run t off n : at_offset off t -> 0 <= n ->
  if off + n <=? size
  then exists t', DianaExactRead n t = (Ok (buf_bytes file off n), t') /\ at_offset (off + n) t'
  else exists t', DianaExactRead n t = (Err DI_END_OF_STREAM, t') /\ memory_ok file size t'.
Proof.
  intros (Ht & <-) Hn. unfold DianaExactRead, DianaRead, memory_read_stream, MemoryStream_Read.
  rewrite (size_to_give_ok file size t n Ht). destruct Ht as [E1 E2 E3 E4 E5 E6]. rewrite E1.
  cbn [negb Z.eqb DI_SUCCESS]. rewrite buf_bytes_length by lia.
  destruct (Z.leb_spec (curSize t + n) size).
  - replace (Z.min n (size - curSize t)) with n by lia. rewrite Z2Nat.id, Z.eqb_refl by lia. cbn [negb].
    eexists. split; [reflexivity|]. split; [|reflexivity]. constructor; cbn; auto; lia.
  - destruct (Z.eqb_spec (Z.of_nat (Z.to_nat (Z.min n (size - curSize t)))) n); [lia|]. cbn [negb].
    eexists. split; [reflexivity|]. constructor; cbn; auto; lia.
Qed.

(** *** What a file must look like *)

Lemma load_inside off n k m : 0 <= k -> 0 <= m -> k + m <= n -> 0 <= off ->
  buf_load (buf_bytes file off n) k m = buf_load file (off + k) m.
Proof.
  intros. unfold buf_load, buf_bytes. f_equal. rewrite skipn_firstn_comm, firstn_firstn, skipn_skipn.
  f_equal; [lia|]. f_equal. lia.
Qed.

Lemma bytes_inside off n k m : 0 <= k -> 0 <= m -> k + m <= n -> 0 <= off ->
  buf_bytes (buf_bytes file off n) k m = buf_bytes file (off + k) m.
Proof.
  intros. unfold buf_bytes. rewrite skipn_firstn_comm, firstn_firstn, skipn_skipn. f_equal; [lia|]. f_equal. lia.
Qed.

Definition optional_size (wide : bool) : Z :=
  if wide then sizeof_DIANA_IMAGE_OPTIONAL_HEADER64 else sizeof_DIANA_IMAGE_OPTIONAL_HEADER32.
Definition section_at (off : Z) : DIANA_IMAGE_SECTION_HEADER :=
  mkDIANA_IMAGE_SECTION_HEADER (buf_bytes file off 8) (buf_load file (off + 8) 4) (buf_load file (off + 12) 4)
    (buf_load file (off + 16) 4) (buf_load file (off + 20) 4).
Definition directories_at (off : Z) : list DIANA_IMAGE_DATA_DIRECTORY :=
  map (fun k => mkDIANA_IMAGE_DATA_DIRECTORY (buf_load file (off + 8 * Z.of_nat k) 4)
                  (buf_load file (off + 8 * Z.of_nat k + 4) 4)) (seq 0 16).

(** The headers of the file, at their documented offsets: [l] is where the new header starts, [wide] whether
    its optional header is the one of 64 bits. *)
Record pe_headers (sizeOfFile : Z) (pe : Diana_PeFile_impl) (l : Z) (wide : bool) : Prop := {
  ph_lfanew : e_lfanew (dosHeader pe) = l /\ l = s32 (buf_load file 60 4) /\ 0 <= l;
  ph_magic : 64 <= size /\ nth 0 file 0 = 0x4D /\ nth 1 file 0 = 0x5A;
  ph_size : sizeOfFile = 0 \/ 64 < sizeOfFile /\ l + 24 < sizeOfFile;
  ph_signature : l + 24 <= size /\ buf_bytes file l 3 = [0x50; 0x45; 0];
  ph_machine : machine_kind (buf_load file (l + 4) 2) = Some (dianaMode pe, pe_arch pe, wide);
  ph_optional : optionalHeaderSize pe = optional_size wide /\ l + 24 + optional_size wide < size;
  ph_entry : addressOfEntryPoint pe = buf_load file (l + 24 + 16) 4;
  ph_base : imageBase pe = if wide then buf_load file (l + 24 + 24) 8 else buf_load file (l + 24 + 28) 4;
  ph_headers : sizeOfHeaders pe = buf_load file (l + 24 + 60) 4;
  ph_directories : pImageDataDirectoryArray pe = directories_at (l + 24 + (if wide then 112 else 96));
  ph_sections :
    let count := buf_load file (l + 6) 2 in
    let table := l + 24 + optional_size wide in
    table + 40 * count <= size /\
    pCapturedSections pe = map (fun k => section_at (table + 40 * Z.of_nat k)) (seq 0 (Z.to_nat count));
  ph_module : sizeOfModule pe = module_size (pCapturedSections pe);
  ph_file : sizeOfInitialFile pe = sizeOfFile
}.

Lemma signature_compared s : length s = 4%nat ->
  exists c, strncmp s [0x50; 0x45; 0] 3 = Some c /\ (c = 0 <-> firstn 3 s = [0x50; 0x45; 0]).
Proof.
  destruct s as [|x [|y [|z [|w [|]]]]]; intros [= ]; try discriminate. cbn [strncmp firstn].
  destruct (Z.eqb_spec x 0x50) as [->|N1]; cbn [Z.eqb Pos.eqb];
    [|exists (x - 0x50); split; [reflexivity|]; split; [lia|intros [= ]; lia]].
  destruct (Z.eqb_spec y 0x45) as [->|N2]; cbn [Z.eqb Pos.eqb];
    [|exists (y - 0x45); split; [reflexivity|]; split; [lia|intros [= ]; lia]].
  destruct (Z.eqb_spec z 0) as [->|N3]; cbn [Z.eqb Pos.eqb];
    [|exists (z - 0); split; [reflexivity|]; split; [lia|intros [= ]; lia]].
  exists 0. now split.
Qed.

Lemma verify_dos_spec sizeOfFile dos : e_magic dos = buf_bytes file 0 2 -> 0 <= size -> 2 <= Z.of_nat (length file) ->
  0 <= sizeOfFile < 2 ^ 63 -> - 2 ^ 31 <= e_lfanew dos < 2 ^ 31 ->
  (Diana_VerifyDosHeader dos sizeOfFile = DI_SUCCESS <->
   nth 0 file 0 = 0x4D /\ nth 1 file 0 = 0x5A /\
   (sizeOfFile = 0 \/ 64 < sizeOfFile /\ 0 <= e_lfanew dos /\ e_lfanew dos + 24 < sizeOfFile)) /\
  (Diana_VerifyDosHeader dos sizeOfFile = DI_SUCCESS \/ Diana_VerifyDosHeader dos sizeOfFile = DI_INVALID_INPUT).
Proof.
  intros Em Hs Hf Hz He. unfold Diana_VerifyDosHeader. rewrite Em.
  rewrite !buf_bytes_nth by lia. cbn [Z.to_nat Nat.add].
  unfold sizeof_DIANA_IMAGE_DOS_HEADER, sizeof_DIANA_IMAGE_NT_HEADERS.
  destruct (Z.eqb_spec sizeOfFile 0) as [->|N0]; cbn [negb andb].
  - destruct (Z.eqb_spec (nth 0 file 0) 0x4D), (Z.eqb_spec (nth 1 file 0) 0x5A); cbn [negb orb];
      (split; [split; [auto|tauto]|auto]); intros D; discriminate D.
  - destruct (Z.leb_spec sizeOfFile 64).
    { split; [split; [intros D; discriminate D|lia]|auto]. }
    destruct (Z.eqb_spec (nth 0 file 0) 0x4D), (Z.eqb_spec (nth 1 file 0) 0x5A); cbn [negb orb];
      try (split; [split; [intros D; discriminate D|tauto]|auto]).
    assert (Eu : u64 (e_lfanew dos) = if e_lfanew dos <? 0 then e_lfanew dos + 2 ^ 64 else e_lfanew dos).
    { unfold u64. destruct (Z.ltb_spec (e_lfanew dos) 0); [|apply Z.mod_small; lia].
      rewrite <- (Z_mod_plus_full _ 1), Z.mod_small by lia. lia. }
    rewrite Eu. destruct (Z.ltb_spec (e_lfanew dos) 0).
    { destruct (Z.leb_spec sizeOfFile (e_lfanew dos + 2 ^ 64)); [|lia].
      split; [split; [intros D; discriminate D|lia]|auto]. }
    destruct (Z.leb_spec sizeOfFile (e_lfanew dos)); [split; [split; [intros D; discriminate D|lia]|auto]|].
    rewrite u64_small by lia.
    destruct (Z.leb_spec (sizeOfFile - e_lfanew dos) 24); [split; [split; [intros D; discriminate D|lia]|auto]|].
    split; [split; [intros _; repeat split; auto; lia|auto]|auto].
Qed.

Lemma directories_here off d n : 0 <= off -> 0 <= d -> d + 128 <= n ->
  data_directories (buf_bytes file off n) d = directories_at (off + d).
Proof.
  intros H0 Hd Hn. unfold data_directories, directories_at. apply map_ext_in. intros k Hk. apply in_seq in Hk.
  unfold DIANA_IMAGE_NUMBEROF_DIRECTORY_ENTRIES in Hk. cbv zeta.
  rewrite !load_inside by lia. do 2 f_equal; lia.
Qed.

Lemma sections_here off count : 0 <= off -> 0 <= count ->
  section_headers count (buf_bytes file off (40 * count)) =
  map (fun k => section_at (off + 40 * Z.of_nat k)) (seq 0 (Z.to_nat count)).
Proof.
  intros H0 Hc. unfold section_headers, sizeof_DIANA_IMAGE_SECTION_HEADER. apply map_ext_in. intros k Hk.
  apply in_seq in Hk. unfold section_header, section_at. rewrite !load_inside, bytes_inside by lia.
  f_equal; f_equal; lia.
Qed.

(** The optional header at [off]. *)
Definition optional_at (off : Z) (wide : bool) : OptionalHeader :=
  mkOptionalHeader (buf_load file (off + 16) 4)
    (if wide then buf_load file (off + 24) 8 else buf_load file (off + 28) 4)
    (buf_load file (off + 60) 4) (directories_at (off + (if wide then 112 else 96))).

Lemma read_optional_run nt off t : at_offset off t -> length (Signature nt) = 4%nat -> 0 <= off ->
  match machine_kind (Machine nt) with
  | Some (mode, arch, wide) =>
      if (off + optional_size wide <=? size) && (if list_eq_dec Z.eq_dec (firstn 3 (Signature nt)) [0x50; 0x45; 0]
                                                then true else false)
      then exists t', ReadOptionalHeader nt t = (Ok (optional_at off wide, optional_size wide, mode, arch), t') /\
                      at_offset (off + optional_size wide) t'
      else exists c t', ReadOptionalHeader nt t = (Err c, t')
  | None => exists c t', ReadOptionalHeader nt t = (Err c, t')
  end.
Proof.
  intros Ht Hl H0. unfold ReadOptionalHeader. destruct (signature_compared _ Hl) as (c & -> & Ec).
  destruct (list_eq_dec Z.eq_dec (firstn 3 (Signature nt)) [0x50; 0x45; 0]) as [E|N].
  - apply Ec in E as ->. destruct (machine_kind (Machine nt)) as [[[mode arch] wide]|].
    + rewrite andb_true_r. pose proof (exact_read_run t off (optional_size wide) Ht ltac:(destruct wide; discriminate)) as R.
      destruct wide; cbn [optional_size] in *; unfold DI_InitAmd64, DI_Init386;
        (destruct (_ <=? size);
          [destruct R as (t' & R & Ht'); exists t'; split; [|exact Ht']; mred; mrun R; mred; unfold ret
          |destruct R as (t' & R & _); do 2 eexists; mred; rewrite (bind_err _ _ _ _ _ R); reflexivity]);
        (unfold optional_at, optional_header64, optional_header32, offsetof_ImageBase64, offsetof_ImageBase32;
         rewrite !load_inside, directories_here by (unfold sizeof_DIANA_IMAGE_OPTIONAL_HEADER64,
           sizeof_DIANA_IMAGE_OPTIONAL_HEADER32; lia); reflexivity).
    + do 2 eexists. reflexivity.
  - assert (Nc : c <> 0) by (intros E; now apply N, Ec).
    assert (F : exists c' t', (match c with 0 => match machine_kind (Machine nt) with
        | Some (mode, arch, true) => let! opt := DI_InitAmd64 in ret (opt, sizeof_DIANA_IMAGE_OPTIONAL_HEADER64, mode, arch)
        | Some (mode, arch, false) => let! opt := DI_Init386 in ret (opt, sizeof_DIANA_IMAGE_OPTIONAL_HEADER32, mode, arch)
        | None => fail DI_UNSUPPORTED_COMMAND end | _ => fail DI_INVALID_INPUT end) t = (Err c', t')).
    { destruct c; [contradiction| |]; do 2 eexists; reflexivity. }
    destruct (machine_kind (Machine nt)) as [[[mode arch] wide]|]; rewrite ?andb_false_r; exact F.
Qed.

Lemma buf_load_u32 off : memory_ok file size (Diana_InitMemoryStream file size) -> 0 <= off -> off + 4 <= size ->
  0 <= buf_load file off 4 < 2 ^ 32.
Proof. intros [_ _ Hb Hs _ _] H0 H. apply (buf_load_range file off 4 Hb); lia. Qed.

Lemma buf_load_u16 off : memory_ok file size (Diana_InitMemoryStream file size) -> 0 <= off -> off + 2 <= size ->
  0 <= buf_load file off 2 < 2 ^ 16.
Proof. intros [_ _ Hb Hs _ _] H0 H. apply (buf_load_range file off 2 Hb); lia. Qed.

Lemma memory_ok_start t : memory_ok file size t -> memory_ok file size (Diana_InitMemoryStream file size).
Proof. intros [E1 E2 E3 E4 E5 E6]. constructor; cbn; auto; lia. Qed.

(** [refused]: no headers are there, by what [pe_headers] says of the one that failed. *)
Ltac refused := intros pe l' wide' [(_ & Pl & Pp) (P64 & Pm1 & Pm2) Pz (P24 & Psig) Pmach (_ & Popt) _ _ _ _ (Psec & _) _ _];
  cbv zeta in Psec; try match goal with El : e_lfanew _ = s32 (buf_load file 60 4) |- _ => rewrite <- El in Pl; subst l' end.

Lemma init_impl_run sizeOfFile t : memory_ok file size t -> 0 <= sizeOfFile < 2 ^ 63 ->
  match Diana_InitPeFileImpl (true, true) sizeOfFile t with
  | (Ok pe, t') => (exists l wide, pe_headers sizeOfFile pe l wide) /\ memory_ok file size t'
  | (Err _, t') => forall pe l wide, ~ pe_headers sizeOfFile pe l wide
  | (Crash, _) => False
  end.
Proof.
  intros Ht Hz. pose proof (memory_ok_start t Ht) as M0. pose proof Ht as [_ _ Hb Hfs Hi _].
  unfold Diana_InitPeFileImpl. cbn [fst snd negb].
  pose proof (file_move_run t 0 Ht (Z.le_refl 0)) as R. destruct (Z.ltb_spec 0 size) as [L0|L0].
  2: { rewrite (bind_err _ _ _ _ _ R). refused. lia. }
  destruct R as (t1 & R & A1). mrun R. clear R. unfold sizeof_DIANA_IMAGE_DOS_HEADER.
  pose proof (exact_read_run t1 0 64 A1 ltac:(lia)) as R. destruct (Z.leb_spec (0 + 64) size) as [L1|L1].
  2: { destruct R as (t2 & R & _). rewrite (bind_err _ _ _ _ _ R). refused. lia. }
  destruct R as (t2 & R & A2). mrun R. clear R. set (dos := dos_header (buf_bytes file 0 64)).
  assert (El : e_lfanew dos = s32 (buf_load file 60 4)).
  { unfold dos, dos_header. cbn [e_lfanew]. now rewrite load_inside by lia. }
  assert (Em : e_magic dos = buf_bytes file 0 2).
  { unfold dos, dos_header. cbn [e_magic]. now rewrite bytes_inside by lia. }
  pose proof (s32_range (buf_load file 60 4)) as Rl. rewrite <- El in Rl.
  destruct (verify_dos_spec sizeOfFile dos Em ltac:(lia) ltac:(lia) Hz ltac:(lia)) as (Hv & Hvs). cbv zeta. unfold check.
  destruct (Z.eqb_spec (Diana_VerifyDosHeader dos sizeOfFile) DI_SUCCESS) as [Ev|Nv].
  2: { mred. refused. apply Nv, Hv. split; [auto|]. split; [auto|]. destruct Pz; lia. }
  mred. pose proof (proj1 Hv Ev) as (V1 & V2 & V3).
  assert (Hu : 0 <= u64 (e_lfanew dos)) by apply u64_range.
  pose proof (file_move_run t2 (u64 (e_lfanew dos)) (proj1 A2) Hu) as R.
  destruct (Z.ltb_spec (u64 (e_lfanew dos)) size) as [L2|L2].
  2: { rewrite (bind_err _ _ _ _ _ R). refused. rewrite u64_small in L2 by lia. lia. }
  assert (Hl : 0 <= e_lfanew dos).
  { destruct (Z_lt_dec (e_lfanew dos) 0) as [N|]; [|lia]. exfalso. revert L2. unfold u64.
    rewrite <- (Z_mod_plus_full _ 1), Z.mod_small by lia. lia. }
  rewrite u64_small in * by lia. destruct R as (t3 & R & A3). mrun R. clear R.
  unfold sizeof_DIANA_IMAGE_NT_HEADERS.
  pose proof (exact_read_run t3 _ 24 A3 ltac:(lia)) as R. destruct (Z.leb_spec (e_lfanew dos + 24) size) as [L3|L3].
  2: { destruct R as (t4 & R & _). rewrite (bind_err _ _ _ _ _ R). refused. lia. }
  destruct R as (t4 & R & A4). mrun R. clear R. set (nt := nt_headers (buf_bytes file (e_lfanew dos) 24)).
  assert (Es : Signature nt = buf_bytes file (e_lfanew dos) 4).
  { unfold nt, nt_headers. cbn [Signature]. rewrite bytes_inside by lia. f_equal. lia. }
  assert (Ls : length (Signature nt) = 4%nat) by (rewrite Es, buf_bytes_length; lia).
  assert (Es3 : firstn 3 (Signature nt) = buf_bytes file (e_lfanew dos) 3).
  { rewrite Es. unfold buf_bytes. now rewrite firstn_firstn. }
  assert (Emach : Machine nt = buf_load file (e_lfanew dos + 4) 2)
    by (unfold nt, nt_headers; cbn [Machine]; now rewrite load_inside by lia).
  assert (En : NumberOfSections nt = buf_load file (e_lfanew dos + 6) 2)
    by (unfold nt, nt_headers; cbn [NumberOfSections]; now rewrite load_inside by lia).
  pose proof (buf_load_u16 (e_lfanew dos + 6) M0 ltac:(lia) ltac:(lia)) as Rn. rewrite <- En in Rn.
  pose proof (read_optional_run nt (e_lfanew dos + 24) t4 A4 Ls ltac:(lia)) as R. rewrite Es3 in R.
  destruct (machine_kind (Machine nt)) as [[[mode arch] wide]|] eqn:Ek.
  2: { destruct R as (c & t5 & R). rewrite (bind_err _ _ _ _ _ R). refused. congruence. }
  destruct (Z.leb_spec (e_lfanew dos + 24 + optional_size wide) size) as [L4|L4]; cbn [andb] in R.
  2: { destruct R as (c & t5 & R). rewrite (bind_err _ _ _ _ _ R). refused.
       rewrite <- Emach, Ek in Pmach. injection Pmach as _ _ <-. lia. }
  destruct (list_eq_dec Z.eq_dec (buf_bytes file (e_lfanew dos) 3) [0x50; 0x45; 0]) as [E3|N3].
  2: { destruct R as (c & t5 & R). rewrite (bind_err _ _ _ _ _ R). refused. contradiction. }
  destruct R as (t5 & R & A5). mrun R. clear R.
  assert (Ho : 0 < optional_size wide <= 240) by (destruct wide; cbn; unfold sizeof_DIANA_IMAGE_OPTIONAL_HEADER64,
    sizeof_DIANA_IMAGE_OPTIONAL_HEADER32; lia).
  rewrite s32_small by lia. rewrite u64_small by lia.
  pose proof (file_move_run t5 (e_lfanew dos + 24 + optional_size wide) (proj1 A5) ltac:(lia)) as R.
  destruct (Z.ltb_spec (e_lfanew dos + 24 + optional_size wide) size) as [L5|L5].
  2: { rewrite (bind_err _ _ _ _ _ R). refused. rewrite <- Emach, Ek in Pmach. injection Pmach as _ _ <-. lia. }
  destruct R as (t6 & R & A6). mrun R. clear R. unfold sizeof_DIANA_IMAGE_SECTION_HEADER.
  replace (NumberOfSections nt * 40) with (40 * NumberOfSections nt) by lia.
  pose proof (exact_read_run t6 _ (40 * NumberOfSections nt) A6 ltac:(lia)) as R.
  destruct (Z.leb_spec (e_lfanew dos + 24 + optional_size wide + 40 * NumberOfSections nt) size) as [L6|L6].
  2: { destruct R as (t7 & R & _). rewrite (bind_err _ _ _ _ _ R). refused.
       rewrite <- Emach, Ek in Pmach. injection Pmach as _ _ <-. lia. }
  destruct R as (t7 & R & A7). mrun R. clear R. unfold ret. split; [|apply A7].
  exists (e_lfanew dos), wide. rewrite sections_here by lia. clearbody dos nt.
  constructor; cbv zeta; cbn [dosHeader ntHeaders pCapturedSections dianaMode sizeOfModule sizeOfInitialFile
    optionalHeaderSize addressOfEntryPoint pImageDataDirectoryArray sizeOfHeaders imageBase pe_arch optional_at
    AddressOfEntryPoint ImageBase SizeOfHeaders DataDirectory]; rewrite <- ?En, <- ?Emach; auto.
  destruct V3; [now left|right; lia].
Qed.
End Headers.

(** ** Copies to memory *)

Lemma to_the_end_inv {St} (m : nat -> M St (option unit)) n s o s' : m (S (Z.to_nat n)) s = (o, s') ->
  to_the_end m n s =
    (match o with Ok (Some _) => Ok tt | Ok None => Crash | Err c => Err c | Crash => Crash end, s').
Proof. unfold to_the_end, bind. intros ->. destruct o as [[x|]|c|]; reflexivity. Qed.

Lemma written_length u address bs : pBuffer (written u address bs) = buf_update (pBuffer u) (address - addressDifference u) bs.
Proof. reflexivity. Qed.

Section Map.
Variables (file : list Z) (size pageSize : Z).
Hypothesis page : 0 < pageSize < 2 ^ 31.


Lemma content_at off t : at_offset file size off t -> memory_content t = buf_bytes file off (size - off).
Proof. intros ([E1 E2 E3 E4 E5 E6] & <-). unfold memory_content. now rewrite E1, E2. Qed.

Lemma memory_stream_delivers : delivers (T := DianaMemoryStream) (H0 := memory_read_ok file size).
Proof.
  intros t n Ht Hn. change (content t) with (memory_content t) in Hn.
  rewrite (memory_content_length file size t Ht) in Hn.
  unfold DianaRead, memory_read_stream, MemoryStream_Read. rewrite (size_to_give_ok file size t n Ht).
  do 2 eexists. split; [reflexivity|]. destruct Ht as [E1 E2 E3 E4 E5 E6]. rewrite E1, buf_bytes_length by lia. lia.
Qed.

Lemma copy_to_run off t u address n : at_offset file size off t -> writable_ok u -> 0 <= off -> 0 <= address -> 0 < n ->
  match copy_to address n pageSize (t, u) with
  | (Ok _, (t', u')) =>
      memory_ok file size t' /\ u' = written u address (buf_bytes file off n) /\
      off + n <= size /\ inside u address n /\ address + n < 2 ^ 64
  | (Err _, _) => ~ (off + n <= size /\ inside u address n /\ address + n < 2 ^ 64)
  | (Crash, _) => False
  end.
Proof.
  intros Ht Hu H0 Ha Hn. unfold copy_to. destruct (DianaStreams_CopyData (S (Z.to_nat n)) address n pageSize (t, u)) as [o s'] eqn:E.
  rewrite (to_the_end_inv _ _ _ o s' E). revert E. unfold DianaStreams_CopyData, Diana_SafeAdd.
  destruct (Z.ltb_spec (0xFFFFFFFFFFFFFFFF - address) n); [intros [= <- <-]; lia|]. intros E.
  pose proof (copy_loop_ok (H0 := memory_read_ok file size) pageSize page (S (Z.to_nat n)) address n t u (proj1 Ht) Hu Ha
    ltac:(lia) ltac:(lia) ltac:(lia)) as C.
  rewrite E in C. destruct s' as [t' u']. destruct C as (Ht' & bs & gap & Ec & -> & Hin & Ho).
  change (content t) with (memory_content t) in Ec. change (content t') with (memory_content t') in Ec.
  pose proof Ht as ([E1 E2 E3 E4 E5 E6] & Eo).
  assert (L : Z.of_nat (length bs) + Z.of_nat (length gap) <= size - off).
  { apply (f_equal (@length Z)) in Ec. rewrite !length_app, (content_at off t Ht), buf_bytes_length in Ec by lia. lia. }
  destruct o as [[x|]|c|]; try contradiction.
  - destruct Ho as (Lb & ->). split; [exact Ht'|].
    assert (Eb : bs = buf_bytes file off n).
    { rewrite (content_at off t Ht) in Ec. unfold buf_bytes in *.
      apply (f_equal (firstn (Z.to_nat n))) in Ec. rewrite firstn_firstn in Ec.
      rewrite Nat.min_l in Ec by lia. cbn [app] in Ec. rewrite firstn_app_exact in Ec by lia. now symmetry. }
    rewrite <- Eb. split; [reflexivity|]. split; [lia|]. split; [|lia].
    rewrite <- Lb. apply Hin. intros ->. cbn in Lb. lia.
  - intros (P1 & P2 & P3).
    pose proof (copy_loop_full (H0 := memory_read_ok file size) pageSize page (S (Z.to_nat n)) memory_stream_delivers
      address n t u (proj1 Ht) Hu Ha ltac:(lia) P3 ltac:(lia)) as F.
    change (content t) with (memory_content t) in F. rewrite (memory_content_length file size t (proj1 Ht)) in F.
    specialize (F ltac:(lia) P2). rewrite E in F. discriminate.
Qed.

Lemma zero_at_run t u address n : writable_ok u -> 0 <= address -> 0 < n ->
  match zero_at (T := DianaMemoryStream) address n pageSize (t, u) with
  | (Ok _, (t', u')) =>
      t' = t /\ u' = written u address (repeat 0 (Z.to_nat n)) /\ inside u address n /\ address + n < 2 ^ 64
  | (Err _, _) => ~ (inside u address n /\ address + n < 2 ^ 64)
  | (Crash, _) => False
  end.
Proof.
  intros Hu Ha Hn. unfold zero_at, to_output.
  destruct (DianaStreams_MemsetData (S (Z.to_nat n)) address n 0 pageSize u) as [o u'] eqn:E.
  rewrite (to_the_end_inv _ _ _ o u' E). revert E. unfold DianaStreams_MemsetData, Diana_SafeAdd.
  destruct (Z.ltb_spec (0xFFFFFFFFFFFFFFFF - address) n); [intros [= <- <-]; lia|]. cbv zeta. change (u8 0) with 0.
  set (m := if n <? u64 pageSize then n else u64 pageSize). intros E.
  assert (Hm : Z.min n pageSize <= Z.of_nat (Z.to_nat m)) by (unfold m; rewrite u64_small by lia; zcases; lia).
  pose proof (memset_loop_ok pageSize 0 (Z.to_nat m) (S (Z.to_nat n)) page address n u Hu Ha ltac:(lia) ltac:(lia)
    ltac:(lia) Hm) as C. rewrite E in C. destruct C as ((k & -> & Hin & Ho) & Hok).
  destruct o as [[x|]|c|]; try contradiction.
  - split; [reflexivity|]. replace (Z.to_nat n) with k by lia. split; [reflexivity|]. split; [|lia].
    rewrite <- Ho. apply Hin. lia.
  - intros (P1 & P2). specialize (Hok P1). discriminate.
Qed.

(** *** One section *)

Record header_ok (h : DIANA_IMAGE_SECTION_HEADER) : Prop := {
  hk_virtual : 0 <= VirtualSize h < 2 ^ 32;
  hk_address : 0 <= VirtualAddress h < 2 ^ 32;
  hk_raw : 0 <= SizeOfRawData h < 2 ^ 32;
  hk_pointer : 0 <= PointerToRawData h < 2 ^ 32
}.

Lemma raw_size_range h : header_ok h -> 0 <= raw_size h <= virtual_size h.
Proof. intros [H1 H2 H3 H4]. unfold raw_size, virtual_size. zcases; lia. Qed.

(** A section in memory: what the file has of it, and zeros. *)
Definition section_image (h : DIANA_IMAGE_SECTION_HEADER) : list Z :=
  buf_bytes file (PointerToRawData h) (raw_size h) ++ repeat 0 (Z.to_nat (virtual_size h - raw_size h)).

Definition map_image (address : Z) (u : DianaMemoryStream) (h : DIANA_IMAGE_SECTION_HEADER) : DianaMemoryStream :=
  written u (address + VirtualAddress h) (section_image h).

Record section_fits (pe : Diana_PeFile_impl) (u : DianaMemoryStream) (address : Z) (h : DIANA_IMAGE_SECTION_HEADER) : Prop := {
  sf_raw : SizeOfRawData h <= sizeOfModule pe;
  sf_pointer : PointerToRawData h <= sizeOfModule pe;
  sf_file : 0 < raw_size h -> PointerToRawData h + raw_size h <= size;
  sf_memory : 0 < virtual_size h -> inside u (address + VirtualAddress h) (virtual_size h);
  sf_end : address + VirtualAddress h + virtual_size h < 2 ^ 64
}.

Lemma section_image_length h : header_ok h -> (0 < raw_size h -> PointerToRawData h + raw_size h <= size) ->
  size <= Z.of_nat (length file) -> Z.of_nat (length (section_image h)) = virtual_size h.
Proof.
  intros Hh Hf Hs. pose proof (raw_size_range h Hh) as R. destruct Hh as [H1 H2 H3 H4]. unfold section_image.
  rewrite length_app, repeat_length. destruct (Z.eq_dec (raw_size h) 0) as [->|N].
  - unfold buf_bytes. cbn [Z.to_nat firstn length]. lia.
  - rewrite buf_bytes_length by lia. lia.
Qed.

Lemma map_section_run pe address h t u : memory_ok file size t -> writable_ok u -> header_ok h -> 0 <= address ->
  match map_section pe address pageSize h (t, u) with
  | (Ok _, (t', u')) => memory_ok file size t' /\ u' = map_image address u h /\ section_fits pe u address h
  | (Err _, _) => ~ section_fits pe u address h
  | (Crash, _) => False
  end.
Proof.
  intros Ht Hu Hh Ha. pose proof (raw_size_range h Hh) as R. pose proof Hh as [H1 H2 H3 H4]. unfold map_section.
  destruct (Z.ltb_spec (sizeOfModule pe) (SizeOfRawData h)); [intros []; lia|].
  destruct (Z.ltb_spec (sizeOfModule pe) (PointerToRawData h)); cbn [orb]; [intros []; lia|]. cbv zeta.
  unfold safe_add, Diana_SafeAdd.
  destruct (Z.ltb_spec (0xFFFFFFFFFFFFFFFF - VirtualAddress h) address); [intros []; lia|]. mred.
  destruct (Z.ltb_spec (0xFFFFFFFFFFFFFFFF - (VirtualAddress h + address)) (raw_size h)); [intros []; lia|]. mred.
  rewrite (Z.add_comm (VirtualAddress h) address).
  assert (Hraw : exists o t1 u1,
    (when (negb (raw_size h =? 0)) (from_input (file_move (PointerToRawData h)) ;;;
       copy_to (address + VirtualAddress h) (raw_size h) pageSize)) (t, u) = (o, (t1, u1)) /\
    match o with
    | Ok _ => memory_ok file size t1 /\ u1 = written u (address + VirtualAddress h) (buf_bytes file (PointerToRawData h) (raw_size h)) /\
        (0 < raw_size h -> PointerToRawData h + raw_size h <= size /\ inside u (address + VirtualAddress h) (raw_size h))
    | Err _ => ~ section_fits pe u address h
    | Crash => False
    end).
  { unfold when. destruct (Z.eqb_spec (raw_size h) 0) as [E0|N0]; cbn [negb].
    - do 3 eexists. split; [reflexivity|]. split; [exact Ht|]. rewrite E0. split; [|lia].
      unfold buf_bytes. cbn [Z.to_nat firstn]. now rewrite written_nothing.
    - unfold from_input, bind. pose proof (file_move_run file size t (PointerToRawData h) Ht (proj1 H4)) as F.
      destruct (Z.ltb_spec (PointerToRawData h) size).
      + destruct F as (t1 & -> & A1).
        pose proof (copy_to_run _ t1 u (address + VirtualAddress h) (raw_size h) A1 Hu (proj1 H4) ltac:(lia) ltac:(lia)) as C.
        destruct (copy_to _ _ _ _) as [[x|c|] [t2 u2]]; do 3 eexists; (split; [reflexivity|]).
        * destruct C as (C1 & -> & C2 & C3 & _). auto.
        * intros [S1 S2 S3 S4 S5]. apply C. split; [apply S3; lia|]. split; [|lia].
          destruct (S4 ltac:(lia)). split; lia.
        * exact C.
      + rewrite F. do 3 eexists. split; [reflexivity|]. cbn. intros [S1 S2 S3 S4 S5]. lia. }
  destruct Hraw as (o & t1 & u1 & E & Ho). unfold bind at 1. rewrite E. destruct o as [x|c|]; [|exact Ho|exact Ho].
  destruct Ho as (Ht1 & -> & Hin). unfold when. set (u1 := written u _ _).
  assert (Hs : size <= Z.of_nat (length file)) by (destruct Ht; lia).
  assert (Lr : (0 < raw_size h -> PointerToRawData h + raw_size h <= size) ->
               Z.of_nat (length (buf_bytes file (PointerToRawData h) (raw_size h))) = raw_size h).
  { intros Hf. destruct (Z.eq_dec (raw_size h) 0) as [->|N0]; [reflexivity|].
    rewrite buf_bytes_length; lia. }
  assert (Lr' := Lr (fun p => proj1 (Hin p))).
  assert (Hu1 : writable_ok u1).
  { unfold u1. destruct (Z.eq_dec (raw_size h) 0) as [E0|N0].
    - replace (buf_bytes file (PointerToRawData h) (raw_size h)) with (@nil Z); [now rewrite written_nothing|].
      rewrite E0. reflexivity.
    - apply written_ok; [exact Hu|]. rewrite Lr'. apply Hin. lia. }
  destruct (Z.ltb_spec (raw_size h) (virtual_size h)) as [Lt|Ge].
  - pose proof (zero_at_run t1 u1 (address + VirtualAddress h + raw_size h) (virtual_size h - raw_size h) Hu1 ltac:(lia)
      ltac:(lia)) as C.
    destruct (zero_at _ _ _ _) as [[y|c|] [t2 u2]]; [| |exact C].
    + destruct C as (-> & -> & C1 & C2). split; [exact Ht1|].
      assert (Hall : inside u (address + VirtualAddress h) (virtual_size h)).
      { apply inside_written in C1. destruct C1 as (I1 & I2).
        destruct (Z.eq_dec (raw_size h) 0) as [E0|N0]; [rewrite E0 in *; split; lia|].
        destruct (Hin ltac:(lia)) as (_ & I3 & I4). split; lia. }
      split; [|constructor; auto; try lia; intros p; apply Hin; exact p].
      unfold map_image, section_image, u1. rewrite <- Lr' at 2. apply written_app; [exact Hu|].
      rewrite Nat2Z.inj_add, Lr', repeat_length, Z2Nat.id by lia.
      replace (raw_size h + (virtual_size h - raw_size h)) with (virtual_size h) by lia. exact Hall.
    + intros [S1 S2 S3 S4 S5]. apply C. split; [|lia]. apply inside_written. destruct (S4 ltac:(lia)). split; lia.
  - split; [exact Ht1|]. assert (Ev : virtual_size h = raw_size h) by lia. split.
    + unfold map_image, section_image, u1. rewrite Ev, Z.sub_diag. cbn [Z.to_nat repeat]. now rewrite app_nil_r.
    + constructor; try lia; rewrite ?Ev; intros p; now apply Hin.
Qed.

(** *** All of it *)

Lemma map_image_ok pe address u h : writable_ok u -> header_ok h -> size <= Z.of_nat (length file) ->
  section_fits pe u address h -> writable_ok (map_image address u h).
Proof.
  intros Hu Hh Hs [S1 S2 S3 S4 S5]. unfold map_image. pose proof (section_image_length h Hh S3 Hs) as L.
  destruct (section_image h) as [|b bs] eqn:E; [now rewrite written_nothing|].
  apply written_ok; [exact Hu|]. rewrite L. apply S4. rewrite <- L. cbn [length]. lia.
Qed.

Lemma map_sections_run pe address : 0 <= address -> forall hs t u, memory_ok file size t -> writable_ok u ->
  Forall header_ok hs ->
  match map_sections pe address pageSize hs (t, u) with
  | (Ok _, (t', u')) =>
      memory_ok file size t' /\ u' = fold_left (map_image address) hs u /\ writable_ok u' /\
      Forall (section_fits pe u address) hs
  | (Err _, _) => ~ Forall (section_fits pe u address) hs
  | (Crash, _) => False
  end.
Proof.
  intros Ha. induction hs as [|h hs IH]; intros t u Ht Hu Hh; cbn [map_sections].
  { cbn. auto. }
  inversion Hh as [|? ? Hh1 Hh2]; subst. unfold bind at 1.
  pose proof (map_section_run pe address h t u Ht Hu Hh1 Ha) as R.
  destruct (map_section _ _ _ _ _) as [[x|c|] [t1 u1]]; [| |exact R].
  - destruct R as (Ht1 & -> & Hf).
    assert (Hu1 := map_image_ok pe address u h Hu Hh1 ltac:(destruct Ht; lia) Hf).
    assert (Heq : forall h', section_fits pe (map_image address u h) address h' <-> section_fits pe u address h')
      by (intros h'; split; intros [S1 S2 S3 S4 S5]; constructor; auto).
    specialize (IH t1 (map_image address u h) Ht1 Hu1 Hh2).
    destruct (map_sections _ _ _ _ _) as [[y|c|] [t2 u2]]; [| |exact IH].
    + destruct IH as (I1 & I2 & I3 & I4). cbn [fold_left]. split; [exact I1|]. split; [exact I2|]. split; [exact I3|].
      constructor; [exact Hf|]. eapply Forall_impl; [|exact I4]. intros h'. apply Heq.
    + intros F. inversion F as [|? ? F1 F2]; subst. apply IH. eapply Forall_impl; [|exact F2]. intros h'. apply Heq.
  - intros F. inversion F. contradiction.
Qed.

(** The image of a file: its headers, then its sections, later ones over earlier ones. *)
Definition image (pe : Diana_PeFile_impl) (address : Z) (u : DianaMemoryStream) : DianaMemoryStream :=
  fold_left (map_image address) (pCapturedSections pe) (written u address (buf_bytes file 0 (sizeOfHeaders pe))).

(** The file has all that is to be mapped, none of it is larger than the module or starts behind its size in
    the file, and the memory has room for it. *)
Record mappable (pe : Diana_PeFile_impl) (address : Z) (u : DianaMemoryStream) : Prop := {
  mp_headers : 0 < sizeOfHeaders pe <= sizeOfModule pe /\ sizeOfHeaders pe <= size;
  mp_room : inside u address (sizeOfHeaders pe) /\ address + sizeOfHeaders pe < 2 ^ 64;
  mp_sections : Forall (section_fits pe u address) (pCapturedSections pe)
}.

Lemma MapEx_run malloc fuel pe pflags flags address t u :
  memory_ok file size t -> writable_ok u -> Forall header_ok (pCapturedSections pe) -> 0 <= sizeOfHeaders pe ->
  0 <= address -> 8 <= pageSize -> Z.land pflags DIANA_PE_FILE_FLAGS_FILE_MODE <> 0 ->
  (mappable pe address u /\
   (exists t', memory_ok file size t' /\
    DianaPeFile_MapEx malloc fuel (mkDiana_PeFile (Some pe) pflags) address pageSize flags (t, u) =
    if Z.land flags DIANA_PE_MAP_DO_NOT_RELOCATE =? 0
    then let (o, u') := DianaPeFile_Relocate malloc fuel pe address (image pe address u) in (o, (t', u'))
    else (Ok (Some tt), (t', image pe address u))) /\ writable_ok (image pe address u)) \/
  (~ mappable pe address u /\
   exists c s', DianaPeFile_MapEx malloc fuel (mkDiana_PeFile (Some pe) pflags) address pageSize flags (t, u) = (Err c, s')).
Proof.
  intros Ht Hu Hh Hs Ha Hp Hf. remember (DianaPeFile_MapEx _ _ _ _ _ _ _) as r eqn:E. revert E.
  unfold DianaPeFile_MapEx. cbn [pImpl pe_flags].
  destruct (Z.eqb_spec (Z.land pflags DIANA_PE_FILE_FLAGS_FILE_MODE) 0); [contradiction|].
  destruct (Z.eqb_spec (sizeOfHeaders pe) 0); cbn [orb].
  { intros ->. right. split; [intros [M1 M2 M3]; lia|]. do 2 eexists. reflexivity. }
  destruct (Z.ltb_spec (sizeOfModule pe) (sizeOfHeaders pe)).
  { intros ->. right. split; [intros [M1 M2 M3]; lia|]. do 2 eexists. reflexivity. }
  rewrite u64_small by lia. destruct (Z.ltb_spec pageSize 8); [lia|].
  pose proof (file_move_run file size t 0 Ht (Z.le_refl 0)) as F.
  destruct (Z.ltb_spec 0 size); unfold bind at 1, from_input.
  2: { rewrite F. intros ->. right. split; [intros [M1 M2 M3]; lia|]. do 2 eexists. reflexivity. }
  destruct F as (t1 & -> & A1). unfold bind at 1.
  pose proof (copy_to_run 0 t1 u address (sizeOfHeaders pe) A1 Hu (Z.le_refl 0) Ha ltac:(lia)) as C.
  destruct (copy_to _ _ _ _) as [[x|c|] [t2 u2]]; [| |contradiction].
  2: { intros ->. right. split; [intros [M1 M2 M3]; apply C; repeat split; try apply M2; lia|]. do 2 eexists. reflexivity. }
  destruct C as (Ht2 & -> & C1 & C2 & C3). set (u1 := written u address (buf_bytes file 0 (sizeOfHeaders pe))).
  assert (Lh : Z.of_nat (length (buf_bytes file 0 (sizeOfHeaders pe))) = sizeOfHeaders pe)
    by (destruct Ht; rewrite buf_bytes_length; lia).
  assert (Hu1 : writable_ok u1) by (apply written_ok; [exact Hu|now rewrite Lh]).
  unfold bind at 1. pose proof (map_sections_run pe address Ha (pCapturedSections pe) t2 u1 Ht2 Hu1 Hh) as R.
  assert (Heq : forall h, section_fits pe u1 address h <-> section_fits pe u address h)
    by (intros h; split; intros [S1 S2 S3 S4 S5]; constructor; auto).
  destruct (map_sections _ _ _ _ _) as [[y|c|] [t3 u3]]; [| |contradiction].
  - destruct R as (R1 & -> & R2 & R3). intros ->. left. split; [|split; [|exact R2]].
    + constructor; [lia|now split|]. eapply Forall_impl; [|exact R3]. intros h. apply Heq.
    + exists t3. split; [exact R1|]. destruct (Z.eqb_spec (Z.land flags DIANA_PE_MAP_DO_NOT_RELOCATE) 0); cbn [negb].
      * unfold to_output, image. fold u1. now destruct (DianaPeFile_Relocate _ _ _ _ _).
      * reflexivity.
  - intros ->. right. split; [|do 2 eexists; reflexivity]. intros [M1 M2 M3]. apply R. eapply Forall_impl; [|exact M3].
    intros h. apply Heq.
Qed.

(** *** What is where in the image *)

Definition in_memory (address : Z) (h : DIANA_IMAGE_SECTION_HEADER) : Z * Z := (address + VirtualAddress h, virtual_size h).
Definition ranges_apart (p q : Z * Z) : Prop := fst p + snd p <= fst q \/ fst q + snd q <= fst p.

Lemma map_image_elsewhere pe address u h a n : writable_ok u -> header_ok h -> size <= Z.of_nat (length file) ->
  section_fits pe u address h -> 0 < n -> inside u a n -> 0 < virtual_size h -> ranges_apart (in_memory address h) (a, n) ->
  bytes_at (map_image address u h) a n = bytes_at u a n.
Proof.
  intros Hu Hh Hs [S1 S2 S3 S4 S5] Hn Ha Hv Hd. pose proof (section_image_length h Hh S3 Hs) as L.
  unfold ranges_apart, in_memory in Hd. cbn [fst snd] in Hd.
  apply written_elsewhere; rewrite ?L; auto; lia.
Qed.

Lemma image_rest pe address a n : size <= Z.of_nat (length file) -> 0 < n -> forall hs u, writable_ok u -> Forall header_ok hs ->
  Forall (section_fits pe u address) hs -> Forall (fun h => 0 < virtual_size h) hs -> inside u a n ->
  Forall (fun h => ranges_apart (in_memory address h) (a, n)) hs ->
  bytes_at (fold_left (map_image address) hs u) a n = bytes_at u a n.
Proof.
  intros Hs Hn. induction hs as [|h hs IH]; intros u Hu Hh Hf Hv Ha Hd; [reflexivity|]. cbn [fold_left].
  inversion Hh; inversion Hf as [|? ? Hf1 Hf2]; inversion Hv; inversion Hd; subst. rewrite IH; auto.
  - now apply (map_image_elsewhere pe).
  - now apply (map_image_ok pe).
  - eapply Forall_impl; [|exact Hf2]. intros h' []. constructor; auto.
Qed.

Lemma image_sections pe address : size <= Z.of_nat (length file) -> forall hs u, writable_ok u -> Forall header_ok hs ->
  Forall (section_fits pe u address) hs -> Forall (fun h => 0 < virtual_size h) hs ->
  ForallOrdPairs ranges_apart (map (in_memory address) hs) ->
  Forall (fun h => bytes_at (fold_left (map_image address) hs u) (address + VirtualAddress h) (virtual_size h) = section_image h) hs.
Proof.
  intros Hs. induction hs as [|h hs IH]; intros u Hu Hh Hf Hv Hd; [constructor|]. cbn [fold_left].
  inversion Hh; inversion Hf as [|? ? Hf1 Hf2]; inversion Hv; inversion Hd as [|? ? Hd1 Hd2]; subst.
  assert (Hu1 : writable_ok (map_image address u h)) by (now apply (map_image_ok pe)).
  assert (Hf1' := Hf1). destruct Hf1' as [S1 S2 S3 S4 S5].
  assert (Hf3 : Forall (section_fits pe (map_image address u h) address) hs)
    by (eapply Forall_impl; [|exact Hf2]; intros h' []; constructor; auto).
  constructor; [|now apply IH].
  rewrite (image_rest pe); auto.
  - unfold map_image. assert (L : Z.of_nat (length (section_image h)) = virtual_size h) by (now apply section_image_length).
    rewrite <- L. apply written_same; [exact Hu|]. rewrite L. apply S4. lia.
  - apply Forall_forall. intros q Hq. rewrite Forall_map, Forall_forall in Hd1. specialize (Hd1 q Hq).
    unfold ranges_apart in *. cbn [in_memory fst snd] in *. lia.
Qed.

(** What was read by [DianaPeFile_Init] has fields of 32 bits. *)
Lemma pe_headers_fields sizeOfFile pe l wide t : memory_ok file size t -> pe_headers file size sizeOfFile pe l wide ->
  Forall header_ok (pCapturedSections pe) /\ 0 <= sizeOfHeaders pe < 2 ^ 32.
Proof.
  intros Ht [(P1 & P2 & P3) P4 P5 (P6 & P7) P8 (P9 & P10) P11 P12 P13 P14 P15 P16 P17]. cbv zeta in P15.
  destruct P15 as (Q1 & ->). pose proof (memory_ok_start file size t Ht) as M0.
  assert (Ho : 0 < optional_size wide <= 240 /\ 224 <= optional_size wide)
    by (destruct wide; cbn; unfold sizeof_DIANA_IMAGE_OPTIONAL_HEADER64, sizeof_DIANA_IMAGE_OPTIONAL_HEADER32; lia).
  split.
  - apply Forall_forall. intros h Hin. apply in_map_iff in Hin as (k & <- & Hk). apply in_seq in Hk.
    constructor; cbn [section_at VirtualSize VirtualAddress SizeOfRawData PointerToRawData];
      apply (buf_load_u32 file size _ M0); lia.
  - rewrite P13. apply (buf_load_u32 file size _ M0); lia.
Qed.
End Map.
