(* ===== verification/PeRelocProofs.v ===== *)
(** Relocations: a directory of relocation blocks names the places of a module that hold addresses; each
    of them is moved, once, and nothing else. *)

From Stdlib Require Import ZArith Lia List Bool.
Import ListNotations.
From S2P Require Import Prelude Words Status DecTypes MemStreams CopyStreams PeFile PeProofs.
Local Open Scope Z_scope.
Local Open Scope diana_scope.

#[local] Arguments buf_bytes : simpl never.
#[local] Arguments buf_update : simpl never.

(** ** One relocation *)

(** *** The immediate of a Thumb move *)

Lemma testbit_u8 x n : 0 <= n -> Z.testbit (u8 x) n = (n <? 8) && Z.testbit x n.
Proof.
  intros Hn. unfold u8. change 0x100 with (2 ^ 8). destruct (Z.ltb_spec n 8); cbn [andb].
  - apply Z.mod_pow2_bits_low. lia.
  - apply Z.mod_pow2_bits_high. lia.
Qed.

Lemma bits_16 (P : Z -> Prop) : P 0 -> P 1 -> P 2 -> P 3 -> P 4 -> P 5 -> P 6 -> P 7 -> P 8 -> P 9 -> P 10 -> P 11 ->
  P 12 -> P 13 -> P 14 -> P 15 -> forall n, 0 <= n < 16 -> P n.
Proof.
  intros. replace n with (Z.of_nat (Z.to_nat n)) by lia. assert (K : (Z.to_nat n < 16)%nat) by lia.
  revert K. generalize (Z.to_nat n). intros k K. do 16 (destruct k as [|k]; [assumption|]). lia.
Qed.

(** [bits]: bit [n], a number, of a combination of numbers. *)
Ltac bit_step :=
  match goal with
  | |- context [Z.testbit ?a ?n] =>
      lazymatch n with
      | Z.neg _ => rewrite (Z.testbit_neg_r a n) by reflexivity
      | _ =>
          lazymatch a with
          | Z.lor ?x ?y => rewrite (Z.lor_spec x y n)
          | Z.land ?x ?y => rewrite (Z.land_spec x y n)
          | Z.shiftl ?x ?k => rewrite (Z.shiftl_spec x k n) by lia; let v := eval vm_compute in (n - k) in change (n - k) with v
          | Z.shiftr ?x ?k => rewrite (Z.shiftr_spec x k n) by lia; let v := eval vm_compute in (n + k) in change (n + k) with v
          | u8 ?x => rewrite (testbit_u8 x n) by lia; let v := eval vm_compute in (n <? 8) in change (n <? 8) with v
          | Z.pos _ => let v := eval vm_compute in (Z.testbit a n) in change (Z.testbit a n) with v
          | Z0 => change (Z.testbit 0 n) with false
          | (Z.pos _ - Z.pos _)%Z => let v := eval vm_compute in (Z.testbit a n) in change (Z.testbit a n) with v
          end
      end
  end; cbn [andb orb]; rewrite ?andb_true_r, ?andb_false_r, ?orb_false_r.
Ltac bits := repeat bit_step.

Lemma bits_ext_16 a b : 0 <= a < 2 ^ 16 -> 0 <= b < 2 ^ 16 ->
  (forall n, 0 <= n < 16 -> Z.testbit a n = Z.testbit b n) -> a = b.
Proof.
  intros Ha Hb H. apply Z.bits_inj'. intros n Hn. destruct (Z_lt_dec n 16); [apply H; lia|].
  now rewrite !(testbit_ge _ 16) by lia.
Qed.

Lemma get_range p : 0 <= DianaPe_GetThumbMovImm16 p < 2 ^ 16.
Proof.
  unfold DianaPe_GetThumbMovImm16. cbv zeta.
  assert (S : forall x k j, 0 <= j -> 0 <= k -> k + j <= 16 -> 0 <= x < 2 ^ k -> 0 <= Z.shiftl x j < 2 ^ 16).
  { intros x k j Hj Hk Hs Hx. rewrite Z.shiftl_mul_pow2 by lia. split; [nia|].
    apply (Z.lt_le_trans _ (2 ^ k * 2 ^ j)); [pose proof (Z.pow_pos_nonneg 2 j); nia|].
    rewrite <- Z.pow_add_r by lia. apply Z.pow_le_mono_r; lia. }
  repeat apply lor_range; try lia.
  - apply (S _ 4); try lia. now apply (land_range _ 4).
  - apply (S _ 1); try lia. now apply (land_range _ 1).
  - apply (S _ 3); try lia. now apply (land_range _ 3).
  - pose proof (land_range (halfword p 2) 8 ltac:(lia)). change (2 ^ 8 - 1) with 0xFF in *. lia.
Qed.

Lemma get_set p x : 0 <= x < 2 ^ 16 -> DianaPe_GetThumbMovImm16 (DianaPe_SetThumbMovImm16 p x) = x.
Proof.
  intros Hx. apply bits_ext_16; [apply get_range|exact Hx|]. apply bits_16;
    (unfold DianaPe_GetThumbMovImm16, DianaPe_SetThumbMovImm16; cbv zeta; unfold halfword; cbn [nth]; bits; reflexivity).
Qed.

Lemma u8_ext a b : (forall n, 0 <= n < 8 -> Z.testbit a n = Z.testbit b n) -> u8 a = u8 b.
Proof.
  intros H. apply Z.bits_inj'. intros n Hn. rewrite !testbit_u8 by exact Hn.
  destruct (Z.ltb_spec n 8); cbn [andb]; [apply H; lia|reflexivity].
Qed.

Lemma u8_eq a b : byte_ok b -> (forall n, 0 <= n < 8 -> Z.testbit a n = Z.testbit b n) -> u8 a = b.
Proof. intros Hb H. rewrite (u8_ext a b H). now apply Z.mod_small. Qed.

Lemma bits_8 (P : Z -> Prop) : P 0 -> P 1 -> P 2 -> P 3 -> P 4 -> P 5 -> P 6 -> P 7 -> forall n, 0 <= n < 8 -> P n.
Proof.
  intros. replace n with (Z.of_nat (Z.to_nat n)) by lia. assert (K : (Z.to_nat n < 8)%nat) by lia.
  revert K. generalize (Z.to_nat n). intros k K. do 8 (destruct k as [|k]; [assumption|]). lia.
Qed.

Lemma cons_eq (a b : Z) l l' : a = b -> l = l' -> a :: l = b :: l'.
Proof. congruence. Qed.

Lemma set_set p x y : DianaPe_SetThumbMovImm16 (DianaPe_SetThumbMovImm16 p x) y = DianaPe_SetThumbMovImm16 p y.
Proof.
  unfold DianaPe_SetThumbMovImm16. cbv zeta. unfold halfword. cbn [nth].
  repeat apply cons_eq; [apply u8_ext, bits_8; bits; reflexivity ..|reflexivity].
Qed.

(** The bits of a byte end at 8. *)
Ltac byte_bits := bits; repeat match goal with
  H : byte_ok ?p |- context [Z.testbit ?p ?n] => rewrite (testbit_ge p 8 n H) by lia end; rewrite ?orb_false_r; cbn [orb].

Lemma set_get p : length p = 4%nat -> Forall byte_ok p -> DianaPe_SetThumbMovImm16 p (DianaPe_GetThumbMovImm16 p) = p.
Proof.
  destruct p as [|p0 [|p1 [|p2 [|p3 [|]]]]]; intros L; try discriminate. intros H.
  inversion H as [|? ? B0 H1]; subst. inversion H1 as [|? ? B1 H2]; subst. inversion H2 as [|? ? B2 H3]; subst.
  inversion H3 as [|? ? B3 H4]; subst. clear H H1 H2 H3 H4 L.
  unfold DianaPe_SetThumbMovImm16, DianaPe_GetThumbMovImm16. cbv zeta. unfold halfword. cbn [nth].
  repeat apply cons_eq; [apply u8_eq; [assumption|]; apply bits_8; byte_bits; reflexivity ..|reflexivity].
Qed.

(** *** The value that is moved *)

Lemma lor_shiftl_16 a b : 0 <= a < 0x10000 -> 0 <= b -> Z.lor a (Z.shiftl b 16) = a + 0x10000 * b.
Proof.
  intros Ha Hb. assert (E : Z.land a (Z.shiftl b 16) = 0).
  { apply Z.bits_inj'. intros n Hn. rewrite Z.land_spec, Z.shiftl_spec, Z.bits_0 by exact Hn.
    destruct (Z_lt_dec n 16); [rewrite (Z.testbit_neg_r b) by lia; apply andb_false_r|].
    now rewrite (testbit_ge a 16) by (change (2 ^ 16) with 0x10000; lia). }
  pose proof (Z.add_lor_land a (Z.shiftl b 16)) as H. rewrite E, Z.shiftl_mul_pow2 in H by lia.
  change (2 ^ 16) with 0x10000 in H. rewrite Z.shiftl_mul_pow2 by lia. change (2 ^ 16) with 0x10000. lia.
Qed.

Lemma relocated_length t d bs n : relocation_size t = Some n -> length (relocated t d bs) = Z.to_nat n.
Proof.
  unfold relocation_size, relocated. destruct (t =? DIANA_IMAGE_REL_BASED_HIGH); [intros [= <-]; apply le_encode_length|].
  destruct (t =? DIANA_IMAGE_REL_BASED_HIGHLOW); [intros [= <-]; apply le_encode_length|].
  destruct (t =? DIANA_IMAGE_REL_BASED_THUMB_MOV32); [intros [= <-]; reflexivity|].
  destruct (t =? DIANA_IMAGE_REL_BASED_DIR64); [intros [= <-]; apply le_encode_length|discriminate].
Qed.

Lemma relocation_size_pos t n : relocation_size t = Some n -> 2 <= n <= 8.
Proof.
  unfold relocation_size. destruct (t =? _); [intros [= <-]; lia|]. destruct (t =? _); [intros [= <-]; lia|].
  destruct (t =? _); [intros [= <-]; lia|]. destruct (t =? _); [intros [= <-]; lia|discriminate].
Qed.

Lemma byte_ok_u8 x : byte_ok (u8 x).
Proof. apply Z.mod_pos_bound. reflexivity. Qed.

Lemma relocated_bytes t d bs : Forall byte_ok (relocated t d bs).
Proof.
  unfold relocated. repeat (destruct (t =? _); [try apply le_encode_ok|]); try apply le_encode_ok.
  unfold DianaPe_SetThumbMovImm16. cbn [app]. repeat constructor; apply byte_ok_u8.
Qed.

(** The two halves of the pair of moves. *)
Definition thumb_value (bs : list Z) : Z :=
  DianaPe_GetThumbMovImm16 (firstn 4 bs) + 0x10000 * DianaPe_GetThumbMovImm16 (skipn 4 bs).
Definition thumb_store (bs : list Z) (v : Z) : list Z :=
  DianaPe_SetThumbMovImm16 (firstn 4 bs) (v mod 0x10000) ++ DianaPe_SetThumbMovImm16 (skipn 4 bs) (v / 0x10000).

Lemma thumb_value_range bs : 0 <= thumb_value bs < 0x100000000.
Proof. unfold thumb_value. pose proof (get_range (firstn 4 bs)). pose proof (get_range (skipn 4 bs)). lia. Qed.

Lemma relocated_thumb d bs : relocated DIANA_IMAGE_REL_BASED_THUMB_MOV32 d bs = thumb_store bs (u32 (thumb_value bs + u32 d)).
Proof.
  unfold relocated. cbn [Z.eqb Pos.eqb DIANA_IMAGE_REL_BASED_THUMB_MOV32 DIANA_IMAGE_REL_BASED_HIGH DIANA_IMAGE_REL_BASED_HIGHLOW].
  cbv zeta. pose proof (get_range (firstn 4 bs)). pose proof (get_range (skipn 4 bs)).
  rewrite lor_shiftl_16 by lia. change 0xFFFF with (Z.ones 16). rewrite Z.land_ones, Z.shiftr_div_pow2 by lia. reflexivity.
Qed.

Lemma thumb_value_store bs v : 0 <= v < 0x100000000 -> thumb_value (thumb_store bs v) = v.
Proof.
  intros Hv. unfold thumb_value, thumb_store. rewrite firstn_app_exact, skipn_app_exact by reflexivity.
  pose proof (Z.mod_pos_bound v 0x10000 eq_refl).
  assert (0 <= v / 0x10000 < 0x10000) by (split; [apply Z.div_pos; lia|apply Z.div_lt_upper_bound; lia]).
  rewrite !get_set by (change (2 ^ 16) with 0x10000; lia). pose proof (Z.div_mod v 0x10000). lia.
Qed.

Lemma thumb_store_store bs v w : thumb_store (thumb_store bs v) w = thumb_store bs w.
Proof.
  unfold thumb_store at 1. unfold thumb_store at 1 2. rewrite firstn_app_exact, skipn_app_exact by reflexivity.
  now rewrite !set_set.
Qed.

Lemma thumb_store_value bs : length bs = 8%nat -> Forall byte_ok bs -> thumb_store bs (thumb_value bs) = bs.
Proof.
  intros L Hb. unfold thumb_store, thumb_value. pose proof (get_range (firstn 4 bs)). pose proof (get_range (skipn 4 bs)).
  replace (_ mod 0x10000) with (DianaPe_GetThumbMovImm16 (firstn 4 bs))
    by (Z.div_mod_to_equations; lia).
  replace (_ / 0x10000) with (DianaPe_GetThumbMovImm16 (skipn 4 bs)) by (Z.div_mod_to_equations; lia).
  pose proof Hb as Hb'. rewrite <- (firstn_skipn 4 bs) in Hb'. apply Forall_app in Hb' as (H1 & H2).
  rewrite !set_get by (rewrite ?length_firstn, ?length_skipn; auto; lia). apply firstn_skipn.
Qed.

(** What the move of an address of 16 bits may lose. *)
Definition exact_for (t d : Z) : Prop := t = DIANA_IMAGE_REL_BASED_HIGH -> d mod 0x10000 = 0.

Lemma relocated_zero t bs n : relocation_size t = Some n -> length bs = Z.to_nat n -> Forall byte_ok bs -> relocated t 0 bs = bs.
Proof.
  intros E L Hb. pose proof (le_decode_range bs Hb) as R. rewrite L in R.
  assert (Hself : forall k, k = length bs -> le_encode k (le_decode bs) = bs) by (intros k ->; now apply le_encode_decode).
  revert E R. unfold relocation_size.
  destruct (Z.eqb_spec t DIANA_IMAGE_REL_BASED_HIGH) as [->|N1]; [intros [= <-] R|
  destruct (Z.eqb_spec t DIANA_IMAGE_REL_BASED_HIGHLOW) as [->|N2]; [intros [= <-] R|
  destruct (Z.eqb_spec t DIANA_IMAGE_REL_BASED_THUMB_MOV32) as [->|N3]; [intros [= <-] R|
  destruct (Z.eqb_spec t DIANA_IMAGE_REL_BASED_DIR64) as [->|N4]; [intros [= <-] R|discriminate]]]].
  - change (2 ^ (8 * Z.of_nat (Z.to_nat 2))) with 0x10000 in R. unfold relocated. cbn [Z.eqb Pos.eqb DIANA_IMAGE_REL_BASED_HIGH].
    rewrite Z.shiftl_mul_pow2, Z.shiftr_div_pow2 by lia. change (2 ^ 16) with 0x10000.
    rewrite <- (Hself 2%nat) at 2 by (rewrite L; reflexivity). f_equal. unfold u32. Z.div_mod_to_equations. lia.
  - change (2 ^ (8 * Z.of_nat (Z.to_nat 4))) with 0x100000000 in R.
    unfold relocated. cbn [Z.eqb Pos.eqb DIANA_IMAGE_REL_BASED_HIGH DIANA_IMAGE_REL_BASED_HIGHLOW].
    rewrite <- (Hself 4%nat) at 2 by (rewrite L; reflexivity). f_equal. unfold u32. Z.div_mod_to_equations. lia.
  - rewrite relocated_thumb. pose proof (thumb_value_range bs).
    replace (u32 (thumb_value bs + u32 0)) with (thumb_value bs) by (unfold u32; Z.div_mod_to_equations; lia).
    now apply thumb_store_value.
  - change (2 ^ (8 * Z.of_nat (Z.to_nat 8))) with 0x10000000000000000 in R.
    unfold relocated. cbn [Z.eqb Pos.eqb DIANA_IMAGE_REL_BASED_HIGH DIANA_IMAGE_REL_BASED_HIGHLOW
      DIANA_IMAGE_REL_BASED_THUMB_MOV32 DIANA_IMAGE_REL_BASED_DIR64].
    rewrite <- (Hself 8%nat) at 2 by (rewrite L; reflexivity). f_equal. unfold u64. Z.div_mod_to_equations. lia.
Qed.

Lemma relocated_compose t d1 d2 bs n : relocation_size t = Some n -> length bs = Z.to_nat n -> Forall byte_ok bs ->
  exact_for t d1 -> relocated t d2 (relocated t d1 bs) = relocated t (u64 (d1 + d2)) bs.
Proof.
  intros E L Hb Hx. pose proof (le_decode_range bs Hb) as R. rewrite L in R. revert E R. unfold relocation_size.
  destruct (Z.eqb_spec t DIANA_IMAGE_REL_BASED_HIGH) as [->|N1]; [intros [= <-] R|
  destruct (Z.eqb_spec t DIANA_IMAGE_REL_BASED_HIGHLOW) as [->|N2]; [intros [= <-] R|
  destruct (Z.eqb_spec t DIANA_IMAGE_REL_BASED_THUMB_MOV32) as [->|N3]; [intros [= <-] R|
  destruct (Z.eqb_spec t DIANA_IMAGE_REL_BASED_DIR64) as [->|N4]; [intros [= <-] R|discriminate]]]].
  - change (2 ^ (8 * Z.of_nat (Z.to_nat 2))) with 0x10000 in R. specialize (Hx eq_refl).
    unfold relocated. cbn [Z.eqb Pos.eqb DIANA_IMAGE_REL_BASED_HIGH]. cbv zeta.
    rewrite le_decode_encode, !Z.shiftl_mul_pow2, !Z.shiftr_div_pow2 by lia. change (2 ^ 16) with 0x10000.
    change (2 ^ (8 * Z.of_nat 2)) with 0x10000. f_equal. unfold u32, u64. Z.div_mod_to_equations. lia.
  - unfold relocated. cbn [Z.eqb Pos.eqb DIANA_IMAGE_REL_BASED_HIGH DIANA_IMAGE_REL_BASED_HIGHLOW].
    rewrite le_decode_encode. change (2 ^ (8 * Z.of_nat 4)) with 0x100000000. f_equal. unfold u32, u64.
    Z.div_mod_to_equations. lia.
  - rewrite !relocated_thumb, thumb_value_store by apply Z.mod_pos_bound, eq_refl. rewrite thumb_store_store.
    f_equal. unfold u32, u64. Z.div_mod_to_equations. lia.
  - unfold relocated. cbn [Z.eqb Pos.eqb DIANA_IMAGE_REL_BASED_HIGH DIANA_IMAGE_REL_BASED_HIGHLOW
      DIANA_IMAGE_REL_BASED_THUMB_MOV32 DIANA_IMAGE_REL_BASED_DIR64].
    rewrite le_decode_encode. change (2 ^ (8 * Z.of_nat 8)) with 0x10000000000000000. f_equal. unfold u64.
    Z.div_mod_to_equations. lia.
Qed.

(** ** The entries of a directory *)

(** Where an entry [e] of a block for the page [va] points, and its type; an entry that changes nothing
    has no target. *)
Definition entry_target (address va e : Z) : list (Z * Z) :=
  let raw := u32 (va + Z.land e 0xfff) in
  if raw =? 0 then []
  else match relocation_size (Z.shiftr e 12) with Some _ => [(address + raw, Z.shiftr e 12)] | None => [] end.

(** The blocks of a directory, and the bytes that stand for them. *)
Definition block_targets (address : Z) (b : Z * list Z) : list (Z * Z) := flat_map (entry_target address (fst b)) (snd b).
Definition targets (address : Z) (blocks : list (Z * list Z)) : list (Z * Z) := flat_map (block_targets address) blocks.

Definition encode_block (b : Z * list Z) : list Z :=
  le_encode 4 (fst b) ++ le_encode 4 (8 + 2 * Z.of_nat (length (snd b))) ++ flat_map (le_encode 2) (snd b).
Definition encode_blocks (blocks : list (Z * list Z)) : list Z := flat_map encode_block blocks.

Definition block_ok (b : Z * list Z) : Prop := 0 <= fst b < 2 ^ 32 /\ Forall (fun e => 0 <= e < 2 ^ 16) (snd b).

(** A target moved by [d]. *)
Definition move_target (d : Z) (u : DianaMemoryStream) (p : Z * Z) : DianaMemoryStream :=
  match relocation_size (snd p) with
  | Some n => written u (fst p) (relocated (snd p) d (bytes_at u (fst p) n))
  | None => u
  end.

Definition target_inside (u : DianaMemoryStream) (p : Z * Z) : Prop :=
  forall n, relocation_size (snd p) = Some n -> inside u (fst p) n.

Lemma move_target_ok d u p : writable_ok u -> target_inside u p -> writable_ok (move_target d u p).
Proof.
  intros Hu Hp. unfold move_target, target_inside in *. destruct (relocation_size (snd p)) as [n|] eqn:E; [|exact Hu].
  apply written_ok; [exact Hu|]. rewrite (relocated_length _ _ _ _ E). pose proof (relocation_size_pos _ _ E).
  rewrite Z2Nat.id by lia. now apply Hp.
Qed.

Lemma written_bytes u a bs : Forall byte_ok (pBuffer u) -> Forall byte_ok bs -> Forall byte_ok (pBuffer (written u a bs)).
Proof. apply buf_update_ok. Qed.

Lemma moved_all_bytes d ps : forall u, Forall byte_ok (pBuffer u) -> Forall byte_ok (pBuffer (fold_left (move_target d) ps u)).
Proof.
  induction ps as [|p ps IH]; intros u Hu; cbn [fold_left]; [exact Hu|]. apply IH. unfold move_target.
  destruct (relocation_size (snd p)); [|exact Hu]. apply written_bytes; [exact Hu|apply relocated_bytes].
Qed.

Lemma moved_inside d u p q : target_inside (move_target d u p) q <-> target_inside u q.
Proof. unfold move_target, target_inside. destruct (relocation_size (snd p)); reflexivity. Qed.

Lemma entry_run address va e d u : writable_ok u -> 0 <= address -> address + 2 ^ 32 <= 2 ^ 64 ->
  Forall (target_inside u) (entry_target address va e) ->
  relocate_entry address va e d u = (Ok tt, fold_left (move_target d) (entry_target address va e) u).
Proof.
  intros Hu H0 Ha Hin. unfold relocate_entry, entry_target in *. cbv zeta in *.
  pose proof (Z.mod_pos_bound (va + Z.land e 0xfff) 0x100000000 eq_refl) as Hraw. fold (u32 (va + Z.land e 0xfff)) in Hraw.
  destruct (Z.eqb_spec (u32 (va + Z.land e 0xfff)) 0) as [E0|N0]; [reflexivity|].
  unfold Diana_SafeAdd. destruct (Z.ltb_spec (0xFFFFFFFFFFFFFFFF - address) (u32 (va + Z.land e 0xfff))); [lia|].
  destruct (relocation_size (Z.shiftr e 12)) as [n|] eqn:En; [|reflexivity].
  inversion Hin as [|? ? H1 H2]; subst. specialize (H1 n En). cbn [fst snd] in H1.
  pose proof (relocation_size_pos _ _ En) as Hn.
  mrun (read_exactly_ok u _ n Hu ltac:(lia) H1). cbn [fold_left]. unfold move_target. cbn [fst snd]. rewrite En.
  pose proof (relocated_length (Z.shiftr e 12) d (bytes_at u (address + u32 (va + Z.land e 0xfff)) n) n En) as L.
  rewrite write_page_ok; [reflexivity|exact Hu|intros E; rewrite E in L; cbn in L; lia|].
  rewrite L, Z2Nat.id by lia. exact H1.
Qed.

Lemma moved_all_inside d ps : forall u q, target_inside (fold_left (move_target d) ps u) q <-> target_inside u q.
Proof.
  induction ps as [|p ps IH]; intros u q; cbn [fold_left]; [reflexivity|]. rewrite IH. apply moved_inside.
Qed.

Lemma moved_all_ok d ps : forall u, writable_ok u -> Forall (target_inside u) ps ->
  writable_ok (fold_left (move_target d) ps u).
Proof.
  induction ps as [|p ps IH]; intros u Hu H; cbn [fold_left]; [exact Hu|]. inversion H as [|? ? H1 H2]; subst.
  apply IH; [now apply move_target_ok|]. eapply Forall_impl; [|exact H2]. intros q. apply moved_inside.
Qed.

(** *** Reading the directory *)

Lemma captured_run (pre post : list Z) n v (u : DianaMemoryStream) :
  captured (pre ++ le_encode (Z.to_nat n) v ++ post) (Z.of_nat (length pre)) n u = (Ok (v mod 2 ^ (8 * Z.of_nat (Z.to_nat n))), u).
Proof.
  unfold captured. rewrite !length_app, le_encode_length.
  destruct (Z.ltb_spec (Z.of_nat (length pre)) 0); [lia|].
  destruct (Z.ltb_spec (Z.of_nat (length pre + (Z.to_nat n + length post))) (Z.of_nat (length pre) + n)); [lia|].
  cbn [orb]. unfold ret, buf_load, buf_bytes. rewrite Nat2Z.id, skipn_app_exact by reflexivity.
  rewrite firstn_app_exact by (now rewrite le_encode_length). now rewrite le_decode_encode.
Qed.

Lemma entries_run address va d es : forall pre post u, writable_ok u -> 0 <= address -> address + 2 ^ 32 <= 2 ^ 64 ->
  Forall (fun e => 0 <= e < 2 ^ 16) es -> Forall (target_inside u) (block_targets address (va, es)) ->
  relocate_entries (pre ++ flat_map (le_encode 2) es ++ post) (Z.of_nat (length pre)) (length es) address va d u =
  (Ok tt, fold_left (move_target d) (block_targets address (va, es)) u).
Proof.
  unfold block_targets. cbn [fst snd].
  induction es as [|e es IH]; intros pre post u Hu H0 Ha He Hin; cbn [relocate_entries flat_map length]; [reflexivity|].
  inversion He as [|? ? He1 He2]; subst. cbn [flat_map] in Hin. apply Forall_app in Hin as (Hin1 & Hin2).
  rewrite <- app_assoc. mrun (captured_run pre (flat_map (le_encode 2) es ++ post) 2 e u).
  rewrite Z.mod_small by exact He1. mrun (entry_run address va e d u Hu H0 Ha Hin1).
  replace (Z.of_nat (length pre) + 2) with (Z.of_nat (length (pre ++ le_encode 2 e)))
    by (rewrite length_app, le_encode_length; lia).
  rewrite (app_assoc pre). rewrite IH; auto.
  - now rewrite fold_left_app.
  - now apply moved_all_ok.
  - eapply Forall_impl; [|exact Hin2]. intros q. apply moved_all_inside.
Qed.

Lemma encode_block_length b : Z.of_nat (length (encode_block b)) = 8 + 2 * Z.of_nat (length (snd b)).
Proof.
  unfold encode_block. rewrite !length_app, !le_encode_length.
  assert (E : length (flat_map (le_encode 2) (snd b)) = (2 * length (snd b))%nat).
  { induction (snd b) as [|e es IH]; [reflexivity|]. cbn [flat_map length]. rewrite length_app, le_encode_length, IH. lia. }
  rewrite E. lia.
Qed.

Lemma sub_entries_count_ok n : 0 <= n < 2 ^ 31 -> sub_entries_count (8 + 2 * n) = n.
Proof.
  intros Hn. unfold sub_entries_count. rewrite u64_small by lia. replace (8 + 2 * n - 8) with (n * 2) by lia.
  rewrite Z.div_mul by lia. apply s32_small. lia.
Qed.

(** A round of the loop: one block. *)
Lemma block_round address d b pre post fuel u : writable_ok u -> 0 <= address -> address + 2 ^ 32 <= 2 ^ 64 ->
  block_ok b -> Z.of_nat (length (pre ++ encode_block b ++ post)) < 2 ^ 32 ->
  8 < Z.of_nat (length (encode_block b ++ post)) -> Forall (target_inside u) (block_targets address b) ->
  relocate_blocks (S fuel) (pre ++ encode_block b ++ post) (Z.of_nat (length pre)) address d u =
  relocate_blocks fuel (pre ++ encode_block b ++ post) (Z.of_nat (length (pre ++ encode_block b))) address d
    (fold_left (move_target d) (block_targets address b) u).
Proof.
  intros Hu H0 Ha Hb Hs Hmore Hin. cbn [relocate_blocks]. pose proof (encode_block_length b) as Lb.
  destruct b as [va es]. cbn [fst snd] in *. destruct Hb as (Hva & Hes). cbn [fst snd] in *.
  assert (Ll : length (pre ++ encode_block (va, es) ++ post) = (length pre + length (encode_block (va, es) ++ post))%nat)
    by apply length_app.
  assert (Lp : Z.of_nat (length (encode_block (va, es) ++ post)) = 8 + 2 * Z.of_nat (length es) + Z.of_nat (length post))
    by (rewrite length_app; lia).
  destruct (Z.ltb_spec (Z.of_nat (length pre)) (Z.of_nat (length (pre ++ encode_block (va, es) ++ post)) - 8)); [cbn [negb]|lia].
  set (size := 8 + 2 * Z.of_nat (length es)). fold size in Lb, Lp.
  assert (E1 : pre ++ encode_block (va, es) ++ post =
    pre ++ le_encode (Z.to_nat 4) va ++ (le_encode 4 size ++ flat_map (le_encode 2) es ++ post))
    by (unfold encode_block; now rewrite <- !app_assoc).
  assert (E2 : pre ++ encode_block (va, es) ++ post =
    (pre ++ le_encode 4 va) ++ le_encode (Z.to_nat 4) size ++ (flat_map (le_encode 2) es ++ post))
    by (unfold encode_block; now rewrite <- !app_assoc).
  assert (E3 : pre ++ encode_block (va, es) ++ post =
    ((pre ++ le_encode 4 va) ++ le_encode 4 size) ++ flat_map (le_encode 2) es ++ post)
    by (unfold encode_block; now rewrite <- !app_assoc).
  rewrite E1 at 1. mrun (captured_run pre (le_encode 4 size ++ flat_map (le_encode 2) es ++ post) 4 va u).
  rewrite Z.mod_small by exact Hva.
  replace (Z.of_nat (length pre) + 4) with (Z.of_nat (length (pre ++ le_encode 4 va)))
    by (rewrite length_app, le_encode_length; lia).
  rewrite E2 at 1. mrun (captured_run (pre ++ le_encode 4 va) (flat_map (le_encode 2) es ++ post) 4 size u).
  change (2 ^ (8 * Z.of_nat (Z.to_nat 4))) with (2 ^ 32). rewrite Z.mod_small by lia. cbv zeta.
  rewrite u32_small by lia.
  destruct (Z.ltb_spec (Z.of_nat (length (pre ++ encode_block (va, es) ++ post)) - Z.of_nat (length pre)) size); [lia|].
  assert (Ec : sub_entries_count size = Z.of_nat (length es)) by (apply sub_entries_count_ok; lia). rewrite !Ec. unfold DianaPeFile_ProcessRelocationEntry. rewrite Nat2Z.id.
  replace (Z.of_nat (length pre) + 8) with (Z.of_nat (length ((pre ++ le_encode 4 va) ++ le_encode 4 size)))
    by (rewrite !length_app, !le_encode_length; lia).
  rewrite E3 at 1. mrun (entries_run address va d es ((pre ++ le_encode 4 va) ++ le_encode 4 size) post u Hu H0 Ha Hes Hin).
  f_equal. rewrite !length_app, !le_encode_length. lia.
Qed.

Lemma blocks_run address d blocks : forall fuel pre u, writable_ok u -> 0 <= address -> address + 2 ^ 32 <= 2 ^ 64 ->
  Forall block_ok blocks -> Z.of_nat (length (pre ++ encode_blocks blocks)) < 2 ^ 32 ->
  Forall (target_inside u) (targets address blocks) -> (length blocks < fuel)%nat ->
  relocate_blocks fuel (pre ++ encode_blocks blocks) (Z.of_nat (length pre)) address d u =
  (Ok (Some tt), fold_left (move_target d) (targets address blocks) u).
Proof.
  induction blocks as [|b blocks IH]; intros fuel pre u Hu H0 Ha Hb Hs Hin Hf;
    (destruct fuel as [|fuel]; [cbn in Hf; lia|]).
  - cbn [relocate_blocks encode_blocks targets flat_map fold_left] in *. rewrite app_nil_r.
    destruct (Z.ltb_spec (Z.of_nat (length pre)) (Z.of_nat (length pre) - 8)); [lia|reflexivity].
  - inversion Hb as [|? ? Hb1 Hb2]; subst. cbn [targets encode_blocks flat_map] in *. apply Forall_app in Hin as (Hin1 & Hin2).
    fold (encode_blocks blocks) in *. fold (targets address blocks) in *. pose proof (encode_block_length b) as Lb.
    destruct (Z.ltb_spec 8 (Z.of_nat (length (encode_block b ++ encode_blocks blocks)))) as [Lt|Ge].
    + rewrite block_round by auto. rewrite (app_assoc pre), fold_left_app in *. apply IH; auto.
      * now apply moved_all_ok.
      * eapply Forall_impl; [|exact Hin2]. intros q. apply moved_all_inside.
      * cbn [length] in Hf. lia.
    + rewrite length_app in Ge. destruct blocks as [|b' blocks].
      2: { cbn [encode_blocks flat_map] in Ge. rewrite length_app in Ge. pose proof (encode_block_length b'). lia. }
      destruct b as [va [|e es]]; cbn [snd length] in Lb; [|lia]. cbn [encode_blocks flat_map relocate_blocks]. rewrite !app_nil_r.
      rewrite length_app, Nat2Z.inj_add, Lb.
      destruct (Z.ltb_spec (Z.of_nat (length pre)) (Z.of_nat (length pre) + (8 + 2 * Z.of_nat 0) - 8)); [lia|reflexivity].
Qed.

(** ** All targets of a directory *)

Definition apart (a n b m : Z) : Prop := a + n <= b \/ b + m <= a.
Definition targets_apart (p q : Z * Z) : Prop :=
  forall n m, relocation_size (snd p) = Some n -> relocation_size (snd q) = Some m -> apart (fst p) n (fst q) m.
(** The range is apart from all targets. *)
Definition untouched (ps : list (Z * Z)) (a n : Z) : Prop :=
  forall p m, In p ps -> relocation_size (snd p) = Some m -> apart (fst p) m a n.

Lemma move_target_elsewhere d u p a n : writable_ok u -> target_inside u p -> 0 <= n -> inside u a n ->
  untouched [p] a n -> bytes_at (move_target d u p) a n = bytes_at u a n.
Proof.
  intros Hu Hp Hn Ha Hd. unfold move_target, target_inside in *.
  destruct (relocation_size (snd p)) as [m|] eqn:E; [|reflexivity].
  pose proof (relocation_size_pos _ _ E). specialize (Hd p m (or_introl eq_refl) E). unfold apart in Hd.
  assert (L : Z.of_nat (length (relocated (snd p) d (bytes_at u (fst p) m))) = m)
    by (rewrite (relocated_length _ _ _ _ E); lia).
  apply written_elsewhere; rewrite ?L; auto. lia.
Qed.

Lemma moved_all_spec d ps : forall u, writable_ok u -> Forall (target_inside u) ps -> ForallOrdPairs targets_apart ps ->
  (forall a n, 0 <= n -> inside u a n -> untouched ps a n ->
     bytes_at (fold_left (move_target d) ps u) a n = bytes_at u a n) /\
  (forall p n, In p ps -> relocation_size (snd p) = Some n ->
     bytes_at (fold_left (move_target d) ps u) (fst p) n = relocated (snd p) d (bytes_at u (fst p) n)).
Proof.
  induction ps as [|p ps IH]; intros u Hu Hin Hap; cbn [fold_left].
  { split; [reflexivity|contradiction]. }
  inversion Hin as [|? ? Hp Hps]; subst. inversion Hap as [|? ? Hap1 Hap2]; subst.
  pose proof (move_target_ok d u p Hu Hp) as Hu1.
  assert (Hps1 : Forall (target_inside (move_target d u p)) ps)
    by (eapply Forall_impl; [|exact Hps]; intros q; apply moved_inside).
  assert (Hinside : forall a n, inside (move_target d u p) a n <-> inside u a n)
    by (intros; unfold move_target; destruct (relocation_size (snd p)); reflexivity).
  destruct (IH _ Hu1 Hps1 Hap2) as (I1 & I2). rewrite Forall_forall in Hap1. split.
  - intros a n Hn Ha Hd. rewrite I1; [|exact Hn|now apply Hinside|intros q m Hq; apply Hd; now right].
    apply move_target_elsewhere; auto. intros q m [<-|[]]. apply Hd. now left.
  - intros q n [<-|Hq] E.
    + rewrite I1; [|pose proof (relocation_size_pos _ _ E); lia|apply Hinside; now apply Hp|].
      2: { intros r m Hr Er. destruct (Hap1 r Hr n m E Er); [now right|now left]. }
      unfold move_target. rewrite E. pose proof (relocation_size_pos _ _ E).
      pose proof (relocated_length (snd p) d (bytes_at u (fst p) n) n E) as L.
      replace n with (Z.of_nat (length (relocated (snd p) d (bytes_at u (fst p) n)))) at 2 by lia.
      apply written_same; [exact Hu|]. rewrite L, Z2Nat.id by lia. now apply Hp.
    + rewrite (I2 q n Hq E). f_equal. pose proof (relocation_size_pos _ _ E).
      rewrite Forall_forall in Hps. apply move_target_elsewhere; auto; [lia|now apply Hps|].
      intros r m [<-|[]] Er. now apply (Hap1 q Hq m n).
Qed.

(** ** Relocating a module *)

(** Where the header of the module at [a] holds its base address. *)
Definition base_field (pe : Diana_PeFile_impl) : Z :=
  u32 (u32 (u32 (e_lfanew (dosHeader pe)) + sizeof_DIANA_IMAGE_NT_HEADERS) +
       (if dianaMode pe =? DIANA_MODE32 then offsetof_ImageBase32 else offsetof_ImageBase64)).

(** The module in the memory at [a] has a directory of relocations [blocks], which name places of it that
    do not overlap each other, the directory and the field of the base address. *)
Record relocatable (pe : Diana_PeFile_impl) (a : Z) (blocks : list (Z * list Z)) (u : DianaMemoryStream) : Prop := {
  rl_writable : writable_ok u;
  rl_bytes : Forall byte_ok (pBuffer u);
  rl_address : 0 <= a /\ a + 2 ^ 33 <= 2 ^ 64;
  rl_base : 0 <= imageBase pe < 2 ^ 64;
  rl_mode : dianaMode pe = DIANA_MODE32 \/ dianaMode pe = DIANA_MODE64;
  rl_blocks : Forall block_ok blocks;
  rl_inside : Forall (target_inside u) (targets a blocks);
  rl_apart : ForallOrdPairs targets_apart (targets a blocks);
  rl_field : inside u (a + base_field pe) (dianaMode pe) /\ untouched (targets a blocks) (a + base_field pe) (dianaMode pe);
  rl_directory :
    let d := directory pe DIANA_IMAGE_DIRECTORY_ENTRY_BASERELOC in
    d_Size d = Z.of_nat (length (encode_blocks blocks)) /\ d_Size d <= DIANA_MAX_SAFE_ALLOC_SIZE /\
    (0 < d_Size d ->
       0 < d_VirtualAddress d < 2 ^ 32 /\ inside u (a + d_VirtualAddress d) (d_Size d) /\
       bytes_at u (a + d_VirtualAddress d) (d_Size d) = encode_blocks blocks /\
       untouched (targets a blocks) (a + d_VirtualAddress d) (d_Size d) /\
       apart (a + base_field pe) (dianaMode pe) (a + d_VirtualAddress d) (d_Size d))
}.

(** The module after it was moved by [d], as if it was linked for [a]. *)
Record relocated_by (pe : Diana_PeFile_impl) (a d : Z) (blocks : list (Z * list Z)) (u u' : DianaMemoryStream) : Prop := {
  rb_frame : bufferSize u' = bufferSize u /\ addressDifference u' = addressDifference u /\ writable_ok u' /\
    Forall byte_ok (pBuffer u');
  rb_targets : forall p n, In p (targets a blocks) -> relocation_size (snd p) = Some n ->
    bytes_at u' (fst p) n = relocated (snd p) d (bytes_at u (fst p) n);
  rb_field : bytes_at u' (a + base_field pe) (dianaMode pe) = le_encode (Z.to_nat (dianaMode pe)) a;
  rb_elsewhere : forall b n, 0 <= n -> inside u b n -> untouched (targets a blocks) b n ->
    apart (a + base_field pe) (dianaMode pe) b n -> bytes_at u' b n = bytes_at u b n
}.

Lemma no_blocks (blocks : list (Z * list Z)) : encode_blocks blocks = [] -> blocks = [].
Proof.
  destruct blocks as [|b blocks]; [reflexivity|]. intros E. apply (f_equal (@length Z)) in E.
  cbn [encode_blocks flat_map] in E. rewrite length_app in E. pose proof (encode_block_length b). cbn [length] in E. lia.
Qed.

Lemma bytes_at_ok u a n : Forall byte_ok (pBuffer u) -> Forall byte_ok (bytes_at u a n).
Proof. apply buf_bytes_ok. Qed.

Lemma FixRelocs_run fuel pe a blocks u : relocatable pe a blocks u -> (length blocks < fuel)%nat ->
  exists u', DianaPeFile_FixRelocs true fuel pe a u = (Ok (Some tt), u') /\
    (bufferSize u' = bufferSize u /\ addressDifference u' = addressDifference u /\ writable_ok u' /\
     Forall byte_ok (pBuffer u')) /\
    (forall p n, In p (targets a blocks) -> relocation_size (snd p) = Some n ->
       bytes_at u' (fst p) n = relocated (snd p) (u64 (a - imageBase pe)) (bytes_at u (fst p) n)) /\
    (forall b n, 0 <= n -> inside u b n -> untouched (targets a blocks) b n -> bytes_at u' b n = bytes_at u b n).
Proof.
  intros [Hu Hbytes (H0 & Ha) Hbase Hmode Hblocks Hin Hap _ Hdir] Hf. cbv zeta in Hdir.
  destruct Hdir as (Es & Hmax & Hdir). unfold DianaPeFile_FixRelocs.
  set (d := u64 (a - imageBase pe)). set (dir := directory pe DIANA_IMAGE_DIRECTORY_ENTRY_BASERELOC) in *. cbv zeta.
  destruct (Z.eqb_spec (d_Size dir) 0) as [E0|N0]; cbn [orb].
  { assert (E : blocks = []) by (apply no_blocks,  length_zero_iff_nil; lia). subst blocks.
    exists u. split; [reflexivity|]. split; [auto|]. split; [contradiction|reflexivity]. }
  destruct (Hdir ltac:(lia)) as (Hva & Hd1 & Hd2 & _).
  destruct (Z.eqb_spec (d_VirtualAddress dir) 0) as [|Nva]; [lia|].
  destruct (Z.eqb_spec d 0) as [Ed|Nd].
  { exists u. split; [reflexivity|]. split; [auto|]. split; [|reflexivity]. intros p n Hp E. rewrite Ed.
    rewrite Forall_forall in Hin. symmetry. apply (relocated_zero _ _ n); [exact E| |now apply bytes_at_ok].
    pose proof (relocation_size_pos _ _ E). apply bytes_at_length; [exact Hu|lia|]. now apply Hin. }
  destruct (Z.ltb_spec DIANA_MAX_SAFE_ALLOC_SIZE (d_Size dir)); [lia|]. cbn [negb].
  rewrite u64_small by lia. mrun (read_exactly_ok u _ (d_Size dir) Hu ltac:(lia) Hd1). rewrite Hd2.
  pose proof (blocks_run a d blocks fuel [] u Hu H0 ltac:(lia) Hblocks) as R. cbn [app length] in R. change (Z.of_nat 0) with 0 in R.
  unfold DIANA_MAX_SAFE_ALLOC_SIZE in *. rewrite R by (auto; lia).
  eexists. split; [reflexivity|]. destruct (moved_all_spec d _ u Hu Hin Hap) as (M1 & M2).
  split; [|now split]. split; [|split; [|split; [now apply moved_all_ok|now apply moved_all_bytes]]].
  - clear. generalize (targets a blocks). intros ps. revert u. induction ps as [|p ps IH]; intros u; cbn [fold_left]; [reflexivity|].
    rewrite IH. unfold move_target. now destruct (relocation_size (snd p)).
  - clear. generalize (targets a blocks). intros ps. revert u. induction ps as [|p ps IH]; intros u; cbn [fold_left]; [reflexivity|].
    rewrite IH. unfold move_target. now destruct (relocation_size (snd p)).
Qed.

Lemma offsetof_base_field pe : dianaMode pe = DIANA_MODE32 \/ dianaMode pe = DIANA_MODE64 ->
  exists off, offsetof_ImageBase (dianaMode pe) = Some off /\
    base_field pe = u32 (u32 (u32 (e_lfanew (dosHeader pe)) + sizeof_DIANA_IMAGE_NT_HEADERS) + off).
Proof. unfold offsetof_ImageBase, base_field. intros [-> | ->]; eexists; split; reflexivity. Qed.

Lemma Relocate_run fuel pe a blocks u : relocatable pe a blocks u -> (length blocks < fuel)%nat ->
  exists u', DianaPeFile_Relocate true fuel pe a u = (Ok (Some tt), u') /\
    relocated_by pe a (u64 (a - imageBase pe)) blocks u u'.
Proof.
  intros R Hf. pose proof R as [Hu Hbytes (H0 & Ha) Hbase Hmode Hblocks Hin Hap (Hf1 & Hf2) _].
  destruct (FixRelocs_run fuel pe a blocks u R Hf) as (u1 & E & (F1 & F2 & F3 & F4) & T1 & T2).
  unfold DianaPeFile_Relocate. mrun E. destruct (offsetof_base_field pe Hmode) as (off & -> & Eb). rewrite <- Eb.
  assert (Hb : 0 <= base_field pe < 2 ^ 32) by (rewrite Eb; apply Z.mod_pos_bound; reflexivity).
  assert (Hm : 4 <= dianaMode pe <= 8) by (unfold DIANA_MODE32, DIANA_MODE64 in Hmode; lia).
  rewrite u64_small by lia.
  assert (L : Z.of_nat (length (le_encode (Z.to_nat (dianaMode pe)) a)) = dianaMode pe) by (rewrite le_encode_length; lia).
  assert (I1 : inside u1 (a + base_field pe) (dianaMode pe)) by (unfold inside in *; rewrite F1, F2; exact Hf1).
  mrun (write_page_ok u1 (a + base_field pe) (le_encode (Z.to_nat (dianaMode pe)) a) F3 ltac:(intros N; rewrite N in L; cbn in L; lia)
    ltac:(rewrite L; exact I1)).
  eexists. split; [reflexivity|]. assert (Hw := written_ok u1 _ _ F3 ltac:(rewrite L; exact I1)).
  assert (Hinside : forall b n, inside u b n -> inside u1 b n) by (intros b n; unfold inside; now rewrite F1, F2).
  constructor.
  - split; [exact F1|]. split; [exact F2|]. split; [exact Hw|]. apply written_bytes; [exact F4|apply le_encode_ok].
  - intros p n Hp En. rewrite Forall_forall in Hin. pose proof (relocation_size_pos _ _ En).
    rewrite written_elsewhere; rewrite ?L; auto; [lia|apply Hinside, (Hin p Hp n En)|].
    destruct (Hf2 p n Hp En); lia.
  - pose proof (written_same u1 (a + base_field pe) (le_encode (Z.to_nat (dianaMode pe)) a) F3) as W.
    rewrite L in W. exact (W I1).
  - intros b n Hn Hib Hunt Hbf. rewrite written_elsewhere; rewrite ?L; auto. unfold apart in Hbf. lia.
Qed.

(** ** Moving a module from one place to another *)

(** The same memory at addresses that are [delta] higher. *)
Definition rebased (delta : Z) (u : DianaMemoryStream) : DianaMemoryStream :=
  mkDianaMemoryStream (pBuffer u) (bufferSize u) (curSize u) (addressDifference u + delta) (writable u)
    (absoluteModuleAddress u).
(** The file as it is read from a module that was loaded at [a]. *)
Definition loaded_at (a : Z) (pe : Diana_PeFile_impl) : Diana_PeFile_impl :=
  mkDiana_PeFile_impl (dosHeader pe) (ntHeaders pe) (pCapturedSections pe) (dianaMode pe) (sizeOfModule pe)
    (sizeOfInitialFile pe) (optionalHeaderSize pe) (addressOfEntryPoint pe) (pImageDataDirectoryArray pe)
    (sizeOfHeaders pe) a (pe_arch pe).

Definition shift (delta : Z) (p : Z * Z) : Z * Z := (fst p + delta, snd p).

Lemma targets_shift a delta blocks : targets (a + delta) blocks = map (shift delta) (targets a blocks).
Proof.
  unfold targets. induction blocks as [|[va es] blocks IH]; [reflexivity|]. cbn [flat_map].
  rewrite map_app, <- IH. f_equal. unfold block_targets. cbn [fst snd].
  induction es as [|e es IHe]; [reflexivity|]. cbn [flat_map]. rewrite map_app, <- IHe. f_equal.
  unfold entry_target. cbv zeta. destruct (_ =? 0); [reflexivity|]. destruct (relocation_size _); [|reflexivity].
  unfold shift. cbn [map fst snd]. now rewrite <- !Z.add_assoc, (Z.add_comm delta).
Qed.

Lemma bytes_at_rebased delta u b n : bytes_at (rebased delta u) (b + delta) n = bytes_at u b n.
Proof. unfold bytes_at. cbn. f_equal. lia. Qed.

Lemma inside_rebased delta u b n : inside (rebased delta u) (b + delta) n <-> inside u b n.
Proof. unfold inside. cbn. lia. Qed.

Lemma untouched_shift delta ps b n : untouched (map (shift delta) ps) (b + delta) n <-> untouched ps b n.
Proof.
  unfold untouched, apart. split.
  - intros H p m Hp E. specialize (H (shift delta p) m (in_map _ _ _ Hp) E). cbn [shift fst] in H. lia.
  - intros H p m Hp E. apply in_map_iff in Hp as (q & <- & Hq). specialize (H q m Hq E). cbn [shift fst]. lia.
Qed.

(** Two memories are the same when they are on the targets, on the field of the base, and elsewhere. *)
Lemma buffers_equal ps f m v w : writable_ok v -> writable_ok w -> bufferSize v = bufferSize w ->
  addressDifference v = addressDifference w -> Forall (target_inside v) ps -> inside v f m ->
  (forall p n, In p ps -> relocation_size (snd p) = Some n -> bytes_at v (fst p) n = bytes_at w (fst p) n) ->
  bytes_at v f m = bytes_at w f m ->
  (forall b, inside v b 1 -> untouched ps b 1 -> apart f m b 1 -> bytes_at v b 1 = bytes_at w b 1) ->
  pBuffer v = pBuffer w.
Proof.
  intros Hv Hw Eb Ea Hin Hf Hp Hfield He. destruct Hv as [_ Lv _ _], Hw as [_ Lw _ _].
  apply (list_ext_nth _ _ 0); [lia|]. intros i Hi. set (b := Z.of_nat i + addressDifference v).
  assert (Hcover : forall a n, inside v a n -> a <= b < a + n -> bytes_at v a n = bytes_at w a n ->
            nth i (pBuffer v) 0 = nth i (pBuffer w) 0).
  { intros a n (I1 & I2) Hb E. apply (f_equal (fun l => nth (Z.to_nat (b - a)) l 0)) in E. unfold bytes_at in E.
    rewrite !buf_bytes_nth in E by lia. rewrite <- Ea in E.
    replace (Z.to_nat (a - addressDifference v) + Z.to_nat (b - a))%nat with i in E by (unfold b in *; lia). exact E. }
  assert (Hone : inside v b 1) by (unfold inside, b; lia).
  destruct (Z_le_dec f b) as [H1|H1]; [destruct (Z_lt_dec b (f + m)) as [H2|H2]|]; [now apply (Hcover f m)| |].
  all: assert (Hfa : apart f m b 1) by (unfold apart; lia);
    destruct (Exists_dec (fun p => match relocation_size (snd p) with Some n => fst p <= b < fst p + n | None => False end) ps)
      as [Hex|Hno];
    [intros p; destruct (relocation_size (snd p)) as [n|]; [|right; tauto];
     destruct (Z_le_dec (fst p) b); [destruct (Z_lt_dec b (fst p + n)); [left|right]|right]; lia
    |apply Exists_exists in Hex as (p & Hps & Hb); destruct (relocation_size (snd p)) as [n|] eqn:E; [|contradiction];
     rewrite Forall_forall in Hin; apply (Hcover (fst p) n); [apply (Hin p Hps n E)|exact Hb|now apply Hp]
    |apply (Hcover b 1); [exact Hone|lia|]; apply He; auto; intros p n Hps E;
     rewrite Forall_forall in Hin; destruct (Z_le_dec (fst p) b); [destruct (Z_lt_dec b (fst p + n))|]; unfold apart; try lia;
     exfalso; apply Hno, Exists_exists; exists p; split; [exact Hps|]; rewrite E; lia].
Qed.

Lemma rebased_ok delta u : writable_ok u -> 0 <= addressDifference u + delta -> writable_ok (rebased delta u).
Proof. intros [H1 H2 H3 H4] H. constructor; cbn; auto. Qed.

(** Where the module is, and what it was linked for, does not matter. *)
Lemma relocatable_elsewhere pe a b base blocks u u' : relocatable pe a blocks u ->
  bufferSize u' = bufferSize u -> addressDifference u' = addressDifference u -> writable_ok u' ->
  Forall byte_ok (pBuffer u') -> 0 <= base < 2 ^ 64 ->
  (forall c n, 0 <= n -> inside u c n -> untouched (targets a blocks) c n ->
     apart (a + base_field pe) (dianaMode pe) c n -> bytes_at u' c n = bytes_at u c n) ->
  0 <= b -> b + 2 ^ 33 <= 2 ^ 64 -> 0 <= addressDifference u + (b - a) ->
  relocatable (loaded_at base pe) b blocks (rebased (b - a) u').
Proof.
  intros [Hu Hbytes (H0 & Ha) Hbase Hmode Hblocks Hin Hap (Hf1 & Hf2) Hdir] E1 E2 Hw Hb' Hbase' He Hb0 Hb Hdiff.
  assert (Hi : forall c n, inside (rebased (b - a) u') (c + (b - a)) n <-> inside u c n)
    by (intros c n; rewrite inside_rebased; unfold inside; now rewrite E1, E2).
  assert (Et : targets b blocks = map (shift (b - a)) (targets a blocks))
    by (rewrite <- targets_shift; f_equal; lia).
  assert (Ef : b + base_field (loaded_at base pe) = a + base_field pe + (b - a))
    by (change (base_field (loaded_at base pe)) with (base_field pe); lia).
  constructor; auto.
  - apply rebased_ok; [exact Hw|now rewrite E2].
  - rewrite Et. apply Forall_forall. intros p Hp n E. apply in_map_iff in Hp as (q & <- & Hq). cbn [shift fst snd] in *.
    apply Hi. rewrite Forall_forall in Hin. exact (Hin q Hq n E).
  - rewrite Et. clear -Hap. induction Hap as [|p ps H1 H2 IH]; cbn [map]; constructor; [|exact IH].
    apply Forall_forall. intros q Hq. apply in_map_iff in Hq as (q' & <- & Hq'). rewrite Forall_forall in H1.
    intros n m En Em. specialize (H1 q' Hq' n m En Em). unfold apart in *. cbn [shift fst]. lia.
  - rewrite Ef, Et. split; [now apply Hi|]. now apply untouched_shift.
  - cbv zeta in *. change (directory (loaded_at base pe)) with (directory pe).
    destruct Hdir as (D1 & D2 & D3). split; [exact D1|]. split; [exact D2|]. intros Hpos.
    destruct (D3 Hpos) as (D4 & D5 & D6 & D7 & D8). split; [exact D4|].
    replace (b + d_VirtualAddress (directory pe DIANA_IMAGE_DIRECTORY_ENTRY_BASERELOC)) with
      (a + d_VirtualAddress (directory pe DIANA_IMAGE_DIRECTORY_ENTRY_BASERELOC) + (b - a)) by lia.
    split; [now apply Hi|]. split.
    { rewrite bytes_at_rebased, He; auto. lia. }
    rewrite Et, Ef. split; [now apply untouched_shift|].
    change (dianaMode (loaded_at base pe)) with (dianaMode pe). unfold apart in *. lia.
Qed.

Lemma loaded_at_same pe : loaded_at (imageBase pe) pe = pe.
Proof. now destruct pe. Qed.

(** A module that was relocated to [a] and then, from there, to [b]. *)
Lemma relocated_twice pe a b blocks u u1 u2 u3 : relocatable pe a blocks u ->
  relocated_by pe a (u64 (a - imageBase pe)) blocks u u1 ->
  relocated_by (loaded_at a pe) b (u64 (b - a)) blocks (rebased (b - a) u1) u2 ->
  relocated_by pe b (u64 (b - imageBase pe)) blocks (rebased (b - a) u) u3 ->
  Forall (fun p => exact_for (snd p) (a - imageBase pe)) (targets a blocks) ->
  pBuffer u2 = pBuffer u3.
Proof.
  intros [Hu Hbytes _ _ _ _ Hin Hap (Hf1 & Hf2) _] [(A1 & A2 & A3 & A4) A5 A6 A7] [(B1 & B2 & B3 & B4) B5 B6 B7]
    [(C1 & C2 & C3 & C4) C5 C6 C7] Hx.
  assert (Et : targets b blocks = map (shift (b - a)) (targets a blocks)) by (rewrite <- targets_shift; f_equal; lia).
  change (base_field (loaded_at a pe)) with (base_field pe) in *. change (dianaMode (loaded_at a pe)) with (dianaMode pe) in *.
  cbn [rebased bufferSize addressDifference] in *. rewrite A1 in B1. rewrite A2 in B2.
  assert (Hi : forall c n, inside u2 (c + (b - a)) n <-> inside u c n)
    by (intros c n; unfold inside; rewrite B1, B2; lia).
  assert (Hfi : b + base_field pe = a + base_field pe + (b - a)) by lia.
  apply (buffers_equal (targets b blocks) (b + base_field pe) (dianaMode pe)); try congruence.
  - rewrite Et. apply Forall_forall. intros p Hp n E. apply in_map_iff in Hp as (q & <- & Hq).
    apply Hi. rewrite Forall_forall in Hin. exact (Hin q Hq n E).
  - rewrite Hfi. now apply Hi.
  - intros p n Hp E. rewrite (B5 p n Hp E), (C5 p n Hp E). rewrite Et in Hp. apply in_map_iff in Hp as (q & <- & Hq).
    cbn [shift fst snd] in *. rewrite !bytes_at_rebased, (A5 q n Hq E).
    rewrite Forall_forall in Hin, Hx. pose proof (relocation_size_pos _ _ E).
    rewrite (relocated_compose _ _ _ _ n E).
    + f_equal. unfold u64. Z.div_mod_to_equations. lia.
    + apply bytes_at_length; [exact Hu|lia|exact (Hin q Hq n E)].
    + now apply bytes_at_ok.
    + intros Eh. rewrite <- (Hx q Hq Eh). unfold u64. Z.div_mod_to_equations. lia.
  - intros c Hc Hun Hfa. replace c with (c - (b - a) + (b - a)) in * by lia. rewrite Hfi in *. rewrite Et in Hun.
    pose proof (proj1 (Hi _ _) Hc) as Hc0. pose proof (proj1 (untouched_shift _ _ _ _) Hun) as Hun0.
    assert (Hfa0 : apart (a + base_field pe) (dianaMode pe) (c - (b - a)) 1) by (unfold apart in *; lia).
    rewrite B7, C7; try lia; rewrite ?Et, ?Hfi, ?bytes_at_rebased; auto.
    + rewrite A7; auto. lia.
    + now apply inside_rebased.
    + apply inside_rebased. unfold inside in *. now rewrite A1, A2.
Qed.

(** Relocating a module to where it was linked for changes nothing. *)
Lemma relocated_to_base pe b blocks u u' : relocatable pe b blocks u -> b = imageBase pe ->
  bytes_at u (b + base_field pe) (dianaMode pe) = le_encode (Z.to_nat (dianaMode pe)) b ->
  relocated_by pe b (u64 (b - imageBase pe)) blocks u u' -> pBuffer u' = pBuffer u.
Proof.
  intros [Hu Hbytes _ _ _ _ Hin Hap (Hf1 & Hf2) _] -> Hf [(A1 & A2 & A3 & A4) A5 A6 A7].
  rewrite Z.sub_diag in A5. change (u64 0) with 0 in A5.
  assert (Hi : forall c n, inside u' c n <-> inside u c n) by (intros c n; unfold inside; now rewrite A1, A2).
  rewrite Forall_forall in Hin.
  apply (buffers_equal (targets (imageBase pe) blocks) (imageBase pe + base_field pe) (dianaMode pe)); auto.
  - apply Forall_forall. intros p Hp n E. apply Hi. exact (Hin p Hp n E).
  - now apply Hi.
  - intros p n Hp E. rewrite (A5 p n Hp E). pose proof (relocation_size_pos _ _ E).
    apply (relocated_zero _ _ n E); [|now apply bytes_at_ok]. apply bytes_at_length; [exact Hu|lia|exact (Hin p Hp n E)].
  - congruence.
  - intros c Hc Hun Hfa. apply A7; auto; [lia|now apply Hi].
Qed.

(** ** A directory that is never left

    A block whose size is given as 0 or 1 ends where it starts. *)
Lemma empty_block_hangs address d size u : size = 0 \/ size = 1 -> forall fuel,
  relocate_blocks fuel (le_encode 4 0x1000 ++ le_encode 4 size ++ [0; 0]) 0 address d u = (Ok None, u).
Proof.
  intros Hs. induction fuel as [|fuel IH]; [reflexivity|].
  destruct Hs as [-> | ->]; cbn [relocate_blocks]; exact IH.
Qed.
