(* ===== verification/PeExportProofs.v ===== *)
(** Looking up an export: the binary search over the table of names of a mapped module is a search of the
    name among all of them. *)

From Stdlib Require Import ZArith Lia List Bool Sorted.
Import ListNotations.
From S2P Require Import Prelude Words Status DecTypes MemStreams PeFile PeProofs.
Local Open Scope Z_scope.

#[local] Arguments buf_bytes : simpl never.

(** ** Names *)

(** The order of the bytes, as [strcmp] has it. *)
Fixpoint compare_names (a b : list Z) : comparison :=
  match a with
  | [] => match b with [] => Eq | _ => Lt end
  | x :: a =>
      match b with
      | y :: b => match x ?= y with Eq => compare_names a b | order => order end
      | [] => Gt
      end
  end.

Definition name_lt (a b : list Z) : Prop := compare_names a b = Lt.

Lemma compare_names_eq a : forall b, compare_names a b = Eq <-> a = b.
Proof.
  induction a as [|x a IH]; intros [|y b]; cbn [compare_names]; try (split; [discriminate|discriminate]); [now split|].
  destruct (Z.compare_spec x y) as [->|L|L].
  - rewrite IH. split; [now intros ->|now intros [= ->]].
  - split; [discriminate|]. intros [= E _]. lia.
  - split; [discriminate|]. intros [= E _]. lia.
Qed.

Lemma compare_names_antisym a : forall b, compare_names a b = CompOpp (compare_names b a).
Proof.
  induction a as [|x a IH]; intros [|y b]; cbn [compare_names]; try reflexivity.
  rewrite (Z.compare_antisym y x). destruct (y ?= x); cbn [CompOpp]; auto.
Qed.

Lemma name_lt_trans a : forall b c, name_lt a b -> name_lt b c -> name_lt a c.
Proof.
  unfold name_lt. induction a as [|x a IH]; intros [|y b] [|z c]; cbn [compare_names]; try discriminate; auto.
  destruct (Z.compare_spec x y) as [->|L1|L1]; try discriminate; intros H1.
  - destruct (y ?= z); try discriminate; auto. intros H2. eauto.
  - intros H2. destruct (Z.compare_spec y z) as [->|L2|L2]; try discriminate.
    + now rewrite (proj2 (Z.compare_lt_iff x z)).
    + now rewrite (proj2 (Z.compare_lt_iff x z)) by lia.
Qed.

Lemma name_lt_irrefl a : ~ name_lt a a.
Proof. unfold name_lt. now rewrite (proj2 (compare_names_eq a a) eq_refl). Qed.

Lemma sorted_nth l i j : StronglySorted name_lt l -> (i < j < length l)%nat -> name_lt (nth i l []) (nth j l []).
Proof.
  intros H. revert i j. induction H as [|w ws H1 IH H2]; intros i j Hij; cbn [length] in *; [lia|].
  destruct j as [|j]; [lia|]. destruct i as [|i]; cbn [nth].
  - rewrite Forall_forall in H2. apply H2, nth_In. lia.
  - apply IH. lia.
Qed.

(** A string in memory. *)
Definition no_zero (w : list Z) : Prop := Forall (fun b => 0 < b) w.

Lemma strncmp_names v : forall w rest n, no_zero v -> no_zero w -> (length w < n)%nat ->
  exists c, strncmp (v ++ [0]) (w ++ 0 :: rest) n = Some c /\
    match compare_names v w with Eq => c = 0 | Lt => c < 0 | Gt => 0 < c end.
Proof.
  induction v as [|x v IH]; intros w rest n Hv Hw Hn; (destruct n as [|n]; [lia|]); destruct w as [|y w];
    cbn [app strncmp compare_names].
  - exists 0. now split.
  - inversion Hw; subst. destruct (Z.eqb_spec 0 y); [lia|]. eexists. split; [reflexivity|lia].
  - inversion Hv; subst. destruct (Z.eqb_spec x 0); [lia|]. eexists. split; [reflexivity|lia].
  - inversion Hv; subst. inversion Hw; subst. cbn [length] in Hn. destruct (Z.eqb_spec x y) as [->|N].
    + rewrite Z.compare_refl. destruct (Z.eqb_spec y 0); [lia|]. apply IH; auto. lia.
    + eexists. split; [reflexivity|]. destruct (Z.compare_spec x y); [contradiction|lia|lia].
Qed.

(** ** The tables of a module *)

Section Module.
Variable data : list Z.

Definition name_at (off : Z) (w : list Z) : Prop :=
  0 < off < moduleSize data /\ no_zero w /\ exists rest, skipn (Z.to_nat off) data = w ++ 0 :: rest.

(** The table of [values] of [width] bytes at [table]; the code wants something behind it. *)
Definition table_at (width table : Z) (values : list Z) : Prop :=
  0 < table /\ table + width * Z.of_nat (length values) < moduleSize data /\
  forall k, (k < length values)%nat -> buf_load data (table + width * Z.of_nat k) width = nth k values 0.

Hypothesis small : moduleSize data < 2 ^ 32.

Lemma validate_ok off : 0 < off < moduleSize data -> ValidateVirtualAddress data off = Ok off.
Proof.
  intros H. unfold ValidateVirtualAddress. destruct (Z.eqb_spec off 0); [lia|].
  destruct (Z.leb_spec (moduleSize data) off); [lia|reflexivity].
Qed.

Lemma capture_ok width table values k : width = 2 \/ width = 4 -> table_at width table values -> 0 <= k < Z.of_nat (length values) ->
  CaptureValue data width table k = Ok (nth (Z.to_nat k) values 0).
Proof.
  intros Hw (T1 & T2 & T3) Hk. unfold CaptureValue. rewrite (u64_small (moduleSize data - table)) by lia.
  destruct (Z.ltb_spec (moduleSize data - table) width); [nia|].
  destruct (Z.leb_spec (moduleSize data - table - width) k); [destruct Hw; subst; lia|].
  rewrite u64_small by (destruct Hw; subst; lia).
  destruct (Z.leb_spec (moduleSize data - table - width) (k * width)); [destruct Hw; subst; lia|].
  rewrite u32_small by (destruct Hw; subst; lia). unfold load.
  destruct (Z.ltb_spec (table + k * width) 0); [destruct Hw; subst; lia|].
  destruct (Z.ltb_spec (moduleSize data) (table + k * width + width)); [destruct Hw; subst; lia|]. cbn [orb].
  rewrite <- T3 by lia. do 2 f_equal. rewrite Z2Nat.id by lia. lia.
Qed.

Lemma compare_name_ok v off w : no_zero v -> name_at off w ->
  exists c, compare_name data v off = Ok c /\ match compare_names v w with Eq => c = 0 | Lt => c < 0 | Gt => 0 < c end.
Proof.
  intros Hv (H0 & Hw & rest & E). unfold compare_name. rewrite E.
  assert (L : (length w < Z.to_nat (moduleSize data - off))%nat).
  { apply (f_equal (@length Z)) in E. rewrite length_skipn, length_app in E. cbn [length] in E. unfold moduleSize in *. lia. }
  destruct (strncmp_names v w rest _ Hv Hw L) as (c & -> & Hc). now exists c.
Qed.

(** *** The search *)

Variables (table : Z) (places : list Z) (names : list (list Z)).
Hypothesis places_here : table_at 4 table places.
Hypothesis names_here : Forall2 name_at places names.
Hypothesis names_sorted : StronglySorted name_lt names.

Abbreviation N := (Z.of_nat (length names)).
Abbreviation name k := (nth (Z.to_nat k) names []).

Lemma names_places : length places = length names.
Proof. exact (Forall2_length names_here). Qed.

Lemma name_place_ok k : 0 <= k < N -> name_at (nth (Z.to_nat k) places 0) (name k).
Proof.
  intros Hk. assert (Hi : (Z.to_nat k < length names)%nat) by lia. revert Hi. generalize (Z.to_nat k).
  clear -names_here. induction names_here as [|p w ps ws H1 H2 IH]; intros i Hi; cbn [length] in Hi; [lia|].
  destruct i as [|i]; cbn [nth]; [exact H1|apply (IH H2); lia].
Qed.

(** Before [low] all names are smaller, behind [high] all are greater. *)
Record between (v : list Z) (low high : Z) : Prop := {
  bt_low : 0 <= low <= high + 1;
  bt_high : -1 <= high < N;
  bt_smaller : forall k, 0 <= k < low -> name_lt (name k) v;
  bt_greater : forall k, high < k < N -> name_lt v (name k)
}.

Lemma s32_pred high : -1 <= high < 2 ^ 31 -> s32 (u32 high) = high.
Proof.
  intros H. destruct (Z.eq_dec high (-1)) as [->|]; [reflexivity|]. rewrite u32_small by lia. apply s32_small. lia.
Qed.

Lemma search_names_ok v : no_zero v -> forall fuel low mid high, between v low high ->
  high - low + 1 < 2 ^ Z.of_nat fuel ->
  exists lo m hi, search_names data (S fuel) v table low mid (u32 high) = Ok (Some (lo, m, hi)) /\
    ((s32 hi < s32 lo /\ ~ In v names) \/ (s32 lo <= s32 hi /\ 0 <= m < N /\ name m = v)).
Proof.
  intros Hv. pose proof places_here as (Ht & Hsize & _). rewrite names_places in Hsize.
  induction fuel as [|fuel IH]; intros low mid high [B1 B2 B3 B4] Hf.
  - assert (E : low = high + 1) by (cbn in Hf; lia). cbn [search_names].
    assert (Hno : ~ In v names).
    { intros Hin. apply (In_nth _ _ []) in Hin as (k & Hk & E'). destruct (Z_lt_dec (Z.of_nat k) low) as [L|L].
      - specialize (B3 (Z.of_nat k) ltac:(lia)). rewrite Nat2Z.id, E' in B3. exact (name_lt_irrefl v B3).
      - specialize (B4 (Z.of_nat k) ltac:(lia)). rewrite Nat2Z.id, E' in B4. exact (name_lt_irrefl v B4). }
    rewrite s32_pred by lia.
    assert (Hs : negb (low <=? u32 high) || (high <? 0) = true).
    { destruct (Z.ltb_spec high 0); [apply orb_true_r|]. rewrite u32_small by lia. destruct (Z.leb_spec low high); [lia|reflexivity]. }
    rewrite Hs. do 3 eexists. split; [reflexivity|]. left. split; [|exact Hno].
    rewrite s32_pred, (s32_small low) by lia. lia.
  - change (search_names data (S (S fuel)) v table low mid (u32 high)) with
      (if negb (low <=? u32 high) || (s32 (u32 high) <? 0) then Ok (Some (low, mid, u32 high))
       else let middle := Z.shiftr (u32 (low + u32 high)) 1 in
        and_then (CaptureValue32 data table middle) (fun functionNameOffset =>
        and_then (ValidateVirtualAddress data functionNameOffset) (fun pFunctionPointer =>
        and_then (compare_name data v pFunctionPointer) (fun compareResult =>
          if compareResult =? 0 then Ok (Some (low, middle, u32 high))
          else if 0 <? compareResult then search_names data (S fuel) v table (u32 (middle + 1)) middle (u32 high)
          else search_names data (S fuel) v table low middle (u32 (middle - 1)))))).
    destruct (Z_lt_dec high low) as [L|L].
    + destruct (IH low mid high) as (lo & m & hi & E & R); [constructor; auto|replace (high - low + 1) with 0 by lia;
        now apply Z.pow_pos_nonneg; lia|]. exists lo, m, hi. split; [|exact R].
      revert E. cbn [search_names].
      assert (Hs : negb (low <=? u32 high) || (s32 (u32 high) <? 0) = true).
      { rewrite s32_pred by lia. destruct (Z.ltb_spec high 0); [apply orb_true_r|]. rewrite u32_small by lia.
        destruct (Z.leb_spec low high); [lia|reflexivity]. }
      now rewrite Hs.
    + rewrite s32_pred, (u32_small high) by lia. destruct (Z.leb_spec low high); [|lia].
      destruct (Z.ltb_spec high 0); [lia|]. cbn [negb orb]. cbv zeta. rewrite u32_small by lia.
      rewrite Z.shiftr_div_pow2 by lia. change (2 ^ 1) with 2. set (middle := (low + high) / 2).
      assert (Hm : low <= middle <= high) by (unfold middle; Z.div_mod_to_equations; lia).
      assert (Hhalf : 2 * (middle - low) <= high - low + 1 /\ 2 * (high - middle) <= high - low + 1)
        by (unfold middle; Z.div_mod_to_equations; lia).
      rewrite Nat2Z.inj_succ, Z.pow_succ_r in Hf by lia.
      unfold CaptureValue32. rewrite (capture_ok 4 table places middle) by (auto; rewrite ?names_places; lia).
      cbn [and_then]. pose proof (name_place_ok middle ltac:(lia)) as Hplace. rewrite validate_ok by apply Hplace.
      cbn [and_then]. destruct (compare_name_ok v _ _ Hv Hplace) as (c & -> & Hc). cbn [and_then].
      destruct (compare_names v (name middle)) eqn:Ec.
      * subst c. cbn [Z.eqb]. do 3 eexists. split; [reflexivity|]. right. rewrite !s32_small by lia.
        apply compare_names_eq in Ec. split; [lia|]. split; [lia|now symmetry].
      * destruct (Z.eqb_spec c 0); [lia|]. destruct (Z.ltb_spec 0 c); [lia|]. apply IH; [|lia].
        constructor; auto; try lia. intros k Hk. destruct (Z.eq_dec k middle) as [->|Nk]; [exact Ec|].
        apply (name_lt_trans _ (name middle)); [exact Ec|]. apply sorted_nth; [exact names_sorted|lia].
      * destruct (Z.eqb_spec c 0); [lia|]. destruct (Z.ltb_spec 0 c); [|lia]. rewrite (u32_small (middle + 1)) by lia.
        assert (Eg : name_lt (name middle) v).
        { unfold name_lt. now rewrite compare_names_antisym, Ec. }
        rewrite <- (u32_small high) by lia. apply IH; [|lia].
        constructor; auto; try lia. intros k Hk. destruct (Z.eq_dec k middle) as [->|Nk]; [exact Eg|].
        apply (name_lt_trans _ (name middle)); [|exact Eg]. apply sorted_nth; [exact names_sorted|lia].
Qed.
End Module.

(** ** The lookup of an export *)

(** The reference: the names are looked through from the first on. *)
Fixpoint ordinal_of (v : list Z) (names : list (list Z)) (ordinals : list Z) : option Z :=
  match names, ordinals with
  | w :: names, o :: ordinals => if list_eq_dec Z.eq_dec w v then Some o else ordinal_of v names ordinals
  | _, _ => None
  end.

Lemma ordinal_of_none v names : forall ordinals, ~ In v names -> ordinal_of v names ordinals = None.
Proof.
  induction names as [|w names IH]; intros [|o ordinals] H; try reflexivity. cbn [ordinal_of].
  destruct (list_eq_dec Z.eq_dec w v) as [->|N]; [exfalso; apply H; now left|]. apply IH. intros Hin. apply H. now right.
Qed.

Lemma ordinal_of_some v names : forall ordinals m, StronglySorted name_lt names -> length ordinals = length names ->
  (m < length names)%nat -> nth m names [] = v -> ordinal_of v names ordinals = Some (nth m ordinals 0).
Proof.
  induction names as [|w names IH]; intros [|o ordinals] m Hs Hl Hm E; cbn [length] in *; try lia. cbn [ordinal_of].
  destruct m as [|m]; cbn [nth] in *; [now destruct (list_eq_dec Z.eq_dec w v)|].
  inversion Hs as [|? ? Hs' Hall]; subst.
  destruct (list_eq_dec Z.eq_dec w (nth m names [])) as [->|N]; [|apply IH; auto; lia]. exfalso. rewrite Forall_forall in Hall.
  apply (name_lt_irrefl (nth m names [])), Hall, nth_In. lia.
Qed.

(** A module in memory which exports [functions]; [names] and [ordinals] are its tables of names. *)
Record exports (data : list Z) (pPeFile : Diana_PeFile) (pe : Diana_PeFile_impl) (functions : list Z)
    (names : list (list Z)) (ordinals : list Z) : Prop := {
  ex_impl : pImpl pPeFile = Some pe;
  ex_mapped : Z.land (pe_flags pPeFile) DIANA_PE_FILE_FLAGS_FILE_MODE = 0;
  ex_small : moduleSize data < 2 ^ 32;
  ex_directory :
    let d := directory pe DIANA_IMAGE_DIRECTORY_ENTRY_EXPORT in
    0 < d_VirtualAddress d /\ 40 <= d_Size d /\ d_VirtualAddress d + d_Size d <= moduleSize data;
  ex_tables :
    let field k := buf_load data (d_VirtualAddress (directory pe DIANA_IMAGE_DIRECTORY_ENTRY_EXPORT) + k) 4 in
    field 24 = Z.of_nat (length names) /\ table_at data 4 (field 28) functions /\
    table_at data 2 (field 36) ordinals /\
    exists places, table_at data 4 (field 32) places /\ Forall2 (name_at data) places names;
  ex_sorted : StronglySorted name_lt names;
  ex_ordinals : length ordinals = length names /\ Forall (fun o => 0 <= o < Z.of_nat (length functions)) ordinals
}.

(** An address inside the directory is the place of a forwarder's name. *)
Definition exported (pe : Diana_PeFile_impl) (off : Z) : Z * Z :=
  let d := directory pe DIANA_IMAGE_DIRECTORY_ENTRY_EXPORT in
  if (d_VirtualAddress d <=? off) && (off <? d_VirtualAddress d + d_Size d) then (0, off) else (off, 0).

Section Lookup.
Context (data : list Z) (pPeFile : Diana_PeFile) (pe : Diana_PeFile_impl) (functions : list Z)
  (names : list (list Z)) (ordinals : list Z).
Hypothesis here : exports data pPeFile pe functions names ordinals.

Lemma field_ok k : 0 <= k -> k + 4 <= 40 ->
  load data (d_VirtualAddress (directory pe DIANA_IMAGE_DIRECTORY_ENTRY_EXPORT) + k) 4 =
  Ok (buf_load data (d_VirtualAddress (directory pe DIANA_IMAGE_DIRECTORY_ENTRY_EXPORT) + k) 4).
Proof.
  intros H1 H2. pose proof (ex_directory _ _ _ _ _ _ here) as (D1 & D2 & D3). unfold load.
  destruct (Z.ltb_spec (d_VirtualAddress (directory pe DIANA_IMAGE_DIRECTORY_ENTRY_EXPORT) + k) 0); [lia|].
  destruct (Z.ltb_spec (moduleSize data) (d_VirtualAddress (directory pe DIANA_IMAGE_DIRECTORY_ENTRY_EXPORT) + k + 4)); [lia|reflexivity].
Qed.

Lemma find_name_ok v table ordtable places : no_zero v -> table_at data 4 table places ->
  Forall2 (name_at data) places names -> table_at data 2 ordtable ordinals ->
  find_name data v table ordtable (Z.of_nat (length names)) =
  match names with [] => Err DI_ERROR | _ :: _ =>
      match ordinal_of v names ordinals with Some o => Ok o | None => Err DI_NOT_FOUND end
  end.
Proof.
  intros Hv Ht Hn Ho. pose proof (ex_small _ _ _ _ _ _ here) as Hs. pose proof (ex_sorted _ _ _ _ _ _ here) as Hsort.
  destruct (ex_ordinals _ _ _ _ _ _ here) as [Hlen _]. pose proof (Forall2_length Hn) as Hp.
  pose proof Ht as (T1 & T2 & _). unfold find_name.
  destruct (list_eq_dec (list_eq_dec Z.eq_dec) names []) as [->|Ne]; [reflexivity|].
  assert (Epat : forall X (a b : X), match names with [] => a | _ :: _ => b end = b) by (now destruct names). rewrite Epat.
  assert (0 < Z.of_nat (length names)) by (destruct names; [congruence|cbn [length]; lia]).
  destruct (Z.eqb_spec (Z.of_nat (length names)) 0); [lia|].
  destruct (search_names_ok data Hs table places names Ht Hn Hsort v Hv 33 0 0 (Z.of_nat (length names) - 1))
    as (lo & m & hi & E & R); [constructor; intros; lia|change (2 ^ Z.of_nat 33) with 8589934592; lia|].
  unfold search_fuel. rewrite E. cbn [and_then]. destruct R as [[R Hno]|[R [Hm Hname]]].
  - destruct (Z.ltb_spec (s32 hi) (s32 lo)); [|lia]. now rewrite ordinal_of_none.
  - destruct (Z.ltb_spec (s32 hi) (s32 lo)); [lia|]. unfold CaptureValue16.
    rewrite (capture_ok data Hs 2 ordtable ordinals m) by (auto; lia).
    now rewrite (ordinal_of_some v names ordinals (Z.to_nat m)) by (auto; lia).
Qed.

Lemma function_ok table o : table_at data 4 table functions -> 0 <= o < Z.of_nat (length functions) ->
  (let d := directory pe DIANA_IMAGE_DIRECTORY_ENTRY_EXPORT in
   and_then (CaptureValue32 data table o) (fun functionOffset =>
     if (d_VirtualAddress d <=? functionOffset) && (functionOffset <? u32 (d_VirtualAddress d + d_Size d))
     then Ok (0, functionOffset) else Ok (functionOffset, 0))) =
  Ok (exported pe (nth (Z.to_nat o) functions 0)).
Proof.
  intros Ht Ho. pose proof (ex_directory _ _ _ _ _ _ here) as (D1 & D2 & D3).
  pose proof (ex_small _ _ _ _ _ _ here) as Hs. cbv zeta. unfold CaptureValue32.
  rewrite (capture_ok data Hs 4 table functions o) by (auto; lia). cbn [and_then]. unfold exported.
  rewrite u32_small by lia. now destruct (_ && _).
Qed.

Lemma ordinal_of_range v o : ordinal_of v names ordinals = Some o -> 0 <= o < Z.of_nat (length functions).
Proof.
  destruct (ex_ordinals _ _ _ _ _ _ here) as [_ H]. revert H. generalize ordinals. clear here.
  induction names as [|w ws IH]; intros [|x xs] H E; try discriminate E. inversion H; subst. cbn [ordinal_of] in E.
  destruct (list_eq_dec Z.eq_dec w v); [now inversion E; subst|eauto].
Qed.

Lemma GetProcAddressEx_run v ordinalIn : no_zero v ->
  ordinalIn = DIANA_PE_INVALID_ORDINAL_VALUE \/ 0 <= ordinalIn < Z.of_nat (length functions) ->
  DianaPeFile_GetProcAddressEx data pPeFile v ordinalIn =
  if ordinalIn =? DIANA_PE_INVALID_ORDINAL_VALUE then
    match names with
    | [] => Err DI_ERROR
    | _ :: _ =>
        match ordinal_of v names ordinals with
        | Some o => Ok (exported pe (nth (Z.to_nat o) functions 0))
        | None => Err DI_NOT_FOUND
        end
    end
  else Ok (exported pe (nth (Z.to_nat ordinalIn) functions 0)).
Proof.
  intros Hv Ho. pose proof (ex_directory _ _ _ _ _ _ here) as D. cbv zeta in D. destruct D as (D1 & D2 & D3).
  pose proof (ex_tables _ _ _ _ _ _ here) as T. cbv zeta in T. destruct T as (T1 & T2 & T3 & places & T4 & T5).
  pose proof (ex_small _ _ _ _ _ _ here) as Hs. unfold DianaPeFile_GetProcAddressEx.
  rewrite (ex_impl _ _ _ _ _ _ here), (ex_mapped _ _ _ _ _ _ here). cbn [Z.eqb negb].
  set (d := directory pe DIANA_IMAGE_DIRECTORY_ENTRY_EXPORT) in *.
  destruct (Z.eqb_spec (d_VirtualAddress d) 0); [lia|]. destruct (Z.eqb_spec (d_Size d) 0); [lia|]. cbn [orb].
  destruct (Z.ltb_spec (moduleSize data) (d_VirtualAddress d)); [lia|].
  destruct (Z.ltb_spec (moduleSize data) (d_Size d)); [lia|].
  destruct (Z.ltb_spec (moduleSize data - d_Size d) (d_VirtualAddress d)); [lia|]. cbv zeta.
  unfold d at 1 2 3 4. rewrite !field_ok by lia. fold d. cbn [and_then]. rewrite validate_ok by (destruct T2; lia). cbn [and_then].
  rewrite T1. destruct (Z.eqb_spec ordinalIn DIANA_PE_INVALID_ORDINAL_VALUE) as [->|N].
  - rewrite !validate_ok by (destruct T4, T3; lia). cbn [and_then].
    rewrite (find_name_ok v _ _ places) by auto.
    destruct (list_eq_dec (list_eq_dec Z.eq_dec) names []) as [E|Ne]; [now rewrite E|].
    assert (Epat : forall X (a b : X), match names with [] => a | _ :: _ => b end = b) by (now destruct names). rewrite !Epat.
    destruct (ordinal_of v names ordinals) as [o|] eqn:Eo; cbn [and_then]; [|reflexivity].
    apply (function_ok _ _ T2 (ordinal_of_range v o Eo)).
  - destruct Ho as [->|Ho]; [contradiction|].
    cbn [and_then]. apply (function_ok _ _ T2 Ho).
Qed.
End Lookup.
