(* ===== verification/PeProperties.v ===== *)
(** What the loader of PE files promises: the headers are read exactly when the file has them, a file is
    mapped to its image, relocations move their targets and nothing else, moving a module twice is moving
    it once, and an export is found exactly when its name is in the table. *)

From Stdlib Require Import ZArith Lia List Bool Sorted.
Import ListNotations.
From S2P Require Import Prelude Words Status DecTypes MemStreams DecBufferProofs CopyStreams PeFile PeProofs PeRelocProofs PeExportProofs.
Local Open Scope Z_scope.
Local Open Scope diana_scope.

(** ** A file of 448 bytes

    One section of 96 bytes behind the headers, which is 112 bytes long in memory: at 0x164 an address, at
    0x168 the directory of relocations, at 0x178 the one of exports, with the names "a" and "bc". *)
Definition sample_file : list Z :=
  ([0x4D; 0x5A] ++ repeat 0 58 ++ le_encode 4 64) ++
  ([0x50; 0x45; 0; 0] ++ le_encode 2 0x14c ++ le_encode 2 1 ++ repeat 0 16) ++
  (repeat 0 16 ++ le_encode 4 0x160 ++ repeat 0 8 ++ le_encode 4 0x400000 ++ repeat 0 28 ++ le_encode 4 352 ++
   repeat 0 32 ++ (le_encode 4 376 ++ le_encode 4 40) ++ repeat 0 32 ++ (le_encode 4 360 ++ le_encode 4 12) ++ repeat 0 80) ++
  ([46; 116; 101; 120; 116; 0; 0; 0] ++ le_encode 4 112 ++ le_encode 4 352 ++ le_encode 4 96 ++ le_encode 4 352 ++ repeat 0 16) ++
  ([0xC3; 0; 0; 0] ++ le_encode 4 0x400160) ++
  (le_encode 4 0x160 ++ le_encode 4 12 ++ le_encode 2 0x3004 ++ le_encode 2 0) ++ repeat 0 4 ++
  (repeat 0 20 ++ le_encode 4 2 ++ le_encode 4 2 ++ le_encode 4 416 ++ le_encode 4 424 ++ le_encode 4 432) ++
  (le_encode 4 0x160 ++ le_encode 4 380) ++ (le_encode 4 436 ++ le_encode 4 438) ++
  (le_encode 2 1 ++ le_encode 2 0) ++ [97; 0] ++ [98; 99; 0] ++ repeat 0 7.

Definition file_stream : DianaMemoryStream := Diana_InitMemoryStream sample_file 448.
Definition sample_impl : Diana_PeFile_impl := Eval vm_compute in
  match DianaPeFile_Init (true, true) 448 DIANA_PE_FILE_FLAGS_FILE_MODE file_stream with
  | (_, f, _) => match pImpl f with Some pe => pe | None => mkDiana_PeFile_impl (dos_header []) (nt_headers []) [] 0 0 0 0 0 [] 0 0 0 end
  end.
(** Memory for the module, at 0x500000. *)
Definition sample_memory : DianaMemoryStream := Diana_InitMemoryStreamEx2 (repeat 0xCC 480) 480 true 0x500000.

Lemma forall_byte bs : forallb (fun b => (0 <=? b) && (b <? 256)) bs = true -> Forall byte_ok bs.
Proof. intros H. apply Forall_forall. intros b Hb. apply forallb_forall with (x := b) in H; [|exact Hb]. unfold byte_ok. lia. Qed.

Lemma file_stream_ok : memory_ok sample_file 448 file_stream.
Proof. apply init_memory_ok; [apply forall_byte; vm_compute; reflexivity|split; discriminate|reflexivity]. Qed.

Lemma sample_memory_ok : writable_ok sample_memory.
Proof. constructor; cbn; auto; lia. Qed.

(** ** The headers *)

(** C14: [DianaPeFile_Init] succeeds exactly on the files that have all of the headers, with the two
    signatures, a known machine and an optional header and a table of sections which lie inside of the
    file; what it keeps is then what these headers say, whatever the bytes are.  Any other file is refused
    and nothing is kept of it; no byte outside of the file is ever read. *)
Theorem pe_headers_are_read file size sizeOfFile flags t : memory_ok file size t -> 0 <= sizeOfFile < 2 ^ 63 ->
  match DianaPeFile_Init (true, true) sizeOfFile flags t with
  | (Ok _, f, t') =>
      memory_ok file size t' /\ pe_flags f = flags /\
      exists pe l wide, pImpl f = Some pe /\ pe_headers file size sizeOfFile pe l wide
  | (Err _, f, _) => pImpl f = None /\ forall pe l wide, ~ pe_headers file size sizeOfFile pe l wide
  | (Crash, _, _) => False
  end.
Proof.
  intros Ht Hs. unfold DianaPeFile_Init. pose proof (init_impl_run file size sizeOfFile t Ht Hs) as R.
  destruct (Diana_InitPeFileImpl _ _ _) as [[pe|c|] t']; [|now split|exact R].
  destruct R as ((l & wide & P) & Ht'). split; [exact Ht'|]. split; [reflexivity|]. now exists pe, l, wide.
Qed.

Lemma pe_headers_are_read_witness :
  fst (fst (DianaPeFile_Init (true, true) 448 1 file_stream)) = Ok tt /\
  (exists l wide, pe_headers sample_file 448 448 sample_impl l wide) /\
  (forall pe l wide, ~ pe_headers sample_file 351 351 pe l wide).
Proof.
  split; [vm_compute; reflexivity|]. split.
  - pose proof (pe_headers_are_read sample_file 448 448 1 file_stream file_stream_ok ltac:(lia)) as R.
    assert (E : DianaPeFile_Init (true, true) 448 1 file_stream =
      (Ok tt, mkDiana_PeFile (Some sample_impl) 1, snd (DianaPeFile_Init (true, true) 448 1 file_stream)))
      by (vm_compute; reflexivity).
    rewrite E in R. destruct R as (_ & _ & pe & l & wide & [= <-] & P). now exists l, wide.
  - assert (M : memory_ok sample_file 351 (Diana_InitMemoryStream sample_file 351))
      by (apply init_memory_ok; [apply forall_byte; vm_compute; reflexivity|split; discriminate|reflexivity]).
    pose proof (pe_headers_are_read sample_file 351 351 1 _ M ltac:(lia)) as R.
    assert (E : fst (fst (DianaPeFile_Init (true, true) 351 1 (Diana_InitMemoryStream sample_file 351))) = Err DI_END_OF_STREAM)
      by (vm_compute; reflexivity).
    destruct (DianaPeFile_Init _ _ _ _) as [[o f] t']. cbn [fst] in E. subst o. exact (proj2 R).
Defined.

(** ** The image *)

Definition only_mapped (pe : Diana_PeFile_impl) : Diana_PeFile := mkDiana_PeFile (Some pe) DIANA_PE_FILE_FLAGS_FILE_MODE.

(** C12: A file whose headers were read is mapped without relocation exactly when it is [mappable]: its
    SizeOfHeaders is not zero and greater neither than sizeOfModule nor than the file; for each section
    SizeOfRawData and PointerToRawData are each at most sizeOfModule, whether the section has data or not,
    and the file has the data that is to be mapped; and the memory has room for the headers and for each
    section that is not empty, at addresses whose ends are below 2^64.  The memory then holds the image:
    the headers, over them the sections in their order, each the bytes of the file and zeros behind them;
    when no section is empty and none overlap, each is there in full.  A file that is not mappable gives an
    error, never a loop or an access out of range. *)
Theorem map_builds_image file size pageSize sizeOfFile pe l wide malloc fuel address t u :
  memory_ok file size t -> pe_headers file size sizeOfFile pe l wide -> writable_ok u -> 0 <= address -> 8 <= pageSize < 2 ^ 31 ->
  match DianaPeFile_MapEx malloc fuel (only_mapped pe) address pageSize DIANA_PE_MAP_DO_NOT_RELOCATE (t, u) with
  | (Ok (Some _), (_, u')) =>
      mappable size pe address u /\ u' = image file pe address u /\
      (Forall (fun h => 0 < virtual_size h) (pCapturedSections pe) ->
       ForallOrdPairs ranges_apart (map (in_memory address) (pCapturedSections pe)) ->
       Forall (fun h => bytes_at u' (address + VirtualAddress h) (virtual_size h) = section_image file h) (pCapturedSections pe))
  | (Err _, _) => ~ mappable size pe address u
  | _ => False
  end.
Proof.
  intros Ht P Hu Ha Hp. destruct (pe_headers_fields file size sizeOfFile pe l wide t Ht P) as (Hh & Hs & _).
  destruct (MapEx_run file size pageSize ltac:(lia) malloc fuel pe DIANA_PE_FILE_FLAGS_FILE_MODE DIANA_PE_MAP_DO_NOT_RELOCATE
    address t u Ht Hu Hh Hs Ha ltac:(lia) ltac:(discriminate)) as [(M & (t' & Ht' & E) & Hw)|(M & c & s' & E)];
    unfold only_mapped; rewrite E; [|exact M].
  cbn [Z.land Z.eqb DIANA_PE_MAP_DO_NOT_RELOCATE Pos.land]. split; [exact M|]. split; [reflexivity|]. intros Hv Hd.
  assert (Hlen : size <= Z.of_nat (length file)) by (destruct Ht; lia). destruct M as [M1 (M2 & M3) M4].
  assert (L : Z.of_nat (length (buf_bytes file 0 (sizeOfHeaders pe))) = sizeOfHeaders pe) by (rewrite buf_bytes_length; lia).
  apply (image_sections file size pe address Hlen); auto.
  - apply written_ok; [exact Hu|now rewrite L].
  - eapply Forall_impl; [|exact M4]. intros h []. constructor; auto.
Qed.

Lemma sample_headers : exists l wide, pe_headers sample_file 448 448 sample_impl l wide.
Proof.
  pose proof (init_impl_run sample_file 448 448 file_stream file_stream_ok ltac:(lia)) as R.
  assert (E : fst (Diana_InitPeFileImpl (true, true) 448 file_stream) = Ok sample_impl) by (vm_compute; reflexivity).
  destruct (Diana_InitPeFileImpl _ _ _) as [o t']. cbn [fst] in E. subst o. exact (proj1 R).
Qed.

Abbreviation sample_mapped := (DianaPeFile_MapEx true 3 (only_mapped sample_impl) 0x500000 64
  DIANA_PE_MAP_DO_NOT_RELOCATE (file_stream, sample_memory)).

Lemma map_builds_image_witness :
  fst sample_mapped = Ok (Some tt) /\
  mappable 448 sample_impl 0x500000 sample_memory /\
  bytes_at (snd (snd sample_mapped)) 0x500000 480 = sample_file ++ repeat 0 16 ++ repeat 0xCC 16.
Proof.
  split; [vm_compute; reflexivity|]. split; [|vm_compute; reflexivity].
  destruct sample_headers as (l & wide & P).
  pose proof (map_builds_image sample_file 448 64 448 sample_impl l wide true 3 0x500000 file_stream sample_memory
    file_stream_ok P sample_memory_ok ltac:(lia) ltac:(lia)) as R.
  assert (E : fst sample_mapped = Ok (Some tt)) by (vm_compute; reflexivity).
  destruct sample_mapped as [o [t' u']]. cbn [fst] in E. subst o. exact (proj1 R).
Defined.

(** ** Relocations *)

(** C13: [DianaPeFile_Map] maps the image and moves it to its address: every place that the directory of
    relocations names is moved by the distance to the address the file was linked for, as its type says,
    the header gets the new address, and no other byte of the image changes.  This takes one round more
    than the directory has blocks. *)
Theorem map_relocates file size pageSize sizeOfFile pe l wide fuel address blocks t u :
  memory_ok file size t -> pe_headers file size sizeOfFile pe l wide -> writable_ok u -> 0 <= address -> 8 <= pageSize < 2 ^ 31 ->
  mappable size pe address u -> relocatable pe address blocks (image file pe address u) -> (length blocks < fuel)%nat ->
  exists t' u', DianaPeFile_Map true fuel (only_mapped pe) address pageSize (t, u) = (Ok (Some tt), (t', u')) /\
    relocated_by pe address (u64 (address - imageBase pe)) blocks (image file pe address u) u'.
Proof.
  intros Ht P Hu Ha Hp M R Hf. destruct (pe_headers_fields file size sizeOfFile pe l wide t Ht P) as (Hh & Hs & _).
  destruct (Relocate_run fuel pe address blocks _ R Hf) as (u' & Er & Hr).
  destruct (MapEx_run file size pageSize ltac:(lia) true fuel pe DIANA_PE_FILE_FLAGS_FILE_MODE 0
    address t u Ht Hu Hh Hs Ha ltac:(lia) ltac:(discriminate)) as [(_ & (t' & Ht' & E) & Hw)|(N & _)]; [|contradiction].
  exists t', u'. split; [|exact Hr]. unfold DianaPeFile_Map, only_mapped. rewrite E.
  change (Z.land 0 DIANA_PE_MAP_DO_NOT_RELOCATE =? 0) with true. cbv iota. now rewrite Er.
Qed.

Definition sample_blocks : list (Z * list Z) := [(0x160, [0x3004; 0])].
Definition sample_image : DianaMemoryStream := Eval vm_compute in image sample_file sample_impl 0x500000 sample_memory.

Lemma sample_relocatable : relocatable sample_impl 0x500000 sample_blocks sample_image.
Proof.
  assert (Et : targets 0x500000 sample_blocks = [(0x500164, 3)]) by (vm_compute; reflexivity).
  assert (Ef : base_field sample_impl = 116) by (vm_compute; reflexivity).
  assert (Hunt : forall a n, apart 0x500164 4 a n -> untouched [(0x500164, 3)] a n)
    by (intros a n H p m [<-|[]] [= <-]; exact H).
  constructor; rewrite ?Et, ?Ef.
  - constructor; try reflexivity; vm_compute; discriminate.
  - apply forall_byte. vm_compute. reflexivity.
  - lia.
  - vm_compute. split; [discriminate|reflexivity].
  - now left.
  - constructor; [|constructor]. split; [vm_compute; split; [discriminate|reflexivity]|].
    repeat constructor; discriminate.
  - constructor; [|constructor]. intros n [= <-]. split; vm_compute; discriminate.
  - constructor; [constructor|constructor].
  - split; [split; vm_compute; discriminate|]. apply Hunt. right. vm_compute. discriminate.
  - cbv zeta. split; [vm_compute; reflexivity|]. split; [vm_compute; discriminate|]. intros _.
    split; [vm_compute; split; reflexivity|]. split; [split; vm_compute; discriminate|]. split; [vm_compute; reflexivity|].
    split; [apply Hunt; left; vm_compute; discriminate|]. left. vm_compute. discriminate.
Qed.

Abbreviation sample_loaded := (DianaPeFile_Map true 3 (only_mapped sample_impl) 0x500000 64 (file_stream, sample_memory)).

Lemma map_relocates_witness :
  fst sample_loaded = Ok (Some tt) /\
  buf_load (pBuffer (snd (snd sample_loaded))) 0x164 4 = 0x500160 /\
  bytes_at (snd (snd sample_loaded)) 0x500164 4 =
    relocated DIANA_IMAGE_REL_BASED_HIGHLOW 0x100000 (bytes_at sample_image 0x500164 4) /\
  bytes_at (snd (snd sample_loaded)) 0x500074 4 = le_encode 4 0x500000.
Proof.
  split; [vm_compute; reflexivity|]. split; [vm_compute; reflexivity|].
  destruct sample_headers as (l & wide & P).
  assert (M : mappable 448 sample_impl 0x500000 sample_memory).
  { constructor; [vm_compute; repeat split; discriminate|split; [split|]; vm_compute; (discriminate||reflexivity)|].
    constructor; [|constructor]. constructor; vm_compute; try discriminate; try reflexivity; repeat split; discriminate. }
  destruct (map_relocates sample_file 448 64 448 sample_impl l wide 3 0x500000 sample_blocks file_stream sample_memory
    file_stream_ok P sample_memory_ok ltac:(lia) ltac:(lia) M sample_relocatable ltac:(cbn; lia)) as (t' & u' & E & R).
  rewrite E. cbn [snd]. destruct R as [_ R1 R2 _]. split; [|exact R2].
  apply (R1 (0x500164, 3) 4); [vm_compute; now left|reflexivity].
Defined.

(** C16: Where a module was on its way does not matter.  A module that is relocated to [a] and from there, as a
    module linked for [a], to [b] has the bytes of one that is relocated to [b] at once; and when [b] is the
    address that it was linked for, all its bytes are the original ones again.  A relocation of the upper 16
    bits of an address loses the lower ones, so that for these [a] has to be a multiple of 64 KB away. *)
Theorem relocations_compose pe a b blocks fuel u :
  relocatable pe a blocks u -> (length blocks < fuel)%nat ->
  0 <= b -> b + 2 ^ 33 <= 2 ^ 64 -> 0 <= addressDifference u + (b - a) ->
  Forall (fun p => exact_for (snd p) (a - imageBase pe)) (targets a blocks) ->
  exists u1 u2 u3,
    DianaPeFile_Relocate true fuel pe a u = (Ok (Some tt), u1) /\
    DianaPeFile_Relocate true fuel (loaded_at a pe) b (rebased (b - a) u1) = (Ok (Some tt), u2) /\
    DianaPeFile_Relocate true fuel pe b (rebased (b - a) u) = (Ok (Some tt), u3) /\
    pBuffer u2 = pBuffer u3 /\
    (b = imageBase pe -> bytes_at u (a + base_field pe) (dianaMode pe) = le_encode (Z.to_nat (dianaMode pe)) b ->
     pBuffer u2 = pBuffer u).
Proof.
  intros R Hf Hb0 Hb Hd Hx. pose proof R as [Hu Hbytes (Ha0 & Ha) Hbase _ _ _ _ _ _].
  destruct (Relocate_run fuel pe a blocks u R Hf) as (u1 & E1 & R1).
  pose proof R1 as [(A1 & A2 & A3 & A4) A5 A6 A7].
  assert (Q2 : relocatable (loaded_at a pe) b blocks (rebased (b - a) u1)).
  { apply (relocatable_elsewhere pe a b a blocks u u1 R); auto; lia. }
  assert (Q3 : relocatable pe b blocks (rebased (b - a) u)).
  { rewrite <- (loaded_at_same pe) at 1. apply (relocatable_elsewhere pe a b (imageBase pe) blocks u u R); auto. }
  destruct (Relocate_run fuel _ b blocks _ Q2 Hf) as (u2 & E2 & R2).
  destruct (Relocate_run fuel _ b blocks _ Q3 Hf) as (u3 & E3 & R3).
  exists u1, u2, u3. split; [exact E1|]. split; [exact E2|]. split; [exact E3|].
  assert (E : pBuffer u2 = pBuffer u3) by exact (relocated_twice pe a b blocks u u1 u2 u3 R R1 R2 R3 Hx).
  split; [exact E|]. intros Eb Hfield. rewrite E.
  change (pBuffer u) with (pBuffer (rebased (b - a) u)). apply (relocated_to_base pe b blocks _ _ Q3 Eb); [|exact R3].
  replace (b + base_field pe) with (a + base_field pe + (b - a)) by lia. now rewrite bytes_at_rebased.
Qed.

Lemma relocations_compose_witness :
  exists u1 u2, DianaPeFile_Relocate true 2 sample_impl 0x500000 sample_image = (Ok (Some tt), u1) /\
    DianaPeFile_Relocate true 2 (loaded_at 0x500000 sample_impl) 0x400000 (rebased (-0x100000) u1) = (Ok (Some tt), u2) /\
    bytes_at u1 0x500164 4 <> bytes_at sample_image 0x500164 4 /\ pBuffer u2 = pBuffer sample_image.
Proof.
  destruct (relocations_compose sample_impl 0x500000 0x400000 sample_blocks 2 sample_image sample_relocatable
    ltac:(cbn; lia) ltac:(lia) ltac:(lia) ltac:(vm_compute; discriminate)) as (u1 & u2 & u3 & E1 & E2 & _ & _ & E).
  { constructor; [intros [=]|constructor]. }
  exists u1, u2. split; [exact E1|]. split; [exact E2|]. split; [|apply E; vm_compute; reflexivity].
  assert (E1' : pBuffer (snd (DianaPeFile_Relocate true 2 sample_impl 0x500000 sample_image)) = pBuffer u1) by (now rewrite E1).
  assert (E1d : addressDifference (snd (DianaPeFile_Relocate true 2 sample_impl 0x500000 sample_image)) = addressDifference u1)
    by (now rewrite E1).
  unfold bytes_at. rewrite <- E1', <- E1d. vm_compute. discriminate.
Defined.

(** ** Exports *)

(** C15: Looking up a name in the exports of a mapped module is looking for it among all of its names: with the
    sorted tables of a module inside of the memory, [DianaPeFile_GetProcAddressEx] returns the function of
    the name's ordinal, or of the ordinal that was asked for, as an offset in the module or as the place of
    a forwarder; it reports that there is no such name exactly when none of the names is equal, and the
    binary search ends within its fuel. *)
Theorem export_lookup_is_search data pPeFile pe functions names ordinals v ordinalIn :
  exports data pPeFile pe functions names ordinals -> no_zero v ->
  ordinalIn = DIANA_PE_INVALID_ORDINAL_VALUE \/ 0 <= ordinalIn < Z.of_nat (length functions) ->
  DianaPeFile_GetProcAddressEx data pPeFile v ordinalIn =
  if ordinalIn =? DIANA_PE_INVALID_ORDINAL_VALUE then
    match names with
    | [] => Err DI_ERROR
    | _ :: _ =>
        match ordinal_of v names ordinals with
        | Some o => Ok (exported pe (nth (Z.to_nat o) functions 0))
        | None => Err DI_NOT_FOUND
        end
    end
  else Ok (exported pe (nth (Z.to_nat ordinalIn) functions 0)).
Proof. intros. now apply (GetProcAddressEx_run data pPeFile pe functions names ordinals). Qed.

Abbreviation sample_module := (pBuffer sample_image).

Lemma sample_exports : exports sample_module (mkDiana_PeFile (Some sample_impl) 0) sample_impl [0x160; 380] [[97]; [98; 99]] [1; 0].
Proof.
  constructor; try reflexivity; cbv zeta.
  - vm_compute. repeat split; discriminate.
  - split; [vm_compute; reflexivity|].
    assert (T : forall w table values, (0 <? table) && (table + w * Z.of_nat (length values) <? moduleSize sample_module) = true ->
      map (fun k => buf_load sample_module (table + w * Z.of_nat k) w) (seq 0 (length values)) = values ->
      table_at sample_module w table values).
    { intros w table values H E. apply andb_prop in H as [H1 H2]. apply Z.ltb_lt in H1, H2.
      split; [exact H1|]. split; [exact H2|]. intros k Hk. rewrite <- E.
      rewrite nth_indep with (d' := buf_load sample_module (table + w * Z.of_nat 0) w)
        by (now rewrite length_map, length_seq).
      rewrite (map_nth (fun k => buf_load sample_module (table + w * Z.of_nat k) w)), seq_nth; auto. }
    split; [apply T; vm_compute; reflexivity|]. split; [apply T; vm_compute; reflexivity|].
    exists [436; 438]. split; [apply T; vm_compute; reflexivity|].
    repeat constructor; try (vm_compute; reflexivity); try (eexists; vm_compute; reflexivity).
  - repeat constructor.
  - vm_compute. repeat constructor; discriminate.
Qed.

Lemma export_lookup_is_search_witness :
  DianaPeFile_GetProcAddress sample_module (mkDiana_PeFile (Some sample_impl) 0) [98; 99] = Ok (0x160, 0) /\
  DianaPeFile_GetProcAddress sample_module (mkDiana_PeFile (Some sample_impl) 0) [97] = Ok (0, 380) /\
  DianaPeFile_GetProcAddress sample_module (mkDiana_PeFile (Some sample_impl) 0) [98] = Err DI_NOT_FOUND.
Proof.
  split; [|split]; (etransitivity;
    [apply (export_lookup_is_search _ _ _ _ _ _ _ DIANA_PE_INVALID_ORDINAL_VALUE sample_exports); [repeat constructor|now left]
    |vm_compute; reflexivity]).
Defined.
