(* ===== verification/ListProofs.v ===== *)
(** The containers: the lists of nodes in memory as sequences of addresses, and the stack over blocks as
    a sequence of items; the properties of the three. *)

From Stdlib Require Import ZArith Lia List Bool.
From stdpp Require Import gmap list fin_sets infinite.
From S2P Require Import Prelude Words Lists.
From S2P Require Import Status Stack.
#[local] Set Warnings "-clear-no-such-hyp".
Local Open Scope Z_scope.
Local Open Scope diana_scope.

(** ** Memory *)

Section Memory.
Context {Node St : Type} `{NodeMemory Node St}.

Lemma load_run p n (s : St) : nodes s !! p = Some n -> load p s = (Ok n, s).
Proof. intros E. unfold load. now rewrite E. Qed.

Lemma update_run p f n h (s : St) : h !! p = Some n ->
  update p f (set_nodes h s) = (Ok tt, set_nodes (<[p := f n]> h) s).
Proof. intros E. unfold update. now rewrite nodes_set, E, set_nodes_set. Qed.

Lemma update_raw p f n (s : St) : nodes s !! p = Some n ->
  update p f s = (Ok tt, set_nodes (<[p := f n]> (nodes s)) s).
Proof. intros E. unfold update. now rewrite E. Qed.

Lemma load_set p n h (s : St) : h !! p = Some n -> load p (set_nodes h s) = (Ok n, set_nodes h s).
Proof. intros E. apply load_run. now rewrite nodes_set. Qed.
(** The observer is called for each node in turn, until it says that it is done or fails. *)
Fixpoint visit (pObserver : Z -> M St bool) (ps : list Z) : M St unit :=
  match ps with
  | [] => ret tt
  | p :: ps => let! bDone := pObserver p in if bDone then ret tt else visit pObserver ps
  end.

(** A call for [p] leaves the links of the nodes behind it. *)
Definition leaves (pObserver : Z -> M St bool) (ps : list Z) : Prop :=
  forall p s q, q ∈ ps -> q <> p -> nodes (snd (pObserver p s)) !! q = nodes s !! q.

End Memory.

(** One access of a node whose content is known. *)
Ltac find_node :=
  first [ eassumption
        | rewrite lookup_insert_eq; reflexivity
        | rewrite lookup_insert_ne by congruence; find_node ].
Ltac node_step :=
  erewrite bind_run;
    [|first [ eapply load_run; find_node | eapply load_set; find_node
            | eapply update_raw; find_node | eapply update_run; find_node ]].

(** ** Segments

    [dseg h pp ps nn]: the nodes [ps] are linked both ways; before them is [pp], after them [nn]. *)

Definition first_of (ps : list Z) (nn : Z) : Z := match ps with [] => nn | p :: _ => p end.
Fixpoint last_of (pp : Z) (ps : list Z) : Z := match ps with [] => pp | p :: ps => last_of p ps end.

Fixpoint dseg (h : gmap Z Diana_ListNode) (pp : Z) (ps : list Z) (nn : Z) : Prop :=
  match ps with
  | [] => True
  | p :: ps => h !! p = Some (mkDiana_ListNode (first_of ps nn) pp) /\ dseg h p ps nn
  end.

Lemma first_of_app xs ys nn : first_of (xs ++ ys) nn = first_of xs (first_of ys nn).
Proof. by destruct xs. Qed.

Lemma last_of_app xs ys pp : last_of pp (xs ++ ys) = last_of (last_of pp xs) ys.
Proof. revert pp. induction xs; intros; cbn; auto. Qed.

Lemma dseg_app h xs ys pp nn :
  dseg h pp (xs ++ ys) nn <-> dseg h pp xs (first_of ys nn) /\ dseg h (last_of pp xs) ys nn.
Proof.
  revert pp. induction xs as [|x xs IH]; intros pp; cbn; [tauto|].
  rewrite IH, first_of_app. tauto.
Qed.

(** A segment does not see the other nodes. *)
Lemma dseg_frame h h' ps pp nn : (forall p, p ∈ ps -> h' !! p = h !! p) -> dseg h pp ps nn -> dseg h' pp ps nn.
Proof.
  revert pp. induction ps as [|p ps IH]; intros pp F; cbn; [done|]. intros (E & D).
  split; [|apply IH; [|exact D]; intros; apply F; by right]. rewrite F; [done|by left].
Qed.

Lemma dseg_in h ps pp nn p : dseg h pp ps nn -> p ∈ ps -> is_Some (h !! p).
Proof.
  revert pp. induction ps as [|q ps IH]; intros pp; cbn; [by intros ? ?%elem_of_nil|].
  intros (E & D) [->|Hp]%elem_of_cons; [by eexists|by eapply IH].
Qed.

(** The empty segment or one with a last node. *)
Lemma split_last {A} (ps : list A) : ps = [] \/ exists xs q, ps = xs ++ [q].
Proof. induction ps as [|q xs _] using rev_ind; [by left|right; by exists xs, q]. Qed.

(** ** Whole lists *)

Record dlist (h : gmap Z Diana_ListNode) (l : Diana_List) (ps : list Z) : Prop := {
  dl_nodup : NoDup ps;
  dl_null : nullptr ∉ ps;
  dl_first : m_pFirst l = first_of ps nullptr;
  dl_last : m_pLast l = last_of nullptr ps;
  dl_seg : dseg h nullptr ps nullptr
}.

(** The size that the head keeps is that of the list. *)
Definition counted (l : Diana_List) (ps : list Z) : Prop := m_size l = u64 (Z.of_nat (length ps)).

(** A node outside of a list, ready to be put in. *)
Definition fresh_node (h : gmap Z Diana_ListNode) (p : Z) (ps : list Z) : Prop :=
  is_Some (h !! p) /\ p <> nullptr /\ p ∉ ps.

Lemma counted_succ l ps (ps' : list Z) : counted l ps -> length ps' = S (length ps) ->
  u64 (m_size l + 1) = u64 (Z.of_nat (length ps')).
Proof. intros -> ->. unfold u64. rewrite Zplus_mod_idemp_l. f_equal. lia. Qed.

Lemma counted_pred l ps (ps' : list Z) : counted l ps -> length ps = S (length ps') ->
  u64 (m_size l - 1) = u64 (Z.of_nat (length ps')).
Proof. intros -> E. unfold u64. rewrite Zminus_mod_idemp_l. f_equal. lia. Qed.

(** Only the nodes [ps] of the memory were written. *)
Definition writes_only (ps : list Z) (h h' : gmap Z Diana_ListNode) : Prop :=
  forall p, p ∉ ps -> h' !! p = h !! p.

Section Operations.
Context {St : Type} `{NodeMemory Diana_ListNode St}.

(** [m] gives a list of [ps'] with the size [n], and writes nothing but [ps']. *)
Definition gives (m : M St Diana_List) (s : St) (touched ps' : list Z) (n : Z) : Prop :=
  exists h' l', m s = (Ok l', set_nodes h' s) /\ dlist h' l' ps' /\ m_size l' = n /\
    writes_only touched (nodes s) h'.

Lemma last_of_nonempty xs q pp : last_of pp (xs ++ [q]) = q.
Proof. rewrite last_of_app. done. Qed.

Lemma nodup_insert (xs : list Z) p ys : NoDup (xs ++ ys) -> p ∉ xs ++ ys -> NoDup (xs ++ p :: ys).
Proof. intros Hd Hp. rewrite <- Permutation_middle. by constructor. Qed.

(** The two sides of a node of the list. *)
Lemma nodup_split (xs : list Z) q ys : NoDup (xs ++ q :: ys) ->
  NoDup (xs ++ ys) /\ (forall r, r ∈ xs -> r <> q /\ (r ∉ ys)) /\ (q ∉ xs) /\ (q ∉ ys).
Proof.
  rewrite <- Permutation_middle. intros [Hq Hd]%NoDup_cons. split; [done|].
  apply NoDup_app in Hd as (_ & Hxy & _). set_solver.
Qed.

(** Resolves what a chain of insertions holds at a node. *)
Ltac framed := intros; rewrite ?lookup_insert_ne by set_solver; done.

Lemma PushBack_gives l p ps s : dlist (nodes s) l ps -> fresh_node (nodes s) p ps ->
  gives (Diana_PushBack l p) s (ps ++ [p]) (ps ++ [p]) (u64 (m_size l + 1)).
Proof.
  intros [Hd Hn Hf Hl Hs] ([n Ep] & Np & Hp). unfold gives, Diana_PushBack.
  assert (Hd' : NoDup (ps ++ [p])) by (apply (nodup_insert ps p []); rewrite ?app_nil_r; auto).
  assert (Hn' : nullptr ∉ ps ++ [p]) by set_solver.
  do 2 node_step.
  destruct (split_last ps) as [->|(xs & q & ->)].
  - rewrite Hl. cbn. eexists _, _. split; [reflexivity|]. split; [|split; [done|intros q Hq; framed]].
    constructor; cbn; auto. by simplify_map_eq.
  - rewrite Hl, last_of_nonempty.
    assert (Nq : q <> p) by set_solver. assert (Nq0 : q <> nullptr) by set_solver.
    apply dseg_app in Hs. destruct Hs as (Hx & Eq & _). cbn in Eq.
    destruct (Z.eqb_spec q nullptr); [done|]. cbn [negb]. do 2 node_step.
    eexists _, _. split; [reflexivity|]. split; [|split; [done|intros r Hr; framed]].
    apply NoDup_app in Hd as (_ & Hxq & _).
    constructor; cbn; auto.
    + rewrite Hf, !first_of_app. by destruct xs.
    + by rewrite last_of_nonempty.
    + rewrite <- app_assoc. apply dseg_app. cbn. split.
      * eapply dseg_frame; [|exact Hx]. intros r Hr.
        assert (r <> p) by set_solver. assert (r <> q) by (intros ->; apply (Hxq q); set_solver). framed.
      * by simplify_map_eq.
Qed.

Lemma PushFront_gives l p ps s : dlist (nodes s) l ps -> fresh_node (nodes s) p ps ->
  gives (Diana_PushFront l p) s (p :: ps) (p :: ps) (u64 (m_size l + 1)).
Proof.
  intros [Hd Hn Hf Hl Hs] ([n Ep] & Np & Hp). unfold gives, Diana_PushFront.
  assert (Hd' : NoDup (p :: ps)) by by constructor.
  assert (Hn' : nullptr ∉ p :: ps) by set_solver.
  do 2 node_step. destruct ps as [|q ps].
  - rewrite Hf. cbn. eexists _, _. split; [reflexivity|]. split; [|split; [done|intros q Hq; framed]].
    constructor; cbn; auto. by simplify_map_eq.
  - rewrite Hf. cbn [first_of] in *. destruct Hs as (Eq & Hs).
    assert (Nq : q <> p) by set_solver. assert (Nq0 : q <> nullptr) by set_solver.
    destruct (Z.eqb_spec q nullptr); [done|]. cbn [negb]. do 2 node_step.
    eexists _, _. split; [reflexivity|]. split; [|split; [done|intros r Hr; framed]].
    apply NoDup_cons in Hd as (Hq & _).
    constructor; cbn; auto. split; [by simplify_map_eq|]. split; [by simplify_map_eq|].
    eapply dseg_frame; [|exact Hs]. intros r Hr. 
    assert (r <> p) by set_solver. assert (r <> q) by set_solver. framed.
Qed.

(** In the middle the size stays what it was. *)
Lemma InsertAfter_gives l p q xs ys s : dlist (nodes s) l (xs ++ q :: ys) ->
  fresh_node (nodes s) p (xs ++ q :: ys) ->
  gives (Diana_InsertAfter l q p) s (p :: xs ++ q :: ys) (xs ++ q :: p :: ys)
    (match ys with [] => u64 (m_size l + 1) | _ => m_size l end).
Proof.
  intros D F. pose proof D as [Hd Hn Hf Hl Hs]. pose proof Hs as (Hx & Eq & Hy)%dseg_app.
  destruct ys as [|y ys].
  - unfold gives, Diana_InsertAfter. cbn [first_of] in Eq. node_step. rewrite Hl, last_of_nonempty, Z.eqb_refl.
    destruct (PushBack_gives l p _ s D F) as (h' & l' & E & D' & Es & W).
    exists h', l'. rewrite <- app_assoc in D'. split; [exact E|]. split; [exact D'|]. split; [exact Es|].
    intros r Hr. apply W. set_solver.
  - destruct F as ([n Ep] & Np & Hp). destruct Hy as (Ey & Hy). cbn [first_of] in *.
    destruct (nodup_split _ _ _ Hd) as (_ & Hxq & Hqx & Hqy).
    assert (Nlast : last_of nullptr (xs ++ q :: y :: ys) <> q).
    { rewrite last_of_app. cbn. intros E. apply Hqy. rewrite <- E. clear. revert y.
      induction ys as [|z ys IH]; intros y; cbn; [by left|right; apply IH]. }
    assert (q <> p) by set_solver. assert (y <> p) by set_solver. assert (y <> q) by set_solver.
    unfold gives, Diana_InsertAfter. node_step. rewrite Hl. cbn [m_pNext].
    destruct (Z.eqb_spec (last_of nullptr (xs ++ q :: y :: ys)) q); [done|]. do 4 node_step.
    eexists _, _. split; [reflexivity|]. split; [|split; [done|intros r Hr; framed]].
    assert (Hyd : y ∉ ys) by (rewrite (cons_middle q), app_assoc in Hd; by apply nodup_split in Hd as (_ & _ & _ & ?)).
    constructor; auto.
    + rewrite (cons_middle q), app_assoc. apply nodup_insert; rewrite <- app_assoc; auto.
    + set_solver.
    + rewrite Hf, !first_of_app. done.
    + rewrite Hl, !last_of_app. done.
    + apply dseg_app. cbn. split; [|split; [by simplify_map_eq|split; [by simplify_map_eq|split; [by simplify_map_eq|]]]].
      * eapply dseg_frame; [|exact Hx]. intros r Hr. destruct (Hxq r Hr).
        assert (r <> p) by set_solver. assert (r <> y) by set_solver. framed.
      * eapply dseg_frame; [|exact Hy]. intros r Hr.
        assert (r <> p) by set_solver. assert (r <> q) by set_solver. assert (r <> y) by set_solver. framed.
Qed.

Lemma InsertBefore_gives l p q xs ys s : dlist (nodes s) l (xs ++ q :: ys) ->
  fresh_node (nodes s) p (xs ++ q :: ys) ->
  gives (Diana_InsertBefore l q p) s (p :: xs ++ q :: ys) (xs ++ p :: q :: ys)
    (match xs with [] => u64 (m_size l + 1) | _ => m_size l end).
Proof.
  intros D F. pose proof D as [Hd Hn Hf Hl Hs]. pose proof Hs as (Hx & Eq & Hy)%dseg_app.
  destruct (split_last xs) as [->|(zs & z & ->)].
  - unfold gives, Diana_InsertBefore. cbn [app last_of] in *. node_step. rewrite Hf. cbn [first_of].
    rewrite Z.eqb_refl. exact (PushFront_gives l p _ s D F).
  - destruct F as ([n Ep] & Np & Hp). rewrite last_of_nonempty in Eq.
    rewrite <- app_assoc in *. cbn [app] in *.
    apply dseg_app in Hx. destruct Hx as (Hz & Ez & _). cbn [first_of] in Ez.
    destruct (nodup_split _ _ _ Hd) as (_ & Hzz & Hzin & Hzy).
    assert (Nz : z <> nullptr) by set_solver.
    assert (Nfirst : first_of (zs ++ z :: q :: ys) nullptr <> q).
    { destruct zs as [|w zs]; cbn [app first_of]; [set_solver|]. destruct (Hzz w); set_solver. }
    assert (q <> p) by set_solver. assert (z <> p) by set_solver. assert (z <> q) by set_solver.
    unfold gives, Diana_InsertBefore. node_step. rewrite Hf. cbn [m_pPrev].
    destruct (Z.eqb_spec (first_of (zs ++ z :: q :: ys) nullptr) q); [done|]. do 4 node_step.
    eexists _, _. split; [reflexivity|]. split; [|split; [by destruct zs|intros r Hr; framed]].
    assert (Hqy : q ∉ ys) by (rewrite (cons_middle z), app_assoc in Hd; by apply nodup_split in Hd as (_ & _ & _ & ?)).
    rewrite <- app_assoc. cbn [app]. constructor; auto.
    + rewrite (cons_middle z), app_assoc. apply nodup_insert; rewrite <- app_assoc; auto.
    + set_solver.
    + rewrite Hf, !first_of_app. done.
    + rewrite Hl, !last_of_app. done.
    + apply dseg_app. cbn. split; [|split; [by simplify_map_eq|split; [by simplify_map_eq|split; [by simplify_map_eq|]]]].
      * eapply dseg_frame; [|exact Hz]. intros r Hr. destruct (Hzz r Hr).
        assert (r <> p) by set_solver. assert (r <> q) by set_solver. framed.
      * eapply dseg_frame; [|exact Hy]. intros r Hr.
        assert (r <> p) by set_solver. assert (r <> q) by set_solver. assert (r <> z) by set_solver. framed.
Qed.

Lemma EraseNode_gives l q xs ys s : dlist (nodes s) l (xs ++ q :: ys) ->
  gives (Diana_EraseNode l q) s (xs ++ q :: ys) (xs ++ ys) (u64 (m_size l - 1)).
Proof.
  intros [Hd Hn Hf Hl Hs]. pose proof Hs as (Hx & Eq & Hy)%dseg_app.
  destruct (nodup_split _ _ _ Hd) as (Hd' & Hxq & Hqx & Hqy).
  assert (Hn' : nullptr ∉ xs ++ ys) by set_solver.
  assert (Nq0 : q <> nullptr) by set_solver.
  unfold gives, Diana_EraseNode. node_step. cbn [m_pNext m_pPrev].
  destruct ys as [|y ys]; destruct (split_last xs) as [->|(zs & z & ->)]; cbn [first_of app] in *;
    rewrite ?last_of_nonempty in *.
  - cbn [last_of Z.eqb nullptr negb] in *. rewrite bind_ret. node_step. cbn [m_pNext m_pPrev].
    cbn [last_of Z.eqb nullptr negb]. rewrite bind_ret. do 2 node_step.
    eexists _, _. split; [reflexivity|]. split; [|split; [done|intros r Hr; framed]]. by constructor.
  - assert (Nz : z <> nullptr) by set_solver. assert (z <> q) by set_solver.
    apply dseg_app in Hx. destruct Hx as (Hz & Ez & _). cbn [first_of] in *.
    cbn [Z.eqb nullptr negb]. rewrite bind_ret. node_step. cbn [m_pNext m_pPrev].
    destruct (Z.eqb_spec z nullptr); [done|]. cbn [negb]. rewrite bind_bind. node_step. rewrite bind_ret.
    do 2 node_step. eexists _, _. split; [reflexivity|]. split; [|split; [done|intros r Hr; framed]].
    rewrite app_nil_r in *. constructor; auto.
    + cbn. rewrite Hf, !first_of_app. done.
    + cbn. by rewrite last_of_nonempty.
    + apply dseg_app. split; [|split; [by simplify_map_eq|done]].
      eapply dseg_frame; [|exact Hz]. intros r Hr. apply nodup_split in Hd' as (_ & Hzz & _).
      destruct (Hzz r Hr). assert (r <> q) by (apply Hxq; set_solver). framed.
  - assert (Ny : y <> nullptr) by set_solver. assert (y <> q) by set_solver. destruct Hy as (Ey & Hy).
    destruct (Z.eqb_spec y nullptr); [done|]. cbn [negb]. rewrite bind_bind. node_step. rewrite bind_ret.
    node_step. cbn [m_pNext m_pPrev last_of Z.eqb nullptr negb]. rewrite bind_ret. do 2 node_step.
    eexists _, _. split; [reflexivity|]. split; [|split; [done|intros r Hr; framed]].
    constructor; auto. split; [by simplify_map_eq|].
    eapply dseg_frame; [|exact Hy]. intros r Hr. apply NoDup_cons in Hd' as (Hyy & _).
    assert (r <> y) by set_solver. assert (r <> q) by set_solver. framed.
  - assert (Ny : y <> nullptr) by set_solver. assert (y <> q) by set_solver. destruct Hy as (Ey & Hy).
    assert (Nz : z <> nullptr) by set_solver. assert (z <> q) by set_solver.
    apply dseg_app in Hx. destruct Hx as (Hz & Ez & _). cbn [first_of] in *.
    destruct (nodup_split _ _ _ Hd') as (_ & Hzyy & Hyz & Hyy).
    assert (y <> z) by set_solver.
    destruct (Z.eqb_spec y nullptr); [done|]. cbn [negb]. rewrite bind_bind. node_step. rewrite bind_ret.
    node_step. cbn [m_pNext m_pPrev].
    destruct (Z.eqb_spec z nullptr); [done|]. cbn [negb]. rewrite bind_bind. node_step. rewrite bind_ret.
    do 2 node_step. eexists _, _. split; [reflexivity|]. split; [|split; [done|intros r Hr; framed]].
    constructor; auto.
    + rewrite Hf, !first_of_app. done.
    + rewrite Hl, !last_of_app. done.
    + rewrite <- app_assoc in *. apply dseg_app. cbn [app dseg first_of].
      destruct (nodup_split _ _ _ Hd') as (_ & Hzz & Hzin & _).
      split; [|split; [by simplify_map_eq|split; [by simplify_map_eq|]]].
      * eapply dseg_frame; [|exact Hz]. intros r Hr. destruct (Hzz r Hr).
        assert (r <> q) by (apply Hxq; set_solver). assert (r <> y) by set_solver. framed.
      * eapply dseg_frame; [|exact Hy]. intros r Hr. destruct (Hzyy z ltac:(set_solver)) as (_ & Hzy).
        assert (r <> y) by set_solver. assert (r <> z) by set_solver. assert (r <> q) by set_solver. framed.
Qed.

(** The erased node is left without neighbours. *)
Lemma erased_alone l q s l' s' : Diana_EraseNode l q s = (Ok l', s') ->
  nodes s' !! q = Some (mkDiana_ListNode nullptr nullptr).
Proof.
  intros E. unfold Diana_EraseNode in E. do 4 apply bind_ok_inv in E as (? & ? & _ & E).
  apply bind_ok_inv in E as (? & s1 & E1 & E). apply bind_ok_inv in E as (? & s2 & E2 & E).
  injection E as _ <-. unfold update in E1, E2.
  destruct (nodes _ !! q) as [n|] in E1; [|discriminate]. injection E1 as _ <-.
  rewrite nodes_set, lookup_insert_eq in E2. injection E2 as _ <-.
  by rewrite nodes_set, lookup_insert_eq.
Qed.

(** ** Walking a list *)

Lemma list_loop_visits pObserver fuel ps pp : forall s, leaves pObserver ps -> NoDup ps -> nullptr ∉ ps ->
  dseg (nodes s) pp ps nullptr -> (length ps < fuel)%nat ->
  list_loop fuel pObserver (first_of ps nullptr) s = visit pObserver ps s.
Proof.
  revert fuel pp. induction ps as [|p ps IH]; intros fuel pp s Hob Hd Hn Hs Hf;
    (destruct fuel as [|fuel]; [cbn in Hf; lia|]); cbn [list_loop first_of visit]; [done|].
  assert (Np : p <> nullptr) by set_solver. destruct (Z.eqb_spec p nullptr); [done|].
  destruct Hs as (Ep & Hs). erewrite bind_run; [|apply load_run, Ep]. cbn [m_pNext].
  apply NoDup_cons in Hd as (Hp & Hd). pose proof (Hob p s) as Hk.
  unfold bind. destruct (pObserver p s) as [[[|]|c|] s1]; [done| |done|done]. cbn [snd] in Hk.
  apply (IH fuel p); [|exact Hd|set_solver| |cbn in Hf; lia].
  - intros r s' q Hq Nq. apply Hob; set_solver.
  - eapply dseg_frame; [|exact Hs]. intros q Hq. apply Hk; set_solver.
Qed.

Lemma ListForEach_visits pObserver fuel l ps s : leaves pObserver ps -> dlist (nodes s) l ps ->
  (length ps < fuel)%nat ->
  Diana_ListForEach fuel l pObserver s = visit pObserver ps s.
Proof.
  intros Hob [Hd Hn Hf _ Hs] Hl. unfold Diana_ListForEach. rewrite Hf. by eapply list_loop_visits.
Qed.
End Operations.

(** ** Circular lists *)

Fixpoint fseg (h : gmap Z Diana_FList_ListNode) (ps : list Z) (nn : Z) : Prop :=
  match ps with
  | [] => True
  | p :: ps => h !! p = Some (mkDiana_FList_ListNode (first_of ps nn)) /\ fseg h ps nn
  end.

Record flist (h : gmap Z Diana_FList_ListNode) (l : Diana_FList_List) (ps : list Z) : Prop := {
  fl_nodup : NoDup ps;
  fl_null : nullptr ∉ ps;
  fl_last : f_pLast l = last_of nullptr ps;
  fl_seg : fseg h ps (first_of ps nullptr)
}.

Lemma fseg_app h xs ys nn : fseg h (xs ++ ys) nn <-> fseg h xs (first_of ys nn) /\ fseg h ys nn.
Proof. induction xs as [|x xs IH]; cbn; [tauto|]. rewrite IH, first_of_app. tauto. Qed.

Lemma fseg_frame h h' ps nn : (forall p, p ∈ ps -> h' !! p = h !! p) -> fseg h ps nn -> fseg h' ps nn.
Proof.
  induction ps as [|p ps IH]; intros F; cbn; [done|]. intros (E & D).
  split; [|apply IH; [|exact D]; intros; apply F; by right]. rewrite F; [done|by left].
Qed.

Section Circular.
Context {St : Type} `{NodeMemory Diana_FList_ListNode St}.

(** The last node, whose next one is the first. *)
Lemma flist_last h l xs q : flist h l (xs ++ [q]) ->
  f_pLast l = q /\ q <> nullptr /\ h !! q = Some (mkDiana_FList_ListNode (first_of (xs ++ [q]) nullptr)).
Proof.
  intros [_ Hn Hl Hs]. apply fseg_app in Hs as (_ & Eq & _). rewrite last_of_nonempty in Hl.
  split; [exact Hl|]. split; [set_solver|exact Eq].
Qed.

Lemma FList_PushBack_spec l p ps s : flist (nodes s) l ps -> is_Some (nodes s !! p) -> p <> nullptr ->
  p ∉ ps ->
  exists h' l', Diana_FList_PushBack l p s = (Ok l', set_nodes h' s) /\ flist h' l' (ps ++ [p]) /\
    forall q, q ∉ ps ++ [p] -> h' !! q = nodes s !! q.
Proof.
  intros F [n Ep] Np Hp. pose proof F as [Hd Hn Hl Hs]. unfold Diana_FList_PushBack, set_f_pNext.
  assert (Hd' : NoDup (ps ++ [p])) by (apply (nodup_insert ps p []); rewrite ?app_nil_r; auto).
  assert (Hn' : nullptr ∉ ps ++ [p]) by set_solver.
  destruct (split_last ps) as [->|(xs & q & ->)].
  - rewrite Hl. cbn [last_of Z.eqb nullptr negb]. node_step. eexists _, _. split; [reflexivity|].
    split; [|intros; rewrite lookup_insert_ne by set_solver; done].
    constructor; cbn; auto. by simplify_map_eq.
  - destruct (flist_last _ _ _ _ F) as (El & Nq & Eq). rewrite El.
    assert (q <> p) by set_solver. destruct (Z.eqb_spec q nullptr); [done|]. cbn [negb].
    rewrite bind_bind. node_step. rewrite bind_bind. cbn [f_pNext]. do 2 node_step.
    eexists _, _. split; [reflexivity|].
    split; [|intros; rewrite !lookup_insert_ne by set_solver; done].
    apply fseg_app in Hs as (Hx & _). cbn [first_of] in Hx.
    constructor; cbn [f_pLast]; auto; [by rewrite last_of_nonempty|].
    rewrite <- app_assoc. rewrite !first_of_app. apply fseg_app. cbn.
    split; [|split; [by simplify_map_eq|split; [|done]]].
    + eapply fseg_frame; [|exact Hx]. intros r Hr. apply nodup_split in Hd as (_ & _ & Hq & _).
      rewrite !lookup_insert_ne by set_solver. done.
    + by simplify_map_eq.
Qed.

Lemma FList_First_spec l ps s : flist (nodes s) l ps -> Diana_FList_First l s = (Ok (first_of ps nullptr), s).
Proof.
  intros F. unfold Diana_FList_First. destruct (split_last ps) as [->|(xs & q & ->)].
  - rewrite (fl_last _ _ _ F). done.
  - destruct (flist_last _ _ _ _ F) as (El & Nq & Eq). rewrite El.
    destruct (Z.eqb_spec q nullptr); [done|]. by node_step.
Qed.

(** The next node, none after the last. *)
Lemma FList_Next_spec l xs p ys s : flist (nodes s) l (xs ++ p :: ys) ->
  Diana_FList_Next l p s = (Ok (first_of ys nullptr), s).
Proof.
  intros [Hd Hn Hl Hs]. unfold Diana_FList_Next. apply fseg_app in Hs as (_ & Ep & _).
  rewrite Hl, last_of_app. destruct ys as [|y ys]; cbn [last_of]; [by rewrite Z.eqb_refl|].
  apply nodup_split in Hd as (_ & _ & _ & Hp).
  assert (N : p <> last_of y ys).
  { intros ->. apply Hp. clear. revert y. induction ys as [|z ys IH]; intros y; cbn; [by left|right; apply IH]. }
  destruct (Z.eqb_spec p (last_of y ys)); [done|]. by node_step.
Qed.

Lemma flist_loop_visits pObserver fuel l ps nn : forall s, leaves pObserver ps -> NoDup ps -> ps <> [] ->
  f_pLast l = last_of nullptr ps -> fseg (nodes s) ps nn -> (length ps <= fuel)%nat ->
  flist_loop fuel l pObserver (first_of ps nullptr) s = visit pObserver ps s.
Proof.
  revert fuel. induction ps as [|p ps IH]; intros fuel s Hob Hd Hne Hl Hs Hf; [done|].
  destruct fuel as [|fuel]; [cbn in Hf; lia|]. cbn [flist_loop first_of visit]. destruct Hs as (Ep & Hs).
  erewrite bind_run; [|apply load_run, Ep]. apply NoDup_cons in Hd as (Hp & Hd).
  pose proof (Hob p s) as Hk. unfold bind. destruct (pObserver p s) as [[[|]|c|] s1]; [done| |done|done].
  cbn [snd orb] in *. rewrite Hl. cbn [last_of f_pNext]. destruct ps as [|q ps]; [cbn; by rewrite Z.eqb_refl|].
  assert (N : p <> last_of p (q :: ps)).
  { cbn. intros E. apply Hp. rewrite E. clear. revert q. induction ps as [|z ys IH]; intros y; cbn; [by left|right; apply IH]. }
  destruct (Z.eqb_spec p (last_of p (q :: ps))); [done|].
  change (first_of (q :: ps) nn) with (first_of (q :: ps) nullptr).
  apply IH; [|exact Hd|done|exact Hl| |cbn in *; lia].
  - intros r s' t Ht Nt. apply Hob; set_solver.
  - eapply fseg_frame; [|exact Hs]. intros t Ht. apply Hk; set_solver.
Qed.

Lemma FList_ListForEach_visits pObserver fuel l ps s : leaves pObserver ps -> flist (nodes s) l ps ->
  (length ps <= fuel)%nat ->
  Diana_FList_ListForEach fuel l pObserver s = visit pObserver ps s.
Proof.
  intros Hob F Hf. unfold Diana_FList_ListForEach. destruct (split_last ps) as [->|(xs & q & ->)].
  - rewrite (fl_last _ _ _ F). done.
  - destruct (flist_last _ _ _ _ F) as (El & Nq & Eq). rewrite El.
    destruct (Z.eqb_spec q nullptr); [done|]. node_step. cbn [f_pNext].
    eapply flist_loop_visits; [exact Hob|apply F|by destruct xs|apply F|apply F|exact Hf].
Qed.
End Circular.

(** ** Bytes of a block *)

Lemma firstn_update (l : list Z) n (bs : list Z) : (n + length bs <= length l)%nat ->
  firstn (n + length bs) (buf_update l (Z.of_nat n) bs) = firstn n l ++ bs.
Proof.
  intros Hl. unfold buf_update. rewrite Nat2Z.id, app_assoc, take_app_le by (rewrite length_app, length_take; lia).
  rewrite take_ge; [done|]. rewrite length_app, length_take. lia.
Qed.

Lemma bytes_behind (l a b : list Z) : firstn (length (a ++ b)) l = a ++ b ->
  buf_bytes l (Z.of_nat (length a)) (Z.of_nat (length b)) = b.
Proof.
  intros E. unfold buf_bytes. rewrite !Nat2Z.id. rewrite firstn_skipn_comm, <- length_app, E.
  by rewrite skipn_app, skipn_all, Nat.sub_diag.
Qed.

Lemma bind_bind_run {St A B C} (m : M St A) (k : A -> M St B) (f : B -> M St C) s b s' :
  bind m k s = (Ok b, s') -> bind m (fun a => bind (k a) f) s = f b s'.
Proof. intros E. rewrite <- bind_bind. by apply bind_run. Qed.

Lemma when_bind {St B} (m : M St unit) (f : unit -> M St B) s : bind (when true m) f s = bind m f s.
Proof. done. Qed.

Lemma when_skip {St B} (m : M St unit) (f : unit -> M St B) s : bind (when false m) f s = f tt s.
Proof. done. Qed.

Section StackProofs.
Variables (blockSize itemSize : Z).
Hypothesis sizes : 0 < itemSize <= blockSize /\ blockSize < 2 ^ 31.

Abbreviation item := (list Z).

Definition is_item (x : item) : Prop := Z.of_nat (length x) = itemSize.

(** The block at [p] holds [its], the first at its start. *)
Record block_holds (h : gmap Z Diana_StackBlock) (p : Z) (its : list item) : Prop := {
  bh_block : exists b, h !! p = Some b /\ Z.of_nat (length (data b)) = blockSize /\
    m_curSizeInBytes b = Z.of_nat (length (concat its)) /\
    firstn (length (concat its)) (data b) = concat its;
  bh_items : Forall is_item its
}.

Definition full (its : list item) : Prop := blockSize < Z.of_nat (length (concat its)) + itemSize.

(** A block and its items. *)
Definition filled : Type := Z * list item.

(** The blocks before the current one are full, those behind it empty. *)
Definition blocks_hold (s : StackState) (before : list filled) (current : filled) (after : list filled) : Prop :=
  dlist (links s) (m_blockList (stack s)) (map fst (before ++ current :: after)) /\
  Forall (fun b => block_holds (blocks s) (fst b) (snd b)) (before ++ current :: after) /\
  Forall (fun b => full (snd b)) before /\ Forall (fun b => snd b = []) after /\
  m_pCurrentBlock (stack s) = fst current.

Record stack_holds (s : StackState) (xs : list item) : Prop := {
  sh_block_size : m_minBlockSize (stack s) = blockSize;
  sh_item_size : m_dataSize (stack s) = itemSize;
  sh_count : m_count (stack s) = Z.of_nat (length xs);
  sh_bound : Z.of_nat (length xs) < 2 ^ 31;
  sh_blocks :
    (m_pCurrentBlock (stack s) = nullptr /\ xs = [] /\ dlist (links s) (m_blockList (stack s)) []) \/
    exists before current after, blocks_hold s before current after /\
      xs = concat (map snd before) ++ snd current
}.

Lemma Init_holds l b : stack_holds (mkStackState (Diana_Stack_Init blockSize itemSize) l b) [].
Proof. constructor; try done. left. repeat split; try done. by apply NoDup_nil. by intros ?%elem_of_nil. Qed.

(** *** One block *)

Lemma block_run p b s : blocks s !! p = Some b -> block p s = (Ok b, s).
Proof. intros E. unfold block. by rewrite E. Qed.

Lemma concat_items its : Forall is_item its -> Z.of_nat (length (concat its)) = itemSize * Z.of_nat (length its).
Proof. induction 1 as [|x its Hx _ IH]; cbn [concat length]; [lia|]. rewrite length_app. unfold is_item in Hx. lia. Qed.

(** The memory with a block replaced. *)
Definition with_block p b (s : StackState) : StackState := with_blocks (insert p b) s.

(** An item put behind the others of a block that has room. *)
Lemma store_item p its x s : block_holds (blocks s) p its -> is_item x -> ~ full its ->
  exists b', (copy_in p (Z.of_nat (length (concat its))) x ;;; resize p (fun n => n + itemSize)) s =
             (Ok tt, with_block p b' s) /\
    block_holds (blocks (with_block p b' s)) p (its ++ [x]).
Proof.
  intros [(b & E & L & C & F) I] Hx Hr. unfold full, is_item in *.
  unfold copy_in. rewrite bind_bind. erewrite bind_run; [|by apply block_run].
  destruct (Z.leb_spec 0 (Z.of_nat (length (concat its)))); [|lia].
  destruct (Z.leb_spec (Z.of_nat (length (concat its)) + Z.of_nat (length x)) (Z.of_nat (length (data b)))); [|lia].
  cbn [andb]. rewrite bind_modify. unfold resize.
  erewrite bind_run; [|apply block_run; apply lookup_insert_eq].
  set (b' := with_curSizeInBytes _ _). exists b'. split.
  - unfold modify, with_block, with_blocks. cbn [stack links blocks]. by rewrite insert_insert_eq.
  - assert (Ec : concat (its ++ [x]) = concat its ++ x) by (rewrite concat_app; cbn; by rewrite app_nil_r).
    constructor; [|apply Forall_app; split; [exact I|by repeat constructor]].
    exists b'. split; [apply lookup_insert_eq|]. unfold b'. cbn. rewrite C, Ec, length_app.
    split; [rewrite buf_update_length; lia|]. split; [lia|].
    rewrite firstn_update by lia. by rewrite F.
Qed.

(** The top item of a block, and the block without it. *)
Lemma take_item p its x s : block_holds (blocks s) p (its ++ [x]) ->
  copy_out p (Z.of_nat (length (concat (its ++ [x]))) - itemSize) itemSize s = (Ok x, s).
Proof.
  intros [(b & E & L & C & F) I]. apply Forall_app in I as (_ & Hx%Forall_cons_1). destruct Hx as (Hx & _).
  unfold is_item in Hx. unfold copy_out. erewrite bind_run; [|by apply block_run].
  assert (Ec : concat (its ++ [x]) = concat its ++ x) by (rewrite concat_app; cbn; by rewrite app_nil_r).
  rewrite Ec in *. rewrite length_app. 
  assert (Lc : (length (concat its ++ x) <= length (data b))%nat)
    by (rewrite <- F at 1; rewrite length_take; lia).
  rewrite length_app in Lc. replace (Z.of_nat (length (concat its) + length x) - itemSize)
    with (Z.of_nat (length (concat its))) by lia.
  destruct (Z.leb_spec 0 (Z.of_nat (length (concat its)))); [|lia].
  destruct (Z.leb_spec (Z.of_nat (length (concat its)) + itemSize) (Z.of_nat (length (data b)))); [|lia].
  cbn [andb]. unfold ret. rewrite <- Hx. by rewrite bytes_behind.
Qed.

Lemma drop_item p its x s : block_holds (blocks s) p (its ++ [x]) ->
  exists b', resize p (fun n => n - itemSize) s = (Ok tt, with_block p b' s) /\
    block_holds (blocks (with_block p b' s)) p its.
Proof.
  intros [(b & E & L & C & F) I]. apply Forall_app in I as (I & Hx%Forall_cons_1). destruct Hx as (Hx & _).
  unfold is_item in Hx. unfold resize. erewrite bind_run; [|by apply block_run].
  eexists. split; [reflexivity|]. constructor; [|exact I]. eexists. split; [apply lookup_insert_eq|]. cbn.
  assert (Ec : concat (its ++ [x]) = concat its ++ x) by (rewrite concat_app; cbn; by rewrite app_nil_r).
  rewrite Ec, length_app in *. split; [exact L|]. split; [lia|].
  apply (f_equal (firstn (length (concat its)))) in F.
  rewrite firstn_firstn, Nat.min_l in F by lia. rewrite F, firstn_app, firstn_all, Nat.sub_diag. cbn. by rewrite app_nil_r.
Qed.

(** *** All blocks *)

Lemma dlist_node h l xs q ys : dlist h l (xs ++ q :: ys) ->
  q <> nullptr /\ h !! q = Some (mkDiana_ListNode (first_of ys nullptr) (last_of nullptr xs)).
Proof. intros [_ Hn _ _ (_ & E & _)%dseg_app]. split; [set_solver|done]. Qed.

Lemma holds_other p b q its s : p <> q -> block_holds (blocks s) q its ->
  block_holds (blocks (with_block p b s)) q its.
Proof.
  intros N [(b' & E & R) I]. constructor; [|done]. exists b'. split; [|done].
  cbn. by rewrite lookup_insert_ne.
Qed.

Lemma hold_others p b fs s : p ∉ map fst fs -> Forall (fun f => block_holds (blocks s) (fst f) (snd f)) fs ->
  Forall (fun f : filled => block_holds (blocks (with_block p b s)) (fst f) (snd f)) fs.
Proof.
  intros Hp Hf. apply Forall_forall. intros f Hin. rewrite Forall_forall in Hf.
  apply holds_other; [|by apply Hf]. intros ->. apply Hp. apply list_elem_of_In, in_map, list_elem_of_In, Hin.
Qed.

(** The current block replaced. *)
Lemma replace_current s before c ci after b ci' :
  blocks_hold s before (c, ci) after -> block_holds (blocks (with_block c b s)) c ci' ->
  blocks_hold (with_block c b s) before (c, ci') after.
Proof.
  intros (Hd & Hb & Hf & He & Hc) Hn. split; [|split; [|by repeat split]].
  - rewrite map_app in *. exact Hd.
  - apply Forall_app in Hb as (Hb & (_ & Ha)%Forall_cons_1). pose proof (dl_nodup _ _ _ Hd) as N.
    rewrite map_app in N. cbn [map fst] in N. apply nodup_split in N as (_ & _ & N1 & N2).
    apply Forall_app. split; [by apply hold_others|]. constructor; [exact Hn|]. by apply hold_others.
Qed.

Lemma current_node s before c ci after : blocks_hold s before (c, ci) after ->
  c <> nullptr /\ m_pCurrentBlock (stack s) = c /\ block_holds (blocks s) c ci /\
  links s !! c = Some (mkDiana_ListNode (first_of (map fst after) nullptr) (last_of nullptr (map fst before))).
Proof.
  intros (Hd & Hb & _ & _ & Hc). rewrite map_app in Hd. cbn [map fst] in Hd.
  destruct (dlist_node _ _ _ _ _ Hd) as (N & E). apply Forall_app in Hb as (_ & Hb%Forall_cons_1). tauto.
Qed.

Definition at_block (p : Z) (s : StackState) : StackState := with_stack (with_pCurrentBlock p) s.

Lemma move_on s before c ci a after : blocks_hold s before (c, ci) (a :: after) -> full ci ->
  blocks_hold (at_block (fst a) s) (before ++ [(c, ci)]) a after.
Proof.
  intros (Hd & Hb & Hf & He & Hc) F. unfold blocks_hold. rewrite <- app_assoc. cbn.
  apply Forall_cons_1 in He as (_ & He). split; [exact Hd|]. split; [exact Hb|].
  split; [apply Forall_app; split; [done|by constructor]|done].
Qed.

Lemma move_back s before b c after : blocks_hold s (before ++ [b]) (c, []) after ->
  blocks_hold (at_block (fst b) s) before b ((c, []) :: after).
Proof.
  intros (Hd & Hb & Hf & He & Hc). unfold blocks_hold. rewrite <- app_assoc in *. cbn in *.
  apply Forall_app in Hf as (Hf & _). split; [exact Hd|]. split; [exact Hb|]. split; [done|].
  split; [by constructor|done].
Qed.

(** The counter does not matter to the blocks. *)
Lemma counted_blocks s f before current after : blocks_hold s before current after ->
  blocks_hold (with_stack (with_count f) s) before current after.
Proof. done. Qed.

Lemma not_full_nil : ~ full [].
Proof. unfold full. cbn. lia. Qed.

(** *** Push *)

Record settled (s : StackState) (n : nat) : Prop := {
  se_block_size : m_minBlockSize (stack s) = blockSize;
  se_item_size : m_dataSize (stack s) = itemSize;
  se_count : m_count (stack s) = Z.of_nat n;
  se_bound : Z.of_nat n + 1 < 2 ^ 31
}.

Lemma push_here fuel x before c ci after s : is_item x -> settled s (length (concat (map snd before) ++ ci)) ->
  blocks_hold s before (c, ci) after -> ~ full ci ->
  exists s', push_loop (S fuel) x s = (Ok true, s') /\
    stack_holds s' (concat (map snd before) ++ ci ++ [x]).
Proof.
  intros Hx [E1 E2 E3 E4] Hb Hr. destruct (current_node _ _ _ _ _ Hb) as (Nc & Ec & Hc & _).
  pose proof Hc as [(b & Eb & Lb & Cb & _) _]. destruct (store_item c ci x s Hc Hx Hr) as (b' & Es & Hs').
  cbn [push_loop]. rewrite bind_gets, Ec. erewrite bind_run; [|by apply block_run]. rewrite E1, E2, Cb.
  unfold full in Hr. destruct (Z.leb_spec itemSize (blockSize - Z.of_nat (length (concat ci)))); [|lia].
  erewrite bind_bind_run; [|exact Es]. rewrite bind_modify.
  eexists. split; [reflexivity|]. set (s1 := with_block c b' s) in *.
  assert (Hb1 : blocks_hold s1 before (c, ci ++ [x]) after) by (eapply replace_current; [exact Hb|exact Hs']).
  rewrite length_app in *. constructor; cbn; rewrite ?E1, ?E2, ?E3, ?length_app; cbn; try done; try lia.
  - rewrite s32_small; lia.
  - right. exists before, (c, ci ++ [x]), after. split; [by apply counted_blocks|done].
Qed.

Lemma push_further fuel x before c ci after s : is_item x -> settled s (length (concat (map snd before) ++ ci)) ->
  blocks_hold s before (c, ci) after -> full ci ->
  match after with
  | [] => push_loop (S fuel) x s = (Ok false, s)
  | _ => exists s', push_loop (S (S fuel)) x s = (Ok true, s') /\
           stack_holds s' (concat (map snd before) ++ ci ++ [x])
  end.
Proof.
  intros Hx Hs Hb Hr. destruct (current_node _ _ _ _ _ Hb) as (Nc & Ec & Hc & En).
  pose proof Hc as [(b & Eb & Lb & Cb & _) _]. pose proof Hs as [E1 E2 E3 E4].
  assert (Estep : forall fuel, push_loop (S fuel) x s =
    if negb (first_of (map fst after) nullptr =? nullptr)
    then push_loop fuel x (at_block (first_of (map fst after) nullptr) s) else (Ok false, s)).
  { intros f. cbn [push_loop]. rewrite bind_gets, Ec. erewrite bind_run; [|by apply block_run].
    rewrite E1, E2, Cb. unfold full in Hr.
    destruct (Z.leb_spec itemSize (blockSize - Z.of_nat (length (concat ci)))); [lia|].
    erewrite bind_run; [|by apply load_run]. cbn [m_pNext]. by destruct (negb _). }
  destruct after as [|a after]; rewrite !Estep; cbn [map first_of]; [by rewrite Z.eqb_refl|].
  pose proof (move_on _ _ _ _ _ _ Hb Hr) as Hm.
  assert (Na : fst a <> nullptr) by (destruct a; apply (current_node _ _ _ _ _ Hm)).
  destruct (Z.eqb_spec (fst a) nullptr); [done|]. cbn [negb].
  destruct Hb as (_ & _ & _ & (Ea & _)%Forall_cons_1 & _). destruct a as [p ai]. cbn in Ea. subst ai.
  assert (Eq : concat (map snd (before ++ [(c, ci)])) = concat (map snd before) ++ ci)
    by (rewrite map_app, concat_app; cbn; by rewrite app_nil_r).
  destruct (push_here fuel x (before ++ [(c, ci)]) p [] after (at_block p s) Hx) as (s' & Es & H');
    [rewrite Eq, app_nil_r; by constructor|exact Hm|apply not_full_nil|].
  exists s'. split; [exact Es|]. by rewrite Eq, <- app_assoc in H'.
Qed.

(** The allocator gives blocks that are not in use, of the size asked for. *)
Definition allocates (DIANA_MALLOC : StackState -> Z -> option (Z * list Z)) : Prop :=
  forall s n p bytes, DIANA_MALLOC s n = Some (p, bytes) ->
    p <> nullptr /\ links s !! p = None /\ blocks s !! p = None /\ Z.of_nat (length bytes) = n.

Variable DIANA_MALLOC : StackState -> Z -> option (Z * list Z).
Hypothesis malloc_ok : allocates DIANA_MALLOC.

(** With every block full, a new one. *)
Lemma push_block_ok x fs s : is_item x -> settled s (length (concat (map snd fs))) ->
  dlist (links s) (m_blockList (stack s)) (map fst fs) ->
  Forall (fun f : filled => block_holds (blocks s) (fst f) (snd f)) fs ->
  Forall (fun f : filled => full (snd f)) fs ->
  match DIANA_MALLOC s blockSize with
  | None => push_block DIANA_MALLOC x s = (Err DI_OUT_OF_MEMORY, s)
  | Some _ => exists s', push_block DIANA_MALLOC x s = (Ok tt, s') /\
                stack_holds s' (concat (map snd fs) ++ [x])
  end.
Proof.
  intros Hx [E1 E2 E3 E4] Hd Hb Hf. unfold push_block. rewrite !bind_gets, E1.
  destruct (DIANA_MALLOC s blockSize) as [[p bytes]|] eqn:Em; [|done].
  destruct (malloc_ok _ _ _ _ Em) as (Np & Fl & Fb & Lb).
  assert (Hp : p ∉ map fst fs).
  { intros (f & -> & Hin)%list_elem_of_fmap. rewrite Forall_forall in Hb.
    destruct (Hb f Hin) as [(b & Eb & _) _]. congruence. }
  rewrite !bind_modify, E2. set (s1 := with_blocks _ _).
  assert (E0 : block_holds (blocks s1) p []).
  { constructor; [|done]. eexists. split; [apply lookup_insert_eq|]. cbn. done. }
  unfold is_item in Hx.
  assert (Es : (copy_in p 0 x ;;; resize p (fun _ => itemSize)) s1 =
               (Ok tt, with_block p (mkDiana_StackBlock itemSize (buf_update bytes 0 x)) s1)).
  { unfold copy_in. rewrite bind_bind. erewrite bind_run; [|apply block_run, lookup_insert_eq]. cbn [data].
    destruct (Z.leb_spec (0 + Z.of_nat (length x)) (Z.of_nat (length bytes))); [|lia]. cbn [andb Z.leb Z.compare].
    rewrite bind_modify. unfold resize. erewrite bind_run; [|apply block_run, lookup_insert_eq].
    unfold modify, with_block, with_blocks. cbn [stack links blocks]. by rewrite insert_insert_eq. }
  erewrite bind_bind_run; [|exact Es]. set (s2 := with_block _ _ _).
  assert (Hd2 : dlist (links s2) (m_blockList (stack s)) (map fst fs)).
  { destruct Hd as [D1 D2 D3 D4 D5]. constructor; auto. eapply dseg_frame; [|exact D5].
    intros q Hq. cbn. rewrite lookup_insert_ne; [done|]. by intros ->. }
  assert (Hfr : fresh_node (links s2) p (map fst fs)) by (split; [cbn; by rewrite lookup_insert_eq|done]).
  destruct (PushBack_gives (St := StackState) (H := stack_nodes) (m_blockList (stack s)) p (map fst fs) s2 Hd2 Hfr) as (h' & l' & Ep & Hd' & _ & _).
  rewrite (bind_run _ _ _ _ _ Ep), !bind_modify. eexists. split; [reflexivity|].
  constructor; cbn; rewrite ?E3, ?length_app; cbn; auto; try lia; [rewrite s32_small; lia|].
  right. exists fs, (p, [x]), []. split; [|done]. split; [|split; [|done]].
  - rewrite map_app. exact Hd'.
  - apply Forall_app. split; [|constructor; [|done]].
    + apply (hold_others p _ fs s1 Hp). apply Forall_forall. intros f Hin. rewrite Forall_forall in Hb.
      destruct (Hb f Hin) as [(b & Eb & R) I]. constructor; [|exact I]. exists b. split; [|exact R].
      cbn. rewrite lookup_insert_ne; [done|]. intros ->. congruence.
    + constructor; [|by repeat constructor]. eexists. split; [apply lookup_insert_eq|]. cbn. rewrite app_nil_r.
      split; [rewrite buf_update_length; lia|]. split; [lia|].
      pose proof (firstn_update bytes 0 x ltac:(lia)) as Fu. exact Fu.
Qed.

(** No more blocks than there are in memory. *)
Lemma blocks_bound h ps : NoDup ps -> (forall p, p ∈ ps -> is_Some (h !! p)) ->
  (length ps <= size (h : gmap Z Diana_StackBlock))%nat.
Proof.
  intros Hd Hin. rewrite <- size_dom, <- (size_list_to_set (C := gset Z) ps Hd). apply subseteq_size.
  intros p. rewrite elem_of_list_to_set, elem_of_dom. apply Hin.
Qed.

Lemma blocks_size s before c ci after : blocks_hold s before (c, ci) after ->
  (length before + S (length after) <= size (blocks s))%nat.
Proof.
  intros (Hd & Hb & _). transitivity (length (map fst (before ++ (c, ci) :: after))).
  - by rewrite length_map, length_app.
  - apply blocks_bound; [apply Hd|]. intros p (f & -> & Hin)%list_elem_of_fmap.
    rewrite Forall_forall in Hb. destruct (Hb f Hin) as [(b & -> & _) _]. by eexists.
Qed.

Lemma stack_push_ok x xs s : is_item x -> stack_holds s xs -> Z.of_nat (length xs) + 1 < 2 ^ 31 ->
  match Diana_Stack_Push DIANA_MALLOC x s with
  | (Ok _, s') => stack_holds s' (xs ++ [x])
  | (Err c, s') => c = DI_OUT_OF_MEMORY /\ s' = s /\ DIANA_MALLOC s blockSize = None
  | (Crash, _) => False
  end.
Proof.
  intros Hx [E1 E2 E3 E4 Hb] Hn. assert (Hs : settled s (length xs)) by (by constructor).
  unfold Diana_Stack_Push. rewrite !bind_gets. 
  assert (Hnew : forall fs, xs = concat (map snd fs) -> dlist (links s) (m_blockList (stack s)) (map fst fs) ->
    Forall (fun f : filled => block_holds (blocks s) (fst f) (snd f)) fs ->
    Forall (fun f : filled => full (snd f)) fs ->
    match push_block DIANA_MALLOC x s with
    | (Ok _, s') => stack_holds s' (xs ++ [x])
    | (Err c, s') => c = DI_OUT_OF_MEMORY /\ s' = s /\ DIANA_MALLOC s blockSize = None
    | (Crash, _) => False
    end).
  { intros fs -> Hd Hh Hf. pose proof (push_block_ok x fs s Hx Hs Hd Hh Hf) as Hp.
    destruct (DIANA_MALLOC s blockSize); [destruct Hp as (s' & -> & ?); done|by rewrite Hp]. }
  destruct Hb as [(Ec & -> & Hd)|(before & (c, ci) & after & Hb & ->)].
  - rewrite Ec. apply (Hnew []); done.
  - destruct (current_node _ _ _ _ _ Hb) as (Nc & Ec & Hc & _). rewrite Ec. cbn [snd] in *.
    destruct (Z.eqb_spec c nullptr); [done|]. cbn [negb]. pose proof (blocks_size _ _ _ _ _ Hb) as Hsz.
    destruct (size (blocks s)) as [|fuel]; [lia|]. rewrite <- app_assoc.
    destruct (decide (full ci)) as [F|F].
    + pose proof (push_further (pred fuel) x before c ci after s Hx Hs Hb F) as Hp.
      destruct after as [|a after].
      * erewrite bind_run; [|apply (push_further fuel x before c ci [] s Hx Hs Hb F)].
        rewrite app_assoc. apply (Hnew (before ++ [(c, ci)])).
        -- rewrite map_app, concat_app. cbn. by rewrite app_nil_r.
        -- apply Hb.
        -- apply Hb.
        -- destruct Hb as (_ & _ & Hf & _). apply Forall_app. split; [done|by constructor].
      * destruct Hp as (s' & Ep & H'). destruct fuel as [|fuel]; [cbn in Hsz; lia|]. 
        erewrite bind_run; [|exact Ep]. exact H'.
    + destruct (push_here fuel x before c ci after s Hx Hs Hb F) as (s' & Ep & H').
      erewrite bind_run; [|exact Ep]. exact H'.
Qed.

(** *** Pop *)

(** The block that the top item is in. *)
Lemma GetTopPtr_ok xs x s : stack_holds s (xs ++ [x]) ->
  exists s' before c ci after,
    Diana_Stack_GetTopPtr s = (Ok (Some (Z.of_nat (length (concat (ci ++ [x]))) - itemSize)), s') /\
    blocks_hold s' before (c, ci ++ [x]) after /\ xs = concat (map snd before) ++ ci /\
    m_minBlockSize (stack s') = blockSize /\ m_dataSize (stack s') = itemSize /\
    m_count (stack s') = Z.of_nat (length (xs ++ [x])).
Proof.
  intros [E1 E2 E3 E4 Hb]. destruct Hb as [(_ & E & _)|(before & (c, ci) & after & Hb & Ex)]; [by destruct xs|].
  destruct (current_node _ _ _ _ _ Hb) as (Nc & Ec & Hc & En). cbn [snd] in Ex.
  unfold Diana_Stack_GetTopPtr. rewrite bind_gets, Ec.
  destruct (Z.eqb_spec c nullptr); [done|]. rewrite E3.
  destruct (Z.eqb_spec (Z.of_nat (length (xs ++ [x]))) 0) as [E0|_]; [rewrite length_app in E0; cbn in E0; lia|].
  pose proof Hc as [(b & Eb & Lb & Cb & _) I]. erewrite bind_run; [|by apply block_run]. rewrite E2, Cb.
  destruct (split_last ci) as [->|(ci' & y & ->)].
  - (* the current block is empty: the one before it is full *)
    cbn [concat length] in *. rewrite app_nil_r in Ex.
    destruct (split_last before) as [->|(before' & (p, pi) & ->)]; [by destruct xs|].
    pose proof Hb as (_ & Hall & Hfull & _). apply Forall_app in Hfull as (_ & (Fp & _)%Forall_cons_1).
    destruct (Z.ltb_spec (Z.of_nat 0) itemSize); [|lia]. rewrite when_bind, bind_bind. erewrite bind_run; [|by apply load_run].
    cbn [m_pPrev]. rewrite map_app. cbn [map fst]. rewrite last_of_nonempty, bind_modify.
    pose proof (move_back _ _ _ _ _ Hb) as Hm. cbn [fst] in Hm. fold (at_block p s). set (s1 := at_block p s) in *.
    destruct (current_node _ _ _ _ _ Hm) as (Np & Ep & Hp & _). rewrite bind_gets, Ep.
    destruct (Z.eqb_spec p nullptr); [done|]. pose proof Hp as [(b' & Eb' & _ & Cb' & _) _].
    erewrite bind_run; [|by apply block_run]. rewrite Cb'.
    rewrite map_app, concat_app in Ex. cbn in Ex. rewrite app_nil_r in Ex.
    destruct (split_last pi) as [->|(pi' & z & ->)]; [by destruct (not_full_nil Fp)|].
    rewrite app_assoc in Ex. apply app_inj_tail in Ex as (-> & ->).
    eexists _, before', p, pi', ((c, []) :: after). split; [reflexivity|]. split; [exact Hm|]. by repeat split.
  - assert (Hge : itemSize <= Z.of_nat (length (concat (ci' ++ [y])))).
    { rewrite (concat_items _ I), length_app. cbn [length]. lia. }
    destruct (Z.ltb_spec (Z.of_nat (length (concat (ci' ++ [y])))) itemSize); [lia|]. rewrite when_skip.
    rewrite bind_gets, Ec. destruct (Z.eqb_spec c nullptr); [done|].
    erewrite bind_run; [|by apply block_run]. rewrite Cb.
    rewrite app_assoc in Ex. apply app_inj_tail in Ex as (-> & ->).
    eexists _, before, c, ci', after. split; [reflexivity|]. split; [exact Hb|]. by repeat split.
Qed.

Lemma GetTopPtr_empty s : stack_holds s [] ->
  exists s', Diana_Stack_GetTopPtr s = (Ok None, s') /\ stack_holds s' [].
Proof.
  intros H. exists s. split; [|done]. destruct H as [_ _ E3 _ _]. unfold Diana_Stack_GetTopPtr.
  rewrite bind_gets, E3. by destruct (_ =? nullptr).
Qed.

Lemma drop_top_ok before c ci x after n s : blocks_hold s before (c, ci ++ [x]) after ->
  m_minBlockSize (stack s) = blockSize -> m_dataSize (stack s) = itemSize ->
  m_count (stack s) = Z.of_nat (S n) -> Z.of_nat n < 2 ^ 31 -> length (concat (map snd before) ++ ci) = n ->
  exists s', drop_top s = (Ok tt, s') /\ stack_holds s' (concat (map snd before) ++ ci).
Proof.
  intros Hb E1 E2 E3 Hn El. destruct (current_node _ _ _ _ _ Hb) as (Nc & Ec & Hc & _).
  destruct (drop_item c ci x s Hc) as (b' & Es & H'). unfold drop_top. rewrite bind_gets, Ec, E2.
  rewrite (bind_run _ _ _ _ _ Es). eexists. split; [reflexivity|].
  constructor; cbn; rewrite ?El; auto; [rewrite E3; rewrite s32_small; lia|].
  right. exists before, (c, ci), after. split; [|done]. apply counted_blocks. by eapply replace_current.
Qed.

Lemma pop_ok xs x s : stack_holds s (xs ++ [x]) ->
  exists s', Diana_Stack_Pop s = (Ok x, s') /\ stack_holds s' xs.
Proof.
  intros H. destruct (GetTopPtr_ok _ _ _ H) as (s1 & before & c & ci & after & Eg & Hb & -> & E1 & E2 & E3).
  destruct (current_node _ _ _ _ _ Hb) as (Nc & Ec & Hc & _).
  unfold Diana_Stack_Pop. rewrite (bind_run _ _ _ _ _ Eg), bind_gets, Ec, E2.
  rewrite (bind_run _ _ _ _ _ (take_item c ci x s1 Hc)).
  destruct (drop_top_ok before c ci x after (length (concat (map snd before) ++ ci)) s1 Hb E1 E2) as (s' & Ed & H');
    [rewrite E3, length_app; cbn; lia|pose proof (sh_bound _ _ H) as Hn; rewrite length_app in Hn; lia|done|].
  exists s'. by rewrite (bind_run _ _ _ _ _ Ed).
Qed.

Lemma pop_empty s : stack_holds s [] -> exists s', Diana_Stack_Pop s = (Err DI_ERROR, s') /\ stack_holds s' [].
Proof.
  intros H. destruct (GetTopPtr_empty s H) as (s' & E & H'). exists s'. split; [|done].
  unfold Diana_Stack_Pop. by rewrite (bind_run _ _ _ _ _ E).
Qed.

(** *** Clear *)

Lemma clear_loop_ok xs : forall fuel s, stack_holds s xs -> (length xs < fuel)%nat ->
  exists s', clear_loop fuel s = (Ok tt, s') /\ stack_holds s' [].
Proof.
  induction xs as [|x xs IH] using rev_ind; intros fuel s H Hf; (destruct fuel as [|fuel]; [lia|]); cbn [clear_loop].
  - destruct (GetTopPtr_empty s H) as (s' & E & H'). exists s'. by rewrite (bind_run _ _ _ _ _ E).
  - destruct (GetTopPtr_ok _ _ _ H) as (s1 & before & c & ci & after & Eg & Hb & -> & E1 & E2 & E3).
    rewrite (bind_run _ _ _ _ _ Eg).
    destruct (drop_top_ok before c ci x after (length (concat (map snd before) ++ ci)) s1 Hb E1 E2) as (s2 & Ed & H');
      [rewrite E3, length_app; cbn; lia|pose proof (sh_bound _ _ H) as Hn; rewrite length_app in Hn; lia|done|].
    rewrite (bind_run _ _ _ _ _ Ed). apply IH; [done|]. rewrite length_app in Hf. cbn in Hf. lia.
Qed.

Lemma clear_ok xs s : stack_holds s xs -> exists s', Diana_Stack_Clear s = (Ok tt, s') /\ stack_holds s' [].
Proof.
  intros H. unfold Diana_Stack_Clear. rewrite bind_gets, (sh_count _ _ H), Nat2Z.id.
  apply (clear_loop_ok xs); [done|lia].
Qed.

(** *** Free *)

Lemma visit_deleter ps : forall s,
  visit deleter ps s = (Ok tt, with_blocks (fun h => foldl (fun h p => delete p h) h ps)
                                 (with_links (fun h => foldl (fun h p => delete p h) h ps) s)).
Proof.
  induction ps as [|p ps IH]; intros s; [by destruct s|]. cbn [visit]. unfold deleter at 1.
  rewrite bind_bind, bind_modify, bind_bind, bind_modify, bind_ret. by rewrite IH.
Qed.

Lemma delete_all_other {A} (ps : list Z) q : q ∉ ps -> forall h : gmap Z A, 
  foldl (fun h p => delete p h) h ps !! q = h !! q.
Proof.
  induction ps as [|p ps IH]; intros Hq h; [done|]. cbn [foldl].
  rewrite IH by set_solver. apply lookup_delete_ne. set_solver.
Qed.

Lemma delete_all_gone {A} (ps : list Z) q : q ∈ ps -> forall h : gmap Z A,
  foldl (fun h p => delete p h) h ps !! q = None.
Proof.
  induction ps as [|p ps IH]; intros Hq h; [by apply elem_of_nil in Hq|]. cbn [foldl].
  destruct (decide (q ∈ ps)) as [Hin|Hn]; [by apply IH|]. apply elem_of_cons in Hq as [->|]; [|done].
  rewrite delete_all_other by done. apply lookup_delete_eq.
Qed.

(** Every block is freed, and nothing else. *)
Lemma free_ok xs s : stack_holds s xs ->
  exists s' ps, Diana_Stack_Free s = (Ok tt, s') /\ dlist (links s) (m_blockList (stack s)) ps /\
    (forall p, p ∈ ps -> links s' !! p = None /\ blocks s' !! p = None) /\
    (forall p, p ∉ ps -> links s' !! p = links s !! p /\ blocks s' !! p = blocks s !! p).
Proof.
  intros [_ _ _ _ Hb].
  assert (Hps : exists ps, dlist (links s) (m_blockList (stack s)) ps /\ (length ps <= size (blocks s))%nat).
  { destruct Hb as [(_ & _ & Hd)|(before & (c, ci) & after & Hb & _)].
    - exists []. split; [done|cbn; lia].
    - eexists. split; [apply Hb|]. pose proof (blocks_size _ _ _ _ _ Hb).
      rewrite length_map, length_app. cbn. lia. }
  destruct Hps as (ps & Hd & Hl). unfold Diana_Stack_Free. rewrite !bind_gets.
  assert (Hle : leaves deleter ps).
  { intros p s0 q _ N. cbn. by rewrite lookup_delete_ne. }
  eexists _, ps. split; [|split; [exact Hd|split]].
  - rewrite (ListForEach_visits deleter _ _ ps s Hle Hd); [apply visit_deleter|lia].
  - intros p Hp. cbn. split; by apply delete_all_gone.
  - intros p Hp. cbn. split; by apply delete_all_other.
Qed.
End StackProofs.

(** C19: the doubly linked list is a sequence of nodes.  On a list whose links are sound, pushing,
    inserting next to a node and erasing one give a sound list with the node at that place, without
    a wild access, and write no other node; pushing and erasing count the size up and down, but an
    insertion between two nodes leaves it as it was.  An erased node has no neighbours.  Walking
    calls the observer for every node in order, also when the observer frees the nodes it is given. *)
Theorem doubly_linked_list_spec (St : Type) (memory : NodeMemory Diana_ListNode St)
    (s : St) (l : Diana_List) (ps : list Z) :
  dlist (nodes s) l ps ->
  (forall p, fresh_node (nodes s) p ps ->
   gives (Diana_PushBack l p) s (ps ++ [p]) (ps ++ [p]) (u64 (m_size l + 1)) /\
   gives (Diana_PushFront l p) s (p :: ps) (p :: ps) (u64 (m_size l + 1)) /\
   (forall xs q ys, ps = xs ++ q :: ys ->
    gives (Diana_InsertAfter l q p) s (p :: ps) (xs ++ q :: p :: ys)
      (match ys with [] => u64 (m_size l + 1) | _ => m_size l end) /\
    gives (Diana_InsertBefore l q p) s (p :: ps) (xs ++ p :: q :: ys)
      (match xs with [] => u64 (m_size l + 1) | _ => m_size l end))) /\
  (forall xs q ys, ps = xs ++ q :: ys ->
   gives (Diana_EraseNode l q) s ps (xs ++ ys) (u64 (m_size l - 1)) /\
   nodes (snd (Diana_EraseNode l q s)) !! q = Some (mkDiana_ListNode nullptr nullptr)) /\
  (forall pObserver fuel, leaves pObserver ps -> (length ps < fuel)%nat ->
   Diana_ListForEach fuel l pObserver s = visit pObserver ps s).
Proof.
  intros D. split; [|split].
  - intros p F. split; [by apply PushBack_gives|]. split; [by apply PushFront_gives|].
    intros xs q ys ->. split; [by apply InsertAfter_gives|by apply InsertBefore_gives].
  - intros xs q ys ->. pose proof (EraseNode_gives l q xs ys s D) as G. split; [exact G|].
    destruct G as (h & l' & E & _). pose proof (erased_alone l q s l' _ E) as A. by rewrite E.
  - intros pObserver fuel Hob Hf. by eapply ListForEach_visits.
Qed.

(** C20: the circular list is a sequence that grows at its end.  With only the pointer to the last
    node, [Diana_FList_PushBack] appends a node and writes no other but the last, [First] and [Next]
    enumerate the nodes and end with null, and walking calls the observer for every node in order and
    stops after the last, also when the observer frees or reuses the nodes it is given. *)
Theorem circular_list_spec (St : Type) (memory : NodeMemory Diana_FList_ListNode St)
    (s : St) (l : Diana_FList_List) (ps : list Z) :
  flist (nodes s) l ps ->
  (forall p, is_Some (nodes s !! p) -> p <> nullptr -> p ∉ ps ->
   exists h' l', Diana_FList_PushBack l p s = (Ok l', set_nodes h' s) /\ flist h' l' (ps ++ [p]) /\
     forall q, q ∉ ps ++ [p] -> h' !! q = nodes s !! q) /\
  Diana_FList_First l s = (Ok (first_of ps nullptr), s) /\
  (forall xs p ys, ps = xs ++ p :: ys -> Diana_FList_Next l p s = (Ok (first_of ys nullptr), s)) /\
  (forall pObserver fuel, leaves pObserver ps -> (length ps <= fuel)%nat ->
   Diana_FList_ListForEach fuel l pObserver s = visit pObserver ps s).
Proof.
  intros F. split; [intros; by apply FList_PushBack_spec|]. split; [by apply FList_First_spec|].
  split; [intros xs p ys ->; by eapply FList_Next_spec|]. intros. by eapply FList_ListForEach_visits.
Qed.

(** C21: the stack over blocks is last in, first out.  [stack_holds s xs] says that the blocks hold
    the items [xs], the top one last; a new stack holds none.  While an item fits into a block,
    [Diana_Stack_Push] puts one on top, or changes nothing and reports that memory is out exactly
    when the allocator gives none; [Pop] gives the top item back and fails on an empty stack; [Clear]
    always ends with an empty stack; [Free] frees every block and nothing else.  None of them accesses
    memory out of a block. *)
Theorem block_stack_is_lifo (blockSize itemSize : Z)
    (DIANA_MALLOC : StackState -> Z -> option (Z * list Z)) (s : StackState) (xs : list (list Z)) :
  0 < itemSize <= blockSize /\ blockSize < 2 ^ 31 -> allocates DIANA_MALLOC ->
  (forall l b, stack_holds blockSize itemSize (mkStackState (Diana_Stack_Init blockSize itemSize) l b) []) /\
  (stack_holds blockSize itemSize s xs ->
   (forall x, is_item itemSize x -> Z.of_nat (length xs) + 1 < 2 ^ 31 ->
    match Diana_Stack_Push DIANA_MALLOC x s with
    | (Ok _, s') => stack_holds blockSize itemSize s' (xs ++ [x])
    | (Err c, s') => c = DI_OUT_OF_MEMORY /\ s' = s /\ DIANA_MALLOC s blockSize = None
    | (Crash, _) => False
    end) /\
   match rev xs with
   | [] => exists s', Diana_Stack_Pop s = (Err DI_ERROR, s') /\ stack_holds blockSize itemSize s' []
   | x :: below => exists s', Diana_Stack_Pop s = (Ok x, s') /\ stack_holds blockSize itemSize s' (rev below)
   end /\
   (exists s', Diana_Stack_Clear s = (Ok tt, s') /\ stack_holds blockSize itemSize s' []) /\
   (exists s' ps, Diana_Stack_Free s = (Ok tt, s') /\ dlist (links s) (m_blockList (stack s)) ps /\
      (forall p, p ∈ ps -> links s' !! p = None /\ blocks s' !! p = None) /\
      (forall p, p ∉ ps -> links s' !! p = links s !! p /\ blocks s' !! p = blocks s !! p))).
Proof.
  intros Hs Ha. split; [apply Init_holds|]. intros H. split; [intros x Hx Hn; by apply stack_push_ok|]. split.
  - destruct (split_last xs) as [->|(ys & x & ->)]; [by eapply pop_empty|].
    rewrite rev_app_distr. cbn. rewrite rev_involutive. by eapply pop_ok.
  - split; [by eapply clear_ok|by eapply free_ok].
Qed.

(** A memory of nodes alone. *)
#[local, refine] Instance only_nodes Node : NodeMemory Node (gmap Z Node) :=
  { nodes := fun h => h; set_nodes := fun h _ => h }.
Proof. all: done. Defined.

(** Nodes 1 and 2 in a list, node 3 outside. *)
Definition two_nodes : gmap Z Diana_ListNode :=
  {[ 1 := mkDiana_ListNode 2 0; 2 := mkDiana_ListNode 0 1; 3 := mkDiana_ListNode 7 7 ]}.
Definition two_list : Diana_List := mkDiana_List 1 2 2.

Lemma two_dlist : dlist two_nodes two_list [1; 2].
Proof. constructor; try done; [|set_solver]. repeat constructor; set_solver. Qed.

Lemma doubly_linked_list_spec_witness :
  exists h' l', Diana_InsertAfter two_list 1 3 two_nodes = (Ok l', h') /\ dlist h' l' [1; 3; 2] /\
    m_size l' = 2.
Proof.
  destruct (doubly_linked_list_spec _ (only_nodes Diana_ListNode) two_nodes two_list [1; 2] two_dlist) as (I & _).
  destruct (I 3) as (_ & _ & J); [split; [by eexists|split; [done|set_solver]]|].
  destruct (J [] 1 [2] eq_refl) as ((h' & l' & E & D & S & _) & _).
  exists h', l'. split; [exact E|]. split; [exact D|exact S].
Defined.

Definition two_circle : gmap Z Diana_FList_ListNode :=
  {[ 1 := mkDiana_FList_ListNode 2; 2 := mkDiana_FList_ListNode 1 ]}.

Lemma two_flist : flist two_circle (mkDiana_FList_List 2) [1; 2].
Proof. constructor; try done; [|set_solver]. repeat constructor; set_solver. Qed.

Lemma circular_list_spec_witness :
  Diana_FList_First (mkDiana_FList_List 2) two_circle = (Ok 1, two_circle) /\
  Diana_FList_Next (mkDiana_FList_List 2) 1 two_circle = (Ok 2, two_circle) /\
  Diana_FList_Next (mkDiana_FList_List 2) 2 two_circle = (Ok 0, two_circle).
Proof.
  destruct (circular_list_spec _ (only_nodes Diana_FList_ListNode) two_circle (mkDiana_FList_List 2) [1; 2] two_flist)
    as (_ & F & N & _).
  split; [exact F|]. split; [exact (N [] 1 [2] eq_refl)|exact (N [1] 2 [] eq_refl)].
Defined.

(** An allocator that takes an address not in use. *)
Definition next_block (s : StackState) (n : Z) : option (Z * list Z) :=
  if n <? 0 then None
  else Some (fresh (C := gset Z) ({[0]} ∪ dom (links s) ∪ dom (blocks s)), repeat 0 (Z.to_nat n)).

Lemma next_block_allocates : allocates next_block.
Proof.
  intros s n p bytes. unfold next_block. destruct (Z.ltb_spec n 0); [done|]. intros [= <- <-].
  pose proof (is_fresh ({[0]} ∪ dom (links s) ∪ dom (blocks s) : gset Z)) as F.
  set (p := fresh _) in *. rewrite !not_elem_of_union, !not_elem_of_dom, not_elem_of_singleton in F.
  rewrite repeat_length. destruct F as ((? & ?) & ?). repeat split; try done. lia.
Qed.

Definition empty_stack : StackState := mkStackState (Diana_Stack_Init 8 4) ∅ ∅.

Lemma block_stack_is_lifo_witness :
  exists s1 s2, Diana_Stack_Push next_block [1; 2; 3; 4] empty_stack = (Ok tt, s1) /\
    Diana_Stack_Pop s1 = (Ok [1; 2; 3; 4], s2) /\ stack_holds 8 4 s2 [].
Proof.
  assert (Hs : 0 < 4 <= 8 /\ 8 < 2 ^ 31) by lia.
  destruct (block_stack_is_lifo 8 4 next_block empty_stack [] Hs next_block_allocates) as (I & H).
  destruct (H (I ∅ ∅)) as (P & _). specialize (P [1; 2; 3; 4] eq_refl eq_refl).
  destruct (Diana_Stack_Push next_block [1; 2; 3; 4] empty_stack) as [[[]|c|] s1] eqn:E; [|by destruct P as (_ & _ & ?)|done].
  destruct (block_stack_is_lifo 8 4 next_block s1 [[1; 2; 3; 4]] Hs next_block_allocates) as (_ & H1).
  destruct (H1 P) as (_ & (s2 & E2 & P2) & _). exists s1, s2. done.
Defined.

(** An item larger than a block is copied behind its end. *)
Example large_items_overflow :
  fst (Diana_Stack_Push next_block [1; 2; 3; 4] (mkStackState (Diana_Stack_Init 3 4) ∅ ∅)) = Crash.
Proof. vm_compute. reflexivity. Qed.
