(* ===== verification/Properties.v ===== *)
(** The properties of the processor: the theorems the development is about, over any memory stream
    that keeps the laws of [RandomStreamOk].  Each follows from the lemmas of its component. *)

From Stdlib Require Import ZArith Lia List Bool.
Import ListNotations.
From S2P Require Import Prelude Words Status Registers ProcStreams Processor CmdInternal CmdArith.
From S2P Require Import CmdLogic CmdFlow CmdMulDiv CmdStack CmdString CmdMove CmdBits.
From S2P Require Import ProcessorInit State Exec Operands Rules ArithProofs Loops.
From S2P Require Import LogicProofs RegisterProofs FlowProofs MulDivProofs Invariant.
From S2P Require Import StackProofs StringProofs BitProofs.
From S2P Require Import BitProofs RegisterProofs.
Local Open Scope Z_scope.
Local Open Scope diana_scope.

Section Properties.
Context {T : Type} `{RandomStreamOk T}.
Implicit Types s : DianaProcessor T.

(** C7: The state invariant.  Every one of the 164 integer handlers that the command table can install
    (those of OnGroup; the handlers of floating point and SIMD commands are not among them), run by
    [Diana_ProcessorCall] from a ready processor (register table, vector, flags word and memory
    stream well formed, no state bit of a handler left), ends in a ready processor, whatever
    status it returns and wherever it stops. *)
Theorem handlers_keep_processor_ready m s :
  In m handlers -> ready s -> ready (snd (Call m s)).
Proof. intros Hm R. apply Call_ready; [now apply keeps_handlers|exact R]. Qed.

(** C17: [cmp] followed by any condition decides the comparison the mnemonic names: the
    conditions above and below compare the operands as unsigned numbers, greater and less
    as signed numbers of the destination's width, and the operands themselves are unchanged. *)
Theorem cmp_then_condition s d n x m :
  compares s d n x m ->
  let y := sign_extend m n x in
  exists s', Call Diana_Call_cmp s = (Ok tt, s') /\
    (forall r, rval s' r = rval s r) /\
    Forall (fun p => fst p s' = (Ok (snd p), s'))
      [(cond_a, y <? d); (cond_ae, y <=? d); (cond_b, d <? y); (cond_be, d <=? y);
       (cond_e, d =? y); (cond_ne, negb (d =? y));
       (cond_g, signed n y <? signed n d); (cond_ge, signed n y <=? signed n d);
       (cond_l, signed n d <? signed n y); (cond_le, signed n d <=? signed n y)].
Proof. apply cmp_decides. Qed.

(** C18: additions and subtractions.  [add] and [adc] store the sum of the operands, and for [adc]
    the carry, [sub] and [sbb] the difference, less the borrow for [sbb], modulo the width of the
    destination; CF and AF are the carries out of the top bit and out of bit 3 or the borrows into
    them, OF is set when the signed result leaves the signed range, PF, ZF and SF describe the
    result, and no other flag, register or byte of memory changes. *)
Theorem add_and_sub_spec s d n x m :
  binary s d n x m ->
  let y := sign_extend m n x in
  let sum c :=
    with_flags (fun _ => set_psz n (d + y + c)
        (set_coa (add_CF n d y c) (add_OF n d y c) (add_AF d y c) (m_flags s)))
      (put_operand 0 ((d + y + c) mod modulus n) s) in
  let difference c :=
    with_flags (fun _ => set_psz n (d - y - c)
        (set_coa (sub_CF d y c) (sub_OF n d y c) (sub_AF d y c) (m_flags s)))
      (put_operand 0 ((d - y - c) mod modulus n) s) in
  Call Diana_Call_add s = (Ok tt, sum 0) /\
  Call Diana_Call_adc s = (Ok tt, sum (carry_in (m_flags s))) /\
  Call Diana_Call_sub s = (Ok tt, difference 0) /\
  Call Diana_Call_sbb s = (Ok tt, difference (carry_in (m_flags s))).
Proof.
  intros B y sum difference. unfold sum, difference. split; [|split; [exact (adc_run s d n x m B)|split]].
  - rewrite Z.add_0_r. exact (add_run s d n x m B).
  - rewrite Z.sub_0_r. exact (sub_run s d n x m B).
  - exact (sbb_run s d n x m B).
Qed.

(** [inc], [dec] and [neg].  They store [d+1], [d-1] and [-d] modulo the width with the
    flags of the addition of one, the subtraction of one and the subtraction from zero, except
    that [inc] and [dec] leave CF as it was. *)
Theorem inc_dec_neg_spec s d n :
  unary s d n ->
  Call Diana_Call_inc s =
    (Ok tt, with_flags (fun _ => set_psz n (d + 1)
                (setf OF (add_OF n d 1 0) (setf AF (add_AF d 1 0) (m_flags s))))
              (put_operand 0 ((d + 1) mod modulus n) s)) /\
  Call Diana_Call_dec s =
    (Ok tt, with_flags (fun _ => set_psz n (d - 1)
                (setf OF (sub_OF n d 1 0) (setf AF (sub_AF d 1 0) (m_flags s))))
              (put_operand 0 ((d - 1) mod modulus n) s)) /\
  Call Diana_Call_neg s =
    (Ok tt, with_flags (fun _ => set_psz n (0 - d)
                (set_coa (sub_CF 0 d 0) (sub_OF n 0 d 0) (sub_AF 0 d 0) (m_flags s)))
              (put_operand 0 ((0 - d) mod modulus n) s)).
Proof.
  intros U. exact (conj (inc_run s d n U) (conj (dec_run s d n U) (neg_run s d n U))).
Qed.

(** [and], [or] and [xor].  The destination receives the bitwise combination with the
    sign-extended source; CF and OF are cleared and PF, ZF and SF describe the result ([and] and
    [or] clear AF as well, [xor] leaves it). *)
Theorem logic_spec s d n x m :
  binary s d n x m ->
  let y := sign_extend m n x in
  let result f v := (Ok tt, with_flags (fun _ => f v) (put_operand 0 v s)) in
  Call Diana_Call_and s = result (fun v => logic_flags n v (m_flags s)) (Z.land d y) /\
  Call Diana_Call_or s = result (fun v => logic_flags n v (m_flags s)) (Z.lor d y) /\
  Call Diana_Call_xor s =
    result (fun v => set_psz n v (setf OF false (setf CF false (m_flags s)))) (Z.lxor d y).
Proof.
  intros B y result. exact (conj (and_run s d n x m B) (conj (or_run s d n x m B) (xor_run s d n x m B))).
Qed.

(** C25: [shl], [shr] and [sar] compute multiplication and division by a power of two: modulo
    the width, unsigned and signed (rounding down).  The count is masked to 5 bits, to 6 with
    REX.W; a zero count keeps every flag; CF is the last bit shifted out and OF follows the
    manual for a count of one. *)
Theorem shift_spec s d n x m :
  binary s d n x m ->
  let c := masked_count s x in
  let left := (d * 2 ^ c) mod modulus n in
  let out := Z.testbit d (8 * n - c) in
  Call Diana_Call_shl s =
    (Ok tt, shifted s d n c out ((c =? 1) && xorb out (is_negative n left)) left) /\
  Call Diana_Call_shr s =
    (Ok tt, shifted s d n c (Z.testbit d (c - 1)) ((c =? 1) && is_negative n d) (d / 2 ^ c)) /\
  Call Diana_Call_sar s =
    (Ok tt, shifted s d n c (Z.testbit (signed n d) (c - 1)) false
              ((signed n d / 2 ^ c) mod modulus n)).
Proof.
  intros B c left out.
  exact (conj (shl_run s d n x m B) (conj (shr_run s d n x m B) (sar_run s d n x m B))).
Qed.

(** C26: [rol] and [ror] rotate the destination by the masked count, in opposite directions; [rcl]
    and [rcr] rotate it together with CF, as one number of one bit more, by the count modulo that
    width.  CF is the bit that went around, OF is defined for a count of one, the other flags
    stay: what the bit-by-bit loops of the code compute. *)
Theorem rotates_spec s d n x m :
  binary s d n x m ->
  let bit v i := Z.testbit v i in
  (let c := masked_count s x in
   let l := rotate (8 * n) c d in
   let r := rotate (8 * n) (- c) d in
   Call Diana_Call_rol s =
     (Ok tt, rotated s d n c (bit l 0) ((c =? 1) && xorb (bit l 0) (bit l (8 * n - 1))) l) /\
   Call Diana_Call_ror s =
     (Ok tt, rotated s d n c (bit r (8 * n - 1))
               ((c =? 1) && xorb (bit r (8 * n - 1)) (bit r (8 * n - 2))) r)) /\
  (let c := carry_count n x in
   let l := rotate (8 * n + 1) c (carry_pair s n d) in
   let r := rotate (8 * n + 1) (- c) (carry_pair s n d) in
   Call Diana_Call_rcl s =
     (Ok tt, rotated s d n c (bit l (8 * n))
               ((c =? 1) && xorb (bit l (8 * n)) (bit l (8 * n - 1))) (l mod modulus n)) /\
   Call Diana_Call_rcr s =
     (Ok tt, rotated s d n c (bit r (8 * n))
               ((c =? 1) && xorb (bit (m_flags s) CF) (is_negative n d)) (r mod modulus n))).
Proof.
  intros B bit. split.
  - exact (conj (rol_run s d n x m B) (ror_run s d n x m B)).
  - exact (conj (rcl_run s d n x m B) (rcr_run s d n x m B)).
Qed.

(** [shld] takes the upper half of the double-width pair destination:source shifted left by
    the masked count, for counts up to the width. *)
Theorem shld_spec s d n x k ks :
  double s d n x k ks ->
  let c := masked_count s k in
  c <= 8 * n ->
  let v := ((pair_of n d x * 2 ^ c) mod (modulus n * modulus n)) / modulus n in
  Call Diana_Call_shld s =
  (Ok tt, shifted s d n c (Z.testbit d (8 * n - c))
            ((c =? 1) && xorb (is_negative n v) (is_negative n d)) v).
Proof. exact (shld_run s d n x k ks). Qed.

(** [mul] leaves the full double-width product of the accumulator and the operand in the
    register pair (AX, DX:AX, EDX:EAX, RDX:RAX), with CF and OF set exactly when the product
    does not fit in the lower half. *)
Theorem mul_spec s a n :
  pair_op s a n ->
  let p := rval s (low_reg n) * a in
  exists s', Call Diana_Call_mul s = (Ok tt, s') /\ pair_value s' n = p /\
    m_flags s' = setf OF (modulus n <=? p) (setf CF (modulus n <=? p) (m_flags s)).
Proof. intros P p. destruct (mul_run s a n P) as [E V]. eexists. split; [exact E|]. now split. Qed.

(** [imul].  With one operand it leaves the full signed product in the register pair, modulo
    the double width, with CF and OF set exactly when it does not fit in the lower half as a signed
    number; with two and three operands it stores the signed product of the sources, truncated to
    the destination's width, and reports the truncation in CF and OF. *)
Theorem imul_spec s :
  (forall a n, pair_op s a n -> iLinkedOpCount (m_result s) = 1 ->
   let p := signed n (rval s (low_reg n)) * signed n a in
   let c := negb (in_signed n p) in
   exists s', Call Diana_Call_imul s = (Ok tt, s') /\
     pair_value s' n = p mod (modulus n * modulus n) /\
     m_flags s' = setf OF c (setf CF c (m_flags s))) /\
  (forall d n x m, binary s d n x m -> m <= n ->
   let stored p :=
     let c := negb (in_signed n p) in
     (Ok tt, with_flags (fun _ => setf OF c (setf CF c (m_flags s)))
               (put_operand 0 (p mod modulus n) s)) in
   (iLinkedOpCount (m_result s) = 2 ->
    Call Diana_Call_imul s = stored (signed n d * signed m x)) /\
   (forall y k, reads s 2 y k -> k <= n -> iLinkedOpCount (m_result s) = 3 ->
    Call Diana_Call_imul s = stored (signed m x * signed k y))).
Proof.
  split.
  - intros a n P K p c. destruct (imul_1_run s a n P K) as [E V]. eexists. split; [exact E|].
    split; [exact V|reflexivity].
  - intros d n x m B Hm stored. split.
    + exact (imul_2_run s d n x m B Hm).
    + intros y k Ry Hk. exact (imul_3_run s d n x m y k B Ry Hm Hk).
Qed.

(** C27: [div] divides the register pair by the operand: quotient and remainder go to the halves
    of the pair and no flag changes; a zero divisor and a quotient that does not fit are refused
    and leave the processor as it was.  The 128-by-64-bit case runs the shift-and-subtract loop
    of [div64]. *)
Theorem div_spec s a n :
  pair_op s a n ->
  let q := pair_value s n / a in
  (a = 0 -> Call Diana_Call_div s = (Err DI_DIVISION_BY_ZERO, s)) /\
  (a <> 0 -> modulus n <= q -> Call Diana_Call_div s = (Err (overflow_status n), s)) /\
  (a <> 0 -> q < modulus n ->
   exists s', Call Diana_Call_div s = (Ok tt, s') /\ m_flags s' = m_flags s /\
     rval s' (low_reg n) = q /\ rval s' (high_reg n) = pair_value s n mod a).
Proof.
  intros P q. rewrite (div_run s a n P). unfold divided. fold q.
  split; [intros ->; reflexivity|]. split.
  - intros Na Hq. destruct (Z.eqb_spec a 0), (Z.ltb_spec q (modulus n)); congruence || lia || reflexivity.
  - intros Na Hq. pose proof (div_registers s a n P Na Hq) as D.
    rewrite (div_run s a n P) in D. exact D.
Qed.

(** C28: [idiv] divides the signed register pair, rounding toward zero.  A zero divisor and a
    quotient outside of the accepted range leave the processor as it was; the two quotients
    that C itself cannot compute (the least 32- and 64-bit number by -1) trap on the host. *)
Theorem idiv_spec s a n :
  pair_op s a n ->
  let N := signed_pair s n in
  let d := signed n a in
  let q := Z.quot N d in
  (d = 0 -> Call Diana_Call_idiv s = (Err DI_DIVISION_BY_ZERO, s)) /\
  (d <> 0 -> idiv_traps n N d = true -> Call Diana_Call_idiv s = (Crash, s)) /\
  (d <> 0 -> idiv_traps n N d = false -> idiv_fits n q = false ->
   Call Diana_Call_idiv s = (Err (overflow_status n), s)) /\
  (d <> 0 -> idiv_traps n N d = false -> idiv_fits n q = true ->
   exists s', Call Diana_Call_idiv s = (Ok tt, s') /\ m_flags s' = m_flags s /\
     rval s' (low_reg n) = q mod modulus n /\ rval s' (high_reg n) = Z.rem N d mod modulus n).
Proof.
  intros P N d q. split; [|split; [|split]]; [| | |exact (idiv_registers s a n P)].
  all: rewrite (idiv_run s a n P); unfold idivided; fold N; fold d; fold q.
  - intros ->. reflexivity.
  - intros Nd ->. destruct (Z.eqb_spec d 0); [congruence|reflexivity].
  - intros Nd -> ->. destruct (Z.eqb_spec d 0); [congruence|reflexivity].
Qed.

(** [idiv] on 8, 16 and 32 bits accepts quotients that do not fit the destination: a
    positive quotient from half the modulus up is stored without a fault and reads back as a
    negative number. *)
Theorem idiv_accepts_unrepresentable_quotients s a n :
  pair_op s a n -> n <> 8 ->
  let q := Z.quot (signed_pair s n) (signed n a) in
  signed n a <> 0 -> idiv_traps n (signed_pair s n) (signed n a) = false ->
  half n <= q < modulus n ->
  exists s', Call Diana_Call_idiv s = (Ok tt, s') /\ rval s' (low_reg n) = q /\
    signed n (rval s' (low_reg n)) < 0.
Proof.
  intros P N8 q Nd Ht Hq. pose proof (reads_size _ _ _ _ (po_reads _ _ _ P)) as Hn.
  pose proof (opsize_pos n Hn). pose proof (half_pos n ltac:(lia)).
  pose proof (modulus_half n ltac:(lia)).
  destruct (idiv_registers s a n P Nd Ht) as (s' & E & _ & L & _).
  { unfold idiv_fits. fold q. zcases; reflexivity || lia. }
  exists s'. split; [exact E|]. fold q in L. rewrite Z.mod_small in L by lia.
  split; [exact L|]. rewrite L. unfold signed. zcases; lia.
Qed.

(** The handlers of one condition: the jump, the move, the set, and the condition itself. *)
Definition condition_table : list (MP T unit * MP T unit * MP T unit * (Z -> bool)) :=
  [(Diana_Call_ja, Diana_Call_cmova, Diana_Call_seta, cc_a);
   (Diana_Call_jae, Diana_Call_cmovae, Diana_Call_setae, cc_ae);
   (Diana_Call_jb, Diana_Call_cmovb, Diana_Call_setb, cc_b);
   (Diana_Call_jbe, Diana_Call_cmovbe, Diana_Call_setbe, cc_be);
   (Diana_Call_je, Diana_Call_cmove, Diana_Call_sete, cc_e);
   (Diana_Call_jg, Diana_Call_cmovg, Diana_Call_setg, cc_g);
   (Diana_Call_jge, Diana_Call_cmovge, Diana_Call_setge, cc_ge);
   (Diana_Call_jl, Diana_Call_cmovl, Diana_Call_setl, cc_l);
   (Diana_Call_jle, Diana_Call_cmovle, Diana_Call_setle, cc_le);
   (Diana_Call_jne, Diana_Call_cmovne, Diana_Call_setne, cc_ne);
   (Diana_Call_jno, Diana_Call_cmovno, Diana_Call_setno, cc_no);
   (Diana_Call_jnp, Diana_Call_cmovnp, Diana_Call_setnp, cc_np);
   (Diana_Call_jns, Diana_Call_cmovns, Diana_Call_setns, cc_ns);
   (Diana_Call_jo, Diana_Call_cmovo, Diana_Call_seto, cc_o);
   (Diana_Call_jp, Diana_Call_cmovp, Diana_Call_setp, cc_p);
   (Diana_Call_js, Diana_Call_cmovs, Diana_Call_sets, cc_s)].

(** Each of the 48 conditional instructions acts on its condition alone: the jump moves RIP
    or does nothing, the move stores the source or leaves the destination (with its upper half
    cleared in 64-bit mode), the set stores one or zero; no flag changes. *)
Theorem conditional_instructions_spec jcc mv setcc cc s :
  In (jcc, mv, setcc, cc) condition_table ->
  (forall rel, jumps s 1 0 rel -> Call jcc s = (Ok tt, if cc (m_flags s) then jumped s rel else s)) /\
  (forall d, unary s d 1 ->
    Call setcc s = (Ok tt, with_flags (fun _ => m_flags s)
                             (put_operand 0 (Z.b2z (cc (m_flags s))) s))) /\
  (forall x m n, wf s -> idle s -> reads s 1 x m -> writes s 0 n ->
    Call mv s = (Ok tt, with_flags (fun _ => m_flags s)
                          (if cc (m_flags s) then put_operand 0 x s else clear_upper s))).
Proof.
  intros Hin. assert (D : exists cond, jcc = jump_if cond /\ mv = cmov cond /\ setcc = set_if cond
                            /\ decides cond cc).
  { unfold condition_table in Hin. cbn [In] in Hin.
    repeat destruct Hin as [E|Hin]; [..|contradiction]; injection E as <- <- <- <-;
      eexists; (split; [reflexivity|]); (split; [reflexivity|]); (split; [reflexivity|]);
      auto using cond_a_decides, cond_ae_decides, cond_b_decides, cond_be_decides,
        cond_e_decides, cond_g_decides, cond_ge_decides, cond_l_decides, cond_le_decides,
        cond_ne_decides, cond_no_decides, cond_np_decides, cond_ns_decides, cond_o_decides,
        cond_p_decides, cond_s_decides. }
  destruct D as (cond & -> & -> & -> & D). split; [|split].
  - intros rel J. exact (jump_if_run cond cc rel s D J).
  - intros d U. exact (set_if_run cond cc d s D U).
  - intros x m n W I R Wr. exact (cmov_run cond cc x m n s D W I R Wr).
Qed.

(** Relative jumps in 64-bit mode, where the decoder gives them 64-bit operands: [jmp] and
    a taken conditional jump move RIP to the end of the instruction plus the signed offset, over
    all 64 bits and with wrap-around; a conditional jump not taken leaves the state alone. *)
Theorem relative_jumps_reach_target s rel :
  jumps s 1 0 rel ->
  iCurrentCmd_opsize (m_context s) = 8 -> iMainMode_addressSize (m_context s) = 8 ->
  let target := u64 (rval s reg_RIP + iFullCmdSize (m_result s) + rel) in
  (exists s', Call Diana_Call_jmp s = (Ok tt, s') /\ rval s' reg_RIP = target) /\
  (exists s', Call Diana_Call_je s = (Ok tt, s') /\
     if cc_e (m_flags s) then rval s' reg_RIP = target else s' = s).
Proof.
  intros J O A target. pose proof (ju_wf _ _ _ _ J) as W.
  assert (V : rval (put_rip 8 (u64 (window s reg_RIP 8 + rel + iFullCmdSize (m_result s))) s) reg_RIP
              = target).
  { rewrite rval_put_rip by exact W. change (window s reg_RIP 8) with (rval s reg_RIP).
    unfold target. replace (rval s reg_RIP + iFullCmdSize (m_result s) + rel)
      with (rval s reg_RIP + rel + iFullCmdSize (m_result s)) by ring.
    apply Z.mod_small. apply u64_range. }
  split.
  - eexists. rewrite (jmp_rel_run _ _ J), O. split; [reflexivity|exact V].
  - eexists. change Diana_Call_je with (@jump_if T cond_e).
    rewrite (jump_if_run _ _ _ _ cond_e_decides J). split; [reflexivity|].
    destruct (cc_e (m_flags s)); [|reflexivity]. unfold jumped. rewrite O, A. exact V.
Qed.

(** C29: the registers alias as the architecture says.  Every general register reads as its bytes of one
    of the sixteen 64-bit registers: the low four, two or one, or the second for AH, CH, DH and BH.  A
    store of [v] to a general register changes nothing but the register file, and afterwards each of
    these registers reads its bytes of 64-bit registers of which one has changed: it holds [v] over the
    bytes of the stored register and its old bytes elsewhere, or, after a store to a 32-bit register in
    64-bit mode, the low 32 bits of [v] with the upper half cleared. *)
Theorem register_store_aliases s r wide first size v :
  wf s -> psz_clear s -> part_of r wide first size ->
  exists (old : Z -> Z) s',
    (forall w, part_of w w 0 8 -> GET_REG w s = (Ok (old w), s)) /\
    (forall q w lo n, part_of q w lo n -> GET_REG q s = (Ok (part (old w) (8 * lo) (8 * n)), s)) /\
    SET_REG r v s = (Ok tt, s') /\
    s' = with_pRegistersVector (fun _ => m_pRegistersVector s') s /\
    let stored := if (size =? 4) && negb (iAMD64Mode (m_context s) =? 0) then v mod 2 ^ 32
                  else with_part (old wide) (8 * first) (8 * size) v in
    forall q w lo n, part_of q w lo n ->
      GET_REG q s' = (Ok (part (if w =? wide then stored else old w) (8 * lo) (8 * n)), s').
Proof.
  intros W P Pr. pose proof (int_regs_ok r (gprs_int r (pl_gpr _ _ _ _ (part_of_layout _ _ _ _ Pr)))) as R.
  exists (rval s), (put_register r v s). split; [|split; [|split; [|split]]].
  - intros w Pw. rewrite (get_part s w w 0 8 W Pw). now rewrite <- (part_value s w w 0 8 W Pw).
  - intros q w lo n Pq. now rewrite (get_part s q w lo n) by assumption.
  - pose proof (SET_REG_tw r v (m_flags s) false s W (wf_flag_word s W) R
      (gpr_not_rip r (pl_gpr _ _ _ _ (part_of_layout _ _ _ _ Pr))) P) as E. now rewrite !tw_id in E.
  - now destruct s.
  - intros stored q w lo n Pq. rewrite (get_part _ q w lo n) by auto using wf_put_register.
    now rewrite (part_stored s r wide first size v w W Pr (part_of_wide _ _ _ _ Pq)).
Qed.

(** What is pushed is popped.  [diana_internal_push] followed by [diana_internal_pop] returns
    the value at the width of the operand, with every register, the stack pointer included, as
    before; only the slot below the stack pointer has changed. *)
Theorem push_then_pop s v :
  stacked s -> room s ->
  (diana_internal_push v ;;; diana_internal_pop) s =
  (Ok (v mod modulus (op_size s)),
   put_memory (stack_segment s) (stack_pointer s - op_size s) (op_size s) v reg_SS s).
Proof. exact (push_pop s v). Qed.

(** C30: [push] and [pop] as handlers, for every operand that can be read.  With room below the stack
    pointer [push] moves the stack pointer down by the operand size and stores its item there, and
    changes nothing else: a segment register as two bytes, whatever the operand size; any other operand
    at the operand size, a byte with its sign extended, and in 64-bit mode so the operand of a push that
    is marked to extend the sign.  When the stack pointer is smaller than the operand size every push
    is refused and nothing changes.  [pop] moves the value on top of the stack to its operand. *)
Theorem push_and_pop_spec s x m :
  stacked s -> idle s -> reads s 0 x m ->
  (push_room s ->
   let item := if has (pInfo_flags (m_result s)) DI_FLAG_CMD_PUSH_SEG then x
               else if (m =? 1) || (op_size s =? 8) && has (pInfo_flags (m_result s)) DI_FLAG_CMD_AMD64_SIGN_EXTENDS
                    then sign_extend m (op_size s) x
               else x in
   let width := if has (pInfo_flags (m_result s)) DI_FLAG_CMD_PUSH_SEG then 2 else op_size s in
   let s' := snd (Call Diana_Call_push s) in
   Call Diana_Call_push s =
     (Ok tt, put_stack_pointer (stack_pointer s - op_size s)
               (put_memory (stack_segment s) (stack_pointer s - op_size s) width item reg_SS s)) /\
   stack_pointer s' = stack_pointer s - op_size s /\
   loads (m_pMemoryStream s') (stack_segment s) (stack_pointer s - op_size s) width reg_SS (item mod modulus width)) /\
  (stack_pointer s < op_size s -> Call Diana_Call_push s = (Err DI_ERROR, s)) /\
  (forall v n, on_top s v -> writes (popped s) 0 n ->
   Call Diana_Call_pop s = (Ok tt, put_operand 0 v (popped s))).
Proof.
  intros S I Rd. split; [|split].
  - intros R item width s'. pose proof (push_run s x m S I Rd R) as E. split; [exact E|].
    unfold s'. rewrite E. exact (push_done_top _ s S R).
  - exact (push_underflow s x m S I Rd).
  - intros v n O Wr. exact (pop_run s v x m n S I O Rd Wr).
Qed.

(** C31: [popa] undoes [pusha].  On any machine that has the memory, the stack pointer and the
    stack segment [pusha] left, whatever the other registers hold, [popa] restores every saved
    register but the stack pointer to its old value, and the stack pointer to where it was. *)
Theorem popa_restores_pusha s rs s2 :
  stacked s -> idle s -> saves s rs -> rooms 8 s ->
  exists s1, Call Diana_Call_pusha s = (Ok tt, s1) /\
    (stacked s2 -> idle s2 -> op_size s2 = op_size s -> address_size s2 = address_size s ->
     m_pMemoryStream s2 = m_pMemoryStream s1 -> stack_pointer s2 = stack_pointer s1 ->
     stack_segment s2 = stack_segment s ->
     exists s3, Call Diana_Call_popa s2 = (Ok tt, s3) /\ stack_pointer s3 = stack_pointer s /\
       forall r, In r rs -> r <> nth 4 rs 0 -> rval s3 r = rval s r).
Proof.
  intros S I Sv Rm. exists (saved s rs). split; [exact (proj1 (pusha_saves s rs S I Sv Rm))|].
  exact (popa_pusha s rs s2 S Sv Rm).
Qed.

(** C32: [ret] returns from [call].  A near relative [call] jumps to its target with the address of
    the following instruction on the stack, and [ret] on any machine with that memory, RSP and
    stack segment continues at that address (at the width of the operand) with RSP as it was. *)
Theorem ret_returns_from_call s rel s2 :
  calls s rel ->
  exists s1, Call Diana_Call_call s = (Ok tt, s1) /\
    rval s1 reg_RIP = u64 (rval s reg_RIP + rel + iFullCmdSize (m_result s)) /\
    (wf s2 -> idle s2 -> iLinkedOpCount (m_result s2) = 0 -> op_size s2 = op_size s ->
     m_pMemoryStream s2 = m_pMemoryStream s1 -> rval s2 reg_RSP = rval s1 reg_RSP ->
     stack_segment s2 = stack_segment s ->
     exists s3, Call Diana_Call_ret s2 = (Ok tt, s3) /\
       rval s3 reg_RIP = return_address s mod modulus (op_size s) /\
       rval s3 reg_RSP = rval s reg_RSP).
Proof.
  intros C. exists (called s rel). split; [exact (call_run s rel C)|]. split.
  - exact (rval_called_rip s rel C).
  - exact (ret_call s rel s2 C).
Qed.

(** C33: repetition ends.  The endless loop of [Diana_ProcessorCallWithRep] around a string
    instruction leaves from every ready processor after at most RCX rounds, in a ready
    processor: with more fuel than RCX the model never runs out of it, and every such fuel
    gives the same result. *)
Theorem repetition_terminates m b s :
  In m string_handlers -> ready s ->
  exists r, r <> Ok None /\ ready (snd (CallWithRep (S (Z.to_nat (rval s reg_RCX))) m b s)) /\
    forall fuel, rval s reg_RCX < Z.of_nat fuel ->
      CallWithRep fuel m b s =
      (r, snd (CallWithRep (S (Z.to_nat (rval s reg_RCX))) m b s)).
Proof.
  intros Hm R. set (f0 := S (Z.to_nat (rval s reg_RCX))).
  assert (F : rval s reg_RCX < Z.of_nat f0) by (unfold f0; lia).
  destruct (CallWithRep_ends m f0 b s Hm R F) as [N Rs].
  exists (fst (CallWithRep f0 m b s)). split; [exact N|]. split; [exact Rs|].
  intros fuel Hf. rewrite (CallWithRep_fuel m fuel f0 b s Hm R Hf F). apply surjective_pairing.
Qed.

(** C34: [rep stos] fills memory.  With the direction flag clear it runs the whole count and
    leaves every element of the block at ES:(E|R)DI equal to the accumulator, the counter at
    zero and the index behind the block. *)
Theorem rep_stos_fills_block s k fuel :
  stringy s 1 -> opsize (op_size s) -> commandId (m_result s) = diana_cmd_stos ->
  rip_changed s = false -> flag DF (m_flags s) = false ->
  rval s (counter s) = k -> k < Z.of_nat fuel -> block_fits s (dest s) k ->
  mapped (m_pMemoryStream s) (rval s reg_ES) (dest s) (k * element s) ->
  exists s',
    CallWithRep fuel Diana_Call_stos false s = (Ok (Some tt), s') /\
    rval s' (counter s) = 0 /\
    dest s' = (dest s + k * element s) mod modulus (address_size s) /\
    forall i, 0 <= i < k ->
      loads (m_pMemoryStream s') (rval s reg_ES) (dest s + i * element s) (element s) reg_ES
        (window s reg_RAX (element s)).
Proof. exact (rep_stos_fills s k fuel). Qed.

(** C35: [rep movs] copies memory.  When source and destination do not overlap and the direction
    flag is clear, every element of the source block is found in the destination block
    afterwards, the counter is zero and both indexes are behind their blocks. *)
Theorem rep_movs_copies_block s k v fuel :
  stringy s 2 -> opsize (op_size s) -> commandId (m_result s) = diana_cmd_movs ->
  rip_changed s = false -> flag DF (m_flags s) = false ->
  rval s (counter s) = k -> k < Z.of_nat fuel ->
  block_fits s (dest s) k -> block_fits s (source s) k -> separate s k ->
  mapped (m_pMemoryStream s) (rval s reg_ES) (dest s) (k * element s) ->
  (forall i, 0 <= i < k ->
    loads (m_pMemoryStream s) (rval s reg_DS) (source s + i * element s) (element s) reg_DS (v i)) ->
  exists s',
    CallWithRep fuel Diana_Call_movs false s = (Ok (Some tt), s') /\
    rval s' (counter s) = 0 /\
    source s' = (source s + k * element s) mod modulus (address_size s) /\
    dest s' = (dest s + k * element s) mod modulus (address_size s) /\
    forall i, 0 <= i < k ->
      loads (m_pMemoryStream s') (rval s reg_ES) (dest s + i * element s) (element s) reg_ES (v i).
Proof. exact (rep_movs_copies s k v fuel). Qed.

(** C36: [cmps] and [scas] compare one element, of DS:(E|R)SI or the accumulator with
    ES:(E|R)DI, set the flags of that comparison and step the indexes by the element size in the
    direction of DF. *)
Theorem cmps_and_scas_spec s y :
  loads (m_pMemoryStream s) (rval s reg_ES) (dest s) (element s) reg_ES y ->
  (forall x, stringy s 2 ->
    loads (m_pMemoryStream s) (rval s reg_DS) (source s) (element s) reg_DS x ->
    Call Diana_Call_cmps s =
    (Ok tt, with_flags (cmp_flags (element s) x y) (moved_dest s (moved_source s s)))) /\
  (stringy s 1 ->
    Call Diana_Call_scas s =
    (Ok tt, with_flags (cmp_flags (element s) (window s reg_RAX (element s)) y) (moved_dest s s))).
Proof.
  intros L. split.
  - intros x S1 Lx. exact (cmps_run s x y S1 Lx L).
  - intros S1. exact (scas_run s y S1 L).
Qed.

(** C37: initialisation.  [DianaProcessor_Init] makes one allocation for the register vector; when
    it fails the status is DI_OUT_OF_MEMORY, else the processor is well formed and idle, every
    register reads zero, whatever the allocated block held, and the context is that of the mode. *)
Theorem initialisation_spec m_alloc pMemoryStream mode :
  (m_alloc DI_REG_INIT_VALUE = None ->
   fst (DianaProcessor_Init m_alloc pMemoryStream mode) = Err DI_OUT_OF_MEMORY) /\
  (forall block, m_alloc DI_REG_INIT_VALUE = Some block ->
   Z.of_nat (length block) = DI_REG_INIT_VALUE ->
   exists s, DianaProcessor_Init m_alloc pMemoryStream mode = (Ok tt, s) /\
     (stream_wf pMemoryStream -> wf s) /\ idle s /\ (forall r, rval s r = 0) /\
     m_context s = Diana_InitContext mode /\ m_pMemoryStream s = pMemoryStream).
Proof.
  split; [exact (Init_out_of_memory m_alloc pMemoryStream mode)|].
  intros block A L. exists (initial pMemoryStream mode).
  split; [apply (Init_runs m_alloc block); [exact A|exact (block_length block L)]|].
  split; [apply initial_wf|]. split; [apply initial_idle|].
  split; [apply initial_registers|]. split; reflexivity.
Qed.

(** C38: scans and counts of bits.  For a non-zero source [bsf] stores the index of the lowest set
    bit and [bsr] that of the highest, with ZF clear; for a zero source the destination keeps its
    value and ZF is set; no other flag changes.  [popcnt] stores the number of set bits with all
    flags clear but ZF for a zero source; [lzcnt] and [tzcnt] store the number of zeros above the
    highest and below the lowest set bit, the full width for zero, with CF for a zero source and ZF
    for a zero count. *)
Theorem bit_scan_and_count_spec s d n x m :
  maps s d n x m ->
  let found i := with_flags (fun _ => setf ZF false (m_flags s)) (put_operand 0 i s) in
  let counted c := with_flags (fun _ => setf ZF (c =? 0) (setf CF (x =? 0) (m_flags s)))
                     (put_operand 0 c s) in
  (x = 0 -> forall f, In f [Diana_Call_bsf; Diana_Call_bsr] ->
   Call f s = (Ok tt, with_flags (fun _ => setf ZF true (m_flags s)) s)) /\
  (x <> 0 ->
   (exists i, lowest_bit x i /\ Call Diana_Call_bsf s = (Ok tt, found i)) /\
   Call Diana_Call_bsr s = (Ok tt, found (Z.log2 x))) /\
  Call Diana_Call_popcnt s =
    (Ok tt, with_flags (fun _ => setf ZF (x =? 0) (no_flags (m_flags s)))
              (put_operand 0 (ones_below 64 x) s)) /\
  Call Diana_Call_lzcnt s = (Ok tt, counted (leading_zeros (8 * m) x)) /\
  (exists c, trailing_zeros (8 * m) x c /\ Call Diana_Call_tzcnt s = (Ok tt, counted c)).
Proof.
  intros M found counted. destruct (scans s d n x m M) as (Z0 & N0).
  split; [exact Z0|]. split; [exact N0|]. split; [exact (popcnt_run s d n x m M)|]. split.
  - destruct (count_run true s d n x m M) as (c & -> & E). exact E.
  - exact (count_run false s d n x m M).
Qed.

(** C39: [pdep] and [pext].  [pdep] moves the low bits of the source to the places of the mask bits,
    in order ([rank] is the number of mask bits below), [pext] moves the bits under the mask to
    the low places; extracting a deposit gives back as many low bits of the source as the mask
    has, and depositing an extraction gives back the bits under the mask. *)
Theorem deposit_and_extract_spec s d n x m k :
  masked s d n x m k n ->
  let bits := Z.to_nat (8 * n) in
  let stored v := (Ok tt, with_flags (fun _ => m_flags s) (put_operand 0 v s)) in
  Call Diana_Call_pdep s = stored (deposit bits x k) /\
  Call Diana_Call_pext s = stored (extract bits x k) /\
  (forall p, 0 <= p -> Z.testbit (deposit bits x k) p =
     (p <? 8 * n) && Z.testbit k p && Z.testbit x (rank k p)) /\
  extract bits (deposit bits x k) k = x mod 2 ^ rank k (8 * n) /\
  deposit bits (extract bits x k) k = Z.land (x mod modulus n) k.
Proof.
  intros M bits stored. split; [exact (deposit_extract_run true s d n x m k n M eq_refl)|].
  split; [exact (deposit_extract_run false s d n x m k n M eq_refl)|].
  exact (deposit_laws s d n x m k M).
Qed.

(** [bswap] on 32 and 64 bits and [movbe] reverse the bytes, so that doing it twice gives the
    value back; no flag changes. *)
Theorem byte_swap_spec s d n :
  (unary s d n -> plain_result s n -> n = 4 \/ n = 8 ->
   Call Diana_Call_bswap s =
   (Ok tt, with_flags (fun _ => m_flags s) (put_operand 0 (swapped (Z.to_nat n) d) s))) /\
  (forall x m, maps s d n x m ->
   Call Diana_Call_movbe s =
   (Ok tt, with_flags (fun _ => m_flags s) (put_operand 0 (swapped (Z.to_nat n) x) s))) /\
  swapped (Z.to_nat n) (swapped (Z.to_nat n) d) = d mod 2 ^ (8 * Z.of_nat (Z.to_nat n)).
Proof.
  split; [exact (bswap_run s d n)|]. split; [exact (movbe_run s d n)|]. apply swapped_swapped.
Qed.
End Properties.

(** The register table.  Registers with storage of their own never overlap and lie inside the
    initial vector, so that it never grows; every sub-register lies inside its parent at the
    offset it was registered with. *)
Theorem register_table_layout :
  (forall r q, In r main_registers -> In q main_registers -> r <> q ->
     roff r + rsize r <= roff q \/ roff q + rsize q <= roff r) /\
  (forall r, In r main_registers -> 0 <= roff r /\ roff r + rsize r <= DI_REG_INIT_VALUE) /\
  (forall r p o, In (REGISTER_SUB_REGISTER r p o) registrations ->
     roff r = roff p + o /\ 0 <= o /\ o + rsize r <= rsize p).
Proof. exact (conj main_apart (conj main_inside sub_inside)). Qed.

(** C40: the 128-bit arithmetic of the code is exact.  [mul64], built from 32-bit halves, returns
    the unsigned product and [imul64] the signed one, as two 64-bit words; the 128-by-64-bit
    divisions return the exact quotient and remainder whenever the quotient fits in 64 bits (as an
    unsigned number for [div64]'s bit loop, as a signed one for [idiv64], which divides toward
    zero), and the error 1 otherwise. *)
Theorem wide_arithmetic_is_exact :
  (forall a b, word a -> word b -> wide (mul64 a b) = a * b /\ wide_words (mul64 a b)) /\
  (forall a b, sword a -> sword b -> wide_signed (imul64 a b) = a * b /\ wide_words (imul64 a b)) /\
  (forall l h b, word l -> word h -> 0 < b < W64 ->
   div64 l h b =
   if wide (l, h) / b <? W64 then Ok (wide (l, h) / b, wide (l, h) mod b) else Err 1) /\
  (forall l h b, word l -> word h -> sword b -> b <> 0 ->
   let q := Z.quot (wide_signed (l, h)) b in
   idiv64 l h b =
   if (- 0x8000000000000000 <=? q) && (q <? 0x8000000000000000)
   then Ok (u64 q, u64 (Z.rem (wide_signed (l, h)) b)) else Err 1).
Proof. exact (conj mul64_exact (conj imul64_exact (conj div64_exact idiv64_exact))). Qed.

(** The memory stream is a bounded byte map.  A write inside the buffer succeeds in full and a
    read of the same place then returns exactly the bytes written, whatever the segment register
    named; a read that leaves the buffer returns an error or fewer bytes than asked for, and
    changes nothing. *)
Theorem memory_stream_round_trip t sel off seg seg' bs :
  memory_stream_wf t -> bs <> [] -> Forall byte_ok bs ->
  (memory_linear t sel off + Z.of_nat (length bs) <= bufferSize t ->
   exists t',
     MemoryRandomStream_Write t sel off bs seg = (DI_SUCCESS, Z.of_nat (length bs), t') /\
     MemoryRandomStream_Read t' sel off (Z.of_nat (length bs)) seg' = (DI_SUCCESS, bs, t')) /\
  (bufferSize t < memory_linear t sel off + Z.of_nat (length bs) ->
   match MemoryRandomStream_Read t sel off (Z.of_nat (length bs)) seg with
   | (st, got, t') => t' = t /\ (st <> DI_SUCCESS \/ Z.of_nat (length got) <> Z.of_nat (length bs))
   end).
Proof. exact (memory_write_read t sel off seg seg' bs). Qed.
