(* ===== verification/Witnesses.v ===== *)
(** Concrete instances: every property of the processor with hypotheses, applied to a machine over
    the memory of Sample where its hypotheses hold, and the values it gives there. *)

From Stdlib Require Import ZArith Lia List Bool.
Import ListNotations.
From S2P Require Import Prelude Words Status Registers ProcStreams Processor CmdInternal CmdArith.
From S2P Require Import CmdLogic CmdFlow CmdMulDiv CmdStack CmdString CmdMove CmdBits.
From S2P Require Import ProcessorInit State Exec Operands Rules ArithProofs Loops.
From S2P Require Import LogicProofs RegisterProofs Sample FlowProofs MulDivProofs.
From S2P Require Import Invariant StackProofs StringProofs BitProofs Properties.
From S2P Require Import BitProofs RegisterProofs.
Local Open Scope Z_scope.
Local Open Scope diana_scope.

(** ** The machines *)

(** [op eax, ecx] with EAX = 0xFFFFFFFE and ECX = 3, carry set. *)
Definition two_regs : DianaProcessor DianaRandomMemoryStream :=
  machine DIANA_MODE64 4 0 [(reg_RAX, 0xFFFFFFFE); (reg_RCX, 3)] 1 [reg_op reg_EAX 4; reg_op reg_ECX 4].

Lemma two_regs_binary : binary two_regs 0xFFFFFFFE 4 3 4.
Proof. constructor; sample. Qed.

Lemma two_regs_compares : compares two_regs 0xFFFFFFFE 4 3 4.
Proof. constructor; sample. Qed.

Lemma two_regs_ready : ready two_regs.
Proof. split; [sample|]. split; [apply opsize_closed; reflexivity|sample]. Qed.

(** [op byte \[rbx+2\], imm8]: the byte at 0x12 holds 0x12. *)
Definition byte_in_memory : DianaProcessor DianaRandomMemoryStream :=
  machine DIANA_MODE64 4 0 [(reg_RBX, 0x10)] 0 [mem_op reg_RBX 2 1; imm_op 3 1].

Lemma byte_in_memory_binary : binary byte_in_memory 0x12 1 3 1.
Proof. constructor; sample. Qed.

Lemma byte_in_memory_unary : unary byte_in_memory 0x12 1.
Proof. constructor; sample. Qed.

(** ** The witnesses *)

Lemma handlers_keep_processor_ready_witness : ready (snd (Call Diana_Call_add two_regs)).
Proof.
  apply handlers_keep_processor_ready; [now left|exact two_regs_ready].
Defined.

Lemma cmp_then_condition_witness :
  exists s', Call Diana_Call_cmp two_regs = (Ok tt, s') /\
    fst (cond_a s') = Ok true /\ fst (cond_l s') = Ok true.
Proof.
  destruct (cmp_then_condition two_regs _ _ _ _ two_regs_compares) as (s' & E & _ & F).
  exists s'. split; [exact E|]. rewrite Forall_forall in F. split.
  - pose proof (F (cond_a, 3 <? 0xFFFFFFFE) ltac:(left; reflexivity)) as A.
    cbn [fst snd] in A. now rewrite A.
  - pose proof (F (cond_l, -2 <? 3) ltac:(do 8 right; left; reflexivity)) as A.
    cbn [fst snd] in A. now rewrite A.
Defined.

Lemma add_and_sub_spec_witness :
  (exists s1 s2, Call Diana_Call_add two_regs = (Ok tt, s1) /\ rval s1 reg_EAX = 1 /\
     m_flags s1 = 0x11 /\ Call Diana_Call_adc two_regs = (Ok tt, s2) /\ rval s2 reg_EAX = 2) /\
  (exists s1 s2, Call Diana_Call_sub byte_in_memory = (Ok tt, s1) /\
     Call Diana_Call_sbb byte_in_memory = (Ok tt, s2) /\
     memory_cell (m_pMemoryStream s1) 0x12 = Some 0xF /\ m_flags s1 = 0x14).
Proof.
  split.
  - destruct (add_and_sub_spec two_regs _ _ _ _ two_regs_binary) as (E1 & E2 & _).
    eexists. eexists. split; [exact E1|]. split; [vm_compute; reflexivity|].
    split; [vm_compute; reflexivity|]. split; [exact E2|vm_compute; reflexivity].
  - destruct (add_and_sub_spec byte_in_memory _ _ _ _ byte_in_memory_binary) as (_ & _ & E1 & E2).
    eexists. eexists. split; [exact E1|]. split; [exact E2|]. split; vm_compute; reflexivity.
Defined.

Lemma inc_dec_neg_spec_witness :
  exists s1 s2 s3, Call Diana_Call_inc byte_in_memory = (Ok tt, s1) /\
    Call Diana_Call_dec byte_in_memory = (Ok tt, s2) /\
    Call Diana_Call_neg byte_in_memory = (Ok tt, s3) /\
    memory_cell (m_pMemoryStream s1) 0x12 = Some 0x13 /\
    memory_cell (m_pMemoryStream s2) 0x12 = Some 0x11 /\
    memory_cell (m_pMemoryStream s3) 0x12 = Some 0xEE.
Proof.
  destruct (inc_dec_neg_spec byte_in_memory _ _ byte_in_memory_unary) as (E1 & E2 & E3).
  do 3 eexists. split; [exact E1|]. split; [exact E2|]. split; [exact E3|].
  repeat split; vm_compute; reflexivity.
Defined.

Lemma logic_spec_witness :
  exists s1 s2 s3, Call Diana_Call_and byte_in_memory = (Ok tt, s1) /\
    Call Diana_Call_or byte_in_memory = (Ok tt, s2) /\
    Call Diana_Call_xor byte_in_memory = (Ok tt, s3) /\
    memory_cell (m_pMemoryStream s1) 0x12 = Some 2 /\
    memory_cell (m_pMemoryStream s2) 0x12 = Some 0x13 /\
    memory_cell (m_pMemoryStream s3) 0x12 = Some 0x11.
Proof.
  destruct (logic_spec byte_in_memory _ _ _ _ byte_in_memory_binary) as (E1 & E2 & E3).
  do 3 eexists. split; [exact E1|]. split; [exact E2|]. split; [exact E3|].
  repeat split; vm_compute; reflexivity.
Defined.

Lemma shift_spec_witness :
  exists s1 s2 s3, Call Diana_Call_shl two_regs = (Ok tt, s1) /\ rval s1 reg_EAX = 0xFFFFFFF0 /\
    Call Diana_Call_shr two_regs = (Ok tt, s2) /\ rval s2 reg_EAX = 0x1FFFFFFF /\
    Call Diana_Call_sar two_regs = (Ok tt, s3) /\ rval s3 reg_EAX = 0xFFFFFFFF.
Proof.
  destruct (shift_spec two_regs _ _ _ _ two_regs_binary) as (E1 & E2 & E3).
  do 3 eexists. split; [exact E1|]. split; [vm_compute; reflexivity|].
  split; [exact E2|]. split; [vm_compute; reflexivity|]. split; [exact E3|vm_compute; reflexivity].
Defined.

Lemma rotates_spec_witness :
  exists s1 s2 s3 s4, Call Diana_Call_rol two_regs = (Ok tt, s1) /\ rval s1 reg_EAX = 0xFFFFFFF7 /\
    Call Diana_Call_ror two_regs = (Ok tt, s2) /\ rval s2 reg_EAX = 0xDFFFFFFF /\
    Call Diana_Call_rcl two_regs = (Ok tt, s3) /\ rval s3 reg_EAX = 0xFFFFFFF7 /\
    Call Diana_Call_rcr two_regs = (Ok tt, s4) /\ rval s4 reg_EAX = 0xBFFFFFFF.
Proof.
  destruct (rotates_spec two_regs _ _ _ _ two_regs_binary) as ((E1 & E2) & E3 & E4).
  do 4 eexists. split; [exact E1|]. split; [vm_compute; reflexivity|].
  split; [exact E2|]. split; [vm_compute; reflexivity|]. split; [exact E3|].
  split; [vm_compute; reflexivity|]. split; [exact E4|vm_compute; reflexivity].
Defined.

(** [shld eax, ecx, 8]. *)
Definition three_ops : DianaProcessor DianaRandomMemoryStream :=
  machine DIANA_MODE64 4 0 [(reg_RAX, 0x12345678); (reg_RCX, 0xAB000000)] 0
    [reg_op reg_EAX 4; reg_op reg_ECX 4; imm_op 8 1].

Lemma shld_spec_witness :
  exists s', Call Diana_Call_shld three_ops = (Ok tt, s') /\ rval s' reg_EAX = 0x345678AB.
Proof.
  eexists. split.
  - apply (shld_spec three_ops 0x12345678 4 0xAB000000 8 1).
    + constructor; [constructor; sample|sample].
    + vm_compute. discriminate.
  - vm_compute. reflexivity.
Defined.

(** One-operand instructions on CL with AX = 200, and on EBX with EDX:EAX = -7. *)
Definition by_seven : DianaProcessor DianaRandomMemoryStream :=
  machine DIANA_MODE64 4 0 [(reg_RAX, 200); (reg_RCX, 7)] 0 [reg_op reg_CL 1].
Definition by_zero : DianaProcessor DianaRandomMemoryStream :=
  machine DIANA_MODE64 4 0 [(reg_RAX, 200)] 0 [reg_op reg_CL 1].
Definition by_one : DianaProcessor DianaRandomMemoryStream :=
  machine DIANA_MODE64 4 0 [(reg_RAX, 200); (reg_RCX, 1)] 0 [reg_op reg_CL 1].
Definition signed_regs : DianaProcessor DianaRandomMemoryStream :=
  machine DIANA_MODE64 4 0 [(reg_RAX, 0xFFFFFFF9); (reg_RDX, 0xFFFFFFFF); (reg_RBX, 2)] 0
    [reg_op reg_EBX 4].

Lemma mul_spec_witness :
  exists s', Call Diana_Call_mul by_seven = (Ok tt, s') /\ pair_value s' 1 = 1400.
Proof.
  destruct (mul_spec by_seven 7 1) as (s' & E & V & _); [constructor; sample|].
  exists s'. split; [exact E|exact V].
Defined.

Lemma imul_spec_witness :
  (exists s', Call Diana_Call_imul signed_regs = (Ok tt, s') /\
     pair_value s' 4 = 0xFFFFFFFFFFFFFFF2) /\
  (exists s1 s2, Call Diana_Call_imul two_regs = (Ok tt, s1) /\ rval s1 reg_EAX = 0xFFFFFFFA /\
     Call Diana_Call_imul three_ops = (Ok tt, s2) /\ rval s2 reg_EAX = 0x58000000).
Proof.
  split.
  - destruct (proj1 (imul_spec signed_regs) 2 4) as (s' & E & V & _);
      [constructor; sample|reflexivity|].
    exists s'. split; [exact E|exact V].
  - destruct (proj2 (imul_spec two_regs) _ _ _ _ two_regs_binary (Z.le_refl 4)) as [E1 _].
    destruct (proj2 (imul_spec three_ops) 0x12345678 4 0xAB000000 4) as [_ E2];
      [constructor; sample|lia|].
    do 2 eexists. split; [apply E1; reflexivity|]. split; [vm_compute; reflexivity|].
    split; [apply (E2 8 1); [sample|lia|reflexivity]|vm_compute; reflexivity].
Defined.

Lemma div_spec_witness :
  (exists s', Call Diana_Call_div by_seven = (Ok tt, s') /\ rval s' reg_AL = 28 /\
     rval s' reg_AH = 4) /\
  Call Diana_Call_div by_zero = (Err DI_DIVISION_BY_ZERO, by_zero).
Proof.
  split.
  - destruct (div_spec by_seven 7 1) as (_ & _ & D); [constructor; sample|].
    destruct D as (s' & E & _ & Q & R); [discriminate|vm_compute; reflexivity|].
    exists s'. split; [exact E|]. split; [exact Q|exact R].
  - destruct (div_spec by_zero 0 1) as (Z0 & _); [constructor; sample|]. now apply Z0.
Defined.

Lemma idiv_spec_witness :
  exists s', Call Diana_Call_idiv signed_regs = (Ok tt, s') /\ rval s' reg_EAX = 0xFFFFFFFD /\
    rval s' reg_EDX = 0xFFFFFFFF.
Proof.
  destruct (idiv_spec signed_regs 2 4) as (_ & _ & _ & D); [constructor; sample|].
  destruct D as (s' & E & _ & Q & R); [discriminate|vm_compute; reflexivity|vm_compute; reflexivity|].
  exists s'. split; [exact E|]. split; [exact Q|exact R].
Defined.

(** 200 / 1 in AL: the quotient 200 is stored as -56. *)
Lemma idiv_accepts_unrepresentable_quotients_witness :
  exists s', Call Diana_Call_idiv by_one = (Ok tt, s') /\ rval s' reg_AL = 200.
Proof.
  destruct (idiv_accepts_unrepresentable_quotients by_one 1 1) as (s' & E & Q & _);
    [constructor; sample|discriminate|vm_compute; discriminate|reflexivity
    |split; [vm_compute; discriminate|vm_compute; reflexivity]|].
  exists s'. split; [exact E|exact Q].
Defined.

(** [je rel8] and [sete cl], ZF set. *)
Definition at_je : DianaProcessor DianaRandomMemoryStream :=
  machine DIANA_MODE64 4 0 [] 0x40 [rel_op 0x20 1].

Lemma conditional_instructions_spec_witness :
  exists s', Call Diana_Call_je at_je = (Ok tt, s') /\ rval s' reg_RIP = 0x23.
Proof.
  destruct (conditional_instructions_spec Diana_Call_je Diana_Call_cmove Diana_Call_sete cc_e at_je)
    as (J & _); [do 4 right; left; reflexivity|].
  eexists. split; [apply J; constructor; sample|vm_compute; reflexivity].
Defined.

(** The same with the 64-bit operands of a jump in 64-bit mode, at 0x7FF600001000. *)
Definition at_high_je : DianaProcessor DianaRandomMemoryStream :=
  put_low reg_RIP 8 0x7FF600001000 (machine DIANA_MODE64 8 0 [] 0x40 [rel_op 0x20 1]).

Lemma at_high_je_jumps : jumps at_high_je 1 0 0x20.
Proof.
  constructor.
  - apply wf_put_low; [sample|exact rip_int|apply opsize_closed; reflexivity].
  - split; vm_compute; reflexivity.
  - reflexivity.
  - reflexivity.
  - apply opsize_closed. reflexivity.
  - apply opsize_closed. reflexivity.
Qed.

Lemma relative_jumps_reach_target_witness :
  exists s', Call Diana_Call_jmp at_high_je = (Ok tt, s') /\ rval s' reg_RIP = 0x7FF600001023.
Proof.
  destruct (relative_jumps_reach_target at_high_je 0x20 at_high_je_jumps) as ((s' & E & V) & _);
    [reflexivity|reflexivity|].
  exists s'. split; [exact E|]. rewrite V. vm_compute. reflexivity.
Defined.

(** A store to AH, and one to the second of the 32-bit registers, in 64-bit mode. *)
Lemma ah_part : part_of reg_AH reg_RAX 1 1.
Proof. eexists. split; [left; reflexivity|right; left; reflexivity]. Qed.

Lemma register_store_aliases_witness :
  (exists s', SET_REG reg_AH 0x5A two_regs = (Ok tt, s') /\ GET_REG reg_EAX s' = (Ok 0xFFFF5AFE, s')) /\
  (exists s', SET_REG reg_EAX 7 (put_register reg_RAX 0x1122334455667788 two_regs) = (Ok tt, s') /\
     GET_REG reg_RAX s' = (Ok 7, s')).
Proof.
  assert (Pe : part_of reg_EAX reg_RAX 0 4) by (eexists; split; [left; reflexivity|right; right; left; reflexivity]).
  assert (Pr : part_of reg_RAX reg_RAX 0 8) by (eexists; split; [left; reflexivity|left; reflexivity]).
  assert (W : wf two_regs) by sample. split.
  - destruct (register_store_aliases two_regs reg_AH reg_RAX 1 1 0x5A W eq_refl ah_part) as (old & s' & Eo & _ & Es & _ & En).
    exists s'. split; [exact Es|]. rewrite (En _ _ _ _ Pe), Z.eqb_refl.
    assert (V : old reg_RAX = 0xFFFFFFFE) by (pose proof (Eo _ Pr) as E; vm_compute in E; injection E as E; symmetry; exact E).
    rewrite V. reflexivity.
  - destruct (register_store_aliases (put_register reg_RAX 0x1122334455667788 two_regs) reg_EAX reg_RAX 0 4 7) as (old & s' & _ & _ & Es & _ & En);
      [apply wf_put_register; [exact W|apply int_regs_ok; vm_compute; tauto]|reflexivity|exact Pe|].
    exists s'. split; [exact Es|]. rewrite (En _ _ _ _ Pr). reflexivity.
Defined.

(** A stack: 64-bit [push rcx] with RSP = 0x80, and [push] with RSP = 4. *)
Definition stack_regs : DianaProcessor DianaRandomMemoryStream :=
  machine DIANA_MODE64 8 0 [(reg_RSP, 0x80); (reg_RCX, 0x1122334455667788)] 0 [reg_op reg_RCX 8].
Definition low_stack : DianaProcessor DianaRandomMemoryStream :=
  machine DIANA_MODE64 8 0 [(reg_RSP, 4)] 0 [reg_op reg_RCX 8].

Lemma stack_regs_stacked : stacked stack_regs.
Proof. constructor; [sample|reflexivity|apply opsize_closed; reflexivity|apply opsize_closed; reflexivity]. Qed.

Lemma low_stack_stacked : stacked low_stack.
Proof. constructor; [sample|reflexivity|apply opsize_closed; reflexivity|apply opsize_closed; reflexivity]. Qed.

Lemma stack_regs_room : room stack_regs.
Proof. split; [vm_compute; discriminate|apply mapped_memory; vm_compute; reflexivity]. Qed.

Lemma push_then_pop_witness :
  fst ((diana_internal_push 0x1234 ;;; diana_internal_pop) stack_regs) = Ok 0x1234.
Proof. now rewrite (push_then_pop stack_regs 0x1234 stack_regs_stacked stack_regs_room). Defined.

(** [push gs] with GS = 0x2B, also with RSP = 4, and [push -8] with an immediate of four bytes that is
    marked to extend its sign. *)
Definition as_push (flags : Z) (op : DianaLinkedOperand) (s : DianaProcessor DianaRandomMemoryStream) :=
  with_result (fun r => mkDianaParserResult flags (commandId r) [op] 1 (iPrefix r) (iFullCmdSize r)) s.
Definition segment_push := as_push DI_FLAG_CMD_PUSH_SEG (reg_op reg_GS 2) (put_register reg_GS 0x2B stack_regs).
Definition low_segment_push := as_push DI_FLAG_CMD_PUSH_SEG (reg_op reg_GS 2) low_stack.
Definition extending_push := as_push DI_FLAG_CMD_AMD64_SIGN_EXTENDS (imm_op 0xFFFFFFF8 4) stack_regs.

Lemma as_push_stacked flags op s : stacked s -> idle s -> stacked (as_push flags op s) /\ idle (as_push flags op s).
Proof. intros [W P Ho Ha] I. split; [constructor; [destruct W; now constructor|exact P|exact Ho|exact Ha]|exact I]. Qed.

Lemma put_register_stacked r v s : int_reg r -> stacked s -> idle s ->
  stacked (put_register r v s) /\ idle (put_register r v s).
Proof. intros R [W P Ho Ha] I. split; [constructor; auto using wf_put_register|exact I]. Qed.

Lemma push_and_pop_spec_witness :
  stack_pointer (snd (Call Diana_Call_push segment_push)) = 0x78 /\
  loads (m_pMemoryStream (snd (Call Diana_Call_push segment_push))) 0 0x78 2 reg_SS 0x2B /\
  loads (m_pMemoryStream (snd (Call Diana_Call_push extending_push))) 0 0x78 8 reg_SS 0xFFFFFFFFFFFFFFF8 /\
  Call Diana_Call_push low_segment_push = (Err DI_ERROR, low_segment_push).
Proof.
  destruct (put_register_stacked reg_GS 0x2B _ (int_regs_ok reg_GS ltac:(vm_compute; tauto)) stack_regs_stacked) as (S0 & I0);
    [sample|].
  destruct (as_push_stacked DI_FLAG_CMD_PUSH_SEG (reg_op reg_GS 2) _ S0 I0) as (S1 & I1).
  destruct (as_push_stacked DI_FLAG_CMD_PUSH_SEG (reg_op reg_GS 2) _ low_stack_stacked) as (S2 & I2); [sample|].
  destruct (as_push_stacked DI_FLAG_CMD_AMD64_SIGN_EXTENDS (imm_op 0xFFFFFFF8 4) _ stack_regs_stacked) as (S3 & I3);
    [sample|].
  destruct (push_and_pop_spec segment_push 0x2B 2 S1 I1) as (P1 & _); [sample|].
  destruct (push_and_pop_spec low_segment_push 0 2 S2 I2) as (_ & P2 & _); [sample|].
  destruct (push_and_pop_spec extending_push 0xFFFFFFF8 4 S3 I3) as (P3 & _); [sample|].
  destruct P1 as (_ & E1 & L1); [split; [vm_compute; discriminate|apply mapped_memory; vm_compute; reflexivity]|].
  destruct P3 as (_ & _ & L3); [split; [vm_compute; discriminate|apply mapped_memory; vm_compute; reflexivity]|].
  change (stack_segment segment_push) with 0 in L1. change (stack_pointer segment_push - op_size segment_push) with 0x78 in *.
  split; [exact E1|]. split; [exact L1|]. split; [|apply P2; vm_compute; reflexivity].
  exact L3.
Defined.

(** [pusha] on 32 bits with ESP = 0x80, then [popa] after ECX was overwritten. *)
Definition saving_regs : DianaProcessor DianaRandomMemoryStream :=
  machine DIANA_MODE32 4 0 [(reg_ESP, 0x80); (reg_ECX, 0x11223344); (reg_EDI, 0x55667788)] 0 [].
Definition clobbered : DianaProcessor DianaRandomMemoryStream :=
  put_register reg_ECX 0 (snd (Call Diana_Call_pusha saving_regs)).

Lemma saving_regs_stacked : stacked saving_regs.
Proof. constructor; [sample|reflexivity|apply opsize_closed; reflexivity|apply opsize_closed; reflexivity]. Qed.

Lemma ready_put_register r v s : ready s -> In r gprs -> ready (put_register r v s).
Proof.
  intros (W & O & I) G. split; [|split; [exact O|exact I]].
  apply wf_put_register; [exact W|]. now apply int_regs_ok, gprs_int.
Qed.

Lemma saving_regs_ready : ready saving_regs.
Proof. split; [sample|]. split; [apply opsize_closed; reflexivity|sample]. Qed.

Lemma stack_handler m : In m stack_handlers -> In m handlers.
Proof. intros Hm. unfold handlers. rewrite !in_app_iff. tauto. Qed.

Lemma clobbered_ready : ready clobbered.
Proof.
  apply ready_put_register; [|sample_gpr].
  apply Call_ready; [|exact saving_regs_ready].
  apply keeps_handlers, stack_handler. do 5 right. now left.
Qed.

Lemma popa_restores_pusha_witness :
  exists s3, Call Diana_Call_popa clobbered = (Ok tt, s3) /\ stack_pointer s3 = 0x80 /\
    rval s3 reg_ECX = 0x11223344.
Proof.
  destruct clobbered_ready as (W & O & I).
  destruct (popa_restores_pusha saving_regs saved32 clobbered saving_regs_stacked)
    as (s1 & E & P).
  - sample.
  - left. split; reflexivity.
  - split; [vm_compute; discriminate|apply mapped_memory; vm_compute; reflexivity].
  - assert (C : s1 = snd (Call Diana_Call_pusha saving_regs)) by now rewrite E.
    rewrite C in P. clear C E s1. destruct P as (s3 & E3 & P3 & V3).
    + constructor; [exact W|exact (proj2 I)|exact O|vm_compute; auto].
    + exact I.
    + vm_compute. reflexivity.
    + vm_compute. reflexivity.
    + vm_compute. reflexivity.
    + vm_compute. reflexivity.
    + vm_compute. reflexivity.
    + exists s3. split; [exact E3|]. split; [rewrite P3; vm_compute; reflexivity|].
      rewrite (V3 reg_ECX); [vm_compute; reflexivity|right; now left|discriminate].
Defined.

(** A near call at RIP 0 with RSP = 0x80, and the return with other registers changed. *)
Definition at_call : DianaProcessor DianaRandomMemoryStream :=
  machine DIANA_MODE64 8 0 [(reg_RSP, 0x80)] 0 [rel_op 0x100 4].
Definition as_ret (s : DianaProcessor DianaRandomMemoryStream) :=
  with_result (fun _ => mkDianaParserResult 0 0 [] 0 0 1) s.
Definition at_ret : DianaProcessor DianaRandomMemoryStream :=
  as_ret (put_register reg_RAX 7 (snd (Call Diana_Call_call at_call))).

Lemma ready_as_ret s : ready s -> ready (as_ret s).
Proof. intros ([] & O & I). split; [now constructor|]. now split. Qed.

Lemma at_call_ready : ready at_call.
Proof. split; [sample|]. split; [apply opsize_closed; reflexivity|sample]. Qed.

Lemma at_ret_ready : ready at_ret.
Proof.
  apply ready_as_ret, ready_put_register; [|sample_gpr].
  apply Call_ready; [|exact at_call_ready]. apply keeps_handlers. unfold handlers, flow_handlers.
  rewrite !in_app_iff. right. right. left. cbn [In]. tauto.
Qed.

Lemma ret_returns_from_call_witness :
  exists s1 s3, Call Diana_Call_call at_call = (Ok tt, s1) /\ rval s1 reg_RIP = 0x103 /\
    Call Diana_Call_ret at_ret = (Ok tt, s3) /\ rval s3 reg_RIP = 3 /\ rval s3 reg_RSP = 0x80.
Proof.
  destruct at_ret_ready as (W & O & I).
  destruct (ret_returns_from_call at_call 0x100 at_ret) as (s1 & E & V & P).
  - constructor; [sample|sample|apply opsize_closed; reflexivity|reflexivity|reflexivity
      |apply mapped_memory; vm_compute; reflexivity].
  - exists s1. assert (C : s1 = snd (Call Diana_Call_call at_call)) by now rewrite E.
    rewrite C in P. destruct P as (s3 & E3 & R3 & P3);
      [exact W|exact I|vm_compute; reflexivity..|].
    exists s3. split; [exact E|]. split; [rewrite V; vm_compute; reflexivity|].
    split; [exact E3|]. split; [rewrite R3|rewrite P3]; vm_compute; reflexivity.
Defined.

(** [rep stosb] of 4 bytes at 0x40, [rep movsb] of 4 bytes from 0x10 to 0x40. *)
Definition at_stos : DianaProcessor DianaRandomMemoryStream :=
  as_command diana_cmd_stos
    (machine DIANA_MODE64 4 0 [(reg_RAX, 0xAB); (reg_RCX, 4); (reg_RDI, 0x40)] 0 [mem_op reg_RDI 0 1]).
Definition at_movs : DianaProcessor DianaRandomMemoryStream :=
  as_command diana_cmd_movs
    (machine DIANA_MODE64 4 0 [(reg_RSI, 0x10); (reg_RCX, 4); (reg_RDI, 0x40)] 0
       [mem_op reg_RDI 0 1; mem_op reg_RSI 0 1]).

Lemma at_stos_stringy : stringy at_stos 1.
Proof.
  constructor; [apply as_command_wf; sample|split; vm_compute; reflexivity|right; reflexivity
    |reflexivity|apply opsize_closed; reflexivity].
Qed.

Lemma at_movs_stringy : stringy at_movs 2.
Proof.
  constructor; [apply as_command_wf; sample|split; vm_compute; reflexivity|right; reflexivity
    |reflexivity|apply opsize_closed; reflexivity].
Qed.

Lemma at_stos_ready : ready at_stos.
Proof.
  split; [apply as_command_wf; sample|]. split; [apply opsize_closed; reflexivity|].
  split; vm_compute; reflexivity.
Qed.

(** A load from memory that evaluates. *)
Lemma loads_closed (t : DianaRandomMemoryStream) sel addr n seg v :
  match MemoryRandomStream_Read t sel addr n seg with
  | (st, bs, t') => (st =? DI_SUCCESS) && (Z.of_nat (length bs) =? n) && (le_decode bs =? v) &&
                    bytes_ok bs && bytes_ok (pBuffer t) = true /\ t' = t
  end -> loads t sel addr n seg v.
Proof.
  unfold loads. cbn [pReadFnc DianaRandomMemoryStream_stream].
  destruct (MemoryRandomStream_Read t sel addr n seg) as [[st bs] t']. intros [A ->].
  rewrite !andb_true_iff, !Z.eqb_eq in A. destruct A as ((((-> & L) & V) & B) & _).
  exists bs. repeat split; auto. now apply bytes_ok_spec.
Qed.

Lemma repetition_terminates_witness :
  exists r s', r <> Ok None /\ CallWithRep 1000 Diana_Call_stos false at_stos = (r, s').
Proof.
  destruct (repetition_terminates Diana_Call_stos false at_stos) as (r & N & _ & F).
  - do 3 right. now left.
  - exact at_stos_ready.
  - exists r. eexists. split; [exact N|]. apply F. vm_compute. reflexivity.
Defined.

Lemma rep_stos_fills_block_witness :
  exists s', CallWithRep 5 Diana_Call_stos false at_stos = (Ok (Some tt), s') /\
    dest s' = 0x44 /\
    loads (m_pMemoryStream s') 0 0x43 1 reg_ES 0xAB.
Proof.
  destruct (rep_stos_fills_block at_stos 4 5 at_stos_stringy) as (s' & E & _ & D & L).
  - apply opsize_closed. reflexivity.
  - reflexivity.
  - reflexivity.
  - reflexivity.
  - reflexivity.
  - reflexivity.
  - split; vm_compute; discriminate.
  - apply mapped_memory. vm_compute. reflexivity.
  - exists s'. split; [exact E|]. split; [rewrite D; vm_compute; reflexivity|].
    apply (L 3). lia.
Defined.

Lemma rep_movs_copies_block_witness :
  exists s', CallWithRep 5 Diana_Call_movs false at_movs = (Ok (Some tt), s') /\
    source s' = 0x14 /\ loads (m_pMemoryStream s') 0 0x42 1 reg_ES 0x12.
Proof.
  destruct (rep_movs_copies_block at_movs 4 (fun i => 0x10 + i) 5 at_movs_stringy)
    as (s' & E & _ & So & _ & L).
  - apply opsize_closed. reflexivity.
  - reflexivity.
  - reflexivity.
  - reflexivity.
  - reflexivity.
  - reflexivity.
  - split; vm_compute; discriminate.
  - split; vm_compute; discriminate.
  - intros i j Hi Hj. right.
    assert (Hi' : i = 0 \/ i = 1 \/ i = 2 \/ i = 3) by lia.
    assert (Hj' : j = 0 \/ j = 1 \/ j = 2 \/ j = 3) by lia.
    destruct Hi' as [->|[->|[->| ->]]], Hj' as [->|[->|[->| ->]]]; vm_compute; discriminate.
  - apply mapped_memory. vm_compute. reflexivity.
  - intros i Hi. assert (Hi' : i = 0 \/ i = 1 \/ i = 2 \/ i = 3) by lia.
    destruct Hi' as [->|[->|[->| ->]]]; apply loads_closed; vm_compute; split; reflexivity.
  - exists s'. split; [exact E|]. split; [rewrite So; vm_compute; reflexivity|]. apply (L 2). lia.
Defined.

Lemma cmps_and_scas_spec_witness :
  (exists s', Call Diana_Call_cmps at_movs = (Ok tt, s') /\ flag CF (m_flags s') = true /\
    rval s' reg_RSI = 0x11 /\ rval s' reg_RDI = 0x41) /\
  (exists s', Call Diana_Call_scas at_stos = (Ok tt, s') /\ flag CF (m_flags s') = false).
Proof.
  split.
  - destruct (cmps_and_scas_spec at_movs 0x40) as [C _].
    { apply loads_closed; vm_compute; split; reflexivity. }
    eexists. split; [apply (C 0x10 at_movs_stringy); apply loads_closed; vm_compute; split; reflexivity|].
    repeat split; vm_compute; reflexivity.
  - destruct (cmps_and_scas_spec at_stos 0x40) as [_ C].
    { apply loads_closed; vm_compute; split; reflexivity. }
    eexists. split; [apply (C at_stos_stringy)|vm_compute; reflexivity].
Defined.

Lemma wide_arithmetic_is_exact_witness :
  wide (mul64 0xFFFFFFFFFFFFFFFF 0xFFFFFFFFFFFFFFFF) = 0xFFFFFFFFFFFFFFFE0000000000000001 /\
  wide_signed (imul64 (-3) 5) = -15 /\
  div64 0 1 3 = Ok (0x5555555555555555, 1) /\ div64 0 3 3 = Err 1 /\
  idiv64 (u64 (-7)) 0xFFFFFFFFFFFFFFFF 2 = Ok (u64 (-3), u64 (-1)).
Proof.
  destruct wide_arithmetic_is_exact as (P & Q & D & I).
  split; [apply P; split; [discriminate|reflexivity|discriminate|reflexivity]|].
  split; [apply Q; unfold sword; lia|].
  split; [rewrite D by (split; (discriminate || reflexivity)); vm_compute; reflexivity|].
  split; [rewrite D by (split; (discriminate || reflexivity)); vm_compute; reflexivity|].
  cbv zeta in I. rewrite I; [vm_compute; reflexivity|split; [discriminate|reflexivity]..|unfold sword; lia|lia].
Defined.

Lemma memory_stream_round_trip_witness :
  exists t', MemoryRandomStream_Write memory 0 254 [1; 2] reg_ES = (DI_SUCCESS, 2, t') /\
    MemoryRandomStream_Read t' 0 254 2 reg_DS = (DI_SUCCESS, [1; 2], t').
Proof.
  destruct (memory_stream_round_trip memory 0 254 reg_ES reg_DS [1; 2]) as [P _].
  - split; [reflexivity|]. split; [reflexivity|]. apply bytes_ok_spec. vm_compute. reflexivity.
  - discriminate.
  - apply bytes_ok_spec. reflexivity.
  - apply P. vm_compute. discriminate.
Defined.

Lemma initialisation_spec_witness :
  fst (DianaProcessor_Init (fun _ => None) memory DIANA_MODE32) = Err DI_OUT_OF_MEMORY /\
  exists s, DianaProcessor_Init plenty memory DIANA_MODE64 = (Ok tt, s) /\ rval s reg_RSP = 0.
Proof.
  split.
  - apply (initialisation_spec (fun _ => None) memory DIANA_MODE32). reflexivity.
  - destruct (initialisation_spec plenty memory DIANA_MODE64) as [_ I].
    destruct (I (repeat 0xCD 4096)) as (s & E & _ & _ & R & _).
    + reflexivity.
    + rewrite repeat_length. reflexivity.
    + exists s. split; [exact E|apply R].
Defined.

Ltac in_list := cbn; repeat first [left; reflexivity | right].

Lemma register_table_layout_witness :
  roff reg_AH = roff reg_AX + 1 /\
  (roff reg_RAX + rsize reg_RAX <= roff reg_RIP \/ roff reg_RIP + rsize reg_RIP <= roff reg_RAX).
Proof.
  destruct register_table_layout as (A & _ & S). split.
  - apply (S reg_AH reg_AX 1). in_list.
  - apply A; [in_list|in_list|discriminate].
Defined.

(** [op eax, ecx] with ECX = 0x00A0, and with ECX = 0. *)
Definition scan_regs : DianaProcessor DianaRandomMemoryStream :=
  machine DIANA_MODE64 4 0 [(reg_RAX, 5); (reg_RCX, 0xA0)] 0 [reg_op reg_EAX 4; reg_op reg_ECX 4].
Definition scan_zero : DianaProcessor DianaRandomMemoryStream :=
  machine DIANA_MODE64 4 0 [(reg_RAX, 5)] 0 [reg_op reg_EAX 4; reg_op reg_ECX 4].

Lemma scan_regs_maps : maps scan_regs 5 4 0xA0 4.
Proof. constructor; sample. Qed.

Lemma scan_zero_maps : maps scan_zero 5 4 0 4.
Proof. constructor; sample. Qed.

Lemma bit_scan_and_count_spec_witness :
  (exists s', Call Diana_Call_bsr scan_regs = (Ok tt, s') /\ rval s' reg_EAX = 7) /\
  (exists s', Call Diana_Call_bsf scan_zero = (Ok tt, s') /\ rval s' reg_EAX = 5) /\
  (exists s1 s2, Call Diana_Call_popcnt scan_regs = (Ok tt, s1) /\ rval s1 reg_EAX = 2 /\
     Call Diana_Call_lzcnt scan_regs = (Ok tt, s2) /\ rval s2 reg_EAX = 24).
Proof.
  destruct (bit_scan_and_count_spec scan_regs _ _ _ _ scan_regs_maps) as (_ & F & P & L & _).
  destruct (F ltac:(discriminate)) as [_ E]. split; [eexists; split; [exact E|vm_compute; reflexivity]|].
  split.
  - destruct (bit_scan_and_count_spec scan_zero _ _ _ _ scan_zero_maps) as [G _].
    eexists. split; [apply (G eq_refl); now left|vm_compute; reflexivity].
  - eexists. eexists. split; [exact P|]. split; [vm_compute; reflexivity|].
    split; [exact L|vm_compute; reflexivity].
Defined.

(** [pdep/pext eax, ecx, edx] with ECX = 5 and the mask 0xF0F0. *)
Definition masked_regs : DianaProcessor DianaRandomMemoryStream :=
  machine DIANA_MODE64 4 0 [(reg_RAX, 0); (reg_RCX, 0x35); (reg_RDX, 0xF0F0)] 0
    [reg_op reg_EAX 4; reg_op reg_ECX 4; reg_op reg_EDX 4].

Lemma deposit_and_extract_spec_witness :
  exists s', Call Diana_Call_pdep masked_regs = (Ok tt, s') /\ rval s' reg_EAX = 0x3050 /\
    extract 32 (deposit 32 0x35 0xF0F0) 0xF0F0 = 0x35.
Proof.
  destruct (deposit_and_extract_spec masked_regs 0 4 0x35 4 0xF0F0) as (D & _ & _ & E & _).
  - constructor; [constructor; sample|sample].
  - eexists. split; [exact D|]. split; [vm_compute; reflexivity|].
    etransitivity; [exact E|]. vm_compute. reflexivity.
Defined.

(** [bswap eax] with EAX = 0x11223344. *)
Definition swap_regs : DianaProcessor DianaRandomMemoryStream :=
  machine DIANA_MODE64 4 0 [(reg_RAX, 0x11223344)] 0 [reg_op reg_EAX 4].

Lemma byte_swap_spec_witness :
  exists s', Call Diana_Call_bswap swap_regs = (Ok tt, s') /\ rval s' reg_EAX = 0x44332211.
Proof.
  destruct (byte_swap_spec swap_regs 0x11223344 4) as (B & _ & _).
  eexists. split; [apply B|vm_compute; reflexivity].
  - constructor; sample.
  - sample.
  - now left.
Defined.
